(* ===== verification/_CoqProject ===== *)
-Q . S2P
Prelude.v
Region.v
RegionSpans.v
RegionBands.v
RegionTheorems.v
UserHandles.v
UserHandleTheorems.v
Unicode.v
UnicodeTheorems.v
Atoms.v
AtomTheorems.v
Handles.v
HandleTheorems.v
HandleCounts.v
HandleSteps.v
HandleClaims.v
RtlBitmap.v
RtlBitmapTheorems.v
RtlBitmapCounts.v
RtlBitmapRuns.v
FileLocks.v
FileLockHoles.v
FileLockTheorems.v
FileLockClaims.v
Sync.v
SyncRequests.v
SyncInvariant.v
SyncWaits.v
SyncWakeup.v
SyncOps.v
SyncSelect.v
SyncSignal.v
SyncHandlers.v
SyncThreads.v
SyncExit.v
SyncSpec.v
SyncClaims.v
Memory.v
Registry.v
RegistryTree.v
RegistrySearch.v
RegistryValues.v
RegistryOrder.v
RegistryForest.v
RegistryCreate.v
RegistryDelete.v
RegistryRename.v
RegistryMarks.v
RegistrySteps.v
RegistryClaims.v
Security.v
SecurityLists.v
SecurityDescr.v
Tokens.v
TokenAccess.v
TokenTheorems.v
TokenRestrict.v
TokenDescr.v
TokenRequests.v
TokenClaims.v
RegistryText.v
RegistryValueText.v
RegistryFile.v
RegistrySections.v
RegistryPaths.v
RegistryLoad.v
RegistryTextClaims.v
RegistrySnapshot.v
Windows.v
WindowQueries.v
WindowPaint.v
WindowRequests.v
WindowTree.v
WindowUpdate.v
WindowRedraw.v
WindowMoved.v
WindowSteps.v
WindowReplies.v
WindowProps.v
WindowClaims.v
