(* ===== verification/Prelude.v ===== *)
(** * A verification library for the core of the server and of the run-time library

    The program is a version of Wine.  Windows processes talk to a single server
    process, which owns everything they share: handles, objects, windows and what is
    to be painted of them, atoms, file locks, events and the threads that wait for
    them, the registry and the tokens that decide who may open what.  The server (server/
    under the Wine source tree) is single-threaded and event driven: a request
    handler reads its arguments, changes the server's state through the routines of
    one component, sets the status of the request and replies.  Next to it, the run-time library
    (dlls/ntdll/) runs inside every process.  This library models the routines of
    eleven components, one definition per C function, and proves what makes each of
    them correct.  File names below are relative to the Wine source tree.

    ** Components and files

    - [Prelude]: C integers as [Z] with their wrap-around written out ([u16],
      [u32], [u64], [i32]), and what every routine of the server shares: the status
      of the current request (server/thread.h) and the allocator (server/object.c
      [mem_alloc]) with the data of the reply (server/request.c), as a state monad
      [M].  The allocator answers from an arbitrary
      list, so that every theorem covers running out of memory at any point.
    - Regions, server/region.c with the rectangle helpers of server/user.h:
      [Region] has the data and routines; [RegionSpans] the per-band routines,
      [RegionBands] the sweep over bands, [RegionTheorems] the set operations,
      queries, translation, mirroring and scaling.
    - User handles, server/user.c: [UserHandles] and [UserHandleTheorems].
    - Strings, server/unicode.c: [Unicode] and [UnicodeTheorems].
    - Atoms, server/atom.c: [Atoms] and [AtomTheorems]; atoms call the hash and
      comparison of the strings.
    - Kernel handles, server/handle.c, and reference counts, server/object.c:
      [Handles]; [HandleTheorems] (one table), [HandleCounts] (the counts of all
      objects), [HandleSteps] (inheritance, duplication, sequences of operations)
      and [HandleClaims].
    - Bitmaps, dlls/ntdll/rtlbitmap.c: [RtlBitmap]; [RtlBitmapTheorems] (ranges and
      searches), [RtlBitmapCounts] (counting, significant bits), [RtlBitmapRuns].
    - File locks, server/fd.c with server/file.c [file_set_error]: [FileLocks];
      [FileLockHoles] (the bytes given back to the kernel), [FileLockTheorems] (the
      lists of locks, sequences of operations) and [FileLockClaims].  A lock is an
      object of the handle tables, and waiting for one allocates a handle to it.
    - Waits, server/thread.c and server/process.c, with events, semaphores and
      mutexes, server/event.c, semaphore.c and mutex.c, on top of the handle tables
      and reference counts: [Sync] has the data, the wait queues and the operations
      on objects, [SyncRequests] the requests, suspending and the end of a thread.
      [SyncInvariant] states the invariant; [SyncWaits] ends waits, [SyncWakeup]
      wakes threads, [SyncOps] operates on objects, [SyncSelect] and [SyncSignal]
      start waits, [SyncHandlers], [SyncThreads] and [SyncExit] cover the rest;
      [SyncSpec] puts operations in sequence and has the abstract machine, and
      [SyncClaims] has the theorems.
    - The registry, server/registry.c, with the comparison of the strings and the
      lookup of names in server/object.c: [Registry] has keys, values and the
      operations on the values of a key, [RegistryTree] the lookup of paths and the
      operations on the tree of keys.  [RegistrySearch], [RegistryValues]
      and [RegistryOrder] cover names, values, notifications and marks,
      [RegistryForest], [RegistryCreate], [RegistryDelete] and [RegistryRename] the
      tree, [RegistryMarks] the choice of the branches to write; [RegistrySteps] puts
      operations in sequence and decides the invariant, and [RegistryClaims] has the
      theorems.
    - The files of the registry, in the same source: [RegistryText] writes and reads
      values line by line, [RegistryFile] keys, sections and whole files.
      [RegistryValueText] covers lines, numbers and values, [RegistrySections]
      sections, [RegistryPaths] the creation of the keys of a path, [RegistryLoad]
      reading a file; [RegistryTextClaims] writes one and has the round trip.
      [RegistrySnapshot] has the snapshots that the server sends and
      dlls/ntdll/unix/registry.c writes to a file, and compares the file with the one
      that the server writes itself.
    - Security, server/token.c and security.h, with the descriptors of objects in
      server/object.c and handle.c: [Memory] has bytes, blocks and pointers, where
      a read outside a block or of a byte never written is undefined; [Security]
      SIDs, lists of entries, descriptors and labels; [Tokens] privileges, the
      access check and the life of tokens; [TokenRequests] the requests, on top of
      the handle tables.  [SecurityLists] and [SecurityDescr] say what the bytes
      encode, [TokenAccess] is the decision on sets of rights, [TokenTheorems],
      [TokenRestrict] and [TokenDescr] cover tokens, and [TokenClaims] has the
      theorems.
    - Windows, server/window.c, on top of the user handles, regions and atoms:
      [Windows] has the data, the lists of children and the tree, [WindowQueries]
      visibility, coordinates and searches, [WindowPaint] visible and update regions,
      redrawing and changes of position, [WindowRequests] the requests, [WindowProps]
      the properties with the map that they refine.  The state holds all windows by
      address, with the message queues as far as paint messages go, so that a routine
      that reaches a window in two ways changes one window.  [WindowTree] has the
      invariant of the tree and of the Z-order, [WindowUpdate] what is visible, pixel
      by pixel, and the counts of paint messages, [WindowRedraw] invalidation and
      what changes expose, [WindowMoved] set_window_pos, [WindowSteps] requests in
      sequence, [WindowReplies] owners, parents and extra bytes, and [WindowClaims]
      has the theorems.

    ** How the code is modelled

    A struct is a [Record], a pointer into an array or a list of objects is an
    index or an address, a linked list is the links themselves where the code
    maintains them by hand (the atom chains) and a list in order elsewhere.  A C
    routine that fails returns what it returns in C and sets the error; an
    assertion or an access outside an array that the code does not exclude is
    [None].  A loop that is not structural has fuel:

    - region_op: the number of rectangles of both operands, because every
      iteration moves one of the two cursors; mirror_region: the number of
      rectangles; parse_strW: the length of the input plus one; the search of an
      atom chain: the number of slots;
    - RtlFindSetBits and the run search: the number of bits plus one, since every
      position is tried at most once;
    - set_unix_lock: three rounds, one for each reason to retry and the first;
      removal of the locks of a process or fd: the length of the list plus one;
    - wake_thread and the end of a thread: the number of waits of the thread, since
      every round ends one; wake_up: the number of waits of all threads plus one,
      for the same reason; abandon_mutexes: the length of the list of mutexes;
    - the bisection of a sorted array: its length plus one; the walk to the root
      (touch_key, make_dirty) and make_clean: the number of keys, since no key is met
      twice; delete_key with everything below: twice the number of keys plus one,
      since a key is entered and left once;
    - get_sid_count: the number of bytes, since every SID takes some;
    - reading a line, a value of several lines or a file: the number of characters
      left plus one, since every round takes some; create_key_recursive: the length of
      the path; the lookup of a path: twice its length plus four, since an element and
      the link that it may be are two steps; dump_path, save_subkeys, serialize_key and update_key_time: the number
      of keys; reading a snapshot: the number of bytes;
    - walks up, down and along the tree of windows ([tree_fuel]): the number of windows
      plus one, since a way to the root meets no window twice.

    Running out of fuel is a value ([None]) that the theorems exclude.

    Code outside the source tree, or of parts not modelled, is a parameter: the
    case mapping table (read from a file), the methods of an object (handles,
    tokens), check_object_access (handles; it is modelled with the tokens, where
    alloc_handle is put together with it), qsort (runs of bits), the answers of fcntl
    (file locks), the SID of the local user (tokens), the address of a new key and
    the lookup of the path in a symbolic link (registry), the desktop of a thread
    (windows).
    wake_up, close, fcntl and what windows ask of the input queues are recorded in
    order.

    ** What the theorems show

    - Regions: union, intersection, difference and symmetric difference keep regions
      in canonical form and compute the set operation on pixels, also when an
      operand is the destination; region_op terminates; queries decide membership;
      region data survive the trip through a request; translation moves every pixel;
      mirror_region is right only for bands of one rectangle.
    - User handles: allocation, release and enumeration; a released handle stays
      invalid until its 16-bit generation comes round again.
    - Strings: parse_strW reads back what dump_strW writes, stays within its
      buffers and decodes UTF-8; dump_strW never overruns its buffer; hashing
      agrees with comparison.
    - Atoms: adding, finding and deleting names in terms of the names the table
      holds, with the doubly linked chains consistent throughout.
    - Handles: in every reachable world handles lead to live objects and counts are
      exact; allocation takes the lowest free handle; closing, inheriting.
    - Bitmaps: every word-at-a-time operation against its meaning bit by bit.
    - File locks: locks exclude each other in every reachable state; every operation
      completes whatever the kernel answers; unlocking returns exactly the bytes
      that no lock covers any more.
    - Waits: in every reachable state reference counts are exact and queues, counts and
      lists of owned mutexes agree, and every operation runs without a failed assertion or an
      access to a freed object; no wakeup is lost; signaling refines a machine that
      has no queues and lets any wait end that can; the end of a thread wakes those
      who wait for it or for its mutexes.
    - Registry: every sequence of operations keeps the tree well formed and
      completes, except for the renames and the creation that are shown to break it;
      paths are created element by element, with an error for each way to fail; values and keys are found under their names after they are set and
      not after they are deleted; those who watch a key are notified; a change is
      marked up to the root so that the next save writes it.  A branch that is saved
      and loaded again comes back with its keys, values, classes and times; a process
      that flushes a branch writes the sections that the server would write, and those
      of keys whose subkeys are all volatile.
    - Security: validation accepts exactly the encodings of lists and descriptors,
      the access check decides as a specification on sets of rights, a handle carries
      the rights that it grants, filtered tokens have no more rights, adjusted
      privileges can be put back, descriptors are combined as documented.
    - Windows: whatever requests follow each other, windows stay a forest in which the
      lists of children, parents, references and the Z-order agree; linking and changing
      the parent put a window where it belongs and refuse circles, and so does setting
      the owner.  A visible region holds exactly the pixels that nothing hides, an
      invalidated region is added to the update regions and counted, and a window that
      moves, appears or disappears leaves nothing stale on itself and on its parent,
      unless that is the root or SWP_NOREDRAW is set: coordinates are bounded so that
      none of them wraps, and there is memory, as an update is dropped without it.
      Properties refine a finite map, and extra bytes are read and written inside their
      bounds, everything else being refused.

    Some theorems state what the code does where it is wrong: mirror_region on
    bands of several rectangles, inheriting a global handle, runs of bits searched
    from inside a byte, the Unix lock left behind for a single byte, a wakeup used
    up by a wait that has timed out, waiting for a semaphore twice at once, a
    mutex freed while its queue is walked, the places of registry values after one is
    deleted, a key renamed to the next place, an empty name in a key without parent, changes
    forgotten by a save, keys with only volatile subkeys, classes and places of unnamed values in a file, the places
    of values in a flushed file, the snapshot of a volatile key, entries of
    an ACL smaller than their header, sizes of ACLs that are not checked, a default
    DACL that is not there, denials lost in filtered tokens, reserved bits in the
    rights of a handle, which end the server, tokens that are never released, windows on the wrong list of
    children, a reply with the parents of a window that is written past its end, an
    error for an owner that has been set, and properties that cannot be read.

    ** Not modelled

    Of the registry: 32-bit redirection, open_key, key_destroy, enum_key, the request
    handlers, and opening, renaming and removing files.  Of
    security: token_dump, and init_user_sid with the mapping of the Unix user to a
    SID.  Of windows: creating and destroying them, which involves classes, threads,
    queues and hooks, the global windows of the shell, and the requests that only copy
    out lists and fields.  The rest of the server, in the order in which it may follow:
    timers, completion ports and keyed events; APCs and contexts of threads; the object
    namespace; input queues and hooks.  The eventfd and futex variants of
    the synchronisation objects are taken as switched off, and a write to the pipe of
    a thread as successful.  Sockets, pipes, mappings and the main loop are mostly
    calls to the operating system.  The other libraries and programs of the tree are
    left aside.  The handle tables record destructors, which run only for the objects
    of the wait component and for tokens; object names are not part of the model. *)

From Stdlib Require Import ZArith Lia.
From stdpp Require Import base list numbers option.

#[export] Set Default Goal Selector "!".

Declare Scope server_scope.
Delimit Scope server_scope with server.

#[local] Open Scope Z_scope.

(** ** Machine integers *)

(** A C integer is a [Z]; the unsigned and signed views of [w] bits are written
    out wherever the code can wrap. *)
Definition u16 (z : Z) : Z := z mod 2 ^ 16.

Definition u32 (z : Z) : Z := z mod 2 ^ 32.

Definition u64 (z : Z) : Z := z mod 2 ^ 64.

Definition i32 (z : Z) : Z := (z + 2 ^ 31) mod 2 ^ 32 - 2 ^ 31.

(** Values in range do not wrap. *)
Lemma u32_small z : 0 <= z < 2 ^ 32 -> u32 z = z.
Proof. apply Z.mod_small. Qed.

Lemma u64_small z : 0 <= z < 2 ^ 64 -> u64 z = z.
Proof. apply Z.mod_small. Qed.

Create Rewrite HintDb machine.

#[export] Hint Rewrite u32_small u64_small using lia : machine.

(** Drop the wrap-around of values that are in range. *)
Ltac unwrap := autorewrite with machine.

Definition not32 (z : Z) : Z := Z.lxor z (2 ^ 32 - 1).

(** The bits of 32-bit words. *)
Lemma not32_spec z i : 0 <= i < 32 -> Z.testbit (not32 z) i = negb (Z.testbit z i).
Proof.
  intros Hi. unfold not32. rewrite Z.lxor_spec. change (2 ^ 32 - 1) with (Z.ones 32).
  rewrite Z.ones_spec_low by lia. apply xorb_true_r.
Qed.

Lemma testbit_high z i : 0 <= z < 2 ^ 32 -> 32 <= i -> Z.testbit z i = false.
Proof.
  intros Hz Hi. rewrite <-(Z.mod_small z (2 ^ 32)) by done. apply Z.mod_pow2_bits_high. lia.
Qed.

(** A C condition [x & y] used as a truth value. *)
Definition has_bits (x y : Z) : bool := negb (Z.land x y =? 0).

(** Bits put below a shifted value are added to it. *)
Lemma lor_shiftl r k m : 0 <= k -> 0 <= m < 2 ^ k -> Z.lor (Z.shiftl r k) m = r * 2 ^ k + m.
Proof.
  intros Hk Hm. assert (Z.land (Z.shiftl r k) m = 0) as H.
  { apply Z.bits_inj'. intros n Hn. rewrite Z.land_spec, Z.shiftl_spec, Z.bits_0 by done.
    destruct (Z.lt_ge_cases n k); [by rewrite (Z.testbit_neg_r r) by lia|].
    rewrite <-(Z.mod_small m (2 ^ k)), Z.mod_pow2_bits_high by lia. apply andb_false_r. }
  pose proof (Z.add_lor_land (Z.shiftl r k) m) as E. rewrite H in E.
  rewrite <-Z.shiftl_mul_pow2 by done. lia.
Qed.

(** Case analysis on the integer comparisons of the goal. *)
Ltac zbools :=
  repeat (match goal with
          | |- context [?a <? ?b] => destruct (Z.ltb_spec a b)
          | |- context [?a <=? ?b] => destruct (Z.leb_spec a b)
          | |- context [?a =? ?b] => destruct (Z.eqb_spec a b)
          end; cbn [andb orb negb]; try lia; try done).

(** ** Request environment *)

(** What every routine of the server shares: the NTSTATUS of the request in
    progress (thread.h [set_error]/[get_error]) and the answers malloc and
    realloc will give, in order; once the list is used up they all succeed. *)
Record senv := mk_senv {
  error : Z;
  allocs : list bool
}.

Definition M (A : Type) : Type := senv -> A * senv.

Definition ret {A} (a : A) : M A := fun e => (a, e).

Definition bind {A B} (m : M A) (k : A -> M B) : M B :=
  fun e => let '(a, e') := m e in k a e'.

Notation "'let*' x := c 'in' k" := (bind c (fun x => k))
  (at level 10, x pattern, c at level 200, k at level 200, only parsing) : server_scope.
Notation "c ;;; k" := (bind c (fun _ => k))
  (at level 60, right associativity) : server_scope.

Lemma bind_run {A B} (m : M A) (k : A -> M B) e a e' : m e = (a, e') -> bind m k e = k a e'.
Proof. unfold bind. by intros ->. Qed.

Definition get_error : M Z := fun e => (error e, e).

Definition set_error (err : Z) : M unit :=
  fun e => (tt, {| error := err; allocs := allocs e |}).

Definition clear_error : M unit := set_error 0.

(** malloc or realloc: does this call return memory? *)
Definition malloc : M bool :=
  fun e => match allocs e with
           | [] => (true, e)
           | b :: l => (b, {| error := error e; allocs := l |})
           end.

Local Open Scope server_scope.

(** object.c [mem_alloc]: malloc, with STATUS_NO_MEMORY on failure. *)
Definition STATUS_NO_MEMORY : Z := 0xC0000017.

Definition mem_alloc : M bool :=
  let* ok := malloc in
  if ok then ret true else set_error STATUS_NO_MEMORY ;;; ret false.

(** request.c [set_reply_data_size]: does it return a pointer to write the data of
    the reply to? *)
Definition set_reply_data_size (n : Z) : M bool := if n =? 0 then ret false else mem_alloc.

(** request.h [set_reply_data]: the data that the reply has then. *)
Definition set_reply_data (data : list Z) : M (list Z) :=
  let* ok := set_reply_data_size (Z.of_nat (length data)) in
  ret (if ok then data else []).

(** Early exit of a routine that builds a result in place and reports success
    with a C boolean: on failure the partial result is returned. *)
Definition on_success {A} (m : M (A * bool)) (k : A -> M (A * bool)) : M (A * bool) :=
  let* (a, ok) := m in if ok then k a else ret (a, false).

(** ** Specifications of routines that may run out of memory *)

Lemma mem_alloc_full e : allocs e = [] -> mem_alloc e = (true, e).
Proof. destruct e as [err l]. cbn. by intros ->. Qed.

(** Specification of a routine that reports success with a boolean: whatever
    the allocator answers, a reported success establishes [Q], and the routine
    cannot fail when memory does not run out; it then leaves the request
    environment alone. *)
Definition rspec {A} (m : M (A * bool)) (Q : A -> Prop) : Prop :=
  forall e, let '(a, ok, e') := m e in
            (ok = true -> Q a) /\ (allocs e = [] -> ok = true /\ e' = e).

(** The same for a fuelled routine, which in addition has enough fuel. *)
Definition ospec {A} (m : M (option (A * bool))) (Q : A -> Prop) : Prop :=
  forall e, match m e with
            | (None, _) => False
            | (Some (a, ok), e') =>
                (ok = true -> Q a) /\ (allocs e = [] -> ok = true /\ e' = e)
            end.

Lemma rspec_ret {A} (Q : A -> Prop) a : Q a -> rspec (ret (a, true)) Q.
Proof. intros HQ e. cbn. auto. Qed.

Lemma rspec_bind {A B} (m : M (A * bool)) (k : A * bool -> M (B * bool)) Q Q' :
  rspec m Q -> (forall a, Q a -> rspec (k (a, true)) Q') ->
  (forall a e, exists b e', k (a, false) e = ((b, false), e')) ->
  rspec (bind m k) Q'.
Proof.
  intros Hm Hk Hf e. unfold bind. specialize (Hm e).
  destruct (m e) as [[a ok] e1]. destruct Hm as [HQ He]. destruct ok.
  - specialize (Hk a (HQ eq_refl) e1). destruct (k (a, true) e1) as [[b ok'] e2].
    destruct Hk as [H1 H2]. split; [done|]. intros Ha. destruct (He Ha) as [_ ->]. auto.
  - destruct (Hf a e1) as (b & e2 & ->). split; [done|]. intros Ha. by destruct (He Ha).
Qed.

Lemma rspec_on_success {A} (m : M (A * bool)) k Q Q' :
  rspec m Q -> (forall a, Q a -> rspec (k a) Q') -> rspec (on_success m k) Q'.
Proof. intros Hm Hk. eapply rspec_bind; [exact Hm|exact Hk|]. intros a e. by eexists _, _. Qed.

Lemma rspec_weaken {A} (m : M (A * bool)) (Q Q' : A -> Prop) :
  rspec m Q -> (forall a, Q a -> Q' a) -> rspec m Q'.
Proof.
  intros Hm HQ e. specialize (Hm e). destruct (m e) as [[a ok] e'].
  destruct Hm as [H1 H2]. split; auto.
Qed.

Lemma ospec_ret {A} (Q : A -> Prop) a : Q a -> ospec (ret (Some (a, true))) Q.
Proof. intros HQ e. cbn. auto. Qed.

Lemma ospec_weaken {A} (m : M (option (A * bool))) (Q Q' : A -> Prop) :
  ospec m Q -> (forall a, Q a -> Q' a) -> ospec m Q'.
Proof.
  intros Hm HQ e. specialize (Hm e). destruct (m e) as [[[a ok]|] e']; [|done].
  destruct Hm as [H1 H2]. split; auto.
Qed.

(** A boolean routine followed by fuelled code. *)
Lemma ospec_bind {A B} (m : M (A * bool)) (k : A * bool -> M (option (B * bool))) Q Q' :
  rspec m Q -> (forall a, Q a -> ospec (k (a, true)) Q') ->
  (forall a e, exists b e', k (a, false) e = (Some (b, false), e')) ->
  ospec (bind m k) Q'.
Proof.
  intros Hm Hk Hf e. unfold bind. specialize (Hm e).
  destruct (m e) as [[a ok] e1]. destruct Hm as [HQ He]. destruct ok.
  - specialize (Hk a (HQ eq_refl) e1). destruct (k (a, true) e1) as [[[b ok']|] e2]; [|done].
    destruct Hk as [H1 H2]. split; [done|]. intros Ha. destruct (He Ha) as [_ ->]. auto.
  - destruct (Hf a e1) as (b & e2 & ->). split; [done|]. intros Ha. by destruct (He Ha).
Qed.

(** Fuelled code followed by fuelled code. *)
Lemma ospec_obind {A B} (m : M (option (A * bool))) (k : option (A * bool) -> M (option (B * bool))) Q Q' :
  ospec m Q -> (forall a, Q a -> ospec (k (Some (a, true))) Q') ->
  (forall a e, exists b e', k (Some (a, false)) e = (Some (b, false), e')) ->
  ospec (bind m k) Q'.
Proof.
  intros Hm Hk Hf e. unfold bind. specialize (Hm e).
  destruct (m e) as [[[a ok]|] e1]; [|done]. destruct Hm as [HQ He]. destruct ok.
  - specialize (Hk a (HQ eq_refl) e1). destruct (k (Some (a, true)) e1) as [[[b ok']|] e2]; [|done].
    destruct Hk as [H1 H2]. split; [done|]. intros Ha. destruct (He Ha) as [_ ->]. auto.
  - destruct (Hf a e1) as (b & e2 & ->). split; [done|]. intros Ha. by destruct (He Ha).
Qed.

Lemma mem_alloc_spec {B} (k : bool -> M (option (B * bool))) Q :
  ospec (k true) Q -> (forall e, exists b e', k false e = (Some (b, false), e')) ->
  ospec (bind mem_alloc k) Q.
Proof.
  intros Hk Hf e. unfold bind, mem_alloc, malloc. cbn. unfold bind.
  destruct (allocs e) as [|[] l] eqn:Ha; cbn.
  - specialize (Hk e). destruct (k true e) as [[[b ok]|] e2]; [|done].
    destruct Hk as [H1 H2]. split; auto.
  - specialize (Hk (mk_senv (error e) l)).
    destruct (k true (mk_senv (error e) l)) as [[[b ok]|] e2]; [|done]. destruct Hk. by split.
  - destruct (Hf (mk_senv STATUS_NO_MEMORY l)) as (b & e2 & ->). by split.
Qed.
