(* ===== verification/Region.v ===== *)
(** * Regions: server/region.c

    The y-x banded rectangle lists the server keeps for window visible and
    update regions.  This file holds the data ([rectangle_t], [region]) and one
    definition per routine of region.c, together with the rectangle helpers of
    server/user.h.  A C pointer pair [r, rEnd] into a rectangle array is the
    list of the rectangles between them; [num_rects] is the length of the list
    [rects], [size] the allocated capacity.  Reading both operands before
    writing the destination is what region_op does (it keeps the old arrays
    until the end), so passing regions by value is exact also when [dst] is one
    of the sources. *)

From Stdlib Require Import ZArith Lia.
From stdpp Require Import base list numbers option.
From S2P Require Import Prelude.

#[local] Open Scope Z_scope.
#[local] Open Scope server_scope.

Record rectangle_t := mk_rect {
  left : Z;
  top : Z;
  right : Z;
  bottom : Z
}.

#[export] Instance rectangle_eq_dec : EqDecision rectangle_t.
Proof. solve_decision. Defined.

(** struct region; [num_rects] is derived. *)
Record region := mk_region {
  size : Z;
  rects : list rectangle_t;
  extents : rectangle_t
}.

Definition num_rects (reg : region) : Z := Z.of_nat (length (rects reg)).

Definition empty_rect : rectangle_t := mk_rect 0 0 0 0.

Definition RGN_DEFAULT_RECTS : Z := 2.

Definition STATUS_INVALID_PARAMETER : Z := 0xC000000D.

Definition STATUS_BUFFER_OVERFLOW : Z := 0x80000005.

(** sizeof(rectangle_t): four ints. *)
Definition sizeof_rectangle : Z := 16.

(** ** Rectangle helpers (server/user.h) *)

Definition is_rect_equal (rect1 rect2 : rectangle_t) : bool :=
  (left rect1 =? left rect2) && (right rect1 =? right rect2) &&
  (top rect1 =? top rect2) && (bottom rect1 =? bottom rect2).

Definition is_rect_empty (rect : rectangle_t) : bool :=
  (right rect <=? left rect) || (bottom rect <=? top rect).

Definition point_in_rect (rect : rectangle_t) (x y : Z) : bool :=
  (left rect <=? x) && (x <? right rect) && (top rect <=? y) && (y <? bottom rect).

(** [val * dpi_to] converts the int to unsigned, and so does the division: the
    arithmetic is on 32-bit unsigned values, read back as an int. *)
Definition scale_dpi (val dpi_from dpi_to : Z) : Z :=
  if 0 <=? val
  then i32 (u32 (u32 (u32 val * dpi_to) + dpi_from / 2) / dpi_from)
  else i32 (u32 (u32 (u32 val * dpi_to) - dpi_from / 2) / dpi_from).

Definition scale_dpi_rect (rect : rectangle_t) (dpi_from dpi_to : Z) : rectangle_t :=
  mk_rect (scale_dpi (left rect) dpi_from dpi_to)
          (scale_dpi (top rect) dpi_from dpi_to)
          (scale_dpi (right rect) dpi_from dpi_to)
          (scale_dpi (bottom rect) dpi_from dpi_to).

Definition offset_rect (rect : rectangle_t) (offset_x offset_y : Z) : rectangle_t :=
  mk_rect (i32 (left rect + offset_x)) (i32 (top rect + offset_y))
          (i32 (right rect + offset_x)) (i32 (bottom rect + offset_y)).

Definition mirror_rect (client_rect rect : rectangle_t) : rectangle_t :=
  let width := i32 (right client_rect - left client_rect) in
  mk_rect (i32 (width - right rect)) (top rect) (i32 (width - left rect)) (bottom rect).

Definition intersect_rect (src1 src2 : rectangle_t) : rectangle_t * bool :=
  let dst := mk_rect (Z.max (left src1) (left src2)) (Z.max (top src1) (top src2))
                     (Z.min (right src1) (right src2)) (Z.min (bottom src1) (bottom src2)) in
  (dst, negb (is_rect_empty dst)).

(** The macro EXTENTCHECK. *)
Definition EXTENTCHECK (r1 r2 : rectangle_t) : bool :=
  (left r2 <? right r1) && (left r1 <? right r2) &&
  (top r2 <? bottom r1) && (top r1 <? bottom r2).

(** ** Building a region *)

(** Take a new slot at the end of [reg->rects], growing the array when it is
    full; the caller fills the slot at once, here with [r]. *)
Definition add_rect (reg : region) (r : rectangle_t) : M (region * bool) :=
  if size reg <=? num_rects reg then
    let* ok := malloc in
    if ok
    then ret (mk_region (size reg * 2) (rects reg ++ [r]) (extents reg), true)
    else set_error STATUS_NO_MEMORY ;;; ret (reg, false)
  else ret (mk_region (size reg) (rects reg ++ [r]) (extents reg), true).

Fixpoint validate_rectangles (rs : list rectangle_t) : bool :=
  match rs with
  | [] => true
  | r0 :: rest =>
      if is_rect_empty r0 then false
      else match rest with
           | [] => true
           | r1 :: _ =>
               if top r0 =? top r1 then
                 if negb (bottom r0 =? bottom r1) then false
                 else if left r1 <=? right r0 then false
                 else validate_rectangles rest
               else if top r1 <? bottom r0 then false
               else validate_rectangles rest
           end
  end.

(** The rectangles of the band that starts at the head of [rs], and the rest:
    the loops that move [r1BandEnd] past the rectangles with the same top. *)
Fixpoint split_top (t : Z) (rs : list rectangle_t) : list rectangle_t * list rectangle_t :=
  match rs with
  | [] => ([], [])
  | r :: rest =>
      if top r =? t then let '(band, after) := split_top t rest in (r :: band, after)
      else ([], rs)
  end.

Definition band_split (rs : list rectangle_t) : list rectangle_t * list rectangle_t :=
  match rs with
  | [] => ([], [])
  | r :: _ => split_top (top r) rs
  end.

(** The comparison loop of coalesce_region over the two bands. *)
Fixpoint same_spans (prev cur : list rectangle_t) : bool :=
  match prev, cur with
  | p :: prev', c :: cur' =>
      if negb (left p =? left c) || negb (right p =? right c) then false
      else same_spans prev' cur'
  | _, _ => true
  end.

(** The loop that stretches the previous band down to the current one. *)
Fixpoint extend_bottoms (prev cur : list rectangle_t) : list rectangle_t :=
  match prev, cur with
  | p :: prev', c :: cur' =>
      mk_rect (left p) (top p) (right p) (bottom c) :: extend_bottoms prev' cur'
  | _, _ => []
  end.

(** Index of the first rectangle of the last band: [pRegEnd--] and then back
    while the previous rectangle has the same top. *)
Definition last_band_start (rs : list rectangle_t) : nat :=
  (length rs - length (fst (band_split (reverse rs))))%nat.

(** Try to merge the band that starts at [curStart] with the one at
    [prevStart]; returns the region and the start of the last band. *)
Definition coalesce_region (pReg : region) (prevStart curStart : nat) : region * nat :=
  let before := take prevStart (rects pReg) in
  let prev := take (curStart - prevStart) (drop prevStart (rects pReg)) in
  let '(cur, rest) := band_split (drop curStart (rects pReg)) in
  let curStart' := match rest with
                   | [] => curStart
                   | _ :: _ => last_band_start (rects pReg)
                   end in
  if (length cur =? length prev)%nat && negb (length cur =? 0)%nat then
    match prev, cur with
    | p :: _, c :: _ =>
        if bottom p =? top c then
          if same_spans prev cur then
            (mk_region (size pReg) (before ++ extend_bottoms prev cur ++ rest) (extents pReg),
             match rest with [] => prevStart | _ :: _ => curStart' end)
          else (pReg, curStart')
        else (pReg, curStart')
    | _, _ => (pReg, curStart')
    end
  else (pReg, curStart').

(** overlap_func_t and non_overlap_func_t; the region under construction comes
    last. *)
Definition overlap_func_t : Type :=
  Z -> Z -> list rectangle_t -> list rectangle_t -> region -> M (region * bool).

Definition non_overlap_func_t : Type :=
  Z -> Z -> list rectangle_t -> region -> M (region * bool).

(** ** Per-band operations *)

(** Both cursors, the inner loop on [r2]. *)
Fixpoint intersect_overlapping (top0 bottom0 : Z) (r1 : list rectangle_t) :
    list rectangle_t -> region -> M (region * bool) :=
  fix on_r2 (r2 : list rectangle_t) (pReg : region) {struct r2} : M (region * bool) :=
    match r1, r2 with
    | a :: r1', b :: r2' =>
        let left0 := Z.max (left a) (left b) in
        let right0 := Z.min (right a) (right b) in
        on_success
          (if left0 <? right0 then add_rect pReg (mk_rect left0 top0 right0 bottom0)
           else ret (pReg, true))
          (fun pReg =>
             if right a <? right b then intersect_overlapping top0 bottom0 r1' r2 pReg
             else if right b <? right a then on_r2 r2' pReg
             else intersect_overlapping top0 bottom0 r1' r2' pReg)
    | _, _ => ret (pReg, true)
    end.

Fixpoint subtract_non_overlapping (top0 bottom0 : Z) (r : list rectangle_t) (pReg : region) :
    M (region * bool) :=
  match r with
  | [] => ret (pReg, true)
  | a :: r' =>
      on_success (add_rect pReg (mk_rect (left a) top0 (right a) bottom0))
                 (subtract_non_overlapping top0 bottom0 r')
  end.

(** [if (r1 != r1End) left = r1->left]. *)
Definition next_left (r1 : list rectangle_t) (left0 : Z) : Z :=
  match r1 with [] => left0 | a :: _ => left a end.

(** The trailing loop of subtract_overlapping, [left0] being the part of the
    first rectangle not yet handled. *)
Fixpoint subtract_tail (top0 bottom0 left0 : Z) (r1 : list rectangle_t) (pReg : region) :
    M (region * bool) :=
  match r1 with
  | [] => ret (pReg, true)
  | a :: r1' =>
      on_success (add_rect pReg (mk_rect left0 top0 (right a) bottom0))
        (subtract_tail top0 bottom0 (next_left r1' left0) r1')
  end.

Fixpoint subtract_loop (top0 bottom0 : Z) (r1 : list rectangle_t) :
    list rectangle_t -> Z -> region -> M (region * bool) :=
  fix on_r2 (r2 : list rectangle_t) (left0 : Z) (pReg : region) {struct r2} : M (region * bool) :=
    match r1, r2 with
    | a :: r1', b :: r2' =>
        if right b <=? left0 then on_r2 r2' left0 pReg
        else if left b <=? left0 then
          let left1 := right b in
          if right a <=? left1
          then subtract_loop top0 bottom0 r1' r2 (next_left r1' left1) pReg
          else on_r2 r2' left1 pReg
        else if left b <? right a then
          on_success (add_rect pReg (mk_rect left0 top0 (left b) bottom0))
            (fun pReg =>
               let left1 := right b in
               if right a <=? left1
               then subtract_loop top0 bottom0 r1' r2 (next_left r1' left1) pReg
               else on_r2 r2' left1 pReg)
        else
          on_success (if left0 <? right a then add_rect pReg (mk_rect left0 top0 (right a) bottom0)
                      else ret (pReg, true))
            (subtract_loop top0 bottom0 r1' r2 (next_left r1' left0))
    | _, _ => subtract_tail top0 bottom0 left0 r1 pReg
    end.

Definition subtract_overlapping (top0 bottom0 : Z) (r1 r2 : list rectangle_t) (pReg : region) :
    M (region * bool) :=
  subtract_loop top0 bottom0 r1 r2 (next_left r1 0) pReg.

Fixpoint union_non_overlapping (top0 bottom0 : Z) (r : list rectangle_t) (pReg : region) :
    M (region * bool) :=
  match r with
  | [] => ret (pReg, true)
  | a :: r' =>
      on_success (add_rect pReg (mk_rect (left a) top0 (right a) bottom0))
                 (union_non_overlapping top0 bottom0 r')
  end.

(** The macro MERGERECT. *)
Definition MERGERECT (top0 bottom0 : Z) (r : rectangle_t) (pReg : region) : M (region * bool) :=
  match rects pReg !! (length (rects pReg) - 1)%nat with
  | Some l =>
      if (top l =? top0) && (bottom l =? bottom0) && (left r <=? right l) then
        if right l <? right r
        then ret (mk_region (size pReg)
                    (<[(length (rects pReg) - 1)%nat :=
                         mk_rect (left l) (top l) (right r) (bottom l)]> (rects pReg))
                    (extents pReg), true)
        else ret (pReg, true)
      else add_rect pReg (mk_rect (left r) top0 (right r) bottom0)
  | None => add_rect pReg (mk_rect (left r) top0 (right r) bottom0)
  end.

(** The loops over what is left of one operand. *)
Fixpoint union_tail (top0 bottom0 : Z) (r : list rectangle_t) (pReg : region) : M (region * bool) :=
  match r with
  | [] => ret (pReg, true)
  | a :: r' => on_success (MERGERECT top0 bottom0 a pReg) (union_tail top0 bottom0 r')
  end.

Fixpoint union_overlapping (top0 bottom0 : Z) (r1 : list rectangle_t) :
    list rectangle_t -> region -> M (region * bool) :=
  fix on_r2 (r2 : list rectangle_t) (pReg : region) {struct r2} : M (region * bool) :=
    match r1, r2 with
    | a :: r1', b :: r2' =>
        if left a <? left b
        then on_success (MERGERECT top0 bottom0 a pReg) (union_overlapping top0 bottom0 r1' r2)
        else on_success (MERGERECT top0 bottom0 b pReg) (on_r2 r2')
    | _ :: _, [] => union_tail top0 bottom0 r1 pReg
    | [], _ => union_tail top0 bottom0 r2 pReg
    end.

(** ** The band sweep *)

(** Cursor state of the main loop of region_op: what remains of the two
    operands, the bottom of the area handled so far, the region under
    construction and the index of its last band. *)
Record sweep := mk_sweep {
  sw_r1 : list rectangle_t;
  sw_r2 : list rectangle_t;
  sw_ybot : Z;
  sw_reg : region;
  sw_prevBand : nat
}.

(** [if (newReg->num_rects != curBand) prevBand = coalesce_region(...)]. *)
Definition coalesce_if_grown (newReg : region) (prevBand curBand : nat) : region * nat :=
  if (length (rects newReg) =? curBand)%nat then (newReg, prevBand)
  else coalesce_region newReg prevBand curBand.

(** [if ((top != bot) && func) func( newReg, r, rBandEnd, top, bot )]. *)
Definition call_non_overlap (func : option non_overlap_func_t) (newReg : region)
    (band : list rectangle_t) (top0 bot0 : Z) : M (region * bool) :=
  match func with
  | Some f => if top0 =? bot0 then ret (newReg, true) else f top0 bot0 band newReg
  | None => ret (newReg, true)
  end.

(** One iteration of the do-while loop, [r1] and [r2] being non-empty; a failed
    allocation leaves through the label [done]. *)
Definition region_op_step (overlap_func : overlap_func_t)
    (non_overlap1_func non_overlap2_func : option non_overlap_func_t)
    (h1 h2 : rectangle_t) (s : sweep) : M (sweep * bool) :=
  let '(band1, after1) := band_split (sw_r1 s) in
  let '(band2, after2) := band_split (sw_r2 s) in
  let curBand := length (rects (sw_reg s)) in
  let '(ytop, call) :=
    if top h1 <? top h2 then
      (top h2, call_non_overlap non_overlap1_func (sw_reg s) band1
                 (Z.max (top h1) (sw_ybot s)) (Z.min (bottom h1) (top h2)))
    else if top h2 <? top h1 then
      (top h1, call_non_overlap non_overlap2_func (sw_reg s) band2
                 (Z.max (top h2) (sw_ybot s)) (Z.min (bottom h2) (top h1)))
    else (top h1, ret (sw_reg s, true)) in
  let* (newReg, ok) := call in
  if negb ok then ret (mk_sweep (sw_r1 s) (sw_r2 s) (sw_ybot s) newReg (sw_prevBand s), false)
  else
    let '(newReg, prevBand) := coalesce_if_grown newReg (sw_prevBand s) curBand in
    let ybot := Z.min (bottom h1) (bottom h2) in
    let curBand := length (rects newReg) in
    let* (newReg, ok) :=
      if ytop <? ybot then overlap_func ytop ybot band1 band2 newReg else ret (newReg, true) in
    if negb ok then ret (mk_sweep (sw_r1 s) (sw_r2 s) ybot newReg prevBand, false)
    else
      let '(newReg, prevBand) := coalesce_if_grown newReg prevBand curBand in
      ret (mk_sweep (if bottom h1 =? ybot then after1 else sw_r1 s)
                    (if bottom h2 =? ybot then after2 else sw_r2 s)
                    ybot newReg prevBand, true).

(** The do-while loop, with fuel; every iteration moves one of the cursors. *)
Fixpoint region_op_loop (fuel : nat) (overlap_func : overlap_func_t)
    (non_overlap1_func non_overlap2_func : option non_overlap_func_t) (s : sweep) :
    M (option (sweep * bool)) :=
  match sw_r1 s, sw_r2 s with
  | h1 :: _, h2 :: _ =>
      match fuel with
      | O => ret None
      | S fuel =>
          let* (s, ok) := region_op_step overlap_func non_overlap1_func non_overlap2_func h1 h2 s in
          if ok then region_op_loop fuel overlap_func non_overlap1_func non_overlap2_func s
          else ret (Some (s, false))
      end
  | _, _ => ret (Some (s, true))
  end.

(** The loops after the sweep, over the bands left in one operand. *)
Fixpoint region_op_rest (fuel : nat) (func : non_overlap_func_t) (r : list rectangle_t)
    (ybot : Z) (newReg : region) : M (option (region * bool)) :=
  match r with
  | [] => ret (Some (newReg, true))
  | h :: _ =>
      match fuel with
      | O => ret None
      | S fuel =>
          let '(band, after) := band_split r in
          let* (newReg, ok) := func (Z.max (top h) ybot) (bottom h) band newReg in
          if ok then region_op_rest fuel func after ybot newReg
          else ret (Some (newReg, false))
      end
  end.

(** [if (r1 != r1End) ... else if ((r2 != r2End) && non_overlap2_func) ...]. *)
Definition region_op_tail (fuel : nat) (non_overlap1_func non_overlap2_func : option non_overlap_func_t)
    (s : sweep) : M (option (region * bool)) :=
  match sw_r1 s, sw_r2 s with
  | _ :: _, _ =>
      match non_overlap1_func with
      | Some f => region_op_rest fuel f (sw_r1 s) (sw_ybot s) (sw_reg s)
      | None => ret (Some (sw_reg s, true))
      end
  | [], _ :: _ =>
      match non_overlap2_func with
      | Some f => region_op_rest fuel f (sw_r2 s) (sw_ybot s) (sw_reg s)
      | None => ret (Some (sw_reg s, true))
      end
  | [], [] => ret (Some (sw_reg s, true))
  end.

(** Give back unused capacity; a failed realloc changes nothing. *)
Definition shrink_rects (newReg : region) : M region :=
  if (num_rects newReg <? size newReg / 2) && (2 <? size newReg) then
    let* ok := malloc in
    if ok
    then ret (mk_region (Z.max (num_rects newReg) RGN_DEFAULT_RECTS) (rects newReg) (extents newReg))
    else ret newReg
  else ret newReg.

(** Applied only to operands with at least one rectangle each.  [None] means the
    fuel ran out, which [region_op_terminates] excludes. *)
Definition region_op (newReg reg1 reg2 : region) (overlap_func : overlap_func_t)
    (non_overlap1_func non_overlap2_func : option non_overlap_func_t) :
    M (option (region * bool)) :=
  let new_size := Z.max (num_rects reg1) (num_rects reg2) * 2 in
  let* ok := mem_alloc in
  if negb ok then ret (Some (newReg, false))
  else
    let fuel := (length (rects reg1) + length (rects reg2))%nat in
    let ybot := if top (extents reg1) <? top (extents reg2) then top (extents reg1)
                else top (extents reg2) in
    let* r := region_op_loop fuel overlap_func non_overlap1_func non_overlap2_func
                (mk_sweep (rects reg1) (rects reg2) ybot
                          (mk_region new_size [] (extents newReg)) 0) in
    match r with
    | None => ret None
    | Some (s, false) => ret (Some (sw_reg s, false))
    | Some (s, true) =>
        let curBand := length (rects (sw_reg s)) in
        let* r := region_op_tail fuel non_overlap1_func non_overlap2_func s in
        match r with
        | None => ret None
        | Some (newReg, false) => ret (Some (newReg, false))
        | Some (newReg, true) =>
            let '(newReg, _) := coalesce_if_grown newReg (sw_prevBand s) curBand in
            let* newReg := shrink_rects newReg in
            ret (Some (newReg, true))
        end
    end.

(** ** Regions as values *)

(** Widen [extents] with the left and right edges of the rectangles: the loop
    of set_region_extents. *)
Fixpoint widen_extents (rs : list rectangle_t) (ext : rectangle_t) : rectangle_t :=
  match rs with
  | [] => ext
  | r :: rest =>
      widen_extents rest
        (mk_rect (if left r <? left ext then left r else left ext) (top ext)
                 (if right ext <? right r then right r else right ext) (bottom ext))
  end.

Definition set_region_extents (reg : region) : region :=
  match rects reg, rects reg !! (length (rects reg) - 1)%nat with
  | first :: _, Some lst =>
      mk_region (size reg) (rects reg)
        (widen_extents (rects reg) (mk_rect (left first) (top first) (right lst) (bottom lst)))
  | _, _ => mk_region (size reg) (rects reg) empty_rect
  end.

Definition create_empty_region : M (option region) :=
  let* ok := mem_alloc in
  if negb ok then ret None
  else
    let* ok := mem_alloc in
    if negb ok then ret None
    else ret (Some (mk_region RGN_DEFAULT_RECTS [] empty_rect)).

(** [data] is the array of whole rectangles in the request. *)
Definition create_region_from_req_data (data : list rectangle_t) : M (option region) :=
  let rs := match data with
            | [r] => if decide (r = empty_rect) then [] else data
            | _ => data
            end in
  if negb (validate_rectangles rs) then set_error STATUS_INVALID_PARAMETER ;;; ret None
  else
    let* ok := mem_alloc in
    if negb ok then ret None
    else
      let alloc_rects := Z.max (Z.of_nat (length rs)) RGN_DEFAULT_RECTS in
      let* ok := mem_alloc in
      if negb ok then ret None
      else ret (Some (set_region_extents (mk_region alloc_rects rs empty_rect))).

Definition set_region_rect (reg : region) (rect : rectangle_t) : region :=
  if is_rect_empty rect then mk_region (size reg) [] empty_rect
  else mk_region (size reg) [rect] rect.

(** The data for the client, if it fits in [max_size] bytes, and its size. *)
Definition get_region_data (reg : region) (max_size : Z) : M (option (list rectangle_t) * Z) :=
  let '(data, total_size) :=
    if num_rects reg * sizeof_rectangle =? 0 then ([empty_rect], sizeof_rectangle)
    else (rects reg, num_rects reg * sizeof_rectangle) in
  if total_size <=? max_size then
    let* ok := mem_alloc in
    ret (if ok then Some data else None, total_size)
  else set_error STATUS_BUFFER_OVERFLOW ;;; ret (None, total_size).

Definition get_region_data_and_free (reg : region) (max_size : Z) :
    M (option (list rectangle_t) * Z) :=
  let* (data, total_size) :=
    if num_rects reg * sizeof_rectangle =? 0 then
      if sizeof_rectangle <=? max_size then
        let* ok := mem_alloc in
        ret (if ok then Some [empty_rect] else None, sizeof_rectangle)
      else ret (Some (rects reg), sizeof_rectangle)
    else ret (Some (rects reg), num_rects reg * sizeof_rectangle) in
  if max_size <? total_size then set_error STATUS_BUFFER_OVERFLOW ;;; ret (None, total_size)
  else ret (data, total_size).

Definition is_region_empty (reg : region) : bool := num_rects reg =? 0.

(** The loop of is_region_equal over two arrays of the same length. *)
Fixpoint rects_equal (rs1 rs2 : list rectangle_t) : bool :=
  match rs1, rs2 with
  | r1 :: rs1', r2 :: rs2' => if is_rect_equal r1 r2 then rects_equal rs1' rs2' else false
  | _, _ => true
  end.

Definition is_region_equal (region1 region2 : region) : bool :=
  if negb (num_rects region1 =? num_rects region2) then false
  else if num_rects region1 =? 0 then true
  else if negb (is_rect_equal (extents region1) (extents region2)) then false
  else rects_equal (rects region1) (rects region2).

Definition get_region_extents (reg : region) : rectangle_t := extents reg.

Definition offset_region (reg : region) (x y : Z) : region :=
  match rects reg with
  | [] => reg
  | _ => mk_region (size reg) ((fun r => offset_rect r x y) <$> rects reg)
                   (offset_rect (extents reg) x y)
  end.

(** [rects[i]]; the loops below stay inside the array. *)
Definition rect_at (rs : list rectangle_t) (i : nat) : rectangle_t := default empty_rect (rs !! i).

(** The loop on [i] and [j] from both ends of a band, as written: the saved
    rectangle is [rects[j]]. *)
Fixpoint mirror_band (client_rect : rectangle_t) (fuel : nat) (rs : list rectangle_t) (i j : nat) :
    list rectangle_t :=
  match fuel with
  | O => rs
  | S fuel =>
      if (i <? j)%nat then
        let rect := rect_at rs j in
        let rs := <[i := rect_at rs j]> rs in
        let rs := <[j := rect]> rs in
        let rs := <[j := mirror_rect client_rect (rect_at rs j)]> rs in
        let rs := <[i := mirror_rect client_rect (rect_at rs i)]> rs in
        mirror_band client_rect fuel rs (i + 1) (j - 1)
      else if (i =? j)%nat then <[i := mirror_rect client_rect (rect_at rs i)]> rs
      else rs
  end.

(** Last index of the band that starts at [start]. *)
Definition band_end (rs : list rectangle_t) (start : nat) : nat :=
  (start + length (fst (band_split (drop start rs))) - 1)%nat.

Fixpoint mirror_bands (client_rect : rectangle_t) (fuel : nat) (rs : list rectangle_t) (start : nat) :
    list rectangle_t :=
  match fuel with
  | O => rs
  | S fuel =>
      if (start <? length rs)%nat then
        let e := band_end rs start in
        mirror_bands client_rect fuel (mirror_band client_rect (length rs) rs start e) (e + 1)
      else rs
  end.

Definition mirror_region (client_rect : rectangle_t) (reg : region) : region :=
  mk_region (size reg) (mirror_bands client_rect (length (rects reg)) (rects reg) 0)
            (mirror_rect client_rect (extents reg)).

Definition scale_region (reg : region) (dpi_from dpi_to : Z) : region :=
  match rects reg with
  | [] => reg
  | _ => mk_region (size reg) ((fun r => scale_dpi_rect r dpi_from dpi_to) <$> rects reg)
                   (scale_dpi_rect (extents reg) dpi_from dpi_to)
  end.

(** Copying a region to itself gives it back unchanged, as the pointer test of
    the source does. *)
Definition copy_region (dst src : region) : M (region * bool) :=
  if size dst <? num_rects src then
    let* ok := malloc in
    if negb ok then set_error STATUS_NO_MEMORY ;;; ret (dst, false)
    else ret (mk_region (num_rects src) (rects src) (extents src), true)
  else ret (mk_region (size dst) (rects src) (extents src), true).

(** Lift a fuelled result through the code that follows a successful region_op. *)
Definition after_op (m : M (option (region * bool))) (f : region -> region) :
    M (option (region * bool)) :=
  let* r := m in
  ret (match r with
       | Some (dst, true) => Some (f dst, true)
       | _ => r
       end).

Definition intersect_region (dst src1 src2 : region) : M (option (region * bool)) :=
  if is_region_empty src1 || is_region_empty src2 ||
     negb (EXTENTCHECK (extents src1) (extents src2)) then
    ret (Some (mk_region (size dst) [] empty_rect, true))
  else
    after_op (region_op dst src1 src2 intersect_overlapping None None) set_region_extents.

Definition subtract_region (dst src1 src2 : region) : M (option (region * bool)) :=
  if is_region_empty src1 || is_region_empty src2 ||
     negb (EXTENTCHECK (extents src1) (extents src2)) then
    let* r := copy_region dst src1 in ret (Some r)
  else
    after_op (region_op dst src1 src2 subtract_overlapping (Some subtract_non_overlapping) None)
             set_region_extents.

(** [r] is a single rectangle whose extents contain those of [s]. *)
Definition single_covers (r s : region) : bool :=
  (num_rects r =? 1) && (left (extents r) <=? left (extents s)) &&
  (top (extents r) <=? top (extents s)) && (right (extents s) <=? right (extents r)) &&
  (bottom (extents s) <=? bottom (extents r)).

(** [same_src] is the pointer comparison [src1 == src2]. *)
Definition union_region (same_src : bool) (dst src1 src2 : region) : M (option (region * bool)) :=
  if same_src then let* r := copy_region dst src1 in ret (Some r)
  else if is_region_empty src1 then let* r := copy_region dst src2 in ret (Some r)
  else if is_region_empty src2 then let* r := copy_region dst src1 in ret (Some r)
  else if single_covers src1 src2 then let* r := copy_region dst src1 in ret (Some r)
  else if single_covers src2 src1 then let* r := copy_region dst src2 in ret (Some r)
  else
    after_op
      (region_op dst src1 src2 union_overlapping (Some union_non_overlapping)
                 (Some union_non_overlapping))
      (fun d => mk_region (size d) (rects d)
         (mk_rect (Z.min (left (extents src1)) (left (extents src2)))
                  (Z.min (top (extents src1)) (top (extents src2)))
                  (Z.max (right (extents src1)) (right (extents src2)))
                  (Z.max (bottom (extents src1)) (bottom (extents src2))))).

(** The boolean is false when the source returns NULL. *)
Definition xor_region (dst src1 src2 : region) : M (option (region * bool)) :=
  let* tmp := create_empty_region in
  match tmp with
  | None => ret (Some (dst, false))
  | Some tmp =>
      let* r := subtract_region tmp src1 src2 in
      match r with
      | Some (tmp, true) =>
          let* r := subtract_region dst src2 src1 in
          match r with
          | Some (dst, true) => union_region false dst dst tmp
          | _ => ret r
          end
      | Some (_, false) => ret (Some (dst, false))
      | None => ret None
      end
  end.

(** The loop of point_in_region, with its early exits. *)
Fixpoint point_in_rects (rs : list rectangle_t) (x y : Z) : bool :=
  match rs with
  | [] => false
  | r :: rest =>
      if y <? top r then false
      else if bottom r <=? y then point_in_rects rest x y
      else if x <? left r then false
      else if right r <=? x then point_in_rects rest x y
      else true
  end.

Definition point_in_region (reg : region) (x y : Z) : bool := point_in_rects (rects reg) x y.

Fixpoint rect_in_rects (rs : list rectangle_t) (rect : rectangle_t) : bool :=
  match rs with
  | [] => false
  | r :: rest =>
      if bottom rect <=? top r then false
      else if bottom r <=? top rect then rect_in_rects rest rect
      else if right rect <=? left r then rect_in_rects rest rect
      else if right r <=? left rect then rect_in_rects rest rect
      else true
  end.

Definition rect_in_region (reg : region) (rect : rectangle_t) : bool :=
  rect_in_rects (rects reg) rect.
