(* ===== verification/RegionSpans.v ===== *)
(** * One band of a region: the overlap functions of server/region.c

    A band is a sorted list of horizontal spans.  The per-band routines
    (intersect_overlapping, subtract_overlapping, union_overlapping and the
    non-overlapping copies) are shown to append, to the region under
    construction, the sorted spans of the set operation they implement. *)

From Stdlib Require Import ZArith Lia Bool.
From stdpp Require Import base list numbers option.
From S2P Require Import Prelude Region.

#[local] Open Scope Z_scope.
#[local] Open Scope server_scope.

(** ** Spans *)

Definition span : Type := Z * Z.

(** Spans in increasing order, non-empty, separated by at least one pixel from
    each other and from everything up to [lo]. *)
Fixpoint spans_from (lo : Z) (sp : list span) : Prop :=
  match sp with
  | [] => True
  | (l, r) :: sp' => lo < l /\ l < r /\ spans_from r sp'
  end.

(** Is column [x] in one of the spans? *)
Fixpoint in_spans (sp : list span) (x : Z) : bool :=
  match sp with
  | [] => false
  | (l, r) :: sp' => ((l <=? x) && (x <? r)) || in_spans sp' x
  end.

(** End of the last span, [lo] when there is none. *)
Fixpoint spans_end (lo : Z) (sp : list span) : Z :=
  match sp with
  | [] => lo
  | (_, r) :: sp' => spans_end r sp'
  end.

Definition span_rect (t b : Z) (s : span) : rectangle_t := mk_rect (fst s) t (snd s) b.

Definition band_rects (t b : Z) (sp : list span) : list rectangle_t := span_rect t b <$> sp.

(** The array of a region never holds more rectangles than were allocated. *)
Definition capacity_ok (reg : region) : Prop := 2 <= size reg /\ num_rects reg <= size reg.

(** [m] appends a band of spans satisfying [P] to [reg]. *)
Definition appends (t b : Z) (reg : region) (P : list span -> Prop) (reg' : region) : Prop :=
  exists sp, rects reg' = rects reg ++ band_rects t b sp /\ extents reg' = extents reg /\
             capacity_ok reg' /\ P sp.

(** ** Generic lemmas *)

Lemma add_rect_spec reg r :
  capacity_ok reg ->
  rspec (add_rect reg r)
    (fun reg' => rects reg' = rects reg ++ [r] /\ extents reg' = extents reg /\ capacity_ok reg').
Proof.
  intros [Hs Hn] e. unfold add_rect, capacity_ok.
  assert (Hlen : forall n ext, num_rects (mk_region n (rects reg ++ [r]) ext) = num_rects reg + 1).
  { intros. unfold num_rects. cbn. rewrite length_app. cbn. lia. }
  destruct (Z.leb_spec (size reg) (num_rects reg)) as [Hle|Hlt]; cbn.
  - unfold bind, malloc.
    destruct (allocs e) as [|[] l]; cbn; rewrite ?Hlen; repeat split; intros; done || lia.
  - rewrite Hlen. repeat split; intros; done || lia.
Qed.

Lemma in_spans_below lo sp x : spans_from lo sp -> x <= lo -> in_spans sp x = false.
Proof.
  revert lo. induction sp as [|[l r] sp IH]; intros lo Hs Hx; [done|].
  cbn in *. destruct Hs as (H1 & H2 & H3).
  rewrite (IH r) by (done || lia). destruct (Z.leb_spec l x); [lia|done].
Qed.

Lemma spans_from_weaken lo lo' sp : spans_from lo sp -> lo' <= lo -> spans_from lo' sp.
Proof. destruct sp as [|[l r] sp]; cbn; [done|]. intros (?&?&?) ?. repeat split; auto; lia. Qed.

Lemma spans_from_app lo sp1 sp2 :
  spans_from lo (sp1 ++ sp2) <-> spans_from lo sp1 /\ spans_from (spans_end lo sp1) sp2.
Proof. revert lo. induction sp1 as [|[l r] sp IH]; intros lo; cbn; [tauto|]. rewrite IH. tauto. Qed.

Lemma in_spans_app sp1 sp2 x : in_spans (sp1 ++ sp2) x = in_spans sp1 x || in_spans sp2 x.
Proof. induction sp1 as [|[l r] sp IH]; cbn; [done|]. rewrite IH. by rewrite orb_assoc. Qed.

Lemma appends_nil t b reg P : capacity_ok reg -> P [] -> appends t b reg P reg.
Proof. intros Hc HP. exists []. cbn. rewrite app_nil_r. auto. Qed.

Lemma appends_cons t b reg reg1 reg' s P P' :
  rects reg1 = rects reg ++ [span_rect t b s] -> extents reg1 = extents reg ->
  appends t b reg1 P' reg' -> (forall sp, P' sp -> P (s :: sp)) -> appends t b reg P reg'.
Proof.
  intros Hr He (sp & H1 & H2 & H3 & H4) HP. exists (s :: sp).
  rewrite H1, Hr, <-app_assoc. cbn. repeat split; auto; [congruence|apply H3..].
Qed.

(** Decide the comparisons of the code and of the span predicates. *)
Ltac zbool :=
  repeat match goal with
         | |- context [Z.leb ?a ?b] => destruct (Z.leb_spec a b)
         | |- context [Z.ltb ?a ?b] => destruct (Z.ltb_spec a b)
         | |- context [Z.eqb ?a ?b] => destruct (Z.eqb_spec a b)
         end; cbn; try lia.

(** Evaluate membership of [x] below the first span. *)
Ltac below H x := rewrite (in_spans_below _ _ x H) by lia.

(** Emit the span [s], then continue with [k]. *)
Lemma rspec_emit t b reg s k P P' :
  capacity_ok reg ->
  (forall reg1, capacity_ok reg1 -> rspec (k reg1) (appends t b reg1 P')) ->
  (forall sp, P' sp -> P (s :: sp)) ->
  rspec (on_success (add_rect reg (span_rect t b s)) k) (appends t b reg P).
Proof.
  intros Hc Hk HP. eapply rspec_on_success; [by apply add_rect_spec|].
  intros reg1 (H1 & H2 & H3). eapply rspec_weaken; [by apply Hk|].
  intros reg' Ha. by eapply appends_cons.
Qed.

Lemma rspec_skip t b reg k P :
  capacity_ok reg -> rspec (k reg) (appends t b reg P) ->
  rspec (on_success (ret (reg, true)) k) (appends t b reg P).
Proof. intros Hc Hk. eapply (rspec_on_success _ _ (eq reg)); [by apply rspec_ret|]. by intros ? <-. Qed.

Lemma appends_weaken t b reg (P P' : list span -> Prop) reg' :
  appends t b reg P reg' -> (forall sp, P sp -> P' sp) -> appends t b reg P' reg'.
Proof. intros (sp & H1 & H2 & H3 & H4) HP. exists sp. auto. Qed.

(** ** Intersection of two bands *)

Lemma intersect_overlapping_cons t b a r1 c r2 reg :
  intersect_overlapping t b (a :: r1) (c :: r2) reg =
  on_success
    (if Z.max (left a) (left c) <? Z.min (right a) (right c)
     then add_rect reg (span_rect t b (Z.max (left a) (left c), Z.min (right a) (right c)))
     else ret (reg, true))
    (fun reg =>
       if right a <? right c then intersect_overlapping t b r1 (c :: r2) reg
       else if right c <? right a then intersect_overlapping t b (a :: r1) r2 reg
       else intersect_overlapping t b r1 r2 reg).
Proof. reflexivity. Qed.

Definition isect_spec (lo : Z) (s1 s2 sp : list span) : Prop :=
  spans_from lo sp /\ forall x, in_spans sp x = in_spans s1 x && in_spans s2 x.

(** Dropping from one operand a span that the other has already passed. *)
Lemma isect_spec_step lo1 lo2 l1 r1 s1 l2 r2 s2 sp :
  spans_from lo1 ((l1, r1) :: s1) -> spans_from lo2 ((l2, r2) :: s2) ->
  isect_spec (Z.max (if r2 <? r1 then lo1 else r1) (if r1 <? r2 then lo2 else r2))
             (if r2 <? r1 then (l1, r1) :: s1 else s1)
             (if r1 <? r2 then (l2, r2) :: s2 else s2) sp ->
  isect_spec (Z.max lo1 lo2) ((l1, r1) :: s1) ((l2, r2) :: s2)
    (if Z.max l1 l2 <? Z.min r1 r2 then (Z.max l1 l2, Z.min r1 r2) :: sp else sp).
Proof.
  cbn. intros (A1 & A2 & A3) (B1 & B2 & B3) [H1 H2]. split.
  - destruct (Z.ltb_spec (Z.max l1 l2) (Z.min r1 r2)); [split; [lia|split; [lia|]]|].
    all: eapply spans_from_weaken; [exact H1|zbool].
  - intros x. specialize (H2 x).
    destruct (Z.ltb_spec (Z.max l1 l2) (Z.min r1 r2)); cbn; rewrite H2; clear H2;
      destruct (Z.ltb_spec r1 r2), (Z.ltb_spec r2 r1); try lia; cbn;
      destruct (Z.leb_spec r1 x), (Z.leb_spec r2 x).
    all: try (below A3 x); try (below B3 x); zbool; rewrite ?andb_false_r, ?andb_true_r; try done.
Qed.

Lemma intersect_overlapping_spec t b t1 b1 t2 b2 s1 s2 lo1 lo2 reg :
  spans_from lo1 s1 -> spans_from lo2 s2 -> capacity_ok reg ->
  rspec (intersect_overlapping t b (band_rects t1 b1 s1) (band_rects t2 b2 s2) reg)
        (appends t b reg (isect_spec (Z.max lo1 lo2) s1 s2)).
Proof.
  revert s2 lo1 lo2 reg. induction s1 as [|[l1 r1] s1 IH1]; intros s2.
  { intros lo1 lo2 reg _ _ Hc. destruct s2; (apply rspec_ret, appends_nil; [done|by split]). }
  induction s2 as [|[l2 r2] s2 IH2]; intros lo1 lo2 reg H1 H2 Hc.
  { apply rspec_ret, appends_nil; [done|]. split; [done|]. intros x. by rewrite andb_false_r. }
  change (band_rects t1 b1 ((l1, r1) :: s1)) with (mk_rect l1 t1 r1 b1 :: band_rects t1 b1 s1).
  change (band_rects t2 b2 ((l2, r2) :: s2)) with (mk_rect l2 t2 r2 b2 :: band_rects t2 b2 s2).
  rewrite intersect_overlapping_cons. cbn [left right].
  assert (Hk : forall reg1, capacity_ok reg1 ->
    rspec ((if r1 <? r2 then intersect_overlapping t b (band_rects t1 b1 s1)
                               (mk_rect l2 t2 r2 b2 :: band_rects t2 b2 s2) reg1
            else if r2 <? r1 then intersect_overlapping t b
                   (mk_rect l1 t1 r1 b1 :: band_rects t1 b1 s1) (band_rects t2 b2 s2) reg1
            else intersect_overlapping t b (band_rects t1 b1 s1) (band_rects t2 b2 s2) reg1))
          (appends t b reg1 (isect_spec (Z.max (if r2 <? r1 then lo1 else r1) (if r1 <? r2 then lo2 else r2))
             (if r2 <? r1 then (l1, r1) :: s1 else s1)
             (if r1 <? r2 then (l2, r2) :: s2 else s2)))).
  { intros reg1 Hc1. pose proof H1 as (A1 & A2 & A3). pose proof H2 as (B1 & B2 & B3).
    destruct (Z.ltb_spec r1 r2), (Z.ltb_spec r2 r1); try lia.
    - by apply (IH1 ((l2, r2) :: s2) r1 lo2).
    - by apply (IH2 lo1 r2).
    - by apply (IH1 s2 r1 r2). }
  pose proof (fun sp => isect_spec_step lo1 lo2 l1 r1 s1 l2 r2 s2 sp H1 H2) as Hstep.
  destruct (Z.ltb_spec (Z.max l1 l2) (Z.min r1 r2)).
  - eapply rspec_emit; [done|exact Hk|exact Hstep].
  - apply rspec_skip; [done|]. eapply rspec_weaken; [by apply Hk|].
    intros reg' Ha. eapply appends_weaken; [exact Ha|exact Hstep].
Qed.

(** ** Copy of a band *)

Lemma subtract_non_overlapping_spec t b t1 b1 s reg :
  capacity_ok reg ->
  rspec (subtract_non_overlapping t b (band_rects t1 b1 s) reg) (appends t b reg (eq s)).
Proof.
  revert reg. induction s as [|[l r] s IH]; intros reg Hc; [by apply rspec_ret, appends_nil|].
  eapply (rspec_emit t b reg (l, r)); [done|apply IH|]. by intros sp <-.
Qed.

Lemma union_non_overlapping_spec t b t1 b1 s reg :
  capacity_ok reg ->
  rspec (union_non_overlapping t b (band_rects t1 b1 s) reg) (appends t b reg (eq s)).
Proof.
  revert reg. induction s as [|[l r] s IH]; intros reg Hc; [by apply rspec_ret, appends_nil|].
  eapply (rspec_emit t b reg (l, r)); [done|apply IH|]. by intros sp <-.
Qed.

(** ** Difference of two bands *)

Definition diff_spec (lo : Z) (s1 s2 sp : list span) : Prop :=
  spans_from lo sp /\ forall x, in_spans sp x = in_spans s1 x && negb (in_spans s2 x).

(** What is left of the first operand: its first span starts at [left0]. *)
Definition cut_first (left0 : Z) (s : list span) : list span :=
  match s with [] => [] | (_, r) :: s' => (left0, r) :: s' end.

Lemma subtract_loop_cons t b a r1 c r2 left0 reg :
  subtract_loop t b (a :: r1) (c :: r2) left0 reg =
  if right c <=? left0 then subtract_loop t b (a :: r1) r2 left0 reg
  else if left c <=? left0 then
    (if right a <=? right c
     then subtract_loop t b r1 (c :: r2) (next_left r1 (right c)) reg
     else subtract_loop t b (a :: r1) r2 (right c) reg)
  else if left c <? right a then
    on_success (add_rect reg (span_rect t b (left0, left c)))
      (fun reg =>
         if right a <=? right c
         then subtract_loop t b r1 (c :: r2) (next_left r1 (right c)) reg
         else subtract_loop t b (a :: r1) r2 (right c) reg)
  else
    on_success (if left0 <? right a then add_rect reg (span_rect t b (left0, right a))
                else ret (reg, true))
      (subtract_loop t b r1 (c :: r2) (next_left r1 left0)).
Proof. reflexivity. Qed.

Lemma cut_first_next_left s t1 b1 d : cut_first (next_left (band_rects t1 b1 s) d) s = s.
Proof. by destruct s as [|[l r] s]. Qed.

Lemma subtract_tail_spec t b t1 b1 s1 left0 lo reg :
  spans_from lo (cut_first left0 s1) -> capacity_ok reg ->
  rspec (subtract_tail t b left0 (band_rects t1 b1 s1) reg)
        (appends t b reg (eq (cut_first left0 s1))).
Proof.
  revert left0 lo reg. induction s1 as [|[l r] s1 IH]; intros left0 lo reg Hs Hc.
  { by apply rspec_ret, appends_nil. }
  cbn in Hs. destruct Hs as (H1 & H2 & H3).
  change (band_rects t1 b1 ((l, r) :: s1)) with (mk_rect l t1 r b1 :: band_rects t1 b1 s1).
  eapply (rspec_emit t b reg (left0, r) (subtract_tail t b (next_left (band_rects t1 b1 s1) left0)
                                           (band_rects t1 b1 s1))); [done| |].
  - intros reg1 Hc1. eapply IH; [|done]. rewrite cut_first_next_left. exact H3.
  - intros sp <-. cbn. by rewrite cut_first_next_left.
Qed.

(** The four ways the loop moves on, as facts on the span lists: [s1] is what is
    left of the first operand (starting at [left0] after the cut). *)
Lemma diff_skip_r2 lo left0 r1 s1 l2 r2 s2 sp :
  spans_from lo ((left0, r1) :: s1) -> r2 <= left0 ->
  diff_spec lo ((left0, r1) :: s1) s2 sp ->
  diff_spec lo ((left0, r1) :: s1) ((l2, r2) :: s2) sp.
Proof.
  intros H Hr [H1 H2]. split; [done|]. intros x. rewrite H2. cbn in *.
  destruct H as (A1 & A2 & A3). destruct (Z.leb_spec left0 x); [|below A3 x; zbool; done].
  destruct (Z.ltb_spec x r2); [lia|]. by rewrite andb_false_r.
Qed.

(** [c] covers the rest of the first span up to [r1]. *)
Lemma diff_drop_r1 lo left0 r1 s1 l2 r2 s2 sp :
  spans_from lo ((left0, r1) :: s1) -> l2 <= left0 -> r1 <= r2 ->
  diff_spec r1 s1 ((l2, r2) :: s2) sp ->
  diff_spec lo ((left0, r1) :: s1) ((l2, r2) :: s2) sp.
Proof.
  intros H Hl Hr [H1 H2]. cbn in H. destruct H as (A1 & A2 & A3).
  split; [eapply spans_from_weaken; [done|lia]|]. intros x. rewrite H2. cbn.
  destruct (Z.ltb_spec x r1); [below A3 x|]; zbool; done.
Qed.

(** [c] covers the start of the first span. *)
Lemma diff_cut_r1 lo left0 r1 s1 l2 r2 s2 sp :
  spans_from lo ((left0, r1) :: s1) -> l2 <= left0 -> left0 < r2 -> r2 < r1 ->
  spans_from r2 s2 ->
  diff_spec (r2 - 1) ((r2, r1) :: s1) s2 sp ->
  diff_spec lo ((left0, r1) :: s1) ((l2, r2) :: s2) sp.
Proof.
  intros H Hl Hr Hr1 Hs2 [H1 H2]. cbn in H. destruct H as (A1 & A2 & A3).
  split; [eapply spans_from_weaken; [done|lia]|]. intros x. rewrite H2. cbn.
  destruct (Z.ltb_spec x r1); [below A3 x|]; zbool; done.
Qed.

(** The part of the first span before [c] is emitted, [c] covering the rest. *)
Lemma diff_emit_drop lo left0 r1 s1 l2 r2 s2 sp :
  spans_from lo ((left0, r1) :: s1) -> left0 < l2 -> l2 < r1 -> r1 <= r2 -> spans_from r2 s2 ->
  diff_spec r1 s1 ((l2, r2) :: s2) sp ->
  diff_spec lo ((left0, r1) :: s1) ((l2, r2) :: s2) ((left0, l2) :: sp).
Proof.
  intros H Hl Hl1 Hr Hs2 [H1 H2]. cbn in H. destruct H as (A1 & A2 & A3). split.
  - cbn. repeat split; try lia. eapply spans_from_weaken; [done|lia].
  - intros x. cbn. rewrite H2. cbn.
    destruct (Z.ltb_spec x r1); [below A3 x|]; (destruct (Z.leb_spec x r2); [below Hs2 x|]); zbool; done.
Qed.

(** The part before [c] is emitted and the first span goes on after [c]. *)
Lemma diff_emit_cut lo left0 r1 s1 l2 r2 s2 sp :
  spans_from lo ((left0, r1) :: s1) -> left0 < l2 -> l2 < r2 -> r2 < r1 -> spans_from r2 s2 ->
  diff_spec (r2 - 1) ((r2, r1) :: s1) s2 sp ->
  diff_spec lo ((left0, r1) :: s1) ((l2, r2) :: s2) ((left0, l2) :: sp).
Proof.
  intros H Hl Hl1 Hr Hs2 [H1 H2]. cbn in H. destruct H as (A1 & A2 & A3). split.
  - cbn. repeat split; try lia. eapply spans_from_weaken; [done|lia].
  - intros x. cbn. rewrite H2. cbn.
    destruct (Z.ltb_spec x r1); [below A3 x|]; (destruct (Z.leb_spec x r2); [below Hs2 x|]); zbool; done.
Qed.

(** [c] is beyond the first span, which is emitted whole. *)
Lemma diff_emit_all lo left0 r1 s1 l2 r2 s2 sp :
  spans_from lo ((left0, r1) :: s1) -> r1 <= l2 -> l2 < r2 -> spans_from r2 s2 ->
  diff_spec r1 s1 ((l2, r2) :: s2) sp ->
  diff_spec lo ((left0, r1) :: s1) ((l2, r2) :: s2) ((left0, r1) :: sp).
Proof.
  intros H Hl Hl1 Hs2 [H1 H2]. cbn in H. destruct H as (A1 & A2 & A3). split; [by cbn|].
  intros x. cbn. rewrite H2. cbn.
  destruct (Z.ltb_spec x r1); [below A3 x|]; (destruct (Z.leb_spec x r2); [below Hs2 x|]); zbool; done.
Qed.

Lemma subtract_loop_nil t b t1 b1 s1 left0 lo reg :
  spans_from lo (cut_first left0 s1) -> capacity_ok reg ->
  rspec (subtract_loop t b (band_rects t1 b1 s1) [] left0 reg)
        (appends t b reg (diff_spec lo (cut_first left0 s1) [])).
Proof.
  intros Hs Hc.
  replace (subtract_loop t b (band_rects t1 b1 s1) [] left0 reg)
    with (subtract_tail t b left0 (band_rects t1 b1 s1) reg) by by destruct s1.
  eapply rspec_weaken; [by eapply subtract_tail_spec|]. intros reg' Ha.
  eapply appends_weaken; [exact Ha|]. intros sp <-. split; [done|]. intros x. by rewrite andb_true_r.
Qed.

Lemma rspec_appends_weaken t b reg m (P P' : list span -> Prop) :
  rspec m (appends t b reg P) -> (forall sp, P sp -> P' sp) -> rspec m (appends t b reg P').
Proof. intros Hm HP. eapply rspec_weaken; [exact Hm|]. intros. by eapply appends_weaken. Qed.

Lemma subtract_loop_spec t b t1 b1 t2 b2 s1 s2 left0 lo lo2 reg :
  spans_from lo (cut_first left0 s1) -> spans_from lo2 s2 -> capacity_ok reg ->
  rspec (subtract_loop t b (band_rects t1 b1 s1) (band_rects t2 b2 s2) left0 reg)
        (appends t b reg (diff_spec lo (cut_first left0 s1) s2)).
Proof.
  revert s2 left0 lo lo2 reg. induction s1 as [|[l1 r1] s1 IH1]; intros s2.
  { intros left0 lo lo2 reg _ _ Hc. destruct s2; (apply rspec_ret, appends_nil; [done|by split]). }
  induction s2 as [|[l2 r2] s2 IH2]; intros left0 lo lo2 reg H1 H2 Hc; [by apply subtract_loop_nil|].
  change (band_rects t1 b1 ((l1, r1) :: s1)) with (mk_rect l1 t1 r1 b1 :: band_rects t1 b1 s1) in *.
  change (band_rects t2 b2 ((l2, r2) :: s2)) with (mk_rect l2 t2 r2 b2 :: band_rects t2 b2 s2).
  rewrite subtract_loop_cons. cbn [left right cut_first] in *.
  pose proof H1 as (A1 & A2 & A3). pose proof H2 as (B1 & B2 & B3).
  assert (Hdrop : forall d reg1, capacity_ok reg1 ->
    rspec (subtract_loop t b (band_rects t1 b1 s1) (mk_rect l2 t2 r2 b2 :: band_rects t2 b2 s2)
             (next_left (band_rects t1 b1 s1) d) reg1)
          (appends t b reg1 (diff_spec r1 s1 ((l2, r2) :: s2)))).
  { intros d reg1 Hc1.
    pose proof (IH1 ((l2, r2) :: s2) (next_left (band_rects t1 b1 s1) d) r1 lo2 reg1) as IH.
    rewrite cut_first_next_left in IH. by apply IH. }
  assert (Hcut : r2 < r1 -> forall reg1, capacity_ok reg1 ->
    rspec (subtract_loop t b (mk_rect l1 t1 r1 b1 :: band_rects t1 b1 s1) (band_rects t2 b2 s2) r2 reg1)
          (appends t b reg1 (diff_spec (r2 - 1) ((r2, r1) :: s1) s2))).
  { intros Hr reg1 Hc1. apply (IH2 r2 (r2 - 1) r2 reg1); [|done..]. split; [lia|done]. }
  destruct (Z.leb_spec r2 left0) as [Hr|Hr].
  { eapply rspec_appends_weaken; [by eapply IH2|]. intros sp. by apply diff_skip_r2. }
  destruct (Z.leb_spec l2 left0) as [Hl|Hl].
  { destruct (Z.leb_spec r1 r2) as [Hr12|Hr12].
    - eapply rspec_appends_weaken; [by apply Hdrop|]. intros sp. by apply diff_drop_r1.
    - eapply rspec_appends_weaken; [by apply Hcut|]. intros sp. by apply diff_cut_r1. }
  destruct (Z.ltb_spec l2 r1) as [Hl1|Hl1].
  - destruct (Z.leb_spec r1 r2) as [Hr12|Hr12].
    + eapply rspec_emit; [done|by apply Hdrop|]. intros sp. by apply diff_emit_drop.
    + eapply rspec_emit; [done|by apply Hcut|]. intros sp. by apply diff_emit_cut.
  - destruct (Z.ltb_spec left0 r1); [|lia].
    eapply rspec_emit; [done|by apply Hdrop|]. intros sp. by apply diff_emit_all.
Qed.

Lemma subtract_overlapping_spec t b t1 b1 t2 b2 s1 s2 lo lo2 reg :
  spans_from lo s1 -> spans_from lo2 s2 -> capacity_ok reg ->
  rspec (subtract_overlapping t b (band_rects t1 b1 s1) (band_rects t2 b2 s2) reg)
        (appends t b reg (diff_spec lo s1 s2)).
Proof.
  intros H1 H2 Hc. unfold subtract_overlapping.
  pose proof (subtract_loop_spec t b t1 b1 t2 b2 s1 s2 (next_left (band_rects t1 b1 s1) 0) lo lo2 reg) as H.
  rewrite cut_first_next_left in H. by apply H.
Qed.

(** ** Union of two bands *)

Section union_band.
(** [pre] is the part of the region above the current band [t, b). *)
Context (t b lo : Z) (pre : list rectangle_t) (ext : rectangle_t).
Context (Htb : t < b) (Hpre : Forall (fun r => bottom r <= t) pre).

(** The last span of [acc] starts at or before [l]. *)
Definition ends_by (acc : list span) (l : Z) : Prop :=
  forall acc0 p q, acc = acc0 ++ [(p, q)] -> p <= l.

(** The region holds [pre] and the band [acc]. *)
Definition in_band (acc : list span) (reg : region) : Prop :=
  rects reg = pre ++ band_rects t b acc /\ extents reg = ext /\ capacity_ok reg /\ spans_from lo acc.

(** [acc'] is [acc] with the span [l, r) merged in. *)
Definition merged (acc : list span) (l r : Z) (acc' : list span) : Prop :=
  ends_by acc' l /\ forall x, in_spans acc' x = in_spans acc x || ((l <=? x) && (x <? r)).

Lemma ends_by_le acc l l' : ends_by acc l -> l <= l' -> ends_by acc l'.
Proof using. intros H Hl acc0 p q Heq. specialize (H _ _ _ Heq). lia. Qed.

Lemma ends_by_snoc acc p q l : p <= l -> ends_by (acc ++ [(p, q)]) l.
Proof using. intros Hp acc0 p' q' Heq. apply app_inj_2 in Heq as [_ Heq]; [|done]. by simplify_eq. Qed.

Lemma merged_new acc l r reg1 reg :
  in_band acc reg -> spans_end lo acc < l -> l < r ->
  rects reg1 = rects reg ++ [mk_rect l t r b] -> extents reg1 = extents reg -> capacity_ok reg1 ->
  in_band (acc ++ [(l, r)]) reg1 /\ merged acc l r (acc ++ [(l, r)]).
Proof using.
  intros (H1 & H2 & H3 & H4) Hl Hr Hr1 He1 Hc1. split; [split|].
  - rewrite Hr1, H1, <-app_assoc. unfold band_rects. by rewrite fmap_app.
  - split; [congruence|]. split; [done|]. apply spans_from_app. by cbn.
  - split; [by apply ends_by_snoc|]. intros x. rewrite in_spans_app. cbn. by rewrite orb_false_r.
Qed.

Lemma last_of_band acc p q reg :
  in_band (acc ++ [(p, q)]) reg ->
  rects reg = (pre ++ band_rects t b acc) ++ [mk_rect p t q b] /\
  rects reg !! (length (rects reg) - 1)%nat = Some (mk_rect p t q b).
Proof using.
  intros (H1 & _). unfold band_rects in H1. rewrite fmap_app in H1. cbn in H1.
  rewrite app_assoc in H1. fold (band_rects t b acc) in H1. split; [done|].
  rewrite H1, length_app. cbn. rewrite lookup_app_r by lia.
  by replace (_ - _)%nat with 0%nat by lia.
Qed.

Lemma spans_end_snoc d acc p q : spans_end d (acc ++ [(p, q)]) = q.
Proof using. revert d. induction acc as [|[??] acc IH]; intros d; cbn; auto. Qed.

Lemma MERGERECT_spec acc l r t1 b1 reg :
  in_band acc reg -> ends_by acc l -> lo < l -> l < r ->
  rspec (MERGERECT t b (mk_rect l t1 r b1) reg)
        (fun reg' => exists acc', in_band acc' reg' /\ merged acc l r acc').
Proof using Htb Hpre.
  intros Hin Hends Hlo Hr. pose proof Hin as (H1 & H2 & H3 & H4).
  assert (Hadd : spans_end lo acc < l ->
    rspec (add_rect reg (mk_rect l t r b))
          (fun reg' => exists acc', in_band acc' reg' /\ merged acc l r acc')).
  { intros Hend. eapply rspec_weaken; [by apply add_rect_spec|]. intros reg1 (E1 & E2 & E3).
    eexists. by eapply merged_new. }
  unfold MERGERECT. destruct acc as [|[p q] acc _] using rev_ind.
  - cbn in H1. rewrite app_nil_r in H1. destruct (rects reg !! _) as [rl|] eqn:Hl; [|by apply Hadd].
    rewrite H1 in Hl. apply list_elem_of_lookup_2 in Hl.
    rewrite list.Forall_forall in Hpre. specialize (Hpre _ Hl). cbn.
    destruct (Z.eqb_spec (bottom rl) b); [lia|]. rewrite andb_false_r. by apply Hadd.
  - destruct (last_of_band _ _ _ _ Hin) as [Hrects Hlast]. rewrite Hlast. cbn.
    rewrite !Z.eqb_refl. cbn. rewrite spans_end_snoc in Hadd.
    destruct (Z.leb_spec l q) as [Hlq|Hlq]; [|by apply Hadd].
    specialize (Hends _ _ _ eq_refl). apply spans_from_app in H4 as [H4 (H5 & H6 & _)].
    destruct (Z.ltb_spec q r) as [Hqr|Hqr]; apply rspec_ret.
    + exists (acc ++ [(p, r)]). split; [split; [|split; [done|split]]|split].
      * cbn. rewrite Hrects at 1 2. rewrite length_app. cbn.
        rewrite insert_app_r_alt by lia. replace (_ - _)%nat with 0%nat by lia. cbn.
        unfold band_rects. by rewrite fmap_app, app_assoc.
      * destruct H3 as [H3 H3']. split; [done|]. unfold num_rects in *. cbn.
        by rewrite length_insert.
      * apply spans_from_app. split; [done|]. cbn. repeat split; lia.
      * by apply ends_by_snoc.
      * intros x. rewrite !in_spans_app. cbn. destruct (in_spans acc x); [done|]. zbool; done.
    + exists (acc ++ [(p, q)]). split; [done|]. split; [by apply ends_by_snoc|].
      intros x. rewrite !in_spans_app. cbn. destruct (in_spans acc x); [done|]. zbool; done.
Qed.

(** [acc] may be continued with the spans [s]. *)
Definition continues (acc s : list span) : Prop :=
  spans_from lo s /\ match s with [] => True | (l, _) :: _ => ends_by acc l end.

Definition union_spec (acc s1 s2 : list span) (reg' : region) : Prop :=
  exists acc', in_band acc' reg' /\
    forall x, in_spans acc' x = in_spans acc x || in_spans s1 x || in_spans s2 x.

Lemma continues_tail acc l r s l' :
  continues acc ((l, r) :: s) -> forall acc', ends_by acc' l' -> l' <= l -> continues acc' s.
Proof using.
  intros [(H1 & H2 & H3) _] acc' He Hl. split; [eapply spans_from_weaken; [done|lia]|].
  destruct s as [|[l2 r2] s]; [done|]. cbn in H3. eapply ends_by_le; [done|lia].
Qed.

Lemma union_tail_spec t1 b1 s acc reg :
  in_band acc reg -> continues acc s ->
  rspec (union_tail t b (band_rects t1 b1 s) reg) (union_spec acc s []).
Proof using Htb Hpre.
  revert acc reg. induction s as [|[l r] s IH]; intros acc reg Hin Hs.
  { apply rspec_ret. exists acc. split; [done|]. intros x. by rewrite !orb_false_r. }
  pose proof Hs as [(H1 & H2 & H3) He].
  eapply rspec_on_success; [by eapply MERGERECT_spec|].
  intros reg1 (acc1 & Hin1 & He1 & Hx1). eapply rspec_weaken.
  { eapply (IH acc1); [done|]. by eapply continues_tail. }
  intros reg' (acc' & Hin' & Hx'). exists acc'. split; [done|]. intros x.
  rewrite Hx', Hx1. cbn. rewrite !orb_false_r. by rewrite orb_assoc.
Qed.

Lemma union_overlapping_cons a r1 c r2 reg :
  union_overlapping t b (a :: r1) (c :: r2) reg =
  if left a <? left c
  then on_success (MERGERECT t b a reg) (union_overlapping t b r1 (c :: r2))
  else on_success (MERGERECT t b c reg) (union_overlapping t b (a :: r1) r2).
Proof using. reflexivity. Qed.

Lemma union_overlapping_loop t1 b1 t2 b2 s1 s2 acc reg :
  in_band acc reg -> continues acc s1 -> continues acc s2 ->
  rspec (union_overlapping t b (band_rects t1 b1 s1) (band_rects t2 b2 s2) reg)
        (union_spec acc s1 s2).
Proof using Htb Hpre.
  revert s2 acc reg. induction s1 as [|[l1 r1] s1 IH1]; intros s2.
  { intros acc reg Hin _ Hs2. replace (union_overlapping _ _ _ _ _)
      with (union_tail t b (band_rects t2 b2 s2) reg) by by destruct s2.
    eapply rspec_weaken; [by eapply union_tail_spec|]. intros reg' (acc' & ? & Hx).
    exists acc'. split; [done|]. intros x. rewrite Hx. cbn. by rewrite !orb_false_r. }
  induction s2 as [|[l2 r2] s2 IH2]; intros acc reg Hin Hs1 Hs2.
  { exact (union_tail_spec t1 b1 ((l1, r1) :: s1) acc reg Hin Hs1). }
  change (band_rects t1 b1 ((l1, r1) :: s1)) with (mk_rect l1 t1 r1 b1 :: band_rects t1 b1 s1) in *.
  change (band_rects t2 b2 ((l2, r2) :: s2)) with (mk_rect l2 t2 r2 b2 :: band_rects t2 b2 s2).
  rewrite union_overlapping_cons. cbn [left].
  pose proof Hs1 as [(A1 & A2 & A3) A4]. pose proof Hs2 as [(B1 & B2 & B3) B4].
  destruct (Z.ltb_spec l1 l2) as [Hl|Hl].
  - eapply rspec_on_success; [by eapply MERGERECT_spec|]. intros reg1 (acc1 & Hin1 & He1 & Hx1).
    eapply rspec_weaken.
    { eapply (IH1 ((l2, r2) :: s2) acc1); [done|by eapply continues_tail|].
      split; [done|]. eapply ends_by_le; [done|lia]. }
    intros reg' (acc' & ? & Hx). exists acc'. split; [done|]. intros x. rewrite Hx, Hx1. cbn.
    by rewrite !orb_assoc.
  - eapply rspec_on_success; [by eapply MERGERECT_spec|]. intros reg1 (acc1 & Hin1 & He1 & Hx1).
    eapply rspec_weaken.
    { eapply (IH2 acc1); [done| |by eapply continues_tail].
      split; [done|]. eapply ends_by_le; [done|lia]. }
    intros reg' (acc' & ? & Hx). exists acc'. split; [done|]. intros x. rewrite Hx, Hx1. cbn.
    destruct (in_spans acc x), (in_spans s1 x), (in_spans s2 x); zbool; done.
Qed.
End union_band.

Definition or_spec (lo : Z) (s1 s2 sp : list span) : Prop :=
  spans_from lo sp /\ forall x, in_spans sp x = in_spans s1 x || in_spans s2 x.

Lemma union_overlapping_spec t b t1 b1 t2 b2 s1 s2 lo reg :
  t < b -> Forall (fun r => bottom r <= t) (rects reg) ->
  spans_from lo s1 -> spans_from lo s2 -> capacity_ok reg ->
  rspec (union_overlapping t b (band_rects t1 b1 s1) (band_rects t2 b2 s2) reg)
        (appends t b reg (or_spec lo s1 s2)).
Proof.
  intros Htb Hpre H1 H2 Hc. eapply rspec_weaken.
  { eapply (union_overlapping_loop t b lo (rects reg) (extents reg) Htb Hpre t1 b1 t2 b2 s1 s2 []).
    - repeat split; try apply Hc. cbn. by rewrite app_nil_r.
    - split; [done|]. destruct s1 as [|[??]?]; [done|]. intros [|??] ? ? ?; done.
    - split; [done|]. destruct s2 as [|[??]?]; [done|]. intros [|??] ? ? ?; done. }
  intros reg' (acc' & (E1 & E2 & E3 & E4) & Hx). exists acc'. split_and!; [done..|]. by split.
Qed.
