(* ===== verification/RegionBands.v ===== *)
(** * Banded regions: the sweep of server/region.c

    A rectangle array accepted by validate_rectangles is the concatenation of
    bands; the sweep of region_op is shown to produce the bands of a set
    operation, whatever routines it is given, as long as those treat one band
    correctly. *)

From Stdlib Require Import ZArith Lia Bool.
From stdpp Require Import base list numbers option.
From S2P Require Import Prelude Region RegionSpans.

#[local] Open Scope Z_scope.
#[local] Open Scope server_scope.

(** ** Bands *)

Record band := mk_band {
  b_top : Z;
  b_bot : Z;
  b_spans : list span
}.

Definition rects_of (b : band) : list rectangle_t := band_rects (b_top b) (b_bot b) (b_spans b).

Definition flatten (bs : list band) : list rectangle_t := flat_map rects_of bs.

Definition band_ok (b : band) : Prop :=
  b_top b < b_bot b /\ b_spans b <> [] /\ exists lo, spans_from lo (b_spans b).

(** Bands from top to bottom, none above [y]. *)
Fixpoint bands_wf (y : Z) (bs : list band) : Prop :=
  match bs with
  | [] => True
  | b :: bs' => y <= b_top b /\ band_ok b /\ bands_wf (b_bot b) bs'
  end.

Fixpoint bands_end (y : Z) (bs : list band) : Z :=
  match bs with
  | [] => y
  | b :: bs' => bands_end (b_bot b) bs'
  end.

(** The set of pixels of a rectangle array. *)
Definition covers (rs : list rectangle_t) (x y : Z) : bool :=
  existsb (fun r => point_in_rect r x y) rs.

(** [p] is the index of the first rectangle of the last band. *)
Definition prev_index (bs : list band) (p : nat) : Prop :=
  (bs = [] /\ p = 0%nat) \/ exists bs0 b, bs = bs0 ++ [b] /\ p = length (flatten bs0).

(** ** Elementary facts *)

Lemma covers_app rs1 rs2 x y : covers (rs1 ++ rs2) x y = covers rs1 x y || covers rs2 x y.
Proof. apply existsb_app. Qed.

Lemma covers_band t b sp x y :
  covers (band_rects t b sp) x y = (t <=? y) && (y <? b) && in_spans sp x.
Proof.
  induction sp as [|[l r] sp IH]; cbn; [by rewrite andb_false_r|].
  unfold covers, band_rects in IH. rewrite IH. unfold point_in_rect. cbn.
  destruct (l <=? x), (x <? r), (t <=? y), (y <? b), (in_spans sp x); done.
Qed.

Lemma flatten_app bs1 bs2 : flatten (bs1 ++ bs2) = flatten bs1 ++ flatten bs2.
Proof. apply flat_map_app. Qed.

Lemma flatten_snoc bs b : flatten (bs ++ [b]) = flatten bs ++ rects_of b.
Proof. rewrite flatten_app. cbn. by rewrite app_nil_r. Qed.

Lemma bands_wf_app y bs1 bs2 :
  bands_wf y (bs1 ++ bs2) <-> bands_wf y bs1 /\ bands_wf (bands_end y bs1) bs2.
Proof. revert y. induction bs1 as [|b bs1 IH]; intros y; cbn; [tauto|]. rewrite IH. tauto. Qed.

Lemma bands_end_app y bs1 bs2 : bands_end y (bs1 ++ bs2) = bands_end (bands_end y bs1) bs2.
Proof. revert y. induction bs1; intros; cbn; auto. Qed.

Lemma bands_wf_le y y' bs : bands_wf y bs -> y' <= y -> bands_wf y' bs.
Proof. destruct bs; cbn; [done|]. intros (?&?&?) ?. split; [lia|auto]. Qed.

Lemma bands_end_le y bs : bands_wf y bs -> y <= bands_end y bs.
Proof.
  revert y. induction bs as [|b bs IH]; intros y; cbn; [lia|].
  intros (H1 & (H2 & _) & H3). specialize (IH _ H3). lia.
Qed.

Lemma covers_cons b bs x y :
  covers (flatten (b :: bs)) x y =
  (b_top b <=? y) && (y <? b_bot b) && in_spans (b_spans b) x || covers (flatten bs) x y.
Proof. change (flatten (b :: bs)) with (rects_of b ++ flatten bs). by rewrite covers_app, <-covers_band. Qed.

Lemma covers_above y0 bs x y : bands_wf y0 bs -> y < y0 -> covers (flatten bs) x y = false.
Proof.
  revert y0. induction bs as [|b bs IH]; intros y0; cbn [bands_wf]; [done|].
  intros (H1 & (H2 & _) & H3) Hy. rewrite covers_cons, (IH (b_bot b)) by (done || lia). zbool.
Qed.

Lemma covers_below y0 bs x y :
  bands_wf y0 bs -> bands_end y0 bs <= y -> covers (flatten bs) x y = false.
Proof.
  revert y0. induction bs as [|b bs IH]; intros y0; cbn [bands_wf bands_end]; [done|].
  intros (H1 & (H2 & _) & H3) Hy. rewrite covers_cons, (IH (b_bot b)) by (done || lia).
  pose proof (bands_end_le _ _ H3). zbool.
Qed.

Lemma bottoms_le_end y bs : bands_wf y bs -> Forall (fun r => bottom r <= bands_end y bs) (flatten bs).
Proof.
  revert y. induction bs as [|b bs IH]; intros y; cbn; [constructor|].
  intros (H1 & H2 & H3). apply Forall_app. split; [|by apply IH].
  pose proof (bands_end_le _ _ H3). unfold rects_of, band_rects.
  apply Forall_fmap, Forall_true. intros [l r]. cbn. lia.
Qed.

Lemma rects_of_cons b : band_ok b -> exists l r sp, b_spans b = (l, r) :: sp.
Proof. intros (_ & H & _). destruct (b_spans b) as [|[l r] sp]; [done|]. eauto. Qed.

Lemma flatten_cons_inv y b bs :
  bands_wf y (b :: bs) ->
  exists h tl, flatten (b :: bs) = h :: tl /\ top h = b_top b /\ bottom h = b_bot b.
Proof.
  intros (_ & Hok & _). destruct (rects_of_cons b Hok) as (l & r & sp & Hs).
  cbn. unfold rects_of. rewrite Hs. cbn. eauto.
Qed.

Lemma flatten_nil_inv y bs : bands_wf y bs -> flatten bs = [] -> bs = [].
Proof.
  destruct bs as [|b bs]; [done|]. intros H Hf.
  destruct (flatten_cons_inv y b bs H) as (?&?&E&_). congruence.
Qed.

(** ** Splitting off a band *)

Lemma split_top_band t b sp rest :
  (forall h tl, rest = h :: tl -> top h <> t) ->
  split_top t (band_rects t b sp ++ rest) = (band_rects t b sp, rest).
Proof.
  intros Hrest. induction sp as [|[l r] sp IH]; cbn.
  - destruct rest as [|h tl]; [done|]. cbn. specialize (Hrest h tl eq_refl).
    by destruct (Z.eqb_spec (top h) t).
  - rewrite Z.eqb_refl. unfold band_rects in IH. by rewrite IH.
Qed.

Lemma band_split_flatten y b bs :
  bands_wf y (b :: bs) -> band_split (flatten (b :: bs)) = (rects_of b, flatten bs).
Proof.
  intros H. destruct (flatten_cons_inv y b bs H) as (h & tl & E & Ht & _).
  unfold band_split. rewrite E, <-E, Ht. cbn. apply split_top_band.
  intros h' tl' E'. destruct H as (_ & (H2 & _) & H3).
  destruct bs as [|b' bs]; [done|].
  destruct (flatten_cons_inv _ b' bs H3) as (h2 & tl2 & E2 & Ht2 & _).
  rewrite E2 in E'. simplify_eq. rewrite Ht2. destruct H3. lia.
Qed.

(** ** Coalescing *)

Lemma same_spans_band t1 b1 t2 b2 sp1 sp2 :
  length sp1 = length sp2 ->
  same_spans (band_rects t1 b1 sp1) (band_rects t2 b2 sp2) = true -> sp1 = sp2.
Proof.
  revert sp2. induction sp1 as [|[l r] sp1 IH]; intros [|[l2 r2] sp2] Hl; cbn; try done.
  destruct (Z.eqb_spec l l2), (Z.eqb_spec r r2); cbn; try done.
  intros Hs. cbn in Hl. f_equal; [by subst|]. apply IH; [lia|done].
Qed.

Lemma extend_bottoms_band t1 b1 t2 b2 sp :
  extend_bottoms (band_rects t1 b1 sp) (band_rects t2 b2 sp) = band_rects t1 b2 sp.
Proof. induction sp as [|[l r] sp IH]; cbn; [done|]. f_equal. apply IH. Qed.

Lemma length_band t b sp : length (band_rects t b sp) = length sp.
Proof. apply length_fmap. Qed.

(** Either nothing changes, or the last band of [A] absorbs [c]. *)
Inductive coalesced (A : list band) (c : band) : list band -> Prop :=
  | co_same : coalesced A c (A ++ [c])
  | co_merge A0 p : A = A0 ++ [p] -> b_bot p = b_top c -> b_spans p = b_spans c ->
      coalesced A c (A0 ++ [mk_band (b_top p) (b_bot c) (b_spans p)]).

Lemma coalesce_region_bands y0 reg A c rest p :
  rects reg = flatten (A ++ c :: rest) -> bands_wf y0 (A ++ c :: rest) -> prev_index A p ->
  exists A' p', coalesce_region reg p (length (flatten A)) =
                  (mk_region (size reg) (flatten (A' ++ rest)) (extents reg), p') /\
                coalesced A c A' /\ (rest = [] -> prev_index A' p').
Proof.
  intros Hr Hwf Hp. pose proof Hwf as [HA Hc]%bands_wf_app.
  assert (Hreg : reg = mk_region (size reg) (flatten ((A ++ [c]) ++ rest)) (extents reg)).
  { destruct reg; cbn in *. by rewrite Hr, <-app_assoc. }
  assert (Hcur : band_split (drop (length (flatten A)) (rects reg)) = (rects_of c, flatten rest)).
  { rewrite Hr, flatten_app, drop_app_length. by eapply band_split_flatten. }
  assert (Hsame : forall q, (rest = [] -> q = length (flatten A)) ->
    exists A' p', (reg, q) = (mk_region (size reg) (flatten (A' ++ rest)) (extents reg), p') /\
                coalesced A c A' /\ (rest = [] -> prev_index A' p')).
  { intros q Hq. exists (A ++ [c]), q. split; [by rewrite <-Hreg|]. split; [constructor|].
    intros Hrest. right. exists A, c. auto. }
  assert (Hq : forall q', rest = [] ->
    match flatten rest with [] => length (flatten A) | _ :: _ => q' end = length (flatten A)).
  { by intros q' ->. }
  unfold coalesce_region. rewrite Hcur.
  destruct Hp as [[-> ->]|(A0 & pb & -> & ->)].
  { cbn. destruct (length (rects_of c)) eqn:Hlen; cbn; by (apply Hsame; intros; apply Hq). }
  rewrite flatten_snoc in *.
  assert (Hprev : take (length (flatten A0 ++ rects_of pb) - length (flatten A0))
                       (drop (length (flatten A0)) (rects reg)) = rects_of pb).
  { rewrite Hr, flatten_app, flatten_snoc, <-app_assoc, drop_app_length, length_app.
    replace (_ - _)%nat with (length (rects_of pb)) by lia. apply take_app_length. }
  rewrite Hprev. clear Hprev Hcur.
  set (n := length (flatten A0 ++ rects_of pb)) in *. clearbody n.
  apply bands_wf_app in HA as [HA0 Hpb]. cbn in Hpb, Hc.
  destruct Hpb as (_ & Hpok & _), Hc as (_ & Hcok & _).
  destruct (rects_of_cons pb Hpok) as (l1 & r1 & sp1 & E1).
  destruct (rects_of_cons c Hcok) as (l2 & r2 & sp2 & E2).
  destruct (length (rects_of c) =? length (rects_of pb))%nat eqn:Hlen; [|cbn; by (apply Hsame; intros; apply Hq)].
  apply Nat.eqb_eq in Hlen. unfold rects_of in Hlen |- *. rewrite !length_band in Hlen.
  rewrite E1, E2. cbn [band_rects fmap list_fmap length Nat.eqb negb andb bottom top span_rect].
  destruct (Z.eqb_spec (b_bot pb) (b_top c)) as [Hbt|_]; [|by apply Hsame; intros; apply Hq].
  match goal with |- context [if same_spans ?u ?v then _ else _] =>
    change (same_spans u v) with
      (same_spans (band_rects (b_top pb) (b_bot pb) ((l1, r1) :: sp1))
                  (band_rects (b_top c) (b_bot c) ((l2, r2) :: sp2)));
    change (extend_bottoms u v) with
      (extend_bottoms (band_rects (b_top pb) (b_bot pb) ((l1, r1) :: sp1))
                  (band_rects (b_top c) (b_bot c) ((l2, r2) :: sp2)))
  end.
  destruct (same_spans _ _) eqn:Hsp; [|by apply Hsame; intros; apply Hq].
  rewrite E1, E2 in Hlen. apply same_spans_band in Hsp; [|done]. rewrite <-Hsp in *.
  rewrite extend_bottoms_band, Hr, flatten_app, flatten_snoc, <-app_assoc, take_app_length.
  eexists (A0 ++ [mk_band (b_top pb) (b_bot c) (b_spans pb)]), _.
  split; [|split].
  - rewrite flatten_app, flatten_snoc, <-app_assoc. unfold rects_of at 1. cbn. rewrite E1. done.
  - constructor; [done|done|congruence].
  - intros ->. right. eexists A0, _. split; [done|]. done.
Qed.

Lemma coalesced_wf y0 A c A' :
  bands_wf y0 (A ++ [c]) -> coalesced A c A' ->
  bands_wf y0 A' /\ bands_end y0 A' = b_bot c /\ (length (flatten A') <= length (flatten (A ++ [c])))%nat /\
  forall x y, covers (flatten A') x y = covers (flatten (A ++ [c])) x y.
Proof.
  intros Hwf [|A0 p -> Hb Hs].
  { split; [done|]. rewrite bands_end_app. done. }
  rewrite <-app_assoc in *. cbn [app] in *. apply bands_wf_app in Hwf as [HA0 Hp].
  cbn in Hp. destruct Hp as (P1 & (P2 & P3 & P4) & C1 & (C2 & C3 & C4) & _).
  split; [|split; [|split]].
  - apply bands_wf_app. split; [done|]. cbn. repeat split; try done; cbn; lia.
  - by rewrite bands_end_app.
  - rewrite !flatten_app, !length_app. cbn. rewrite !app_nil_r, !length_app. unfold rects_of, band_rects. rewrite !length_fmap. cbn. lia.
  - intros x y. rewrite !flatten_app, !covers_app, !covers_cons. cbn. rewrite Hs.
    destruct (in_spans (b_spans c) x); rewrite ?andb_false_r, ?andb_true_r; [|done].
    f_equal. zbool.
Qed.

(** ** What region_op needs of the routines it is given *)

(** [f] copies the spans of a band at the ordinates it is called with. *)
Definition copies (f : non_overlap_func_t) : Prop :=
  forall t b t1 b1 s reg, capacity_ok reg ->
  rspec (f t b (band_rects t1 b1 s) reg) (appends t b reg (eq s)).

(** The spans [sp] are well formed and those of [op] on [s1] and [s2]. *)
Definition op_spans (op : bool -> bool -> bool) (s1 s2 sp : list span) : Prop :=
  (exists lo, spans_from lo sp) /\ forall x, in_spans sp x = op (in_spans s1 x) (in_spans s2 x).

(** The interface between region_op and the three families of band routines:
    [op] is the set operation they compute. *)
Class BandOp (op : bool -> bool -> bool) (overlap_func : overlap_func_t)
    (non_overlap1_func non_overlap2_func : option non_overlap_func_t) : Prop := {
  op_ff : op false false = false;
  op_overlap : forall t b t1 b1 t2 b2 s1 s2 lo reg,
    t < b -> Forall (fun r => bottom r <= t) (rects reg) ->
    spans_from lo s1 -> spans_from lo s2 -> capacity_ok reg ->
    rspec (overlap_func t b (band_rects t1 b1 s1) (band_rects t2 b2 s2) reg)
          (appends t b reg (op_spans op s1 s2));
  op_only1 : match non_overlap1_func with
             | Some f => copies f /\ forall a, op a false = a
             | None => forall a, op a false = false
             end;
  op_only2 : match non_overlap2_func with
             | Some f => copies f /\ forall a, op false a = a
             | None => forall a, op false a = false
             end
}.

#[export] Instance intersect_band_op : BandOp andb intersect_overlapping None None.
Proof.
  split; [done| |by intros []|by intros []].
  intros. eapply rspec_appends_weaken; [by eapply intersect_overlapping_spec|].
  intros sp [Hs Hx]. split; [eauto|done].
Qed.

#[export] Instance subtract_band_op :
  BandOp (fun a b => a && negb b) subtract_overlapping (Some subtract_non_overlapping) None.
Proof.
  split; [done| | |by intros []].
  - intros. eapply rspec_appends_weaken; [by eapply subtract_overlapping_spec|].
    intros sp [Hs Hx]. split; [eauto|done].
  - split; [|by intros []]. unfold copies. intros. by apply subtract_non_overlapping_spec.
Qed.

#[export] Instance union_band_op :
  BandOp orb union_overlapping (Some union_non_overlapping) (Some union_non_overlapping).
Proof.
  split; [done| | |].
  - intros. eapply rspec_appends_weaken; [by eapply union_overlapping_spec|].
    intros sp [Hs Hx]. split; [eauto|done].
  - split; [|by intros []]. unfold copies. intros. by apply union_non_overlapping_spec.
  - split; [|by intros []]. unfold copies. intros. by apply union_non_overlapping_spec.
Qed.

(** ** The sweep *)

Section sweep.
Context (op : bool -> bool -> bool) (ov : overlap_func_t) (no1 no2 : option non_overlap_func_t).
Context {Hop : BandOp op ov no1 no2}.
Context (y0 : Z) (ext : rectangle_t) (B1 B2 : list band).

(** The region under construction holds the bands [A], none below [ylim]. *)
Definition out_ok (A : list band) (ylim : Z) (p : nat) (reg : region) : Prop :=
  rects reg = flatten A /\ extents reg = ext /\ capacity_ok reg /\
  bands_wf y0 A /\ bands_end y0 A <= ylim /\ prev_index A p.

(** A band of spans [sp] between [t] and [b] has been added to [A]. *)
Definition grown (A A' : list band) (t b : Z) (sp : list span) : Prop :=
  forall x y, covers (flatten A') x y =
              covers (flatten A) x y || ((t <=? y) && (y <? b) && in_spans sp x).

Lemma emit_band A p t b reg reg1 P :
  out_ok A t p reg -> t <= b -> appends t b reg P reg1 ->
  (forall sp, P sp -> (exists lo, spans_from lo sp) /\ (sp = [] \/ t < b)) ->
  exists A' sp, P sp /\ grown A A' t b sp /\
    out_ok A' b (snd (coalesce_if_grown reg1 p (length (rects reg))))
           (fst (coalesce_if_grown reg1 p (length (rects reg)))).
Proof using.
  intros (H1 & H2 & H3 & H4 & H5 & H6) Htb (sp & E1 & E2 & E3 & E4) HP.
  destruct (HP sp E4) as [[lo Hsp] Hne]. unfold coalesce_if_grown.
  destruct sp as [|s sp]; [clear Hne|destruct Hne as [|Hne]; [done|]].
  - cbn in E1. rewrite app_nil_r in E1. rewrite E1, Nat.eqb_refl. cbn. exists A, []. split; [done|].
    split; [intros x y; by rewrite andb_false_r, orb_false_r|].
    split; [congruence|]. split; [congruence|]. repeat split; try apply E3; try done. lia.
  - rewrite E1, length_app, length_band. cbn [length].
    destruct (Nat.eqb_spec (length (rects reg) + S (length sp)) (length (rects reg))); [lia|].
    set (c := mk_band t b (s :: sp)).
    assert (Hwf : bands_wf y0 (A ++ [c])).
    { apply bands_wf_app. split; [done|]. cbn. split; [lia|]. split; [|done]. split; [done|]. split; [done|]. by exists lo. }
    assert (Hr1 : rects reg1 = flatten (A ++ [c])) by by rewrite flatten_snoc, E1, H1.
    destruct (coalesce_region_bands y0 reg1 A c [] p) as (A' & p' & E & Hco & Hp'); [done..|].
    rewrite H1, E. cbn. rewrite app_nil_r in *.
    destruct (coalesced_wf y0 A c A' Hwf Hco) as (W1 & W2 & W3 & W4).
    exists A', (s :: sp). split; [done|]. split.
    + intros x y. rewrite W4, flatten_snoc, covers_app. f_equal. apply covers_band.
    + split; [done|]. split; [cbn; congruence|]. split.
      { destruct E3 as [E3 E3']. split; [done|]. unfold num_rects in *. cbn.
        rewrite Hr1 in E3'. lia. }
      split; [done|]. split; [cbn in W2; lia|by apply Hp'].
Qed.

Lemma out_ok_le A y y' p reg : out_ok A y p reg -> y <= y' -> out_ok A y' p reg.
Proof using. intros (?&?&?&?&?&?) ?. repeat split; try done; try apply H1. lia. Qed.

(** Loop invariant: above [ybot] the output is final, below it [bs1] and [bs2]
    are what remains of the operands. *)
Record sweep_inv (s : sweep) (A bs1 bs2 : list band) : Prop := {
  si_out : out_ok A (sw_ybot s) (sw_prevBand s) (sw_reg s);
  si_r1 : sw_r1 s = flatten bs1;
  si_r2 : sw_r2 s = flatten bs2;
  si_wf1 : exists z, bands_wf z bs1;
  si_wf2 : exists z, bands_wf z bs2;
  si_live1 : match bs1 with [] => True | b :: _ => sw_ybot s < b_bot b end;
  si_live2 : match bs2 with [] => True | b :: _ => sw_ybot s < b_bot b end;
  si_heads : match bs1, bs2 with
             | b1 :: _, b2 :: _ => sw_ybot s <= Z.max (b_top b1) (b_top b2)
             | _, _ => True
             end;
  si_done : forall x y, y < sw_ybot s ->
    covers (flatten A) x y = op (covers (flatten B1) x y) (covers (flatten B2) x y);
  si_todo1 : forall x y, sw_ybot s <= y -> covers (flatten bs1) x y = covers (flatten B1) x y;
  si_todo2 : forall x y, sw_ybot s <= y -> covers (flatten bs2) x y = covers (flatten B2) x y
}.

(** Dropping the head band when the sweep has reached its bottom. *)
Definition advance (ybot : Z) (bs : list band) : list band :=
  match bs with [] => [] | b :: bs' => if b_bot b =? ybot then bs' else bs end.

Lemma advance_facts z b bs ybot :
  bands_wf z (b :: bs) -> ybot <= b_bot b ->
  (exists z, bands_wf z (advance ybot (b :: bs))) /\
  match advance ybot (b :: bs) with [] => True | b' :: _ => ybot < b_bot b' end /\
  (b_bot b = ybot -> match advance ybot (b :: bs) with [] => True | b' :: _ => ybot <= b_top b' end) /\
  (forall x y, ybot <= y ->
     covers (flatten (advance ybot (b :: bs))) x y = covers (flatten (b :: bs)) x y).
Proof using.
  intros Hwf Hle. unfold advance. pose proof Hwf as (H1 & H2 & H3).
  destruct (Z.eqb_spec (b_bot b) ybot) as [<-|Hne].
  - split; [eauto|]. split.
    { destruct bs as [|b' bs]; [done|]. cbn in H3. destruct H3 as (? & (?&_) & _). lia. }
    split.
    { intros _. destruct bs as [|b' bs]; [done|]. cbn in H3. lia. }
    intros x y Hy. rewrite covers_cons. zbool; done.
  - split; [eauto|]. split; [lia|]. split; [done|]. done.
Qed.

(** Between [ybot] and the bottom of its first band an operand is that band. *)
Lemma head_only z b bs x y :
  bands_wf z (b :: bs) -> y < b_bot b ->
  covers (flatten (b :: bs)) x y = (b_top b <=? y) && in_spans (b_spans b) x.
Proof using.
  intros (H1 & H2 & H3) Hy. rewrite covers_cons, (covers_above (b_bot b) bs) by (done || lia).
  zbool; by rewrite orb_false_r.
Qed.

(** The spans of an operand alone in its part of the band. *)
Definition only_spans (g : bool -> bool) (t b : Z) (s sp : list span) : Prop :=
  ((exists lo, spans_from lo sp) /\ (sp = [] \/ t < b)) /\
  (t < b -> forall x, in_spans sp x = g (in_spans s x)).

Lemma call_non_overlap_spec func g reg t b t1 b1 s lo :
  match func with
  | Some f => copies f /\ forall a, g a = a
  | None => forall a, g a = false
  end ->
  t <= b -> spans_from lo s -> capacity_ok reg ->
  rspec (call_non_overlap func reg (band_rects t1 b1 s) t b)
        (appends t b reg (only_spans g t b s)).
Proof using.
  intros Hf Htb Hs Hc. destruct func as [f|]; cbn.
  - destruct Hf as [Hf Hg]. destruct (Z.eqb_spec t b).
    + apply rspec_ret, appends_nil; [done|]. split; [|lia]. split; [by exists 0|by left].
    + eapply rspec_appends_weaken; [by apply Hf|]. intros sp <-.
      split; [split; [eauto|right; lia]|]. intros _ x. by rewrite Hg.
  - apply rspec_ret, appends_nil; [done|]. split; [split; [by exists 0|by left]|].
    intros _ x. by rewrite Hf.
Qed.

(** The part of the step above the common ordinates of the two bands. *)
Definition step_call (s : sweep) (b1 b2 : band) : M (region * bool) :=
  if b_top b1 <? b_top b2 then
    call_non_overlap no1 (sw_reg s) (rects_of b1)
      (Z.max (b_top b1) (sw_ybot s)) (Z.min (b_bot b1) (b_top b2))
  else if b_top b2 <? b_top b1 then
    call_non_overlap no2 (sw_reg s) (rects_of b2)
      (Z.max (b_top b2) (sw_ybot s)) (Z.min (b_bot b2) (b_top b1))
  else ret (sw_reg s, true).

(** The output [A] is final above [ylim]. *)
Definition final_above (A : list band) (ylim : Z) : Prop :=
  forall x y, y < ylim ->
    covers (flatten A) x y = op (covers (flatten B1) x y) (covers (flatten B2) x y).

Lemma step_call_spec s A b1 bs1 b2 bs2 :
  sweep_inv s A (b1 :: bs1) (b2 :: bs2) ->
  let ylim := Z.min (Z.max (b_top b1) (b_top b2)) (Z.min (b_bot b1) (b_bot b2)) in
  rspec (step_call s b1 b2)
    (fun reg1 => exists A1,
       final_above A1 ylim /\
       out_ok A1 ylim (snd (coalesce_if_grown reg1 (sw_prevBand s) (length (rects (sw_reg s)))))
              (fst (coalesce_if_grown reg1 (sw_prevBand s) (length (rects (sw_reg s)))))).
Proof using Hop.
  intros [Hout _ _ [z1 Hwf1] [z2 Hwf2] L1 L2 Hh Hdone T1 T2]. cbn zeta.
  pose proof Hwf1 as (_ & (O1 & _ & [lo1 S1]) & _). pose proof Hwf2 as (_ & (O2 & _ & [lo2 S2]) & _).
  pose proof Hout as (_ & _ & Hcap & HwfA & HendA & _).
  assert (HA : forall x y, sw_ybot s <= y -> covers (flatten A) x y = false).
  { intros x y Hy. apply (covers_below y0); [done|lia]. }
  assert (H1 : forall x y, sw_ybot s <= y -> y < b_bot b1 ->
    covers (flatten B1) x y = (b_top b1 <=? y) && in_spans (b_spans b1) x).
  { intros x y Hy Hy'. rewrite <-T1 by done. by eapply head_only. }
  assert (H2 : forall x y, sw_ybot s <= y -> y < b_bot b2 ->
    covers (flatten B2) x y = (b_top b2 <=? y) && in_spans (b_spans b2) x).
  { intros x y Hy Hy'. rewrite <-T2 by done. by eapply head_only. }
  pose proof op_ff as Hff.
  unfold step_call. destruct (Z.ltb_spec (b_top b1) (b_top b2)) as [Ht|Ht];
    [|destruct (Z.ltb_spec (b_top b2) (b_top b1)) as [Ht'|Ht']].
  - eapply rspec_weaken.
    { eapply (call_non_overlap_spec no1 (fun a => op a false) _ _ _ _ _ _ lo1);
        [apply op_only1|lia|done|done]. }
    intros reg1 Happ. eapply (emit_band A (sw_prevBand s)) in Happ as (A1 & sp & [_ Hsp] & Hg & Ho).
    + exists A1. split; [|eapply out_ok_le; [exact Ho|lia]].
      intros x y Hy. rewrite Hg. destruct (Z.ltb_spec y (sw_ybot s)).
      { rewrite Hdone by done. zbool. by rewrite orb_false_r. }
      rewrite HA, H1, H2 by lia. cbn [orb]. destruct (Z.leb_spec (b_top b2) y); [lia|]. cbn [andb].
      destruct (Z.leb_spec (b_top b1) y); cbn [andb]; [|zbool; by rewrite Hff].
      rewrite Hsp by lia. zbool. done.
    + eapply out_ok_le; [exact Hout|lia].
    + lia.
    + by intros sp [? _].
  - eapply rspec_weaken.
    { eapply (call_non_overlap_spec no2 (fun a => op false a) _ _ _ _ _ _ lo2);
        [apply op_only2|lia|done|done]. }
    intros reg1 Happ. eapply (emit_band A (sw_prevBand s)) in Happ as (A1 & sp & [_ Hsp] & Hg & Ho).
    + exists A1. split; [|eapply out_ok_le; [exact Ho|lia]].
      intros x y Hy. rewrite Hg. destruct (Z.ltb_spec y (sw_ybot s)).
      { rewrite Hdone by done. zbool. by rewrite orb_false_r. }
      rewrite HA, H1, H2 by lia. cbn [orb]. destruct (Z.leb_spec (b_top b1) y); [lia|]. cbn [andb].
      destruct (Z.leb_spec (b_top b2) y); cbn [andb]; [|zbool; by rewrite Hff].
      rewrite Hsp by lia. zbool. done.
    + eapply out_ok_le; [exact Hout|lia].
    + lia.
    + by intros sp [? _].
  - apply rspec_ret. unfold coalesce_if_grown. rewrite Nat.eqb_refl. exists A. split.
    + intros x y Hy. destruct (Z.ltb_spec y (sw_ybot s)); [by apply Hdone|].
      rewrite HA, H1, H2 by lia. zbool. by rewrite Hff.
    + eapply out_ok_le; [exact Hout|lia].
Qed.

(** The part of the step where both operands have a band. *)
Lemma step_overlap_spec s A b1 bs1 b2 bs2 A1 p1 reg1 :
  sweep_inv s A (b1 :: bs1) (b2 :: bs2) ->
  let ytop := Z.max (b_top b1) (b_top b2) in
  let ybot := Z.min (b_bot b1) (b_bot b2) in
  final_above A1 (Z.min ytop ybot) -> out_ok A1 (Z.min ytop ybot) p1 reg1 ->
  rspec (if ytop <? ybot then ov ytop ybot (rects_of b1) (rects_of b2) reg1 else ret (reg1, true))
    (fun reg2 => exists A2,
       final_above A2 ybot /\
       out_ok A2 ybot (snd (coalesce_if_grown reg2 p1 (length (rects reg1))))
              (fst (coalesce_if_grown reg2 p1 (length (rects reg1))))).
Proof using Hop.
  intros [Hout _ _ [z1 Hwf1] [z2 Hwf2] L1 L2 Hh Hdone T1 T2] ytop ybot Hfin Ho.
  pose proof Hwf1 as (_ & (O1 & _ & [lo1 S1]) & _). pose proof Hwf2 as (_ & (O2 & _ & [lo2 S2]) & _).
  destruct (Z.ltb_spec ytop ybot) as [Hlt|Hge].
  - rewrite Z.min_l in Hfin, Ho by lia. pose proof Ho as (E1 & _ & Hcap & HwfA & HendA & _).
    eapply rspec_weaken.
    { eapply (op_overlap ytop ybot _ _ _ _ _ _ (Z.min lo1 lo2)); [done| | | |done].
      - rewrite E1. eapply list.Forall_impl; [by apply bottoms_le_end|]. cbn. lia.
      - eapply spans_from_weaken; [done|lia].
      - eapply spans_from_weaken; [done|lia]. }
    intros reg2 Happ. eapply (emit_band A1 p1) in Happ as (A2 & sp & [_ Hsp] & Hg & Ho2).
    + exists A2. split; [|exact Ho2]. intros x y Hy. rewrite Hg.
      destruct (Z.ltb_spec y ytop).
      { rewrite Hfin by done. zbool. by rewrite orb_false_r. }
      rewrite (covers_below y0 A1) by (done || lia). rewrite <-T1, <-T2 by lia.
      rewrite (head_only z1 b1), (head_only z2 b2) by (done || lia). rewrite Hsp. zbool. done.
    + exact Ho.
    + lia.
    + intros sp [? _]. split; [done|by right].
  - rewrite Z.min_r in Hfin, Ho by lia. apply rspec_ret. unfold coalesce_if_grown.
    rewrite Nat.eqb_refl. by exists A1.
Qed.

Lemma region_op_step_spec s A b1 bs1 b2 bs2 h1 h2 :
  sweep_inv s A (b1 :: bs1) (b2 :: bs2) ->
  top h1 = b_top b1 -> bottom h1 = b_bot b1 -> top h2 = b_top b2 -> bottom h2 = b_bot b2 ->
  rspec (region_op_step ov no1 no2 h1 h2 s)
    (fun s' => exists A', sweep_inv s' A' (advance (sw_ybot s') (b1 :: bs1))
                                         (advance (sw_ybot s') (b2 :: bs2)) /\
               sw_ybot s' = Z.min (b_bot b1) (b_bot b2)).
Proof using Hop.
  intros Hinv Ht1 Hb1 Ht2 Hb2. pose proof Hinv as [Hout E1 E2 [z1 Hwf1] [z2 Hwf2] L1 L2 Hh Hdone T1 T2].
  unfold region_op_step. rewrite E1, E2, (band_split_flatten z1), (band_split_flatten z2) by done.
  rewrite Ht1, Hb1, Ht2, Hb2.
  set (ybot := Z.min (b_bot b1) (b_bot b2)).
  replace (if b_top b1 <? b_top b2 then _ else _)
    with (Z.max (b_top b1) (b_top b2), step_call s b1 b2).
  2: { unfold step_call. zbool; f_equal; lia. }
  eapply rspec_bind; [by eapply (step_call_spec s A b1 bs1 b2 bs2)| |by intros; eexists _, _].
  intros reg1 (A1 & Hfin1 & Ho1). cbn [negb].
  destruct (coalesce_if_grown reg1 _ _) as [reg2 p2]. cbn in Ho1.
  eapply rspec_bind; [by eapply (step_overlap_spec s A b1 bs1 b2 bs2 A1 p2 reg2)| |by intros; eexists _, _].
  intros reg3 (A2 & Hfin2 & Ho2). cbn [negb].
  destruct (coalesce_if_grown reg3 _ _) as [reg4 p4]. cbn in Ho2.
  apply rspec_ret. exists A2. cbn [sw_ybot]. split; [|done].
  destruct (advance_facts z1 b1 bs1 ybot Hwf1) as (F1 & F2 & F3 & F4); [lia|].
  destruct (advance_facts z2 b2 bs2 ybot Hwf2) as (G1 & G2 & G3 & G4); [lia|].
  split; cbn [sw_reg sw_prevBand sw_ybot sw_r1 sw_r2]; try done.
  - unfold advance. by destruct (b_bot b1 =? ybot).
  - unfold advance. by destruct (b_bot b2 =? ybot).
  - destruct (advance ybot (b1 :: bs1)) as [|c1 ?]; [done|].
    destruct (advance ybot (b2 :: bs2)) as [|c2 ?]; [done|].
    destruct (decide (b_bot b1 = ybot)) as [E|E]; [specialize (F3 E); lia|].
    assert (E' : b_bot b2 = ybot) by lia. specialize (G3 E'). lia.
  - intros x y Hy. rewrite F4 by done. apply T1. lia.
  - intros x y Hy. rewrite G4 by done. apply T2. lia.
Qed.

Lemma region_op_loop_spec fuel s A bs1 bs2 :
  sweep_inv s A bs1 bs2 -> (length bs1 + length bs2 <= fuel)%nat ->
  ospec (region_op_loop fuel ov no1 no2 s)
    (fun s' => exists A' bs1' bs2', sweep_inv s' A' bs1' bs2' /\ (bs1' = [] \/ bs2' = []) /\
               (length bs1' <= length bs1)%nat /\ (length bs2' <= length bs2)%nat).
Proof using Hop.
  revert s A bs1 bs2. induction fuel as [|fuel IH]; intros s A bs1 bs2 Hinv Hlen.
  all: pose proof Hinv as [Hout E1 E2 [z1 Hwf1] [z2 Hwf2] L1 L2 Hh Hdone T1 T2].
  all: assert (Hstop : bs1 = [] \/ bs2 = [] -> forall m, m = ret (Some (s, true)) -> ospec m
    (fun s' => exists A' bs1' bs2', sweep_inv s' A' bs1' bs2' /\ (bs1' = [] \/ bs2' = []) /\
               (length bs1' <= length bs1)%nat /\ (length bs2' <= length bs2)%nat))
    by (intros Hnil m ->; apply ospec_ret; exists A, bs1, bs2; auto).
  all: cbn [region_op_loop]; rewrite E1, E2.
  - apply Hstop; [destruct bs1; cbn in Hlen; [by left|lia]|]. destruct bs1; [done|cbn in Hlen; lia].
  - destruct bs1 as [|b1 bs1]; [apply Hstop; auto|].
    destruct (flatten_cons_inv z1 b1 bs1 Hwf1) as (h1 & tl1 & F1 & Ht1 & Hb1). rewrite F1.
    destruct bs2 as [|b2 bs2]; [apply Hstop; auto|].
    destruct (flatten_cons_inv z2 b2 bs2 Hwf2) as (h2 & tl2 & F2 & Ht2 & Hb2). rewrite F2.
    eapply ospec_bind; [by eapply (region_op_step_spec s A b1 bs1 b2 bs2)| |by intros; eexists _, _].
    intros s' (A' & Hinv' & Hy).
    assert (Hshrink : (length (advance (sw_ybot s') (b1 :: bs1)) +
                       length (advance (sw_ybot s') (b2 :: bs2)) <= fuel)%nat /\
            (length (advance (sw_ybot s') (b1 :: bs1)) <= length (b1 :: bs1))%nat /\
            (length (advance (sw_ybot s') (b2 :: bs2)) <= length (b2 :: bs2))%nat).
    { cbn in Hlen. unfold advance. rewrite Hy. zbool; cbn; lia. }
    eapply ospec_weaken; [eapply IH; [exact Hinv'|lia]|].
    intros s'' (A'' & c1 & c2 & I1 & I2 & I3 & I4). exists A'', c1, c2. repeat split; auto; try apply I1; lia.
Qed.
End sweep.

(** ** The bands left over after the sweep *)

(** The part of the bands from [ybot] on, as the final loops emit them. *)
Definition clip (ybot : Z) (bs : list band) : list band :=
  (fun b => mk_band (Z.max (b_top b) ybot) (b_bot b) (b_spans b)) <$> bs.

Definition live (ybot : Z) (bs : list band) : Prop :=
  match bs with [] => True | b :: _ => ybot < b_bot b end.

Lemma live_tail z ybot b bs : bands_wf z (b :: bs) -> live ybot (b :: bs) -> live ybot bs.
Proof.
  intros (_ & _ & H3) Hl. destruct bs as [|b' bs]; [done|]. cbn in *.
  destruct H3 as (H3 & (H4 & _) & _). lia.
Qed.

Lemma clip_wf z ybot bs : bands_wf z bs -> live ybot bs -> bands_wf (Z.max z ybot) (clip ybot bs).
Proof.
  revert z. induction bs as [|b bs IH]; intros z Hwf Hl; [done|].
  pose proof Hwf as (H1 & (H2 & H3 & H4) & H5). cbn in Hl. cbn. split; [lia|]. split.
  - split; [cbn; lia|done].
  - eapply bands_wf_le; [apply IH; [exact H5|by eapply live_tail]|]. lia.
Qed.

Lemma clip_covers ybot bs x y :
  covers (flatten (clip ybot bs)) x y = (ybot <=? y) && covers (flatten bs) x y.
Proof.
  induction bs as [|b bs IH]; [by rewrite andb_false_r|].
  change (clip ybot (b :: bs))
    with (mk_band (Z.max (b_top b) ybot) (b_bot b) (b_spans b) :: clip ybot bs).
  rewrite !covers_cons, IH. cbn. zbool; done.
Qed.

Lemma region_op_rest_spec fuel f z bs ybot reg :
  copies f -> bands_wf z bs -> capacity_ok reg -> (length bs <= fuel)%nat ->
  ospec (region_op_rest fuel f (flatten bs) ybot reg)
    (fun reg' => rects reg' = rects reg ++ flatten (clip ybot bs) /\
                 extents reg' = extents reg /\ capacity_ok reg').
Proof.
  intros Hf. revert z bs reg. induction fuel as [|fuel IH]; intros z bs reg Hwf Hc Hlen.
  - destruct bs; [|cbn in Hlen; lia]. apply ospec_ret. cbn. by rewrite app_nil_r.
  - destruct bs as [|b bs]; [apply ospec_ret; cbn; by rewrite app_nil_r|].
    destruct (flatten_cons_inv z b bs Hwf) as (h & tl & E & Ht & Hb).
    cbn [region_op_rest]. rewrite E, <-E, (band_split_flatten z) by done. rewrite Ht, Hb.
    eapply ospec_bind; [by apply Hf| |by intros; eexists _, _].
    intros reg1 (sp & R1 & R2 & R3 & <-). destruct Hwf as (_ & _ & Hwf).
    eapply ospec_weaken; [eapply (IH _ bs reg1 Hwf R3); cbn in Hlen; lia|].
    intros reg' (S1 & S2 & S3). split; [|split; [congruence|done]].
    rewrite S1, R1, <-app_assoc. done.
Qed.

Lemma length_flatten z bs : bands_wf z bs -> (length bs <= length (flatten bs))%nat.
Proof.
  revert z. induction bs as [|b bs IH]; intros z; [done|]. intros (_ & Hok & Hwf).
  destruct (rects_of_cons b Hok) as (l & r & sp & E). specialize (IH _ Hwf).
  change (flatten (b :: bs)) with (rects_of b ++ flatten bs).
  rewrite length_app. unfold rects_of. rewrite length_band, E. cbn. lia.
Qed.

(** Final coalescing of the first band left over, and release of memory. *)
Lemma shrink_rects_spec reg (Q : region -> Prop) :
  capacity_ok reg ->
  (forall n, 2 <= n -> num_rects reg <= n -> Q (mk_region n (rects reg) (extents reg))) ->
  ospec (let* newReg := shrink_rects reg in ret (Some (newReg, true))) Q.
Proof.
  intros [H1 H2] HQ e.
  assert (Hsame : Q reg) by (destruct reg as [n rs ex]; by apply (HQ n)).
  unfold shrink_rects, RGN_DEFAULT_RECTS, bind, ret, malloc.
  destruct (_ && _); [|by cbn; auto]. destruct (allocs e) as [|[] l]; cbn; split; intros; try done.
  all: apply HQ; lia.
Qed.

(** What the loops after the sweep append. *)
Lemma region_op_tail_spec op ov no1 no2 (Hop : BandOp op ov no1 no2) y0 ext B1 B2 fuel s A bs1 bs2 :
  sweep_inv op y0 ext B1 B2 s A bs1 bs2 -> bs1 = [] \/ bs2 = [] ->
  (length bs1 <= fuel)%nat -> (length bs2 <= fuel)%nat ->
  ospec (region_op_tail fuel no1 no2 s)
    (fun reg' => exists T, bands_wf (sw_ybot s) T /\ rects reg' = flatten (A ++ T) /\
       extents reg' = ext /\ capacity_ok reg' /\
       forall x y, covers (flatten T) x y =
         (sw_ybot s <=? y) && op (covers (flatten B1) x y) (covers (flatten B2) x y)).
Proof.
  intros [Hout E1 E2 [z1 Hwf1] [z2 Hwf2] L1 L2 _ _ T1 T2] Hnil Hf1 Hf2.
  destruct Hout as (R1 & R2 & R3 & _).
  assert (Hnone : forall m, m = ret (Some (sw_reg s, true)) ->
    (forall x y, sw_ybot s <= y -> op (covers (flatten B1) x y) (covers (flatten B2) x y) = false) ->
    ospec m (fun reg' => exists T, bands_wf (sw_ybot s) T /\ rects reg' = flatten (A ++ T) /\
       extents reg' = ext /\ capacity_ok reg' /\
       forall x y, covers (flatten T) x y =
         (sw_ybot s <=? y) && op (covers (flatten B1) x y) (covers (flatten B2) x y))).
  { intros m -> Hz. apply ospec_ret. exists []. rewrite app_nil_r. repeat split; try done; try apply R3.
    intros x y. destruct (Z.leb_spec (sw_ybot s) y); [by rewrite Hz|done]. }
  assert (Hsome : forall f bs z, copies f -> bands_wf z bs -> live (sw_ybot s) bs -> (length bs <= fuel)%nat ->
    (forall x y, sw_ybot s <= y ->
       covers (flatten bs) x y = op (covers (flatten B1) x y) (covers (flatten B2) x y)) ->
    ospec (region_op_rest fuel f (flatten bs) (sw_ybot s) (sw_reg s))
      (fun reg' => exists T, bands_wf (sw_ybot s) T /\ rects reg' = flatten (A ++ T) /\
       extents reg' = ext /\ capacity_ok reg' /\
       forall x y, covers (flatten T) x y =
         (sw_ybot s <=? y) && op (covers (flatten B1) x y) (covers (flatten B2) x y))).
  { intros f bs z Hcp Hwf Hl Hf Hx. eapply ospec_weaken; [by eapply region_op_rest_spec|].
    intros reg' (S1 & S2 & S3). exists (clip (sw_ybot s) bs). split_and!.
    - eapply bands_wf_le; [by eapply clip_wf|lia].
    - by rewrite S1, R1, flatten_app.
    - congruence.
    - done.
    - intros x y. rewrite clip_covers. destruct (Z.leb_spec (sw_ybot s) y); [by rewrite Hx|done]. }
  unfold region_op_tail. rewrite E1, E2. pose proof op_only1 as H1. pose proof op_only2 as H2.
  destruct bs1 as [|b1 bs1].
  - destruct bs2 as [|b2 bs2].
    + apply Hnone; [done|]. intros x y Hy. rewrite <-T1, <-T2 by done. apply op_ff.
    + destruct (flatten_cons_inv z2 b2 bs2 Hwf2) as (h & tl & E & _). rewrite E, <-E. cbn [flatten flat_map].
      destruct no2 as [f|].
      * destruct H2 as [Hcp Hg]. apply (Hsome f (b2 :: bs2) z2); [done..|].
        intros x y Hy. rewrite <-T1, <-T2 by done. by rewrite Hg.
      * apply Hnone; [done|]. intros x y Hy. rewrite <-T1, <-T2 by done. apply H2.
  - destruct Hnil as [?| ->]; [done|].
    destruct (flatten_cons_inv z1 b1 bs1 Hwf1) as (h & tl & E & _). rewrite E, <-E.
    destruct no1 as [f|].
    * destruct H1 as [Hcp Hg]. apply (Hsome f (b1 :: bs1) z1); [done..|].
      intros x y Hy. rewrite <-T1, <-T2 by done. by rewrite Hg.
    * apply Hnone; [done|]. intros x y Hy. rewrite <-T1, <-T2 by done. apply H1.
Qed.

(** The last coalescing, of the first of the bands [T] appended after the sweep. *)
Lemma coalesce_final y0 A T p reg :
  rects reg = flatten (A ++ T) -> bands_wf y0 (A ++ T) -> prev_index A p -> capacity_ok reg ->
  let reg' := fst (coalesce_if_grown reg p (length (flatten A))) in
  exists A', rects reg' = flatten A' /\ bands_wf y0 A' /\ capacity_ok reg' /\ extents reg' = extents reg /\
    forall x y, covers (flatten A') x y = covers (flatten (A ++ T)) x y.
Proof.
  intros Hr Hwf Hp Hc. unfold coalesce_if_grown. destruct T as [|c rest].
  { rewrite Hr, app_nil_r, Nat.eqb_refl in *. by exists A. }
  assert (Hsplit : A ++ c :: rest = (A ++ [c]) ++ rest) by by rewrite <-app_assoc.
  assert (Hlen : length (rects reg) <> length (flatten A)).
  { rewrite Hr, flatten_app, length_app. apply bands_wf_app in Hwf as [_ Hwf].
    pose proof (length_flatten _ _ Hwf). cbn [length] in *. lia. }
  destruct (Nat.eqb_spec (length (rects reg)) (length (flatten A))); [done|].
  destruct (coalesce_region_bands y0 reg A c rest p) as (A' & p' & -> & Hco & _); [done..|]. cbn.
  assert (Hwf' : bands_wf y0 (A ++ [c]) /\ bands_wf (b_bot c) rest).
  { rewrite Hsplit in Hwf. apply bands_wf_app in Hwf as [? H]. split; [done|].
    by rewrite bands_end_app in H. }
  destruct Hwf' as [W1 W2]. destruct (coalesced_wf y0 A c A' W1 Hco) as (V1 & V2 & V3 & V4).
  exists (A' ++ rest). split_and!; [done| | |done|].
  - apply bands_wf_app. split; [done|]. by rewrite V2.
  - destruct Hc as [C1 C2]. split; [done|]. unfold num_rects in *. cbn.
    rewrite Hr, Hsplit in C2. rewrite flatten_app, length_app in C2 |- *. lia.
  - intros x y. rewrite Hsplit.
    rewrite !(flatten_app _ rest), !covers_app. by rewrite V4.
Qed.

(** ** region_op *)

Lemma region_op_spec op ov no1 no2 (Hop : BandOp op ov no1 no2) newReg reg1 reg2 B1 B2 :
  rects reg1 = flatten B1 -> rects reg2 = flatten B2 -> B1 <> [] -> B2 <> [] ->
  bands_wf (top (extents reg1)) B1 -> bands_wf (top (extents reg2)) B2 ->
  ospec (region_op newReg reg1 reg2 ov no1 no2)
    (fun reg' => exists A z, rects reg' = flatten A /\ bands_wf z A /\ capacity_ok reg' /\
       extents reg' = extents newReg /\
       forall x y, covers (flatten A) x y = op (covers (flatten B1) x y) (covers (flatten B2) x y)).
Proof.
  intros E1 E2 N1 N2 W1 W2. unfold region_op.
  apply mem_alloc_spec; [|by intros e; eexists _, _]. cbn [negb].
  set (ybot := if top (extents reg1) <? top (extents reg2) then _ else _).
  assert (Hy : ybot <= top (extents reg1) /\ ybot <= top (extents reg2))
    by (unfold ybot; destruct (Z.ltb_spec (top (extents reg1)) (top (extents reg2))); lia).
  set (new_size := Z.max (num_rects reg1) (num_rects reg2) * 2).
  assert (Hsize : 2 <= new_size).
  { unfold new_size, num_rects. rewrite E1. pose proof (length_flatten _ _ W1).
    destruct B1; [done|]. cbn [length] in *. lia. }
  eapply ospec_obind.
  - eapply (region_op_loop_spec op ov no1 no2 ybot (extents newReg) B1 B2 _ _ [] B1 B2).
    + assert (Hcap : capacity_ok (mk_region new_size [] (extents newReg))).
      { split; [done|]. unfold num_rects. cbn. lia. }
      assert (Hinit : forall x y, y < ybot -> covers (flatten B1) x y = false /\ covers (flatten B2) x y = false).
      { intros x y Hlt. split; eapply covers_above; eauto; lia. }
      split; cbn [sw_reg sw_ybot sw_prevBand sw_r1 sw_r2]; eauto.
      * repeat split; try apply Hcap; cbn; try lia. by left.
      * destruct B1 as [|b ?]; [done|]. destruct W1 as (? & (?&_) & _). lia.
      * destruct B2 as [|b ?]; [done|]. destruct W2 as (? & (?&_) & _). lia.
      * destruct B1 as [|b ?]; [done|]. destruct B2 as [|b' ?]; [done|].
        destruct W1 as (? & (?&_) & _). lia.
      * intros x y Hlt. destruct (Hinit x y Hlt) as [-> ->]. by rewrite op_ff.
    + rewrite E1, E2. pose proof (length_flatten _ _ W1). pose proof (length_flatten _ _ W2). lia.
  - intros s (A & bs1 & bs2 & Hinv & Hnil & L1 & L2).
    pose proof (length_flatten _ _ W1). pose proof (length_flatten _ _ W2).
    rewrite E1, E2. pose proof (si_out _ _ _ _ _ _ _ _ _ Hinv) as (R1 & R2 & R3 & R4 & R5 & R6).
    eapply ospec_obind.
    + eapply (region_op_tail_spec op ov no1 no2 Hop); [exact Hinv|done|lia|lia].
    + intros reg3 (T & WT & T1 & T2 & T3 & T4). rewrite R1.
      assert (WAT : bands_wf ybot (A ++ T)).
      { apply bands_wf_app. split; [done|]. by eapply bands_wf_le. }
      destruct (coalesce_final ybot A T (sw_prevBand s) reg3) as (A' & V1 & V2 & V3 & V4 & V5); [done..|].
      destruct (coalesce_if_grown reg3 _ _) as [reg4 p4]. cbn [fst] in *.
      apply shrink_rects_spec; [done|]. intros n Hn Hn'. exists A', ybot. cbn.
      split_and!; [done|done|by split|congruence|].
      intros x y. rewrite V5, flatten_app, covers_app, T4.
      destruct (Z.leb_spec (sw_ybot s) y).
      * by rewrite (covers_below ybot A) by (done || lia).
      * rewrite orb_false_r. by apply (si_done _ _ _ _ _ _ _ _ _ Hinv).
    + by intros; eexists _, _.
  - by intros; eexists _, _.
Qed.
