(* ===== verification/RegionTheorems.v ===== *)
(** * Correctness of the region operations of server/region.c

    Set operations and queries on regions, and moving and mirroring them. *)

From Stdlib Require Import ZArith Lia Bool.
From stdpp Require Import base list numbers option.
From S2P Require Import Prelude Region RegionSpans RegionBands.

#[local] Open Scope Z_scope.
#[local] Open Scope server_scope.

(** * Correctness of the region operations of server/region.c

    A region is well formed when its array is y-x banded (validate_rectangles),
    fits the allocated capacity and has tight extents.  Union, intersection,
    difference and symmetric difference keep regions well formed and compute
    the set operation on pixels; queries decide membership. *)

(** ** Well-formed regions *)

(** The pixels of a region. *)
Definition pixel (reg : region) (x y : Z) : bool := covers (rects reg) x y.

(** [ext] is the bounding box of the pixels of [rs]. *)
Definition tight (ext : rectangle_t) (rs : list rectangle_t) : Prop :=
  (forall x y, covers rs x y = true -> point_in_rect ext x y = true) /\
  (exists y, covers rs (left ext) y = true) /\ (exists y, covers rs (right ext - 1) y = true) /\
  (exists x, covers rs x (top ext) = true) /\ (exists x, covers rs x (bottom ext - 1) = true).

Definition extents_ok (reg : region) : Prop :=
  match rects reg with
  | [] => extents reg = empty_rect
  | _ => tight (extents reg) (rects reg)
  end.

Definition region_wf (reg : region) : Prop :=
  validate_rectangles (rects reg) = true /\ capacity_ok reg /\ extents_ok reg.

(** The result of a region operation: well formed, with the pixels of [f]. *)
Definition computes (f : Z -> Z -> bool) (reg : region) : Prop :=
  region_wf reg /\ forall x y, pixel reg x y = f x y.

(** Do two rectangles have a pixel in common? *)
Definition rects_meet (r1 r2 : rectangle_t) : bool :=
  negb (is_rect_empty (fst (intersect_rect r1 r2))).

(** ** Bands and validate_rectangles *)

Lemma validate_cons2 r0 r1 rest :
  validate_rectangles (r0 :: r1 :: rest) = true <->
  (left r0 < right r0 /\ top r0 < bottom r0) /\
  ((top r0 = top r1 /\ bottom r0 = bottom r1 /\ right r0 < left r1) \/
   (top r0 <> top r1 /\ bottom r0 <= top r1)) /\
  validate_rectangles (r1 :: rest) = true.
Proof.
  change (validate_rectangles (r0 :: r1 :: rest)) with
    (if is_rect_empty r0 then false
     else if top r0 =? top r1 then
            if negb (bottom r0 =? bottom r1) then false
            else if left r1 <=? right r0 then false else validate_rectangles (r1 :: rest)
          else if top r1 <? bottom r0 then false else validate_rectangles (r1 :: rest)).
  unfold is_rect_empty. destruct (validate_rectangles (r1 :: rest)); zbool; split; intros; try done; lia.
Qed.

Lemma validate_one r : validate_rectangles [r] = true <-> left r < right r /\ top r < bottom r.
Proof. cbn. unfold is_rect_empty. zbool; split; intros; try done; lia. Qed.

Lemma bands_validate z B : bands_wf z B -> validate_rectangles (flatten B) = true.
Proof.
  revert z. induction B as [|b B IH]; intros z; [done|]. intros (_ & (Hb & Hne & [lo Hs]) & Hwf).
  specialize (IH _ Hwf). change (flatten (b :: B)) with (rects_of b ++ flatten B).
  unfold rects_of. clear Hne. revert lo Hs.
  induction (b_spans b) as [|[l r] sp IHsp]; intros lo; [done|]. intros (H1 & H2 & H3).
  destruct sp as [|[l2 r2] sp].
  - destruct B as [|b2 B]; [by apply validate_one|].
    destruct (flatten_cons_inv _ b2 B Hwf) as (h & tl & E & Ht & _). rewrite E in IH |- *.
    apply validate_cons2. cbn. destruct Hwf as [Hwf _]. split; [lia|]. split; [right; lia|done].
  - cbn in H3. apply validate_cons2. cbn [span_rect left right top bottom fst snd].
    split; [lia|]. split; [left; lia|]. apply (IHsp r H3).
Qed.

Lemma validate_bands rs :
  validate_rectangles rs = true ->
  exists B, rs = flatten B /\ bands_wf (match rs with [] => 0 | r :: _ => top r end) B.
Proof.
  induction rs as [|r0 rs IH]; [by exists []|]. intros Hv.
  destruct rs as [|r1 rs].
  { apply validate_one in Hv. exists [mk_band (top r0) (bottom r0) [(left r0, right r0)]].
    split; [by destruct r0|]. cbn. split; [lia|]. split; [|done]. split; [cbn; lia|]. split; [done|].
    exists (left r0 - 1). cbn. repeat split; lia. }
  apply validate_cons2 in Hv as (H0 & Hcase & Hv). destruct (IH Hv) as (B & EB & WB). clear IH Hv.
  destruct B as [|b B]; [done|].
  destruct (flatten_cons_inv _ b B WB) as (h & tl & E & Ht & Hb). rewrite <-EB in E. simplify_eq.
  destruct WB as (W1 & (W2 & W3 & [lo W4]) & W5). destruct Hcase as [(C1 & C2 & C3)|(C1 & C2)].
  - exists (mk_band (b_top b) (b_bot b) ((left r0, right r0) :: b_spans b) :: B). split.
    + cbn in EB |- *. rewrite EB. f_equal. destruct r0; cbn in *. unfold span_rect. cbn. congruence.
    + split; [cbn; lia|]. split; [|done]. split; [done|]. split; [done|].
      exists (left r0 - 1). cbn. split; [lia|]. split; [lia|].
      destruct (b_spans b) as [|[l r] sp] eqn:Es; [done|]. cbn in W4. cbn. split; [|tauto].
      cbn in EB. unfold rects_of in EB. rewrite Es in EB. cbn in EB. injection EB as EB _. rewrite EB in C3. exact C3.
  - exists (mk_band (top r0) (bottom r0) [(left r0, right r0)] :: b :: B). split.
    + rewrite EB. by destruct r0.
    + split; [cbn; lia|]. split.
      * split; [cbn; lia|]. split; [done|]. exists (left r0 - 1). cbn. repeat split; lia.
      * split; [cbn; lia|]. split; [|done]. split; [done|]. split; [done|]. by exists lo.
Qed.

(** ** Extents *)

Lemma covers_In rs x y : covers rs x y = true <-> exists r, In r rs /\ point_in_rect r x y = true.
Proof. apply existsb_exists. Qed.

Lemma point_in_rect_iff r x y :
  point_in_rect r x y = true <-> left r <= x < right r /\ top r <= y < bottom r.
Proof. unfold point_in_rect. zbool; split; intros; try done; lia. Qed.

(** [ext] bounds the rectangles of [rs] and each side is reached. *)
Definition box (ext : rectangle_t) (rs : list rectangle_t) : Prop :=
  (forall r, In r rs -> left ext <= left r /\ right r <= right ext /\
                        top ext <= top r /\ bottom r <= bottom ext) /\
  (exists r, In r rs /\ left r = left ext) /\ (exists r, In r rs /\ right r = right ext) /\
  (exists r, In r rs /\ top r = top ext) /\ (exists r, In r rs /\ bottom r = bottom ext).

Lemma box_tight ext rs :
  (forall r, In r rs -> left r < right r /\ top r < bottom r) -> box ext rs -> tight ext rs.
Proof.
  intros Hne (Hin & (r1 & I1 & E1) & (r2 & I2 & E2) & (r3 & I3 & E3) & (r4 & I4 & E4)).
  pose proof (Hne _ I1). pose proof (Hne _ I2). pose proof (Hne _ I3). pose proof (Hne _ I4).
  split; [|split_and!].
  - intros x y (r & Hr & Hp)%covers_In. apply point_in_rect_iff in Hp. specialize (Hin _ Hr).
    apply point_in_rect_iff. lia.
  - exists (top r1). apply covers_In. exists r1. rewrite point_in_rect_iff. split; [done|lia].
  - exists (top r2). apply covers_In. exists r2. rewrite point_in_rect_iff. split; [done|lia].
  - exists (left r3). apply covers_In. exists r3. rewrite point_in_rect_iff. split; [done|lia].
  - exists (left r4). apply covers_In. exists r4. rewrite point_in_rect_iff. split; [done|lia].
Qed.

Lemma widen_extents_spec rs ext :
  let w := widen_extents rs ext in
  top w = top ext /\ bottom w = bottom ext /\ left w <= left ext /\ right ext <= right w /\
  (forall r, In r rs -> left w <= left r /\ right r <= right w) /\
  (left w = left ext \/ exists r, In r rs /\ left r = left w) /\
  (right w = right ext \/ exists r, In r rs /\ right r = right w).
Proof.
  revert ext. induction rs as [|r rs IH]; intros ext; cbn [widen_extents].
  { cbn. repeat split; auto; lia. }
  set (ext' := mk_rect _ _ _ _). destruct (IH ext') as (T & B & L & R & Hall & HL & HR).
  unfold ext' in *. cbn [top bottom left right] in *.
  split_and!; [done|done| | | | |].
  - destruct (Z.ltb_spec (left r) (left ext)); lia.
  - destruct (Z.ltb_spec (right ext) (right r)); lia.
  - intros r' [<-|Hin]; [|by apply Hall].
    destruct (Z.ltb_spec (left r) (left ext)), (Z.ltb_spec (right ext) (right r)); lia.
  - destruct HL as [HL|(r' & ? & ?)]; [|right; exists r'; split; [by right|done]].
    destruct (Z.ltb_spec (left r) (left ext)); [|by left]. right. exists r. split; [by left|done].
  - destruct HR as [HR|(r' & ? & ?)]; [|right; exists r'; split; [by right|done]].
    destruct (Z.ltb_spec (right ext) (right r)); [|by left]. right. exists r. split; [by left|done].
Qed.

Lemma validate_all rs :
  validate_rectangles rs = true -> forall r, In r rs -> left r < right r /\ top r < bottom r.
Proof.
  induction rs as [|r0 rs IH]; [done|]. intros Hv r Hr. destruct rs as [|r1 rs].
  - apply validate_one in Hv. by destruct Hr as [<-|[]].
  - apply validate_cons2 in Hv as (H0 & _ & Hv). destruct Hr as [<-|Hr]; [done|by apply IH].
Qed.

Lemma validate_tops r0 rs :
  validate_rectangles (r0 :: rs) = true -> forall r, In r (r0 :: rs) -> top r0 <= top r.
Proof.
  revert r0. induction rs as [|r1 rs IH]; intros r0 Hv r Hr.
  - destruct Hr as [<-|[]]. lia.
  - apply validate_cons2 in Hv as (H0 & Hc & Hv). destruct Hr as [<-|Hr]; [lia|].
    specialize (IH r1 Hv r Hr). lia.
Qed.

Lemma validate_bottoms rs lst :
  validate_rectangles rs = true -> rs !! (length rs - 1)%nat = Some lst ->
  forall r, In r rs -> bottom r <= bottom lst.
Proof.
  induction rs as [|r0 rs IH]; [done|]. intros Hv Hl r Hr. destruct rs as [|r1 rs].
  - cbn in Hl. simplify_eq. destruct Hr as [<-|[]]. lia.
  - assert (Hl' : (r1 :: rs) !! (length (r1 :: rs) - 1)%nat = Some lst).
    { cbn in Hl |- *. by rewrite Nat.sub_0_r. }
    pose proof Hv as Hv0. apply validate_cons2 in Hv as (H0 & Hc & Hv).
    destruct Hr as [<-|Hr]; [|by apply IH].
    specialize (IH Hv Hl' r1 (or_introl eq_refl)).
    pose proof (validate_all _ Hv r1 (or_introl eq_refl)). lia.
Qed.

Lemma set_region_extents_ok reg :
  validate_rectangles (rects reg) = true -> extents_ok (set_region_extents reg).
Proof.
  intros Hv. unfold set_region_extents, extents_ok. destruct (rects reg) as [|r0 rs] eqn:E; [done|].
  destruct (lookup_lt_is_Some_2 (r0 :: rs) (length (r0 :: rs) - 1)) as [lst Hl]; [cbn; lia|].
  rewrite Hl. cbn [rects extents].
  destruct (widen_extents_spec (r0 :: rs) (mk_rect (left r0) (top r0) (right lst) (bottom lst)))
    as (T & B & L & R & Hall & HL & HR). cbn [top bottom left right] in *.
  assert (Hlst : In lst (r0 :: rs)) by (apply list_elem_of_In; by eapply list_elem_of_lookup_2).
  apply box_tight; [by apply validate_all|]. split; [|split_and!].
  - intros r Hr. specialize (Hall r Hr). pose proof (validate_tops _ _ Hv r Hr).
    pose proof (validate_bottoms _ _ Hv Hl r Hr). lia.
  - destruct HL as [HL|HL]; [|done]. exists r0. split; [by left|done].
  - destruct HR as [HR|HR]; [|done]. by exists lst.
  - exists r0. split; [by left|done].
  - by exists lst.
Qed.

(** ** From regions to bands and back *)

Lemma is_region_empty_true reg : is_region_empty reg = true <-> rects reg = [].
Proof.
  unfold is_region_empty, num_rects. destruct (rects reg); cbn; [done|].
  split; [|done]. destruct (Z.eqb_spec (Z.of_nat (S (length l))) 0); [lia|done].
Qed.

Lemma is_region_empty_false reg : is_region_empty reg = false -> rects reg <> [].
Proof. intros H Hr. apply is_region_empty_true in Hr. congruence. Qed.

Lemma region_wf_bands reg :
  region_wf reg -> rects reg <> [] ->
  exists B, rects reg = flatten B /\ B <> [] /\ bands_wf (top (extents reg)) B /\
            tight (extents reg) (rects reg).
Proof.
  intros (Hv & _ & He) Hne. destruct (validate_bands _ Hv) as (B & EB & WB).
  unfold extents_ok in He. destruct (rects reg) as [|r0 rs] eqn:E; [done|].
  exists B. split; [done|]. split; [by intros ->|]. split; [|done].
  eapply bands_wf_le; [done|]. destruct He as [He _].
  pose proof (validate_all _ Hv r0 (or_introl eq_refl)).
  assert (Hp : point_in_rect (extents reg) (left r0) (top r0) = true).
  { apply He, covers_In. exists r0. split; [by left|]. apply point_in_rect_iff. lia. }
  apply point_in_rect_iff in Hp. lia.
Qed.

Lemma pixel_extents reg x y : region_wf reg -> pixel reg x y = true -> point_in_rect (extents reg) x y = true.
Proof.
  intros (_ & _ & He) Hp. unfold pixel, extents_ok in *. destruct (rects reg); [done|].
  by apply He.
Qed.

Lemma after_op_spec m f Q Q' :
  ospec m Q -> (forall reg, Q reg -> Q' (f reg)) -> ospec (after_op m f) Q'.
Proof.
  intros Hm HQ e. unfold after_op, bind, ret. specialize (Hm e).
  destruct (m e) as [[[reg ok]|] e']; [|done]. destruct Hm as [H1 H2]. destruct ok; split; auto; done.
Qed.

Lemma ospec_of_rspec {A} (m : M (A * bool)) Q : rspec m Q -> ospec (let* r := m in ret (Some r)) Q.
Proof. intros Hm e. unfold bind, ret. specialize (Hm e). by destruct (m e) as [[a ok] e']. Qed.

Lemma copy_region_spec dst src :
  region_wf src -> capacity_ok dst -> rspec (copy_region dst src) (computes (pixel src)).
Proof.
  intros (H1 & H2 & H3) [D1 D2] e. unfold copy_region, malloc, bind, ret, set_error.
  assert (Hall : forall n, 2 <= n -> num_rects src <= n ->
    computes (pixel src) (mk_region n (rects src) (extents src))).
  { intros n Hn Hn'. split; [|done]. split; [done|]. split; [by split|done]. }
  destruct (Z.ltb_spec (size dst) (num_rects src)).
  - destruct (allocs e) as [|[] l]; cbn; split; intros; try done; apply Hall; lia.
  - cbn. split; intros; [|done]. apply Hall; lia.
Qed.

(** region_op followed by set_region_extents. *)
Lemma region_op_computes op ov no1 no2 (Hop : BandOp op ov no1 no2) dst src1 src2 :
  region_wf src1 -> region_wf src2 -> rects src1 <> [] -> rects src2 <> [] ->
  ospec (region_op dst src1 src2 ov no1 no2)
    (fun d => validate_rectangles (rects d) = true /\ capacity_ok d /\
              forall x y, pixel d x y = op (pixel src1 x y) (pixel src2 x y)).
Proof.
  intros W1 W2 N1 N2.
  destruct (region_wf_bands src1 W1 N1) as (B1 & E1 & M1 & Wf1 & _).
  destruct (region_wf_bands src2 W2 N2) as (B2 & E2 & M2 & Wf2 & _).
  eapply ospec_weaken; [by eapply (region_op_spec op ov no1 no2 Hop dst src1 src2 B1 B2)|].
  intros d (A & z & EA & WA & HC & _ & Hcov). unfold pixel. rewrite EA, E1, E2.
  split; [by eapply bands_validate|]. by split.
Qed.

Lemma set_extents_computes f d :
  validate_rectangles (rects d) = true -> capacity_ok d -> (forall x y, pixel d x y = f x y) ->
  computes f (set_region_extents d).
Proof.
  intros Hv Hc Hf.
  assert (E : rects (set_region_extents d) = rects d /\ size (set_region_extents d) = size d)
    by (unfold set_region_extents; repeat case_match; done).
  destruct E as [E1 E2]. split; [|by unfold pixel in *; rewrite E1].
  split; [by rewrite E1|]. split; [|by apply set_region_extents_ok].
  unfold capacity_ok, num_rects in *. by rewrite E1, E2.
Qed.

(** Regions whose extents do not meet have no pixel in common. *)
Lemma extentcheck_disjoint src1 src2 x y :
  region_wf src1 -> region_wf src2 -> EXTENTCHECK (extents src1) (extents src2) = false ->
  pixel src1 x y && pixel src2 x y = false.
Proof.
  intros W1 W2 He. destruct (pixel src1 x y) eqn:P1; [|done]. destruct (pixel src2 x y) eqn:P2; [|done].
  apply (pixel_extents _ _ _ W1), point_in_rect_iff in P1.
  apply (pixel_extents _ _ _ W2), point_in_rect_iff in P2.
  unfold EXTENTCHECK in He. revert He. zbool; done.
Qed.

(** The early exit of intersect_region and subtract_region: no common pixel. *)
Lemma trivial_disjoint src1 src2 x y :
  region_wf src1 -> region_wf src2 ->
  is_region_empty src1 || is_region_empty src2 || negb (EXTENTCHECK (extents src1) (extents src2)) = true ->
  pixel src1 x y && pixel src2 x y = false.
Proof.
  intros W1 W2. rewrite !orb_true_iff, negb_true_iff, !is_region_empty_true.
  intros [[E|E]|E]; [by unfold pixel; rewrite E|by unfold pixel; rewrite E, andb_false_r|].
  by apply extentcheck_disjoint.
Qed.

Lemma union_extents_ok src1 src2 d :
  region_wf src1 -> region_wf src2 -> rects src1 <> [] -> rects src2 <> [] ->
  (forall x y, pixel d x y = pixel src1 x y || pixel src2 x y) ->
  tight (mk_rect (Z.min (left (extents src1)) (left (extents src2)))
                 (Z.min (top (extents src1)) (top (extents src2)))
                 (Z.max (right (extents src1)) (right (extents src2)))
                 (Z.max (bottom (extents src1)) (bottom (extents src2)))) (rects d).
Proof.
  intros W1 W2 N1 N2 Hd. unfold pixel in Hd.
  destruct (region_wf_bands src1 W1 N1) as (_ & _ & _ & _ & T1).
  destruct (region_wf_bands src2 W2 N2) as (_ & _ & _ & _ & T2).
  destruct T1 as (A1 & (y1 & L1) & (y2 & R1) & (x1 & U1) & (x2 & D1)).
  destruct T2 as (A2 & (y3 & L2) & (y4 & R2) & (x3 & U2) & (x4 & D2)).
  split; [|cbn [left right top bottom]; split_and!].
  - intros x y Hx. rewrite Hd in Hx. apply point_in_rect_iff. cbn.
    apply orb_true_iff in Hx as [Hx|Hx]; [apply A1 in Hx|apply A2 in Hx];
      apply point_in_rect_iff in Hx; lia.
  - destruct (Z.min_spec (left (extents src1)) (left (extents src2))) as [[_ ->]|[_ ->]];
      [exists y1|exists y3]; rewrite Hd, ?L1, ?L2, ?orb_true_r; done.
  - destruct (Z.max_spec (right (extents src1)) (right (extents src2))) as [[_ ->]|[_ ->]];
      [exists y4|exists y2]; rewrite Hd, ?R1, ?R2, ?orb_true_r; done.
  - destruct (Z.min_spec (top (extents src1)) (top (extents src2))) as [[_ ->]|[_ ->]];
      [exists x1|exists x3]; rewrite Hd, ?U1, ?U2, ?orb_true_r; done.
  - destruct (Z.max_spec (bottom (extents src1)) (bottom (extents src2))) as [[_ ->]|[_ ->]];
      [exists x4|exists x2]; rewrite Hd, ?D1, ?D2, ?orb_true_r; done.
Qed.

(** A single rectangle whose extents contain those of [s] contains [s]. *)
Lemma single_covers_pixel r s x y :
  region_wf r -> region_wf s -> single_covers r s = true -> pixel s x y = true -> pixel r x y = true.
Proof.
  intros Wr Ws Hc Hp. apply (pixel_extents _ _ _ Ws), point_in_rect_iff in Hp.
  unfold single_covers, num_rects in Hc. destruct (rects r) as [|r0 [|r1 rs]] eqn:E; [done| |].
  2: { cbn [length] in Hc. destruct (Z.eqb_spec (Z.of_nat (S (S (length rs)))) 1); [lia|done]. }
  destruct Wr as (_ & _ & He). unfold extents_ok in He. rewrite E in He.
  destruct He as (_ & (y1 & L) & (y2 & R) & (x1 & U) & (x2 & D)).
  unfold pixel. rewrite E. cbn in *. rewrite orb_false_r in *. rewrite point_in_rect_iff in *.
  revert Hc. zbool; done.
Qed.

Lemma computes_ext f g reg : computes f reg -> (forall x y, f x y = g x y) -> computes g reg.
Proof. intros [H1 H2] Hfg. split; [done|]. intros. by rewrite H2. Qed.

Lemma copy_computes dst src f :
  region_wf src -> capacity_ok dst -> (forall x y, pixel src x y = f x y) ->
  ospec (let* r := copy_region dst src in ret (Some r)) (computes f).
Proof.
  intros W Hc Hf. apply ospec_of_rspec. eapply rspec_weaken; [by apply copy_region_spec|].
  intros d Hd. by eapply computes_ext.
Qed.

(** Each operation in a form that the others can use. *)
Lemma intersect_region_spec dst src1 src2 :
  region_wf src1 -> region_wf src2 -> capacity_ok dst ->
  ospec (intersect_region dst src1 src2) (computes (fun x y => pixel src1 x y && pixel src2 x y)).
Proof.
  intros W1 W2 Hc. unfold intersect_region.
  destruct (is_region_empty src1 || _ || _) eqn:Htriv.
  - apply ospec_ret. split.
    + split; [done|]. split; [|done]. destruct Hc. split; [done|]. unfold num_rects. cbn. lia.
    + intros x y. by rewrite (trivial_disjoint src1 src2).
  - apply orb_false_iff in Htriv as [[N1 N2]%orb_false_iff _].
    apply is_region_empty_false in N1, N2.
    eapply after_op_spec; [by apply (region_op_computes andb _ _ _ _)|].
    intros d (Hv & Hcap & Hx). by apply set_extents_computes.
Qed.

Lemma subtract_region_spec dst src1 src2 :
  region_wf src1 -> region_wf src2 -> capacity_ok dst ->
  ospec (subtract_region dst src1 src2)
        (computes (fun x y => pixel src1 x y && negb (pixel src2 x y))).
Proof.
  intros W1 W2 Hc. unfold subtract_region.
  destruct (is_region_empty src1 || _ || _) eqn:Htriv.
  - apply copy_computes; [done..|]. intros x y.
    pose proof (trivial_disjoint src1 src2 x y W1 W2 Htriv) as Hd.
    destruct (pixel src1 x y), (pixel src2 x y); done.
  - apply orb_false_iff in Htriv as [[N1 N2]%orb_false_iff _].
    apply is_region_empty_false in N1, N2.
    eapply after_op_spec; [by apply (region_op_computes (fun a b => a && negb b) _ _ _ _)|].
    intros d (Hv & Hcap & Hx). by apply set_extents_computes.
Qed.

Lemma union_region_spec same_src dst src1 src2 :
  region_wf src1 -> region_wf src2 -> capacity_ok dst -> (same_src = true -> src1 = src2) ->
  ospec (union_region same_src dst src1 src2) (computes (fun x y => pixel src1 x y || pixel src2 x y)).
Proof.
  intros W1 W2 Hc Hsame. unfold union_region. destruct same_src.
  { rewrite <-(Hsame eq_refl). apply copy_computes; [done..|]. intros. by rewrite orb_diag. }
  destruct (is_region_empty src1) eqn:N1.
  { apply is_region_empty_true in N1. apply copy_computes; [done..|]. intros. unfold pixel at 2. by rewrite N1. }
  destruct (is_region_empty src2) eqn:N2.
  { apply is_region_empty_true in N2. apply copy_computes; [done..|]. intros.
    unfold pixel at 3. by rewrite N2, orb_false_r. }
  apply is_region_empty_false in N1, N2.
  destruct (single_covers src1 src2) eqn:S1.
  { apply copy_computes; [done..|]. intros x y. destruct (pixel src2 x y) eqn:P; [|by rewrite orb_false_r].
    by rewrite (single_covers_pixel src1 src2 x y). }
  destruct (single_covers src2 src1) eqn:S2.
  { apply copy_computes; [done..|]. intros x y. destruct (pixel src1 x y) eqn:P; [|done].
    by rewrite (single_covers_pixel src2 src1 x y). }
  eapply after_op_spec; [by apply (region_op_computes orb _ _ _ _)|].
  intros d (Hv & Hcap & Hx). split; [|done]. split; [done|]. split; [done|].
  pose proof (union_extents_ok src1 src2 d W1 W2 N1 N2 Hx) as Ht.
  unfold extents_ok. cbn [rects extents]. destruct (rects d) eqn:E; [|done].
  by destruct Ht as (_ & (y & Hy) & _).
Qed.

Lemma create_empty_region_spec e :
  match create_empty_region e with
  | (None, e') => allocs e <> []
  | (Some reg, e') => computes (fun _ _ => false) reg /\ (allocs e = [] -> e' = e)
  end.
Proof.
  unfold create_empty_region, bind, mem_alloc, malloc, ret, set_error. cbn.
  assert (Hw : computes (fun _ _ => false) (mk_region RGN_DEFAULT_RECTS [] empty_rect)).
  { split; [|done]. split; [done|]. by split. }
  unfold bind. destruct (allocs e) as [|[] [|[] l]] eqn:E; cbn; rewrite ?E; try done.
Qed.

(** ** Termination of the sweep, for any operands and any band routines *)

Lemma split_top_length t rs : (length (snd (split_top t rs)) <= length rs)%nat.
Proof.
  induction rs as [|r rs IH]; cbn; [lia|]. destruct (top r =? t); [|cbn; lia].
  destruct (split_top t rs). cbn in *. lia.
Qed.

Lemma band_split_length h tl : (length (snd (band_split (h :: tl))) <= length tl)%nat.
Proof.
  cbn. rewrite Z.eqb_refl. pose proof (split_top_length (top h) tl).
  destruct (split_top (top h) tl). cbn in *. lia.
Qed.

Lemma region_op_step_shrinks ov no1 no2 h1 tl1 h2 tl2 s e s' e' :
  sw_r1 s = h1 :: tl1 -> sw_r2 s = h2 :: tl2 ->
  region_op_step ov no1 no2 h1 h2 s e = (s', true, e') ->
  (length (sw_r1 s') + length (sw_r2 s') < length (sw_r1 s) + length (sw_r2 s))%nat.
Proof.
  intros E1 E2. unfold region_op_step. rewrite E1, E2.
  pose proof (band_split_length h1 tl1) as L1. pose proof (band_split_length h2 tl2) as L2.
  destruct (band_split (h1 :: tl1)) as [band1 after1], (band_split (h2 :: tl2)) as [band2 after2].
  destruct (if top h1 <? top h2 then _ else _) as [ytop call]. unfold bind.
  destruct (call e) as [[reg1 ok1] e1]. destruct ok1; [|done]. cbn [negb].
  destruct (coalesce_if_grown reg1 _ _) as [reg2 p2].
  match goal with |- context [(if ?c then ?a else ?b) e1] =>
    destruct ((if c then a else b) e1) as [[reg3 ok3] e3] end. destruct ok3; [|done]. cbn [negb].
  destruct (coalesce_if_grown reg3 _ _) as [reg4 p4]. intros [= <- _]. cbn [sw_r1 sw_r2 length] in *.
  cbn in L1, L2. zbool; cbn [length]; lia.
Qed.

Lemma region_op_loop_total ov no1 no2 fuel s e :
  (length (sw_r1 s) + length (sw_r2 s) <= fuel)%nat ->
  exists s' ok e', region_op_loop fuel ov no1 no2 s e = (Some (s', ok), e') /\
    (length (sw_r1 s') + length (sw_r2 s') <= fuel \/ ok = false)%nat.
Proof.
  revert s e. induction fuel as [|fuel IH]; intros s e Hlen; cbn [region_op_loop];
    destruct (sw_r1 s) as [|h1 tl1] eqn:E1; try (eexists _, _, _; split; [done|left; rewrite E1; lia]);
    destruct (sw_r2 s) as [|h2 tl2] eqn:E2; try (eexists _, _, _; split; [done|left; rewrite E1, E2; lia]);
    [cbn in Hlen; lia|].
  unfold bind. destruct (region_op_step ov no1 no2 h1 h2 s e) as [[s' ok] e'] eqn:Es.
  destruct ok; [|by eexists _, _, _; split; [|right]].
  pose proof (region_op_step_shrinks _ _ _ _ _ _ _ _ _ _ _ E1 E2 Es) as Hs. rewrite E1, E2 in Hs.
  destruct (IH s' e') as (s2 & ok2 & e2 & -> & H2); [lia|].
  eexists _, _, _. split; [done|]. destruct H2; [left; lia|by right].
Qed.

Lemma region_op_rest_total f fuel r ybot reg e :
  (length r <= fuel)%nat -> exists reg' ok e', region_op_rest fuel f r ybot reg e = (Some (reg', ok), e').
Proof.
  revert r reg e. induction fuel as [|fuel IH]; intros r reg e Hlen.
  - destruct r; [|cbn in Hlen; lia]. by eexists _, _, _.
  - destruct r as [|h tl]; [by eexists _, _, _|].
    pose proof (band_split_length h tl) as L. cbn [region_op_rest].
    destruct (band_split (h :: tl)) as [bnd after]. cbn [snd] in L. unfold bind.
    destruct (f _ _ bnd reg e) as [[reg1 ok] e1]. destruct ok; [|by eexists _, _, _].
    apply IH. cbn in Hlen. lia.
Qed.

(** Region_op never runs out of fuel: on any two regions, with any band
    routines and any allocation failures, the sweep and the loops after it
    terminate within [num_rects1 + num_rects2] iterations. *)
Lemma region_op_terminates newReg reg1 reg2 ov no1 no2 e :
  exists reg' ok e', region_op newReg reg1 reg2 ov no1 no2 e = (Some (reg', ok), e').
Proof.
  unfold region_op, bind. destruct (mem_alloc e) as [[] e1]; [|by eexists _, _, _]. cbn [negb].
  edestruct region_op_loop_total as (s & ok & e2 & -> & Hs); [by cbn; reflexivity|].
  destruct ok; [|by eexists _, _, _]. destruct Hs as [Hs|]; [|done].
  assert (Ht : exists reg' ok e', region_op_tail (length (rects reg1) + length (rects reg2)) no1 no2 s e2
                                  = (Some (reg', ok), e')).
  { unfold region_op_tail. destruct (sw_r1 s) eqn:E1, (sw_r2 s) eqn:E2, no1, no2;
      rewrite <-?E1, <-?E2; try (by eexists _, _, _); apply region_op_rest_total;
      rewrite ?E1, ?E2; cbn [length] in *; lia. }
  destruct Ht as (reg3 & ok3 & e3 & ->). destruct ok3; [|by eexists _, _, _].
  destruct (coalesce_if_grown _ _ _) as [reg4 p4].
  destruct (shrink_rects reg4 e3) as [reg5 e5]. by eexists _, _, _.
Qed.

(** ** Main theorems *)

(** Two sample regions: three rectangles in two bands, and one rectangle. *)
Definition sample1 : region :=
  set_region_extents (mk_region 4 [mk_rect 0 0 10 10; mk_rect 20 0 30 10; mk_rect 0 10 40 20] empty_rect).

Definition sample2 : region := set_region_extents (mk_region 2 [mk_rect 5 5 25 15] empty_rect).

Lemma region_wf_set n rs ext :
  validate_rectangles rs = true -> 2 <= n -> Z.of_nat (length rs) <= n ->
  region_wf (set_region_extents (mk_region n rs ext)).
Proof. intros. by apply (set_extents_computes (covers rs)). Qed.

Lemma sample1_wf : region_wf sample1.
Proof. apply region_wf_set; done. Qed.

Lemma sample2_wf : region_wf sample2.
Proof. apply region_wf_set; done. Qed.

(** xor_region goes through two differences and a union. *)
Lemma xor_region_spec dst src1 src2 :
  region_wf src1 -> region_wf src2 -> capacity_ok dst ->
  ospec (xor_region dst src1 src2) (computes (fun x y => xorb (pixel src1 x y) (pixel src2 x y))).
Proof.
  intros W1 W2 Hc e. unfold xor_region, bind at 1.
  pose proof (create_empty_region_spec e) as Hcreate.
  destruct (create_empty_region e) as [[tmp|] e1]; [|by cbn].
  destruct Hcreate as [[Wt _] He1].
  match goal with |- match ?m e1 with _ => _ end =>
    assert (H : ospec m (computes (fun x y => xorb (pixel src1 x y) (pixel src2 x y)))) end.
  { eapply ospec_obind; [by apply subtract_region_spec; [..|apply Wt]| |by intros; eexists _, _].
    intros t [Wt' Ht]. eapply ospec_obind; [by apply subtract_region_spec| |by intros; eexists _, _].
    intros d [Wd Hd]. eapply ospec_weaken; [apply union_region_spec; try done; apply Wd|].
    intros r Hr. eapply computes_ext; [exact Hr|]. intros x y. cbn. rewrite Ht, Hd.
    by destruct (pixel src1 x y), (pixel src2 x y). }
  specialize (H e1). match goal with |- match ?m with _ => _ end => destruct m as [[[d ok]|] e2] end; [|done].
  destruct H as [H1 H2]. split; [done|]. intros Ha. rewrite (He1 Ha) in H2. by apply H2.
Qed.

(** The four set operations. *)
Inductive set_op := Union | Intersect | Subtract | Xor.

(** [same_src] tells whether the two sources of a union are the same object. *)
Definition run_set_op (k : set_op) (same_src : bool) : region -> region -> region -> M (option (region * bool)) :=
  match k with
  | Union => union_region same_src
  | Intersect => intersect_region
  | Subtract => subtract_region
  | Xor => xor_region
  end.

Definition pixel_op (k : set_op) : bool -> bool -> bool :=
  match k with
  | Union => orb
  | Intersect => andb
  | Subtract => fun a b => a && negb b
  | Xor => xorb
  end.

(** C1: union_region, intersect_region, subtract_region and xor_region compute
    the set operation: whatever the allocator does they return, and a success
    leaves in [dst] a well-formed region (y-x banded, within its capacity, with
    tight extents) whose pixels are those of the operation on the pixels of the
    two sources; they succeed when memory does not run out. *)
Theorem region_set_operations_correct k same_src dst src1 src2 :
  region_wf src1 -> region_wf src2 -> capacity_ok dst -> (same_src = true -> src1 = src2) ->
  ospec (run_set_op k same_src dst src1 src2)
        (computes (fun x y => pixel_op k (pixel src1 x y) (pixel src2 x y))).
Proof.
  destruct k; intros W1 W2 Hc Hs.
  - by apply union_region_spec.
  - by apply intersect_region_spec.
  - by apply subtract_region_spec.
  - by apply xor_region_spec.
Qed.

Lemma region_set_operations_correct_witness :
  ospec (union_region false sample1 sample1 sample2)
        (computes (fun x y => pixel sample1 x y || pixel sample2 x y)) /\
  ospec (xor_region sample1 sample1 sample2)
        (computes (fun x y => xorb (pixel sample1 x y) (pixel sample2 x y))).
Proof.
  split; [apply (region_set_operations_correct Union false sample1 sample1 sample2)
         |apply (region_set_operations_correct Xor false sample1 sample1 sample2)];
    solve [exact sample1_wf|exact sample2_wf|split; vm_compute; discriminate|discriminate].
Defined.

(** point_in_region, which stops at the first band or span beyond the
    point, answers whether some rectangle of the region contains it. *)
Lemma point_in_region_spec reg x y :
  validate_rectangles (rects reg) = true -> point_in_region reg x y = pixel reg x y.
Proof.
  unfold point_in_region, pixel. generalize (rects reg) as rs. intros rs Hv.
  destruct (validate_bands rs Hv) as (B & -> & Hwf). clear Hv. revert Hwf.
  generalize (match flatten B with [] => 0 | r :: _ => top r end). intros z.
  revert z. induction B as [|b B IH]; intros z; [done|]. intros Hwf.
  pose proof Hwf as (_ & (Hb & _ & [lo Hs]) & Hrest). specialize (IH _ Hrest).
  rewrite covers_cons, <-IH. clear IH.
  assert (Hlow : y < b_bot b -> point_in_rects (flatten B) x y = false).
  { intros Hy. destruct B as [|b2 B]; [done|].
    destruct (flatten_cons_inv _ b2 B Hrest) as (h & tl & -> & Ht & _).
    cbn. destruct Hrest as [Hrest _]. destruct (Z.ltb_spec y (top h)); [done|lia]. }
  change (flatten (b :: B)) with (rects_of b ++ flatten B). unfold rects_of.
  revert lo Hs. induction (b_spans b) as [|[l r] sp IHsp]; intros lo; cbn.
  { intros _. by rewrite andb_false_r. }
  intros (H1 & H2 & H3). specialize (IHsp r H3). unfold band_rects in IHsp.
  destruct (Z.ltb_spec y (b_top b)), (Z.leb_spec (b_bot b) y); try lia;
    destruct (Z.leb_spec (b_top b) y), (Z.ltb_spec y (b_bot b)); try lia; cbn [andb orb] in *.
  - by rewrite Hlow by lia.
  - exact IHsp.
  - destruct (Z.ltb_spec x l), (Z.leb_spec r x); try lia;
      destruct (Z.leb_spec l x), (Z.ltb_spec x r); try lia; cbn [andb orb].
    + rewrite Hlow by lia. by rewrite (in_spans_below r) by (done || lia).
    + exact IHsp.
Qed.

Lemma meet_pixel r1 r2 :
  rects_meet r1 r2 = true <->
  exists x y, point_in_rect r1 x y = true /\ point_in_rect r2 x y = true.
Proof.
  unfold rects_meet, intersect_rect, is_rect_empty. cbn. split.
  - intros H. exists (Z.max (left r1) (left r2)), (Z.max (top r1) (top r2)).
    rewrite !point_in_rect_iff. revert H. zbool; done.
  - intros (x & y & H1 & H2). rewrite point_in_rect_iff in *. zbool.
Qed.

(** rect_in_region answers whether the rectangle and the region have a pixel
    in common. *)
Lemma rect_in_region_spec reg rect :
  validate_rectangles (rects reg) = true -> is_rect_empty rect = false ->
  rect_in_region reg rect = true <->
  exists x y, pixel reg x y = true /\ point_in_rect rect x y = true.
Proof.
  intros Hv Hne. unfold rect_in_region, pixel. revert Hv.
  assert (Hrect : left rect < right rect /\ top rect < bottom rect)
    by (revert Hne; unfold is_rect_empty; zbool; done).
  induction (rects reg) as [|r rs IH]; intros Hv.
  { cbn. split; [done|]. by intros (x & y & ? & _). }
  pose proof (validate_all _ Hv r (or_introl eq_refl)) as Hr.
  assert (Hv' : validate_rectangles rs = true)
    by (destruct rs; [done|by apply validate_cons2 in Hv as (_ & _ & ?)]).
  specialize (IH Hv').
  assert (Hin : rects_meet r rect = true \/ rects_meet r rect = false /\
    ((exists x y, covers (r :: rs) x y = true /\ point_in_rect rect x y = true) <->
     (exists x y, covers rs x y = true /\ point_in_rect rect x y = true))).
  { destruct (rects_meet r rect) eqn:Hm; [by left|]. right. split; [done|]. split.
    - intros (x & y & Hc & Hp). exists x, y. split; [|done]. cbn in Hc.
      apply orb_true_iff in Hc as [Hc|Hc]; [|done].
      assert (rects_meet r rect = true) by (apply meet_pixel; eauto). congruence.
    - intros (x & y & Hc & Hp). exists x, y. split; [|done]. change (point_in_rect r x y || covers rs x y = true). by rewrite Hc, orb_true_r. }
  cbn [rect_in_rects]. destruct Hin as [Hm|[Hm Hiff]].
  - assert (Hx : exists x y, covers (r :: rs) x y = true /\ point_in_rect rect x y = true).
    { apply meet_pixel in Hm as (x & y & H1 & H2). exists x, y. cbn. by rewrite H1. }
    revert Hm. unfold rects_meet, intersect_rect, is_rect_empty. cbn. zbool; tauto.
  - rewrite Hiff, <-IH. destruct (Z.leb_spec (bottom rect) (top r)) as [Ht|Ht].
    + split; [done|]. intros H. apply IH in H as (x & y & (r' & Hr' & Hp)%covers_In & Hp').
      pose proof (validate_tops _ _ Hv r' (or_intror Hr')). rewrite point_in_rect_iff in *. lia.
    + revert Hm. unfold rects_meet, intersect_rect, is_rect_empty. cbn. zbool; done.
Qed.

(** The scans of point_in_region and rect_in_region, which stop at the first
    band or span beyond what they look for, decide whether the region contains
    the point, and whether it has a pixel in common with the rectangle. *)
Theorem region_queries_correct reg :
  validate_rectangles (rects reg) = true ->
  (forall x y, point_in_region reg x y = pixel reg x y) /\
  (forall rect, is_rect_empty rect = false ->
     rect_in_region reg rect = true <-> exists x y, pixel reg x y = true /\ point_in_rect rect x y = true).
Proof. intros Hv. split; intros; [by apply point_in_region_spec|by apply rect_in_region_spec]. Qed.

Lemma region_queries_correct_witness :
  point_in_region sample1 25 5 = true /\ pixel sample1 25 5 = true /\
  (rect_in_region sample1 (mk_rect 12 5 21 12) = true <->
   exists x y, pixel sample1 x y = true /\ point_in_rect (mk_rect 12 5 21 12) x y = true).
Proof.
  destruct (region_queries_correct sample1) as [H1 H2]; [reflexivity|].
  split; [reflexivity|]. split; [rewrite <-(H1 25 5); reflexivity|]. apply H2. reflexivity.
Defined.

Lemma create_region_spec data e :
  allocs e = [] ->
  let rs := if decide (data = [empty_rect]) then [] else data in
  match create_region_from_req_data data e with
  | (Some reg, e') => validate_rectangles rs = true /\ e' = e /\ rects reg = rs /\ region_wf reg
  | (None, e') => validate_rectangles rs = false /\ error e' = STATUS_INVALID_PARAMETER
  end.
Proof.
  intros Ha rs. unfold create_region_from_req_data.
  replace (match data with [r] => _ | _ => _ end) with rs.
  2: { unfold rs. destruct data as [|r [|r2 tl]]; [done| |by rewrite decide_False].
       repeat case_decide; simplify_eq; done. }
  destruct (validate_rectangles rs) eqn:Hv; [|done].
  cbn [negb]. unfold bind, mem_alloc, malloc. cbn. unfold bind. rewrite Ha. cbn. rewrite Ha. cbn.
  split; [done|]. split; [done|]. split.
  - unfold set_region_extents. cbn. repeat case_match; done.
  - apply region_wf_set; [done|unfold RGN_DEFAULT_RECTS; lia..].
Qed.

(** The two exits of get_region_data, when memory does not run out. *)
Lemma get_region_data_spec reg max_size e data total :
  allocs e = [] ->
  get_region_data reg max_size e = ((Some data, total), e) ->
  data = (if decide (rects reg = []) then [empty_rect] else rects reg) /\
  total = Z.of_nat (length data) * sizeof_rectangle.
Proof.
  intros Ha. unfold get_region_data, num_rects.
  set (d := if decide (rects reg = []) then [empty_rect] else rects reg).
  replace (if _ =? 0 then _ else _) with (d, Z.of_nat (length d) * sizeof_rectangle).
  2: { unfold d, sizeof_rectangle. destruct (rects reg) as [|r rs]; [done|].
       rewrite decide_False by done. destruct (Z.eqb_spec (Z.of_nat (length (r :: rs)) * 16) 0);
         [cbn [length] in *; lia|done]. }
  destruct (_ <=? max_size).
  - unfold bind, mem_alloc, malloc, bind. rewrite Ha. cbn. by intros [= <- <-].
  - unfold bind, set_error, ret. cbn. discriminate.
Qed.

(** The data of get_region_data is accepted and gives back the rectangles. *)
Lemma region_data_back reg max_size e data total :
  region_wf reg -> allocs e = [] ->
  get_region_data reg max_size e = ((Some data, total), e) ->
  exists reg', create_region_from_req_data data e = (Some reg', e) /\
    rects reg' = rects reg /\ region_wf reg' /\ total = Z.of_nat (length data) * sizeof_rectangle.
Proof.
  intros (Hv & _ & _) Ha [Hd Ht]%get_region_data_spec; [|done].
  pose proof (create_region_spec data e Ha) as H. cbn zeta in H.
  assert (Hrs : (if decide (data = [empty_rect]) then [] else data) = rects reg).
  { subst data. destruct (decide (rects reg = [])) as [->|Hne]; [by rewrite decide_True|].
    rewrite decide_False; [done|]. intros E. by rewrite E in Hv. }
  rewrite Hrs in H. destruct (create_region_from_req_data data e) as [[reg'|] e'].
  - exists reg'. destruct H as (_ & -> & ? & ?). auto.
  - destruct H. congruence.
Qed.

(** What "y-x banded" means, apart from the code's loop over neighbours: no
    rectangle is empty, and of any two of them the later one lies either in
    the same band, to the right with a gap, or wholly below. *)
Definition nonempty_rect (r : rectangle_t) : Prop := left r < right r /\ top r < bottom r.

Definition yx_after (r r' : rectangle_t) : Prop :=
  (top r = top r' /\ bottom r = bottom r' /\ right r < left r') \/ bottom r <= top r'.

Definition banded (rs : list rectangle_t) : Prop :=
  Forall nonempty_rect rs /\
  forall i j r r', (i < j)%nat -> rs !! i = Some r -> rs !! j = Some r' -> yx_after r r'.

Lemma yx_after_trans r1 r2 r3 :
  nonempty_rect r2 -> yx_after r1 r2 -> yx_after r2 r3 -> yx_after r1 r3.
Proof. unfold nonempty_rect, yx_after. lia. Qed.

Lemma banded_cons2 r0 r1 rest :
  banded (r0 :: r1 :: rest) <-> nonempty_rect r0 /\ yx_after r0 r1 /\ banded (r1 :: rest).
Proof.
  split.
  - intros [[H0 H1]%Forall_cons_iff H]. split; [done|]. split; [by apply (H 0%nat 1%nat); [lia|..]|].
    split; [done|]. intros i j r r' Hij Hi Hj. apply (H (S i) (S j)); [lia|done..].
  - intros (H0 & Ha & [Hne H]). split; [by constructor|].
    intros [|i] [|j] r r' Hij Hi Hj; [lia| |lia|apply (H i j); [lia|done..]].
    injection Hi as <-. destruct j as [|j]; [by injection Hj as <-|].
    apply (yx_after_trans _ r1); [by inversion Hne|done|]. apply (H 0%nat (S j)); [lia|done..].
Qed.

(** The loop that compares neighbours decides it. *)
Lemma validate_banded rs : validate_rectangles rs = true <-> banded rs.
Proof.
  induction rs as [|r0 [|r1 rest] IH]; [by split; [split; [constructor|]|]|..].
  - rewrite validate_one. split.
    + intros H. split; [constructor; [exact H|constructor]|].
      intros [|i] [|j] r r' Hij Hi Hj; [lia|done|lia|done].
    + intros [H _]. by inversion H.
  - rewrite validate_cons2, banded_cons2, IH. unfold nonempty_rect, yx_after.
    split; [intros (? & ? & ?); intuition lia|].
    intros (? & ? & Hb). assert (Hr : nonempty_rect r1) by (destruct Hb as [Hb _]; by inversion Hb).
    unfold nonempty_rect in Hr. split; [done|]. split; [lia|done].
Qed.

Lemma validate_not_banded rs : validate_rectangles rs = false <-> ~ banded rs.
Proof. rewrite <- validate_banded. by destruct (validate_rectangles rs). Qed.

(** C2: a region read from a request is accepted exactly when its rectangles are
    y-x banded, one all-zero rectangle standing for the empty region; an accepted
    one becomes a well-formed region with those pixels, any other is refused with
    STATUS_INVALID_PARAMETER.  The data that get_region_data sends for a region is
    accepted and gives back its rectangles. *)
Theorem region_request_data_correct data e :
  allocs e = [] ->
  (let rs := if decide (data = [empty_rect]) then [] else data in
   match create_region_from_req_data data e with
   | (Some reg, e') => banded rs /\ e' = e /\ rects reg = rs /\ region_wf reg
   | (None, e') => ~ banded rs /\ error e' = STATUS_INVALID_PARAMETER
   end) /\
  forall reg max_size total, region_wf reg -> get_region_data reg max_size e = ((Some data, total), e) ->
    exists reg', create_region_from_req_data data e = (Some reg', e) /\
      rects reg' = rects reg /\ region_wf reg' /\ total = Z.of_nat (length data) * sizeof_rectangle.
Proof.
  intros Ha. split.
  { pose proof (create_region_spec data e Ha) as H. cbn zeta in *.
    destruct (create_region_from_req_data data e) as [[reg|] e']; by rewrite ?validate_banded, ?validate_not_banded in H. }
  intros reg max_size total W. by apply (region_data_back reg max_size).
Qed.

Lemma region_request_data_correct_witness :
  exists reg', create_region_from_req_data (rects sample1) (mk_senv 0 []) = (Some reg', mk_senv 0 []) /\
    rects reg' = rects sample1 /\ region_wf reg' /\ 48 = Z.of_nat 3 * sizeof_rectangle.
Proof.
  apply (proj2 (region_request_data_correct (rects sample1) (mk_senv 0 []) eq_refl) sample1 4096 48);
    [exact sample1_wf|reflexivity].
Defined.

(** * Moving and mirroring regions

    Coordinates of [offset_region] wrap like C ints; when the extents stay in
    range the pixels move by the offset.  [mirror_region] is exact on regions
    whose bands hold a single rectangle, and loses a rectangle in a band of
    two; [scale_dpi] is exact on non-negative coordinates. *)

Definition int_range (z : Z) : Prop := - 2 ^ 31 <= z < 2 ^ 31.

Lemma i32_id z : int_range z -> i32 z = z.
Proof. unfold int_range, i32. intros H. rewrite Z.mod_small; lia. Qed.

(** The rectangles of a region lie within its extents. *)
Lemma rect_in_extents reg r :
  region_wf reg -> In r (rects reg) ->
  left (extents reg) <= left r /\ right r <= right (extents reg) /\
  top (extents reg) <= top r /\ bottom r <= bottom (extents reg).
Proof.
  intros W Hr. pose proof (validate_all _ (proj1 W) r Hr) as Hne.
  assert (Hp : forall x y, left r <= x < right r -> top r <= y < bottom r ->
                      point_in_rect (extents reg) x y = true).
  { intros x y Hx Hy. apply pixel_extents; [done|]. apply covers_In. exists r. split; [done|].
    by apply point_in_rect_iff. }
  pose proof (Hp (left r) (top r)) as H1. pose proof (Hp (right r - 1) (bottom r - 1)) as H2.
  rewrite point_in_rect_iff in H1, H2. lia.
Qed.

(** The extents moved by the offset are still ints. *)
Definition offset_fits (reg : region) (x y : Z) : Prop :=
  int_range (left (extents reg) + x) /\ int_range (right (extents reg) + x) /\
  int_range (top (extents reg) + y) /\ int_range (bottom (extents reg) + y).

Definition shift_rect (x y : Z) (r : rectangle_t) : rectangle_t :=
  mk_rect (left r + x) (top r + y) (right r + x) (bottom r + y).

Lemma offset_rect_exact reg x y r :
  region_wf reg -> offset_fits reg x y -> In r (rects reg) -> offset_rect r x y = shift_rect x y r.
Proof.
  intros W (F1 & F2 & F3 & F4) Hr. pose proof (rect_in_extents reg r W Hr) as (H1 & H2 & H3 & H4).
  pose proof (validate_all _ (proj1 W) r Hr) as Hne. unfold int_range in *.
  unfold offset_rect, shift_rect. by rewrite !i32_id by (unfold int_range; lia).
Qed.

Lemma offset_region_rects reg x y :
  region_wf reg -> offset_fits reg x y ->
  rects (offset_region reg x y) = shift_rect x y <$> rects reg.
Proof.
  intros W F. transitivity ((fun r => offset_rect r x y) <$> rects reg).
  - unfold offset_region. by destruct (rects reg) eqn:E; cbn; rewrite ?E.
  - apply list_fmap_ext. intros i r Hr. apply (offset_rect_exact reg); [done..|].
    by apply list_elem_of_In, list_elem_of_lookup_2 with i.
Qed.

Lemma validate_shift x y rs : validate_rectangles (shift_rect x y <$> rs) = validate_rectangles rs.
Proof.
  apply eq_true_iff_eq. induction rs as [|r0 rs IH]; [done|]. destruct rs as [|r1 rs].
  - cbn [fmap list_fmap]. rewrite !validate_one. cbn. lia.
  - rewrite !fmap_cons. rewrite fmap_cons in IH. rewrite !validate_cons2, IH. cbn [left right top bottom shift_rect]. intuition lia.
Qed.

Lemma covers_shift x y rs px py : covers (shift_rect x y <$> rs) px py = covers rs (px - x) (py - y).
Proof.
  induction rs as [|r rs IH]; [done|]. cbn [fmap list_fmap covers existsb]. unfold covers in *.
  f_equal; [|exact IH]. apply eq_true_iff_eq. rewrite !point_in_rect_iff. cbn. lia.
Qed.

Lemma tight_shift x y ext rs : tight ext rs -> tight (shift_rect x y ext) (shift_rect x y <$> rs).
Proof.
  intros (H0 & (y1 & H1) & (y2 & H2) & (x1 & H3) & (x2 & H4)).
  split; [|split; [exists (y1 + y)|split; [exists (y2 + y)|split; [exists (x1 + x)|exists (x2 + x)]]]];
    try (rewrite covers_shift; cbn [left right top bottom shift_rect];
         match goal with H : covers rs ?a ?b = true |- _ =>
           replace true with (covers rs a b) by done; f_equal; lia end).
  intros px py. rewrite covers_shift. intros Hp%H0. rewrite point_in_rect_iff in *. cbn. lia.
Qed.

(** Moving a well-formed region by an offset that keeps its extents in int
    range gives a well-formed region whose pixels are those of the region moved
    by the offset. *)
Lemma offset_region_correct reg x y :
  region_wf reg -> offset_fits reg x y ->
  region_wf (offset_region reg x y) /\
  forall px py, pixel (offset_region reg x y) px py = pixel reg (px - x) (py - y).
Proof.
  intros W F. pose proof (offset_region_rects reg x y W F) as E.
  split; [|intros; unfold pixel; by rewrite E, covers_shift].
  destruct W as (Hv & [C1 C2] & He). split; [by rewrite E, validate_shift|]. split.
  - unfold offset_region. destruct (rects reg) eqn:Er; [by split|]. split; [done|].
    unfold num_rects in *. cbn [rects size]. by rewrite length_fmap, <-Er.
  - unfold extents_ok in *. rewrite E. unfold offset_region in *.
    destruct (rects reg) as [|r rs]; [done|]. cbn [fmap list_fmap extents].
    replace (offset_rect _ _ _) with (shift_rect x y (extents reg)); [by apply (tight_shift x y _ (r :: rs))|].
    destruct F as (F1 & F2 & F3 & F4). unfold offset_rect, shift_rect. by rewrite !i32_id.
Qed.

(** ** mirror_region *)

(** No two neighbouring rectangles share a band. *)
Fixpoint single_bands (rs : list rectangle_t) : bool :=
  match rs with
  | r0 :: ((r1 :: _) as rest) => negb (top r0 =? top r1) && single_bands rest
  | _ => true
  end.

Lemma band_end_single pre rs r :
  single_bands (r :: rs) = true -> band_end (pre ++ r :: rs) (length pre) = length pre.
Proof.
  intros Hs. unfold band_end. rewrite drop_app_length. cbn [band_split split_top].
  rewrite Z.eqb_refl. destruct rs as [|r1 rs]; [cbn; lia|]. cbn in Hs |- *.
  destruct (Z.eqb_spec (top r) (top r1)); [done|]. destruct (Z.eqb_spec (top r1) (top r)); [congruence|].
  cbn. lia.
Qed.

Lemma mirror_bands_single c fuel pre rs :
  single_bands rs = true -> (length rs <= fuel)%nat ->
  mirror_bands c fuel (pre ++ rs) (length pre) = pre ++ (mirror_rect c <$> rs).
Proof.
  revert pre rs. induction fuel as [|fuel IH]; intros pre rs Hs Hf.
  { destruct rs; [done|cbn in Hf; lia]. }
  destruct rs as [|r rs].
  { cbn [mirror_bands]. rewrite !app_nil_r. destruct (Nat.ltb_spec (length pre) (length pre)); [lia|done]. }
  cbn [mirror_bands]. destruct (Nat.ltb_spec (length pre) (length (pre ++ r :: rs)));
    [|rewrite length_app in *; cbn in *; lia].
  rewrite band_end_single by done.
  assert (E : mirror_band c (length (pre ++ r :: rs)) (pre ++ r :: rs) (length pre) (length pre)
              = (pre ++ [mirror_rect c r]) ++ rs).
  { rewrite length_app. cbn [length]. rewrite Nat.add_succ_r. cbn [mirror_band].
    rewrite Nat.ltb_irrefl, Nat.eqb_refl. unfold rect_at. rewrite list_lookup_middle by done.
    cbn. rewrite <-(Nat.add_0_r (length pre)), insert_app_r. by rewrite <-app_assoc. }
  rewrite E. replace (length pre + 1)%nat with (length (pre ++ [mirror_rect c r]))
    by (rewrite length_app; cbn; lia).
  rewrite IH; [by rewrite <-app_assoc|by destruct rs; [|apply andb_prop in Hs as [_ Hs]]|cbn in Hf; lia].
Qed.

(** Two rectangles in one band. *)
Definition two_columns : region :=
  mk_region 2 [mk_rect 0 0 10 10; mk_rect 20 0 30 10] (mk_rect 0 0 30 10).

(** C3: mirror_region mirrors every rectangle of a region whose bands hold one
    rectangle each; with two rectangles in a band the first is lost and the
    second appears twice, and the result is not banded any more. *)
Theorem mirror_region_bands :
  (forall c reg, single_bands (rects reg) = true ->
     rects (mirror_region c reg) = mirror_rect c <$> rects reg) /\
  validate_rectangles (rects two_columns) = true /\
  rects (mirror_region (mk_rect 0 0 100 50) two_columns) = [mk_rect 70 0 80 10; mk_rect 70 0 80 10] /\
  validate_rectangles (rects (mirror_region (mk_rect 0 0 100 50) two_columns)) = false.
Proof.
  split; [|by vm_compute]. intros c reg Hs. by apply (mirror_bands_single c _ [] (rects reg)).
Qed.

(** ** scale_dpi *)

(** Rounding to nearest on non-negative coordinates that do not overflow. *)
Lemma scale_dpi_nonneg val dpi_from dpi_to :
  0 < dpi_from -> 0 <= dpi_to -> 0 <= val -> val * dpi_to + dpi_from / 2 < 2 ^ 31 ->
  scale_dpi val dpi_from dpi_to = (val * dpi_to + dpi_from / 2) / dpi_from.
Proof.
  intros H1 H2 H3 H4. unfold scale_dpi. destruct (Z.leb_spec 0 val); [|lia].
  assert (0 <= dpi_from / 2) by (apply Z.div_pos; lia). assert (0 <= val * dpi_to) by nia.
  unfold u32. assert (val < 2 ^ 31 \/ dpi_to = 0) as [Hv| ->] by nia.
  - rewrite (Z.mod_small val), (Z.mod_small (val * dpi_to)), Z.mod_small by lia.
    apply i32_id. unfold int_range. split; [assert (0 <= (val * dpi_to + dpi_from / 2) / dpi_from) by (apply Z.div_pos; lia); lia|].
    apply Z.div_lt_upper_bound; nia.
  - rewrite !Z.mul_0_r, Z.mod_0_l, !Z.add_0_l by lia. rewrite Z.mod_small by lia.
    apply i32_id. unfold int_range. assert (0 <= dpi_from / 2 / dpi_from) by (apply Z.div_pos; lia).
    split; [lia|]. apply Z.div_lt_upper_bound; nia.
Qed.

(** A negative coordinate is converted to unsigned before the division. *)
Lemma scale_dpi_negative : scale_dpi (-1) 96 96 = 44739241.
Proof. by vm_compute. Qed.
