(* ===== verification/UserHandles.v ===== *)
(** * User handles: server/user.c

    The table that maps 32-bit user handles (windows, hooks, client objects) to
    server objects.  A handle holds a table index in its low word and the
    generation of the entry in its high word; free entries are chained through
    their [ptr] field.  A C pointer to an entry is its index: the array only
    moves when it grows, which happens with an empty free list. *)

From Stdlib Require Import ZArith Lia.
From stdpp Require Import base list numbers option.
From S2P Require Import Prelude.

#[local] Open Scope Z_scope.
#[local] Open Scope server_scope.

(** What the [ptr] field holds: an object, or the next free entry. *)
Inductive uptr :=
  | Object (p : Z)
  | Link (next : option nat).

#[export] Instance uptr_eq_dec : EqDecision uptr.
Proof. solve_decision. Defined.

Record user_handle := mk_uh {
  ptr : uptr;
  type : Z;
  generation : Z
}.

(** The static variables of user.c; [nb_handles] is the length of [handles]. *)
Record user_state := mk_us {
  handles : list user_handle;
  freelist : option nat;
  allocated_handles : Z
}.

Definition nb_handles (s : user_state) : Z := Z.of_nat (length (handles s)).

Definition FIRST_USER_HANDLE : Z := 0x0020.

Definition LAST_USER_HANDLE : Z := 0xffef.

Definition MAX_USER_HANDLES : Z := Z.shiftr (LAST_USER_HANDLE - FIRST_USER_HANDLE + 1) 1.

(** enum user_object. *)
Definition USER_WINDOW : Z := 1.

Definition USER_HOOK : Z := 2.

Definition USER_CLIENT : Z := 3.

Definition STATUS_INVALID_HANDLE : Z := 0xC0000008.

(** [((handle & 0xffff) - FIRST_USER_HANDLE) >> 1], computed on unsigned ints. *)
Definition handle_index (handle : Z) : Z :=
  Z.shiftr (u32 (Z.land handle 0xffff - FIRST_USER_HANDLE)) 1.

Definition handle_to_entry (s : user_state) (handle : Z) : option nat :=
  let index := handle_index handle in
  if (index <? 0) || (nb_handles s <=? index) then None
  else
    match handles s !! Z.to_nat index with
    | None => None
    | Some e =>
        if type e =? 0 then None
        else
          let gen := u16 (Z.shiftr handle 16) in
          if (gen =? generation e) || (gen =? 0) || (gen =? 0xffff)
          then Some (Z.to_nat index) else None
    end.

Definition entry_to_handle (index : nat) (e : user_handle) : Z :=
  u32 (Z.shiftl (Z.of_nat index) 1 + FIRST_USER_HANDLE + Z.shiftl (generation e) 16).

(** Returns the index of the entry; a new entry starts at generation 0. *)
Definition alloc_user_entry (s : user_state) : M (option nat * user_state) :=
  match freelist s with
  | Some i =>
      match handles s !! i with
      | Some e =>
          ret (Some i, mk_us (handles s) (match ptr e with Link n => n | Object _ => None end)
                             (allocated_handles s))
      | None => ret (None, s)
      end
  | None =>
      let new_entry (s : user_state) :=
        (Some (length (handles s)),
         mk_us (handles s ++ [mk_uh (Object 0) 0 0]) None (allocated_handles s)) in
      if allocated_handles s <=? nb_handles s then
        let growth := Z.max 32 (allocated_handles s / 2) in
        let new_size := Z.min (allocated_handles s + growth) MAX_USER_HANDLES in
        if new_size <=? allocated_handles s then ret (None, s)
        else
          let* ok := malloc in
          if negb ok then ret (None, s)
          else ret (new_entry (mk_us (handles s) None new_size))
      else ret (new_entry s)
  end.

(** [None] when there is no entry [i]; the callers pass entries of the table. *)
Definition free_user_entry (s : user_state) (i : nat) : option uptr * user_state :=
  match handles s !! i with
  | None => (None, s)
  | Some e =>
      (Some (ptr e),
       mk_us (<[i := mk_uh (Link (freelist s)) 0 (generation e)]> (handles s)) (Some i)
             (allocated_handles s))
  end.

Definition next_generation (gen : Z) : Z :=
  if 0xffff <=? u16 (gen + 1) then 1 else u16 (gen + 1).

Definition alloc_user_handle (s : user_state) (p : Z) (ty : Z) : M (Z * user_state) :=
  let* (entry, s) := alloc_user_entry s in
  match entry with
  | None => ret (0, s)
  | Some i =>
      match handles s !! i with
      | None => ret (0, s)
      | Some e =>
          let e := mk_uh (Object p) ty (next_generation (generation e)) in
          ret (entry_to_handle i e, mk_us (<[i := e]> (handles s)) (freelist s) (allocated_handles s))
      end
  end.

Definition get_user_object (s : user_state) (handle ty : Z) : option uptr :=
  match handle_to_entry s handle with
  | None => None
  | Some i =>
      match handles s !! i with
      | None => None
      | Some e => if negb (type e =? ty) then None else Some (ptr e)
      end
  end.

Definition get_user_full_handle (s : user_state) (handle : Z) : Z :=
  if negb (Z.shiftr handle 16 =? 0) then handle
  else
    match handle_to_entry s handle with
    | None => handle
    | Some i =>
        match handles s !! i with
        | None => handle
        | Some e => entry_to_handle i e
        end
    end.

(** The object and the full handle. *)
Definition get_user_object_handle (s : user_state) (handle ty : Z) : option uptr * Z :=
  match handle_to_entry s handle with
  | None => (None, handle)
  | Some i =>
      match handles s !! i with
      | None => (None, handle)
      | Some e => if negb (type e =? ty) then (None, handle) else (Some (ptr e), entry_to_handle i e)
      end
  end.

Definition free_user_handle (s : user_state) (handle : Z) : M (option uptr * user_state) :=
  match handle_to_entry s handle with
  | None => set_error STATUS_INVALID_HANDLE ;;; ret (None, s)
  | Some i => ret (free_user_entry s i)
  end.

(** The loop of next_user_handle from entry [i], the entries left being [es]. *)
Fixpoint next_entry (ty : Z) (i : nat) (es : list user_handle) : option (uptr * Z) :=
  match es with
  | [] => None
  | e :: es =>
      if (ty =? 0) || (type e =? ty) then Some (ptr e, entry_to_handle i e)
      else next_entry ty (S i) es
  end.

Definition next_user_handle (s : user_state) (handle ty : Z) : option (uptr * Z) :=
  if handle =? 0 then next_entry ty 0 (handles s)
  else
    let index := handle_index handle in
    if (index <? 0) || (nb_handles s <=? index) then None
    else next_entry ty (S (Z.to_nat index)) (drop (S (Z.to_nat index)) (handles s)).

(** The loop of free_process_user_handles, [n] entries from [i] on. *)
Fixpoint free_client_entries (process : Z) (n i : nat) (s : user_state) : user_state :=
  match n with
  | O => s
  | S n =>
      let s := match handles s !! i with
               | Some e => if decide (type e = USER_CLIENT /\ ptr e = Object process)
                           then snd (free_user_entry s i) else s
               | None => s
               end in
      free_client_entries process n (S i) s
  end.

Definition free_process_user_handles (s : user_state) (process : Z) : user_state :=
  free_client_entries process (length (handles s)) 0 s.

(** Request handlers; [process] is [current->process]. *)
Definition req_alloc_user_handle (s : user_state) (process : Z) : M (Z * user_state) :=
  alloc_user_handle s process USER_CLIENT.

Definition req_free_user_handle (s : user_state) (handle : Z) : M user_state :=
  match handle_to_entry s handle with
  | Some i =>
      match handles s !! i with
      | Some e => if type e =? USER_CLIENT then ret (snd (free_user_entry s i))
                  else set_error STATUS_INVALID_HANDLE ;;; ret s
      | None => set_error STATUS_INVALID_HANDLE ;;; ret s
      end
  | None => set_error STATUS_INVALID_HANDLE ;;; ret s
  end.

(** user.h. *)
Definition ERROR_INVALID_WINDOW_HANDLE : Z := 1400.

Definition set_win32_error (err : Z) : M unit := set_error (Z.lor 0xc0010000 err).

Definition get_valid_window_handle (s : user_state) (win : Z) : M Z :=
  match get_user_object_handle s win USER_WINDOW with
  | (Some _, full) => ret full
  | (None, _) => set_win32_error ERROR_INVALID_WINDOW_HANDLE ;;; ret 0
  end.
