(* ===== verification/UserHandleTheorems.v ===== *)
(** * Correctness of the user handle table of server/user.c

    The invariant ties the free list to the entries of type 0; allocation and
    freeing preserve it, touch no other entry, and a handle that has been freed
    is refused also after its entry is used again. *)

From Stdlib Require Import ZArith Lia.
From stdpp Require Import base list numbers option.
From S2P Require Import Prelude UserHandles.

#[local] Open Scope Z_scope.
#[local] Open Scope server_scope.

(** ** The invariant *)

(** [l] lists the entries of the free list that starts at [fl]. *)
Fixpoint chain (hs : list user_handle) (fl : option nat) (l : list nat) : Prop :=
  match l with
  | [] => fl = None
  | i :: l => fl = Some i /\ exists e nxt, hs !! i = Some e /\ ptr e = Link nxt /\ chain hs nxt l
  end.

Definition valid_generation (g : Z) : Prop := 1 <= g < 0xffff.

Definition entry_ok (l : list nat) (i : nat) (e : user_handle) : Prop :=
  (i ∈ l <-> type e = 0) /\ valid_generation (generation e) /\
  (type e <> 0 -> exists p, ptr e = Object p).

Definition user_wf (s : user_state) : Prop :=
  nb_handles s <= allocated_handles s <= MAX_USER_HANDLES /\
  exists l, chain (handles s) (freelist s) l /\ NoDup l /\
            forall i e, handles s !! i = Some e -> entry_ok l i e.

Definition initial_user_state : user_state := mk_us [] None 0.

Lemma initial_user_state_wf : user_wf initial_user_state.
Proof. split; [by vm_compute|]. exists []. split; [done|]. split; [constructor|]. by intros i e. Qed.

Lemma chain_lt hs fl l i : chain hs fl l -> i ∈ l -> (i < length hs)%nat.
Proof.
  revert fl. induction l as [|j l IH]; intros fl; [by intros _ ?%not_elem_of_nil|].
  intros (_ & e & nxt & He & _ & Hc) [->|Hi]%elem_of_cons; [by apply lookup_lt_Some in He|].
  by eapply IH.
Qed.

(** Entries outside the free list can change. *)
Lemma chain_insert hs fl l i e : chain hs fl l -> i ∉ l -> chain (<[i := e]> hs) fl l.
Proof.
  revert fl. induction l as [|j l IH]; intros fl; [done|].
  intros (-> & e' & nxt & He & Hp & Hc) [Hne Hni]%not_elem_of_cons.
  split; [done|]. exists e', nxt. rewrite list_lookup_insert_ne by done. auto.
Qed.

Lemma chain_app hs fl l e : chain hs fl l -> chain (hs ++ [e]) fl l.
Proof.
  revert fl. induction l as [|j l IH]; intros fl; [done|].
  intros (-> & e' & nxt & He & Hp & Hc). split; [done|]. exists e', nxt.
  rewrite lookup_app_l by (by apply lookup_lt_Some in He). auto.
Qed.

Lemma max_user_handles_value : MAX_USER_HANDLES = 0x7fe8.
Proof. done. Qed.

(** ** Handles and entries *)

Section word_split.
Context (i : nat) (g : Z).
Context (Hi : Z.of_nat i < MAX_USER_HANDLES) (Hg : 0 <= g < 2 ^ 16).

Let h : Z := Z.shiftl (Z.of_nat i) 1 + FIRST_USER_HANDLE + Z.shiftl g 16.

Lemma handle_value : h = (2 * Z.of_nat i + 32) + g * 2 ^ 16 /\ 32 <= 2 * Z.of_nat i + 32 < 2 ^ 16.
Proof using Hi.
  unfold h, FIRST_USER_HANDLE. rewrite max_user_handles_value in Hi.
  rewrite !Z.shiftl_mul_pow2 by lia. lia.
Qed.

Lemma handle_u32 : u32 h = h.
Proof using Hi Hg. destruct handle_value as [-> ?]. unfold u32. rewrite Z.mod_small; lia. Qed.

Lemma handle_low : Z.land h 0xffff = 2 * Z.of_nat i + 32.
Proof using Hi Hg.
  destruct handle_value as [-> ?]. change 0xffff with (Z.ones 16).
  rewrite Z.land_ones, Z.mod_add, Z.mod_small by lia. done.
Qed.

Lemma handle_high : Z.shiftr h 16 = g.
Proof using Hi Hg.
  destruct handle_value as [-> ?]. rewrite Z.shiftr_div_pow2, Z.div_add, Z.div_small by lia. lia.
Qed.
End word_split.

Lemma low_index i : Z.of_nat i < MAX_USER_HANDLES ->
  Z.shiftr (u32 (2 * Z.of_nat i + 32 - FIRST_USER_HANDLE)) 1 = Z.of_nat i.
Proof.
  rewrite max_user_handles_value. intros Hi. unfold FIRST_USER_HANDLE, u32.
  replace (2 * Z.of_nat i + 32 - 32) with (Z.of_nat i * 2) by lia.
  rewrite Z.mod_small, Z.shiftr_div_pow2 by lia. apply Z.div_mul. lia.
Qed.

Lemma entry_index_lt s i e : user_wf s -> handles s !! i = Some e -> Z.of_nat i < MAX_USER_HANDLES.
Proof. intros [Hn _] He%lookup_lt_Some. unfold nb_handles in Hn. lia. Qed.

(** handle_to_entry, once the index and the generation of the handle are known. *)
Lemma handle_to_entry_at s h i e :
  handles s !! i = Some e -> handle_index h = Z.of_nat i ->
  handle_to_entry s h =
    if (type e =? 0) then None
    else if (u16 (Z.shiftr h 16) =? generation e) || (u16 (Z.shiftr h 16) =? 0) ||
            (u16 (Z.shiftr h 16) =? 0xffff) then Some i else None.
Proof.
  intros He Hi. unfold handle_to_entry. rewrite Hi, Nat2Z.id, He.
  pose proof (lookup_lt_Some _ _ _ He). unfold nb_handles.
  destruct (Z.ltb_spec (Z.of_nat i) 0); [lia|].
  destruct (Z.leb_spec (Z.of_nat (length (handles s))) (Z.of_nat i)); [lia|done].
Qed.

Lemma handle_to_entry_live s h i :
  handle_to_entry s h = Some i ->
  exists e, handles s !! i = Some e /\ type e <> 0 /\ handle_index h = Z.of_nat i.
Proof.
  unfold handle_to_entry. destruct (Z.ltb_spec (handle_index h) 0); [done|].
  destruct (Z.leb_spec (nb_handles s) (handle_index h)); [done|]. cbn [orb].
  destruct (handles s !! Z.to_nat (handle_index h)) as [e|] eqn:He; [|done].
  destruct (Z.eqb_spec (type e) 0); [done|]. destruct (_ || _ || _); [|done].
  intros [= <-]. exists e. split; [done|]. split; [done|]. lia.
Qed.

Lemma entry_handle_parts s i e :
  user_wf s -> handles s !! i = Some e -> valid_generation (generation e) ->
  handle_index (entry_to_handle i e) = Z.of_nat i /\
  u16 (Z.shiftr (entry_to_handle i e) 16) = generation e.
Proof.
  intros W He Hg. pose proof (entry_index_lt s i e W He) as Hi. unfold valid_generation in Hg.
  unfold entry_to_handle, handle_index.
  rewrite handle_u32, handle_low, handle_high by (done || lia).
  split; [by apply low_index|]. unfold u16. rewrite Z.mod_small; lia.
Qed.

(** The handle of a live entry leads back to it. *)
Lemma entry_to_handle_to_entry s i e :
  user_wf s -> handles s !! i = Some e -> type e <> 0 ->
  handle_to_entry s (entry_to_handle i e) = Some i.
Proof.
  intros W He Ht. pose proof W as [_ (l & _ & _ & Hok)]. destruct (Hok i e He) as (_ & Hg & _).
  destruct (entry_handle_parts s i e W He Hg) as [H1 H2].
  rewrite (handle_to_entry_at s _ i e He H1), H2, Z.eqb_refl.
  destruct (Z.eqb_spec (type e) 0); done.
Qed.

(** A change of one entry leaves the others reachable under the same handles. *)
Lemma handle_to_entry_other s s' h i j :
  handle_to_entry s h = Some j -> i <> j ->
  handles s' !! j = handles s !! j -> handle_to_entry s' h = Some j.
Proof.
  intros H Hij Hj. pose proof (handle_to_entry_live s h j H) as (e & He & Ht & Hi).
  rewrite (handle_to_entry_at s h j e He Hi) in H.
  by rewrite (handle_to_entry_at s' h j e (eq_trans Hj He) Hi).
Qed.

(** ** Allocation *)

Lemma next_generation_valid g : 0 <= g < 0xffff -> valid_generation (next_generation g).
Proof.
  intros Hg. unfold next_generation, valid_generation, u16. rewrite Z.mod_small by lia.
  destruct (Z.leb_spec 0xffff (g + 1)); lia.
Qed.

(** The table with entry [i] set to [e], and with it taken off the free list. *)
Definition takes (s s' : user_state) (i : nat) (e : user_handle) : Prop :=
  handles s' !! i = Some e /\
  (forall j, j <> i -> handles s' !! j = handles s !! j) /\
  (forall e0, handles s !! i = Some e0 ->
     type e0 = 0 /\ freelist s = Some i /\ generation e = next_generation (generation e0)).

Lemma insert_takes s i e0 e fl n :
  handles s !! i = Some e0 -> type e0 = 0 -> freelist s = Some i ->
  generation e = next_generation (generation e0) ->
  takes s (mk_us (<[i := e]> (handles s)) fl n) i e.
Proof.
  intros He Ht Hf Hg. split; [|split]; cbn [handles].
  - apply list_lookup_insert_eq. by apply lookup_lt_Some in He.
  - intros j Hj. by apply list_lookup_insert_ne.
  - intros e1 He1. rewrite He in He1. by simplify_eq.
Qed.

Lemma alloc_reuse_wf s i l e0 p ty n :
  nb_handles s <= n <= MAX_USER_HANDLES -> ty <> 0 ->
  chain (handles s) (freelist s) (i :: l) -> NoDup (i :: l) -> handles s !! i = Some e0 ->
  (forall j e, handles s !! j = Some e -> entry_ok (i :: l) j e) ->
  user_wf (mk_us (<[i := mk_uh (Object p) ty (next_generation (generation e0))]> (handles s))
                 (match ptr e0 with Link nxt => nxt | Object _ => None end) n).
Proof.
  intros Hn Hty (_ & e & nxt & He & Hp & Hc) [Hni Hnd]%list.NoDup_cons He0 Hok. rewrite He in He0. simplify_eq.
  split; [unfold nb_handles in *; cbn; by rewrite length_insert|]. exists l. rewrite Hp. cbn.
  split; [by apply chain_insert|]. split; [done|]. intros j e. destruct (decide (i = j)) as [->|Hne].
  - rewrite list_lookup_insert_eq by (by apply lookup_lt_Some in He). intros [= <-].
    destruct (Hok j e0 He) as (_ & Hg & _). unfold valid_generation in Hg.
    split; [done|]. split; [apply next_generation_valid; lia|]. by exists p.
  - rewrite list_lookup_insert_ne by done. intros Hj. destruct (Hok j e Hj) as (H1 & H2 & H3).
    split; [|done]. rewrite <-H1, elem_of_cons. split; [by right|by intros [->|?]].
Qed.

Lemma alloc_new_wf s p ty n :
  user_wf s -> ty <> 0 -> freelist s = None -> nb_handles s < n <= MAX_USER_HANDLES ->
  user_wf (mk_us (handles s ++ [mk_uh (Object p) ty (next_generation 0)]) None n).
Proof.
  intros [_ (l & Hc & Hnd & Hok)] Hty Hf Hn.
  assert (l = []) as ->. { destruct l; [done|]. destruct Hc. congruence. }
  split; [unfold nb_handles in *; cbn; rewrite length_app; cbn; lia|]. exists [].
  split; [done|]. split; [done|]. intros j e. cbn [handles]. destruct (decide (j < length (handles s))%nat).
  - rewrite lookup_app_l by done. apply Hok.
  - rewrite lookup_app_r by lia. destruct (j - length (handles s))%nat; [|done]. intros [= <-].
    split; [split; [by intros ?%not_elem_of_nil|done]|].
    split; [by apply next_generation_valid|by exists p].
Qed.

(** Filling the entry that has just been appended. *)
Lemma alloc_append s p ty n :
  user_wf s -> 0 < ty -> freelist s = None -> nb_handles s < n <= MAX_USER_HANDLES ->
  let en := mk_uh (Object p) ty (next_generation 0) in
  let s' := mk_us (<[length (handles s) := en]> (handles s ++ [mk_uh (Object 0) 0 0])) None n in
  user_wf s' /\ takes s s' (length (handles s)) en.
Proof.
  intros W Hty Hf Hn en s'. unfold s'. rewrite insert_app_r_alt, Nat.sub_diag by lia. cbn [insert list_insert].
  split; [by apply alloc_new_wf; [|lia|..]|]. split; [|split]; cbn [handles].
  - by rewrite lookup_app_r, Nat.sub_diag by lia.
  - intros j Hj. destruct (decide (j < length (handles s))%nat); [by rewrite lookup_app_l|].
    rewrite lookup_app_r by lia. destruct (j - length (handles s))%nat eqn:E; [lia|].
    symmetry. apply lookup_ge_None_2. lia.
  - intros e0 He0%lookup_lt_Some. lia.
Qed.

(** What an allocation may do: take an entry, or fail with the table unchanged,
    which happens only when the table is full or cannot grow. *)
Definition alloc_result (s : user_state) (p ty : Z) (e : senv) (r : Z * user_state) : Prop :=
  user_wf (snd r) /\
  ((fst r = 0 /\ snd r = s /\ freelist s = None /\
    (nb_handles s = MAX_USER_HANDLES \/ exists tl, allocs e = false :: tl)) \/
   (exists i en, fst r = entry_to_handle i en /\ ptr en = Object p /\ type en = ty /\
                 takes s (snd r) i en)).

Lemma alloc_user_handle_spec s p ty e :
  user_wf s -> 0 < ty -> alloc_result s p ty e (fst (alloc_user_handle s p ty e)).
Proof.
  intros W Hty. pose proof W as [Hn (l & Hc & Hnd & Hok)].
  assert (Happ : forall n, freelist s = None -> nb_handles s < n <= MAX_USER_HANDLES ->
    let en := mk_uh (Object p) ty (next_generation 0) in
    alloc_result s p ty e (entry_to_handle (length (handles s)) en,
      mk_us (<[length (handles s) := en]> (handles s ++ [mk_uh (Object 0) 0 0])) None n)).
  { intros n Hf Hlt. destruct (alloc_append s p ty n) as [? ?]; [done..|]. split; [done|].
    right. by eexists _, _. }
  unfold alloc_user_handle, bind, alloc_user_entry. destruct (freelist s) as [i|] eqn:Hf.
  - destruct l as [|i' l]; [done|]. pose proof Hc as (E & e0 & nxt & He0 & Hp & _). simplify_eq.
    rewrite He0. cbn [ret]. cbn [handles]. rewrite He0. rewrite <-Hf in Hc. split.
    + by apply (alloc_reuse_wf s i' l e0); [|lia|..].
    + right. exists i'. eexists. split; [done|]. split; [done|]. split; [done|].
      apply (insert_takes s i' e0); [done|apply (Hok i' e0 He0); by left|done..].
  - destruct (Z.leb_spec (allocated_handles s) (nb_handles s)) as [Hfull|Hroom].
    2: { cbn [ret handles freelist allocated_handles]. rewrite list_lookup_middle by done. apply Happ; [done|lia]. }
    destruct (Z.leb_spec (Z.min (allocated_handles s + Z.max 32 (allocated_handles s / 2)) MAX_USER_HANDLES)
      (allocated_handles s)) as [Hm|Hm].
    { split; [done|]. left. split; [done|]. split; [done|]. split; [done|]. left. lia. }
    unfold malloc, bind. destruct (allocs e) as [|[] tl] eqn:Ha; cbn [negb ret handles freelist allocated_handles].
    1,2: rewrite list_lookup_middle by done; apply Happ; [done|lia].
    split; [done|]. left. split; [done|]. split; [done|]. split; [done|]. right. by exists tl.
Qed.

Lemma takes_fresh s s' i en :
  user_wf s' -> takes s s' i en -> type en <> 0 -> handle_to_entry s (entry_to_handle i en) = None.
Proof.
  intros W' (He & _ & Hfree) Ht. pose proof W' as [_ (l & _ & _ & Hok)].
  destruct (Hok i en He) as (_ & Hg & _). destruct (entry_handle_parts s' i en W' He Hg) as [Hi _].
  destruct (handles s !! i) as [e0|] eqn:He0.
  - rewrite (handle_to_entry_at s _ i e0 He0 Hi). by destruct (Hfree e0 eq_refl) as [-> _].
  - unfold handle_to_entry. rewrite Hi. apply lookup_ge_None in He0. unfold nb_handles.
    destruct (Z.leb_spec (Z.of_nat (length (handles s))) (Z.of_nat i)); [|lia]. by rewrite orb_true_r.
Qed.

Lemma takes_others s s' i en h j :
  takes s s' i en -> handle_to_entry s h = Some j ->
  handle_to_entry s' h = Some j /\ handles s' !! j = handles s !! j.
Proof.
  intros (_ & Hoth & Hfree) Hj. destruct (handle_to_entry_live s h j Hj) as (e & He & Ht & _).
  assert (i <> j) by (intros ->; by destruct (Hfree e He)).
  split; [|by apply Hoth]. by eapply handle_to_entry_other; [..|apply Hoth].
Qed.

Lemma low_word_entry s i e :
  user_wf s -> handles s !! i = Some e -> type e <> 0 ->
  get_user_full_handle s (Z.land (entry_to_handle i e) 0xffff) = entry_to_handle i e.
Proof.
  intros W He Ht. pose proof (entry_index_lt s i e W He) as Hi.
  pose proof W as [_ (l & _ & _ & Hok)]. destruct (Hok i e He) as (_ & Hg & _). unfold valid_generation in Hg.
  unfold entry_to_handle at 1. rewrite handle_u32, handle_low by (done || lia).
  unfold get_user_full_handle. pose proof (max_user_handles_value) as Hmax.
  assert (E : Z.shiftr (2 * Z.of_nat i + 32) 16 = 0) by (rewrite Z.shiftr_div_pow2 by lia; apply Z.div_small; lia).
  rewrite E. cbn [Z.eqb negb].
  rewrite (handle_to_entry_at s _ i e He).
  - rewrite E. destruct (Z.eqb_spec (type e) 0); [done|]. change (u16 0) with 0. cbn [Z.eqb].
    rewrite orb_true_r. cbn [orb]. by rewrite He.
  - unfold handle_index. change 0xffff with (Z.ones 16). rewrite Z.land_ones, Z.mod_small by lia.
    by apply low_index.
Qed.

(** alloc_user_handle keeps the table well formed.  It returns 0, with the
    table unchanged, only when no entry is free and the table is at its maximum
    or cannot be grown; otherwise the new handle was invalid before, gives the
    object, is recovered from its low word, and every handle that was valid
    still denotes the same entry. *)
Lemma alloc_user_handle_run s p ty e :
  user_wf s -> 0 < ty ->
  let '(h, s', _) := alloc_user_handle s p ty e in
  user_wf s' /\
  if h =? 0 then
    s' = s /\ freelist s = None /\
    (nb_handles s = MAX_USER_HANDLES \/ exists tl, allocs e = false :: tl)
  else
    get_user_object s' h ty = Some (Object p) /\ handle_to_entry s h = None /\
    get_user_full_handle s' (Z.land h 0xffff) = h /\
    forall h' j, handle_to_entry s h' = Some j ->
      handle_to_entry s' h' = Some j /\ handles s' !! j = handles s !! j.
Proof.
  intros W Hty. pose proof (alloc_user_handle_spec s p ty e W Hty) as H.
  destruct (alloc_user_handle s p ty e) as [[h s'] e']. destruct H as [W' H]. split; [done|]. cbn in H.
  destruct H as [(-> & H)|(i & en & -> & Hp & Ht & Htk)]; [done|].
  assert (Hne : type en <> 0) by lia. pose proof Htk as (He & _ & _).
  pose proof (entry_to_handle_to_entry s' i en W' He Hne) as Hh.
  destruct (Z.eqb_spec (entry_to_handle i en) 0) as [E|_].
  { rewrite E in Hh.
    apply handle_to_entry_live in Hh as (? & _ & _ & Hi). unfold handle_index in Hi.
    pose proof (entry_index_lt s' i en W' He) as Hlt. rewrite max_user_handles_value in Hlt.
    change (Z.shiftr _ 1) with 2147483632 in Hi. lia. }
  split; [|split; [by eapply takes_fresh|split; [by apply low_word_entry|]]].
  - unfold get_user_object. rewrite Hh, He, Ht, Z.eqb_refl. by rewrite Hp.
  - intros h' j. by apply takes_others with i en.
Qed.

(** ** Freeing *)

Lemma free_user_entry_wf s i e :
  user_wf s -> handles s !! i = Some e -> type e <> 0 -> user_wf (snd (free_user_entry s i)).
Proof.
  intros [Hn (l & Hc & Hnd & Hok)] He Ht. unfold free_user_entry. rewrite He. cbn [snd].
  destruct (Hok i e He) as (Hin & Hg & _). assert (Hni : i ∉ l) by tauto.
  split; [unfold nb_handles in *; cbn; by rewrite length_insert|]. exists (i :: l). cbn [handles freelist].
  assert (Hi : (i < length (handles s))%nat) by (by apply lookup_lt_Some in He).
  split; [split; [done|]|split; [by apply list.NoDup_cons|]].
  - eexists _, (freelist s). rewrite list_lookup_insert_eq by done. split; [done|]. split; [done|].
    by apply chain_insert.
  - intros j e'. destruct (decide (i = j)) as [->|Hne].
    + rewrite list_lookup_insert_eq by done. intros [= <-]. split; [split; [done|by left]|done].
    + rewrite list_lookup_insert_ne by done. intros Hj. destruct (Hok j e' Hj) as (H1 & H2 & H3).
      split; [|done]. rewrite <-H1, elem_of_cons. split; [by intros [->|?]|by right].
Qed.

Lemma free_user_entry_handles s i e j :
  handles s !! i = Some e ->
  handles (snd (free_user_entry s i)) !! j =
    if decide (i = j) then Some (mk_uh (Link (freelist s)) 0 (generation e)) else handles s !! j.
Proof.
  intros He. unfold free_user_entry. rewrite He. cbn [snd handles].
  case_decide as E; [subst; apply list_lookup_insert_eq; by apply lookup_lt_Some in He|by apply list_lookup_insert_ne].
Qed.

(** free_user_handle refuses an invalid handle with STATUS_INVALID_HANDLE
    and no other effect; a valid one is released: its object is returned, the
    table stays well formed, the handle becomes invalid and every handle of
    another entry keeps its meaning. *)
Lemma free_user_handle_run s h e :
  user_wf s ->
  match handle_to_entry s h with
  | None => free_user_handle s h e = (None, s, mk_senv STATUS_INVALID_HANDLE (allocs e))
  | Some i =>
      exists en s', handles s !! i = Some en /\ free_user_handle s h e = (Some (ptr en), s', e) /\
        user_wf s' /\ handle_to_entry s' h = None /\
        forall h' j, handle_to_entry s h' = Some j -> j <> i ->
          handle_to_entry s' h' = Some j /\ handles s' !! j = handles s !! j
  end.
Proof.
  intros W. unfold free_user_handle. destruct (handle_to_entry s h) as [i|] eqn:Hh; [|done].
  destruct (handle_to_entry_live s h i Hh) as (en & He & Ht & Hi).
  exists en, (snd (free_user_entry s i)). split; [done|].
  split; [unfold free_user_entry; by rewrite He|]. split; [by apply (free_user_entry_wf s i en)|].
  pose proof (fun j => free_user_entry_handles s i en j He) as Hs'. split.
  - eassert (He' : handles (snd (free_user_entry s i)) !! i = Some _) by (by rewrite Hs', decide_True).
    by rewrite (handle_to_entry_at _ h i _ He' Hi).
  - intros h' j Hj Hne. assert (E : handles (snd (free_user_entry s i)) !! j = handles s !! j)
      by (by rewrite Hs', decide_False).
    split; [by apply (handle_to_entry_other s _ h' i)|done].
Qed.

(** A table with a window (handle 0x10020) and a free entry. *)
Definition sample_users : user_state :=
  mk_us [mk_uh (Object 77) USER_WINDOW 1; mk_uh (Link None) 0 5] (Some 1%nat) 32.

Lemma sample_users_wf : user_wf sample_users.
Proof.
  split; [by vm_compute|]. exists [1%nat]. split; [|split].
  - split; [done|]. by eexists _, None.
  - apply list.NoDup_singleton.
  - intros i e He. destruct i as [|[|i]]; cbn in He; simplify_eq.
    + split; [split; [by intros ?%list_elem_of_singleton|done]|].
      split; [unfold valid_generation; cbn; lia|by exists 77].
    + split; [split; [done|intros _; by left]|]. split; [unfold valid_generation; cbn; lia|done].
Qed.

(** ** Stale handles *)

(** The operations of the server on the table. *)
Inductive user_op :=
  | OpAlloc (p ty : Z)
  | OpFree (h : Z)
  | OpFreeProcess (process : Z).

Definition user_step (op : user_op) (s : user_state) : M user_state :=
  match op with
  | OpAlloc p ty => let* (_, s) := alloc_user_handle s p ty in ret s
  | OpFree h => let* (_, s) := free_user_handle s h in ret s
  | OpFreeProcess process => ret (free_process_user_handles s process)
  end.

Fixpoint user_run (ops : list user_op) (s : user_state) : M user_state :=
  match ops with
  | [] => ret s
  | op :: ops => let* s := user_step op s in user_run ops s
  end.

Definition op_ok (op : user_op) : Prop :=
  match op with OpAlloc _ ty => 0 < ty | _ => True end.

(** How many allocations a sequence makes. *)
Fixpoint count_allocs (ops : list user_op) : Z :=
  match ops with
  | [] => 0
  | OpAlloc _ _ :: ops => 1 + count_allocs ops
  | _ :: ops => count_allocs ops
  end.

(** The generation [m] allocations after [g]; it cycles through 1..0xfffe. *)
Definition advance (g m : Z) : Z := 1 + (g - 1 + m) mod 0xfffe.

Lemma next_generation_advance g m :
  valid_generation g -> next_generation (advance g m) = advance g (m + 1).
Proof.
  intros Hg. unfold next_generation, advance, u16, valid_generation in *.
  pose proof (Z.mod_pos_bound (g - 1 + m) 0xfffe eq_refl) as Hb.
  rewrite (Z.mod_small (1 + _ + 1)) by lia.
  replace (g - 1 + (m + 1)) with ((g - 1 + m) + 1) by lia.
  rewrite (Z.add_mod (g - 1 + m) 1) by lia. set (x := (g - 1 + m) mod 0xfffe) in *.
  change (1 mod 0xfffe) with 1. destruct (Z.leb_spec 0xffff (1 + x + 1)).
  - replace (x + 1) with 0xfffe by lia. done.
  - rewrite Z.mod_small; lia.
Qed.

Lemma advance_ne g m : valid_generation g -> 0 < m < 0xfffe -> advance g m <> g.
Proof.
  intros Hg Hm. unfold advance, valid_generation in *. intros E.
  pose proof (Z.div_mod (g - 1 + m) 0xfffe ltac:(lia)) as Hd.
  replace ((g - 1 + m) mod 0xfffe) with (g - 1) in Hd by lia. nia.
Qed.

(** Entry [i] after some operations: its generation has advanced by at most [a]
    steps, by at least one if the entry is in use. *)
Definition aged (i : nat) (g a : Z) (s : user_state) : Prop :=
  exists e m, handles s !! i = Some e /\ generation e = advance g m /\ 0 <= m <= a /\
              (type e <> 0 -> 0 < m).

(** An operation that releases entries and changes nothing else. *)
Definition releases (s s' : user_state) : Prop :=
  forall i e, handles s !! i = Some e ->
    exists e', handles s' !! i = Some e' /\ generation e' = generation e /\
               (e' = e \/ type e' = 0).

Lemma aged_releases i g a s s' : releases s s' -> aged i g a s -> aged i g a s'.
Proof.
  intros Hr (e & m & He & Hg & Hm & Ht). destruct (Hr i e He) as (e' & He' & Hg' & Hc).
  exists e', m. split; [done|]. split; [congruence|]. split; [done|].
  destruct Hc as [->|Hc]; [done|by rewrite Hc].
Qed.

Lemma free_entry_releases s i : releases s (snd (free_user_entry s i)).
Proof.
  intros j e Hj. destruct (handles s !! i) as [ei|] eqn:Hi.
  - rewrite (free_user_entry_handles s i ei j Hi). case_decide as E; [|exists e; auto].
    subst. rewrite Hi in Hj. simplify_eq. eexists. split; [done|]. auto.
  - unfold free_user_entry. rewrite Hi. exists e. auto.
Qed.

Lemma releases_trans s1 s2 s3 : releases s1 s2 -> releases s2 s3 -> releases s1 s3.
Proof.
  intros H1 H2 i e He. destruct (H1 i e He) as (e' & He' & Hg' & Hc').
  destruct (H2 i e' He') as (e2 & He2 & Hg2 & Hc2). exists e2. split; [done|]. split; [congruence|].
  destruct Hc2 as [->|?]; auto.
Qed.

Lemma free_client_entries_spec process n i s :
  user_wf s -> user_wf (free_client_entries process n i s) /\
               releases s (free_client_entries process n i s).
Proof.
  revert i s. induction n as [|n IH]; intros i s W; [split; [done|]; intros j e He; exists e; auto|].
  cbn [free_client_entries]. destruct (handles s !! i) as [e|] eqn:He; [|by apply IH].
  case_decide as Hc; [|by apply IH]. destruct Hc as [Ht _].
  assert (W' : user_wf (snd (free_user_entry s i))).
  { apply (free_user_entry_wf s i e); [done..|]. by rewrite Ht. }
  destruct (IH (S i) _ W') as [H1 H2]. split; [done|].
  eapply releases_trans; [apply free_entry_releases|done].
Qed.

Lemma user_step_aged i g a op s e :
  valid_generation g -> op_ok op -> user_wf s -> aged i g a s ->
  user_wf (fst (user_step op s e)) /\
  aged i g (match op with OpAlloc _ _ => a + 1 | _ => a end) (fst (user_step op s e)).
Proof.
  intros Hg Hop W Ha. destruct op as [p ty|h|process]; cbn [user_step op_ok] in *.
  - unfold bind. pose proof (alloc_user_handle_spec s p ty e W Hop) as H.
    destruct (alloc_user_handle s p ty e) as [[h s'] e']. destruct H as [W' H]. split; [done|]. cbn in *.
    destruct Ha as (en & m & He & Hgen & Hm & Ht).
    destruct H as [(_ & -> & _)|(j & ej & _ & _ & _ & Hj & Hoth & Hfree)].
    { exists en, m. split; [done|]. split; [done|]. split; [lia|done]. }
    destruct (decide (i = j)) as [<-|Hne].
    + destruct (Hfree en He) as (_ & _ & E). exists ej, (m + 1). split; [done|].
      split; [by rewrite E, Hgen, next_generation_advance|]. lia.
    + exists en, m. split; [by rewrite Hoth|]. split; [done|]. split; [lia|done].
  - unfold bind, free_user_handle. destruct (handle_to_entry s h) as [j|] eqn:Hh; [|done].
    destruct (handle_to_entry_live s h j Hh) as (ej & Hj & Ht & _). unfold ret.
    destruct (free_user_entry s j) as [o s'] eqn:E. cbn [fst].
    replace s' with (snd (free_user_entry s j)) by (by rewrite E).
    split; [by apply (free_user_entry_wf s j ej)|]. by eapply aged_releases; [apply free_entry_releases|].
  - cbn. destruct (free_client_entries_spec process (length (handles s)) 0 s W) as [? Hr].
    split; [done|]. by eapply aged_releases; [exact Hr|].
Qed.

Lemma user_run_aged i g ops : forall a s e,
  valid_generation g -> Forall op_ok ops -> user_wf s -> aged i g a s ->
  user_wf (fst (user_run ops s e)) /\ aged i g (a + count_allocs ops) (fst (user_run ops s e)).
Proof.
  induction ops as [|op ops IH]; intros a s e Hg Hops W Ha.
  - cbn. by rewrite Z.add_0_r.
  - apply list.Forall_cons in Hops as [Hop Hops]. cbn [user_run]. unfold bind.
    destruct (user_step_aged i g a op s e Hg Hop W Ha) as [W1 A1].
    destruct (user_step op s e) as [s1 e1]. cbn [fst] in *.
    destruct (IH _ s1 e1 Hg Hops W1 A1) as [W2 A2]. split; [done|].
    replace (a + count_allocs (op :: ops)) with
      (match op with OpAlloc _ _ => a + 1 | _ => a end + count_allocs ops); [done|].
    destruct op; cbn; lia.
Qed.

(** C5: a freed handle stays invalid through any sequence of fewer than 65534
    allocations, frees and process exits, however often its entry is reused;
    the table stays well formed all along. *)
Theorem stale_user_handle_rejected s i en ops e :
  user_wf s -> handles s !! i = Some en -> type en <> 0 ->
  Forall op_ok ops -> count_allocs ops < 0xfffe ->
  let s1 := snd (free_user_entry s i) in
  let s2 := fst (user_run ops s1 e) in
  user_wf s2 /\ handle_to_entry s2 (entry_to_handle i en) = None.
Proof.
  intros W He Ht Hops Hn s1 s2. pose proof W as [_ (l & _ & _ & Hok)].
  destruct (Hok i en He) as (_ & Hg & _). pose proof (entry_handle_parts s i en W He Hg) as [Hi Hu].
  assert (A1 : aged i (generation en) 0 s1).
  { eexists _, 0. split; [unfold s1; by rewrite (free_user_entry_handles s i en i He), decide_True|].
    split; [|split; [lia|done]]. cbn. unfold advance, valid_generation in *. rewrite Z.mod_small; lia. }
  destruct (user_run_aged i _ ops 0 s1 e Hg Hops (free_user_entry_wf s i en W He Ht) A1) as [W2 A2].
  split; [done|]. destruct A2 as (e2 & m & He2 & Hg2 & Hm & Ht2).
  rewrite (handle_to_entry_at s2 _ i e2 He2 Hi), Hu, Hg2.
  destruct (Z.eqb_spec (type e2) 0) as [|Hne]; [done|]. specialize (Ht2 Hne).
  destruct (Z.eqb_spec (generation en) (advance (generation en) m)) as [E|_].
  { by destruct (advance_ne (generation en) m Hg ltac:(lia) (eq_sym E)). }
  unfold valid_generation in Hg. destruct (Z.eqb_spec (generation en) 0); [lia|].
  by destruct (Z.eqb_spec (generation en) 0xffff); [lia|].
Qed.

Lemma stale_user_handle_rejected_witness :
  let ops := [OpAlloc 5 USER_CLIENT; OpFreeProcess 5; OpAlloc 6 USER_WINDOW] in
  let s1 := snd (free_user_entry sample_users 0) in
  handle_to_entry (fst (user_run ops s1 (mk_senv 0 []))) 0x10020 = None /\
  handle_to_entry (fst (user_run ops s1 (mk_senv 0 []))) 0x30020 = Some 0%nat.
Proof.
  split; [|reflexivity].
  apply (stale_user_handle_rejected sample_users 0 (mk_uh (Object 77) USER_WINDOW 1)
    [OpAlloc 5 USER_CLIENT; OpFreeProcess 5; OpAlloc 6 USER_WINDOW] (mk_senv 0 []) sample_users_wf).
  - reflexivity.
  - discriminate.
  - repeat constructor.
  - reflexivity.
Defined.

(** ** Enumeration *)

(** The loop [while ((obj = next_user_handle( &handle, type )))]. *)
Fixpoint user_enum (fuel : nat) (s : user_state) (handle ty : Z) : list (uptr * Z) :=
  match fuel with
  | O => []
  | S fuel =>
      match next_user_handle s handle ty with
      | None => []
      | Some (p, h) => (p, h) :: user_enum fuel s h ty
      end
  end.

(** The entries of a type with their handles, in table order from index [i]. *)
Fixpoint entries_of_type (ty : Z) (i : nat) (es : list user_handle) : list (uptr * Z) :=
  match es with
  | [] => []
  | e :: es => (if type e =? ty then [(ptr e, entry_to_handle i e)] else []) ++ entries_of_type ty (S i) es
  end.

(** next_entry finds the head of the list of entries, and where it is. *)
Lemma next_entry_spec ty i es :
  0 < ty ->
  match next_entry ty i es with
  | None => entries_of_type ty i es = []
  | Some (p, h) =>
      exists k e, es !! k = Some e /\ type e = ty /\ h = entry_to_handle (i + k) e /\
        entries_of_type ty i es = (p, h) :: entries_of_type ty (S (i + k)) (drop (S k) es)
  end.
Proof.
  intros Hty. revert i. induction es as [|e es IH]; intros i; [done|]. cbn [next_entry entries_of_type].
  destruct (Z.eqb_spec ty 0); [lia|]. cbn [orb]. destruct (Z.eqb_spec (type e) ty).
  - exists 0%nat, e. rewrite Nat.add_0_r. by cbn.
  - specialize (IH (S i)). cbn [app]. destruct (next_entry ty (S i) es) as [[p h]|]; [|done].
    destruct IH as (k & e' & H1 & H2 & -> & H4). exists (S k), e'. rewrite Nat.add_succ_r. by cbn.
Qed.

(** What next_user_handle scans from a handle of the table. *)
Lemma next_user_handle_at s i e ty :
  user_wf s -> handles s !! i = Some e ->
  next_user_handle s (entry_to_handle i e) ty = next_entry ty (S i) (drop (S i) (handles s)).
Proof.
  intros W He. pose proof W as [Hn (l & _ & _ & Hok)]. destruct (Hok i e He) as (_ & Hg & _).
  destruct (entry_handle_parts s i e W He Hg) as [Hi _]. unfold next_user_handle. rewrite Hi.
  pose proof (entry_index_lt s i e W He) as Hlt. pose proof (lookup_lt_Some _ _ _ He).
  destruct (Z.eqb_spec (entry_to_handle i e) 0) as [E|_].
  { rewrite E in Hi. change (handle_index 0) with 2147483632 in Hi. rewrite max_user_handles_value in Hlt. lia. }
  unfold nb_handles. destruct (Z.ltb_spec (Z.of_nat i) 0); [lia|].
  destruct (Z.leb_spec (Z.of_nat (length (handles s))) (Z.of_nat i)); [lia|]. by rewrite Nat2Z.id.
Qed.

Lemma user_enum_from s ty handle i fuel :
  user_wf s -> 0 < ty -> (length (handles s) - i < fuel)%nat -> (i <= length (handles s))%nat ->
  next_user_handle s handle ty = next_entry ty i (drop i (handles s)) ->
  user_enum fuel s handle ty = entries_of_type ty i (drop i (handles s)).
Proof.
  intros W Hty. revert handle i. induction fuel as [|fuel IH]; intros handle i Hf Hle Hnext; [lia|].
  cbn [user_enum]. rewrite Hnext. pose proof (next_entry_spec ty i (drop i (handles s)) Hty) as Hspec.
  destruct (next_entry ty i (drop i (handles s))) as [[p h]|]; [|done].
  destruct Hspec as (k & e & Hk & _ & -> & ->). rewrite lookup_drop in Hk.
  pose proof (lookup_lt_Some _ _ _ Hk). f_equal. rewrite drop_drop, Nat.add_succ_r.
  apply IH; [lia|lia|]. by apply next_user_handle_at.
Qed.

(** Iterating next_user_handle from 0 visits every entry of the type once,
    in table order, and then stops. *)
Lemma user_enum_all s ty :
  user_wf s -> 0 < ty ->
  user_enum (S (length (handles s))) s 0 ty = entries_of_type ty 0 (handles s).
Proof. intros W Hty. by apply (user_enum_from s ty 0 0); [| |lia|lia|]. Qed.

(** C4: alloc_user_handle keeps the table well formed.  It returns 0, with the
    table unchanged, only when no entry is free and the table is at its maximum
    or cannot be grown; otherwise the new handle was invalid before, gives the
    object, is recovered from its low word, and every handle that was valid still
    denotes the same entry.  free_user_handle refuses an invalid handle with
    STATUS_INVALID_HANDLE and no other effect; a valid one is released: its object
    is returned, the table stays well formed, the handle becomes invalid and every
    handle of another entry keeps its meaning.  Iterating next_user_handle from 0
    visits every entry of a type once, in table order, and then stops. *)
Theorem user_handle_ops_correct s :
  user_wf s ->
  (forall p ty e, 0 < ty ->
    let '(h, s', _) := alloc_user_handle s p ty e in
    user_wf s' /\
    if h =? 0 then
      s' = s /\ freelist s = None /\ (nb_handles s = MAX_USER_HANDLES \/ exists tl, allocs e = false :: tl)
    else
      get_user_object s' h ty = Some (Object p) /\ handle_to_entry s h = None /\
      get_user_full_handle s' (Z.land h 0xffff) = h /\
      forall h' j, handle_to_entry s h' = Some j -> handle_to_entry s' h' = Some j /\ handles s' !! j = handles s !! j) /\
  (forall h e,
    match handle_to_entry s h with
    | None => free_user_handle s h e = (None, s, mk_senv STATUS_INVALID_HANDLE (allocs e))
    | Some i =>
        exists en s', handles s !! i = Some en /\ free_user_handle s h e = (Some (ptr en), s', e) /\
          user_wf s' /\ handle_to_entry s' h = None /\
          forall h' j, handle_to_entry s h' = Some j -> j <> i -> handle_to_entry s' h' = Some j /\ handles s' !! j = handles s !! j
    end) /\
  (forall ty, 0 < ty -> user_enum (S (length (handles s))) s 0 ty = entries_of_type ty 0 (handles s)).
Proof.
  intros W. split_and!; [intros p ty e; by apply alloc_user_handle_run|intros h e; by apply free_user_handle_run|].
  intros ty Hty. by apply user_enum_all.
Qed.

Lemma user_handle_ops_correct_witness :
  (let '(h, s', _) := alloc_user_handle sample_users 99 USER_HOOK (mk_senv 0 []) in h = 0x60022 /\ get_user_object s' h USER_HOOK = Some (Object 99)) /\
  exists s', free_user_handle sample_users 0x10020 (mk_senv 0 []) = (Some (Object 77), s', mk_senv 0 []) /\
    user_wf s' /\ handle_to_entry s' 0x10020 = None.
Proof.
  destruct (user_handle_ops_correct sample_users sample_users_wf) as (A & F & _). split.
  - specialize (A 99 USER_HOOK (mk_senv 0 []) eq_refl). cbn in A |- *. split; [reflexivity|]. exact (proj1 (proj2 A)).
  - specialize (F 0x10020 (mk_senv 0 [])). cbn in F. destruct F as (en & s' & He & Hf & W & Hn & _). injection He as <-.
    exists s'. split; [exact Hf|]. split; [exact W|exact Hn].
Defined.
