(* ===== verification/Unicode.v ===== *)
(** * Server strings: server/unicode.c

    Case-insensitive comparison and hashing of WCHAR strings, and the escaped
    text format in which the registry files and the traces hold them.  A WCHAR
    string is the list of its 16-bit units, a C string the list of its bytes
    (reading past the end gives the terminating NUL).  The case mapping table is
    loaded from a file at startup and is a parameter. *)

From Stdlib Require Import ZArith Lia.
From stdpp Require Import base list numbers option.
From S2P Require Import Prelude.

#[local] Open Scope Z_scope.

Definition sizeof_WCHAR : Z := 2.

(** ** Character classes of <ctype.h>, C locale *)

Definition isdigit (c : Z) : bool := (48 <=? c) && (c <=? 57).

Definition isxdigit (c : Z) : bool :=
  isdigit c || ((97 <=? c) && (c <=? 102)) || ((65 <=? c) && (c <=? 70)).

Definition tolower (c : Z) : Z := if (65 <=? c) && (c <=? 90) then c + 32 else c.

Definition isodigit (c : Z) : bool := (48 <=? c) && (c <=? 55).

Definition to_hex (ch : Z) : Z :=
  if isdigit ch then ch - 48 else tolower ch - 97 + 10.

(** ** Comparison and hashing *)

Section casemap.
Variable casemap : Z -> Z.

Definition to_lower (ch : Z) : Z :=
  u16 (ch + casemap (casemap (casemap (Z.shiftr ch 8) + Z.land (Z.shiftr ch 4) 0x0f) + Z.land ch 0x0f)).

(** [n] is the number of WCHARs left, both strings having at least that many. *)
Fixpoint memicmp_strW (str1 str2 : list Z) (n : nat) : Z :=
  match n, str1, str2 with
  | S n, a :: str1, b :: str2 =>
      let ret := to_lower a - to_lower b in
      if negb (ret =? 0) then ret else memicmp_strW str1 str2 n
  | _, _, _ => 0
  end.

Fixpoint hash_loop (str : list Z) (hash : Z) : Z :=
  match str with
  | [] => hash
  | c :: str => hash_loop str (u32 (hash * 65599 + to_lower c))
  end.

Definition hash_strW (str : list Z) (hash_size : Z) : Z := hash_loop str 0 mod hash_size.
End casemap.

(** ** Parsing *)

(** [*p]. *)
Definition deref (p : list Z) : Z := match p with [] => 0 | c :: _ => c end.

Definition utf8_length (ch : Z) : Z :=
  if ch <? 0xc2 then 0
  else if ch <? 0xe0 then 1
  else if ch <? 0xf0 then 2
  else if ch <? 0xf5 then 3
  else 0.

Definition utf8_mask (charlen : Z) : Z :=
  if charlen =? 0 then 0x7f else if charlen =? 1 then 0x1f else if charlen =? 2 then 0x0f else 0x07.

Definition utf8_minval (charlen : Z) : Z :=
  if charlen =? 0 then 0 else if charlen =? 1 then 0x80 else if charlen =? 2 then 0x800 else 0x10000.

(** The single-letter escapes. *)
Definition escape_char (c : Z) : option Z :=
  if c =? 97 then Some 7 else if c =? 98 then Some 8 else if c =? 101 then Some 27
  else if c =? 102 then Some 12 else if c =? 110 then Some 10 else if c =? 114 then Some 13
  else if c =? 116 then Some 9 else if c =? 118 then Some 11 else None.

(** Up to [n] more digits: [if (isxdigit( *p )) *dest = ( *dest * 16) + to_hex( *p++ )]. *)
Fixpoint more_hex (n : nat) (val : Z) (p : list Z) : Z * list Z :=
  match n, p with
  | S n, c :: q => if isxdigit c then more_hex n (u16 (val * 16 + to_hex c)) q else more_hex n val p
  | _, _ => (val, p)
  end.

Fixpoint more_octal (n : nat) (val : Z) (p : list Z) : Z * list Z :=
  match n, p with
  | S n, c :: q => if isodigit c then more_octal n (u16 (val * 8 + (c - 48))) q else more_octal n val p
  | _, _ => (val, p)
  end.

(** The switch on the character after a backslash: the WCHAR stored and what is
    left of the input, or [None] to fall through to normal handling. *)
Definition parse_escape (p : list Z) : option (Z * list Z) :=
  match p with
  | [] => None
  | c :: q =>
      match escape_char c with
      | Some d => Some (d, q)
      | None =>
          if c =? 120 then
            match q with
            | h :: q' => if isxdigit h then Some (more_hex 3 (to_hex h) q') else Some (120, q)
            | [] => Some (120, q)
            end
          else if isodigit c then Some (more_octal 2 (c - 48) q)
          else None
      end
  end.

(** One continuation byte: [if ((ch = *p ^ 0x80) >= 0x40) break; res = (res << 6) | ch; p++;]. *)
Definition utf8_next (res : Z) (p : list Z) : option (Z * list Z) :=
  let ch := Z.lxor (deref p) 0x80 in
  if 0x40 <=? ch then None else Some (Z.lor (Z.shiftl res 6) ch, tail p).

(** The continuation bytes of a sequence; the boolean is false when the sequence
    is cut short, which leaves [p] on the offending byte. *)
Fixpoint utf8_sequence (n : nat) (res : Z) (p : list Z) : bool * Z * list Z :=
  match n with
  | O => (true, res, p)
  | S n =>
      match utf8_next res p with
      | None => (false, res, p)
      | Some (res, p) => utf8_sequence n res p
      end
  end.

(** [ch = *p++] and the code after it: the WCHARs stored and the rest of the
    input; [room] is the number of WCHARs that fit. *)
Definition parse_plain (room : nat) (p : list Z) : list Z * list Z :=
  let ch := deref p in
  let p := tail p in
  if ch <? 0x80 then ([ch], p)
  else
    let charlen := utf8_length ch in
    if charlen =? 0 then ([], p)
    else
      match utf8_sequence (Z.to_nat charlen) (Z.land ch (utf8_mask charlen)) p with
      | (false, _, p) => ([], p)
      | (true, res, p) =>
          if res <? utf8_minval charlen then ([], p)
          else if 0x10ffff <? res then ([], p)
          else if res <=? 0xffff then ([res], p)
          else
            let res := res - 0x10000 in
            (Z.lor 0xd800 (Z.shiftr res 10) ::
               (if (1 <? room)%nat then [Z.lor 0xdc00 (Z.land res 0x3ff)] else []), p)
      end.

(** The while loop: the WCHARs stored and the input position at its exit. *)
Fixpoint parse_loop (fuel : nat) (endchar : Z) (room : nat) (p : list Z) : option (list Z * list Z) :=
  match fuel with
  | O => None
  | S fuel =>
      let continue_with '(out, p) :=
        match parse_loop fuel endchar (room - length out) p with
        | Some (rest, p) => Some (out ++ rest, p)
        | None => None
        end in
      if (deref p =? 0) || (deref p =? endchar) || (room =? 0)%nat then Some ([], p)
      else if deref p =? 92 then
        let p := tail p in
        if deref p =? 0 then Some ([], p)
        else match parse_escape p with
             | Some (d, p) => continue_with ([d], p)
             | None => continue_with (parse_plain room p)
             end
      else continue_with (parse_plain room p)
  end.

(** The number of characters read or -1, the contents of the buffer and, on
    success, the length stored in [*len]; [len] is in bytes. *)
Definition parse_strW (len : Z) (src : list Z) (endchar : Z) : option (Z * list Z * Z) :=
  let room := Z.to_nat (len / sizeof_WCHAR) in
  match parse_loop (S (length src)) endchar room src with
  | None => None
  | Some (dest, p) =>
      if (room <=? length dest)%nat then Some (-1, dest, len)
      else if deref p =? 0 then Some (-1, dest ++ [0], len)
      else Some (Z.of_nat (length src - length p) + 1, dest ++ [0],
                 Z.of_nat (length dest + 1) * sizeof_WCHAR)
  end.

(** ** Printing *)

(** A hexadecimal or octal digit of printf. *)
Definition digit (d : Z) : Z := if d <? 10 then 48 + d else 87 + d.

Fixpoint strip_zeros (ds : list Z) : list Z :=
  match ds with
  | d :: ((_ :: _) as rest) => if d =? 48 then strip_zeros rest else ds
  | _ => ds
  end.

(** sprintf of a 16-bit value with %04x and %x, of a value below 512 with %03o
    and %o. *)
Definition fmt_04x (v : Z) : list Z :=
  [digit (Z.land (Z.shiftr v 12) 15); digit (Z.land (Z.shiftr v 8) 15);
   digit (Z.land (Z.shiftr v 4) 15); digit (Z.land v 15)].

Definition fmt_x (v : Z) : list Z := strip_zeros (fmt_04x v).

Definition fmt_03o (v : Z) : list Z :=
  [digit (Z.land (Z.shiftr v 6) 7); digit (Z.land (Z.shiftr v 3) 7); digit (Z.land v 7)].

Definition fmt_o (v : Z) : list Z := strip_zeros (fmt_03o v).

(** The table [escapes]: the letter for a control character, or '.'. *)
Definition escapes (c : Z) : Z :=
  if c =? 7 then 97 else if c =? 8 then 98 else if c =? 9 then 116 else if c =? 10 then 110
  else if c =? 11 then 118 else if c =? 12 then 102 else if c =? 13 then 114
  else if c =? 27 then 101 else 46.

(** What one iteration of dump_strW writes at [pos]; [str] is not empty. *)
Definition dump_char (escape : Z * Z) (str : list Z) : list Z :=
  match str with
  | [] => []
  | c :: next =>
      if 127 <? c then
        match next with
        | n :: _ => if (n <? 128) && isxdigit n then 92 :: 120 :: fmt_04x c else 92 :: 120 :: fmt_x c
        | [] => 92 :: 120 :: fmt_x c
        end
      else if c <? 32 then
        if negb (escapes c =? 46) then [92; escapes c]
        else match next with
             | n :: _ => if isodigit n then 92 :: fmt_03o c else 92 :: fmt_o c
             | [] => 92 :: fmt_o c
             end
      else (if (c =? 92) || (c =? fst escape) || (c =? snd escape) then [92] else []) ++ [c]
  end.

Definition sizeof_buffer : Z := 256.

(** The loop, with the contents of the local buffer up to [pos] and what has
    been written to the file. *)
Fixpoint dump_loop (escape : Z * Z) (str : list Z) (buffer file : list Z) (count : Z) :
    list Z * list Z * Z :=
  match str with
  | [] => (buffer, file, count)
  | _ :: next =>
      let '(buffer, file, count) :=
        if sizeof_buffer - 8 <? Z.of_nat (length buffer)
        then ([], file ++ buffer, count + Z.of_nat (length buffer))
        else (buffer, file, count) in
      dump_loop escape next (buffer ++ dump_char escape str) file count
  end.

(** What is written to the file and the value returned. *)
Definition dump_strW (str : list Z) (escape : Z * Z) : list Z * Z :=
  let '(buffer, file, count) := dump_loop escape str [] [] 0 in
  (file ++ buffer, count + Z.of_nat (length buffer)).

Local Open Scope server_scope.

(** The bytes of a C string as WCHARs. *)
Definition ascii_to_unicode_str (str : list Z) : M (option (list Z)) :=
  let* ok := mem_alloc in
  ret (if ok then Some str else None).
