(* ===== verification/UnicodeTheorems.v ===== *)
(** * Correctness of server/unicode.c

    Strings that compare equal without case hash alike; dump_strW never
    overruns its buffer and parse_strW reads back what it printed; parse_strW
    stays inside its input and output and decodes UTF-8. *)

From Stdlib Require Import ZArith Lia.
From stdpp Require Import base list numbers option.
From S2P Require Import Prelude Unicode.

#[local] Open Scope Z_scope.

(** ** Hashing *)

Lemma memicmp_hash casemap str1 : forall str2 h,
  length str1 = length str2 -> memicmp_strW casemap str1 str2 (length str1) = 0 ->
  hash_loop casemap str1 h = hash_loop casemap str2 h.
Proof.
  induction str1 as [|a str1 IH]; intros [|b str2] h; [done..|]. cbn [length memicmp_strW hash_loop].
  intros [= Hlen]. destruct (Z.eqb_spec (to_lower casemap a - to_lower casemap b) 0) as [E|E]; cbn [negb].
  - intros H. replace (to_lower casemap b) with (to_lower casemap a) by lia. by apply IH.
  - done.
Qed.

(** Equal up to case, as the hash tables of the server compare names. *)
Definition same_name (casemap : Z -> Z) (str1 str2 : list Z) : bool :=
  (length str1 =? length str2)%nat && (memicmp_strW casemap str1 str2 (length str2) =? 0).

Lemma same_name_map casemap str1 str2 :
  same_name casemap str1 str2 = true <-> to_lower casemap <$> str1 = to_lower casemap <$> str2.
Proof.
  unfold same_name. revert str2. induction str1 as [|a str1 IH]; intros [|b str2]; [done..|].
  cbn [length memicmp_strW fmap list_fmap]. specialize (IH str2).
  change (S (length str1) =? S (length str2))%nat with (length str1 =? length str2)%nat.
  destruct (Z.eqb_spec (to_lower casemap a - to_lower casemap b) 0) as [E|E]; cbn [negb].
  - rewrite IH. replace (to_lower casemap b) with (to_lower casemap a) by lia. unfold fmap.
    split; [by intros ->|by intros [= ->]].
  - rewrite andb_true_iff, Z.eqb_eq. split; [lia|]. intros [= H _]. lia.
Qed.

(** Names that memicmp_strW finds equal hash to the same bucket, so a lookup
    by hash misses no name that differs only in case. *)
Lemma hash_strW_case_insensitive casemap str1 str2 hash_size :
  length str1 = length str2 -> memicmp_strW casemap str1 str2 (length str1) = 0 ->
  hash_strW casemap str1 hash_size = hash_strW casemap str2 hash_size.
Proof. intros Hlen Hcmp. unfold hash_strW. by rewrite (memicmp_hash casemap str1 str2 0 Hlen Hcmp). Qed.

(** The case mapping of ASCII as a three-level table: rows of 16 offsets, the
    row of each 16 characters, the block of each 256. *)
Definition ascii_casemap (i : Z) : Z :=
  if i <? 256 then (if i =? 0 then 256 else 272)
  else if i <? 272 then (if i =? 256 + 4 then 304 else if i =? 256 + 5 then 320 else 288)
  else if i <? 288 then 288
  else if i <? 304 then 0
  else if i <? 320 then (if i =? 304 then 0 else 32)
  else if i <? 331 then 32 else 0.

(** ** Printing *)

(** Everything dump_strW prints. *)
Fixpoint dump_chars (escape : Z * Z) (str : list Z) : list Z :=
  match str with
  | [] => []
  | _ :: next => dump_char escape str ++ dump_chars escape next
  end.

Lemma strip_zeros_length ds : (length (strip_zeros ds) <= length ds)%nat.
Proof.
  induction ds as [|d [|d2 ds] IH]; [done..|].
  change (strip_zeros (d :: d2 :: ds)) with (if d =? 48 then strip_zeros (d2 :: ds) else d :: d2 :: ds).
  destruct (d =? 48); [|done]. cbn [length] in *. lia.
Qed.

Lemma dump_char_length escape str : (length (dump_char escape str) <= 6)%nat.
Proof.
  destruct str as [|c next]; [cbn; lia|]. unfold dump_char, fmt_x, fmt_o.
  pose proof (strip_zeros_length (fmt_04x c)). pose proof (strip_zeros_length (fmt_03o c)).
  assert (length (fmt_04x c) = 4%nat /\ length (fmt_03o c) = 3%nat) as [? ?] by done.
  repeat case_match; cbn [length app]; lia.
Qed.

Lemma dump_loop_spec escape str : forall buffer file count,
  (length buffer <= 254)%nat ->
  let '(buffer', file', count') := dump_loop escape str buffer file count in
  file' ++ buffer' = (file ++ buffer) ++ dump_chars escape str /\
  count' - Z.of_nat (length file') = count - Z.of_nat (length file) /\
  (length buffer' <= 254)%nat.
Proof.
  induction str as [|c next IH]; intros buffer file count Hb; cbn [dump_loop dump_chars].
  - by rewrite app_nil_r.
  - pose proof (dump_char_length escape (c :: next)) as Hc. unfold sizeof_buffer.
    destruct (Z.ltb_spec (256 - 8) (Z.of_nat (length buffer))).
    + specialize (IH ([] ++ dump_char escape (c :: next)) (file ++ buffer) (count + Z.of_nat (length buffer))).
      destruct (dump_loop _ _ _ _ _) as [[buffer' file'] count'].
      destruct IH as (H1 & H2 & H3); [rewrite length_app; cbn [length]; lia|].
      rewrite H1, H2, length_app, !app_assoc, app_nil_r. split; [done|]. lia.
    + specialize (IH (buffer ++ dump_char escape (c :: next)) file count).
      destruct (dump_loop _ _ _ _ _) as [[buffer' file'] count'].
      destruct IH as (H1 & H2 & H3); [rewrite length_app; lia|]. by rewrite H1, H2, !app_assoc.
Qed.

Lemma dump_strW_chars str escape :
  dump_strW str escape = (dump_chars escape str, Z.of_nat (length (dump_chars escape str))).
Proof.
  unfold dump_strW. pose proof (dump_loop_spec escape str [] [] 0 ltac:(cbn; lia)) as H.
  destruct (dump_loop _ _ _ _ _) as [[buffer file] count]. destruct H as (H1 & H2 & _).
  rewrite H1. cbn [app length] in *. f_equal. rewrite <-H1, length_app. lia.
Qed.

(** dump_strW writes every character once and in order, returns the number
    of bytes written, and never fills its 256-byte buffer: whatever was printed
    before, at most 254 bytes are pending and one more character (6 bytes and
    the terminator of sprintf) still fits after the flush test. *)
Lemma dump_strW_bounds str escape :
  dump_strW str escape = (dump_chars escape str, Z.of_nat (length (dump_chars escape str))) /\
  (let '(buffer, _, _) := dump_loop escape str [] [] 0 in
   Z.of_nat (length buffer) + 1 < sizeof_buffer) /\
  forall c, Z.of_nat (length (dump_char escape c)) + 1 < 8.
Proof.
  split; [apply dump_strW_chars|]. split.
  - pose proof (dump_loop_spec escape str [] [] 0 ltac:(cbn; lia)) as H.
    destruct (dump_loop _ _ _ _ _) as [[buffer file] count]. unfold sizeof_buffer. lia.
  - intros c. pose proof (dump_char_length escape c). lia.
Qed.

(** ** Reading back *)

Lemma digit_hex d : 0 <= d < 16 -> isxdigit (digit d) = true /\ to_hex (digit d) = d.
Proof. intros Hd. unfold digit, isxdigit, isdigit, to_hex, isdigit, tolower. zbools; split; try done; lia. Qed.

Lemma digit_octal d : 0 <= d < 8 -> digit d = 48 + d /\ isodigit (48 + d) = true.
Proof. intros Hd. unfold digit, isodigit. zbools; split; try done; lia. Qed.

(** The hexadecimal digits of a 16-bit value. *)
Lemma hex_digits c : 0 <= c < 2 ^ 16 ->
  exists a b d e, fmt_04x c = [digit a; digit b; digit d; digit e] /\
    0 <= a < 16 /\ 0 <= b < 16 /\ 0 <= d < 16 /\ 0 <= e < 16 /\
    c = ((a * 16 + b) * 16 + d) * 16 + e.
Proof.
  intros Hc. eexists _, _, _, _. split; [reflexivity|]. change 15 with (Z.ones 4).
  rewrite !Z.land_ones, !Z.shiftr_div_pow2 by lia. change (2 ^ 4) with 16.
  change (2 ^ 12) with 4096. change (2 ^ 8) with 256. 
  split_and!; Z.to_euclidean_division_equations; lia.
Qed.

(** No digit of base 16 follows. *)
Definition not_hex (p : list Z) : Prop := isxdigit (deref p) = false.

Lemma more_hex_stop n v p : not_hex p -> more_hex n v p = (v, p).
Proof. intros Hp. destruct p as [|c p]; [by destruct n|]. induction n as [|n IH]; [done|]. cbn in *. by rewrite Hp. Qed.

Lemma more_hex_digit n v d p :
  0 <= d < 16 -> 0 <= v < 2 ^ 12 -> more_hex (S n) v (digit d :: p) = more_hex n (v * 16 + d) p.
Proof.
  intros Hd Hv. destruct (digit_hex d Hd) as [H1 H2]. cbn. rewrite H1, H2. f_equal.
  unfold u16. apply Z.mod_small. lia.
Qed.

Lemma parse_escape_hex d p : 0 <= d < 16 -> parse_escape (120 :: digit d :: p) = Some (more_hex 3 d p).
Proof. intros Hd. destruct (digit_hex d Hd) as [H1 H2]. cbn. by rewrite H1, H2. Qed.

Lemma parse_fmt_04x c T : 0 <= c < 2 ^ 16 -> parse_escape (120 :: fmt_04x c ++ T) = Some (c, T).
Proof.
  intros Hc. destruct (hex_digits c Hc) as (a & b & d & e & -> & Ha & Hb & Hd & He & E).
  cbn [app]. rewrite parse_escape_hex, !more_hex_digit by lia. cbn [more_hex]. by rewrite E.
Qed.

Lemma digit_zero d : 0 <= d < 16 -> (digit d =? 48) = (d =? 0).
Proof. intros Hd. unfold digit. zbools. Qed.

Lemma parse_fmt_x c T : 127 < c < 2 ^ 16 -> not_hex T -> parse_escape (120 :: fmt_x c ++ T) = Some (c, T).
Proof.
  intros Hc HT. destruct (hex_digits c) as (a & b & d & e & Hf & Ha & Hb & Hd & He & E); [lia|].
  unfold fmt_x. rewrite Hf. cbn [strip_zeros]. rewrite !digit_zero by done.
  destruct (Z.eqb_spec a 0) as [->|]; [destruct (Z.eqb_spec b 0) as [->|]; [destruct (Z.eqb_spec d 0)|]|];
    cbn [app]; try lia; rewrite parse_escape_hex, !more_hex_digit by lia;
    rewrite more_hex_stop by done; by rewrite E.
Qed.

Definition not_octal (p : list Z) : Prop := isodigit (deref p) = false.

Lemma more_octal_stop n v p : not_octal p -> more_octal n v p = (v, p).
Proof. intros Hp. destruct p as [|c p]; [by destruct n|]. induction n as [|n IH]; [done|]. cbn in *. by rewrite Hp. Qed.

Lemma more_octal_digit n v d p :
  0 <= d < 8 -> 0 <= v < 2 ^ 12 -> more_octal (S n) v (digit d :: p) = more_octal n (v * 8 + d) p.
Proof.
  intros Hd Hv. destruct (digit_octal d Hd) as [-> H]. cbn [more_octal]. rewrite H. f_equal.
  unfold u16. rewrite Z.mod_small; lia.
Qed.

Lemma parse_escape_octal d p : 0 <= d < 8 -> parse_escape (digit d :: p) = Some (more_octal 2 d p).
Proof.
  intros Hd. destruct (digit_octal d Hd) as [-> H]. unfold parse_escape. rewrite H.
  unfold escape_char. zbools. do 2 f_equal. lia.
Qed.

Lemma octal_digits c : 0 <= c < 32 ->
  exists a b, fmt_03o c = [digit 0; digit a; digit b] /\ 0 <= a < 8 /\ 0 <= b < 8 /\ c = a * 8 + b.
Proof.
  intros Hc. exists (c / 8), (c mod 8). unfold fmt_03o. change 7 with (Z.ones 3).
  rewrite !Z.land_ones, !Z.shiftr_div_pow2 by lia. change (2 ^ 3) with 8. change (2 ^ 6) with 64.
  replace (c / 64 mod 8) with 0 by (Z.to_euclidean_division_equations; lia).
  replace (c / 8 mod 8) with (c / 8) by (Z.to_euclidean_division_equations; lia).
  split; [done|]. split_and!; Z.to_euclidean_division_equations; lia.
Qed.

Lemma parse_fmt_03o c T : 0 <= c < 32 -> parse_escape (fmt_03o c ++ T) = Some (c, T).
Proof.
  intros Hc. destruct (octal_digits c Hc) as (a & b & -> & Ha & Hb & E). cbn [app].
  rewrite parse_escape_octal, !more_octal_digit by lia. cbn [more_octal]. by rewrite E.
Qed.

Lemma parse_fmt_o c T : 0 <= c < 32 -> not_octal T -> parse_escape (fmt_o c ++ T) = Some (c, T).
Proof.
  intros Hc HT. destruct (octal_digits c Hc) as (a & b & Hf & Ha & Hb & E).
  unfold fmt_o. rewrite Hf. cbn [strip_zeros]. rewrite !digit_zero by lia. cbn [Z.eqb].
  destruct (Z.eqb_spec a 0) as [->|]; cbn [app]; rewrite parse_escape_octal, ?more_octal_digit by lia;
    rewrite more_octal_stop by done; by rewrite E.
Qed.

Lemma parse_letter c T : escapes c <> 46 -> parse_escape (escapes c :: T) = Some (c, T).
Proof. unfold escapes. repeat (case_match; [by match goal with H : (c =? _) = true |- _ => apply Z.eqb_eq in H; subst end|]). done. Qed.

(** A delimiter that is printed with a backslash and is not itself an escape. *)
Definition safe_escape (c : Z) : Prop :=
  32 <= c < 128 /\ isxdigit c = false /\ c <> 92 /\ c <> 110 /\ c <> 114 /\ c <> 116 /\ c <> 118 /\ c <> 120.

Lemma parse_escape_plain c T : c = 92 \/ safe_escape c -> parse_escape (c :: T) = None.
Proof.
  intros H. unfold parse_escape, escape_char, isodigit, safe_escape, isxdigit, isdigit in *.
  destruct H as [->|(? & Hx & ?)]; [done|]. revert Hx. zbools.
Qed.

Section roundtrip.
Context (escape : Z * Z) (endchar : Z) (rest : list Z).
Context (Hs1 : safe_escape (fst escape)) (Hs2 : safe_escape (snd escape)).
Context (Hend : endchar = fst escape \/ endchar = snd escape).

Lemma endchar_safe : safe_escape endchar.
Proof using Hs1 Hs2 Hend. by destruct Hend as [->| ->]. Qed.

Definition quoted (c : Z) : bool := (c =? 92) || (c =? fst escape) || (c =? snd escape).

(** What follows a character in the text. *)
Definition text (str : list Z) : list Z := dump_chars escape str ++ endchar :: rest.

Lemma text_head n next :
  0 <= n -> deref (text (n :: next)) = if (127 <? n) || (n <? 32) || quoted n then 92 else n.
Proof using.
  intros Hn. unfold text. cbn [dump_chars dump_char]. fold (quoted n).
  destruct (127 <? n); [by repeat case_match|]. destruct (n <? 32); [by repeat case_match|].
  by destruct (quoted n).
Qed.

Lemma text_not_hex next :
  Forall (fun c => 0 <= c) next ->
  match next with n :: _ => (n <? 128) && isxdigit n | [] => false end = false -> not_hex (text next).
Proof using Hs1 Hs2 Hend.
  unfold not_hex. destruct next as [|n next]; intros Hn H; [apply endchar_safe|].
  apply list.Forall_cons in Hn as [Hn _]. rewrite text_head by done.
  destruct ((127 <? n) || (n <? 32) || quoted n) eqn:E; [done|]. revert H E. zbools.
Qed.

Lemma text_not_octal next :
  Forall (fun c => 0 <= c) next ->
  match next with n :: _ => isodigit n | [] => false end = false -> not_octal (text next).
Proof using Hs1 Hs2 Hend.
  unfold not_octal. destruct next as [|n next]; intros Hn H.
  - destruct endchar_safe as (_ & H1 & _). cbn. revert H1. unfold isodigit, isxdigit, isdigit. zbools.
  - apply list.Forall_cons in Hn as [Hn _]. rewrite text_head by done. by destruct (_ || _ || _).
Qed.

(** One character read by the loop. *)
Lemma parse_loop_escape fuel room p d q :
  parse_escape p = Some (d, q) -> deref p <> 0 ->
  parse_loop (S fuel) endchar (S room) (92 :: p) =
    match parse_loop fuel endchar room q with Some (out, r) => Some (d :: out, r) | None => None end.
Proof using Hs1 Hs2 Hend.
  intros Hp Hd. destruct endchar_safe as (_ & _ & He & _). cbn [parse_loop deref tail].
  destruct (Z.eqb_spec 92 endchar); [congruence|]. cbn [orb Z.eqb Pos.eqb Nat.eqb].
  destruct (Z.eqb_spec (deref p) 0); [done|]. rewrite Hp. cbn [length]. by replace (S room - 1)%nat with room by lia.
Qed.

Lemma parse_loop_quoted fuel room c q :
  parse_escape (c :: q) = None -> 0 < c < 128 ->
  parse_loop (S fuel) endchar (S room) (92 :: c :: q) =
    match parse_loop fuel endchar room q with Some (out, r) => Some (c :: out, r) | None => None end.
Proof using Hs1 Hs2 Hend.
  intros Hp Hc. destruct endchar_safe as (_ & _ & He & _). cbn [parse_loop deref tail].
  destruct (Z.eqb_spec 92 endchar); [congruence|]. cbn [orb Z.eqb Pos.eqb Nat.eqb].
  destruct (Z.eqb_spec c 0); [lia|]. rewrite Hp. unfold parse_plain. cbn [deref tail].
  destruct (Z.ltb_spec c 128); [|lia]. cbn [length]. by replace (S room - 1)%nat with room by lia.
Qed.

Lemma parse_loop_plain fuel room c q :
  c <> 92 -> c <> endchar -> 0 < c < 128 ->
  parse_loop (S fuel) endchar (S room) (c :: q) =
    match parse_loop fuel endchar room q with Some (out, r) => Some (c :: out, r) | None => None end.
Proof using.
  intros H1 H2 Hc. cbn [parse_loop deref tail].
  destruct (Z.eqb_spec c 0); [lia|]. destruct (Z.eqb_spec c endchar); [done|]. cbn [orb Nat.eqb].
  destruct (Z.eqb_spec c 92); [done|]. unfold parse_plain. cbn [deref tail].
  destruct (Z.ltb_spec c 128); [|lia]. cbn [length]. by replace (S room - 1)%nat with room by lia.
Qed.

Lemma parse_loop_char fuel room c next :
  0 <= c < 2 ^ 16 -> Forall (fun c => 0 <= c) next ->
  parse_loop (S fuel) endchar (S room) (text (c :: next)) =
    match parse_loop fuel endchar room (text next) with
    | Some (out, r) => Some (c :: out, r) | None => None end.
Proof using Hs1 Hs2 Hend.
  intros Hc Hn. pose proof (text_not_hex next Hn) as Hhex. pose proof (text_not_octal next Hn) as Hoct.
  unfold text at 1. cbn [dump_chars]. rewrite <-app_assoc. fold (text next). unfold dump_char.
  destruct (Z.ltb_spec 127 c) as [Hhi|Hhi]; [|destruct (Z.ltb_spec c 32) as [Hlo|Hlo]].
  - destruct next as [|n next]; [|destruct ((n <? 128) && isxdigit n)];
      cbn [app]; apply parse_loop_escape; try done;
      first [apply parse_fmt_04x|apply parse_fmt_x]; auto; lia.
  - destruct (Z.eqb_spec (escapes c) 46) as [E|E]; cbn [negb].
    + destruct next as [|n next]; [|destruct (isodigit n)]; cbn [app]; apply parse_loop_escape;
        try (first [apply parse_fmt_03o|apply parse_fmt_o]; auto; lia).
      all: destruct (octal_digits c ltac:(lia)) as (a & b & Hf & ? & ? & ?); unfold fmt_o; rewrite Hf;
        cbn [strip_zeros app deref]; repeat case_match; cbn [app deref]; unfold digit; zbools.
    + cbn [app]. apply parse_loop_escape; [by apply parse_letter|]. cbn. unfold escapes. zbools.
  - fold (quoted c). destruct (quoted c) eqn:Q; cbn [app].
    + apply parse_loop_quoted; [|lia]. apply parse_escape_plain. revert Q. unfold quoted. zbools; intros _; subst; auto.
    + revert Q. unfold quoted. zbools; intros _. apply parse_loop_plain; [done| |lia].
      by destruct Hend as [->| ->].
Qed.

Lemma dump_char_cons c next : exists a l, dump_char escape (c :: next) = a :: l.
Proof using. unfold dump_char. repeat case_match; cbn [app]; eauto. Qed.

Lemma parse_loop_text str : forall fuel room,
  Forall (fun c => 0 <= c < 2 ^ 16) str -> (length str < room)%nat -> (length (text str) <= fuel)%nat ->
  parse_loop fuel endchar room (text str) = Some (str, endchar :: rest).
Proof using Hs1 Hs2 Hend.
  induction str as [|c str IH]; intros fuel room Hs Hr Hf.
  - destruct fuel as [|fuel]; [cbn in Hf; lia|]. cbn. rewrite Z.eqb_refl, orb_true_r. done.
  - apply list.Forall_cons in Hs as [Hc Hs]. destruct room as [|room]; [cbn in Hr; lia|].
    assert (Hl : (length (text (c :: str)) >= S (length (text str)))%nat).
    { unfold text. cbn [dump_chars]. destruct (dump_char_cons c str) as (a & l & ->).
      rewrite !length_app. cbn [length]. lia. }
    destruct fuel as [|fuel]; [lia|]. rewrite parse_loop_char; [|done|].
    + rewrite IH; [done|done|cbn in Hr; lia|lia].
    + eapply list.Forall_impl; [exact Hs|]. cbn. lia.
Qed.
End roundtrip.

(** Reading back a printed string. *)
Lemma parse_dumped str escape endchar rest len :
  Forall (fun c => 0 <= c < 2 ^ 16) str ->
  safe_escape (fst escape) -> safe_escape (snd escape) ->
  endchar = fst escape \/ endchar = snd escape ->
  Z.of_nat (length str + 1) * sizeof_WCHAR <= len ->
  parse_strW len (dump_chars escape str ++ endchar :: rest) endchar =
    Some (Z.of_nat (length (dump_chars escape str)) + 1, str ++ [0], Z.of_nat (length str + 1) * sizeof_WCHAR).
Proof.
  intros Hs H1 H2 He Hlen. unfold parse_strW, sizeof_WCHAR in *.
  fold (text escape endchar rest str).
  assert (Hr : (length str < Z.to_nat (len / 2))%nat).
  { assert (Z.of_nat (length str + 1) <= len / 2) by (apply Z.div_le_lower_bound; lia). lia. }
  rewrite parse_loop_text by (done || lia).
  destruct (Nat.leb_spec (Z.to_nat (len / 2)) (length str)); [lia|]. cbn [deref].
  destruct (endchar_safe escape endchar H1 H2 He) as (Hc & _).
  destruct (Z.eqb_spec endchar 0); [lia|]. do 3 f_equal.
  unfold text. rewrite length_app. cbn [length]. lia.
Qed.

(** ** Bounds of parse_strW *)

Lemma more_hex_suffix n : forall v p, snd (more_hex n v p) `suffix_of` p.
Proof.
  induction n as [|n IH]; intros v [|c p]; [done..|]. cbn [more_hex]. destruct (isxdigit c); [|apply IH].
  etrans; [apply IH|by apply suffix_cons_r].
Qed.

Lemma more_octal_suffix n : forall v p, snd (more_octal n v p) `suffix_of` p.
Proof.
  induction n as [|n IH]; intros v [|c p]; [done..|]. cbn [more_octal]. destruct (isodigit c); [|apply IH].
  etrans; [apply IH|by apply suffix_cons_r].
Qed.

Lemma parse_escape_suffix p d q : parse_escape p = Some (d, q) -> q `suffix_of` tail p.
Proof.
  destruct p as [|c p]; [done|]. cbn [parse_escape tail]. destruct (escape_char c); [by intros [= _ <-]|].
  destruct (c =? 120).
  - destruct p as [|h p]; [by intros [= _ <-]|]. destruct (isxdigit h); [|by intros [= _ <-]].
    pose proof (more_hex_suffix 3 (to_hex h) p) as H. destruct (more_hex 3 (to_hex h) p).
    intros [= _ <-]. by apply suffix_cons_r.
  - destruct (isodigit c); [|done]. pose proof (more_octal_suffix 2 (c - 48) p) as H.
    destruct (more_octal 2 (c - 48) p). by intros [= _ <-].
Qed.

Lemma tail_suffix (p : list Z) : tail p `suffix_of` p.
Proof. destruct p; [done|by apply suffix_cons_r]. Qed.

Lemma utf8_sequence_suffix n : forall res p, snd (utf8_sequence n res p) `suffix_of` p.
Proof.
  induction n as [|n IH]; intros res p; [done|]. cbn [utf8_sequence]. unfold utf8_next.
  destruct (64 <=? _); [done|]. etrans; [apply IH|apply tail_suffix].
Qed.

Lemma parse_plain_spec room p :
  (0 < room)%nat ->
  snd (parse_plain room p) `suffix_of` tail p /\ (length (fst (parse_plain room p)) <= room)%nat.
Proof.
  intros Hr. unfold parse_plain. destruct (deref p <? 128); [by split|].
  destruct (utf8_length (deref p) =? 0); [by split; [|cbn; lia]|].
  pose proof (utf8_sequence_suffix (Z.to_nat (utf8_length (deref p)))
    (Z.land (deref p) (utf8_mask (utf8_length (deref p)))) (tail p)) as Hs.
  destruct (utf8_sequence _ _ _) as [[[] res] q]; [|by split; [|cbn; lia]].
  repeat (case_match; [by split; [|cbn; lia]|]).
  destruct (Nat.ltb_spec 1 room); by split; [|cbn; lia].
Qed.

(** The loop ends, within its output, at a position of its input where it had to
    stop. *)
Lemma parse_loop_spec fuel : forall endchar room p,
  (length p < fuel)%nat ->
  exists out q, parse_loop fuel endchar room p = Some (out, q) /\ (length out <= room)%nat /\
    q `suffix_of` p /\ (deref q = 0 \/ deref q = endchar \/ length out = room).
Proof.
  induction fuel as [|fuel IH]; intros endchar room p Hf; [lia|]. cbn [parse_loop].
  assert (Hcont : forall r p', p' `suffix_of` p -> (length p' < length p)%nat -> snd r `suffix_of` p' ->
    (length (fst r) <= room)%nat ->
    exists out q, (let '(out, p) := r in
      match parse_loop fuel endchar (room - length out) p with
      | Some (rest, p) => Some (out ++ rest, p) | None => None end) = Some (out, q) /\
      (length out <= room)%nat /\ q `suffix_of` p /\ (deref q = 0 \/ deref q = endchar \/ length out = room)).
  { intros [out p2] p' Hs Hl Hs2 Ho. cbn [fst snd] in *. pose proof (suffix_length _ _ Hs2).
    destruct (IH endchar (room - length out)%nat p2 ltac:(lia)) as (o & q & -> & H1 & H2 & H3).
    exists (out ++ o), q. rewrite length_app. split; [done|]. split; [lia|].
    split; [by etrans; [|etrans]|]. destruct H3 as [?|[?|?]]; auto. right; right. lia. }
  destruct (Z.eqb_spec (deref p) 0); [by exists [], p; split; [|split; [cbn; lia|auto]]|].
  destruct (Z.eqb_spec (deref p) endchar); [by exists [], p; split; [|split; [cbn; lia|auto]]|].
  destruct (Nat.eqb_spec room 0); [by exists [], p; split; [|split; [cbn; lia|auto]]|]. cbn [orb].
  pose proof (tail_suffix p) as Ht.
  assert (Hlt : (length (tail p) < length p)%nat) by (destruct p; [done|cbn; lia]).
  destruct (deref p =? 92); [|by apply (Hcont _ (tail p)); [..|apply parse_plain_spec; lia|apply parse_plain_spec; lia]].
  destruct (Z.eqb_spec (deref (tail p)) 0); [by exists [], (tail p); split; [|split; [cbn; lia|auto]]|].
  pose proof (tail_suffix (tail p)) as Ht2. pose proof (suffix_length _ _ Ht2).
  destruct (parse_escape (tail p)) as [[d q]|] eqn:Hp.
  - apply (Hcont ([d], q) (tail (tail p))); [by etrans|lia|by eapply parse_escape_suffix|cbn; lia].
  - apply (Hcont _ (tail (tail p))); [by etrans|lia|apply parse_plain_spec; lia..].
Qed.

(** parse_strW terminates on every input, never stores more WCHARs than the
    buffer holds, and when it succeeds has read at most the input, the last
    character read being the delimiter. *)
Lemma parse_strW_bounds len src endchar :
  exists r buffer len', parse_strW len src endchar = Some (r, buffer, len') /\
    Z.of_nat (length buffer) <= Z.max 0 (len / sizeof_WCHAR) /\
    (r = -1 \/
     (1 <= r <= Z.of_nat (length src) /\ src !! Z.to_nat (r - 1) = Some endchar /\
      len' = Z.of_nat (length buffer) * sizeof_WCHAR)).
Proof.
  unfold parse_strW. set (room := Z.to_nat (len / sizeof_WCHAR)).
  destruct (parse_loop_spec (S (length src)) endchar room src ltac:(lia)) as (out & q & -> & Ho & [pre ->] & Hq).
  destruct (Nat.leb_spec room (length out)).
  { eexists _, _, _. split; [done|]. split; [lia|by left]. }
  destruct (Z.eqb_spec (deref q) 0); (eexists _, _, _; split; [done|]; rewrite !length_app; cbn [length]).
  - split; [lia|by left].
  - split; [lia|]. right. destruct Hq as [?|[Hq|?]]; [done| |lia]. destruct q as [|c q]; [done|].
    cbn in Hq. subst c. replace (length pre + length (endchar :: q) - length (endchar :: q))%nat
      with (length pre) by lia. cbn [length].
    split; [lia|]. replace (Z.to_nat (Z.of_nat (length pre) + 1 - 1)) with (length pre) by lia.
    split; [by apply list_lookup_middle|lia].
Qed.

(** parse_strW terminates on every input, never stores more WCHARs than the
    buffer holds, and when it succeeds has read at most the input, the last
    character read being the delimiter.  dump_strW writes every character once and
    in order, returns the number of bytes written, and never fills its 256-byte
    buffer: whatever was printed before, at most 254 bytes are pending and one more
    character (6 bytes and the terminator of sprintf) still fits after the flush
    test. *)
Theorem string_buffers_safe len src endchar str escape :
  (exists r buffer len', parse_strW len src endchar = Some (r, buffer, len') /\
    Z.of_nat (length buffer) <= Z.max 0 (len / sizeof_WCHAR) /\
    (r = -1 \/
     (1 <= r <= Z.of_nat (length src) /\ src !! Z.to_nat (r - 1) = Some endchar /\
      len' = Z.of_nat (length buffer) * sizeof_WCHAR))) /\
  dump_strW str escape = (dump_chars escape str, Z.of_nat (length (dump_chars escape str))) /\
  (let '(buffer, _, _) := dump_loop escape str [] [] 0 in Z.of_nat (length buffer) + 1 < sizeof_buffer) /\
  forall c, Z.of_nat (length (dump_char escape c)) + 1 < 8.
Proof. split; [apply parse_strW_bounds|apply dump_strW_bounds]. Qed.

(** ** UTF-8 *)

(** The encodings of a code point (RFC 3629, RFC 2781). *)
Definition utf8_encode (cp : Z) : list Z :=
  if cp <? 0x80 then [cp]
  else if cp <? 0x800 then [0xc0 + cp / 64; 0x80 + cp mod 64]
  else if cp <? 0x10000 then [0xe0 + cp / 4096; 0x80 + cp / 64 mod 64; 0x80 + cp mod 64]
  else [0xf0 + cp / 262144; 0x80 + cp / 4096 mod 64; 0x80 + cp / 64 mod 64; 0x80 + cp mod 64].

Definition utf16_encode (cp : Z) : list Z :=
  if cp <? 0x10000 then [cp]
  else [0xd800 + (cp - 0x10000) / 1024; 0xdc00 + (cp - 0x10000) mod 1024].

Lemma continuation_byte m : 0 <= m < 64 -> Z.lxor (0x80 + m) 0x80 = m.
Proof.
  intros Hm. assert (H : forallb (fun m => Z.lxor (0x80 + m) 0x80 =? m) (seqZ 0 64) = true) by (by vm_compute).
  rewrite forallb_forall in H. apply Z.eqb_eq, H, list_elem_of_In, elem_of_seqZ. lia.
Qed.

Lemma utf8_next_byte res m T : 0 <= m < 64 -> utf8_next res (0x80 + m :: T) = Some (res * 64 + m, T).
Proof.
  intros Hm. unfold utf8_next. cbn [deref tail]. rewrite continuation_byte by done.
  destruct (Z.leb_spec 64 m); [lia|]. by rewrite (lor_shiftl res 6 m) by lia.
Qed.

Lemma utf8_sequence_bytes ms : forall res T,
  Forall (fun m => 0 <= m < 64) ms ->
  utf8_sequence (length ms) res (((fun m => 0x80 + m) <$> ms) ++ T) =
    (true, fold_left (fun r m => r * 64 + m) ms res, T).
Proof.
  induction ms as [|m ms IH]; intros res T H; [done|]. apply list.Forall_cons in H as [Hm H].
  cbn [fmap list_fmap app length utf8_sequence fold_left]. rewrite utf8_next_byte by done. by apply IH.
Qed.

(** A lead byte and its continuation bytes. *)
Lemma parse_plain_sequence room lead ms T res :
  let n := Z.of_nat (length ms) in
  Forall (fun m => 0 <= m < 64) ms -> 0x80 <= lead -> utf8_length lead = n -> 0 < n ->
  fold_left (fun r m => r * 64 + m) ms (Z.land lead (utf8_mask n)) = res ->
  utf8_minval n <= res <= 0x10ffff -> (1 < room)%nat ->
  parse_plain room (lead :: ((fun m => 0x80 + m) <$> ms) ++ T) = (utf16_encode res, T).
Proof.
  intros n Hms Hlead Hlen Hn Hres Hr Hroom. unfold parse_plain. cbn [deref tail].
  destruct (Z.ltb_spec lead 128); [lia|]. rewrite Hlen. destruct (Z.eqb_spec n 0); [lia|].
  unfold n at 1. rewrite Nat2Z.id, utf8_sequence_bytes by done. rewrite Hres.
  destruct (Z.ltb_spec res (utf8_minval n)); [lia|]. destruct (Z.ltb_spec 1114111 res); [lia|].
  unfold utf16_encode. destruct (Z.leb_spec res 65535), (Z.ltb_spec res 65536); [done|lia|lia|].
  destruct (Nat.ltb_spec 1 room); [|lia].
  rewrite Z.shiftr_div_pow2 by lia. change 0x3ff with (Z.ones 10). rewrite Z.land_ones by lia.
  change (2 ^ 10) with 1024. change 0xd800 with (Z.shiftl 54 10) at 1. change 0xdc00 with (Z.shiftl 55 10) at 1.
  rewrite (lor_shiftl 54 10 ((res - 65536) / 1024)) by (Z.to_euclidean_division_equations; lia).
  rewrite (lor_shiftl 55 10 ((res - 65536) mod 1024)) by (Z.to_euclidean_division_equations; lia). done.
Qed.

(** The side conditions of a sequence: bounds of quotients and remainders. *)
Ltac utf8_bounds :=
  first
    [ by repeat (apply list.Forall_cons_2; [Z.to_euclidean_division_equations; lia|]); apply list.Forall_nil_2
    | unfold utf8_length; zbools; Z.to_euclidean_division_equations; lia
    | first [change (utf8_mask _) with (Z.ones 5)|change (utf8_mask _) with (Z.ones 4)
            |change (utf8_mask _) with (Z.ones 3)];
      rewrite Z.land_ones by lia; cbn [fold_left]; Z.to_euclidean_division_equations; lia
    | first [change (utf8_minval _) with 0x80|change (utf8_minval _) with 0x800
            |change (utf8_minval _) with 0x10000]; lia
    | Z.to_euclidean_division_equations; lia ].

Lemma parse_plain_utf8 room cp T :
  0 <= cp <= 0x10ffff -> (1 < room)%nat -> parse_plain room (utf8_encode cp ++ T) = (utf16_encode cp, T).
Proof.
  intros Hcp Hroom. unfold utf8_encode.
  destruct (Z.ltb_spec cp 128); [|destruct (Z.ltb_spec cp 2048); [|destruct (Z.ltb_spec cp 65536)]].
  - unfold parse_plain, utf16_encode. cbn [app deref tail].
    destruct (Z.ltb_spec cp 128); [|lia]. destruct (Z.ltb_spec cp 65536); [done|lia].
  - apply (parse_plain_sequence room (0xc0 + cp / 64) [cp mod 64]); try done; utf8_bounds.
  - apply (parse_plain_sequence room (0xe0 + cp / 4096) [cp / 64 mod 64; cp mod 64]); try done; utf8_bounds.
  - apply (parse_plain_sequence room (0xf0 + cp / 262144) [cp / 4096 mod 64; cp / 64 mod 64; cp mod 64]); try done; utf8_bounds.
Qed.

(** The loop over text in UTF-8 without escapes. *)
Lemma parse_loop_utf8 endchar rest cps : forall fuel room,
  Forall (fun cp => 0 < cp <= 0x10ffff /\ cp <> endchar /\ cp <> 92) cps -> 0 < endchar < 128 ->
  (length (flat_map utf16_encode cps) < room)%nat ->
  (length (flat_map utf8_encode cps ++ endchar :: rest) <= fuel)%nat ->
  parse_loop fuel endchar room (flat_map utf8_encode cps ++ endchar :: rest) =
    Some (flat_map utf16_encode cps, endchar :: rest).
Proof.
  induction cps as [|cp cps IH]; intros fuel room Hcps He Hroom Hf.
  - destruct fuel; [cbn in Hf; lia|]. cbn. by rewrite Z.eqb_refl, orb_true_r.
  - apply list.Forall_cons in Hcps as [(Hcp & Hne & H92) Hcps].
    assert (Hd : exists b l, utf8_encode cp = b :: l /\ b <> 0 /\ b <> endchar /\ b <> 92).
    { unfold utf8_encode. repeat case_match; eexists _, _; (split; [done|]);
        split_and!; try lia; Z.to_euclidean_division_equations; lia. }
    destruct Hd as (b & l & Hb & H0 & H1 & H2).
    cbn [flat_map] in *. rewrite <-app_assoc in *.
    rewrite length_app in Hf, Hroom. rewrite Hb in Hf. cbn [length] in Hf.
    destruct fuel as [|fuel]; [lia|]. cbn [parse_loop].
    replace (deref (utf8_encode cp ++ _)) with b by (by rewrite Hb).
    destruct (Z.eqb_spec b 0); [done|]. destruct (Z.eqb_spec b endchar); [done|].
    destruct (Nat.eqb_spec room 0); [lia|]. destruct (Z.eqb_spec b 92); [done|]. cbn [orb].
    assert (Hl : (1 <= length (utf16_encode cp))%nat) by (unfold utf16_encode; case_match; cbn; lia).
    rewrite parse_plain_utf8 by lia. by rewrite IH by (done || lia).
Qed.

(** Text in UTF-8 without backslashes is stored as UTF-16. *)
Lemma parse_encoded cps endchar rest len :
  Forall (fun cp => 0 < cp <= 0x10ffff /\ cp <> endchar /\ cp <> 92) cps -> 0 < endchar < 128 ->
  Z.of_nat (length (flat_map utf16_encode cps) + 1) * sizeof_WCHAR <= len ->
  parse_strW len (flat_map utf8_encode cps ++ endchar :: rest) endchar =
    Some (Z.of_nat (length (flat_map utf8_encode cps)) + 1, flat_map utf16_encode cps ++ [0],
          Z.of_nat (length (flat_map utf16_encode cps) + 1) * sizeof_WCHAR).
Proof.
  intros Hcps He Hlen. unfold parse_strW, sizeof_WCHAR in *.
  set (n := length (flat_map utf16_encode cps)) in *.
  assert (Hr : (n < Z.to_nat (len / 2))%nat).
  { assert (Z.of_nat (n + 1) <= len / 2) by (apply Z.div_le_lower_bound; lia). lia. }
  rewrite parse_loop_utf8 by (done || lia). fold n.
  destruct (Nat.leb_spec (Z.to_nat (len / 2)) n); [lia|]. cbn [deref].
  destruct (Z.eqb_spec endchar 0); [lia|]. do 4 f_equal. rewrite length_app. cbn [length]. lia.
Qed.

(** C6: what is printed is read back: parse_strW applied to the output of dump_strW
    and the closing delimiter stores the same WCHARs and a terminator, and consumes
    exactly the text, for every string that fits the buffer and every delimiter
    that is printed with a backslash.  For every sequence of code points without
    backslashes, supplementary ones included, parse_strW reads their RFC 3629
    encoding up to the delimiter and stores their UTF-16 encoding. *)
Theorem dump_parse_roundtrip str cps escape endchar rest len :
  Forall (fun c => 0 <= c < 2 ^ 16) str ->
  safe_escape (fst escape) -> safe_escape (snd escape) ->
  endchar = fst escape \/ endchar = snd escape ->
  (Z.of_nat (length str + 1) * sizeof_WCHAR <= len ->
   let '(bytes, count) := dump_strW str escape in
   parse_strW len (bytes ++ endchar :: rest) endchar =
     Some (count + 1, str ++ [0], Z.of_nat (length str + 1) * sizeof_WCHAR)) /\
  (Forall (fun cp => 0 < cp <= 0x10ffff /\ cp <> endchar /\ cp <> 92) cps -> 0 < endchar < 128 ->
   Z.of_nat (length (flat_map utf16_encode cps) + 1) * sizeof_WCHAR <= len ->
   parse_strW len (flat_map utf8_encode cps ++ endchar :: rest) endchar =
     Some (Z.of_nat (length (flat_map utf8_encode cps)) + 1, flat_map utf16_encode cps ++ [0],
           Z.of_nat (length (flat_map utf16_encode cps) + 1) * sizeof_WCHAR)).
Proof. intros Hs H1 H2 He. split; [intros Hlen; rewrite dump_strW_chars; by apply parse_dumped|apply parse_encoded]. Qed.

Lemma dump_parse_roundtrip_witness :
  parse_strW 64 [92; 120; 50; 48; 97; 99; 92; 48; 48; 49; 49; 92; 34; 92; 110; 34; 61] 34 =
    Some (16, [0x20ac; 1; 49; 34; 10] ++ [0], 12) /\
  fst (dump_strW [0x20ac; 1; 49; 34; 10] (34, 34)) =
    [92; 120; 50; 48; 97; 99; 92; 48; 48; 49; 49; 92; 34; 92; 110] /\
  parse_strW 64 ([0xe2; 0x82; 0xac; 0xf0; 0x9f; 0x98; 0x80] ++ [34; 61]) 34 = Some (8, [0x20ac; 0xd83d; 0xde00] ++ [0], 8).
Proof.
  destruct (dump_parse_roundtrip [0x20ac; 1; 49; 34; 10] [0x20ac; 0x1f600] (34, 34) 34 [61] 64) as [H1 H2].
  - repeat constructor; lia.
  - unfold safe_escape; cbn; lia.
  - unfold safe_escape; cbn; lia.
  - left; reflexivity.
  - split; [apply H1; vm_compute; discriminate|]. split; [reflexivity|].
    apply H2; [repeat constructor; lia|lia|vm_compute; discriminate].
Defined.
