(* ===== verification/Atoms.v ===== *)
(** * Atom tables: server/atom.c

    An atom table maps names, compared without case, to 16-bit atoms.  Its
    entries hang off the array [handles], indexed by atom, and off doubly linked
    hash chains.  A C pointer to an entry is its index in [handles], which never
    changes while the entry exists. *)

From Stdlib Require Import ZArith Lia.
From stdpp Require Import base list numbers option.
From S2P Require Import Prelude Unicode.

#[local] Open Scope Z_scope.
#[local] Open Scope server_scope.

Definition HASH_SIZE : Z := 37.

Definition MIN_HASH_SIZE : Z := 4.

Definition MAX_HASH_SIZE : Z := 0x200.

Definition MAX_ATOM_LEN : Z := 255 * sizeof_WCHAR.

Definition MIN_STR_ATOM : Z := 0xc000.

Definition MAX_ATOMS : Z := 0x4000.

Definition STATUS_INVALID_HANDLE : Z := 0xC0000008.

Definition STATUS_INVALID_PARAMETER : Z := 0xC000000D.

Definition STATUS_OBJECT_NAME_INVALID : Z := 0xC0000033.

Definition STATUS_OBJECT_NAME_NOT_FOUND : Z := 0xC0000034.

Definition STATUS_WAS_LOCKED : Z := 0x40000019.

(** struct atom_entry; [len] is twice the length of [str]. *)
Record atom_entry := mk_entry {
  next : option nat;
  prev : option nat;
  count : Z;
  pinned : bool;
  atom : Z;
  hash : Z;
  str : list Z
}.

Definition len (s : list Z) : Z := Z.of_nat (length s) * sizeof_WCHAR.

(** struct atom_table: [handles] holds the slots up to [last], [t_count] is the
    number of slots allocated, [entries_count] the length of [entries]. *)
Record atom_table := mk_table {
  t_count : Z;
  handles : list (option atom_entry);
  entries : list (option nat)
}.

Definition last (table : atom_table) : Z := Z.of_nat (length (handles table)) - 1.

Definition entries_count (table : atom_table) : Z := Z.of_nat (length (entries table)).

(** The entry a pointer designates. *)
Definition entry_at (hs : list (option atom_entry)) (i : nat) : option atom_entry := mjoin (hs !! i).

Definition set_next (n : option nat) (e : atom_entry) : atom_entry :=
  mk_entry n (prev e) (count e) (pinned e) (atom e) (hash e) (str e).

Definition set_prev (p : option nat) (e : atom_entry) : atom_entry :=
  mk_entry (next e) p (count e) (pinned e) (atom e) (hash e) (str e).

Definition set_count (c : Z) (e : atom_entry) : atom_entry :=
  mk_entry (next e) (prev e) c (pinned e) (atom e) (hash e) (str e).

(** [if (p) p->field = v]. *)
Definition update (p : option nat) (f : atom_entry -> atom_entry) (hs : list (option atom_entry)) :
    list (option atom_entry) :=
  match p with
  | None => hs
  | Some i => alter (fmap f) i hs
  end.

(** The table object, then its arrays; what was allocated is released on failure. *)
Definition create_table (entries_count : Z) : M (option atom_table) :=
  let* ok := mem_alloc in
  if negb ok then ret None
  else
    let entries_count :=
      if (entries_count <? MIN_HASH_SIZE) || (MAX_HASH_SIZE <? entries_count) then HASH_SIZE
      else entries_count in
    let* ok := malloc in
    if negb ok then set_error STATUS_NO_MEMORY ;;; ret None
    else
      let* ok := mem_alloc in
      if negb ok then ret None
      else ret (Some (mk_table 64 [] (replicate (Z.to_nat entries_count) None))).

Definition get_atom_entry (table : atom_table) (atom : Z) : M (option nat) :=
  let i := Z.to_nat (atom - MIN_STR_ATOM) in
  if (MIN_STR_ATOM <=? atom) && (atom <=? MIN_STR_ATOM + last table) then
    match entry_at (handles table) i with
    | Some _ => ret (Some i)
    | None => set_error STATUS_INVALID_HANDLE ;;; ret None
    end
  else set_error STATUS_INVALID_HANDLE ;;; ret None.

(** The first empty slot, or the length of the array. *)
Fixpoint find_free_slot (hs : list (option atom_entry)) : nat :=
  match hs with
  | [] => O
  | None :: _ => O
  | Some _ :: hs => S (find_free_slot hs)
  end.

(** Store [entry], whose other fields the caller fills in, and return its atom. *)
Definition add_atom_entry (table : atom_table) (entry : Z -> atom_entry) : M (Z * atom_table) :=
  let i := find_free_slot (handles table) in
  let atom := Z.of_nat i + MIN_STR_ATOM in
  if (i <? length (handles table))%nat then
    ret (atom, mk_table (t_count table) (<[i := Some (entry atom)]> (handles table)) (entries table))
  else if Z.of_nat i =? t_count table then
    let new_size := Z.min (t_count table + t_count table / 2) MAX_ATOMS in
    let* ok := if t_count table <? new_size then malloc else ret false in
    if negb ok then set_error STATUS_NO_MEMORY ;;; ret (0, table)
    else ret (atom, mk_table new_size (handles table ++ [Some (entry atom)]) (entries table))
  else ret (atom, mk_table (t_count table) (handles table ++ [Some (entry atom)]) (entries table)).

Section casemap.
Variable casemap : Z -> Z.

(** The loop of find_atom_entry from entry [cur].  A chain visits no entry twice,
    so the number of slots is enough fuel. *)
Fixpoint find_in_chain (fuel : nat) (hs : list (option atom_entry)) (s : list Z) (cur : option nat) :
    option nat :=
  match fuel, cur with
  | S fuel, Some i =>
      match entry_at hs i with
      | None => None
      | Some e =>
          if (len (str e) =? len s) && (memicmp_strW casemap (str e) s (length s) =? 0) then Some i
          else find_in_chain fuel hs s (next e)
      end
  | _, _ => None
  end.

Definition find_atom_entry (table : atom_table) (s : list Z) (hash : Z) : option nat :=
  find_in_chain (length (handles table)) (handles table) s (mjoin (entries table !! Z.to_nat hash)).

Definition add_atom (table : atom_table) (s : list Z) : M (Z * atom_table) :=
  let hash := u16 (hash_strW casemap s (entries_count table)) in
  if len s =? 0 then set_error STATUS_OBJECT_NAME_INVALID ;;; ret (0, table)
  else if MAX_ATOM_LEN <? len s then set_error STATUS_INVALID_PARAMETER ;;; ret (0, table)
  else
    match find_atom_entry table s hash with
    | Some i =>
        match entry_at (handles table) i with
        | Some e =>
            ret (atom e, mk_table (t_count table)
                           (update (Some i) (set_count (i32 (count e + 1))) (handles table))
                           (entries table))
        | None => ret (0, table)
        end
    | None =>
        let* ok := mem_alloc in
        if negb ok then set_error STATUS_NO_MEMORY ;;; ret (0, table)
        else
          let head := mjoin (entries table !! Z.to_nat hash) in
          let* (atom, table) :=
            add_atom_entry table (fun atom => mk_entry head None 1 false atom hash s) in
          if atom =? 0 then ret (0, table)
          else
            let i := Z.to_nat (atom - MIN_STR_ATOM) in
            ret (atom, mk_table (t_count table)
                         (update head (set_prev (Some i)) (handles table))
                         (<[Z.to_nat hash := Some i]> (entries table)))
    end.

Definition delete_atom (table : atom_table) (atom : Z) (if_pinned : bool) : M atom_table :=
  let* entry := get_atom_entry table atom in
  match entry with
  | None => ret table
  | Some i =>
      match entry_at (handles table) i with
      | None => ret table
      | Some e =>
          if pinned e && negb if_pinned then set_error STATUS_WAS_LOCKED ;;; ret table
          else
            let c := i32 (count e - 1) in
            if negb (c =? 0) then
              ret (mk_table (t_count table) (update (Some i) (set_count c) (handles table))
                            (entries table))
            else
              let hs := update (next e) (set_prev (prev e)) (handles table) in
              let hs := update (prev e) (set_next (next e)) hs in
              let es := match prev e with
                        | Some _ => entries table
                        | None => <[Z.to_nat (hash e) := next e]> (entries table)
                        end in
              ret (mk_table (t_count table) (<[i := None]> hs) es)
      end
  end.

Definition find_atom (table : option atom_table) (s : list Z) : M Z :=
  if len s =? 0 then set_error STATUS_OBJECT_NAME_INVALID ;;; ret 0
  else if MAX_ATOM_LEN <? len s then set_error STATUS_INVALID_PARAMETER ;;; ret 0
  else
    let found :=
      match table with
      | None => None
      | Some t =>
          match find_atom_entry t s (u16 (hash_strW casemap s (entries_count t))) with
          | None => None
          | Some i => entry_at (handles t) i
          end
      end in
    match found with
    | Some e => ret (atom e)
    | None => set_error STATUS_OBJECT_NAME_NOT_FOUND ;;; ret 0
    end.

(** ** The global tables *)

(** [table] is the content of [winstation->atom_table] or of [global_table].
    The outer [None] is the null dereference of make_object_permanent when the
    server-wide table cannot be created. *)
Definition get_global_table (winstation : bool) (table : option atom_table) (create : bool) :
    M (option (option atom_table)) :=
  match table with
  | Some _ => ret (Some table)
  | None =>
      if create then
        let* table := create_table HASH_SIZE in
        match table with
        | None => ret (if winstation then Some None else None)
        | Some _ => ret (Some table)
        end
      else set_error STATUS_OBJECT_NAME_NOT_FOUND ;;; ret (Some None)
  end.

(** The operations on a table slot return its new content. *)
Definition add_global_atom (winstation : bool) (slot : option atom_table) (s : list Z) :
    M (option (Z * option atom_table)) :=
  let* table := get_global_table winstation slot true in
  match table with
  | None => ret None
  | Some None => ret (Some (0, None))
  | Some (Some t) => let* (atom, t) := add_atom t s in ret (Some (atom, Some t))
  end.

Definition find_global_atom (winstation : bool) (slot : option atom_table) (s : list Z) : M Z :=
  let* table := get_global_table winstation slot false in
  match table with
  | Some (Some t) =>
      if (len s =? 0) || (MAX_ATOM_LEN <? len s) then ret 0
      else
        match find_atom_entry t s (u16 (hash_strW casemap s (entries_count t))) with
        | Some i => ret (match entry_at (handles t) i with Some e => atom e | None => 0 end)
        | None => ret 0
        end
  | _ => ret 0
  end.

Definition grab_global_atom (winstation : bool) (slot : option atom_table) (atom : Z) :
    M (bool * option atom_table) :=
  if MIN_STR_ATOM <=? atom then
    let* table := get_global_table winstation slot false in
    match table with
    | Some (Some t) =>
        let* entry := get_atom_entry t atom in
        match entry with
        | Some i =>
            ret (true, Some (mk_table (t_count t)
              (update (Some i) (fun e => set_count (i32 (count e + 1)) e) (handles t)) (entries t)))
        | None => ret (false, Some t)
        end
    | _ => ret (false, slot)
    end
  else ret (true, slot).

Definition release_global_atom (winstation : bool) (slot : option atom_table) (atom : Z) :
    M (option atom_table) :=
  if MIN_STR_ATOM <=? atom then
    let* table := get_global_table winstation slot false in
    match table with
    | Some (Some t) => let* t := delete_atom t atom true in ret (Some t)
    | _ => ret slot
    end
  else ret slot.

(** ** Request handlers, on the server-wide table *)

Definition req_add_atom (slot : option atom_table) (name : list Z) : M (option (Z * option atom_table)) :=
  let* table := get_global_table false slot true in
  match table with
  | None => ret None
  | Some None => ret (Some (0, None))
  | Some (Some t) => let* (atom, t) := add_atom t name in ret (Some (atom, Some t))
  end.

Definition req_delete_atom (slot : option atom_table) (atom : Z) : M (option atom_table) :=
  let* table := get_global_table false slot false in
  match table with
  | Some (Some t) => let* t := delete_atom t atom false in ret (Some t)
  | _ => ret slot
  end.

Definition req_find_atom (slot : option atom_table) (name : list Z) : M Z :=
  let* table := get_global_table false slot false in
  match table with
  | Some (Some t) => find_atom (Some t) name
  | _ => ret 0
  end.

(** The reply: the name, cut to the reply size and left out when there is no memory
    for it, and count, pinned and total. *)
Definition req_get_atom_information (slot : option atom_table) (atom reply_max_size : Z) :
    M (list Z * Z * bool * Z) :=
  let* table := get_global_table false slot false in
  match table with
  | Some (Some t) =>
      let* entry := get_atom_entry t atom in
      match entry with
      | Some i =>
          match entry_at (handles t) i with
          | Some e =>
              let size := Z.min (len (str e)) reply_max_size in
              let* ok := set_reply_data_size size in
              ret (if ok then take (Z.to_nat (size / sizeof_WCHAR)) (str e) else [],
                   count e, pinned e, len (str e))
          | None => ret ([], -1, false, 0)
          end
      | None => ret ([], -1, false, 0)
      end
  | _ => ret ([], 0, false, 0)
  end.
End casemap.
