(* ===== verification/AtomTheorems.v ===== *)
(** * Correctness of the atom tables of server/atom.c

    The invariant describes the doubly linked hash chains; the theorems state
    what find_atom, add_atom and delete_atom do to the names the table holds. *)

From Stdlib Require Import ZArith Lia.
From stdpp Require Import base list numbers option.
From S2P Require Import Prelude Unicode UnicodeTheorems Atoms.

#[local] Open Scope Z_scope.
#[local] Open Scope server_scope.

(** ** Doubly linked segments *)

(** Following [next] from [cur] visits [l] and reaches [nxt]; the entries are
    linked back to [prv], and [lst] is the entry before [nxt]. *)
Fixpoint dlseg (hs : list (option atom_entry)) (prv cur : option nat) (l : list nat)
    (lst nxt : option nat) : Prop :=
  match l with
  | [] => cur = nxt /\ prv = lst
  | i :: l => cur = Some i /\
      exists e, entry_at hs i = Some e /\ prev e = prv /\ dlseg hs (Some i) (next e) l lst nxt
  end.

Lemma dlseg_app hs l1 : forall prv cur l2 lst nxt,
  dlseg hs prv cur (l1 ++ l2) lst nxt <->
  exists m n, dlseg hs prv cur l1 m n /\ dlseg hs m n l2 lst nxt.
Proof.
  induction l1 as [|i l1 IH]; intros prv cur l2 lst nxt; cbn [app dlseg].
  - split; [intros H; by exists prv, cur|intros (m & n & [<- <-] & H); done].
  - split.
    + intros (-> & e & He & Hp & H). apply IH in H as (m & n & H1 & H2). exists m, n. split; [|done].
      split; [done|]. by exists e.
    + intros (m & n & (-> & e & He & Hp & H1) & H2). split; [done|]. exists e. split; [done|].
      split; [done|]. apply IH. by exists m, n.
Qed.

(** The links of an entry. *)
Definition links (hs : list (option atom_entry)) (i : nat) : option (option nat * option nat) :=
  (fun e => (prev e, next e)) <$> entry_at hs i.

Lemma links_entry hs i e : entry_at hs i = Some e -> links hs i = Some (prev e, next e).
Proof. unfold links. by intros ->. Qed.

Lemma links_Some hs i p n : links hs i = Some (p, n) -> exists e, entry_at hs i = Some e /\ prev e = p /\ next e = n.
Proof. unfold links. destruct (entry_at hs i) as [e|]; [|done]. intros [= <- <-]. by exists e. Qed.

(** A segment depends only on the links of its entries. *)
Lemma dlseg_frame hs hs' l : forall prv cur lst nxt,
  (forall i, i ∈ l -> links hs' i = links hs i) -> dlseg hs prv cur l lst nxt -> dlseg hs' prv cur l lst nxt.
Proof.
  induction l as [|i l IH]; intros prv cur lst nxt Hl; [done|]. intros (-> & e & He & Hp & H).
  split; [done|]. pose proof (Hl i ltac:(by left)) as E. rewrite (links_entry _ _ _ He) in E.
  apply links_Some in E as (e' & He' & Hp' & Hn'). exists e'. split; [done|]. split; [congruence|].
  rewrite Hn'. apply IH; [|done]. intros j Hj. apply Hl. by right.
Qed.

Lemma dlseg_entries hs l : forall prv cur lst nxt i,
  dlseg hs prv cur l lst nxt -> i ∈ l -> exists e, entry_at hs i = Some e.
Proof.
  induction l as [|j l IH]; intros prv cur lst nxt i; [by intros _ ?%not_elem_of_nil|].
  intros (_ & e & He & _ & H) [->|Hi]%elem_of_cons; [by exists e|by eapply IH].
Qed.

(** ** Updates of entries *)

Lemma entry_at_lt hs i e : entry_at hs i = Some e -> (i < length hs)%nat.
Proof. unfold entry_at. destruct (hs !! i) eqn:E; [|done]. intros _. by eapply lookup_lt_Some. Qed.

Lemma entry_at_update p f hs j :
  entry_at (update p f hs) j = if decide (p = Some j) then f <$> entry_at hs j else entry_at hs j.
Proof.
  unfold update, entry_at. destruct p as [i|]; [|by rewrite decide_False].
  destruct (decide (i = j)) as [->|Hne].
  - rewrite decide_True, list_lookup_alter_eq by done. by destruct (hs !! j).
  - rewrite decide_False, list_lookup_alter_ne by congruence. done.
Qed.

Lemma length_update p f hs : length (update p f hs) = length hs.
Proof. destruct p; [apply length_alter|done]. Qed.

Lemma entry_at_insert hs i o j :
  (i < length hs)%nat -> entry_at (<[i := o]> hs) j = if decide (i = j) then o else entry_at hs j.
Proof.
  intros Hi. unfold entry_at. case_decide as E; [subst; by rewrite list_lookup_insert_eq|].
  by rewrite list_lookup_insert_ne.
Qed.

Lemma entry_at_snoc hs o j :
  entry_at (hs ++ [o]) j = if decide (length hs = j) then o else entry_at hs j.
Proof.
  unfold entry_at. case_decide as E; [subst; by rewrite list_lookup_middle|].
  destruct (decide (j < length hs)%nat); [by rewrite lookup_app_l|].
  rewrite lookup_app_r by lia. rewrite (lookup_ge_None_2 hs j) by lia.
  destruct (j - length hs)%nat eqn:Ej; [lia|done].
Qed.

(** ** The invariant *)

(** What the table says of an atom, links apart. *)
Definition content (e : atom_entry) : list Z * Z * bool := (str e, count e, pinned e).

Definition view (t : atom_table) (i : nat) : option (list Z * Z * bool) :=
  content <$> entry_at (handles t) i.

Definition chains_ok (t : atom_table) : Prop :=
  forall b h, entries t !! b = Some h ->
    exists l lst, dlseg (handles t) None h l lst None /\ NoDup l /\
      forall i, i ∈ l <-> hash <$> entry_at (handles t) i = Some (Z.of_nat b).

Definition entry_ok (casemap : Z -> Z) (t : atom_table) (i : nat) (e : atom_entry) : Prop :=
  atom e = Z.of_nat i + MIN_STR_ATOM /\ hash e = hash_strW casemap (str e) (entries_count t) /\
  1 <= count e < 2 ^ 31 /\ 0 < len (str e) <= MAX_ATOM_LEN.

Record atom_wf (casemap : Z -> Z) (t : atom_table) : Prop := {
  wf_count : Z.of_nat (length (handles t)) <= t_count t <= MAX_ATOMS;
  wf_alloc : 1 < t_count t;
  wf_size : MIN_HASH_SIZE <= entries_count t <= MAX_HASH_SIZE;
  wf_chains : chains_ok t;
  wf_entries : forall i e, entry_at (handles t) i = Some e -> entry_ok casemap t i e;
  wf_unique : forall i j e e', entry_at (handles t) i = Some e -> entry_at (handles t) j = Some e' ->
                same_name casemap (str e) (str e') = true -> i = j
}.

Section table.
Context (casemap : Z -> Z).

Definition bucket (t : atom_table) (s : list Z) : Z := u16 (hash_strW casemap s (entries_count t)).

Lemma hash_bound t s : atom_wf casemap t -> 0 <= hash_strW casemap s (entries_count t) < entries_count t.
Proof using. intros W. pose proof (wf_size _ _ W) as H. unfold MIN_HASH_SIZE in H. apply Z.mod_pos_bound. lia. Qed.

Lemma bucket_eq t s : atom_wf casemap t -> bucket t s = hash_strW casemap s (entries_count t).
Proof using.
  intros W. pose proof (hash_bound t s W). pose proof (wf_size _ _ W) as H'. unfold MAX_HASH_SIZE in H'.
  apply Z.mod_small. lia.
Qed.

(** The chain of a name. *)
Lemma bucket_chain t s : atom_wf casemap t ->
  exists h l lst, entries t !! Z.to_nat (bucket t s) = Some h /\
    dlseg (handles t) None h l lst None /\ NoDup l /\
    forall i, i ∈ l <-> hash <$> entry_at (handles t) i = Some (bucket t s).
Proof using.
  intros W. rewrite (bucket_eq t s W). pose proof (hash_bound t s W) as Hb.
  destruct (lookup_lt_is_Some_2 (entries t) (Z.to_nat (hash_strW casemap s (entries_count t)))) as [h Hh].
  { unfold entries_count in *. lia. }
  destruct (wf_chains _ _ W _ _ Hh) as (l & lst & H1 & H2 & H3). exists h, l, lst.
  split; [done|]. split; [done|]. split; [done|]. intros i. rewrite H3. by rewrite Z2Nat.id by lia.
Qed.

(** An entry carries the name [s]. *)
Definition named (t : atom_table) (s : list Z) (i : nat) (e : atom_entry) : Prop :=
  entry_at (handles t) i = Some e /\ same_name casemap (str e) s = true.

Lemma name_test e s :
  (len (str e) =? len s) && (memicmp_strW casemap (str e) s (length s) =? 0) = same_name casemap (str e) s.
Proof using.
  unfold same_name. f_equal. unfold len, sizeof_WCHAR.
  destruct (Nat.eqb_spec (length (str e)) (length s)) as [->|]; [apply Z.eqb_refl|].
  apply Z.eqb_neq. lia.
Qed.

Lemma find_in_chain_spec hs s l : forall fuel prv cur lst,
  dlseg hs prv cur l lst None -> (length l <= fuel)%nat ->
  match find_in_chain casemap fuel hs s cur with
  | Some i => i ∈ l /\ exists e, entry_at hs i = Some e /\ same_name casemap (str e) s = true
  | None => forall i e, i ∈ l -> entry_at hs i = Some e -> same_name casemap (str e) s = false
  end.
Proof using.
  induction l as [|i l IH]; intros fuel prv cur lst H Hf.
  - destruct H as [-> _]. destruct fuel; cbn; intros i e ?%not_elem_of_nil; done.
  - destruct H as (-> & e & He & _ & H). destruct fuel as [|fuel]; [cbn in Hf; lia|].
    cbn [find_in_chain]. rewrite He, name_test. destruct (same_name casemap (str e) s) eqn:E.
    + split; [by left|]. by exists e.
    + specialize (IH fuel (Some i) (next e) lst H ltac:(cbn in Hf; lia)).
      destruct (find_in_chain casemap fuel hs s (next e)) as [j|].
      * destruct IH as [Hj ?]. split; [by right|done].
      * intros j e' [->|Hj]%elem_of_cons He'; [congruence|by eapply IH].
Qed.

Lemma chain_length (hs : list (option atom_entry)) (l : list nat) :
  NoDup l -> (forall i, i ∈ l -> exists e, entry_at hs i = Some e) -> (length l <= length hs)%nat.
Proof using.
  intros Hnd Hin. rewrite <-(length_seq (length hs) 0). apply submseteq_length, NoDup_submseteq; [done|].
  intros i Hi. destruct (Hin i Hi) as [e He]. apply elem_of_seq. split; [lia|]. cbn. by eapply entry_at_lt.
Qed.

(** The lookup finds the entry of a name exactly when there is one. *)
Lemma find_atom_entry_spec t s :
  atom_wf casemap t ->
  match find_atom_entry casemap t s (bucket t s) with
  | Some i => exists e, named t s i e
  | None => forall i e, ~ named t s i e
  end.
Proof using.
  intros W. destruct (bucket_chain t s W) as (h & l & lst & Hh & Hd & Hnd & Hin).
  unfold find_atom_entry. rewrite Hh. cbn [mjoin option_join].
  assert (Hl : (length l <= length (handles t))%nat).
  { apply chain_length; [done|]. intros i Hi. by eapply dlseg_entries. }
  pose proof (find_in_chain_spec (handles t) s l _ None h lst Hd Hl) as H.
  destruct (find_in_chain casemap _ _ _ _) as [i|].
  - destruct H as (_ & e & He & Hs). exists e. by split.
  - intros i e [He Hs]. assert (Hi : i ∈ l).
    { apply Hin. rewrite He. cbn. f_equal. destruct (wf_entries _ _ W i e He) as (_ & -> & _).
      rewrite (bucket_eq t s W). unfold same_name in Hs. apply andb_prop in Hs as [H1 H2].
      apply Nat.eqb_eq in H1. apply Z.eqb_eq in H2. unfold hash_strW. f_equal.
      apply memicmp_hash; [done|by rewrite H1]. }
    specialize (H i e Hi He). congruence.
Qed.

Lemma named_unique t s i j e e' : atom_wf casemap t -> named t s i e -> named t s j e' -> i = j /\ e = e'.
Proof using.
  intros W [H1 H2] [H3 H4]. assert (i = j) as ->.
  { eapply (wf_unique _ _ W); [done..|]. apply same_name_map in H2, H4. apply same_name_map. congruence. }
  split; [done|congruence].
Qed.

(** ** Changes of reference counts *)

(** Everything but the reference count. *)
Definition shape (e : atom_entry) := (prev e, next e, atom e, hash e, str e, pinned e).

Lemma wf_shape t t' :
  atom_wf casemap t -> t_count t' = t_count t -> length (handles t') = length (handles t) ->
  entries t' = entries t ->
  (forall i, shape <$> entry_at (handles t') i = shape <$> entry_at (handles t) i) ->
  (forall i e, entry_at (handles t') i = Some e -> 1 <= count e < 2 ^ 31) -> atom_wf casemap t'.
Proof using.
  intros W Hc Hl He Hs Hcnt.
  assert (Hback : forall i e', entry_at (handles t') i = Some e' ->
    exists e, entry_at (handles t) i = Some e /\ shape e' = shape e).
  { intros i e' H. specialize (Hs i). rewrite H in Hs. destruct (entry_at (handles t) i) as [e|]; [|done].
    exists e. split; [done|]. cbn in Hs. congruence. }
  split.
  - rewrite Hc, Hl. apply W.
  - rewrite Hc. apply W.
  - unfold entries_count. rewrite He. apply W.
  - intros b h. rewrite He. intros Hb. destruct (wf_chains _ _ W b h Hb) as (l & lst & H1 & H2 & H3).
    exists l, lst. split.
    { eapply dlseg_frame; [|done]. intros i _. unfold links. specialize (Hs i).
      destruct (entry_at (handles t') i) as [e'|], (entry_at (handles t) i) as [e|]; cbn in *;
        unfold shape in *; congruence. }
    split; [done|]. intros i. rewrite H3. specialize (Hs i).
    destruct (entry_at (handles t') i) as [e'|], (entry_at (handles t) i) as [e|]; cbn in *; try done.
    assert (hash e' = hash e) as -> by (unfold shape in Hs; congruence). done.
  - intros i e' H. destruct (Hback i e' H) as (e & H1 & H2). destruct (wf_entries _ _ W i e H1) as (A & B & _ & D).
    unfold shape in H2. injection H2 as _ _ Ha Hh Hstr _. unfold entry_ok, entries_count in *.
    rewrite He, Ha, Hh, Hstr. split; [done|]. split; [done|]. split; [by eapply Hcnt|done].
  - intros i j e1 e2 H1 H2 Hn. destruct (Hback i e1 H1) as (f1 & F1 & S1). destruct (Hback j e2 H2) as (f2 & F2 & S2).
    injection S1 as _ _ _ _ Hs1 _. injection S2 as _ _ _ _ Hs2 _. rewrite Hs1, Hs2 in Hn.
    by eapply (wf_unique _ _ W).
Qed.

(** Setting the count of entry [i]. *)
Lemma set_count_wf t i e c :
  atom_wf casemap t -> entry_at (handles t) i = Some e -> 1 <= c < 2 ^ 31 ->
  let t' := mk_table (t_count t) (update (Some i) (set_count c) (handles t)) (entries t) in
  atom_wf casemap t' /\
  forall j, view t' j = if decide (i = j) then Some (str e, c, pinned e) else view t j.
Proof using.
  intros W He Hc t'. split.
  - apply (wf_shape t); try done; [apply length_update|..].
    + intros j. cbn [handles t']. rewrite entry_at_update. case_decide; [|done]. by destruct (entry_at _ j).
    + intros j e'. cbn [handles t']. rewrite entry_at_update. case_decide as E.
      * injection E as <-. rewrite He. intros [= <-]. done.
      * intros H. by destruct (wf_entries _ _ W j e' H) as (_ & _ & ? & _).
  - intros j. unfold view. cbn [handles t']. rewrite entry_at_update.
    destruct (decide (i = j)) as [->|]; [by rewrite decide_True, He|by rewrite decide_False by congruence].
Qed.

(** ** Links *)

Lemma dlseg_set_prev hs q l : forall p cur lst,
  dlseg hs p cur l lst None -> NoDup l ->
  exists lst', dlseg (update cur (set_prev q) hs) q cur l lst' None.
Proof using.
  intros p cur lst H Hnd. destruct l as [|i l].
  - destruct H as [-> _]. by exists q.
  - destruct H as (-> & e & He & _ & H). apply list.NoDup_cons in Hnd as [Hni _].
    exists lst. split; [done|]. exists (set_prev q e). rewrite entry_at_update, decide_True, He by done.
    split; [done|]. split; [done|]. eapply dlseg_frame; [|exact H]. intros j Hj.
    unfold links. rewrite entry_at_update, decide_False; [done|]. intros [= ->]. done.
Qed.

Lemma dlseg_set_next hs n l : forall p cur lst nxt,
  dlseg hs p cur l lst nxt -> l <> [] -> NoDup l ->
  (exists k, lst = Some k /\ k ∈ l) /\ dlseg (update lst (set_next n) hs) p cur l lst n.
Proof using.
  induction l as [|i l IH]; intros p cur lst nxt H Hne Hnd; [done|].
  destruct H as (-> & e & He & Hp & H). apply list.NoDup_cons in Hnd as [Hni Hnd].
  destruct l as [|j l].
  - destruct H as [<- <-]. split; [exists i; by split; [|left]|]. split; [done|].
    exists (set_next n e). by rewrite entry_at_update, decide_True, He.
  - destruct (IH _ _ _ _ H ltac:(done) Hnd) as [(k & -> & Hk) H']. split; [exists k; by split; [|right]|].
    split; [done|]. exists e. rewrite entry_at_update, decide_False; [done|]. intros [= ->]. done.
Qed.

(** ** Adding an entry *)

Lemma find_free_slot_spec hs :
  (find_free_slot hs <= length hs)%nat /\ entry_at hs (find_free_slot hs) = None /\
  (find_free_slot hs = length hs -> forall i, (i < length hs)%nat -> exists e, entry_at hs i = Some e).
Proof using.
  induction hs as [|[e|] hs (IH1 & IH2 & IH3)]; cbn [find_free_slot length].
  - split; [lia|]. split; [done|]. intros _ i. lia.
  - split; [lia|]. split; [done|]. intros E [|i] Hi; [by exists e|]. apply (IH3 ltac:(lia) i ltac:(lia)).
  - split; [lia|]. by split; [|].
Qed.

(** The table after [entry] has been stored in slot [i]. *)
Definition stored (t t' : atom_table) (i : nat) (e : atom_entry) : Prop :=
  entry_at (handles t) i = None /\ Z.of_nat (length (handles t')) <= t_count t' <= MAX_ATOMS /\
  entries t' = entries t /\ t_count t <= t_count t' /\
  forall j, entry_at (handles t') j = if decide (i = j) then Some e else entry_at (handles t) j.

(** Every atom is in use. *)
Definition table_full (t : atom_table) : Prop :=
  forall i, Z.of_nat i < MAX_ATOMS -> exists e, entry_at (handles t) i = Some e.

Lemma add_atom_entry_spec t entry e :
  1 < t_count t -> Z.of_nat (length (handles t)) <= t_count t <= MAX_ATOMS ->
  let '(a, t', e') := add_atom_entry t entry e in
  (exists i, a = Z.of_nat i + MIN_STR_ATOM /\ stored t t' i (entry a) /\ (allocs e = [] -> e' = e)) \/
  (a = 0 /\ t' = t /\ error e' = STATUS_NO_MEMORY /\ (table_full t \/ allocs e <> [])).
Proof using.
  intros H1 Hc. destruct (find_free_slot_spec (handles t)) as (Hle & Hnone & Hfull).
  unfold add_atom_entry. set (i := find_free_slot (handles t)) in *.
  assert (Hsnoc : forall n, Z.of_nat (length (handles t)) < n <= MAX_ATOMS -> t_count t <= n -> i = length (handles t) -> forall x,
    stored t (mk_table n (handles t ++ [Some x]) (entries t)) i x).
  { intros n Hn Hn' Ei x. split; [done|]. cbn [handles t_count entries]. rewrite length_app. cbn [length].
    split; [lia|]. split; [done|]. split; [lia|]. intros j. rewrite entry_at_snoc. by rewrite Ei. }
  destruct (Nat.ltb_spec i (length (handles t))).
  - left. exists i. split; [done|]. split; [|done]. split; [done|]. cbn [handles t_count entries].
    rewrite length_insert. split; [done|]. split; [done|]. split; [done|]. intros j. by apply entry_at_insert.
  - assert (Ei : i = length (handles t)) by lia. destruct (Z.eqb_spec (Z.of_nat i) (t_count t)) as [Et|Et].
    2: { left. exists i. split; [done|]. split; [|done]. apply Hsnoc; [lia|lia|done]. }
    destruct (Z.ltb_spec (t_count t) (Z.min (t_count t + t_count t / 2) MAX_ATOMS)) as [Hg|Hg].
    + unfold bind, malloc. destruct (allocs e) as [|[] tl] eqn:Ha; cbn [negb].
      1,2: left; exists i; split; [done|]; split; [apply Hsnoc; [lia|lia|done]|by rewrite ?Ha].
      right. by split; [|split; [|split; [|right]]].
    + right. split; [done|]. split; [done|]. split; [done|]. left. intros j Hj. apply Hfull; [done|].
      assert (1 <= t_count t / 2) by (apply Z.div_le_lower_bound; lia). lia.
Qed.

(** Linking the new entry in front of its chain. *)
Lemma dlseg_head hs lst j l : dlseg hs None (Some j) l lst None -> j ∈ l.
Proof using. destruct l as [|k l]; intros Hd; [by destruct Hd|]. destruct Hd as [[= <-] _]. by left. Qed.

Section link.
Context (t t1 : atom_table) (s : list Z) (i : nat) (h : option nat) (l : list nat) (lst : option nat).
Context (W : atom_wf casemap t) (Hnew : forall j e, ~ named t s j e) (Hlen : 0 < len s <= MAX_ATOM_LEN).
Context (Hh : entries t !! Z.to_nat (bucket t s) = Some h).
Context (Hst : stored t t1 i (mk_entry h None 1 false (Z.of_nat i + MIN_STR_ATOM) (bucket t s) s)).
Context (Hd : dlseg (handles t) None h l lst None) (Hnd : NoDup l).
Context (Hin : forall j, j ∈ l <-> hash <$> entry_at (handles t) j = Some (Z.of_nat (Z.to_nat (bucket t s)))).

(** The table with the new entry at the head of its chain. *)
Definition linked : atom_table :=
  mk_table (t_count t1) (update h (set_prev (Some i)) (handles t1)) (<[Z.to_nat (bucket t s) := Some i]> (entries t1)).

Lemma head_in_chain j : h = Some j -> j ∈ l.
Proof using Hd. intros E. apply (dlseg_head (handles t) lst j l). by rewrite <-E. Qed.

Lemma new_not_in (l' : list nat) (b : nat) :
  (forall j, j ∈ l' <-> hash <$> entry_at (handles t) j = Some (Z.of_nat b)) -> i ∉ l'.
Proof using Hst. intros H E%H. pose proof Hst as (Hi & _). by rewrite Hi in E. Qed.

Lemma linked_at j :
  entry_at (handles linked) j =
    if decide (i = j) then Some (mk_entry h None 1 false (Z.of_nat i + MIN_STR_ATOM) (bucket t s) s)
    else if decide (h = Some j) then set_prev (Some i) <$> entry_at (handles t) j else entry_at (handles t) j.
Proof using Hst Hd Hin.
  pose proof Hst as (_ & _ & _ & _ & Hat). cbn [handles linked]. rewrite entry_at_update, Hat.
  repeat case_decide; try done. destruct (new_not_in l _ Hin). apply head_in_chain. congruence.
Qed.

Lemma linked_old j e2 : entry_at (handles linked) j = Some e2 -> j = i \/
  exists e1, entry_at (handles t) j = Some e1 /\ j <> i /\ atom e2 = atom e1 /\ hash e2 = hash e1 /\
             str e2 = str e1 /\ count e2 = count e1.
Proof using Hst Hd Hin.
  intros H. rewrite linked_at in H. case_decide; [by left|]. right.
  case_decide; [|by exists e2]. destruct (entry_at (handles t) j) as [e1|]; [|done].
  injection H as <-. by exists e1.
Qed.

Lemma linked_hash j :
  hash <$> entry_at (handles linked) j = if decide (i = j) then Some (bucket t s) else hash <$> entry_at (handles t) j.
Proof using Hst Hd Hin. rewrite linked_at. repeat case_decide; try done. by destruct (entry_at (handles t) j). Qed.

Lemma linked_chains : chains_ok linked.
Proof using W Hh Hst Hd Hnd Hin.
  pose proof (bucket_eq t s W) as Hb. pose proof (hash_bound t s W) as Hbound.
  pose proof Hst as (Hi & _ & Hes & _ & _). intros b' h'. cbn [entries linked]. rewrite Hes.
  destruct (decide (b' = Z.to_nat (bucket t s))) as [->|Hne].
  - rewrite list_lookup_insert_eq by (by eapply lookup_lt_Some). intros [= <-].
    destruct (dlseg_set_prev (handles t) (Some i) l _ _ _ Hd Hnd) as [lst' Hd']. exists (i :: l), lst'.
    split; [|split; [apply list.NoDup_cons; split; [by apply (new_not_in l _ Hin)|done]|]].
    + split; [done|]. eexists. rewrite linked_at, decide_True by done. split; [done|]. split; [done|].
      eapply dlseg_frame; [|exact Hd']. intros j Hj. unfold links. rewrite linked_at, entry_at_update.
      assert (i <> j) by (intros E; apply (new_not_in l _ Hin); by rewrite E). by rewrite (decide_False (P := i = j)).
    + intros j. rewrite elem_of_cons, Hin, linked_hash. rewrite Z2Nat.id by lia.
      case_decide; subst; [by split; [|left]|]. split; [by intros [->|]|by right].
  - rewrite list_lookup_insert_ne by done. intros Hb'.
    destruct (wf_chains _ _ W b' h' Hb') as (l' & lst' & Hd' & Hnd' & Hin'). exists l', lst'.
    split; [|split; [done|]].
    + eapply dlseg_frame; [|exact Hd']. intros j Hj. unfold links. rewrite linked_at.
      assert (i <> j) by (intros E; apply (new_not_in l' _ Hin'); by rewrite E).
      rewrite decide_False by done. rewrite decide_False; [done|]. intros Hhj%head_in_chain%Hin.
      apply Hin' in Hj. rewrite Hhj in Hj. injection Hj as Hj. lia.
    + intros j. rewrite Hin', linked_hash. case_decide; [|done]. subst. rewrite Hi. cbn. split; [done|].
      intros [= E]. lia.
Qed.

Lemma linked_unique j k e1 e2 :
  entry_at (handles linked) j = Some e1 -> entry_at (handles linked) k = Some e2 ->
  same_name casemap (str e1) (str e2) = true -> j = k.
Proof using W Hnew Hst Hd Hin.
  intros H1 H2 Hs.
  destruct (linked_old j e1 H1) as [->|(f1 & F1 & N1 & _ & _ & S1 & _)],
           (linked_old k e2 H2) as [->|(f2 & F2 & N2 & _ & _ & S2 & _)]; [done|..].
  - exfalso. apply (Hnew k f2). split; [done|]. rewrite linked_at, decide_True in H1 by done. injection H1 as <-.
    rewrite same_name_map in *. cbn in Hs. congruence.
  - exfalso. apply (Hnew j f1). split; [done|]. rewrite linked_at, decide_True in H2 by done. injection H2 as <-.
    rewrite same_name_map in *. cbn in Hs. congruence.
  - eapply (wf_unique _ _ W); [done..|]. congruence.
Qed.

Lemma linked_wf :
  atom_wf casemap linked /\ forall j, view linked j = if decide (i = j) then Some (s, 1, false) else view t j.
Proof using W Hnew Hlen Hh Hst Hd Hnd Hin.
  pose proof (bucket_eq t s W) as Hb. pose proof (hash_bound t s W) as Hbound. pose proof Hst as (_ & Hcount & Hes & Hgrow & _).
  assert (Hcnt : entries_count linked = entries_count t)
    by (unfold entries_count; cbn [entries linked]; by rewrite length_insert, Hes).
  split; [split|].
  - cbn [handles linked t_count]. by rewrite length_update.
  - cbn [linked t_count]. pose proof (wf_alloc _ _ W). lia.
  - rewrite Hcnt. apply W.
  - apply linked_chains.
  - intros j e2 He2. unfold entry_ok. rewrite Hcnt.
    destruct (linked_old j e2 He2) as [->|(e1 & He1 & _ & -> & -> & -> & ->)]; [|by apply (wf_entries _ _ W)].
    rewrite linked_at, decide_True in He2 by done. injection He2 as <-. cbn. rewrite <-Hb. lia.
  - intros j k e1 e2. apply linked_unique.
  - intros j. unfold view. rewrite linked_at. case_decide; [done|]. case_decide; [|done].
    by destruct (entry_at (handles t) j).
Qed.
End link.

Lemma link_wf t t1 s i h :
  atom_wf casemap t -> (forall j e, ~ named t s j e) -> 0 < len s <= MAX_ATOM_LEN ->
  entries t !! Z.to_nat (bucket t s) = Some h ->
  stored t t1 i (mk_entry h None 1 false (Z.of_nat i + MIN_STR_ATOM) (bucket t s) s) ->
  atom_wf casemap (linked t t1 s i h) /\
  forall j, view (linked t t1 s i h) j = if decide (i = j) then Some (s, 1, false) else view t j.
Proof using.
  intros W Hnew Hlen Hh Hst. destruct (wf_chains _ _ W _ _ Hh) as (l & lst & Hd & Hnd & Hin).
  by apply (linked_wf t t1 s i h l lst).
Qed.

(** ** Removing an entry *)

(** The slots after delete_atom has unlinked entry [i]. *)
Definition unlink (t : atom_table) (i : nat) (e : atom_entry) : list (option atom_entry) :=
  <[i := None]> (update (prev e) (set_next (next e)) (update (next e) (set_prev (prev e)) (handles t))).

Lemma unlink_other t i e j :
  entry_at (handles t) i = Some e -> i <> j -> prev e <> Some j -> next e <> Some j ->
  entry_at (unlink t i e) j = entry_at (handles t) j.
Proof using.
  intros He Hij Hp Hn. pose proof (entry_at_lt _ _ _ He). unfold unlink.
  rewrite entry_at_insert by (by rewrite !length_update).
  rewrite decide_False, entry_at_update, decide_False, entry_at_update, decide_False by done. done.
Qed.

(** Everything but the links. *)
Definition data (e : atom_entry) := (atom e, hash e, str e, count e, pinned e).

Lemma unlink_data t i e j :
  entry_at (handles t) i = Some e ->
  data <$> entry_at (unlink t i e) j = if decide (i = j) then None else data <$> entry_at (handles t) j.
Proof using.
  intros He. pose proof (entry_at_lt _ _ _ He). unfold unlink.
  rewrite entry_at_insert by (by rewrite !length_update). case_decide; [done|].
  rewrite !entry_at_update. repeat case_decide; by destruct (entry_at (handles t) j).
Qed.

(** The neighbours of an entry are in its chain, on their sides. *)
Lemma dlseg_neighbours hs i e h l1 l2 lst :
  entry_at hs i = Some e -> NoDup l1 -> dlseg hs None h (l1 ++ i :: l2) lst None ->
  (forall j, next e = Some j -> j ∈ l2) /\ (forall j, prev e = Some j -> j ∈ l1).
Proof using.
  intros He Hnd1 Hd. apply dlseg_app in Hd as (m & n & Hd1 & (-> & e' & He' & Hm & Hd2)). rewrite He in He'.
  injection He' as <-. subst m. split.
  - intros j Hj. destruct l2 as [|k l2]; [destruct Hd2; congruence|]. destruct Hd2 as [Hk _].
    rewrite Hj in Hk. injection Hk as ->. by left.
  - intros j Hj. destruct l1 as [|k l1]; [by destruct Hd1 as [_ E]; rewrite Hj in E|].
    destruct (dlseg_set_next _ None _ _ _ _ _ Hd1 ltac:(done) Hnd1) as [(k' & Hk & ?) _]. congruence.
Qed.

Lemma neighbour_hash t i e j :
  atom_wf casemap t -> entry_at (handles t) i = Some e -> prev e = Some j \/ next e = Some j ->
  hash <$> entry_at (handles t) j = Some (hash e).
Proof using.
  intros W He Hj. destruct (wf_entries _ _ W i e He) as (_ & Hh & _).
  pose proof (hash_bound t (str e) W) as Hhb. rewrite <-Hh in Hhb.
  destruct (lookup_lt_is_Some_2 (entries t) (Z.to_nat (hash e))) as [h Hb]; [unfold entries_count in *; lia|].
  destruct (wf_chains _ _ W _ h Hb) as (l & lst & Hd & Hnd & Hin). rewrite Z2Nat.id in Hin by lia.
  assert (Hil : i ∈ l) by (apply Hin; by rewrite He).
  apply Hin. apply list_elem_of_split in Hil as (l1 & l2 & ->).
  destruct (dlseg_neighbours (handles t) i e h l1 l2 lst He) as [H1 H2]; [by apply list.NoDup_app in Hnd as []|done|].
  apply elem_of_app. destruct Hj as [Hj|Hj]; [left; by apply H2|right; right; by apply H1].
Qed.

(** The chain without the entry, and its new head. *)
Lemma unlink_chain t i e h l1 l2 lst :
  entry_at (handles t) i = Some e -> NoDup (l1 ++ i :: l2) ->
  dlseg (handles t) None h (l1 ++ i :: l2) lst None ->
  exists lst', dlseg (unlink t i e) None (match prev e with Some _ => h | None => next e end)
                     (l1 ++ l2) lst' None.
Proof using.
  intros He Hnd Hd. pose proof (entry_at_lt _ _ _ He) as Hi.
  destruct (dlseg_neighbours (handles t) i e h l1 l2 lst He) as [Hnin Hpin];
    [by apply list.NoDup_app in Hnd as []|done|].
  apply dlseg_app in Hd as (m & n & Hd1 & (-> & e' & He' & Hm & Hd2)). rewrite He in He'.
  injection He' as <-. subst m.
  apply list.NoDup_app in Hnd as (Hnd1 & Hdis & Hnd2). apply list.NoDup_cons in Hnd2 as [Hi2 Hnd2].
  assert (Hi1 : i ∉ l1) by (intros E; apply (Hdis i E); by left).
  destruct (dlseg_set_prev (handles t) (prev e) l2 _ _ _ Hd2 Hnd2) as [lst' Hd2']. exists lst'.
  assert (T2 : dlseg (unlink t i e) (prev e) (next e) l2 lst' None).
  { eapply dlseg_frame; [|exact Hd2']. intros j Hj. unfold links, unlink.
    rewrite entry_at_insert by (by rewrite !length_update). rewrite decide_False by congruence.
    rewrite entry_at_update, decide_False; [done|]. intros Hpj. apply (Hdis j); [by apply Hpin|by right]. }
  apply dlseg_app. exists (prev e), (next e). split; [|exact T2].
  destruct l1 as [|k l1]; [by destruct Hd1 as [_ <-]|].
  destruct (dlseg_set_next _ (next e) _ _ _ _ _ Hd1 ltac:(done) Hnd1) as [(k' & Hk & _) H'].
  rewrite Hk in *. eapply dlseg_frame; [|exact H']. intros j Hj. unfold links, unlink. rewrite Hk.
  rewrite entry_at_insert by (by rewrite !length_update). rewrite decide_False by congruence.
  rewrite !entry_at_update. rewrite (decide_False (P := next e = Some j)); [done|].
  intros Hnj. apply (Hdis j Hj). right. by apply Hnin.
Qed.

Section unlink.
Context (t : atom_table) (i : nat) (e : atom_entry) (W : atom_wf casemap t) (He : entry_at (handles t) i = Some e).

(** The table without the entry. *)
Definition unlinked : atom_table :=
  mk_table (t_count t) (unlink t i e)
    (match prev e with Some _ => entries t | None => <[Z.to_nat (hash e) := next e]> (entries t) end).

Lemma unlink_back j e' : entry_at (unlink t i e) j = Some e' ->
  exists e0, entry_at (handles t) j = Some e0 /\ data e' = data e0.
Proof using He.
  intros H. pose proof (unlink_data t i e j He) as Hdata. rewrite H in Hdata. case_decide; [done|].
  destruct (entry_at (handles t) j) as [e0|]; [|done]. exists e0. split; [done|]. cbn in Hdata. congruence.
Qed.

Lemma unlink_hash j :
  hash <$> entry_at (unlink t i e) j = if decide (i = j) then None else hash <$> entry_at (handles t) j.
Proof using He.
  pose proof (unlink_data t i e j He) as Hdata. case_decide; destruct (entry_at (unlink t i e) j); try done;
    destruct (entry_at (handles t) j); try done. unfold data in Hdata. cbn in *. congruence.
Qed.

Lemma entry_hash_bound : 0 <= hash e < entries_count t.
Proof using W He.
  destruct (wf_entries _ _ W i e He) as (_ & Hh & _). pose proof (hash_bound t (str e) W) as Hhb. by rewrite <-Hh in Hhb.
Qed.

(** The head of a chain changes only when the entry was the first of it. *)
Lemma unlinked_head b h' : entries unlinked !! b = Some h' ->
  exists h, entries t !! b = Some h /\ h' = if decide (b = Z.to_nat (hash e) /\ prev e = None) then next e else h.
Proof using W He.
  pose proof entry_hash_bound as Hhb. cbn [entries unlinked]. intros Hb'.
  destruct (prev e); [exists h'; by rewrite decide_False by (intros [_ ?]; done)|].
  destruct (decide (b = Z.to_nat (hash e))) as [->|Hne].
  - rewrite list_lookup_insert_eq in Hb' by (unfold entries_count in *; lia).
    destruct (lookup_lt_is_Some_2 (entries t) (Z.to_nat (hash e))) as [h ?]; [unfold entries_count in *; lia|].
    exists h. rewrite decide_True by done. by simplify_eq.
  - rewrite list_lookup_insert_ne in Hb' by done. exists h'. by rewrite decide_False by tauto.
Qed.

Lemma unlinked_chains : chains_ok unlinked.
Proof using W He.
  pose proof entry_hash_bound as Hhb. intros b h' Hb'. destruct (unlinked_head b h' Hb') as (h & Hb & ->). cbn [handles unlinked].
  destruct (wf_chains _ _ W b h Hb) as (l & lst & Hd & Hnd & Hin). destruct (decide (i ∈ l)) as [Hil|Hil].
  - pose proof Hil as Hhi. apply Hin in Hhi. rewrite He in Hhi. injection Hhi as Hhi.
    apply list_elem_of_split in Hil as (l1 & l2 & ->).
    destruct (unlink_chain t i e h l1 l2 lst He Hnd Hd) as [lst' Hd']. exists (l1 ++ l2), lst'. split; [|split].
    + destruct (prev e) eqn:Ep; [by rewrite decide_False by (intros [_ ?]; done)|].
      rewrite decide_True; [done|]. split; [lia|done].
    + apply list.NoDup_app in Hnd as (? & Hdis & [? ?]%list.NoDup_cons). apply list.NoDup_app. split; [done|].
      split; [|done]. intros x Hx Hx'. apply (Hdis x Hx). by right.
    + intros j. rewrite unlink_hash. apply list.NoDup_app in Hnd as (_ & Hdis & [Hi2 _]%list.NoDup_cons).
      destruct (decide (i = j)) as [<-|E].
      { split; [|done]. intros [Hx|Hx]%elem_of_app; [|done]. destruct (Hdis i Hx). by left. }
      rewrite <-Hin, !elem_of_app, elem_of_cons. intuition congruence.
  - assert (Hbh : Z.of_nat b <> hash e) by (intros E; apply Hil, Hin; by rewrite He, E).
    rewrite decide_False by (intros [-> _]; lia). exists l, lst. split; [|split; [done|]].
    + eapply dlseg_frame; [|exact Hd]. intros j Hj. unfold links. rewrite unlink_other; [done|done| | |].
      * intros E. apply Hil. by rewrite E.
      * intros E. apply Hin in Hj. rewrite (neighbour_hash t i e j W He (or_introl E)) in Hj. congruence.
      * intros E. apply Hin in Hj. rewrite (neighbour_hash t i e j W He (or_intror E)) in Hj. congruence.
    + intros j. rewrite unlink_hash, Hin. destruct (decide (i = j)) as [<-|E]; [|done]. rewrite He. cbn. split; [|done].
      intros [= ?]. congruence.
Qed.

Lemma unlink_wf :
  atom_wf casemap unlinked /\ forall j, view unlinked j = if decide (i = j) then None else view t j.
Proof using W He.
  assert (Hcnt : entries_count unlinked = entries_count t)
    by (unfold entries_count; cbn [entries unlinked]; destruct (prev e); [done|]; by rewrite length_insert).
  split; [split|].
  - cbn [handles unlinked t_count]. unfold unlink. rewrite length_insert, !length_update. apply W.
  - apply W.
  - rewrite Hcnt. apply W.
  - apply unlinked_chains.
  - intros j e' H. destruct (unlink_back j e' H) as (e0 & H0 & Hd). injection Hd as Ea Eh Es Ec _.
    unfold entry_ok. rewrite Hcnt, Ea, Eh, Es, Ec. by apply (wf_entries _ _ W).
  - intros j k e1 e2 H1 H2 Hs. destruct (unlink_back j e1 H1) as (f1 & F1 & D1), (unlink_back k e2 H2) as (f2 & F2 & D2).
    injection D1 as _ _ D1 _ _. injection D2 as _ _ D2 _ _. rewrite D1, D2 in Hs. by eapply (wf_unique _ _ W).
  - intros j. unfold view. cbn [handles unlinked]. pose proof (unlink_data t i e j He) as Hdata. case_decide;
      destruct (entry_at (unlink t i e) j); try done; destruct (entry_at (handles t) j); try done.
    unfold data, content in *. cbn in *. congruence.
Qed.
End unlink.

(** The entry behind an atom. *)
Lemma get_atom_entry_spec t a e :
  let i := Z.to_nat (a - MIN_STR_ATOM) in
  get_atom_entry t a e =
    if decide (MIN_STR_ATOM <= a /\ is_Some (view t i)) then (Some i, e)
    else (None, mk_senv STATUS_INVALID_HANDLE (allocs e)).
Proof using.
  intros i. unfold get_atom_entry, view. fold i.
  destruct (Z.leb_spec MIN_STR_ATOM a); [|by rewrite decide_False by lia].
  destruct (Z.leb_spec a (MIN_STR_ATOM + last t)) as [Hl|Hl]; cbn [andb].
  - destruct (entry_at (handles t) i) as [en|]; [by rewrite decide_True by (by split)|].
    rewrite decide_False; [done|]. intros [_ [? ?]]. done.
  - rewrite decide_False; [done|]. intros [_ [x Hx]]. destruct (entry_at (handles t) i) as [en|] eqn:He; [|done].
    apply entry_at_lt in He. unfold last in Hl. lia.
Qed.

Lemma view_entry t i s c p :
  view t i = Some (s, c, p) -> exists e, entry_at (handles t) i = Some e /\ str e = s /\ count e = c /\ pinned e = p.
Proof using.
  unfold view. destruct (entry_at (handles t) i) as [e|]; [|done]. intros [= <- <- <-]. by exists e.
Qed.
End table.

(** ** Theorems *)

(** find_atom returns the atom of the entry whose name equals the request
    up to case when the table has one, and STATUS_OBJECT_NAME_NOT_FOUND when it
    has none: the walk over the hash chain misses no entry and terminates. *)
Lemma find_atom_run casemap t s e :
  atom_wf casemap t -> 0 < len s <= MAX_ATOM_LEN ->
  (exists i en, named casemap t s i en /\ find_atom casemap (Some t) s e = (Z.of_nat i + MIN_STR_ATOM, e)) \/
  ((forall i en, ~ named casemap t s i en) /\
   find_atom casemap (Some t) s e = (0, mk_senv STATUS_OBJECT_NAME_NOT_FOUND (allocs e))).
Proof.
  intros W Hlen. unfold find_atom. destruct (Z.eqb_spec (len s) 0); [lia|].
  destruct (Z.ltb_spec MAX_ATOM_LEN (len s)); [lia|].
  pose proof (find_atom_entry_spec casemap t s W) as Hfind. unfold bucket in Hfind.
  destruct (find_atom_entry casemap t s _) as [i|]; [left|by right].
  destruct Hfind as [en Hn]. exists i, en. split; [done|]. destruct Hn as [He _]. rewrite He.
  by destruct (wf_entries _ _ W i en He) as [-> _].
Qed.

Lemma add_atom_spec casemap t s e :
  atom_wf casemap t -> 0 < len s <= MAX_ATOM_LEN ->
  (forall i en, named casemap t s i en -> count en < 2 ^ 31 - 1) ->
  let '(a, t', e') := add_atom casemap t s e in
  atom_wf casemap t' /\
  ((exists i en, named casemap t s i en /\ a = Z.of_nat i + MIN_STR_ATOM /\ e' = e /\
      forall j, view t' j = if decide (i = j) then Some (str en, count en + 1, pinned en) else view t j) \/
   ((forall i en, ~ named casemap t s i en) /\
    ((exists i, a = Z.of_nat i + MIN_STR_ATOM /\ view t i = None /\
        forall j, view t' j = if decide (i = j) then Some (s, 1, false) else view t j) \/
     (a = 0 /\ t' = t /\ error e' = STATUS_NO_MEMORY /\ (table_full t \/ allocs e <> []))))).
Proof.
  intros W Hlen Hsat. unfold add_atom. destruct (Z.eqb_spec (len s) 0); [lia|].
  destruct (Z.ltb_spec MAX_ATOM_LEN (len s)); [lia|].
  pose proof (find_atom_entry_spec casemap t s W) as Hfind. unfold bucket in Hfind.
  destruct (find_atom_entry casemap t s _) as [i|].
  - destruct Hfind as [en Hn]. pose proof Hn as [He _]. rewrite He. cbn [ret].
    destruct (wf_entries _ _ W i en He) as (Ha & _ & Hc & _). specialize (Hsat i en Hn).
    replace (i32 (count en + 1)) with (count en + 1) by (unfold i32; rewrite Z.mod_small; lia).
    destruct (set_count_wf casemap t i en (count en + 1) W He ltac:(lia)) as [W' V'].
    split; [exact W'|]. left. exists i, en. by rewrite Ha.
  - destruct (bucket_chain casemap t s W) as (h & _ & _ & Hh & _). unfold bucket in Hh. rewrite Hh.
    cbn [mjoin option_join]. unfold bind at 1. destruct (mem_alloc e) as [ok e1] eqn:Hm.
    assert (Hok : ok = false \/ allocs e <> [] \/ e1 = e).
    { unfold mem_alloc, malloc, bind in Hm. destruct (allocs e) as [|[] tl]; [|by right; left..].
      cbn in Hm. injection Hm as _ <-. by right; right. }
    destruct ok; cbn [negb].
    2: { split; [done|]. right. split; [done|]. right. split; [done|]. split; [done|]. split; [done|]. right.
         unfold mem_alloc, malloc, bind in Hm. by destruct (allocs e) as [|[] tl]. }
    unfold bind. match goal with |- context [add_atom_entry t ?f e1] =>
      pose proof (add_atom_entry_spec t f e1 (wf_alloc _ _ W) (wf_count _ _ W)) as Hadd;
      destruct (add_atom_entry t f e1) as [[a t1] e2] end.
    destruct Hadd as [(i & -> & Hst & _)|(-> & -> & Herr & Hful)].
    + destruct (Z.eqb_spec (Z.of_nat i + MIN_STR_ATOM) 0); [unfold MIN_STR_ATOM in *; lia|].
      replace (Z.to_nat (Z.of_nat i + MIN_STR_ATOM - MIN_STR_ATOM)) with i by lia.
      destruct (link_wf casemap t t1 s i h W Hfind Hlen Hh Hst) as [W' V']. split; [exact W'|]. right.
      split; [done|]. left. exists i. split; [done|]. split; [|done].
      unfold view. by destruct Hst as (-> & _).
    + split; [done|]. right. split; [done|]. right. split; [done|]. split; [done|]. split; [done|].
      destruct Hful as [?|Hf]; [by left|]. right. destruct Hok as [?|[?| ->]]; done.
Qed.

(** Delete_atom drops one reference: the atom disappears with the last one
    and its name can no longer be found, every other atom is unchanged, and the
    chains stay consistent.  An unknown atom is refused with
    STATUS_INVALID_HANDLE, a pinned one with STATUS_WAS_LOCKED unless the caller
    overrides the pin. *)
Lemma delete_atom_ok casemap t a if_pinned e :
  atom_wf casemap t ->
  let i := Z.to_nat (a - MIN_STR_ATOM) in
  let '(t', e') := delete_atom t a if_pinned e in
  atom_wf casemap t' /\
  if decide (MIN_STR_ATOM <= a) then
    match view t i with
    | None => t' = t /\ error e' = STATUS_INVALID_HANDLE
    | Some (s, c, p) =>
        if p && negb if_pinned then t' = t /\ error e' = STATUS_WAS_LOCKED
        else e' = e /\ forall j, view t' j =
               if decide (i = j) then (if c =? 1 then None else Some (s, c - 1, p)) else view t j
    end
  else t' = t /\ error e' = STATUS_INVALID_HANDLE.
Proof.
  intros W i. unfold delete_atom, bind. rewrite get_atom_entry_spec. fold i.
  destruct (decide (MIN_STR_ATOM <= a)) as [Ha|Ha]; [|by rewrite decide_False by tauto].
  destruct (view t i) as [[[s c] p]|] eqn:V.
  2: { rewrite decide_False; [done|]. intros [_ [? ?]]. done. }
  rewrite decide_True by (by split; [|eexists]).
  destruct (view_entry t i s c p V) as (en & He & <- & <- & <-). rewrite He.
  destruct (pinned en && negb if_pinned); [done|]. destruct (wf_entries _ _ W i en He) as (_ & _ & Hc & _).
  replace (i32 (count en - 1)) with (count en - 1) by (unfold i32; rewrite Z.mod_small; lia).
  destruct (Z.eqb_spec (count en - 1) 0), (Z.eqb_spec (count en) 1); try lia; cbn [negb ret].
  - destruct (unlink_wf casemap t i en W He) as [W' V']. split; [exact W'|]. by split.
  - destruct (set_count_wf casemap t i en (count en - 1) W He ltac:(lia)) as [W' V'].
    split; [exact W'|]. by split.
Qed.

(** ** Example tables *)

Lemma create_table_wf casemap n e :
  allocs e = [] -> exists t, create_table n e = (Some t, e) /\ atom_wf casemap t.
Proof.
  intros Ha. unfold create_table, bind, mem_alloc, malloc, bind. rewrite Ha. cbn. rewrite Ha. cbn. rewrite Ha. cbn.
  eexists. split; [done|]. match goal with |- context [replicate (Z.to_nat ?x) None] => set (k := x) end.
  assert (Hk : MIN_HASH_SIZE <= k <= MAX_HASH_SIZE).
  { unfold k, MIN_HASH_SIZE, MAX_HASH_SIZE, HASH_SIZE. destruct (Z.ltb_spec n 4), (Z.ltb_spec 512 n); cbn; lia. }
  split; cbn; try done.
  - unfold entries_count. cbn. rewrite length_replicate. unfold MIN_HASH_SIZE in *. lia.
  - intros b h [-> Hb]%lookup_replicate. exists [], None. split; [done|]. split; [constructor|].
    intros i. split; [by intros ?%not_elem_of_nil|done].
Qed.

Definition empty_table : atom_table := mk_table 64 [] (replicate 37 None).

(** "Hi" and "yes", in the buckets of the ASCII case mapping. *)
Definition sample_atoms : atom_table := Eval vm_compute in
  snd (fst (add_atom ascii_casemap (snd (fst (add_atom ascii_casemap empty_table [72; 105] (mk_senv 0 []))))
              [121; 101; 115] (mk_senv 0 []))).

Lemma sample_atoms_wf : atom_wf ascii_casemap sample_atoms.
Proof.
  assert (W0 : atom_wf ascii_casemap empty_table).
  { destruct (create_table_wf ascii_casemap 37 (mk_senv 0 [])) as (t & Ht & W); [done|]. by injection Ht as <-. }
  pose proof (add_atom_spec ascii_casemap empty_table [72; 105] (mk_senv 0 []) W0) as H1.
  destruct (add_atom ascii_casemap empty_table [72; 105] (mk_senv 0 [])) as [[a1 t1] e1] eqn:E1.
  destruct H1 as [W1 _]; [by vm_compute|by intros i en [? _]|].
  pose proof (add_atom_spec ascii_casemap t1 [121; 101; 115] (mk_senv 0 []) W1) as H2.
  vm_compute in E1. injection E1 as _ <- _.
  destruct (add_atom ascii_casemap _ [121; 101; 115] (mk_senv 0 [])) as [[a2 t2] e2] eqn:E2.
  vm_compute in E2. injection E2 as _ <- _. apply H2; [by vm_compute|].
  intros [|i] en [Hi Hs]; [|by destruct i]. injection Hi as <-. by vm_compute.
Qed.

(** C7: add_atom of an existing name adds a reference to its entry and returns its
    atom; of a new name it takes a free slot, with one reference; every other atom
    keeps its name, count and pin.  It fails only when memory runs out or all 0x4000
    atoms are in use, and then changes nothing.  delete_atom drops one reference:
    the atom disappears with the last one and its name can no longer be found, and
    every other atom is unchanged; an unknown atom is refused with
    STATUS_INVALID_HANDLE, a pinned one with STATUS_WAS_LOCKED unless the caller
    overrides the pin.  Both keep the chains consistent. *)
Theorem atom_ops_correct casemap t :
  atom_wf casemap t ->
  (forall s e, 0 < len s <= MAX_ATOM_LEN -> (forall i en, named casemap t s i en -> count en < 2 ^ 31 - 1) ->
   let '(a, t', e') := add_atom casemap t s e in
   atom_wf casemap t' /\
   ((exists i en, named casemap t s i en /\ a = Z.of_nat i + MIN_STR_ATOM /\ e' = e /\
       forall j, view t' j = if decide (i = j) then Some (str en, count en + 1, pinned en) else view t j) \/
    ((forall i en, ~ named casemap t s i en) /\
     ((exists i, a = Z.of_nat i + MIN_STR_ATOM /\ view t i = None /\
         forall j, view t' j = if decide (i = j) then Some (s, 1, false) else view t j) \/
      (a = 0 /\ t' = t /\ error e' = STATUS_NO_MEMORY /\ (table_full t \/ allocs e <> [])))))) /\
  (forall a if_pinned e,
   let i := Z.to_nat (a - MIN_STR_ATOM) in
   let '(t', e') := delete_atom t a if_pinned e in
   atom_wf casemap t' /\
   if decide (MIN_STR_ATOM <= a) then
     match view t i with
     | None => t' = t /\ error e' = STATUS_INVALID_HANDLE
     | Some (s, c, p) =>
         if p && negb if_pinned then t' = t /\ error e' = STATUS_WAS_LOCKED
         else e' = e /\ forall j, view t' j =
                if decide (i = j) then (if c =? 1 then None else Some (s, c - 1, p)) else view t j
     end
   else t' = t /\ error e' = STATUS_INVALID_HANDLE).
Proof. intros W. split; intros; [by apply add_atom_spec|by apply delete_atom_ok]. Qed.

Lemma atom_ops_correct_witness :
  (let '(a, t', _) := add_atom ascii_casemap sample_atoms [72; 73] (mk_senv 0 []) in
   a = 0xc000 /\ atom_wf ascii_casemap t' /\ view t' 0 = Some ([72; 105], 2, false)) /\
  (let '(t', e') := delete_atom sample_atoms 0xc001 false (mk_senv 0 []) in
   atom_wf ascii_casemap t' /\ e' = mk_senv 0 [] /\ view t' 1 = None /\
   view t' 0 = Some ([72; 105], 1, false)).
Proof.
  destruct (atom_ops_correct ascii_casemap sample_atoms sample_atoms_wf) as [A D]. split.
  - split; [(vm_compute; reflexivity)|]. split; [|(vm_compute; reflexivity)].
    refine (proj1 (A [72; 73] (mk_senv 0 []) _ _)).
    + split; [(vm_compute; reflexivity)|vm_compute; discriminate].
    + intros [|[|i]] en [Hi _]; [| |destruct i; discriminate Hi]; injection Hi as <-; (vm_compute; reflexivity).
  - pose proof (D 0xc001 false (mk_senv 0 [])) as H.
    split; [exact (proj1 H)|]. split; [(vm_compute; reflexivity)|]. split; (vm_compute; reflexivity).
Defined.
