(* ===== verification/Handles.v ===== *)
(** * Handle tables: server/handle.c and the reference counts of server/object.c

    Every process has a table of handles; a table entry holds an object and the
    access rights granted, and keeps the object alive.  Server-wide (global)
    handles live in a table of their own and are recognised by their value.
    Objects are identified by their address; the world holds their reference
    counts and all the tables.  An entry with a null object pointer is [None],
    and the list [entries] runs up to the field [last]. *)

From Stdlib Require Import ZArith Lia.
From stdpp Require Import base list numbers option gmap.
From S2P Require Import Prelude.

#[local] Open Scope Z_scope.
#[local] Open Scope server_scope.

(** ** Data *)

(** The header of an object: the address of its operations and its counts. *)
Record object := mk_obj {
  ops : Z;
  refcount : Z;
  handle_count : Z
}.

Record handle_entry := mk_he {
  ptr : Z;
  access : Z
}.

#[export] Instance handle_entry_eq_dec : EqDecision handle_entry.
Proof. solve_decision. Defined.

Record handle_table := mk_ht {
  process : option Z;
  count : Z;
  free : nat;
  entries : list (option handle_entry)
}.

Definition last (table : handle_table) : Z := Z.of_nat (length (entries table)) - 1.

(** [dead] lists the objects whose last reference is gone, in the order in which
    their destructors run. *)
Record world := mk_world {
  objects : gmap Z object;
  dead : list Z;
  handles : gmap Z handle_table;
  global_table : option handle_table
}.

(** The methods of struct object_ops that handle tables call. *)
Record object_ops := mk_ops {
  map_access_op : Z -> Z -> Z;
  close_handle_op : Z -> option Z -> Z -> bool
}.

(** What the server knows of the thread that makes the request. *)
Record current_t := mk_current {
  cur_thread : Z;
  cur_process : Z;
  cur_token : option Z;
  cur_impersonation : option Z;
  cur_process_token : option Z
}.

Definition RESERVED_SHIFT : Z := 26.

Definition RESERVED_INHERIT : Z := Z.shiftl 1 RESERVED_SHIFT.

Definition RESERVED_CLOSE_PROTECT : Z := Z.shiftl 2 RESERVED_SHIFT.

Definition RESERVED_ALL : Z := Z.lor RESERVED_INHERIT RESERVED_CLOSE_PROTECT.

Definition MIN_HANDLE_ENTRIES : Z := 32.

Definition MAX_HANDLE_ENTRIES : Z := 0x00ffffff.

Definition HANDLE_OBFUSCATOR : Z := 0x544a4def.

Definition GENERIC_ALL : Z := 0x10000000.

Definition SYNCHRONIZE : Z := 0x00100000.

Definition MAXIMUM_ALLOWED : Z := 0x02000000.

Definition OBJ_INHERIT : Z := 2.

Definition DUPLICATE_CLOSE_SOURCE : Z := 1.

Definition DUPLICATE_SAME_ACCESS : Z := 2.

Definition DUPLICATE_MAKE_GLOBAL : Z := 0x80000000.

Definition STATUS_SUCCESS : Z := 0.

Definition STATUS_PENDING : Z := 0x00000103.

Definition STATUS_INVALID_HANDLE : Z := 0xC0000008.

Definition STATUS_INVALID_PARAMETER : Z := 0xC000000D.

Definition STATUS_ACCESS_DENIED : Z := 0xC0000022.

Definition STATUS_OBJECT_TYPE_MISMATCH : Z := 0xC0000024.

Definition STATUS_INSUFFICIENT_RESOURCES : Z := 0xC000009A.

Definition STATUS_PROCESS_IS_TERMINATING : Z := 0xC000010A.

Definition STATUS_HANDLE_NOT_CLOSABLE : Z := 0xC0000235.

(** ** Handle values *)

Definition index_to_handle (index : Z) : Z := u32 (Z.shiftl (index + 1) 2).

Definition handle_to_index (handle : Z) : Z := i32 (u32 (Z.shiftr handle 2 - 1)).

Definition handle_is_global (handle : Z) : bool :=
  Z.lxor handle HANDLE_OBFUSCATOR <=? Z.shiftl MAX_HANDLE_ENTRIES 2.

Definition handle_local_to_global (handle : Z) : Z :=
  if handle =? 0 then 0 else Z.lxor handle HANDLE_OBFUSCATOR.

Definition handle_global_to_local (handle : Z) : Z := Z.lxor handle HANDLE_OBFUSCATOR.

(** ** Reference counts (object.c) *)

Definition set_objects (w : world) (objs : gmap Z object) : world :=
  mk_world objs (dead w) (handles w) (global_table w).

Definition grab_object (w : world) (obj : Z) : world :=
  set_objects w (alter (fun o => mk_obj (ops o) (refcount o + 1) (handle_count o)) obj (objects w)).

(** At zero the object is destroyed and freed. *)
Definition release_object (w : world) (obj : Z) : world :=
  match objects w !! obj with
  | None => w
  | Some o =>
      if refcount o - 1 =? 0
      then mk_world (delete obj (objects w)) (dead w ++ [obj]) (handles w) (global_table w)
      else set_objects w (<[obj := mk_obj (ops o) (refcount o - 1) (handle_count o)]> (objects w))
  end.

(** A new object; [addr] is the address that malloc returns. *)
Definition alloc_object (w : world) (addr : Z) (obj_ops : Z) : M (option world) :=
  let* ok := mem_alloc in
  if ok then ret (Some (set_objects w (<[addr := mk_obj obj_ops 1 0]> (objects w)))) else ret None.

Definition grab_object_for_handle (w : world) (obj : Z) : world :=
  grab_object
    (set_objects w (alter (fun o => mk_obj (ops o) (refcount o) (handle_count o + 1)) obj (objects w)))
    obj.

Definition release_object_from_handle (w : world) (obj : Z) : world :=
  release_object
    (set_objects w (alter (fun o => mk_obj (ops o) (refcount o) (handle_count o - 1)) obj (objects w)))
    obj.

(** ** Tables *)

(** The table of a process, or the global table for [None]. *)
Definition get_table (w : world) (slot : option Z) : option handle_table :=
  match slot with
  | Some p => handles w !! p
  | None => global_table w
  end.

Definition set_table (w : world) (slot : option Z) (t : handle_table) : world :=
  match slot with
  | Some p => mk_world (objects w) (dead w) (<[p := t]> (handles w)) (global_table w)
  | None => mk_world (objects w) (dead w) (handles w) (Some t)
  end.

Definition entry_at (t : handle_table) (i : nat) : option handle_entry := mjoin (entries t !! i).

Definition alloc_handle_table (proc : option Z) (count : Z) : M (option handle_table) :=
  let count := if count <? MIN_HANDLE_ENTRIES then MIN_HANDLE_ENTRIES else count in
  let* ok := mem_alloc in
  if negb ok then ret None
  else
    let* ok := mem_alloc in
    if negb ok then ret None else ret (Some (mk_ht proc count 0 [])).

Definition grow_handle_table (t : handle_table) : M (handle_table * bool) :=
  let new_count := Z.min (count t * 2) MAX_HANDLE_ENTRIES in
  let* ok := if new_count =? count t then ret false else malloc in
  if negb ok then set_error STATUS_INSUFFICIENT_RESOURCES ;;; ret (t, false)
  else ret (mk_ht (process t) new_count (free t) (entries t), true).

(** Index of the first empty entry, or the length. *)
Fixpoint first_empty (es : list (option handle_entry)) : nat :=
  match es with
  | [] => O
  | None :: _ => O
  | Some _ :: es => S (first_empty es)
  end.

(** The callers make sure that the table exists. *)
Definition alloc_entry (w : world) (slot : option Z) (obj acc : Z) : M (Z * world) :=
  match get_table w slot with
  | None => ret (0, w)
  | Some t =>
      let i := (free t + first_empty (drop (free t) (entries t)))%nat in
      let store (t : handle_table) :=
        let e := Some (mk_he obj acc) in
        let es := if (i <? length (entries t))%nat then <[i := e]> (entries t) else entries t ++ [e] in
        ret (index_to_handle (Z.of_nat i),
             grab_object_for_handle (set_table w slot (mk_ht (process t) (count t) (i + 1) es)) obj) in
      if (i <? length (entries t))%nat then store t
      else if count t <=? Z.of_nat i then
        let* (t, ok) := grow_handle_table t in
        if ok then store t else ret (0, w)
      else store t
  end.

(** Drop the empty entries at the end. *)
Fixpoint strip_empty (es : list (option handle_entry)) : list (option handle_entry) :=
  match es with
  | [] => []
  | e :: es =>
      match strip_empty es with
      | [] => match e with None => [] | Some _ => [e] end
      | es => e :: es
      end
  end.

Definition shrink_handle_table (t : handle_table) : M handle_table :=
  let t := mk_ht (process t) (count t) (free t) (strip_empty (entries t)) in
  if count t / 4 <=? last t then ret t
  else if count t <? MIN_HANDLE_ENTRIES * 2 then ret t
  else
    let* ok := malloc in
    if negb ok then ret t
    else ret (mk_ht (process t) (count t / 2) (free t) (entries t)).

(** The table and the index of an entry. *)
Definition get_handle (w : world) (proc : Z) (handle : Z) : option (option Z * nat * handle_entry) :=
  let '(handle, slot) :=
    if handle_is_global handle then (handle_global_to_local handle, None) else (handle, Some proc) in
  match get_table w slot with
  | None => None
  | Some t =>
      let index := handle_to_index handle in
      if index <? 0 then None
      else if last t <? index then None
      else match entry_at t (Z.to_nat index) with
           | None => None
           | Some e => Some (slot, Z.to_nat index, e)
           end
  end.

Definition set_entry (w : world) (slot : option Z) (i : nat) (e : option handle_entry) : world :=
  match get_table w slot with
  | None => w
  | Some t => set_table w slot (mk_ht (process t) (count t) (free t) (<[i := e]> (entries t)))
  end.

Section server.
Variable ops_table : Z -> object_ops.
Variable current : current_t.
Variable check_object_access : option Z -> Z -> Z -> M (option Z).

(** The methods of an object. *)
Definition methods (w : world) (obj : Z) : object_ops :=
  match objects w !! obj with Some o => ops_table (ops o) | None => mk_ops (fun _ a => a) (fun _ _ _ => true) end.

(** [None] when the assertion that the rights hold no reserved bit fails. *)
Definition alloc_handle_entry (w : world) (proc : Z) (obj acc attr : Z) : M (option (Z * world)) :=
  if has_bits acc RESERVED_ALL then ret None
  else
    let acc := if has_bits attr OBJ_INHERIT then Z.lor acc RESERVED_INHERIT else acc in
    match handles w !! proc with
    | None => set_error STATUS_PROCESS_IS_TERMINATING ;;; ret (Some (0, w))
    | Some _ => let* x := alloc_entry w (Some proc) obj acc in ret (Some x)
    end.

Definition alloc_handle_no_access_check (w : world) (proc : Z) (obj acc attr : Z) : M (option (Z * world)) :=
  let acc := if has_bits acc MAXIMUM_ALLOWED then GENERIC_ALL else acc in
  let acc := Z.land (map_access_op (methods w obj) obj acc) (not32 RESERVED_ALL) in
  alloc_handle_entry w proc obj acc attr.

Definition alloc_handle (w : world) (proc : Z) (obj acc attr : Z) : M (option (Z * world)) :=
  let acc := Z.land (map_access_op (methods w obj) obj acc) (not32 RESERVED_ALL) in
  let* granted := if acc =? 0 then ret (Some acc) else check_object_access None obj acc in
  match granted with
  | None => ret (Some (0, w))
  | Some acc => alloc_handle_entry w proc obj acc attr
  end.

Definition alloc_handle_user_open (w : world) (proc : Z) (obj acc attr : Z) : M (option (Z * world)) :=
  if negb (acc =? 0) then alloc_handle w proc obj acc attr
  else set_error STATUS_ACCESS_DENIED ;;; ret (Some (0, w)).

Definition alloc_global_handle_no_access_check (w : world) (obj acc : Z) : M (Z * world) :=
  let* w' :=
    match global_table w with
    | Some _ => ret (Some w)
    | None =>
        let* t := alloc_handle_table None 0 in
        ret (match t with None => None | Some t => Some (set_table w None t) end)
    end in
  match w' with
  | None => ret (0, w)
  | Some w =>
      let* (h, w) := alloc_entry w None obj acc in
      ret (handle_local_to_global h, w)
  end.

Definition alloc_global_handle (w : world) (obj acc : Z) : M (Z * world) :=
  let* granted := if acc =? 0 then ret (Some acc) else check_object_access None obj acc in
  match granted with
  | None => ret (0, w)
  | Some acc => alloc_global_handle_no_access_check w obj acc
  end.

Definition close_handle (w : world) (proc : Z) (handle : Z) : M (Z * world) :=
  match get_handle w proc handle with
  | None => ret (STATUS_INVALID_HANDLE, w)
  | Some (slot, i, e) =>
      if has_bits (access e) RESERVED_CLOSE_PROTECT then ret (STATUS_HANDLE_NOT_CLOSABLE, w)
      else
        let obj := ptr e in
        if negb (close_handle_op (methods w obj) obj (Some proc) handle)
        then ret (STATUS_HANDLE_NOT_CLOSABLE, w)
        else
          match get_table w slot with
          | None => ret (STATUS_SUCCESS, w)
          | Some t =>
              let t := mk_ht (process t) (count t) (if (i <? free t)%nat then i else free t)
                             (<[i := None]> (entries t)) in
              let* t := if Z.of_nat i =? last t then shrink_handle_table t else ret t in
              ret (STATUS_SUCCESS, release_object_from_handle (set_table w slot t) obj)
          end
  end.

(** Close every entry: the loop of handle_table_destroy.  What the close_handle
    method answers is ignored there. *)
Fixpoint destroy_entries (es : list (option handle_entry)) (w : world) : world :=
  match es with
  | [] => w
  | None :: es => destroy_entries es w
  | Some e :: es => destroy_entries es (release_object_from_handle w (ptr e))
  end.

(** close_process_handles and, the process holding the only reference to its
    table, handle_table_destroy. *)
Definition close_process_handles (w : world) (proc : Z) : world :=
  match handles w !! proc with
  | None => w
  | Some t =>
      destroy_entries (entries t)
        (mk_world (objects w) (dead w) (delete proc (handles w)) (global_table w))
  end.

(** ** Inheritance *)

(** [entries[i] = e] in a zeroed array. *)
Definition put_entry (es : list (option handle_entry)) (i : nat) (e : option handle_entry) :
    list (option handle_entry) :=
  <[i := e]> (es ++ replicate (S i - length es) None).

(** [None] when [dst[index]] is outside the array. *)
Definition inherit_handle (w : world) (parent : Z) (handle : Z) (t : handle_table) :
    option (handle_table * world) :=
  match get_handle w parent handle with
  | None => Some (t, w)
  | Some (_, _, src) =>
      if negb (has_bits (access src) RESERVED_INHERIT) then Some (t, w)
      else
        let index := handle_to_index handle in
        if (index <? 0) || (count t <=? index) then None
        else
          match entry_at t (Z.to_nat index) with
          | Some _ => Some (t, w)
          | None =>
              Some (mk_ht (process t) (count t) (free t) (put_entry (entries t) (Z.to_nat index) (Some src)),
                    grab_object_for_handle w (ptr src))
          end
  end.

Fixpoint inherit_list (w : world) (parent : Z) (hs : list Z) (t : handle_table) :
    option (handle_table * world) :=
  match hs with
  | [] => Some (t, w)
  | h :: hs =>
      match inherit_handle w parent h t with
      | None => None
      | Some (t, w) => inherit_list w parent hs t
      end
  end.

(** The loop over the copied entries: keep and grab the inheritable ones. *)
Fixpoint inherit_entries (es : list (option handle_entry)) (w : world) : list (option handle_entry) * world :=
  match es with
  | [] => ([], w)
  | None :: es => let '(es, w) := inherit_entries es w in (None :: es, w)
  | Some e :: es =>
      if has_bits (access e) RESERVED_INHERIT then
        let '(es, w) := inherit_entries es (grab_object_for_handle w (ptr e)) in (Some e :: es, w)
      else let '(es, w) := inherit_entries es w in (None :: es, w)
  end.

(** [hs] is the explicit list of handles with the three standard handles, or
    [None] to inherit all.  The outer [None] is an access outside the table. *)
Definition copy_handle_table (w : world) (proc parent : Z) (hs : option (list Z * list Z)) :
    M (option (option handle_table * world)) :=
  match handles w !! parent with
  | None => ret (Some (None, w))
  | Some parent_table =>
      let* t := alloc_handle_table (Some proc) (count parent_table) in
      match t with
      | None => ret (Some (None, w))
      | Some t =>
          let filled :=
            match hs with
            | Some (l, std_handles) => inherit_list w parent (l ++ std_handles) t
            | None =>
                let '(es, w) := inherit_entries (entries parent_table) w in
                Some (mk_ht (process t) (count t) (free t) es, w)
            end in
          match filled with
          | None => ret None
          | Some (t, w) =>
              let* t := shrink_handle_table t in
              ret (Some (Some t, w))
          end
      end
  end.

(** ** Queries *)

Definition get_magic_handle (handle : Z) : option Z :=
  if handle =? 0xfffffffa then cur_impersonation current
  else if handle =? 0xfffffffb then cur_token current
  else if handle =? 0xfffffffc then cur_process_token current
  else if handle =? 0xfffffffe then Some (cur_thread current)
  else if (handle =? 0x7fffffff) || (handle =? 0xffffffff) then Some (cur_process current)
  else None.

(** [ops && (obj->ops != ops)]. *)
Definition wrong_type (w : world) (obj : Z) (expected : option Z) : bool :=
  match expected, objects w !! obj with
  | Some x, Some o => negb (ops o =? x)
  | _, _ => false
  end.

Definition get_handle_obj (w : world) (proc handle acc : Z) (expected : option Z) : M (option Z * world) :=
  match get_magic_handle handle with
  | None =>
      match get_handle w proc handle with
      | None => set_error STATUS_INVALID_HANDLE ;;; ret (None, w)
      | Some (_, _, e) =>
          if wrong_type w (ptr e) expected
          then set_error STATUS_OBJECT_TYPE_MISMATCH ;;; ret (None, w)
          else if negb (Z.land (access e) acc =? acc)
          then set_error STATUS_ACCESS_DENIED ;;; ret (None, w)
          else ret (Some (ptr e), grab_object w (ptr e))
      end
  | Some obj =>
      if wrong_type w obj expected
      then set_error STATUS_OBJECT_TYPE_MISMATCH ;;; ret (None, w)
      else ret (Some obj, grab_object w obj)
  end.

Definition get_handle_access (w : world) (proc handle : Z) : Z :=
  match get_magic_handle handle with
  | Some _ => not32 RESERVED_ALL
  | None =>
      match get_handle w proc handle with
      | None => 0
      | Some (_, _, e) => Z.land (access e) (not32 RESERVED_ALL)
      end
  end.

Fixpoint find_inherited (w : world) (expected : Z) (i : nat) (es : list (option handle_entry)) : Z :=
  match es with
  | [] => 0
  | None :: es => find_inherited w expected (S i) es
  | Some e :: es =>
      if wrong_type w (ptr e) (Some expected) then find_inherited w expected (S i) es
      else if has_bits (access e) RESERVED_INHERIT then index_to_handle (Z.of_nat i)
      else find_inherited w expected (S i) es
  end.

Definition find_inherited_handle (w : world) (proc expected : Z) : Z :=
  match handles w !! proc with
  | None => 0
  | Some t => find_inherited w expected 0 (entries t)
  end.

(** Entries of a list that hold [obj]. *)
Fixpoint count_entries (obj : Z) (es : list (option handle_entry)) : Z :=
  match es with
  | [] => 0
  | Some e :: es => (if ptr e =? obj then 1 else 0) + count_entries obj es
  | None :: es => count_entries obj es
  end.

Definition get_obj_handle_count (w : world) (proc obj : Z) : Z :=
  match handles w !! proc with
  | None => 0
  | Some t => count_entries obj (entries t)
  end.

Definition get_handle_table_count (w : world) (proc : Z) : Z :=
  match handles w !! proc with None => 0 | Some t => count t end.

(** ** Flags and duplication *)

(** The new access of an entry. *)
Definition with_flags (acc mask flags : Z) : Z :=
  let mask := Z.land (u32 (Z.shiftl mask RESERVED_SHIFT)) RESERVED_ALL in
  let flags := Z.land (u32 (Z.shiftl flags RESERVED_SHIFT)) mask in
  Z.lor (Z.land acc (not32 mask)) flags.

Definition set_handle_flags (w : world) (proc handle mask flags : Z) : M (Z * world) :=
  match get_magic_handle handle with
  | Some _ =>
      (if negb (mask =? 0) then set_error STATUS_ACCESS_DENIED else ret tt) ;;; ret (0, w)
  | None =>
      match get_handle w proc handle with
      | None => set_error STATUS_INVALID_HANDLE ;;; ret (-1, w)
      | Some (slot, i, e) =>
          ret (Z.shiftr (Z.land (access e) RESERVED_ALL) RESERVED_SHIFT,
               set_entry w slot i (Some (mk_he (ptr e) (with_flags (access e) mask flags))))
      end
  end.

(** [dst] is [None] when the caller passes a null process; the result is [None]
    when the code then reads [dst->token], or when an assertion fails. *)
Definition duplicate_handle (dst_token : Z -> option Z) (w : world) (src src_handle : Z) (dst : option Z)
    (acc attr options : Z) : M (option (Z * world)) :=
  let* (obj, w) := get_handle_obj w src src_handle 0 None in
  match obj with
  | None => ret (Some (0, w))
  | Some obj =>
      let entry := get_handle w src src_handle in
      let src_access := Z.land (match entry with
                                | Some (_, _, e) => access e
                                | None => map_access_op (methods w obj) obj GENERIC_ALL
                                end) (not32 RESERVED_ALL) in
      let acc := if has_bits options DUPLICATE_SAME_ACCESS then src_access
                 else Z.land (map_access_op (methods w obj) obj acc) (not32 RESERVED_ALL) in
      let finish (m : M (option (Z * world))) : M (option (Z * world)) :=
        let* x := m in ret (match x with Some (res, w) => Some (res, release_object w obj) | None => None end) in
      let global (m : M (Z * world)) : M (option (Z * world)) := finish (let* x := m in ret (Some x)) in
      if has_bits acc (not32 src_access) then
        let* granted := match cur_token current with
                        | Some t => check_object_access (Some t) obj acc
                        | None => ret (Some acc)
                        end in
        match granted with
        | None => finish (ret (Some (0, w)))
        | Some acc =>
            match dst with
            | None => ret None
            | Some d =>
                let* granted := check_object_access (dst_token d) obj acc in
                match granted with
                | None => finish (ret (Some (0, w)))
                | Some acc =>
                    if has_bits options DUPLICATE_MAKE_GLOBAL then global (alloc_global_handle w obj acc)
                    else finish (alloc_handle_no_access_check w d obj acc attr)
                end
            end
        end
      else if has_bits options DUPLICATE_MAKE_GLOBAL then
        global (alloc_global_handle_no_access_check w obj acc)
      else
        match dst with
        | None => ret None
        | Some d =>
            match entry with
            | Some (slot, i, e) =>
                if has_bits options DUPLICATE_CLOSE_SOURCE && (src =? d) &&
                   negb (has_bits (access e) RESERVED_CLOSE_PROTECT) then
                  let acc := if has_bits attr OBJ_INHERIT then Z.lor acc RESERVED_INHERIT else acc in
                  finish (ret (Some (src_handle, set_entry w slot i (Some (mk_he (ptr e) acc)))))
                else finish (alloc_handle_entry w d obj acc attr)
            | None => finish (alloc_handle_entry w d obj acc attr)
            end
        end
  end.

(** ** Request handlers *)

Definition req_close_handle (w : world) (handle : Z) : M world :=
  let* (err, w) := close_handle w (cur_process current) handle in
  set_error err ;;; ret w.

Definition req_set_handle_info (w : world) (handle mask flags : Z) : M (Z * world) :=
  set_handle_flags w (cur_process current) handle mask flags.

(** [src] and [dst] are the processes that the two process handles denote. *)
Definition req_dup_handle (dst_token : Z -> option Z) (w : world) (src dst : option Z)
    (src_handle acc attr options : Z) : M (option (Z * world)) :=
  match src with
  | None => ret (Some (0, w))
  | Some s =>
      let close_source (dst : option Z) (res : Z) (w : world) : M (option (Z * world)) :=
        if has_bits options DUPLICATE_CLOSE_SOURCE &&
           (negb (bool_decide (src = dst)) || negb (src_handle =? res)) then
          let* (_, w) := close_handle w s src_handle in ret (Some (res, w))
        else ret (Some (res, w)) in
      if has_bits options DUPLICATE_MAKE_GLOBAL then
        let* r := duplicate_handle dst_token w s src_handle None acc attr options in
        match r with None => ret None | Some (res, w) => close_source None res w end
      else
        match dst with
        | None => close_source None 0 w
        | Some _ =>
            let* r := duplicate_handle dst_token w s src_handle dst acc attr options in
            match r with None => ret None | Some (res, w) => close_source dst res w end
        end
  end.

(** The access, the reference count and the handle count in the reply; the
    counts include the reference that the handler holds. *)
Definition req_get_object_info (w : world) (handle : Z) : M (option (Z * Z * Z) * world) :=
  let* (obj, w) := get_handle_obj w (cur_process current) handle 0 None in
  match obj with
  | None => ret (None, w)
  | Some obj =>
      let '(rc, hc) := match objects w !! obj with
                       | Some o => (refcount o, handle_count o)
                       | None => (0, 0)
                       end in
      ret (Some (get_handle_access w (cur_process current) handle, rc, hc), release_object w obj)
  end.
End server.
