(* ===== verification/HandleTheorems.v ===== *)
(** * Handle tables: the table invariant and the reference counts

    A table has no entries beyond the last used one, none missing below [free],
    and stays within its allocation; the handle count of every object is the
    number of table entries that hold it, and its reference count covers them,
    so no entry is ever left with an object that has been freed. *)

From Stdlib Require Import ZArith Lia.
From stdpp Require Import base list numbers option gmap.
From S2P Require Import Prelude Handles.

#[local] Open Scope Z_scope.
#[local] Open Scope server_scope.

(** ** Entries of a table *)

Definition is_entry (o : option handle_entry) (obj : Z) : Z :=
  match o with Some e => if ptr e =? obj then 1 else 0 | None => 0 end.

Lemma count_entries_cons obj o es : count_entries obj (o :: es) = is_entry o obj + count_entries obj es.
Proof. by destruct o. Qed.

Lemma count_entries_app obj es1 es2 :
  count_entries obj (es1 ++ es2) = count_entries obj es1 + count_entries obj es2.
Proof.
  induction es1 as [|o es1 IH]; [done|]. cbn [app]. rewrite !count_entries_cons, IH. lia.
Qed.

Lemma is_entry_bound o obj : 0 <= is_entry o obj <= 1.
Proof. destruct o as [e|]; cbn; [destruct (ptr e =? obj)|]; lia. Qed.

Lemma count_entries_nonneg obj es : 0 <= count_entries obj es.
Proof. induction es as [|o es IH]; [done|]. rewrite count_entries_cons. pose proof (is_entry_bound o obj). lia. Qed.

Lemma count_entries_insert obj es : forall i o,
  (i < length es)%nat ->
  count_entries obj (<[i := o]> es) = count_entries obj es - is_entry (mjoin (es !! i)) obj + is_entry o obj.
Proof.
  induction es as [|o' es IH]; intros i o Hi; [cbn in Hi; lia|]. destruct i as [|i].
  - cbn [insert list_insert lookup list_lookup mjoin option_join]. rewrite !count_entries_cons. lia.
  - change (<[S i := o]> (o' :: es)) with (o' :: <[i := o]> es). rewrite !count_entries_cons, IH by (cbn in Hi; lia).
    change ((o' :: es) !! S i) with (es !! i). lia.
Qed.

Lemma count_entries_replicate obj n : count_entries obj (replicate n None) = 0.
Proof. by induction n. Qed.

Lemma count_entries_put obj es i o :
  mjoin (es !! i) = None -> count_entries obj (put_entry es i o) = count_entries obj es + is_entry o obj.
Proof.
  intros H. unfold put_entry.
  rewrite count_entries_insert by (rewrite length_app, length_replicate; lia).
  rewrite count_entries_app, count_entries_replicate.
  replace (mjoin ((es ++ replicate (S i - length es) None) !! i)) with (@None handle_entry); [cbn; lia|].
  destruct (decide (i < length es)%nat); [by rewrite lookup_app_l|].
  rewrite lookup_app_r by lia. destruct (replicate _ None !! _) as [x|] eqn:E; [|done].
  apply lookup_replicate in E as [-> _]. done.
Qed.

(** An entry that exists is counted. *)
Lemma count_entries_at obj es i e : mjoin (es !! i) = Some e -> ptr e = obj -> 1 <= count_entries obj es.
Proof.
  revert i. induction es as [|o es IH]; intros i; [done|]. destruct i as [|i]; cbn [lookup list_lookup].
  - cbn. intros -> <-. rewrite Z.eqb_refl. pose proof (count_entries_nonneg (ptr e) es). lia.
  - intros H1 H2. specialize (IH i H1 H2). rewrite count_entries_cons. pose proof (is_entry_bound o obj). lia.
Qed.

Lemma count_entries_pos obj es : 0 < count_entries obj es -> exists i e, mjoin (es !! i) = Some e /\ ptr e = obj.
Proof.
  induction es as [|o es IH]; [done|]. rewrite count_entries_cons. intros H.
  destruct (decide (is_entry o obj = 0)) as [E|E].
  - destruct IH as (i & e & Hi & He); [lia|]. by exists (S i), e.
  - destruct o as [e|]; [|done]. exists 0%nat, e. split; [done|]. cbn in E. by destruct (Z.eqb_spec (ptr e) obj).
Qed.

(** ** strip_empty *)

Lemma strip_empty_cases o es :
  strip_empty (o :: es) =
    match strip_empty es with [] => match o with None => [] | Some _ => [o] end | es' => o :: es' end.
Proof. done. Qed.

Lemma strip_empty_at es i : mjoin (strip_empty es !! i) = mjoin (es !! i).
Proof.
  revert i. induction es as [|o es IH]; intros i; [done|]. rewrite strip_empty_cases.
  destruct (strip_empty es) as [|o' es'] eqn:E.
  - destruct o as [e|], i as [|i]; cbn [lookup list_lookup]; try done; rewrite <-IH; done.
  - destruct i as [|i]; [done|]. cbn [lookup list_lookup]. apply IH.
Qed.

Lemma strip_empty_length es : (length (strip_empty es) <= length es)%nat.
Proof.
  induction es as [|o es IH]; [done|]. rewrite strip_empty_cases.
  destruct (strip_empty es); [destruct o; cbn; lia|cbn in *; lia].
Qed.

Lemma strip_empty_idem es : strip_empty (strip_empty es) = strip_empty es.
Proof.
  induction es as [|o es IH]; [done|]. rewrite strip_empty_cases.
  destruct (strip_empty es) as [|o' es'] eqn:E; [by destruct o|]. by rewrite strip_empty_cases, IH.
Qed.

Lemma strip_empty_count obj es : count_entries obj (strip_empty es) = count_entries obj es.
Proof.
  induction es as [|o es IH]; [done|]. rewrite strip_empty_cases, count_entries_cons, <-IH.
  destruct (strip_empty es) as [|o' es']; [by destruct o|]. by rewrite count_entries_cons.
Qed.

(** Nothing to strip: the last entry is in use. *)
Definition ends_used (es : list (option handle_entry)) : Prop := strip_empty es = es.

Lemma ends_used_snoc es e : ends_used (es ++ [Some e]).
Proof. unfold ends_used. induction es as [|o es IH]; [done|]. cbn [app]. rewrite strip_empty_cases, IH. by destruct es. Qed.

Lemma ends_used_insert es i e : ends_used es -> ends_used (<[i := Some e]> es).
Proof.
  unfold ends_used. revert i. induction es as [|o es IH]; intros i H; [done|]. rewrite strip_empty_cases in H.
  assert (Hes : strip_empty es = es).
  { destruct (strip_empty es) as [|o' es']; [destruct o; congruence|congruence]. }
  destruct i as [|i].
  - change (<[0%nat := Some e]> (o :: es)) with (Some e :: es). rewrite strip_empty_cases, Hes. by destruct es.
  - change (<[S i := Some e]> (o :: es)) with (o :: <[i := Some e]> es). rewrite strip_empty_cases, IH by done.
    destruct es as [|o' es']; [by destruct o|]. by destruct i.
Qed.

(** Clearing an entry other than the last leaves the last in use. *)
Lemma ends_used_clear es i : ends_used es -> (S i < length es)%nat -> ends_used (<[i := None]> es).
Proof.
  unfold ends_used. revert i. induction es as [|o es IH]; intros i H Hi; [cbn in Hi; lia|].
  rewrite strip_empty_cases in H.
  assert (Hes : strip_empty es = es).
  { destruct (strip_empty es) as [|o' es']; [destruct o; congruence|congruence]. }
  destruct i as [|i].
  - change (<[0%nat := None]> (o :: es)) with (None :: es). rewrite strip_empty_cases, Hes.
    destruct es; [cbn in Hi; lia|done].
  - change (<[S i := None]> (o :: es)) with (o :: <[i := None]> es). rewrite strip_empty_cases, IH; [|done|cbn in Hi; lia].
    destruct es as [|o' es']; [cbn in Hi; lia|]. by destruct i.
Qed.

(** ** The table invariant *)

Record table_wf (t : handle_table) : Prop := {
  tw_count : MIN_HANDLE_ENTRIES <= count t <= MAX_HANDLE_ENTRIES;
  tw_length : Z.of_nat (length (entries t)) <= count t;
  tw_free : (free t <= length (entries t))%nat;
  tw_used : forall i, (i < free t)%nat -> is_Some (entry_at t i);
  tw_last : ends_used (entries t)
}.

Lemma shrink_spec t e :
  MIN_HANDLE_ENTRIES <= count t <= MAX_HANDLE_ENTRIES -> Z.of_nat (length (entries t)) <= count t ->
  (forall i, (i < free t)%nat -> is_Some (entry_at t i)) ->
  let t' := fst (shrink_handle_table t e) in
  table_wf t' /\ (forall i, entry_at t' i = entry_at t i) /\
  (forall obj, count_entries obj (entries t') = count_entries obj (entries t)).
Proof.
  intros Hc Hl Hu. set (es := strip_empty (entries t)).
  assert (Hw : forall n, MIN_HANDLE_ENTRIES <= n <= MAX_HANDLE_ENTRIES -> Z.of_nat (length es) <= n ->
    table_wf (mk_ht (process t) n (free t) es)).
  { intros n Hn Hn'. split; cbn; [done|done| | |apply strip_empty_idem].
    - destruct (decide (free t <= length es)%nat) as [|Hgt]; [done|]. exfalso.
      destruct (Hu (length es) ltac:(lia)) as [x Hx]. unfold entry_at in Hx. rewrite <-strip_empty_at in Hx. fold es in Hx.
      by rewrite lookup_ge_None_2 in Hx.
    - intros i Hi. unfold entry_at. cbn. unfold es. rewrite strip_empty_at. by apply Hu. }
  pose proof (strip_empty_length (entries t)) as Hsl. fold es in Hsl.
  assert (Hall : forall n, MIN_HANDLE_ENTRIES <= n <= MAX_HANDLE_ENTRIES -> Z.of_nat (length es) <= n ->
    let t' := mk_ht (process t) n (free t) es in
    table_wf t' /\ (forall i, entry_at t' i = entry_at t i) /\
    (forall obj, count_entries obj (entries t') = count_entries obj (entries t))).
  { intros n Hn Hn'. split; [by apply Hw|]. split; [intros i; apply strip_empty_at|intros obj; apply strip_empty_count]. }
  unfold shrink_handle_table. cbn [count entries free process]. fold es. unfold last. cbn [entries].
  unfold MIN_HANDLE_ENTRIES, MAX_HANDLE_ENTRIES in *.
  destruct (Z.leb_spec (count t / 4) (Z.of_nat (length es) - 1)); [apply Hall; lia|].
  destruct (Z.ltb_spec (count t) (32 * 2)); [apply Hall; lia|].
  unfold bind. destruct (malloc e) as [[] e']; cbn [negb ret fst]; apply Hall; try lia.
  - Z.to_euclidean_division_equations; lia.
  - Z.to_euclidean_division_equations; lia.
Qed.

Lemma alloc_handle_table_spec proc n e :
  exists e', alloc_handle_table proc n e = (None, e') \/
    alloc_handle_table proc n e = (Some (mk_ht proc (Z.max n MIN_HANDLE_ENTRIES) 0 []), e').
Proof.
  unfold alloc_handle_table, bind. destruct (mem_alloc e) as [[] e1]; [|exists e1; by left]. cbn [negb].
  destruct (mem_alloc e1) as [[] e2]; [|exists e2; by left]. exists e2. right. cbn [negb ret]. do 3 f_equal.
  destruct (Z.ltb_spec n MIN_HANDLE_ENTRIES); lia.
Qed.

Lemma new_table_wf proc n :
  n <= MAX_HANDLE_ENTRIES -> table_wf (mk_ht proc (Z.max n MIN_HANDLE_ENTRIES) 0 []).
Proof. unfold MAX_HANDLE_ENTRIES, MIN_HANDLE_ENTRIES. intros Hn. split; cbn; try done; unfold MAX_HANDLE_ENTRIES, MIN_HANDLE_ENTRIES; lia. Qed.

(** ** Handle values *)

Lemma index_to_handle_value i : 0 <= i < MAX_HANDLE_ENTRIES ->
  index_to_handle i = (i + 1) * 4 /\ 0 < (i + 1) * 4 < 2 ^ 26.
Proof.
  unfold MAX_HANDLE_ENTRIES, index_to_handle. intros Hi. rewrite Z.shiftl_mul_pow2 by lia.
  unfold u32. rewrite Z.mod_small; lia.
Qed.

Lemma handle_to_index_to_handle i : 0 <= i < MAX_HANDLE_ENTRIES -> handle_to_index (index_to_handle i) = i.
Proof.
  intros Hi. destruct (index_to_handle_value i Hi) as [-> _]. unfold handle_to_index, MAX_HANDLE_ENTRIES in *.
  rewrite Z.shiftr_div_pow2 by lia. change (2 ^ 2) with 4. rewrite Z.div_mul by lia.
  unfold u32, i32. rewrite (Z.mod_small (i + 1 - 1)) by lia. rewrite Z.mod_small; lia.
Qed.

(** The obfuscator sets bits that no local handle has. *)
Lemma local_obfuscated h : 0 <= h < 2 ^ 26 -> Z.shiftr (Z.lxor h HANDLE_OBFUSCATOR) 26 = 21.
Proof.
  intros Hh. rewrite Z.shiftr_lxor, (Z.shiftr_div_pow2 h) by lia. rewrite Z.div_small by lia. done.
Qed.

Lemma local_not_global h : 0 <= h < 2 ^ 26 -> handle_is_global h = false.
Proof.
  intros Hh. unfold handle_is_global. apply Z.leb_gt. change (Z.shiftl MAX_HANDLE_ENTRIES 2) with 0x3fffffc.
  pose proof (local_obfuscated h Hh) as E. rewrite Z.shiftr_div_pow2 in E by lia.
  set (x := Z.lxor h HANDLE_OBFUSCATOR) in *. Z.to_euclidean_division_equations; lia.
Qed.

Lemma global_is_global h : 0 < h <= Z.shiftl MAX_HANDLE_ENTRIES 2 ->
  handle_is_global (handle_local_to_global h) = true /\
  handle_global_to_local (handle_local_to_global h) = h.
Proof.
  intros Hh. unfold handle_local_to_global, handle_is_global, handle_global_to_local.
  destruct (Z.eqb_spec h 0); [lia|]. rewrite Z.lxor_assoc, Z.lxor_nilpotent, Z.lxor_0_r.
  split; [apply Z.leb_le; lia|done].
Qed.

(** ** Allocation in a table *)

Lemma first_empty_spec es :
  (first_empty es <= length es)%nat /\ mjoin (es !! first_empty es) = None /\
  forall i, (i < first_empty es)%nat -> is_Some (mjoin (es !! i)).
Proof.
  induction es as [|[e|] es (IH1 & IH2 & IH3)]; cbn [first_empty length].
  - split; [lia|]. split; [done|]. lia.
  - split; [lia|]. split; [done|]. intros [|i] Hi; [by eexists|]. apply IH3. lia.
  - split; [lia|]. split; [done|]. lia.
Qed.

(** The entry that alloc_entry takes: the lowest free one. *)
Definition alloc_index (t : handle_table) : nat := (free t + first_empty (drop (free t) (entries t)))%nat.

Lemma alloc_index_spec t :
  table_wf t ->
  (alloc_index t <= length (entries t))%nat /\ entry_at t (alloc_index t) = None /\
  forall i, (i < alloc_index t)%nat -> is_Some (entry_at t i).
Proof.
  intros W. destruct (first_empty_spec (drop (free t) (entries t))) as (H1 & H2 & H3).
  pose proof (tw_free t W) as Hf. rewrite length_drop in H1. unfold alloc_index, entry_at in *.
  split; [lia|]. rewrite lookup_drop in H2. split; [done|]. intros i Hi.
  destruct (decide (i < free t)%nat) as [?|Hge]; [by apply (tw_used t W)|].
  specialize (H3 (i - free t)%nat ltac:(lia)). rewrite lookup_drop in H3.
  by replace (free t + (i - free t))%nat with i in H3 by lia.
Qed.

(** The table after an entry has been stored. *)
Definition stored_entry (t : handle_table) (n : Z) (e : handle_entry) : handle_table :=
  let i := alloc_index t in
  mk_ht (process t) n (i + 1)
    (if (i <? length (entries t))%nat then <[i := Some e]> (entries t) else entries t ++ [Some e]).

Lemma stored_entry_spec t n e :
  table_wf t -> MIN_HANDLE_ENTRIES <= n <= MAX_HANDLE_ENTRIES -> Z.of_nat (alloc_index t) < n ->
  Z.of_nat (length (entries t)) <= n ->
  table_wf (stored_entry t n e) /\
  (forall j, entry_at (stored_entry t n e) j = if decide (alloc_index t = j) then Some e else entry_at t j) /\
  (forall obj, count_entries obj (entries (stored_entry t n e)) = count_entries obj (entries t) + is_entry (Some e) obj).
Proof.
  intros W Hn Hi Hl. destruct (alloc_index_spec t W) as (H1 & H2 & H3). set (i := alloc_index t) in *.
  assert (Hat : forall j, entry_at (stored_entry t n e) j = if decide (i = j) then Some e else entry_at t j).
  { intros j. unfold entry_at, stored_entry. cbn [entries]. fold i. destruct (Nat.ltb_spec i (length (entries t))).
    - case_decide; [subst; by rewrite list_lookup_insert_eq|by rewrite list_lookup_insert_ne].
    - assert (i = length (entries t)) as -> by lia. case_decide; [subst; by rewrite list_lookup_middle|].
      destruct (decide (j < length (entries t))%nat); [by rewrite lookup_app_l|].
      rewrite lookup_app_r by lia. rewrite (lookup_ge_None_2 (entries t) j) by lia.
      by destruct (j - length (entries t))%nat eqn:E; [lia|]. }
  assert (Hlen : (i < length (entries (stored_entry t n e)))%nat /\ Z.of_nat (length (entries (stored_entry t n e))) <= n).
  { unfold stored_entry. cbn [entries]. fold i. destruct (Nat.ltb_spec i (length (entries t)));
      [rewrite length_insert|rewrite length_app; cbn [length]]; lia. }
  split; [split|split; [done|]].
  - done.
  - apply Hlen.
  - cbn [free stored_entry]. fold i. lia.
  - cbn [free stored_entry]. fold i. intros j Hj. rewrite Hat. case_decide; [by eexists|]. apply H3. lia.
  - unfold stored_entry. cbn [entries]. fold i. destruct (Nat.ltb_spec i (length (entries t)));
      [apply ends_used_insert, (tw_last t W)|apply ends_used_snoc].
  - intros obj. unfold stored_entry. cbn [entries]. fold i. destruct (Nat.ltb_spec i (length (entries t))).
    + rewrite count_entries_insert by done. unfold entry_at in H2. rewrite H2. cbn [is_entry]. lia.
    + rewrite count_entries_app, count_entries_cons. cbn [count_entries]. lia.
Qed.

(** alloc_entry stores the entry, or fails when the table cannot grow. *)
Lemma alloc_entry_spec w slot t obj acc e :
  get_table w slot = Some t -> table_wf t ->
  let '(h, w', e') := alloc_entry w slot obj acc e in
  (exists n, MIN_HANDLE_ENTRIES <= n <= MAX_HANDLE_ENTRIES /\ Z.of_nat (alloc_index t) < n /\
     Z.of_nat (length (entries t)) <= n /\
     h = index_to_handle (Z.of_nat (alloc_index t)) /\ error e' = error e /\
     w' = grab_object_for_handle (set_table w slot (stored_entry t n (mk_he obj acc))) obj) \/
  (h = 0 /\ w' = w /\ error e' = STATUS_INSUFFICIENT_RESOURCES /\
   Z.of_nat (length (entries t)) = count t /\
   (count t = MAX_HANDLE_ENTRIES \/ exists tl, allocs e = false :: tl)).
Proof.
  intros Ht W. pose proof (alloc_index_spec t W) as (Hle & _ & _). pose proof (tw_count t W) as Hc.
  pose proof (tw_length t W) as Hl. unfold alloc_entry. rewrite Ht. fold (alloc_index t).
  set (i := alloc_index t) in *.
  destruct (Nat.ltb_spec i (length (entries t))) as [Hlt|Hge].
  { left. exists (count t). unfold stored_entry. fold i. destruct (Nat.ltb_spec i (length (entries t))); [|lia].
    split; [done|]. split; [lia|]. by split. }
  assert (Ei : i = length (entries t)) by lia. destruct (Z.leb_spec (count t) (Z.of_nat i)) as [Hfull|Hroom].
  2: { left. exists (count t). unfold stored_entry. fold i. destruct (Nat.ltb_spec i (length (entries t))); [lia|].
       split; [done|]. split; [lia|]. by split. }
  unfold grow_handle_table, bind, MIN_HANDLE_ENTRIES, MAX_HANDLE_ENTRIES in *.
  destruct (Z.eqb_spec (Z.min (count t * 2) 0xffffff) (count t)) as [Eq|Hne].
  { right. cbn. split; [done|]. split; [done|]. split; [done|]. split; [lia|]. left. lia. }
  assert (Hn : MIN_HANDLE_ENTRIES <= Z.min (count t * 2) 0xffffff <= MAX_HANDLE_ENTRIES
    /\ Z.of_nat i < Z.min (count t * 2) 0xffffff)
    by (unfold MIN_HANDLE_ENTRIES, MAX_HANDLE_ENTRIES; lia).
  unfold malloc. destruct (allocs e) as [|[] tl] eqn:Ha; cbn [negb ret].
  1,2: left; exists (Z.min (count t * 2) 0xffffff); unfold stored_entry; cbn [entries process count]; fold i;
    destruct (Nat.ltb_spec i (length (entries t))); [lia|];
    split; [apply Hn|]; split; [lia|]; split; [lia|done].
  right. split; [done|]. split; [done|]. split; [done|]. split; [lia|]. right. by exists tl.
Qed.
