(* ===== verification/HandleCounts.v ===== *)
(** * Handle counts and live objects

    The total number of table entries that hold an object, over all processes
    and the global table, and the invariant of the world: tables well formed,
    handle counts exact, every object held by an entry alive.  Each operation
    preserves it, and so does every sequence of them. *)

From Stdlib Require Import ZArith Lia.
From stdpp Require Import base list numbers option gmap.
From S2P Require Import Prelude Handles HandleTheorems.

#[local] Open Scope Z_scope.
#[local] Open Scope server_scope.

(** ** Totals *)

Definition held (ot : option handle_table) (obj : Z) : Z :=
  match ot with Some t => count_entries obj (entries t) | None => 0 end.

Definition sum_held (m : gmap Z handle_table) (obj : Z) : Z :=
  map_fold (fun _ t acc => count_entries obj (entries t) + acc) 0 m.

Definition total (w : world) (obj : Z) : Z := sum_held (handles w) obj + held (global_table w) obj.

Lemma sum_held_split m p obj : sum_held m obj = held (m !! p) obj + sum_held (delete p m) obj.
Proof.
  unfold sum_held. destruct (m !! p) as [t|] eqn:E.
  - rewrite (map_fold_delete_L _ 0 p t m); [done|intros; lia|done].
  - by rewrite delete_id.
Qed.

Lemma sum_held_insert m p t obj :
  sum_held (<[p := t]> m) obj = sum_held m obj - held (m !! p) obj + count_entries obj (entries t).
Proof.
  rewrite (sum_held_split (<[p := t]> m) p), (sum_held_split m p). rewrite lookup_insert_eq, delete_insert_eq. cbn. lia.
Qed.

Lemma sum_held_nonneg m obj : 0 <= sum_held m obj.
Proof.
  unfold sum_held. apply (map_fold_weak_ind (fun r _ => 0 <= r)); [done|].
  intros. pose proof (count_entries_nonneg obj (entries x)). lia.
Qed.

Lemma held_nonneg ot obj : 0 <= held ot obj.
Proof. destruct ot; [apply count_entries_nonneg|done]. Qed.

Lemma total_nonneg w obj : 0 <= total w obj.
Proof. unfold total. pose proof (sum_held_nonneg (handles w) obj). pose proof (held_nonneg (global_table w) obj). lia. Qed.

Lemma held_le_total w slot obj : held (get_table w slot) obj <= total w obj.
Proof.
  unfold total. destruct slot as [p|]; cbn [get_table].
  - rewrite (sum_held_split _ p). pose proof (sum_held_nonneg (delete p (handles w)) obj).
    pose proof (held_nonneg (global_table w) obj). lia.
  - pose proof (sum_held_nonneg (handles w) obj). lia.
Qed.

Lemma get_set_table w slot t slot' :
  get_table (set_table w slot t) slot' = if decide (slot = slot') then Some t else get_table w slot'.
Proof.
  destruct slot as [p|], slot' as [q|]; cbn; try done.
  - destruct (decide (p = q)) as [->|]; [by rewrite decide_True, lookup_insert_eq|].
    rewrite decide_False, lookup_insert_ne by congruence. done.
Qed.

Lemma total_set_table w slot t obj :
  total (set_table w slot t) obj = total w obj - held (get_table w slot) obj + count_entries obj (entries t).
Proof.
  destruct slot as [p|]; unfold total; cbn.
  - rewrite sum_held_insert. lia.
  - lia.
Qed.

(** ** The invariant *)

(** [tot] is how often each object is held. *)
Definition counts_ok (objs : gmap Z object) (tot : Z -> Z) : Prop :=
  forall obj, match objs !! obj with
              | None => tot obj = 0
              | Some o => handle_count o = tot obj /\ tot obj <= refcount o /\ 1 <= refcount o
              end.

Record world_wf (w : world) : Prop := {
  ww_tables : forall slot t, get_table w slot = Some t -> table_wf t;
  ww_counts : counts_ok (objects w) (total w)
}.

Lemma counts_ok_ext objs tot tot' : (forall x, tot x = tot' x) -> counts_ok objs tot -> counts_ok objs tot'.
Proof. intros E H x. rewrite <-E. apply H. Qed.

(** An entry holds a live object. *)
Lemma entry_alive w slot t i e :
  world_wf w -> get_table w slot = Some t -> entry_at t i = Some e ->
  exists o, objects w !! ptr e = Some o /\ 1 <= handle_count o <= refcount o.
Proof.
  intros W Ht He. pose proof (ww_counts w W (ptr e)) as Hc. pose proof (held_le_total w slot (ptr e)) as Hle.
  rewrite Ht in Hle. cbn in Hle. pose proof (count_entries_at (ptr e) (entries t) i e He eq_refl).
  destruct (objects w !! ptr e) as [o|]; [|lia]. exists o. split; [done|]. lia.
Qed.

Definition one (obj x : Z) : Z := if obj =? x then 1 else 0.

Lemma is_entry_one e x : is_entry (Some e) x = one (ptr e) x.
Proof. done. Qed.

(** *** Reference counting *)

Lemma grab_for_handle_objects w obj :
  objects (grab_object_for_handle w obj) =
    alter (fun o => mk_obj (ops o) (refcount o + 1) (handle_count o + 1)) obj (objects w).
Proof.
  unfold grab_object_for_handle, grab_object, set_objects. cbn [objects]. apply map_eq. intros x.
  destruct (decide (obj = x)) as [<-|Hne]; [|by rewrite !lookup_alter_ne].
  rewrite !lookup_alter_eq. by destruct (objects w !! obj).
Qed.

Lemma grab_counts w obj tot :
  is_Some (objects w !! obj) -> counts_ok (objects w) tot ->
  counts_ok (objects (grab_object_for_handle w obj)) (fun x => tot x + one obj x).
Proof.
  intros [o Ho] H x. rewrite grab_for_handle_objects. specialize (H x). unfold one.
  destruct (Z.eqb_spec obj x) as [<-|Hne].
  - rewrite lookup_alter_eq, Ho. rewrite Ho in H. cbn. lia.
  - rewrite lookup_alter_ne by done. destruct (objects w !! x); lia.
Qed.

Lemma release_counts w obj tot :
  0 < tot obj -> counts_ok (objects w) tot ->
  counts_ok (objects (release_object_from_handle w obj)) (fun x => tot x - one obj x).
Proof.
  intros Hpos H x. unfold release_object_from_handle, release_object, set_objects, one. cbn [objects].
  rewrite lookup_alter_eq. pose proof (H obj) as Ho. destruct (objects w !! obj) as [o|] eqn:Eo; [|lia].
  cbn [fmap option_fmap option_map refcount ops handle_count objects]. specialize (H x).
  destruct (Z.eqb_spec (refcount o - 1) 0) as [Hz|Hnz]; cbn [objects].
  - destruct (Z.eqb_spec obj x) as [<-|Hne]; [rewrite lookup_delete_eq; lia|].
    rewrite lookup_delete_ne, lookup_alter_ne by done. destruct (objects w !! x); lia.
  - destruct (Z.eqb_spec obj x) as [<-|Hne]; [rewrite lookup_insert_eq; cbn; lia|].
    rewrite lookup_insert_ne, lookup_alter_ne by done. destruct (objects w !! x); lia.
Qed.

(** Reference counting leaves the tables alone. *)
Lemma grab_tables w obj slot : get_table (grab_object_for_handle w obj) slot = get_table w slot.
Proof. by destruct slot. Qed.

Lemma release_tables w obj slot : get_table (release_object_from_handle w obj) slot = get_table w slot.
Proof. unfold release_object_from_handle, release_object. repeat case_match; by destruct slot. Qed.

Lemma grab_total w obj x : total (grab_object_for_handle w obj) x = total w x.
Proof. done. Qed.

Lemma release_total w obj x : total (release_object_from_handle w obj) x = total w x.
Proof. unfold release_object_from_handle, release_object. repeat case_match; done. Qed.

(** ** Operations *)

(** Storing a handle to a live object. *)
Lemma store_wf w slot t n obj acc :
  world_wf w -> get_table w slot = Some t -> is_Some (objects w !! obj) ->
  MIN_HANDLE_ENTRIES <= n <= MAX_HANDLE_ENTRIES -> Z.of_nat (alloc_index t) < n ->
  Z.of_nat (length (entries t)) <= n ->
  world_wf (grab_object_for_handle (set_table w slot (stored_entry t n (mk_he obj acc))) obj).
Proof.
  intros W Ht Ho Hn Hi Hl. pose proof (ww_tables w W slot t Ht) as Wt.
  destruct (stored_entry_spec t n (mk_he obj acc) Wt Hn Hi Hl) as (Wt' & _ & Hcnt). split.
  - intros s t'. rewrite grab_tables, get_set_table. case_decide; [by intros [= <-]|apply (ww_tables w W)].
  - eapply counts_ok_ext; [|apply grab_counts with (tot := total w)].
    + intros x. rewrite grab_total, total_set_table, Ht. cbn [held]. rewrite Hcnt, is_entry_one. cbn [ptr]. lia.
    + by destruct slot.
    + destruct slot; apply (ww_counts w W).
Qed.

Lemma alloc_entry_wf w slot obj acc e :
  world_wf w -> is_Some (get_table w slot) -> is_Some (objects w !! obj) ->
  world_wf (snd (fst (alloc_entry w slot obj acc e))).
Proof.
  intros W [t Ht] Ho. pose proof (alloc_entry_spec w slot t obj acc e Ht (ww_tables w W slot t Ht)) as H.
  destruct (alloc_entry w slot obj acc e) as [[h w'] e']. cbn [fst snd].
  destruct H as [(n & Hn & Hi & Hl & _ & _ & ->)|(_ & -> & _)]; [by apply store_wf|done].
Qed.

(** Replacing a table by one that holds one entry less, and releasing it. *)
Lemma release_wf w slot t t' obj :
  world_wf w -> get_table w slot = Some t -> table_wf t' -> 0 < total w obj ->
  (forall x, count_entries x (entries t') = count_entries x (entries t) - one obj x) ->
  world_wf (release_object_from_handle (set_table w slot t') obj).
Proof.
  intros W Ht Wt' Hpos Hcnt. split.
  - intros s t''. rewrite release_tables, get_set_table. case_decide; [by intros [= <-]|apply (ww_tables w W)].
  - eapply counts_ok_ext; [|apply release_counts with (tot := total w)].
    + intros x. rewrite release_total, total_set_table, Ht. cbn [held]. rewrite Hcnt. lia.
    + done.
    + destruct slot; apply (ww_counts w W).
Qed.

(** Changing an entry without changing its object. *)
Lemma set_entry_wf w slot t i e e' :
  world_wf w -> get_table w slot = Some t -> entry_at t i = Some e -> ptr e' = ptr e ->
  world_wf (set_entry w slot i (Some e')).
Proof.
  intros W Ht He Hp. pose proof (ww_tables w W slot t Ht) as Wt. unfold set_entry. rewrite Ht.
  assert (Hi : (i < length (entries t))%nat).
  { unfold entry_at in He. destruct (entries t !! i) eqn:E; [|done]. by eapply lookup_lt_Some. }
  split.
  - intros s t'. rewrite get_set_table. case_decide; [|apply (ww_tables w W)]. intros [= <-]. destruct Wt.
    split; cbn [count entries free]; rewrite ?length_insert; try done.
    + intros j Hj. unfold entry_at. cbn [entries]. destruct (decide (i = j)) as [->|].
      * rewrite list_lookup_insert_eq by done. by eexists.
      * rewrite list_lookup_insert_ne by done. by apply tw_used.
    + by apply ends_used_insert.
  - eapply counts_ok_ext; [|destruct slot; apply (ww_counts w W)].
    intros x. rewrite total_set_table, Ht. cbn [held entries]. rewrite count_entries_insert by done.
    unfold entry_at in He. rewrite He, !is_entry_one, Hp. lia.
Qed.

(** *** References of the caller *)

(** Some reference to [obj] is not held by a table. *)
Definition spare (w : world) (obj : Z) : Prop :=
  exists o, objects w !! obj = Some o /\ total w obj < refcount o.

Lemma spare_alive w obj : spare w obj -> is_Some (objects w !! obj).
Proof. intros (o & Ho & _). by exists o. Qed.

Lemma grab_object_wf w obj :
  world_wf w -> is_Some (objects w !! obj) -> world_wf (grab_object w obj) /\ spare (grab_object w obj) obj.
Proof.
  intros W [o Ho]. pose proof (ww_counts w W obj) as Hc. rewrite Ho in Hc. split; [split|].
  - intros [p|] t Ht; [exact (ww_tables w W (Some p) t Ht)|exact (ww_tables w W None t Ht)].
  - intros x. pose proof (ww_counts w W x) as H. cbn [objects grab_object set_objects].
    change (total (grab_object w obj) x) with (total w x).
    destruct (decide (obj = x)) as [<-|]; [rewrite lookup_alter_eq, Ho in *; cbn; lia|by rewrite lookup_alter_ne].
  - eexists. cbn [objects grab_object set_objects]. rewrite lookup_alter_eq, Ho. split; [done|].
    change (total (grab_object w obj) obj) with (total w obj). cbn. lia.
Qed.

Lemma release_object_wf w obj : world_wf w -> spare w obj -> world_wf (release_object w obj).
Proof.
  intros W (o & Ho & Hs). unfold release_object. rewrite Ho. pose proof (ww_counts w W obj) as Hc. rewrite Ho in Hc.
  pose proof (total_nonneg w obj).
  destruct (Z.eqb_spec (refcount o - 1) 0); (split; [by intros [p|] t Ht; [exact (ww_tables w W (Some p) t Ht)|exact (ww_tables w W None t Ht)]|]);
    intros x;
    pose proof (ww_counts w W x) as H'; cbn [objects set_objects];
    match goal with |- context [total ?w' x] => change (total w' x) with (total w x) end.
  - destruct (decide (obj = x)) as [<-|]; [rewrite lookup_delete_eq; lia|by rewrite lookup_delete_ne].
  - destruct (decide (obj = x)) as [<-|]; [rewrite lookup_insert_eq; cbn; lia|by rewrite lookup_insert_ne].
Qed.

(** What an allocation of a handle to [obj] guarantees. *)
Definition keeps (w : world) (obj : Z) (m : M (Z * world)) : Prop :=
  forall e, let w' := snd (fst (m e)) in world_wf w' /\ (spare w obj -> spare w' obj).

Lemma keeps_ret w obj h : world_wf w -> keeps w obj (ret (h, w)).
Proof. by intros W e. Qed.

(** The same, unless an assertion fails. *)
Definition keeps_checked (w : world) (obj : Z) (m : M (option (Z * world))) : Prop :=
  forall e, match fst (m e) with Some (_, w') => world_wf w' /\ (spare w obj -> spare w' obj) | None => True end.

Lemma keeps_checked_ret w obj h : world_wf w -> keeps_checked w obj (ret (Some (h, w))).
Proof. by intros W e. Qed.

Lemma keeps_asserted w obj m : keeps w obj m -> keeps_checked w obj (let* x := m in ret (Some x)).
Proof. intros K e. specialize (K e). unfold bind. by destruct (m e) as [[h w'] e']. Qed.

(** An access check before the allocation. *)
Lemma keeps_checked_check w obj (check : M (option Z)) k :
  world_wf w -> (forall a, keeps_checked w obj (k a)) ->
  keeps_checked w obj (let* granted := check in match granted with None => ret (Some (0, w)) | Some acc => k acc end).
Proof. intros W Hk e. unfold bind. destruct (check e) as [[a|] e1]; [apply Hk|by apply keeps_checked_ret]. Qed.

Lemma keeps_check w obj (check : M (option Z)) k :
  world_wf w -> (forall a, keeps w obj (k a)) ->
  keeps w obj (let* granted := check in match granted with None => ret (0, w) | Some acc => k acc end).
Proof. intros W Hk e. unfold bind. destruct (check e) as [[a|] e1]; [apply Hk|by apply keeps_ret]. Qed.

Lemma alloc_entry_keeps w slot obj acc :
  world_wf w -> is_Some (get_table w slot) -> is_Some (objects w !! obj) -> keeps w obj (alloc_entry w slot obj acc).
Proof.
  intros W Hs Ho e. split; [by apply alloc_entry_wf|]. destruct Hs as [t Ht].
  pose proof (ww_tables w W slot t Ht) as Wt.
  pose proof (alloc_entry_spec w slot t obj acc e Ht Wt) as H.
  destruct (alloc_entry w slot obj acc e) as [[h w'] e']. cbn [fst snd].
  destruct H as [(n & Hn & Hi & Hl & _ & _ & ->)|(_ & -> & _)]; [|done].
  destruct (stored_entry_spec t n (mk_he obj acc) Wt Hn Hi Hl) as (_ & _ & Hcnt).
  intros (o & Hob & Hlt). eexists. rewrite grab_for_handle_objects.
  replace (objects (set_table w slot _)) with (objects w) by (by destruct slot).
  rewrite lookup_alter_eq, Hob. split; [done|]. rewrite grab_total, total_set_table, Ht. cbn [held].
  rewrite Hcnt, is_entry_one. cbn [ptr refcount]. unfold one. rewrite Z.eqb_refl. lia.
Qed.

Section server.
Context (ops_table : Z -> object_ops) (current : current_t).
Context (check_object_access : option Z -> Z -> Z -> M (option Z)).

Lemma alloc_handle_entry_keeps w proc obj acc attr :
  world_wf w -> is_Some (objects w !! obj) -> keeps_checked w obj (alloc_handle_entry w proc obj acc attr).
Proof using.
  intros W Ho e. unfold alloc_handle_entry. destruct (has_bits acc RESERVED_ALL); [done|].
  destruct (handles w !! proc) eqn:E; [|by apply keeps_checked_ret]. revert e.
  apply keeps_asserted, alloc_entry_keeps; [done|by exists h|done].
Qed.

(** Rights without reserved bits pass the assertion. *)
Lemma unreserved acc : has_bits (Z.land acc (not32 RESERVED_ALL)) RESERVED_ALL = false.
Proof using. unfold has_bits. rewrite <-Z.land_assoc. change (Z.land (not32 RESERVED_ALL) RESERVED_ALL) with 0. by rewrite Z.land_0_r. Qed.

Lemma alloc_handle_keeps w proc obj acc attr :
  world_wf w -> is_Some (objects w !! obj) ->
  keeps_checked w obj (alloc_handle ops_table check_object_access w proc obj acc attr).
Proof using.
  intros W Ho. apply keeps_checked_check; [done|]. intros a. by apply alloc_handle_entry_keeps.
Qed.

Lemma alloc_global_keeps w obj acc :
  world_wf w -> is_Some (objects w !! obj) -> keeps w obj (alloc_global_handle_no_access_check w obj acc).
Proof using.
  intros W Ho e. unfold alloc_global_handle_no_access_check.
  assert (Hgo : forall w1 e1, world_wf w1 -> is_Some (global_table w1) -> objects w1 = objects w ->
    (spare w obj -> spare w1 obj) ->
    let w' := snd (fst ((let* (h, w2) := alloc_entry w1 None obj acc in
                         ret (handle_local_to_global h, w2)) e1)) in
    world_wf w' /\ (spare w obj -> spare w' obj)).
  { intros w1 e1 W1 Hg Eo Hsp. pose proof (alloc_entry_keeps w1 None obj acc W1 Hg) as H.
    rewrite Eo in H. destruct (H Ho e1) as [H1 H2]. unfold bind.
    destruct (alloc_entry w1 None obj acc e1) as [[h w2] e2]. cbn in *. auto. }
  destruct (global_table w) as [t|] eqn:Hg; [by apply (Hgo w e); [|exists t|..]|].
  destruct (alloc_handle_table_spec None 0 e) as [e' [E|E]].
  { rewrite (bind_run _ _ e None e') by (by rewrite (bind_run _ _ _ _ _ E)). by apply keeps_ret. }
  erewrite (bind_run _ _ e (Some (set_table w None _)) e') by (by rewrite (bind_run _ _ _ _ _ E)).
  set (t := mk_ht None _ _ _).
  assert (Htot : forall x, total (set_table w None t) x = total w x).
  { intros x. rewrite total_set_table. cbn [get_table]. rewrite Hg. cbn. lia. }
  apply Hgo; [|by eexists|done|].
  - split.
    + intros s t'. rewrite get_set_table. case_decide; [|apply (ww_tables w W)]. intros [= <-].
      by apply new_table_wf.
    + eapply counts_ok_ext; [|exact (ww_counts w W)]. intros x. by rewrite Htot.
  - intros (o & H1 & H2). exists o. split; [done|]. by rewrite Htot.
Qed.

Lemma alloc_global_checked_keeps w obj acc :
  world_wf w -> is_Some (objects w !! obj) -> keeps w obj (alloc_global_handle check_object_access w obj acc).
Proof using.
  intros W Ho. apply keeps_check; [done|]. intros a. by apply alloc_global_keeps.
Qed.

(** *** Lookup and closing *)

Lemma get_handle_entry w proc h slot i e :
  get_handle w proc h = Some (slot, i, e) ->
  slot = (if handle_is_global h then None else Some proc) /\
  exists t, get_table w slot = Some t /\ entry_at t i = Some e.
Proof using.
  unfold get_handle. destruct (handle_is_global h); cbn beta iota;
    (destruct (get_table w _) as [t|] eqn:Ht; [|done]); repeat (case_match; [done|]);
    case_match eqn:He; try done; intros [= <- <- <-]; (split; [done|]); by exists t.
Qed.

(** What close_handle does to a valid, unprotected handle. *)
Lemma close_handle_spec w proc h slot t i e env :
  world_wf w -> get_handle w proc h = Some (slot, i, e) -> get_table w slot = Some t ->
  has_bits (access e) RESERVED_CLOSE_PROTECT = false ->
  close_handle_op (methods ops_table w (ptr e)) (ptr e) (Some proc) h = true ->
  exists t' env', close_handle ops_table w proc h env =
      (STATUS_SUCCESS, release_object_from_handle (set_table w slot t') (ptr e), env') /\
    table_wf t' /\ (forall j, entry_at t' j = if decide (i = j) then None else entry_at t j) /\
    (forall x, count_entries x (entries t') = count_entries x (entries t) - one (ptr e) x).
Proof using.
  intros W Hg Ht Hp Hc. destruct (get_handle_entry _ _ _ _ _ _ Hg) as (_ & t0 & Ht0 & He).
  rewrite Ht in Ht0. injection Ht0 as <-. pose proof (ww_tables w W slot t Ht) as Wt.
  assert (Hi : (i < length (entries t))%nat).
  { unfold entry_at in He. destruct (entries t !! i) eqn:E; [|done]. by eapply lookup_lt_Some. }
  unfold close_handle. rewrite Hg, Hp, Hc, Ht. cbn [negb].
  set (t1 := mk_ht (process t) (count t) (if (i <? free t)%nat then i else free t) (<[i := None]> (entries t))).
  assert (H1 : forall j, entry_at t1 j = if decide (i = j) then None else entry_at t j).
  { intros j. unfold entry_at, t1. cbn [entries]. case_decide; [subst; by rewrite list_lookup_insert_eq|].
    by rewrite list_lookup_insert_ne. }
  assert (Hu : forall j, (j < free t1)%nat -> is_Some (entry_at t1 j)).
  { intros j. cbn [free t1]. rewrite H1. destruct (Nat.ltb_spec i (free t)); intros Hj; (case_decide; [lia|]);
      apply (tw_used t Wt); lia. }
  assert (Hcnt : forall x, count_entries x (entries t1) = count_entries x (entries t) - one (ptr e) x).
  { intros x. cbn [entries t1]. rewrite count_entries_insert by done. unfold entry_at in He.
    rewrite He, is_entry_one. cbn [is_entry]. lia. }
  assert (Hl : Z.of_nat (length (entries t1)) <= count t1) by (cbn [entries t1 count]; rewrite length_insert; apply Wt).
  destruct (Z.eqb_spec (Z.of_nat i) (last t1)) as [E|E].
  - unfold bind. destruct (shrink_spec t1 env (tw_count t Wt) Hl Hu) as (S1 & S2 & S3).
    destruct (shrink_handle_table t1 env) as [t2 env2]. cbn [fst ret] in *. exists t2, env2.
    split; [done|]. split; [done|]. split; [intros j; by rewrite S2|intros x; by rewrite S3].
  - exists t1, env. split; [done|]. split; [|done]. unfold last in E. cbn [entries t1] in E. rewrite length_insert in E.
    split; [apply Wt|done| |done|].
    + cbn [free t1 entries]. rewrite length_insert. pose proof (tw_free t Wt).
      destruct (Nat.ltb_spec i (free t)); lia.
    + cbn [entries t1]. apply ends_used_clear; [apply Wt|lia].
Qed.

Lemma close_handle_wf w proc h env : world_wf w -> world_wf (snd (fst (close_handle ops_table w proc h env))).
Proof using.
  intros W. destruct (get_handle w proc h) as [[[slot i] e]|] eqn:Hg; [|unfold close_handle; by rewrite Hg].
  destruct (get_handle_entry _ _ _ _ _ _ Hg) as (_ & t & Ht & He).
  destruct (has_bits (access e) RESERVED_CLOSE_PROTECT) eqn:Hp; [unfold close_handle; by rewrite Hg, Hp|].
  destruct (close_handle_op (methods ops_table w (ptr e)) (ptr e) (Some proc) h) eqn:Hc;
    [|unfold close_handle; by rewrite Hg, Hp, Hc].
  destruct (close_handle_spec w proc h slot t i e env W Hg Ht Hp Hc) as (t' & env' & -> & Wt' & _ & Hcnt).
  apply (release_wf w slot t); [done..| |done].
  pose proof (held_le_total w slot (ptr e)) as Hle. rewrite Ht in Hle. cbn in Hle.
  pose proof (count_entries_at (ptr e) (entries t) i e He eq_refl). lia.
Qed.
End server.
