(* ===== verification/HandleSteps.v ===== *)
(** * Inheritance, process exit, duplication and sequences of handle operations *)

From Stdlib Require Import ZArith Lia.
From stdpp Require Import base list numbers option gmap.
From S2P Require Import Prelude Handles HandleTheorems HandleCounts.

#[local] Open Scope Z_scope.
#[local] Open Scope server_scope.

(** ** Inheriting a whole table *)

Definition inheritable (o : option handle_entry) : option handle_entry :=
  match o with
  | Some e => if has_bits (access e) RESERVED_INHERIT then o else None
  | None => None
  end.

(** [w'] differs from [w] only in the counts of objects. *)
Definition same_tables (w w' : world) : Prop :=
  handles w' = handles w /\ global_table w' = global_table w.

Lemma same_tables_total w w' x : same_tables w w' -> total w' x = total w x.
Proof. intros [H1 H2]. unfold total. by rewrite H1, H2. Qed.

Lemma same_tables_get w w' slot : same_tables w w' -> get_table w' slot = get_table w slot.
Proof. intros [H1 H2]. destruct slot; cbn; congruence. Qed.

Lemma grab_alive w obj x : is_Some (objects w !! x) -> is_Some (objects (grab_object_for_handle w obj) !! x).
Proof. rewrite grab_for_handle_objects. apply lookup_alter_is_Some. Qed.

Lemma counts_alive objs tot obj : counts_ok objs tot -> 0 < tot obj -> is_Some (objs !! obj).
Proof. intros H Hpos. specialize (H obj). destruct (objs !! obj); [by eexists|lia]. Qed.

Lemma inherit_entries_spec es : forall w tot,
  counts_ok (objects w) tot -> (forall e, Some e ∈ es -> is_Some (objects w !! ptr e)) ->
  let '(es', w') := inherit_entries es w in
  es' = inheritable <$> es /\ same_tables w w' /\
  counts_ok (objects w') (fun x => tot x + count_entries x es').
Proof.
  induction es as [|o es IH]; intros w tot Hc Hal.
  - cbn. split; [done|]. split; [done|]. eapply counts_ok_ext; [|exact Hc]. intros. lia.
  - assert (Hal' : forall e, Some e ∈ es -> is_Some (objects w !! ptr e)) by (intros e He; apply Hal; by right).
    destruct o as [e|]; cbn [inherit_entries].
    2: { specialize (IH w tot Hc Hal'). destruct (inherit_entries es w) as [es' w'].
         destruct IH as (-> & H2 & H3). done. }
    rewrite fmap_cons. cbn [inheritable]. destruct (has_bits (access e) RESERVED_INHERIT).
    + specialize (IH (grab_object_for_handle w (ptr e)) (fun x => tot x + one (ptr e) x)).
      destruct (inherit_entries es _) as [es' w']. destruct IH as (-> & H2 & H3).
      * apply grab_counts; [apply Hal; by left|done].
      * intros e' He'. by apply grab_alive, Hal'.
      * split; [done|]. split; [done|]. eapply counts_ok_ext; [|exact H3]. intros x.
        rewrite count_entries_cons, is_entry_one. lia.
    + specialize (IH w tot Hc Hal'). destruct (inherit_entries es w) as [es' w'].
      destruct IH as (-> & H2 & H3). done.
Qed.

(** ** Inheriting a list of handles *)

(** The table of the child while it is being filled. *)
Definition filling (w : world) (n : Z) (t : handle_table) : Prop :=
  count t = n /\ free t = 0%nat /\ Z.of_nat (length (entries t)) <= n /\
  counts_ok (objects w) (fun x => total w x + count_entries x (entries t)).

(** A handle of the parent to pass on. *)
Definition inherits (w : world) (parent : Z) (h : Z) (i : nat) (e : handle_entry) : Prop :=
  get_handle w parent h = Some (Some parent, i, e) /\ has_bits (access e) RESERVED_INHERIT = true.

Lemma get_handle_local w parent h slot i e :
  get_handle w parent h = Some (slot, i, e) -> handle_is_global h = false ->
  slot = Some parent /\ handle_to_index h = Z.of_nat i /\
  exists t, handles w !! parent = Some t /\ entry_at t i = Some e.
Proof.
  unfold get_handle. intros H Hg. rewrite Hg in H. cbn [get_table] in H.
  destruct (handles w !! parent) as [t|]; [|done]. destruct (Z.ltb_spec (handle_to_index h) 0); [done|].
  destruct (Z.ltb_spec (last t) (handle_to_index h)); [done|].
  destruct (entry_at t (Z.to_nat (handle_to_index h))) as [e'|] eqn:He; [|done].
  injection H as <- <- <-. split; [done|]. split; [lia|]. by exists t.
Qed.

Lemma put_entry_at es i e j :
  mjoin (put_entry es i (Some e) !! j) = if decide (i = j) then Some e else mjoin (es !! j).
Proof.
  unfold put_entry. case_decide as E.
  - subst. by rewrite list_lookup_insert_eq by (rewrite length_app, length_replicate; lia).
  - rewrite list_lookup_insert_ne by done. destruct (decide (j < length es)%nat); [by rewrite lookup_app_l|].
    rewrite lookup_app_r, (lookup_ge_None_2 es) by lia.
    destruct (replicate _ None !! _) as [x|] eqn:Er; [|done]. by apply lookup_replicate in Er as [-> _].
Qed.

Lemma put_entry_length es i e : length (put_entry es i e) = Nat.max (length es) (S i).
Proof. unfold put_entry. rewrite length_insert, length_app, length_replicate. lia. Qed.

Lemma inherit_handle_spec w parent pt h t :
  handles w !! parent = Some pt -> table_wf pt -> filling w (count pt) t -> handle_is_global h = false ->
  exists t' w', inherit_handle w parent h t = Some (t', w') /\ same_tables w w' /\ filling w' (count pt) t' /\
    forall j, entry_at t' j =
      if decide (entry_at t j = None /\ handle_to_index h = Z.of_nat j)
      then inheritable (entry_at pt j) else entry_at t j.
Proof.
  intros Hp Wp Hf Hg. unfold inherit_handle.
  assert (Hskip : forall j, (forall e, get_handle w parent h = Some (Some parent, j, e) -> inheritable (Some e) = None) ->
     handle_to_index h = Z.of_nat j -> inheritable (entry_at pt j) = None).
  { intros j Hno Hj. destruct (entry_at pt j) as [e|] eqn:He; [|done]. apply Hno.
    unfold get_handle. rewrite Hg. cbn [get_table]. rewrite Hp, Hj, Nat2Z.id, He.
    destruct (Z.ltb_spec (Z.of_nat j) 0); [lia|]. destruct (Z.ltb_spec (last pt) (Z.of_nat j)) as [Hl|]; [|done].
    unfold last in Hl. unfold entry_at in He. rewrite lookup_ge_None_2 in He by lia. done. }
  destruct (get_handle w parent h) as [[[slot i] src]|] eqn:Hgh.
  2: { exists t, w. split; [done|]. split; [done|]. split; [done|]. intros j. case_decide as E; [|done].
       destruct E as [E1 E2]. rewrite E1. symmetry. by apply Hskip. }
  destruct (get_handle_local _ _ _ _ _ _ Hgh Hg) as (-> & Hi & pt' & Hp' & He).
  rewrite Hp in Hp'. injection Hp' as <-. rewrite Hi, Nat2Z.id.
  destruct (has_bits (access src) RESERVED_INHERIT) eqn:Hinh; cbn [negb].
  2: { exists t, w. split; [done|]. split; [done|]. split; [done|]. intros j. case_decide as E; [|done].
       destruct E as [E1 E2]. assert (i = j) as <- by lia. rewrite E1, He. cbn. by rewrite Hinh. }
  pose proof Hf as (Hc & Hfr & Hlen & Hcnt). pose proof (tw_length pt Wp) as Hpl.
  assert (Hil : (i < length (entries pt))%nat).
  { unfold entry_at in He. destruct (entries pt !! i) eqn:E; [|done]. by eapply lookup_lt_Some. }
  destruct (Z.ltb_spec (Z.of_nat i) 0); [lia|]. destruct (Z.leb_spec (count t) (Z.of_nat i)); [lia|]. cbn [orb].
  destruct (entry_at t i) as [e0|] eqn:Hti.
  { exists t, w. split; [done|]. split; [done|]. split; [done|]. intros j. case_decide as E; [|done].
    destruct E as [E1 E2]. assert (i = j) as <- by lia. congruence. }
  eexists _, _. split; [done|]. split; [done|]. split.
  - split; [done|]. split; [done|]. cbn [entries]. rewrite put_entry_length. split; [lia|].
    eapply counts_ok_ext; [|apply (grab_counts w (ptr src)); [|exact Hcnt]].
    + intros x. rewrite grab_total, count_entries_put by exact Hti. rewrite is_entry_one. lia.
    + apply (counts_alive _ _ _ Hcnt). pose proof (count_entries_nonneg (ptr src) (entries t)).
      pose proof (count_entries_at (ptr src) (entries pt) i src He eq_refl).
      pose proof (held_le_total w (Some parent) (ptr src)) as Hle. cbn [get_table] in Hle. rewrite Hp in Hle. cbn in Hle. lia.
  - intros j. unfold entry_at. cbn [entries]. rewrite put_entry_at. fold (entry_at t j) (entry_at pt j).
    destruct (decide (i = j)) as [<-|Hne].
    + rewrite decide_True by done. rewrite He. cbn. by rewrite Hinh.
    + rewrite decide_False; [done|]. intros [_ ?]. lia.
Qed.

Lemma inherit_list_spec parent pt hs : forall w t,
  handles w !! parent = Some pt -> table_wf pt -> filling w (count pt) t ->
  Forall (fun h => handle_is_global h = false) hs ->
  exists t' w', inherit_list w parent hs t = Some (t', w') /\ same_tables w w' /\ filling w' (count pt) t' /\
    forall j, entry_at t' j =
      if decide (entry_at t j = None /\ Z.of_nat j ∈ (handle_to_index <$> hs))
      then inheritable (entry_at pt j) else entry_at t j.
Proof.
  induction hs as [|h hs IH]; intros w t Hp Wp Hf Hg.
  - exists t, w. split; [done|]. split; [done|]. split; [done|]. intros j.
    by rewrite decide_False by (intros [_ ?%not_elem_of_nil]; done).
  - apply list.Forall_cons in Hg as [Hgh Hg]. cbn [inherit_list].
    destruct (inherit_handle_spec w parent pt h t Hp Wp Hf Hgh) as (t1 & w1 & -> & S1 & F1 & E1).
    destruct (IH w1 t1) as (t' & w' & -> & S2 & F2 & E2); [by destruct S1 as [-> _]|done..|].
    exists t', w'. split; [done|]. split; [destruct S1, S2; split; congruence|]. split; [done|].
    intros j. rewrite E2, E1, fmap_cons.
    destruct (entry_at t j) as [e|] eqn:Etj.
    { rewrite (decide_False (P := Some e = None /\ handle_to_index h = Z.of_nat j)) by (intros [? _]; done).
      rewrite !decide_False by (intros [? _]; done). done. }
    destruct (decide (handle_to_index h = Z.of_nat j)) as [Ej|Ej].
    + rewrite (decide_True (P := None = None /\ handle_to_index h = Z.of_nat j)) by done.
      rewrite (decide_True (P := None = None /\ Z.of_nat j ∈ _)) by (split; [done|rewrite Ej; by left]).
      case_decide as E; [|done]. by destruct E as [-> _].
    + rewrite (decide_False (P := None = None /\ handle_to_index h = Z.of_nat j)) by (intros [_ ?]; done).
      destruct (decide (Z.of_nat j ∈ handle_to_index <$> hs)) as [Hin|Hin].
      * by rewrite !decide_True by (split; [done|by try right]).
      * rewrite !decide_False; [done| |by intros [_ ?]].
        intros [_ [?|?]%elem_of_cons]; [congruence|done].
Qed.

(** ** Process exit *)

Lemma release_same_tables w obj : same_tables w (release_object_from_handle w obj).
Proof. unfold release_object_from_handle, release_object. repeat case_match; done. Qed.

Lemma destroy_entries_spec es : forall w tot,
  (forall x, 0 <= tot x) -> counts_ok (objects w) (fun x => tot x + count_entries x es) ->
  counts_ok (objects (destroy_entries es w)) tot /\ same_tables w (destroy_entries es w).
Proof.
  induction es as [|o es IH]; intros w tot Hpos Hc.
  - split; [|done]. eapply counts_ok_ext; [|exact Hc]. intros. cbn. lia.
  - destruct o as [e|]; cbn [destroy_entries]; [|by apply IH].
    destruct (IH (release_object_from_handle w (ptr e)) tot Hpos) as [H1 H2].
    + eapply counts_ok_ext; [|apply (release_counts w (ptr e)); [|exact Hc]].
      * intros x. cbn beta. rewrite count_entries_cons, is_entry_one. lia.
      * cbn beta. rewrite count_entries_cons, is_entry_one. unfold one. rewrite Z.eqb_refl.
        specialize (Hpos (ptr e)). pose proof (count_entries_nonneg (ptr e) es). lia.
    + split; [done|]. destruct (release_same_tables w (ptr e)), H2. split; congruence.
Qed.

Lemma close_process_handles_wf w proc : world_wf w -> world_wf (close_process_handles w proc).
Proof.
  intros W. unfold close_process_handles. destruct (handles w !! proc) as [t|] eqn:Ht; [|done].
  set (w1 := mk_world _ _ _ _).
  destruct (destroy_entries_spec (entries t) w1 (total w1)) as [Hc Hs].
  - intros x. apply total_nonneg.
  - eapply counts_ok_ext; [|exact (ww_counts w W)]. intros x. unfold total. cbn [handles w1 global_table].
    rewrite (sum_held_split _ proc), Ht. cbn [held]. lia.
  - split.
    + intros slot t'. rewrite (same_tables_get _ _ slot Hs). destruct slot as [p|]; cbn.
      * rewrite lookup_delete. case_decide; [done|]. apply (ww_tables w W (Some p)).
      * apply (ww_tables w W None).
    + eapply counts_ok_ext; [|exact Hc]. intros x. symmetry. by apply same_tables_total.
Qed.

(** ** Copying the table of the parent *)

(** What the child receives: of a list of handles those it names, otherwise all;
    in both cases only entries marked inheritable. *)
Definition child_entry (pt : handle_table) (hs : option (list Z * list Z)) (j : nat) : option handle_entry :=
  match hs with
  | None => inheritable (entry_at pt j)
  | Some (l, std_handles) =>
      if decide (Z.of_nat j ∈ (handle_to_index <$> (l ++ std_handles)))
      then inheritable (entry_at pt j) else None
  end.

Definition no_global (hs : option (list Z * list Z)) : Prop :=
  match hs with
  | None => True
  | Some (l, std_handles) => Forall (fun h => handle_is_global h = false) (l ++ std_handles)
  end.

Lemma copy_handle_table_spec w proc parent pt hs e :
  world_wf w -> handles w !! parent = Some pt -> no_global hs ->
  exists r e', copy_handle_table w proc parent hs e = (Some r, e') /\
  match r with
  | (None, w') => w' = w
  | (Some t, w') => table_wf t /\ same_tables w w' /\ (forall j, entry_at t j = child_entry pt hs j) /\
      counts_ok (objects w') (fun x => total w x + count_entries x (entries t))
  end.
Proof.
  intros W Hp Hg. pose proof (ww_tables w W (Some parent) pt Hp) as Wp. unfold copy_handle_table. rewrite Hp.
  destruct (alloc_handle_table_spec (Some proc) (count pt) e) as [e1 [E|E]]; rewrite (bind_run _ _ _ _ _ E).
  { by eexists _, _. }
  replace (Z.max (count pt) MIN_HANDLE_ENTRIES) with (count pt) by (pose proof (tw_count pt Wp); lia).
  set (t0 := mk_ht (Some proc) (count pt) 0 []).
  assert (Hf0 : filling w (count pt) t0).
  { split; [done|]. split; [done|]. split; [cbn; pose proof (tw_count pt Wp); unfold MIN_HANDLE_ENTRIES in *; lia|].
    eapply counts_ok_ext; [|exact (ww_counts w W)]. intros x. cbn. lia. }
  assert (Hfill : exists t w', match hs with
      | Some (l, std_handles) => inherit_list w parent (l ++ std_handles) t0
      | None => let '(es, w) := inherit_entries (entries pt) w in
                Some (mk_ht (process t0) (count t0) (free t0) es, w)
      end = Some (t, w') /\ same_tables w w' /\ filling w' (count pt) t /\ forall j, entry_at t j = child_entry pt hs j).
  { destruct hs as [[l std]|].
    - destruct (inherit_list_spec parent pt (l ++ std) w t0 Hp Wp Hf0 Hg) as (t & w' & -> & S & F & Ht).
      exists t, w'. split; [done|]. split; [done|]. split; [done|]. intros j. rewrite Ht. cbn [child_entry].
      change (entry_at t0 j) with (@None handle_entry).
      destruct (decide (Z.of_nat j ∈ handle_to_index <$> l ++ std)); [by rewrite decide_True|].
      by rewrite decide_False by (intros [_ ?]; done).
    - pose proof (inherit_entries_spec (entries pt) w (total w) (ww_counts w W)) as Hi.
      destruct (inherit_entries (entries pt) w) as [es w']. destruct Hi as (-> & S & Hc).
      { intros en [i Hi]%list_elem_of_lookup. destruct (entry_alive w (Some parent) pt i en W Hp) as (o & Ho & _);
          [unfold entry_at; by rewrite Hi|by exists o]. }
      eexists _, w'. split; [done|]. split; [done|]. split.
      + split; [done|]. split; [done|]. cbn [entries]. split; [rewrite length_fmap; apply Wp|].
        eapply counts_ok_ext; [|exact Hc]. intros x. by rewrite (same_tables_total w w' x S).
      + intros j. unfold entry_at. cbn [entries child_entry]. rewrite list_lookup_fmap.
        unfold entry_at. by destruct (entries pt !! j). }
  destruct Hfill as (t & w' & -> & S & (Fc & Ff & Fl & Fcnt) & Ht). unfold bind.
  destruct (shrink_spec t e1) as (T1 & T2 & T3).
  { rewrite Fc. apply Wp. } { by rewrite Fc. } { rewrite Ff. lia. }
  destruct (shrink_handle_table t e1) as [t' e2]. cbn [fst] in *. eexists _, e2. split; [done|]. cbn.
  split; [done|]. split; [done|]. split; [intros j; by rewrite T2|].
  eapply counts_ok_ext; [|exact Fcnt]. intros x. by rewrite T3, (same_tables_total w w' x S).
Qed.

(** The new process with its table. *)
Lemma fork_wf w w' proc t :
  world_wf w -> handles w !! proc = None -> table_wf t -> same_tables w w' ->
  counts_ok (objects w') (fun x => total w x + count_entries x (entries t)) ->
  world_wf (set_table w' (Some proc) t).
Proof.
  intros W Hn Wt S Hc. split.
  - intros slot t'. rewrite get_set_table, (same_tables_get w w' slot S).
    case_decide; [by intros [= <-]|apply (ww_tables w W)].
  - eapply counts_ok_ext; [|exact Hc]. intros x. rewrite total_set_table, (same_tables_total w w' x S).
    rewrite (same_tables_get w w' _ S). cbn [get_table]. rewrite Hn. cbn. lia.
Qed.

(** ** Duplication *)

Section server.
Context (ops_table : Z -> object_ops) (current : current_t).
Context (check_object_access : option Z -> Z -> Z -> M (option Z)) (dst_token : Z -> option Z).

(** The objects behind the pseudo-handles exist. *)
Definition magic_alive (w : world) : Prop :=
  forall h obj, get_magic_handle current h = Some obj -> is_Some (objects w !! obj).

(** get_handle_obj returns a live object with a reference for the caller. *)
Lemma get_handle_obj_spec w proc h acc expected e :
  world_wf w -> magic_alive w ->
  match get_handle_obj current w proc h acc expected e with
  | (None, w', _) => w' = w
  | (Some obj, w', _) => w' = grab_object w obj /\ world_wf w' /\ spare w' obj
  end.
Proof using.
  intros W Hm. unfold get_handle_obj. destruct (get_magic_handle current h) as [obj|] eqn:Hmh.
  - destruct (wrong_type w obj expected); [done|]. cbn. split; [done|]. apply grab_object_wf; [done|by eapply Hm].
  - destruct (get_handle w proc h) as [[[slot i] en]|] eqn:Hg; [|done].
    destruct (wrong_type w (ptr en) expected); [done|]. destruct (negb _); [done|]. cbn.
    destruct (get_handle_entry _ _ _ _ _ _ Hg) as (_ & t & Ht & He).
    destruct (entry_alive w slot t i en W Ht He) as (o & Ho & _).
    split; [done|]. apply grab_object_wf; [done|by exists o].
Qed.

Lemma set_entry_spare w slot t i e e' obj :
  get_table w slot = Some t -> entry_at t i = Some e -> ptr e' = ptr e ->
  spare w obj -> spare (set_entry w slot i (Some e')) obj.
Proof using.
  intros Ht He Hp (o & Ho & Hlt). unfold set_entry. rewrite Ht. exists o. split; [by destruct slot|].
  rewrite total_set_table, Ht. cbn [held entries].
  assert (Hi : (i < length (entries t))%nat).
  { unfold entry_at in He. destruct (entries t !! i) eqn:E; [|done]. by eapply lookup_lt_Some. }
  rewrite count_entries_insert by done. unfold entry_at in He. rewrite He, !is_entry_one, Hp. lia.
Qed.

(** The release at the end of duplicate_handle. *)
Lemma finish_wf w obj (m : M (option (Z * world))) e :
  keeps_checked w obj m -> spare w obj ->
  match (let* x := m in ret (match x with Some (res, w) => Some (res, release_object w obj) | None => None end)) e with
  | (Some (_, w'), _) => world_wf w'
  | (None, _) => True
  end.
Proof using.
  intros Hk Hs. unfold bind. specialize (Hk e). destruct (m e) as [[[h w']|] e']; cbn in *; [|done].
  destruct Hk. apply release_object_wf; auto.
Qed.

Lemma duplicate_handle_wf w src sh dst acc attr options e :
  world_wf w -> magic_alive w ->
  match duplicate_handle ops_table current check_object_access dst_token w src sh dst acc attr options e with
  | (Some (_, w'), _) => world_wf w'
  | (None, _) => True
  end.
Proof using.
  intros W Hm. unfold duplicate_handle. pose proof (get_handle_obj_spec w src sh 0 None e W Hm) as Ho.
  destruct (get_handle_obj current w src sh 0 None e) as [[obj w1] e1] eqn:Eg.
  rewrite (bind_run _ _ _ _ _ Eg). destruct obj as [obj|]; [|cbn; by rewrite Ho].
  destruct Ho as (_ & W1 & Sp). pose proof (spare_alive w1 obj Sp) as Hal. cbn zeta.
  set (a := if has_bits options DUPLICATE_SAME_ACCESS then _ else _).
  destruct (has_bits a _).
  - match goal with |- context [bind ?c ?k e1] => destruct (c e1) as [g e2] eqn:Ec; rewrite (bind_run c k e1 g e2 Ec) end.
    destruct g as [a1|]; [|by apply (finish_wf w1); [apply keeps_checked_ret|]].
    destruct dst as [d|]; [|done].
    match goal with |- context [bind ?c ?k e2] => destruct (c e2) as [g e3] eqn:Ec'; rewrite (bind_run c k e2 g e3 Ec') end.
    destruct g as [a2|]; [|by apply (finish_wf w1); [apply keeps_checked_ret|]].
    destruct (has_bits options DUPLICATE_MAKE_GLOBAL); apply (finish_wf w1); try done.
    + by apply keeps_asserted, alloc_global_checked_keeps.
    + by apply alloc_handle_entry_keeps.
  - destruct (has_bits options DUPLICATE_MAKE_GLOBAL); [by apply (finish_wf w1); [apply keeps_asserted, alloc_global_keeps|]|].
    destruct dst as [d|]; [|done].
    destruct (get_handle w1 src sh) as [[[slot i] en]|] eqn:Hg;
      [|by apply (finish_wf w1); [apply alloc_handle_entry_keeps|]].
    destruct (_ && _ && _); [|by apply (finish_wf w1); [apply alloc_handle_entry_keeps|]].
    destruct (get_handle_entry _ _ _ _ _ _ Hg) as (_ & t & Ht & He).
    apply (finish_wf w1); [|done]. intros e'. cbn.
    split; [by eapply set_entry_wf|intros _; by eapply set_entry_spare].
Qed.

Lemma set_handle_flags_wf w proc h mask flags e :
  world_wf w -> world_wf (snd (fst (set_handle_flags current w proc h mask flags e))).
Proof using.
  intros W. unfold set_handle_flags. destruct (get_magic_handle current h); [unfold bind; by case_match|].
  destruct (get_handle w proc h) as [[[slot i] en]|] eqn:Hg; [|done]. cbn.
  destruct (get_handle_entry _ _ _ _ _ _ Hg) as (_ & t & Ht & He). by eapply set_entry_wf.
Qed.

(** ** Sequences of operations *)

(** One operation of the server: on handles, on processes, or on the reference
    counts of objects it owns. *)
Inductive handle_step (w : world) : world -> Prop :=
  | step_alloc proc obj acc attr e h w' e' :
      is_Some (objects w !! obj) ->
      alloc_handle ops_table check_object_access w proc obj acc attr e = (Some (h, w'), e') ->
      handle_step w w'
  | step_alloc_no_check proc obj acc attr e h w' e' :
      is_Some (objects w !! obj) ->
      alloc_handle_no_access_check ops_table w proc obj acc attr e = (Some (h, w'), e') ->
      handle_step w w'

  | step_alloc_global obj acc e :
      is_Some (objects w !! obj) ->
      handle_step w (snd (fst (alloc_global_handle check_object_access w obj acc e)))
  | step_close proc h e :
      handle_step w (snd (fst (close_handle ops_table w proc h e)))
  | step_flags proc h mask flags e :
      handle_step w (snd (fst (set_handle_flags current w proc h mask flags e)))
  | step_dup src sh dst acc attr options e h w' e' :
      magic_alive w ->
      duplicate_handle ops_table current check_object_access dst_token w src sh dst acc attr options e
        = (Some (h, w'), e') ->
      handle_step w w'
  | step_fork proc parent pt hs e t w' e' :
      handles w !! proc = None -> handles w !! parent = Some pt -> no_global hs ->
      copy_handle_table w proc parent hs e = (Some (Some t, w'), e') ->
      handle_step w (set_table w' (Some proc) t)
  | step_exit proc :
      handle_step w (close_process_handles w proc)
  | step_new_process proc n t e e' :
      handles w !! proc = None -> n <= MAX_HANDLE_ENTRIES ->
      alloc_handle_table (Some proc) n e = (Some t, e') ->
      handle_step w (set_table w (Some proc) t)
  | step_create obj o :
      objects w !! obj = None ->
      handle_step w (set_objects w (<[obj := mk_obj o 1 0]> (objects w)))
  | step_grab obj :
      is_Some (objects w !! obj) -> handle_step w (grab_object w obj)
  | step_release obj :
      spare w obj -> handle_step w (release_object w obj).

Lemma handle_step_wf w w' : world_wf w -> handle_step w w' -> world_wf w'.
Proof using.
  intros W H. destruct H as [proc obj acc attr e h w' e' Ho Ea|proc obj acc attr e h w' e' Ho Ea|obj acc e Ho|proc h e|proc h mask flags e
    |src sh dst acc attr options e h w' e' Hm Hd|proc parent pt hs e t w' e' Hn Hp Hg Hc|proc|proc n t e e' Hn Hle Ha
    |obj o Hn|obj Ho|obj Hs].
  - pose proof (alloc_handle_keeps ops_table check_object_access w proc obj acc attr W Ho e) as K. rewrite Ea in K. apply K.
  - pose proof (fun a => alloc_handle_entry_keeps w proc obj a attr W Ho e) as K. unfold alloc_handle_no_access_check in Ea. 
    revert Ea. match goal with |- alloc_handle_entry _ _ _ ?a _ _ = _ -> _ => specialize (K a) end. intros Ea. rewrite Ea in K. apply K.
  - by apply alloc_global_checked_keeps.
  - by apply close_handle_wf.
  - by apply set_handle_flags_wf.
  - pose proof (duplicate_handle_wf w src sh dst acc attr options e W Hm) as H. by rewrite Hd in H.
  - destruct (copy_handle_table_spec w proc parent pt hs e W Hp Hg) as (r & e1 & Hr & H). rewrite Hc in Hr.
    injection Hr as <- _. destruct H as (H1 & H2 & _ & H4). by apply (fork_wf w).
  - by apply close_process_handles_wf.
  - destruct (alloc_handle_table_spec (Some proc) n e) as [e1 [E|E]]; rewrite Ha in E; [done|].
    injection E as -> _. apply (fork_wf w); [done|done|by apply new_table_wf|done|].
    eapply counts_ok_ext; [|exact (ww_counts w W)]. intros x. cbn. lia.
  - split; [apply (ww_tables w W)|]. intros x. pose proof (ww_counts w W x) as H. cbn [objects set_objects].
    change (total (set_objects w _) x) with (total w x). destruct (decide (obj = x)) as [<-|];
      [rewrite lookup_insert_eq; rewrite Hn in H; cbn; lia|by rewrite lookup_insert_ne].
  - by apply grab_object_wf.
  - by apply release_object_wf.
Qed.
End server.

Definition initial_world : world := mk_world ∅ [] ∅ None.

Lemma initial_world_wf : world_wf initial_world.
Proof.
  split; [by intros [p|] t; cbn; rewrite ?lookup_empty|]. intros x. cbn. rewrite lookup_empty.
  unfold total, sum_held. cbn. by rewrite map_fold_empty.
Qed.
