(* ===== verification/HandleClaims.v ===== *)
(** * What the handle operations of server/handle.c guarantee *)

From Stdlib Require Import ZArith Lia.
From stdpp Require Import base list numbers option gmap relations.
From S2P Require Import Prelude Handles HandleTheorems HandleCounts HandleSteps.

#[local] Open Scope Z_scope.
#[local] Open Scope server_scope.

(** ** Lookup *)

(** The table and the index a handle designates. *)
Definition handle_slot (proc h : Z) : option Z := if handle_is_global h then None else Some proc.

Definition handle_pos (h : Z) : Z :=
  handle_to_index (if handle_is_global h then handle_global_to_local h else h).

Lemma get_handle_eq w proc h :
  get_handle w proc h =
    match get_table w (handle_slot proc h) with
    | None => None
    | Some t => if handle_pos h <? 0 then None
                else (fun e => (handle_slot proc h, Z.to_nat (handle_pos h), e)) <$>
                       entry_at t (Z.to_nat (handle_pos h))
    end.
Proof.
  assert (Hlook : forall slot x, match get_table w slot with
      | None => None
      | Some t => if x <? 0 then None else if last t <? x then None
                  else match entry_at t (Z.to_nat x) with None => None | Some e => Some (slot, Z.to_nat x, e) end
      end = match get_table w slot with
      | None => None
      | Some t => if x <? 0 then None else (fun e => (slot, Z.to_nat x, e)) <$> entry_at t (Z.to_nat x)
      end).
  { intros slot x. destruct (get_table w slot) as [t|]; [|done]. destruct (Z.ltb_spec x 0); [done|].
    destruct (Z.ltb_spec (last t) x) as [Hl|]; [|by destruct (entry_at t _)].
    unfold entry_at, last in *. by rewrite lookup_ge_None_2 by lia. }
  unfold get_handle, handle_slot, handle_pos. destruct (handle_is_global h); apply Hlook.
Qed.

Lemma get_handle_index w proc t i :
  handles w !! proc = Some t -> Z.of_nat i < MAX_HANDLE_ENTRIES ->
  get_handle w proc (index_to_handle (Z.of_nat i)) = (fun e => (Some proc, i, e)) <$> entry_at t i.
Proof.
  intros Ht Hi. destruct (index_to_handle_value (Z.of_nat i) ltac:(lia)) as [Hv Hb].
  assert (Hng : handle_is_global (index_to_handle (Z.of_nat i)) = false) by (rewrite Hv; apply local_not_global; lia).
  rewrite get_handle_eq. unfold handle_slot, handle_pos. rewrite Hng, handle_to_index_to_handle by lia.
  cbn [get_table]. rewrite Ht, Nat2Z.id. by destruct (Z.ltb_spec (Z.of_nat i) 0); [lia|].
Qed.

(** The entry a handle designates determines its lookup. *)
Lemma get_handle_same w w' proc h slot i e t' :
  get_handle w proc h = Some (slot, i, e) -> get_table w' slot = Some t' -> entry_at t' i = Some e ->
  get_handle w' proc h = Some (slot, i, e).
Proof.
  rewrite !get_handle_eq. destruct (get_table w (handle_slot proc h)) as [t|]; [|done].
  destruct (handle_pos h <? 0) eqn:Hp; [done|]. destruct (entry_at t _) as [e0|]; [|done].
  intros [= <- <- <-] -> ->. done.
Qed.

(** ** Theorems *)

(** C8: in every world that a sequence of operations can reach, every handle that
    resolves gives an object that is alive, whose handle count is exactly the
    number of table entries that hold it and whose reference count covers them:
    no sequence of allocations, closes, duplications, inheritances and process
    exits leaves a handle to a freed object. *)
Theorem reachable_handles_valid ops_table current check_object_access dst_token w proc h slot i e :
  rtc (handle_step ops_table current check_object_access dst_token) initial_world w ->
  get_handle w proc h = Some (slot, i, e) ->
  exists o, objects w !! ptr e = Some o /\ handle_count o = total w (ptr e) /\
            1 <= handle_count o <= refcount o.
Proof.
  intros Hr Hg. assert (W : world_wf w).
  { eapply (rtc_ind_r (fun w => world_wf w)); [|..|exact Hr]; [exact initial_world_wf|].
    intros w1 w2 _ Hs W1. by eapply handle_step_wf. }
  destruct (get_handle_entry _ _ _ _ _ _ Hg) as (_ & t & Ht & He).
  destruct (entry_alive w slot t i e W Ht He) as (o & Ho & Hc). exists o. split; [done|]. split; [|done].
  pose proof (ww_counts w W (ptr e)) as H. rewrite Ho in H. by destruct H as [-> _].
Qed.

(** [alloc_entry] gives the lowest free handle of the table: it did not
    resolve before and now gives the object and access, every smaller handle is
    in use, and handles that resolved before are unchanged.  It fails only when
    all entries are in use and the table is at its limit or cannot grow. *)
Lemma alloc_entry_ok w proc t obj acc e :
  world_wf w -> handles w !! proc = Some t -> is_Some (objects w !! obj) ->
  let '(h, w', e') := alloc_entry w (Some proc) obj acc e in
  (h = 0 -> w' = w /\ error e' = STATUS_INSUFFICIENT_RESOURCES /\
     Z.of_nat (length (entries t)) = count t /\
     (count t = MAX_HANDLE_ENTRIES \/ exists tl, allocs e = false :: tl)) /\
  (h <> 0 -> exists i, h = index_to_handle (Z.of_nat i) /\ world_wf w' /\
     get_handle w proc h = None /\ get_handle w' proc h = Some (Some proc, i, mk_he obj acc) /\
     (forall j, (j < i)%nat -> is_Some (get_handle w proc (index_to_handle (Z.of_nat j)))) /\
     (forall h2 x, get_handle w proc h2 = Some x -> get_handle w' proc h2 = Some x)).
Proof.
  intros W Ht Ho. pose proof (ww_tables w W (Some proc) t Ht) as Wt.
  pose proof (alloc_entry_spec w (Some proc) t obj acc e Ht Wt) as H.
  destruct (alloc_entry w (Some proc) obj acc e) as [[h w'] e'].
  destruct (alloc_index_spec t Wt) as (_ & Hnone & Hused).
  destruct H as [(n & Hn & Hi & Hl & -> & _ & ->)|(-> & -> & H)]; [|by split].
  destruct (index_to_handle_value (Z.of_nat (alloc_index t)) ltac:(lia)) as [Hv Hb].
  split; [lia|]. intros _. exists (alloc_index t). split; [done|].
  split; [by apply store_wf|].
  destruct (stored_entry_spec t n (mk_he obj acc) Wt Hn Hi Hl) as (_ & Hat & _).
  set (t' := stored_entry t n (mk_he obj acc)) in *.
  set (w' := grab_object_for_handle (set_table w (Some proc) t') obj).
  assert (Ht' : handles w' !! proc = Some t') by (cbn; apply lookup_insert_eq).
  split; [by rewrite (get_handle_index w proc t) by (done || lia); rewrite Hnone|].
  split; [rewrite (get_handle_index w' proc t') by (done || lia); by rewrite Hat, decide_True|].
  split; [intros j Hj; rewrite (get_handle_index w proc t) by (done || lia);
          destruct (Hused j Hj) as [x ->]; by eexists|].
  intros h2 [[slot j] ej] Hg. destruct (get_handle_entry _ _ _ _ _ _ Hg) as (Hslot & t2 & Ht2 & Hej).
  destruct (decide (Some proc = slot)) as [<-|Hne].
  - cbn [get_table] in Ht2. rewrite Ht in Ht2. injection Ht2 as <-. apply (get_handle_same w w' proc h2 _ _ _ t' Hg); [done|].
    rewrite Hat. by rewrite decide_False by congruence.
  - apply (get_handle_same w w' proc h2 _ _ _ t2 Hg); [|done]. unfold w'.
    rewrite grab_tables, get_set_table. by rewrite decide_False.
Qed.

(** [close_handle] refuses an unknown handle, a handle protected from close and
    one that the object does not let go, without any effect; otherwise the
    handle stops resolving, every other handle of every process keeps its entry,
    and exactly one reference of its object is given up. *)
Lemma close_handle_ok ops_table w proc h e :
  world_wf w ->
  match get_handle w proc h with
  | None => close_handle ops_table w proc h e = (STATUS_INVALID_HANDLE, w, e)
  | Some (slot, i, en) =>
      if has_bits (access en) RESERVED_CLOSE_PROTECT ||
         negb (close_handle_op (methods ops_table w (ptr en)) (ptr en) (Some proc) h)
      then close_handle ops_table w proc h e = (STATUS_HANDLE_NOT_CLOSABLE, w, e)
      else exists w' e', close_handle ops_table w proc h e = (STATUS_SUCCESS, w', e') /\ world_wf w' /\
        get_handle w' proc h = None /\ (forall x, total w' x = total w x - one (ptr en) x) /\
        forall proc2 h2 slot2 i2 e2, get_handle w proc2 h2 = Some (slot2, i2, e2) ->
          (slot2, i2) <> (slot, i) -> get_handle w' proc2 h2 = Some (slot2, i2, e2)
  end.
Proof.
  intros W. pose proof (close_handle_wf ops_table w proc h e W) as W'.
  destruct (get_handle w proc h) as [[[slot i] en]|] eqn:Hg; [|unfold close_handle; by rewrite Hg].
  destruct (get_handle_entry _ _ _ _ _ _ Hg) as (_ & t & Ht & He).
  destruct (has_bits (access en) RESERVED_CLOSE_PROTECT) eqn:Hp; [unfold close_handle; by rewrite Hg, Hp|].
  destruct (close_handle_op (methods ops_table w (ptr en)) (ptr en) (Some proc) h) eqn:Hc;
    [|unfold close_handle; by rewrite Hg, Hp, Hc]. cbn [orb negb].
  destruct (close_handle_spec ops_table w proc h slot t i en e W Hg Ht Hp Hc) as (t' & e' & E & Wt' & Hat & Hcnt).
  rewrite E in *. cbn [fst snd] in W'. eexists _, _. split; [done|]. split; [done|].
  assert (Ht' : get_table (release_object_from_handle (set_table w slot t') (ptr en)) slot = Some t').
  { by rewrite release_tables, get_set_table, decide_True. }
  split; [|split].
  - pose proof Hg as Hg'. rewrite get_handle_eq in Hg'. rewrite get_handle_eq.
    destruct (get_table w (handle_slot proc h)) as [t0|]; [|done]. destruct (handle_pos h <? 0); [done|].
    destruct (entry_at t0 _); [|done]. injection Hg' as -> -> _. by rewrite Ht', Hat, decide_True.
  - intros x. rewrite release_total, total_set_table, Ht. cbn [held]. rewrite Hcnt. lia.
  - intros proc2 h2 slot2 i2 e2 Hg2 Hne. destruct (get_handle_entry _ _ _ _ _ _ Hg2) as (_ & t2 & Ht2 & He2).
    destruct (decide (slot = slot2)) as [<-|Hs].
    + rewrite Ht in Ht2. injection Ht2 as <-. apply (get_handle_same w _ proc2 h2 _ _ _ t' Hg2); [done|].
      rewrite Hat, decide_False by congruence. done.
    + apply (get_handle_same w _ proc2 h2 _ _ _ t2 Hg2); [|done]. by rewrite release_tables, get_set_table, decide_False.
Qed.

(** A new table has the entries of its parent that the child inherits. *)
Lemma copy_handle_table_run w proc parent pt hs e :
  world_wf w -> handles w !! parent = Some pt -> handles w !! proc = None -> no_global hs ->
  exists r e', copy_handle_table w proc parent hs e = (Some r, e') /\
  match r with
  | (None, w') => w' = w
  | (Some t, w') => table_wf t /\ world_wf (set_table w' (Some proc) t) /\
      forall j, entry_at t j = child_entry pt hs j
  end.
Proof.
  intros W Hp Hn Hg. destruct (copy_handle_table_spec w proc parent pt hs e W Hp Hg) as (r & e' & -> & H).
  exists r, e'. split; [done|]. destruct r as [[t|] w']; [|done]. destruct H as (H1 & H2 & H3 & H4).
  split; [done|]. split; [by apply (fork_wf w)|done].
Qed.

(** Handle values: the handle of an index is a positive multiple of 4 that
    leads back to the index and is never taken for a global handle nor for a
    pseudo-handle; a global handle is recognised and converts back to the local
    handle it was made from. *)
Lemma handle_values_correct i :
  0 <= i < MAX_HANDLE_ENTRIES ->
  let h := index_to_handle i in
  handle_to_index h = i /\ h = (i + 1) * 4 /\ handle_is_global h = false /\
  handle_is_global (handle_local_to_global h) = true /\
  handle_global_to_local (handle_local_to_global h) = h /\
  (forall current, get_magic_handle current h = None).
Proof.
  intros Hi h. destruct (index_to_handle_value i Hi) as [Hv Hb]. fold h in Hv.
  split; [by apply handle_to_index_to_handle|]. split; [done|].
  split; [apply local_not_global; lia|].
  destruct (global_is_global h) as [H1 H2].
  { rewrite Hv. unfold MAX_HANDLE_ENTRIES in *. rewrite Z.shiftl_mul_pow2 by lia. lia. }
  split; [done|]. split; [done|]. intros current. unfold get_magic_handle.
  repeat match goal with |- context [h =? ?c] => destruct (Z.eqb_spec h c); [lia|] end. done.
Qed.

(** set_handle_flags changes exactly the inherit and protect-from-close bits
    that the mask selects, to the bits given, and leaves every access right. *)
Lemma with_flags_bits acc mask flags n :
  0 <= acc < 2 ^ 32 -> 0 <= mask < 2 ^ 31 -> 0 <= n ->
  Z.testbit (with_flags acc mask flags) n =
    if ((n =? 26) || (n =? 27)) && Z.testbit mask (n - 26) then Z.testbit flags (n - 26)
    else Z.testbit acc n.
Proof.
  intros Ha Hm Hn. unfold with_flags, not32, u32. change RESERVED_SHIFT with 26.
  assert (Hall : Z.testbit RESERVED_ALL n = (n =? 26) || (n =? 27)).
  { change RESERVED_ALL with (Z.shiftl 3 26). rewrite Z.shiftl_spec by lia.
    destruct (Z.eqb_spec n 26) as [->|]; [done|]. destruct (Z.eqb_spec n 27) as [->|]; [done|].
    destruct (Z.lt_ge_cases n 26); [by rewrite Z.testbit_neg_r by lia|].
    apply (Z.bits_above_log2 3 (n - 26)); [lia|]. change (Z.log2 3) with 1. lia. }
  change (2 ^ 32 - 1) with (Z.ones 32).
  rewrite Z.lor_spec, !Z.land_spec, Z.lxor_spec, !Z.land_spec, Hall.
  destruct (Z.lt_ge_cases n 32) as [Hlt|Hge].
  - rewrite !Z.mod_pow2_bits_low, !Z.shiftl_spec, Z.ones_spec_low by lia.
    destruct ((n =? 26) || (n =? 27)), (Z.testbit mask (n - 26)), (Z.testbit acc n), (Z.testbit flags (n - 26)); done.
  - rewrite !Z.mod_pow2_bits_high, Z.ones_spec_high by lia. cbn [andb xorb].
    assert (Z.testbit acc n = false) as ->.
    { rewrite <-(Z.mod_small acc (2 ^ 32)) by lia. apply Z.mod_pow2_bits_high. lia. }
    destruct (Z.eqb_spec n 26); [lia|]. destruct (Z.eqb_spec n 27); [lia|]. done.
Qed.

(** ** Witnesses *)

Definition test_ops (_ : Z) : object_ops := mk_ops (fun _ a => a) (fun _ _ _ => true).

Definition test_current : current_t := mk_current 100 200 None None None.

Definition test_check (_ : option Z) (_ acc : Z) : M (option Z) := ret (Some acc).

Definition test_token (_ : Z) : option Z := None.

(** Process 1 with a handle to object 7 that its children inherit. *)
Definition test_entry : handle_entry := mk_he 7 (Z.lor 3 RESERVED_INHERIT).

Definition test_table : handle_table := mk_ht (Some 1) 32 1 [Some test_entry].

Definition test_world : world := mk_world {[ 7 := mk_obj 0 2 1 ]} [] {[ 1 := test_table ]} None.

Lemma test_world_reachable : rtc (handle_step test_ops test_current test_check test_token) initial_world test_world.
Proof.
  eapply rtc_l; [apply (step_create _ _ _ _ initial_world 7 0); reflexivity|].
  eapply rtc_l; [apply (step_new_process _ _ _ _ _ 1 0 (mk_ht (Some 1) 32 0 []) (mk_senv 0 []) (mk_senv 0 []));
                 [reflexivity|by vm_compute|reflexivity]|].
  apply rtc_once, (step_alloc _ _ _ _ _ 1 7 3 OBJ_INHERIT (mk_senv 0 []) 4 test_world (mk_senv 0 [])); [by eexists|by vm_compute].
Qed.

Lemma test_world_wf : world_wf test_world.
Proof.
  eapply (rtc_ind_r (fun w => world_wf w)); [exact initial_world_wf| |exact test_world_reachable].
  intros w1 w2 _ Hs W1. by eapply handle_step_wf.
Qed.

Lemma reachable_handles_valid_witness :
  get_handle test_world 1 4 = Some (Some 1, 0%nat, test_entry) /\
  exists o, objects test_world !! 7 = Some o /\ handle_count o = total test_world 7 /\
            1 <= handle_count o <= refcount o.
Proof.
  split; [vm_compute; reflexivity|].
  apply (reachable_handles_valid test_ops test_current test_check test_token test_world 1 4 (Some 1) 0 test_entry).
  - exact test_world_reachable.
  - vm_compute; reflexivity.
Defined.

(** alloc_entry gives the lowest free handle of the table: it did not resolve
    before and now gives the object and access, every smaller handle is in use, and
    handles that resolved before are unchanged; it fails only when all entries are
    in use and the table is at its limit or cannot grow.  close_handle refuses an
    unknown handle, a handle protected from close and one that the object does not
    let go, without any effect; otherwise the handle stops resolving, every other
    handle of every process keeps its entry, and exactly one reference is given up. *)
Theorem handle_alloc_close_correct w :
  world_wf w ->
  (forall proc t obj acc e, handles w !! proc = Some t -> is_Some (objects w !! obj) ->
   let '(h, w', e') := alloc_entry w (Some proc) obj acc e in
   (h = 0 -> w' = w /\ error e' = STATUS_INSUFFICIENT_RESOURCES /\
      Z.of_nat (length (entries t)) = count t /\
      (count t = MAX_HANDLE_ENTRIES \/ exists tl, allocs e = false :: tl)) /\
   (h <> 0 -> exists i, h = index_to_handle (Z.of_nat i) /\ world_wf w' /\
      get_handle w proc h = None /\ get_handle w' proc h = Some (Some proc, i, mk_he obj acc) /\
      (forall j, (j < i)%nat -> is_Some (get_handle w proc (index_to_handle (Z.of_nat j)))) /\
      (forall h2 x, get_handle w proc h2 = Some x -> get_handle w' proc h2 = Some x))) /\
  (forall ops_table proc h e,
   match get_handle w proc h with
   | None => close_handle ops_table w proc h e = (STATUS_INVALID_HANDLE, w, e)
   | Some (slot, i, en) =>
       if has_bits (access en) RESERVED_CLOSE_PROTECT ||
          negb (close_handle_op (methods ops_table w (ptr en)) (ptr en) (Some proc) h)
       then close_handle ops_table w proc h e = (STATUS_HANDLE_NOT_CLOSABLE, w, e)
       else exists w' e', close_handle ops_table w proc h e = (STATUS_SUCCESS, w', e') /\ world_wf w' /\
         get_handle w' proc h = None /\ (forall x, total w' x = total w x - one (ptr en) x) /\
         forall proc2 h2 slot2 i2 e2, get_handle w proc2 h2 = Some (slot2, i2, e2) ->
           (slot2, i2) <> (slot, i) -> get_handle w' proc2 h2 = Some (slot2, i2, e2)
   end).
Proof. intros W. split; intros; [by apply alloc_entry_ok|by apply close_handle_ok]. Qed.

Lemma handle_alloc_close_correct_witness :
  (let '(h, w', _) := alloc_entry test_world (Some 1) 7 5 (mk_senv 0 []) in
   h = 8 /\ get_handle test_world 1 h = None /\ exists i, get_handle w' 1 h = Some (Some 1, i, mk_he 7 5)) /\
  exists w' e', close_handle test_ops test_world 1 4 (mk_senv 0 []) = (STATUS_SUCCESS, w', e') /\
    get_handle w' 1 4 = None.
Proof.
  destruct (handle_alloc_close_correct test_world test_world_wf) as [Ha Hc]. split.
  - pose proof (Ha 1 test_table 7 5 (mk_senv 0 []) ltac:(vm_compute; reflexivity)
      ltac:(eexists; vm_compute; reflexivity)) as H.
    destruct (alloc_entry test_world (Some 1) 7 5 (mk_senv 0 [])) as [[h w'] e'] eqn:E.
    destruct H as [_ H]. assert (Eh : h = 8) by (vm_compute in E; injection E as <- _ _; reflexivity).
    destruct H as (i & _ & _ & H1 & H2 & _); [rewrite Eh; discriminate|].
    split; [exact Eh|]. split; [exact H1|]. exists i. exact H2.
  - pose proof (Hc test_ops 1 4 (mk_senv 0 [])) as H.
    replace (get_handle test_world 1 4) with (Some (Some 1, 0%nat, test_entry)) in H by (vm_compute; reflexivity).
    cbv match in H.
    replace (has_bits (access test_entry) RESERVED_CLOSE_PROTECT) with false in H by (vm_compute; reflexivity).
    replace (close_handle_op (methods test_ops test_world (ptr test_entry)) (ptr test_entry) (Some 1) 4)
      with true in H by (vm_compute; reflexivity).
    destruct H as (w' & e' & H1 & _ & H2 & _). exists w', e'. split; [exact H1|exact H2].
Defined.

(** ** Inheriting a global handle *)

(** A global handle marked inheritable, as set_handle_flags allows. *)
Definition global_world : world :=
  mk_world {[ 7 := mk_obj 0 3 2 ]} [] {[ 1 := test_table ]} (Some (mk_ht None 32 1 [Some test_entry])).

Definition global_handle : Z := handle_local_to_global (index_to_handle 0).

(** A child process that inherits without a list receives, under the same
    handle values, exactly the entries of its parent that are marked inheritable;
    with a list, those of them that the list or the standard handles name.  The
    objects gain one reference per inherited handle and the world stays consistent
    when the table is installed.  The list must not name a global handle: an
    inheritable one makes inherit_handle address the new table with the index of
    the obfuscated value, which is outside the table. *)
Theorem copy_handle_table_correct w proc parent pt hs e :
  world_wf w -> handles w !! parent = Some pt -> handles w !! proc = None -> no_global hs ->
  (exists r e', copy_handle_table w proc parent hs e = (Some r, e') /\
   match r with
   | (None, w') => w' = w
   | (Some t, w') => table_wf t /\ world_wf (set_table w' (Some proc) t) /\
       forall j, entry_at t j = child_entry pt hs j
   end) /\
  get_handle global_world 1 global_handle = Some (None, 0%nat, test_entry) /\
  handle_to_index global_handle > count test_table /\
  copy_handle_table global_world 2 1 (Some ([global_handle], [])) (mk_senv 0 []) = (None, mk_senv 0 []).
Proof.
  intros W Hp Hn Hg. split; [by apply copy_handle_table_run|]. split; [by vm_compute|]. split; [by vm_compute|by vm_compute].
Qed.

Lemma copy_handle_table_correct_witness :
  exists r e', copy_handle_table test_world 2 1 None (mk_senv 0 []) = (Some r, e') /\
    option_map (fun t => entry_at t 0) (fst r) = Some (Some test_entry).
Proof.
  destruct (copy_handle_table_correct test_world 2 1 test_table None (mk_senv 0 []) test_world_wf
    ltac:(vm_compute; reflexivity) ltac:(vm_compute; reflexivity) I) as [(r & e' & H & _) _].
  exists r, e'. split; [exact H|]. vm_compute in H. injection H as <- _. vm_compute. reflexivity.
Defined.

(** Duplicating into a global handle with more access than the source has reads
    the token of the null destination process. *)
Lemma duplicate_global_null_process :
  fst (req_dup_handle test_ops test_current test_check test_token test_world (Some 1) None 4 0xff 0
         DUPLICATE_MAKE_GLOBAL (mk_senv 0 [])) = None.
Proof. by vm_compute. Qed.
