(* ===== verification/RtlBitmap.v ===== *)
(** * Bitmaps: dlls/ntdll/rtlbitmap.c

    The run-time library's bitmaps: arrays of 32-bit words with a size in bits.
    ULONG arithmetic wraps modulo 2^32.  A word read outside the buffer is 0;
    the theorems are about buffers that hold the bitmap.  The run search looks
    at the buffer as bytes, in little-endian order. *)

From Stdlib Require Import ZArith Lia.
From stdpp Require Import base list numbers option.
From S2P Require Import Prelude.

#[local] Open Scope Z_scope.

(** RTL_BITMAP. *)
Record rtl_bitmap := mk_bitmap {
  SizeOfBitMap : Z;
  Buffer : list Z
}.

Definition ones32 : Z := 0xffffffff.

Definition word (buf : list Z) (i : Z) : Z := default 0 (buf !! Z.to_nat i).

(** [Buffer[i] = f( Buffer[i] )]. *)
Definition set_word (i : Z) (f : Z -> Z) (buf : list Z) : list Z := alter f (Z.to_nat i) buf.

Definition NTDLL_leastSignificant (i : Z) : Z :=
  default 0 ([0; 0; 1; 0; 2; 0; 1; 0; 3; 0; 1; 0; 2; 0; 1; 0] !! Z.to_nat i).

Definition NTDLL_mostSignificant (i : Z) : Z :=
  default 0 ([-1; 0; 1; 1; 2; 2; 2; 2; 3; 3; 3; 3; 3; 3; 3; 3] !! Z.to_nat i).

Definition maskbits (idx : Z) : Z := u32 (Z.shiftl ones32 (Z.land idx 31)).

Definition popcount (val : Z) : Z :=
  let val := u32 (val - Z.land (Z.shiftr val 1) 0x55555555) in
  let val := u32 (Z.land val 0x33333333 + Z.land (Z.shiftr val 2) 0x33333333) in
  Z.shiftr (u32 (Z.land (u32 (val + Z.shiftr val 4)) 0x0f0f0f0f * 0x01010101)) 24.

Definition RtlInitializeBitMap (lpBuff : list Z) (ulSize : Z) : rtl_bitmap := mk_bitmap ulSize lpBuff.

(** Number of words that memset fills: [((SizeOfBitMap + 31) & ~31) >> 3] bytes. *)
Definition fill_words (size : Z) : nat := Z.to_nat (Z.shiftr (Z.land (u32 (size + 31)) (not32 31)) 3 / 4).

Definition memset_words (b : rtl_bitmap) (v : Z) : rtl_bitmap :=
  let n := fill_words (SizeOfBitMap b) in
  mk_bitmap (SizeOfBitMap b) (replicate (Nat.min n (length (Buffer b))) v ++ drop n (Buffer b)).

Definition RtlSetAllBits (b : rtl_bitmap) : rtl_bitmap := memset_words b ones32.

Definition RtlClearAllBits (b : rtl_bitmap) : rtl_bitmap := memset_words b 0.

(** [while (pos < end_pos) Buffer[pos++] = v], [n] words from [pos]. *)
Fixpoint fill_loop (n : nat) (pos v : Z) (buf : list Z) : list Z :=
  match n with
  | O => buf
  | S n => fill_loop n (pos + 1) v (set_word pos (fun _ => v) buf)
  end.

(** The parameter check shared by the four range operations. *)
Definition bad_range (b : rtl_bitmap) (start count : Z) : bool :=
  (count =? 0) || (SizeOfBitMap b <=? start) || (SizeOfBitMap b - start <? count).

Definition RtlSetBits (b : rtl_bitmap) (start count : Z) : rtl_bitmap :=
  let end_ := u32 (start + count) in
  let pos := start / 32 in
  let end_pos := end_ / 32 in
  if bad_range b start count then b
  else if pos <? end_pos then
    let buf := set_word pos (fun w => Z.lor w (maskbits start)) (Buffer b) in
    let buf := fill_loop (Z.to_nat (end_pos - (pos + 1))) (pos + 1) ones32 buf in
    mk_bitmap (SizeOfBitMap b)
      (if negb (Z.land end_ 31 =? 0) then set_word end_pos (fun w => Z.lor w (not32 (maskbits end_))) buf else buf)
  else
    mk_bitmap (SizeOfBitMap b)
      (set_word pos (fun w => Z.lor w (Z.land (maskbits start) (not32 (maskbits end_)))) (Buffer b)).

Definition RtlClearBits (b : rtl_bitmap) (start count : Z) : rtl_bitmap :=
  let end_ := u32 (start + count) in
  let pos := start / 32 in
  let end_pos := end_ / 32 in
  if bad_range b start count then b
  else if pos <? end_pos then
    let buf := set_word pos (fun w => Z.land w (not32 (maskbits start))) (Buffer b) in
    let buf := fill_loop (Z.to_nat (end_pos - (pos + 1))) (pos + 1) 0 buf in
    mk_bitmap (SizeOfBitMap b)
      (if negb (Z.land end_ 31 =? 0) then set_word end_pos (fun w => Z.land w (maskbits end_)) buf else buf)
  else
    mk_bitmap (SizeOfBitMap b)
      (set_word pos (fun w => Z.land w (Z.lor (not32 (maskbits start)) (maskbits end_))) (Buffer b)).

(** [while (pos < end_pos) if (Buffer[pos++] != v) return FALSE]. *)
Fixpoint all_words (n : nat) (pos v : Z) (buf : list Z) : bool :=
  match n with
  | O => true
  | S n => if word buf pos =? v then all_words n (pos + 1) v buf else false
  end.

Definition RtlAreBitsSet (b : rtl_bitmap) (start count : Z) : bool :=
  let end_ := u32 (start + count) in
  let pos := start / 32 in
  let end_pos := end_ / 32 in
  if bad_range b start count then false
  else if end_pos =? pos then
    Z.lor (Z.lor (word (Buffer b) pos) (not32 (maskbits start))) (maskbits end_) =? ones32
  else if negb (Z.lor (word (Buffer b) pos) (not32 (maskbits start)) =? ones32) then false
  else if negb (all_words (Z.to_nat (end_pos - (pos + 1))) (pos + 1) ones32 (Buffer b)) then false
  else if Z.land end_ 31 =? 0 then true
  else Z.lor (word (Buffer b) end_pos) (maskbits end_) =? ones32.

Definition RtlAreBitsClear (b : rtl_bitmap) (start count : Z) : bool :=
  let end_ := u32 (start + count) in
  let pos := start / 32 in
  let end_pos := end_ / 32 in
  if bad_range b start count then false
  else if end_pos =? pos then
    Z.land (Z.land (word (Buffer b) pos) (maskbits start)) (not32 (maskbits end_)) =? 0
  else if negb (Z.land (word (Buffer b) pos) (maskbits start) =? 0) then false
  else if negb (all_words (Z.to_nat (end_pos - (pos + 1))) (pos + 1) 0 (Buffer b)) then false
  else if Z.land end_ 31 =? 0 then true
  else Z.land (word (Buffer b) end_pos) (not32 (maskbits end_)) =? 0.

(** The search loop of RtlFindSetBits and RtlFindClearBits, [test] being
    RtlAreBitsSet or RtlAreBitsClear on [ulCount] bits. *)
Fixpoint find_loop (fuel : nat) (test : Z -> bool) (ulPos ulEnd ulHint : Z) : option Z :=
  match fuel with
  | O => None
  | S fuel =>
      if ulPos <? ulEnd then
        if test ulPos then Some ulPos
        else if (ulPos =? u32 (ulEnd - 1)) && negb (ulHint =? 0) then find_loop fuel test 0 ulHint 0
        else find_loop fuel test (u32 (ulPos + 1)) ulEnd ulHint
      else Some ones32
  end.

(** Each position is tried at most once, so one iteration per bit and one to
    leave the loop are enough. *)
Definition RtlFindSetBits (b : rtl_bitmap) (ulCount ulHint : Z) : option Z :=
  if (ulCount =? 0) || (SizeOfBitMap b <? ulCount) then Some ones32
  else
    let ulEnd := SizeOfBitMap b in
    let ulHint := if SizeOfBitMap b <? u32 (ulHint + ulCount) then 0 else ulHint in
    find_loop (S (Z.to_nat (SizeOfBitMap b))) (fun pos => RtlAreBitsSet b pos ulCount) ulHint ulEnd ulHint.

Definition RtlFindClearBits (b : rtl_bitmap) (ulCount ulHint : Z) : option Z :=
  if (ulCount =? 0) || (SizeOfBitMap b <? ulCount) then Some ones32
  else
    let ulEnd := SizeOfBitMap b in
    let ulHint := if SizeOfBitMap b <? u32 (ulHint + ulCount) then 0 else ulHint in
    find_loop (S (Z.to_nat (SizeOfBitMap b))) (fun pos => RtlAreBitsClear b pos ulCount) ulHint ulEnd ulHint.

Definition RtlFindSetBitsAndClear (b : rtl_bitmap) (ulCount ulHint : Z) : option (Z * rtl_bitmap) :=
  match RtlFindSetBits b ulCount ulHint with
  | None => None
  | Some ulPos => Some (ulPos, if negb (ulPos =? ones32) then RtlClearBits b ulPos ulCount else b)
  end.

Definition RtlFindClearBitsAndSet (b : rtl_bitmap) (ulCount ulHint : Z) : option (Z * rtl_bitmap) :=
  match RtlFindClearBits b ulCount ulHint with
  | None => None
  | Some ulPos => Some (ulPos, if negb (ulPos =? ones32) then RtlSetBits b ulPos ulCount else b)
  end.

(** [n] words from [i]. *)
Fixpoint popcount_loop (n : nat) (i : Z) (buf : list Z) (acc : Z) : Z :=
  match n with
  | O => acc
  | S n => popcount_loop n (i + 1) buf (u32 (acc + popcount (word buf i)))
  end.

Definition RtlNumberOfSetBits (b : rtl_bitmap) : Z :=
  let n := SizeOfBitMap b / 32 in
  let acc := popcount_loop (Z.to_nat n) 0 (Buffer b) 0 in
  if negb (Z.land (SizeOfBitMap b) 31 =? 0)
  then u32 (acc + popcount (Z.land (word (Buffer b) n) (not32 (maskbits (SizeOfBitMap b)))))
  else acc.

Definition RtlNumberOfClearBits (b : rtl_bitmap) : Z := u32 (SizeOfBitMap b - RtlNumberOfSetBits b).

(** [if (dw & mask) { dw >>= n; ret += n; }]. *)
Definition msb_step (mask n : Z) (dw_ret : Z * Z) : Z * Z :=
  let '(dw, ret) := dw_ret in
  if negb (Z.land dw mask =? 0) then (Z.shiftr dw n, ret + n) else (dw, ret).

Definition RtlFindMostSignificantBit (ulLong : Z) : Z :=
  let hi := u32 (Z.shiftr ulLong 32) in
  let s := if hi =? 0 then (u32 ulLong, 0) else (hi, 32) in
  let s := msb_step 0xffff0000 16 s in
  let s := msb_step 0xff00 8 s in
  let '(dw, ret) := msb_step 0xf0 4 s in
  ret + NTDLL_mostSignificant dw.

(** [if (!(dw & mask)) { dw >>= n; ret += n; }]. *)
Definition lsb_step (mask n : Z) (dw_ret : Z * Z) : Z * Z :=
  let '(dw, ret) := dw_ret in
  if Z.land dw mask =? 0 then (Z.shiftr dw n, ret + n) else (dw, ret).

Definition RtlFindLeastSignificantBit (ulLong : Z) : Z :=
  let lo := u32 ulLong in
  let hi := u32 (Z.shiftr ulLong 32) in
  if (lo =? 0) && (hi =? 0) then -1
  else
    let s := if lo =? 0 then (hi, 32) else (lo, 0) in
    let s := lsb_step 0xffff 16 s in
    let s := lsb_step 0xff 8 s in
    let '(dw, ret) := lsb_step 0x0f 4 s in
    ret + NTDLL_leastSignificant (Z.land dw 0x0f).

(** ** Runs *)

(** Byte [k] of the buffer. *)
Definition byte_at (buf : list Z) (k : Z) : Z := Z.land (Z.shiftr (word buf (k / 4)) (8 * (k mod 4))) 0xff.

(** Result of the first loop: no run, a run that ends inside its byte, or a run
    that reaches the end of its byte, with [ulFoundAt], [ulCount], [ulStart] and
    [lpOut] (as a byte index). *)
Inductive first_run :=
  | NoRun
  | RunEnds (ulFoundAt ulCount : Z)
  | RunGoesOn (ulFoundAt ulCount ulStart lpOut : Z).

(** [for (;ulOffset < 8; ulOffset++)] on the bits of [bFirst]: the number of
    bits counted, and whether the end of the byte was reached. *)
Fixpoint count_in_byte (n : nat) (bFirst ulOffset : Z) : Z * bool :=
  match n with
  | O => (0, true)
  | S n =>
      if Z.land bFirst (Z.shiftl 1 ulOffset) =? 0 then (0, false)
      else let '(c, fin) := count_in_byte n bFirst (ulOffset + 1) in (1 + c, fin)
  end.

(** [view] maps a byte to the bits looked for: itself or its complement. *)
Fixpoint first_run_loop (fuel : nat) (view : Z -> Z) (b : rtl_bitmap) (ulStart lpOut : Z) : option first_run :=
  match fuel with
  | O => None
  | S fuel =>
      let bMask := Z.land (Z.shiftl 0xff (Z.land ulStart 7)) 0xff in
      let bFirst := Z.land (view (byte_at (Buffer b) lpOut)) bMask in
      if negb (bFirst =? 0) then
        if negb (bFirst =? bMask) then
          let ulOffset := if negb (Z.land bFirst 0x0f =? 0) then NTDLL_leastSignificant (Z.land bFirst 0x0f)
                          else 4 + NTDLL_leastSignificant (Z.shiftr bFirst 4) in
          let ulStart := u32 (ulStart + ulOffset) in
          let '(c, fin) := count_in_byte (Z.to_nat (8 - ulOffset)) bFirst ulOffset in
          if fin then Some (RunGoesOn ulStart c (u32 (ulStart + c)) (lpOut + 1))
          else Some (RunEnds ulStart c)
        else
          Some (RunGoesOn ulStart (8 - Z.land ulStart 7) (u32 (Z.land ulStart (not32 7) + 8)) (lpOut + 1))
      else
        let ulStart := u32 (Z.land ulStart (not32 7) + 8) in
        if SizeOfBitMap b <=? ulStart then Some NoRun
        else first_run_loop fuel view b ulStart (lpOut + 1)
  end.

(** [while ( *lpOut == 0xff)] and the code after it: the size of the run. *)
Fixpoint full_bytes_loop (fuel : nat) (view : Z -> Z) (b : rtl_bitmap) (ulCount ulStart lpOut : Z) : option Z :=
  match fuel with
  | O => None
  | S fuel =>
      let bits := view (byte_at (Buffer b) lpOut) in
      if bits =? 0xff then
        let ulCount := u32 (ulCount + 8) in
        let ulStart := u32 (ulStart + 8) in
        if SizeOfBitMap b <=? ulStart then Some (u32 (ulCount - (ulStart - SizeOfBitMap b)))
        else full_bytes_loop fuel view b ulCount ulStart (lpOut + 1)
      else if negb (Z.land bits 1 =? 0) then
        Some (u32 (ulCount + fst (count_in_byte 7 bits 0)))
      else Some ulCount
  end.

(** The position of the run, or ~0, and the size stored in [*lpSize], if any. *)
Definition find_run (view : Z -> Z) (b : rtl_bitmap) (ulStart : Z) : option (Z * option Z) :=
  let fuel := S (Z.to_nat (SizeOfBitMap b)) in
  match first_run_loop fuel view b ulStart (Z.shiftr ulStart 3) with
  | None => None
  | Some NoRun => Some (ones32, None)
  | Some (RunEnds at_ c) => Some (at_, Some c)
  | Some (RunGoesOn at_ c st out) =>
      if SizeOfBitMap b <=? st then Some (at_, Some (u32 (c - (st - SizeOfBitMap b))))
      else
        match full_bytes_loop fuel view b c st out with
        | None => None
        | Some size => Some (at_, Some size)
        end
  end.

Definition NTDLL_FindSetRun : rtl_bitmap -> Z -> option (Z * option Z) := find_run (fun x => x).

(** [(~*lpOut) & bMask], and the loops on clear bits. *)
Definition NTDLL_FindClearRun : rtl_bitmap -> Z -> option (Z * option Z) := find_run (fun x => Z.lxor x 0xff).

(** The size of the run and, when the parameters are valid, its position. *)
Definition RtlFindNextForwardRunSet (b : rtl_bitmap) (ulStart : Z) : option (Z * option Z) :=
  if ulStart <? SizeOfBitMap b then
    match NTDLL_FindSetRun b ulStart with
    | None => None
    | Some (pos, size) => Some (default 0 size, Some pos)
    end
  else Some (0, None).

Definition RtlFindNextForwardRunClear (b : rtl_bitmap) (ulStart : Z) : option (Z * option Z) :=
  if ulStart <? SizeOfBitMap b then
    match NTDLL_FindClearRun b ulStart with
    | None => None
    | Some (pos, size) => Some (default 0 size, Some pos)
    end
  else Some (0, None).

Definition RtlFindLastBackwardRunSet (b : rtl_bitmap) (ulStart : Z) : Z := 0.

Definition RtlFindLastBackwardRunClear (b : rtl_bitmap) (ulStart : Z) : Z := 0.

(** RTL_BITMAP_RUN. *)
Record rtl_bitmap_run := mk_run {
  StartingIndex : Z;
  NumberOfBits : Z
}.

Section runs.
(** qsort with NTDLL_RunSortFn, longest runs first. *)
Variable qsort : list rtl_bitmap_run -> list rtl_bitmap_run.

(** NTDLL_RunSortFn. *)
Definition NTDLL_RunSortFn (lhs rhs : rtl_bitmap_run) : Z :=
  if NumberOfBits rhs <? NumberOfBits lhs then -1 else 1.

(** Number of bits of [lpSeries[i]]. *)
Definition run_bits (lpSeries : list rtl_bitmap_run) (i : nat) : Z :=
  match lpSeries !! i with Some r => NumberOfBits r | None => 0 end.

(** The loop of NTDLL_FindRuns; [lpSeries] holds the runs found so far. *)
Fixpoint runs_loop (fuel : nat) (fn : rtl_bitmap -> Z -> option (Z * option Z)) (b : rtl_bitmap)
    (ulCount : Z) (bLongest bNeedSort : bool) (ulPos : Z) (lpSeries : list rtl_bitmap_run) :
    option (list rtl_bitmap_run) :=
  match fuel with
  | O => None
  | S fuel =>
      if ulPos <? SizeOfBitMap b then
        match fn b ulPos with
        | None => None
        | Some (ulNextPos, size) =>
            if ulNextPos =? ones32 then Some lpSeries
            else
              let ulSize := default 0 size in
              let run := mk_run ulNextPos ulSize in
              let ulRuns := length lpSeries in
              if bLongest && (Z.of_nat ulRuns =? ulCount) then
                let lpSeries := if bNeedSort then qsort lpSeries else lpSeries in
                let '(lpSeries, bNeedSort) :=
                  if run_bits lpSeries (ulRuns - 1) <? ulSize then
                    let lpSeries := <[(ulRuns - 1)%nat := run]> lpSeries in
                    (lpSeries, if (1 <? ulRuns)%nat && (run_bits lpSeries (ulRuns - 2) <? ulSize)
                               then true else bNeedSort)
                  else (lpSeries, bNeedSort) in
                runs_loop fuel fn b ulCount bLongest bNeedSort (u32 (ulNextPos + ulSize)) lpSeries
              else
                let lpSeries := lpSeries ++ [run] in
                if negb bLongest && (Z.of_nat (length lpSeries) =? ulCount) then Some lpSeries
                else runs_loop fuel fn b ulCount bLongest bNeedSort (u32 (ulNextPos + ulSize)) lpSeries
        end
      else Some lpSeries
  end.

(** The number of runs, or ~0, and the runs. *)
Definition NTDLL_FindRuns (b : rtl_bitmap) (ulCount : Z) (bLongest : bool)
    (fn : rtl_bitmap -> Z -> option (Z * option Z)) : option (Z * list rtl_bitmap_run) :=
  if ulCount =? 0 then Some (ones32, [])
  else
    match runs_loop (S (Z.to_nat (SizeOfBitMap b))) fn b ulCount bLongest (1 <? ulCount) 0 [] with
    | None => None
    | Some series => Some (Z.of_nat (length series), series)
    end.

Definition RtlFindSetRuns (b : rtl_bitmap) (ulCount : Z) (bLongest : bool) : option (Z * list rtl_bitmap_run) :=
  NTDLL_FindRuns b ulCount bLongest NTDLL_FindSetRun.

Definition RtlFindClearRuns (b : rtl_bitmap) (ulCount : Z) (bLongest : bool) : option (Z * list rtl_bitmap_run) :=
  NTDLL_FindRuns b ulCount bLongest NTDLL_FindClearRun.

(** The length of the run and its start. *)
Definition RtlFindLongestRunSet (b : rtl_bitmap) : option (Z * option Z) :=
  match RtlFindSetRuns b 1 true with
  | None => None
  | Some (1, br :: _) => Some (NumberOfBits br, Some (StartingIndex br))
  | Some _ => Some (0, None)
  end.

Definition RtlFindLongestRunClear (b : rtl_bitmap) : option (Z * option Z) :=
  match RtlFindClearRuns b 1 true with
  | None => None
  | Some (1, br :: _) => Some (NumberOfBits br, Some (StartingIndex br))
  | Some _ => Some (0, None)
  end.
End runs.
