(* ===== verification/RtlBitmapTheorems.v ===== *)
(** * Correctness of the bitmaps of dlls/ntdll/rtlbitmap.c

    The word-at-a-time operations are compared with their meaning bit by bit. *)

From Stdlib Require Import ZArith Lia.
From stdpp Require Import base list numbers option.
From S2P Require Import Prelude RtlBitmap.

#[local] Open Scope Z_scope.

(** ** Bits *)

Definition bit (b : rtl_bitmap) (n : Z) : bool := Z.testbit (word (Buffer b) (n / 32)) (n mod 32).

Record bitmap_wf (b : rtl_bitmap) : Prop := {
  bw_size : 0 <= SizeOfBitMap b < 2 ^ 32;
  bw_words : Forall (fun w => 0 <= w < 2 ^ 32) (Buffer b);
  bw_room : SizeOfBitMap b <= 32 * Z.of_nat (length (Buffer b))
}.

Lemma word_bound buf i : Forall (fun w => 0 <= w < 2 ^ 32) buf -> 0 <= word buf i < 2 ^ 32.
Proof.
  intros H. unfold word. destruct (buf !! Z.to_nat i) as [w|] eqn:E; [|cbn; lia].
  rewrite list.Forall_lookup in H. exact (H _ _ E).
Qed.

Lemma maskbits_spec idx k : 0 <= idx -> 0 <= k < 32 -> Z.testbit (maskbits idx) k = (idx mod 32 <=? k).
Proof.
  intros Hi Hk. unfold maskbits, u32. rewrite Z.mod_pow2_bits_low by lia.
  change 31 with (Z.ones 5). rewrite Z.land_ones by lia. change (2 ^ 5) with 32.
  pose proof (Z.mod_pos_bound idx 32 eq_refl). rewrite Z.shiftl_spec by lia.
  change ones32 with (Z.ones 32). destruct (Z.leb_spec (idx mod 32) k).
  - apply Z.ones_spec_low. lia.
  - apply Z.testbit_neg_r. lia.
Qed.

Lemma ones32_spec k : 0 <= k < 32 -> Z.testbit ones32 k = true.
Proof. intros Hk. change ones32 with (Z.ones 32). apply Z.ones_spec_low. lia. Qed.

(** Bounds of the operations on words. *)
Lemma maskbits_bound idx : 0 <= maskbits idx < 2 ^ 32.
Proof. apply Z.mod_pos_bound. lia. Qed.

Lemma bits_bound x : 0 <= x -> (forall k, 32 <= k -> Z.testbit x k = false) -> x < 2 ^ 32.
Proof.
  intros Hx H. destruct (Z.lt_ge_cases x (2 ^ 32)) as [|Hge]; [done|]. exfalso.
  assert (32 <= Z.log2 x) by (apply Z.log2_le_pow2; lia).
  specialize (H (Z.log2 x) ltac:(done)). rewrite Z.bit_log2 in H by lia. done.
Qed.

Lemma lor_bound x y : 0 <= x < 2 ^ 32 -> 0 <= y < 2 ^ 32 -> 0 <= Z.lor x y < 2 ^ 32.
Proof.
  intros Hx Hy. assert (0 <= Z.lor x y) by (apply Z.lor_nonneg; lia). split; [done|].
  apply bits_bound; [done|]. intros k Hk. by rewrite Z.lor_spec, !testbit_high.
Qed.

Lemma land_bound x y : 0 <= x < 2 ^ 32 -> 0 <= Z.land x y < 2 ^ 32.
Proof.
  intros Hx. assert (0 <= Z.land x y) by (apply Z.land_nonneg; lia). split; [done|].
  apply bits_bound; [done|]. intros k Hk. by rewrite Z.land_spec, testbit_high.
Qed.

Lemma not32_bound x : 0 <= x < 2 ^ 32 -> 0 <= not32 x < 2 ^ 32.
Proof.
  intros Hx. unfold not32. assert (0 <= Z.lxor x (2 ^ 32 - 1)) by (apply Z.lxor_nonneg; lia). split; [done|].
  apply bits_bound; [done|]. intros k Hk. change (2 ^ 32 - 1) with (Z.ones 32).
  rewrite Z.lxor_spec, testbit_high, Z.ones_spec_high by lia. done.
Qed.

Create HintDb words.

#[local] Hint Resolve maskbits_bound lor_bound land_bound not32_bound word_bound : words.

(** A word is determined by its 32 bits. *)
Lemma word_ones x : 0 <= x < 2 ^ 32 -> (x =? ones32) = true <-> forall k, 0 <= k < 32 -> Z.testbit x k = true.
Proof.
  intros Hx. rewrite Z.eqb_eq. split; [intros -> k Hk; by apply ones32_spec|]. intros H.
  apply Z.bits_inj'. intros k Hk. destruct (Z.lt_ge_cases k 32); [by rewrite H, ones32_spec by lia|].
  rewrite testbit_high by (done || lia). symmetry. apply testbit_high; [unfold ones32; lia|lia].
Qed.

Lemma word_zero x : 0 <= x < 2 ^ 32 -> (x =? 0) = true <-> forall k, 0 <= k < 32 -> Z.testbit x k = false.
Proof.
  intros Hx. rewrite Z.eqb_eq. split; [intros -> k Hk; apply Z.bits_0|]. intros H.
  apply Z.bits_inj'. intros k Hk. rewrite Z.bits_0. destruct (Z.lt_ge_cases k 32); [by apply H|].
  by apply testbit_high.
Qed.

(** ** Words of the buffer *)

Lemma word_set i f buf j :
  0 <= i < Z.of_nat (length buf) -> 0 <= j -> word (set_word i f buf) j = if i =? j then f (word buf j) else word buf j.
Proof.
  intros Hi Hj. unfold word, set_word. destruct (Z.eqb_spec i j) as [->|Hne].
  - rewrite list_lookup_alter_eq. destruct (lookup_lt_is_Some_2 buf (Z.to_nat j)) as [w ->]; [lia|done].
  - by rewrite list_lookup_alter_ne by lia.
Qed.

Lemma length_set_word i f buf : length (set_word i f buf) = length buf.
Proof. apply length_alter. Qed.

Lemma length_fill n : forall pos v buf, length (fill_loop n pos v buf) = length buf.
Proof. induction n as [|n IH]; intros pos v buf; [done|]. cbn. by rewrite IH, length_set_word. Qed.

Lemma word_fill n : forall pos v buf j,
  0 <= pos -> pos + Z.of_nat n <= Z.of_nat (length buf) -> 0 <= j ->
  word (fill_loop n pos v buf) j = if (pos <=? j) && (j <? pos + Z.of_nat n) then v else word buf j.
Proof.
  induction n as [|n IH]; intros pos v buf j Hp Hl Hj; cbn [fill_loop].
  - destruct (Z.leb_spec pos j), (Z.ltb_spec j (pos + Z.of_nat 0)); cbn; (lia || done).
  - rewrite IH by (rewrite ?length_set_word; lia). rewrite word_set by lia.
    destruct (Z.eqb_spec pos j), (Z.leb_spec (pos + 1) j), (Z.ltb_spec j (pos + 1 + Z.of_nat n)),
      (Z.leb_spec pos j), (Z.ltb_spec j (pos + Z.of_nat (S n))); cbn; (lia || done).
Qed.

(** The range of a valid call. *)
Lemma bad_range_false b start count :
  bitmap_wf b -> 0 <= start -> 0 <= count -> bad_range b start count = false <->
  0 < count /\ start + count <= SizeOfBitMap b.
Proof.
  intros W Hs Hc. unfold bad_range.
  destruct (Z.eqb_spec count 0), (Z.leb_spec (SizeOfBitMap b) start), (Z.ltb_spec (SizeOfBitMap b - start) count);
    cbn; split; (done || lia).
Qed.

Definition in_range (start count n : Z) : bool := (start <=? n) && (n <? start + count).

(** Bit [n] is bit [n mod 32] of word [n / 32]. *)
Lemma split_index n : 0 <= n -> n = 32 * (n / 32) + n mod 32 /\ 0 <= n / 32 /\ 0 <= n mod 32 < 32.
Proof. intros Hn. Z.to_euclidean_division_equations; lia. Qed.

(** ** Setting and clearing ranges *)

Section range.
Context (b : rtl_bitmap) (start count : Z).
Context (W : bitmap_wf b) (Hs : 0 <= start) (Hc : 0 < count) (Hr : start + count <= SizeOfBitMap b).

Lemma range_end : u32 (start + count) = start + count.
Proof using W Hs Hc Hr. unfold u32. apply Z.mod_small. pose proof (bw_size b W). lia. Qed.

Lemma range_room : start / 32 < Z.of_nat (length (Buffer b)) /\
  ((start + count) mod 32 <> 0 -> (start + count) / 32 < Z.of_nat (length (Buffer b))) /\
  (start + count) / 32 <= Z.of_nat (length (Buffer b)).
Proof using W Hs Hc Hr. pose proof (bw_room b W). Z.to_euclidean_division_equations; lia. Qed.

Lemma land31 x : 0 <= x -> Z.land x 31 = x mod 32.
Proof using. intros Hx. change 31 with (Z.ones 5). by rewrite Z.land_ones by lia. Qed.

(** The word at [q] after an operation that applies [first], [middle], [lst] or
    [single] to the words of the range. *)
Definition range_words (first lst single : Z -> Z) (v : Z) : list Z :=
  let pos := start / 32 in
  let end_pos := (start + count) / 32 in
  if pos <? end_pos then
    let buf := fill_loop (Z.to_nat (end_pos - (pos + 1))) (pos + 1) v (set_word pos first (Buffer b)) in
    if negb ((start + count) mod 32 =? 0) then set_word end_pos lst buf else buf
  else set_word pos single (Buffer b).

Lemma range_words_spec first lst single v q :
  0 <= q ->
  word (range_words first lst single v) q =
    let pos := start / 32 in
    let end_pos := (start + count) / 32 in
    let w := word (Buffer b) q in
    if pos <? end_pos then
      if q =? pos then first w
      else if (pos <? q) && (q <? end_pos) then v
      else if (q =? end_pos) && negb ((start + count) mod 32 =? 0) then lst w
      else w
    else if q =? pos then single w else w.
Proof using W Hs Hc Hr.
  intros Hq. destruct range_room as (R1 & R2 & R3). unfold range_words. cbn zeta.
  assert (0 <= start / 32) by (apply Z.div_pos; lia).
  destruct (Z.ltb_spec (start / 32) ((start + count) / 32)) as [Hlt|Hge].
  2: { rewrite word_set by lia. rewrite Z.eqb_sym. by destruct (q =? start / 32). }
  assert (Hf : word (fill_loop (Z.to_nat ((start + count) / 32 - (start / 32 + 1))) (start / 32 + 1) v
                       (set_word (start / 32) first (Buffer b))) q =
    if q =? start / 32 then first (word (Buffer b) q)
    else if (start / 32 <? q) && (q <? (start + count) / 32) then v else word (Buffer b) q).
  { rewrite word_fill by (rewrite ?length_set_word; lia). rewrite word_set by lia.
    rewrite Z2Nat.id by lia.
    destruct (Z.eqb_spec q (start / 32)), (Z.eqb_spec (start / 32) q), (Z.leb_spec (start / 32 + 1) q),
      (Z.ltb_spec q (start / 32 + 1 + ((start + count) / 32 - (start / 32 + 1)))),
      (Z.ltb_spec (start / 32) q), (Z.ltb_spec q ((start + count) / 32)); cbn; (lia || done). }
  destruct (Z.eqb_spec ((start + count) mod 32) 0) as [E|E]; cbn [negb].
  - rewrite Hf, andb_false_r. by destruct (q =? start / 32), ((start / 32 <? q) && (q <? (start + count) / 32)).
  - rewrite word_set by (rewrite ?length_fill, ?length_set_word; lia). rewrite Hf, andb_true_r, (Z.eqb_sym _ q).
    destruct (Z.eqb_spec q (start / 32)), (Z.eqb_spec q ((start + count) / 32)),
      (Z.ltb_spec (start / 32) q), (Z.ltb_spec q ((start + count) / 32)); cbn; (lia || done).
Qed.
End range.

(** Both operations in terms of [range_words]. *)
Lemma RtlSetBits_words b start count :
  bitmap_wf b -> 0 <= start -> 0 < count -> start + count <= SizeOfBitMap b ->
  RtlSetBits b start count = mk_bitmap (SizeOfBitMap b)
    (range_words b start count (fun w => Z.lor w (maskbits start))
       (fun w => Z.lor w (not32 (maskbits (start + count))))
       (fun w => Z.lor w (Z.land (maskbits start) (not32 (maskbits (start + count))))) ones32).
Proof.
  intros W Hs Hc Hr. unfold RtlSetBits, range_words. rewrite (range_end b) by done.
  rewrite (proj2 (bad_range_false b start count W Hs ltac:(lia))) by done. rewrite land31 by lia.
  by destruct (_ <? _).
Qed.

Lemma RtlClearBits_words b start count :
  bitmap_wf b -> 0 <= start -> 0 < count -> start + count <= SizeOfBitMap b ->
  RtlClearBits b start count = mk_bitmap (SizeOfBitMap b)
    (range_words b start count (fun w => Z.land w (not32 (maskbits start)))
       (fun w => Z.land w (maskbits (start + count)))
       (fun w => Z.land w (Z.lor (not32 (maskbits start)) (maskbits (start + count)))) 0).
Proof.
  intros W Hs Hc Hr. unfold RtlClearBits, range_words. rewrite (range_end b) by done.
  rewrite (proj2 (bad_range_false b start count W Hs ltac:(lia))) by done. rewrite land31 by lia.
  by destruct (_ <? _).
Qed.

(** Membership in the range, by words. *)
Lemma in_range_words start count n :
  0 <= start -> 0 < count -> 0 <= n ->
  in_range start count n =
    let pos := start / 32 in let end_pos := (start + count) / 32 in let q := n / 32 in let r := n mod 32 in
    if pos <? end_pos then
      if q =? pos then start mod 32 <=? r
      else if (pos <? q) && (q <? end_pos) then true
      else if (q =? end_pos) && negb ((start + count) mod 32 =? 0) then r <? (start + count) mod 32
      else false
    else if q =? pos then (start mod 32 <=? r) && (r <? (start + count) mod 32) else false.
Proof.
  intros Hs Hc Hn. unfold in_range. cbn zeta.
  destruct (split_index start Hs) as (S1 & S2 & S3). destruct (split_index (start + count) ltac:(lia)) as (E1 & E2 & E3).
  destruct (split_index n Hn) as (N1 & N2 & N3).
  set (p := start / 32) in *. set (e := (start + count) / 32) in *. set (q := n / 32) in *.
  set (sr := start mod 32) in *. set (er := (start + count) mod 32) in *. set (r := n mod 32) in *.
  assert (p <= e) by lia. clearbody p e q sr er r.
  destruct (Z.ltb_spec p e), (Z.eqb_spec q p), (Z.ltb_spec p q), (Z.ltb_spec q e), (Z.eqb_spec q e), (Z.eqb_spec er 0);
    cbn [andb negb]; try lia;
    destruct (Z.leb_spec start n), (Z.ltb_spec n (start + count)); cbn [andb]; try lia;
    try (destruct (Z.leb_spec sr r)); try (destruct (Z.ltb_spec r er)); cbn [andb]; try lia; done.
Qed.

(** Compares a word of [range_words] with the bits of the range. *)
Ltac range_bits :=
  destruct (_ <? _), (_ =? _); cbn [andb negb];
  repeat (match goal with |- context [if ?c then _ else _] => destruct c eqn:? end);
  rewrite ?Z.lor_spec, ?Z.land_spec, ?Z.lor_spec, ?Z.land_spec, ?not32_spec, ?maskbits_spec, ?ones32_spec, ?Z.bits_0 by lia;
  rewrite ?orb_false_r, ?andb_true_r, ?orb_true_r, ?andb_false_r; try done;
  rewrite ?negb_andb; try rewrite <-!Z.ltb_antisym; try done; by rewrite <-!Z.leb_antisym.

Section update.
Context (b : rtl_bitmap) (start count : Z).
Context (W : bitmap_wf b) (Hs : 0 <= start) (Hc : 0 < count) (Hr : start + count <= SizeOfBitMap b).

Lemma RtlSetBits_bit n : 0 <= n -> bit (RtlSetBits b start count) n = bit b n || in_range start count n.
Proof using W Hs Hc Hr.
  intros Hn. rewrite RtlSetBits_words by done. unfold bit. cbn [Buffer]. destruct (split_index n Hn) as (N1 & N2 & N3).
  rewrite range_words_spec, in_range_words by (done || lia). cbn zeta. range_bits.
Qed.

Lemma RtlClearBits_bit n : 0 <= n -> bit (RtlClearBits b start count) n = bit b n && negb (in_range start count n).
Proof using W Hs Hc Hr.
  intros Hn. rewrite RtlClearBits_words by done. unfold bit. cbn [Buffer]. destruct (split_index n Hn) as (N1 & N2 & N3).
  rewrite range_words_spec, in_range_words by (done || lia). cbn zeta. range_bits.
Qed.
End update.

(** A bitmap of three words. *)
Definition sample_bitmap : rtl_bitmap := mk_bitmap 80 [0x0f; 0xffffffff; 0x00ff].

Lemma sample_bitmap_wf : bitmap_wf sample_bitmap.
Proof. split; cbn; [lia| |lia]. repeat constructor; lia. Qed.

(** ** Testing ranges *)

Lemma all_words_spec v buf n : forall pos,
  all_words n pos v buf = true <-> forall q, pos <= q < pos + Z.of_nat n -> word buf q = v.
Proof.
  induction n as [|n IH]; intros pos; cbn [all_words]; [split; [intros _ q Hq; lia|done]|].
  destruct (Z.eqb_spec (word buf pos) v) as [E|E].
  - rewrite IH. split; intros H q Hq; [destruct (Z.eq_dec q pos) as [->|]; [done|apply H; lia]|apply H; lia].
  - split; [done|]. intros H. destruct E. apply H. lia.
Qed.

(** A property of all bits of the range, by words: [want] is the value looked
    for, [ok] the test of a word against a mask. *)
Section test.
Context (b : rtl_bitmap) (start count : Z) (want : bool).
Context (W : bitmap_wf b) (Hs : 0 <= start) (Hc : 0 < count) (Hr : start + count <= SizeOfBitMap b).

(** Every bit of word [q] selected by [sel] is [want]. *)
Definition word_ok (q : Z) (sel : Z -> bool) : Prop :=
  forall r, 0 <= r < 32 -> sel r = true -> Z.testbit (word (Buffer b) q) r = want.

Definition all_bits : Prop := forall n, start <= n < start + count -> bit b n = want.

Lemma all_bits_words :
  all_bits <->
  if start / 32 <? (start + count) / 32 then
    word_ok (start / 32) (fun r => start mod 32 <=? r) /\
    (forall q, start / 32 + 1 <= q < (start + count) / 32 -> word_ok q (fun _ => true)) /\
    word_ok ((start + count) / 32) (fun r => r <? (start + count) mod 32)
  else word_ok (start / 32) (fun r => (start mod 32 <=? r) && (r <? (start + count) mod 32)).
Proof using W Hs Hc Hr.
  assert (Hq : forall q r, 0 <= q -> 0 <= r < 32 -> (32 * q + r) / 32 = q /\ (32 * q + r) mod 32 = r)
    by (intros; Z.to_euclidean_division_equations; lia).
  destruct (split_index start Hs) as (S1 & S2 & S3). destruct (split_index (start + count) ltac:(lia)) as (E1 & E2 & E3).
  assert (Hone : forall q r, all_bits -> 0 <= q -> 0 <= r < 32 -> start <= 32 * q + r < start + count ->
    Z.testbit (word (Buffer b) q) r = want).
  { intros q r H Hq0 Hr0 Hin. specialize (H _ Hin). unfold bit in H. destruct (Hq q r Hq0 Hr0) as [Ed Em].
    by rewrite Ed, Em in H. }
  assert (Hall : (forall q r, 0 <= q -> 0 <= r < 32 -> start <= 32 * q + r < start + count ->
    Z.testbit (word (Buffer b) q) r = want) -> all_bits).
  { intros H n Hn. destruct (split_index n ltac:(lia)) as (N1 & N2 & N3). apply H; lia. }
  destruct (Z.ltb_spec (start / 32) ((start + count) / 32)) as [Hlt|Hge]; split.
  - intros H. split; [|split].
    + intros r Hr0 ?%Z.leb_le. apply Hone; (done || lia).
    + intros q Hq0 r Hr0 _. apply Hone; (done || lia).
    + intros r Hr0 ?%Z.ltb_lt. apply Hone; (done || lia).
  - intros (H1 & H2 & H3). apply Hall. intros q r Hq0 Hr0 Hin.
    destruct (Z.eq_dec q (start / 32)) as [->|]; [apply H1; [done|apply Z.leb_le; lia]|].
    destruct (Z.eq_dec q ((start + count) / 32)) as [->|]; [apply H3; [done|apply Z.ltb_lt; lia]|].
    apply (H2 q); (done || lia).
  - intros H r Hr0 [?%Z.leb_le ?%Z.ltb_lt]%andb_true_iff. apply Hone; (done || lia).
  - intros H1. apply Hall. intros q r Hq0 Hr0 Hin. assert (q = start / 32) as -> by lia.
    apply H1; [done|]. rewrite andb_true_iff, Z.leb_le, Z.ltb_lt. lia.
Qed.
End test.

(** The word tests of the two functions. *)
Lemma word_ok_set b q m sel :
  Forall (fun w => 0 <= w < 2 ^ 32) (Buffer b) -> 0 <= m < 2 ^ 32 ->
  (forall r, 0 <= r < 32 -> Z.testbit m r = negb (sel r)) ->
  (Z.lor (word (Buffer b) q) m =? ones32) = true <-> word_ok b true q sel.
Proof.
  intros Hw Hm Hsel. rewrite word_ones by auto with words.
  split; intros H r Hr; [intros Hs|]; specialize (H r Hr).
  - rewrite Z.lor_spec, Hsel, Hs, orb_false_r in H by done. done.
  - rewrite Z.lor_spec, Hsel by done. destruct (sel r); [by rewrite H|apply orb_true_r].
Qed.

Lemma word_ok_clear b q m sel :
  Forall (fun w => 0 <= w < 2 ^ 32) (Buffer b) ->
  (forall r, 0 <= r < 32 -> Z.testbit m r = sel r) ->
  (Z.land (word (Buffer b) q) m =? 0) = true <-> word_ok b false q sel.
Proof.
  intros Hw Hsel. rewrite word_zero by auto with words.
  split; intros H r Hr; [intros Hs|]; specialize (H r Hr).
  - rewrite Z.land_spec, Hsel, Hs, andb_true_r in H by done. done.
  - rewrite Z.land_spec, Hsel by done. destruct (sel r); [by rewrite H|apply andb_false_r].
Qed.

Lemma word_full b q : Forall (fun w => 0 <= w < 2 ^ 32) (Buffer b) ->
  word (Buffer b) q = ones32 <-> word_ok b true q (fun _ => true).
Proof.
  intros Hw. rewrite <-Z.eqb_eq, word_ones by auto with words. unfold word_ok.
  split; intros H r Hr; [intros _|]; by apply H.
Qed.

Lemma word_empty b q : Forall (fun w => 0 <= w < 2 ^ 32) (Buffer b) ->
  word (Buffer b) q = 0 <-> word_ok b false q (fun _ => true).
Proof.
  intros Hw. rewrite <-Z.eqb_eq, word_zero by auto with words. unfold word_ok.
  split; intros H r Hr; [intros _|]; by apply H.
Qed.

Lemma word_ok_none b want q sel : (forall r, 0 <= r < 32 -> sel r = false) -> word_ok b want q sel.
Proof. intros H r Hr Hs. by rewrite H in Hs. Qed.

(** The shape shared by the two tests: a single word, or a first, middle and
    last words. *)
Lemma are_bits_shape b start count want (single first middle lst : bool) :
  bitmap_wf b -> 0 <= start -> 0 < count -> start + count <= SizeOfBitMap b ->
  (single = true <-> word_ok b want (start / 32) (fun r => (start mod 32 <=? r) && (r <? (start + count) mod 32))) ->
  (first = true <-> word_ok b want (start / 32) (fun r => start mod 32 <=? r)) ->
  (middle = true <-> forall q, start / 32 + 1 <= q < (start + count) / 32 -> word_ok b want q (fun _ => true)) ->
  (lst = true <-> word_ok b want ((start + count) / 32) (fun r => r <? (start + count) mod 32)) ->
  (if (start + count) / 32 =? start / 32 then single
   else if negb first then false else if negb middle then false
   else if (start + count) mod 32 =? 0 then true else lst) = true <->
  all_bits b start count want.
Proof.
  intros W Hs Hc Hr Es Ef Em El. rewrite all_bits_words by done.
  assert (start / 32 <= (start + count) / 32) by (apply Z.div_le_mono; lia).
  destruct (Z.eqb_spec ((start + count) / 32) (start / 32)) as [E|E].
  { by rewrite E, Z.ltb_irrefl. }
  rewrite (proj2 (Z.ltb_lt (start / 32) ((start + count) / 32))) by lia. rewrite <-Ef, <-Em.
  destruct first, middle; cbn [negb]; try (split; [done|]; by intros (? & ? & _)).
  destruct (Z.eqb_spec ((start + count) mod 32) 0) as [E0|E0]; [|rewrite El; tauto].
  split; [intros _|done]. repeat split. apply word_ok_none. intros r Hr0. apply Z.ltb_ge. lia.
Qed.

Lemma middle_words b start count want v :
  0 <= start -> 0 < count -> (forall q, word (Buffer b) q = v <-> word_ok b want q (fun _ => true)) ->
  all_words (Z.to_nat ((start + count) / 32 - (start / 32 + 1))) (start / 32 + 1) v (Buffer b) = true <->
  forall q, start / 32 + 1 <= q < (start + count) / 32 -> word_ok b want q (fun _ => true).
Proof.
  intros Hs Hc H. rewrite all_words_spec. split; intros Ha q Hq; apply H, Ha; lia.
Qed.

Lemma RtlAreBitsSet_spec b start count :
  bitmap_wf b -> 0 <= start -> 0 <= count ->
  RtlAreBitsSet b start count = true <->
  0 < count /\ start + count <= SizeOfBitMap b /\ all_bits b start count true.
Proof.
  intros W Hs Hc. unfold RtlAreBitsSet. destruct (bad_range b start count) eqn:E.
  { split; [done|]. intros (H1 & H2 & _). rewrite (proj2 (bad_range_false b start count W Hs Hc)) in E; done. }
  apply bad_range_false in E as [Hc' Hr]; [|done..]. rewrite (range_end b), land31 by (done || lia).
  pose proof (bw_words b W) as Hw. rewrite (are_bits_shape b start count true); [split; [by repeat split|by intros (_ & _ & ?)]|done..| | | |].
  - rewrite <-Z.lor_assoc. apply word_ok_set; [done|auto with words|]. intros r Hr0.
    rewrite Z.lor_spec, not32_spec, !maskbits_spec, negb_andb by lia. by rewrite <-Z.leb_antisym.
  - apply word_ok_set; [done|auto with words|]. intros r Hr0. by rewrite not32_spec, maskbits_spec by lia.
  - apply middle_words; [done..|]. intros q. by apply word_full.
  - apply word_ok_set; [done|auto with words|]. intros r Hr0. rewrite maskbits_spec by lia. apply Z.leb_antisym.
Qed.

Lemma RtlAreBitsClear_spec b start count :
  bitmap_wf b -> 0 <= start -> 0 <= count ->
  RtlAreBitsClear b start count = true <->
  0 < count /\ start + count <= SizeOfBitMap b /\ all_bits b start count false.
Proof.
  intros W Hs Hc. unfold RtlAreBitsClear. destruct (bad_range b start count) eqn:E.
  { split; [done|]. intros (H1 & H2 & _). rewrite (proj2 (bad_range_false b start count W Hs Hc)) in E; done. }
  apply bad_range_false in E as [Hc' Hr]; [|done..]. rewrite (range_end b), land31 by (done || lia).
  pose proof (bw_words b W) as Hw. rewrite (are_bits_shape b start count false); [split; [by repeat split|by intros (_ & _ & ?)]|done..| | | |].
  - rewrite <-Z.land_assoc. apply word_ok_clear; [done|]. intros r Hr0.
    rewrite Z.land_spec, not32_spec, !maskbits_spec by lia. by rewrite <-Z.ltb_antisym.
  - apply word_ok_clear; [done|]. intros r Hr0. by rewrite maskbits_spec by lia.
  - apply middle_words; [done..|]. intros q. by apply word_empty.
  - apply word_ok_clear; [done|]. intros r Hr0. rewrite not32_spec, maskbits_spec by lia. by rewrite <-Z.ltb_antisym.
Qed.

(** ** Searching for a block *)

(** The positions the search tries, in order: from the hint to the end, then
    from the beginning to the hint. *)
Definition search_order (size hint : Z) : list Z := seqZ hint (size - hint) ++ seqZ 0 hint.

(** The first position of [l] that passes the test, or ~0. *)
Definition first_pass (test : Z -> bool) (l : list Z) : Z := default ones32 (head (filter (fun p => test p) l)).

Lemma first_pass_cons test p l : first_pass test (p :: l) = if test p then p else first_pass test l.
Proof. unfold first_pass. rewrite filter_cons. destruct (test p); by case_decide. Qed.

Lemma seqZ_first lo n : 0 < n -> seqZ lo n = lo :: seqZ (lo + 1) (n - 1).
Proof. intros Hn. rewrite seqZ_cons by lia. by rewrite Z.add_1_r, Z.sub_1_r. Qed.

(** The last pass. *)
Lemma find_loop_last test fuel : forall pos end_,
  0 <= pos -> end_ < 2 ^ 32 -> Z.of_nat fuel > end_ - pos -> (0 < fuel)%nat ->
  find_loop fuel test pos end_ 0 = Some (first_pass test (seqZ pos (end_ - pos))).
Proof.
  induction fuel as [|fuel IH]; intros pos end_ Hp He Hf Hf0; [lia|]. cbn [find_loop].
  destruct (Z.ltb_spec pos end_).
  - rewrite seqZ_first, first_pass_cons, andb_false_r by lia. destruct (test pos); [done|].
    unwrap.
    rewrite IH by lia. do 3 f_equal. lia.
  - assert (seqZ pos (end_ - pos) = []) as -> by (apply seqZ_nil; lia). done.
Qed.

(** The first pass, from a hint. *)
Lemma find_loop_first test hint size fuel : forall pos,
  0 < hint <= pos -> pos < size -> size < 2 ^ 32 -> Z.of_nat fuel > size - pos + hint ->
  find_loop fuel test pos size hint = Some (first_pass test (seqZ pos (size - pos) ++ seqZ 0 hint)).
Proof.
  induction fuel as [|fuel IH]; intros pos Hp Hs H32 Hf; [lia|]. cbn [find_loop].
  rewrite (proj2 (Z.ltb_lt _ _)) by lia. rewrite seqZ_first by lia. cbn [app]. rewrite first_pass_cons.
  destruct (test pos); [done|].
  unwrap.
  destruct (Z.eqb_spec pos (size - 1)) as [->|], (Z.eqb_spec hint 0); cbn [andb negb]; try lia.
  - rewrite find_loop_last by lia. rewrite (seqZ_nil _ (size - (size - 1) - 1)) by lia. cbn. by rewrite Z.sub_0_r.
  - rewrite IH by lia. do 4 f_equal. lia.
Qed.

Lemma find_loop_spec test size hint :
  0 <= hint < size -> size < 2 ^ 32 ->
  find_loop (S (Z.to_nat size)) test hint size hint = Some (first_pass test (search_order size hint)).
Proof.
  intros Hh Hs. unfold search_order. destruct (Z.eq_dec hint 0) as [->|].
  - rewrite find_loop_last by lia. by rewrite (seqZ_nil 0 0), app_nil_r by lia.
  - apply find_loop_first; lia.
Qed.

Lemma first_pass_spec test l :
  (first_pass test l = ones32 /\ forall p, p ∈ l -> test p = false) \/
  (exists l1 l2, l = l1 ++ first_pass test l :: l2 /\ test (first_pass test l) = true /\
     forall p, p ∈ l1 -> test p = false).
Proof.
  induction l as [|p l IH]; [left; split; [done|]; intros p Hp; by apply not_elem_of_nil in Hp|].
  rewrite first_pass_cons. destruct (test p) eqn:E.
  { right. exists [], l. repeat split; [done|]. intros q Hq. by apply not_elem_of_nil in Hq. }
  destruct IH as [[-> H]|(l1 & l2 & El & Ht & H)].
  - left. split; [done|]. intros q [->|Hq]%elem_of_cons; auto.
  - right. exists (p :: l1), l2. split; [cbn; by f_equal|]. split; [done|].
    intros q [->|Hq]%elem_of_cons; auto.
Qed.

Lemma elem_of_search size hint p : 0 <= hint <= size -> p ∈ search_order size hint <-> 0 <= p < size.
Proof. intros Hh. unfold search_order. rewrite elem_of_app, !elem_of_seqZ. lia. Qed.

(** A block of [count] bits equal to [v] at [p]. *)
Definition block (b : rtl_bitmap) (count : Z) (v : bool) (p : Z) : Prop :=
  0 < count /\ p + count <= SizeOfBitMap b /\ all_bits b p count v.

(** [r] is the first block in the order of the search from [hint]. *)
Definition first_block (b : rtl_bitmap) (count hint : Z) (v : bool) (r : Z) : Prop :=
  exists l1 l2, search_order (SizeOfBitMap b) hint = l1 ++ r :: l2 /\
    block b count v r /\ forall p, p ∈ l1 -> ~ block b count v p.

(** The hint that the search uses: an unusable one is replaced by 0. *)
Definition usable_hint (b : rtl_bitmap) (count hint : Z) : Z :=
  if SizeOfBitMap b <? hint + count then 0 else hint.

Lemma find_block b count hint v test :
  bitmap_wf b -> 0 <= hint ->
  (forall p, 0 <= p -> test p = true <-> block b count v p) ->
  let h := usable_hint b count hint in
  0 < count <= SizeOfBitMap b ->
  exists r, find_loop (S (Z.to_nat (SizeOfBitMap b))) test h (SizeOfBitMap b) h = Some r /\
    ((r = ones32 /\ forall p, 0 <= p -> ~ block b count v p) \/ (0 <= r < ones32 /\ first_block b count h v r)).
Proof.
  intros W Hh Ht h Hc. pose proof (bw_size b W) as Hs.
  assert (Hh0 : 0 <= h < SizeOfBitMap b) by (unfold h, usable_hint; zbools).
  rewrite find_loop_spec by lia. eexists; split; [done|].
  assert (Hno : forall p, 0 <= p -> test p = false -> ~ block b count v p).
  { intros p Hp E Hb. apply Ht in Hb; [by rewrite E in Hb|done]. }
  pose proof (fun p => elem_of_search (SizeOfBitMap b) h p ltac:(lia)) as Hin.
  destruct (first_pass_spec test (search_order (SizeOfBitMap b) h)) as [[-> H]|(l1 & l2 & El & Et & H)].
  - left. split; [done|]. intros p Hp Hb. destruct (Hno p Hp); [|done]. apply H, Hin.
    destruct Hb as (? & ? & _). lia.
  - set (r := first_pass _ _) in *. assert (0 <= r < SizeOfBitMap b) by (apply Hin; rewrite El; apply elem_of_app; right; left).
    right. split; [unfold ones32; lia|]. exists l1, l2. split; [done|]. split; [apply Ht; (done || lia)|].
    intros p Hp. apply Hno; [|by apply H].
    assert (p ∈ search_order (SizeOfBitMap b) h) as Hp0 by (rewrite El; apply elem_of_app; by left).
    apply Hin in Hp0. lia.
Qed.

Lemma no_block b count v p : 0 <= p -> ~ 0 < count <= SizeOfBitMap b -> ~ block b count v p.
Proof. intros Hp Hc (H1 & H2 & _). lia. Qed.

(** What a search returns. *)
Definition search_result (b : rtl_bitmap) (count hint : Z) (v : bool) (r : Z) : Prop :=
  (r = ones32 /\ forall p, 0 <= p -> ~ block b count v p) \/
  (0 <= r < ones32 /\ first_block b count (usable_hint b count hint) v r).

Lemma RtlFindSetBits_spec b count hint :
  bitmap_wf b -> 0 <= count -> 0 <= hint -> hint + count < 2 ^ 32 ->
  exists r, RtlFindSetBits b count hint = Some r /\ search_result b count hint true r.
Proof.
  intros W Hc Hh H32. unfold RtlFindSetBits.
  unwrap.
  destruct (Z.eqb_spec count 0), (Z.ltb_spec (SizeOfBitMap b) count); cbn [orb];
    try (eexists; split; [done|]; left; split; [done|]; intros; apply no_block; lia).
  apply find_block; [done..| |lia]. intros p Hp. by apply RtlAreBitsSet_spec.
Qed.

Lemma RtlFindClearBits_spec b count hint :
  bitmap_wf b -> 0 <= count -> 0 <= hint -> hint + count < 2 ^ 32 ->
  exists r, RtlFindClearBits b count hint = Some r /\ search_result b count hint false r.
Proof.
  intros W Hc Hh H32. unfold RtlFindClearBits.
  unwrap.
  destruct (Z.eqb_spec count 0), (Z.ltb_spec (SizeOfBitMap b) count); cbn [orb];
    try (eexists; split; [done|]; left; split; [done|]; intros; apply no_block; lia).
  apply find_block; [done..| |lia]. intros p Hp. by apply RtlAreBitsClear_spec.
Qed.

(** ** The operations on ranges *)

(** RtlSetBits and RtlClearBits change exactly the bits of the range, also
    across word boundaries, and nothing when the range is empty or exceeds the
    bitmap. *)
Lemma set_clear_bits_ok b start count n :
  bitmap_wf b -> 0 <= start -> 0 <= count -> 0 <= n ->
  if (0 <? count) && (start + count <=? SizeOfBitMap b) then
    bit (RtlSetBits b start count) n = bit b n || in_range start count n /\
    bit (RtlClearBits b start count) n = bit b n && negb (in_range start count n)
  else RtlSetBits b start count = b /\ RtlClearBits b start count = b.
Proof.
  intros W Hs Hc Hn. destruct (Z.ltb_spec 0 count), (Z.leb_spec (start + count) (SizeOfBitMap b)); cbn [andb].
  1: by rewrite RtlSetBits_bit, RtlClearBits_bit.
  all: assert (bad_range b start count = true) as E by
      (destruct (bad_range b start count) eqn:E; [done|apply bad_range_false in E; (done || lia)]);
    unfold RtlSetBits, RtlClearBits; by rewrite E.
Qed.

(** A block that is found is changed as a whole and nothing else is. *)
Lemma find_bits_and_update_spec b count hint :
  bitmap_wf b -> 0 <= count -> 0 <= hint -> hint + count < 2 ^ 32 ->
  (exists r b', RtlFindClearBitsAndSet b count hint = Some (r, b') /\ search_result b count hint false r /\
     (r = ones32 -> b' = b) /\
     (r <> ones32 -> forall n, 0 <= n -> bit b' n = bit b n || in_range r count n)) /\
  (exists r b', RtlFindSetBitsAndClear b count hint = Some (r, b') /\ search_result b count hint true r /\
     (r = ones32 -> b' = b) /\
     (r <> ones32 -> forall n, 0 <= n -> bit b' n = bit b n && negb (in_range r count n))).
Proof.
  intros W Hc Hh H32. unfold RtlFindClearBitsAndSet, RtlFindSetBitsAndClear. split.
  - destruct (RtlFindClearBits_spec b count hint W Hc Hh H32) as (r & -> & Hr). eexists r, _. do 2 (split; [done|]).
    destruct (Z.eqb_spec r ones32) as [|Hne]; cbn [negb]; split; try done. intros _ k Hk.
    destruct Hr as [[? _]|[[Hr0 _] (l1 & l2 & _ & (H1 & H2 & _) & _)]]; [done|]. by apply RtlSetBits_bit.
  - destruct (RtlFindSetBits_spec b count hint W Hc Hh H32) as (r & -> & Hr). eexists r, _. do 2 (split; [done|]).
    destruct (Z.eqb_spec r ones32) as [|Hne]; cbn [negb]; split; try done. intros _ k Hk.
    destruct Hr as [[? _]|[[Hr0 _] (l1 & l2 & _ & (H1 & H2 & _) & _)]]; [done|]. by apply RtlClearBits_bit.
Qed.

(** RtlFindSetBits and RtlFindClearBits, for a hint and a count whose sum
    fits in 32 bits, always return: the first block of that many set (clear)
    bits in the order hint to end, then beginning to hint, or ~0 exactly when
    the bitmap has no such block anywhere, a block across the hint included.
    RtlFindClearBitsAndSet reserves the block it returns: it was entirely clear,
    exactly its bits are set afterwards, and no other bit changes; when there is
    no such block the bitmap is unchanged.  RtlFindSetBitsAndClear is its mirror
    image. *)
Theorem find_bits_correct b count hint :
  bitmap_wf b -> 0 <= count -> 0 <= hint -> hint + count < 2 ^ 32 ->
  (exists r, RtlFindSetBits b count hint = Some r /\ search_result b count hint true r) /\
  (exists r, RtlFindClearBits b count hint = Some r /\ search_result b count hint false r) /\
  (exists r b', RtlFindClearBitsAndSet b count hint = Some (r, b') /\ search_result b count hint false r /\
     (r = ones32 -> b' = b) /\
     (r <> ones32 -> forall n, 0 <= n -> bit b' n = bit b n || in_range r count n)) /\
  (exists r b', RtlFindSetBitsAndClear b count hint = Some (r, b') /\ search_result b count hint true r /\
     (r = ones32 -> b' = b) /\
     (r <> ones32 -> forall n, 0 <= n -> bit b' n = bit b n && negb (in_range r count n))).
Proof.
  intros W Hc Hh H32. split; [by apply RtlFindSetBits_spec|]. split; [by apply RtlFindClearBits_spec|].
  by apply find_bits_and_update_spec.
Qed.

Lemma find_bits_correct_witness :
  RtlFindSetBits sample_bitmap 40 50 = Some 32 /\
  (exists r, RtlFindSetBits sample_bitmap 40 50 = Some r /\ search_result sample_bitmap 40 50 true r) /\
  RtlFindClearBitsAndSet sample_bitmap 20 0 = Some (4, mk_bitmap 80 [0x00ffffff; 0xffffffff; 0x00ff]) /\
  exists r b', RtlFindClearBitsAndSet sample_bitmap 20 0 = Some (r, b') /\ search_result sample_bitmap 20 0 false r.
Proof.
  split; [reflexivity|]. split; [apply (find_bits_correct sample_bitmap 40 50 sample_bitmap_wf); lia|]. split; [reflexivity|].
  destruct (find_bits_correct sample_bitmap 20 0 sample_bitmap_wf) as (_ & _ & (r & b' & H1 & H2 & _) & _); [lia..|].
  by exists r, b'.
Defined.
