(* ===== verification/RtlBitmapCounts.v ===== *)
(** * Counting and locating bits: dlls/ntdll/rtlbitmap.c

    The population count and the searches for the most and least significant
    bit are compared with the bits of the word, and the number of set bits of a
    bitmap with its bits. *)

From Stdlib Require Import ZArith Lia.
From stdpp Require Import base list numbers option.
From S2P Require Import Prelude RtlBitmap RtlBitmapTheorems.

#[local] Open Scope Z_scope.

(** ** Population count *)

(** Number of positions among [lo .. lo + n - 1] where [f] holds. *)
Definition count_true (f : Z -> bool) (lo n : Z) : Z := Z.of_nat (length (filter (fun k => f k) (seqZ lo n))).

Lemma count_true_app f lo n m : 0 <= n -> 0 <= m -> count_true f lo (n + m) = count_true f lo n + count_true f (lo + n) m.
Proof. intros Hn Hm. unfold count_true. rewrite seqZ_app, list.filter_app, length_app by done. lia. Qed.

Lemma count_true_ext f g lo lo' n :
  (forall k, 0 <= k < n -> f (lo + k) = g (lo' + k)) -> count_true f lo n = count_true g lo' n.
Proof.
  intros H. destruct (Z.le_gt_cases n 0); [unfold count_true; by rewrite !seqZ_nil by lia|].
  revert lo lo' H. pattern n. apply Zlt_lower_bound_ind with (z := 1); [|lia]. clear n H0. intros n IH Hn lo lo' H.
  assert (E0 := H 0 ltac:(lia)). rewrite !Z.add_0_r in E0.
  assert (Et : 1 < n -> count_true f (lo + 1) (n - 1) = count_true g (lo' + 1) (n - 1)).
  { intros Hn1. apply IH; [lia|]. intros k Hk. replace (lo + 1 + k) with (lo + (1 + k)) by lia.
    replace (lo' + 1 + k) with (lo' + (1 + k)) by lia. apply H. lia. }
  unfold count_true in *. rewrite (seqZ_first lo), (seqZ_first lo'), !filter_cons, E0 by lia.
  destruct (Z.eq_dec n 1) as [->|]; [rewrite !seqZ_nil by lia; by case_decide|].
  specialize (Et ltac:(lia)). case_decide; cbn [length]; lia.
Qed.

Lemma count_true_bound f lo n : 0 <= n -> 0 <= count_true f lo n <= n.
Proof.
  intros Hn. unfold count_true. pose proof (list.length_filter (fun k => f k) (seqZ lo n)) as H.
  rewrite length_seqZ in H. lia.
Qed.

Lemma count_true_none f lo n : (forall k, lo <= k < lo + n -> f k = false) -> count_true f lo n = 0.
Proof.
  intros H. unfold count_true. destruct (filter (fun k => f k) (seqZ lo n)) as [|k l] eqn:E; [done|].
  assert (k ∈ filter (fun k => f k) (seqZ lo n)) as Hk by (rewrite E; left).
  apply list_elem_of_filter in Hk as [Ht Hk]. rewrite elem_of_seqZ in Hk. by rewrite H in Ht.
Qed.

(** A word as a byte and the bytes above it. *)
Lemma land_bytes a b c d :
  0 <= a < 256 -> 0 <= c < 256 -> Z.land (a + 256 * b) (c + 256 * d) = Z.land a c + 256 * Z.land b d.
Proof.
  intros Ha Hc. assert (Hs : forall x y, 0 <= x < 256 -> x + 256 * y = Z.lor (Z.shiftl y 8) x).
  { intros x y Hx. rewrite lor_shiftl by lia. lia. }
  assert (Hl : 0 <= Z.land a c < 256).
  { rewrite <-(Z.mod_small c (2 ^ 8)), <-Z.land_ones, Z.land_assoc, Z.land_ones by lia. apply Z.mod_pos_bound. lia. }
  rewrite !Hs by done. apply Z.bits_inj'. intros k Hk. rewrite !Z.land_spec, !Z.lor_spec, !Z.land_spec, !Z.shiftl_spec, Z.land_spec by done.
  destruct (Z.lt_ge_cases k 8).
  - rewrite !(Z.testbit_neg_r _ (k - 8)) by lia. done.
  - assert (Hh : forall x, 0 <= x < 256 -> Z.testbit x k = false).
    { intros x Hx. rewrite <-(Z.mod_small x (2 ^ 8)) by lia. apply Z.mod_pow2_bits_high. lia. }
    rewrite !Hh by done. by rewrite !orb_false_r.
Qed.

(** A property of all bytes, by evaluation. *)
Definition all_below (n : nat) (p : Z -> bool) : bool := forallb (fun k => p (Z.of_nat k)) (seq 0 n).

Lemma all_below_spec n p x : all_below n p = true -> 0 <= x < Z.of_nat n -> p x = true.
Proof.
  intros H Hx. unfold all_below in H. rewrite forallb_forall in H.
  specialize (H (Z.to_nat x)). rewrite Z2Nat.id in H by lia. apply H, in_seq. lia.
Qed.

(** The three steps on one byte. *)
Definition pairs (a : Z) : Z := a - Z.land (Z.shiftr a 1) 0x55.

Definition nibbles (a : Z) : Z := Z.land a 0x33 + Z.land (Z.shiftr a 2) 0x33.

Definition bytes (a : Z) : Z := Z.land (a + Z.shiftr a 4) 0x0f.

Lemma byte_facts a : 0 <= a < 256 ->
  0 <= pairs a < 256 /\ 0 <= nibbles (pairs a) <= 0x44 /\ nibbles (pairs a) mod 16 <= 4 /\
  0 <= bytes (nibbles (pairs a)) <= 8 /\
  bytes (nibbles (pairs a)) = count_true (Z.testbit a) 0 8.
Proof.
  intros Ha. pose (p := fun a =>
    (0 <=? pairs a) && (pairs a <? 256) && (0 <=? nibbles (pairs a)) && (nibbles (pairs a) <=? 0x44) &&
    (nibbles (pairs a) mod 16 <=? 4) &&
    (0 <=? bytes (nibbles (pairs a))) && (bytes (nibbles (pairs a)) <=? 8) &&
    (bytes (nibbles (pairs a)) =? count_true (Z.testbit a) 0 8)).
  assert (p a = true) as H by (apply (all_below_spec 256); [vm_compute; reflexivity|lia]). unfold p in H.
  rewrite !andb_true_iff, !Z.leb_le, !Z.ltb_lt, Z.eqb_eq in H. tauto.
Qed.

(** The bits that a shift brings into a byte from the one above are masked. *)
Lemma land_shift_bytes s m a b M :
  (s = 1 /\ m = 0x55 \/ s = 2 /\ m = 0x33) -> 0 <= a < 256 ->
  Z.land (Z.shiftr (a + 256 * b) s) (m + 256 * M) = Z.land (Z.shiftr a s) m + 256 * Z.land (Z.shiftr b s) M.
Proof.
  intros Hsm Ha.
  pose (p := fun x => (Z.land (x mod 256 / 2 + 128 * (x / 256 mod 2)) 0x55 =? Z.land (x mod 256 / 2) 0x55) &&
                      (Z.land (x mod 256 / 4 + 64 * (x / 256)) 0x33 =? Z.land (x mod 256 / 4) 0x33)).
  assert (Hp : forall y, 0 <= y < 4 ->
    Z.land (a / 2 + 128 * (y mod 2)) 0x55 = Z.land (a / 2) 0x55 /\ Z.land (a / 4 + 64 * y) 0x33 = Z.land (a / 4) 0x33).
  { intros y Hy. assert (p (a + y * 256) = true) as H by (apply (all_below_spec 1024); [vm_compute; reflexivity|lia]).
    assert ((a + y * 256) mod 256 = a /\ (a + y * 256) / 256 = y) as [Em Ed] by (Z.to_euclidean_division_equations; lia).
    unfold p in H. rewrite Em, Ed in H.
    by rewrite andb_true_iff, !Z.eqb_eq in H. }
  destruct Hsm as [[-> ->]|[-> ->]]; rewrite !Z.shiftr_div_pow2 by lia; [change (2 ^ 1) with 2|change (2 ^ 2) with 4].
  - assert ((a + 256 * b) / 2 = (a / 2 + 128 * (b mod 2)) + 256 * (b / 2)) as -> by (Z.to_euclidean_division_equations; lia).
    rewrite land_bytes by (Z.to_euclidean_division_equations; lia). f_equal.
    replace (b mod 2) with (b mod 2 mod 2) by (apply Z.mod_mod; lia). apply Hp. Z.to_euclidean_division_equations; lia.
  - assert ((a + 256 * b) / 4 = (a / 4 + 64 * (b mod 4)) + 256 * (b / 4)) as -> by (Z.to_euclidean_division_equations; lia).
    rewrite land_bytes by (Z.to_euclidean_division_equations; lia). f_equal. apply Hp. Z.to_euclidean_division_equations; lia.
Qed.

(** Four bytes as a word. *)
Definition of_bytes (a b c d : Z) : Z := a + 256 * (b + 256 * (c + 256 * d)).

Lemma count_true_byte a b n : 0 <= a < 256 -> 0 <= n ->
  count_true (Z.testbit (a + 256 * b)) 0 (8 + n) = count_true (Z.testbit a) 0 8 + count_true (Z.testbit b) 0 n.
Proof.
  intros Ha Hn. rewrite count_true_app by lia. f_equal; apply count_true_ext; intros k Hk.
  - rewrite !Z.add_0_l. rewrite <-(Z.mod_pow2_bits_low (a + 256 * b) 8) by lia. change (2 ^ 8) with 256.
    by rewrite Z.mul_comm, Z.mod_add, Z.mod_small by lia.
  - replace (0 + 8 + k) with (k + 8) by lia. rewrite (Z.add_0_l k), <-(Z.div_pow2_bits _ 8 k) by lia. change (2 ^ 8) with 256.
    by rewrite Z.mul_comm, Z.div_add, Z.div_small by lia.
Qed.

(** The last step adds the two nibbles of each byte. *)
Lemma land_sum_bytes a b M :
  0 <= a <= 0x44 -> b mod 16 <= 4 ->
  Z.land (a + 256 * b + Z.shiftr (a + 256 * b) 4) (0x0f + 256 * M) = bytes a + 256 * Z.land (b + Z.shiftr b 4) M.
Proof.
  intros Ha Hb. unfold bytes. rewrite !Z.shiftr_div_pow2 by lia. change (2 ^ 4) with 16.
  assert (a + 256 * b + (a + 256 * b) / 16 = (a + a / 16 + 16 * (b mod 16)) + 256 * (b + b / 16)) as ->
    by (Z.to_euclidean_division_equations; lia).
  rewrite land_bytes by (Z.to_euclidean_division_equations; lia). f_equal.
  change 15 with (Z.ones 4). rewrite !Z.land_ones by lia. change (2 ^ 4) with 16.
  rewrite Z.mul_comm, Z.mod_add by lia. done.
Qed.

(** The steps on the four bytes of a word. *)
Section four_bytes.
Context (a b c d : Z).
Context (Ha : 0 <= a < 256) (Hb : 0 <= b < 256) (Hc : 0 <= c < 256) (Hd : 0 <= d < 256).

Lemma pairs_bytes :
  (0 <= pairs a < 256) -> (0 <= pairs b < 256) -> (0 <= pairs c < 256) -> (0 <= pairs d < 256) ->
  u32 (of_bytes a b c d - Z.land (Z.shiftr (of_bytes a b c d) 1) 0x55555555) =
  of_bytes (pairs a) (pairs b) (pairs c) (pairs d).
Proof using Ha Hb Hc Hd.
  intros A B C D. change 0x55555555 with (0x55 + 256 * (0x55 + 256 * (0x55 + 256 * 0x55))). unfold of_bytes.
  rewrite !land_shift_bytes by (lia || auto). unfold pairs in *. unfold u32. rewrite Z.mod_small by lia. lia.
Qed.

Lemma nibbles_bytes :
  (0 <= nibbles a <= 0x44) -> (0 <= nibbles b <= 0x44) -> (0 <= nibbles c <= 0x44) -> (0 <= nibbles d <= 0x44) ->
  u32 (Z.land (of_bytes a b c d) 0x33333333 + Z.land (Z.shiftr (of_bytes a b c d) 2) 0x33333333) =
  of_bytes (nibbles a) (nibbles b) (nibbles c) (nibbles d).
Proof using Ha Hb Hc Hd.
  intros A B C D. change 0x33333333 with (0x33 + 256 * (0x33 + 256 * (0x33 + 256 * 0x33))). unfold of_bytes.
  rewrite !land_shift_bytes, !land_bytes by (lia || auto). unfold nibbles in *. unfold u32.
  rewrite Z.mod_small by lia. lia.
Qed.

Lemma bytes_bytes :
  a <= 0x44 -> b <= 0x44 -> c <= 0x44 -> d <= 0x44 -> b mod 16 <= 4 -> c mod 16 <= 4 -> d mod 16 <= 4 ->
  Z.land (u32 (of_bytes a b c d + Z.shiftr (of_bytes a b c d) 4)) 0x0f0f0f0f =
  of_bytes (bytes a) (bytes b) (bytes c) (bytes d).
Proof using Ha Hb Hc Hd.
  intros A B C D B4 C4 D4.
  assert (u32 (of_bytes a b c d + Z.shiftr (of_bytes a b c d) 4) = of_bytes a b c d + Z.shiftr (of_bytes a b c d) 4) as ->.
  { unfold u32, of_bytes. rewrite Z.shiftr_div_pow2 by lia. apply Z.mod_small. Z.to_euclidean_division_equations; lia. }
  change 0x0f0f0f0f with (0x0f + 256 * (0x0f + 256 * (0x0f + 256 * 0x0f))). unfold of_bytes, bytes in *.
  rewrite !land_sum_bytes by (Z.to_euclidean_division_equations; lia). done.
Qed.

(** The multiplication adds the bytes up in the highest one. *)
Lemma sum_bytes :
  a <= 8 -> b <= 8 -> c <= 8 -> d <= 8 ->
  Z.shiftr (u32 (of_bytes a b c d * 0x01010101)) 24 = a + b + c + d.
Proof using Ha Hb Hc Hd.
  intros A B C D. rewrite Z.shiftr_div_pow2 by lia. unfold u32, of_bytes.
  rewrite <-(Z.mod_unique_pos _ (2 ^ 32) ((b + c + d) + 256 * (c + d) + 65536 * d)
    (a + 256 * (a + b) + 65536 * (a + b + c) + 16777216 * (a + b + c + d))) by lia.
  symmetry. apply Z.div_unique_pos with (r := a + 256 * (a + b) + 65536 * (a + b + c)); lia.
Qed.
End four_bytes.

Lemma popcount_bytes a b c d :
  0 <= a < 256 -> 0 <= b < 256 -> 0 <= c < 256 -> 0 <= d < 256 ->
  popcount (of_bytes a b c d) =
    bytes (nibbles (pairs a)) + bytes (nibbles (pairs b)) + bytes (nibbles (pairs c)) + bytes (nibbles (pairs d)).
Proof.
  intros Ha Hb Hc Hd.
  destruct (byte_facts a Ha) as (A1 & A2 & A3 & A4 & _), (byte_facts b Hb) as (B1 & B2 & B3 & B4 & _),
    (byte_facts c Hc) as (C1 & C2 & C3 & C4 & _), (byte_facts d Hd) as (D1 & D2 & D3 & D4 & _).
  unfold popcount. rewrite pairs_bytes, nibbles_bytes, bytes_bytes, sum_bytes by lia. done.
Qed.

Lemma popcount_spec w : 0 <= w < 2 ^ 32 -> popcount w = count_true (Z.testbit w) 0 32.
Proof.
  intros Hw. assert (exists a b c d, w = of_bytes a b c d /\ 0 <= a < 256 /\ 0 <= b < 256 /\ 0 <= c < 256 /\ 0 <= d < 256)
    as (a & b & c & d & -> & Ha & Hb & Hc & Hd).
  { exists (w mod 256), (w / 256 mod 256), (w / 256 / 256 mod 256), (w / 256 / 256 / 256). unfold of_bytes.
    Z.to_euclidean_division_equations; lia. }
  rewrite popcount_bytes by done. unfold of_bytes.
  change 32 with (8 + (8 + (8 + 8))). rewrite !count_true_byte by lia.
  destruct (byte_facts a Ha) as (_ & _ & _ & _ & ->), (byte_facts b Hb) as (_ & _ & _ & _ & ->),
    (byte_facts c Hc) as (_ & _ & _ & _ & ->), (byte_facts d Hd) as (_ & _ & _ & _ & ->). lia.
Qed.

(** ** Bits of a bitmap *)

Lemma bit_of_word b i k : 0 <= i -> 0 <= k < 32 -> bit b (32 * i + k) = Z.testbit (word (Buffer b) i) k.
Proof.
  intros Hi Hk. unfold bit.
  assert ((32 * i + k) / 32 = i /\ (32 * i + k) mod 32 = k) as [-> ->] by (Z.to_euclidean_division_equations; lia). done.
Qed.

Lemma count_word b i n : 0 <= i -> n <= 32 -> count_true (Z.testbit (word (Buffer b) i)) 0 n = count_true (bit b) (32 * i) n.
Proof. intros Hi Hn. apply count_true_ext. intros k Hk. by rewrite bit_of_word by lia. Qed.

Lemma popcount_loop_spec b n : forall i acc,
  Forall (fun w => 0 <= w < 2 ^ 32) (Buffer b) -> 0 <= i -> 0 <= acc -> acc + 32 * Z.of_nat n < 2 ^ 32 ->
  popcount_loop n i (Buffer b) acc = acc + count_true (bit b) (32 * i) (32 * Z.of_nat n).
Proof.
  induction n as [|n IH]; intros i acc Hw Hi Ha Hb; cbn [popcount_loop].
  - unfold count_true. rewrite seqZ_nil by lia. cbn. lia.
  - rewrite popcount_spec, count_word by (try apply word_bound; (done || lia)).
    pose proof (count_true_bound (bit b) (32 * i) 32 ltac:(lia)).
    unfold u32. rewrite Z.mod_small, IH by (done || lia).
    replace (32 * Z.of_nat (S n)) with (32 + 32 * Z.of_nat n) by lia. rewrite count_true_app by lia.
    replace (32 * (i + 1)) with (32 * i + 32) by lia. lia.
Qed.

(** The last word, of which only the bits below [m] belong to the bitmap. *)
Lemma popcount_masked w size :
  0 <= w < 2 ^ 32 -> 0 <= size ->
  popcount (Z.land w (not32 (maskbits size))) = count_true (Z.testbit w) 0 (size mod 32).
Proof.
  intros Hw Hs. pose proof (Z.mod_pos_bound size 32 eq_refl) as Hm.
  assert (Hk : forall k, 0 <= k < 32 ->
    Z.testbit (Z.land w (not32 (maskbits size))) k = Z.testbit w k && (k <? size mod 32)).
  { intros k Hk. rewrite Z.land_spec, not32_spec, maskbits_spec by lia. by rewrite <-Z.ltb_antisym. }
  rewrite popcount_spec by (by apply land_bound).
  replace 32 with (size mod 32 + (32 - size mod 32)) at 1 by lia. rewrite count_true_app by lia.
  rewrite (count_true_none _ (0 + size mod 32)), Z.add_0_r.
  - apply count_true_ext. intros k Hk0. rewrite Hk by lia.
    rewrite (proj2 (Z.ltb_lt _ _)) by lia. apply andb_true_r.
  - intros k Hk0. rewrite Hk by lia. rewrite (proj2 (Z.ltb_ge _ _)) by lia. apply andb_false_r.
Qed.

(** RtlNumberOfSetBits and RtlNumberOfClearBits count the set and clear
    bits of the bitmap; bits of the last word beyond the size do not count. *)
Lemma number_of_bits_spec b :
  bitmap_wf b ->
  RtlNumberOfSetBits b = count_true (bit b) 0 (SizeOfBitMap b) /\
  RtlNumberOfClearBits b = SizeOfBitMap b - count_true (bit b) 0 (SizeOfBitMap b).
Proof.
  intros W. pose proof (bw_size b W) as Hs. pose proof (bw_words b W) as Hw.
  assert (E : RtlNumberOfSetBits b = count_true (bit b) 0 (SizeOfBitMap b)).
  { unfold RtlNumberOfSetBits. destruct (split_index (SizeOfBitMap b) ltac:(lia)) as (E & Hq & Hr).
    rewrite popcount_loop_spec, Z2Nat.id, popcount_masked, count_word, land31 by (try apply word_bound; (done || lia)).
    set (q := SizeOfBitMap b / 32) in *. set (r := SizeOfBitMap b mod 32) in *.
    rewrite E, count_true_app, Z.mul_0_r, !Z.add_0_l by lia.
    pose proof (count_true_bound (bit b) 0 (32 * q) ltac:(lia)).
    pose proof (count_true_bound (bit b) (32 * q) r ltac:(lia)).
    destruct (Z.eqb_spec r 0) as [->|]; cbn [negb]; [unfold count_true at 3; rewrite seqZ_nil by lia; cbn; lia|].
    unfold u32. apply Z.mod_small. lia. }
  split; [done|]. unfold RtlNumberOfClearBits. rewrite E. apply Z.mod_small.
  pose proof (count_true_bound (bit b) 0 (SizeOfBitMap b) ltac:(lia)). lia.
Qed.

(** ** Most and least significant bits *)

Lemma land_high n dw : 0 <= n -> 0 <= dw < 2 ^ (2 * n) -> (Z.land dw (Z.shiftl (Z.ones n) n) =? 0) = (Z.shiftr dw n =? 0).
Proof.
  intros Hn Hdw. assert (Z.land dw (Z.shiftl (Z.ones n) n) = Z.shiftl (Z.shiftr dw n) n) as ->.
  { apply Z.bits_inj'. intros k Hk. rewrite Z.land_spec, !Z.shiftl_spec by done.
    destruct (Z.lt_ge_cases k n); [rewrite !(Z.testbit_neg_r _ (k - n)) by lia; apply andb_false_r|].
    rewrite Z.shiftr_spec by lia. replace (k - n + n) with k by lia.
    destruct (Z.lt_ge_cases k (2 * n)); [rewrite Z.ones_spec_low by lia; apply andb_true_r|].
    by rewrite <-(Z.mod_small dw (2 ^ (2 * n))), Z.mod_pow2_bits_high by lia. }
  apply Bool.eq_iff_eq_true. by rewrite !Z.eqb_eq, Z.shiftl_eq_0_iff.
Qed.

(** One step keeps the position of the highest bit and halves the width. *)
Lemma msb_step_spec mask n dw ret :
  0 < n -> mask = Z.shiftl (Z.ones n) n -> 0 < dw < 2 ^ (2 * n) ->
  exists dw' ret', msb_step mask n (dw, ret) = (dw', ret') /\ 0 < dw' < 2 ^ n /\ ret' + Z.log2 dw' = ret + Z.log2 dw.
Proof.
  intros Hn -> Hdw. unfold msb_step. rewrite land_high by lia. rewrite Z.shiftr_div_pow2 by lia.
  rewrite Z.mul_comm, Z.pow_mul_r, Z.pow_2_r in Hdw by lia.
  pose proof (Z.pow_pos_nonneg 2 n eq_refl ltac:(lia)) as Hp.
  destruct (Z.eqb_spec (dw / 2 ^ n) 0) as [E|E]; cbn [negb]; eexists _, _; (split; [done|]).
  - apply Z.div_small_iff in E; lia.
  - assert (0 < dw / 2 ^ n) by (assert (0 <= dw / 2 ^ n) by (apply Z.div_pos; lia); lia).
    split; [split; [done|apply Z.div_lt_upper_bound; lia]|].
    assert (2 ^ n <= dw) by (destruct (Z.lt_ge_cases dw (2 ^ n)); [destruct E; apply Z.div_small; lia|done]).
    assert (n <= Z.log2 dw) by (apply Z.log2_le_pow2; lia).
    rewrite <-Z.shiftr_div_pow2, Z.log2_shiftr by lia. lia.
Qed.

Lemma mostSignificant_spec dw : 0 < dw < 16 -> NTDLL_mostSignificant dw = Z.log2 dw.
Proof.
  intros H. apply Z.eqb_eq. destruct (Z.eq_dec dw 0); [lia|].
  assert ((dw =? 0) || (NTDLL_mostSignificant dw =? Z.log2 dw) = true) as E; [|by rewrite (proj2 (Z.eqb_neq dw 0)) in E].
  apply (all_below_spec 16 (fun dw => (dw =? 0) || (NTDLL_mostSignificant dw =? Z.log2 dw))); [vm_compute; reflexivity|lia].
Qed.

Lemma RtlFindMostSignificantBit_spec x :
  0 <= x < 2 ^ 64 -> RtlFindMostSignificantBit x = if x =? 0 then -1 else Z.log2 x.
Proof.
  intros Hx. destruct (Z.eqb_spec x 0) as [->|Hne]; [reflexivity|]. unfold RtlFindMostSignificantBit.
  assert (exists dw ret, (if u32 (Z.shiftr x 32) =? 0 then (u32 x, 0) else (u32 (Z.shiftr x 32), 32)) = (dw, ret) /\
    0 < dw < 2 ^ 32 /\ ret + Z.log2 dw = Z.log2 x) as (d0 & r0 & -> & H0 & L0).
  { rewrite Z.shiftr_div_pow2 by lia. unfold u32.
    assert (0 <= x / 2 ^ 32 < 2 ^ 32) as Hh by (Z.to_euclidean_division_equations; lia).
    rewrite (Z.mod_small (x / 2 ^ 32)) by done. destruct (Z.eqb_spec (x / 2 ^ 32) 0) as [E|E]; eexists _, _; (split; [done|]).
    - apply Z.div_small_iff in E; [|lia]. rewrite Z.mod_small by lia. lia.
    - split; [lia|]. rewrite <-Z.shiftr_div_pow2, Z.log2_shiftr by lia.
      assert (32 <= Z.log2 x) by (apply Z.log2_le_pow2; Z.to_euclidean_division_equations; lia). lia. }
  destruct (msb_step_spec 0xffff0000 16 d0 r0) as (d1 & r1 & -> & H1 & L1); [lia|done|done|].
  destruct (msb_step_spec 0xff00 8 d1 r1) as (d2 & r2 & -> & H2 & L2); [lia|done|done|].
  destruct (msb_step_spec 0xf0 4 d2 r2) as (d3 & r3 & -> & H3 & L3); [lia|done|done|].
  rewrite mostSignificant_spec by done. lia.
Qed.

(** [r] is the lowest set bit of [x]. *)
Definition lowest (x r : Z) : Prop := 0 <= r /\ Z.testbit x r = true /\ forall k, 0 <= k < r -> Z.testbit x k = false.

Lemma lsb_step_spec mask n dw ret r :
  0 < n -> mask = Z.ones n -> lowest dw r -> r < 2 * n ->
  exists dw' ret' r', lsb_step mask n (dw, ret) = (dw', ret') /\ lowest dw' r' /\ r' < n /\ ret' + r' = ret + r.
Proof.
  intros Hn -> (Hr & Ht & Hl) Hrn. unfold lsb_step. rewrite Z.land_ones by lia.
  assert (Hb : forall k, 0 <= k < n -> Z.testbit (dw mod 2 ^ n) k = Z.testbit dw k)
    by (intros; apply Z.mod_pow2_bits_low; lia).
  destruct (Z.eqb_spec (dw mod 2 ^ n) 0) as [E|E].
  - assert (n <= r).
    { destruct (Z.lt_ge_cases r n); [|done]. rewrite <-Hb, E, Z.bits_0 in Ht by lia. done. }
    eexists _, _, (r - n). split; [done|]. split; [|lia]. split; [lia|].
    rewrite Z.shiftr_spec by lia. split; [by replace (r - n + n) with r by lia|].
    intros k Hk. rewrite Z.shiftr_spec by lia. apply Hl. lia.
  - eexists _, _, r. split; [done|]. split; [done|]. split; [|lia].
    destruct (Z.lt_ge_cases r n); [done|]. destruct E. apply Z.bits_inj'. intros k Hk. rewrite Z.bits_0.
    destruct (Z.lt_ge_cases k n); [rewrite Hb by lia; apply Hl; lia|]. apply Z.mod_pow2_bits_high. lia.
Qed.

Lemma lowest_exists (n : nat) x :
  (forall k, 0 <= k < Z.of_nat n -> Z.testbit x k = false) \/ exists r, lowest x r /\ r < Z.of_nat n.
Proof.
  induction n as [|n [H|(r & H & Hr)]]; [left; lia| |right; exists r; split; [done|lia]].
  destruct (Z.testbit x (Z.of_nat n)) eqn:E.
  - right. exists (Z.of_nat n). split; [|lia]. by repeat split; [lia|..].
  - left. intros k Hk. destruct (Z.eq_dec k (Z.of_nat n)) as [->|]; [done|apply H; lia].
Qed.

Lemma leastSignificant_spec dw r : lowest dw r -> r < 4 -> NTDLL_leastSignificant (Z.land dw 15) = r.
Proof.
  intros (Hr & Ht & Hl) H4. change 15 with (Z.ones 4). rewrite Z.land_ones by lia.
  rewrite <-(Z.mod_pow2_bits_low _ 4) in Ht by lia.
  assert (Hl' : forall k, 0 <= k < r -> Z.testbit (dw mod 2 ^ 4) k = false)
    by (intros k Hk; rewrite Z.mod_pow2_bits_low by lia; by apply Hl).
  pose proof (Z.mod_pos_bound dw (2 ^ 4) eq_refl) as Hb. set (y := dw mod 2 ^ 4) in *. clearbody y.
  pose (p := fun y r => negb (Z.testbit y r && forallb (fun k => negb (Z.testbit y k)) (seqZ 0 r)) ||
                        (NTDLL_leastSignificant y =? r)).
  assert (p y r = true) as H.
  { apply (all_below_spec 4 (p y)); [|lia].
    apply (all_below_spec 16 (fun y => all_below 4 (p y))); [vm_compute; reflexivity|lia]. }
  unfold p in H. rewrite Ht, (proj2 (forallb_forall _ _)) in H; [by apply Z.eqb_eq in H|].
  intros k Hk%list_elem_of_In%elem_of_seqZ. rewrite Hl'; [done|lia].
Qed.

Lemma RtlFindLeastSignificantBit_spec x :
  0 <= x < 2 ^ 64 ->
  if x =? 0 then RtlFindLeastSignificantBit x = -1
  else Z.testbit x (RtlFindLeastSignificantBit x) = true /\ 0 <= RtlFindLeastSignificantBit x < 64 /\
       forall k, 0 <= k < RtlFindLeastSignificantBit x -> Z.testbit x k = false.
Proof.
  intros Hx. destruct (Z.eqb_spec x 0) as [->|Hne]; [reflexivity|].
  assert (Hhi : u32 (Z.shiftr x 32) = Z.shiftr x 32).
  { rewrite Z.shiftr_div_pow2 by lia. apply Z.mod_small. Z.to_euclidean_division_equations; lia. }
  assert (Hlo : u32 x = Z.land x (Z.ones 32)) by (by rewrite Z.land_ones by lia).
  destruct (lowest_exists 64 x) as [H0|(r & Hlow & Hr)].
  { destruct Hne. apply Z.bits_inj'. intros k Hk. rewrite Z.bits_0. destruct (Z.lt_ge_cases k 64); [apply H0; lia|].
    rewrite <-(Z.mod_small x (2 ^ 64)) by lia. apply Z.mod_pow2_bits_high. lia. }
  destruct (lsb_step_spec (Z.ones 32) 32 x 0 r ltac:(lia) eq_refl Hlow Hr) as (d0 & r0 & l0 & E0 & L0 & B0 & S0).
  assert (E0' : exists d, (if u32 x =? 0 then (u32 (Z.shiftr x 32), 32) else (u32 x, 0)) = (d, r0) /\ lowest d l0 /\ 
    (u32 x =? 0) && (u32 (Z.shiftr x 32) =? 0) = false).
  { rewrite Hhi, Hlo. unfold lsb_step in E0. destruct (Z.eqb_spec (Z.land x (Z.ones 32)) 0) as [E|E]; injection E0 as <- <-.
    - eexists; split; [done|]. split; [done|]. apply Z.eqb_neq. intros E'. rewrite E' in L0.
      destruct L0 as (_ & L0 & _). by rewrite Z.bits_0 in L0.
    - eexists; split; [done|]. split; [|done]. destruct L0 as (P0 & T0 & Z0). split; [done|].
      rewrite Z.land_ones by lia. split; [rewrite Z.mod_pow2_bits_low by lia; done|].
      intros k Hk. rewrite Z.mod_pow2_bits_low by lia. by apply Z0. }
  clear E0 L0. destruct E0' as (d & E0 & L0 & Ez).
  assert (RtlFindLeastSignificantBit x = r) as ->; [|destruct Hlow as (? & ? & ?); repeat split; (done || lia)].
  unfold RtlFindLeastSignificantBit. rewrite Ez, E0.
  destruct (lsb_step_spec 0xffff 16 d r0 l0) as (d1 & r1 & l1 & -> & L1 & B1 & S1); [lia|done|done|lia|].
  destruct (lsb_step_spec 0xff 8 d1 r1 l1) as (d2 & r2 & l2 & -> & L2 & B2 & S2); [lia|done|done|lia|].
  destruct (lsb_step_spec 0x0f 4 d2 r2 l2) as (d3 & r3 & l3 & -> & L3 & B3 & S3); [lia|done|done|lia|].
  rewrite (leastSignificant_spec d3 l3) by done. lia.
Qed.

(** C9: RtlSetBits and RtlClearBits change exactly the bits of the range, also
    across word boundaries, and nothing when the range is empty or exceeds the
    bitmap.  RtlNumberOfSetBits and RtlNumberOfClearBits count the set and clear
    bits of the bitmap, bits of the last word beyond the size apart; for every
    64-bit value, RtlFindMostSignificantBit is the integer logarithm and
    RtlFindLeastSignificantBit the position of the lowest set bit, and both are
    -1 for 0. *)
Theorem bitmap_words_correct b x :
  bitmap_wf b -> 0 <= x < 2 ^ 64 ->
  (forall start count n, 0 <= start -> 0 <= count -> 0 <= n ->
   if (0 <? count) && (start + count <=? SizeOfBitMap b) then
     bit (RtlSetBits b start count) n = bit b n || in_range start count n /\
     bit (RtlClearBits b start count) n = bit b n && negb (in_range start count n)
   else RtlSetBits b start count = b /\ RtlClearBits b start count = b) /\
  RtlNumberOfSetBits b = count_true (bit b) 0 (SizeOfBitMap b) /\
  RtlNumberOfClearBits b = SizeOfBitMap b - count_true (bit b) 0 (SizeOfBitMap b) /\
  RtlFindMostSignificantBit x = (if x =? 0 then -1 else Z.log2 x) /\
  if x =? 0 then RtlFindLeastSignificantBit x = -1
  else Z.testbit x (RtlFindLeastSignificantBit x) = true /\ 0 <= RtlFindLeastSignificantBit x < 64 /\
       forall k, 0 <= k < RtlFindLeastSignificantBit x -> Z.testbit x k = false.
Proof.
  intros W Hx. split; [intros; by apply set_clear_bits_ok|]. destruct (number_of_bits_spec b W). do 2 (split; [done|]).
  split; [by apply RtlFindMostSignificantBit_spec|by apply RtlFindLeastSignificantBit_spec].
Qed.

Lemma bitmap_words_correct_witness :
  bit (RtlSetBits sample_bitmap 30 40) 31 = bit sample_bitmap 31 || in_range 30 40 31 /\
  RtlNumberOfSetBits sample_bitmap = 44 /\
  RtlNumberOfSetBits sample_bitmap = count_true (bit sample_bitmap) 0 80 /\
  RtlFindMostSignificantBit 0x123400000000 = Z.log2 0x123400000000 /\
  RtlFindLeastSignificantBit 0x123400000000 = 34 /\ Z.testbit 0x123400000000 34 = true.
Proof.
  destruct (bitmap_words_correct sample_bitmap 0x123400000000 sample_bitmap_wf) as (H0 & H1 & _ & H2 & H3); [lia|].
  split; [apply (H0 30 40 31); lia|].
  split; [reflexivity|]. split; [exact H1|]. split; [exact H2|]. split; [reflexivity|]. apply H3.
Defined.
