(* ===== verification/RtlBitmapRuns.v ===== *)
(** * Runs of bits: dlls/ntdll/rtlbitmap.c

    The search for the next run of set or clear bits looks at the buffer byte by
    byte.  From a start on a byte boundary it finds the first maximal run; from
    any other start it may report a wrong position. *)

From Stdlib Require Import ZArith Lia.
From stdpp Require Import base list numbers option.
From S2P Require Import Prelude RtlBitmap RtlBitmapTheorems RtlBitmapCounts.

#[local] Open Scope Z_scope.

(** ** One byte *)

(** [f] is [v] on [lo .. hi - 1]. *)
Definition const_on (f : Z -> bool) (lo hi : Z) (v : bool) : Prop := forall k, lo <= k < hi -> f k = v.

Definition const_onb (f : Z -> bool) (lo hi : Z) (v : bool) : bool := forallb (fun k => Bool.eqb (f k) v) (seqZ lo (hi - lo)).

Lemma const_onb_spec f lo hi v : const_onb f lo hi v = true -> const_on f lo hi v.
Proof.
  unfold const_onb. rewrite forallb_forall. intros H k Hk. apply Bool.eqb_prop, H, list_elem_of_In, elem_of_seqZ. lia.
Qed.

(** The offset of the first set bit, as the code computes it. *)
Definition first_offset (y : Z) : Z :=
  if negb (Z.land y 0x0f =? 0) then NTDLL_leastSignificant (Z.land y 0x0f)
  else 4 + NTDLL_leastSignificant (Z.shiftr y 4).

Definition scan_ok (y : Z) : bool :=
  let o := first_offset y in
  let '(c, fin) := count_in_byte (Z.to_nat (8 - o)) y o in
  (y =? 0) || (y =? 255) ||
  ((0 <=? o) && (0 <? c) && (o + c <=? 8) && const_onb (Z.testbit y) 0 o false && const_onb (Z.testbit y) o (o + c) true &&
   (if fin then o + c =? 8 else (o + c <? 8) && negb (Z.testbit y (o + c)))).

Lemma byte_scan y :
  0 < y < 255 ->
  exists c fin, count_in_byte (Z.to_nat (8 - first_offset y)) y (first_offset y) = (c, fin) /\
    let o := first_offset y in
    0 <= o /\ 0 < c /\ o + c <= 8 /\ const_on (Z.testbit y) 0 o false /\ const_on (Z.testbit y) o (o + c) true /\
    if fin then o + c = 8 else o + c < 8 /\ Z.testbit y (o + c) = false.
Proof.
  intros Hy. assert (scan_ok y = true) as H by (apply (all_below_spec 256); [vm_compute; reflexivity|lia]).
  unfold scan_ok in H. destruct (count_in_byte _ y _) as [c fin]. exists c, fin. split; [done|].
  destruct (Z.eqb_spec y 0), (Z.eqb_spec y 255); try lia. cbn [orb] in H.
  rewrite !andb_true_iff, !Z.leb_le, Z.ltb_lt in H. destruct H as (((((H1 & H2) & H3) & H4) & H5) & H6).
  repeat split; try done; try by apply const_onb_spec.
  destruct fin; [by apply Z.eqb_eq|]. by rewrite andb_true_iff, Z.ltb_lt, negb_true_iff in H6.
Qed.

(** The bits counted in the byte after the full ones. *)
Definition tail_bits (y : Z) : Z := if negb (Z.land y 1 =? 0) then fst (count_in_byte 7 y 0) else 0.

Lemma byte_tail y :
  0 <= y < 255 -> 0 <= tail_bits y < 8 /\ const_on (Z.testbit y) 0 (tail_bits y) true /\ Z.testbit y (tail_bits y) = false.
Proof.
  intros Hy. pose (p := fun y => (0 <=? tail_bits y) && (tail_bits y <? 8) && const_onb (Z.testbit y) 0 (tail_bits y) true &&
    negb (Z.testbit y (tail_bits y))).
  assert (p y = true) as H by (apply (all_below_spec 255); [vm_compute; reflexivity|lia]). unfold p in H.
  rewrite !andb_true_iff, Z.leb_le, Z.ltb_lt, negb_true_iff in H. destruct H as (((H1 & H2) & H3) & H4).
  split; [lia|]. split; [by apply const_onb_spec|done].
Qed.

(** ** The buffer as bytes *)

Lemma byte_at_bound buf k : 0 <= byte_at buf k < 256.
Proof. unfold byte_at. change 0xff with (Z.ones 8). rewrite Z.land_ones by lia. apply Z.mod_pos_bound. lia. Qed.

Lemma bit_of_byte b n : 0 <= n -> Z.testbit (byte_at (Buffer b) (n / 8)) (n mod 8) = bit b n.
Proof.
  intros Hn. unfold byte_at, bit. change 0xff with (Z.ones 8). rewrite Z.land_ones by lia.
  pose proof (Z.mod_pos_bound n 8 eq_refl). pose proof (Z.mod_pos_bound (n / 8) 4 eq_refl).
  rewrite Z.mod_pow2_bits_low, Z.shiftr_spec by lia. 
  assert (n / 8 / 4 = n / 32 /\ n mod 8 + 8 * (n / 8 mod 4) = n mod 32) as [-> ->] by (Z.to_euclidean_division_equations; lia). done.
Qed.

(** ** The two loops, from a byte boundary *)

Section runs.
Context (view : Z -> Z) (b : rtl_bitmap).
Context (Hview : forall y, 0 <= y < 256 -> 0 <= view y < 256).
Context (W : bitmap_wf b) (Hsize : SizeOfBitMap b mod 8 = 0).

Definition vbyte (st : Z) : Z := view (byte_at (Buffer b) (st / 8)).

Definition vbit (n : Z) : bool := Z.testbit (vbyte n) (n mod 8).

Lemma vbyte_bound st : 0 <= vbyte st < 256.
Proof using Hview. apply Hview, byte_at_bound. Qed.

Lemma vbit_on st lo hi v :
  0 <= st -> st mod 8 = 0 -> 0 <= lo -> hi <= 8 -> const_on (Z.testbit (vbyte st)) lo hi v ->
  const_on vbit (st + lo) (st + hi) v.
Proof using.
  intros Hs Ha Hlo Hhi H n Hn. unfold vbit, vbyte.
  assert (n / 8 = st / 8 /\ n mod 8 = n - st) as [-> ->] by (Z.to_euclidean_division_equations; lia).
  apply H. lia.
Qed.

Lemma const_on_app f lo mid hi v : const_on f lo mid v -> const_on f mid hi v -> const_on f lo hi v.
Proof using. intros H1 H2 k Hk. destruct (Z.lt_ge_cases k mid); [apply H1|apply H2]; lia. Qed.

(** Alignment of the next byte. *)
Lemma next_byte st : 0 <= st -> st mod 8 = 0 -> st < SizeOfBitMap b ->
  u32 (Z.land st (not32 7) + 8) = st + 8 /\ u32 (st + 8) = st + 8 /\
  (st + 8) mod 8 = 0 /\ st / 8 + 1 = (st + 8) / 8 /\ st + 8 <= SizeOfBitMap b /\ Z.land st 7 = 0.
Proof using W Hsize.
  intros Hs Ha Hlt. pose proof (bw_size b W) as Hb.
  assert (Hst : Z.land st (not32 7) = st).
  { apply Z.bits_inj'. intros k Hk. rewrite Z.land_spec. destruct (Z.lt_ge_cases k 32).
    - rewrite not32_spec by lia. destruct (Z.lt_ge_cases k 3).
      + rewrite <-(Z.mod_pow2_bits_low st 3) by lia. change (2 ^ 3) with 8. by rewrite Ha, Z.bits_0.
      + change 7 with (Z.ones 3). rewrite Z.ones_spec_high by lia. apply andb_true_r.
    - by rewrite testbit_high by lia. }
  rewrite Hst. unfold u32. change 7 with (Z.ones 3). rewrite Z.land_ones by lia. change (2 ^ 3) with 8.
  rewrite Z.mod_small by (Z.to_euclidean_division_equations; lia).
  repeat split; Z.to_euclidean_division_equations; lia.
Qed.

(** The first loop. *)
Definition first_run_ok (st : Z) (res : first_run) : Prop :=
  match res with
  | NoRun => const_on vbit st (SizeOfBitMap b) false
  | RunEnds at_ c =>
      st <= at_ /\ 0 < c /\ at_ + c < SizeOfBitMap b /\ const_on vbit st at_ false /\
      const_on vbit at_ (at_ + c) true /\ vbit (at_ + c) = false
  | RunGoesOn at_ c st' out =>
      st <= at_ /\ 0 < c /\ at_ + c = st' /\ st' mod 8 = 0 /\ st' <= SizeOfBitMap b /\ out = st' / 8 /\
      const_on vbit st at_ false /\ const_on vbit at_ st' true
  end.

Lemma first_run_ok_skip st st' res : st <= st' -> const_on vbit st st' false -> first_run_ok st' res -> first_run_ok st res.
Proof using.
  intros Hle Hz. destruct res as [|at_ c|at_ c st2 out]; cbn; [by apply const_on_app| |].
  - intros (R1 & R2 & R3 & R4 & R5 & R6). repeat split; try done; [lia|by eapply const_on_app].
  - intros (R1 & R2 & R3 & R4 & R5 & R6 & R7 & R8). repeat split; try done; [lia|by eapply const_on_app].
Qed.

Lemma first_run_loop_spec fuel : forall st,
  0 <= st -> st mod 8 = 0 -> st < SizeOfBitMap b -> SizeOfBitMap b - st <= 8 * Z.of_nat fuel ->
  exists res, first_run_loop fuel view b st (st / 8) = Some res /\ first_run_ok st res.
Proof using W Hsize Hview.
  induction fuel as [|fuel IH]; intros st Hs Ha Hlt Hf; [lia|]. cbn [first_run_loop].
  destruct (next_byte st Hs Ha Hlt) as (En & Eu & A' & Ed & Hle & E7). rewrite E7. cbv zeta. rewrite En, Ed.
  change (Z.land (Z.shiftl 255 0) 255) with 255. fold (vbyte st). pose proof (vbyte_bound st) as Hy.
  assert (Z.land (vbyte st) 255 = vbyte st) as ->.
  { change 255 with (Z.ones 8). rewrite Z.land_ones by lia. apply Z.mod_small. lia. }
  fold (first_offset (vbyte st)). pose proof (bw_size b W) as Hb.
  destruct (Z.eqb_spec (vbyte st) 0) as [E0|E0]; cbn [negb]; [|destruct (Z.eqb_spec (vbyte st) 255) as [E1|E1]; cbn [negb]].
  - assert (Hz : const_on vbit st (st + 8) false).
    { replace st with (st + 0) at 1 by lia. apply vbit_on; [lia..|]. intros k _. by rewrite E0, Z.bits_0. }
    destruct (Z.leb_spec (SizeOfBitMap b) (st + 8)).
    + eexists; split; [done|]. cbn. by replace (SizeOfBitMap b) with (st + 8) by lia.
    + destruct (IH (st + 8)) as (res & -> & Hres); [lia..|]. eexists; split; [done|].
      by apply (first_run_ok_skip st (st + 8)); [lia|..].
  - eexists; split; [done|]. cbn. rewrite Z.sub_0_r. repeat split; try done; try lia; [intros k Hk; lia|].
    replace st with (st + 0) at 1 by lia. apply vbit_on; [lia..|]. intros k Hk. rewrite E1. change 255 with (Z.ones 8).
    apply Z.ones_spec_low. lia.
  - destruct (byte_scan (vbyte st) ltac:(lia)) as (c & fin & Ec & H1 & H2 & H3 & H4 & H5 & H6). rewrite Ec.
    set (o := first_offset (vbyte st)) in *.
    rewrite (u32_small (st + o)) by lia.
    apply vbit_on in H4; [|lia..]. apply vbit_on in H5; [|lia..]. rewrite Z.add_0_r in H4. rewrite Z.add_assoc in H5.
    destruct fin; (eexists; split; [done|]); cbn.
    + assert (u32 (st + o + c) = st + 8) as -> by (unfold u32; rewrite Z.mod_small; lia).
      replace (st + 8) with (st + o + c) in * by lia. repeat split; (done || lia).
    + destruct H6 as [H6 H7]. repeat split; try done; try lia.
      unfold vbit, vbyte in *. assert ((st + o + c) / 8 = st / 8 /\ (st + o + c) mod 8 = o + c) as [-> ->]
        by (Z.to_euclidean_division_equations; lia). done.
Qed.

(** The second loop: a run that has reached the byte boundary [st]. *)
Lemma full_bytes_loop_spec fuel : forall at_ c st,
  0 <= at_ -> 0 < c -> at_ + c = st -> st mod 8 = 0 -> st < SizeOfBitMap b ->
  SizeOfBitMap b - st <= 8 * Z.of_nat fuel -> const_on vbit at_ st true ->
  exists n, full_bytes_loop fuel view b c st (st / 8) = Some n /\ 0 < n /\ at_ + n <= SizeOfBitMap b /\
    const_on vbit at_ (at_ + n) true /\ (at_ + n = SizeOfBitMap b \/ vbit (at_ + n) = false).
Proof using W Hsize Hview.
  induction fuel as [|fuel IH]; intros at_ c st Hat Hc Est Ha Hlt Hf Hon; [lia|]. cbn [full_bytes_loop]. cbv zeta.
  destruct (next_byte st ltac:(lia) Ha Hlt) as (_ & Eu & A' & Ed & Hle & _). rewrite Eu, Ed. fold (vbyte st).
  pose proof (vbyte_bound st) as Hy. pose proof (bw_size b W) as Hb.
  rewrite (u32_small (c + 8)) by lia.
  destruct (Z.eqb_spec (vbyte st) 255) as [E1|E1].
  - assert (Hon' : const_on vbit at_ (st + 8) true).
    { eapply const_on_app; [exact Hon|]. replace st with (st + 0) at 1 by lia. apply vbit_on; [lia..|].
      intros k Hk. rewrite E1. change 255 with (Z.ones 8). apply Z.ones_spec_low. lia. }
    destruct (Z.leb_spec (SizeOfBitMap b) (st + 8)).
    + assert (st + 8 = SizeOfBitMap b) as E by lia. rewrite E, Z.sub_diag, Z.sub_0_r.
      exists (c + 8). split; [f_equal; apply Z.mod_small; lia|]. replace (at_ + (c + 8)) with (st + 8) by lia.
      repeat split; (done || lia || by left).
    + apply IH; (done || lia).
  - destruct (byte_tail (vbyte st) ltac:(lia)) as (T1 & T2 & T3). exists (c + tail_bits (vbyte st)).
    assert ((if negb (Z.land (vbyte st) 1 =? 0) then Some (u32 (c + fst (count_in_byte 7 (vbyte st) 0))) else Some c) =
      Some (c + tail_bits (vbyte st))) as ->.
    { unfold tail_bits in *. destruct (Z.land (vbyte st) 1 =? 0); cbn [negb] in *; f_equal; [lia|]. apply Z.mod_small. lia. }
    set (t := tail_bits (vbyte st)) in *. apply vbit_on in T2; [|lia..]. rewrite Z.add_0_r in T2.
    replace (at_ + (c + t)) with (st + t) by lia. split; [done|]. split; [lia|]. split; [lia|].
    split; [by eapply const_on_app|]. right. unfold vbit, vbyte in *.
    assert ((st + t) / 8 = st / 8 /\ (st + t) mod 8 = t) as [-> ->] by (Z.to_euclidean_division_equations; lia). done.
Qed.

(** The result of the search from [st]: the first maximal run, or none. *)
Definition next_run (f : Z -> bool) (size st : Z) (res : Z * option Z) : Prop :=
  (res = (ones32, None) /\ const_on f st size false) \/
  (exists at_ n, res = (at_, Some n) /\ st <= at_ /\ 0 < n /\ at_ + n <= size /\ const_on f st at_ false /\
     const_on f at_ (at_ + n) true /\ (at_ + n = size \/ f (at_ + n) = false)).

Lemma find_run_spec st :
  0 <= st < SizeOfBitMap b -> st mod 8 = 0 ->
  exists res, find_run view b st = Some res /\ next_run vbit (SizeOfBitMap b) st res.
Proof using W Hsize Hview.
  intros Hs Ha. unfold find_run. rewrite Z.shiftr_div_pow2 by lia. change (2 ^ 3) with 8. pose proof (bw_size b W) as Hb.
  destruct (first_run_loop_spec (S (Z.to_nat (SizeOfBitMap b))) st) as ([|at_ c|at_ c st' out] & -> & H); [lia..| | |].
  - eexists; split; [done|]. by left.
  - cbn in H. destruct H as (R1 & R2 & R3 & R4 & R5 & R6). eexists; split; [done|]. right. exists at_, c.
    repeat split; (done || lia || by right).
  - cbn in H. destruct H as (R1 & R2 & R3 & R4 & R5 & -> & R7 & R8). destruct (Z.leb_spec (SizeOfBitMap b) st').
    + eexists; split; [done|]. right. exists at_, c. assert (st' = SizeOfBitMap b) as -> by lia.
      rewrite Z.sub_diag, Z.sub_0_r, R3. split; [do 2 f_equal; apply Z.mod_small; lia|].
      repeat split; (done || lia || by left).
    + destruct (full_bytes_loop_spec (S (Z.to_nat (SizeOfBitMap b))) at_ c st') as (n & -> & N1 & N2 & N3 & N4); try (done || lia).
      eexists; split; [done|]. right. exists at_, n. repeat split; (done || lia).
Qed.
End runs.

Lemma next_run_ext f g size st res :
  (forall n, 0 <= n -> f n = g n) -> 0 <= st -> size < 2 ^ 32 -> next_run f size st res -> next_run g size st res.
Proof.
  intros E Hs H32. assert (Hc : forall lo hi v, 0 <= lo -> const_on f lo hi v -> const_on g lo hi v).
  { intros lo hi v Hlo H k Hk. rewrite <-E by lia. by apply H. }
  intros [[-> H]|(at_ & n & -> & H1 & H2 & H3 & H4 & H5 & H6)]; [left; split; [done|]; by apply Hc|].
  right. exists at_, n. repeat split; try done; [by apply Hc|apply Hc; (done || lia)|].
  by rewrite <-E by lia.
Qed.

(** From a byte boundary of a bitmap of whole bytes. *)
Lemma find_run_aligned b st :
  bitmap_wf b -> SizeOfBitMap b mod 8 = 0 -> 0 <= st < SizeOfBitMap b -> st mod 8 = 0 ->
  (exists res, NTDLL_FindSetRun b st = Some res /\ next_run (bit b) (SizeOfBitMap b) st res) /\
  (exists res, NTDLL_FindClearRun b st = Some res /\ next_run (fun n => negb (bit b n)) (SizeOfBitMap b) st res).
Proof.
  intros W H8 Hs Ha. pose proof (bw_size b W) as Hb. split.
  - destruct (find_run_spec (fun y => y) b ltac:(done) W H8 st Hs Ha) as (res & E & H). exists res. split; [done|].
    eapply next_run_ext; [|lia..|exact H]. intros n Hn. apply bit_of_byte. lia.
  - destruct (find_run_spec (fun y => Z.lxor y 0xff) b) with (st := st) as (res & E & H); [|done..|].
    { intros y Hy.
      assert ((0 <=? Z.lxor y 255) && (Z.lxor y 255 <? 256) = true) as E.
      { apply (all_below_spec 256 (fun y => (0 <=? Z.lxor y 255) && (Z.lxor y 255 <? 256))); [vm_compute; reflexivity|lia]. }
      rewrite andb_true_iff, Z.leb_le, Z.ltb_lt in E. lia. }
    exists res. split; [done|]. eapply next_run_ext; [|lia..|exact H]. intros n Hn. unfold vbit, vbyte.
    pose proof (Z.mod_pos_bound n 8 eq_refl). change 0xff with (Z.ones 8).
    rewrite Z.lxor_spec, Z.ones_spec_low, xorb_true_r, bit_of_byte by lia. done.
Qed.

(** A bitmap with the runs 4-11 and 17-20. *)
Definition run_bitmap : rtl_bitmap := mk_bitmap 32 [0x001e0ff0].

Lemma run_bitmap_wf : bitmap_wf run_bitmap.
Proof. split; cbn; [lia| |lia]. repeat constructor; lia. Qed.

(** NTDLL_FindSetRun and NTDLL_FindClearRun, from a byte boundary of a
    bitmap of whole bytes, always return the first maximal run of set (clear)
    bits with its full length, or ~0 exactly when there is none.  From a start
    inside a byte NTDLL_FindSetRun adds the offset of the run in its byte to the
    start itself: with only bits 4 and 5 set, the search from bit 3 reports a run
    of two bits at 7, and RtlFindSetRuns reports the alternate bits 0, 2, 4 and so
    on at wrong positions, whatever qsort does. *)
Theorem find_run_correct_at_bytes b st :
  bitmap_wf b -> SizeOfBitMap b mod 8 = 0 -> 0 <= st < SizeOfBitMap b -> st mod 8 = 0 ->
  (exists res, NTDLL_FindSetRun b st = Some res /\ next_run (bit b) (SizeOfBitMap b) st res) /\
  (exists res, NTDLL_FindClearRun b st = Some res /\ next_run (fun n => negb (bit b n)) (SizeOfBitMap b) st res) /\
  NTDLL_FindSetRun (mk_bitmap 32 [0x30]) 3 = Some (7, Some 2) /\
  bit (mk_bitmap 32 [0x30]) 4 = true /\ bit (mk_bitmap 32 [0x30]) 7 = false /\
  forall qsort, RtlFindSetRuns qsort (mk_bitmap 32 [0x5555]) 4 false =
    Some (4, [mk_run 0 1; mk_run 3 1; mk_run 8 1; mk_run 11 1]).
Proof. intros W H8 Hs Ha. destruct (find_run_aligned b st W H8 Hs Ha) as [H1 H2]. by repeat split. Qed.

Lemma find_run_correct_at_bytes_witness :
  NTDLL_FindSetRun run_bitmap 0 = Some (4, Some 8) /\
  exists res, NTDLL_FindSetRun run_bitmap 0 = Some res /\ next_run (bit run_bitmap) 32 0 res.
Proof.
  split; [reflexivity|]. apply (find_run_correct_at_bytes run_bitmap 0 run_bitmap_wf); [reflexivity|cbn; lia|reflexivity].
Defined.
