(* ===== verification/FileLocks.v ===== *)
(** * File locks: server/fd.c

    The byte-range locks of open files.  A lock belongs to an fd, to the inode of
    that fd and to a process, and sits in a list of each; the server also asks
    the kernel for a Unix lock on the same bytes.  A lock, an fd and an inode are
    identified by their address, a lock being an object of the handle tables'
    world too.  Locked ranges are [start, end) on 64-bit offsets, an [end] of 0
    standing for 2^64.

    The kernel answers fcntl from a list of results (success once it is used up)
    and every fcntl and close that the server makes is recorded in order. *)

From Stdlib Require Import ZArith Lia.
From stdpp Require Import base list numbers option gmap.
From S2P Require Import Prelude Handles.

#[local] Open Scope Z_scope.
#[local] Open Scope server_scope.

(** ** Data *)

(** Values of errno that the code tells apart. *)
Inductive errno :=
  | ETXTBSY | EAGAIN | EBADF | ENOSPC | EACCES | ESRCH | EROFS | EPERM | EBUSY | ENOENT | EISDIR | ENFILE | EMFILE
  | EEXIST | EINVAL | ESPIPE | ENOTEMPTY | EIO | ENOTDIR | EFBIG | ENODEV | ENXIO | EXDEV | ELOOP | EOVERFLOW
  | ENOLCK | ENOTSUP | EOTHER.

Inductive lock_type := F_RDLCK | F_WRLCK | F_UNLCK.

Inductive lock_cmd := F_SETLK | F_GETLK.

(** The system calls made: [l_len] 0 means up to the end of the file. *)
Inductive unix_call :=
  | Fcntl (unix_fd : Z) (cmd : lock_cmd) (l_type : lock_type) (l_start l_len : Z)
  | Close (unix_fd : Z).

(** struct file_lock, without its list entries. *)
Record file_lock := mk_lock {
  lock_fd_ : Z;
  shared : bool;
  start : Z;
  end_ : Z;
  lock_process : option Z
}.

(** The fields of struct fd that concern locks. *)
Record fd := mk_fd {
  inode : option Z;
  fs_locks : bool;
  unix_fd : Z
}.

Record closed_fd := mk_closed {
  closed_unix_fd : Z;
  disp_flags : Z
}.

Record files := mk_files {
  objs : world;
  lock_table : gmap Z file_lock;
  fds : gmap Z fd;
  fd_locks : gmap Z (list Z);
  inode_locks : gmap Z (list Z);
  inode_closed : gmap Z (list closed_fd);
  process_locks : gmap Z (list Z);
  max_unix_offset : Z;
  answers : list (option errno);
  calls : list unix_call;
  woken : list Z
}.

Definition OFF_T_MAX : Z := 2 ^ 63 - 1.

Definition FILE_POS_T_MAX : Z := 2 ^ 64 - 1.

Definition INT_MAX : Z := 2 ^ 31 - 1.

Definition FILE_DISPOSITION_DELETE : Z := 1.

Definition STATUS_UNSUCCESSFUL : Z := 0xC0000001.

Definition STATUS_ACCESS_VIOLATION : Z := 0xC0000005.

Definition STATUS_NO_SUCH_DEVICE : Z := 0xC000000E.

Definition STATUS_NO_SUCH_FILE : Z := 0xC000000F.

Definition STATUS_INVALID_DEVICE_REQUEST : Z := 0xC0000010.

Definition STATUS_OBJECT_NAME_COLLISION : Z := 0xC0000035.

Definition STATUS_SECTION_TOO_BIG : Z := 0xC0000040.

Definition STATUS_SHARING_VIOLATION : Z := 0xC0000043.

Definition STATUS_FILE_LOCK_CONFLICT : Z := 0xC0000054.

Definition STATUS_DISK_FULL : Z := 0xC000007F.

Definition STATUS_ILLEGAL_FUNCTION : Z := 0xC00000AF.

Definition STATUS_FILE_IS_A_DIRECTORY : Z := 0xC00000BA.

Definition STATUS_NOT_SAME_DEVICE : Z := 0xC00000D4.

Definition STATUS_DIRECTORY_NOT_EMPTY : Z := 0xC0000101.

Definition STATUS_NOT_A_DIRECTORY : Z := 0xC0000103.

Definition STATUS_TOO_MANY_OPENED_FILES : Z := 0xC000011F.

Definition STATUS_REPARSE_POINT_NOT_RESOLVED : Z := 0xC0000280.

(** file.c: the status for errno. *)
Definition file_set_error (err : errno) : M unit :=
  match err with
  | ETXTBSY | EAGAIN => set_error STATUS_SHARING_VIOLATION
  | EBADF => set_error STATUS_INVALID_HANDLE
  | ENOSPC => set_error STATUS_DISK_FULL
  | EACCES | ESRCH | EROFS | EPERM => set_error STATUS_ACCESS_DENIED
  | EBUSY => set_error STATUS_FILE_LOCK_CONFLICT
  | ENOENT => set_error STATUS_NO_SUCH_FILE
  | EISDIR => set_error STATUS_FILE_IS_A_DIRECTORY
  | ENFILE | EMFILE => set_error STATUS_TOO_MANY_OPENED_FILES
  | EEXIST => set_error STATUS_OBJECT_NAME_COLLISION
  | EINVAL => set_error STATUS_INVALID_PARAMETER
  | ESPIPE => set_error STATUS_ILLEGAL_FUNCTION
  | ENOTEMPTY => set_error STATUS_DIRECTORY_NOT_EMPTY
  | EIO => set_error STATUS_ACCESS_VIOLATION
  | ENOTDIR => set_error STATUS_NOT_A_DIRECTORY
  | EFBIG => set_error STATUS_SECTION_TOO_BIG
  | ENODEV => set_error STATUS_NO_SUCH_DEVICE
  | ENXIO => set_error STATUS_NO_SUCH_DEVICE
  | EXDEV => set_error STATUS_NOT_SAME_DEVICE
  | ELOOP => set_error STATUS_REPARSE_POINT_NOT_RESOLVED
  | EOVERFLOW => set_error STATUS_INVALID_PARAMETER
  | _ => set_error STATUS_UNSUCCESSFUL
  end.

(** ** Updates of the state *)

Definition list_of (m : gmap Z (list Z)) (k : Z) : list Z := default [] (m !! k).

(** [list_remove] and [list_add_tail] on one of the lists. *)
Definition remove_from (k l : Z) (m : gmap Z (list Z)) : gmap Z (list Z) :=
  <[k := filter (fun x => x <> l) (list_of m k)]> m.

Definition add_tail (k l : Z) (m : gmap Z (list Z)) : gmap Z (list Z) := <[k := list_of m k ++ [l]]> m.

Definition set_objs (s : files) (w : world) : files :=
  mk_files w (lock_table s) (fds s) (fd_locks s) (inode_locks s) (inode_closed s) (process_locks s)
    (max_unix_offset s) (answers s) (calls s) (woken s).

Definition set_lock_table (s : files) (t : gmap Z file_lock) : files :=
  mk_files (objs s) t (fds s) (fd_locks s) (inode_locks s) (inode_closed s) (process_locks s)
    (max_unix_offset s) (answers s) (calls s) (woken s).

Definition set_lists (s : files) (f i p : gmap Z (list Z)) : files :=
  mk_files (objs s) (lock_table s) (fds s) f i (inode_closed s) p
    (max_unix_offset s) (answers s) (calls s) (woken s).

Definition set_closed (s : files) (c : gmap Z (list closed_fd)) (cl : list unix_call) : files :=
  mk_files (objs s) (lock_table s) (fds s) (fd_locks s) (inode_locks s) c (process_locks s)
    (max_unix_offset s) (answers s) cl (woken s).

Definition set_max_unix_offset (s : files) (m : Z) : files :=
  mk_files (objs s) (lock_table s) (fds s) (fd_locks s) (inode_locks s) (inode_closed s) (process_locks s)
    m (answers s) (calls s) (woken s).

(** [fd->fs_locks = 0]. *)
Definition no_fs_locks (s : files) (f : Z) : files :=
  mk_files (objs s) (lock_table s) (alter (fun d => mk_fd (inode d) false (unix_fd d)) f (fds s))
    (fd_locks s) (inode_locks s) (inode_closed s) (process_locks s)
    (max_unix_offset s) (answers s) (calls s) (woken s).

(** [wake_up( &lock->obj, 0 )]. *)
Definition wake_up (s : files) (l : Z) : files :=
  mk_files (objs s) (lock_table s) (fds s) (fd_locks s) (inode_locks s) (inode_closed s) (process_locks s)
    (max_unix_offset s) (answers s) (calls s) (woken s ++ [l]).

(** A call of fcntl: [None] is success. *)
Definition fcntl (s : files) (ufd : Z) (cmd : lock_cmd) (ty : lock_type) (l_start l_len : Z) : option errno * files :=
  (default None (head (answers s)),
   mk_files (objs s) (lock_table s) (fds s) (fd_locks s) (inode_locks s) (inode_closed s) (process_locks s)
     (max_unix_offset s) (tail (answers s)) (calls s ++ [Fcntl ufd cmd ty l_start l_len]) (woken s)).

(** ** Unix locks *)

Definition file_lock_signaled (s : files) (l : Z) : bool :=
  match lock_table s !! l with
  | Some lock => match lock_process lock with None => true | Some _ => false end
  | None => false
  end.

Fixpoint set_unix_lock_loop (fuel : nat) (s : files) (f : Z) (ufd : Z) (start end_ : Z) (ty : lock_type) :
    M (option (files * bool)) :=
  match fuel with
  | O => ret None
  | S fuel =>
      if start =? end_ then ret (Some (s, true))
      else if max_unix_offset s <? start then ret (Some (s, true))
      else
        let l_len := if (end_ =? 0) || (max_unix_offset s <? end_) then 0 else end_ - start in
        let '(err, s) := fcntl s ufd F_SETLK ty start l_len in
        match err with
        | None => ret (Some (s, true))
        | Some EACCES =>
            let '(err, s) := fcntl s ufd F_GETLK ty start l_len in
            match err with
            | None => set_error STATUS_FILE_LOCK_CONFLICT ;;; ret (Some (s, false))
            | Some _ => ret (Some (no_fs_locks s f, true))
            end
        | Some EIO | Some ENOLCK | Some ENOTSUP => ret (Some (no_fs_locks s f, true))
        | Some EAGAIN => set_error STATUS_FILE_LOCK_CONFLICT ;;; ret (Some (s, false))
        | Some EBADF =>
            match ty with
            | F_WRLCK => set_unix_lock_loop fuel s f ufd start end_ F_RDLCK
            | _ => set_error STATUS_ACCESS_DENIED ;;; ret (Some (s, false))
            end
        | Some ((EOVERFLOW | EINVAL) as err) =>
            if INT_MAX <? max_unix_offset s
            then set_unix_lock_loop fuel (set_max_unix_offset s INT_MAX) f ufd start end_ ty
            else file_set_error err ;;; ret (Some (s, false))
        | Some err => file_set_error err ;;; ret (Some (s, false))
        end
  end.

(** The loop is repeated at most once for the lock type and once for the
    largest offset. *)
Definition set_unix_lock (s : files) (f : Z) (start end_ : Z) (ty : lock_type) : M (option (files * bool)) :=
  match fds s !! f with
  | None => ret None
  | Some d =>
      if negb (fs_locks d) then ret (Some (s, true))
      else set_unix_lock_loop 3 s f (unix_fd d) start end_ ty
  end.

Definition lock_overlaps (lock : file_lock) (st en : Z) : bool :=
  if negb (end_ lock =? 0) && (end_ lock <=? st) then false
  else if negb (en =? 0) && (en <=? start lock) then false
  else true.

(** [if (lock->start == lock->end) continue; if (!lock_overlaps(...)) continue;] *)
Definition touches (st en : Z) (lock : file_lock) : bool :=
  negb (start lock =? end_ lock) && lock_overlaps lock st en.

(** The loop over the holes for one lock, and the number of holes that it takes
    from the buffer.  [None] is a failed assertion.  The doubly linked list of
    holes is the list of their bounds, in order. *)
Fixpoint carve (holes : list (Z * Z)) (lock : file_lock) : option (list (Z * Z) * nat) :=
  match holes with
  | [] => Some ([], O)
  | (cs, ce) :: rest =>
      let keep (hole : Z * Z) := '(hs, n) ← carve rest lock; Some (hole :: hs, n) in
      if ce <=? start lock then keep (cs, ce)
      else if negb (end_ lock =? 0) && (end_ lock <=? cs) then Some (holes, O)
      else if start lock <=? cs then
        if negb (end_ lock =? 0) && (end_ lock <? ce) then Some ((end_ lock, ce) :: rest, O)
        else carve rest lock
      else if (end_ lock =? 0) || (ce <=? end_ lock) then
        if cs <? start lock then keep (cs, start lock) else None
      else if (end_ lock <? ce) && (start lock <? end_ lock)
           then Some ((cs, start lock) :: (end_ lock, ce) :: rest, 1%nat)
           else None
  end.

(** The list of holes and the number of elements of the buffer in use. *)
Fixpoint carve_all (locks : list file_lock) (st en : Z) (holes : list (Z * Z)) (next : nat) :
    option (list (Z * Z) * nat) :=
  match locks with
  | [] => Some (holes, next)
  | lock :: locks =>
      if touches st en lock
      then '(hs, n) ← carve holes lock; carve_all locks st en hs (next + n)
      else carve_all locks st en holes next
  end.

Fixpoint unlock_holes (holes : list (Z * Z)) (s : files) (f : Z) : M (option files) :=
  match holes with
  | [] => ret (Some s)
  | (cs, ce) :: holes =>
      let* r := set_unix_lock s f cs ce F_UNLCK in
      match r with
      | None => ret None
      | Some (s, _) => unlock_holes holes s f
      end
  end.

(** The locks of an inode, in list order. *)
Definition locks_of (s : files) (ino : Z) : list file_lock :=
  omap (fun l => lock_table s !! l) (list_of (inode_locks s) ino).

Definition remove_unix_locks (s : files) (f : Z) (st en : Z) : M (option files) :=
  match fds s !! f with
  | None => ret None
  | Some d =>
      match inode d with
      | None => ret (Some s)
      | Some ino =>
          if negb (fs_locks d) then ret (Some s)
          else if (st =? en) || (max_unix_offset s <? st) then ret (Some s)
          else
            let en := if (en =? 0) || (max_unix_offset s <? en) then max_unix_offset s + 1 else en in
            let locks := locks_of s ino in
            match length (filter (fun l => touches st en l) locks) with
            | O =>
                let* r := set_unix_lock s f st en F_UNLCK in
                ret (option_map fst r)
            | S _ =>
                let* ok := malloc in
                if negb ok then ret (Some s)
                else
                  match carve_all locks st en [(st, en)] 1 with
                  | None => ret None
                  | Some (holes, _) => unlock_holes holes s f
                  end
            end
      end
  end.

(** ** Locks *)

(** [release_object( lock )]. *)
Definition release_lock (s : files) (l : Z) : files :=
  let w := release_object (objs s) l in
  let s := set_objs s w in
  match objects w !! l with
  | None => set_lock_table s (delete l (lock_table s))
  | Some _ => s
  end.

Section locks.
Variable file_lock_ops : Z.
Variable ops_table : Z -> object_ops.
Variable current : current_t.
Variable check_object_access : option Z -> Z -> Z -> M (option Z).

(** The address of the new lock, if any. *)
Definition add_lock (s : files) (addr f : Z) (shared : bool) (st en : Z) : M (option (files * option Z)) :=
  let* w := alloc_object (objs s) addr file_lock_ops in
  match w, fds s !! f with
  | None, _ => ret (Some (s, None))
  | Some w, None => ret None
  | Some w, Some d =>
      let lock := mk_lock f shared st en (Some (cur_process current)) in
      let s := set_lock_table (set_objs s w) (<[addr := lock]> (lock_table s)) in
      let* r := set_unix_lock s f st en (if shared then F_RDLCK else F_WRLCK) in
      match r with
      | None => ret None
      | Some (s, false) => ret (Some (release_lock s addr, None))
      | Some (s, true) =>
          match inode d with
          | None => ret None
          | Some ino =>
              ret (Some (set_lists s (add_tail f addr (fd_locks s)) (add_tail ino addr (inode_locks s))
                           (add_tail (cur_process current) addr (process_locks s)), Some addr))
          end
      end
  end.

(** The closed fds that stay in the list, and the calls of close. *)
Fixpoint close_pending (keep_unlinks : bool) (l : list closed_fd) : list closed_fd * list unix_call :=
  match l with
  | [] => ([], [])
  | c :: l =>
      let '(kept, cl) := close_pending keep_unlinks l in
      let cl := if negb (closed_unix_fd c =? -1) then Close (closed_unix_fd c) :: cl else cl in
      if negb keep_unlinks || negb (has_bits (disp_flags c) FILE_DISPOSITION_DELETE) then (kept, cl)
      else (mk_closed (-1) (disp_flags c) :: kept, cl)
  end.

Definition inode_close_pending (s : files) (ino : Z) (keep_unlinks : bool) : files :=
  let '(kept, cl) := close_pending keep_unlinks (default [] (inode_closed s !! ino)) in
  set_closed s (<[ino := kept]> (inode_closed s)) (calls s ++ cl).

Definition remove_lock (s : files) (l : Z) (remove_unix : bool) : M (option files) :=
  match lock_table s !! l with
  | None => ret None
  | Some lock =>
      match fds s !! lock_fd_ lock, lock_process lock with
      | Some d, Some p =>
          match inode d with
          | None => ret None
          | Some ino =>
              let s := set_lists s (remove_from (lock_fd_ lock) l (fd_locks s)) (remove_from ino l (inode_locks s))
                         (remove_from p l (process_locks s)) in
              let* r := if remove_unix then remove_unix_locks s (lock_fd_ lock) (start lock) (end_ lock) else ret (Some s) in
              match r with
              | None => ret None
              | Some s =>
                  let s := match list_of (inode_locks s) ino with
                           | [] => inode_close_pending s ino true
                           | _ :: _ => s
                           end in
                  let s := set_lock_table s (alter (fun k => mk_lock (lock_fd_ k) (shared k) (start k) (end_ k) None) l
                                               (lock_table s)) in
                  ret (Some (release_lock (wake_up s l) l))
              end
          end
      | _, _ => ret None
      end
  end.

Fixpoint remove_process_locks_loop (fuel : nat) (s : files) (p : Z) : M (option files) :=
  match fuel with
  | O => ret None
  | S fuel =>
      match list_of (process_locks s) p with
      | [] => ret (Some s)
      | l :: _ =>
          let* r := remove_lock s l true in
          match r with
          | None => ret None
          | Some s => remove_process_locks_loop fuel s p
          end
      end
  end.

(** Every iteration takes one lock out of the list. *)
Definition remove_process_locks (s : files) (p : Z) : M (option files) :=
  remove_process_locks_loop (S (length (list_of (process_locks s) p))) s p.

(** The state and the range collected. *)
Fixpoint remove_fd_locks_loop (fuel : nat) (s : files) (f : Z) (st en : Z) : M (option (files * Z * Z)) :=
  match fuel with
  | O => ret None
  | S fuel =>
      match list_of (fd_locks s) f with
      | [] => ret (Some (s, st, en))
      | l :: _ =>
          match lock_table s !! l with
          | None => ret None
          | Some lock =>
              let st := if start lock <? st then start lock else st in
              let en := if (end_ lock =? 0) || (en <? end_ lock) then u64 (end_ lock - 1) else en in
              let* r := remove_lock s l false in
              match r with
              | None => ret None
              | Some s => remove_fd_locks_loop fuel s f st en
              end
          end
      end
  end.

Definition remove_fd_locks (s : files) (f : Z) : M (option files) :=
  let* r := remove_fd_locks_loop (S (length (list_of (fd_locks s) f))) s f FILE_POS_T_MAX 0 in
  match r with
  | None => ret None
  | Some (s, st, en) => if st <? en then remove_unix_locks s f st (u64 (en + 1)) else ret (Some s)
  end.

(** The first lock that conflicts with the new one. *)
Fixpoint find_conflict (s : files) (f : Z) (sh : bool) (st en : Z) (l : list Z) : option Z :=
  match l with
  | [] => None
  | a :: l =>
      match lock_table s !! a with
      | None => find_conflict s f sh st en l
      | Some lock =>
          if negb (lock_overlaps lock st en) then find_conflict s f sh st en l
          else if sh && (shared lock || (lock_fd_ lock =? f)) then find_conflict s f sh st en l
          else Some a
      end
  end.

(** The handle to wait on. *)
Definition lock_fd (s : files) (addr f : Z) (st count : Z) (sh wait : bool) : M (option (files * Z)) :=
  let en := u64 (st + count) in
  match fds s !! f with
  | None => ret None
  | Some d =>
      match inode d with
      | None => set_error STATUS_INVALID_DEVICE_REQUEST ;;; ret (Some (s, 0))
      | Some ino =>
          if negb (en =? 0) && (en <? st) then set_error STATUS_INVALID_PARAMETER ;;; ret (Some (s, 0))
          else
            match find_conflict s f sh st en (list_of (inode_locks s) ino) with
            | Some l =>
                if negb wait then set_error STATUS_FILE_LOCK_CONFLICT ;;; ret (Some (s, 0))
                else
                  set_error STATUS_PENDING ;;;
                  let* x := alloc_handle ops_table check_object_access (objs s) (cur_process current) l SYNCHRONIZE 0 in
                  ret ((fun x => (set_objs s (snd x), fst x)) <$> x)
            | None =>
                let* r := add_lock s addr f sh st en in
                match r with
                | None => ret None
                | Some (s, Some _) => ret (Some (s, 0))
                | Some (s, None) =>
                    let* err := get_error in
                    (if (err =? STATUS_FILE_LOCK_CONFLICT) && wait then set_error STATUS_PENDING else ret tt) ;;;
                    ret (Some (s, 0))
                end
            end
      end
  end.

(** The first lock of the list with these bounds. *)
Fixpoint find_exact (s : files) (st en : Z) (l : list Z) : option Z :=
  match l with
  | [] => None
  | a :: l =>
      match lock_table s !! a with
      | None => find_exact s st en l
      | Some lock => if (start lock =? st) && (end_ lock =? en) then Some a else find_exact s st en l
      end
  end.

Definition unlock_fd (s : files) (f : Z) (st count : Z) : M (option files) :=
  match find_exact s st (u64 (st + count)) (list_of (fd_locks s) f) with
  | Some l => remove_lock s l true
  | None => set_error STATUS_FILE_LOCK_CONFLICT ;;; ret (Some s)
  end.
End locks.
