(* ===== verification/FileLockHoles.v ===== *)
(** * Removal of Unix locks: server/fd.c [remove_unix_locks]

    Removing a lock gives back to the kernel exactly the bytes that no other lock
    of the file still covers.  The holes between the remaining locks are compared
    with the bytes they stand for. *)

From Stdlib Require Import ZArith Lia.
From stdpp Require Import base list numbers option gmap.
From S2P Require Import Prelude Handles FileLocks.

#[local] Open Scope Z_scope.

(** ** Ranges *)

(** Bounds that a lock can have: the code refuses ranges that wrap around. *)
Definition range_wf (st en : Z) : Prop := 0 <= st < 2 ^ 64 /\ 0 <= en < 2 ^ 64 /\ (en = 0 \/ st <= en).

(** [x] is in the range [st, en). *)
Definition in_bounds (st en x : Z) : Prop := st <= x /\ (en = 0 \/ x < en).

(** The lock covers byte [x]; a lock on no byte has equal bounds. *)
Definition covers (lock : file_lock) (x : Z) : Prop := start lock <> end_ lock /\ in_bounds (start lock) (end_ lock) x.

Definition lock_wf (lock : file_lock) : Prop := range_wf (start lock) (end_ lock).

(** Holes in ascending order, none empty, all from [lo] on. *)
Fixpoint holes_wf (lo : Z) (hs : list (Z * Z)) : Prop :=
  match hs with
  | [] => True
  | (cs, ce) :: hs => lo <= cs < ce /\ holes_wf ce hs
  end.

Fixpoint in_holes (hs : list (Z * Z)) (x : Z) : Prop :=
  match hs with
  | [] => False
  | (cs, ce) :: hs => cs <= x < ce \/ in_holes hs x
  end.

Lemma holes_wf_weaken lo lo' hs : lo' <= lo -> holes_wf lo hs -> holes_wf lo' hs.
Proof. destruct hs as [|[cs ce] hs]; [done|]. cbn. intros H [H1 H2]. split; [lia|done]. Qed.

Lemma in_holes_lb hs x : forall lo, holes_wf lo hs -> in_holes hs x -> lo <= x.
Proof.
  induction hs as [|[cs ce] hs IH]; intros lo; [done|]. cbn. intros [H1 H2] [H|H]; [lia|]. specialize (IH ce H2 H); lia.
Qed.

(** What carving one lock out of a list of holes must give. *)
Definition carved (lo : Z) (hs : list (Z * Z)) (lock : file_lock) (r : option (list (Z * Z) * nat)) : Prop :=
  exists hs' n, r = Some (hs', n) /\ (n <= 1)%nat /\ holes_wf lo hs' /\
    forall x, in_holes hs' x <-> in_holes hs x /\ ~ covers lock x.

(** A first hole that stays, possibly cut at its end, and the rest. *)
Lemma carved_keep lo cs ce ce' hs lock r :
  lo <= cs -> cs < ce' <= ce -> carved ce hs lock r ->
  (forall x, cs <= x < ce' <-> cs <= x < ce /\ ~ covers lock x) ->
  carved lo ((cs, ce) :: hs) lock ('(hs', n) ← r; Some ((cs, ce') :: hs', n)).
Proof.
  intros Hlo Hce (hs' & n & -> & Hn & Hw & Hx) Hb. exists ((cs, ce') :: hs'), n. split; [done|]. split; [done|].
  split; [cbn; split; [lia|by apply (holes_wf_weaken ce); [lia|]]|]. intros x. cbn. rewrite Hx, Hb. tauto.
Qed.

(** A list of which the lock covers nothing. *)
Lemma carved_none lo cs ce hs lock :
  holes_wf lo ((cs, ce) :: hs) -> (forall x, cs <= x -> ~ covers lock x) -> carved lo ((cs, ce) :: hs) lock (Some ((cs, ce) :: hs, O)).
Proof.
  intros Hw Hc. eexists _, _. split; [done|]. split; [lia|]. split; [done|]. intros x. split; [|tauto].
  intros Hx. split; [done|]. apply Hc. destruct Hw as [? Hw]. destruct Hx as [?|Hx]; [lia|].
  apply (in_holes_lb _ _ ce) in Hx; [lia|done].
Qed.

(** A first hole that the lock covers entirely. *)
Lemma carved_drop lo cs ce hs lock r :
  lo <= ce -> (forall x, cs <= x < ce -> covers lock x) -> carved ce hs lock r -> carved lo ((cs, ce) :: hs) lock r.
Proof.
  intros Hlo Hc (hs' & n & -> & Hn & Hw & Hx). exists hs', n. split; [done|]. split; [done|].
  split; [by apply (holes_wf_weaken ce)|]. intros x. cbn. rewrite Hx. specialize (Hc x). tauto.
Qed.

Lemma carve_spec lock hs : lock_wf lock -> start lock <> end_ lock -> forall lo,
  0 <= lo -> holes_wf lo hs -> carved lo hs lock (carve hs lock).
Proof.
  intros (Hs & He & Hse) Hne. induction hs as [|[cs ce] hs IH]; intros lo Hlo Hw.
  { exists [], O. split; [done|]. split; [lia|]. split; [done|]. cbn. tauto. }
  cbn [carve]. destruct Hw as [Hc Hw]. specialize (IH ce ltac:(lia) Hw).
  assert (Hcov : forall x, covers lock x <-> start lock <= x /\ (end_ lock = 0 \/ x < end_ lock))
    by (intros; unfold covers, in_bounds; tauto).
  destruct (Z.leb_spec ce (start lock)); [apply carved_keep; (done || lia || setoid_rewrite Hcov; lia)|].
  destruct (Z.eqb_spec (end_ lock) 0) as [E0|E0], (Z.leb_spec (end_ lock) cs), (Z.leb_spec (start lock) cs),
    (Z.ltb_spec (end_ lock) ce), (Z.leb_spec ce (end_ lock)), (Z.ltb_spec cs (start lock)),
    (Z.ltb_spec (start lock) (end_ lock)); cbn [negb andb orb]; try lia.
  all: try (apply carved_none; [done|]; setoid_rewrite Hcov; lia).
  all: try (apply carved_keep; [lia|lia|done|]; setoid_rewrite Hcov; lia).
  all: try (apply carved_drop; [lia| |done]; setoid_rewrite Hcov; lia).
  all: eexists _, _; (split; [done|]); (split; [lia|]); (split; [cbn; repeat split; (lia || done)|]); intros x; cbn;
    rewrite Hcov; pose proof (in_holes_lb hs x ce Hw); intuition lia.
Qed.

(** All the locks: each takes at most one element of the buffer. *)
Lemma carve_all_spec locks st en : Forall lock_wf locks -> forall hs next lo,
  0 <= lo -> holes_wf lo hs ->
  exists hs' next', carve_all locks st en hs next = Some (hs', next') /\ holes_wf lo hs' /\
    (next' <= next + length (filter (fun l => touches st en l) locks))%nat /\
    forall x, in_holes hs' x <-> in_holes hs x /\ Forall (fun lock => touches st en lock = true -> ~ covers lock x) locks.
Proof.
  induction locks as [|lock locks IH]; intros Hl hs next lo Hlo Hw; cbn [carve_all].
  { eexists _, _. split; [done|]. split; [done|]. split; [lia|]. intros x. split; [by split; [|constructor]|tauto]. }
  apply list.Forall_cons in Hl as [Hl1 Hl]. rewrite filter_cons. destruct (touches st en lock) eqn:Et.
  - assert (start lock <> end_ lock) as Hne.
    { unfold touches in Et. apply andb_true_iff in Et as [Et _]. by apply negb_true_iff, Z.eqb_neq in Et. }
    destruct (carve_spec lock hs Hl1 Hne lo Hlo Hw) as (hs1 & n & -> & Hn & Hw1 & Hx1).
    destruct (IH Hl hs1 (next + n)%nat lo Hlo Hw1) as (hs' & next' & E & Hw' & Hn' & Hx).
    exists hs', next'. split; [done|]. split; [done|]. split; [case_decide; [cbn; lia|done]|].
    intros x. rewrite Hx, Hx1, list.Forall_cons. tauto.
  - destruct (IH Hl hs next lo Hlo Hw) as (hs' & next' & -> & Hw' & Hn' & Hx).
    exists hs', next'. split; [done|]. split; [done|]. split; [case_decide; [done|lia]|].
    intros x. rewrite Hx, list.Forall_cons. assert (touches st en lock = true -> ~ covers lock x) by (by rewrite Et).
    tauto.
Qed.

(** Inside the range, a lock that covers a byte is one of those looked at. *)
Lemma covers_touches lock st en x : in_bounds st en x -> covers lock x -> touches st en lock = true.
Proof.
  intros [H1 H2] [Hne [H3 H4]]. unfold touches, lock_overlaps.
  destruct (Z.eqb_spec (start lock) (end_ lock)), (Z.eqb_spec (end_ lock) 0), (Z.leb_spec (end_ lock) st),
    (Z.eqb_spec en 0), (Z.leb_spec en (start lock)); cbn; (done || lia).
Qed.

(** ** Calls *)

Definition add_calls (s : files) (cl : list unix_call) : files :=
  mk_files (objs s) (lock_table s) (fds s) (fd_locks s) (inode_locks s) (inode_closed s) (process_locks s)
    (max_unix_offset s) (answers s) (calls s ++ cl) (woken s).

Lemma add_calls_nil s : add_calls s [] = s.
Proof. destruct s. unfold add_calls. cbn. by rewrite app_nil_r. Qed.

Lemma add_calls_app s cl cl' : add_calls (add_calls s cl) cl' = add_calls s (cl ++ cl').
Proof. unfold add_calls. cbn. by rewrite app_assoc. Qed.

(** The bytes that the calls unlock. *)
Definition unlocks (ufd : Z) (cl : list unix_call) (x : Z) : Prop :=
  exists st len, Fcntl ufd F_SETLK F_UNLCK st len ∈ cl /\ st <= x /\ (len = 0 \/ x < st + len).

Definition only_unlocks (ufd : Z) (cl : list unix_call) : Prop :=
  Forall (fun c => exists st len, c = Fcntl ufd F_SETLK F_UNLCK st len) cl.

Lemma unlocks_cons ufd st len cl x :
  unlocks ufd (Fcntl ufd F_SETLK F_UNLCK st len :: cl) x <-> (st <= x /\ (len = 0 \/ x < st + len)) \/ unlocks ufd cl x.
Proof.
  unfold unlocks. split.
  - intros (st' & len' & [E|Hin]%elem_of_cons & H); [injection E as -> ->; by left|right; by exists st', len'].
  - intros [H|(st' & len' & Hin & H)]; [exists st, len; split; [left|done]|exists st', len'; split; [by right|done]].
Qed.

Section kernel.
Context (f : Z) (d : fd) (e : senv) (max : Z).
Context (Hd : fs_locks d = true) (Hmax : 0 <= max).

(** A successful call. *)
Lemma fcntl_ok s ufd cmd ty st len : answers s = [] -> fcntl s ufd cmd ty st len = (None, add_calls s [Fcntl ufd cmd ty st len]).
Proof using. intros Ha. unfold fcntl, add_calls. by rewrite Ha. Qed.

Lemma set_unix_lock_loop_ok n s ufd st en ty :
  answers s = [] -> max_unix_offset s = max -> 0 <= st -> st < en -> st <= max ->
  set_unix_lock_loop (S n) s f ufd st en ty e =
    (Some (add_calls s [Fcntl ufd F_SETLK ty st (if max <? en then 0 else en - st)], true), e).
Proof using Hmax.
  intros Ha Hm Hs Hlt Hle. cbn [set_unix_lock_loop]. rewrite Hm, fcntl_ok by done.
  by rewrite (proj2 (Z.eqb_neq st en)), (proj2 (Z.ltb_ge max st)), (proj2 (Z.eqb_neq en 0)) by lia.
Qed.

Lemma set_unix_lock_ok s st en ty :
  fds s !! f = Some d -> answers s = [] -> max_unix_offset s = max -> 0 <= st -> st < en -> st <= max ->
  set_unix_lock s f st en ty e =
    (Some (add_calls s [Fcntl (unix_fd d) F_SETLK ty st (if max <? en then 0 else en - st)], true), e).
Proof using Hd Hmax.
  intros Hf Ha Hm Hs Hlt Hle. unfold set_unix_lock. rewrite Hf, Hd. by apply set_unix_lock_loop_ok.
Qed.

Lemma unlock_holes_spec hs : forall s lo,
  fds s !! f = Some d -> answers s = [] -> max_unix_offset s = max -> 0 <= lo -> holes_wf lo hs ->
  (forall x, in_holes hs x -> x <= max) ->
  exists cl, unlock_holes hs s f e = (Some (add_calls s cl), e) /\ only_unlocks (unix_fd d) cl /\
    forall x, 0 <= x <= max -> unlocks (unix_fd d) cl x <-> in_holes hs x.
Proof using Hd Hmax.
  induction hs as [|[cs ce] hs IH]; intros s lo Hf Ha Hm Hlo Hw Hin; cbn [unlock_holes].
  - exists []. rewrite add_calls_nil. split; [done|]. split; [constructor|]. intros x _. split; [|done].
    intros (? & ? & H & _). by apply not_elem_of_nil in H.
  - destruct Hw as [Hc Hw]. assert (Hce : ce <= max + 1) by (specialize (Hin (ce - 1)); cbn in Hin; lia).
    pose proof (set_unix_lock_ok s cs ce F_UNLCK Hf Ha Hm ltac:(lia) ltac:(lia) ltac:(lia)) as E.
    rewrite (bind_run _ _ _ _ _ E). set (c := Fcntl _ _ _ _ _) in *.
    destruct (IH (add_calls s [c]) ce) as (cl & -> & Ho & Hx); [done..|lia|done|intros x Hx; apply Hin; by right|].
    exists (c :: cl). rewrite add_calls_app. split; [done|]. split; [constructor; [by eexists _, _|done]|].
    intros x Hb. unfold c. rewrite unlocks_cons, Hx by done. cbn.
    destruct (Z.ltb_spec max ce); intuition lia.
Qed.
End kernel.

(** ** [remove_unix_locks] *)

(** The bytes of the range that no lock of the inode covers. *)
Definition uncovered (locks : list file_lock) (st en x : Z) : Prop :=
  in_bounds st en x /\ Forall (fun lock => ~ covers lock x) locks.

Lemma touching_uncovered locks st en x :
  in_bounds st en x ->
  Forall (fun lock => touches st en lock = true -> ~ covers lock x) locks <-> Forall (fun lock => ~ covers lock x) locks.
Proof.
  intros Hb. split; intros HF; apply (list.Forall_impl _ _ _ HF); intros lock H; [|done]. intros Hc. by apply (H (covers_touches _ _ _ _ Hb Hc)).
Qed.

Section remove.
Context (s : files) (f : Z) (d : fd) (ino : Z) (e : senv).
Context (Hf : fds s !! f = Some d) (Hi : inode d = Some ino) (Hfs : fs_locks d = true).
Context (Ha : answers s = []) (Hal : allocs e = []) (Hm : 0 <= max_unix_offset s).
Context (Hl : Forall lock_wf (locks_of s ino)).

(** The buffer of holes: the malloc of [count + 1] elements is enough. *)
Lemma holes_fit st en :
  0 <= st < en ->
  exists hs next, carve_all (locks_of s ino) st en [(st, en)] 1 = Some (hs, next) /\
    (next <= 1 + length (filter (fun l => touches st en l) (locks_of s ino)))%nat /\ holes_wf st hs /\
    forall x, in_holes hs x <-> uncovered (locks_of s ino) st en x.
Proof using Hl.
  intros Hse. destruct (carve_all_spec (locks_of s ino) st en Hl [(st, en)] 1 st) as (hs & next & -> & Hw & Hn & Hx);
    [lia|cbn; lia|]. exists hs, next. split; [done|]. split; [done|]. split; [done|]. intros x. rewrite Hx. unfold uncovered. cbn.
  assert (in_bounds st en x <-> st <= x < en \/ False) as Hb by (unfold in_bounds; lia). rewrite <-Hb.
  pose proof (touching_uncovered (locks_of s ino) st en x). tauto.
Qed.

Lemma no_touch_uncovered st en x :
  length (filter (fun l => touches st en l) (locks_of s ino)) = O ->
  in_bounds st en x -> Forall (fun lock => ~ covers lock x) (locks_of s ino).
Proof using.
  intros H0 Hb. apply nil_length_inv in H0. apply list.Forall_forall. intros lock Hin Hc.
  apply (filter_nil_not_elem_of (fun l => touches st en l) (locks_of s ino) lock) in H0; [done|].
  by rewrite (covers_touches _ _ _ _ Hb Hc).
Qed.

Lemma remove_unix_locks_spec st en :
  range_wf st en -> st <> en ->
  exists cl, remove_unix_locks s f st en e = (Some (add_calls s cl), e) /\ only_unlocks (unix_fd d) cl /\
    forall x, 0 <= x <= max_unix_offset s -> unlocks (unix_fd d) cl x <-> uncovered (locks_of s ino) st en x.
Proof using Hf Hi Hfs Ha Hal Hm Hl.
  intros (Hs & He & Hse) Hne. unfold remove_unix_locks. rewrite Hf, Hi, Hfs. cbn [negb].
  rewrite (proj2 (Z.eqb_neq st en) Hne). cbn [orb]. destruct (Z.ltb_spec (max_unix_offset s) st) as [Hgt|Hle].
  { exists []. rewrite add_calls_nil. split; [done|]. split; [constructor|]. intros x Hx. split.
    - intros (? & ? & H & _). by apply not_elem_of_nil in H.
    - intros [[? _] _]. lia. }
  set (en' := if (en =? 0) || (max_unix_offset s <? en) then max_unix_offset s + 1 else en).
  assert (Hb : forall x, 0 <= x <= max_unix_offset s -> uncovered (locks_of s ino) st en x <-> uncovered (locks_of s ino) st en' x).
  { intros x Hx. unfold uncovered, in_bounds, en'. destruct (Z.eqb_spec en 0), (Z.ltb_spec (max_unix_offset s) en); cbn [orb]; intuition lia. }
  assert (Hen' : st < en' <= max_unix_offset s + 1)
    by (unfold en'; destruct (Z.eqb_spec en 0), (Z.ltb_spec (max_unix_offset s) en); cbn [orb]; lia).
  destruct (length (filter (fun l => touches st en' l) (locks_of s ino))) as [|n] eqn:Ec.
  - pose proof (set_unix_lock_ok f d e _ Hfs Hm s st en' F_UNLCK Hf Ha eq_refl ltac:(lia) ltac:(lia) Hle) as E.
    rewrite (bind_run _ _ _ _ _ E). eexists. split; [done|]. split; [constructor; [by eexists _, _|constructor]|].
    intros x Hx. rewrite Hb, unlocks_cons by done. pose proof (no_touch_uncovered st en' x Ec) as Hno.
    assert (~ unlocks (unix_fd d) [] x) by (intros (? & ? & H & _); by apply not_elem_of_nil in H).
    assert (st <= x /\ ((if max_unix_offset s <? en' then 0 else en' - st) = 0 \/
      x < st + (if max_unix_offset s <? en' then 0 else en' - st)) <-> in_bounds st en' x) as ->
      by (unfold in_bounds; destruct (Z.ltb_spec (max_unix_offset s) en'); lia).
    unfold uncovered. tauto.
  - assert (malloc e = (true, e)) as Em by (unfold malloc; by rewrite Hal). rewrite (bind_run _ _ _ _ _ Em). cbn [negb].
    destruct (holes_fit st en' ltac:(lia)) as (hs & next & -> & _ & Hw & Hx).
    destruct (unlock_holes_spec f d e _ Hfs Hm hs s st Hf Ha eq_refl ltac:(lia) Hw) as (cl & -> & Ho & Hu).
    { intros x Hin. apply Hx in Hin as [[_ Hin] _]. lia. }
    exists cl. split; [done|]. split; [done|]. intros x Hx0. by rewrite Hu, Hx, Hb.
Qed.
End remove.
