(* ===== verification/FileLockTheorems.v ===== *)
(** * Correctness of file locks: server/fd.c

    The lists of locks stay consistent through every sequence of lock operations,
    whatever the kernel and the allocator answer; no operation gets stuck; and the
    locks of a file exclude each other. *)

From Stdlib Require Import ZArith Lia Sorted.
From stdpp Require Import base list numbers option gmap sorting.
From S2P Require Import Prelude Handles FileLocks FileLockHoles.

#[local] Open Scope Z_scope.

(** ** Calls to the kernel leave the locks alone *)

(** The same locks in the same lists; what the server knows of the kernel may
    differ. *)
Record same_locks (s s' : files) : Prop := {
  sl_objs : objs s' = objs s;
  sl_table : lock_table s' = lock_table s;
  sl_fd : fd_locks s' = fd_locks s;
  sl_inode : inode_locks s' = inode_locks s;
  sl_process : process_locks s' = process_locks s;
  sl_fds : forall f, inode <$> fds s' !! f = inode <$> fds s !! f
}.

#[export] Instance same_locks_preorder : PreOrder same_locks.
Proof.
  split; [by intros s|]. intros s1 s2 s3 [] []. split; try congruence; auto.
Qed.

Lemma same_locks_fcntl s ufd cmd ty st len : same_locks s (snd (fcntl s ufd cmd ty st len)).
Proof. by split. Qed.

Lemma same_locks_no_fs s f : same_locks s (no_fs_locks s f).
Proof.
  split; try done. intros g. cbn. destruct (decide (f = g)) as [->|]; [|by rewrite lookup_alter_ne].
  rewrite lookup_alter_eq. by destruct (fds s !! g).
Qed.

Lemma same_locks_max s m : same_locks s (set_max_unix_offset s m).
Proof. by split. Qed.

Create HintDb locks.

#[export] Hint Resolve same_locks_fcntl same_locks_no_fs same_locks_max : locks.

(** A routine that always returns, and only talks to the kernel. *)
Definition kernel_only {A} (proj : A -> files) (m : M (option A)) (s : files) : Prop :=
  forall e, exists r e', m e = (Some r, e') /\ same_locks s (proj r).

Lemma kernel_only_ret {A} (proj : A -> files) r s : same_locks s (proj r) -> kernel_only proj (ret (Some r)) s.
Proof. intros H e. by eexists _, _. Qed.

Lemma kernel_only_error {A} (proj : A -> files) (m : M unit) r s :
  same_locks s (proj r) -> kernel_only proj (bind m (fun _ => ret (Some r))) s.
Proof. intros H e. unfold bind. destruct (m e). by eexists _, _. Qed.

Lemma kernel_only_trans {A} (proj : A -> files) m s s' : same_locks s s' -> kernel_only proj m s' -> kernel_only proj m s.
Proof. intros H Hm e. destruct (Hm e) as (r & e' & E & Hr). exists r, e'. split; [done|]. by transitivity s'. Qed.

(** The retries that are left: one for the lock type, one for the offset. *)
Definition retries (s : files) (ty : lock_type) : nat :=
  (match ty with F_WRLCK => 1 | _ => 0 end) + (if INT_MAX <? max_unix_offset s then 1 else 0).

Lemma set_unix_lock_loop_total fuel : forall s f ufd st en ty,
  (retries s ty < fuel)%nat -> kernel_only fst (set_unix_lock_loop fuel s f ufd st en ty) s.
Proof.
  induction fuel as [|fuel IH]; intros s f ufd st en ty Hf; [lia|]. cbn [set_unix_lock_loop].
  destruct (st =? en); [by apply kernel_only_ret|]. destruct (max_unix_offset s <? st); [by apply kernel_only_ret|].
  pose proof (same_locks_fcntl s ufd F_SETLK ty st
    (if (en =? 0) || (max_unix_offset s <? en) then 0 else en - st)) as H1.
  assert (Hm : max_unix_offset (snd (fcntl s ufd F_SETLK ty st
    (if (en =? 0) || (max_unix_offset s <? en) then 0 else en - st))) = max_unix_offset s) by done.
  destruct (fcntl s ufd F_SETLK ty st _) as [err s1]. cbn [snd] in *. unfold retries in *.
  destruct err as [err|]; [|by apply kernel_only_ret].
  destruct err; try (apply kernel_only_error; exact H1);
    try (apply kernel_only_ret; etransitivity; [exact H1|apply same_locks_no_fs]).
  - destruct ty; try (apply kernel_only_error; exact H1).
    apply (kernel_only_trans _ _ s s1 H1), IH. unfold retries. rewrite Hm. lia.
  - pose proof (same_locks_fcntl s1 ufd F_GETLK ty st
      (if (en =? 0) || (max_unix_offset s <? en) then 0 else en - st)) as H2.
    destruct (fcntl s1 ufd F_GETLK ty st _) as [err s2]. cbn [snd] in H2.
    destruct err; [apply kernel_only_ret|apply kernel_only_error]; cbn;
      (etransitivity; [exact H1|]); [|exact H2]. etransitivity; [exact H2|apply same_locks_no_fs].
  - rewrite Hm. destruct (Z.ltb_spec INT_MAX (max_unix_offset s)); [|apply kernel_only_error; exact H1].
    apply (kernel_only_trans _ _ s (set_max_unix_offset s1 INT_MAX)).
    + etransitivity; [exact H1|apply same_locks_max].
    + apply IH. unfold retries. cbn. rewrite Z.ltb_irrefl. lia.
  - rewrite Hm. destruct (Z.ltb_spec INT_MAX (max_unix_offset s)); [|apply kernel_only_error; exact H1].
    apply (kernel_only_trans _ _ s (set_max_unix_offset s1 INT_MAX)).
    + etransitivity; [exact H1|apply same_locks_max].
    + apply IH. unfold retries. cbn. rewrite Z.ltb_irrefl. lia.
Qed.

Lemma set_unix_lock_total s f st en ty : is_Some (fds s !! f) -> kernel_only fst (set_unix_lock s f st en ty) s.
Proof.
  intros [d Hd]. unfold set_unix_lock. rewrite Hd. destruct (fs_locks d); cbn [negb]; [|by apply kernel_only_ret].
  apply set_unix_lock_loop_total. unfold retries. destruct ty, (_ <? _); cbn; lia.
Qed.

Lemma same_locks_has_fd s s' f : same_locks s s' -> is_Some (fds s !! f) -> is_Some (fds s' !! f).
Proof.
  intros H [d Hd]. pose proof (sl_fds s s' H f) as E. rewrite Hd in E. destruct (fds s' !! f); [by eexists|done].
Qed.

Lemma unlock_holes_total hs : forall s f, is_Some (fds s !! f) -> kernel_only (fun s => s) (unlock_holes hs s f) s.
Proof.
  induction hs as [|[cs ce] hs IH]; intros s f Hf; cbn [unlock_holes]; [by apply kernel_only_ret|].
  intros e. destruct (set_unix_lock_total s f cs ce F_UNLCK Hf e) as ([s1 b] & e1 & E & H1).
  rewrite (bind_run _ _ _ _ _ E). cbn in H1. apply (kernel_only_trans _ _ s s1 H1), IH.
  by apply (same_locks_has_fd s).
Qed.

(** With well-formed locks and range the assertions hold. *)
Lemma remove_unix_locks_total s f st en :
  is_Some (fds s !! f) -> (forall ino, Forall lock_wf (locks_of s ino)) -> range_wf st en ->
  kernel_only (fun s => s) (remove_unix_locks s f st en) s.
Proof.
  intros Hf Hl (Hs & He & Hse) e. unfold remove_unix_locks. destruct Hf as [d Hf]. rewrite Hf.
  destruct (inode d) as [ino|]; [|by apply kernel_only_ret].
  destruct (fs_locks d); cbn [negb]; [|by apply kernel_only_ret].
  destruct (Z.eqb_spec st en) as [|Hne]; [by apply kernel_only_ret|].
  destruct (Z.ltb_spec (max_unix_offset s) st) as [|Hle]; cbn [orb]; [by apply kernel_only_ret|].
  set (en' := if (en =? 0) || (max_unix_offset s <? en) then max_unix_offset s + 1 else en).
  assert (st < en') by (unfold en'; destruct (Z.eqb_spec en 0), (Z.ltb_spec (max_unix_offset s) en); cbn [orb]; lia).
  destruct (length (filter (fun l => touches st en' l) (locks_of s ino))).
  - destruct (set_unix_lock_total s f st en' F_UNLCK (mk_is_Some _ _ Hf) e) as ([s1 b] & e1 & E & H1).
    rewrite (bind_run _ _ _ _ _ E). by eexists _, _.
  - unfold bind. destruct (malloc e) as [[] e1]; cbn [negb]; [|by eexists _, _].
    destruct (holes_fit s ino (Hl ino) st en' ltac:(lia)) as (hs & next & -> & _).
    apply unlock_holes_total. by eexists.
Qed.

(** ** The lists of locks *)

(** [a] was there before [b]. *)
Definition compatible (s : files) (a b : Z) : Prop :=
  forall ka kb, lock_table s !! a = Some ka -> lock_table s !! b = Some kb ->
    lock_overlaps ka (start kb) (end_ kb) = true ->
    shared kb = true /\ (shared ka = true \/ lock_fd_ ka = lock_fd_ kb).

Record locks_ok (s : files) : Prop := {
  lo_fd : forall f a, a ∈ list_of (fd_locks s) f <->
    exists k, lock_table s !! a = Some k /\ lock_fd_ k = f /\ is_Some (lock_process k);
  lo_inode : forall ino a, a ∈ list_of (inode_locks s) ino <->
    exists k d, lock_table s !! a = Some k /\ fds s !! lock_fd_ k = Some d /\ inode d = Some ino /\ is_Some (lock_process k);
  lo_process : forall p a, a ∈ list_of (process_locks s) p <->
    exists k, lock_table s !! a = Some k /\ lock_process k = Some p;
  lo_nodup : (forall f, NoDup (list_of (fd_locks s) f)) /\ (forall p, NoDup (list_of (process_locks s) p));
  lo_wf : forall a k, lock_table s !! a = Some k -> is_Some (lock_process k) ->
    lock_wf k /\ exists d ino, fds s !! lock_fd_ k = Some d /\ inode d = Some ino;
  lo_excl : forall ino, StronglySorted (compatible s) (list_of (inode_locks s) ino)
}.

Lemma same_locks_inode s s' f ino :
  same_locks s s' ->
  (exists d, fds s' !! f = Some d /\ inode d = Some ino) <-> (exists d, fds s !! f = Some d /\ inode d = Some ino).
Proof.
  intros H. pose proof (sl_fds s s' H f) as E.
  destruct (fds s' !! f) as [d'|], (fds s !! f) as [d|]; cbn in E; try done.
  injection E as E. split; intros (? & [= <-] & Hi); eexists; (split; [done|]); congruence.
Qed.

Lemma same_locks_ok s s' : same_locks s s' -> locks_ok s -> locks_ok s'.
Proof.
  intros H [H1 H2 H3 H4 H5 H6]. pose proof (same_locks_inode s s') as Hi.
  pose proof (sl_table _ _ H) as Et. pose proof (sl_fd _ _ H) as Ef. pose proof (sl_inode _ _ H) as Ei.
  pose proof (sl_process _ _ H) as Ep.
  split; rewrite ?Ef, ?Ep; try rewrite Et; try done.
  - intros ino a. rewrite Ei, H2. split; intros (k & d & Hk & Hd & Hin & Hp).
    + destruct (proj2 (Hi (lock_fd_ k) ino H)) as (d' & ? & ?); [by exists d|]. exists k, d'. done.
    + destruct (proj1 (Hi (lock_fd_ k) ino H)) as (d' & ? & ?); [by exists d|]. exists k, d'. done.
  - intros a k Hk Hp. destruct (H5 a k Hk Hp) as [Hw (d & ino & Hd & Hino)]. split; [done|].
    destruct (proj2 (Hi (lock_fd_ k) ino H)) as (d' & ? & ?); [by exists d|]. by exists d', ino.
  - intros ino. rewrite Ei. unfold compatible. rewrite Et. apply H6.
Qed.

(** The objects do not matter. *)
Lemma locks_ok_objs s w : locks_ok s -> locks_ok (set_objs s w).
Proof. intros [H1 H2 H3 H4 H5 H6]. by split. Qed.

Lemma locks_ok_ext s s' :
  lock_table s' = lock_table s -> fd_locks s' = fd_locks s -> inode_locks s' = inode_locks s ->
  process_locks s' = process_locks s -> (forall f, inode <$> fds s' !! f = inode <$> fds s !! f) -> locks_ok s -> locks_ok s'.
Proof. intros ? ? ? ? ? L. apply (same_locks_ok (set_objs s (objs s'))); [by split|by apply locks_ok_objs]. Qed.

Lemma locks_of_wf s ino : locks_ok s -> Forall lock_wf (locks_of s ino).
Proof.
  intros L. apply list.Forall_forall. intros k Hk. unfold locks_of in Hk. apply list_elem_of_omap in Hk as (a & Ha & Hk).
  apply (lo_inode s L) in Ha as (k' & d & Hk' & _ & _ & Hp). rewrite Hk in Hk'. injection Hk' as <-.
  by apply (lo_wf s L a).
Qed.

(** ** Removing a lock *)

Lemma filter_ne_id (l : Z) (xs : list Z) : l ∉ xs -> filter (fun x => x <> l) xs = xs.
Proof.
  induction xs as [|x xs IH]; [done|]. intros H. apply not_elem_of_cons in H as [H1 H2].
  rewrite filter_cons, decide_True, IH by (done || congruence). done.
Qed.

Lemma list_of_remove k l m k' : (k <> k' -> l ∉ list_of m k') -> list_of (remove_from k l m) k' = filter (fun x => x <> l) (list_of m k').
Proof.
  intros H. unfold remove_from, list_of at 1. destruct (decide (k = k')) as [->|Hne].
  - by rewrite lookup_insert_eq.
  - rewrite lookup_insert_ne by done. symmetry. by apply filter_ne_id, H.
Qed.

Lemma list_of_add k l m k' : list_of (add_tail k l m) k' = if decide (k = k') then list_of m k' ++ [l] else list_of m k'.
Proof.
  unfold add_tail, list_of at 1. case_decide as E; [subst; by rewrite lookup_insert_eq|by rewrite lookup_insert_ne].
Qed.

Record removed (s s' : files) (l : Z) : Prop := {
  rm_table : forall a, a <> l -> lock_table s' !! a = lock_table s !! a;
  rm_gone : forall k, lock_table s' !! l = Some k -> lock_process k = None;
  rm_fd : forall f, list_of (fd_locks s') f = filter (fun x => x <> l) (list_of (fd_locks s) f);
  rm_inode : forall i, list_of (inode_locks s') i = filter (fun x => x <> l) (list_of (inode_locks s) i);
  rm_process : forall p, list_of (process_locks s') p = filter (fun x => x <> l) (list_of (process_locks s) p);
  rm_fds : forall f, inode <$> fds s' !! f = inode <$> fds s !! f
}.

Lemma fds_inode (m m' : option fd) ino :
  inode <$> m' = inode <$> m -> (exists d, m = Some d /\ inode d = Some ino) -> exists d, m' = Some d /\ inode d = Some ino.
Proof. intros E (d & -> & Hd). destruct m' as [d'|]; [|done]. injection E as E. exists d'. by rewrite E. Qed.

Lemma sorted_filter {A} (R R' : A -> A -> Prop) (P : A -> Prop) `{forall x, Decision (P x)} l :
  (forall a b, P a -> P b -> R a b -> R' a b) -> StronglySorted R l -> StronglySorted R' (filter P l).
Proof.
  intros HR. induction 1 as [|a l Hs IH Ha]; [constructor|]. rewrite filter_cons. case_decide as Hp; [|done].
  constructor; [done|]. apply list.Forall_forall. intros b [Hb Hin]%list_elem_of_filter. apply HR; [done..|].
  by apply (proj1 (list.Forall_forall _ _) Ha).
Qed.

Lemma removed_ok s s' l : removed s s' l -> locks_ok s -> locks_ok s'.
Proof.
  intros [R1 R2 R3 R4 R5 R6] L.
  assert (Hk : forall a k, lock_table s' !! a = Some k -> is_Some (lock_process k) -> a <> l /\ lock_table s !! a = Some k).
  { intros a k Hk [p Hp]. destruct (decide (a = l)) as [->|Hne]; [by rewrite (R2 k Hk) in Hp|]. by rewrite <-R1. }
  split.
  - intros f a. rewrite R3, list_elem_of_filter, (lo_fd s L). split.
    + intros [Hne (k & Hk0 & H)]. exists k. by rewrite R1.
    + intros (k & Hk0 & Hf & Hp). destruct (Hk a k Hk0 Hp). split; [done|]. by exists k.
  - intros ino a. rewrite R4, list_elem_of_filter, (lo_inode s L). split.
    + intros [Hne (k & d & Hk0 & Hd & Hi & Hp)].
      destruct (fds_inode (fds s !! lock_fd_ k) (fds s' !! lock_fd_ k) ino (R6 _)) as (d' & ? & ?); [by exists d|].
      exists k, d'. by rewrite R1.
    + intros (k & d & Hk0 & Hd & Hi & Hp). destruct (Hk a k Hk0 Hp). split; [done|].
      destruct (fds_inode (fds s' !! lock_fd_ k) (fds s !! lock_fd_ k) ino (eq_sym (R6 _))) as (d' & ? & ?); [by exists d|].
      by exists k, d'.
  - intros p a. rewrite R5, list_elem_of_filter, (lo_process s L). split.
    + intros [Hne (k & Hk0 & H)]. exists k. by rewrite R1.
    + intros (k & Hk0 & Hp). destruct (Hk a k Hk0); [by rewrite Hp|]. split; [done|]. by exists k.
  - destruct (lo_nodup s L) as [N1 N2]. split; intros ?; [rewrite R3|rewrite R5]; by apply list.NoDup_filter.
  - intros a k Hk0 Hp. destruct (Hk a k Hk0 Hp) as [_ Hk1]. destruct (lo_wf s L a k Hk1 Hp) as [Hw (d & ino & Hd & Hi)].
    split; [done|]. destruct (fds_inode (fds s !! lock_fd_ k) (fds s' !! lock_fd_ k) ino (R6 _)) as (d' & ? & ?); [by exists d|].
    by exists d', ino.
  - intros ino. rewrite R4. apply (sorted_filter (compatible s)); [|apply (lo_excl s L)].
    intros a b Ha Hb Hc ka kb. rewrite !R1 by done. apply Hc.
Qed.

Lemma removed_same s s1 s' l : removed s s1 l -> same_locks s1 s' -> removed s s' l.
Proof.
  intros [R1 R2 R3 R4 R5 R6] [S0 S1 S2 S3 S4 S5]. split; intros *; rewrite ?S1, ?S2, ?S3, ?S4, ?S5; auto.
Qed.

(** The state once the lock is out of the lists, and the end of remove_lock. *)
Definition unlisted (s : files) (l f ino p : Z) : files :=
  set_lists s (remove_from f l (fd_locks s)) (remove_from ino l (inode_locks s)) (remove_from p l (process_locks s)).

Definition finish_remove (s : files) (ino l : Z) : files :=
  let s := match list_of (inode_locks s) ino with [] => inode_close_pending s ino true | _ :: _ => s end in
  let s := set_lock_table s (alter (fun k => mk_lock (lock_fd_ k) (shared k) (start k) (end_ k) None) l (lock_table s)) in
  release_lock (wake_up s l) l.

Lemma same_locks_close s ino b : same_locks s (inode_close_pending s ino b).
Proof. unfold inode_close_pending. destruct (close_pending _ _). by split. Qed.

Lemma release_lock_fields s l :
  let s' := release_lock s l in
  (lock_table s' = lock_table s \/ lock_table s' = delete l (lock_table s)) /\ fds s' = fds s /\
  fd_locks s' = fd_locks s /\ inode_locks s' = inode_locks s /\ process_locks s' = process_locks s /\ calls s' = calls s.
Proof.
  unfold release_lock. destruct (objects (release_object (objs s) l) !! l); cbn; split; try done; [by left|by right].
Qed.

Section remove_lock.
Context (s : files) (l f ino p : Z) (lock : file_lock) (d : fd).
Context (L : locks_ok s) (Hl : lock_table s !! l = Some lock) (Hf : lock_fd_ lock = f) (Hd : fds s !! f = Some d).
Context (Hi : inode d = Some ino) (Hp : lock_process lock = Some p).

Lemma unlisted_lists :
  (forall g, list_of (fd_locks (unlisted s l f ino p)) g = filter (fun x => x <> l) (list_of (fd_locks s) g)) /\
  (forall i, list_of (inode_locks (unlisted s l f ino p)) i = filter (fun x => x <> l) (list_of (inode_locks s) i)) /\
  (forall q, list_of (process_locks (unlisted s l f ino p)) q = filter (fun x => x <> l) (list_of (process_locks s) q)).
Proof using L Hl Hf Hd Hi Hp.
  unfold unlisted. cbn. split; [|split]; intros k; apply list_of_remove; intros Hne.
  - rewrite (lo_fd s L). intros (k' & Hk & E & _). congruence.
  - rewrite (lo_inode s L). intros (k' & d' & Hk & Hd' & Hi' & _). congruence.
  - rewrite (lo_process s L). intros (k' & Hk & E). congruence.
Qed.

Lemma unlisted_wf i : Forall lock_wf (locks_of (unlisted s l f ino p) i).
Proof using L Hl Hf Hd Hi Hp.
  apply list.Forall_forall. intros k Hk. unfold locks_of in Hk. apply list_elem_of_omap in Hk as (a & Ha & Hk).
  destruct unlisted_lists as (_ & E & _). rewrite E in Ha. apply list_elem_of_filter in Ha as [_ Ha].
  apply (proj1 (list.Forall_forall _ _) (locks_of_wf s i L)). apply list_elem_of_omap. by exists a.
Qed.

Lemma finish_removed s2 : same_locks (unlisted s l f ino p) s2 -> removed s (finish_remove s2 ino l) l.
Proof using L Hl Hf Hd Hi Hp.
  intros H. unfold finish_remove.
  set (s3 := match list_of (inode_locks s2) ino with [] => inode_close_pending s2 ino true | _ :: _ => s2 end).
  assert (same_locks (unlisted s l f ino p) s3) as [_ Et Ef Ei Ep Ed].
  { unfold s3. destruct (list_of _ _); [etransitivity; [exact H|apply same_locks_close]|done]. }
  cbn zeta. set (s4 := wake_up _ l).
  destruct (release_lock_fields s4 l) as (Ht & E1 & E2 & E3 & E4 & _). destruct unlisted_lists as (U1 & U2 & U3).
  assert (Ht4 : lock_table s4 = alter (fun k => mk_lock (lock_fd_ k) (shared k) (start k) (end_ k) None) l (lock_table s))
    by (by unfold s4; cbn; rewrite Et).
  split.
  - intros a Ha. destruct Ht as [->| ->]; rewrite Ht4; [by rewrite lookup_alter_ne|].
    by rewrite lookup_delete_ne, lookup_alter_ne.
  - intros k. destruct Ht as [->| ->]; [|by rewrite lookup_delete_eq]. rewrite Ht4, lookup_alter_eq, Hl.
    by intros [= <-].
  - intros g. rewrite E2. cbn. by rewrite Ef, U1.
  - intros g. rewrite E3. cbn. by rewrite Ei, U2.
  - intros g. rewrite E4. cbn. by rewrite Ep, U3.
  - intros g. rewrite E1. cbn. by rewrite Ed.
Qed.

Lemma remove_lock_run (ru : bool) e s2 e2 :
  (if ru then remove_unix_locks (unlisted s l f ino p) f (start lock) (end_ lock) else ret (Some (unlisted s l f ino p))) e
    = (Some s2, e2) ->
  remove_lock s l ru e = (Some (finish_remove s2 ino l), e2).
Proof using Hl Hf Hd Hi Hp.
  intros E. unfold remove_lock. rewrite Hl, Hf, Hd, Hp, Hi. by rewrite (bind_run _ _ _ _ _ E).
Qed.
End remove_lock.

(** remove_lock always returns and removes exactly the lock. *)
Lemma remove_lock_total s l lock ru e :
  locks_ok s -> lock_table s !! l = Some lock -> is_Some (lock_process lock) ->
  exists s' e', remove_lock s l ru e = (Some s', e') /\ removed s s' l.
Proof.
  intros L Hl [p Hp]. destruct (lo_wf s L l lock Hl ltac:(by exists p)) as [Hw (d & ino & Hd & Hi)].
  set (f := lock_fd_ lock) in *.
  assert (exists s2 e2, (if ru then remove_unix_locks (unlisted s l f ino p) f (start lock) (end_ lock)
      else ret (Some (unlisted s l f ino p))) e = (Some s2, e2) /\ same_locks (unlisted s l f ino p) s2)
    as (s2 & e2 & E & H).
  { destruct ru; [|by eexists _, _]. apply remove_unix_locks_total; [by exists d| |exact Hw].
    intros i. by apply (unlisted_wf s l f ino p lock d). }
  exists (finish_remove s2 ino l), e2. split; [by eapply remove_lock_run|]. by eapply finish_removed.
Qed.

(** ** The operations *)

Lemma in_process_list s p a : locks_ok s -> a ∈ list_of (process_locks s) p ->
  exists k, lock_table s !! a = Some k /\ is_Some (lock_process k).
Proof. intros L H. apply (lo_process s L) in H as (k & Hk & Hp). exists k. split; [done|by exists p]. Qed.

Lemma in_fd_list s f a : locks_ok s -> a ∈ list_of (fd_locks s) f ->
  exists k, lock_table s !! a = Some k /\ is_Some (lock_process k).
Proof. intros L H. apply (lo_fd s L) in H as (k & Hk & _ & Hp). by exists k. Qed.

Lemma remove_process_locks_loop_total p fuel : forall s e,
  locks_ok s -> (length (list_of (process_locks s) p) < fuel)%nat ->
  exists s' e', remove_process_locks_loop fuel s p e = (Some s', e') /\ locks_ok s' /\ list_of (process_locks s') p = [].
Proof.
  induction fuel as [|fuel IH]; intros s e L Hf; [lia|]. cbn [remove_process_locks_loop].
  destruct (list_of (process_locks s) p) as [|l rest] eqn:El; [by eexists _, _|].
  destruct (in_process_list s p l L) as (k & Hk & Hp); [rewrite El; left|].
  destruct (remove_lock_total s l k true e L Hk Hp) as (s1 & e1 & E & R). rewrite (bind_run _ _ _ _ _ E).
  apply IH; [by apply (removed_ok s _ l)|]. rewrite (rm_process _ _ _ R), El, filter_cons, decide_False by auto.
  pose proof (list.length_filter (fun x => x <> l) rest). cbn in Hf. lia.
Qed.

Lemma removed_has_fd s s' l f : removed s s' l -> is_Some (fds s !! f) -> is_Some (fds s' !! f).
Proof.
  intros H [d Hd]. pose proof (rm_fds s s' l H f) as E. rewrite Hd in E. destruct (fds s' !! f); [by eexists|done].
Qed.

Lemma remove_fd_locks_loop_total f fuel : forall s st en e,
  locks_ok s -> (length (list_of (fd_locks s) f) < fuel)%nat -> is_Some (fds s !! f) ->
  0 <= st < 2 ^ 64 -> 0 <= en < 2 ^ 64 ->
  exists s' st' en' e', remove_fd_locks_loop fuel s f st en e = (Some (s', st', en'), e') /\ locks_ok s' /\
    list_of (fd_locks s') f = [] /\ is_Some (fds s' !! f) /\ 0 <= st' < 2 ^ 64 /\ 0 <= en' < 2 ^ 64.
Proof.
  induction fuel as [|fuel IH]; intros s st en e L Hf Hd Hst Hen; [lia|]. cbn [remove_fd_locks_loop].
  destruct (list_of (fd_locks s) f) as [|l rest] eqn:El; [by eexists _, _, _, _|].
  destruct (in_fd_list s f l L) as (k & Hk & Hp); [rewrite El; left|]. rewrite Hk.
  destruct (lo_wf s L l k Hk Hp) as [(W1 & W2 & W3) _].
  destruct (remove_lock_total s l k false e L Hk Hp) as (s1 & e1 & E & R). rewrite (bind_run _ _ _ _ _ E).
  apply IH; [by apply (removed_ok s _ l)| |by apply (removed_has_fd s _ l)|destruct (_ <? _); lia|].
  - rewrite (rm_fd _ _ _ R), El, filter_cons, decide_False by auto.
    pose proof (list.length_filter (fun x => x <> l) rest). cbn in Hf. lia.
  - destruct (_ || _); [|lia]. unfold u64. apply Z.mod_pos_bound. lia.
Qed.

Lemma remove_process_locks_total s p e :
  locks_ok s -> exists s' e', remove_process_locks s p e = (Some s', e') /\ locks_ok s' /\ list_of (process_locks s') p = [].
Proof. intros L. apply remove_process_locks_loop_total; [done|lia]. Qed.

Lemma remove_fd_locks_total s f e :
  locks_ok s -> is_Some (fds s !! f) ->
  exists s' e', remove_fd_locks s f e = (Some s', e') /\ locks_ok s' /\ list_of (fd_locks s') f = [].
Proof.
  intros L Hd. unfold remove_fd_locks.
  destruct (remove_fd_locks_loop_total f (S (length (list_of (fd_locks s) f))) s FILE_POS_T_MAX 0 e L)
    as (s1 & st & en & e1 & E & L1 & El & Hd1 & Hst & Hen); [lia|done|unfold FILE_POS_T_MAX; lia|lia|].
  rewrite (bind_run _ _ _ _ _ E). destruct (Z.ltb_spec st en) as [Hlt|]; [|by eexists _, _].
  destruct (remove_unix_locks_total s1 f st (u64 (en + 1)) Hd1) with (e := e1) as (s2 & e2 & E2 & H2).
  - intros ino. by apply locks_of_wf.
  - unfold u64. split; [done|]. destruct (Z.eq_dec en (2 ^ 64 - 1)) as [->|]; [split; [done|by left]|].
    rewrite Z.mod_small by lia. lia.
  - exists s2, e2. split; [done|]. split; [by apply (same_locks_ok s1)|]. by rewrite (sl_fd _ _ H2).
Qed.

(** The search for a conflict. *)
Definition no_conflict (s : files) (f : Z) (sh : bool) (st en : Z) (a : Z) : Prop :=
  forall k, lock_table s !! a = Some k -> lock_overlaps k st en = true -> sh = true /\ (shared k = true \/ lock_fd_ k = f).

Lemma find_conflict_spec s f sh st en l :
  match find_conflict s f sh st en l with
  | None => Forall (no_conflict s f sh st en) l
  | Some a => exists l1 l2, l = l1 ++ a :: l2 /\ Forall (no_conflict s f sh st en) l1 /\ ~ no_conflict s f sh st en a
  end.
Proof.
  assert (Hstep : forall b l, no_conflict s f sh st en b ->
    match find_conflict s f sh st en l with
    | None => Forall (no_conflict s f sh st en) l
    | Some a => exists l1 l2, l = l1 ++ a :: l2 /\ Forall (no_conflict s f sh st en) l1 /\ ~ no_conflict s f sh st en a
    end ->
    match find_conflict s f sh st en l with
    | None => Forall (no_conflict s f sh st en) (b :: l)
    | Some a => exists l1 l2, b :: l = l1 ++ a :: l2 /\ Forall (no_conflict s f sh st en) l1 /\ ~ no_conflict s f sh st en a
    end).
  { intros b l0 Hb. destruct (find_conflict _ _ _ _ _ l0) as [a|]; [|by constructor].
    intros (l1 & l2 & -> & H1 & H2). exists (b :: l1), l2. split; [done|]. split; [by constructor|done]. }
  induction l as [|b l IH]; cbn [find_conflict]; [constructor|].
  destruct (lock_table s !! b) as [k|] eqn:Hk; [|apply Hstep; [intros k Hk'; congruence|done]].
  destruct (lock_overlaps k st en) eqn:Ho; cbn [negb].
  2: { apply Hstep; [|done]. intros k' Hk' Ho'. rewrite Hk in Hk'. injection Hk' as <-. congruence. }
  destruct (sh && (shared k || (lock_fd_ k =? f))) eqn:Ec.
  - apply Hstep; [|done]. intros k' Hk' _. rewrite Hk in Hk'. injection Hk' as <-.
    rewrite andb_true_iff, orb_true_iff, Z.eqb_eq in Ec. done.
  - exists [], l. split; [done|]. split; [constructor|]. intros Hn. specialize (Hn k Hk Ho).
    rewrite <-Z.eqb_eq, <-orb_true_iff, <-andb_true_iff in Hn. congruence.
Qed.

(** A new lock at the end of the three lists. *)
Record added (s s' : files) (addr ino p : Z) (lock : file_lock) : Prop := {
  ad_table : lock_table s' = <[addr := lock]> (lock_table s);
  ad_fd : fd_locks s' = add_tail (lock_fd_ lock) addr (fd_locks s);
  ad_inode : inode_locks s' = add_tail ino addr (inode_locks s);
  ad_process : process_locks s' = add_tail p addr (process_locks s);
  ad_fds : forall f, inode <$> fds s' !! f = inode <$> fds s !! f
}.

Lemma elem_of_added (m : gmap Z (list Z)) k l k' a : a ∈ list_of (add_tail k l m) k' <-> a ∈ list_of m k' \/ (k' = k /\ a = l).
Proof.
  rewrite list_of_add. case_decide as E; [subst; rewrite elem_of_app, list_elem_of_singleton; tauto|].
  split; [by left|]. by intros [H|[-> _]].
Qed.

Lemma nodup_added (m : gmap Z (list Z)) k l k' : l ∉ list_of m k' -> NoDup (list_of m k') -> NoDup (list_of (add_tail k l m) k').
Proof.
  intros Hn H. rewrite list_of_add. case_decide; [|done]. apply list.NoDup_app. split; [done|].
  split; [|apply NoDup_singleton]. intros x Hx ->%list_elem_of_singleton. done.
Qed.

Lemma sorted_snoc {A} (R : A -> A -> Prop) l x : StronglySorted R l -> Forall (fun a => R a x) l -> StronglySorted R (l ++ [x]).
Proof.
  induction 1 as [|a l Hs IH Ha]; cbn; [repeat constructor|]. intros [Hx Hl]%list.Forall_cons.
  constructor; [by apply IH|]. apply list.Forall_app. by split; [|constructor].
Qed.

Section added.
Context (s s' : files) (addr ino p : Z) (lock : file_lock) (d : fd).
Context (L : locks_ok s) (A : added s s' addr ino p lock).
Context (Hfresh : lock_table s !! addr = None) (Hw : lock_wf lock) (Hp : lock_process lock = Some p).
Context (Hd : fds s !! lock_fd_ lock = Some d) (Hi : inode d = Some ino).

Lemma fresh_unlisted :
  (forall f, addr ∉ list_of (fd_locks s) f) /\ (forall i, addr ∉ list_of (inode_locks s) i) /\
  (forall q, addr ∉ list_of (process_locks s) q).
Proof using L Hfresh.
  split; [|split]; intros k; [rewrite (lo_fd s L)|rewrite (lo_inode s L)|rewrite (lo_process s L)].
  - intros (k' & Hk & _). congruence.
  - intros (k' & d' & Hk & _). congruence.
  - intros (k' & Hk & _). congruence.
Qed.

(** A lock of the new state is the new one or an old one. *)
Lemma added_table (P : file_lock -> Prop) a :
  (exists k, lock_table s' !! a = Some k /\ P k) <-> (exists k, lock_table s !! a = Some k /\ P k) \/ (a = addr /\ P lock).
Proof using A Hfresh.
  rewrite (ad_table _ _ _ _ _ _ A). destruct (decide (a = addr)) as [->|Hne].
  - rewrite lookup_insert_eq, Hfresh. split; [intros (k & [= <-] & H); by right|].
    intros [(k & ? & _)|[_ H]]; [done|by exists lock].
  - rewrite lookup_insert_ne by done. split; [by left|]. by intros [?|[-> _]].
Qed.

Lemma added_inode f i :
  (exists d, fds s' !! f = Some d /\ inode d = Some i) <-> (exists d, fds s !! f = Some d /\ inode d = Some i).
Proof using A.
  split; apply fds_inode; [symmetry|]; apply (ad_fds _ _ _ _ _ _ A).
Qed.

Lemma added_ok :
  Forall (no_conflict s (lock_fd_ lock) (shared lock) (start lock) (end_ lock)) (list_of (inode_locks s) ino) -> locks_ok s'.
Proof using L A Hfresh Hw Hp Hd Hi.
  intros Hnc. destruct fresh_unlisted as (F1 & F2 & F3). split.
  - intros f a. rewrite (ad_fd _ _ _ _ _ _ A), elem_of_added, (lo_fd s L), (added_table (fun k => _ k = f /\ _)).
    rewrite Hp. assert (is_Some (Some p)) by by eexists. intuition congruence.
  - intros i a. rewrite (ad_inode _ _ _ _ _ _ A), elem_of_added, (lo_inode s L).
    assert (E : forall t (g : gmap Z fd), (exists k d, t = Some k /\ g !! lock_fd_ k = Some d /\ inode d = Some i /\ is_Some (lock_process k)) <->
      exists k, t = Some k /\ ((exists d, g !! lock_fd_ k = Some d /\ inode d = Some i) /\ is_Some (lock_process k))).
    { intros t g. split; [intros (k & d0 & ? & ? & ? & ?); exists k; split; [done|split; [by exists d0|done]]|].
      intros (k & ? & (d0 & ? & ?) & ?). by exists k, d0. }
    rewrite !E, (added_table (fun k => (exists d, fds s' !! lock_fd_ k = Some d /\ _) /\ _)).
    setoid_rewrite added_inode. rewrite Hp. assert (is_Some (Some p)) by by eexists.
    assert ((exists d0, fds s !! lock_fd_ lock = Some d0 /\ inode d0 = Some i) <-> i = ino).
    { split; [intros (d0 & ? & ?); congruence|]. intros ->. by exists d. }
    intuition congruence.
  - intros q a. rewrite (ad_process _ _ _ _ _ _ A), elem_of_added, (lo_process s L), (added_table (fun k => _ k = Some q)), Hp.
    intuition congruence.
  - destruct (lo_nodup s L) as [N1 N2].
    split; intros k; [rewrite (ad_fd _ _ _ _ _ _ A)|rewrite (ad_process _ _ _ _ _ _ A)]; by apply nodup_added.
  - intros a k Hk Hpk. destruct (proj1 (added_table (fun k' => k' = k) a)) as [(k' & Hk' & ->)|[-> E]]; [by exists k| |].
    + destruct (lo_wf s L a k Hk' Hpk) as [W (d' & i & Hd' & Hi')]. split; [done|].
      destruct (proj2 (added_inode (lock_fd_ k) i)) as (d2 & ? & ?); [by exists d'|]. by exists d2, i.
    + rewrite <-E. split; [done|]. destruct (proj2 (added_inode (lock_fd_ lock) ino)) as (d2 & ? & ?); [by exists d|].
      by exists d2, ino.
  - intros i. rewrite (ad_inode _ _ _ _ _ _ A), list_of_add.
    assert (Hs : StronglySorted (compatible s') (list_of (inode_locks s) i)).
    { rewrite <-(filter_ne_id addr) by apply F2. apply (sorted_filter (compatible s)); [|apply (lo_excl s L)].
      intros a b Ha Hb Hc ka kb. rewrite (ad_table _ _ _ _ _ _ A), !lookup_insert_ne by done. apply Hc. }
    case_decide as E; [subst i|done]. apply sorted_snoc; [done|].
    apply list.Forall_forall. intros a Ha ka kb. assert (a <> addr) by (intros ->; by apply (F2 ino)).
    rewrite (ad_table _ _ _ _ _ _ A), lookup_insert_eq, lookup_insert_ne by done. intros Hka [= <-].
    rewrite list.Forall_forall in Hnc. by apply (Hnc a Ha ka Hka).
Qed.
End added.

(** ** Requests *)

Section requests.
Context (file_lock_ops : Z) (ops_table : Z -> object_ops) (current : current_t).
Context (check_object_access : option Z -> Z -> Z -> M (option Z)).

Lemma delete_fresh_lock s addr w lock :
  lock_table s !! addr = None -> objects w !! addr = Some (mk_obj file_lock_ops 1 0) -> forall s1,
  same_locks (set_lock_table (set_objs s w) (<[addr := lock]> (lock_table s))) s1 ->
  let s2 := release_lock s1 addr in
  lock_table s2 = lock_table s /\ fd_locks s2 = fd_locks s /\ inode_locks s2 = inode_locks s /\
  process_locks s2 = process_locks s /\ forall f, inode <$> fds s2 !! f = inode <$> fds s !! f.
Proof.
  intros Hfresh Hw s1 [So St Sf Si Sp Sd]. cbn zeta.
  assert (objects (release_object w addr) !! addr = None) as E
    by (unfold release_object; rewrite Hw; apply lookup_delete_eq).
  unfold release_lock. rewrite So. cbn [objs set_objs set_lock_table]. rewrite E.
  split; [|done]. change (delete addr (lock_table s1) = lock_table s). rewrite St. by apply delete_insert_id.
Qed.

(** The outcomes of add_lock: a new lock, or none and the same locks. *)
Lemma add_lock_total s addr f d ino sh st en e :
  locks_ok s -> lock_table s !! addr = None -> fds s !! f = Some d -> inode d = Some ino ->
  exists s' r e', add_lock file_lock_ops current s addr f sh st en e = (Some (s', r), e') /\
    match r with
    | Some a => a = addr /\ added s s' addr ino (cur_process current) (mk_lock f sh st en (Some (cur_process current)))
    | None => lock_table s' = lock_table s /\ fd_locks s' = fd_locks s /\ inode_locks s' = inode_locks s /\
        process_locks s' = process_locks s /\ forall g, inode <$> fds s' !! g = inode <$> fds s !! g
    end.
Proof.
  intros L Hfresh Hd Hi. unfold add_lock, alloc_object, bind. cbn. unfold mem_alloc, bind. destruct (malloc e) as [[] e1]; cbn.
  2: by eexists _, None, _.
  rewrite Hd. set (w := set_objects _ _). set (lock := mk_lock _ _ _ _ _). set (s0 := set_lock_table _ _).
  destruct (set_unix_lock_total s0 f st en (if sh then F_RDLCK else F_WRLCK)) with (e := e1) as ([s1 b] & e2 & E & H);
    [by exists d|]. rewrite E. cbn in H. destruct b; cbn.
  - rewrite Hi. eexists _, (Some addr), _. split; [done|]. split; [done|]. destruct H as [_ St Sf Si Sp Sd].
    split; cbn; rewrite ?St, ?Sf, ?Si, ?Sp; try done.
  - eexists _, None, _. split; [done|]. apply (delete_fresh_lock s addr w lock Hfresh); [|done].
    unfold w. cbn. apply lookup_insert_eq.
Qed.
(** The range of a request. *)
Definition valid_range (st count : Z) : Prop := 0 <= st < 2 ^ 64 /\ 0 <= count < 2 ^ 64.

Lemma valid_range_wf st count :
  valid_range st count -> negb (u64 (st + count) =? 0) && (u64 (st + count) <? st) = false -> range_wf st (u64 (st + count)).
Proof.
  intros [H1 H2] E. pose proof (Z.mod_pos_bound (st + count) (2 ^ 64) eq_refl). unfold u64 in *. split; [done|]. split; [done|].
  destruct (Z.eqb_spec ((st + count) mod 2 ^ 64) 0); [by left|right]. cbn in E. by apply Z.ltb_ge in E.
Qed.

(** What a handle to a lock asks for is mapped to itself, and granted as it is. *)
Definition plain_access (ops_table : Z -> object_ops) (check_object_access : option Z -> Z -> Z -> M (option Z)) : Prop :=
  (forall ty o, map_access_op (ops_table ty) o SYNCHRONIZE = SYNCHRONIZE) /\
  forall o e r e', check_object_access None o SYNCHRONIZE e = (Some r, e') -> r = SYNCHRONIZE.

Lemma alloc_lock_handle w proc l attr e : plain_access ops_table check_object_access ->
  exists x e', alloc_handle ops_table check_object_access w proc l SYNCHRONIZE attr e = (Some x, e').
Proof.
  intros [Hm Hg]. unfold alloc_handle, methods. assert (map_access_op (match objects w !! l with Some o => ops_table (Handles.ops o) | None => mk_ops (fun _ a => a) (fun _ _ _ => true) end) l SYNCHRONIZE = SYNCHRONIZE) as ->
    by (by destruct (objects w !! l)).
  change (Z.land SYNCHRONIZE (not32 RESERVED_ALL)) with SYNCHRONIZE. change (SYNCHRONIZE =? 0) with false. cbn iota. unfold bind at 1.
  destruct (check_object_access None l SYNCHRONIZE e) as [[r|] e1] eqn:E; [|by eexists _, _]. rewrite (Hg _ _ _ _ E). unfold alloc_handle_entry.
  change (has_bits SYNCHRONIZE RESERVED_ALL) with false. cbn iota. destruct (handles w !! proc); [|by eexists _, _]. unfold bind. destruct (alloc_entry _ _ _ _ e1) as [x e2]. by eexists _, _.
Qed.

Lemma lock_fd_ok s addr f st count sh wait e s' h e' :
  locks_ok s -> lock_table s !! addr = None -> valid_range st count ->
  lock_fd file_lock_ops ops_table current check_object_access s addr f st count sh wait e = (Some (s', h), e') -> locks_ok s'.
Proof.
  intros L Hfresh Hr. unfold lock_fd. destruct (fds s !! f) as [d|] eqn:Hd; [|done]. destruct (inode d) as [ino|] eqn:Hi; [|by intros [= <- _ _]].
  destruct (negb _ && _) eqn:Ew; [by intros [= <- _ _]|]. apply valid_range_wf in Ew; [|done].
  pose proof (find_conflict_spec s f sh st (u64 (st + count)) (list_of (inode_locks s) ino)) as Hc.
  destruct (find_conflict _ _ _ _ _ _) as [l|].
  - destruct wait; cbn [negb]; [|by intros [= <- _ _]]. unfold bind. cbn.
    destruct (alloc_handle _ _ _ _ _ _ _ _) as [[[h1 w]|] e2]; [|done]. intros [= <- _ _]. by apply locks_ok_objs.
  - destruct (add_lock_total s addr f d ino sh st (u64 (st + count)) e L Hfresh Hd Hi) as (s1 & r & e1 & E & H).
    rewrite (bind_run _ _ _ _ _ E). destruct r as [a|].
    + destruct H as [-> A]. intros [= <- _ _]. by apply (added_ok s s1 addr ino _ _ d L A).
    + destruct H as (? & ? & ? & ? & ?). unfold bind, get_error. destruct (_ && _); intros [= <- _ _]; by apply (locks_ok_ext s).
Qed.

Lemma lock_fd_total s addr f st count sh wait e : plain_access ops_table check_object_access ->
  locks_ok s -> is_Some (fds s !! f) -> lock_table s !! addr = None -> valid_range st count ->
  exists s' h e', lock_fd file_lock_ops ops_table current check_object_access s addr f st count sh wait e = (Some (s', h), e') /\
    locks_ok s'.
Proof.
  intros Hpl L [d Hd] Hfresh Hr. unfold lock_fd. rewrite Hd. destruct (inode d) as [ino|] eqn:Hi; [|by eexists _, _, _].
  destruct (negb _ && _) eqn:Ew; [by eexists _, _, _|]. apply valid_range_wf in Ew; [|done].
  pose proof (find_conflict_spec s f sh st (u64 (st + count)) (list_of (inode_locks s) ino)) as Hc.
  destruct (find_conflict _ _ _ _ _ _) as [l|].
  - destruct wait; cbn [negb]; [|by eexists _, _, _]. unfold bind. cbn.
    destruct (alloc_lock_handle (objs s) (cur_process current) l 0 (mk_senv STATUS_PENDING (allocs e)) Hpl) as ([h w] & e2 & ->). eexists _, _, _. split; [done|]. by apply locks_ok_objs.
  - destruct (add_lock_total s addr f d ino sh st (u64 (st + count)) e L Hfresh Hd Hi) as (s1 & r & e1 & E & H).
    rewrite (bind_run _ _ _ _ _ E). destruct r as [a|].
    + destruct H as [-> A]. eexists _, _, _. split; [done|]. by apply (added_ok s s1 addr ino _ _ d L A).
    + destruct H as (? & ? & ? & ? & ?). unfold bind, get_error. destruct (_ && _); eexists _, _, _; (split; [done|]);
        by apply (locks_ok_ext s).
Qed.

Lemma find_exact_spec s st en l :
  match find_exact s st en l with
  | None => Forall (fun a => forall k, lock_table s !! a = Some k -> ~ (start k = st /\ end_ k = en)) l
  | Some a => a ∈ l /\ exists k, lock_table s !! a = Some k /\ start k = st /\ end_ k = en
  end.
Proof.
  induction l as [|b l IH]; cbn [find_exact]; [constructor|].
  destruct (lock_table s !! b) as [k|] eqn:Hk; [destruct ((start k =? st) && (end_ k =? en)) eqn:E|].
  - rewrite andb_true_iff, !Z.eqb_eq in E. split; [left|by exists k].
  - destruct (find_exact s st en l); [destruct IH; split; [by right|done]|]. constructor; [|done].
    intros k' Hk'. rewrite Hk in Hk'. injection Hk' as <-. rewrite <-!Z.eqb_eq, <-andb_true_iff, E. done.
  - destruct (find_exact s st en l); [destruct IH; split; [by right|done]|]. constructor; [|done]. intros k' Hk'. congruence.
Qed.

Lemma unlock_fd_total s f st count e :
  locks_ok s -> exists s' e', unlock_fd s f st count e = (Some s', e') /\ locks_ok s'.
Proof.
  intros L. unfold unlock_fd. pose proof (find_exact_spec s st (u64 (st + count)) (list_of (fd_locks s) f)) as H.
  destruct (find_exact _ _ _ _) as [l|]; [|by eexists _, _]. destruct H as [Hin (k & Hk & _)].
  destruct (in_fd_list s f l L Hin) as (k' & Hk' & Hp).
  destruct (remove_lock_total s l k' true e L Hk' Hp) as (s1 & e1 & E & R).
  exists s1, e1. split; [done|]. by apply (removed_ok s _ l).
Qed.

End requests.

(** ** Reachable states *)

Section reachable.
Context (file_lock_ops : Z) (ops_table : Z -> object_ops).
Context (check_object_access : option Z -> Z -> Z -> M (option Z)).

(** One operation on locks, made by any thread, whatever the allocator and the
    kernel answer. *)
Inductive lock_step (s : files) : files -> Prop :=
  | Step_lock current addr f st count sh wait e s' h e' :
      is_Some (fds s !! f) -> lock_table s !! addr = None -> valid_range st count ->
      lock_fd file_lock_ops ops_table current check_object_access s addr f st count sh wait e = (Some (s', h), e') ->
      lock_step s s'
  | Step_unlock f st count e s' e' : unlock_fd s f st count e = (Some s', e') -> lock_step s s'
  | Step_exit p e s' e' : remove_process_locks s p e = (Some s', e') -> lock_step s s'
  | Step_close f e s' e' : is_Some (fds s !! f) -> remove_fd_locks s f e = (Some s', e') -> lock_step s s'.

(** A state without locks. *)
Definition no_locks (s : files) : Prop :=
  lock_table s = ∅ /\ fd_locks s = ∅ /\ inode_locks s = ∅ /\ process_locks s = ∅.

Lemma no_locks_ok s : no_locks s -> locks_ok s.
Proof.
  intros (Ht & Hf & Hi & Hp).
  split; rewrite ?Ht, ?Hf, ?Hi, ?Hp; cbn; try done; try (intros ? ?; split; [by intros ?%not_elem_of_nil|]).
  - by intros (? & ? & _).
  - by intros (? & ? & ? & _).
  - by intros (? & ? & _).
  - split; intros; constructor.
  - constructor.
Qed.

Lemma lock_step_ok s s' : lock_step s s' -> locks_ok s -> locks_ok s'.
Proof.
  intros H L. destruct H as [current addr f st count sh wait e s' h e' Hd Ha Hr E|f st count e s' e' E|p e s' e' E|f e s' e' Hd E].
  - by eapply lock_fd_ok.
  - destruct (unlock_fd_total s f st count e L) as (? & ? & E' & ?). congruence.
  - destruct (remove_process_locks_total s p e L) as (? & ? & E' & ? & _). congruence.
  - destruct (remove_fd_locks_total s f e L Hd) as (? & ? & E' & ? & _). congruence.
Qed.

Lemma reachable_locks_ok s0 s : no_locks s0 -> rtc lock_step s0 s -> locks_ok s.
Proof.
  intros H0%no_locks_ok H. revert H0. induction H as [|s0 s1 s2 H _ IH]; [done|]. intros L. by apply IH, (lock_step_ok s0).
Qed.
End reachable.
