(* ===== verification/FileLockClaims.v ===== *)
(** * What file locks guarantee: server/fd.c

    Mutual exclusion in every reachable state, the behaviour of the lock and
    unlock operations, and the Unix locks that closing a file leaves behind. *)

From Stdlib Require Import ZArith Lia Sorted.
From stdpp Require Import base list numbers option gmap sorting.
From S2P Require Import Prelude Handles FileLocks FileLockHoles FileLockTheorems.

#[local] Open Scope Z_scope.

(** ** Mutual exclusion *)

Lemma sorted_pair {A} (R : A -> A -> Prop) l a b :
  StronglySorted R l -> a ∈ l -> b ∈ l -> a <> b -> R a b \/ R b a.
Proof.
  induction 1 as [|x l Hs IH Hx]; intros Ha Hb Hne; [by apply not_elem_of_nil in Ha|].
  rewrite list.Forall_forall in Hx.
  apply elem_of_cons in Ha as [->|Ha]; apply elem_of_cons in Hb as [->|Hb]; [done|left|right|]; auto.
Qed.

Lemma covers_overlap ka kb x : covers ka x -> covers kb x -> lock_overlaps ka (start kb) (end_ kb) = true.
Proof.
  intros Ha [_ Hb]. pose proof (covers_touches ka _ _ x Hb Ha) as H. unfold touches in H. by apply andb_true_iff in H as [_ H].
Qed.

(** C10: in every state reachable by locking, unlocking, closing and process exit,
    whatever memory and the kernel do: two locks of a file that cover a common byte
    are never both exclusive, and are both shared unless they were made through the
    same fd; and every further operation runs to completion, where the right to wait
    for a lock is mapped to itself and granted as it is. *)
Theorem file_locks_exclusive file_lock_ops ops_table check_object_access s0 s :
  no_locks s0 -> rtc (lock_step file_lock_ops ops_table check_object_access) s0 s ->
  (forall ino a b ka kb x,
     a ∈ list_of (inode_locks s) ino -> b ∈ list_of (inode_locks s) ino -> a <> b ->
     lock_table s !! a = Some ka -> lock_table s !! b = Some kb -> covers ka x -> covers kb x ->
     (shared ka = true \/ shared kb = true) /\
     (lock_fd_ ka <> lock_fd_ kb -> shared ka = true /\ shared kb = true)) /\
  (forall current addr f st count sh wait e,
     is_Some (fds s !! f) -> lock_table s !! addr = None -> valid_range st count ->
     plain_access ops_table check_object_access ->
     exists r e', lock_fd file_lock_ops ops_table current check_object_access s addr f st count sh wait e = (Some r, e')) /\
  (forall f st count e, exists s' e', unlock_fd s f st count e = (Some s', e')) /\
  (forall p e, exists s' e', remove_process_locks s p e = (Some s', e') /\ list_of (process_locks s') p = []) /\
  (forall f e, is_Some (fds s !! f) ->
     exists s' e', remove_fd_locks s f e = (Some s', e') /\ list_of (fd_locks s') f = []).
Proof.
  intros H0 H. pose proof (reachable_locks_ok _ _ _ s0 s H0 H) as L. split; [|split; [|split; [|split]]].
  - intros ino a b ka kb x Ha Hb Hne Hka Hkb Ca Cb.
    destruct (sorted_pair _ _ a b (lo_excl s L ino) Ha Hb Hne) as [R|R].
    + destruct (R ka kb Hka Hkb (covers_overlap _ _ x Ca Cb)) as [? [?|?]]; (split; [by right|]); intros ?; (done || congruence).
    + destruct (R kb ka Hkb Hka (covers_overlap _ _ x Cb Ca)) as [? [?|?]]; (split; [by left|]); intros ?; (done || congruence).
  - intros current addr f st count sh wait e Hd Ha Hr Hp.
    destruct (lock_fd_total file_lock_ops ops_table current check_object_access s addr f st count sh wait e Hp L Hd Ha Hr)
      as (s' & h & e' & E & _). by exists (s', h), e'.
  - intros f st count e. destruct (unlock_fd_total s f st count e L) as (s' & e' & E & _). by exists s', e'.
  - intros p e. destruct (remove_process_locks_total s p e L) as (s' & e' & E & _ & Hl). by exists s', e'.
  - intros f e Hd. destruct (remove_fd_locks_total s f e L Hd) as (s' & e' & E & _ & Hl). by exists s', e'.
Qed.

(** Two files open on the same inode 7. *)
Definition files0 : files :=
  mk_files (mk_world ∅ [] {[ 1 := mk_ht (Some 1) 32 0 [] ]} None) ∅
    {[ 10 := mk_fd (Some 7) true 110; 11 := mk_fd (Some 7) true 111 ]} ∅ ∅ ∅ ∅ OFF_T_MAX [] [] [].

Definition thread1 : current_t := mk_current 2 1 None None None.

Definition grant_all : option Z -> Z -> Z -> M (option Z) := fun _ _ acc => ret (Some acc).

Definition plain_ops : Z -> object_ops := fun _ => mk_ops (fun _ acc => acc) (fun _ _ _ => true).

Definition run_lock (s : files) (addr f st count : Z) (sh wait : bool) : option (files * Z) * senv :=
  lock_fd 5 plain_ops thread1 grant_all s addr f st count sh wait (mk_senv 0 []).

Definition state_of (r : option (files * Z) * senv) : files := match r with (Some (s, _), _) => s | _ => files0 end.

(** An exclusive lock on byte 5 through fd 10 and one on bytes 100 to 199 through
    fd 11. *)
Definition files1 : files := Eval vm_compute in state_of (run_lock files0 1000 10 5 1 false false).

Definition files2 : files := Eval vm_compute in state_of (run_lock files1 1001 11 100 100 false false).

Lemma step1 : lock_step 5 plain_ops grant_all files0 files1.
Proof.
  apply (Step_lock _ _ _ files0 thread1 1000 10 5 1 false false (mk_senv 0 []) files1 0 (mk_senv 0 []));
    [by eexists|done|unfold valid_range; lia|vm_compute; reflexivity].
Defined.

Lemma step2 : lock_step 5 plain_ops grant_all files1 files2.
Proof.
  apply (Step_lock _ _ _ files1 thread1 1001 11 100 100 false false (mk_senv 0 []) files2 0 (mk_senv 0 []));
    [by eexists|done|unfold valid_range; lia|vm_compute; reflexivity].
Defined.

Lemma file_locks_exclusive_witness :
  list_of (inode_locks files2) 7 = [1000; 1001] /\
  forall p e, exists s' e', remove_process_locks files2 p e = (Some s', e') /\ list_of (process_locks s') p = [].
Proof.
  split; [reflexivity|].
  apply (file_locks_exclusive 5 plain_ops grant_all files0 files2);
    [by repeat split|eapply rtc_l; [exact step1|eapply rtc_l; [exact step2|apply rtc_refl]]].
Defined.

(** ** Locking *)

(** The kernel call for a new lock. *)
Definition lock_call (d : fd) (max st en : Z) (sh : bool) : list unix_call :=
  if negb (fs_locks d) || (st =? en) || (max <? st) then []
  else [Fcntl (unix_fd d) F_SETLK (if sh then F_RDLCK else F_WRLCK) st (if (en =? 0) || (max <? en) then 0 else en - st)].

Lemma set_unix_lock_calls s f d st en ty e :
  fds s !! f = Some d -> answers s = [] ->
  set_unix_lock s f st en ty e =
    (Some (add_calls s (if negb (fs_locks d) || (st =? en) || (max_unix_offset s <? st) then []
                        else [Fcntl (unix_fd d) F_SETLK ty st (if (en =? 0) || (max_unix_offset s <? en) then 0 else en - st)]),
           true), e).
Proof.
  intros Hd Ha. unfold set_unix_lock. rewrite Hd. destruct (fs_locks d); cbn [negb orb]; [|by rewrite add_calls_nil].
  cbn [set_unix_lock_loop]. destruct (st =? en); cbn [orb]; [by rewrite add_calls_nil|].
  destruct (max_unix_offset s <? st); [by rewrite add_calls_nil|]. by rewrite fcntl_ok.
Qed.

(** lock_fd on a file, with memory and a kernel that grants every request: a
    range that wraps around is refused; if no existing lock conflicts, exactly one
    lock with that range is added at the end of the lists and the matching Unix
    lock is requested; otherwise nothing is added and the caller gets a conflict,
    or when it can wait a handle to the first conflicting lock. *)
Theorem lock_fd_correct file_lock_ops ops_table current check_object_access s addr f d ino st count sh wait e :
  fds s !! f = Some d -> inode d = Some ino -> answers s = [] -> allocs e = [] ->
  let en := u64 (st + count) in
  let run := lock_fd file_lock_ops ops_table current check_object_access s addr f st count sh wait e in
  if negb (en =? 0) && (en <? st) then run = (Some (s, 0), mk_senv STATUS_INVALID_PARAMETER [])
  else
    (Forall (no_conflict s f sh st en) (list_of (inode_locks s) ino) /\
     exists s', run = (Some (s', 0), e) /\ calls s' = calls s ++ lock_call d (max_unix_offset s) st en sh /\
       added s s' addr ino (cur_process current) (mk_lock f sh st en (Some (cur_process current)))) \/
    (exists l l1 l2, list_of (inode_locks s) ino = l1 ++ l :: l2 /\ ~ no_conflict s f sh st en l /\
       Forall (no_conflict s f sh st en) l1 /\
       run = if wait then
               let '(x, e') := alloc_handle ops_table check_object_access (objs s) (cur_process current) l SYNCHRONIZE 0
                                      (mk_senv STATUS_PENDING []) in
               ((fun x => (set_objs s (snd x), fst x)) <$> x, e')
             else (Some (s, 0), mk_senv STATUS_FILE_LOCK_CONFLICT [])).
Proof.
  intros Hd Hi Ha Hal en run. unfold run, lock_fd. rewrite Hd, Hi. fold en.
  destruct (negb (en =? 0) && (en <? st)); [cbn; unfold bind, set_error; cbn; by rewrite Hal|].
  pose proof (find_conflict_spec s f sh st en (list_of (inode_locks s) ino)) as Hc.
  destruct (find_conflict _ _ _ _ _ _) as [l|].
  - right. destruct Hc as (l1 & l2 & El & H1 & H2). exists l, l1, l2. do 3 (split; [done|]).
    destruct wait; cbn [negb]; unfold bind, set_error; cbn; rewrite Hal; [|done].
    by destruct (alloc_handle _ _ _ _ _ _ _ _) as [x e'].
  - left. split; [done|]. unfold add_lock, alloc_object, mem_alloc.
    assert (Em : malloc e = (true, e)) by (unfold malloc; by rewrite Hal).
    unfold bind at 1 2 3 4. rewrite Em. cbn [ret]. rewrite Hd.
    set (s1 := set_lock_table _ _).
    assert (E : set_unix_lock s1 f st en (if sh then F_RDLCK else F_WRLCK) e =
      (Some (add_calls s1 (lock_call d (max_unix_offset s) st en sh), true), e))
      by exact (set_unix_lock_calls s1 f d st en _ e Hd Ha).
    rewrite (bind_run _ _ _ _ _ E), Hi. cbn [ret]. eexists. split; [done|]. by split.
Qed.

Lemma lock_fd_correct_witness :
  list_of (inode_locks files1) 7 = [1000] /\
  let run := lock_fd 5 plain_ops thread1 grant_all files1 1001 11 5 10 true false (mk_senv 0 []) in
  run = (Some (files1, 0), mk_senv STATUS_FILE_LOCK_CONFLICT []) /\
  ((Forall (no_conflict files1 11 true 5 15) (list_of (inode_locks files1) 7) /\
    exists s', run = (Some (s', 0), mk_senv 0 []) /\ calls s' = calls files1 ++ lock_call (mk_fd (Some 7) true 111) OFF_T_MAX 5 15 true /\
      added files1 s' 1001 7 1 (mk_lock 11 true 5 15 (Some 1))) \/
   exists l l1 l2, list_of (inode_locks files1) 7 = l1 ++ l :: l2 /\ ~ no_conflict files1 11 true 5 15 l /\
     Forall (no_conflict files1 11 true 5 15) l1 /\ run = (Some (files1, 0), mk_senv STATUS_FILE_LOCK_CONFLICT [])).
Proof.
  split; [reflexivity|]. split; [vm_compute; reflexivity|].
  exact (lock_fd_correct 5 plain_ops thread1 grant_all files1 1001 11 (mk_fd (Some 7) true 111) 7 5 10 true false (mk_senv 0 [])
    eq_refl eq_refl eq_refl eq_refl).
Defined.

(** ** Unlocking *)

Lemma omap_ext_in {A B} (f g : A -> option B) (l : list A) : (forall x, x ∈ l -> f x = g x) -> omap f l = omap g l.
Proof.
  induction l as [|x l IH]; intros H; [done|]. cbn. rewrite (H x) by left. rewrite IH; [done|].
  intros y Hy. apply H. by right.
Qed.

Lemma removed_locks_of s s' l ino :
  removed s s' l -> locks_of s' ino = omap (fun a => lock_table s !! a) (filter (fun x => x <> l) (list_of (inode_locks s) ino)).
Proof.
  intros R. unfold locks_of. rewrite (rm_inode _ _ _ R). apply omap_ext_in. intros a [Ha _]%list_elem_of_filter.
  by apply (rm_table _ _ _ R).
Qed.

(** The calls of close made when the last lock goes. *)
Lemma close_pending_closes b l : Forall (fun c => exists u, c = Close u) (snd (close_pending b l)).
Proof.
  induction l as [|c l IH]; cbn; [constructor|]. destruct (close_pending b l) as [kept cl]. cbn in IH.
  destruct (_ || _), (negb (closed_unix_fd c =? -1)); cbn; try done; constructor; by try eexists.
Qed.

Lemma finish_calls s ino l :
  exists closes, calls (finish_remove s ino l) = calls s ++ closes /\ Forall (fun c => exists u, c = Close u) closes.
Proof.
  unfold finish_remove. cbn zeta. destruct (release_lock_fields (wake_up (set_lock_table
    match list_of (inode_locks s) ino with [] => inode_close_pending s ino true | _ :: _ => s end
    (alter (fun k => mk_lock (lock_fd_ k) (shared k) (start k) (end_ k) None) l
      (lock_table match list_of (inode_locks s) ino with [] => inode_close_pending s ino true | _ :: _ => s end))) l) l)
    as (_ & _ & _ & _ & _ & ->). cbn.
  destruct (list_of _ _); [|exists []; by rewrite app_nil_r]. unfold inode_close_pending.
  pose proof (close_pending_closes true (default [] (inode_closed s !! ino))) as H.
  destruct (close_pending _ _) as [kept cl]. by exists cl.
Qed.

(** Unlock_fd needs a lock of this fd with exactly the given range, and
    reports a conflict and changes nothing without one.  Otherwise it removes one such
    lock from all lists and nothing else, and, when the kernel and the allocator
    do not fail, gives back to the kernel exactly the bytes of the range that no
    remaining lock of the file covers, before any pending close. *)
Lemma unlock_fd_ok s f d ino st count e :
  locks_ok s -> fds s !! f = Some d -> inode d = Some ino -> fs_locks d = true ->
  answers s = [] -> allocs e = [] -> 0 <= max_unix_offset s ->
  let en := u64 (st + count) in
  (Forall (fun a => forall k, lock_table s !! a = Some k -> ~ (start k = st /\ end_ k = en)) (list_of (fd_locks s) f) /\
   unlock_fd s f st count e = (Some s, mk_senv STATUS_FILE_LOCK_CONFLICT [])) \/
  (exists l k s' cl closes, l ∈ list_of (fd_locks s) f /\ lock_table s !! l = Some k /\ start k = st /\ end_ k = en /\
     unlock_fd s f st count e = (Some s', e) /\ removed s s' l /\
     calls s' = calls s ++ cl ++ closes /\ only_unlocks (unix_fd d) cl /\ Forall (fun c => exists u, c = Close u) closes /\
     (st <> en -> forall x, 0 <= x <= max_unix_offset s ->
        unlocks (unix_fd d) cl x <-> uncovered (locks_of s' ino) st en x)).
Proof.
  intros L Hd Hi Hfs Ha Hal Hm en. unfold unlock_fd. fold en.
  pose proof (find_exact_spec s st en (list_of (fd_locks s) f)) as H.
  destruct (find_exact _ _ _ _) as [l|]; [right|left; split; [done|]; unfold bind, set_error; cbn; by rewrite Hal].
  destruct H as [Hin (k & Hk & Es & Ee)]. pose proof (proj1 (lo_fd s L f l) Hin) as (k' & Hk' & Hkf & [p Hp]).
  rewrite Hk in Hk'. injection Hk' as <-. destruct (lo_wf s L l k Hk ltac:(by exists p)) as [Hw _].
  assert (exists cl, remove_unix_locks (unlisted s l f ino p) f (start k) (end_ k) e =
      (Some (add_calls (unlisted s l f ino p) cl), e) /\ only_unlocks (unix_fd d) cl /\
      (st <> en -> forall x, 0 <= x <= max_unix_offset s ->
         unlocks (unix_fd d) cl x <-> uncovered (locks_of (unlisted s l f ino p) ino) st en x)) as (cl & E & Ho & Hu).
  { destruct (Z.eq_dec st en) as [Eq|Hne].
    - exists []. split; [|split; [constructor|done]]. rewrite add_calls_nil, Es, Ee, Eq. unfold remove_unix_locks. cbn [fds unlisted set_lists].
      rewrite Hd, Hi, Hfs. cbn [negb]. by rewrite Z.eqb_refl.
    - destruct (remove_unix_locks_spec (unlisted s l f ino p) f d ino e Hd Hi Hfs Ha Hal Hm
        (unlisted_wf s l f ino p k d L Hk Hkf Hd Hi Hp ino) (start k) (end_ k) Hw) as (cl & E & Ho & Hu); [congruence|].
      exists cl. rewrite Es, Ee in *. split; [done|]. split; [done|]. by intros _. }
  pose proof (remove_lock_run s l f ino p k d Hk Hkf Hd Hi Hp true e _ _ E) as Er.
  pose proof (finish_removed s l f ino p k d L Hk Hkf Hd Hi Hp (add_calls (unlisted s l f ino p) cl) ltac:(by split)) as R.
  destruct (finish_calls (add_calls (unlisted s l f ino p) cl) ino l) as (closes & Ec & Hc).
  set (s' := finish_remove (add_calls (unlisted s l f ino p) cl) ino l) in *.
  exists l, k, s', cl, closes. do 6 (split; [done|]). split; [rewrite Ec; cbn; by rewrite app_assoc|]. do 2 (split; [done|]).
  intros Hne x Hx. rewrite Hu by done. rewrite (removed_locks_of s s' l ino R).
  destruct (unlisted_lists s l f ino p k d L Hk Hkf Hd Hi Hp) as (_ & Ei & _).
  unfold locks_of. rewrite Ei. done.
Qed.

Lemma files2_ok : locks_ok files2.
Proof.
  apply (reachable_locks_ok 5 plain_ops grant_all files0); [by repeat split|].
  eapply rtc_l; [exact step1|]. eapply rtc_l; [exact step2|apply rtc_refl].
Defined.

(** ** Closing *)

(** Closing an fd whose only lock is on a single byte gives nothing back to
    the kernel: remove_fd_locks collects the last byte, not the end of the range,
    and compares it with [<].  The Unix lock on byte 5 stays although no lock covers
    it, while another lock keeps the Unix file descriptor open. *)
Lemma remove_fd_locks_leaks_byte :
  exists s', remove_fd_locks files2 10 (mk_senv 0 []) = (Some s', mk_senv 0 []) /\
    calls s' = [Fcntl 110 F_SETLK F_WRLCK 5 1; Fcntl 111 F_SETLK F_WRLCK 100 100] /\
    locks_of s' 7 = [mk_lock 11 false 100 200 (Some 1)] /\ list_of (fd_locks s') 10 = [].
Proof. eexists. split; [vm_compute; reflexivity|]. by repeat split. Qed.

(** C11: unlock_fd needs a lock of this fd with exactly the given range, and reports
    a conflict and changes nothing without one.  Otherwise it removes one such lock
    from all lists and nothing else, and, when the kernel and the allocator do not
    fail, gives back to the kernel exactly the bytes of the range that no remaining
    lock of the file covers, before any pending close.  Closing an fd does not: when
    its only lock is on a single byte, remove_fd_locks compares the last byte, not
    the end of the range, and the Unix lock on the byte stays although no lock
    covers it, while another lock keeps the Unix file descriptor open. *)
Theorem unlock_correct s f d ino st count e :
  locks_ok s -> fds s !! f = Some d -> inode d = Some ino -> fs_locks d = true ->
  answers s = [] -> allocs e = [] -> 0 <= max_unix_offset s ->
  (let en := u64 (st + count) in
   (Forall (fun a => forall k, lock_table s !! a = Some k -> ~ (start k = st /\ end_ k = en)) (list_of (fd_locks s) f) /\
    unlock_fd s f st count e = (Some s, mk_senv STATUS_FILE_LOCK_CONFLICT [])) \/
   (exists l k s' cl closes, l ∈ list_of (fd_locks s) f /\ lock_table s !! l = Some k /\ start k = st /\ end_ k = en /\
      unlock_fd s f st count e = (Some s', e) /\ removed s s' l /\
      calls s' = calls s ++ cl ++ closes /\ only_unlocks (unix_fd d) cl /\ Forall (fun c => exists u, c = Close u) closes /\
      (st <> en -> forall x, 0 <= x <= max_unix_offset s ->
         unlocks (unix_fd d) cl x <-> uncovered (locks_of s' ino) st en x))) /\
  exists s', remove_fd_locks files2 10 (mk_senv 0 []) = (Some s', mk_senv 0 []) /\
    calls s' = [Fcntl 110 F_SETLK F_WRLCK 5 1; Fcntl 111 F_SETLK F_WRLCK 100 100] /\
    locks_of s' 7 = [mk_lock 11 false 100 200 (Some 1)] /\ list_of (fd_locks s') 10 = [].
Proof. intros. split; [by apply unlock_fd_ok|exact remove_fd_locks_leaks_byte]. Qed.

Lemma unlock_correct_witness :
  exists l s' cl closes, unlock_fd files2 11 100 100 (mk_senv 0 []) = (Some s', mk_senv 0 []) /\
    removed files2 s' l /\ calls s' = calls files2 ++ cl ++ closes.
Proof.
  destruct (unlock_correct files2 11 (mk_fd (Some 7) true 111) 7 100 100 (mk_senv 0 []) files2_ok
    eq_refl eq_refl eq_refl eq_refl eq_refl ltac:(vm_compute; discriminate))
    as [[[_ E]|(l & k & s' & cl & closes & _ & _ & _ & _ & E & R & C & _)] _].
  - exfalso. vm_compute in E. discriminate E.
  - by exists l, s', cl, closes.
Defined.
