(* ===== verification/Sync.v ===== *)
(** * Waits and synchronisation objects: server/thread.c, event.c, semaphore.c, mutex.c

    A thread that waits has a stack of waits: a system call that interrupts a wait
    starts a new one on top.  A wait names up to 64 objects, and every object has a
    queue of the waits that name it.  Signaling an object runs through its queue
    and wakes the threads whose topmost wait is now satisfied; ending a wait
    changes the objects that satisfied it (an auto-reset event is reset, a
    semaphore counted down, a mutex acquired).

    Threads, waits and objects are identified by their address.  The reference
    counts of the objects are those of the handle tables' world.  Assertions that
    fail, and accesses to an object that has been freed, are [None].  The eventfd
    and futex variants of these objects are switched off, keyed events are left
    out, and the pipe of a thread takes every reply. *)

From Stdlib Require Import ZArith Lia.
From stdpp Require Import base list numbers option gmap.
From S2P Require Import Prelude Handles.

#[local] Open Scope Z_scope.
#[local] Open Scope server_scope.

(** ** Data *)

Record event := mk_event {
  manual_reset : bool;
  event_signaled : bool
}.

Record semaphore := mk_semaphore {
  sem_count : Z;
  sem_max : Z
}.

Record mutex := mk_mutex {
  owner : option Z;
  mutex_count : Z;
  abandoned : bool
}.

(** What an object that can be waited on is.  The object of a thread is signaled
    once the thread has ended; [Other] is an object that waiting does not change. *)
Inductive sync_object :=
  | Event (e : event)
  | Semaphore (m : semaphore)
  | Mutex (m : mutex)
  | ThreadObject
  | Other (signaled : bool).

Inductive select_op :=
  | SELECT_NONE | SELECT_WAIT | SELECT_WAIT_ALL | SELECT_SIGNAL_AND_WAIT | SELECT_UNKNOWN.

#[export] Instance select_op_eq_dec : EqDecision select_op.
Proof. solve_decision. Defined.

(** struct thread_wait; the objects of its queue entries are [w_objs]. *)
Record thread_wait := mk_wait {
  w_addr : Z;
  w_select : select_op;
  w_flags : Z;
  w_cookie : Z;
  w_when : Z;
  w_user : bool;
  w_objs : list Z
}.

(** An element of a wait queue: entry [e_index] of a wait of a thread. *)
Record wait_queue_entry := mk_entry {
  e_thread : Z;
  e_wait : Z;
  e_index : nat
}.

#[export] Instance wait_queue_entry_eq_dec : EqDecision wait_queue_entry.
Proof. solve_decision. Defined.

(** The fields of struct thread that concern waits.  [context] tells whether some
    registers of the saved context are to be changed. *)
Record thread := mk_thread {
  t_process : Z;
  wait : list thread_wait;
  system_apc : list Z;
  user_apc : list Z;
  suspend : Z;
  mutex_list : list Z;
  context : option bool;
  suspend_cookie : Z;
  terminated : bool
}.

Record process_t := mk_process {
  p_suspend : Z;
  thread_list : list Z;
  init_done : bool
}.

(** What the server sends to threads: the reply that ends a wait, and the signal
    that stops a thread. *)
Inductive message :=
  | Wakeup (t cookie signaled : Z)
  | Sigusr1 (t : Z).

Record sync := mk_sync {
  objs : world;
  sync_objects : gmap Z sync_object;
  wait_queue : gmap Z (list wait_queue_entry);
  threads : gmap Z thread;
  processes : gmap Z process_t;
  current_time : Z;
  monotonic_time : Z;
  sent : list message
}.

Definition MAXIMUM_WAIT_OBJECTS : Z := 64.

Definition MAXIMUM_SUSPEND_COUNT : Z := 127.

Definition SELECT_ALERTABLE : Z := 1.

Definition SELECT_INTERRUPTIBLE : Z := 2.

Definition TIMEOUT_INFINITE : Z := 0x7fffffffffffffff.

Definition EVENT_QUERY_STATE : Z := 1.

Definition EVENT_MODIFY_STATE : Z := 2.

Definition SEMAPHORE_QUERY_STATE : Z := 1.

Definition SEMAPHORE_MODIFY_STATE : Z := 2.

Definition MUTANT_QUERY_STATE : Z := 1.

Definition STATUS_WAIT_0 : Z := 0.

Definition STATUS_ABANDONED_WAIT_0 : Z := 0x80.

Definition STATUS_USER_APC : Z := 0xC0.

Definition STATUS_KERNEL_APC : Z := 0x100.

Definition STATUS_TIMEOUT : Z := 0x102.

Definition STATUS_MUTANT_NOT_OWNED : Z := 0xC0000046.

Definition STATUS_SEMAPHORE_LIMIT_EXCEEDED : Z := 0xC0000047.

Definition STATUS_SUSPEND_COUNT_EXCEEDED : Z := 0xC000004A.

Definition STATUS_THREAD_IS_TERMINATING : Z := 0xC000004B.

(** ** Updates of the state *)

Definition set_objs (s : sync) (w : world) : sync :=
  mk_sync w (sync_objects s) (wait_queue s) (threads s) (processes s) (current_time s) (monotonic_time s) (sent s).

Definition set_sync_objects (s : sync) (m : gmap Z sync_object) : sync :=
  mk_sync (objs s) m (wait_queue s) (threads s) (processes s) (current_time s) (monotonic_time s) (sent s).

Definition set_data (s : sync) (o : Z) (x : sync_object) : sync :=
  set_sync_objects s (<[o := x]> (sync_objects s)).

Definition set_queue (s : sync) (o : Z) (q : list wait_queue_entry) : sync :=
  mk_sync (objs s) (sync_objects s) (<[o := q]> (wait_queue s)) (threads s) (processes s) (current_time s)
    (monotonic_time s) (sent s).

Definition set_threads (s : sync) (m : gmap Z thread) : sync :=
  mk_sync (objs s) (sync_objects s) (wait_queue s) m (processes s) (current_time s) (monotonic_time s) (sent s).

Definition set_process (s : sync) (p : Z) (x : process_t) : sync :=
  mk_sync (objs s) (sync_objects s) (wait_queue s) (threads s) (<[p := x]> (processes s)) (current_time s)
    (monotonic_time s) (sent s).

Definition send (s : sync) (m : message) : sync :=
  mk_sync (objs s) (sync_objects s) (wait_queue s) (threads s) (processes s) (current_time s) (monotonic_time s)
    (sent s ++ [m]).

Definition queue (s : sync) (o : Z) : list wait_queue_entry := default [] (wait_queue s !! o).

Definition set_wait (th : thread) (ws : list thread_wait) : thread :=
  mk_thread (t_process th) ws (system_apc th) (user_apc th) (suspend th) (mutex_list th) (context th)
    (suspend_cookie th) (terminated th).

Definition set_mutex_list (th : thread) (l : list Z) : thread :=
  mk_thread (t_process th) (wait th) (system_apc th) (user_apc th) (suspend th) l (context th)
    (suspend_cookie th) (terminated th).

Definition set_suspend (th : thread) (n : Z) : thread :=
  mk_thread (t_process th) (wait th) (system_apc th) (user_apc th) n (mutex_list th) (context th)
    (suspend_cookie th) (terminated th).

Definition set_context (th : thread) (c : option bool) : thread :=
  mk_thread (t_process th) (wait th) (system_apc th) (user_apc th) (suspend th) (mutex_list th) c
    (suspend_cookie th) (terminated th).

Definition set_terminated (th : thread) : thread :=
  mk_thread (t_process th) (wait th) (system_apc th) (user_apc th) (suspend th) (mutex_list th) (context th)
    (suspend_cookie th) true.

(** [list_add_head] and [list_remove] on the mutexes of a thread. *)
Definition link_mutex (s : sync) (t o : Z) : sync :=
  set_threads s (alter (fun th => set_mutex_list th (o :: mutex_list th)) t (threads s)).

Definition unlink_mutex (s : sync) (t o : Z) : sync :=
  set_threads s (alter (fun th => set_mutex_list th (filter (fun x => x <> o) (mutex_list th))) t (threads s)).

Definition process_suspend (s : sync) (p : Z) : Z :=
  match processes s !! p with Some x => p_suspend x | None => 0 end.

(** [thread->process->suspend + thread->suspend > 0]. *)
Definition suspended (s : sync) (th : thread) : bool := 0 <? process_suspend s (t_process th) + suspend th.

(** ** The methods of the objects *)

Definition semaphore_signaled (m : semaphore) : bool := 0 <? sem_count m.

Definition mutex_signaled (m : mutex) (t : Z) : bool := (mutex_count m =? 0) || bool_decide (owner m = Some t).

Definition thread_signaled (s : sync) (o : Z) : bool :=
  match threads s !! o with Some th => terminated th | None => false end.

(** The signaled methods; that of an event gives its state. *)
Definition signaled (s : sync) (o t : Z) : bool :=
  match sync_objects s !! o with
  | Some (Event e) => event_signaled e
  | Some (Semaphore m) => semaphore_signaled m
  | Some (Mutex m) => mutex_signaled m t
  | Some ThreadObject => thread_signaled s o
  | Some (Other b) => b
  | None => false
  end.

(** Grab a mutex: [None] when an assertion fails. *)
Definition do_grab (s : sync) (o : Z) (m : mutex) (t : Z) : option (sync * mutex) :=
  if negb ((mutex_count m =? 0) || bool_decide (owner m = Some t)) then None
  else if mutex_count m =? 0 then
    match owner m with
    | Some _ => None
    | None =>
        let m := mk_mutex (Some t) 1 (abandoned m) in
        Some (link_mutex (set_data s o (Mutex m)) t o, m)
    end
  else
    let m := mk_mutex (owner m) (u32 (mutex_count m + 1)) (abandoned m) in
    Some (set_data s o (Mutex m), m).

(** The boolean tells whether the wait becomes abandoned. *)
Definition event_satisfied (s : sync) (o : Z) (e : event) : option (sync * bool) :=
  Some (if manual_reset e then s else set_data s o (Event (mk_event (manual_reset e) false)), false).

Definition semaphore_satisfied (s : sync) (o : Z) (m : semaphore) : option (sync * bool) :=
  if sem_count m =? 0 then None
  else Some (set_data s o (Semaphore (mk_semaphore (sem_count m - 1) (sem_max m))), false).

Definition mutex_satisfied (s : sync) (o : Z) (m : mutex) (t : Z) : option (sync * bool) :=
  '(s, m) ← do_grab s o m t;
  Some (set_data s o (Mutex (mk_mutex (owner m) (mutex_count m) false)), abandoned m).

(** The satisfied methods. *)
Definition satisfied (s : sync) (o t : Z) : option (sync * bool) :=
  match sync_objects s !! o with
  | Some (Event e) => event_satisfied s o e
  | Some (Semaphore m) => semaphore_satisfied s o m
  | Some (Mutex m) => mutex_satisfied s o m t
  | Some ThreadObject | Some (Other _) => Some (s, false)
  | None => None
  end.

(** A mutex goes from the list of its owner; nobody is left in the queue to be
    woken. *)
Definition mutex_destroy (s : sync) (o : Z) (m : mutex) : sync :=
  if mutex_count m =? 0 then s
  else match owner m with Some t => unlink_mutex s t o | None => s end.

(** The destroy methods; the memory of the object goes with it. *)
Definition destroy (s : sync) (o : Z) : sync :=
  let s' := match sync_objects s !! o with Some (Mutex m) => mutex_destroy s o m | _ => s end in
  set_sync_objects s' (delete o (sync_objects s')).

(** [release_object]. *)
Definition release (s : sync) (o : Z) : option sync :=
  match objects (objs s) !! o with
  | None => None
  | Some ob =>
      if refcount ob =? 0 then None
      else
        let s := set_objs s (release_object (objs s) o) in
        if negb (refcount ob - 1 =? 0) then Some s
        else if negb (handle_count ob =? 0) then None
        else match queue s o with [] => Some (destroy s o) | _ :: _ => None end
  end.

Definition add_queue (s : sync) (o : Z) (e : wait_queue_entry) : sync :=
  set_queue (set_objs s (grab_object (objs s) o)) o (queue s o ++ [e]).

Definition remove_queue (s : sync) (o : Z) (e : wait_queue_entry) : option sync :=
  release (set_queue s o (filter (fun x => x <> e) (queue s o))) o.

(** ** Waits *)

(** Tell every object of a wait that it is satisfied. *)
Fixpoint satisfy_all (s : sync) (t : Z) (os : list Z) : option (sync * bool) :=
  match os with
  | [] => Some (s, false)
  | o :: os =>
      '(s, a) ← satisfied s o t;
      '(s, b) ← satisfy_all s t os;
      Some (s, a || b)
  end.

Fixpoint remove_queues (s : sync) (t addr : Z) (i : nat) (os : list Z) : option sync :=
  match os with
  | [] => Some s
  | o :: os =>
      s ← remove_queue s o (mk_entry t addr i);
      remove_queues s t addr (S i) os
  end.

(** A satisfied wait tells the objects: the status of the wait. *)
Definition satisfy_wait (s : sync) (t : Z) (w : thread_wait) (status : Z) : option (sync * Z) :=
  if negb (status <? Z.of_nat (length (w_objs w))) then Some (s, status)
  else
    '((s, ab) : sync * bool) ←
      (if bool_decide (w_select w = SELECT_WAIT_ALL) then satisfy_all s t (w_objs w)
       else o ← w_objs w !! Z.to_nat status; satisfied s o t);
    Some (s, if ab then status + STATUS_ABANDONED_WAIT_0 else status).

(** Finish the topmost wait of a thread. *)
Definition end_wait (s : sync) (t status : Z) : option (sync * Z) :=
  match threads s !! t with
  | None => None
  | Some th =>
      match wait th with
      | [] => None
      | w :: rest =>
          '(s, status) ← satisfy_wait (set_threads s (<[t := set_wait th rest]> (threads s))) t w status;
          s ← remove_queues s t (w_addr w) 0 (w_objs w);
          Some (s, status)
      end
  end.

Fixpoint first_signaled (s : sync) (t : Z) (i : Z) (os : list Z) : option Z :=
  match os with
  | [] => None
  | o :: os => if signaled s o t then Some i else first_signaled s t (i + 1) os
  end.

(** Is the wait satisfied?  [None] is -1. *)
Definition check_wait (s : sync) (t : Z) (th : thread) (w : thread_wait) : option Z :=
  if has_bits (w_flags w) SELECT_INTERRUPTIBLE && negb (bool_decide (system_apc th = []))
  then Some STATUS_KERNEL_APC
  else if suspended s th then None
  else
    let ready :=
      if bool_decide (w_select w = SELECT_WAIT_ALL)
      then if forallb (fun o => signaled s o t) (w_objs w) then Some STATUS_WAIT_0 else None
      else first_signaled s t 0 (w_objs w) in
    match ready with
    | Some i => Some i
    | None =>
        if has_bits (w_flags w) SELECT_ALERTABLE && negb (bool_decide (user_apc th = []))
        then Some STATUS_USER_APC
        else if (0 <=? w_when w) && (w_when w <=? current_time s) then Some STATUS_TIMEOUT
        else if (w_when w <? 0) && (- w_when w <=? monotonic_time s) then Some STATUS_TIMEOUT
        else None
    end.

(** The reply goes out; the saved context is dropped or a fake APC signaled. *)
Definition send_thread_wakeup (s : sync) (t cookie status : Z) : sync :=
  match threads s !! t with
  | None => s
  | Some th =>
      if (suspend_cookie th =? cookie) && negb (status =? STATUS_KERNEL_APC) && negb (status =? STATUS_USER_APC) then
        match context th with
        | Some false => send (set_threads s (<[t := set_context th None]> (threads s))) (Wakeup t cookie status)
        | Some true => send s (Wakeup t cookie STATUS_KERNEL_APC)
        | None => send s (Wakeup t cookie status)
        end
      else send s (Wakeup t cookie status)
  end.

Definition waits_of (s : sync) (t : Z) : list thread_wait :=
  match threads s !! t with Some th => wait th | None => [] end.

Fixpoint wake_thread_loop (fuel : nat) (s : sync) (t : Z) (count : Z) : option (sync * Z) :=
  match threads s !! t with
  | None => None
  | Some th =>
      match wait th, fuel with
      | [], _ => Some (s, count)
      | _ :: _, O => None
      | w :: _, S fuel =>
          match check_wait s t th w with
          | None => Some (s, count)
          | Some status =>
              '(s, status) ← end_wait s t status;
              wake_thread_loop fuel
                (if w_cookie w =? 0 then s else send_thread_wakeup s t (w_cookie w) status) t (count + 1)
          end
      end
  end.

(** Every iteration ends a wait. *)
Definition wake_thread (s : sync) (t : Z) : option (sync * Z) :=
  wake_thread_loop (length (waits_of s t)) s t 0.

(** Walk along a queue up to the first thread that wakes up. *)
Fixpoint wake_first (s : sync) (q : list wait_queue_entry) : option (sync * bool) :=
  match q with
  | [] => Some (s, false)
  | e :: q =>
      '(s, n) ← wake_thread s (e_thread e);
      if n =? 0 then wake_first s q else Some (s, true)
  end.

(** The walk restarts at the head of the queue after every wakeup; [None] too
    when the object has been freed by then. *)
Fixpoint wake_up_loop (fuel : nat) (s : sync) (o max : Z) : option sync :=
  match fuel with
  | O => None
  | S fuel =>
      match objects (objs s) !! o with
      | None => None
      | Some _ =>
          '(s, woken) ← wake_first s (queue s o);
          if negb woken then Some s
          else if max =? 0 then wake_up_loop fuel s o 0
          else if i32 (max - 1) =? 0 then Some s
          else wake_up_loop fuel s o (i32 (max - 1))
      end
  end.

(** The number of waits in progress. *)
Definition pending (s : sync) : nat := map_fold (fun _ th n => (length (wait th) + n)%nat) O (threads s).

(** Every wakeup ends a wait. *)
Definition wake_up (s : sync) (o max : Z) : option sync := wake_up_loop (S (pending s)) s o (i32 max).

(** A wait timed out. *)
Definition thread_timeout (s : sync) (t addr : Z) : option sync :=
  match threads s !! t with
  | None => None
  | Some th =>
      match list_find (fun w => w_addr w = addr) (wait th) with
      | None => None
      | Some (i, w) =>
          let w' := mk_wait (w_addr w) (w_select w) (w_flags w) (w_cookie w) (w_when w) false (w_objs w) in
          let s := set_threads s (<[t := set_wait th (<[i := w']> (wait th))]> (threads s)) in
          if negb (i =? 0)%nat then Some s
          else if suspended s th then Some s
          else
            '(s, _) ← end_wait s t STATUS_TIMEOUT;
            if w_cookie w =? 0 then None
            else '(s, _) ← wake_thread (send_thread_wakeup s t (w_cookie w) STATUS_TIMEOUT) t; Some s
      end
  end.

(** ** Operations on the objects *)

Definition set_event (s : sync) (o : Z) : option sync :=
  match sync_objects s !! o with
  | Some (Event e) =>
      wake_up (set_data s o (Event (mk_event (manual_reset e) true))) o (if manual_reset e then 0 else 1)
  | _ => None
  end.

Definition reset_event (s : sync) (o : Z) : option sync :=
  match sync_objects s !! o with
  | Some (Event e) => Some (set_data s o (Event (mk_event (manual_reset e) false)))
  | _ => None
  end.

Definition pulse_event (s : sync) (o : Z) : option sync :=
  match sync_objects s !! o with
  | Some (Event e) =>
      s ← wake_up (set_data s o (Event (mk_event (manual_reset e) true))) o (if manual_reset e then 0 else 1);
      reset_event s o
  | _ => None
  end.

(** Release a semaphore: the error, if any. *)
Definition release_semaphore (s : sync) (o : Z) (count : Z) : option (sync * option Z) :=
  match sync_objects s !! o with
  | Some (Semaphore m) =>
      let sum := u32 (sem_count m + count) in
      if (sum <? sem_count m) || (sem_max m <? sum) then Some (s, Some STATUS_SEMAPHORE_LIMIT_EXCEEDED)
      else if negb (sem_count m =? 0) then Some (set_data s o (Semaphore (mk_semaphore sum (sem_max m))), None)
      else s ← wake_up (set_data s o (Semaphore (mk_semaphore count (sem_max m)))) o count; Some (s, None)
  | _ => None
  end.

(** Release a mutex once its count is 0. *)
Definition do_release (s : sync) (o : Z) (m : mutex) : option sync :=
  if negb (mutex_count m =? 0) then None
  else match owner m with
       | None => None
       | Some t => wake_up (set_data (unlink_mutex s t o) o (Mutex (mk_mutex None 0 (abandoned m)))) o 0
       end.

(** [if (!--mutex->count) do_release( mutex )]. *)
Definition release_mutex (s : sync) (o : Z) (m : mutex) : option sync :=
  let m := mk_mutex (owner m) (mutex_count m - 1) (abandoned m) in
  let s := set_data s o (Mutex m) in
  if mutex_count m =? 0 then do_release s o m else Some s.

Fixpoint abandon_mutexes_loop (fuel : nat) (s : sync) (t : Z) : option sync :=
  match threads s !! t with
  | None => None
  | Some th =>
      match mutex_list th, fuel with
      | [], _ => Some s
      | _ :: _, O => None
      | o :: _, S fuel =>
          match sync_objects s !! o with
          | Some (Mutex m) =>
              if negb (bool_decide (owner m = Some t)) then None
              else
                let m := mk_mutex (owner m) 0 true in
                s ← do_release (set_data s o (Mutex m)) o m;
                abandon_mutexes_loop fuel s t
          | _ => None
          end
      end
  end.

(** Every iteration takes a mutex from the list. *)
Definition abandon_mutexes (s : sync) (t : Z) : option sync :=
  match threads s !! t with
  | None => None
  | Some th => abandon_mutexes_loop (length (mutex_list th)) s t
  end.

(** The signal methods: the error, if any. *)
Definition event_signal (s : sync) (o acc : Z) : option (sync * option Z) :=
  if negb (has_bits acc EVENT_MODIFY_STATE) then Some (s, Some STATUS_ACCESS_DENIED)
  else s ← set_event s o; Some (s, None).

Definition semaphore_signal (s : sync) (o acc : Z) : option (sync * option Z) :=
  if negb (has_bits acc SEMAPHORE_MODIFY_STATE) then Some (s, Some STATUS_ACCESS_DENIED)
  else release_semaphore s o 1.

Definition mutex_signal (s : sync) (o : Z) (m : mutex) (acc current : Z) : option (sync * option Z) :=
  if negb (has_bits acc SYNCHRONIZE) then Some (s, Some STATUS_ACCESS_DENIED)
  else if (mutex_count m =? 0) || negb (bool_decide (owner m = Some current))
  then Some (s, Some STATUS_MUTANT_NOT_OWNED)
  else s ← release_mutex s o m; Some (s, None).

Definition signal (s : sync) (o acc : Z) (current : Z) : option (sync * option Z) :=
  match sync_objects s !! o with
  | Some (Event _) => event_signal s o acc
  | Some (Semaphore _) => semaphore_signal s o acc
  | Some (Mutex m) => mutex_signal s o m acc current
  | _ => Some (s, Some STATUS_OBJECT_TYPE_MISMATCH)
  end.
