(* ===== verification/SyncRequests.v ===== *)
(** * Requests on waits and synchronisation objects

    The requests of server/event.c, semaphore.c and mutex.c, select_on of
    server/thread.c, the suspension of threads and processes, and the end of a
    thread as far as its waits and mutexes are concerned.  New waits and objects
    get an address chosen by malloc, a parameter here. *)

From Stdlib Require Import ZArith Lia.
From stdpp Require Import base list numbers option gmap.
From S2P Require Import Prelude Handles Sync.

#[local] Open Scope Z_scope.
#[local] Open Scope server_scope.

(** The union select_op_t: the operation and the 32-bit words that follow it. *)
Record select_op_t := mk_select_op {
  op : select_op;
  words : list Z
}.

Definition handle_word (sop : select_op_t) (i : nat) : Z := nth i (words sop) 0.

Inductive event_op := PULSE_EVENT | SET_EVENT | RESET_EVENT | UNKNOWN_EVENT_OP.

(** Continue with the result of a routine that does not set the error. *)
Definition on_some {A B} (r : option A) (k : A -> M (option B)) : M (option B) :=
  match r with None => ret None | Some a => k a end.

Notation "'let?' x := c 'in' k" := (on_some c (fun x => k))
  (at level 10, x pattern, c at level 200, k at level 200, only parsing) : server_scope.

(** [set_error] when there is an error. *)
Definition report (err : option Z) : M unit :=
  match err with Some err => set_error err | None => ret tt end.

Section requests.
Variable event_ops : Z.
Variable semaphore_ops : Z.
Variable mutex_ops : Z.
Variable ops_table : Z -> object_ops.
Variable current : current_t.

(** ** Waiting *)

(** The object of an entry is appended to the topmost wait. *)
Definition add_entry (s : sync) (t o : Z) : sync :=
  match threads s !! t with
  | Some th =>
      match wait th with
      | w :: rest =>
          let w' := mk_wait (w_addr w) (w_select w) (w_flags w) (w_cookie w) (w_when w) (w_user w) (w_objs w ++ [o]) in
          add_queue (set_threads s (<[t := set_wait th (w' :: rest)]> (threads s))) o
            (mk_entry t (w_addr w) (length (w_objs w)))
      | [] => s
      end
  | None => s
  end.

(** Add the entries; an object that cannot be waited on ends the wait. *)
Fixpoint wait_on_entries (s : sync) (os : list Z) : M (option (sync * bool)) :=
  match os with
  | [] => ret (Some (s, true))
  | o :: os =>
      match sync_objects s !! o with
      | Some _ => wait_on_entries (add_entry s (cur_thread current) o) os
      | None =>
          set_error STATUS_OBJECT_TYPE_MISMATCH ;;;
          let* err := get_error in
          let? (s, _) := end_wait s (cur_thread current) err in
          ret (Some (s, false))
      end
  end.

Definition wait_on (s : sync) (addr : Z) (select : select_op) (os : list Z) (flags when : Z) : M (option (sync * bool)) :=
  let* ok := mem_alloc in
  if negb ok then ret (Some (s, false))
  else
    match threads s !! cur_thread current with
    | None => ret None
    | Some th =>
        let w := mk_wait addr select flags 0 when false [] in
        wait_on_entries (set_threads s (<[cur_thread current := set_wait th (w :: wait th)]> (threads s))) os
    end.

(** The objects of the handles up to the first invalid one, in reverse order. *)
Fixpoint get_objects (s : sync) (hs : list Z) (acc : list Z) : M (sync * list Z * bool) :=
  match hs with
  | [] => ret (s, acc, true)
  | h :: hs =>
      let* (obj, w) := get_handle_obj current (objs s) (cur_process current) h SYNCHRONIZE None in
      match obj with
      | None => ret (set_objs s w, acc, false)
      | Some o => get_objects (set_objs s w) hs (o :: acc)
      end
  end.

Fixpoint release_all (s : sync) (os : list Z) : option sync :=
  match os with
  | [] => Some s
  | o :: os => s ← release s o; release_all s os
  end.

Definition wait_on_handles (s : sync) (addr : Z) (select : select_op) (hs : list Z) (flags when : Z) :
    M (option (sync * bool)) :=
  if MAXIMUM_WAIT_OBJECTS <? Z.of_nat (length hs) then ret None
  else
    let* (s, os, ok) := get_objects s hs [] in
    let* r := if ok then wait_on s addr select (reverse os) flags when else ret (Some (s, false)) in
    let? (s, res) := r in
    let? s := release_all s os in
    ret (Some (s, res)).

Definition signal_object (s : sync) (handle : Z) : M (option (sync * bool)) :=
  let* (obj, w) := get_handle_obj current (objs s) (cur_process current) handle 0 None in
  let s := set_objs s w in
  match obj with
  | None => ret (Some (s, false))
  | Some o =>
      let? (s, err) := signal s o (get_handle_access current (objs s) (cur_process current) handle) (cur_thread current) in
      report err ;;;
      let? s := release s o in
      ret (Some (s, match err with None => true | Some _ => false end))
  end.

(** The end of select_on: is the wait satisfied already?  [false] is 0, the thread
    has to wait. *)
Definition start_wait (s : sync) (cookie : Z) : M (option (sync * bool)) :=
  match threads s !! cur_thread current with
  | None => ret None
  | Some th =>
      match wait th with
      | [] => ret None
      | w :: rest =>
          match check_wait s (cur_thread current) th w with
          | Some st =>
              let? (s, st) := end_wait s (cur_thread current) st in
              set_error st ;;; ret (Some (s, true))
          | None =>
              let* ok := if w_when w =? TIMEOUT_INFINITE then ret true else mem_alloc in
              if negb ok then
                let* err := get_error in
                let? (s, _) := end_wait s (cur_thread current) err in
                ret (Some (s, true))
              else
                let w' := mk_wait (w_addr w) (w_select w) (w_flags w) cookie (w_when w)
                            (negb (w_when w =? TIMEOUT_INFINITE)) (w_objs w) in
                set_error STATUS_PENDING ;;;
                ret (Some (set_threads s (<[cur_thread current := set_wait th (w' :: rest)]> (threads s)), false))
          end
      end
  end.

Definition select_on (s : sync) (addr : Z) (sop : select_op_t) (op_size cookie flags when : Z) :
    M (option (sync * bool)) :=
  let continue (k : sync -> M (option (sync * bool))) (r : option (sync * bool)) : M (option (sync * bool)) :=
    let? (s, ok) := r in if negb ok then ret (Some (s, true)) else k s in
  match op sop with
  | SELECT_NONE =>
      let* r := wait_on s addr (op sop) [] flags when in
      continue (fun s => start_wait s cookie) r
  | SELECT_WAIT | SELECT_WAIT_ALL =>
      let count := u32 (op_size - 4) / 4 in
      if (op_size <? 4) || (MAXIMUM_WAIT_OBJECTS <? count)
      then set_error STATUS_INVALID_PARAMETER ;;; ret (Some (s, true))
      else
        let* r := wait_on_handles s addr (op sop) (handle_word sop <$> seq 0 (Z.to_nat count)) flags when in
        continue (fun s => start_wait s cookie) r
  | SELECT_SIGNAL_AND_WAIT =>
      let* r := wait_on_handles s addr (op sop) [handle_word sop 0] flags when in
      continue (fun s =>
        if handle_word sop 1 =? 0 then start_wait s cookie
        else
          let* r := signal_object s (handle_word sop 1) in
          let? (s, ok) := r in
          if negb ok then
            let* err := get_error in
            let? (s, _) := end_wait s (cur_thread current) err in
            ret (Some (s, true))
          else match waits_of s (cur_thread current) with
               | [] => ret (Some (s, true))
               | _ :: _ => start_wait s cookie
               end) r
  | SELECT_UNKNOWN => set_error STATUS_INVALID_PARAMETER ;;; ret (Some (s, true))
  end.

(** ** Events *)

(** A request on the object of a handle: what it replies, and the object is
    released at the end. *)
Definition with_object {A} (s : sync) (handle acc ops : Z) (default : A) (k : sync -> Z -> M (option (sync * A))) :
    M (option (sync * A)) :=
  let* (obj, w) := get_handle_obj current (objs s) (cur_process current) handle acc (Some ops) in
  match obj with
  | None => ret (Some (set_objs s w, default))
  | Some o =>
      let* r := k (set_objs s w) o in
      let? (s, a) := r in
      let? s := release s o in
      ret (Some (s, a))
  end.

Definition req_event_op (s : sync) (handle : Z) (opcode : event_op) : M (option (sync * bool)) :=
  with_object s handle EVENT_MODIFY_STATE event_ops false (fun s o =>
    match sync_objects s !! o with
    | Some (Event e) =>
        match opcode with
        | PULSE_EVENT => let? s := pulse_event s o in ret (Some (s, event_signaled e))
        | SET_EVENT => let? s := set_event s o in ret (Some (s, event_signaled e))
        | RESET_EVENT => let? s := reset_event s o in ret (Some (s, event_signaled e))
        | UNKNOWN_EVENT_OP => set_error STATUS_INVALID_PARAMETER ;;; ret (Some (s, event_signaled e))
        end
    | _ => ret None
    end).

Definition req_query_event (s : sync) (handle : Z) : M (option (sync * (bool * bool))) :=
  with_object s handle EVENT_QUERY_STATE event_ops (false, false) (fun s o =>
    match sync_objects s !! o with
    | Some (Event e) => ret (Some (s, (manual_reset e, event_signaled e)))
    | _ => ret None
    end).

(** ** Semaphores *)

Definition req_release_semaphore (s : sync) (handle count : Z) : M (option (sync * Z)) :=
  with_object s handle SEMAPHORE_MODIFY_STATE semaphore_ops 0 (fun s o =>
    match sync_objects s !! o with
    | Some (Semaphore m) =>
        let? (s, err) := release_semaphore s o count in
        report err ;;; ret (Some (s, sem_count m))
    | _ => ret None
    end).

Definition req_query_semaphore (s : sync) (handle : Z) : M (option (sync * (Z * Z))) :=
  with_object s handle SEMAPHORE_QUERY_STATE semaphore_ops (0, 0) (fun s o =>
    match sync_objects s !! o with
    | Some (Semaphore m) => ret (Some (s, (sem_count m, sem_max m)))
    | _ => ret None
    end).

(** ** Mutexes *)

Definition req_release_mutex (s : sync) (handle : Z) : M (option (sync * Z)) :=
  with_object s handle 0 mutex_ops 0 (fun s o =>
    match sync_objects s !! o with
    | Some (Mutex m) =>
        if (mutex_count m =? 0) || negb (bool_decide (owner m = Some (cur_thread current)))
        then set_error STATUS_MUTANT_NOT_OWNED ;;; ret (Some (s, 0))
        else let? s := release_mutex s o m in ret (Some (s, mutex_count m))
    | _ => ret None
    end).

Definition req_query_mutex (s : sync) (handle : Z) : M (option (sync * (Z * bool * bool))) :=
  with_object s handle MUTANT_QUERY_STATE mutex_ops (0, false, false) (fun s o =>
    match sync_objects s !! o with
    | Some (Mutex m) =>
        ret (Some (s, (mutex_count m, bool_decide (owner m = Some (cur_thread current)), abandoned m)))
    | _ => ret None
    end).

(** ** New objects without a name *)

(** The object is created, a handle allocated to it and its first reference
    dropped. *)
Definition new_object (s : sync) (addr ops : Z) (acc attr : Z) (init : sync -> option sync) : M (option (sync * Z)) :=
  clear_error ;;;
  let* w := alloc_object (objs s) addr ops in
  match w with
  | None => ret (Some (s, 0))
  | Some w =>
      let? s := init (set_objs s w) in
      let* allocated := alloc_handle_no_access_check ops_table (objs s) (cur_process current) addr acc attr in
      let? (h, w) := allocated in
      let? s := release (set_objs s w) addr in
      ret (Some (s, h))
  end.

Definition req_create_event (s : sync) (addr : Z) (acc attr : Z) (manual initial : bool) : M (option (sync * Z)) :=
  new_object s addr event_ops acc attr (fun s => Some (set_data s addr (Event (mk_event manual initial)))).

Definition req_create_semaphore (s : sync) (addr : Z) (acc attr : Z) (initial max : Z) : M (option (sync * Z)) :=
  if (max =? 0) || (max <? initial) then set_error STATUS_INVALID_PARAMETER ;;; ret (Some (s, 0))
  else new_object s addr semaphore_ops acc attr (fun s => Some (set_data s addr (Semaphore (mk_semaphore initial max)))).

Definition req_create_mutex (s : sync) (addr : Z) (acc attr : Z) (owned : bool) : M (option (sync * Z)) :=
  new_object s addr mutex_ops acc attr (fun s =>
    let m := mk_mutex None 0 false in
    let s := set_data s addr (Mutex m) in
    if owned then fst <$> do_grab s addr m (cur_thread current) else Some s).

(** ** Handles *)

(** close_handle, with the destructor of the object run. *)
Definition req_close_handle (s : sync) (handle : Z) : M (option sync) :=
  let e := get_handle (objs s) (cur_process current) handle in
  let* (err, w) := close_handle ops_table (objs s) (cur_process current) handle in
  set_error err ;;;
  let s := set_objs s w in
  match e with
  | None => ret (Some s)
  | Some (_, _, e) =>
      match objects w !! ptr e with
      | Some _ => ret (Some s)
      | None => match queue s (ptr e) with [] => ret (Some (destroy s (ptr e))) | _ :: _ => ret None end
      end
  end.

(** ** Suspending and resuming *)

Definition stop_thread (s : sync) (t : Z) : M sync :=
  match threads s !! t with
  | None => ret s
  | Some th =>
      match context th with
      | Some _ => ret s
      | None =>
          let* ok := mem_alloc in
          if negb ok then ret s
          else
            let s := set_threads s (<[t := set_context th (Some false)]> (threads s)) in
            ret (match processes s !! t_process th with
                 | Some p => if init_done p then send s (Sigusr1 t) else s
                 | None => s
                 end)
      end
  end.

Definition suspend_thread (s : sync) (t : Z) : M (sync * Z) :=
  match threads s !! t with
  | None => ret (s, 0)
  | Some th =>
      if suspend th <? MAXIMUM_SUSPEND_COUNT then
        let s' := set_threads s (<[t := set_suspend th (suspend th + 1)]> (threads s)) in
        if process_suspend s (t_process th) + suspend th =? 0 then
          let* s := stop_thread s' t in
          ret (s, if t =? cur_thread current then Z.lor (suspend th) 0x80000000 else suspend th)
        else ret (s', suspend th)
      else set_error STATUS_SUSPEND_COUNT_EXCEEDED ;;; ret (s, suspend th)
  end.

Definition resume_thread (s : sync) (t : Z) : option (sync * Z) :=
  match threads s !! t with
  | None => None
  | Some th =>
      if 0 <? suspend th then
        let s := set_threads s (<[t := set_suspend th (suspend th - 1)]> (threads s)) in
        if suspend th - 1 + process_suspend s (t_process th) =? 0
        then '(s, _) ← wake_thread s t; Some (s, suspend th)
        else Some (s, suspend th)
      else Some (s, suspend th)
  end.

Fixpoint stop_threads (s : sync) (ts : list Z) : M sync :=
  match ts with
  | [] => ret s
  | t :: ts =>
      let* s := match threads s !! t with
                | Some th => if suspend th =? 0 then stop_thread s t else ret s
                | None => ret s
                end in
      stop_threads s ts
  end.

Definition suspend_process (s : sync) (p : Z) : M sync :=
  match processes s !! p with
  | None => ret s
  | Some x =>
      let s := set_process s p (mk_process (p_suspend x + 1) (thread_list x) (init_done x)) in
      if p_suspend x =? 0 then stop_threads s (thread_list x) else ret s
  end.

Fixpoint wake_threads (s : sync) (ts : list Z) : option sync :=
  match ts with
  | [] => Some s
  | t :: ts =>
      match threads s !! t with
      | None => None
      | Some th =>
          if suspend th =? 0 then '(s, _) ← wake_thread s t; wake_threads s ts
          else wake_threads s ts
      end
  end.

Definition resume_process (s : sync) (p : Z) : option sync :=
  match processes s !! p with
  | None => None
  | Some x =>
      if negb (0 <? p_suspend x) then None
      else
        let s := set_process s p (mk_process (p_suspend x - 1) (thread_list x) (init_done x)) in
        if p_suspend x - 1 =? 0 then wake_threads s (thread_list x) else Some s
  end.

(** ** The end of a thread *)

(** End all the waits of a thread. *)
Fixpoint end_waits (fuel : nat) (s : sync) (t : Z) : option sync :=
  match waits_of s t, fuel with
  | [], _ => Some s
  | _ :: _, O => None
  | _ :: _, S fuel => '(s, _) ← end_wait s t STATUS_THREAD_IS_TERMINATING; end_waits fuel s t
  end.

(** The saved context and the queued APCs of a thread go. *)
Definition cleanup_thread (s : sync) (t : Z) : sync :=
  match threads s !! t with
  | None => s
  | Some th => set_threads s (<[t := mk_thread (t_process th) (wait th) [] [] (suspend th) (mutex_list th) None
                                       (suspend_cookie th) (terminated th)]> (threads s))
  end.

(** The list of threads of a process, which holds a reference to each. *)
Definition add_process_thread (s : sync) (p t : Z) : sync :=
  let s := match processes s !! p with
           | Some x => set_process s p (mk_process (p_suspend x) (thread_list x ++ [t]) (init_done x))
           | None => s
           end in
  set_objs s (grab_object (objs s) t).

Definition remove_process_thread (s : sync) (p t : Z) : option sync :=
  let s := match processes s !! p with
           | Some x => set_process s p (mk_process (p_suspend x) (filter (fun x => x <> t) (thread_list x)) (init_done x))
           | None => s
           end in
  release s t.

(** kill_thread: waits, mutexes, the thread's own object and its references. *)
Definition kill_thread (s : sync) (t exit_code : Z) : option sync :=
  match threads s !! t with
  | None => None
  | Some th =>
      if terminated th then Some s
      else
        let s := set_threads s (<[t := set_terminated th]> (threads s)) in
        s ← match wait th with
            | [] => Some s
            | _ :: _ => s ← end_waits (length (wait th)) s t; Some (send_thread_wakeup s t 0 exit_code)
            end;
        s ← abandon_mutexes s t;
        s ← wake_up s t 0;
        s ← remove_process_thread (cleanup_thread s t) (t_process th) t;
        release s t
  end.
End requests.
