(* ===== verification/SyncInvariant.v ===== *)
(** * The invariant of waits and synchronisation objects

    What holds between the operations of server/thread.c, event.c, semaphore.c
    and mutex.c: queues and stacks of waits agree, the references of an object
    are exactly its handles, its queue entries and the ones held, mutexes and their owners agree.  The
    routines that end waits keep it, and no assertion in them fails. *)

From Stdlib Require Import ZArith Lia.
From stdpp Require Import base list numbers option gmap.
From S2P Require Import Prelude Handles HandleTheorems HandleCounts HandleSteps Sync.

#[local] Open Scope Z_scope.

(** ** The invariant *)

(** Entry [e] stands for a wait on [o] in some stack. *)
Definition waiting (s : sync) (o : Z) (e : wait_queue_entry) : Prop :=
  exists th w, threads s !! e_thread e = Some th /\ w ∈ wait th /\ w_addr w = e_wait e /\
    w_objs w !! e_index e = Some o.

(** Occurrences in a list. *)
Definition occ (o : Z) (l : list Z) : nat := length (filter (fun x => x = o) l).

(** Entries that are still in their queue although their wait has left its stack. *)
Definition leftover : Type := list (Z * wait_queue_entry).

Definition queues_ok (s : sync) (extra : leftover) : Prop :=
  forall o, NoDup (queue s o) /\ forall e, e ∈ queue s o <-> waiting s o e \/ (o, e) ∈ extra.

(** A wait names at most 64 objects, and a wait for all names no object twice. *)
Definition wait_ok (w : thread_wait) : Prop :=
  Z.of_nat (length (w_objs w)) <= MAXIMUM_WAIT_OBJECTS /\ (w_select w = SELECT_WAIT_ALL -> NoDup (w_objs w)).

(** The waits of a thread are distinct. *)
Definition stacks_ok (s : sync) : Prop :=
  forall t th, threads s !! t = Some th ->
    NoDup (w_addr <$> wait th) /\ forall w, w ∈ wait th -> wait_ok w.

(** An object on its own: a semaphore within its bounds, a mutex owned or free. *)
Definition self_ok (x : sync_object) : Prop :=
  match x with
  | Semaphore m => 0 <= sem_count m <= sem_max m /\ sem_max m < 2 ^ 32
  | Mutex m => match owner m with None => mutex_count m = 0 | Some _ => 1 <= mutex_count m end
  | _ => True
  end.

Definition owner_of (s : sync) (o : Z) : option Z :=
  match sync_objects s !! o with Some (Mutex m) => owner m | _ => None end.

Definition mutexes_of (s : sync) (t : Z) : list Z :=
  match threads s !! t with Some th => mutex_list th | None => [] end.

Record data_ok (s : sync) : Prop := {
  dt_self : forall o x, sync_objects s !! o = Some x -> self_ok x;
  dt_owned : forall t o, o ∈ mutexes_of s t <-> owner_of s o = Some t;
  dt_nodup : forall t, NoDup (mutexes_of s t)
}.

(** Waiting threads cannot make the recursion count of a mutex wrap around. *)
Definition room_ok (s : sync) (extra : leftover) : Prop :=
  forall o m, sync_objects s !! o = Some (Mutex m) ->
    mutex_count m + Z.of_nat (length (queue s o)) < 2 ^ 32 + Z.of_nat (occ o extra.*1).

(** References are exactly the handles, the entries of the queue and [held], the
    ones of the request in progress and of the server's own. *)
Definition refs_at (held : list Z) (s : sync) (o : Z) : Prop :=
  match objects (objs s) !! o with
  | None => queue s o = [] /\ occ o held = O /\ sync_objects s !! o = None
  | Some ob =>
      refcount ob = handle_count ob + Z.of_nat (length (queue s o)) + Z.of_nat (occ o held) /\
      (queue s o <> [] -> is_Some (sync_objects s !! o))
  end.

Definition refs_ok (held : list Z) (s : sync) : Prop := forall o, refs_at held s o.

Record sync_inv (held : list Z) (extra : leftover) (s : sync) : Prop := {
  iv_world : world_wf (objs s);
  iv_refs : refs_ok held s;
  iv_queues : queues_ok s extra;
  iv_stacks : stacks_ok s;
  iv_data : data_ok s;
  iv_room : room_ok s extra
}.

(** ** What ending waits may change *)

(** A thread up to its mutexes and its saved context. *)
Definition core (th : thread) : thread := set_context (set_mutex_list th []) None.

Inductive kind := KEvent (manual : bool) | KSemaphore | KMutex | KThread | KOther.

Definition kind_of (x : sync_object) : kind :=
  match x with
  | Event e => KEvent (manual_reset e)
  | Semaphore _ => KSemaphore
  | Mutex _ => KMutex
  | ThreadObject => KThread
  | Other _ => KOther
  end.

(** How many waits an object that satisfies a limited number of them satisfies. *)
Definition supply (s : sync) (o : Z) : Z :=
  match sync_objects s !! o with
  | Some (Event e) => if event_signaled e then 1 else 0
  | Some (Semaphore m) => sem_count m
  | _ => 0
  end.

Definition limited (s : sync) (o : Z) : Prop :=
  kind_of <$> sync_objects s !! o = Some (KEvent false) \/ kind_of <$> sync_objects s !! o = Some KSemaphore.

(** Nothing becomes signaled, objects stay what they are until they go away, and
    stacks only shrink. *)
Record settles (s s' : sync) : Prop := {
  se_signaled : forall o t, signaled s' o t = true -> signaled s o t = true;
  se_supply : forall o, supply s' o <= supply s o;
  se_objects : forall o, objects (objs s') !! o = None \/
    (ops <$> objects (objs s') !! o = ops <$> objects (objs s) !! o /\
     kind_of <$> sync_objects s' !! o = kind_of <$> sync_objects s !! o);
  se_threads : forall t, (fun th => core (set_wait th [])) <$> threads s' !! t =
                         (fun th => core (set_wait th [])) <$> threads s !! t;
  se_stack : forall t, waits_of s' t `suffix_of` waits_of s t;
  se_processes : processes s' = processes s;
  se_time : current_time s' = current_time s;
  se_monotonic : monotonic_time s' = monotonic_time s;
  se_handles : handles (objs s') = handles (objs s) /\ global_table (objs s') = global_table (objs s)
}.

#[export] Instance settles_preorder : PreOrder settles.
Proof.
  split.
  - intros s. split; try done. intros o. by right.
  - intros s1 s2 s3 H1 H2. split.
    + intros o t H. by apply (se_signaled _ _ H1), (se_signaled _ _ H2).
    + intros o. etransitivity; [apply (se_supply _ _ H2)|apply (se_supply _ _ H1)].
    + intros o. destruct (se_objects _ _ H2 o) as [E|[E1 E2]]; [by left|].
      destruct (se_objects _ _ H1 o) as [E|[E3 E4]]; [left|right; split; congruence].
      rewrite E in E1. by destruct (objects (objs s3) !! o).
    + intros t. by rewrite (se_threads _ _ H2), (se_threads _ _ H1).
    + intros t. etransitivity; [apply (se_stack _ _ H2)|apply (se_stack _ _ H1)].
    + by rewrite (se_processes _ _ H2), (se_processes _ _ H1).
    + by rewrite (se_time _ _ H2), (se_time _ _ H1).
    + by rewrite (se_monotonic _ _ H2), (se_monotonic _ _ H1).
    + destruct (se_handles _ _ H1), (se_handles _ _ H2). split; congruence.
Qed.

(** ** Objects that satisfy a wait *)

(** What an object is after it satisfied a wait of [t]. *)
Definition take (t : Z) (x : sync_object) : sync_object :=
  match x with
  | Event e => Event (mk_event (manual_reset e) (manual_reset e && event_signaled e))
  | Semaphore m => Semaphore (mk_semaphore (sem_count m - 1) (sem_max m))
  | Mutex m => Mutex (mk_mutex (Some t) (mutex_count m + 1) false)
  | x => x
  end.

(** The object does more than change when it satisfies a wait. *)
Definition was_abandoned (x : sync_object) : bool := match x with Mutex m => abandoned m | _ => false end.

(** Only the objects and the lists of mutexes differ. *)
Record only_data (s s' : sync) : Prop := {
  od_objs : objs s' = objs s;
  od_queue : wait_queue s' = wait_queue s;
  od_threads : forall t, core <$> threads s' !! t = core <$> threads s !! t;
  od_processes : processes s' = processes s;
  od_time : current_time s' = current_time s;
  od_monotonic : monotonic_time s' = monotonic_time s;
  od_sent : sent s' = sent s;
  od_kinds : forall o, kind_of <$> sync_objects s' !! o = kind_of <$> sync_objects s !! o
}.

#[export] Instance only_data_preorder : PreOrder only_data.
Proof.
  split; [by intros s|]. intros s1 s2 s3 [] []. split; try congruence; intros x; etransitivity; eauto.
Qed.

Lemma core_wait th th' : core th = core th' -> wait th = wait th'.
Proof. by intros [=]. Qed.

Lemma core_terminated th th' : core th = core th' -> terminated th = terminated th'.
Proof. by intros [=]. Qed.

Lemma core_lookup (m m' : gmap Z thread) t th' :
  core <$> m' !! t = core <$> m !! t -> m' !! t = Some th' -> exists th, m !! t = Some th /\ core th' = core th.
Proof. intros H E. rewrite E in H. destruct (m !! t) as [th|]; [|done]. exists th. split; [done|by apply (inj Some) in H]. Qed.

Lemma only_data_waits s s' t : only_data s s' -> waits_of s' t = waits_of s t.
Proof.
  intros H. pose proof (od_threads _ _ H t) as E. unfold waits_of.
  destruct (threads s' !! t), (threads s !! t); try done. by injection E.
Qed.

Lemma only_data_queue s s' o : only_data s s' -> queue s' o = queue s o.
Proof. intros H. unfold queue. by rewrite (od_queue _ _ H). Qed.

(** A list of mutexes is all that can differ in the threads. *)
Lemma alter_core (f : thread -> thread) (m : gmap Z thread) t t' :
  (forall th, core (f th) = core th) -> core <$> alter f t m !! t' = core <$> m !! t'.
Proof.
  intros Hf. destruct (decide (t = t')) as [<-|]; [|by rewrite lookup_alter_ne].
  rewrite lookup_alter_eq. destruct (m !! t); [|done]. cbn. by rewrite Hf.
Qed.

(** Data of the same owner. *)
Lemma data_ok_same s s' :
  data_ok s -> (forall o, owner_of s' o = owner_of s o) -> (forall t, mutexes_of s' t = mutexes_of s t) ->
  (forall o x, sync_objects s' !! o = Some x -> self_ok x) -> data_ok s'.
Proof.
  intros D Ho Hm Hs. split; [done| |]; intros t; rewrite Hm; [|apply (dt_nodup _ D)].
  intros o. rewrite Ho. apply (dt_owned _ D).
Qed.

(** [o] goes to [t]. *)
Lemma data_ok_link s s' o t :
  data_ok s -> owner_of s o = None -> (forall o', owner_of s' o' = if decide (o' = o) then Some t else owner_of s o') ->
  (forall t', mutexes_of s' t' = if decide (t' = t) then o :: mutexes_of s t else mutexes_of s t') ->
  (forall o x, sync_objects s' !! o = Some x -> self_ok x) -> data_ok s'.
Proof.
  intros D Hn Ho Hm Hs. pose proof (dt_owned _ D) as Hd. split; [done| |].
  - intros t' o'. rewrite Ho, Hm. destruct (decide (t' = t)) as [->|Ht], (decide (o' = o)) as [->|Ho'].
    + split; [done|]. intros _. by left.
    + rewrite <-Hd, elem_of_cons. tauto.
    + rewrite Hd, Hn. split; [done|]. by intros [= ->].
    + apply Hd.
  - intros t'. rewrite Hm. case_decide; [|apply (dt_nodup _ D)]. apply list.NoDup_cons. split; [|apply (dt_nodup _ D)].
    rewrite Hd, Hn. done.
Qed.

(** [t] gives [o] up. *)
Lemma data_ok_unlink s s' o t :
  data_ok s -> owner_of s o = Some t -> (forall o', owner_of s' o' = if decide (o' = o) then None else owner_of s o') ->
  (forall t', mutexes_of s' t' = if decide (t' = t) then filter (fun x => x <> o) (mutexes_of s t) else mutexes_of s t') ->
  (forall o x, sync_objects s' !! o = Some x -> self_ok x) -> data_ok s'.
Proof.
  intros D Hn Ho Hm Hs. pose proof (dt_owned _ D) as Hd. split; [done| |].
  - intros t' o'. rewrite Ho, Hm. destruct (decide (t' = t)) as [->|Ht], (decide (o' = o)) as [->|Ho'].
    + rewrite list_elem_of_filter. split; [by intros []|done].
    + rewrite <-Hd, list_elem_of_filter. tauto.
    + rewrite Hd, Hn. split; [|done]. by intros [= ->].
    + apply Hd.
  - intros t'. rewrite Hm. case_decide; [apply list.NoDup_filter|]; apply (dt_nodup _ D).
Qed.

Lemma insert_self (m : gmap Z sync_object) o x :
  (forall o' x', m !! o' = Some x' -> self_ok x') -> self_ok x ->
  forall o' x', <[o := x]> m !! o' = Some x' -> self_ok x'.
Proof.
  intros Hm Hx o' x'. destruct (decide (o = o')) as [<-|]; [rewrite lookup_insert_eq; by intros [= <-]|].
  rewrite lookup_insert_ne by done. apply Hm.
Qed.

Lemma insert_kind (m : gmap Z sync_object) o x x' o' :
  m !! o = Some x -> kind_of x' = kind_of x -> kind_of <$> <[o := x']> m !! o' = kind_of <$> m !! o'.
Proof.
  intros Hx Hk. destruct (decide (o = o')) as [<-|]; [|by rewrite lookup_insert_ne].
  rewrite lookup_insert_eq, Hx. cbn. by rewrite Hk.
Qed.

Lemma owner_of_insert s (m : gmap Z sync_object) o x :
  sync_objects s = <[o := x]> m ->
  forall o', owner_of s o' = if decide (o' = o) then match x with Mutex m => owner m | _ => None end
                             else match m !! o' with Some (Mutex m) => owner m | _ => None end.
Proof.
  intros E o'. unfold owner_of. rewrite E. case_decide as H; [subst; by rewrite lookup_insert_eq|].
  by rewrite lookup_insert_ne.
Qed.

(** New data for an object with the same owner. *)
Lemma set_data_ok s o x x' :
  data_ok s -> sync_objects s !! o = Some x -> self_ok x' ->
  match x' with Mutex m => owner m | _ => None end = owner_of s o -> data_ok (set_data s o x').
Proof.
  intros D Hx Hs Ho. apply (data_ok_same s); [done| |done|].
  - intros o'. rewrite (owner_of_insert _ (sync_objects s) o x') by done. case_decide; [by subst|done].
  - by apply insert_self; [apply (dt_self _ D)|].
Qed.

Lemma set_data_only s o x x' :
  sync_objects s !! o = Some x -> kind_of x' = kind_of x -> only_data s (set_data s o x').
Proof. intros Hx Hk. split; try done. intros o'. by eapply insert_kind. Qed.

Lemma mutexes_of_alter s s' t (f : list Z -> list Z) :
  is_Some (threads s !! t) -> threads s' = alter (fun th => set_mutex_list th (f (mutex_list th))) t (threads s) ->
  forall t', mutexes_of s' t' = if decide (t' = t) then f (mutexes_of s t) else mutexes_of s t'.
Proof.
  intros [th Ht] E t'. unfold mutexes_of. rewrite E. case_decide as H; [subst|by rewrite lookup_alter_ne].
  by rewrite lookup_alter_eq, Ht.
Qed.

(** ** Objects that satisfy a wait *)

Lemma grab_free_mutex s o t x ab :
  data_ok s -> sync_objects s !! o = Some x -> kind_of x = KMutex -> owner_of s o = None -> is_Some (threads s !! t) ->
  let s' := link_mutex (set_data s o (Mutex (mk_mutex (Some t) 1 ab))) t o in only_data s s' /\ data_ok s'.
Proof.
  intros D Hx Hk Ho Ht s'.
  assert (Es : sync_objects s' = <[o := Mutex (mk_mutex (Some t) 1 ab)]> (sync_objects s)) by done.
  split.
  - split; try done; [intros t'; by apply alter_core|]. intros o'. rewrite Es. by eapply insert_kind.
  - apply (data_ok_link s _ o t D Ho); [intros o'; by rewrite (owner_of_insert _ _ _ _ Es)| |].
    + by apply (mutexes_of_alter s s' t (cons o)).
    + rewrite Es. apply insert_self; [apply (dt_self _ D)|]. cbn. lia.
Qed.

Lemma satisfied_run s o t x :
  data_ok s -> sync_objects s !! o = Some x -> is_Some (threads s !! t) -> signaled s o t = true ->
  (forall m, x = Mutex m -> mutex_count m + 1 < 2 ^ 32) ->
  exists s', satisfied s o t = Some (s', was_abandoned x) /\ only_data s s' /\ data_ok s' /\
    sync_objects s' = <[o := take t x]> (sync_objects s).
Proof.
  intros D Hx Ht Hs Hroom. unfold signaled, semaphore_signaled, mutex_signaled, thread_signaled in Hs. rewrite Hx in Hs. unfold satisfied, event_satisfied, semaphore_satisfied, mutex_satisfied. rewrite Hx.
  pose proof (dt_self _ D _ _ Hx) as Hself. assert (Eo : owner_of s o = match x with Mutex m => owner m | _ => None end)
    by (unfold owner_of; by rewrite Hx).
  assert (Hid : exists s', Some (s, false) = Some (s', false) /\ only_data s s' /\ data_ok s' /\ sync_objects s' = <[o := x]> (sync_objects s)).
  { exists s. repeat split; try done; try apply D. by rewrite insert_id. }
  destruct x as [[[] sg]|m|m| |b]; cbn [manual_reset take was_abandoned event_signaled andb]; [exact Hid| | | |exact Hid..].
  - eexists. split; [done|]. split; [by eapply set_data_only|]. split; [|done]. by eapply set_data_ok.
  - apply Z.ltb_lt in Hs. rewrite (proj2 (Z.eqb_neq _ _)) by lia. cbn in Hself.
    eexists. split; [done|]. split; [by eapply set_data_only|]. split; [|done]. eapply set_data_ok; [done..| |done]. cbn. lia.
  - specialize (Hroom m eq_refl). unfold do_grab. rewrite Hs. cbn [negb self_ok] in *.
    destruct (Z.eqb_spec (mutex_count m) 0) as [Hz|Hnz].
    + destruct (owner m) as [t'|] eqn:Ho; [lia|]. eexists. split; [done|]. cbn [owner mutex_count].
      destruct (grab_free_mutex s o t _ (abandoned m) D Hx eq_refl Eo Ht) as [H1 H2].
      set (s1 := link_mutex _ _ _) in *. assert (E1 : sync_objects s1 !! o = Some (Mutex (mk_mutex (Some t) 1 (abandoned m)))) by apply lookup_insert_eq.
      split; [transitivity s1; [done|by eapply set_data_only]|]. split; [|cbn; by rewrite insert_insert_eq, Hz].
      eapply set_data_ok; [done..|]. unfold owner_of. by rewrite E1.
    + cbn [orb] in Hs. apply bool_decide_eq_true in Hs. rewrite Hs in Hself |- *. rewrite u32_small by lia.
      rewrite Hs in Eo. exists (set_data s o (Mutex (mk_mutex (Some t) (mutex_count m + 1) false))). split.
      { cbn. unfold set_data. cbn. by rewrite insert_insert_eq. }
      split; [by eapply set_data_only|]. split; [|done]. eapply set_data_ok; [done..| |by rewrite Eo]. cbn. lia.
Qed.

(** The objects of [os] have satisfied a wait of [t]. *)
Record taken (t : Z) (os : list Z) (s s' : sync) : Prop := {
  tk_only : only_data s s';
  tk_data : data_ok s';
  tk_objects : forall o, sync_objects s' !! o =
    if decide (o ∈ os) then take t <$> sync_objects s !! o else sync_objects s !! o
}.

Lemma only_data_thread s s' t : only_data s s' -> is_Some (threads s !! t) -> is_Some (threads s' !! t).
Proof.
  intros H [th E]. pose proof (od_threads _ _ H t) as E'. rewrite E in E'. destruct (threads s' !! t); [by eexists|done].
Qed.

Lemma only_data_terminated s s' t :
  only_data s s' -> (terminated <$> threads s' !! t) = (terminated <$> threads s !! t).
Proof.
  intros H. pose proof (od_threads _ _ H t) as E. destruct (threads s' !! t), (threads s !! t); try done.
  apply (inj Some), core_terminated in E. cbn. by rewrite E.
Qed.

(** Whether an object is signaled is up to its data, and for threads to the thread. *)
Lemma signaled_ext s s' o t :
  sync_objects s' !! o = sync_objects s !! o -> (terminated <$> threads s' !! o) = (terminated <$> threads s !! o) ->
  signaled s' o t = signaled s o t.
Proof.
  intros E1 E2. unfold signaled, semaphore_signaled, mutex_signaled, thread_signaled. rewrite E1. destruct (sync_objects s !! o) as [[]|]; try done.
  destruct (threads s' !! o), (threads s !! o); try done. by injection E2.
Qed.

Lemma signaled_alive s o t : signaled s o t = true -> is_Some (sync_objects s !! o).
Proof. unfold signaled, semaphore_signaled, mutex_signaled, thread_signaled. destruct (sync_objects s !! o); [by eexists|done]. Qed.

(** Can satisfy a wait of [t] without wrapping around. *)
Definition grantable (s : sync) (t o : Z) : Prop :=
  signaled s o t = true /\ forall m, sync_objects s !! o = Some (Mutex m) -> mutex_count m + 1 < 2 ^ 32.

Lemma grantable_ext s s' t o : only_data s s' -> sync_objects s' !! o = sync_objects s !! o -> grantable s t o -> grantable s' t o.
Proof.
  intros H E [H1 H2]. split; [|by rewrite E]. rewrite <-H1. apply signaled_ext; [done|by apply only_data_terminated].
Qed.

(** One of the objects had been abandoned. *)
Definition any_abandoned (s : sync) (os : list Z) : bool :=
  existsb (fun o => match sync_objects s !! o with Some x => was_abandoned x | None => false end) os.

Lemma satisfy_all_run t os : forall s,
  data_ok s -> is_Some (threads s !! t) -> NoDup os -> (forall o, o ∈ os -> grantable s t o) ->
  exists s', satisfy_all s t os = Some (s', any_abandoned s os) /\ taken t os s s'.
Proof.
  induction os as [|o os IH]; intros s D Ht Hn Hg.
  - exists s. split; [done|]. split; [done|done|]. intros o. by rewrite decide_False by apply not_elem_of_nil.
  - apply list.NoDup_cons in Hn as [Hni Hn]. destruct (Hg o ltac:(by left)) as [Hs Hr].
    destruct (signaled_alive _ _ _ Hs) as [x Hx].
    destruct (satisfied_run s o t x D Hx Ht Hs) as (s1 & E1 & O1 & D1 & Q1); [intros m ->; by apply Hr|].
    assert (Hother : forall o', o' ∈ os -> sync_objects s1 !! o' = sync_objects s !! o').
    { intros o' Hin. rewrite Q1, lookup_insert_ne; [done|]. by intros ->. }
    destruct (IH s1) as (s2 & E2 & [O2 D2 Q2]); [done|by eapply only_data_thread|done| |].
    { intros o' Hin. apply (grantable_ext s); [done|by apply Hother|]. apply Hg. by right. }
    exists s2. split.
    { cbn [satisfy_all any_abandoned existsb]. rewrite E1, Hx. cbn. rewrite E2. cbn. do 3 f_equal.
      unfold any_abandoned. clear -Hother. induction os as [|a os IH]; [done|]. cbn.
      rewrite Hother by (by left). rewrite IH; [done|]. intros. apply Hother. by right. }
    split; [by transitivity s1|done|]. intros o'. rewrite Q2, Q1. destruct (decide (o' = o)) as [->|Hne].
    + rewrite decide_False by done. rewrite decide_True by (by left). by rewrite lookup_insert_eq, Hx.
    + rewrite lookup_insert_ne by done. destruct (decide (o' ∈ os)); [rewrite decide_True by (by right)|rewrite decide_False]; try done.
      by intros [?|?]%elem_of_cons.
Qed.

(** The objects that a wait which ends with a status acquires. *)
Definition granted (w : thread_wait) (status : Z) : list Z :=
  if status <? Z.of_nat (length (w_objs w)) then
    if bool_decide (w_select w = SELECT_WAIT_ALL) then w_objs w else option_list (w_objs w !! Z.to_nat status)
  else [].

Lemma granted_subset w status o : o ∈ granted w status -> o ∈ w_objs w.
Proof.
  unfold granted. case_match; [|by intros ?%not_elem_of_nil]. case_match; [done|].
  destruct (w_objs w !! Z.to_nat status) as [x|] eqn:E; cbn; [|by intros ?%not_elem_of_nil].
  rewrite list_elem_of_singleton. intros ->. by eapply list_elem_of_lookup_2.
Qed.

Lemma granted_nodup w status : (w_select w = SELECT_WAIT_ALL -> NoDup (w_objs w)) -> NoDup (granted w status).
Proof.
  intros H. unfold granted. case_match; [|constructor]. case_bool_decide; [auto|].
  destruct (w_objs w !! _); cbn; [apply NoDup_singleton|constructor].
Qed.

(** The status that the thread gets. *)
Definition wait_status (s : sync) (w : thread_wait) (status : Z) : Z :=
  if any_abandoned s (granted w status) then status + STATUS_ABANDONED_WAIT_0 else status.

Lemma satisfy_wait_run s t w status :
  data_ok s -> is_Some (threads s !! t) -> 0 <= status -> NoDup (granted w status) ->
  (forall o, o ∈ granted w status -> grantable s t o) ->
  exists s', satisfy_wait s t w status = Some (s', wait_status s w status) /\ taken t (granted w status) s s'.
Proof.
  intros D Ht Hst Hn Hg. destruct (satisfy_all_run t (granted w status) s D Ht Hn Hg) as (s' & E & T).
  exists s'. split; [|done]. unfold satisfy_wait, wait_status. revert E. unfold granted.
  destruct (Z.ltb_spec status (Z.of_nat (length (w_objs w)))) as [Hl|]; cbn [negb]; [|by intros [= ->]].
  case_bool_decide; [by intros ->|].
  destruct (lookup_lt_is_Some_2 (w_objs w) (Z.to_nat status)) as [o ->]; [lia|]. cbn.
  destruct (satisfied s o t) as [[s1 b]|]; cbn; [|done]. rewrite !orb_false_r. by intros [= -> ->].
Qed.
