(* ===== verification/SyncWaits.v ===== *)
(** * Ending waits: server/thread.c

    Releasing an object, taking the entries of a wait off their queues, end_wait
    and wake_thread keep the invariant, and no assertion in them fails. *)

From Stdlib Require Import ZArith Lia.
From stdpp Require Import base list numbers option gmap.
From S2P Require Import Prelude Handles HandleTheorems HandleCounts HandleSteps Sync SyncInvariant.

#[local] Open Scope Z_scope.

(** ** Counting occurrences *)

Lemma occ_cons o x l : occ o (x :: l) = ((if decide (x = o) then 1 else 0) + occ o l)%nat.
Proof. unfold occ. rewrite filter_cons. by case_decide. Qed.

Lemma occ_app o l l' : occ o (l ++ l') = (occ o l + occ o l')%nat.
Proof. unfold occ. by rewrite filter_app, length_app. Qed.

Lemma occ_pos o l : o ∈ l <-> (0 < occ o l)%nat.
Proof.
  unfold occ. split.
  - intros H. destruct (filter _ l) eqn:E; [|cbn; lia]. by apply (filter_nil_not_elem_of _ _ o) in E.
  - intros H. destruct (filter (fun x => x = o) l) as [|x l'] eqn:E; [cbn in H; lia|].
    assert (x ∈ filter (fun x => x = o) l) as Hin by (rewrite E; by left). by apply list_elem_of_filter in Hin as [-> ?].
Qed.

(** ** Releasing an object *)

(** The same waits and the same objects, except that objects may go away. *)
Record drops (s s' : sync) : Prop := {
  dr_threads : forall t, core <$> threads s' !! t = core <$> threads s !! t;
  dr_objects : forall o, (objects (objs s') !! o = None /\ sync_objects s' !! o = None) \/
    (ops <$> objects (objs s') !! o = ops <$> objects (objs s) !! o /\ sync_objects s' !! o = sync_objects s !! o);
  dr_processes : processes s' = processes s;
  dr_time : current_time s' = current_time s;
  dr_monotonic : monotonic_time s' = monotonic_time s;
  dr_sent : sent s' = sent s;
  dr_handles : handles (objs s') = handles (objs s) /\ global_table (objs s') = global_table (objs s)
}.

#[export] Instance drops_preorder : PreOrder drops.
Proof.
  split; [intros s; split; try done; intros o; by right|].
  intros s1 s2 s3 H1 H2. destruct (dr_handles _ _ H1), (dr_handles _ _ H2).
  split; [intros t| |etransitivity; [apply H2|apply H1]..|split; congruence].
  - by rewrite (dr_threads _ _ H2), (dr_threads _ _ H1).
  - intros o. destruct (dr_objects _ _ H2 o) as [E|[E1 E2]]; [by left|].
    destruct (dr_objects _ _ H1 o) as [[E3 E4]|[E3 E4]]; [left|right; split; congruence].
    rewrite E3 in E1. rewrite E2, E4. by destruct (objects (objs s3) !! o).
Qed.

Lemma core_waits s s' t : core <$> threads s' !! t = core <$> threads s !! t -> waits_of s' t = waits_of s t.
Proof. intros E. unfold waits_of. destruct (threads s' !! t), (threads s !! t); try done. by injection E. Qed.

Lemma core_rest (a b : option thread) :
  core <$> a = core <$> b -> (fun th => core (set_wait th [])) <$> a = (fun th => core (set_wait th [])) <$> b.
Proof.
  destruct a as [a|], b as [b|]; try done. intros E. apply (inj Some) in E. cbn. f_equal.
  change (core (set_wait a [])) with (set_wait (core a) []). change (core (set_wait b [])) with (set_wait (core b) []). by rewrite E.
Qed.

Lemma supply_nonneg s o : data_ok s -> 0 <= supply s o.
Proof.
  intros D. unfold supply. destruct (sync_objects s !! o) as [[[? []]|m| | |]|] eqn:E; cbn; try lia.
  destruct (dt_self _ D _ _ E). lia.
Qed.

Lemma drops_settles s s' : data_ok s -> drops s s' -> settles s s'.
Proof.
  intros D H. split.
  - intros o t. destruct (dr_objects _ _ H o) as [[_ E]|[_ E]].
    + unfold signaled, semaphore_signaled, mutex_signaled, thread_signaled. by rewrite E.
    + rewrite (signaled_ext s s'); [done..|]. pose proof (dr_threads _ _ H o) as Et.
      destruct (threads s' !! o), (threads s !! o); try done. apply (inj Some), core_terminated in Et. cbn. by rewrite Et.
  - intros o. pose proof (supply_nonneg s o D) as Hp. unfold supply in *. destruct (dr_objects _ _ H o) as [[_ ->]|[_ ->]]; lia.
  - intros o. destruct (dr_objects _ _ H o) as [[E _]|[E1 E2]]; [by left|right]. by rewrite E2.
  - intros t. apply core_rest, H.
  - intros t. by rewrite (core_waits s s' t) by apply H.
  - apply H.
  - apply H.
  - apply H.
  - apply H.
Qed.

(** The parts of the invariant that look at the stacks only. *)
Lemma waiting_core s s' o e :
  (forall t, core <$> threads s' !! t = core <$> threads s !! t) -> waiting s' o e <-> waiting s o e.
Proof.
  assert (Hd : forall s s', (forall t, core <$> threads s' !! t = core <$> threads s !! t) -> waiting s' o e -> waiting s o e).
  { clear s s'. intros s s' H (th & w & H1 & H2). destruct (core_lookup (threads s) _ _ _ (H _) H1) as (th' & H3 & H4).
    exists th', w. split; [done|]. by rewrite <-(core_wait _ _ H4). }
  intros H. split; apply Hd; [done|]. intros t. by rewrite H.
Qed.

Lemma stacks_core s s' : (forall t, core <$> threads s' !! t = core <$> threads s !! t) -> stacks_ok s -> stacks_ok s'.
Proof.
  intros H S t th E. destruct (core_lookup (threads s) _ _ _ (H _) E) as (th' & H3 & H4).
  rewrite (core_wait _ _ H4). by apply (S t).
Qed.

Lemma release_objects w o ob o' :
  objects w !! o = Some ob ->
  objects (release_object w o) !! o' =
    if decide (o' = o) then if decide (refcount ob = 1) then None else Some (mk_obj (ops ob) (refcount ob - 1) (handle_count ob))
    else objects w !! o'.
Proof.
  intros E. unfold release_object. rewrite E. destruct (Z.eqb_spec (refcount ob - 1) 0) as [Hz|Hz]; cbn [objects set_objects].
  - case_decide as H; [subst; by rewrite lookup_delete_eq, decide_True by lia|]. by rewrite lookup_delete_ne.
  - case_decide as H; [subst; by rewrite lookup_insert_eq, decide_False by lia|]. by rewrite lookup_insert_ne.
Qed.

Lemma release_handles w o : handles (release_object w o) = handles w /\ global_table (release_object w o) = global_table w.
Proof. unfold release_object. destruct (objects w !! o); [|done]. by case_match. Qed.

Lemma destroy_core s o t : core <$> threads (destroy s o) !! t = core <$> threads s !! t.
Proof.
  unfold destroy, mutex_destroy. destruct (sync_objects s !! o) as [[]|]; try done. case_match; [done|].
  destruct (owner m); [|done]. by apply alter_core.
Qed.

Lemma destroy_objects s o : sync_objects (destroy s o) = delete o (sync_objects s).
Proof.
  unfold destroy, mutex_destroy. destruct (sync_objects s !! o) as [[]|]; try done. case_match; [done|]. by destruct (owner m).
Qed.

(** The destructor of a mutex takes it from its owner. *)
Lemma destroy_data s o : data_ok s -> data_ok (destroy s o).
Proof.
  intros D. pose proof (destroy_objects s o) as Eo.
  assert (Hown : forall o', owner_of (destroy s o) o' = if decide (o' = o) then None else owner_of s o').
  { intros o'. unfold owner_of. rewrite Eo. case_decide as H; [subst; by rewrite lookup_delete_eq|]. by rewrite lookup_delete_ne. }
  assert (Hself : forall o' x, sync_objects (destroy s o) !! o' = Some x -> self_ok x).
  { intros o' x. rewrite Eo. intros [_ H]%lookup_delete_Some. by apply (dt_self _ D o'). }
  destruct (owner_of s o) as [t|] eqn:Ho.
  - unfold owner_of in Ho. destruct (sync_objects s !! o) as [[]|] eqn:Hx; try done.
    pose proof (dt_self _ D _ _ Hx) as Hs. cbn in Hs. rewrite Ho in Hs.
    assert (Ht : is_Some (threads s !! t)).
    { assert (o ∈ mutexes_of s t) as Hin by (apply (dt_owned _ D); unfold owner_of; by rewrite Hx).
      unfold mutexes_of in Hin. destruct (threads s !! t); [by eexists|by apply not_elem_of_nil in Hin]. }
    apply (data_ok_unlink s _ o t D); [unfold owner_of; by rewrite Hx|done| |done].
    unfold destroy, mutex_destroy. rewrite Hx, Ho. destruct (Z.eqb_spec (mutex_count m) 0); [lia|].
    by apply (mutexes_of_alter s _ t (filter (fun x => x <> o))).
  - apply (data_ok_same s _ D); [| |done].
    + intros o'. rewrite Hown. case_decide; [by subst|done].
    + intros t. unfold destroy, mutex_destroy. unfold owner_of in Ho. destruct (sync_objects s !! o) as [[]|]; try done. case_match; [done|]. by rewrite Ho.
Qed.

Lemma destroy_rest s o :
  objs (destroy s o) = objs s /\ wait_queue (destroy s o) = wait_queue s /\ processes (destroy s o) = processes s /\
  current_time (destroy s o) = current_time s /\ monotonic_time (destroy s o) = monotonic_time s /\ sent (destroy s o) = sent s.
Proof.
  unfold destroy, mutex_destroy. destruct (sync_objects s !! o) as [[]|]; try done. case_match; [done|]. by destruct (owner m).
Qed.

(** The destructor runs once the object is gone. *)
Lemma destroy_inv held extra s o :
  world_wf (objs s) -> objects (objs s) !! o = None -> queue s o = [] -> occ o held = O ->
  (forall x, x <> o -> refs_at held s x) -> queues_ok s extra -> stacks_ok s -> data_ok s -> room_ok s extra ->
  sync_inv held extra (destroy s o).
Proof.
  intros W Ho Hq Hh Hr Q S D R. destruct (destroy_rest s o) as (R1 & R2 & _).
  assert (Hqq : forall x, queue (destroy s o) x = queue s x) by (intros x; unfold queue; by rewrite R2).
  split.
  - by rewrite R1.
  - intros x. unfold refs_at. rewrite R1, Hqq, destroy_objects. destruct (decide (x = o)) as [->|Hne].
    + by rewrite Ho, lookup_delete_eq.
    + rewrite lookup_delete_ne by done. by apply Hr.
  - intros x. rewrite Hqq. destruct (Q x) as [Hn He]. split; [done|]. intros e. rewrite (waiting_core s); [done|apply destroy_core].
  - apply (stacks_core s); [apply destroy_core|done].
  - by apply destroy_data.
  - intros x m. rewrite destroy_objects, Hqq. intros [_ H]%lookup_delete_Some. by apply R.
Qed.

(** One reference less. *)
Lemma release_refs held s o x :
  refs_ok (o :: held) s -> is_Some (objects (objs s) !! o) ->
  x <> o \/ is_Some (objects (release_object (objs s) o) !! x) -> refs_at held (set_objs s (release_object (objs s) o)) x.
Proof.
  intros Hr [ob Eo] Hx. specialize (Hr x). unfold refs_at in *. cbn [objs set_objs sync_objects].
  change (queue (set_objs s _) x) with (queue s x). rewrite occ_cons in Hr. revert Hx.
  rewrite (release_objects _ _ ob) by done. destruct (decide (x = o)) as [->|Hne].
  - rewrite Eo in Hr. rewrite decide_True in Hr by done. destruct (decide (refcount ob = 1)); [by intros [?|[]]|].
    intros _. cbn. split; [lia|apply Hr].
  - rewrite decide_False in Hr by done. intros _. exact Hr.
Qed.

Lemma release_ok held extra s o :
  sync_inv (o :: held) extra s -> exists s', release s o = Some s' /\ sync_inv held extra s' /\ drops s s'.
Proof.
  intros I. pose proof (iv_refs _ _ _ I o) as Hr. unfold refs_at in Hr. rewrite occ_cons, decide_True in Hr by done. unfold release.
  destruct (objects (objs s) !! o) as [ob|] eqn:Eo; [|lia]. destruct Hr as [Hr Hq].
  pose proof (ww_counts _ (iv_world _ _ _ I) o) as Hc. rewrite Eo in Hc. pose proof (total_nonneg (objs s) o) as Htot.
  rewrite (proj2 (Z.eqb_neq (refcount ob) 0)) by lia. set (s1 := set_objs s (release_object (objs s) o)).
  assert (Hw : world_wf (objs s1)) by (apply release_object_wf; [apply I|]; exists ob; split; [done|lia]).
  assert (D1 : data_ok s1) by (apply (data_ok_same s); [apply I|done|done|apply (dt_self _ (iv_data _ _ _ I))]).
  assert (Hrefs : forall x, x <> o \/ is_Some (objects (objs s1) !! x) -> refs_at held s1 x).
  { intros x Hx. apply release_refs; [apply I|by exists ob|done]. }
  assert (Eob : objects (objs s1) !! o = if decide (refcount ob = 1) then None else Some (mk_obj (ops ob) (refcount ob - 1) (handle_count ob))).
  { cbn. by rewrite (release_objects _ _ ob), decide_True. }
  destruct (Z.eqb_spec (refcount ob - 1) 0) as [Hz|Hz]; cbn [negb].
  - rewrite decide_True in Eob by lia.
    assert (handle_count ob = 0 /\ length (queue s o) = O /\ occ o held = O) as (H1 & H2 & H3) by lia.
    rewrite H1. cbn [Z.eqb negb]. change (queue s1 o) with (queue s o). apply nil_length_inv in H2. rewrite H2.
    eexists. split; [done|]. split; [apply destroy_inv; try done; [by auto|apply I..]|].
    destruct (destroy_rest s1 o) as (R1 & R2 & R3 & R4 & R5 & R6).
    split; [intros t; apply (destroy_core s1)| |done..|rewrite R1; apply release_handles].
    intros x. rewrite R1, destroy_objects. destruct (decide (x = o)) as [->|Hne]; [left; by rewrite lookup_delete_eq|right].
    rewrite lookup_delete_ne by done. cbn [objs s1 set_objs]. by rewrite (release_objects _ _ ob), decide_False.
  - rewrite decide_False in Eob by lia. eexists. split; [done|].
    split; [split; try done; try apply I|split; try done; [|apply release_handles]].
    + intros x. apply Hrefs. destruct (decide (x = o)) as [->|]; [right; rewrite Eob; by eexists|by left].
    + intros x. right. split; [|done]. destruct (decide (x = o)) as [->|]; [by rewrite Eob, Eo|].
      cbn. by rewrite (release_objects _ _ ob), decide_False.
Qed.

(** ** Taking a wait off the queues *)

Lemma filter_neq_id (e : wait_queue_entry) (q : list wait_queue_entry) : e ∉ q -> filter (fun x => x <> e) q = q.
Proof.
  induction q as [|x q IH]; [done|]. rewrite not_elem_of_cons. intros [Hx Hq]. rewrite filter_cons, decide_True by auto.
  by rewrite IH.
Qed.

Lemma filter_neq_length (e : wait_queue_entry) (q : list wait_queue_entry) :
  NoDup q -> e ∈ q -> S (length (filter (fun x => x <> e) q)) = length q.
Proof.
  induction q as [|x q IH]; [by intros _ ?%not_elem_of_nil|]. intros [Hx Hn]%list.NoDup_cons He. rewrite filter_cons.
  case_decide as E.
  - cbn. f_equal. apply IH; [done|]. apply elem_of_cons in He as [->|]; done.
  - assert (x = e) as -> by (destruct (decide (x = e)); tauto). cbn. by rewrite filter_neq_id.
Qed.

Lemma set_queue_lookup s o q x : queue (set_queue s o q) x = if decide (x = o) then q else queue s x.
Proof.
  unfold queue. cbn. case_decide as E; [subst; by rewrite lookup_insert_eq|]. by rewrite lookup_insert_ne.
Qed.

Lemma unlink_entry held extra s o e :
  sync_inv held ((o, e) :: extra) s -> ~ waiting s o e -> (o, e) ∉ extra ->
  sync_inv (o :: held) extra (set_queue s o (filter (fun x => x <> e) (queue s o))).
Proof.
  intros I Hw He. destruct (iv_queues _ _ _ I o) as [Hn Hq].
  assert (Hin : e ∈ queue s o) by (apply Hq; right; by left). pose proof (filter_neq_length e _ Hn Hin) as Hl.
  split; try apply I.
  - intros x. pose proof (iv_refs _ _ _ I x) as Hr. unfold refs_at in *. rewrite set_queue_lookup, occ_cons. cbn [objs sync_objects set_queue].
    destruct (decide (x = o)) as [->|Hne].
    + destruct (objects (objs s) !! o); [|destruct Hr as [Hr _]; rewrite Hr in Hin; by apply not_elem_of_nil in Hin].
      rewrite decide_True by done. destruct Hr as [Hr Hs]. split; [lia|]. intros _. apply Hs. intros E. rewrite E in Hin. by apply not_elem_of_nil in Hin.
    + by rewrite decide_False by done.
  - intros x. rewrite set_queue_lookup. change (waiting (set_queue s o _) x) with (waiting s x). destruct (iv_queues _ _ _ I x) as [Hn' Hq'].
    destruct (decide (x = o)) as [->|Hne].
    + split; [by apply list.NoDup_filter|]. intros e'. rewrite list_elem_of_filter, Hq, elem_of_cons. split.
      * intros [Hne [?|[[= ->]|?]]]; auto. done.
      * intros [H|H]; (split; [intros ->; done|auto]).
    + split; [done|]. intros e'. rewrite Hq', elem_of_cons. split; [intros [?|[[= -> ->]|?]]; auto; done|]. tauto.
  - apply (data_ok_same s); [apply I|done|done|apply (dt_self _ (iv_data _ _ _ I))].
  - intros x m Hm. pose proof (iv_room _ _ _ I x m Hm) as Hr. rewrite fmap_cons, occ_cons in Hr. cbn [fst] in Hr.
    rewrite set_queue_lookup. destruct (decide (x = o)) as [->|]; [rewrite decide_True in Hr by done; lia|].
    rewrite decide_False in Hr by done. lia.
Qed.

(** The queue entries of a wait, from number [i] on. *)
Fixpoint entries_from (t addr : Z) (i : nat) (os : list Z) : leftover :=
  match os with
  | [] => []
  | o :: os => (o, mk_entry t addr i) :: entries_from t addr (S i) os
  end.

Lemma entries_from_objects t addr i os : (entries_from t addr i os).*1 = os.
Proof. revert i. induction os as [|o os IH]; intros i; [done|]. cbn. by rewrite IH. Qed.

Lemma elem_of_entries_from t addr os : forall i o e,
  (o, e) ∈ entries_from t addr i os <->
  e_thread e = t /\ e_wait e = addr /\ exists k, e_index e = (i + k)%nat /\ os !! k = Some o.
Proof.
  induction os as [|o' os IH]; intros i o e; cbn [entries_from].
  - split; [by intros ?%not_elem_of_nil|]. intros (_ & _ & k & _ & ?). done.
  - rewrite elem_of_cons, IH. split.
    + intros [[= -> ->]|(H1 & H2 & k & H3 & H4)].
      * split; [done|]. split; [done|]. exists O. cbn. split; [lia|done].
      * split; [done|]. split; [done|]. exists (S k). split; [lia|done].
    + intros (H1 & H2 & [|k] & H3 & H4).
      * left. injection H4 as <-. f_equal. destruct e. cbn in *. subst. f_equal. lia.
      * right. split; [done|]. split; [done|]. exists k. split; [lia|done].
Qed.

Lemma remove_queues_ok held t addr os : forall i s,
  sync_inv held (entries_from t addr i os) s -> (forall o j, ~ waiting s o (mk_entry t addr j)) ->
  exists s', remove_queues s t addr i os = Some s' /\ sync_inv held [] s' /\ drops s s'.
Proof.
  induction os as [|o os IH]; intros i s I Hw; [by exists s|]. cbn [remove_queues entries_from] in *. unfold remove_queue.
  assert (Hni : (o, mk_entry t addr i) ∉ entries_from t addr (S i) os).
  { rewrite elem_of_entries_from. intros (_ & _ & k & H & _). cbn in H. lia. }
  pose proof (unlink_entry _ _ _ _ _ I (Hw o i) Hni) as I1.
  destruct (release_ok _ _ _ _ I1) as (s1 & -> & I2 & D1). cbn.
  assert (D0 : drops s s1) by (destruct D1; by split). destruct (IH (S i) s1 I2) as (s' & -> & I3 & D2).
  - intros o' j. rewrite (waiting_core s) by apply D0. apply Hw.
  - exists s'. split; [done|]. split; [done|]. by transitivity s1.
Qed.

(** ** Ending a wait *)

Definition pop (s : sync) (t : Z) (th : thread) (rest : list thread_wait) : sync :=
  set_threads s (<[t := set_wait th rest]> (threads s)).

Lemma pop_lookup s t th rest t' :
  threads (pop s t th rest) !! t' = if decide (t' = t) then Some (set_wait th rest) else threads s !! t'.
Proof. cbn. case_decide as E; [subst; by rewrite lookup_insert_eq|]. by rewrite lookup_insert_ne. Qed.

Lemma pop_waiting s t th w rest o e :
  threads s !! t = Some th -> wait th = w :: rest ->
  waiting s o e <-> waiting (pop s t th rest) o e \/ (o, e) ∈ entries_from t (w_addr w) 0 (w_objs w).
Proof.
  intros Ht Hw. rewrite elem_of_entries_from. unfold waiting. rewrite pop_lookup. split.
  - intros (th' & w' & H1 & H2 & H3 & H4). destruct (decide (e_thread e = t)) as [E|]; [|left; by exists th', w'].
    rewrite E, Ht in H1. injection H1 as <-. rewrite Hw in H2. apply elem_of_cons in H2 as [->|H2].
    + right. split; [done|]. split; [done|]. exists (e_index e). split; [lia|done].
    + left. by exists (set_wait th rest), w'.
  - intros [(th' & w' & H1 & H2 & H3 & H4)|(H1 & H2 & k & H3 & H4)].
    + destruct (decide (e_thread e = t)) as [E|]; [|by exists th', w']. injection H1 as <-. cbn in H2.
      exists th, w'. rewrite E, Hw. split; [done|]. split; [by right|done].
    + exists th, w. rewrite H1, Hw. split; [done|]. split; [by left|]. split; [done|]. by rewrite H3.
Qed.

Lemma pop_not_waiting s t th w rest o j :
  stacks_ok s -> threads s !! t = Some th -> wait th = w :: rest -> ~ waiting (pop s t th rest) o (mk_entry t (w_addr w) j).
Proof.
  intros S Ht Hw (th' & w' & H1 & H2 & H3 & _). cbn [e_thread e_wait] in *. rewrite pop_lookup, decide_True in H1 by done.
  injection H1 as <-. cbn in H2. destruct (S t th Ht) as [Hn _]. rewrite Hw, fmap_cons in Hn.
  apply list.NoDup_cons in Hn as [Hn _]. apply Hn. rewrite <-H3. by apply list_elem_of_fmap_2.
Qed.

Lemma pop_inv held s t th w rest :
  sync_inv held [] s -> threads s !! t = Some th -> wait th = w :: rest ->
  sync_inv held (entries_from t (w_addr w) 0 (w_objs w)) (pop s t th rest).
Proof.
  intros I Ht Hw. split; try apply I.
  - intros o. change (queue (pop s t th rest) o) with (queue s o). destruct (iv_queues _ _ _ I o) as [Hn He]. split; [done|].
    intros e. rewrite He, (pop_waiting s t th w rest o e Ht Hw). rewrite elem_of_nil. tauto.
  - intros t' th' E. rewrite pop_lookup in E. destruct (decide (t' = t)) as [->|]; [|by apply (iv_stacks _ _ _ I t')].
    injection E as <-. destruct (iv_stacks _ _ _ I t th Ht) as [H1 H2]. rewrite Hw in H1, H2. cbn [wait set_wait].
    rewrite fmap_cons in H1. apply list.NoDup_cons in H1 as [_ H1]. split; [done|]. intros w' Hin. apply H2. by right.
  - apply (data_ok_same s); [apply I|done| |apply (dt_self _ (iv_data _ _ _ I))]. intros t'. unfold mutexes_of. rewrite pop_lookup.
    case_decide; [subst; by rewrite Ht|done].
  - intros o m Hm. pose proof (iv_room _ _ _ I o m Hm) as H. cbn in H. change (queue (pop s t th rest) o) with (queue s o). lia.
Qed.

(** The objects of a wait are in use, and one of their queue entries is its own. *)
Lemma wait_object held extra s t th w o :
  sync_inv held extra s -> threads s !! t = Some th -> w ∈ wait th -> o ∈ w_objs w -> (0 < length (queue s o))%nat.
Proof.
  intros I Ht Hw Ho. apply list_elem_of_lookup in Ho as [i Hi].
  assert (mk_entry t (w_addr w) i ∈ queue s o) as Hin by (apply (iv_queues _ _ _ I); left; by exists th, w).
  destruct (queue s o); [by apply not_elem_of_nil in Hin|cbn; lia].
Qed.

Lemma taken_inv held t os extra s s' :
  sync_inv held extra s -> room_ok s [] -> taken t os s s' -> (forall o, o ∈ os -> o ∈ extra.*1) -> sync_inv held extra s'.
Proof.
  intros I R [O D Q] Hos. pose proof (fun o => only_data_queue s s' o O) as Hq. split; [|intros x|intros x| | |].
  - rewrite (od_objs _ _ O). apply I.
  - pose proof (iv_refs _ _ _ I x) as H. unfold refs_at in *. rewrite (od_objs _ _ O), Hq.
    pose proof (od_kinds _ _ O x) as Hk. destruct (objects (objs s) !! x).
    + split; [apply H|]. intros Hne. destruct (proj2 H Hne) as [y Hy]. rewrite Hy in Hk. destruct (sync_objects s' !! x); [by eexists|done].
    + destruct H as (H1 & H2 & H3). rewrite H3 in Hk. split; [done|]. split; [done|]. by destruct (sync_objects s' !! x).
  - rewrite Hq. destruct (iv_queues _ _ _ I x) as [Hn He]. split; [done|]. intros e. rewrite (waiting_core s); [done|apply O].
  - apply (stacks_core s); [apply O|apply I].
  - done.
  - intros x m. rewrite Q, Hq. case_decide as E; [|apply I]. apply Hos, occ_pos in E.
    destruct (sync_objects s !! x) as [[]|] eqn:Ex; try done. intros [= <-]. pose proof (R _ _ Ex) as H. cbn in *. lia.
Qed.

(** The wait of [t] ends with [status]: the objects it acquires change, then the
    references of its queue entries go. *)
Lemma end_wait_run held s t th w rest status :
  sync_inv held [] s -> threads s !! t = Some th -> wait th = w :: rest -> 0 <= status ->
  (forall o, o ∈ granted w status -> signaled s o t = true) ->
  exists s1 s', end_wait s t status = Some (s', wait_status s w status) /\ sync_inv held [] s' /\
    taken t (granted w status) (pop s t th rest) s1 /\ drops s1 s'.
Proof.
  intros I Ht Hw Hst Hsig. pose proof (pop_inv held s t th w rest I Ht Hw) as Ip. unfold end_wait. rewrite Ht, Hw.
  fold (pop s t th rest). assert (Hin : w ∈ wait th) by (rewrite Hw; by left).
  destruct (satisfy_wait_run (pop s t th rest) t w status) as (s1 & E1 & T1).
  - apply Ip.
  - rewrite pop_lookup, decide_True by done. by eexists.
  - done.
  - apply granted_nodup. by apply (proj2 (iv_stacks _ _ _ I t th Ht) w Hin).
  - intros o Ho. split.
    + rewrite <-(Hsig o Ho). apply signaled_ext; [done|]. rewrite pop_lookup. case_decide; [subst; by rewrite Ht|done].
    + intros m Hm. pose proof (iv_room _ _ _ I o m Hm) as Hr. pose proof (wait_object _ _ _ _ _ _ o I Ht Hin (granted_subset _ _ _ Ho)).
      cbn in Hr. lia.
  - rewrite E1. cbn. destruct (remove_queues_ok held t (w_addr w) (w_objs w) 0 s1) as (s' & E2 & I2 & D2).
    + eapply taken_inv; [exact Ip|apply I|exact T1|]. intros o. rewrite entries_from_objects. apply granted_subset.
    + intros o j. rewrite (waiting_core (pop s t th rest)) by apply T1. by apply (pop_not_waiting s t th); [apply I|..].
    + rewrite E2. exists s1, s'. done.
Qed.

(** ** Ending waits settles the objects *)

Lemma pop_settles s t th w rest : threads s !! t = Some th -> wait th = w :: rest -> settles s (pop s t th rest).
Proof.
  intros Ht Hw. split; try done.
  - intros o t'. rewrite (signaled_ext s); [done|done|]. rewrite pop_lookup. case_decide; [subst; by rewrite Ht|done].
  - intros o. by right.
  - intros t'. rewrite pop_lookup. case_decide; [subst; by rewrite Ht|done].
  - intros t'. unfold waits_of. rewrite pop_lookup. case_decide; [subst|done]. rewrite Ht, Hw. cbn. by apply suffix_cons_r.
Qed.

Lemma taken_other s s' t os o t' : taken t os s s' -> o ∉ os -> signaled s' o t' = signaled s o t'.
Proof.
  intros T Ho. apply signaled_ext; [|apply only_data_terminated, T]. rewrite (tk_objects _ _ _ _ T). by rewrite decide_False.
Qed.

Lemma taken_settles s s' t os :
  data_ok s -> taken t os s s' -> (forall o, o ∈ os -> signaled s o t = true) -> settles s s'.
Proof.
  intros D T Hs. pose proof (tk_only _ _ _ _ T) as O. split; try apply O.
  - intros o t'. destruct (decide (o ∈ os)) as [Hin|]; [|by rewrite (taken_other _ _ _ _ _ _ T)].
    specialize (Hs o Hin). revert Hs. unfold signaled, semaphore_signaled, mutex_signaled, thread_signaled. rewrite (tk_objects _ _ _ _ T), decide_True by done.
    destruct (sync_objects s !! o) as [[[[] ?]|m|m| |]|] eqn:Ex; cbn; try done.
    + pose proof (dt_self _ D _ _ Ex) as Hm. cbn in Hm. destruct (Z.eqb_spec (mutex_count m + 1) 0); [destruct (owner m); lia|].
      cbn. intros H E. apply bool_decide_eq_true in E. injection E as ->. done.
  - intros o. unfold supply. rewrite (tk_objects _ _ _ _ T). case_decide; [|done].
    destruct (sync_objects s !! o) as [[[[] []]|m|m| |]|]; cbn; lia.
  - intros o. right. split; [by rewrite (od_objs _ _ O)|apply O].
  - intros t'. apply core_rest, O.
  - intros t'. by rewrite (only_data_waits s s').
  - by rewrite (od_objs _ _ O).
Qed.

(** An object of limited supply that satisfies a wait has less to give. *)
Lemma taken_supply s s' t os o :
  taken t os s s' -> o ∈ os -> signaled s o t = true -> limited s o -> supply s' o <= supply s o - 1.
Proof.
  intros T Ho Hs Hl. unfold supply, signaled, semaphore_signaled, mutex_signaled, thread_signaled, limited in *. rewrite (tk_objects _ _ _ _ T), decide_True by done.
  destruct (sync_objects s !! o) as [[[[] sg]|m|m| |]|]; cbn in *; destruct Hl as [[=]|[=]].
  - by rewrite Hs.
  - lia.
Qed.

Lemma limited_empty s o t : limited s o -> supply s o <= 0 -> signaled s o t = false.
Proof.
  unfold limited, supply, signaled, semaphore_signaled, mutex_signaled, thread_signaled. destruct (sync_objects s !! o) as [[[[] []]|m|m| |]|]; cbn;
    intros [Hl|Hl] Hs; (discriminate Hl || done || lia).
Qed.

(** ** Waking a thread *)

Lemma first_signaled_spec s t os : forall i st,
  first_signaled s t i os = Some st -> exists k o, st = i + Z.of_nat k /\ os !! k = Some o /\ signaled s o t = true.
Proof.
  induction os as [|o os IH]; intros i st; cbn; [done|]. destruct (signaled s o t) eqn:E.
  - intros [= <-]. exists O, o. split; [lia|done].
  - intros H. destruct (IH _ _ H) as (k & o' & -> & H1 & H2). exists (S k), o'. split; [lia|done].
Qed.

Lemma first_signaled_none s t os i : first_signaled s t i os = None <-> forall o, o ∈ os -> signaled s o t = false.
Proof.
  revert i. induction os as [|o os IH]; intros i; cbn.
  - split; [|done]. by intros _ o ?%not_elem_of_nil.
  - destruct (signaled s o t) eqn:E.
    + split; [done|]. intros H. rewrite H in E by (by left). done.
    + rewrite IH. split; [|intros H o' Ho; apply H; by right]. intros H o' [->|Ho]%elem_of_cons; auto.
Qed.

(** A wait that ends as satisfied has its objects signaled. *)
Lemma check_wait_sound s t th w status :
  wait_ok w -> check_wait s t th w = Some status ->
  0 <= status /\ forall o, o ∈ granted w status -> signaled s o t = true.
Proof.
  intros [Hl _] H. unfold MAXIMUM_WAIT_OBJECTS in Hl.
  assert (Hbig : forall st, 64 <= st -> 0 <= st /\ forall o, o ∈ granted w st -> signaled s o t = true).
  { intros st Hst. split; [lia|]. intros o. unfold granted. destruct (Z.ltb_spec st (Z.of_nat (length (w_objs w)))); [lia|]. by intros ?%not_elem_of_nil. }
  revert H. unfold check_wait. case_match; [intros [= <-]; by apply Hbig|]. case_match; [done|].
  destruct (bool_decide (w_select w = SELECT_WAIT_ALL)) eqn:Ea.
  - destruct (forallb _ (w_objs w)) eqn:Ef.
    + intros [= <-]. split; [done|]. intros o Ho. apply granted_subset in Ho. rewrite forallb_forall in Ef.
      apply Ef. by apply list_elem_of_In.
    + repeat (case_match; [intros [= <-]; by apply Hbig|]). done.
  - destruct (first_signaled s t 0 (w_objs w)) as [i|] eqn:Ei.
    + intros [= ->]. destruct (first_signaled_spec _ _ _ _ _ Ei) as (k & o & -> & H1 & H2). split; [lia|].
      intros o' Ho. unfold granted in Ho. rewrite Ea in Ho. rewrite Z.add_0_l, Nat2Z.id, H1 in Ho. case_match; cbn in Ho.
      * apply list_elem_of_singleton in Ho. by subst.
      * by apply not_elem_of_nil in Ho.
    + repeat (case_match; [intros [= <-]; by apply Hbig|]). done.
Qed.

(** The reply leaves everything but the saved context alone. *)
Lemma send_wakeup_core s t cookie status t' :
  core <$> threads (send_thread_wakeup s t cookie status) !! t' = core <$> threads s !! t'.
Proof.
  unfold send_thread_wakeup. destruct (threads s !! t) as [th|] eqn:E; [|done]. repeat (case_match; try done).
  cbn. destruct (decide (t = t')) as [<-|]; [by rewrite lookup_insert_eq, E|by rewrite lookup_insert_ne].
Qed.

Lemma send_wakeup_rest s t cookie status :
  let s' := send_thread_wakeup s t cookie status in
  objs s' = objs s /\ sync_objects s' = sync_objects s /\ wait_queue s' = wait_queue s /\ processes s' = processes s /\
  current_time s' = current_time s /\ monotonic_time s' = monotonic_time s /\ (forall t, mutexes_of s' t = mutexes_of s t).
Proof.
  unfold send_thread_wakeup. destruct (threads s !! t) as [th|] eqn:E; [|done]. repeat (case_match; try done).
  cbn. repeat (split; [done|]). intros t'. unfold mutexes_of. cbn.
  destruct (decide (t = t')) as [<-|]; [by rewrite lookup_insert_eq, E|by rewrite lookup_insert_ne].
Qed.

(** The optional reply of wake_thread. *)
Definition reply (s : sync) (t : Z) (w : thread_wait) (status : Z) : sync :=
  if w_cookie w =? 0 then s else send_thread_wakeup s t (w_cookie w) status.

Lemma same_inv held extra s s' :
  sync_inv held extra s -> objs s' = objs s -> sync_objects s' = sync_objects s -> wait_queue s' = wait_queue s ->
  (forall t, core <$> threads s' !! t = core <$> threads s !! t) -> (forall t, mutexes_of s' t = mutexes_of s t) ->
  sync_inv held extra s'.
Proof.
  intros I E1 E2 E3 E4 E5. assert (Hq : forall o, queue s' o = queue s o) by (intros o; unfold queue; by rewrite E3). split.
  - rewrite E1. apply I.
  - intros o. unfold refs_at. rewrite E1, E2, Hq. apply I.
  - intros o. rewrite Hq. destruct (iv_queues _ _ _ I o) as [Hn He]. split; [done|]. intros e. by rewrite (waiting_core s).
  - apply (stacks_core s); [done|apply I].
  - apply (data_ok_same s); [apply I| |done|rewrite E2; apply (dt_self _ (iv_data _ _ _ I))]. intros o. unfold owner_of. by rewrite E2.
  - intros o m. rewrite E2, Hq. apply I.
Qed.

Lemma same_settles s s' :
  objs s' = objs s -> sync_objects s' = sync_objects s -> processes s' = processes s ->
  current_time s' = current_time s -> monotonic_time s' = monotonic_time s ->
  (forall t, core <$> threads s' !! t = core <$> threads s !! t) -> settles s s'.
Proof.
  intros E1 E2 E3 E4 E5 E6. split; try done.
  - intros o t. rewrite (signaled_ext s s'); [done|by rewrite E2|]. pose proof (E6 o) as Et.
    destruct (threads s' !! o), (threads s !! o); try done. apply (inj Some), core_terminated in Et. cbn. by rewrite Et.
  - intros o. unfold supply. by rewrite E2.
  - intros o. right. by rewrite E1, E2.
  - intros t. by apply core_rest.
  - intros t. by rewrite (core_waits s s').
  - by rewrite E1.
Qed.

Lemma send_wakeup_ok held extra s t cookie status :
  sync_inv held extra s -> sync_inv held extra (send_thread_wakeup s t cookie status) /\ settles s (send_thread_wakeup s t cookie status).
Proof.
  intros I. destruct (send_wakeup_rest s t cookie status) as (H1 & H2 & H3 & H4 & H5 & H6 & H7).
  split; [apply (same_inv _ _ s)|apply same_settles]; try done; apply send_wakeup_core.
Qed.

Lemma reply_ok held s t w status : sync_inv held [] s -> sync_inv held [] (reply s t w status) /\ settles s (reply s t w status).
Proof. intros I. unfold reply. case_match; [done|by apply send_wakeup_ok]. Qed.

Lemma reply_core s t w status t' : core <$> threads (reply s t w status) !! t' = core <$> threads s !! t'.
Proof. unfold reply. case_match; [done|apply send_wakeup_core]. Qed.

(** One iteration of wake_thread: the topmost wait of [t] ends, its objects are
    taken and released, and the thread gets its reply. *)
Definition wakes (t : Z) (w : thread_wait) (status : Z) (s s' : sync) : Prop :=
  exists th rest, threads s !! t = Some th /\ wait th = w :: rest /\ check_wait s t th w = Some status /\
    exists s1 s2, taken t (granted w status) (pop s t th rest) s1 /\ drops s1 s2 /\ s' = reply s2 t w (wait_status s w status).

(** What a wakeup does to the stacks. *)
Lemma wakes_waits t w status s s' t' :
  wakes t w status s s' -> waits_of s' t' = if decide (t' = t) then tail (waits_of s t) else waits_of s t'.
Proof.
  intros (th & rest & Ht & Hw & _ & s1 & s2 & T & D & ->).
  rewrite (core_waits s2) by apply reply_core. rewrite (core_waits s1) by apply D. rewrite (core_waits (pop s t th rest)) by apply T.
  unfold waits_of. rewrite pop_lookup. case_decide; [subst; by rewrite Ht, Hw|done].
Qed.

Lemma wakes_settles held t w status s s' :
  sync_inv held [] s -> wakes t w status s s' -> settles s s' /\
  forall o, o ∈ granted w status -> signaled s o t = true /\ (limited s o -> supply s' o <= supply s o - 1).
Proof.
  intros I (th & rest & Ht & Hw & Hc & s1 & s2 & T & D & ->).
  assert (Hok : wait_ok w) by (apply (iv_stacks _ _ _ I t th Ht); rewrite Hw; by left).
  destruct (check_wait_sound _ _ _ _ _ Hok Hc) as [Hst Hg].
  pose proof (pop_settles s t th w rest Ht Hw) as S0.
  assert (Hsig : forall o t', signaled (pop s t th rest) o t' = signaled s o t').
  { intros o t'. apply signaled_ext; [done|]. rewrite pop_lookup. case_decide; [subst; by rewrite Ht|done]. }
  assert (S1 : settles (pop s t th rest) s1).
  { apply (taken_settles _ _ t (granted w status)); [|done|intros o Ho; rewrite Hsig; by apply Hg].
    apply (pop_inv held s t th w rest I Ht Hw). }
  assert (S2 : settles s1 s2) by (apply drops_settles; [apply T|done]).
  assert (S3 : settles s2 (reply s2 t w (wait_status s w status))).
  { unfold reply. case_match; [done|]. destruct (send_wakeup_rest s2 t (w_cookie w) (wait_status s w status)) as (H1 & H2 & H3 & H4 & H5 & H6 & H7).
    apply same_settles; try done. apply send_wakeup_core. }
  split; [by transitivity (pop s t th rest); [|transitivity s1; [|transitivity s2]]|].
  intros o Ho. split; [by apply Hg|]. intros Hl.
  pose proof (taken_supply _ _ _ _ o T Ho) as H. rewrite Hsig in H. specialize (H (Hg o Ho) Hl).
  pose proof (se_supply _ _ S3 o). pose proof (se_supply _ _ S2 o). change (supply (pop s t th rest) o) with (supply s o) in H. lia.
Qed.

(** Nothing left to do for a thread. *)
Definition idle (s : sync) (t : Z) : Prop :=
  forall th w rest, threads s !! t = Some th -> wait th = w :: rest -> check_wait s t th w = None.

(** Wakeups of one thread, one after the other. *)
Inductive wakes_many (held : list Z) (t : Z) : sync -> sync -> Prop :=
  | wakes_none s : wakes_many held t s s
  | wakes_one s s' s'' w status :
      sync_inv held [] s -> wakes t w status s s' -> sync_inv held [] s' -> wakes_many held t s' s'' -> wakes_many held t s s''.

Lemma end_wait_wakes held s t th w rest status :
  sync_inv held [] s -> threads s !! t = Some th -> wait th = w :: rest -> check_wait s t th w = Some status ->
  exists s', end_wait s t status = Some (s', wait_status s w status) /\
    let s'' := reply s' t w (wait_status s w status) in wakes t w status s s'' /\ sync_inv held [] s''.
Proof.
  intros I Ht Hw Hc. assert (Hok : wait_ok w) by (apply (iv_stacks _ _ _ I t th Ht); rewrite Hw; by left).
  destruct (check_wait_sound _ _ _ _ _ Hok Hc) as [Hst Hg].
  destruct (end_wait_run held s t th w rest status I Ht Hw Hst Hg) as (s1 & s2 & E & I2 & T & D).
  exists s2. split; [done|]. split; [|by apply reply_ok]. exists th, rest. repeat (split; [done|]). by exists s1, s2.
Qed.

Lemma wake_thread_loop_run held t : forall fuel s n,
  sync_inv held [] s -> is_Some (threads s !! t) -> (length (waits_of s t) <= fuel)%nat ->
  exists s' k, wake_thread_loop fuel s t n = Some (s', n + Z.of_nat k) /\ sync_inv held [] s' /\ wakes_many held t s s' /\ idle s' t /\
    (length (waits_of s' t) + k = length (waits_of s t))%nat /\ (k = O -> s' = s).
Proof.
  induction fuel as [|fuel IH]; intros s n I [th Ht] Hf; unfold wake_thread_loop; fold wake_thread_loop; rewrite Ht;
    unfold waits_of in Hf; rewrite Ht in Hf; destruct (wait th) as [|w rest] eqn:Hw.
  - exists s, O. rewrite Z.add_0_r. repeat (split; [done || constructor|]). split; [|done]. intros th' w' rest' H1 H2. congruence.
  - cbn in Hf. lia.
  - exists s, O. rewrite Z.add_0_r. repeat (split; [done || constructor|]). split; [|done]. intros th' w' rest' H1 H2. congruence.
  - destruct (check_wait s t th w) as [status|] eqn:Hc.
    2: { exists s, O. rewrite Z.add_0_r. repeat (split; [done || constructor|]). split; [|done]. intros th' w' rest' H1 H2. congruence. }
    destruct (end_wait_wakes held s t th w rest status I Ht Hw Hc) as (s1 & -> & W & I1). cbn [mbind option_bind].
    fold (reply s1 t w (wait_status s w status)). set (s2 := reply s1 t w (wait_status s w status)) in *.
    pose proof (wakes_waits _ _ _ _ _ t W) as Hws. rewrite decide_True in Hws by done.
    assert (Hw0 : waits_of s t = w :: rest) by (unfold waits_of; by rewrite Ht). rewrite Hw0 in Hws. cbn in Hws.
    destruct (IH s2 (n + 1)) as (s' & k & E & I' & M' & Id & Hl & _); [done| |rewrite Hws; cbn in Hf; lia|].
    { pose proof (se_threads _ _ (proj1 (wakes_settles _ _ _ _ _ _ I W)) t) as E. rewrite Ht in E. by destruct (threads s2 !! t). }
    exists s', (S k). split; [rewrite E; do 2 f_equal; lia|]. split; [done|]. split; [by econstructor|]. split; [done|].
    split; [rewrite Hw0; rewrite Hws in Hl; cbn; lia|done].
Qed.

(** wake_thread ends the topmost waits that are satisfied, and stops at the first
    one that is not. *)
Lemma wake_thread_run held s t :
  sync_inv held [] s -> is_Some (threads s !! t) ->
  exists s' k, wake_thread s t = Some (s', Z.of_nat k) /\ sync_inv held [] s' /\ wakes_many held t s s' /\ idle s' t /\
    (length (waits_of s' t) + k = length (waits_of s t))%nat /\ (k = O -> s' = s).
Proof. intros I Ht. by apply (wake_thread_loop_run held t (length (waits_of s t)) s 0 I Ht). Qed.
