(* ===== verification/SyncWakeup.v ===== *)
(** * No wakeup is lost: wake_up of server/thread.c

    wake_up always returns, wakes only threads whose wait is satisfied, and
    afterwards every thread that had nothing to do before the object changed has
    nothing to do again. *)

From Stdlib Require Import ZArith Lia.
From stdpp Require Import base list numbers option gmap.
From S2P Require Import Prelude Handles HandleTheorems HandleCounts HandleSteps Sync SyncInvariant SyncWaits.

#[local] Open Scope Z_scope.

(** ** Sequences of wakeups *)

(** A wakeup between states that satisfy the invariant. *)
Definition wake (held : list Z) (s s' : sync) : Prop :=
  sync_inv held [] s /\ sync_inv held [] s' /\ exists t w status, wakes t w status s s'.

Lemma wakes_many_rtc held t s s' : wakes_many held t s s' -> rtc (wake held) s s'.
Proof. induction 1 as [|s s' s'' w status I H I' _ IH]; [done|]. eapply rtc_l; [|done]. split; [done|]. split; [done|]. by exists t, w, status. Qed.

Lemma wakes_many_settles held t s s' :
  wakes_many held t s s' -> settles s s' /\ forall t', t' <> t -> waits_of s' t' = waits_of s t'.
Proof.
  induction 1 as [|s s' s'' w status I H _ _ [S IH]]; [done|]. destruct (wakes_settles _ _ _ _ _ _ I H) as [S0 _].
  split; [by transitivity s'|]. intros t' Hne. rewrite IH, (wakes_waits _ _ _ _ _ t' H) by done. by rewrite decide_False.
Qed.

(** The waits of every thread, counted. *)
Definition stack_sizes (s : sync) : gmap Z nat := (fun th => length (wait th)) <$> threads s.

Lemma pending_sizes s : pending s = map_fold (fun _ n m => (n + m)%nat) O (stack_sizes s).
Proof. unfold pending, stack_sizes. by rewrite map_fold_fmap. Qed.

Lemma pending_less s s' t :
  (forall t', is_Some (threads s' !! t') <-> is_Some (threads s !! t')) -> is_Some (threads s !! t) ->
  (forall t', t' <> t -> waits_of s' t' = waits_of s t') -> (length (waits_of s' t) < length (waits_of s t))%nat ->
  (pending s' < pending s)%nat.
Proof.
  intros Hd Ht Ho Hl. rewrite !pending_sizes.
  assert (Hsz : forall x t', stack_sizes x !! t' = match threads x !! t' with Some _ => Some (length (waits_of x t')) | None => None end).
  { intros x t'. unfold stack_sizes, waits_of. rewrite lookup_fmap. by destruct (threads x !! t'). }
  assert (E : stack_sizes s' = <[t := length (waits_of s' t)]> (stack_sizes s)).
  { apply map_eq. intros t'. specialize (Hd t'). rewrite Hsz. destruct (decide (t = t')) as [<-|Hne].
    - rewrite lookup_insert_eq. destruct (threads s' !! t); [done|]. destruct (proj2 Hd Ht). done.
    - rewrite lookup_insert_ne, Hsz, Ho by done. destruct (threads s' !! t'), (threads s !! t'); try done.
      + by destruct (proj1 Hd ltac:(by eexists)).
      + by destruct (proj2 Hd ltac:(by eexists)). }
  destruct Ht as [th Ht]. assert (Es : stack_sizes s !! t = Some (length (waits_of s t))) by (by rewrite Hsz, Ht).
  rewrite E. rewrite <-insert_delete_eq. rewrite <-(insert_delete_id (stack_sizes s) t (length (waits_of s t))) at 2 by done.
  rewrite !map_fold_insert_L by (intros; lia || apply lookup_delete_eq). lia.
Qed.

(** ** Why a wait becomes satisfied *)

(** A thread up to what wakeups change. *)
Definition same_thread (th th' : thread) : Prop := core (set_wait th []) = core (set_wait th' []).

Lemma same_thread_fields th th' :
  same_thread th th' -> t_process th = t_process th' /\ system_apc th = system_apc th' /\ user_apc th = user_apc th' /\ suspend th = suspend th'.
Proof. unfold same_thread. by intros [=]. Qed.

(** If a wait is satisfied now and was not before, one of its objects has become
    signaled. *)
Lemma check_wait_cause s0 s t th0 th w status :
  wait_ok w -> same_thread th th0 -> processes s = processes s0 -> current_time s = current_time s0 ->
  monotonic_time s = monotonic_time s0 -> check_wait s0 t th0 w = None -> check_wait s t th w = Some status ->
  exists o, o ∈ granted w status /\ signaled s o t = true /\ signaled s0 o t = false.
Proof.
  intros Hok Hth Hp Ht Hm H0 H. destruct (check_wait_sound _ _ _ _ _ Hok H) as [Hst Hg].
  destruct (same_thread_fields _ _ Hth) as (F1 & F2 & F3 & F4).
  revert H0 H. unfold check_wait, suspended, process_suspend. rewrite F1, F2, F3, F4, Hp, Ht, Hm.
  case_match; [done|]. case_match; [done|].
  destruct (bool_decide (w_select w = SELECT_WAIT_ALL)) eqn:Ea.
  - destruct (forallb (fun o => signaled s0 o t) (w_objs w)) eqn:E0; [done|].
    destruct (forallb (fun o => signaled s o t) (w_objs w)) eqn:E1; [|by intros ->]. intros _ [= <-].
    assert (exists o, o ∈ w_objs w /\ signaled s0 o t = false) as (o & Ho & Hs).
    { clear -E0. induction (w_objs w) as [|o os IH]; [done|]. cbn in E0. destruct (signaled s0 o t) eqn:E.
      - destruct (IH E0) as (o' & ? & ?). exists o'. split; [by right|done].
      - exists o. split; [by left|done]. }
    assert (o ∈ granted w STATUS_WAIT_0) as Hin.
    { unfold granted. rewrite Ea. destruct (w_objs w); [by apply not_elem_of_nil in Ho|]. cbn [length]. by rewrite (proj2 (Z.ltb_lt STATUS_WAIT_0 _)) by (unfold STATUS_WAIT_0; lia). }
    exists o. split; [done|]. split; [by apply Hg|done].
  - destruct (first_signaled s0 t 0 (w_objs w)) as [i|] eqn:E0; [done|].
    destruct (first_signaled s t 0 (w_objs w)) as [i|] eqn:E1; [|by intros ->]. intros _ [= ->].
    destruct (first_signaled_spec _ _ _ _ _ E1) as (k & o & -> & H1 & H2). exists o.
    assert (o ∈ granted w (0 + Z.of_nat k)) as Hin.
    { unfold granted. rewrite Ea, Z.add_0_l, Nat2Z.id, H1. apply lookup_lt_Some in H1.
      rewrite (proj2 (Z.ltb_lt _ _)) by lia. cbn. by left. }
    split; [done|]. split; [done|]. eapply first_signaled_none; [exact E0|]. by eapply granted_subset.
Qed.

(** The rest of a thread, as an equation on lookups. *)
Definition rest_of (s : sync) (t : Z) : option thread := (fun th => core (set_wait th [])) <$> threads s !! t.

Lemma idle_queue held s s' t :
  sync_inv held [] s -> (forall o, queue s o <> [] -> signaled s' o t = true -> signaled s o t = true) -> rest_of s' t = rest_of s t ->
  processes s' = processes s -> current_time s' = current_time s -> monotonic_time s' = monotonic_time s ->
  waits_of s' t = waits_of s t -> idle s t -> idle s' t.
Proof.
  intros I Hs Et Hp Hc Hm Hw Hi th' w rest Ht' Hw'. destruct (check_wait s' t th' w) as [status|] eqn:Hck; [|done]. exfalso.
  unfold rest_of in Et. rewrite Ht' in Et. destruct (threads s !! t) as [th|] eqn:Ht; [|done].
  apply (inj Some) in Et. unfold waits_of in Hw. rewrite Ht, Ht', Hw' in Hw. symmetry in Hw.
  assert (Hin : w ∈ wait th) by (rewrite Hw; by left). pose proof (proj2 (iv_stacks _ _ _ I t th Ht) w Hin) as Hok.
  destruct (check_wait_cause s s' t th th' w status) as (o & Ho & H1 & H2); try done; [by eapply Hi|].
  apply Hs in H1; [congruence|]. apply granted_subset in Ho. pose proof (wait_object _ _ _ _ _ _ o I Ht Hin Ho) as Hq. intros E. rewrite E in Hq. cbn in Hq. lia.
Qed.

Lemma idle_mono held s s' t :
  sync_inv held [] s -> (forall o, signaled s' o t = true -> signaled s o t = true) -> rest_of s' t = rest_of s t ->
  processes s' = processes s -> current_time s' = current_time s -> monotonic_time s' = monotonic_time s ->
  waits_of s' t = waits_of s t -> idle s t -> idle s' t.
Proof. intros I Hs. apply (idle_queue held); auto. Qed.

Lemma idle_settles held s s' t :
  sync_inv held [] s -> settles s s' -> waits_of s' t = waits_of s t -> idle s t -> idle s' t.
Proof. intros I S. apply (idle_mono held); try apply S; [done|]. intros o. apply S. Qed.

(** ** Waking one thread of a queue *)

Lemma settles_thread s s' t : settles s s' -> is_Some (threads s' !! t) <-> is_Some (threads s !! t).
Proof.
  intros S. pose proof (se_threads _ _ S t) as E. destruct (threads s' !! t), (threads s !! t); try done; by split; intros [].
Qed.

(** A thread of a queue woke up: its first wakeup, and what followed. *)
Record woke (held : list Z) (q : list wait_queue_entry) (s s' : sync) (t : Z) (w : thread_wait) (status : Z) : Prop := {
  wo_in : exists e, e ∈ q /\ e_thread e = t;
  wo_check : exists th rest, threads s !! t = Some th /\ wait th = w :: rest /\ check_wait s t th w = Some status;
  wo_supply : forall o, o ∈ granted w status -> limited s o -> supply s' o <= supply s o - 1;
  wo_steps : rtc (wake held) s s';
  wo_settles : settles s s';
  wo_idle : idle s' t;
  wo_others : forall t', t' <> t -> waits_of s' t' = waits_of s t';
  wo_fewer : (length (waits_of s' t) < length (waits_of s t))%nat
}.

Lemma wake_first_run held q : forall s,
  sync_inv held [] s -> (forall e, e ∈ q -> is_Some (threads s !! e_thread e)) ->
  (wake_first s q = Some (s, false) /\ forall e, e ∈ q -> idle s (e_thread e)) \/
  exists s' t w status, wake_first s q = Some (s', true) /\ sync_inv held [] s' /\ woke held q s s' t w status.
Proof.
  induction q as [|e q IH]; intros s I Hth; cbn [wake_first].
  - left. split; [done|]. by intros e ?%not_elem_of_nil.
  - destruct (wake_thread_run held s (e_thread e) I (Hth e ltac:(by left))) as (s' & k & -> & I' & M & Id & Hl & Hz).
    cbn [mbind option_bind]. destruct (Z.eqb_spec (Z.of_nat k) 0) as [Ek|Ek].
    + rewrite Hz in Id |- * by lia. destruct (IH s I) as [[E H]|(s2 & t & w & st & E & I2 & W)].
      * intros e' He. apply Hth. by right.
      * left. split; [done|]. intros e' [->|He]%elem_of_cons; auto.
      * right. exists s2, t, w, st. split; [done|]. split; [done|]. destruct W. split; try done.
        destruct wo_in0 as (e' & ? & ?). exists e'. split; [by right|done].
    + right. inversion M as [|s0 s1 s2 w st _ W _ M']; subst; [lia|].
      destruct (wakes_many_settles _ _ _ _ M) as [S Ho]. destruct (wakes_many_settles _ _ _ _ M') as [S' _].
      exists s', (e_thread e), w, st. split; [done|]. split; [done|]. split; try done.
      * exists e. split; [by left|done].
      * destruct W as (th & rest & H1 & H2 & H3 & _). by exists th, rest.
      * intros o Hin Hlim. pose proof (proj2 (proj2 (wakes_settles _ _ _ _ _ _ I W) o Hin) Hlim). pose proof (se_supply _ _ S' o). lia.
      * by eapply wakes_many_rtc.
      * lia.
Qed.

(** ** The loop *)

(** A handle or the request in progress keeps the object alive. *)
Definition anchored (held : list Z) (s : sync) (o : Z) : Prop := o ∈ held \/ 0 < total (objs s) o.

Lemma anchored_alive held extra s o : sync_inv held extra s -> anchored held s o -> is_Some (objects (objs s) !! o).
Proof.
  intros I H. pose proof (iv_refs _ _ _ I o) as Hr. pose proof (ww_counts _ (iv_world _ _ _ I) o) as Hc. unfold refs_at in Hr.
  destruct (objects (objs s) !! o); [by eexists|]. destruct H as [H|H]; [apply occ_pos in H|]; lia.
Qed.

Lemma anchored_settles held s s' o : settles s s' -> anchored held s o -> anchored held s' o.
Proof. intros S [H|H]; [by left|right]. rewrite (same_tables_total (objs s)); [done|apply S]. Qed.

Lemma queue_threads held s o e : sync_inv held [] s -> e ∈ queue s o -> waiting s o e.
Proof. intros I He. apply (iv_queues _ _ _ I) in He as [?|?%not_elem_of_nil]; done. Qed.

Lemma waiting_thread s o e : waiting s o e -> is_Some (threads s !! e_thread e).
Proof. intros (th & w & H & _). by exists th. Qed.

Section loop.
Context (held : list Z) (o : Z) (s0 s1 : sync).
Context (Hinv : sync_inv held [] s1) (Hanchor : anchored held s1 o).
Context (Hothers : forall o' t, o' <> o -> signaled s1 o' t = true -> signaled s0 o' t = true).
Context (Hthreads : forall t, core <$> threads s1 !! t = core <$> threads s0 !! t).
Context (Henv : processes s1 = processes s0 /\ current_time s1 = current_time s0 /\ monotonic_time s1 = monotonic_time s0).
Context (Hqueue : forall e, e ∈ queue s1 o -> idle s0 (e_thread e)).

(** What holds at the head of the loop. *)
Record progress (max : Z) (s : sync) : Prop := {
  pg_inv : sync_inv held [] s;
  pg_settles : settles s1 s;
  pg_steps : rtc (wake held) s1 s;
  pg_threads : forall t, waits_of s t = waits_of s1 t \/ idle s t;
  pg_supply : max <> 0 -> supply s o <= u32 max
}.

(** A wait that nobody touched and that was not satisfied before can only be
    satisfied by [o]. *)
Lemma cause_is_o max s t th w rest status :
  progress max s -> idle s0 t -> waits_of s t = waits_of s1 t ->
  threads s !! t = Some th -> wait th = w :: rest -> check_wait s t th w = Some status ->
  o ∈ granted w status /\ signaled s o t = true.
Proof using Hinv Hothers Hthreads Henv.
  intros P Hi Hws Ht Hw Hc. pose proof (pg_settles _ _ P) as S. pose proof (pg_inv _ _ P) as I.
  assert (Hok : wait_ok w) by (apply (iv_stacks _ _ _ I t th Ht); rewrite Hw; by left).
  assert (exists th0 rest0, threads s0 !! t = Some th0 /\ wait th0 = w :: rest0 /\ same_thread th th0) as (th0 & rest0 & Ht0 & Hw0 & Hsame).
  { pose proof (se_threads _ _ S t) as E1. pose proof (Hthreads t) as E2. rewrite Ht in E1. unfold waits_of in Hws. rewrite Ht, Hw in Hws.
    destruct (threads s1 !! t) as [th1|]; [|done]. destruct (threads s0 !! t) as [th0|]; [|done].
    apply (inj Some) in E1, E2. exists th0, rest. split; [done|]. rewrite <-(core_wait _ _ E2), <-Hws. split; [done|].
    unfold same_thread. cbn in E1. rewrite E1. change (core (set_wait th1 [])) with (set_wait (core th1) []). by rewrite E2. }
  destruct Henv as (V1 & V2 & V3).
  destruct (check_wait_cause s0 s t th0 th w status) as (o' & Ho' & H1 & H2); try done.
  - by rewrite (se_processes _ _ S).
  - by rewrite (se_time _ _ S).
  - by rewrite (se_monotonic _ _ S).
  - by eapply Hi.
  - destruct (decide (o' = o)) as [->|Hne]; [done|]. rewrite (Hothers o' t) in H2; [done|done|]. by apply (se_signaled _ _ S).
Qed.

Lemma queue_shrinks max s e : progress max s -> e ∈ queue s o -> e ∈ queue s1 o.
Proof using Hinv.
  intros P He. apply (queue_threads _ _ _ _ (pg_inv _ _ P)) in He as (th & w & H1 & H2 & H3 & H4).
  apply (iv_queues _ _ _ Hinv). left. pose proof (se_stack _ _ (pg_settles _ _ P) (e_thread e)) as [l Hl].
  unfold waits_of in Hl. rewrite H1 in Hl. destruct (threads s1 !! e_thread e) as [th1|] eqn:E1.
  - exists th1, w. rewrite Hl. split; [done|]. split; [apply elem_of_app; by right|done].
  - destruct l, (wait th); try done. by apply not_elem_of_nil in H2.
Qed.

(** At the end of the loop every thread that was idle is idle. *)
Definition all_idle (s : sync) : Prop := forall t, idle s0 t -> idle s t.

Lemma progress_done max s :
  progress max s -> (forall e, e ∈ queue s o -> idle s (e_thread e)) \/ (forall t, signaled s o t = false) -> all_idle s.
Proof using Hinv Hothers Hthreads Henv.
  intros P Hend t Hi. destruct (pg_threads _ _ P t) as [Hws|]; [|done]. intros th w rest Ht Hw.
  destruct (check_wait s t th w) as [status|] eqn:Hc; [|done]. exfalso.
  destruct (cause_is_o max s t th w rest status P Hi Hws Ht Hw Hc) as [Hg Hs]. destruct Hend as [Hq|Hq]; [|congruence].
  apply granted_subset, list_elem_of_lookup in Hg as [i Hgi].
  assert (mk_entry t (w_addr w) i ∈ queue s o) as Hin.
  { apply (iv_queues _ _ _ (pg_inv _ _ P)). left. exists th, w. cbn. rewrite Hw. split; [done|]. split; [by left|done]. }
  apply Hq in Hin. cbn in Hin. by rewrite (Hin th w rest Ht Hw) in Hc.
Qed.

Lemma i32_range z : - 2 ^ 31 <= i32 z < 2 ^ 31.
Proof. unfold i32. pose proof (Z.mod_pos_bound (z + 2 ^ 31) (2 ^ 32)). lia. Qed.

Lemma u32_i32 z : u32 (i32 z) = u32 z.
Proof. unfold u32, i32. rewrite Zminus_mod_idemp_l. f_equal. lia. Qed.

Lemma u32_pred z : u32 z <> 0 -> u32 (z - 1) = u32 z - 1.
Proof.
  unfold u32. intros H. pose proof (Z.mod_pos_bound z (2 ^ 32) ltac:(lia)). rewrite <-Zminus_mod_idemp_l.
  apply Z.mod_small. lia.
Qed.

(** One more thread woken. *)
Lemma progress_step max s s' t w status :
  (max <> 0 -> limited s1 o) -> progress max s -> sync_inv held [] s' -> woke held (queue s o) s s' t w status ->
  progress (if max =? 0 then 0 else i32 (max - 1)) s' /\ (max <> 0 -> supply s' o <= u32 (max - 1)).
Proof using Hinv Hanchor Hothers Hthreads Henv Hqueue.
  intros Hlim P I' W. pose proof (pg_inv _ _ P) as I.
  assert (Hg : o ∈ granted w status).
  { destruct (wo_check _ _ _ _ _ _ _ W) as (th & rest & Ht & Hw & Hc). destruct (wo_in _ _ _ _ _ _ _ W) as (e & He & Et).
    destruct (pg_threads _ _ P t) as [Hws|Hi]; [|by rewrite (Hi th w rest Ht Hw) in Hc].
    eapply (cause_is_o max s t th w rest status); try done. rewrite <-Et. apply Hqueue. by eapply queue_shrinks. }
  assert (Hsup : max <> 0 -> supply s' o <= u32 (max - 1)).
  { intros Hm. specialize (Hlim Hm). assert (limited s o) as Hl.
    { destruct (se_objects _ _ (pg_settles _ _ P) o) as [E|[_ E]]; [destruct (anchored_alive _ _ _ _ I (anchored_settles _ _ _ _ (pg_settles _ _ P) Hanchor)); congruence|]. unfold limited. by rewrite E. }
    pose proof (wo_supply _ _ _ _ _ _ _ W o Hg Hl). pose proof (pg_supply _ _ P Hm). pose proof (supply_nonneg s' o (iv_data _ _ _ I')).
    rewrite u32_pred; lia. }
  split; [|done]. split; [done| | | |].
  - transitivity s; [apply P|apply W].
  - etransitivity; [apply P|apply W].
  - intros t'. destruct (decide (t' = t)) as [->|Hne]; [right; apply W|]. destruct (pg_threads _ _ P t') as [E|E].
    + left. by rewrite (wo_others _ _ _ _ _ _ _ W).
    + right. eapply idle_settles; [exact I|apply W| |done]. by apply W.
  - destruct (Z.eqb_spec max 0) as [|Hm]; [done|]. intros _. rewrite u32_i32. by apply Hsup.
Qed.

Lemma wake_up_loop_quiet fuel : forall max s s',
  (max <> 0 -> limited s1 o) -> progress max s -> wake_up_loop fuel s o max = Some s' -> all_idle s'.
Proof using Hinv Hanchor Hothers Hthreads Henv Hqueue.
  induction fuel as [|fuel IH]; intros max s s' Hlim P; [done|]. cbn [wake_up_loop].
  destruct (objects (objs s) !! o) eqn:Eo; [|done].
  destruct (wake_first_run _ (queue s o) s (pg_inv _ _ P)) as [[-> Hi]|(s2 & t & w & st & -> & I2 & W)].
  - intros e He. by eapply waiting_thread, queue_threads; [apply P|].
  - cbn. intros [= <-]. eapply progress_done; [done|by left].
  - cbn. destruct (progress_step max s s2 t w st Hlim P I2 W) as [P' Hsup]. destruct (Z.eqb_spec max 0) as [Hz|Hnz].
    + by apply IH.
    + destruct (Z.eqb_spec (i32 (max - 1)) 0) as [Hz|Hnz'].
      * intros [= <-]. apply (progress_done _ _ P'). right. intros t'. apply limited_empty.
        -- destruct (se_objects _ _ (pg_settles _ _ P') o) as [E|[_ E]]; [destruct (anchored_alive _ _ _ _ I2 (anchored_settles _ _ _ _ (pg_settles _ _ P') Hanchor)); congruence|].
           specialize (Hlim Hnz). unfold limited in *. by rewrite E.
        -- rewrite <-u32_i32, Hz in Hsup. by apply Hsup.
      * apply IH; [|done]. intros _. by apply Hlim.
Qed.

(** Threads without anything to do have nothing to do after wake_up. *)
Lemma wake_up_quiet max s' :
  (i32 max <> 0 -> limited s1 o /\ supply s1 o <= u32 max) -> wake_up s1 o max = Some s' -> all_idle s'.
Proof using Hinv Hanchor Hothers Hthreads Henv Hqueue.
  intros Hmax. apply wake_up_loop_quiet; [intros Hm; apply (Hmax Hm)|]. split; try done; [by left|].
  intros Hm. rewrite u32_i32. by apply Hmax.
Qed.
End loop.

(** wake_up returns, and what it did is a sequence of wakeups. *)
Lemma wake_up_loop_run held o fuel : forall max s,
  sync_inv held [] s -> anchored held s o -> (pending s < fuel)%nat ->
  exists s', wake_up_loop fuel s o max = Some s' /\ sync_inv held [] s' /\ rtc (wake held) s s' /\ settles s s'.
Proof.
  induction fuel as [|fuel IH]; intros max s I A Hf; [lia|]. cbn [wake_up_loop].
  destruct (anchored_alive _ _ _ _ I A) as [ob ->].
  destruct (wake_first_run _ (queue s o) s I) as [[-> Hi]|(s2 & t & w & st & -> & I2 & W)].
  - intros e He. by eapply waiting_thread, queue_threads.
  - exists s. done.
  - cbn. assert (pending s2 < pending s)%nat as Hl.
    { eapply (pending_less s s2 t); [intros t'; apply settles_thread, W| |apply W..].
      destruct (wo_check _ _ _ _ _ _ _ W) as (th & rest & Ht & _). by exists th. }
    assert (Hrec : forall m, exists s', wake_up_loop fuel s2 o m = Some s' /\ sync_inv held [] s' /\ rtc (wake held) s s' /\ settles s s').
    { intros m. destruct (IH m s2 I2 ltac:(eapply anchored_settles; [apply W|done]) ltac:(lia)) as (s' & E & I' & R & S). exists s'. split; [done|]. split; [done|].
      split; [etransitivity; [apply W|done]|etransitivity; [apply W|done]]. }
    case_match; [apply Hrec|]. case_match; [|apply Hrec]. exists s2. split; [done|]. split; [done|]. split; apply W.
Qed.

Lemma wake_up_run held s o max :
  sync_inv held [] s -> anchored held s o ->
  exists s', wake_up s o max = Some s' /\ sync_inv held [] s' /\ rtc (wake held) s s' /\ settles s s'.
Proof. intros I A. apply wake_up_loop_run; [done..|lia]. Qed.
