(* ===== verification/SyncOps.v ===== *)
(** * Events, semaphores and mutexes: server/event.c, semaphore.c, mutex.c

    Every operation is a change of one object followed by wakeups; it keeps the
    invariant, always returns, and leaves no thread behind that could go on. *)

From Stdlib Require Import ZArith Lia.
From stdpp Require Import base list numbers option gmap.
From S2P Require Import Prelude Handles HandleTheorems HandleCounts HandleSteps Sync SyncInvariant SyncWaits SyncWakeup.

#[local] Open Scope Z_scope.

(** ** What operations leave alone *)

(** Objects stay what they are until they go away; threads change in their waits,
    mutexes and contexts only. *)
Record evolves (s s' : sync) : Prop := {
  ev_objects : forall o, objects (objs s') !! o = None \/
    (ops <$> objects (objs s') !! o = ops <$> objects (objs s) !! o /\
     kind_of <$> sync_objects s' !! o = kind_of <$> sync_objects s !! o);
  ev_threads : forall t, (fun th => core (set_wait th [])) <$> threads s' !! t =
                         (fun th => core (set_wait th [])) <$> threads s !! t;
  ev_processes : processes s' = processes s;
  ev_time : current_time s' = current_time s;
  ev_monotonic : monotonic_time s' = monotonic_time s;
  ev_handles : handles (objs s') = handles (objs s) /\ global_table (objs s') = global_table (objs s)
}.

#[export] Instance evolves_preorder : PreOrder evolves.
Proof.
  split; [intros s; split; try done; intros o; by right|].
  intros s1 s2 s3 H1 H2. destruct (ev_handles _ _ H1), (ev_handles _ _ H2).
  split; [|intros t; by rewrite (ev_threads _ _ H2), (ev_threads _ _ H1)|etransitivity; [apply H2|apply H1]..|split; congruence].
  intros o. destruct (ev_objects _ _ H2 o) as [E|[E1 E2]]; [by left|].
  destruct (ev_objects _ _ H1 o) as [E|[E3 E4]]; [left|right; split; congruence].
  rewrite E in E1. by destruct (objects (objs s3) !! o).
Qed.

Lemma settles_evolves s s' : settles s s' -> evolves s s'.
Proof. intros []. by split. Qed.

(** ** Changing one object *)

(** [s1] is [s] with other data in [o]. *)
Record updated (held : list Z) (o : Z) (s s1 : sync) : Prop := {
  up_inv : sync_inv held [] s1;
  up_objs : objs s1 = objs s;
  up_queue : wait_queue s1 = wait_queue s;
  up_threads : forall t, core <$> threads s1 !! t = core <$> threads s !! t;
  up_others : forall o', o' <> o -> sync_objects s1 !! o' = sync_objects s !! o';
  up_kind : kind_of <$> sync_objects s1 !! o = kind_of <$> sync_objects s !! o;
  up_processes : processes s1 = processes s;
  up_time : current_time s1 = current_time s;
  up_monotonic : monotonic_time s1 = monotonic_time s;
  up_sent : sent s1 = sent s
}.

Lemma updated_evolves held o s s1 : updated held o s s1 -> evolves s s1.
Proof.
  intros U. split; try apply U.
  - intros o'. right. rewrite (up_objs _ _ _ _ U). split; [done|]. destruct (decide (o' = o)) as [->|]; [apply U|].
    by rewrite (up_others _ _ _ _ U).
  - intros t. apply core_rest, U.
  - by rewrite (up_objs _ _ _ _ U).
Qed.

Lemma core_terminated_eq (a b : option thread) : core <$> a = core <$> b -> terminated <$> a = terminated <$> b.
Proof. destruct a, b; try done. intros E. apply (inj Some), core_terminated in E. cbn. by rewrite E. Qed.

Lemma updated_signaled held o s s1 o' t : updated held o s s1 -> o' <> o -> signaled s1 o' t = signaled s o' t.
Proof. intros U Hne. apply signaled_ext; [by apply U|]. apply core_terminated_eq, U. Qed.

(** A list of threads has nothing to do. *)
Definition queue_idle (s : sync) (o : Z) : Prop := forall e, e ∈ queue s o -> idle s (e_thread e).

(** What an operation that changed [o] and woke threads achieved. *)
Record op_done (held : list Z) (o : Z) (s s1 s' : sync) : Prop := {
  dn_updated : updated held o s s1;
  dn_inv : sync_inv held [] s';
  dn_steps : rtc (wake held) s1 s';
  dn_settles : settles s1 s';
  dn_idle : queue_idle s o -> forall t, idle s t -> idle s' t
}.

Lemma op_done_evolves held o s s1 s' : op_done held o s s1 s' -> evolves s s'.
Proof. intros H. transitivity s1; [by eapply updated_evolves, H|apply settles_evolves, H]. Qed.

Lemma update_wake_up held o s s1 max :
  updated held o s s1 -> anchored held s o -> (i32 max <> 0 -> limited s1 o /\ supply s1 o <= u32 max) ->
  exists s', wake_up s1 o max = Some s' /\ op_done held o s s1 s'.
Proof.
  intros U A Hmax. assert (A1 : anchored held s1 o) by (unfold anchored in *; by rewrite (up_objs _ _ _ _ U)).
  pose proof (up_inv _ _ _ _ U) as I.
  destruct (wake_up_run held s1 o max I A1) as (s' & E & I' & R & S).
  exists s'. split; [done|]. split; try done. intros Hq. apply (wake_up_quiet held o s s1 I A1) with (max := max); try done.
  - intros o' t Hne. by rewrite (updated_signaled held o s s1).
  - apply U.
  - split; [apply U|]. split; apply U.
  - intros e. unfold queue. rewrite (up_queue _ _ _ _ U). apply Hq.
Qed.

(** No wakeups are needed when nothing becomes signaled. *)
Lemma update_only held o s s1 :
  sync_inv held [] s -> updated held o s s1 -> (forall t, signaled s1 o t = true -> signaled s o t = true) ->
  op_done held o s s1 s1.
Proof.
  intros I U Hs. split; [done|apply U|done|done|]. intros _ t. apply (idle_mono held s s1 t I); try apply U.
  - intros o'. destruct (decide (o' = o)) as [->|]; [apply Hs|]. by rewrite (updated_signaled held o s s1).
  - apply core_rest, U.
  - apply core_waits, U.
Qed.

(** The recursion count of a mutex. *)
Definition depth (x : sync_object) : Z := match x with Mutex m => mutex_count m | _ => 0 end.

Definition owner_in (x : sync_object) : option Z := match x with Mutex m => owner m | _ => None end.

Lemma owner_of_in s o x : sync_objects s !! o = Some x -> owner_of s o = owner_in x.
Proof. intros E. unfold owner_of. by rewrite E. Qed.

Lemma update_inv held s s1 o x x' :
  sync_inv held [] s -> data_ok s1 -> sync_objects s !! o = Some x -> sync_objects s1 = <[o := x']> (sync_objects s) ->
  kind_of x' = kind_of x -> depth x' <= depth x -> objs s1 = objs s -> wait_queue s1 = wait_queue s ->
  (forall t, core <$> threads s1 !! t = core <$> threads s !! t) -> sync_inv held [] s1.
Proof.
  intros I D Hx E Hk Hd Eo Eq Et. assert (Hq : forall o', queue s1 o' = queue s o') by (intros o'; unfold queue; by rewrite Eq). split.
  - rewrite Eo. apply I.
  - intros o'. pose proof (iv_refs _ _ _ I o') as H. unfold refs_at in *. rewrite Eo, Hq, E. destruct (decide (o = o')) as [<-|].
    + rewrite lookup_insert_eq. rewrite Hx in H. destruct (objects (objs s) !! o); [|by destruct H as (_ & _ & ?)].
      split; [apply H|by eexists].
    + by rewrite lookup_insert_ne.
  - intros o'. rewrite Hq. destruct (iv_queues _ _ _ I o') as [Hn He]. split; [done|]. intros e. by rewrite (waiting_core s).
  - apply (stacks_core s); [done|apply I].
  - done.
  - intros o' m. rewrite E, Hq. destruct (decide (o = o')) as [<-|]; [|rewrite lookup_insert_ne by done; apply I].
    rewrite lookup_insert_eq. intros [= ->]. destruct x; try done. pose proof (iv_room _ _ _ I o _ Hx). cbn in Hd. lia.
Qed.

Lemma set_data_updated held s o x x' :
  sync_inv held [] s -> sync_objects s !! o = Some x -> kind_of x' = kind_of x -> self_ok x' -> owner_in x' = owner_in x ->
  depth x' <= depth x -> updated held o s (set_data s o x').
Proof.
  intros I Hx Hk Hs Ho Hd. split; try done.
  - eapply update_inv; try done. eapply set_data_ok; [apply I|done..|]. by rewrite (owner_of_in s o x Hx).
  - intros o' Hne. cbn. by rewrite lookup_insert_ne.
  - cbn. rewrite lookup_insert_eq, Hx. cbn. by rewrite Hk.
Qed.

(** ** Events *)

Section events.
Context (held : list Z) (s : sync) (o : Z) (e : event).
Context (I : sync_inv held [] s) (A : anchored held s o) (Hx : sync_objects s !! o = Some (Event e)).

Let on : sync := set_data s o (Event (mk_event (manual_reset e) true)).
Let off : sync := set_data s o (Event (mk_event (manual_reset e) false)).

Lemma set_event_run : exists s', set_event s o = Some s' /\ op_done held o s on s'.
Proof using I A Hx.
  unfold set_event. rewrite Hx. apply update_wake_up; [by eapply set_data_updated|done|].
  destruct e as [[] sg]; cbn; [done|]. intros _. unfold limited, supply, on. cbn. rewrite lookup_insert_eq. cbn. split; [by left|done].
Qed.

Lemma reset_event_run : reset_event s o = Some off /\ op_done held o s off off.
Proof using I Hx.
  unfold reset_event. rewrite Hx. split; [done|]. apply update_only; [done|by eapply set_data_updated|].
  intros t. unfold signaled, semaphore_signaled, mutex_signaled, thread_signaled, off. cbn. by rewrite lookup_insert_eq.
Qed.
End events.

(** ** Semaphores *)

(** ** Semaphores *)

Lemma release_semaphore_run held s o m count :
  sync_inv held [] s -> anchored held s o -> sync_objects s !! o = Some (Semaphore m) -> 0 <= count < 2 ^ 32 ->
  if decide (sem_count m + count <= sem_max m) then
    exists s', release_semaphore s o count = Some (s', None) /\
      op_done held o s (set_data s o (Semaphore (mk_semaphore (sem_count m + count) (sem_max m)))) s'
  else release_semaphore s o count = Some (s, Some STATUS_SEMAPHORE_LIMIT_EXCEEDED).
Proof.
  intros I A Hx Hc. destruct (dt_self _ (iv_data _ _ _ I) _ _ Hx) as [Hm Hb]. unfold release_semaphore. rewrite Hx.
  assert (Hsum : u32 (sem_count m + count) = if decide (sem_count m + count < 2 ^ 32) then sem_count m + count else sem_count m + count - 2 ^ 32).
  { case_decide; [by rewrite u32_small by lia|]. unfold u32. rewrite <-(Z.mod_small (sem_count m + count - 2 ^ 32) (2 ^ 32)) by lia.
    rewrite <-(Z_mod_plus_full (sem_count m + count - 2 ^ 32) 1). f_equal. lia. }
  destruct (decide (sem_count m + count <= sem_max m)) as [Hle|Hgt].
  - rewrite Hsum, decide_True by lia. destruct (Z.ltb_spec (sem_count m + count) (sem_count m)); [lia|].
    destruct (Z.ltb_spec (sem_max m) (sem_count m + count)); [lia|]. cbn [orb].
    assert (U : updated held o s (set_data s o (Semaphore (mk_semaphore (sem_count m + count) (sem_max m))))).
    { eapply set_data_updated; try done. cbn. lia. }
    destruct (Z.eqb_spec (sem_count m) 0) as [Hz|Hnz]; cbn [negb].
    + rewrite Hz, Z.add_0_l in U |- *. destruct (update_wake_up held o s _ count U A) as (s' & -> & Hd); [|by exists s'].
      intros _. unfold limited, supply. cbn. rewrite lookup_insert_eq. cbn. rewrite u32_small by lia. split; [by right|lia].
    + eexists. split; [done|]. apply update_only; [done..|]. intros t _. unfold signaled, semaphore_signaled, mutex_signaled, thread_signaled. rewrite Hx. apply Z.ltb_lt. lia.
  - rewrite Hsum. case_decide; [|by rewrite (proj2 (Z.ltb_lt _ _)) by lia].
    rewrite (proj2 (Z.ltb_lt (sem_max m) _)) by lia. by rewrite orb_true_r.
Qed.

(** ** Mutexes *)

(** The owner gives the mutex up. *)
Definition free_mutex (s : sync) (o t : Z) (ab : bool) : sync := set_data (unlink_mutex s t o) o (Mutex (mk_mutex None 0 ab)).

Lemma free_mutex_updated held s o t m ab :
  sync_inv held [] s -> sync_objects s !! o = Some (Mutex m) -> owner m = Some t -> updated held o s (free_mutex s o t ab).
Proof.
  intros I Hx Ho. pose proof (iv_data _ _ _ I) as D. assert (Hown : owner_of s o = Some t) by (unfold owner_of; by rewrite Hx).
  pose proof (dt_self _ D _ _ Hx) as Hs. cbn in Hs. rewrite Ho in Hs.
  assert (Ht : is_Some (threads s !! t)).
  { apply (dt_owned _ D) in Hown. unfold mutexes_of in Hown. destruct (threads s !! t); [by eexists|by apply not_elem_of_nil in Hown]. }
  assert (Hcore : forall t', core <$> threads (free_mutex s o t ab) !! t' = core <$> threads s !! t') by (intros t'; by apply alter_core).
  split; try done.
  - eapply (update_inv held s _ o _ (Mutex (mk_mutex None 0 ab)) I); try done; [|cbn; lia].
    apply (data_ok_unlink s _ o t D Hown).
    + intros o'. rewrite (owner_of_insert (free_mutex s o t ab) (sync_objects s) o (Mutex (mk_mutex None 0 ab)) eq_refl). done.
    + by apply (mutexes_of_alter s _ t (filter (fun x => x <> o))).
    + apply insert_self; [apply D|done].
  - intros o' Hne. cbn. by rewrite lookup_insert_ne.
  - cbn. by rewrite lookup_insert_eq, Hx.
Qed.

Lemma do_release_run held s o t m ab :
  sync_inv held [] s -> anchored held s o -> sync_objects s !! o = Some (Mutex m) -> owner m = Some t ->
  exists s', do_release (set_data s o (Mutex (mk_mutex (Some t) 0 ab))) o (mk_mutex (Some t) 0 ab) = Some s' /\
    op_done held o s (free_mutex s o t ab) s'.
Proof.
  intros I A Hx Ho. unfold do_release. cbn [mutex_count owner abandoned Z.eqb negb].
  assert (E : set_data (unlink_mutex (set_data s o (Mutex (mk_mutex (Some t) 0 ab))) t o) o (Mutex (mk_mutex None 0 ab)) = free_mutex s o t ab).
  { unfold free_mutex, set_data, set_sync_objects, unlink_mutex, set_threads. cbn. by rewrite insert_insert_eq. }
  rewrite E. apply update_wake_up; [by eapply free_mutex_updated|done|]. done.
Qed.

Definition released (s : sync) (o t : Z) (m : mutex) : sync :=
  if mutex_count m =? 1 then free_mutex s o t (abandoned m)
  else set_data s o (Mutex (mk_mutex (Some t) (mutex_count m - 1) (abandoned m))).

Lemma release_mutex_run held s o t m :
  sync_inv held [] s -> anchored held s o -> sync_objects s !! o = Some (Mutex m) -> owner m = Some t ->
  exists s', release_mutex s o m = Some s' /\ op_done held o s (released s o t m) s'.
Proof.
  intros I A Hx Ho. unfold release_mutex, released. rewrite Ho. pose proof (dt_self _ (iv_data _ _ _ I) _ _ Hx) as Hs. cbn in Hs. rewrite Ho in Hs.
  cbn [mutex_count]. destruct (Z.eqb_spec (mutex_count m) 1) as [E|E].
  - rewrite E. cbn. by apply (do_release_run held s o t m).
  - destruct (Z.eqb_spec (mutex_count m - 1) 0); [lia|]. eexists. split; [done|]. apply update_only; [done| |].
    + apply (set_data_updated held s o (Mutex m)); try done; cbn; (lia || done).
    + intros t'. unfold signaled, semaphore_signaled, mutex_signaled, thread_signaled. cbn. rewrite lookup_insert_eq, Hx. cbn. rewrite Ho.
      destruct (Z.eqb_spec (mutex_count m - 1) 0); [lia|]. destruct (Z.eqb_spec (mutex_count m) 0); [lia|]. done.
Qed.

(** ** The signal methods *)

Lemma op_done_id held o s : sync_inv held [] s -> op_done held o s s s.
Proof. intros I. by split. Qed.

(** An error leaves everything as it was. *)
Lemma signal_run held s o acc t :
  sync_inv held [] s -> anchored held s o ->
  exists s1 s' err, signal s o acc t = Some (s', err) /\ op_done held o s s1 s' /\
    (forall e, err = Some e -> s' = s /\ 64 <= e).
Proof.
  intros I A. unfold signal, event_signal, semaphore_signal, mutex_signal.
  assert (Herr : forall e, 64 <= e -> exists s1 s' err, Some (s, Some e) = Some (s', err) /\ op_done held o s s1 s' /\
    (forall e', err = Some e' -> s' = s /\ 64 <= e')).
  { intros e He. exists s, s, (Some e). split; [done|]. split; [by apply op_done_id|]. by intros e' [= <-]. }
  destruct (sync_objects s !! o) as [[e|m|m| |b]|] eqn:Hx; [| | |by apply Herr..].
  - case_match; [by apply Herr|]. destruct (set_event_run held s o e I A Hx) as (s' & -> & D).
    eexists _, s', None. split; [done|]. by split.
  - case_match; [by apply Herr|]. pose proof (release_semaphore_run held s o m 1 I A Hx ltac:(done)) as Hr.
    case_decide; [|rewrite Hr; by apply Herr]. destruct Hr as (s' & -> & D). eexists _, s', None. split; [done|]. by split.
  - case_match; [by apply Herr|]. destruct ((mutex_count m =? 0) || negb (bool_decide (owner m = Some t))) eqn:E; [by apply Herr|].
    apply orb_false_iff in E as [_ E]. apply negb_false_iff, bool_decide_eq_true in E.
    destruct (release_mutex_run held s o t m I A Hx E) as (s' & -> & D). eexists _, s', None. split; [done|]. by split.
Qed.
