(* ===== verification/SyncSelect.v ===== *)
(** * Starting a wait: wait_on, wait_on_handles and select_on of server/thread.c *)

From Stdlib Require Import ZArith Lia.
From stdpp Require Import base list numbers option gmap.
From S2P Require Import Prelude Handles HandleTheorems HandleCounts HandleSteps Sync SyncRequests SyncInvariant SyncWaits.
From S2P Require Import SyncWakeup SyncOps.

#[local] Open Scope Z_scope.
#[local] Open Scope server_scope.

(** No thread could go on. *)
Definition quiet (s : sync) : Prop := forall t, idle s t.

(** ** References of the request *)

Lemma grab_lookup w o o' :
  objects (grab_object w o) !! o' =
    if decide (o' = o) then (fun ob => mk_obj (ops ob) (refcount ob + 1) (handle_count ob)) <$> objects w !! o else objects w !! o'.
Proof. cbn. case_decide as E; [subst; by rewrite lookup_alter_eq|]. by rewrite lookup_alter_ne. Qed.

Definition grab (s : sync) (o : Z) : sync := set_objs s (grab_object (objs s) o).

Lemma grab_inv held extra s o :
  sync_inv held extra s -> is_Some (objects (objs s) !! o) -> sync_inv (o :: held) extra (grab s o).
Proof.
  intros I Ho. split; try apply I.
  - by apply grab_object_wf; [apply I|].
  - intros x. pose proof (iv_refs _ _ _ I x) as H. unfold refs_at in *. rewrite occ_cons. change (queue (grab s o) x) with (queue s x).
    change (objs (grab s o)) with (grab_object (objs s) o). rewrite grab_lookup. cbn [sync_objects grab set_objs].
    destruct (decide (x = o)) as [->|Hne].
    + destruct Ho as [ob Ho]. rewrite Ho in *. rewrite decide_True by done. cbn. split; [lia|apply H].
    + rewrite decide_False by done. exact H.
  - apply (data_ok_same s); [apply I|done|done|apply (dt_self _ (iv_data _ _ _ I))].
Qed.

Lemma grab_idle held s o t : sync_inv held [] s -> idle s t -> idle (grab s o) t.
Proof. intros I. by apply (idle_mono held s). Qed.

Lemma grab_evolves s o : evolves s (grab s o).
Proof.
  split; try done. intros x. right. split; [|done]. cbn [objs grab set_objs]. rewrite grab_lookup.
  case_decide as E; [subst; by destruct (objects (objs s) !! o)|done].
Qed.

(** The same stacks, and nothing becomes signaled. *)
Definition settled (s s' : sync) : Prop := settles s s' /\ forall t, waits_of s' t = waits_of s t.

#[export] Instance settled_preorder : PreOrder settled.
Proof.
  split; [by intros s; split|]. intros s1 s2 s3 [S1 W1] [S2 W2]. split; [by transitivity s2|]. intros t. by rewrite W2, W1.
Qed.

Lemma settled_idle held s s' t : sync_inv held [] s -> settled s s' -> idle s t -> idle s' t.
Proof. intros I [S W]. by apply (idle_settles held). Qed.

Lemma release_run held s o :
  sync_inv (o :: held) [] s -> exists s', release s o = Some s' /\ sync_inv held [] s' /\ settled s s'.
Proof.
  intros I. destruct (release_ok held [] s o I) as (s' & E & I' & D). exists s'. split; [done|]. split; [done|].
  split; [apply drops_settles; [apply I|done]|]. intros t. apply core_waits, D.
Qed.

Lemma release_all_run os : forall held s,
  sync_inv (os ++ held) [] s -> exists s', release_all s os = Some s' /\ sync_inv held [] s' /\ settled s s'.
Proof.
  induction os as [|o os IH]; intros held s I; [by exists s|]. cbn [release_all].
  destruct (release_run (os ++ held) s o I) as (s1 & -> & I1 & S1). cbn.
  destruct (IH held s1 I1) as (s' & -> & I' & S'). exists s'. split; [done|]. split; [done|]. by transitivity s1.
Qed.

(** ** Ending a wait *)

(** The stacks after a wait of [t] has gone. *)
Definition popped (t : Z) (s s' : sync) : Prop :=
  forall t', waits_of s' t' = if decide (t' = t) then tail (waits_of s t) else waits_of s t'.

Lemma end_wait_ok held s t th w rest status :
  sync_inv held [] s -> threads s !! t = Some th -> wait th = w :: rest -> 0 <= status ->
  (forall o, o ∈ granted w status -> signaled s o t = true) ->
  exists s', end_wait s t status = Some (s', wait_status s w status) /\ sync_inv held [] s' /\ settles s s' /\ popped t s s'.
Proof.
  intros I Ht Hw Hst Hg. destruct (end_wait_run held s t th w rest status I Ht Hw Hst Hg) as (s1 & s' & E & I' & T & D).
  exists s'. split; [done|]. split; [done|]. split.
  - transitivity (pop s t th rest); [by eapply pop_settles|]. transitivity s1; [|by apply drops_settles; [apply T|]].
    apply (taken_settles _ _ t (granted w status)); [apply (pop_inv held s t th w rest I Ht Hw)|done|].
    intros o Ho. rewrite <-(Hg o Ho). apply signaled_ext; [done|]. rewrite pop_lookup. case_decide; [subst; by rewrite Ht|done].
  - intros t'. rewrite (core_waits s1) by apply D. rewrite (core_waits (pop s t th rest)) by apply T.
    unfold waits_of. rewrite pop_lookup. case_decide; [subst; by rewrite Ht, Hw|done].
Qed.

(** An error status acquires nothing. *)
Lemma granted_error w status : wait_ok w -> 64 <= status -> granted w status = [].
Proof.
  intros [H _] Hs. unfold MAXIMUM_WAIT_OBJECTS in H. unfold granted. by rewrite (proj2 (Z.ltb_ge _ _)) by lia.
Qed.

Lemma cancel_wait held s t th w rest status :
  sync_inv held [] s -> threads s !! t = Some th -> wait th = w :: rest -> 64 <= status ->
  exists s', end_wait s t status = Some (s', status) /\ sync_inv held [] s' /\ settles s s' /\ popped t s s'.
Proof.
  intros I Ht Hw Hst. assert (Hg : granted w status = []).
  { apply granted_error; [|done]. apply (iv_stacks _ _ _ I t th Ht). rewrite Hw. by left. }
  destruct (end_wait_ok held s t th w rest status I Ht Hw) as (s' & E & H); [lia|rewrite Hg; by intros o ?%not_elem_of_nil|].
  exists s'. split; [|done]. rewrite E. unfold wait_status. by rewrite Hg.
Qed.

(** ** Waits with other bookkeeping *)

(** The same wait with another cookie or timeout user. *)
Definition same_wait (w w' : thread_wait) : Prop :=
  w_addr w' = w_addr w /\ w_select w' = w_select w /\ w_flags w' = w_flags w /\ w_when w' = w_when w /\ w_objs w' = w_objs w.

Definition rewait (s : sync) (t : Z) (th : thread) (ws : list thread_wait) : sync :=
  set_threads s (<[t := set_wait th ws]> (threads s)).

Lemma rewait_lookup s t th ws t' :
  threads (rewait s t th ws) !! t' = if decide (t' = t) then Some (set_wait th ws) else threads s !! t'.
Proof. cbn. case_decide as E; [subst; by rewrite lookup_insert_eq|]. by rewrite lookup_insert_ne. Qed.

Lemma same_wait_elem ws ws' w' : Forall2 same_wait ws ws' -> w' ∈ ws' -> exists w, w ∈ ws /\ same_wait w w'.
Proof.
  intros H Hin. apply list_elem_of_lookup in Hin as [i Hi]. destruct (Forall2_lookup_r _ _ _ _ _ H Hi) as (w & Hw & Hs).
  exists w. split; [by eapply list_elem_of_lookup_2|done].
Qed.

Lemma same_wait_sym ws ws' : Forall2 same_wait ws ws' -> Forall2 same_wait ws' ws.
Proof.
  intros H. apply Forall2_flip. eapply Forall2_impl; [exact H|]. intros w w' (H1 & H2 & H3 & H4 & H5). by repeat split.
Qed.

Lemma rewait_waiting s t th ws o e :
  threads s !! t = Some th -> Forall2 same_wait (wait th) ws -> waiting (rewait s t th ws) o e -> waiting s o e.
Proof.
  intros Ht Hws (th' & w & H1 & H2 & H3 & H4). unfold waiting. rewrite rewait_lookup in H1. case_decide as E; [|by exists th', w].
  injection H1 as <-. cbn in H2. destruct (same_wait_elem _ _ _ Hws H2) as (w0 & Hin & E1 & _ & _ & _ & E5).
  exists th, w0. rewrite E. split; [done|]. split; [done|]. split; congruence.
Qed.

Lemma rewait_inv held extra s t th ws :
  sync_inv held extra s -> threads s !! t = Some th -> Forall2 same_wait (wait th) ws -> sync_inv held extra (rewait s t th ws).
Proof.
  intros I Ht Hws. split; try apply I.
  - intros o. change (queue (rewait s t th ws) o) with (queue s o). destruct (iv_queues _ _ _ I o) as [Hn He]. split; [done|].
    intros e. rewrite He. enough (waiting s o e <-> waiting (rewait s t th ws) o e) by tauto. split; [|by apply rewait_waiting].
    intros H. apply (rewait_waiting (rewait s t th ws) t (set_wait th ws) (wait th)).
    + by rewrite rewait_lookup, decide_True.
    + by apply same_wait_sym.
    + replace (rewait (rewait s t th ws) t (set_wait th ws) (wait th)) with s; [done|]. destruct s as [a b c d f g h i]. unfold rewait, set_threads. cbn in *.
      f_equal. rewrite insert_insert_eq, insert_id; [done|]. rewrite Ht. by destruct th.
  - intros t' th' E. rewrite rewait_lookup in E. destruct (decide (t' = t)) as [->|]; [|by apply (iv_stacks _ _ _ I t')].
    injection E as <-. destruct (iv_stacks _ _ _ I _ _ Ht) as [H1 H2]. cbn. split.
    + replace (w_addr <$> ws) with (w_addr <$> wait th); [done|]. clear -Hws. induction Hws as [|w w' l l' (H & _) _ IH]; [done|].
      cbn. by rewrite IH, H.
    + intros w Hin. destruct (same_wait_elem _ _ _ Hws Hin) as (w0 & Hin0 & _ & E2 & _ & _ & E5). unfold wait_ok. rewrite E2, E5. by apply H2.
  - apply (data_ok_same s); [apply I|done| |apply (dt_self _ (iv_data _ _ _ I))]. intros t'. unfold mutexes_of. rewrite rewait_lookup.
    case_decide; [subst; by rewrite Ht|done].
Qed.

Lemma rewait_signaled s t th ws o t' : threads s !! t = Some th -> signaled (rewait s t th ws) o t' = signaled s o t'.
Proof. intros Ht. apply signaled_ext; [done|]. rewrite rewait_lookup. case_decide; [subst; by rewrite Ht|done]. Qed.

Lemma rewait_evolves s t th ws : threads s !! t = Some th -> evolves s (rewait s t th ws).
Proof.
  intros Ht. split; try done; [intros o; by right|]. intros t'. rewrite rewait_lookup. case_decide; [subst; by rewrite Ht|done].
Qed.

Lemma first_signaled_ext s s' t os i :
  (forall o, signaled s' o t = signaled s o t) -> first_signaled s' t i os = first_signaled s t i os.
Proof. intros H. revert i. induction os as [|o os IH]; intros i; [done|]. cbn. by rewrite H, IH. Qed.

Lemma check_wait_ext s s' t th th' w w' :
  (forall o, signaled s' o t = signaled s o t) -> processes s' = processes s -> current_time s' = current_time s ->
  monotonic_time s' = monotonic_time s -> same_thread th' th -> same_wait w w' -> check_wait s' t th' w' = check_wait s t th w.
Proof.
  intros Hs Hp Hc Hm Hth (_ & E1 & E2 & E3 & E4). destruct (same_thread_fields _ _ Hth) as (F1 & F2 & F3 & F4).
  unfold check_wait, suspended, process_suspend. rewrite E1, E2, E3, E4, F1, F2, F3, F4, Hp, Hc, Hm, (first_signaled_ext s s') by done.
  assert (forallb (fun o => signaled s' o t) (w_objs w) = forallb (fun o => signaled s o t) (w_objs w)) as ->; [|done].
  clear -Hs. induction (w_objs w) as [|o os IH]; [done|]. cbn. by rewrite Hs, IH.
Qed.

(** Bookkeeping does not wake anybody. *)
Lemma rewait_idle s t th ws t' :
  threads s !! t = Some th -> Forall2 same_wait (wait th) ws -> idle s t' -> idle (rewait s t th ws) t'.
Proof.
  intros Ht Hws Hi th' w rest Ht' Hw. rewrite rewait_lookup in Ht'. destruct (decide (t' = t)) as [->|].
  - injection Ht' as <-. cbn in Hw. subst ws. inversion Hws as [|w0 ? l ? Hsw _ E]; subst. symmetry in E.
    rewrite (check_wait_ext s _ t th _ w0 w); try done; [|intros o; by apply rewait_signaled]. by eapply Hi.
  - rewrite (check_wait_ext s _ t' th' th' w w); try done; [by eapply Hi|]. intros o. by apply rewait_signaled.
Qed.

(** ** The object of a handle *)

Section requests.
Context (current : current_t).

Definition target (w : world) (h : Z) : option Z :=
  match get_magic_handle current h with
  | Some o => Some o
  | None => match get_handle w (cur_process current) h with Some (_, _, e) => Some (ptr e) | None => None end
  end.

Lemma get_handle_obj_run held s h acc expected e :
  sync_inv held [] s -> magic_alive current (objs s) ->
  (exists e', get_handle_obj current (objs s) (cur_process current) h acc expected e = (None, objs s, e') /\ 64 <= error e') \/
  exists o ob e', get_handle_obj current (objs s) (cur_process current) h acc expected e = (Some o, grab_object (objs s) o, e') /\
    target (objs s) h = Some o /\ objects (objs s) !! o = Some ob /\ (forall x, expected = Some x -> ops ob = x).
Proof.
  intros I M. pose proof (get_handle_obj_spec current (objs s) (cur_process current) h acc expected e (iv_world _ _ _ I) M) as H.
  destruct (get_handle_obj current (objs s) (cur_process current) h acc expected e) as [[[o|] w'] e'] eqn:E.
  2: { left. exists e'. rewrite H. split; [done|]. revert E. unfold get_handle_obj, bind, set_error, ret. repeat case_match; by intros [= <- <-]. }
  destruct H as (-> & _ & Hsp). right.
  assert (Ht : target (objs s) h = Some o /\ wrong_type (objs s) o expected = false).
  { revert E. unfold get_handle_obj, target. destruct (get_magic_handle current h) as [x|].
    - destruct (wrong_type (objs s) x expected) eqn:Ew; [done|]. cbn. by intros [= -> _ _].
    - destruct (get_handle (objs s) (cur_process current) h) as [[[slot i] en]|]; [|done].
      destruct (wrong_type (objs s) (ptr en) expected) eqn:Ew; [done|]. case_match; [done|]. cbn. by intros [= <- _ _]. }
  destruct Ht as [Ht Hw]. destruct (spare_alive _ _ Hsp) as [ob' Hob]. rewrite grab_lookup, decide_True in Hob by done.
  destruct (objects (objs s) !! o) as [ob|] eqn:Eo; [|done]. exists o, ob, e'. repeat (split; [done|]).
  intros x ->. unfold wrong_type in Hw. rewrite Eo in Hw. apply negb_false_iff, Z.eqb_eq in Hw. done.
Qed.

(** ** Pushing a wait *)

#[local] Abbreviation cur := (cur_thread current).

Definition push (s : sync) (th : thread) (w : thread_wait) : sync :=
  set_threads s (<[cur := set_wait th (w :: wait th)]> (threads s)).

Lemma push_lookup s th w t :
  threads (push s th w) !! t = if decide (t = cur) then Some (set_wait th (w :: wait th)) else threads s !! t.
Proof. cbn. case_decide as E; [subst; by rewrite lookup_insert_eq|]. by rewrite lookup_insert_ne. Qed.

Lemma push_inv held s th w :
  sync_inv held [] s -> threads s !! cur = Some th -> w_objs w = [] -> ~ w_addr w ∈ (w_addr <$> wait th) -> sync_inv held [] (push s th w).
Proof.
  intros I Ht Hw Ha. split; try apply I.
  - intros o. change (queue (push s th w) o) with (queue s o). destruct (iv_queues _ _ _ I o) as [Hn He]. split; [done|].
    intros e. rewrite He. enough (waiting s o e <-> waiting (push s th w) o e) by tauto. unfold waiting. rewrite push_lookup. split.
    + intros (th' & w' & H1 & H2 & H3). destruct (decide (e_thread e = cur)) as [E|]; [|by exists th', w'].
      rewrite E, Ht in H1. injection H1 as <-. eexists _, w'. split; [done|]. split; [by right|done].
    + intros (th' & w' & H1 & H2 & H3 & H4). destruct (decide (e_thread e = cur)) as [E|]; [|by exists th', w'].
      injection H1 as <-. rewrite E. cbn in H2. apply elem_of_cons in H2 as [->|H2]; [by rewrite Hw in H4|by exists th, w'].
  - intros t th' E. rewrite push_lookup in E. destruct (decide (t = cur)) as [->|]; [|by apply (iv_stacks _ _ _ I t)].
    injection E as <-. destruct (iv_stacks _ _ _ I _ _ Ht) as [H1 H2]. cbn. split; [by apply list.NoDup_cons|].
    intros w' [->|Hin]%elem_of_cons; [|by apply H2]. unfold wait_ok. rewrite Hw. split; [done|]. constructor.
  - apply (data_ok_same s); [apply I|done| |apply (dt_self _ (iv_data _ _ _ I))]. intros t. unfold mutexes_of. rewrite push_lookup.
    case_decide; [subst; by rewrite Ht|done].
Qed.

(** ** Adding the entries *)

(** A wait with one more object. *)
Definition grow (w : thread_wait) (os : list Z) : thread_wait :=
  mk_wait (w_addr w) (w_select w) (w_flags w) (w_cookie w) (w_when w) (w_user w) (w_objs w ++ os).

Lemma add_entry_eq s th w rest o :
  threads s !! cur = Some th -> wait th = w :: rest ->
  add_entry s cur o = add_queue (set_threads s (<[cur := set_wait th (grow w [o] :: rest)]> (threads s))) o
                        (mk_entry cur (w_addr w) (length (w_objs w))).
Proof. intros Ht Hw. unfold add_entry. by rewrite Ht, Hw. Qed.

Lemma add_entry_waiting s th w rest o o' e :
  threads s !! cur = Some th -> wait th = w :: rest ->
  waiting (add_entry s cur o) o' e <-> waiting s o' e \/ (o' = o /\ e = mk_entry cur (w_addr w) (length (w_objs w))).
Proof.
  intros Ht Hw. rewrite (add_entry_eq s th w rest o Ht Hw). unfold waiting. cbn [threads add_queue set_queue set_objs set_threads].
  destruct (decide (e_thread e = cur)) as [E|E].
  - rewrite E, lookup_insert_eq, Ht. split.
    + intros (th' & w' & [= <-] & H2 & H3 & H4). cbn [wait set_wait] in H2. apply elem_of_cons in H2 as [->|H2].
      * cbn [w_addr w_objs grow] in *. destruct (decide (e_index e < length (w_objs w))%nat) as [Hl|Hl].
        -- left. exists th, w. rewrite lookup_app_l in H4 by done. rewrite Hw. split; [done|]. split; [by left|done].
        -- rewrite lookup_app_r in H4 by lia. destruct (e_index e - length (w_objs w))%nat eqn:Ei; [|done]. cbn in H4. injection H4 as <-.
           right. split; [done|]. destruct e. cbn in *. subst. f_equal. lia.
      * left. exists th, w'. rewrite Hw. split; [done|]. split; [by right|done].
    + intros [(th' & w' & [= <-] & H2 & H3 & H4)|[-> ->]].
      * rewrite Hw in H2. apply elem_of_cons in H2 as [->|H2].
        -- eexists _, (grow w [o]). split; [done|]. split; [by left|]. split; [done|]. cbn. by apply lookup_app_l_Some.
        -- eexists _, w'. split; [done|]. split; [by right|done].
      * eexists _, (grow w [o]). split; [done|]. split; [by left|]. split; [done|]. cbn. by rewrite lookup_app_r, Nat.sub_diag by done.
  - rewrite lookup_insert_ne by congruence. split; [by left|]. intros [?|[_ ->]]; [done|]. by destruct E.
Qed.

Lemma add_entry_fresh s th w rest o :
  stacks_ok s -> threads s !! cur = Some th -> wait th = w :: rest ->
  ~ waiting s o (mk_entry cur (w_addr w) (length (w_objs w))).
Proof.
  intros S Ht Hw (th' & w' & H1 & H2 & H3 & H4). cbn in *. rewrite Ht in H1. injection H1 as <-.
  destruct (S _ _ Ht) as [Hn _]. rewrite Hw in H2, Hn. rewrite fmap_cons in Hn. apply list.NoDup_cons in Hn as [Hn _].
  apply elem_of_cons in H2 as [->|H2].
  - apply lookup_lt_Some in H4. lia.
  - apply Hn. rewrite <-H3. by apply list_elem_of_fmap_2.
Qed.

Lemma add_entry_inv held s th w rest o :
  sync_inv held [] s -> threads s !! cur = Some th -> wait th = w :: rest -> is_Some (objects (objs s) !! o) ->
  is_Some (sync_objects s !! o) -> wait_ok (grow w [o]) ->
  (forall m, sync_objects s !! o = Some (Mutex m) -> mutex_count m + Z.of_nat (length (queue s o)) + 1 < 2 ^ 32) ->
  sync_inv held [] (add_entry s cur o).
Proof.
  intros I Ht Hw [ob Ho] Hx Hok Hroom. pose proof (add_entry_eq s th w rest o Ht Hw) as E. set (e := mk_entry cur (w_addr w) (length (w_objs w))) in *.
  assert (Hq : forall o', queue (add_entry s cur o) o' = if decide (o' = o) then queue s o ++ [e] else queue s o').
  { intros o'. rewrite E. unfold add_queue. by rewrite set_queue_lookup. }
  assert (Eo : objs (add_entry s cur o) = grab_object (objs s) o) by (by rewrite E).
  assert (Es : sync_objects (add_entry s cur o) = sync_objects s) by (by rewrite E).
  split.
  - rewrite Eo. by apply grab_object_wf; [apply I|exists ob].
  - intros x. pose proof (iv_refs _ _ _ I x) as H. unfold refs_at in *. rewrite Hq, Eo, Es, grab_lookup.
    destruct (decide (x = o)) as [->|]; [|done]. rewrite Ho in *. cbn. rewrite length_app. cbn. split; [lia|done].
  - intros x. rewrite Hq. destruct (iv_queues _ _ _ I x) as [Hn He].
    assert (Hwt : forall e', waiting (add_entry s cur o) x e' <-> waiting s x e' \/ (x = o /\ e' = e)) by (intros e'; by eapply add_entry_waiting).
    destruct (decide (x = o)) as [->|Hne].
    + split.
      * apply list.NoDup_app. split; [done|]. split; [|apply NoDup_singleton]. intros e' He' ->%list_elem_of_singleton.
        apply He in He' as [H|H%not_elem_of_nil]; [|done]. by eapply add_entry_fresh in H; [|apply I|..].
      * intros e'. rewrite elem_of_app, list_elem_of_singleton, He, Hwt. rewrite !elem_of_nil. tauto.
    + split; [done|]. intros e'. rewrite He, Hwt, !elem_of_nil. tauto.
  - intros t th' H. rewrite E in H. cbn in H. destruct (decide (cur = t)) as [<-|]; [|rewrite lookup_insert_ne in H by done; by apply (iv_stacks _ _ _ I t)].
    rewrite lookup_insert_eq in H. injection H as <-. destruct (iv_stacks _ _ _ I _ _ Ht) as [H1 H2]. rewrite Hw in H1, H2. cbn. split; [done|].
    intros w' [->|Hin]%elem_of_cons; [done|]. apply H2. by right.
  - apply (data_ok_same s); [apply I| | |rewrite Es; apply (dt_self _ (iv_data _ _ _ I))].
    + intros x. unfold owner_of. by rewrite Es.
    + intros t. unfold mutexes_of. rewrite E. cbn. destruct (decide (cur = t)) as [<-|]; [by rewrite lookup_insert_eq, Ht|by rewrite lookup_insert_ne].
  - intros x m. rewrite Es, Hq. intros Hm. pose proof (iv_room _ _ _ I x m Hm). destruct (decide (x = o)) as [->|]; [|done].
    rewrite length_app. specialize (Hroom m Hm). cbn in *. lia.
Qed.

Lemma add_entry_evolves s th w rest o :
  threads s !! cur = Some th -> wait th = w :: rest -> evolves s (add_entry s cur o).
Proof.
  intros Ht Hw. rewrite (add_entry_eq s th w rest o Ht Hw). split; try done.
  - intros x. right. split; [|done]. cbn [objs add_queue set_queue set_objs set_threads]. rewrite grab_lookup.
    case_decide as E; [subst; by destruct (objects (objs s) !! o)|done].
  - intros t. cbn. destruct (decide (cur = t)) as [<-|]; [by rewrite lookup_insert_eq, Ht|by rewrite lookup_insert_ne].
Qed.

(** The stack of the current thread is now [ws], and nothing became signaled. *)
Record restacked (ws : list thread_wait) (s s' : sync) : Prop := {
  rs_evolves : evolves s s';
  rs_signaled : forall o t, signaled s' o t = true -> signaled s o t = true;
  rs_waits : forall t, waits_of s' t = if decide (t = cur) then ws else waits_of s t
}.

Lemma restacked_trans ws ws' s s' s'' : restacked ws s s' -> restacked ws' s' s'' -> restacked ws' s s''.
Proof.
  intros H1 H2. split.
  - transitivity s'; [apply H1|apply H2].
  - intros o t H. by apply (rs_signaled _ _ _ H1), (rs_signaled _ _ _ H2).
  - intros t. rewrite (rs_waits _ _ _ H2), (rs_waits _ _ _ H1). by case_decide.
Qed.

Lemma restacked_id ws s : waits_of s cur = ws -> restacked ws s s.
Proof. intros H. split; [done..|]. intros t. case_decide; [by subst|done]. Qed.

Lemma popped_restacked s s' : settles s s' -> popped cur s s' -> restacked (tail (waits_of s cur)) s s'.
Proof. intros S P. split; [by apply settles_evolves|apply S|]. intros t. rewrite P. case_decide; by subst. Qed.

(** Other threads notice nothing. *)
Lemma restacked_idle held ws s s' t :
  sync_inv held [] s -> restacked ws s s' -> t <> cur \/ ws = waits_of s cur -> idle s t -> idle s' t.
Proof.
  intros I R Ht. pose proof (rs_evolves _ _ _ R) as E. apply (idle_mono held s s' t I); try apply E.
  - intros o. apply R.
  - rewrite (rs_waits _ _ _ R). case_decide; [|done]. subst. by destruct Ht.
Qed.

(** Room for [n] more waits on every mutex. *)
Definition room_for (s : sync) (n : Z) : Prop :=
  forall o m, sync_objects s !! o = Some (Mutex m) -> mutex_count m + Z.of_nat (length (queue s o)) + n < 2 ^ 32.

Lemma add_entry_restacked s th w rest o :
  threads s !! cur = Some th -> wait th = w :: rest -> restacked (grow w [o] :: rest) s (add_entry s cur o).
Proof.
  intros Ht Hw. split; [by eapply add_entry_evolves| |]; rewrite (add_entry_eq s th w rest o Ht Hw).
  - intros o' t'. rewrite (signaled_ext s); [done|done|]. cbn. destruct (decide (cur = o')) as [<-|]; [by rewrite lookup_insert_eq, Ht|].
    by rewrite lookup_insert_ne.
  - intros t. unfold waits_of. cbn. case_decide as E; [subst; by rewrite lookup_insert_eq|]. by rewrite lookup_insert_ne.
Qed.

Lemma grow_grow w l l' : grow (grow w l) l' = grow w (l ++ l').
Proof. unfold grow. cbn. by rewrite app_assoc. Qed.

Lemma waits_of_lookup s t w rest : waits_of s t = w :: rest -> exists th, threads s !! t = Some th /\ wait th = w :: rest.
Proof. unfold waits_of. destruct (threads s !! t) as [th|]; [|done]. by exists th. Qed.

Lemma held_alive (s' : sync) (held : list Z) (o : Z) : sync_inv held [] s' -> o ∈ held -> is_Some (objects (objs s') !! o).
Proof. intros I H. eapply anchored_alive; [done|by left]. Qed.

Lemma wait_on_entries_run held os : forall s w rest e,
  sync_inv held [] s -> waits_of s cur = w :: rest -> (forall o, o ∈ os -> o ∈ held) -> wait_ok (grow w os) ->
  room_for s (Z.of_nat (length os)) ->
  exists s' b e', wait_on_entries current s os e = (Some (s', b), e') /\ sync_inv held [] s' /\
    restacked (if b then grow w os :: rest else rest) s s'.
Proof.
  induction os as [|o os IH]; intros s w rest e I Hws Hheld Hok Hroom; cbn [wait_on_entries].
  - exists s, true, e. split; [done|]. split; [done|]. apply restacked_id. rewrite Hws. f_equal. unfold grow.
    rewrite app_nil_r. by destruct w.
  - destruct (waits_of_lookup _ _ _ _ Hws) as (th & Ht & Hw). destruct (sync_objects s !! o) as [x|] eqn:Hx.
    + assert (Hok1 : wait_ok (grow w [o])).
      { destruct Hok as [H1 H2]. cbn in H1, H2. split; cbn; [rewrite length_app in *; cbn in *; lia|]. intros H. specialize (H2 H).
        change (o :: os) with ([o] ++ os) in H2. rewrite app_assoc in H2. by apply list.NoDup_app in H2 as [H2 _]. }
      pose proof (add_entry_restacked s th w rest o Ht Hw) as R1.
      destruct (IH (add_entry s cur o) (grow w [o]) rest e) as (s' & b & e' & E & I' & R').
      * eapply add_entry_inv; try done; [eapply held_alive; [done|]; apply Hheld; by left|].
        intros m Hm. specialize (Hroom o m Hm). cbn in Hroom. lia.
      * rewrite (rs_waits _ _ _ R1). by rewrite decide_True.
      * intros o' Ho. apply Hheld. by right.
      * by rewrite grow_grow.
      * intros o' m. rewrite (add_entry_eq s th w rest o Ht Hw). unfold add_queue. rewrite set_queue_lookup. cbn [sync_objects set_queue set_objs set_threads].
        intros Hm. specialize (Hroom o' m Hm). change (queue (set_threads s _) o) with (queue s o).
        change (queue (set_objs (set_threads s _) _) o') with (queue s o').
        destruct (decide (o' = o)) as [->|]; rewrite ?length_app; cbn in *; lia.
      * exists s', b, e'. split; [done|]. split; [done|]. rewrite grow_grow in R'. by eapply restacked_trans.
    + unfold bind, set_error, get_error. cbn [error].
      destruct (cancel_wait held s cur th w rest STATUS_OBJECT_TYPE_MISMATCH I Ht Hw ltac:(done)) as (s' & -> & I' & S & P). cbn.
      eexists s', false, _. split; [done|]. split; [done|]. pose proof (popped_restacked s s' S P) as R. by rewrite Hws in R.
Qed.

(** The new wait. *)
Definition new_wait (addr : Z) (sel : select_op) (flags when : Z) (os : list Z) : thread_wait := mk_wait addr sel flags 0 when false os.

Definition fresh_wait (s : sync) (addr : Z) : Prop := ~ addr ∈ (w_addr <$> waits_of s cur).

Lemma push_restacked s th w : threads s !! cur = Some th -> restacked (w :: wait th) s (push s th w).
Proof.
  intros Ht. split.
  - split; try done; [intros o; by right|]. intros t. rewrite push_lookup. case_decide; [subst; by rewrite Ht|done].
  - intros o t. rewrite (signaled_ext s); [done..|]. rewrite push_lookup. case_decide; [subst; by rewrite Ht|done].
  - intros t. unfold waits_of. rewrite push_lookup. by case_decide.
Qed.

Lemma wait_on_run held s addr sel os flags when e :
  sync_inv held [] s -> is_Some (threads s !! cur) -> fresh_wait s addr -> (forall o, o ∈ os -> o ∈ held) ->
  Z.of_nat (length os) <= MAXIMUM_WAIT_OBJECTS -> (sel = SELECT_WAIT_ALL -> NoDup os) -> room_for s (Z.of_nat (length os)) ->
  exists s' b e', wait_on current s addr sel os flags when e = (Some (s', b), e') /\ sync_inv held [] s' /\
    restacked (if b then new_wait addr sel flags when os :: waits_of s cur else waits_of s cur) s s'.
Proof.
  intros I [th Ht] Hf Hheld Hl Hn Hroom. unfold wait_on, bind. destruct (mem_alloc e) as [[] e1]; cbn [negb].
  2: { exists s, false, e1. split; [done|]. split; [done|]. by apply restacked_id. }
  rewrite Ht. assert (Hws : waits_of s cur = wait th) by (unfold waits_of; by rewrite Ht).
  unfold fresh_wait in Hf. rewrite Hws in *. fold (push s th (new_wait addr sel flags when [])).
  pose proof (push_restacked s th (new_wait addr sel flags when []) Ht) as R0.
  destruct (wait_on_entries_run held os (push s th (new_wait addr sel flags when [])) (new_wait addr sel flags when []) (wait th) e1)
    as (s' & b & e' & E & I' & R').
  - by apply push_inv.
  - rewrite (rs_waits _ _ _ R0). by rewrite decide_True.
  - done.
  - by split.
  - exact Hroom.
  - exists s', b, e'. split; [done|]. split; [done|]. by eapply restacked_trans.
Qed.

(** ** The objects of a list of handles *)

(** Only references were added. *)
Record grabbed (s s' : sync) : Prop := {
  gr_state : s' = set_objs s (objs s');
  gr_tables : same_tables (objs s) (objs s');
  gr_objects : forall o, ops <$> objects (objs s') !! o = ops <$> objects (objs s) !! o
}.

#[export] Instance grabbed_preorder : PreOrder grabbed.
Proof.
  split; [intros s; split; [by destruct s|done|done]|]. intros s1 s2 s3 [A1 [B1 B2] C1] [A2 [B3 B4] C2]. split.
  - rewrite A2. by rewrite A1.
  - split; congruence.
  - intros o. by rewrite C2, C1.
Qed.

Lemma grab_grabbed s o : grabbed s (grab s o).
Proof.
  split; [done|done|]. intros x. cbn [objs grab set_objs]. rewrite grab_lookup.
  case_decide as E; [subst; by destruct (objects (objs s) !! o)|done].
Qed.

Lemma grabbed_restacked s s' : grabbed s s' -> restacked (waits_of s cur) s s'.
Proof.
  intros [E [T1 T2] O]. rewrite E. split.
  - split; try done. intros o. right. by rewrite O.
  - done.
  - intros t. case_decide; by subst.
Qed.

Lemma grabbed_magic s s' : grabbed s s' -> magic_alive current (objs s) -> magic_alive current (objs s').
Proof.
  intros G M h o H. destruct (M h o H) as [ob Hob]. pose proof (gr_objects _ _ G o) as E. rewrite Hob in E.
  destruct (objects (objs s') !! o); [by eexists|done].
Qed.

Lemma grabbed_target s s' h : grabbed s s' -> target (objs s') h = target (objs s) h.
Proof.
  intros [_ T _]. unfold target, get_handle. destruct (get_magic_handle current h); [done|].
  destruct (handle_is_global h); by rewrite (same_tables_get (objs s)).
Qed.

Lemma get_objects_run hs : forall held s acc e,
  sync_inv held [] s -> magic_alive current (objs s) ->
  exists s' os ok e', get_objects current s hs acc e = (s', os ++ acc, ok, e') /\ sync_inv (os ++ held) [] s' /\ grabbed s s' /\
    (length os <= length hs)%nat /\ (ok = true -> Forall2 (fun h o => target (objs s) h = Some o) hs (reverse os)).
Proof.
  induction hs as [|h hs IH]; intros held s acc e I M; cbn [get_objects].
  - exists s, [], true, e. by repeat (split; [done|]).
  - destruct (get_handle_obj_run held s h SYNCHRONIZE None e I M) as [(e1 & E & _)|(o & ob & e1 & E & Ht & Ho & _)];
      rewrite (bind_run _ _ _ _ _ E).
    + exists s, [], false, e1. split; [by destruct s|]. split; [done|]. split; [done|]. split; [cbn; lia|done].
    + fold (grab s o). pose proof (grab_grabbed s o) as G0.
      destruct (IH (o :: held) (grab s o) (o :: acc) e1) as (s' & os & ok & e' & E' & I' & G' & Hl & Hf).
      * apply grab_inv; [done|by exists ob].
      * by apply (grabbed_magic s).
      * exists s', (os ++ [o]), ok, e'. rewrite <-!app_assoc. split; [done|]. split; [done|]. split; [by transitivity (grab s o)|].
        split; [rewrite length_app; cbn; lia|]. intros Hok. rewrite reverse_snoc. constructor; [done|].
        eapply Forall2_impl; [by apply Hf|]. intros h' o' H. by rewrite <-(grabbed_target s (grab s o) h' G0).
Qed.

(** The objects of the handles. *)
Definition targets (s : sync) (hs : list Z) : list Z := omap (target (objs s)) hs.

Lemma targets_forall2 s hs os : Forall2 (fun h o => target (objs s) h = Some o) hs os -> targets s hs = os.
Proof. induction 1 as [|h o hs os H _ IH]; [done|]. unfold targets in *. cbn. by rewrite H, IH. Qed.

Lemma inv_perm held held' extra s : held ≡ₚ held' -> sync_inv held extra s -> sync_inv held' extra s.
Proof.
  intros P I. split; try apply I. intros o. pose proof (iv_refs _ _ _ I o) as H. unfold refs_at in *.
  assert (occ o held' = occ o held) as -> by (unfold occ; by rewrite P). done.
Qed.

Lemma wait_on_handles_run held s addr sel hs flags when e :
  sync_inv held [] s -> magic_alive current (objs s) -> is_Some (threads s !! cur) -> fresh_wait s addr ->
  Z.of_nat (length hs) <= MAXIMUM_WAIT_OBJECTS -> (sel = SELECT_WAIT_ALL -> NoDup (targets s hs)) -> room_for s MAXIMUM_WAIT_OBJECTS ->
  exists s' b e', wait_on_handles current s addr sel hs flags when e = (Some (s', b), e') /\ sync_inv held [] s' /\
    restacked (if b then new_wait addr sel flags when (targets s hs) :: waits_of s cur else waits_of s cur) s s'.
Proof.
  intros I M Ht Hf Hl Hn Hroom. unfold wait_on_handles. rewrite (proj2 (Z.ltb_ge _ _)) by lia.
  destruct (get_objects_run hs held s [] e I M) as (s1 & os & ok & e1 & E & I1 & G & Hlen & Htg). rewrite app_nil_r in E.
  rewrite (bind_run _ _ _ _ _ E). pose proof (grabbed_restacked s s1 G) as R1.
  assert (Hroom1 : room_for s1 (Z.of_nat (length (reverse os)))).
  { rewrite (gr_state _ _ G), length_reverse. intros o m Hm. specialize (Hroom o m Hm). change (queue (set_objs s _) o) with (queue s o).
    unfold MAXIMUM_WAIT_OBJECTS in *. lia. }
  assert (Hrun : exists s2 b e2, (if ok then wait_on current s1 addr sel (reverse os) flags when else ret (Some (s1, false))) e1 = (Some (s2, b), e2) /\
    sync_inv (os ++ held) [] s2 /\
    restacked (if b then new_wait addr sel flags when (targets s hs) :: waits_of s cur else waits_of s cur) s s2).
  { destruct ok; [|exists s1, false, e1; done]. specialize (Htg eq_refl). rewrite (targets_forall2 s hs _ Htg) in *.
    destruct (wait_on_run (os ++ held) s1 addr sel (reverse os) flags when e1) as (s2 & b & e2 & E2 & I2 & R2); try done.
    - rewrite (gr_state _ _ G). done.
    - unfold fresh_wait in *. by rewrite (gr_state _ _ G).
    - intros o. rewrite elem_of_reverse, elem_of_app. auto.
    - rewrite length_reverse. lia.
    - exists s2, b, e2. split; [done|]. split; [done|]. replace (waits_of s cur) with (waits_of s1 cur) by (by rewrite (gr_state _ _ G)).
      by eapply restacked_trans. }
  destruct Hrun as (s2 & b & e2 & E2 & I2 & R2). rewrite (bind_run _ _ _ _ _ E2). cbn.
  destruct (release_all_run os held s2 I2) as (s' & -> & I' & [S W]). exists s', b, e2. split; [done|]. split; [done|].
  eapply restacked_trans; [exact R2|]. split; [by apply settles_evolves|apply S|]. intros t. rewrite W, (rs_waits _ _ _ R2). by case_decide.
Qed.
End requests.
