(* ===== verification/SyncSignal.v ===== *)
(** * Waking everybody, and signaling before a wait

    wake_up without a limit, and select_on, which signals an object before it waits. *)

From Stdlib Require Import ZArith Lia.
From stdpp Require Import base list numbers option gmap.
From S2P Require Import Prelude Handles HandleTheorems HandleCounts HandleSteps Sync SyncRequests SyncInvariant SyncWaits SyncWakeup SyncOps SyncSelect.

#[local] Open Scope Z_scope.
#[local] Open Scope server_scope.

(** * Waking everybody: server/thread.c, server/mutex.c

    What wake_up achieves when it is not limited to a number of threads, and the
    threads that an object which has become signaled may still have to wake. *)

(** [t] has a wait on [o]. *)
Definition blocked_on (s : sync) (o t : Z) : Prop := exists w, w ∈ waits_of s t /\ o ∈ w_objs w.

Lemma blocked_queue held s o t : sync_inv held [] s -> blocked_on s o t -> exists e, e ∈ queue s o /\ e_thread e = t.
Proof.
  intros I (w & Hw & Ho). unfold waits_of in Hw. destruct (threads s !! t) as [th|] eqn:Ht; [|by apply not_elem_of_nil in Hw].
  apply list_elem_of_lookup in Ho as [i Hi]. exists (mk_entry t (w_addr w) i). split; [|done].
  apply (iv_queues _ _ _ I). left. by exists th, w.
Qed.

Lemma blocked_same s s' o t : waits_of s' t = waits_of s t -> blocked_on s o t -> blocked_on s' o t.
Proof. unfold blocked_on. by intros ->. Qed.

(** A thread stays idle unless [o] is among what it waits for. *)
Lemma idle_or_blocked held s s' o t :
  sync_inv held [] s -> (forall o', o' <> o -> signaled s' o' t = true -> signaled s o' t = true) ->
  (forall th', threads s' !! t = Some th' -> exists th, threads s !! t = Some th /\ same_thread th' th) ->
  processes s' = processes s -> current_time s' = current_time s -> monotonic_time s' = monotonic_time s ->
  waits_of s' t = waits_of s t -> idle s t -> idle s' t \/ blocked_on s' o t.
Proof.
  intros I Hs Hth Hp Hc Hm Hw Hi. destruct (decide (Exists (fun w => o ∈ w_objs w) (waits_of s' t))) as [Hb|Hb].
  - right. apply list.Exists_exists in Hb as (w & ? & ?). by exists w.
  - left. intros th' w rest Ht' Hw'. destruct (check_wait s' t th' w) as [status|] eqn:Hck; [|done]. exfalso.
    destruct (Hth th' Ht') as (th & Ht & Hst).
    assert (Hwt : wait th = w :: rest) by (unfold waits_of in Hw; rewrite Ht, Ht' in Hw; congruence).
    assert (Hok : wait_ok w) by (apply (iv_stacks _ _ _ I t th Ht); rewrite Hwt; by left).
    destruct (check_wait_cause s s' t th th' w status Hok Hst Hp Hc Hm (Hi th w rest Ht Hwt) Hck) as (o' & Hg & S1 & S0).
    destruct (decide (o' = o)) as [->|Hne]; [|by rewrite (Hs o' Hne S1) in S0].
    apply Hb, list.Exists_exists. exists w. split; [unfold waits_of; rewrite Ht', Hw'; by left|by eapply granted_subset].
Qed.

(** ** wake_up without a limit *)

Record woken_all (o : Z) (s s' : sync) : Prop := {
  wa_queue : forall t, blocked_on s' o t -> idle s' t;
  wa_threads : forall t, waits_of s' t = waits_of s t \/ idle s' t
}.

Lemma wake_up_loop_all held o fuel : forall s s',
  sync_inv held [] s -> wake_up_loop fuel s o 0 = Some s' -> sync_inv held [] s' /\ settles s s' /\ woken_all o s s'.
Proof.
  induction fuel as [|fuel IH]; intros s s' I; cbn [wake_up_loop]; [done|]. destruct (objects (objs s) !! o); [|done].
  destruct (wake_first_run _ (queue s o) s I) as [[-> Hi]|(s2 & t & w & st & -> & I2 & W)].
  - intros e He. by eapply waiting_thread, queue_threads.
  - cbn. intros [= <-]. split; [done|]. split; [done|]. split; [|by left].
    intros t Hb. destruct (blocked_queue held s o t I Hb) as (e & He & <-). auto.
  - cbn. intros E. destruct (IH s2 s' I2 E) as (I' & S' & A). split; [done|]. split; [etransitivity; [apply W|done]|]. split; [apply A|].
    intros t'. destruct (wa_threads _ _ _ A t') as [Ew|]; [|by right]. destruct (decide (t' = t)) as [->|Hne].
    + right. eapply idle_settles; [exact I2|done|done|apply W].
    + left. rewrite Ew. by apply (wo_others _ _ _ _ _ _ _ W).
Qed.

Lemma wake_up_all held o s s' :
  sync_inv held [] s -> wake_up s o 0 = Some s' -> sync_inv held [] s' /\ settles s s' /\ woken_all o s s'.
Proof. apply wake_up_loop_all. Qed.

(** ** An object that is about to wake its queue *)

(** Whoever could go on waits on [j]. *)
Definition joining (j : Z) (s : sync) : Prop := forall t, idle s t \/ blocked_on s j t.

Lemma quiet_joining j s : quiet s -> joining j s.
Proof. intros Q t. left. apply Q. Qed.

Lemma joining_woken j s s' held :
  sync_inv held [] s -> joining j s -> settles s s' -> woken_all j s s' -> quiet s'.
Proof.
  intros I J S A t. destruct (wa_threads _ _ _ A t) as [Ew|]; [|done]. destruct (J t) as [Hi|Hb].
  - by eapply idle_settles.
  - by apply (wa_queue _ _ _ A), (blocked_same s).
Qed.

(** Changing an object and waking its queue leaves the others alone. *)
Lemma joining_update j held o s s1 s' :
  sync_inv held [] s -> updated held o s s1 -> wake_up s1 o 0 = Some s' -> joining j s -> joining j s'.
Proof.
  intros I U E J t. pose proof (up_inv _ _ _ _ U) as I1. destruct (wake_up_all held o s1 s' I1 E) as (I' & S & A).
  destruct (wa_threads _ _ _ A t) as [Ew|]; [|by left]. assert (Ew0 : waits_of s' t = waits_of s t) by (rewrite Ew; apply core_waits, U).
  destruct (J t) as [Hi|Hb]; [|right; by apply (blocked_same s)].
  destruct (idle_or_blocked held s s' o t I) as [?|?]; try (by left); try done.
  - intros o' Hne H. apply (se_signaled _ _ S) in H. by rewrite (updated_signaled held o s s1) in H.
  - intros th' Ht'. pose proof (se_threads _ _ S t) as E1. rewrite (core_rest _ _ (up_threads _ _ _ _ U t)), Ht' in E1. cbn in E1.
    destruct (threads s !! t) as [th|]; [|done]. apply (inj Some) in E1. by exists th.
  - rewrite (se_processes _ _ S). apply U.
  - rewrite (se_time _ _ S). apply U.
  - rewrite (se_monotonic _ _ S). apply U.
  - left. by apply (wa_queue _ _ _ A).
Qed.

(** do_release wakes the whole queue of the mutex. *)
Lemma do_release_wake_up s o t ab :
  do_release (set_data s o (Mutex (mk_mutex (Some t) 0 ab))) o (mk_mutex (Some t) 0 ab) = wake_up (free_mutex s o t ab) o 0.
Proof.
  unfold do_release, free_mutex, set_data, set_sync_objects, unlink_mutex, set_threads. cbn. by rewrite insert_insert_eq.
Qed.

(** * select_on: signaling an object and going to sleep, server/thread.c *)

Section requests.
Context (current : current_t).

#[local] Abbreviation cur := (cur_thread current).

(** ** Signaling *)

Lemma op_done_stack held o s s1 s' t : op_done held o s s1 s' -> waits_of s' t `suffix_of` waits_of s t.
Proof.
  intros D. pose proof (se_stack _ _ (dn_settles _ _ _ _ _ D) t) as H. by rewrite (core_waits s s1) in H by apply (dn_updated _ _ _ _ _ D).
Qed.

(** A request that holds a reference to [o] while it changes the object. *)
Lemma signal_object_run held s h e :
  sync_inv held [] s -> magic_alive current (objs s) ->
  exists s' b e', signal_object current s h e = (Some (s', b), e') /\ sync_inv held [] s' /\ evolves s s' /\
    (forall t, waits_of s' t `suffix_of` waits_of s t) /\
    (b = false -> 64 <= error e' /\ forall t, waits_of s' t = waits_of s t) /\
    ((forall o, target current (objs s) h = Some o -> queue_idle s o) -> forall t, idle s t -> idle s' t).
Proof.
  intros I M. unfold signal_object.
  destruct (get_handle_obj_run current held s h 0 None e I M) as [(e1 & E & Herr)|(o & ob & e1 & E & Ht & Ho & _)]; rewrite (bind_run _ _ _ _ _ E).
  - exists s, false, e1. replace (set_objs s (objs s)) with s by (by destruct s). repeat (split; [done|]). done.
  - fold (grab s o). pose proof (grab_inv held [] s o I ltac:(by exists ob)) as I1.
    destruct (signal_run (o :: held) (grab s o) o (get_handle_access current (objs (grab s o)) (cur_process current) h) cur I1)
      as (s1 & s2 & err & -> & D & Hbad); [left; by left|]. cbn [on_some].
    destruct (release_run held s2 o (dn_inv _ _ _ _ _ D)) as (s' & E' & I' & S).
    assert (Hrun : forall e2, (let? s0 := release s2 o in ret (Some (s0, match err with Some _ => false | None => true end))) e2 =
      (Some (s', match err with Some _ => false | None => true end), e2)) by (intros e2; by rewrite E').
    exists s', (match err with Some _ => false | None => true end), (snd (report err e1)). split.
    { unfold bind. destruct err; cbn; apply Hrun. }
    split; [done|]. split; [transitivity (grab s o); [apply grab_evolves|]; transitivity s2; [by eapply op_done_evolves|apply settles_evolves, S]|].
    split; [intros t; rewrite (proj2 S); by apply (op_done_stack (o :: held) o (grab s o) s1)|]. split.
    + destruct err as [x|]; [|done]. intros _. destruct (Hbad x eq_refl) as [-> Hx]. split; [done|]. intros t. by rewrite (proj2 S).
    + intros Hq t Hi. apply (settled_idle _ s2 s' t (dn_inv _ _ _ _ _ D) S). apply (dn_idle _ _ _ _ _ D); [|by apply (grab_idle held)].
      intros x Hx. apply (grab_idle held); [done|]. by apply (Hq o Ht).
Qed.

(** ** Going to sleep *)

(** The thread goes on, or sleeps with a wait that is not satisfied. *)
Lemma start_wait_run held s w rest cookie e :
  sync_inv held [] s -> waits_of s cur = w :: rest ->
  exists s' b e', start_wait current s cookie e = (Some (s', b), e') /\ sync_inv held [] s' /\ evolves s s' /\
    (forall o t, signaled s' o t = true -> signaled s o t = true) /\
    (forall t, t <> cur -> waits_of s' t = waits_of s t) /\
    if b then waits_of s' cur = rest else idle s' cur.
Proof.
  intros I Hws. destruct (waits_of_lookup _ _ _ _ Hws) as (th & Ht & Hw). unfold start_wait. rewrite Ht, Hw.
  assert (Hpop : forall s', settles s s' -> popped cur s s' -> evolves s s' /\ (forall o t, signaled s' o t = true -> signaled s o t = true) /\
    (forall t, t <> cur -> waits_of s' t = waits_of s t) /\ waits_of s' cur = rest).
  { intros s' S P. split; [by apply settles_evolves|]. split; [apply S|]. split; [|rewrite P, decide_True, Hws by done; done].
    intros t Hne. rewrite P. by rewrite decide_False. }
  destruct (check_wait s cur th w) as [st|] eqn:Hc.
  - assert (Hok : wait_ok w) by (apply (iv_stacks _ _ _ I _ th Ht); rewrite Hw; by left).
    destruct (check_wait_sound _ _ _ _ _ Hok Hc) as [Hst Hg].
    destruct (end_wait_ok held s cur th w rest st I Ht Hw Hst Hg) as (s' & -> & I' & S & P). cbn.
    eexists s', true, _. split; [done|]. split; [done|]. by apply Hpop.
  - assert (Hcancel : forall e1, 64 <= error e1 -> exists s' b e',
      (let* err := get_error in let? (s0, _) := end_wait s cur err in ret (Some (s0, true))) e1 = (Some (s', b), e') /\ sync_inv held [] s' /\
      evolves s s' /\ (forall o t, signaled s' o t = true -> signaled s o t = true) /\ (forall t, t <> cur -> waits_of s' t = waits_of s t) /\
      if b then waits_of s' cur = rest else idle s' cur).
    { intros e1 He. unfold bind, get_error. destruct (cancel_wait held s cur th w rest (error e1) I Ht Hw He) as (s' & -> & I' & S & P).
      exists s', true, e1. split; [done|]. split; [done|]. by apply Hpop. }
    unfold bind at 1. destruct ((if w_when w =? TIMEOUT_INFINITE then ret true else mem_alloc) e) as [ok e1] eqn:Ea.
    destruct ok; cbn [negb].
    2: { apply Hcancel. revert Ea. case_match; [done|]. unfold mem_alloc, bind, malloc, set_error, ret. destruct (allocs e) as [|[] l]; try done. by intros [= <-]. }
    set (w' := mk_wait _ _ _ _ _ _ _). fold (rewait s cur th (w' :: rest)). eexists _, false, _. split; [done|].
    assert (Hsame : Forall2 same_wait (wait th) (w' :: rest)).
    { rewrite Hw. constructor; [done|]. clear. induction rest; by constructor. }
    split; [by apply rewait_inv|]. split; [by apply rewait_evolves|]. split; [intros o t; by rewrite rewait_signaled|]. split.
    + intros t Hne. unfold waits_of. rewrite rewait_lookup. by rewrite decide_False.
    + apply rewait_idle; [done..|]. intros th' w0 rest' Ht' Hw'. congruence.
Qed.

(** ** select_on *)

(** The handles that a request to wait names. *)
Definition wait_handles (sop : select_op_t) (op_size : Z) : list Z :=
  match op sop with
  | SELECT_WAIT | SELECT_WAIT_ALL => handle_word sop <$> seq 0 (Z.to_nat (u32 (op_size - 4) / 4))
  | SELECT_SIGNAL_AND_WAIT => [handle_word sop 0]
  | _ => []
  end.

(** A wait for all names no object twice, and a signal-and-wait another object
    than the one it signals and from outside of any wait. *)
Definition distinct_objects (s : sync) (sop : select_op_t) (op_size : Z) : Prop :=
  op sop = SELECT_WAIT_ALL -> NoDup (targets current s (wait_handles sop op_size)).

Definition not_nested (s : sync) (sop : select_op_t) : Prop :=
  op sop = SELECT_SIGNAL_AND_WAIT -> handle_word sop 1 <> 0 ->
  waits_of s cur = [] /\ target current (objs s) (handle_word sop 0) <> target current (objs s) (handle_word sop 1).

(** The result of a request: it returns, keeps the invariant, and nobody is left
    behind. *)
Definition request_ok {A} (held : list Z) (calm : Prop) (s : sync) (m : M (option (sync * A))) : Prop :=
  forall e, exists s' a e', m e = (Some (s', a), e') /\ sync_inv held [] s' /\ evolves s s' /\ (calm -> quiet s -> quiet s').

(** The tail of select_on after the wait has been set up. *)
Lemma start_request held s s1 addr sel flags when os cookie e :
  sync_inv held [] s -> sync_inv held [] s1 -> restacked current (new_wait addr sel flags when os :: waits_of s cur) s s1 ->
  exists s' b e', start_wait current s1 cookie e = (Some (s', b), e') /\ sync_inv held [] s' /\ evolves s s' /\ (quiet s -> quiet s').
Proof.
  intros I I1 R. pose proof (rs_waits _ _ _ _ R cur) as Hws. rewrite decide_True in Hws by done.
  destruct (start_wait_run held s1 _ _ cookie e I1 Hws) as (s' & b & e' & E & I' & V & Hs & Ho & Hb).
  exists s', b, e'. split; [done|]. split; [done|]. assert (V' : evolves s s') by (transitivity s1; [apply R|done]). split; [done|].
  intros Q t. destruct (decide (t = cur)) as [->|Hne].
  - destruct b; [|done]. apply (idle_mono held s s' cur I); try apply V'; try done. intros o H. by apply (rs_signaled _ _ _ _ R), Hs.
  - apply (idle_mono held s s' t I); try apply V'; try done.
    + intros o H. by apply (rs_signaled _ _ _ _ R), Hs.
    + rewrite Ho by done. rewrite (rs_waits _ _ _ _ R). by rewrite decide_False.
Qed.

Lemma restacked_quiet held s s' : sync_inv held [] s -> restacked current (waits_of s cur) s s' -> quiet s -> quiet s'.
Proof. intros I R Q t. apply (restacked_idle current held _ s s' t I R); [by right|apply Q]. Qed.

(** A wait set up without success leaves the stack as it was. *)
Lemma no_wait held s s1 : sync_inv held [] s -> sync_inv held [] s1 -> restacked current (waits_of s cur) s s1 ->
  forall e, exists s' b e', ret (A := option (sync * bool)) (Some (s1, true)) e = (Some (s', b), e') /\ sync_inv held [] s' /\ evolves s s' /\
    (quiet s -> quiet s').
Proof. intros I I1 R e. exists s1, true, e. split; [done|]. split; [done|]. split; [apply R|]. by apply (restacked_quiet held). Qed.

(** Signal the object and go to sleep. *)
Lemma signal_and_wait held s s1 addr flags when o2 h cookie e :
  sync_inv held [] s -> sync_inv held [] s1 -> magic_alive current (objs s1) ->
  restacked current (new_wait addr SELECT_SIGNAL_AND_WAIT flags when o2 :: waits_of s cur) s s1 ->
  exists s' b e', (let* r := signal_object current s1 h in
    let? (s, ok) := r in
    if negb ok then
      let* err := get_error in let? (s, _) := end_wait s cur err in ret (Some (s, true))
    else match waits_of s cur with [] => ret (Some (s, true)) | _ :: _ => start_wait current s cookie end) e = (Some (s', b), e') /\
    sync_inv held [] s' /\ evolves s s' /\
    (waits_of s cur = [] /\ (forall o, target current (objs s1) h = Some o -> ~ o ∈ o2) -> quiet s -> quiet s').
Proof.
  intros I I1 M R. pose proof (rs_waits _ _ _ _ R cur) as Hws. rewrite decide_True in Hws by done.
  destruct (signal_object_run held s1 h e I1 M) as (s2 & ok & e2 & E & I2 & V2 & Hst & Hbad & Hidle). rewrite (bind_run _ _ _ _ _ E). cbn [on_some].
  assert (V : evolves s s2) by (transitivity s1; [apply R|done]).
  assert (Hothers : waits_of s cur = [] -> (forall o, target current (objs s1) h = Some o -> ~ o ∈ o2) -> quiet s -> forall t, t <> cur -> idle s2 t).
  { intros Hnil Hne Q t Ht. apply Hidle; [|apply (restacked_idle current held _ s s1 t I R); [by left|apply Q]]. intros o Ho x Hx.
    apply (queue_threads _ _ _ _ I1) in Hx as (th & w & H1 & H2 & H3 & H4). destruct (decide (e_thread x = cur)) as [Ex|Ex].
    - exfalso. assert (wait th = new_wait addr SELECT_SIGNAL_AND_WAIT flags when o2 :: []) as Ew.
      { rewrite <-Hnil, <-Hws. unfold waits_of. by rewrite <-Ex, H1. }
      rewrite Ew in H2. apply list_elem_of_singleton in H2 as ->. apply (Hne o Ho). by eapply list_elem_of_lookup_2.
    - apply (restacked_idle current held _ s s1 _ I R); [by left|apply Q]. }
  destruct ok; cbn [negb].
  - destruct (waits_of s2 cur) as [|w rest] eqn:Hw2.
    + exists s2, true, e2. split; [done|]. split; [done|]. split; [done|]. intros [Hnil Hne] Q t. destruct (decide (t = cur)) as [->|]; [|by apply Hothers].
      intros th w rest Ht Hw. unfold waits_of in Hw2. rewrite Ht in Hw2. congruence.
    + destruct (start_wait_run held s2 w rest cookie e2 I2 Hw2) as (s' & b & e' & E' & I' & V' & Hs & Ho & Hb).
      exists s', b, e'. split; [done|]. split; [done|]. split; [by transitivity s2|]. intros [Hnil Hne] Q t. destruct (decide (t = cur)) as [->|Ht].
      * destruct b; [|done]. intros th w' rest' H1 H2. unfold waits_of at 1 in Hb. rewrite H1, H2 in Hb.
        specialize (Hst cur). rewrite Hws, Hw2, Hnil in Hst. apply suffix_length in Hst. rewrite <-Hb in Hst. cbn in Hst. lia.
      * apply (idle_mono held s2 s' t I2); try apply V'; auto.
  - destruct (Hbad eq_refl) as [He Hsame]. unfold bind, get_error.
    destruct (waits_of_lookup s2 cur _ _ ltac:(rewrite Hsame; exact Hws)) as (th & Ht & Hw).
    destruct (cancel_wait held s2 cur th _ _ (error e2) I2 Ht Hw He) as (s' & -> & I' & S & P). cbn.
    exists s', true, e2. split; [done|]. split; [done|]. split; [transitivity s2; [done|by apply settles_evolves]|].
    intros [Hnil Hne] Q t. destruct (decide (t = cur)) as [->|Ht'].
    + intros th' w' rest' H1 H2. specialize (P cur). rewrite decide_True, Hsame, Hws, Hnil in P by done. unfold waits_of in P. rewrite H1, H2 in P. done.
    + apply (idle_settles held s2 s' t I2 S); [rewrite P; by rewrite decide_False|]. by apply Hothers.
Qed.

(** The server holds references to the current thread, its process and tokens. *)
Definition magic_held (held : list Z) : Prop := forall h o, get_magic_handle current h = Some o -> o ∈ held.

Lemma magic_held_alive held s : magic_held held -> sync_inv held [] s -> magic_alive current (objs s).
Proof. intros H I h o Ho. eapply held_alive; [done|by eapply H]. Qed.

Lemma evolves_target s s' h : evolves s s' -> target current (objs s') h = target current (objs s) h.
Proof.
  intros V. unfold target, get_handle. destruct (get_magic_handle current h); [done|].
  destruct (handle_is_global h); by rewrite (same_tables_get (objs s)) by apply V.
Qed.

(** Wait for the objects of some handles. *)
Lemma select_wait_run held s addr sel hs cookie flags when :
  sync_inv held [] s -> magic_held held -> is_Some (threads s !! cur) -> fresh_wait current s addr ->
  room_for s MAXIMUM_WAIT_OBJECTS -> Z.of_nat (length hs) <= MAXIMUM_WAIT_OBJECTS ->
  (sel = SELECT_WAIT_ALL -> NoDup (targets current s hs)) ->
  request_ok held True s (let* r := wait_on_handles current s addr sel hs flags when in
    let? (s, ok) := r in if negb ok then ret (Some (s, true)) else start_wait current s cookie).
Proof.
  intros I Mh Ht Hf Hroom Hl Hn e. pose proof (magic_held_alive held s Mh I) as M.
  destruct (wait_on_handles_run current held s addr sel hs flags when e I M Ht Hf Hl Hn Hroom) as (s1 & b & e1 & E & I1 & R).
  rewrite (bind_run _ _ _ _ _ E). cbn [on_some]. destruct b; cbn [negb].
  - destruct (start_request held s s1 addr sel flags when _ cookie e1 I I1 R) as (s' & a & e' & ?). exists s', a, e'. tauto.
  - destruct (no_wait held s s1 I I1 R e1) as (s' & a & e' & ?). exists s', a, e'. tauto.
Qed.

Lemma request_weaken {A} held calm calm' s (m : M (option (sync * A))) :
  request_ok held calm s m -> (calm' -> calm) -> request_ok held calm' s m.
Proof. intros H Hc e. destruct (H e) as (s' & a & e' & ?). exists s', a, e'. tauto. Qed.

(** A request that only reports an error. *)
Lemma request_error {A} held calm s err (a : A) :
  sync_inv held [] s -> request_ok held calm s (set_error err ;;; ret (Some (s, a))).
Proof. intros I e. by eexists s, a, _. Qed.

Lemma select_on_run held s addr sop op_size cookie flags when :
  sync_inv held [] s -> magic_held held -> is_Some (threads s !! cur) -> fresh_wait current s addr ->
  room_for s MAXIMUM_WAIT_OBJECTS -> distinct_objects s sop op_size ->
  request_ok held (not_nested s sop) s (select_on current s addr sop op_size cookie flags when).
Proof.
  intros I Mh Ht Hf Hroom Hd. pose proof (magic_held_alive held s Mh I) as M. unfold select_on.
  assert (Hmany : forall sel, (sel = SELECT_WAIT_ALL -> NoDup (targets current s (handle_word sop <$> seq 0 (Z.to_nat (u32 (op_size - 4) / 4))))) ->
    request_ok held (not_nested s sop) s
      (if (op_size <? 4) || (MAXIMUM_WAIT_OBJECTS <? u32 (op_size - 4) / 4) then set_error STATUS_INVALID_PARAMETER ;;; ret (Some (s, true))
       else let* r := wait_on_handles current s addr sel (handle_word sop <$> seq 0 (Z.to_nat (u32 (op_size - 4) / 4))) flags when in
            let? (s, ok) := r in if negb ok then ret (Some (s, true)) else start_wait current s cookie)).
  { intros sel Hn. destruct ((op_size <? 4) || (MAXIMUM_WAIT_OBJECTS <? u32 (op_size - 4) / 4)) eqn:Eb; [by apply request_error|].
    apply orb_false_iff in Eb as [_ Eb]. apply Z.ltb_ge in Eb. eapply request_weaken; [apply select_wait_run|]; try done.
    rewrite length_fmap, length_seq. unfold MAXIMUM_WAIT_OBJECTS in *. lia. }
  unfold distinct_objects, wait_handles in *. destruct (op sop) eqn:Eop; [|by apply Hmany|by apply Hmany; auto| |by apply request_error].
  - intros e. destruct (wait_on_run current held s addr SELECT_NONE [] flags when e I Ht Hf) as (s1 & b & e1 & E & I1 & R); try done.
    { by intros o ?%not_elem_of_nil. } { intros o m Hm. specialize (Hroom o m Hm). unfold MAXIMUM_WAIT_OBJECTS in Hroom. cbn. lia. }
    rewrite (bind_run _ _ _ _ _ E). cbn [on_some]. destruct b; cbn [negb].
    + destruct (start_request held s s1 addr SELECT_NONE flags when _ cookie e1 I I1 R) as (s' & a & e' & ?). exists s', a, e'. tauto.
    + destruct (no_wait held s s1 I I1 R e1) as (s' & a & e' & ?). exists s', a, e'. tauto.
  - destruct (Z.eqb_spec (handle_word sop 1) 0) as [Hz|Hnz]; [eapply request_weaken; [apply select_wait_run|]; done|]. intros e.
    destruct (wait_on_handles_run current held s addr SELECT_SIGNAL_AND_WAIT [handle_word sop 0] flags when e I M Ht Hf) as (s1 & b & e1 & E & I1 & R); try done.
    rewrite (bind_run _ _ _ _ _ E). cbn [on_some]. destruct b; cbn [negb].
    + destruct (signal_and_wait held s s1 addr flags when _ (handle_word sop 1) cookie e1 I I1 (magic_held_alive held s1 Mh I1) R)
        as (s' & b & e' & E' & I' & V' & Q'). exists s', b, e'. split; [done|]. split; [done|]. split; [done|]. intros Hc. apply Q'.
      destruct (Hc Eop Hnz) as [Hnil Hne]. split; [done|]. intros o. rewrite (evolves_target s s1) by apply R. intros Ho Hin.
      apply list_elem_of_omap in Hin as (h & Hh & Eh). apply list_elem_of_singleton in Hh as ->. congruence.
    + destruct (no_wait held s s1 I I1 R e1) as (s' & a & e' & ?). exists s', a, e'. tauto.
Qed.
End requests.
