(* ===== verification/SyncHandlers.v ===== *)
(** * The requests on events, semaphores and mutexes

    Every request returns, keeps the invariant and the types of the objects, and
    leaves no thread behind that could go on. *)

From Stdlib Require Import ZArith Lia.
From stdpp Require Import base list numbers option gmap.
From S2P Require Import Prelude Handles HandleTheorems HandleCounts HandleSteps Sync SyncRequests SyncInvariant SyncWaits.
From S2P Require Import SyncWakeup SyncOps SyncSelect SyncSignal.

#[local] Open Scope Z_scope.
#[local] Open Scope server_scope.

(** ** Changes of the world of objects *)

(** References that the handles of an object do not account for. *)
Definition slack (ob : object) : Z := refcount ob - handle_count ob.

Lemma set_objs_inv held extra s w :
  sync_inv held extra s -> world_wf w ->
  (forall o, objects w !! o = None -> objects (objs s) !! o = None) ->
  (forall o ob', objects w !! o = Some ob' ->
     exists ob, objects (objs s) !! o = Some ob /\ slack ob' = slack ob) ->
  sync_inv held extra (set_objs s w).
Proof.
  intros I W Hn Hs. split; try apply I; [done| |apply (data_ok_same s); [apply I|done|done|apply (dt_self _ (iv_data _ _ _ I))]].
  intros o. pose proof (iv_refs _ _ _ I o) as H. unfold refs_at in *. change (queue (set_objs s w) o) with (queue s o). cbn [objs sync_objects set_objs].
  destruct (objects w !! o) as [ob'|] eqn:E.
  - destruct (Hs _ _ E) as (ob & Eo & Hl). rewrite Eo in H. unfold slack in Hl. split; [lia|apply H].
  - by rewrite (Hn _ E) in H.
Qed.

(** Threads up to waits, mutexes and contexts, and the processes. *)
Definition same_threads (s s' : sync) : Prop := (forall t, rest_of s' t = rest_of s t) /\ processes s' = processes s.

#[export] Instance same_threads_preorder : PreOrder same_threads.
Proof. split; [done|]. intros s1 s2 s3 [A1 B1] [A2 B2]. split; [intros t|]; etransitivity; eauto. Qed.

Lemma evolves_threads s s' : evolves s s' -> same_threads s s'.
Proof. intros V. split; apply V. Qed.

Section requests.
Context (event_ops semaphore_ops mutex_ops : Z) (ops_table : Z -> object_ops) (current : current_t).

#[local] Abbreviation cur := (cur_thread current).

(** The operations of an object tell what it is. *)
Definition has_type (ty : Z) (k : option kind) : Prop :=
  (ty = event_ops -> exists manual, k = Some (KEvent manual)) /\
  (ty = semaphore_ops -> k = Some KSemaphore) /\ (ty = mutex_ops -> k = Some KMutex).

Definition typed (s : sync) : Prop :=
  forall o ob, objects (objs s) !! o = Some ob -> has_type (ops ob) (kind_of <$> sync_objects s !! o).

Lemma evolves_typed s s' : evolves s s' -> typed s -> typed s'.
Proof.
  intros V T o ob Ho. destruct (ev_objects _ _ V o) as [E|[E1 E2]]; [congruence|]. rewrite Ho in E1.
  destruct (objects (objs s) !! o) as [ob0|] eqn:E; [|done]. injection E1 as Eo. rewrite Eo, E2. by apply T.
Qed.

(** ** Requests on an object *)

Lemma with_object_run {A} held s h acc ty (d : A) k :
  sync_inv held [] s -> magic_held current held ->
  (forall o ob, objects (objs s) !! o = Some ob -> ops ob = ty -> sync_inv (o :: held) [] (grab s o) ->
     request_ok (o :: held) True (grab s o) (k (grab s o) o)) ->
  request_ok held True s (with_object current s h acc ty d k).
Proof.
  intros I Mh Hk e. unfold with_object.
  destruct (get_handle_obj_run current held s h acc (Some ty) e I (magic_held_alive current held s Mh I))
    as [(e1 & E & _)|(o & ob & e1 & E & Ht & Ho & Hty)]; rewrite (bind_run _ _ _ _ _ E).
  - exists s, d, e1. replace (set_objs s (objs s)) with s by (by destruct s). by repeat (split; [done|]).
  - fold (grab s o). pose proof (grab_inv held [] s o I ltac:(by exists ob)) as I1.
    destruct (Hk o ob Ho (Hty _ eq_refl) I1 e1) as (s1 & a & e2 & E2 & I2 & V2 & Q2). rewrite (bind_run _ _ _ _ _ E2). cbn [on_some].
    destruct (release_run held s1 o I2) as (s' & -> & I' & S). exists s', a, e2. split; [done|]. split; [done|].
    split; [transitivity (grab s o); [apply grab_evolves|]; transitivity s1; [done|apply settles_evolves, S]|].
    intros _ Q t. apply (settled_idle _ s1 s' t I2 S). apply Q2; [done|]. intros t'. apply (grab_idle held); [done|apply Q].
Qed.

(** An operation followed by the reply. *)
Lemma op_request {A} held o s s1 s' (a : A) :
  op_done held o s s1 s' -> request_ok held True s (ret (Some (s', a))).
Proof.
  intros D e. exists s', a, e. split; [done|]. split; [apply D|]. split; [by eapply op_done_evolves|].
  intros _ Q t. apply (dn_idle _ _ _ _ _ D); [|apply Q]. intros x _. apply Q.
Qed.

Lemma reply_request {A} held s (a : A) : sync_inv held [] s -> request_ok held True s (ret (Some (s, a))).
Proof. intros I e. by exists s, a, e. Qed.

(** Setting the error first. *)
Lemma report_request {A} held s err (m : M (option (sync * A))) : request_ok held True s m -> request_ok held True s (report err ;;; m).
Proof.
  intros H e. unfold bind. destruct (report err e) as [[] e1]. apply H.
Qed.

Lemma held_kind held s s' o :
  sync_inv held [] s' -> o ∈ held -> settles s s' -> kind_of <$> sync_objects s' !! o = kind_of <$> sync_objects s !! o.
Proof.
  intros I' Ho S. destruct (se_objects _ _ S o) as [E|[_ E]]; [|done]. destruct (held_alive s' held o I' Ho). congruence.
Qed.

Lemma pulse_event_run held s o e :
  sync_inv held [] s -> o ∈ held -> sync_objects s !! o = Some (Event e) ->
  exists s', pulse_event s o = Some s' /\ sync_inv held [] s' /\ evolves s s' /\ (quiet s -> quiet s').
Proof.
  intros I Ho Hx. unfold pulse_event. rewrite Hx. destruct (set_event_run held s o e I ltac:(by left) Hx) as (s1 & E & D).
  unfold set_event in E. rewrite Hx in E. rewrite E. cbn.
  pose proof (held_kind held _ s1 o (dn_inv _ _ _ _ _ D) Ho (dn_settles _ _ _ _ _ D)) as Hk. cbn in Hk. rewrite lookup_insert_eq in Hk.
  destruct (sync_objects s1 !! o) as [[e1| | | |]|] eqn:Hx1; try done.
  destruct (reset_event_run held s1 o e1 (dn_inv _ _ _ _ _ D) Hx1) as [-> D1]. eexists. split; [done|]. split; [apply D1|].
  split; [transitivity s1; by eapply op_done_evolves|]. intros Q t. apply (dn_idle _ _ _ _ _ D1).
  - intros x _. apply (dn_idle _ _ _ _ _ D); [intros y _; apply Q|apply Q].
  - apply (dn_idle _ _ _ _ _ D); [intros y _; apply Q|apply Q].
Qed.

Section objects.
Context (held : list Z) (s : sync) (I : sync_inv held [] s) (Mh : magic_held current held) (T : typed s).

Lemma req_event_op_run h opcode : request_ok held True s (req_event_op event_ops current s h opcode).
Proof using I Mh T.
  apply with_object_run; [done..|]. intros o ob Ho Hty I1. destruct (proj1 (T o ob Ho) Hty) as [manual Hk]. cbn [sync_objects grab set_objs].
  destruct (sync_objects s !! o) as [[e| | | |]|] eqn:Hx; try done. assert (A : anchored (o :: held) (grab s o) o) by (left; by left).
  destruct opcode.
  - destruct (pulse_event_run (o :: held) (grab s o) o e I1 ltac:(by left) Hx) as (s' & -> & I' & V & Q). intros e1.
    exists s', (event_signaled e), e1. by repeat (split; [done|]).
  - destruct (set_event_run (o :: held) (grab s o) o e I1 A Hx) as (s' & -> & D). by eapply op_request.
  - destruct (reset_event_run (o :: held) (grab s o) o e I1 Hx) as [-> D]. by eapply op_request.
  - apply (report_request _ _ (Some STATUS_INVALID_PARAMETER)). by apply reply_request.
Qed.

Lemma req_query_event_run h : request_ok held True s (req_query_event event_ops current s h).
Proof using I Mh T.
  apply with_object_run; [done..|]. intros o ob Ho Hty I1. destruct (proj1 (T o ob Ho) Hty) as [manual Hk]. cbn [sync_objects grab set_objs].
  destruct (sync_objects s !! o) as [[e| | | |]|] eqn:Hx; try done. by apply reply_request.
Qed.

Lemma req_release_semaphore_run h n : 0 <= n < 2 ^ 32 -> request_ok held True s (req_release_semaphore semaphore_ops current s h n).
Proof using I Mh T.
  intros Hn. apply with_object_run; [done..|]. intros o ob Ho Hty I1. pose proof (proj1 (proj2 (T o ob Ho)) Hty) as Hk. cbn [sync_objects grab set_objs].
  destruct (sync_objects s !! o) as [[|m| | |]|] eqn:Hx; try done. assert (A : anchored (o :: held) (grab s o) o) by (left; by left).
  pose proof (release_semaphore_run (o :: held) (grab s o) o m n I1 A Hx Hn) as H. case_decide.
  - destruct H as (s' & -> & D). apply report_request. by eapply op_request.
  - rewrite H. apply report_request. by apply reply_request.
Qed.

Lemma req_query_semaphore_run h : request_ok held True s (req_query_semaphore semaphore_ops current s h).
Proof using I Mh T.
  apply with_object_run; [done..|]. intros o ob Ho Hty I1. pose proof (proj1 (proj2 (T o ob Ho)) Hty) as Hk. cbn [sync_objects grab set_objs].
  destruct (sync_objects s !! o) as [[|m| | |]|] eqn:Hx; try done. by apply reply_request.
Qed.

Lemma req_release_mutex_run h : request_ok held True s (req_release_mutex mutex_ops current s h).
Proof using I Mh T.
  apply with_object_run; [done..|]. intros o ob Ho Hty I1. pose proof (proj2 (proj2 (T o ob Ho)) Hty) as Hk. cbn [sync_objects grab set_objs].
  destruct (sync_objects s !! o) as [[| |m| |]|] eqn:Hx; try done.
  destruct ((mutex_count m =? 0) || negb (bool_decide (owner m = Some cur))) eqn:E.
  - apply (report_request _ _ (Some STATUS_MUTANT_NOT_OWNED)). by apply reply_request.
  - apply orb_false_iff in E as [_ E]. apply negb_false_iff, bool_decide_eq_true in E.
    destruct (release_mutex_run (o :: held) (grab s o) o cur m I1 ltac:(left; by left) Hx E) as (s' & -> & D). by eapply op_request.
Qed.

Lemma req_query_mutex_run h : request_ok held True s (req_query_mutex mutex_ops current s h).
Proof using I Mh T.
  apply with_object_run; [done..|]. intros o ob Ho Hty I1. pose proof (proj2 (proj2 (T o ob Ho)) Hty) as Hk. cbn [sync_objects grab set_objs].
  destruct (sync_objects s !! o) as [[| |m| |]|] eqn:Hx; try done. by apply reply_request.
Qed.
End objects.

(** ** New objects *)

Lemma alloc_handle_world w proc o acc attr e :
  world_wf w -> is_Some (objects w !! o) ->
  exists h w' e', alloc_handle_no_access_check ops_table w proc o acc attr e = (Some (h, w'), e') /\ world_wf w' /\
    (w' = w \/ objects w' = objects (grab_object_for_handle w o)).
Proof.
  intros W Ho. unfold alloc_handle_no_access_check, alloc_handle_entry. rewrite unreserved. set (a := Z.land _ _).
  destruct (handles w !! proc) as [t|] eqn:Et; [|eexists _, _, _; split; [done|]; split; [done|by left]].
  set (a' := if has_bits attr OBJ_INHERIT then Z.lor a RESERVED_INHERIT else a).
  pose proof (alloc_entry_keeps w (Some proc) o a' W ltac:(by exists t) Ho e) as [Wf _].
  pose proof (alloc_entry_spec w (Some proc) t o a' e Et (ww_tables w W (Some proc) t Et)) as H.
  unfold bind. destruct (alloc_entry w (Some proc) o a' e) as [[h w'] e']. exists h, w', e'. split; [done|]. split; [done|].
  destruct H as [(n & _ & _ & _ & _ & _ & ->)|(_ & -> & _)]; [by right|by left].
Qed.

Lemma alloc_handle_inv held s o acc attr e :
  sync_inv held [] s -> is_Some (objects (objs s) !! o) ->
  exists h w' e', alloc_handle_no_access_check ops_table (objs s) (cur_process current) o acc attr e = (Some (h, w'), e') /\
    sync_inv held [] (set_objs s w') /\ (forall x, ops <$> objects w' !! x = ops <$> objects (objs s) !! x).
Proof.
  intros I Ho. destruct (alloc_handle_world (objs s) (cur_process current) o acc attr e (iv_world _ _ _ I) Ho) as (h & w' & e' & E & W & Hw).
  exists h, w', e'. split; [done|]. destruct Hw as [->|Hw]; [replace (set_objs s (objs s)) with s by (by destruct s); done|].
  assert (Hl : forall x, objects w' !! x = if decide (x = o) then (fun ob => mk_obj (ops ob) (refcount ob + 1) (handle_count ob + 1)) <$> objects (objs s) !! o
                                          else objects (objs s) !! x).
  { intros x. rewrite Hw, grab_for_handle_objects. case_decide as Ex; [subst; by rewrite lookup_alter_eq|by rewrite lookup_alter_ne]. }
  split; [apply set_objs_inv; [done..| |]|].
  - intros x. rewrite Hl. case_decide as Ex; [subst; by destruct (objects (objs s) !! o)|done].
  - intros x ob'. rewrite Hl. case_decide as Ex; [subst|intros Hx; by exists ob'].
    destruct (objects (objs s) !! o) as [ob|]; [|done]. cbn. intros [= <-]. exists ob. split; [done|]. unfold slack. cbn. lia.
  - intros x. rewrite Hl. case_decide as Ex; [subst; by destruct (objects (objs s) !! o)|done].
Qed.

(** A fresh object with one reference. *)
Definition alloc (s : sync) (addr ty : Z) : sync := set_objs s (set_objects (objs s) (<[addr := mk_obj ty 1 0]> (objects (objs s)))).

Lemma alloc_inv held s addr ty : sync_inv held [] s -> objects (objs s) !! addr = None -> sync_inv (addr :: held) [] (alloc s addr ty).
Proof.
  intros I Ha. split; try apply I; [split; [apply (ww_tables _ (iv_world _ _ _ I))|]| |apply (data_ok_same s); [apply I|done|done|apply (dt_self _ (iv_data _ _ _ I))]].
  - intros x. pose proof (ww_counts _ (iv_world _ _ _ I) x) as H. cbn [objs alloc set_objs objects set_objects].
    change (total (set_objects (objs s) _) x) with (total (objs s) x).
    destruct (decide (addr = x)) as [<-|]; [rewrite lookup_insert_eq; rewrite Ha in H; cbn; lia|by rewrite lookup_insert_ne].
  - intros x. pose proof (iv_refs _ _ _ I x) as H. unfold refs_at in *. change (queue (alloc s addr ty) x) with (queue s x). rewrite occ_cons.
    cbn [objs alloc set_objs objects set_objects sync_objects]. destruct (decide (addr = x)) as [<-|Hne].
    + rewrite lookup_insert_eq. rewrite Ha in H. destruct H as (-> & -> & _). cbn. split; [lia|done].
    + rewrite lookup_insert_ne by done. exact H.
Qed.

(** The data of a fresh object. *)
Lemma init_inv held s addr x :
  sync_inv held [] s -> is_Some (objects (objs s) !! addr) -> sync_objects s !! addr = None -> queue s addr = [] -> self_ok x ->
  owner_in x = None -> sync_inv held [] (set_data s addr x).
Proof.
  intros I [ob Ho] Hn Hq Hs Hown. split; try apply I.
  - intros y. pose proof (iv_refs _ _ _ I y) as H. unfold refs_at in *. change (queue (set_data s addr x) y) with (queue s y).
    cbn [objs set_data set_sync_objects sync_objects]. destruct (decide (addr = y)) as [<-|]; [|by rewrite lookup_insert_ne].
    rewrite lookup_insert_eq, Ho in *. split; [apply H|by eexists].
  - apply (data_ok_same s); [apply I| |done|apply insert_self; [apply (iv_data _ _ _ I)|done]]. intros y.
    rewrite (owner_of_insert (set_data s addr x) (sync_objects s) addr x eq_refl). case_decide; [|done]. subst. unfold owner_of. rewrite Hn. exact Hown.
  - intros y m. cbn [set_data set_sync_objects sync_objects]. change (queue (set_data s addr x) y) with (queue s y).
    destruct (decide (addr = y)) as [<-|]; [|rewrite lookup_insert_ne by done; apply I]. rewrite lookup_insert_eq, Hq. intros [= ->].
    cbn in *. rewrite Hown in Hs. lia.
Qed.

(** A request that may change handles: it returns, keeps the invariant and the
    types, and leaves nobody behind. *)
Definition handled {A} (held : list Z) (calm : Prop) (s : sync) (m : M (option (sync * A))) : Prop :=
  forall e, exists s' a e', m e = (Some (s', a), e') /\ sync_inv held [] s' /\ typed s' /\ same_threads s s' /\ (calm -> quiet s -> quiet s').

Lemma request_handled {A} held calm s (m : M (option (sync * A))) : typed s -> request_ok held calm s m -> handled held calm s m.
Proof.
  intros T H e. destruct (H e) as (s' & a & e' & E & I & V & Q). exists s', a, e'. split; [done|]. split; [done|].
  split; [by eapply evolves_typed|]. split; [by apply evolves_threads|done].
Qed.

(** What an initialisation routine must do with a fresh object of type [ty]. *)
Record initialised (held : list Z) (addr ty : Z) (s s' : sync) : Prop := {
  in_inv : sync_inv held [] s';
  in_objs : objs s' = objs s;
  in_others : forall o, o <> addr -> sync_objects s' !! o = sync_objects s !! o;
  in_type : has_type ty (kind_of <$> sync_objects s' !! addr);
  in_threads : forall t, core <$> threads s' !! t = core <$> threads s !! t;
  in_env : processes s' = processes s /\ current_time s' = current_time s /\ monotonic_time s' = monotonic_time s
}.

Lemma initialised_idle held held' addr ty s s' t :
  sync_inv held' [] s -> queue s addr = [] -> initialised held addr ty s s' -> idle s t -> idle s' t.
Proof.
  intros I Hq N. destruct (in_env _ _ _ _ _ N) as (E1 & E2 & E3).
  apply (idle_queue held' s s' t I); try done; [|apply core_rest, N|apply core_waits, N].
  intros o Ho. rewrite (signaled_ext s s'); [done| |apply core_terminated_eq, N]. apply (in_others _ _ _ _ _ N). by intros ->.
Qed.

Lemma new_object_run held s addr ty acc attr init :
  sync_inv held [] s -> typed s -> objects (objs s) !! addr = None ->
  (exists s2, init (alloc s addr ty) = Some s2 /\ initialised (addr :: held) addr ty (alloc s addr ty) s2) ->
  handled held True s (new_object ops_table current s addr ty acc attr init).
Proof.
  intros I T Ha (s2 & Ei & N) e. unfold new_object, bind at 1, clear_error, set_error, alloc_object. unfold bind at 1 2.
  destruct (mem_alloc _) as [[] e1]; [|exists s, 0, e1; done]. cbn [ret]. fold (alloc s addr ty). rewrite Ei. cbn [on_some].
  pose proof (in_inv _ _ _ _ _ N) as I2. destruct (alloc_handle_inv (addr :: held) s2 addr acc attr e1 I2) as (h & w' & e2 & E & I3 & Hops).
  { eapply held_alive; [exact I2|by left]. }
  unfold bind. rewrite E. cbn [on_some]. destruct (release_run held (set_objs s2 w') addr I3) as (s' & -> & I' & S). exists s', h, e2. split; [done|].
  split; [done|]. pose proof (iv_refs _ _ _ I addr) as Hr. unfold refs_at in Hr. rewrite Ha in Hr. destruct Hr as (Hq & _ & Hno). split; [|split].
  - apply (evolves_typed (set_objs s2 w')); [apply settles_evolves, S|]. intros o ob Ho. cbn [objs sync_objects set_objs] in *.
    specialize (Hops o). rewrite Ho, (in_objs _ _ _ _ _ N) in Hops. cbn [objs alloc set_objs objects set_objects] in Hops.
    destruct (decide (addr = o)) as [<-|Hne].
    + rewrite lookup_insert_eq in Hops. injection Hops as ->. apply N.
    + rewrite lookup_insert_ne in Hops by done. rewrite (in_others _ _ _ _ _ N) by done. destruct (objects (objs s) !! o) as [ob0|] eqn:E0; [|done].
      injection Hops as ->. by apply T.
  - transitivity (set_objs s2 w'); [|by apply evolves_threads, settles_evolves, S]. split; [intros t; by apply core_rest, N|apply N].
  - intros _ Q t. apply (settled_idle _ _ _ t I3 S). apply (idle_mono _ s2 (set_objs s2 w') t I2); try done.
    pose proof (alloc_inv held s addr ty I Ha) as I1. apply (initialised_idle _ _ _ _ _ _ t I1 Hq N). by apply (idle_mono held s _ t I).
Qed.

Context (Hdistinct : NoDup [event_ops; semaphore_ops; mutex_ops]).

Lemma ops_distinct : event_ops <> semaphore_ops /\ event_ops <> mutex_ops /\ semaphore_ops <> mutex_ops.
Proof using Hdistinct.
  clear ops_table current. pose proof Hdistinct as H. rewrite !list.NoDup_cons, !not_elem_of_cons in H. tauto.
Qed.

(** Data that does not belong to anybody. *)
Lemma set_data_initialised held s addr ty x :
  sync_inv held [] s -> is_Some (objects (objs s) !! addr) -> sync_objects s !! addr = None -> queue s addr = [] ->
  self_ok x -> owner_in x = None -> has_type ty (Some (kind_of x)) -> initialised held addr ty s (set_data s addr x).
Proof.
  intros I Ho Hn Hq Hs Hown Hty. split; try done; [by apply init_inv| |].
  - intros o Hne. cbn. by rewrite lookup_insert_ne.
  - cbn. by rewrite lookup_insert_eq.
Qed.

Section create.
Context (held : list Z) (s : sync) (I : sync_inv held [] s) (T : typed s) (addr : Z) (Ha : objects (objs s) !! addr = None).

Lemma fresh_data ty x :
  self_ok x -> owner_in x = None -> has_type ty (Some (kind_of x)) ->
  initialised (addr :: held) addr ty (alloc s addr ty) (set_data (alloc s addr ty) addr x).
Proof using I Ha.
  intros Hs Hown Hty. pose proof (iv_refs _ _ _ I addr) as Hr. unfold refs_at in Hr. rewrite Ha in Hr. destruct Hr as (Hq & _ & Hno).
  apply set_data_initialised; try done; [by apply alloc_inv|]. cbn. rewrite lookup_insert_eq. by eexists.
Qed.

Lemma req_create_event_run acc attr manual initial :
  handled held True s (req_create_event event_ops ops_table current s addr acc attr manual initial).
Proof using I T Ha Hdistinct.
  destruct ops_distinct as (D1 & D2 & D3). apply new_object_run; [done..|]. eexists. split; [done|]. apply fresh_data; [done..|].
  cbn. split; [by eexists|]. split; done.
Qed.

Lemma req_create_semaphore_run acc attr initial max :
  0 <= initial < 2 ^ 32 -> 0 <= max < 2 ^ 32 ->
  handled held True s (req_create_semaphore semaphore_ops ops_table current s addr acc attr initial max).
Proof using I T Ha Hdistinct.
  intros Hi Hm. destruct ops_distinct as (D1 & D2 & D3). unfold req_create_semaphore.
  destruct ((max =? 0) || (max <? initial)) eqn:E; [apply request_handled; [done|by apply request_error]|].
  apply orb_false_iff in E as [_ E]. apply Z.ltb_ge in E. apply new_object_run; [done..|]. eexists. split; [done|].
  apply fresh_data; [cbn; lia|done|]. split; [done|]. by split.
Qed.

Lemma req_create_mutex_run acc attr owned :
  is_Some (threads s !! cur) -> handled held True s (req_create_mutex mutex_ops ops_table current s addr acc attr owned).
Proof using I T Ha Hdistinct.
  intros Ht. destruct ops_distinct as (D1 & D2 & D3). apply new_object_run; [done..|].
  assert (N : initialised (addr :: held) addr mutex_ops (alloc s addr mutex_ops) (set_data (alloc s addr mutex_ops) addr (Mutex (mk_mutex None 0 false)))).
  { apply fresh_data; [done..|]. split; [done|]. by split. }
  destruct owned; [|by eexists]. cbn. eexists. split; [done|].
  set (s1 := set_data (alloc s addr mutex_ops) addr (Mutex (mk_mutex None 0 false))) in *. pose proof (in_inv _ _ _ _ _ N) as I1.
  assert (Hx : sync_objects s1 !! addr = Some (Mutex (mk_mutex None 0 false))) by apply lookup_insert_eq.
  destruct (grab_free_mutex s1 addr cur _ false (iv_data _ _ _ I1) Hx eq_refl) as [O D]; [unfold owner_of; by rewrite Hx|exact Ht|].
  set (s2 := link_mutex _ cur addr) in *. split.
  - split; try apply I1; [|intros o|by apply (stacks_core s1); [apply O|apply I1]|done|].
    + intros o. pose proof (iv_refs _ _ _ I1 o) as H. unfold refs_at in *. change (queue s2 o) with (queue s1 o).
      change (objs s2) with (objs s1). cbn [sync_objects s2 link_mutex set_threads set_data set_sync_objects].
      destruct (decide (addr = o)) as [<-|]; [rewrite lookup_insert_eq; rewrite Hx in H|by rewrite lookup_insert_ne].
      destruct (objects (objs s1) !! addr); [|by destruct H as (_ & _ & ?)]. split; [apply H|by eexists].
    + change (queue s2 o) with (queue s1 o). destruct (iv_queues _ _ _ I1 o) as [Hn He]. split; [done|]. intros e.
      rewrite (waiting_core s1); [done|apply O].
    + intros o m. change (queue s2 o) with (queue s1 o). cbn [sync_objects s2 link_mutex set_threads set_data set_sync_objects].
      destruct (decide (addr = o)) as [<-|]; [|rewrite lookup_insert_ne by done; apply I1]. rewrite lookup_insert_eq. intros [= <-].
      pose proof (iv_refs _ _ _ I addr) as Hr. unfold refs_at in Hr. rewrite Ha in Hr. destruct Hr as (Hq & _ & _).
      change (queue s1 addr) with (queue s addr). rewrite Hq. cbn. lia.
  - apply N.
  - intros o Hne. cbn [sync_objects s2 link_mutex set_threads set_data set_sync_objects]. rewrite lookup_insert_ne by done. by apply N.
  - cbn. rewrite lookup_insert_eq. cbn. split; [done|]. by split.
  - intros t. rewrite (od_threads _ _ O). done.
  - done.
Qed.
End create.
End requests.
