(* ===== verification/SyncThreads.v ===== *)
(** * Closing handles, timeouts, suspending and ending threads

    The remaining operations that concern waits: server/handle.c close_handle
    with the destructors, and of server/thread.c and process.c the timeout of a
    wait, suspending, resuming and killing. *)

From Stdlib Require Import ZArith Lia.
From stdpp Require Import base list numbers option gmap.
From S2P Require Import Prelude Handles HandleTheorems HandleCounts HandleSteps Sync SyncRequests SyncInvariant SyncWaits.
From S2P Require Import SyncWakeup SyncOps SyncSelect SyncSignal SyncHandlers.

#[local] Open Scope Z_scope.
#[local] Open Scope server_scope.

(** ** Closing a handle *)

Lemma release_handle_objects w o ob x :
  objects w !! o = Some ob ->
  objects (release_object_from_handle w o) !! x =
    if decide (x = o) then if decide (refcount ob = 1) then None else Some (mk_obj (ops ob) (refcount ob - 1) (handle_count ob - 1))
    else objects w !! x.
Proof.
  intros E. unfold release_object_from_handle. rewrite (release_objects _ _ (mk_obj (ops ob) (refcount ob) (handle_count ob - 1))).
  - cbn. case_decide; [done|]. by rewrite lookup_alter_ne.
  - cbn. by rewrite lookup_alter_eq, E.
Qed.

(** The tables change, and the handle's reference goes: the object with it if it
    was the last one. *)
Lemma close_inv held s o ob w :
  sync_inv held [] s -> objects (objs s) !! o = Some ob -> 1 <= handle_count ob -> world_wf w ->
  (forall x, objects w !! x = if decide (x = o) then if decide (refcount ob = 1) then None else Some (mk_obj (ops ob) (refcount ob - 1) (handle_count ob - 1))
                              else objects (objs s) !! x) ->
  match objects w !! o with
  | Some _ => sync_inv held [] (set_objs s w)
  | None => queue s o = [] /\ sync_inv held [] (destroy (set_objs s w) o)
  end.
Proof.
  intros I Ho Hc W Hl. pose proof (iv_refs _ _ _ I o) as Hr. unfold refs_at in Hr. rewrite Ho in Hr. rewrite (Hl o), decide_True by done.
  destruct (decide (refcount ob = 1)) as [E|E].
  - assert (length (queue s o) = O /\ occ o held = O) as [H1 H2] by lia. apply nil_length_inv in H1. split; [done|].
    apply destroy_inv; try done; try apply I.
    + cbn. by rewrite Hl, !decide_True by done.
    + intros x Hx. pose proof (iv_refs _ _ _ I x) as H. unfold refs_at in *. change (queue (set_objs s w) x) with (queue s x).
      cbn [objs set_objs sync_objects]. by rewrite Hl, decide_False.
    + apply (data_ok_same s); [apply I|done|done|apply (dt_self _ (iv_data _ _ _ I))].
  - apply set_objs_inv; [done..| |].
    + intros x. rewrite Hl. by destruct (decide (x = o)).
    + intros x ob'. rewrite Hl. destruct (decide (x = o)) as [->|]; [|intros Hx; by exists ob']. intros [= <-].
      exists ob. split; [done|]. unfold slack. cbn. lia.
Qed.

(** ** Other fields of a thread *)

Definition set_thread (s : sync) (t : Z) (th : thread) : sync := set_threads s (<[t := th]> (threads s)).

Lemma set_thread_lookup s t th t' : threads (set_thread s t th) !! t' = if decide (t' = t) then Some th else threads s !! t'.
Proof. cbn. case_decide as E; [subst; by rewrite lookup_insert_eq|]. by rewrite lookup_insert_ne. Qed.

Lemma set_thread_inv held extra s t th th' :
  sync_inv held extra s -> threads s !! t = Some th -> wait th' = wait th -> mutex_list th' = mutex_list th ->
  sync_inv held extra (set_thread s t th').
Proof.
  intros I Ht Hw Hm. split; try apply I.
  - intros o. change (queue (set_thread s t th') o) with (queue s o). destruct (iv_queues _ _ _ I o) as [Hn He]. split; [done|].
    intros e. rewrite He. enough (waiting s o e <-> waiting (set_thread s t th') o e) by tauto. unfold waiting. rewrite set_thread_lookup.
    destruct (decide (e_thread e = t)) as [->|]; [|done]. rewrite Ht.
    split; intros (x & w & [= <-] & H); [exists th', w; by rewrite Hw|exists th, w; by rewrite <-Hw].
  - intros t' x E. rewrite set_thread_lookup in E. destruct (decide (t' = t)) as [->|]; [|by apply (iv_stacks _ _ _ I t')].
    injection E as <-. rewrite Hw. by apply (iv_stacks _ _ _ I t).
  - apply (data_ok_same s); [apply I|done| |apply (dt_self _ (iv_data _ _ _ I))]. intros t'. unfold mutexes_of. rewrite set_thread_lookup.
    case_decide; [subst; by rewrite Ht|done].
Qed.

Lemma set_thread_signaled s t th th' o t' :
  threads s !! t = Some th -> terminated th' = terminated th -> signaled (set_thread s t th') o t' = signaled s o t'.
Proof. intros Ht E. apply signaled_ext; [done|]. rewrite set_thread_lookup. case_decide; [subst; by rewrite Ht; cbn; rewrite E|done]. Qed.

(** ** Threads that are suspended *)

(** A suspended thread only runs system APCs. *)
Lemma suspended_idle s s' t th th' w :
  check_wait s t th w = None -> system_apc th' = system_apc th -> suspended s' th' = true -> check_wait s' t th' w = None.
Proof. unfold check_wait. intros H -> ->. by case_match. Qed.

(** Nothing that the wait of a thread depends on has changed. *)
Lemma idle_ext s s' t :
  (forall o, signaled s' o t = signaled s o t) -> threads s' !! t = threads s !! t -> current_time s' = current_time s ->
  monotonic_time s' = monotonic_time s -> (forall th, threads s !! t = Some th -> suspended s' th = suspended s th) ->
  idle s t -> idle s' t.
Proof.
  intros Hs Ht Hc Hm Hsus Hi th w rest Ht' Hw. rewrite Ht in Ht'. pose proof (Hi th w rest Ht' Hw) as H. revert H. unfold check_wait.
  rewrite (Hsus th Ht'), Hc, Hm, (first_signaled_ext s s') by done.
  assert (forallb (fun o => signaled s' o t) (w_objs w) = forallb (fun o => signaled s o t) (w_objs w)) as ->; [|done].
  clear -Hs. induction (w_objs w) as [|o os IH]; [done|]. cbn. by rewrite Hs, IH.
Qed.

(** Counts of suspensions are not negative. *)
Definition suspend_ok (s : sync) : Prop :=
  (forall t th, threads s !! t = Some th -> 0 <= suspend th) /\ (forall p x, processes s !! p = Some x -> 0 <= p_suspend x).

Lemma process_suspend_nonneg s p : suspend_ok s -> 0 <= process_suspend s p.
Proof. intros [_ H]. unfold process_suspend. destruct (processes s !! p) eqn:E; [by eapply H|done]. Qed.

Lemma suspend_ok_same s s' : same_threads s s' -> suspend_ok s -> suspend_ok s'.
Proof.
  intros [Ht Hp] [K1 K2]. split; [|by rewrite Hp]. intros t th' E. specialize (Ht t). unfold rest_of in Ht. rewrite E in Ht.
  destruct (threads s !! t) as [th|] eqn:E0; [|done]. apply (inj Some) in Ht. apply same_thread_fields in Ht as (_ & _ & _ & ->). by eapply K1.
Qed.

Lemma suspend_ok_set s t th n : threads s !! t = Some th -> 0 <= n -> suspend_ok s -> suspend_ok (set_thread s t (set_suspend th n)).
Proof.
  intros Ht Hn [K1 K2]. split; [|done]. intros t' th'. rewrite set_thread_lookup. case_decide; [intros [= <-]; done|apply K1].
Qed.

(** Nobody notices that a thread has been told to stop. *)
Lemma stop_thread_run held s t e :
  sync_inv held [] s -> exists s' e', stop_thread s t e = (s', e') /\ sync_inv held [] s' /\ settled s s'.
Proof.
  intros I. unfold stop_thread. destruct (threads s !! t) as [th|] eqn:Ht; [|by eexists s, _].
  destruct (context th) as [c|] eqn:Hc; [by eexists s, _|]. unfold bind. destruct (mem_alloc e) as [[] e1]; cbn [negb]; [|by exists s, e1].
  set (s1 := set_threads s _). eexists _, e1. split; [done|].
  assert (Hcore : forall t', core <$> threads s1 !! t' = core <$> threads s !! t').
  { intros t'. cbn. destruct (decide (t = t')) as [<-|]; [by rewrite lookup_insert_eq, Ht|by rewrite lookup_insert_ne]. }
  assert (Hmut : forall t', mutexes_of s1 t' = mutexes_of s t').
  { intros t'. unfold mutexes_of. cbn. destruct (decide (t = t')) as [<-|]; [by rewrite lookup_insert_eq, Ht|by rewrite lookup_insert_ne]. }
  set (s2 := match processes s1 !! t_process th with Some p => _ | None => _ end).
  assert (Hs2 : s2 = s1 \/ s2 = send s1 (Sigusr1 t)) by (unfold s2; destruct (processes s1 !! t_process th) as [p|]; [destruct (init_done p)|]; auto).
  assert (H2 : threads s2 = threads s1 /\ objs s2 = objs s /\ sync_objects s2 = sync_objects s /\ wait_queue s2 = wait_queue s /\
    processes s2 = processes s /\ current_time s2 = current_time s /\ monotonic_time s2 = monotonic_time s) by (by destruct Hs2 as [->| ->]).
  destruct H2 as (E1 & E2 & E3 & E4 & E5 & E6 & E7). split; [|split].
  - apply (same_inv held [] s); try done; intros t'; [by rewrite E1|]. rewrite <-(Hmut t'). unfold mutexes_of. by rewrite E1.
  - apply same_settles; try done. by rewrite E1.
  - intros t'. rewrite (core_waits s); [done|]. by rewrite E1.
Qed.

Section threads.
Context (event_ops semaphore_ops mutex_ops : Z) (ops_table : Z -> object_ops) (current : current_t).

#[local] Abbreviation cur := (cur_thread current).
#[local] Abbreviation typed := (typed event_ops semaphore_ops mutex_ops).

Lemma destroy_idle held s w o t : sync_inv held [] s -> idle s t -> idle (destroy (set_objs s w) o) t.
Proof.
  intros I. destruct (destroy_rest (set_objs s w) o) as (R1 & R2 & R3 & R4 & R5 & R6).
  assert (Hc : forall t, core <$> threads (destroy (set_objs s w) o) !! t = core <$> threads s !! t) by (intros t'; apply (destroy_core (set_objs s w))).
  apply (idle_mono held s _ t I); try done; [|apply core_rest, Hc|apply core_waits, Hc].
  intros x. destruct (decide (x = o)) as [->|Hne]; [unfold signaled, semaphore_signaled, mutex_signaled, thread_signaled; by rewrite destroy_objects, lookup_delete_eq|].
  rewrite (signaled_ext s); [done| |apply core_terminated_eq, Hc]. rewrite destroy_objects. by rewrite lookup_delete_ne.
Qed.

(** What closing a handle gives back. *)
Lemma close_handle_result s h e :
  world_wf (objs s) ->
  exists err w e', close_handle ops_table (objs s) (cur_process current) h e = (err, w, e') /\ world_wf w /\
    ((w = objs s) \/ exists slot i en ob, get_handle (objs s) (cur_process current) h = Some (slot, i, en) /\
      objects (objs s) !! ptr en = Some ob /\ 1 <= handle_count ob /\
      forall x, objects w !! x = objects (release_object_from_handle (objs s) (ptr en)) !! x).
Proof.
  intros W. pose proof (close_handle_wf ops_table (objs s) (cur_process current) h e W) as Wc.
  destruct (close_handle ops_table (objs s) (cur_process current) h e) as [[err w] e'] eqn:E. exists err, w, e'. split; [done|]. split; [done|].
  revert E. destruct (get_handle (objs s) (cur_process current) h) as [[[slot i] en]|] eqn:Hg; [|unfold close_handle; rewrite Hg; intros [= _ <- _]; by left].
  destruct (get_handle_entry _ _ _ _ _ _ Hg) as (_ & t & Ht & He).
  destruct (has_bits (access en) RESERVED_CLOSE_PROTECT) eqn:Hp; [unfold close_handle; rewrite Hg, Hp; intros [= _ <- _]; by left|].
  destruct (close_handle_op (methods ops_table (objs s) (ptr en)) (ptr en) (Some (cur_process current)) h) eqn:Hc;
    [|unfold close_handle; rewrite Hg, Hp, Hc; intros [= _ <- _]; by left].
  destruct (close_handle_spec ops_table (objs s) (cur_process current) h slot t i en e W Hg Ht Hp Hc) as (t' & env' & -> & _).
  intros [= _ <- _]. right. destruct (entry_alive (objs s) slot t i en W Ht He) as (ob & Ho & Hb).
  exists slot, i, en, ob. split; [done|]. split; [done|]. split; [lia|]. intros x.
  rewrite (release_handle_objects _ _ ob) by (by destruct slot). rewrite (release_handle_objects _ _ ob) by done. by destruct slot.
Qed.

Lemma req_close_handle_run held s h e :
  sync_inv held [] s -> typed s ->
  exists s' e', req_close_handle ops_table current s h e = (Some s', e') /\ sync_inv held [] s' /\ typed s' /\ same_threads s s' /\ (quiet s -> quiet s').
Proof.
  intros I T. unfold req_close_handle. destruct (close_handle_result s h e (iv_world _ _ _ I)) as (err & w & e1 & E & W & Hw).
  rewrite (bind_run _ _ _ _ _ E). unfold bind, set_error. destruct Hw as [->|(slot & i & en & ob & Hg & Ho & Hc & Hl)].
  - replace (set_objs s (objs s)) with s by (by destruct s). destruct (get_handle (objs s) (cur_process current) h) as [[[slot i] en]|] eqn:Hg.
    + destruct (get_handle_entry _ _ _ _ _ _ Hg) as (_ & t & Ht & He). destruct (entry_alive (objs s) slot t i en (iv_world _ _ _ I) Ht He) as (ob & -> & _).
      by eexists s, _.
    + by eexists s, _.
  - rewrite Hg. assert (Hl' : forall x, objects w !! x = if decide (x = ptr en) then if decide (refcount ob = 1) then None
      else Some (mk_obj (ops ob) (refcount ob - 1) (handle_count ob - 1)) else objects (objs s) !! x) by (intros x; by rewrite Hl, (release_handle_objects _ _ ob)).
    pose proof (close_inv held s (ptr en) ob w I Ho Hc W Hl') as Hinv.
    assert (Hty : forall x ob', objects w !! x = Some ob' -> has_type event_ops semaphore_ops mutex_ops (ops ob') (kind_of <$> sync_objects s !! x)).
    { intros x ob'. rewrite Hl'. destruct (decide (x = ptr en)) as [->|]; [|apply T]. destruct (decide (refcount ob = 1)); [done|]. intros [= <-]. exact (T _ _ Ho). }
    destruct (objects w !! ptr en) eqn:Eo.
    + eexists (set_objs s w), _. split; [done|]. split; [done|]. split; [exact Hty|]. split; [done|].
      intros Q t. apply (idle_mono held s _ t I); done || apply Q.
    + destruct Hinv as [Hq Hi]. change (queue (set_objs s w) (ptr en)) with (queue s (ptr en)). rewrite Hq. eexists _, _. split; [done|]. split; [done|].
      destruct (destroy_rest (set_objs s w) (ptr en)) as (R1 & _ & R3 & _).
      split; [|split; [split; [intros t; apply core_rest, (destroy_core (set_objs s w))|done]|intros Q t; apply (destroy_idle held); [done|apply Q]]].
      intros x ob' Hx. rewrite R1 in Hx. cbn in Hx. rewrite destroy_objects, lookup_delete_ne; [by apply Hty|]. intros <-. congruence.
Qed.

(** ** Suspending and resuming a thread *)

Lemma set_suspend_quiet s t th n :
  threads s !! t = Some th -> 0 < process_suspend s (t_process th) + n -> quiet s -> quiet (set_thread s t (set_suspend th n)).
Proof.
  intros Ht Hn Q t'. destruct (decide (t' = t)) as [->|Hne].
  - intros th' w rest Ht' Hw. rewrite set_thread_lookup, decide_True in Ht' by done. injection Ht' as <-.
    eapply (suspended_idle s); [by eapply Q|done|]. unfold suspended. cbn. by apply Z.ltb_lt.
  - apply (idle_ext s); try done; [intros o; by eapply set_thread_signaled|]. by rewrite set_thread_lookup, decide_False.
Qed.

Lemma suspend_thread_run held s t e :
  sync_inv held [] s -> typed s -> suspend_ok s ->
  exists s' n e', suspend_thread current s t e = (s', n, e') /\ sync_inv held [] s' /\ typed s' /\ suspend_ok s' /\ (quiet s -> quiet s').
Proof.
  intros I T K. unfold suspend_thread. destruct (threads s !! t) as [th|] eqn:Ht; [|by eexists s, _, _].
  destruct (Z.ltb_spec (suspend th) MAXIMUM_SUSPEND_COUNT); [|by eexists s, _, _]. fold (set_thread s t (set_suspend th (suspend th + 1))).
  pose proof (proj1 K t th Ht) as H0. pose proof (process_suspend_nonneg s (t_process th) K) as Hp.
  assert (I1 : sync_inv held [] (set_thread s t (set_suspend th (suspend th + 1)))) by (by apply (set_thread_inv held [] s t th)).
  assert (Q1 : quiet s -> quiet (set_thread s t (set_suspend th (suspend th + 1)))) by (apply set_suspend_quiet; [done|lia]).
  assert (K1 : suspend_ok (set_thread s t (set_suspend th (suspend th + 1)))) by (apply suspend_ok_set; [done|lia|done]).
  case_match; [|by eexists _, _, _].
  destruct (stop_thread_run held _ t e I1) as (s' & e' & E & I' & S). rewrite (bind_run _ _ _ _ _ E).
  eexists s', _, e'. split; [done|]. split; [done|]. split; [eapply evolves_typed; [apply settles_evolves, S|exact T]|].
  split; [eapply suspend_ok_same; [apply evolves_threads, settles_evolves, S|done]|].
  intros Q t'. apply (settled_idle held _ s' t' I1 S). by apply Q1.
Qed.

(** wake_thread on a thread that may now go on. *)
Lemma wake_thread_quiet held s t :
  sync_inv held [] s -> is_Some (threads s !! t) ->
  exists s' k, wake_thread s t = Some (s', k) /\ sync_inv held [] s' /\ settles s s' /\ idle s' t /\ (forall t', idle s t' -> idle s' t').
Proof.
  intros I Ht. destruct (wake_thread_run held s t I Ht) as (s' & k & E & I' & M & Id & _). destruct (wakes_many_settles _ _ _ _ M) as [S Ho].
  exists s', (Z.of_nat k). repeat (split; [done|]). intros t' Hi. destruct (decide (t' = t)) as [->|Hne]; [done|].
  apply (idle_settles held s s' t' I S); [by apply Ho|done].
Qed.

Lemma resume_thread_run held s t :
  sync_inv held [] s -> typed s -> suspend_ok s -> is_Some (threads s !! t) ->
  exists s' n, resume_thread s t = Some (s', n) /\ sync_inv held [] s' /\ typed s' /\ suspend_ok s' /\ (quiet s -> quiet s').
Proof.
  intros I T K [th Ht]. unfold resume_thread. rewrite Ht. destruct (Z.ltb_spec 0 (suspend th)); [|by eexists s, _].
  fold (set_thread s t (set_suspend th (suspend th - 1))). set (s1 := set_thread s t (set_suspend th (suspend th - 1))).
  assert (I1 : sync_inv held [] s1) by (by apply (set_thread_inv held [] s t th)).
  assert (K1 : suspend_ok s1) by (apply suspend_ok_set; [done|lia|done]).
  pose proof (process_suspend_nonneg s (t_process th) K) as Hp. change (process_suspend s1 (t_process th)) with (process_suspend s (t_process th)).
  destruct (Z.eqb_spec (suspend th - 1 + process_suspend s (t_process th)) 0) as [Hz|Hz].
  - destruct (wake_thread_quiet held s1 t I1) as (s' & k & -> & I' & S & Id & Hq); [unfold s1; rewrite set_thread_lookup, decide_True by done; by eexists|].
    cbn. eexists s', _. split; [done|]. split; [done|]. split; [eapply evolves_typed; [apply settles_evolves, S|exact T]|].
    split; [eapply suspend_ok_same; [apply evolves_threads, settles_evolves, S|done]|].
    intros Q t'. destruct (decide (t' = t)) as [->|Hne]; [done|]. apply Hq. apply (idle_ext s); try done.
    + intros o. by eapply set_thread_signaled.
    + unfold s1. by rewrite set_thread_lookup, decide_False.
  - eexists s1, _. split; [done|]. split; [done|]. split; [done|]. split; [done|]. apply set_suspend_quiet; [done|]. lia.
Qed.

(** ** The timeout of a wait *)

Lemma thread_timeout_run held s t th addr w :
  sync_inv held [] s -> typed s -> threads s !! t = Some th -> w ∈ wait th -> w_addr w = addr -> w_cookie w <> 0 ->
  exists s', thread_timeout s t addr = Some s' /\ sync_inv held [] s' /\ typed s' /\ same_threads s s' /\ (quiet s -> quiet s').
Proof.
  intros I T Ht Hin Ha Hck. unfold thread_timeout. rewrite Ht.
  destruct (list_find (fun w => w_addr w = addr) (wait th)) as [[i w0]|] eqn:Ef.
  2: { apply list_find_None in Ef. rewrite list.Forall_forall in Ef. by destruct (Ef w). }
  apply list_find_Some in Ef as (Hi & Ha0 & _).
  assert (w0 = w) as ->.
  { apply list_elem_of_lookup in Hin as [j Hj]. assert (i = j) as ->; [|congruence]. destruct (iv_stacks _ _ _ I _ _ Ht) as [Hn _].
    eapply (NoDup_lookup _ _ _ (w_addr w) Hn); rewrite list_lookup_fmap; [rewrite Hi|rewrite Hj]; cbn; congruence. }
  set (w' := mk_wait _ _ _ _ _ _ _). fold (rewait s t th (<[i := w']> (wait th))).
  assert (Hsame : Forall2 same_wait (wait th) (<[i := w']> (wait th))).
  { apply Forall2_same_length_lookup_2; [by rewrite length_insert|]. intros j x y Hx Hy. destruct (decide (i = j)) as [<-|].
    - rewrite list_lookup_insert_eq in Hy by (by eapply lookup_lt_Some). injection Hy as <-. rewrite Hi in Hx. injection Hx as <-. done.
    - rewrite list_lookup_insert_ne in Hy by done. rewrite Hx in Hy. injection Hy as <-. done. }
  set (s1 := rewait s t th (<[i := w']> (wait th))). assert (I1 : sync_inv held [] s1) by (by apply rewait_inv).
  assert (Q1 : quiet s -> quiet s1) by (intros Q t'; by apply rewait_idle; [..|apply Q]).
  assert (V1 : same_threads s s1) by (by apply evolves_threads, rewait_evolves).
  destruct (Nat.eqb_spec i 0) as [->|Hi0]; cbn [negb]; [|by exists s1]. case_match; [by exists s1|].
  destruct (wait th) as [|w1 rest] eqn:Hw; [done|]. injection Hi as ->.
  assert (Ht1 : threads s1 !! t = Some (set_wait th (w' :: rest))) by (unfold s1; by rewrite rewait_lookup, decide_True).
  destruct (cancel_wait held s1 t _ w' rest STATUS_TIMEOUT I1 Ht1 eq_refl ltac:(done)) as (s2 & -> & I2 & S2 & P2). cbn [mbind option_bind].
  rewrite (proj2 (Z.eqb_neq (w_cookie w) 0)) by done.
  destruct (send_wakeup_ok held [] s2 t (w_cookie w) STATUS_TIMEOUT I2) as [I3 S3]. set (s3 := send_thread_wakeup s2 t (w_cookie w) STATUS_TIMEOUT) in *.
  destruct (wake_thread_quiet held s3 t I3) as (s' & k & -> & I' & S' & Id & Hq).
  { apply (settles_thread s2 s3); [done|]. apply (settles_thread s1 s2); [done|]. by eexists. }
  assert (V' : evolves s1 s') by (transitivity s3; [|by apply settles_evolves]; transitivity s2; by apply settles_evolves).
  cbn. exists s'. split; [done|]. split; [done|]. split; [by apply (evolves_typed _ _ _ s1)|]. split.
  - transitivity s1; [done|by apply evolves_threads].
  - intros Q t'. destruct (decide (t' = t)) as [->|Hne]; [done|]. apply Hq. apply (idle_settles held s2 s3 t' I2 S3); [apply core_waits, send_wakeup_core|].
    apply (idle_settles held s1 s2 t' I1 S2); [by rewrite P2, decide_False|by apply Q1].
Qed.
End threads.
