(* ===== verification/SyncExit.v ===== *)
(** * Processes and the end of a thread: process.c, thread.c, mutex.c

    Suspending and resuming all threads of a process, abandoning the mutexes of a
    thread, and the part of kill_thread that concerns waits. *)

From Stdlib Require Import ZArith Lia.
From stdpp Require Import base list numbers option gmap.
From S2P Require Import Prelude Handles HandleTheorems HandleCounts HandleSteps Sync SyncRequests SyncInvariant SyncWaits.
From S2P Require Import SyncWakeup SyncOps SyncSelect SyncSignal SyncHandlers SyncThreads.

#[local] Open Scope Z_scope.
#[local] Open Scope server_scope.

(** ** Processes *)

Lemma set_process_inv held extra s p x : sync_inv held extra s -> sync_inv held extra (set_process s p x).
Proof. intros I. by apply (same_inv held extra s). Qed.

Lemma set_process_suspend s p x q :
  process_suspend (set_process s p x) q = if decide (q = p) then p_suspend x else process_suspend s q.
Proof. unfold process_suspend. cbn. case_decide as E; [subst; by rewrite lookup_insert_eq|]. by rewrite lookup_insert_ne. Qed.

Lemma stop_threads_run held ts : forall s e,
  sync_inv held [] s -> exists s' e', stop_threads s ts e = (s', e') /\ sync_inv held [] s' /\ settled s s'.
Proof.
  induction ts as [|t ts IH]; intros s e I; [by exists s, e|]. cbn [stop_threads].
  assert (exists s1 e1, match threads s !! t with Some th => if suspend th =? 0 then stop_thread s t else ret s | None => ret s end e = (s1, e1) /\
    sync_inv held [] s1 /\ settled s s1) as (s1 & e1 & E & I1 & S1).
  { destruct (threads s !! t); [|by exists s, e]. case_match; [by apply stop_thread_run|by exists s, e]. }
  rewrite (bind_run _ _ _ _ _ E). destruct (IH s1 e1 I1) as (s' & e' & E' & I' & S'). exists s', e'. split; [done|]. split; [done|].
  by transitivity s1.
Qed.

(** Threads of a suspended process have nothing to do. *)
Lemma set_process_quiet s p x x' :
  processes s !! p = Some x -> suspend_ok s -> 0 < p_suspend x' -> quiet s -> quiet (set_process s p x').
Proof.
  intros Hp K Hx Q t th w rest Ht Hw. change (threads (set_process s p x')) with (threads s) in Ht. destruct (decide (t_process th = p)) as [E|E].
  - apply (suspended_idle s _ t th th); [by eapply Q|done|]. unfold suspended. rewrite set_process_suspend, decide_True by done.
    apply Z.ltb_lt. pose proof (proj1 K t th Ht). lia.
  - apply (idle_ext s (set_process s p x') t) with (rest := rest); try done. intros th' Ht'. rewrite Ht in Ht'. injection Ht' as <-.
    unfold suspended. by rewrite set_process_suspend, decide_False.
Qed.

Lemma suspend_ok_process s p x : 0 <= p_suspend x -> suspend_ok s -> suspend_ok (set_process s p x).
Proof.
  intros Hx [K1 K2]. split; [done|]. intros q y. cbn. destruct (decide (p = q)) as [<-|]; [rewrite lookup_insert_eq; by intros [= <-]|].
  rewrite lookup_insert_ne by done. apply K2.
Qed.

Section exit.
Context (event_ops semaphore_ops mutex_ops : Z).

#[local] Abbreviation typed := (typed event_ops semaphore_ops mutex_ops).

Lemma suspend_process_run held s p e :
  sync_inv held [] s -> typed s -> suspend_ok s ->
  exists s' e', suspend_process s p e = (s', e') /\ sync_inv held [] s' /\ typed s' /\ suspend_ok s' /\ (quiet s -> quiet s').
Proof.
  intros I T K. unfold suspend_process. destruct (processes s !! p) as [x|] eqn:Hp; [|by exists s, e].
  set (s1 := set_process s p _). assert (I1 : sync_inv held [] s1) by (by apply set_process_inv).
  assert (Q1 : quiet s -> quiet s1) by (apply (set_process_quiet s p x); [done..|]; cbn; pose proof (proj2 K p x Hp); lia).
  assert (K1 : suspend_ok s1) by (apply suspend_ok_process; [cbn; pose proof (proj2 K p x Hp); lia|done]).
  case_match; [|by exists s1, e]. destruct (stop_threads_run held (thread_list x) s1 e I1) as (s' & e' & E & I' & S).
  exists s', e'. split; [done|]. split; [done|]. split; [eapply evolves_typed; [apply settles_evolves, S|exact T]|].
  split; [eapply suspend_ok_same; [apply evolves_threads, settles_evolves, S|done]|].
  intros Q t. apply (settled_idle held s1 s' t I1 S). by apply Q1.
Qed.

(** Waiting threads are in the list of their process. *)
Definition members_ok (s : sync) : Prop :=
  (forall t th, threads s !! t = Some th -> wait th <> [] ->
    exists p, processes s !! t_process th = Some p /\ t ∈ thread_list p) /\
  forall p x t, processes s !! p = Some x -> t ∈ thread_list x -> is_Some (threads s !! t).

(** Wake every thread of a list that is not suspended itself. *)
Lemma wake_threads_run held ts : forall s,
  sync_inv held [] s -> (forall t, t ∈ ts -> is_Some (threads s !! t)) ->
  exists s', wake_threads s ts = Some s' /\ sync_inv held [] s' /\ settles s s' /\ (forall t, idle s t -> idle s' t) /\
    forall t th, t ∈ ts -> threads s !! t = Some th -> suspend th = 0 -> idle s' t.
Proof.
  induction ts as [|t ts IH]; intros s I Hts; [exists s; do 4 (split; [done|]); by intros t th ?%not_elem_of_nil|]. cbn [wake_threads].
  destruct (Hts t ltac:(by left)) as [th Ht]. rewrite Ht.
  assert (exists s1, (if suspend th =? 0 then '(s, _) ← wake_thread s t; wake_threads s ts else wake_threads s ts) = wake_threads s1 ts /\
    sync_inv held [] s1 /\ settles s s1 /\ (forall t', idle s t' -> idle s1 t') /\ (suspend th = 0 -> idle s1 t)) as (s1 & -> & I1 & S1 & Q1 & Id).
  { destruct (Z.eqb_spec (suspend th) 0).
    - destruct (wake_thread_quiet held s t I ltac:(by eexists)) as (s1 & k & -> & I1 & S1 & Id & Q1). by exists s1.
    - exists s. by repeat (split; [done|]). }
  destruct (IH s1 I1) as (s' & E' & I' & S' & Q' & Id').
  { intros t' H'. apply (settles_thread s s1); [done|]. apply Hts. by right. }
  exists s'. split; [done|]. split; [done|]. split; [by transitivity s1|]. split; [auto|].
  intros t' th' [->|Hin]%elem_of_cons Ht' Hz; [apply Q', Id; congruence|].
  pose proof (se_threads _ _ S1 t') as Et. rewrite Ht' in Et. destruct (threads s1 !! t') as [th1|] eqn:E1; [|done].
  apply (Id' t' th1 Hin E1). apply (inj Some) in Et. apply same_thread_fields in Et. destruct Et as (_ & _ & _ & ->). done.
Qed.

Lemma resume_process_run held s p x :
  sync_inv held [] s -> typed s -> suspend_ok s -> members_ok s -> processes s !! p = Some x -> 0 < p_suspend x ->
  exists s', resume_process s p = Some s' /\ sync_inv held [] s' /\ typed s' /\ suspend_ok s' /\ (quiet s -> quiet s').
Proof.
  intros I T K [Mm Ml] Hp Hx. unfold resume_process. rewrite Hp, (proj2 (Z.ltb_lt 0 (p_suspend x))) by done. cbn [negb].
  set (s1 := set_process s p _). assert (I1 : sync_inv held [] s1) by (by apply set_process_inv).
  assert (K1 : suspend_ok s1) by (apply suspend_ok_process; [cbn; lia|done]).
  destruct (Z.eqb_spec (p_suspend x - 1) 0) as [Hz|Hz].
  - destruct (wake_threads_run held (thread_list x) s1 I1) as (s' & -> & I' & S & Q' & Id); [intros t Ht; by eapply Ml|].
    exists s'. split; [done|]. split; [done|]. split; [eapply evolves_typed; [apply settles_evolves, S|exact T]|].
    split; [eapply suspend_ok_same; [apply evolves_threads, settles_evolves, S|done]|]. intros Q t.
    destruct (threads s !! t) as [th|] eqn:Ht.
    2: { intros th w rest Ht'. exfalso. apply (settles_thread s1 s' t) in S. destruct (proj1 S ltac:(by eexists)) as [? E]. cbn in E. congruence. }
    destruct (decide (t_process th = p)) as [Ep|Ep].
    + destruct (decide (suspend th = 0)) as [Es|Es].
      * destruct (decide (wait th = [])) as [Ew|Ew]; [apply Q'; intros th' w rest H1 H2; cbn in H1; congruence|].
        destruct (Mm t th Ht Ew) as (x' & Hx' & Hin). rewrite Ep, Hp in Hx'. injection Hx' as <-. by apply (Id t th).
      * apply Q'. intros th' w rest H1 H2. cbn in H1. rewrite Ht in H1. injection H1 as <-.
        apply (suspended_idle s _ t th th); [by eapply Q|done|]. unfold suspended. unfold s1. rewrite set_process_suspend, decide_True by done. cbn.
        apply Z.ltb_lt. pose proof (proj1 K t th Ht). lia.
    + apply Q'. apply (idle_ext s); try done. intros th' H1. rewrite Ht in H1. injection H1 as <-. unfold suspended, s1.
      by rewrite set_process_suspend, decide_False.
  - exists s1. split; [done|]. split; [done|]. split; [done|]. split; [done|]. apply (set_process_quiet s p x); [done..|]. cbn. lia.
Qed.

(** ** Abandoning mutexes *)

(** A thread that does not wait acquires nothing. *)
Lemma wake_owner held s s' t o : wake held s s' -> waits_of s t = [] -> owner_of s' o = Some t -> owner_of s o = Some t.
Proof.
  intros (_ & _ & t' & w & status & th & rest & Ht & Hw & _ & s1 & s2 & T & D & ->) Hnil H.
  assert (Hne : t' <> t) by (intros ->; unfold waits_of in Hnil; rewrite Ht in Hnil; congruence).
  assert (H2 : owner_of s2 o = Some t).
  { revert H. unfold reply. case_match; [done|]. destruct (send_wakeup_rest s2 t' (w_cookie w) (wait_status s w status)) as (_ & E & _).
    unfold owner_of. by rewrite E. }
  assert (H1 : owner_of s1 o = Some t).
  { revert H2. unfold owner_of. destruct (dr_objects _ _ D o) as [[_ ->]|[_ ->]]; done. }
  revert H1. unfold owner_of. rewrite (tk_objects _ _ _ _ T). case_decide; [|done].
  cbn [sync_objects pop set_threads]. destruct (sync_objects s !! o) as [[]|]; cbn; congruence.
Qed.

Lemma wakes_owner held s s' t o :
  rtc (wake held) s s' -> waits_of s t = [] -> owner_of s' o = Some t -> owner_of s o = Some t.
Proof.
  induction 1 as [|s s1 s' H _ IH]; [done|]. intros Hnil Ho. eapply wake_owner; [done..|]. apply IH; [|done].
  destruct H as (_ & _ & t' & w & status & W). rewrite (wakes_waits _ _ _ _ _ _ W). case_decide; [subst; by rewrite Hnil|done].
Qed.

(** Every owned mutex is kept by an open handle or by the request. *)
Definition mutexes_anchored (held : list Z) (s : sync) (t : Z) : Prop := forall o, o ∈ mutexes_of s t -> anchored held s o.

Lemma abandon_mutexes_loop_run held t : forall fuel s,
  sync_inv held [] s -> is_Some (threads s !! t) -> waits_of s t = [] -> mutexes_anchored held s t ->
  (length (mutexes_of s t) <= fuel)%nat ->
  exists s', abandon_mutexes_loop fuel s t = Some s' /\ sync_inv held [] s' /\ evolves s s' /\ mutexes_of s' t = [] /\
    (forall t', waits_of s' t' `suffix_of` waits_of s t') /\ forall j, joining j s -> joining j s'.
Proof.
  induction fuel as [|fuel IH]; intros s I [th Ht] Hnil A Hf; unfold abandon_mutexes_loop; fold abandon_mutexes_loop; rewrite Ht;
    assert (Em : mutexes_of s t = mutex_list th) by (unfold mutexes_of; by rewrite Ht);
    destruct (mutex_list th) as [|o l] eqn:El; try (exists s; by repeat (split; [done|])); [rewrite Em in Hf; cbn in Hf; lia|].
  assert (Ho : owner_of s o = Some t) by (apply (dt_owned _ (iv_data _ _ _ I)); rewrite Em; by left).
  unfold owner_of in Ho. destruct (sync_objects s !! o) as [[| |m| |]|] eqn:Hx; try done. rewrite Ho, bool_decide_eq_true_2 by done. cbn [negb].
  destruct (do_release_run held s o t m true I) as (s1 & E1 & D); [apply A; rewrite Em; by left|done..|]. rewrite E1. cbn [mbind option_bind].
  pose proof (op_done_evolves _ _ _ _ _ D) as V. pose proof (op_done_stack held o s _ s1 t D) as Hst. rewrite Hnil in Hst.
  assert (Hnil1 : waits_of s1 t = []) by (by apply suffix_nil_inv in Hst).
  assert (Hsub : forall x, x ∈ mutexes_of s1 t -> x ∈ l).
  { intros x Hin. apply (dt_owned _ (iv_data _ _ _ (dn_inv _ _ _ _ _ D))) in Hin.
    apply (wakes_owner _ _ _ t x (dn_steps _ _ _ _ _ D)) in Hin; [|rewrite (core_waits s); [done|apply (dn_updated _ _ _ _ _ D)]].
    apply (dt_owned _ (iv_data _ _ _ (up_inv _ _ _ _ (dn_updated _ _ _ _ _ D)))) in Hin.
    rewrite (mutexes_of_alter s (free_mutex s o t true) t (filter (fun x => x <> o)) ltac:(by eexists) eq_refl), decide_True, Em in Hin by done.
    apply list_elem_of_filter in Hin as [Hne Hin]. by apply elem_of_cons in Hin as [?|?]. }
  assert (Hlen : (length (mutexes_of s1 t) <= length l)%nat).
  { apply submseteq_length, NoDup_submseteq; [apply (dt_nodup _ (iv_data _ _ _ (dn_inv _ _ _ _ _ D)))|done]. }
  destruct (IH s1) as (s' & E & I' & V' & Hm & Hs' & Hj).
  - apply D.
  - pose proof (ev_threads _ _ V t) as Et. rewrite Ht in Et. by destruct (threads s1 !! t).
  - done.
  - intros x Hin. destruct (A x) as [H|H]; [rewrite Em; right; by apply Hsub|by left|right].
    rewrite (same_tables_total (objs s)); [done|apply V].
  - rewrite Em in Hf. cbn in Hf. lia.
  - exists s'. split; [done|]. split; [done|]. split; [by transitivity s1|]. split; [done|]. split.
    + intros t'. etransitivity; [apply Hs'|by apply (op_done_stack held o s (free_mutex s o t true))].
    + intros j J. apply Hj. rewrite do_release_wake_up in E1. by apply (joining_update j held o s _ s1 I (dn_updated _ _ _ _ _ D)).
Qed.

(** A wait that ends with an error acquires nothing. *)
Lemma cancel_owner held s t th w rest status s' r o t' :
  sync_inv held [] s -> threads s !! t = Some th -> wait th = w :: rest -> 64 <= status ->
  end_wait s t status = Some (s', r) -> owner_of s' o = Some t' -> owner_of s o = Some t'.
Proof.
  intros I Ht Hw Hst E. assert (Hg : granted w status = []).
  { apply granted_error; [|done]. apply (iv_stacks _ _ _ I t th Ht). rewrite Hw. by left. }
  destruct (end_wait_run held s t th w rest status I Ht Hw) as (s1 & s2 & E2 & _ & T & D); [lia|rewrite Hg; by intros x ?%not_elem_of_nil|].
  rewrite E in E2. injection E2 as <- _. unfold owner_of. destruct (dr_objects _ _ D o) as [[_ ->]|[_ ->]]; [done|].
  rewrite (tk_objects _ _ _ _ T), Hg. by rewrite decide_False by apply not_elem_of_nil.
Qed.

Lemma end_waits_run held t : forall fuel s,
  sync_inv held [] s -> (length (waits_of s t) <= fuel)%nat ->
  exists s', end_waits fuel s t = Some s' /\ sync_inv held [] s' /\ settles s s' /\ waits_of s' t = [] /\
    (forall o t', owner_of s' o = Some t' -> owner_of s o = Some t') /\ forall t', t' <> t -> waits_of s' t' = waits_of s t'.
Proof.
  induction fuel as [|fuel IH]; intros s I Hf; unfold end_waits; fold end_waits; destruct (waits_of s t) as [|w rest] eqn:Hw;
    try (exists s; by repeat (split; [done|])); [cbn in Hf; lia|].
  destruct (waits_of_lookup _ _ _ _ Hw) as (th & Ht & Hwt).
  destruct (cancel_wait held s t th w rest STATUS_THREAD_IS_TERMINATING I Ht Hwt ltac:(done)) as (s1 & E1 & I1 & S1 & P1).
  pose proof (fun o t' => cancel_owner held s t th w rest STATUS_THREAD_IS_TERMINATING s1 _ o t' I Ht Hwt ltac:(done) E1) as Ho. rewrite E1. cbn [mbind option_bind].
  pose proof (P1 t) as P1t. rewrite decide_True, Hw in P1t by done. cbn in P1t, Hf.
  destruct (IH s1 I1) as (s' & E & I' & S' & Hn & Ho' & Hr'); [rewrite P1t; lia|]. exists s'. split; [done|]. split; [done|].
  split; [by transitivity s1|]. split; [done|]. split; [auto|].
  intros t' Hne. rewrite Hr', P1 by done. by rewrite decide_False.
Qed.

(** The waits of a dying thread end. *)
Lemma kill_waits_run held s t th code :
  sync_inv held [] s -> threads s !! t = Some th ->
  exists s', match wait th with [] => Some s | _ :: _ => s ← end_waits (length (wait th)) s t; Some (send_thread_wakeup s t 0 code) end = Some s' /\
    sync_inv held [] s' /\ settles s s' /\ waits_of s' t = [] /\ (forall o t', owner_of s' o = Some t' -> owner_of s o = Some t') /\
    forall t', t' <> t -> waits_of s' t' = waits_of s t'.
Proof.
  intros I Ht. assert (Hws : waits_of s t = wait th) by (unfold waits_of; by rewrite Ht).
  destruct (wait th) as [|w rest] eqn:Hw; [by exists s|].
  destruct (end_waits_run held t (length (w :: rest)) s I) as (s2 & -> & I2 & S2 & Hn & Ho & Hr); [by rewrite Hws|]. cbn.
  destruct (send_wakeup_ok _ [] s2 t 0 code I2) as [I3 S3]. eexists. split; [done|]. split; [done|]. split; [by transitivity s2|].
  split; [rewrite (core_waits s2); [done|apply send_wakeup_core]|]. split.
  - intros o t'. destruct (send_wakeup_rest s2 t 0 code) as (_ & E & _). unfold owner_of at 1. rewrite E. apply Ho.
  - intros t' Hne. rewrite (core_waits s2); [by apply Hr|apply send_wakeup_core].
Qed.

(** Once a thread is marked as terminated, those that can go on wait for it. *)
Lemma terminated_joining held s s2 t th :
  sync_inv held [] s -> threads s !! t = Some th -> sync_inv held [] (set_thread s t (set_terminated th)) ->
  settles (set_thread s t (set_terminated th)) s2 -> waits_of s2 t = [] ->
  (forall t', t' <> t -> waits_of s2 t' = waits_of (set_thread s t (set_terminated th)) t') -> quiet s -> joining t s2.
Proof.
  intros I Ht I1 S Hn Hr Q t'. set (s1 := set_thread s t (set_terminated th)) in *. destruct (decide (t' = t)) as [->|Hne].
  { left. intros th' w rest Ht' Hw. unfold waits_of in Hn. rewrite Ht', Hw in Hn. done. }
  assert (E1 : threads s1 !! t' = threads s !! t') by (unfold s1; by rewrite set_thread_lookup, decide_False).
  destruct (idle_or_blocked held s s1 t t' I) as [Hi|Hb]; try done.
  - intros o Ho. rewrite (signaled_ext s s1); [done..|]. unfold s1. by rewrite set_thread_lookup, decide_False.
  - intros th' H. rewrite E1 in H. by exists th'.
  - unfold waits_of. by rewrite E1.
  - left. eapply idle_settles; [exact I1|done|by apply Hr|done].
  - right. apply (blocked_same s1); [by apply Hr|done].
Qed.

(** ** The last steps of a thread *)

(** What they do to the rest: [t] has no waits any more. *)
Record fades (t : Z) (s s' : sync) : Prop := {
  fa_typed : typed s -> typed s';
  fa_waits : waits_of s' t = [];
  fa_owner : forall o x, owner_of s' o = Some x -> owner_of s o = Some x;
  fa_suspend : suspend_ok s -> suspend_ok s';
  fa_quiet : quiet s -> quiet s'
}.

Lemma fades_trans t s1 s2 s3 : fades t s1 s2 -> fades t s2 s3 -> fades t s1 s3.
Proof.
  intros F G. split; [intros T; by apply G, F|apply G|intros o x H; by apply F, G|intros K; by apply G, F|intros Q; by apply G, F].
Qed.

Lemma settles_fades held t s s' :
  sync_inv held [] s -> settles s s' -> waits_of s t = [] -> (forall t', waits_of s' t' = waits_of s t') ->
  (forall o x, owner_of s' o = Some x -> owner_of s o = Some x) -> fades t s s'.
Proof.
  intros I S Hn Hw Ho. split; [..|done| |].
  - by apply evolves_typed, settles_evolves.
  - by rewrite Hw.
  - by apply suspend_ok_same, evolves_threads, settles_evolves.
  - intros Q t'. apply (idle_settles held s); [done..|apply Hw|apply Q].
Qed.

Lemma release_fades held s t :
  sync_inv (t :: held) [] s -> waits_of s t = [] -> exists s', release s t = Some s' /\ sync_inv held [] s' /\ fades t s s'.
Proof.
  intros I Hn. destruct (release_ok held [] s t I) as (s' & E & I' & D). exists s'. split; [done|]. split; [done|].
  apply (settles_fades (t :: held)); [done|apply drops_settles; [apply I|done]|done|intros t'; apply core_waits, D|].
  intros o x. unfold owner_of. by destruct (dr_objects _ _ D o) as [[_ ->]|[_ ->]].
Qed.

Lemma cleanup_fades held s t :
  sync_inv held [] s -> waits_of s t = [] -> sync_inv held [] (cleanup_thread s t) /\ fades t s (cleanup_thread s t).
Proof.
  intros I Hn. unfold cleanup_thread. destruct (threads s !! t) as [th|] eqn:Ht; [|split; [done|by apply (settles_fades held)]].
  set (th' := mk_thread _ _ _ _ _ _ _ _ _). fold (set_thread s t th'). split; [by apply (set_thread_inv held [] s t th)|].
  assert (Hn' : waits_of (set_thread s t th') t = []).
  { unfold waits_of in *. rewrite set_thread_lookup, decide_True by done. by rewrite Ht in Hn. }
  split; [done|done|done| |].
  - intros [K1 K2]. split; [|done]. intros x thx. rewrite set_thread_lookup. case_decide; [intros [= <-]; exact (K1 t th Ht)|apply K1].
  - intros Q t'. destruct (decide (t' = t)) as [->|Hne].
    + intros thx w rest Hx Hw. unfold waits_of in Hn'. rewrite Hx, Hw in Hn'. done.
    + apply (idle_ext s); try done; [intros o; by eapply set_thread_signaled|].
      by rewrite set_thread_lookup, decide_False.
Qed.

(** Taking a thread off the list of its process. *)
Lemma unlist_quiet s p x l : processes s !! p = Some x -> quiet s -> quiet (set_process s p (mk_process (p_suspend x) l (init_done x))).
Proof.
  intros Hp Q t. apply (idle_ext s); try done. intros th Ht. unfold suspended. rewrite set_process_suspend. unfold process_suspend.
  case_decide as E; [|done]. by rewrite E, Hp.
Qed.

Lemma remove_process_thread_fades held s p t :
  sync_inv (t :: held) [] s -> waits_of s t = [] ->
  exists s', remove_process_thread s p t = Some s' /\ sync_inv held [] s' /\ fades t s s'.
Proof.
  intros I Hn. unfold remove_process_thread. destruct (processes s !! p) as [x|] eqn:Hp; [|by apply release_fades].
  set (s1 := set_process s p _). destruct (release_fades held s1 t) as (s' & E & I' & F); [by apply set_process_inv|done|].
  exists s'. split; [done|]. split; [done|]. eapply fades_trans; [|exact F]. split; try done.
  - intros K. apply suspend_ok_process; [exact (proj2 K _ _ Hp)|done].
  - by apply unlist_quiet.
Qed.

Lemma last_steps_fade held s p t :
  sync_inv (t :: t :: held) [] s -> waits_of s t = [] ->
  exists s', (s ← remove_process_thread (cleanup_thread s t) p t; release s t) = Some s' /\ sync_inv held [] s' /\ fades t s s'.
Proof.
  intros I Hn. destruct (cleanup_fades _ s t I Hn) as [I1 F1].
  destruct (remove_process_thread_fades (t :: held) (cleanup_thread s t) p t I1 (fa_waits _ _ _ F1)) as (s2 & -> & I2 & F2). cbn [mbind option_bind].
  destruct (release_fades held s2 t I2 (fa_waits _ _ _ F2)) as (s' & -> & I' & F3). exists s'. split; [done|]. split; [done|].
  by eapply fades_trans; [eapply fades_trans|].
Qed.

(** The end of a thread: its waits end, its mutexes are abandoned and its own
    object is signaled and released. *)
Lemma kill_thread_run held s t th code :
  sync_inv (t :: t :: held) [] s -> typed s -> threads s !! t = Some th -> terminated th = false ->
  (forall o, o ∈ mutex_list th -> anchored (t :: t :: held) s o) ->
  exists s', kill_thread s t code = Some s' /\ sync_inv held [] s' /\ typed s' /\ waits_of s' t = [] /\ mutexes_of s' t = [] /\
    (suspend_ok s -> suspend_ok s') /\ (quiet s -> quiet s').
Proof.
  intros I T Ht Hterm A. unfold kill_thread. rewrite Ht, Hterm. fold (set_thread s t (set_terminated th)). set (h := t :: t :: held) in *.
  set (s1 := set_thread s t (set_terminated th)). assert (I1 : sync_inv h [] s1) by (by apply (set_thread_inv _ _ s t th)).
  assert (Ht1 : threads s1 !! t = Some (set_terminated th)) by (unfold s1; by rewrite set_thread_lookup, decide_True).
  destruct (kill_waits_run h s1 t _ code I1 Ht1) as (s2 & E2 & I2 & S2 & Hn2 & Ho2 & Hr2). cbn [wait set_terminated] in E2. rewrite E2.
  cbn [mbind option_bind]. destruct (proj2 (settles_thread s1 s2 t S2) ltac:(by eexists)) as [th2 Ht2].
  assert (A2 : mutexes_anchored h s2 t).
  { intros o Ho. apply (anchored_settles _ s1 s2 o S2). apply A. apply (dt_owned _ (iv_data _ _ _ I2)), Ho2, (dt_owned _ (iv_data _ _ _ I1)) in Ho.
    unfold mutexes_of in Ho. by rewrite Ht1 in Ho. }
  unfold abandon_mutexes. rewrite Ht2.
  destruct (abandon_mutexes_loop_run h t (length (mutex_list th2)) s2 I2) as (s3 & -> & I3 & V3 & Hm3 & Hst3 & Hj3); try done; [unfold mutexes_of; by rewrite Ht2|].
  cbn [mbind option_bind]. destruct (wake_up_run h s3 t 0 I3 ltac:(left; by left)) as (s4 & E4 & I4 & R4 & S4). rewrite E4. cbn [mbind option_bind].
  assert (Hw3 : waits_of s3 t = []) by (specialize (Hst3 t); rewrite Hn2 in Hst3; by apply suffix_nil_inv in Hst3).
  assert (Hw4 : waits_of s4 t = []) by (pose proof (se_stack _ _ S4 t) as H; rewrite Hw3 in H; by apply suffix_nil_inv in H).
  destruct (last_steps_fade held s4 (t_process th) t I4 Hw4) as (s' & -> & I' & F). exists s'. split; [done|]. split; [done|].
  assert (V14 : evolves s1 s4) by (transitivity s2; [by apply settles_evolves|]; transitivity s3; [done|by apply settles_evolves]).
  split; [|split; [apply F|split; [|split]]].
  - apply (fa_typed _ _ _ F), (evolves_typed _ _ _ s1); [done|exact T].
  - apply elem_of_nil_inv. intros o Ho. apply (dt_owned _ (iv_data _ _ _ I')), (fa_owner _ _ _ F) in Ho.
    apply (wakes_owner _ _ _ t o R4 Hw3), (dt_owned _ (iv_data _ _ _ I3)) in Ho. rewrite Hm3 in Ho. by apply not_elem_of_nil in Ho.
  - intros K. apply (fa_suspend _ _ _ F), (suspend_ok_same s1); [by apply evolves_threads|]. split; [|apply K].
    intros t' th'. unfold s1. rewrite set_thread_lookup. case_decide; [intros [= <-]; exact (proj1 K t th Ht)|apply (proj1 K)].
  - intros Q. apply (fa_quiet _ _ _ F). pose proof (terminated_joining _ s s2 t th I Ht I1 S2 Hn2 Hr2 Q) as J2.
    destruct (wake_up_all _ t s3 s4 I3 E4) as (_ & S & W). by apply (joining_woken t s3 s4 h); auto.
Qed.
End exit.
