(* ===== verification/SyncSpec.v ===== *)
(** * Sequences of operations, and an abstract machine for waits

    Commands on waits and synchronisation objects, the states they reach, and a machine
    without queues that they refine. *)

From Stdlib Require Import ZArith Lia.
From stdpp Require Import base list numbers option gmap.
From S2P Require Import Prelude Handles HandleTheorems HandleCounts HandleSteps Sync SyncRequests SyncInvariant SyncWaits SyncWakeup SyncOps SyncSelect SyncSignal SyncHandlers SyncThreads SyncExit.

#[local] Open Scope Z_scope.
#[local] Open Scope server_scope.

(** * Sequences of operations on waits and synchronisation objects

    The operations that a server performs on behalf of its clients, as commands;
    [exec] runs one of them. *)

(** One operation; [c] is the thread that makes the request. *)
Inductive sync_op :=
  | OpSelect (c : current_t) (addr : Z) (sop : select_op_t) (op_size cookie flags when : Z)
  | OpEvent (c : current_t) (handle : Z) (opcode : event_op)
  | OpQueryEvent (c : current_t) (handle : Z)
  | OpReleaseSemaphore (c : current_t) (handle count : Z)
  | OpQuerySemaphore (c : current_t) (handle : Z)
  | OpReleaseMutex (c : current_t) (handle : Z)
  | OpQueryMutex (c : current_t) (handle : Z)
  | OpCreateEvent (c : current_t) (addr acc attr : Z) (manual initial : bool)
  | OpCreateSemaphore (c : current_t) (addr acc attr initial max : Z)
  | OpCreateMutex (c : current_t) (addr acc attr : Z) (owned : bool)
  | OpClose (c : current_t) (handle : Z)
  | OpSuspend (c : current_t) (t : Z)
  | OpResume (t : Z)
  | OpSuspendProcess (p : Z)
  | OpResumeProcess (p : Z)
  | OpTimeout (t addr : Z).

(** The time of day and the time since start. *)
Definition tick (s : sync) (now mono : Z) : sync :=
  mk_sync (objs s) (sync_objects s) (wait_queue s) (threads s) (processes s) now mono (sent s).

(** A new process: its object, its handle table and its list of threads. *)
Definition new_process (s : sync) (p ty : Z) : sync :=
  let w := set_table (set_objects (objs s) (<[p := mk_obj ty 1 0]> (objects (objs s)))) (Some p)
             (mk_ht (Some p) MIN_HANDLE_ENTRIES 0 []) in
  set_process (set_data (set_objs s w) p (Other false)) p (mk_process 0 [] true).

(** A new thread of a process. *)
Definition new_thread (s : sync) (t ty p : Z) : sync :=
  let w := set_objects (objs s) (<[t := mk_obj ty 1 0]> (objects (objs s))) in
  let s := set_data (set_objs s w) t ThreadObject in
  let s := set_threads s (<[t := mk_thread p [] [] [] 0 [] None 0 false]> (threads s)) in
  add_process_thread s p t.

Section steps.
Context (event_ops semaphore_ops mutex_ops : Z) (ops_table : Z -> object_ops).

(** The state after a request, whatever it replies. *)
Definition drop_reply {A} (m : M (option (sync * A))) : M (option sync) :=
  let* r := m in ret (fst <$> r).

Definition exec (s : sync) (o : sync_op) : M (option sync) :=
  match o with
  | OpSelect c addr sop op_size cookie flags when => drop_reply (select_on c s addr sop op_size cookie flags when)
  | OpEvent c h opcode => drop_reply (req_event_op event_ops c s h opcode)
  | OpQueryEvent c h => drop_reply (req_query_event event_ops c s h)
  | OpReleaseSemaphore c h n => drop_reply (req_release_semaphore semaphore_ops c s h n)
  | OpQuerySemaphore c h => drop_reply (req_query_semaphore semaphore_ops c s h)
  | OpReleaseMutex c h => drop_reply (req_release_mutex mutex_ops c s h)
  | OpQueryMutex c h => drop_reply (req_query_mutex mutex_ops c s h)
  | OpCreateEvent c addr acc attr manual initial => drop_reply (req_create_event event_ops ops_table c s addr acc attr manual initial)
  | OpCreateSemaphore c addr acc attr initial max => drop_reply (req_create_semaphore semaphore_ops ops_table c s addr acc attr initial max)
  | OpCreateMutex c addr acc attr owned => drop_reply (req_create_mutex mutex_ops ops_table c s addr acc attr owned)
  | OpClose c h => req_close_handle ops_table c s h
  | OpSuspend c t => let* (s, _) := suspend_thread c s t in ret (Some s)
  | OpResume t => ret (fst <$> resume_thread s t)
  | OpSuspendProcess p => let* s := suspend_process s p in ret (Some s)
  | OpResumeProcess p => ret (resume_process s p)
  | OpTimeout t addr => ret (thread_timeout s t addr)
  end.

(** What an operation relies on.  A wait for all must not name an object twice,
    and malloc returns fresh addresses. *)
Definition admissible (held : list Z) (s : sync) (o : sync_op) : Prop :=
  match o with
  | OpSelect c addr sop op_size cookie flags when =>
      magic_held c held /\ is_Some (threads s !! cur_thread c) /\ fresh_wait c s addr /\
      room_for s MAXIMUM_WAIT_OBJECTS /\ distinct_objects c s sop op_size
  | OpEvent c _ _ | OpQueryEvent c _ | OpQuerySemaphore c _ | OpReleaseMutex c _ | OpQueryMutex c _ => magic_held c held
  | OpReleaseSemaphore c _ n => magic_held c held /\ 0 <= n < 2 ^ 32
  | OpCreateEvent _ addr _ _ _ _ => objects (objs s) !! addr = None
  | OpCreateSemaphore _ addr _ _ initial max =>
      objects (objs s) !! addr = None /\ 0 <= initial < 2 ^ 32 /\ 0 <= max < 2 ^ 32
  | OpCreateMutex c addr _ _ _ => objects (objs s) !! addr = None /\ is_Some (threads s !! cur_thread c)
  | OpClose _ _ | OpSuspend _ _ | OpSuspendProcess _ => True
  | OpResume t => is_Some (threads s !! t)
  | OpResumeProcess p => members_ok s /\ exists x, processes s !! p = Some x /\ 0 < p_suspend x
  | OpTimeout t addr => exists th w, threads s !! t = Some th /\ w ∈ wait th /\ w_addr w = addr /\ w_cookie w <> 0
  end.

(** Signaling an object and waiting happens outside of any other wait and on
    another object. *)
Definition calm (s : sync) (o : sync_op) : Prop :=
  match o with OpSelect c _ sop _ _ _ _ => not_nested c s sop | _ => True end.

Definition sync_ok (held : list Z) (s : sync) : Prop :=
  sync_inv held [] s /\ typed event_ops semaphore_ops mutex_ops s /\ suspend_ok s.

(** What every operation does. *)
Definition completes (held : list Z) (s : sync) (o : sync_op) (m : M (option sync)) : Prop :=
  forall e, exists s' e', m e = (Some s', e') /\ sync_ok held s' /\ (calm s o -> quiet s -> quiet s').

Lemma handled_completes {A} held s o (m : M (option (sync * A))) :
  suspend_ok s -> handled event_ops semaphore_ops mutex_ops held (calm s o) s m -> completes held s o (drop_reply m).
Proof.
  intros K H e. destruct (H e) as (s' & a & e' & E & I & T & V & Q). exists s', e'. unfold drop_reply. rewrite (bind_run _ _ _ _ _ E).
  split; [done|]. split; [|done]. split; [done|]. split; [done|]. by eapply suspend_ok_same.
Qed.

Context (Hdistinct : NoDup [event_ops; semaphore_ops; mutex_ops]).

Lemma exec_run held s o : sync_ok held s -> admissible held s o -> completes held s o (exec s o).
Proof using Hdistinct.
  intros (I & T & K) A. destruct o as [c addr sop size cookie flags when|c h opcode|c h|c h n|c h|c h|c h|c addr acc attr manual initial
    |c addr acc attr initial max|c addr acc attr owned|c h|c t|t|p|p|t addr]; cbn [exec admissible] in *.
  1-7: apply handled_completes; [done|]; apply request_handled; [done|].
  8-10: apply handled_completes; [done|].
  - destruct A as (A1 & A2 & A3 & A4 & A5). by apply select_on_run.
  - by eapply req_event_op_run.
  - by eapply req_query_event_run.
  - destruct A as [A1 A2]. by eapply req_release_semaphore_run.
  - by eapply req_query_semaphore_run.
  - by eapply req_release_mutex_run.
  - by eapply req_query_mutex_run.
  - by apply req_create_event_run.
  - destruct A as (A1 & A2 & A3). by apply req_create_semaphore_run.
  - destruct A as [A1 A2]. by apply req_create_mutex_run.
  - intros e. destruct (req_close_handle_run event_ops semaphore_ops mutex_ops ops_table c held s h e I T) as (s' & e' & E & I' & T' & V & Q).
    exists s', e'. split; [done|]. split; [|auto]. split; [done|]. split; [done|]. by eapply suspend_ok_same.
  - intros e. destruct (suspend_thread_run event_ops semaphore_ops mutex_ops c held s t e I T K) as (s' & n & e' & E & I' & T' & K' & Q).
    exists s', e'. rewrite (bind_run _ _ _ _ _ E). split; [done|]. split; [done|auto].
  - intros e. destruct (resume_thread_run event_ops semaphore_ops mutex_ops held s t I T K A) as (s' & n & -> & I' & T' & K' & Q).
    exists s', e. split; [done|]. split; [done|auto].
  - intros e. destruct (suspend_process_run event_ops semaphore_ops mutex_ops held s p e I T K) as (s' & e' & E & I' & T' & K' & Q).
    exists s', e'. rewrite (bind_run _ _ _ _ _ E). split; [done|]. split; [done|auto].
  - intros e. destruct A as (Am & x & Hx & Hs). destruct (resume_process_run event_ops semaphore_ops mutex_ops held s p x I T K Am Hx Hs) as (s' & -> & I' & T' & K' & Q).
    exists s', e. split; [done|]. split; [done|auto].
  - intros e. destruct A as (th & w & Ht & Hw & Ha & Hc).
    destruct (thread_timeout_run event_ops semaphore_ops mutex_ops held s t th addr w I T Ht Hw Ha Hc) as (s' & -> & I' & T' & V & Q).
    exists s', e. split; [done|]. split; [|auto]. split; [done|]. split; [done|]. by eapply suspend_ok_same.
Qed.

(** ** Processes and threads come and go *)

(** Objects of other types. *)
Definition plain_type (ty : Z) : Prop := ~ ty ∈ [event_ops; semaphore_ops; mutex_ops].

Lemma plain_has_type ty k : plain_type ty -> has_type event_ops semaphore_ops mutex_ops ty k.
Proof.
  unfold plain_type. rewrite !not_elem_of_cons. intros (H1 & H2 & H3 & _). split; [|split]; intros E; done.
Qed.

(** A fresh object with data of its own. *)
Lemma fresh_object held s addr ty x :
  sync_ok held s -> objects (objs s) !! addr = None -> plain_type ty -> self_ok x -> owner_in x = None ->
  sync_ok (addr :: held) (set_data (alloc s addr ty) addr x).
Proof.
  intros (I & T & K) Ha Hty Hs Ho. pose proof (iv_refs _ _ _ I addr) as Hr. unfold refs_at in Hr. rewrite Ha in Hr. destruct Hr as (Hq & _ & Hno).
  pose proof (alloc_inv held s addr ty I Ha) as I1. split; [|split; [|exact K]].
  - apply init_inv; try done. eapply held_alive; [exact I1|by left].
  - intros o ob. cbn [objs sync_objects set_data set_sync_objects alloc set_objs objects set_objects]. destruct (decide (addr = o)) as [<-|Hne].
    + rewrite lookup_insert_eq. intros [= <-]. by apply plain_has_type.
    + rewrite !lookup_insert_ne by done. apply T.
Qed.

Lemma new_process_ok held s p ty :
  sync_ok held s -> objects (objs s) !! p = None -> handles (objs s) !! p = None -> plain_type ty -> sync_ok (p :: held) (new_process s p ty).
Proof.
  intros H Ho Hh Hty. pose proof (fresh_object held s p ty (Other false) H Ho Hty I eq_refl) as (I1 & T1 & K1).
  set (s1 := set_data (alloc s p ty) p (Other false)) in *. set (w := set_table (objs s1) (Some p) (mk_ht (Some p) MIN_HANDLE_ENTRIES 0 [])).
  change (new_process s p ty) with (set_process (set_objs s1 w) p (mk_process 0 [] true)). split; [|split].
  - apply set_process_inv, set_objs_inv; [done| |done|].
    + apply (fork_wf (objs s1)); [apply I1|done|apply (new_table_wf (Some p) 0); unfold MAX_HANDLE_ENTRIES; lia|done|].
      eapply counts_ok_ext; [|apply (ww_counts _ (iv_world _ _ _ I1))]. intros x. cbn. lia.
    + intros o ob' Hob. exists ob'. done.
  - exact T1.
  - by apply suspend_ok_process.
Qed.

Lemma add_thread_inv held extra s t p :
  sync_inv held extra s -> threads s !! t = None ->
  sync_inv held extra (set_thread s t (mk_thread p [] [] [] 0 [] None 0 false)).
Proof.
  intros I Ht. split; try apply I.
  - intros o. change (queue (set_thread s t _) o) with (queue s o). destruct (iv_queues _ _ _ I o) as [Hn He]. split; [done|].
    intros e. rewrite He. enough (waiting s o e <-> waiting (set_thread s t (mk_thread p [] [] [] 0 [] None 0 false)) o e) by tauto.
    unfold waiting. rewrite set_thread_lookup. destruct (decide (e_thread e = t)) as [->|]; [|done]. rewrite Ht.
    split; intros (th & w & H1 & H2 & _); [done|]. injection H1 as <-. by apply not_elem_of_nil in H2.
  - intros t' th. rewrite set_thread_lookup. case_decide; [intros [= <-]; cbn|by apply (iv_stacks _ _ _ I)].
    split; [constructor|]. by intros w ?%not_elem_of_nil.
  - apply (data_ok_same s); [apply I|done| |apply (dt_self _ (iv_data _ _ _ I))]. intros t'. unfold mutexes_of. rewrite set_thread_lookup.
    case_decide; [subst; by rewrite Ht|done].
Qed.

Lemma new_thread_ok held s t ty p :
  sync_ok held s -> objects (objs s) !! t = None -> threads s !! t = None -> plain_type ty ->
  sync_ok (t :: t :: held) (new_thread s t ty p).
Proof.
  intros H Ho Ht Hty. pose proof (fresh_object held s t ty ThreadObject H Ho Hty I eq_refl) as (I1 & T1 & K1).
  pose proof (add_thread_inv _ _ _ t p I1 Ht) as I2. set (s2 := set_thread _ t _) in *.
  assert (K2 : suspend_ok s2).
  { split; [|apply K1]. intros t' th. unfold s2. rewrite set_thread_lookup. case_decide; [by intros [= <-]|apply K1]. }
  unfold new_thread. fold (alloc s t ty). fold (set_thread (set_data (alloc s t ty) t ThreadObject) t (mk_thread p [] [] [] 0 [] None 0 false)). fold s2.
  unfold add_process_thread. set (s3 := match processes s2 !! p with Some x => _ | None => s2 end). fold (grab s3 t).
  assert (H3 : sync_ok (t :: held) s3).
  { unfold s3. destruct (processes s2 !! p) as [x|] eqn:Ep; [|by split]. split; [by apply set_process_inv|]. split; [exact T1|].
    apply suspend_ok_process; [exact (proj2 K2 _ _ Ep)|done]. }
  destruct H3 as (I3 & T3 & K3). split; [|split; [|done]].
  - apply grab_inv; [done|]. eapply held_alive; [exact I3|by left].
  - eapply evolves_typed; [apply grab_evolves|done].
Qed.

(** ** Reachable states *)

(** [held] lists the references that the server keeps for itself: one for every
    process, and two for every thread that has not ended, its own and that of the
    list of its process. *)
Inductive sync_step : list Z * sync -> list Z * sync -> Prop :=
  | step_exec held s o e s' e' :
      admissible held s o -> exec s o e = (Some s', e') -> sync_step (held, s) (held, s')
  | step_tick held s now mono : sync_step (held, s) (held, tick s now mono)
  | step_new_process held s p ty :
      objects (objs s) !! p = None -> handles (objs s) !! p = None -> plain_type ty ->
      sync_step (held, s) (p :: held, new_process s p ty)
  | step_new_thread held s t ty p :
      objects (objs s) !! t = None -> threads s !! t = None -> plain_type ty ->
      sync_step (held, s) (t :: t :: held, new_thread s t ty p)
  | step_kill held held' s t th code s' :
      held ≡ₚ t :: t :: held' -> threads s !! t = Some th -> terminated th = false ->
      (forall o, o ∈ mutex_list th -> anchored held s o) ->
      kill_thread s t code = Some s' -> sync_step (held, s) (held', s').

Definition initial_sync : sync := mk_sync initial_world ∅ ∅ ∅ ∅ 0 0 [].

Lemma initial_sync_ok : sync_ok [] initial_sync.
Proof.
  split; [split|split].
  - apply initial_world_wf.
  - intros o. unfold refs_at, queue. cbn. by rewrite !lookup_empty.
  - intros o. unfold queue. cbn. rewrite lookup_empty. split; [constructor|]. intros e. rewrite elem_of_nil. split; [done|].
    intros [(th & w & H & _)|H%not_elem_of_nil]; [|done]. cbn in H. by rewrite lookup_empty in H.
  - intros t th. cbn. by rewrite lookup_empty.
  - split; cbn.
    + intros o x. by rewrite lookup_empty.
    + intros t o. unfold mutexes_of, owner_of. cbn. rewrite !lookup_empty. split; [by intros ?%not_elem_of_nil|done].
    + intros t. unfold mutexes_of. cbn. rewrite lookup_empty. constructor.
  - intros o m. cbn. by rewrite lookup_empty.
  - intros o ob. cbn. by rewrite lookup_empty.
  - split; intros x y; cbn; by rewrite lookup_empty.
Qed.

Lemma sync_step_ok c c' : sync_ok c.1 c.2 -> sync_step c c' -> sync_ok c'.1 c'.2.
Proof using Hdistinct.
  intros H S. destruct S as [held s o e s' e' A E|held s now mono|held s p ty H1 H2 H3|held s t ty p H1 H2 H3|held held' s t th code s' P Ht Hn A E]; cbn in *.
  - destruct (exec_run held s o H A e) as (s2 & e2 & E2 & H2 & _). rewrite E in E2. by injection E2 as -> _.
  - destruct H as (I & T & K). split; [|done]. by apply (same_inv held [] s).
  - by apply new_process_ok.
  - by apply new_thread_ok.
  - destruct H as (I & T & K). destruct (kill_thread_run event_ops semaphore_ops mutex_ops held' s t th code) as (s2 & E2 & I2 & T2 & _ & _ & K2 & _);
      [by eapply inv_perm|done..|intros o Ho; destruct (A o Ho); [left; by rewrite <-P|by right]|]. rewrite E in E2. injection E2 as <-. split; [done|]. split; [done|auto].
Qed.

Lemma reachable_sync_ok held s : rtc sync_step ([], initial_sync) (held, s) -> sync_ok held s.
Proof using Hdistinct.
  enough (forall c, rtc sync_step ([], initial_sync) c -> sync_ok c.1 c.2) as H by (intros R; apply (H _ R)).
  apply rtc_ind_r; [apply initial_sync_ok|]. intros c c' _ S H. by apply (sync_step_ok c).
Qed.
End steps.

(** * An abstract machine for waits

    The specification knows no queues, references or lists of mutexes: a state is
    the objects and the stacks of waits.  Any thread whose topmost wait may end
    can end it at any time, acquiring its objects in the same step.  Signaling an
    object refines a change of that object followed by such steps until none is
    possible any more. *)

(** ** The machine *)

Record spec := mk_spec {
  sp_objects : gmap Z sync_object;
  sp_threads : gmap Z thread;
  sp_processes : gmap Z process_t;
  sp_time : Z;
  sp_monotonic : Z;
  sp_sent : list message
}.

(** Can the object satisfy a wait of [t]? *)
Definition available (a : spec) (o t : Z) : Prop :=
  match sp_objects a !! o with
  | Some (Event e) => event_signaled e = true
  | Some (Semaphore m) => 0 < sem_count m
  | Some (Mutex m) => owner m = None \/ owner m = Some t
  | Some ThreadObject => exists th, sp_threads a !! o = Some th /\ terminated th = true
  | Some (Other b) => b = true
  | None => False
  end.

Definition running (a : spec) (th : thread) : Prop :=
  match sp_processes a !! t_process th with Some p => p_suspend p | None => 0 end + suspend th <= 0.

Definition expired (a : spec) (w : thread_wait) : Prop :=
  if decide (0 <= w_when w) then w_when w <= sp_time a else - w_when w <= sp_monotonic a.

(** The ways in which a wait may end: the status and the objects acquired. *)
Inductive may_end (a : spec) (t : Z) (th : thread) (w : thread_wait) : Z -> list Z -> Prop :=
  | end_all :
      running a th -> w_select w = SELECT_WAIT_ALL -> (forall o, o ∈ w_objs w -> available a o t) -> may_end a t th w 0 (w_objs w)
  | end_any i o :
      running a th -> w_select w <> SELECT_WAIT_ALL -> w_objs w !! i = Some o -> available a o t ->
      may_end a t th w (Z.of_nat i) [o]
  | end_system_apc :
      has_bits (w_flags w) SELECT_INTERRUPTIBLE = true -> system_apc th <> [] -> may_end a t th w STATUS_KERNEL_APC []
  | end_user_apc :
      running a th -> has_bits (w_flags w) SELECT_ALERTABLE = true -> user_apc th <> [] -> may_end a t th w STATUS_USER_APC []
  | end_timeout : running a th -> expired a w -> may_end a t th w STATUS_TIMEOUT [].

(** An object that no wait names. *)
Definition unused (a : spec) (o : Z) : Prop :=
  forall t th w, sp_threads a !! t = Some th -> w ∈ wait th -> ~ o ∈ w_objs w.

(** The reply to the thread; a changed context makes it a fake APC. *)
Definition replied (t : Z) (w : thread_wait) (status : Z) (l : list message) : Prop :=
  if decide (w_cookie w = 0) then l = [] else l = [Wakeup t (w_cookie w) status] \/ l = [Wakeup t (w_cookie w) STATUS_KERNEL_APC].

(** One wait ends: its objects are acquired all at once, and unused objects may
    go away. *)
Record spec_wake (a a' : spec) : Prop := {
  sw_end : exists t th w rest status os l,
    sp_threads a !! t = Some th /\ wait th = w :: rest /\ may_end a t th w status os /\
    sp_threads a' = <[t := set_wait th rest]> (sp_threads a) /\
    (forall o, sp_objects a' !! o = (if decide (o ∈ os) then take t <$> sp_objects a !! o else sp_objects a !! o) \/
               (sp_objects a' !! o = None /\ unused a' o)) /\
    replied t w (if existsb (fun o => match sp_objects a !! o with Some x => was_abandoned x | None => false end) os
                 then status + STATUS_ABANDONED_WAIT_0 else status) l /\
    sp_sent a' = sp_sent a ++ l;
  sw_env : sp_processes a' = sp_processes a /\ sp_time a' = sp_time a /\ sp_monotonic a' = sp_monotonic a
}.

(** No wait can end. *)
Definition stuck (a : spec) : Prop := forall a', ~ spec_wake a a'.

(** ** The abstraction *)

Definition abs (s : sync) : spec :=
  mk_spec (sync_objects s) (core <$> threads s) (processes s) (current_time s) (monotonic_time s) (sent s).

Lemma available_iff s o t : data_ok s -> available (abs s) o t <-> signaled s o t = true.
Proof.
  intros D. unfold available, signaled, semaphore_signaled, mutex_signaled, thread_signaled. cbn [sp_objects abs]. destruct (sync_objects s !! o) as [[e|m|m| |b]|] eqn:Hx; try done.
  - by rewrite Z.ltb_lt.
  - pose proof (dt_self _ D _ _ Hx) as H. cbn in H. rewrite orb_true_iff, Z.eqb_eq, bool_decide_eq_true.
    destruct (owner m); [|tauto]. split; [intros [?|?]; [done|by right]|]. intros [?|?]; [lia|by right].
  - cbn. rewrite lookup_fmap. destruct (threads s !! o) as [th|]; cbn; [|split; [by intros (? & ? & _)|done]].
    split; [by intros (? & [= <-] & ?)|]. intros H. by eexists.
Qed.

Lemma running_iff s th : running (abs s) (core th) <-> suspended s th = false.
Proof. unfold running, suspended, process_suspend. cbn. rewrite Z.ltb_ge. done. Qed.

Lemma expired_iff s w :
  expired (abs s) w <->
  ((0 <=? w_when w) && (w_when w <=? current_time s) || (w_when w <? 0) && (- w_when w <=? monotonic_time s) = true).
Proof.
  unfold expired. cbn. rewrite orb_true_iff, !andb_true_iff, !Z.leb_le, Z.ltb_lt. case_decide; lia.
Qed.

(** The code ends a wait only in a way the specification allows. *)
Lemma check_wait_may_end s t th w status :
  data_ok s -> wait_ok w -> check_wait s t th w = Some status -> may_end (abs s) t (core th) w status (granted w status).
Proof.
  intros D Hok H. destruct (check_wait_sound _ _ _ _ _ Hok H) as [_ Hg].
  assert (Hbig : forall st, 64 <= st -> granted w st = []) by (intros st Hst; by apply granted_error).
  revert H Hg. unfold check_wait.
  destruct (has_bits (w_flags w) SELECT_INTERRUPTIBLE && negb (bool_decide (system_apc th = []))) eqn:E1.
  { intros [= <-] _. rewrite Hbig by done. apply andb_true_iff in E1 as [? ?%negb_true_iff%bool_decide_eq_false]. by apply end_system_apc. }
  destruct (suspended s th) eqn:Es; [done|]. assert (Hr : running (abs s) (core th)) by (by apply running_iff).
  assert (Hrest : (if has_bits (w_flags w) SELECT_ALERTABLE && negb (bool_decide (user_apc th = [])) then Some STATUS_USER_APC
    else if (0 <=? w_when w) && (w_when w <=? current_time s) then Some STATUS_TIMEOUT
    else if (w_when w <? 0) && (- w_when w <=? monotonic_time s) then Some STATUS_TIMEOUT else None) = Some status ->
    may_end (abs s) t (core th) w status (granted w status)).
  { destruct (has_bits (w_flags w) SELECT_ALERTABLE && negb (bool_decide (user_apc th = []))) eqn:E2.
    - intros [= <-]. rewrite Hbig by done. apply andb_true_iff in E2 as [? ?%negb_true_iff%bool_decide_eq_false]. by apply end_user_apc.
    - intros H. assert (status = STATUS_TIMEOUT /\ expired (abs s) w) as [-> He]; [|rewrite Hbig by done; by apply end_timeout].
      rewrite expired_iff. revert H. destruct ((0 <=? w_when w) && (w_when w <=? current_time s)); [by intros [= <-]|].
      destruct ((w_when w <? 0) && (- w_when w <=? monotonic_time s)); [by intros [= <-]|done]. }
  unfold granted in *. destruct (bool_decide (w_select w = SELECT_WAIT_ALL)) eqn:Ea.
  - apply bool_decide_eq_true in Ea. destruct (forallb (fun o => signaled s o t) (w_objs w)) eqn:Ef; [|auto]. intros [= <-] _.
    assert (Hall : forall o, o ∈ w_objs w -> available (abs s) o t).
    { intros o Ho. apply available_iff; [done|]. rewrite forallb_forall in Ef. by apply Ef, list_elem_of_In. }
    destruct (Z.ltb_spec STATUS_WAIT_0 (Z.of_nat (length (w_objs w)))); [by apply end_all|].
    replace [] with (w_objs w) by (unfold STATUS_WAIT_0 in *; apply nil_length_inv; lia). by apply end_all.
  - apply bool_decide_eq_false in Ea. destruct (first_signaled s t 0 (w_objs w)) as [i|] eqn:Ei; [|auto]. intros [= ->] _.
    destruct (first_signaled_spec _ _ _ _ _ Ei) as (k & o & -> & H1 & H2). rewrite Z.add_0_l, Nat2Z.id, H1. apply lookup_lt_Some in H1 as Hl.
    rewrite (proj2 (Z.ltb_lt _ _)) by lia. cbn. apply end_any; try done. by apply available_iff.
Qed.

(** Conversely, a wait that the specification may end is not left alone. *)
Lemma may_end_check_wait s t th w status os :
  data_ok s -> may_end (abs s) t (core th) w status os -> check_wait s t th w <> None.
Proof.
  intros D M. unfold check_wait. destruct (has_bits (w_flags w) SELECT_INTERRUPTIBLE && negb (bool_decide (system_apc th = []))) eqn:E1; [done|].
  assert (Hr : running (abs s) (core th) -> suspended s th = false) by (apply running_iff).
  destruct M as [R Es Ha|i o R Es Hi Ha|Hf Hs|R Hf Hu|R He].
  - rewrite (Hr R), bool_decide_eq_true_2 by done. assert (forallb (fun o => signaled s o t) (w_objs w) = true) as ->; [|done].
    apply forallb_forall. intros o Ho%list_elem_of_In. apply available_iff; auto.
  - rewrite (Hr R), bool_decide_eq_false_2 by done. destruct (first_signaled s t 0 (w_objs w)) eqn:Ef; [done|].
    apply available_iff in Ha; [|done]. rewrite first_signaled_none in Ef. rewrite Ef in Ha; [done|]. by eapply list_elem_of_lookup_2.
  - rewrite Hf, bool_decide_eq_false_2 in E1 by done. done.
  - rewrite (Hr R), Hf, (bool_decide_eq_false_2 (user_apc th = [])) by done. cbn. by repeat case_match.
  - rewrite (Hr R). apply expired_iff in He. destruct (if bool_decide _ then _ else _); [done|]. case_match; [done|].
    destruct ((0 <=? w_when w) && (w_when w <=? current_time s)); [done|]. cbn in He. by rewrite He.
Qed.

(** ** Simulation *)

Lemma reply_sent s t w status :
  is_Some (threads s !! t) -> exists l, sent (reply s t w status) = sent s ++ l /\ replied t w status l.
Proof.
  intros [th Ht]. unfold reply, replied. destruct (Z.eqb_spec (w_cookie w) 0) as [Hz|Hz].
  - exists []. rewrite app_nil_r, decide_True by done. done.
  - destruct (decide (w_cookie w = 0)); [done|]. unfold send_thread_wakeup. rewrite Ht. repeat case_match; eexists; (split; [done|]); auto.
Qed.

Lemma reply_objects s t w status : sync_objects (reply s t w status) = sync_objects s.
Proof. unfold reply. case_match; [done|]. apply (send_wakeup_rest s t (w_cookie w) status). Qed.

Lemma reply_env s t w status :
  processes (reply s t w status) = processes s /\ current_time (reply s t w status) = current_time s /\
  monotonic_time (reply s t w status) = monotonic_time s.
Proof.
  unfold reply. case_match; [done|]. destruct (send_wakeup_rest s t (w_cookie w) status) as (_ & _ & _ & H1 & H2 & H3 & _). done.
Qed.

(** An object without data is not waited on. *)
Lemma abs_unused held s o : sync_inv held [] s -> sync_objects s !! o = None -> unused (abs s) o.
Proof.
  intros I Hn t th w Ht Hw Ho. cbn in Ht. rewrite lookup_fmap in Ht. destruct (threads s !! t) as [th0|] eqn:Ht0; [|done]. injection Ht as <-.
  pose proof (wait_object held [] s t th0 w o I Ht0 Hw Ho) as Hq. pose proof (iv_refs _ _ _ I o) as H. unfold refs_at in H.
  destruct (objects (objs s) !! o); [|destruct H as [H _]; rewrite H in Hq; cbn in Hq; lia]. rewrite Hn in H. destruct (proj2 H) as [? ?]; [|done].
  intros E. rewrite E in Hq. cbn in Hq. lia.
Qed.

(** The threads after a wait has ended. *)
Lemma wake_threads_abs s s1 s2 t th rest w status r :
  threads s !! t = Some th -> taken t (granted w status) (pop s t th rest) s1 -> drops s1 s2 ->
  core <$> threads (reply s2 t w r) = <[t := set_wait (core th) rest]> (core <$> threads s).
Proof.
  intros Ht T D. apply map_eq. intros t'. rewrite lookup_fmap, reply_core, (dr_threads _ _ D), (od_threads _ _ (tk_only _ _ _ _ T)), pop_lookup.
  destruct (decide (t' = t)) as [->|]; [by rewrite lookup_insert_eq|]. by rewrite lookup_insert_ne, lookup_fmap.
Qed.

Lemma wake_refines held s s' : wake held s s' -> spec_wake (abs s) (abs s').
Proof.
  intros (I & I' & t & w & status & th & rest & Ht & Hw & Hc & s1 & s2 & T & D & ->).
  assert (Hok : wait_ok w) by (apply (iv_stacks _ _ _ I t th Ht); rewrite Hw; by left).
  set (r := wait_status s w status) in *. destruct (reply_env s2 t w r) as (V1 & V2 & V3). pose proof (tk_only _ _ _ _ T) as O.
  assert (Ht2 : is_Some (threads s2 !! t)).
  { pose proof (dr_threads _ _ D t) as E. rewrite (od_threads _ _ O), pop_lookup, decide_True in E by done. by destruct (threads s2 !! t). }
  destruct (reply_sent s2 t w r Ht2) as (l & El & Rl).
  split.
  - exists t, (core th), w, rest, status, (granted w status), l. cbn [sp_threads sp_objects sp_sent abs]. rewrite lookup_fmap, Ht.
    split; [done|]. split; [done|]. split; [by apply check_wait_may_end; [apply I|..]|]. split; [by eapply wake_threads_abs|].
    split; [|split; [exact Rl|by rewrite El, (dr_sent _ _ D), (od_sent _ _ O)]].
    intros o. rewrite reply_objects. destruct (dr_objects _ _ D o) as [[_ E]|[_ E]].
    + right. rewrite E. split; [done|]. apply (abs_unused held); [done|]. by rewrite reply_objects.
    + left. by rewrite E, (tk_objects _ _ _ _ T).
  - cbn. rewrite V1, V2, V3, (dr_processes _ _ D), (dr_time _ _ D), (dr_monotonic _ _ D), (od_processes _ _ O), (od_time _ _ O), (od_monotonic _ _ O). done.
Qed.

Lemma wakes_refine held s s' : rtc (wake held) s s' -> rtc spec_wake (abs s) (abs s').
Proof. induction 1; [done|]. eapply rtc_l; [by eapply wake_refines|done]. Qed.

(** Nothing to do in the server and nothing to do in the specification are the
    same. *)
Lemma quiet_stuck held s : sync_inv held [] s -> quiet s <-> stuck (abs s).
Proof.
  intros I. split.
  - intros Q a' [(t & th & w & rest & status & os & l & Ht & Hw & M & _) _]. cbn in Ht. rewrite lookup_fmap in Ht.
    destruct (threads s !! t) as [th0|] eqn:Ht0; [|done]. injection Ht as <-. cbn in Hw.
    apply may_end_check_wait in M; [|apply I]. by rewrite (Q t th0 w rest Ht0 Hw) in M.
  - intros S t th w rest Ht Hw. destruct (check_wait s t th w) as [status|] eqn:Hc; [|done]. exfalso.
    destruct (end_wait_wakes held s t th w rest status I Ht Hw Hc) as (s1 & _ & W & I'). eapply S, wake_refines.
    split; [exact I|]. split; [exact I'|]. by exists t, w, status.
Qed.

(** ** Signaling *)

Inductive signal_op := SetEvent | ReleaseSemaphore (n : Z) | ReleaseMutex (t : Z).

(** What signaling means for the object; [None] is an error. *)
Definition spec_signal (op : signal_op) (x : sync_object) : option sync_object :=
  match op, x with
  | SetEvent, Event e => Some (Event (mk_event (manual_reset e) true))
  | ReleaseSemaphore n, Semaphore m =>
      if decide (sem_count m + n <= sem_max m) then Some (Semaphore (mk_semaphore (sem_count m + n) (sem_max m))) else None
  | ReleaseMutex t, Mutex m =>
      if decide (owner m = Some t) then
        Some (Mutex (if decide (mutex_count m = 1) then mk_mutex None 0 (abandoned m) else mk_mutex (Some t) (mutex_count m - 1) (abandoned m)))
      else None
  | _, _ => None
  end.

(** The routines of the server. *)
Definition run_signal (s : sync) (o : Z) (op : signal_op) : option (sync * option Z) :=
  match op with
  | SetEvent => s ← set_event s o; Some (s, None)
  | ReleaseSemaphore n => release_semaphore s o n
  | ReleaseMutex t => signal s o SYNCHRONIZE t
  end.

Definition same_kind (op : signal_op) (x : sync_object) : Prop :=
  match op, x with SetEvent, Event _ | ReleaseMutex _, Mutex _ => True | ReleaseSemaphore n, Semaphore _ => 0 <= n < 2 ^ 32 | _, _ => False end.

Definition set_object (a : spec) (o : Z) (x : sync_object) : spec :=
  mk_spec (<[o := x]> (sp_objects a)) (sp_threads a) (sp_processes a) (sp_time a) (sp_monotonic a) (sp_sent a).

Lemma updated_abs held o s s1 x : updated held o s s1 -> sync_objects s1 !! o = Some x -> abs s1 = set_object (abs s) o x.
Proof.
  intros U Hx. unfold abs, set_object. cbn. rewrite (up_processes _ _ _ _ U), (up_time _ _ _ _ U), (up_monotonic _ _ _ _ U), (up_sent _ _ _ _ U). f_equal.
  - apply map_eq. intros o'. destruct (decide (o = o')) as [<-|]; [by rewrite lookup_insert_eq|]. rewrite lookup_insert_ne by done. by apply U.
  - apply map_eq. intros t. rewrite !lookup_fmap. apply U.
Qed.

(** What a completed operation means for the specification. *)
Lemma op_done_refines held o s s1 s' x :
  op_done held o s s1 s' -> sync_inv held [] s -> sync_objects s1 !! o = Some x ->
  rtc spec_wake (set_object (abs s) o x) (abs s') /\ (stuck (abs s) -> stuck (abs s')).
Proof.
  intros D I Hx. split.
  - rewrite <-(updated_abs held o s s1 x (dn_updated _ _ _ _ _ D) Hx). by eapply wakes_refine, (dn_steps _ _ _ _ _ D).
  - rewrite <-(quiet_stuck held s I), <-(quiet_stuck held s' (dn_inv _ _ _ _ _ D)). intros Q t.
    apply (dn_idle _ _ _ _ _ D); [intros e _; apply Q|apply Q].
Qed.

Lemma run_signal_refines held s o op x :
  sync_inv held [] s -> anchored held s o -> sync_objects s !! o = Some x -> same_kind op x ->
  match spec_signal op x with
  | None => exists err, run_signal s o op = Some (s, Some err)
  | Some x' => exists s', run_signal s o op = Some (s', None) /\ sync_inv held [] s' /\
      rtc spec_wake (set_object (abs s) o x') (abs s') /\ (stuck (abs s) -> stuck (abs s'))
  end.
Proof.
  intros I A Hx Hk. destruct op as [|n|t], x as [e|m|m| |b]; try done; cbn [run_signal spec_signal].
  - destruct (set_event_run held s o e I A Hx) as (s' & -> & D). exists s'. split; [done|]. split; [apply D|].
    apply (op_done_refines held o s _ s' _ D I). cbn. apply lookup_insert_eq.
  - pose proof (release_semaphore_run held s o m n I A Hx Hk) as H. case_decide; [|by eexists].
    destruct H as (s' & -> & D). exists s'. split; [done|]. split; [apply D|]. apply (op_done_refines held o s _ s' _ D I). cbn. apply lookup_insert_eq.
  - unfold signal, event_signal, semaphore_signal, mutex_signal. rewrite Hx. change (has_bits SYNCHRONIZE SYNCHRONIZE) with true. cbn [negb].
    pose proof (dt_self _ (iv_data _ _ _ I) _ _ Hx) as Hs. cbn in Hs.
    destruct (decide (owner m = Some t)) as [E|E]; [|rewrite (bool_decide_eq_false_2 _ E), orb_true_r; by eexists].
    rewrite (bool_decide_eq_true_2 _ E). rewrite E in Hs. rewrite (proj2 (Z.eqb_neq (mutex_count m) 0)) by lia. cbn [negb orb].
    destruct (release_mutex_run held s o t m I A Hx E) as (s' & -> & D). exists s'. split; [done|]. split; [apply D|].
    apply (op_done_refines held o s _ s' _ D I). unfold released. destruct (Z.eqb_spec (mutex_count m) 1) as [E1|E1].
    + rewrite decide_True by done. cbn. by rewrite lookup_insert_eq.
    + rewrite decide_False by done. cbn. by rewrite lookup_insert_eq.
Qed.
