(* ===== verification/SyncClaims.v ===== *)
(** * Correctness of waits and synchronisation objects

    The theorems on server/thread.c, event.c, semaphore.c and mutex.c: the
    invariant, completion of every operation, no lost wakeups, the abstract
    machine, the end of a thread, and three places where the code goes wrong. *)

From Stdlib Require Import ZArith Lia.
From stdpp Require Import base list numbers option gmap.
From S2P Require Import Prelude Handles HandleTheorems HandleCounts HandleSteps Sync SyncRequests SyncInvariant SyncWaits.
From S2P Require Import SyncWakeup SyncOps SyncSelect SyncSignal SyncHandlers SyncThreads SyncExit SyncSpec.

#[local] Open Scope Z_scope.

(** ** Scripts: concrete sequences of operations *)

(** The addresses of the operations of the three types, and of the others. *)
Definition ex_ops : object_ops := mk_ops (fun _ a => a) (fun _ _ _ => true).

Definition ex_step : list Z * sync -> list Z * sync -> Prop := sync_step 1 2 3 (fun _ => ex_ops).

Definition ex_exec (s : sync) (o : sync_op) : option sync := fst (exec 1 2 3 (fun _ => ex_ops) s o (mk_senv 0 [])).

Inductive command :=
  | Do (o : sync_op)
  | Tick (now mono : Z)
  | Process (p : Z)
  | Thread (t p : Z).

(** Tests for what an operation relies on. *)
Definition magic_check (c : current_t) (held : list Z) : bool :=
  bool_decide (cur_thread c ∈ held) && bool_decide (cur_process c ∈ held) &&
  bool_decide (cur_token c = None) && bool_decide (cur_impersonation c = None) && bool_decide (cur_process_token c = None).

Definition room_check (s : sync) (n : Z) : bool :=
  forallb (fun p => match p.2 with Mutex m => mutex_count m + Z.of_nat (length (queue s p.1)) + n <? 2 ^ 32 | _ => true end)
    (map_to_list (sync_objects s)).

Definition admissible_check (held : list Z) (s : sync) (o : sync_op) : bool :=
  match o with
  | OpSelect c addr sop size cookie flags when =>
      magic_check c held && bool_decide (is_Some (threads s !! cur_thread c)) &&
      negb (bool_decide (addr ∈ (w_addr <$> waits_of s (cur_thread c)))) && room_check s MAXIMUM_WAIT_OBJECTS &&
      (negb (bool_decide (op sop = SELECT_WAIT_ALL)) || bool_decide (NoDup (targets c s (wait_handles sop size))))
  | OpEvent c _ _ | OpReleaseMutex c _ => magic_check c held
  | OpReleaseSemaphore c _ n => magic_check c held && (0 <=? n) && (n <? 2 ^ 32)
  | OpCreateEvent _ addr _ _ _ _ => bool_decide (objects (objs s) !! addr ≫= (fun _ => Some tt) = None)
  | OpCreateSemaphore _ addr _ _ i m =>
      bool_decide (objects (objs s) !! addr ≫= (fun _ => Some tt) = None) && (0 <=? i) && (i <? 2 ^ 32) && (0 <=? m) && (m <? 2 ^ 32)
  | OpCreateMutex c addr _ _ _ =>
      bool_decide (objects (objs s) !! addr ≫= (fun _ => Some tt) = None) && bool_decide (is_Some (threads s !! cur_thread c))
  | OpClose _ _ => true
  | _ => false
  end.

Lemma none_check {A} (x : option A) : bool_decide (x ≫= (fun _ => Some tt) = None) = true -> x = None.
Proof. intros H%bool_decide_eq_true. by destruct x. Qed.

Lemma magic_check_sound c held : magic_check c held = true -> magic_held c held.
Proof.
  unfold magic_check. rewrite !andb_true_iff, !bool_decide_eq_true. intros ((((H1 & H2) & H3) & H4) & H5) h o.
  unfold get_magic_handle. rewrite H3, H4, H5. repeat case_match; congruence.
Qed.

Lemma room_check_sound s n : room_check s n = true -> room_for s n.
Proof.
  intros H o m Hm. unfold room_check in H. rewrite forallb_forall in H. apply elem_of_map_to_list, list_elem_of_In in Hm.
  specialize (H _ Hm). cbn in H. by apply Z.ltb_lt in H.
Qed.

Lemma admissible_check_sound held s o : admissible_check held s o = true -> admissible held s o.
Proof.
  destruct o; cbn [admissible_check admissible]; rewrite ?andb_true_iff, ?Z.leb_le, ?Z.ltb_lt; try done.
  - rewrite bool_decide_eq_true, negb_true_iff, bool_decide_eq_false. intros ((((H1 & H2) & H3) & H4) & H5).
    split; [by apply magic_check_sound|]. split; [done|]. split; [done|]. split; [by apply room_check_sound|].
    intros E. rewrite bool_decide_eq_true_2 in H5 by done. cbn in H5. by apply bool_decide_eq_true in H5.
  - apply magic_check_sound.
  - intros ((H1 & H2) & H3). split; [by apply magic_check_sound|lia].
  - apply magic_check_sound.
  - apply none_check.
  - intros ((((H1 & H2) & H3) & H4) & H5). split; [by apply none_check|lia].
  - intros [H1 H2]. split; [by apply none_check|by apply bool_decide_eq_true in H2].
Qed.

Definition run_command (x : list Z * sync) (c : command) : option (list Z * sync) :=
  match c with
  | Do o => if admissible_check x.1 x.2 o then s ← ex_exec x.2 o; Some (x.1, s) else None
  | Tick now mono => Some (x.1, tick x.2 now mono)
  | Process p =>
      if bool_decide (objects (objs x.2) !! p ≫= (fun _ => Some tt) = None) && bool_decide (handles (objs x.2) !! p ≫= (fun _ => Some tt) = None)
      then Some (p :: x.1, new_process x.2 p 4) else None
  | Thread t p =>
      if bool_decide (objects (objs x.2) !! t ≫= (fun _ => Some tt) = None) && bool_decide (threads x.2 !! t ≫= (fun _ => Some tt) = None)
      then Some (t :: t :: x.1, new_thread x.2 t 5 p) else None
  end.

Fixpoint run_script (x : list Z * sync) (l : list command) : option (list Z * sync) :=
  match l with
  | [] => Some x
  | c :: l => x ← run_command x c; run_script x l
  end.

Lemma run_command_sound x c x' : run_command x c = Some x' -> ex_step x x'.
Proof.
  destruct x as [held s], c as [o|now mono|p|t p]; cbn [run_command fst snd].
  - destruct (admissible_check held s o) eqn:A; [|done]. unfold ex_exec. destruct (exec 1 2 3 (fun _ => ex_ops) s o (mk_senv 0 [])) as [[s'|] e'] eqn:E; [|done].
    cbn. intros [= <-]. exact (step_exec 1 2 3 (fun _ => ex_ops) held s o _ s' e' (admissible_check_sound held s o A) E).
  - intros [= <-]. constructor.
  - destruct (_ && _) eqn:E; [|done]. apply andb_true_iff in E as [?%none_check ?%none_check]. intros [= <-]. apply step_new_process; [done..|].
    unfold plain_type. rewrite !not_elem_of_cons, elem_of_nil. lia.
  - destruct (_ && _) eqn:E; [|done]. apply andb_true_iff in E as [?%none_check ?%none_check]. intros [= <-]. apply step_new_thread; [done..|].
    unfold plain_type. rewrite !not_elem_of_cons, elem_of_nil. lia.
Qed.

Lemma run_script_sound l : forall x x', run_script x l = Some x' -> rtc ex_step x x'.
Proof.
  induction l as [|c l IH]; intros x x'; cbn; [by intros [= <-]|]. destruct (run_command x c) as [x1|] eqn:E; [|done]. cbn.
  intros H. eapply rtc_l; [by apply (run_command_sound x c)|by apply IH].
Qed.

(** The thread [t] of process 100. *)
Definition thread_of (t : Z) : current_t := mk_current t 100 None None None.

(** A wait of a thread on some handles. *)
Definition wait_for (t : Z) (sel : select_op) (hs : list Z) (when : Z) : command :=
  Do (OpSelect (thread_of t) (1000 + t) (mk_select_op sel hs) (4 + 4 * Z.of_nat (length hs)) t 0 when).

Definition three_threads : list command := [Process 100; Thread 201 100; Thread 202 100; Thread 203 100].

Definition state_after (l : list command) : list Z * sync := default ([], initial_sync) (run_script ([], initial_sync) l).

(** ** The scenarios of the witnesses *)

(** An automatic event and a semaphore; two threads wait for the event. *)
Definition waiting_script : list command :=
  three_threads ++
  [Do (OpCreateEvent (thread_of 203) 300 0x1F0003 0 false false);
   Do (OpCreateSemaphore (thread_of 203) 301 0x1F0003 0 1 5);
   wait_for 201 SELECT_WAIT [4] (-100000); wait_for 202 SELECT_WAIT [4] (-100000)].

(** Thread 201 owns a mutex for which thread 202 waits. *)
Definition owned_script : list command :=
  three_threads ++ [Do (OpCreateMutex (thread_of 201) 300 0x1F0003 0 true); wait_for 202 SELECT_WAIT [4] (-100000)].

(** Thread 201 waits for two events until the time is 10, thread 202 for the
    first of them; the time is now 20. *)
Definition expired_script : list command :=
  three_threads ++
  [Do (OpCreateEvent (thread_of 203) 300 0x1F0003 0 false false);
   Do (OpCreateEvent (thread_of 203) 301 0x1F0003 0 false false);
   wait_for 201 SELECT_WAIT_ALL [4; 8] 10; wait_for 202 SELECT_WAIT [4] (-100000); Tick 20 20].

Lemma state_reachable l held :
  fst <$> run_script ([], initial_sync) l = Some held -> rtc ex_step ([], initial_sync) (held, (state_after l).2).
Proof. unfold state_after. destruct (run_script _ l) as [[h s]|] eqn:Hx; [|done]. intros [= <-]. by apply (run_script_sound l). Qed.

Lemma ex_distinct : NoDup [1; 2; 3].
Proof. apply (bool_decide_eq_true_1 (NoDup [1; 2; 3])). reflexivity. Qed.

(** A test for [quiet]. *)
Definition quiet_check (s : sync) : bool :=
  forallb (fun p => match wait p.2 with [] => true | w :: _ => match check_wait s p.1 p.2 w with None => true | Some _ => false end end)
    (map_to_list (threads s)).

Lemma quiet_check_sound s : quiet_check s = true -> quiet s.
Proof.
  intros H t th w rest Ht Hw. unfold quiet_check in H. rewrite forallb_forall in H. apply elem_of_map_to_list, list_elem_of_In in Ht.
  specialize (H _ Ht). cbn in H. rewrite Hw in H. by destruct (check_wait s t th w).
Qed.

(** ** The theorems *)

(** Every reference is accounted for: an object has one per handle, one per entry
    of its wait queue and one per occurrence in [held], and no more. *)
Definition refs_exact (held : list Z) (s : sync) : Prop :=
  forall o ob, objects (objs s) !! o = Some ob ->
    refcount ob = handle_count ob + Z.of_nat (length (queue s o)) + Z.of_nat (occ o held).

Lemma inv_refs_exact held s : sync_inv held [] s -> refs_exact held s.
Proof. intros I o ob Ho. pose proof (iv_refs _ _ _ I o) as H. unfold refs_at in H. rewrite Ho in H. tauto. Qed.

Section claims.
Context (event_ops semaphore_ops mutex_ops : Z) (ops_table : Z -> object_ops).
Context (Hdistinct : NoDup [event_ops; semaphore_ops; mutex_ops]).
#[local] Abbreviation step := (sync_step event_ops semaphore_ops mutex_ops ops_table).
#[local] Abbreviation run := (exec event_ops semaphore_ops mutex_ops ops_table).
#[local] Abbreviation ok := (sync_ok event_ops semaphore_ops mutex_ops).

(** C12: in every state that the requests of clients, timeouts and the creation
    and end of threads can lead to, reference counts are exact (as many references
    as handles, queue entries and references that the server holds, so that none
    is leaked), wait queues hold exactly
    the entries of the pending waits, counts of semaphores and mutexes are in
    range, the list of mutexes of a thread names exactly those it owns, and every
    object carries the data of its type.  Every admissible operation (the
    thread of the request is alive, new objects and waits get unused addresses, no
    object occurs twice in a wait for all, counts of mutexes are away from 2^32, a
    process that is resumed is suspended, a timeout belongs to a wait) on such a state runs to completion: no assertion fails, no freed object is used, all
    loops end. *)
Theorem sync_ops_safe held s :
  rtc step ([], initial_sync) (held, s) ->
  (ok held s /\ refs_exact held s) /\
  forall o e, admissible held s o -> exists s' e', run s o e = (Some s', e') /\ ok held s' /\ refs_exact held s'.
Proof using Hdistinct.
  intros R. pose proof (reachable_sync_ok _ _ _ _ Hdistinct _ _ R) as K.
  split; [split; [done|exact (inv_refs_exact _ _ (proj1 K))]|]. intros o e A.
  destruct (exec_run _ _ _ ops_table Hdistinct held s o K A e) as (s' & e' & H1 & H2 & _).
  exists s', e'. split; [done|]. split; [done|exact (inv_refs_exact _ _ (proj1 H2))].
Qed.

(** C13: no wakeup is lost: when no thread is blocked in a wait that could end,
    then none is after an operation; whoever can go on has been woken.  Signaling
    an object and waiting in one request is taken outside of any other wait and on
    another object. *)
Theorem no_lost_wakeup held s o e s' e' :
  rtc step ([], initial_sync) (held, s) -> admissible held s o -> calm s o -> quiet s ->
  run s o e = (Some s', e') -> quiet s'.
Proof using Hdistinct.
  intros R A C Q E. destruct (exec_run _ _ _ ops_table Hdistinct held s o (reachable_sync_ok _ _ _ _ Hdistinct _ _ R) A e) as (s1 & e1 & H1 & _ & H2).
  rewrite E in H1. injection H1 as <- _. auto.
Qed.

(** C14: set_event, release_semaphore and the release of a mutex implement the
    abstract machine: they change the one object as the specification says, then
    end waits one by one in ways that the specification allows, and leave no
    wait that the specification could end; where the specification has an error
    they leave the state alone. *)
Theorem signal_refines_spec held s o op x :
  rtc step ([], initial_sync) (held, s) -> anchored held s o -> sync_objects s !! o = Some x -> same_kind op x ->
  match spec_signal op x with
  | None => exists err, run_signal s o op = Some (s, Some err)
  | Some x' => exists s', run_signal s o op = Some (s', None) /\
      rtc spec_wake (set_object (abs s) o x') (abs s') /\ (stuck (abs s) -> stuck (abs s'))
  end.
Proof using Hdistinct.
  intros R A Hx Hk. pose proof (run_signal_refines held s o op x (proj1 (reachable_sync_ok _ _ _ _ Hdistinct _ _ R)) A Hx Hk) as H.
  destruct (spec_signal op x); [|done]. destruct H as (s' & H1 & _ & H2 & H3). by exists s'.
Qed.

(** C15: the end of a thread succeeds when something else still refers to the
    mutexes it owns, and leaves the thread without waits and no mutex with it as
    its owner; the references of the server on the thread are dropped and no other
    count changes its meaning (an object keeps exactly its handles, queue entries
    and the references that are left), and whoever was blocked on the thread or on one of its mutexes and can go on has been woken. *)
Theorem kill_thread_correct held held' s t th code :
  rtc step ([], initial_sync) (held, s) -> held ≡ₚ t :: t :: held' -> threads s !! t = Some th -> terminated th = false ->
  (forall o, o ∈ mutex_list th -> anchored held s o) ->
  exists s', kill_thread s t code = Some s' /\ ok held' s' /\ refs_exact held' s' /\ waits_of s' t = [] /\ (forall o, owner_of s' o <> Some t) /\
    (quiet s -> quiet s').
Proof using Hdistinct.
  intros R P Ht Hn A. destruct (reachable_sync_ok _ _ _ _ Hdistinct _ _ R) as (I & T & K).
  destruct (kill_thread_run event_ops semaphore_ops mutex_ops held' s t th code) as (s' & E & I' & T' & Hw & Hm & K' & Q'); try done;
    [by eapply inv_perm|intros o Ho; destruct (A o Ho); [left; by rewrite <-P|by right]|].
  exists s'. split; [done|]. split; [by split; [|auto]|]. split; [exact (inv_refs_exact _ _ I')|].
  split; [done|]. split; [|done]. intros o Ho.
  apply (dt_owned _ (iv_data _ _ _ I')) in Ho. rewrite Hm in Ho. by apply not_elem_of_nil in Ho.
Qed.
End claims.

(** ** Where the code goes wrong *)

(** A wait for several objects that has timed out counts as the one thread
    that set_event wakes on an automatic event: the wait ends with a timeout,
    and a second thread stays blocked on the event although it is signaled. *)
Lemma set_event_loses_wakeup :
  let s := (state_after expired_script).2 in
  rtc ex_step ([], initial_sync) ([203; 203; 202; 202; 201; 201; 100], s) /\
  exists s' th w, set_event s 300 = Some s' /\ sent s' = [Wakeup 201 201 STATUS_TIMEOUT] /\
    sync_objects s' !! 300 = Some (Event (mk_event false true)) /\
    threads s' !! 202 = Some th /\ wait th = [w] /\ check_wait s' 202 th w = Some STATUS_WAIT_0.
Proof.
  split; [apply state_reachable; vm_compute; reflexivity|].
  set (s := (state_after expired_script).2). remember (set_event s 300) as r eqn:Hr. vm_compute in Hr. subst r.
  do 3 eexists. split; [reflexivity|]. repeat (split; [vm_compute; reflexivity|]). vm_compute; reflexivity.
Qed.

(** ** Witnesses *)

Lemma waiting_reachable : rtc ex_step ([], initial_sync) ([203; 203; 202; 202; 201; 201; 100], (state_after waiting_script).2).
Proof.
  apply state_reachable. vm_compute. reflexivity.
Qed.

Lemma owned_reachable : rtc ex_step ([], initial_sync) ([203; 203; 202; 202; 201; 201; 100], (state_after owned_script).2).
Proof.
  apply state_reachable. vm_compute. reflexivity.
Qed.

Lemma sync_ops_safe_witness :
  sync_ok 1 2 3 [203; 203; 202; 202; 201; 201; 100] (state_after waiting_script).2 /\
  exists s' e', exec 1 2 3 (fun _ => ex_ops) (state_after waiting_script).2 (OpEvent (thread_of 203) 4 SET_EVENT) (mk_senv 0 []) = (Some s', e') /\
    sync_ok 1 2 3 [203; 203; 202; 202; 201; 201; 100] s' /\ refs_exact [203; 203; 202; 202; 201; 201; 100] s'.
Proof.
  destruct (sync_ops_safe 1 2 3 (fun _ => ex_ops) ex_distinct _ _ waiting_reachable) as [[K _] H]. split; [exact K|].
  apply H. apply admissible_check_sound. vm_compute. reflexivity.
Defined.

Lemma set_event_runs :
  bool_decide (ex_exec (state_after waiting_script).2 (OpEvent (thread_of 203) 4 SET_EVENT) ≫= (fun _ => Some tt) = Some tt) = true.
Proof. vm_compute. reflexivity. Qed.

Lemma no_lost_wakeup_witness :
  exists s', ex_exec (state_after waiting_script).2 (OpEvent (thread_of 203) 4 SET_EVENT) = Some s' /\ quiet s'.
Proof.
  pose proof set_event_runs as H. apply bool_decide_eq_true in H. revert H. unfold ex_exec.
  destruct (exec _ _ _ _ _ _ _) as [[s'|] e'] eqn:E; [|done]. intros _. exists s'. split; [done|].
  apply (no_lost_wakeup 1 2 3 (fun _ => ex_ops) ex_distinct [203; 203; 202; 202; 201; 201; 100] (state_after waiting_script).2
    (OpEvent (thread_of 203) 4 SET_EVENT) (mk_senv 0 []) s' e'); [exact waiting_reachable| |done| |exact E].
  - apply admissible_check_sound. vm_compute. reflexivity.
  - apply quiet_check_sound. vm_compute. reflexivity.
Defined.

Lemma waiting_event : sync_objects (state_after waiting_script).2 !! 300 = Some (Event (mk_event false false)).
Proof. vm_compute. reflexivity. Qed.

Lemma waiting_anchored : anchored [203; 203; 202; 202; 201; 201; 100] (state_after waiting_script).2 300.
Proof. right. vm_compute. reflexivity. Qed.

Lemma signal_refines_spec_witness :
  exists s', run_signal (state_after waiting_script).2 300 SetEvent = Some (s', None) /\
    rtc spec_wake (set_object (abs (state_after waiting_script).2) 300 (Event (mk_event false true))) (abs s') /\
    (stuck (abs (state_after waiting_script).2) -> stuck (abs s')).
Proof.
  exact (signal_refines_spec 1 2 3 (fun _ => ex_ops) ex_distinct _ _ 300 SetEvent _ waiting_reachable waiting_anchored waiting_event I).
Defined.

Lemma owned_anchored o : o ∈ [300] -> anchored [203; 203; 202; 202; 201; 201; 100] (state_after owned_script).2 o.
Proof. rewrite list_elem_of_singleton. intros ->. right. vm_compute. reflexivity. Qed.

Lemma owned_thread :
  threads (state_after owned_script).2 !! 201 = Some (mk_thread 100 [] [] [] 0 [300] None 0 false).
Proof. vm_compute. reflexivity. Qed.

Lemma kill_thread_correct_witness :
  exists s', kill_thread (state_after owned_script).2 201 0 = Some s' /\ sync_ok 1 2 3 [203; 203; 202; 202; 100] s' /\
    refs_exact [203; 203; 202; 202; 100] s' /\ waits_of s' 201 = [] /\ (forall o, owner_of s' o <> Some 201) /\ (quiet (state_after owned_script).2 -> quiet s').
Proof.
  apply (kill_thread_correct 1 2 3 (fun _ => ex_ops) ex_distinct [203; 203; 202; 202; 201; 201; 100] [203; 203; 202; 202; 100] (state_after owned_script).2 201
    (mk_thread 100 [] [] [] 0 [300] None 0 false) 0 owned_reachable); [|exact owned_thread|reflexivity|exact owned_anchored].
  symmetry. apply (Permutation_app_swap_app [201; 201] [203; 203; 202; 202] [100]).
Defined.

(** C16: a wait for several objects that has timed out counts as the one thread that
    set_event wakes on an automatic event: the wait ends with a timeout, and a second
    thread stays blocked on the event although it is signaled.  A wait for all of
    two handles to the same semaphore of count one fails
    the assertion on the count: the semaphore is signaled for each handle but can
    be taken only once.  And when the last references to a mutex are those of the
    threads that wait for it, the end of its owner frees it in the middle of
    wake_up, which goes on with its queue. *)
Theorem sync_requests_wrong :
  (let s := (state_after expired_script).2 in
   rtc ex_step ([], initial_sync) ([203; 203; 202; 202; 201; 201; 100], s) /\
   exists s' th w, set_event s 300 = Some s' /\ sent s' = [Wakeup 201 201 STATUS_TIMEOUT] /\
     sync_objects s' !! 300 = Some (Event (mk_event false true)) /\
     threads s' !! 202 = Some th /\ wait th = [w] /\ check_wait s' 202 th w = Some STATUS_WAIT_0) /\
  (exists s, rtc ex_step ([], initial_sync) ([203; 203; 202; 202; 201; 201; 100], s) /\ sync_objects s !! 301 = Some (Semaphore (mk_semaphore 1 5)) /\
    fst (select_on (thread_of 203) s 1203 (mk_select_op SELECT_WAIT_ALL [8; 8]) 12 203 0 (-100000) (mk_senv 0 [])) = None) /\
  exists s m, rtc ex_step ([], initial_sync) ([203; 203; 202; 202; 201; 201; 100], s) /\ sync_objects s !! 300 = Some (Mutex m) /\ owner m = Some 201 /\
    map e_thread (queue s 300) = [202] /\ kill_thread s 201 0 = None.
Proof.
  split; [exact set_event_loses_wakeup|]. split.
  - exists (state_after waiting_script).2. split; [|vm_compute; by split]. apply state_reachable. vm_compute. reflexivity.
  - exists (state_after (owned_script ++ [Do (OpClose (thread_of 203) 4)])).2, (mk_mutex (Some 201) 1 false). split; [|vm_compute; by repeat split].
    apply state_reachable. vm_compute. reflexivity.
Qed.
