(* ===== verification/Memory.v ===== *)
(** * Blocks of memory

    Request data, security descriptors, SIDs and access control lists are walked
    with pointers into a block of bytes.  A block is a list of bytes, each of
    which is undefined until it is written; a pointer is a block with an offset.
    Reading outside a block, or a byte that was never written, and writing outside
    a block are [None].  Routines that allocate as well are functions of the
    request environment whose result may be undefined, the monad [U]. *)

From Stdlib Require Import ZArith Lia Strings.Byte.
From stdpp Require Import base list numbers option.
From S2P Require Import Prelude.

#[local] Open Scope Z_scope.
#[local] Open Scope server_scope.

(** ** Bytes *)

Definition Z_of_byte (x : byte) : Z := Z.of_N (to_N x).

Definition byte_of_Z (z : Z) : byte := default x00 (of_N (Z.to_N (z mod 256))).

#[export] Instance byte_eq_dec : EqDecision byte := Byte.byte_eq_dec.

Lemma Z_of_byte_range x : 0 <= Z_of_byte x < 256.
Proof. unfold Z_of_byte. pose proof (to_N_bounded x). lia. Qed.

Lemma byte_of_Z_of_byte x : byte_of_Z (Z_of_byte x) = x.
Proof.
  unfold byte_of_Z. pose proof (Z_of_byte_range x). rewrite Z.mod_small by done.
  unfold Z_of_byte. rewrite N2Z.id, of_to_N. done.
Qed.

Lemma Z_of_byte_of_Z z : Z_of_byte (byte_of_Z z) = z mod 256.
Proof.
  unfold byte_of_Z, Z_of_byte. pose proof (Z.mod_pos_bound z 256 ltac:(lia)).
  destruct (of_N (Z.to_N (z mod 256))) as [x|] eqn:E; cbn [default].
  - apply to_of_N in E. cbn. rewrite E. lia.
  - apply of_N_None_iff in E. lia.
Qed.

(** Little-endian encodings of unsigned short and unsigned int. *)
Definition le16 (z : Z) : list byte := [byte_of_Z z; byte_of_Z (z / 2 ^ 8)].

Definition le32 (z : Z) : list byte :=
  [byte_of_Z z; byte_of_Z (z / 2 ^ 8); byte_of_Z (z / 2 ^ 16); byte_of_Z (z / 2 ^ 24)].

Definition un_le16 (x0 x1 : byte) : Z := Z_of_byte x0 + 2 ^ 8 * Z_of_byte x1.

Definition un_le32 (x0 x1 x2 x3 : byte) : Z :=
  Z_of_byte x0 + 2 ^ 8 * Z_of_byte x1 + 2 ^ 16 * Z_of_byte x2 + 2 ^ 24 * Z_of_byte x3.

Lemma un_le16_range x0 x1 : 0 <= un_le16 x0 x1 < 2 ^ 16.
Proof. unfold un_le16. pose proof (Z_of_byte_range x0). pose proof (Z_of_byte_range x1). lia. Qed.

Lemma un_le32_range x0 x1 x2 x3 : 0 <= un_le32 x0 x1 x2 x3 < 2 ^ 32.
Proof.
  unfold un_le32. pose proof (Z_of_byte_range x0). pose proof (Z_of_byte_range x1).
  pose proof (Z_of_byte_range x2). pose proof (Z_of_byte_range x3). lia.
Qed.

Lemma un_le16_le16 z : 0 <= z < 2 ^ 16 -> un_le16 (byte_of_Z z) (byte_of_Z (z / 2 ^ 8)) = z.
Proof.
  intros. unfold un_le16. rewrite !Z_of_byte_of_Z. change (2 ^ 8) with 256.
  pose proof (Z.div_mod z 256). pose proof (Z.div_pos z 256). pose proof (Z.div_lt_upper_bound z 256 256).
  rewrite (Z.mod_small (z / 256)) by lia. lia.
Qed.

Lemma un_le32_le32 z :
  0 <= z < 2 ^ 32 ->
  un_le32 (byte_of_Z z) (byte_of_Z (z / 2 ^ 8)) (byte_of_Z (z / 2 ^ 16)) (byte_of_Z (z / 2 ^ 24)) = z.
Proof.
  intros. unfold un_le32. rewrite !Z_of_byte_of_Z.
  change (2 ^ 16) with (2 ^ 8 * 2 ^ 8). change (2 ^ 24) with (2 ^ 8 * 2 ^ 8 * 2 ^ 8).
  rewrite <-!Z.div_div by lia. change (2 ^ 8) with 256.
  pose proof (Z.div_mod z 256). pose proof (Z.div_mod (z / 256) 256).
  pose proof (Z.div_mod (z / 256 / 256) 256).
  assert (0 <= z / 256 / 256 / 256 < 256) as Hs.
  { rewrite !Z.div_div by lia. split; [apply Z.div_pos; lia|apply Z.div_lt_upper_bound; lia]. }
  rewrite (Z.mod_small (z / 256 / 256 / 256)) by done. lia.
Qed.

(** ** Blocks and pointers *)

(** A byte that was never written is [None]. *)
Definition block : Type := list (option byte).

Definition bytes (s : list byte) : block := Some <$> s.

Record cptr := mk_cptr {
  blk : block;
  off : Z
}.

(** The bytes of a list as a block, and the start of a block. *)
Definition ptr_to (b : block) : cptr := mk_cptr b 0.

Definition plus (p : cptr) (n : Z) : cptr := mk_cptr (blk p) (off p + n).

Notation "p +! n" := (plus p n) (at level 50, left associativity) : server_scope.

(** The [n] bytes at a pointer, as memcpy reads them. *)
Definition load (p : cptr) (n : Z) : option block :=
  if (0 <=? off p) && (0 <=? n) && (off p + n <=? Z.of_nat (length (blk p)))
  then Some (take (Z.to_nat n) (drop (Z.to_nat (off p)) (blk p))) else None.

(** The block after writing the bytes [s] at a pointer. *)
Definition store (p : cptr) (s : block) : option cptr :=
  if (0 <=? off p) && (off p + Z.of_nat (length s) <=? Z.of_nat (length (blk p)))
  then Some (mk_cptr (take (Z.to_nat (off p)) (blk p) ++ s ++
                      drop (Z.to_nat (off p) + length s) (blk p)) (off p))
  else None.

(** The values of [n] bytes that have all been written. *)
Definition load_bytes (p : cptr) (n : Z) : option (list byte) := load p n ≫= mapM id.

Definition get8 (p : cptr) (n : Z) : option Z :=
  match load_bytes (p +! n) 1 with Some [x] => Some (Z_of_byte x) | _ => None end.

Definition get16 (p : cptr) (n : Z) : option Z :=
  match load_bytes (p +! n) 2 with Some [x0; x1] => Some (un_le16 x0 x1) | _ => None end.

Definition get32 (p : cptr) (n : Z) : option Z :=
  match load_bytes (p +! n) 4 with Some [x0; x1; x2; x3] => Some (un_le32 x0 x1 x2 x3) | _ => None end.

Definition memcmp (p q : cptr) (n : Z) : option bool :=
  s ← load_bytes p n; t ← load_bytes q n; Some (bool_decide (s = t)).

(** ** Routines that may be undefined *)

Definition U (A : Type) : Type := senv -> option (A * senv).

Definition uret {A} (a : A) : U A := fun e => Some (a, e).

Definition ubind {A B} (m : U A) (k : A -> U B) : U B :=
  fun e => match m e with None => None | Some (a, e') => k a e' end.

Definition lift {A} (m : M A) : U A := fun e => Some (m e).

Definition try {A} (o : option A) : U A := fun e => match o with None => None | Some a => Some (a, e) end.

Notation "'let?' x := c 'in' k" := (ubind c (fun x => k))
  (at level 10, x pattern, c at level 200, k at level 200, only parsing) : server_scope.

(** malloc'd memory of [n] bytes, not initialised; [None] is a null pointer. *)
Definition mem_alloc_block (n : Z) : M (option cptr) :=
  let* ok := mem_alloc in
  ret (if ok then Some (ptr_to (replicate (Z.to_nat n) None)) else None).

(** object.c [memdup]. *)
Definition memdup (p : cptr) (n : Z) : U (option cptr) :=
  let? ok := lift mem_alloc in
  if ok then let? s := try (load p n) in uret (Some (ptr_to s)) else uret None.

(** ** What a block holds *)

(** The cells [c] lie at [p]. *)
Definition points (p : cptr) (c : block) : Prop :=
  exists pre post, blk p = pre ++ c ++ post /\ off p = Z.of_nat (length pre).

(** The [n] bytes at [p] can be read. *)
Definition readable (p : cptr) (n : Z) : Prop := exists s, points p (bytes s) /\ Z.of_nat (length s) = n.

Lemma plus_plus p n m : p +! n +! m = p +! (n + m).
Proof. unfold plus. cbn. f_equal. lia. Qed.

Lemma plus_0 p : p +! 0 = p.
Proof. destruct p. unfold plus. cbn. f_equal. lia. Qed.

Lemma length_bytes s : length (bytes s) = length s.
Proof. apply length_fmap. Qed.

Lemma bytes_app s t : bytes (s ++ t) = bytes s ++ bytes t.
Proof. apply fmap_app. Qed.

Lemma mapM_bytes s : mapM id (bytes s) = Some s.
Proof. induction s as [|x s IH]; [done|]. cbn. unfold bytes in IH. by rewrite IH. Qed.

Lemma bytes_mapM c s : mapM id c = Some s -> c = bytes s.
Proof.
  revert s. induction c as [|x c IH]; intros s; cbn; [by intros [= <-]|].
  destruct x as [x|]; [|done]. cbn. destruct (mapM id c) as [t|]; [|done]. cbn.
  intros [= <-]. by rewrite (IH t).
Qed.

Lemma points_ptr_to c : points (ptr_to c) c.
Proof. exists [], []. rewrite app_nil_r. done. Qed.

Lemma points_app p c d :
  points p (c ++ d) <-> points p c /\ points (p +! Z.of_nat (length c)) d.
Proof.
  split.
  - intros (pre & post & E & Ho). split.
    + exists pre, (d ++ post). by rewrite E, <-app_assoc.
    + exists (pre ++ c), post. cbn. rewrite E, length_app, <-!app_assoc. split; [done|lia].
  - intros [(pre & post & E & Ho) (pre' & post' & E' & Ho')]. cbn in E', Ho'.
    exists pre, post'. split; [|done].
    assert (pre' = pre ++ c) as ->.
    { rewrite E, app_assoc in E'.
      apply app_inj_1 in E' as [E' _]; [done|rewrite length_app; lia]. }
    by rewrite E', <-!app_assoc.
Qed.

Lemma load_points p c : points p c -> load p (Z.of_nat (length c)) = Some c.
Proof.
  intros (pre & post & E & Ho). unfold load. rewrite E, Ho, !length_app.
  replace (_ && _) with true by (symmetry; repeat (apply andb_true_intro; split); apply Z.leb_le; lia).
  rewrite !Nat2Z.id, drop_app_length, take_app_length. done.
Qed.

Lemma points_load p n c : load p n = Some c -> points p c /\ Z.of_nat (length c) = n.
Proof.
  unfold load. destruct (_ && _) eqn:Hb; [|done]. intros [= <-].
  repeat (apply andb_prop in Hb as [Hb ?]). apply Z.leb_le in Hb. repeat match goal with H : (_ <=? _) = true |- _ => apply Z.leb_le in H end.
  split.
  - exists (take (Z.to_nat (off p)) (blk p)), (drop (Z.to_nat n) (drop (Z.to_nat (off p)) (blk p))).
    rewrite !take_drop. split; [done|]. rewrite length_take. lia.
  - rewrite length_take, length_drop. lia.
Qed.

Lemma load_bytes_points p s : points p (bytes s) -> load_bytes p (Z.of_nat (length s)) = Some s.
Proof.
  intros H. unfold load_bytes. apply load_points in H. rewrite length_bytes in H. rewrite H. cbn.
  apply mapM_bytes.
Qed.

Lemma points_load_bytes p n s :
  load_bytes p n = Some s -> points p (bytes s) /\ Z.of_nat (length s) = n.
Proof.
  unfold load_bytes. destruct (load p n) as [c|] eqn:E; [|done]. cbn.
  intros ->%bytes_mapM. apply points_load in E as [? <-]. by rewrite length_bytes.
Qed.

(** A pointer holds at most one string of a given length. *)
Lemma points_unique p s t :
  points p (bytes s) -> points p (bytes t) -> length s = length t -> s = t.
Proof.
  intros Hs%load_bytes_points Ht%load_bytes_points E. rewrite E in Hs. congruence.
Qed.

Lemma readable_sub p n k m :
  readable p n -> 0 <= k -> 0 <= m -> k + m <= n -> readable (p +! k) m.
Proof.
  intros (s & H & Hl) Hk Hm Hn.
  rewrite <-(take_drop (Z.to_nat k) s), <-(take_drop (Z.to_nat m) (drop (Z.to_nat k) s)) in H.
  rewrite !bytes_app, !points_app in H. destruct H as (_ & H & _).
  exists (take (Z.to_nat m) (drop (Z.to_nat k) s)).
  rewrite length_bytes, length_take, Nat.min_l, Z2Nat.id in H by lia. split; [done|].
  rewrite length_take, length_drop. lia.
Qed.


Lemma points_readable p s : points p (bytes s) -> readable p (Z.of_nat (length s)).
Proof. by exists s. Qed.

(** Reading single fields. *)
Lemma get8_points p n x : points (p +! n) (bytes [x]) -> get8 p n = Some (Z_of_byte x).
Proof. intros H. unfold get8. apply load_bytes_points in H. change (Z.of_nat _) with 1 in H. by rewrite H. Qed.

Lemma get16_points p n x0 x1 : points (p +! n) (bytes [x0; x1]) -> get16 p n = Some (un_le16 x0 x1).
Proof. intros H. unfold get16. apply load_bytes_points in H. change (Z.of_nat _) with 2 in H. by rewrite H. Qed.

Lemma get32_points p n x0 x1 x2 x3 :
  points (p +! n) (bytes [x0; x1; x2; x3]) -> get32 p n = Some (un_le32 x0 x1 x2 x3).
Proof. intros H. unfold get32. apply load_bytes_points in H. change (Z.of_nat _) with 4 in H. by rewrite H. Qed.

Lemma get16_le16 p n z : 0 <= z < 2 ^ 16 -> points (p +! n) (bytes (le16 z)) -> get16 p n = Some z.
Proof. intros Hz H%get16_points. by rewrite H, un_le16_le16. Qed.

Lemma get32_le32 p n z : 0 <= z < 2 ^ 32 -> points (p +! n) (bytes (le32 z)) -> get32 p n = Some z.
Proof. intros Hz H%get32_points. by rewrite H, un_le32_le32. Qed.

Lemma get8_readable p n m : readable p m -> 0 <= n < m -> exists x, get8 p n = Some (Z_of_byte x) /\ points (p +! n) (bytes [x]).
Proof.
  intros H Hn. destruct (readable_sub p m n 1 H) as (s & Hs & Hl); [lia..|].
  destruct s as [|x [|? ?]]; cbn in Hl; try lia. exists x. split; [by apply get8_points|done].
Qed.

Lemma le16_un_le16 x0 x1 : le16 (un_le16 x0 x1) = [x0; x1].
Proof.
  unfold le16, un_le16. pose proof (Z_of_byte_range x0). pose proof (Z_of_byte_range x1).
  f_equal; [|f_equal].
  - rewrite <-(byte_of_Z_of_byte x0) at 2. unfold byte_of_Z.
    rewrite (Z.mul_comm (2 ^ 8)), Z.mod_add by lia. done.
  - rewrite <-(byte_of_Z_of_byte x1) at 2. f_equal.
    rewrite (Z.mul_comm (2 ^ 8)), Z.div_add, Z.div_small by lia. lia.
Qed.

Lemma byte_of_Z_mod z : byte_of_Z (z mod 256) = byte_of_Z z.
Proof. unfold byte_of_Z. by rewrite Z.mod_mod. Qed.

Lemma byte_of_Z_eq z x : z mod 256 = Z_of_byte x -> byte_of_Z z = x.
Proof. intros E. by rewrite <-byte_of_Z_mod, E, byte_of_Z_of_byte. Qed.

Lemma le32_un_le32 x0 x1 x2 x3 : le32 (un_le32 x0 x1 x2 x3) = [x0; x1; x2; x3].
Proof.
  unfold le32, un_le32. pose proof (Z_of_byte_range x0). pose proof (Z_of_byte_range x1).
  pose proof (Z_of_byte_range x2). pose proof (Z_of_byte_range x3).
  set (a := Z_of_byte x0) in *. set (b := Z_of_byte x1) in *. set (c := Z_of_byte x2) in *. set (d := Z_of_byte x3) in *.
  repeat f_equal; apply byte_of_Z_eq; fold a b c d; symmetry.
  - apply (Z.mod_unique_pos _ _ (b + 2 ^ 8 * c + 2 ^ 16 * d)); lia.
  - rewrite <-(Z.div_unique_pos _ (2 ^ 8) (b + 2 ^ 8 * c + 2 ^ 16 * d) a) by lia.
    apply (Z.mod_unique_pos _ _ (c + 2 ^ 8 * d)); lia.
  - rewrite <-(Z.div_unique_pos _ (2 ^ 16) (c + 2 ^ 8 * d) (a + 2 ^ 8 * b)) by lia.
    apply (Z.mod_unique_pos _ _ d); lia.
  - rewrite <-(Z.div_unique_pos _ (2 ^ 24) d (a + 2 ^ 8 * b + 2 ^ 16 * c)) by lia.
    apply (Z.mod_unique_pos _ _ 0); lia.
Qed.

Lemma get16_readable p n m :
  readable p m -> 0 <= n -> n + 2 <= m ->
  exists z, get16 p n = Some z /\ 0 <= z < 2 ^ 16 /\ points (p +! n) (bytes (le16 z)).
Proof.
  intros H ? ?. destruct (readable_sub p m n 2 H) as (s & Hs & Hl); [lia..|].
  destruct s as [|x0 [|x1 [|? ?]]]; cbn in Hl; try lia. exists (un_le16 x0 x1).
  rewrite le16_un_le16. split; [by apply get16_points|]. split; [apply un_le16_range|done].
Qed.

Lemma get32_readable p n m :
  readable p m -> 0 <= n -> n + 4 <= m ->
  exists z, get32 p n = Some z /\ 0 <= z < 2 ^ 32 /\ points (p +! n) (bytes (le32 z)).
Proof.
  intros H ? ?. destruct (readable_sub p m n 4 H) as (s & Hs & Hl); [lia..|].
  destruct s as [|x0 [|x1 [|x2 [|x3 [|? ?]]]]]; cbn in Hl; try lia. exists (un_le32 x0 x1 x2 x3).
  rewrite le32_un_le32. split; [by apply get32_points|]. split; [apply un_le32_range|done].
Qed.

(** Writing replaces the cells at the pointer and nothing else. *)
Lemma store_at p pre c post s :
  blk p = pre ++ c ++ post -> off p = Z.of_nat (length pre) -> length s = length c ->
  store p s = Some (mk_cptr (pre ++ s ++ post) (off p)).
Proof.
  intros E Ho Hl. unfold store. rewrite E, Ho, !length_app.
  replace (_ && _) with true by (symmetry; apply andb_true_intro; split; apply Z.leb_le; lia).
  rewrite Nat2Z.id, take_app_length, drop_app_add, Hl, drop_app_length. done.
Qed.

(** ** Specifications of routines that return a pointer *)

(** Whatever the allocator answers, the routine is defined; a pointer that is not
    null satisfies [Q], and it is not null when memory does not run out. *)
Definition uspec {A} (m : U (option A)) (Q : A -> Prop) : Prop :=
  forall e, exists r e', m e = Some (r, e') /\ match r with Some a => Q a | None => True end /\
    (allocs e = [] -> r <> None /\ e' = e).

Lemma uspec_ret {A} (a : A) (Q : A -> Prop) : Q a -> uspec (uret (Some a)) Q.
Proof. intros H e. exists (Some a), e. done. Qed.

Lemma uspec_bind {A B} (m : U (option A)) (k : A -> U (option B)) (Q : A -> Prop) (Q' : B -> Prop) :
  uspec m Q -> (forall a, Q a -> uspec (k a) Q') ->
  uspec (ubind m (fun r => match r with None => uret None | Some a => k a end)) Q'.
Proof.
  intros Hm Hk e. destruct (Hm e) as (r & e1 & E & HQ & Hf). unfold ubind. rewrite E. destruct r as [a|].
  - destruct (Hk a HQ e1) as (r & e2 & -> & HQ' & Hf'). exists r, e2. split_and!; [done..|].
    intros He. destruct (Hf He) as [_ ->]. auto.
  - exists None, e1. split_and!; [done..|]. intros He. by destruct (Hf He).
Qed.

Lemma uspec_map {A B} (m : U (option A)) (f : A -> B) (Q : A -> Prop) (Q' : B -> Prop) :
  uspec m Q -> (forall a, Q a -> Q' (f a)) ->
  uspec (ubind m (fun r => uret (match r with None => None | Some a => Some (f a) end))) Q'.
Proof.
  intros Hm Hf e. destruct (Hm e) as (r & e1 & E & HQ & He). unfold ubind. rewrite E. destruct r as [a|].
  - exists (Some (f a)), e1. split_and!; [done|auto|]. intros H. by destruct (He H).
  - exists None, e1. split_and!; [done..|]. intros H. by destruct (He H).
Qed.

Lemma uspec_try {A B} (o : option A) a (k : A -> U (option B)) (Q : B -> Prop) :
  o = Some a -> uspec (k a) Q -> uspec (ubind (try o) k) Q.
Proof. intros -> H. exact H. Qed.

Lemma uspec_memdup p n c : load p n = Some c -> uspec (memdup p n) (fun q => q = ptr_to c).
Proof.
  intros Hl e. unfold memdup, ubind, lift, try, uret. destruct (mem_alloc e) as [[] e'] eqn:E.
  - rewrite Hl. exists (Some (ptr_to c)), e'. split_and!; [done..|]. intros He. rewrite mem_alloc_full in E by done.
    by injection E as <-.
  - exists None, e'. split_and!; [done..|]. intros He. by rewrite mem_alloc_full in E.
Qed.

Lemma uspec_weaken {A} (m : U (option A)) (Q Q' : A -> Prop) : uspec m Q -> (forall a, Q a -> Q' a) -> uspec m Q'.
Proof.
  intros H Hq e. destruct (H e) as (r & e' & E & HQ & Hf). exists r, e'. split_and!; [done| |done].
  destruct r; auto.
Qed.
