(* ===== verification/Registry.v ===== *)
(** * The registry: server/registry.c

    Keys form a tree; a key has an array of subkeys and an array of values, both
    sorted by name without regard to case and searched by bisection.  A value also
    has its place in the order of enumeration.  Changing a key updates its time,
    marks it and its parents for saving and signals the events of those who asked
    to be notified.

    Keys are identified by their address, and an array by the elements in use
    together with its allocated size; a write beyond that size, an access to a
    missing key and a loop that does not end are [None].  Handles and references
    to keys are those of the handle tables and left out here.  Paths that start at
    the root of the object namespace, as those in symbolic links do, are looked up
    by other objects, and so are the redirections for 32-bit programs left out. *)

From Stdlib Require Import ZArith Lia.
From stdpp Require Import base list numbers option gmap.
From S2P Require Import Prelude Unicode.

#[local] Open Scope Z_scope.
#[local] Open Scope server_scope.

(** ** Constants *)

Definition STATUS_PENDING : Z := 0x103.

Definition STATUS_INVALID_HANDLE : Z := 0xC0000008.

Definition STATUS_INVALID_PARAMETER : Z := 0xC000000D.

Definition STATUS_ACCESS_DENIED : Z := 0xC0000022.

Definition STATUS_OBJECT_NAME_NOT_FOUND : Z := 0xC0000034.

Definition STATUS_OBJECT_NAME_EXISTS : Z := 0x40000000.

Definition STATUS_PREDEFINED_HANDLE : Z := 0x40000016.

Definition STATUS_OBJECT_NAME_COLLISION : Z := 0xC0000035.

Definition STATUS_OBJECT_PATH_SYNTAX_BAD : Z := 0xC000003B.

Definition STATUS_KEY_DELETED : Z := 0xC000017C.

Definition OBJ_OPENIF : Z := 0x80.

Definition OBJ_OPENLINK : Z := 0x100.

Definition STATUS_NO_MORE_ENTRIES : Z := 0x8000001A.

Definition STATUS_NAME_TOO_LONG : Z := 0xC0000106.

Definition STATUS_CANNOT_DELETE : Z := 0xC0000121.

Definition STATUS_CHILD_MUST_BE_VOLATILE : Z := 0xC0000181.

Definition KEY_VOLATILE : Z := 1.

Definition KEY_DELETED : Z := 2.

Definition KEY_DIRTY : Z := 4.

Definition KEY_SYMLINK : Z := 8.

Definition KEY_PREDEF : Z := 0x20.

Definition KEY_WOWSHARE : Z := 0x40.

Definition REG_OPTION_VOLATILE : Z := 1.

Definition REG_OPTION_CREATE_LINK : Z := 2.

Definition REG_NONE : Z := 0.

Definition REG_LINK : Z := 6.

Definition REG_NOTIFY_CHANGE_NAME : Z := 1.

Definition REG_NOTIFY_CHANGE_LAST_SET : Z := 4.

Definition MIN_SUBKEYS : Z := 8.

Definition MIN_VALUES : Z := 8.

Definition MAX_NAME_LEN : Z := 256.

Definition MAX_VALUE_LEN : Z := 16383.

(** "Wow6432Node" and "SymbolicLinkValue". *)
Definition wow6432node_str : list Z := [87; 111; 119; 54; 52; 51; 50; 78; 111; 100; 101].

Definition symlink_value : list Z := [83; 121; 109; 98; 111; 108; 105; 99; 76; 105; 110; 107; 86; 97; 108; 117; 101].

(** ** Data *)

(** struct key_value; the data are bytes, none when the pointer is null. *)
Record key_value := mk_value {
  v_name : list Z;
  v_type : Z;
  v_data : list Z;
  v_order : Z
}.

Record notify := mk_notify {
  n_events : list Z;
  n_subtree : bool;
  n_filter : Z;
  n_hkey : Z;
  n_process : Z
}.

(** struct key: [k_parent] is what get_parent returns; the class may be null. *)
Record key := mk_key {
  k_name : list Z;
  k_parent : option Z;
  k_class : option (list Z);
  subkeys : list Z;
  nb_subkeys : Z;
  wow6432node : option Z;
  values : list key_value;
  nb_values : Z;
  k_flags : Z;
  modif : Z;
  notify_list : list notify;
  timestamp_counter : Z
}.

(** The keys, the counter of changes, the time and the events signaled so far. *)
Record registry := mk_registry {
  keys : gmap Z key;
  change_timestamp_counter : Z;
  now : Z;
  signaled_events : list Z
}.

Definition set_keys (r : registry) (m : gmap Z key) : registry :=
  mk_registry m (change_timestamp_counter r) (now r) (signaled_events r).

Definition set_key (r : registry) (a : Z) (k : key) : registry := set_keys r (<[a := k]> (keys r)).

Definition signal_events (r : registry) (l : list Z) : registry :=
  mk_registry (keys r) (change_timestamp_counter r) (now r) (signaled_events r ++ l).

Definition set_values (k : key) (vs : list key_value) (nb : Z) : key :=
  mk_key (k_name k) (k_parent k) (k_class k) (subkeys k) (nb_subkeys k) (wow6432node k) vs nb (k_flags k) (modif k)
    (notify_list k) (timestamp_counter k).

Definition set_subkeys (k : key) (l : list Z) (nb : Z) : key :=
  mk_key (k_name k) (k_parent k) (k_class k) l nb (wow6432node k) (values k) (nb_values k) (k_flags k) (modif k)
    (notify_list k) (timestamp_counter k).

Definition set_wow6432node (k : key) (n : option Z) : key :=
  mk_key (k_name k) (k_parent k) (k_class k) (subkeys k) (nb_subkeys k) n (values k) (nb_values k) (k_flags k) (modif k)
    (notify_list k) (timestamp_counter k).

Definition set_flags (k : key) (f : Z) : key :=
  mk_key (k_name k) (k_parent k) (k_class k) (subkeys k) (nb_subkeys k) (wow6432node k) (values k) (nb_values k) f (modif k)
    (notify_list k) (timestamp_counter k).

Definition set_modif (k : key) (t : Z) : key :=
  mk_key (k_name k) (k_parent k) (k_class k) (subkeys k) (nb_subkeys k) (wow6432node k) (values k) (nb_values k) (k_flags k) t
    (notify_list k) (timestamp_counter k).

Definition set_notify (k : key) (l : list notify) : key :=
  mk_key (k_name k) (k_parent k) (k_class k) (subkeys k) (nb_subkeys k) (wow6432node k) (values k) (nb_values k) (k_flags k)
    (modif k) l (timestamp_counter k).

Definition set_timestamp (k : key) (t : Z) : key :=
  mk_key (k_name k) (k_parent k) (k_class k) (subkeys k) (nb_subkeys k) (wow6432node k) (values k) (nb_values k) (k_flags k)
    (modif k) (notify_list k) t.

Definition set_name (k : key) (n : list Z) (p : option Z) : key :=
  mk_key n p (k_class k) (subkeys k) (nb_subkeys k) (wow6432node k) (values k) (nb_values k) (k_flags k) (modif k)
    (notify_list k) (timestamp_counter k).

Definition set_order (v : key_value) (o : Z) : key_value := mk_value (v_name v) (v_type v) (v_data v) o.

(** ** Names *)

Section registry.
Variable casemap : Z -> Z.

(** The length of the first path element, in WCHARs. *)
Fixpoint get_path_element (name : list Z) : nat :=
  match name with
  | [] => O
  | c :: name => if c =? 92 then O else S (get_path_element name)
  end.

Definition is_wow6432node (name : list Z) : bool :=
  let len := get_path_element name in
  (len =? length wow6432node_str)%nat && (memicmp_strW casemap name wow6432node_str (length wow6432node_str) =? 0).

(** The comparison of two names: by the common part, then by length. *)
Definition cmp_name (a b : list Z) : Z :=
  let res := memicmp_strW casemap a b (Nat.min (length a) (length b)) in
  if res =? 0 then 2 * (Z.of_nat (length a) - Z.of_nat (length b)) else res.

(** The bisection: found or not, and the index of the name or the place to insert
    it at. *)
Fixpoint bisect_loop (fuel : nat) (names : list (list Z)) (name : list Z) (min max : Z) : option (bool * Z) :=
  match fuel with
  | O => None
  | S fuel =>
      if max <? min then Some (false, min)
      else
        let i := (min + max) / 2 in
        match names !! Z.to_nat i with
        | None => None
        | Some n =>
            let res := cmp_name n name in
            if res =? 0 then Some (true, i)
            else if 0 <? res then bisect_loop fuel names name min (i - 1)
            else bisect_loop fuel names name (i + 1) max
        end
  end.

(** Every round halves the range. *)
Definition find_name (names : list (list Z)) (name : list Z) : option (bool * Z) :=
  bisect_loop (S (length names)) names name 0 (Z.of_nat (length names) - 1).

(** ** Values *)

Definition find_value (k : key) (name : list Z) : option (bool * Z) := find_name (v_name <$> values k) name.

Definition grow_values (k : key) : M (key * bool) :=
  if negb (nb_values k =? 0) then
    let* ok := malloc in
    if negb ok then set_error STATUS_NO_MEMORY ;;; ret (k, false)
    else ret (set_values k (values k) (i32 (nb_values k + nb_values k / 2)), true)
  else
    let* ok := mem_alloc in
    if negb ok then ret (k, false) else ret (set_values k (values k) MIN_VALUES, true).

(** A new value at a given place; its type is what the memory held before. *)
Definition insert_value (k : key) (name : list Z) (index order : Z) : M (option (key * bool)) :=
  if MAX_VALUE_LEN * sizeof_WCHAR <? Z.of_nat (length name) * sizeof_WCHAR
  then set_error STATUS_NAME_TOO_LONG ;;; ret (Some (k, false))
  else
    let* (k, ok) := if Z.of_nat (length (values k)) =? nb_values k then grow_values k else ret (k, true) in
    if negb ok then ret (Some (k, false))
    else
      let* ok := match name with [] => ret true | _ :: _ => mem_alloc end in
      if negb ok then ret (Some (k, false))
      else if nb_values k <=? Z.of_nat (length (values k)) then ret None
      else
        let i := Z.to_nat index in
        let stale := match values k !! i with Some v => v_type v | None => REG_NONE end in
        let v := mk_value name stale [] (if order =? -1 then Z.of_nat (length (values k)) else u32 order) in
        ret (Some (set_values k (take i (values k) ++ v :: drop i (values k)) (nb_values k), true)).

(** ** Changes *)

(** do_notification without deletion: the events are signaled and dropped. *)
Definition do_notification (r : registry) (n : notify) : registry * notify :=
  (signal_events r (n_events n), mk_notify [] (n_subtree n) (n_filter n) (n_hkey n) (n_process n)).

(** Send the notifications of a key that are interested in the change. *)
Fixpoint notify_all (r : registry) (change : Z) (not_subtree : bool) (l : list notify) : registry * list notify :=
  match l with
  | [] => (r, [])
  | n :: l =>
      let '(r, n) := if (not_subtree || n_subtree n) && has_bits change (n_filter n) then do_notification r n else (r, n) in
      let '(r, l) := notify_all r change not_subtree l in
      (r, n :: l)
  end.

Definition check_notify (r : registry) (a : Z) (change : Z) (not_subtree : bool) : option registry :=
  match keys r !! a with
  | None => None
  | Some k =>
      let '(r, l) := notify_all r change not_subtree (notify_list k) in
      Some (set_key r a (set_notify k l))
  end.

Fixpoint dirty_loop (fuel : nat) (r : registry) (a : option Z) : option registry :=
  match a with
  | None => Some r
  | Some a =>
      match fuel, keys r !! a with
      | S fuel, Some k =>
          if has_bits (k_flags k) (Z.lor KEY_DIRTY KEY_VOLATILE) then Some r
          else dirty_loop fuel (set_key r a (set_timestamp (set_flags k (Z.lor (k_flags k) KEY_DIRTY)) (change_timestamp_counter r)))
                 (k_parent k)
      | _, _ => None
      end
  end.

(** Mark a key and its parents as modified: a marked key ends the loop. *)
Definition make_dirty (r : registry) (a : Z) : option registry :=
  dirty_loop (size (keys r)) (mk_registry (keys r) (change_timestamp_counter r + 1) (now r) (signaled_events r)) (Some a).

Fixpoint notify_parents (fuel : nat) (r : registry) (a : option Z) (change : Z) : option registry :=
  match a with
  | None => Some r
  | Some a =>
      match fuel with
      | O => None
      | S fuel =>
          r ← check_notify r a change false;
          k ← keys r !! a;
          notify_parents fuel r (k_parent k) change
      end
  end.

(** A chain of parents is no longer than the number of keys. *)
Definition touch_key (r : registry) (a : Z) (change : Z) : option registry :=
  k ← keys r !! a;
  r ← make_dirty (set_key r a (set_modif k (now r))) a;
  r ← check_notify r a change true;
  notify_parents (size (keys r)) r (k_parent k) change.

(** ** Operations on values *)

Definition set_value (r : registry) (a : Z) (name : list Z) (type : Z) (data : list Z) : M (option registry) :=
  match keys r !! a with
  | None => ret None
  | Some k =>
      if has_bits (k_flags k) KEY_PREDEF then set_error STATUS_INVALID_HANDLE ;;; ret (Some r)
      else
        match find_value k name with
        | None => ret None
        | Some (found, index) =>
            let value := if found then values k !! Z.to_nat index else None in
            if match value with
               | Some v => (v_type v =? type) && bool_decide (v_data v = data) && negb (bool_decide (v_data v = []))
               | None => false
               end then ret (Some r)
            else if has_bits (k_flags k) KEY_SYMLINK &&
                    (negb (type =? REG_LINK) || negb (length name =? length symlink_value)%nat ||
                     negb (memicmp_strW casemap name symlink_value (length name) =? 0))
            then set_error STATUS_ACCESS_DENIED ;;; ret (Some r)
            else
              let* ok := match data with [] => ret true | _ :: _ => mem_alloc end in
              if negb ok then ret (Some r)
              else
                let* inserted := if found then ret (Some (k, true)) else insert_value k name index (-1) in
                match inserted with
                | None => ret None
                | Some (k, false) => ret (Some (set_key r a k))
                | Some (k, true) =>
                    let set v := mk_value (v_name v) type data (v_order v) in
                    ret (touch_key (set_key r a (set_values k (alter set (Z.to_nat index) (values k)) (nb_values k))) a
                           REG_NOTIFY_CHANGE_LAST_SET)
                end
        end
  end.

(** The type, the length and the data that are returned. *)
Definition get_value (r : registry) (a : Z) (name : list Z) (max_size : Z) : M (option (Z * Z * list Z)) :=
  match keys r !! a with
  | None => ret None
  | Some k =>
      if has_bits (k_flags k) KEY_PREDEF then set_error STATUS_INVALID_HANDLE ;;; ret (Some (0, 0, []))
      else
        match find_value k name with
        | None => ret None
        | Some (false, _) => set_error STATUS_OBJECT_NAME_NOT_FOUND ;;; ret (Some (-1, 0, []))
        | Some (true, index) =>
            match values k !! Z.to_nat index with
            | None => ret None
            | Some v =>
                let len := Z.of_nat (length (v_data v)) in
                let* data := set_reply_data (take (Z.to_nat (Z.min len max_size)) (v_data v)) in
                ret (Some (v_type v, len, data))
            end
        end
  end.

(** The value at a place of the enumeration. *)
Definition value_at (k : key) (i : Z) : option key_value := list_find (fun v => v_order v = i) (values k) ≫= fun p => Some p.2.

Inductive value_info := KeyValueBasicInformation | KeyValueFullInformation | KeyValuePartialInformation | OtherValueInformation.

(** The bytes of a name. *)
Fixpoint wchars (name : list Z) : list Z :=
  match name with
  | [] => []
  | c :: name => Z.land c 0xff :: Z.shiftr c 8 :: wchars name
  end.

(** What enum_value replies: the type, the total size, the length of the name and
    the data. *)
Definition enum_value (r : registry) (a : Z) (i : Z) (info : value_info) (max_size : Z) : M (option (Z * Z * Z * list Z)) :=
  let none := Some (0, 0, 0, []) in
  match keys r !! a with
  | None => ret None
  | Some k =>
      if has_bits (k_flags k) KEY_PREDEF then set_error STATUS_INVALID_HANDLE ;;; ret none
      else if (i <? 0) || (Z.of_nat (length (values k)) - 1 <? i) then set_error STATUS_NO_MORE_ENTRIES ;;; ret none
      else
        match value_at k i with
        | None => set_error STATUS_OBJECT_NAME_NOT_FOUND ;;; ret none
        | Some v =>
            let name := wchars (v_name v) in
            let namelen := Z.of_nat (length name) in
            let len := Z.of_nat (length (v_data v)) in
            let reply (total namelen : Z) :=
              let maxlen := Z.min total max_size in
              let* room := set_reply_data_size maxlen in
              if negb room then ret (Some (v_type v, total, 0, []))
              else if namelen <? maxlen
              then ret (Some (v_type v, total, namelen,
                              take (Z.to_nat namelen) name ++ take (Z.to_nat (maxlen - namelen)) (v_data v)))
              else ret (Some (v_type v, total, maxlen, take (Z.to_nat maxlen) name)) in
            match info with
            | KeyValueBasicInformation => reply namelen namelen
            | KeyValueFullInformation => reply (namelen + len) namelen
            | KeyValuePartialInformation => reply len 0
            | OtherValueInformation => set_error STATUS_INVALID_PARAMETER ;;; ret (Some (v_type v, 0, 0, []))
            end
        end
  end.

Definition lower_order (order : Z) (v : key_value) : key_value :=
  if order <? v_order v then set_order v (v_order v - 1) else v.

(** [n] values move down by one, from place [i] on. *)
Fixpoint shift_down (n i : nat) (order : Z) (vs : list key_value) : list key_value :=
  match n with
  | O => vs
  | S n =>
      let vs := alter (lower_order order) i vs in
      match vs !! S i with
      | Some v => shift_down n (S i) order (<[i := v]> vs)
      | None => vs
      end
  end.

(** The first [n] values. *)
Fixpoint lower_first (n : nat) (order : Z) (vs : list key_value) : list key_value :=
  match n, vs with
  | S n, v :: vs => lower_order order v :: lower_first n order vs
  | _, _ => vs
  end.

(** Try to shrink an array. *)
Definition shrunk (nb last min : Z) : option Z :=
  if (min <? nb) && (last <? nb / 2) then Some (Z.max min (nb - nb / 3)) else None.

Definition delete_value (r : registry) (a : Z) (name : list Z) : M (option registry) :=
  match keys r !! a with
  | None => ret None
  | Some k =>
      if has_bits (k_flags k) KEY_PREDEF then set_error STATUS_INVALID_HANDLE ;;; ret (Some r)
      else
        match find_value k name with
        | None => ret None
        | Some (false, _) => set_error STATUS_OBJECT_NAME_NOT_FOUND ;;; ret (Some r)
        | Some (true, index) =>
            let i := Z.to_nat index in
            match values k !! i with
            | None => ret None
            | Some v =>
                let last := pred (length (values k)) in
                let vs := shift_down (last - i) i (v_order v) (values k) in
                let vs := take last (lower_first (S i) (v_order v) vs) in
                match touch_key (set_key r a (set_values k vs (nb_values k))) a REG_NOTIFY_CHANGE_LAST_SET with
                | None => ret None
                | Some r =>
                    match keys r !! a, shrunk (nb_values k) (Z.of_nat (length vs) - 1) MIN_VALUES with
                    | Some k, Some nb =>
                        let* ok := malloc in
                        ret (Some (if ok then set_key r a (set_values k (values k) nb) else r))
                    | Some _, None => ret (Some r)
                    | None, _ => ret None
                    end
                end
            end
        end
  end.
End registry.
