(* ===== verification/RegistryTree.v ===== *)
(** * The tree of registry keys: server/registry.c

    Subkeys, the lookup of paths (with lookup_named_object of object.c), creation,
    renaming and deletion of keys, notifications and the marks for saving. *)

From Stdlib Require Import ZArith Lia.
From stdpp Require Import base list numbers option gmap.
From S2P Require Import Prelude Unicode Memory Registry.

#[local] Open Scope Z_scope.
#[local] Open Scope server_scope.

Section tree.
Variable casemap : Z -> Z.

(** ** Subkeys *)

Fixpoint names_of (r : registry) (l : list Z) : option (list (list Z)) :=
  match l with
  | [] => Some []
  | a :: l =>
      k ← keys r !! a;
      names ← names_of r l;
      Some (k_name k :: names)
  end.

(** Found or not, and the index of the subkey or the place to insert it at. *)
Definition find_subkey (r : registry) (k : key) (name : list Z) : option (bool * Z) :=
  names ← names_of r (subkeys k);
  find_name casemap names name.

Definition grow_subkeys (k : key) : M (key * bool) :=
  if negb (nb_subkeys k =? 0) then
    let* ok := malloc in
    if negb ok then set_error STATUS_NO_MEMORY ;;; ret (k, false)
    else ret (set_subkeys k (subkeys k) (i32 (nb_subkeys k + nb_subkeys k / 2)), true)
  else
    let* ok := mem_alloc in
    if negb ok then ret (k, false) else ret (set_subkeys k (subkeys k) MIN_SUBKEYS, true).

(** Put key [a] of that name among the subkeys of [p]. *)
Definition key_link_name (r : registry) (a : Z) (name : list Z) (p : Z) : M (option (registry * bool)) :=
  match keys r !! p with
  | None => ret None
  | Some parent =>
      let* (parent, ok) := if Z.of_nat (length (subkeys parent)) =? nb_subkeys parent then grow_subkeys parent else ret (parent, true) in
      if negb ok then ret (Some (r, false))
      else
        match find_subkey r parent name with
        | None => ret None
        | Some (_, index) =>
            if nb_subkeys parent <=? Z.of_nat (length (subkeys parent)) then ret None
            else
              let i := Z.to_nat index in
              let parent := set_subkeys parent (take i (subkeys parent) ++ a :: drop i (subkeys parent)) (nb_subkeys parent) in
              let parent :=
                if negb (has_bits (k_flags parent) KEY_WOWSHARE) && is_wow6432node casemap name &&
                   negb (is_wow6432node casemap (k_name parent))
                then set_wow6432node parent (Some a) else parent in
              ret (Some (set_key r p parent, true))
        end
  end.

(** Take a key out of the subkeys of its parent; its name goes. *)
Definition key_unlink_name (r : registry) (a : Z) : M (option registry) :=
  match keys r !! a with
  | None => ret None
  | Some k =>
      match k_parent k with
      | None => ret (Some r)
      | Some p =>
          match keys r !! p with
          | None => ret None
          | Some parent =>
              match list_find (fun x => x = a) (subkeys parent) with
              | None => ret None
              | Some (i, _) =>
                  let l := take i (subkeys parent) ++ drop (S i) (subkeys parent) in
                  let parent := set_subkeys parent l (nb_subkeys parent) in
                  let parent := if bool_decide (wow6432node parent = Some a) then set_wow6432node parent None else parent in
                  let r := set_key (set_key r p parent) a (set_name k [] None) in
                  match shrunk (nb_subkeys parent) (Z.of_nat (length l) - 1) MIN_SUBKEYS with
                  | None => ret (Some r)
                  | Some nb =>
                      let* ok := malloc in
                      ret (Some (if ok then set_key r p (set_subkeys parent l nb) else r))
                  end
              end
          end
      end
  end.

(** *** Looking up paths

    A path is looked up element by element from a key.  [str] and [len] of what is
    left are a list, which is empty once the last element has been found.  The
    path of a symbolic link starts at the root of the object namespace:
    [lookup_absolute] is its lookup there, the key that it ends at and what is left
    of the path, or an error.  [attr] is without OBJ_KEY_WOW64. *)

(** The characters of the data of a value; an odd byte at the end is left out. *)
Fixpoint wstr (data : list Z) : list Z :=
  match data with
  | lo :: hi :: data => Z.lor lo (Z.shiftl hi 8) :: wstr data
  | _ => []
  end.

Fixpoint count_backslashes (name : list Z) : nat :=
  match name with
  | c :: name => if c =? 92 then S (count_backslashes name) else O
  | [] => O
  end.

Variable lookup_absolute : registry -> list Z -> M (option (Z * list Z)).

(** key_lookup_name returns a null pointer, or the key to go on with. *)
Inductive lookup_step := Stop (name : list Z) | Next (a : Z) (name : list Z).

Definition fail {A} (status : Z) (a : A) : M A := set_error status ;;; ret a.

(** The path in a symbolic link; a link without a value has none. *)
Definition link_path (k : key) : option (list Z) :=
  found ← find_value casemap k symlink_value;
  if found.1 : bool then v ← values k !! Z.to_nat found.2; Some (wstr (v_data v)) else Some [].

(** The part for a symbolic link. *)
Definition follow_symlink (r : registry) (k : key) (name : list Z) : U lookup_step :=
  let? path := try (link_path k) in
  if negb (bool_decide (head path = Some 92)) then lift (fail STATUS_OBJECT_NAME_NOT_FOUND (Stop name))
  else
    let? d := lift (lookup_absolute r path) in
    match d with
    | None => uret (Stop name)
    | Some (d, name_left) =>
        if bool_decide (name = []) then uret (Next d name_left)
        else if bool_decide (name_left = []) then uret (Next d name)
        else lift (fail STATUS_OBJECT_NAME_NOT_FOUND (Stop name))
    end.

Definition key_lookup_name (r : registry) (a : Z) (name : list Z) (attr : Z) : U lookup_step :=
  let? k := try (keys r !! a) in
  if has_bits (k_flags k) KEY_DELETED then lift (fail STATUS_KEY_DELETED (Stop name))
  else if has_bits (k_flags k) KEY_SYMLINK then
    if bool_decide (name = []) && has_bits attr OBJ_OPENLINK then uret (Stop name) else follow_symlink r k name
  else if bool_decide (name = []) then uret (Stop name)
  else
    let len := get_path_element name in
    if MAX_NAME_LEN <? Z.of_nat len then lift (fail STATUS_INVALID_PARAMETER (Stop name))
    else
      let next := (len + count_backslashes (drop len name))%nat in
      let? (found, index) := try (find_subkey r k (take len name)) in
      if (found : bool) then
        let? s := try (subkeys k !! Z.to_nat index) in
        uret (Next s (drop next name))
      else if (next <? length name)%nat then lift (fail STATUS_OBJECT_NAME_NOT_FOUND (Stop name))
      else uret (Stop (take len name)).

Fixpoint lookup_loop (fuel : nat) (r : registry) (a : Z) (name : list Z) (attr : Z) : U (Z * list Z) :=
  match fuel with
  | O => try None
  | S fuel =>
      let? s := key_lookup_name r a name attr in
      match s with
      | Stop name => uret (a, name)
      | Next b name => lookup_loop fuel r b name attr
      end
  end.

(** object.c [lookup_named_object] from a key: an empty path is the key itself.
    An element and the link that it may be are two steps. *)
Definition lookup_named_object (r : registry) (root : Z) (name : list Z) (attr : Z) : U (option (Z * list Z)) :=
  match name with
  | [] => let? _ := lift clear_error in uret (Some (root, []))
  | c :: _ =>
      if c =? 92 then lift (fail STATUS_OBJECT_PATH_SYNTAX_BAD None)
      else
        let? _ := lift clear_error in
        let? (a, name_left) := lookup_loop (2 * length name + 4) r root name attr in
        let? err := lift get_error in
        uret (if err =? 0 then Some (a, name_left) else None)
  end.

(** *** Creating *)

(** create_object of object.c and the rest of create_key_object: a new key at
    address [a], where [name] is a single path element that [p] does not have. *)
Definition new_key_object (r : registry) (a p : Z) (name : list Z) (options modif : Z) : M (option (registry * bool)) :=
  let* ok := mem_alloc in
  if negb ok then ret (Some (r, false))
  else
    let* ok := mem_alloc in
    if negb ok then ret (Some (r, false))
    else
      let* linked := key_link_name r a name p in
      match linked with
      | None => ret None
      | Some (r, false) => ret (Some (r, false))
      | Some (r, true) =>
          let link := if has_bits options REG_OPTION_CREATE_LINK then KEY_SYMLINK else 0 in
          let new flags := mk_key name (Some p) None [] 0 None [] 0 flags modif [] 0 in
          match keys r !! p with
          | None => ret None
          | Some parent =>
              if has_bits options REG_OPTION_VOLATILE then ret (Some (set_key r a (new (Z.lor link KEY_VOLATILE)), true))
              else if has_bits (k_flags parent) KEY_VOLATILE then
                set_error STATUS_CHILD_MUST_BE_VOLATILE ;;;
                let* r := key_unlink_name (set_key r a (new link)) a in
                match r with
                | None => ret None
                | Some r => ret (Some (set_keys r (delete a (keys r)), false))
                end
              else ret (Some (set_key r a (new (Z.lor link KEY_DIRTY)), true))
          end
      end.

(** With create_named_object of object.c; an empty name is for open_named_object,
    which finds the key itself.  [a] is the address of a new key. *)
Definition create_key_object (r : registry) (a p : Z) (name : list Z) (attr options modif : Z) : U (registry * option Z) :=
  let? _ := lift clear_error in
  let? found := lookup_named_object r p name attr in
  match found with
  | None => uret (r, None)
  | Some (b, []) =>
      if bool_decide (name = []) then uret (r, Some b)
      else if has_bits attr OBJ_OPENIF then lift (fail STATUS_OBJECT_NAME_EXISTS (r, Some b))
      else lift (fail STATUS_OBJECT_NAME_COLLISION (r, None))
  | Some (q, name) =>
      let? created := lift (new_key_object r a q name options modif) in
      let? (r, ok) := try created in
      uret (r, if (ok : bool) then Some a else None)
  end.

(** An existing link is opened itself rather than replaced by its target, and is no
    success when a link is to be created. *)
Definition key_attributes (options attributes : Z) : Z :=
  if has_bits options REG_OPTION_CREATE_LINK then Z.lor (Z.ldiff attributes OBJ_OPENIF) OBJ_OPENLINK else attributes.

(** For access with KEY_WOW64_64KEY, which requests of 64-bit threads have.  The parent
    is touched also when an empty name has opened the key [p]. *)
Definition create_key (r : registry) (a p : Z) (name : list Z) (options attributes : Z) : U (registry * option Z) :=
  let? (r, created) := create_key_object r a p name (key_attributes options attributes) options (now r) in
  match created with
  | None => uret (r, None)
  | Some b =>
      let? k := try (keys r !! b) in
      let? err := lift get_error in
      if err =? STATUS_OBJECT_NAME_EXISTS then
        if has_bits (k_flags k) KEY_PREDEF then lift (fail STATUS_PREDEFINED_HANDLE (r, Some b)) else uret (r, Some b)
      else
        let? parent := try (k_parent k) in
        let? r := try (touch_key r parent REG_NOTIFY_CHANGE_NAME) in
        uret (r, Some b)
  end.

(** ** Renaming *)

(** [for (i = cur; i < index; ++i) subkeys[i] = subkeys[i+1]], [n] times from [i]. *)
Fixpoint move_down (n i : nat) (l : list Z) : list Z :=
  match n with
  | O => l
  | S n => match l !! S i with Some x => move_down n (S i) (<[i := x]> l) | None => l end
  end.

(** [for (i = cur; i > index; --i) subkeys[i] = subkeys[i-1]], [n] times from [i]. *)
Fixpoint move_up (n i : nat) (l : list Z) : list Z :=
  match n with
  | O => l
  | S n => match l !! pred i with Some x => move_up n (pred i) (<[i := x]> l) | None => l end
  end.

(** [subkeys[i] = x]: beyond the elements in use the write is not seen. *)
Definition write_subkey (l : list Z) (nb : Z) (i : nat) (x : Z) : option (list Z) :=
  if (i <? length l)%nat then Some (<[i := x]> l) else if Z.of_nat i <? nb then Some l else None.

(** The two loops of rename_key: the key at [cur] goes to [index]; the array
    and the index at which the key is written. *)
Definition rename_array (l : list Z) (cur index : nat) : list Z * nat :=
  if (cur <? index)%nat && (1 <? index - cur)%nat then (move_down (pred index - cur) cur l, pred index)
  else if (index <? cur)%nat then (move_up (cur - index) cur l, index) else (l, index).

Definition rename_key (r : registry) (a : Z) (new_name : list Z) : M (option registry) :=
  match keys r !! a with
  | None => ret None
  | Some k =>
      let len := get_path_element new_name in
      if (len =? 0)%nat || negb (len =? length new_name)%nat || (MAX_NAME_LEN <? Z.of_nat len)
      then set_error STATUS_INVALID_PARAMETER ;;; ret (Some r)
      else
        match k_parent k with
        | None => set_error STATUS_CANNOT_DELETE ;;; ret (Some r)
        | Some p =>
            match keys r !! p with
            | None => ret None
            | Some parent =>
                match find_subkey r parent new_name with
                | None => ret None
                | Some (true, _) => set_error STATUS_CANNOT_DELETE ;;; ret (Some r)
                | Some (false, index) =>
                    if bool_decide (wow6432node parent = Some a) || is_wow6432node casemap new_name
                    then set_error STATUS_INVALID_PARAMETER ;;; ret (Some r)
                    else
                      let* ok := mem_alloc in
                      if negb ok then ret (Some r)
                      else
                        let index := Z.to_nat index in
                        let cur := match list_find (fun x => x = a) (subkeys parent) with
                                   | Some (i, _) => i
                                   | None => length (subkeys parent)
                                   end in
                        let '(l, index) := rename_array (subkeys parent) cur index in
                        match write_subkey l (nb_subkeys parent) index a with
                        | None => ret None
                        | Some l =>
                            ret (touch_key (set_key (set_key r p (set_subkeys parent l (nb_subkeys parent))) a
                                              (set_name k new_name (Some p))) a REG_NOTIFY_CHANGE_NAME)
                        end
                end
            end
        end
  end.

(** ** Deleting *)

(** What is left to do once the key has no subkeys. *)
Definition delete_leaf (r : registry) (a p : Z) : M (option (registry * bool)) :=
  match keys r !! a with
  | None => ret None
  | Some k =>
      let* r := key_unlink_name (set_key r a (set_flags k (Z.lor (k_flags k) KEY_DELETED))) a in
      match r with
      | None => ret None
      | Some r => ret (r ← touch_key r p REG_NOTIFY_CHANGE_NAME; Some (r, true))
      end
  end.

(** With [recurse] the subkeys go first, the last one first. *)
Fixpoint delete_key (fuel : nat) (r : registry) (a : Z) (recurse : bool) : M (option (registry * bool)) :=
  match fuel, keys r !! a with
  | S fuel, Some k =>
      if has_bits (k_flags k) KEY_DELETED then ret (Some (r, true))
      else
        match k_parent k with
        | None => set_error STATUS_ACCESS_DENIED ;;; ret (Some (r, false))
        | Some p =>
            if has_bits (k_flags k) KEY_PREDEF then set_error STATUS_INVALID_HANDLE ;;; ret (Some (r, false))
            else if recurse then
              let* emptied := delete_subkeys fuel r a in
              match emptied with
              | Some (r, true) => delete_leaf r a p
              | _ => ret emptied
              end
            else match subkeys k with
                 | _ :: _ => set_error STATUS_ACCESS_DENIED ;;; ret (Some (r, false))
                 | [] => delete_leaf r a p
                 end
        end
  | _, _ => ret None
  end
with delete_subkeys (fuel : nat) (r : registry) (a : Z) : M (option (registry * bool)) :=
  match fuel, keys r !! a with
  | S fuel, Some k =>
      match last (subkeys k) with
      | None => ret (Some (r, true))
      | Some s =>
          let* deleted := delete_key fuel r s true in
          match deleted with
          | Some (r, true) => delete_subkeys fuel r a
          | _ => ret deleted
          end
      end
  | _, _ => ret None
  end.

(** Every second call deletes a key or goes one level down. *)
Definition delete_tree (r : registry) (a : Z) (recurse : bool) : M (option (registry * bool)) :=
  delete_key (2 * size (keys r) + 1) r a recurse.

(** ** Saving *)

(** Clear the marks of a key and of its subkeys that have not changed since. *)
Fixpoint make_clean (fuel : nat) (r : registry) (a : Z) (timestamp : Z) : option registry :=
  match fuel, keys r !! a with
  | S fuel, Some k =>
      if has_bits (k_flags k) KEY_VOLATILE then Some r
      else if negb (has_bits (k_flags k) KEY_DIRTY) then Some r
      else
        let r := if timestamp_counter k <=? timestamp
                 then set_key r a (set_flags k (Z.ldiff (k_flags k) KEY_DIRTY)) else r in
        foldl (fun (r : option registry) s => r ← r; make_clean fuel r s timestamp) (Some r) (subkeys k)
  | _, _ => None
  end.

(** ** Notifications *)

Definition find_notify (k : key) (process hkey : Z) : option (nat * notify) :=
  list_find (fun n => n_process n = process /\ n_hkey n = hkey) (notify_list k).

(** Closing a handle sends and deletes its notification. *)
Definition key_close_handle (r : registry) (a process handle : Z) : option registry :=
  match keys r !! a with
  | None => None
  | Some k =>
      match find_notify k process handle with
      | None => Some r
      | Some (i, n) => Some (set_key (signal_events r (n_events n)) a (set_notify k (delete i (notify_list k))))
      end
  end.

(** The notification of a handle, new or old, gets one more event; resetting the
    event is left to the synchronisation objects. *)
Definition add_notification (r : registry) (a process hkey event : Z) (subtree : bool) (filter : Z) : M (option (registry * bool)) :=
  match keys r !! a with
  | None => ret None
  | Some k =>
      let* (i, l, ok) :=
        match find_notify k process hkey with
        | Some (i, _) => ret (i, notify_list k, true)
        | None =>
            let* ok := mem_alloc in
            ret (O, if ok then mk_notify [] subtree filter hkey process :: notify_list k else notify_list k, ok)
        end in
      if negb ok then ret (Some (r, false))
      else
        let* ok := malloc in
        if negb ok then set_error STATUS_NO_MEMORY ;;; ret (Some (set_key r a (set_notify k l), false))
        else
          let add n := mk_notify (n_events n ++ [event]) (n_subtree n) (n_filter n) (n_hkey n) (n_process n) in
          set_error STATUS_PENDING ;;; ret (Some (set_key r a (set_notify k (alter add i l)), true))
  end.
End tree.
