(* ===== verification/RegistrySearch.v ===== *)
(** * Names in the registry, and touching its keys

    Bisection of sorted names, and what touch_key and notifications change. *)

From Stdlib Require Import ZArith Lia Sorted.
From stdpp Require Import base list numbers option sorting gmap fin_sets.
From S2P Require Import Prelude Unicode UnicodeTheorems Registry.

#[local] Open Scope Z_scope.

(** * Names and bisection in the registry

    Names without regard to case are totally ordered, and the bisection of a
    sorted array finds a name or the place where it belongs. *)

Section names.
Context (casemap : Z -> Z).
#[local] Abbreviation cmp := (cmp_name casemap).
#[local] Abbreviation low := (to_lower casemap).

(** ** The order of names *)

Lemma cmp_cons x a y b : cmp (x :: a) (y :: b) = if low x - low y =? 0 then cmp a b else low x - low y.
Proof.
  unfold cmp_name. cbn [length Nat.min memicmp_strW]. destruct (Z.eqb_spec (low x - low y) 0) as [E|E]; cbn [negb].
  - replace (2 * (Z.of_nat (S (length a)) - Z.of_nat (S (length b)))) with (2 * (Z.of_nat (length a) - Z.of_nat (length b))) by lia. done.
  - by rewrite (proj2 (Z.eqb_neq _ _) E).
Qed.

Lemma cmp_nil_l b : cmp [] b = - 2 * Z.of_nat (length b).
Proof. unfold cmp_name. destruct b; cbn; lia. Qed.

Lemma cmp_nil_r a : cmp a [] = 2 * Z.of_nat (length a).
Proof. unfold cmp_name. destruct a; cbn; lia. Qed.

(** Equal names. *)
Lemma cmp_zero a : forall b, cmp a b = 0 <-> low <$> a = low <$> b.
Proof.
  induction a as [|x a IH]; intros [|y b]; rewrite ?cmp_nil_l, ?cmp_nil_r, ?cmp_cons; cbn; try (split; [lia|done]); [done|].
  destruct (Z.eqb_spec (low x - low y) 0) as [E|E].
  - rewrite IH. replace (low y) with (low x) by lia. unfold fmap. split; [by intros ->|by intros [= ->]].
  - split; [lia|]. intros [= H _]. lia.
Qed.

Lemma cmp_flip a : forall b, Z.sgn (cmp b a) = - Z.sgn (cmp a b).
Proof.
  induction a as [|x a IH]; intros [|y b]; rewrite ?cmp_nil_l, ?cmp_nil_r, ?cmp_cons; cbn [length]; try lia.
  destruct (Z.eqb_spec (low x - low y) 0), (Z.eqb_spec (low y - low x) 0); try lia. apply IH.
Qed.

Lemma cmp_trans a : forall b c, cmp a b <= 0 -> cmp b c <= 0 -> cmp a c <= 0 /\ (cmp a b < 0 \/ cmp b c < 0 -> cmp a c < 0).
Proof.
  induction a as [|x a IH]; intros [|y b] [|z c]; rewrite ?cmp_nil_l, ?cmp_nil_r, ?cmp_cons; cbn [length]; try lia.
  specialize (IH b c). destruct (Z.eqb_spec (low x - low y) 0), (Z.eqb_spec (low y - low z) 0), (Z.eqb_spec (low x - low z) 0); lia.
Qed.

Lemma cmp_gt a b : 0 < cmp a b <-> cmp b a < 0.
Proof. pose proof (cmp_flip a b). lia. Qed.

Lemma cmp_sym a b : cmp a b = 0 <-> cmp b a = 0.
Proof. pose proof (cmp_flip a b). lia. Qed.

(** Names that are equal compare alike. *)
Lemma cmp_eq_l a b c : cmp a b = 0 -> Z.sgn (cmp a c) = Z.sgn (cmp b c).
Proof.
  intros E. pose proof (proj1 (cmp_sym a b) E) as E'. pose proof (cmp_flip a c). pose proof (cmp_flip b c).
  pose proof (cmp_trans a b c). pose proof (cmp_trans b a c). pose proof (cmp_trans c a b). pose proof (cmp_trans c b a). lia.
Qed.

Definition name_lt (a b : list Z) : Prop := cmp a b < 0.

#[export] Instance name_lt_trans : Transitive name_lt.
Proof. intros a b c. unfold name_lt. pose proof (cmp_trans a b c). lia. Qed.

(** ** Sorted lists *)

Definition sorted_names (l : list (list Z)) : Prop := StronglySorted name_lt l.

Lemma sorted_lookup (l : list (list Z)) i j a b :
  sorted_names l -> l !! i = Some a -> l !! j = Some b -> (i < j)%nat -> name_lt a b.
Proof.
  intros H. revert i j. induction H as [|x l _ IH Hx]; intros [|i] [|j] Ha Hb Hij; try done; try lia.
  - injection Ha as <-. rewrite list.Forall_forall in Hx. by apply Hx, (list_elem_of_lookup_2 _ j).
  - apply (IH i j); [done..|lia].
Qed.

(** The order tells the places of two names. *)
Lemma sorted_place (l : list (list Z)) i j a b :
  sorted_names l -> l !! i = Some a -> l !! j = Some b -> name_lt a b -> (i < j)%nat.
Proof.
  intros H Ha Hb Hlt. unfold name_lt in Hlt. destruct (Nat.lt_trichotomy i j) as [?|[->|Hji]]; [done| |].
  - rewrite Ha in Hb. injection Hb as ->. assert (cmp b b = 0) by (by apply cmp_zero). lia.
  - pose proof (sorted_lookup l j i b a H Hb Ha Hji) as Hba. unfold name_lt in Hba. pose proof (cmp_gt a b). lia.
Qed.

Lemma sorted_same (l : list (list Z)) i j a b :
  sorted_names l -> l !! i = Some a -> l !! j = Some b -> cmp a b = 0 -> i = j.
Proof.
  intros H Ha Hb E. destruct (Nat.lt_trichotomy i j) as [Hij|[->|Hij]]; [|done|].
  - pose proof (sorted_lookup l i j a b H Ha Hb Hij) as Hlt. unfold name_lt in Hlt. lia.
  - pose proof (sorted_lookup l j i b a H Hb Ha Hij) as Hlt. unfold name_lt in Hlt. apply cmp_sym in E. lia.
Qed.

Lemma sorted_app (l l' : list (list Z)) :
  sorted_names (l ++ l') <-> sorted_names l /\ sorted_names l' /\ forall a b, a ∈ l -> b ∈ l' -> name_lt a b.
Proof.
  induction l as [|x l IH]; cbn.
  - split; [intros H; split; [constructor|split; [done|by intros a b ?%not_elem_of_nil]]|tauto].
  - split.
    + intros [H Hx]%StronglySorted_inv. rewrite list.Forall_app in Hx. destruct Hx as [H1 H2]. apply IH in H as (H3 & H4 & H5).
      split; [by constructor|]. split; [done|]. intros a b [->|Ha]%elem_of_cons Hb; [|by apply H5].
      rewrite list.Forall_forall in H2. by apply H2.
    + intros ([H1 Hx]%StronglySorted_inv & H2 & H3). constructor.
      * apply IH. split; [done|]. split; [done|]. intros a b Ha. apply H3. by right.
      * rewrite list.Forall_app. split; [done|]. apply list.Forall_forall. intros b. apply H3. by left.
Qed.

(** ** Bisection *)

(** Where a name belongs. *)
Record place (l : list (list Z)) (name : list Z) (i : nat) : Prop := {
  pl_bound : (i <= length l)%nat;
  pl_before : forall j n, l !! j = Some n -> (j < i)%nat -> name_lt n name;
  pl_after : forall j n, l !! j = Some n -> (i <= j)%nat -> name_lt name n
}.

Lemma sorted_before (l : list (list Z)) i j a b name :
  sorted_names l -> l !! i = Some a -> l !! j = Some b -> (j <= i)%nat -> name_lt a name -> name_lt b name.
Proof.
  intros H Ha Hb Hij Hlt. destruct (decide (j = i)) as [->|]; [congruence|]. transitivity a; [|done].
  apply (sorted_lookup l j i); [done..|lia].
Qed.

Lemma sorted_after (l : list (list Z)) i j a b name :
  sorted_names l -> l !! i = Some a -> l !! j = Some b -> (i <= j)%nat -> name_lt name a -> name_lt name b.
Proof.
  intros H Ha Hb Hij Hlt. destruct (decide (j = i)) as [->|]; [congruence|]. transitivity a; [done|].
  apply (sorted_lookup l i j); [done..|lia].
Qed.

Lemma bisect_loop_spec (l : list (list Z)) name : sorted_names l -> forall fuel lo hi,
  0 <= lo <= hi + 1 -> hi + 1 <= Z.of_nat (length l) -> (Z.to_nat (hi + 1 - lo) < fuel)%nat ->
  (forall j n, l !! j = Some n -> Z.of_nat j < lo -> name_lt n name) ->
  (forall j n, l !! j = Some n -> hi < Z.of_nat j -> name_lt name n) ->
  exists found i, bisect_loop casemap fuel l name lo hi = Some (found, Z.of_nat i) /\
    if found then exists n, l !! i = Some n /\ cmp n name = 0 else place l name i.
Proof.
  intros H fuel. induction fuel as [|fuel IH]; intros lo hi H1 H2 Hf Hlo Hhi; [lia|]. cbn [bisect_loop]. destruct (Z.ltb_spec hi lo) as [He|He].
  { exists false, (Z.to_nat lo). rewrite Z2Nat.id by lia. split; [done|]. split; [lia|..].
    - intros j n Hj Hl. apply (Hlo j); [done|lia].
    - intros j n Hj Hl. apply (Hhi j); [done|lia]. }
  pose proof (Z.div_lt_upper_bound (lo + hi) 2 (hi + 1) ltac:(lia) ltac:(lia)). pose proof (Z.div_le_lower_bound (lo + hi) 2 lo ltac:(lia) ltac:(lia)).
  set (i := (lo + hi) / 2) in *. destruct (lookup_lt_is_Some_2 l (Z.to_nat i)) as [n Hn]; [lia|]. rewrite Hn.
  destruct (Z.eqb_spec (cmp n name) 0) as [E|E].
  { exists true, (Z.to_nat i). rewrite Z2Nat.id by lia. split; [done|]. by exists n. }
  destruct (Z.ltb_spec 0 (cmp n name)) as [Hs|Hs].
  - apply IH; [lia..|done|]. intros j m Hj Hl. apply (sorted_after l (Z.to_nat i) j n); [done..|lia|]. by apply cmp_gt.
  - apply IH; [lia..| |done]. intros j m Hj Hl. apply (sorted_before l (Z.to_nat i) j n); [done..|lia|]. unfold name_lt. lia.
Qed.

Lemma find_name_spec (l : list (list Z)) name : sorted_names l ->
  exists found i, find_name casemap l name = Some (found, Z.of_nat i) /\
    if found then exists n, l !! i = Some n /\ cmp n name = 0 else place l name i.
Proof.
  intros H. apply bisect_loop_spec; [done|lia..| |].
  - intros j n _ Hl. lia.
  - intros j n Hj%lookup_lt_Some Hl. lia.
Qed.

(** Putting a name where it belongs keeps the order. *)
Lemma insert_sorted (l : list (list Z)) name i : sorted_names l -> place l name i -> sorted_names (take i l ++ name :: drop i l).
Proof.
  intros H P. rewrite <-(take_drop i l) in H. apply sorted_app in H as (H1 & H2 & H3). apply sorted_app. split; [done|]. split.
  - constructor; [done|]. apply list.Forall_forall. intros b [j Hj]%list_elem_of_lookup. rewrite lookup_drop in Hj. apply (pl_after _ _ _ P (i + j)); [done|lia].
  - assert (Hb : forall a, a ∈ take i l -> name_lt a name).
    { intros a [j Hj]%list_elem_of_lookup. apply lookup_take_Some in Hj as [Hj Hl]. by apply (pl_before _ _ _ P j). }
    intros a b Ha [->|Hb']%elem_of_cons; [by apply Hb|]. by apply H3.
Qed.

Lemma remove_sorted (l : list (list Z)) i : sorted_names l -> sorted_names (take i l ++ drop (S i) l).
Proof.
  intros H. destruct (decide (i < length l)%nat) as [Hi|Hi].
  - destruct (lookup_lt_is_Some_2 l i Hi) as [x Hx]. rewrite <-(take_drop_middle l i x Hx) in H. apply sorted_app in H as (H1 & H2 & H3).
    apply StronglySorted_inv in H2 as [H2 _]. apply sorted_app. split; [done|]. split; [done|]. intros a b Ha Hb. apply H3; [done|by right].
  - rewrite drop_ge, app_nil_r by lia. by rewrite take_ge by lia.
Qed.
End names.

(** * Changes to registry keys

    touch_key always returns: it stamps the key, marks it and its parents for
    saving and signals the events of those interested; the tree and the values
    stay as they are. *)

(** ** What touching a key leaves alone *)

(** A key without its times, its mark for saving and its notifications. *)
Definition contents (k : key) : key :=
  mk_key (k_name k) (k_parent k) (k_class k) (subkeys k) (nb_subkeys k) (wow6432node k) (values k) (nb_values k)
    (Z.ldiff (k_flags k) KEY_DIRTY) 0 [] 0.

Record touched (r r' : registry) : Prop := {
  to_contents : forall a, contents <$> keys r' !! a = contents <$> keys r !! a
}.

#[export] Instance touched_preorder : PreOrder touched.
Proof. split; [by intros r; split|]. intros r1 r2 r3 H1 H2. split. intros a. by rewrite (to_contents _ _ H2), (to_contents _ _ H1). Qed.

Lemma set_key_lookup r a k b : keys (set_key r a k) !! b = if decide (b = a) then Some k else keys r !! b.
Proof. cbn. case_decide as E; [subst; by rewrite lookup_insert_eq|]. by rewrite lookup_insert_ne. Qed.

Lemma set_key_touched r a k k' : keys r !! a = Some k -> contents k' = contents k -> touched r (set_key r a k').
Proof. intros Hk E. split. intros b. rewrite set_key_lookup. case_decide; [subst; by rewrite Hk; cbn; rewrite E|done]. Qed.

Lemma touched_lookup r r' a k : touched r r' -> keys r !! a = Some k -> exists k', keys r' !! a = Some k' /\ contents k' = contents k.
Proof.
  intros T Hk. pose proof (to_contents _ _ T a) as E. rewrite Hk in E. destruct (keys r' !! a) as [k'|]; [|done]. exists k'.
  split; [done|]. by apply (inj Some) in E.
Qed.

Lemma touched_sym r r' : touched r r' -> touched r' r.
Proof. intros T. split. intros a. by rewrite (to_contents _ _ T). Qed.

(** The flags other than the mark for saving. *)
Lemma contents_flags k k' m : contents k' = contents k -> Z.land KEY_DIRTY m = 0 -> has_bits (k_flags k') m = has_bits (k_flags k) m.
Proof.
  intros [= _ _ _ _ _ _ _ _ E] Hm. unfold has_bits. f_equal. f_equal.
  assert (H : forall f, Z.land f m = Z.land (Z.ldiff f KEY_DIRTY) m).
  { intros f. apply Z.bits_inj'. intros n Hn. rewrite !Z.land_spec, Z.ldiff_spec.
    assert (Z.testbit KEY_DIRTY n && Z.testbit m n = false) as Hb by (rewrite <-Z.land_spec, Hm; apply Z.bits_0).
    destruct (Z.testbit f n), (Z.testbit KEY_DIRTY n), (Z.testbit m n); done. }
  by rewrite (H (k_flags k')), (H (k_flags k)), E.
Qed.

(** ** Chains of parents *)

Inductive chain (r : registry) : option Z -> list Z -> Prop :=
  | chain_nil : chain r None []
  | chain_cons a k l : keys r !! a = Some k -> chain r (k_parent k) l -> chain r (Some a) (a :: l).

(** Following the parents of a key ends. *)
Definition chains_ok (r : registry) : Prop := forall a, is_Some (keys r !! a) -> exists l, chain r (Some a) l.

Lemma chain_det r a l l' : chain r a l -> chain r a l' -> l = l'.
Proof.
  intros H. revert l'. induction H as [|a k l Hk _ IH]; intros l' H'; inversion H' as [|? k' l'' Hk' H'']; subst; [done|].
  rewrite Hk in Hk'. injection Hk' as <-. f_equal. by apply IH.
Qed.

Lemma chain_suffix r a l b : chain r a l -> b ∈ l -> exists l', chain r (Some b) l' /\ l' `suffix_of` l.
Proof.
  induction 1 as [|a k l Hk H IH]; [by intros ?%not_elem_of_nil|]. intros [->|Hb]%elem_of_cons.
  - exists (a :: l). split; [by econstructor|done].
  - destruct (IH Hb) as (l' & H1 & H2). exists l'. split; [done|]. by apply suffix_cons_r.
Qed.

Lemma chain_nodup r a l : chain r a l -> NoDup l.
Proof.
  induction 1 as [|a k l Hk H IH]; [constructor|]. constructor; [|done]. intros Ha.
  destruct (chain_suffix _ _ _ _ H Ha) as (l' & H1 & H2%suffix_length).
  assert (l' = a :: l) as -> by (eapply chain_det; [done|by econstructor]). cbn in H2. lia.
Qed.

Lemma chain_keys r a l b : chain r a l -> b ∈ l -> is_Some (keys r !! b).
Proof. induction 1 as [|a k l Hk H IH]; [by intros ?%not_elem_of_nil|]. intros [->|Hb]%elem_of_cons; [by eexists|auto]. Qed.

Lemma parents_length r a l : chain r a l -> (length l <= size (keys r))%nat.
Proof.
  intros H. rewrite <-size_dom. rewrite <-(size_list_to_set (C := gset Z) l) by (by eapply chain_nodup). apply subseteq_size.
  intros b Hb%elem_of_list_to_set. apply elem_of_dom. by eapply chain_keys.
Qed.

Lemma touched_chain r r' a l : touched r r' -> chain r a l -> chain r' a l.
Proof.
  intros T. induction 1 as [|a k l Hk H IH]; [constructor|]. destruct (touched_lookup _ _ _ _ T Hk) as (k' & Hk' & E).
  econstructor; [done|]. assert (k_parent k' = k_parent k) as -> by exact (f_equal k_parent E). done.
Qed.

Lemma touched_chains r r' : touched r r' -> chains_ok r -> chains_ok r'.
Proof.
  intros T C a [k Hk]. destruct (touched_lookup _ _ _ _ (touched_sym _ _ T) Hk) as (k0 & Hk0 & _).
  destruct (C a ltac:(by eexists)) as [l Hl]. exists l. by eapply touched_chain.
Qed.

Lemma touched_size r r' : touched r r' -> size (keys r') = size (keys r).
Proof.
  intros T. rewrite <-!size_dom. f_equal. apply leibniz_equiv. intros a. rewrite !elem_of_dom. pose proof (to_contents _ _ T a) as E.
  destruct (keys r' !! a), (keys r !! a); try done; by split; intros [].
Qed.

(** ** Marks for saving *)

(** The same notifications and events. *)
Definition same_notify (r r' : registry) : Prop :=
  (forall a, notify_list <$> keys r' !! a = notify_list <$> keys r !! a) /\ signaled_events r' = signaled_events r.

Lemma dirty_contents k t : contents (set_timestamp (set_flags k (Z.lor (k_flags k) KEY_DIRTY)) t) = contents k.
Proof.
  unfold contents. cbn. f_equal. apply Z.bits_inj'. intros n Hn. rewrite !Z.ldiff_spec, Z.lor_spec.
  by destruct (Z.testbit (k_flags k) n), (Z.testbit KEY_DIRTY n).
Qed.

Lemma dirty_loop_run fuel : forall r a l, chain r a l -> (length l <= fuel)%nat ->
  exists r', dirty_loop fuel r a = Some r' /\ touched r r' /\ same_notify r r'.
Proof.
  induction fuel as [|fuel IH]; intros r a l H Hf; inversion H as [|b k l' Hk Hl]; subst; cbn [dirty_loop length] in *; try lia; try (by exists r).
  rewrite Hk. destruct (has_bits (k_flags k) _); [by exists r|]. set (r1 := set_key r b _).
  assert (T1 : touched r r1) by (apply (set_key_touched r b k); [done|apply dirty_contents]).
  destruct (IH r1 (k_parent k) l' (touched_chain _ _ _ _ T1 Hl) ltac:(lia)) as (r' & E & T & N1 & N2). exists r'. split; [done|].
  split; [by transitivity r1|]. split; [|done]. intros c. rewrite N1. unfold r1. rewrite set_key_lookup. case_decide; [subst; by rewrite Hk|done].
Qed.

Lemma make_dirty_run r a l : chain r (Some a) l -> exists r', make_dirty r a = Some r' /\ touched r r' /\ same_notify r r'.
Proof.
  intros H. unfold make_dirty. set (r1 := mk_registry _ _ _ _). assert (T1 : touched r r1) by (by split).
  destruct (dirty_loop_run (size (keys r)) r1 (Some a) l (touched_chain _ _ _ _ T1 H) (parents_length _ _ _ H)) as (r' & E & T & N).
  exists r'. split; [done|]. split; [by transitivity r1|done].
Qed.

(** ** Notifications *)

Definition interested (change : Z) (not_subtree : bool) (n : notify) : bool :=
  (not_subtree || n_subtree n) && has_bits change (n_filter n).

(** The events that a change signals at a key. *)
Definition sends (r : registry) (change : Z) (not_subtree : bool) (a : Z) : list Z :=
  match keys r !! a with
  | Some k => mjoin (n_events <$> filter (fun n => interested change not_subtree n = true) (notify_list k))
  | None => []
  end.

Lemma signal_events_app r l l' : signal_events (signal_events r l) l' = signal_events r (l ++ l').
Proof. unfold signal_events. cbn. by rewrite app_assoc. Qed.

Lemma signal_events_nil r : signal_events r [] = r.
Proof. destruct r. unfold signal_events. cbn. by rewrite app_nil_r. Qed.

Lemma notify_all_run change ns l : forall r,
  exists l', notify_all r change ns l =
    (signal_events r (mjoin (n_events <$> filter (fun n => interested change ns n = true) l)), l').
Proof.
  induction l as [|n l IH]; intros r; cbn [notify_all]; [exists []; by rewrite signal_events_nil|]. fold (interested change ns n).
  destruct (interested change ns n) eqn:E; cbn [do_notification].
  - destruct (IH (signal_events r (n_events n))) as [l' ->]. eexists. rewrite filter_cons, decide_True by done. cbn. by rewrite signal_events_app.
  - destruct (IH r) as [l' ->]. eexists. by rewrite filter_cons, decide_False by congruence.
Qed.

Lemma check_notify_run r a k change ns : keys r !! a = Some k ->
  exists r', check_notify r a change ns = Some r' /\ touched r r' /\ signaled_events r' = signaled_events r ++ sends r change ns a /\
    forall b, b <> a -> keys r' !! b = keys r !! b.
Proof.
  intros Hk. unfold check_notify, sends. rewrite Hk. destruct (notify_all_run change ns (notify_list k) r) as [l' ->]. eexists. split; [done|].
  split; [|split; [done|]].
  - set (ev := mjoin _). transitivity (signal_events r ev); [by split|]. by apply (set_key_touched _ a k).
  - intros b Hb. rewrite set_key_lookup, decide_False by done. done.
Qed.

(** Those interested in the subtree, along the parents. *)
Lemma notify_parents_run change fuel : forall r a l, chain r a l -> (length l <= fuel)%nat ->
  exists r', notify_parents fuel r a change = Some r' /\ touched r r' /\
    signaled_events r' = signaled_events r ++ mjoin (sends r change false <$> l) /\ forall b, b ∉ l -> keys r' !! b = keys r !! b.
Proof.
  induction fuel as [|fuel IH]; intros r a l H Hf; pose proof (chain_nodup _ _ _ H) as Hn; inversion H as [|b k l' Hk Hl]; subst;
    cbn [notify_parents length] in *; try lia; try (exists r; cbn; by rewrite app_nil_r).
  destruct (check_notify_run r b k change false Hk) as (r1 & -> & T1 & S1 & O1). cbn [mbind option_bind].
  destruct (touched_lookup _ _ _ _ T1 Hk) as (k1 & Hk1 & E1). rewrite Hk1. cbn [mbind option_bind].
  assert (k_parent k1 = k_parent k) as -> by exact (f_equal k_parent E1).
  destruct (IH r1 (k_parent k) l' (touched_chain _ _ _ _ T1 Hl) ltac:(lia)) as (r' & E & T & S & O). exists r'. split; [done|].
  split; [by transitivity r1|]. apply list.NoDup_cons in Hn as [Hb Hn]. split.
  - rewrite S, S1, <-app_assoc. cbn. do 2 f_equal. f_equal. apply list_fmap_ext. intros i c Hc. unfold sends. rewrite O1; [done|].
    intros ->. by apply Hb, (list_elem_of_lookup_2 _ i).
  - intros c [Hc1 Hc2]%not_elem_of_cons. rewrite O, O1 by done. done.
Qed.

(** ** touch_key *)

(** The events that touching [a] signals; [l] are its parents. *)
Definition touch_events (r : registry) (a : Z) (l : list Z) (change : Z) : list Z :=
  sends r change true a ++ mjoin (sends r change false <$> l).

Lemma sends_same r r' change ns a : same_notify r r' -> sends r' change ns a = sends r change ns a.
Proof.
  intros [N _]. unfold sends. specialize (N a). destruct (keys r' !! a), (keys r !! a); try done. apply (inj Some) in N. by rewrite N.
Qed.

Lemma touch_key_run r a l change : chain r (Some a) (a :: l) ->
  exists r', touch_key r a change = Some r' /\ touched r r' /\ signaled_events r' = signaled_events r ++ touch_events r a l change.
Proof.
  intros H. pose proof (chain_nodup _ _ _ H) as [Ha Hn]%list.NoDup_cons. inversion H as [|? k ? Hk Hl]; subst. unfold touch_key. rewrite Hk. cbn [mbind option_bind].
  set (r0 := set_key r a (set_modif k (now r))). assert (T0 : touched r r0) by (by apply (set_key_touched r a k)).
  assert (N0 : same_notify r r0).
  { split; [|done]. intros b. unfold r0. rewrite set_key_lookup. case_decide; [subst; by rewrite Hk|done]. }
  destruct (make_dirty_run r0 a (a :: l) (touched_chain _ _ _ _ T0 H)) as (r1 & -> & T1 & N1). cbn [mbind option_bind].
  assert (T01 : touched r r1) by (by transitivity r0). destruct (touched_lookup _ _ _ _ T01 Hk) as (k1 & Hk1 & E1).
  assert (N01 : same_notify r r1) by (destruct N0 as [Na Nb], N1 as [Nc Nd]; split; [intros b; by rewrite Nc|by rewrite Nd]).
  destruct (check_notify_run r1 a k1 change true Hk1) as (r2 & -> & T2 & S2 & O2). cbn [mbind option_bind].
  assert (T02 : touched r r2) by (by transitivity r1). rewrite (touched_size _ _ T02).
  destruct (notify_parents_run change (size (keys r)) r2 (k_parent k) l (touched_chain _ _ _ _ T02 Hl)) as (r' & E & T & S & _).
  { pose proof (parents_length _ _ _ H) as Hs. cbn in Hs. lia. }
  exists r'. split; [done|]. split; [by transitivity r2|]. unfold touch_events.
  rewrite S, S2, (sends_same r r1), (proj2 N01), <-app_assoc by done. do 2 f_equal. f_equal. apply list_fmap_ext. intros i b Hb.
  rewrite <-(sends_same r r1) by done. unfold sends. rewrite O2; [done|]. intros ->. by apply Ha, (list_elem_of_lookup_2 _ i).
Qed.
