(* ===== verification/RegistryValues.v ===== *)
(** * Values of registry keys

    set_value, get_value and delete_value as operations on a map from names,
    without regard to case, to values, and the order of enumeration. *)

From Stdlib Require Import ZArith Lia Sorted.
From stdpp Require Import base list numbers option gmap.
From S2P Require Import Prelude Unicode UnicodeTheorems Registry RegistrySearch.

#[local] Open Scope Z_scope.
#[local] Open Scope server_scope.

Section values.
Context (casemap : Z -> Z).
#[local] Abbreviation cmp := (cmp_name casemap).

(** The arrays: sorted, and within their allocated size. *)
Record values_ok (k : key) : Prop := {
  vo_sorted : sorted_names casemap (v_name <$> values k);
  vo_length : Z.of_nat (length (values k)) <= nb_values k;
  vo_size : nb_values k = 0 \/ MIN_VALUES <= nb_values k < 2 ^ 31
}.

(** The places of the enumeration are taken once each. *)
Definition orders_ok (k : key) : Prop := v_order <$> values k ≡ₚ seqZ 0 (Z.of_nat (length (values k))).

(** The value of that name. *)
Definition value_of (vs : list key_value) (name : list Z) : option key_value :=
  snd <$> list_find (fun v => cmp (v_name v) name = 0) vs.

Lemma value_of_lookup (vs : list key_value) name i v :
  sorted_names casemap (v_name <$> vs) -> vs !! i = Some v -> cmp (v_name v) name = 0 -> value_of vs name = Some v.
Proof.
  intros H Hv E. unfold value_of. destruct (list_find _ vs) as [[j w]|] eqn:Hf; cbn.
  - apply list_find_Some in Hf as (Hw & Ew & _). assert (j = i) as ->; [|congruence].
    apply (sorted_same casemap (v_name <$> vs) j i (v_name w) (v_name v)); rewrite ?list_lookup_fmap, ?Hw, ?Hv; try done.
    apply cmp_zero in E, Ew. apply cmp_zero. congruence.
  - apply list_find_None in Hf. rewrite list.Forall_forall in Hf. destruct (Hf v); [by eapply list_elem_of_lookup_2|done].
Qed.

Lemma value_of_none (vs : list key_value) name : (forall v, v ∈ vs -> cmp (v_name v) name <> 0) -> value_of vs name = None.
Proof.
  intros H. unfold value_of. destruct (list_find _ vs) as [[j w]|] eqn:Hf; [|done]. apply list_find_Some in Hf as (Hw & Ew & _).
  destruct (H w); [by eapply list_elem_of_lookup_2|done].
Qed.

Lemma value_of_some (vs : list key_value) name v : value_of vs name = Some v -> v ∈ vs /\ cmp (v_name v) name = 0.
Proof.
  unfold value_of. destruct (list_find _ vs) as [[j w]|] eqn:Hf; [|done]. intros [= <-]. apply list_find_Some in Hf as (Hw & Ew & _).
  split; [by eapply list_elem_of_lookup_2|done].
Qed.

(** find_value finds the value, or the place for it. *)
Lemma find_value_run k name : values_ok k ->
  exists i, match value_of (values k) name with
            | Some v => find_value casemap k name = Some (true, Z.of_nat i) /\ values k !! i = Some v
            | None => find_value casemap k name = Some (false, Z.of_nat i) /\ place casemap (v_name <$> values k) name i
            end.
Proof.
  intros V. destruct (find_name_spec casemap (v_name <$> values k) name (vo_sorted _ V)) as ([] & i & E & H); exists i.
  - destruct H as (n & Hn & Ec). rewrite list_lookup_fmap in Hn. destruct (values k !! i) as [v|] eqn:Hv; [|done]. injection Hn as <-.
    by rewrite (value_of_lookup _ name i v (vo_sorted _ V) Hv Ec).
  - rewrite value_of_none; [done|]. intros v [j Hj]%list_elem_of_lookup Ec.
    assert (Hn : (v_name <$> values k) !! j = Some (v_name v)) by (by rewrite list_lookup_fmap, Hj).
    destruct (decide (j < i)%nat) as [Hl|Hl].
    + pose proof (pl_before _ _ _ _ H j _ Hn Hl) as Hlt. unfold name_lt in Hlt. lia.
    + pose proof (pl_after _ _ _ _ H j _ Hn ltac:(lia)) as Hlt. unfold name_lt in Hlt. apply cmp_sym in Ec. lia.
Qed.

(** ** Reading *)

(** What get_value replies for a value of that type and data: both lengths count,
    and without memory for the reply there is no data, and STATUS_NO_MEMORY. *)
Definition reply_value (type : Z) (data : list Z) (max_size : Z) : M (option (Z * Z * list Z)) :=
  let* sent := set_reply_data (take (Z.to_nat (Z.min (Z.of_nat (length data)) max_size)) data) in
  ret (Some (type, Z.of_nat (length data), sent)).

Lemma get_value_run r a k name max_size e :
  keys r !! a = Some k -> values_ok k -> has_bits (k_flags k) KEY_PREDEF = false ->
  get_value casemap r a name max_size e =
    match value_of (values k) name with
    | Some v => reply_value (v_type v) (v_data v) max_size e
    | None => (Some (-1, 0, []), mk_senv STATUS_OBJECT_NAME_NOT_FOUND (allocs e))
    end.
Proof.
  intros Hk V Hp. unfold get_value. rewrite Hk, Hp. destruct (find_value_run k name V) as [i Hi].
  destruct (value_of (values k) name) as [v|]; destruct Hi as [-> Hi]; [|done]. by rewrite Nat2Z.id, Hi.
Qed.

(** ** Writing *)

(** Equal names have the same value. *)
Lemma value_of_ext (vs : list key_value) a b : cmp a b = 0 -> value_of vs a = value_of vs b.
Proof.
  intros E. unfold value_of. induction vs as [|v vs IH]; [done|]. cbn [list_find].
  assert (cmp (v_name v) a = 0 <-> cmp (v_name v) b = 0) as Hab by (apply cmp_zero in E; rewrite !cmp_zero, E; done).
  destruct (decide (cmp (v_name v) a = 0)) as [H|H], (decide (cmp (v_name v) b = 0)) as [H'|H']; try tauto.
  destruct (list_find (fun v => cmp (v_name v) a = 0) vs) as [[]|], (list_find (fun v => cmp (v_name v) b = 0) vs) as [[]|]; cbn in *; congruence.
Qed.

(** A value of an array that is sorted is found, any other name is not affected. *)
Lemma value_of_update (vs vs' : list key_value) name v :
  sorted_names casemap (v_name <$> vs) -> sorted_names casemap (v_name <$> vs') -> v ∈ vs' -> cmp (v_name v) name = 0 ->
  (forall w, cmp (v_name w) name <> 0 -> w ∈ vs' <-> w ∈ vs) ->
  forall name', value_of vs' name' = if decide (cmp name' name = 0) then Some v else value_of vs name'.
Proof.
  intros H H' Hv E Hs name'. destruct (decide (cmp name' name = 0)) as [E'|E'].
  - apply list_elem_of_lookup in Hv as [i Hi]. apply (value_of_lookup vs' name' i v H' Hi). apply cmp_zero in E, E'. apply cmp_zero. congruence.
  - assert (Hne : forall w, cmp (v_name w) name' = 0 -> cmp (v_name w) name <> 0).
    { intros w Hw Hn. apply E', cmp_zero. apply cmp_zero in Hw, Hn. congruence. }
    destruct (value_of vs name') as [w|] eqn:Hw.
    + apply value_of_some in Hw as [Hin Hw]. apply Hs in Hin; [|by apply Hne]. apply list_elem_of_lookup in Hin as [i Hi].
      by apply (value_of_lookup vs' name' i w).
    + apply value_of_none. intros w Hin Hc. apply Hs in Hin; [|by apply Hne]. apply list_elem_of_lookup in Hin as [i Hi].
      by rewrite (value_of_lookup vs name' i w) in Hw.
Qed.

(** A new element of the array. *)
Definition with_new (vs : list key_value) (i : nat) (v : key_value) : list key_value := take i vs ++ v :: drop i vs.

Lemma with_new_names vs i v : v_name <$> with_new vs i v = take i (v_name <$> vs) ++ v_name v :: drop i (v_name <$> vs).
Proof. unfold with_new. by rewrite fmap_app, fmap_cons, fmap_take, fmap_drop. Qed.

Lemma with_new_elem vs i v w : w ∈ with_new vs i v <-> w = v \/ w ∈ vs.
Proof.
  unfold with_new. rewrite elem_of_app, elem_of_cons. rewrite <-(take_drop i vs) at 3. rewrite elem_of_app. tauto.
Qed.

Lemma with_new_length vs i v : length (with_new vs i v) = S (length vs).
Proof. unfold with_new. rewrite length_app. cbn. rewrite length_take, length_drop. lia. Qed.

(** Growing an array that is full. *)
Lemma grow_values_run k e :
  values_ok k -> Z.of_nat (length (values k)) = nb_values k -> nb_values k < 2 ^ 30 ->
  exists k' ok e', grow_values k e = ((k', ok), e') /\
    (if ok then values_ok k' /\ Z.of_nat (length (values k')) < nb_values k' /\ exists nb, k' = set_values k (values k) nb else k' = k) /\
    (allocs e = [] -> ok = true /\ e' = e).
Proof.
  intros V El Hs. unfold grow_values, mem_alloc, malloc, bind. destruct (vo_size _ V) as [Hz|[Hm _]].
  - rewrite Hz. cbn. destruct (allocs e) as [|[] l] eqn:Ea; cbn; (eexists _, _, _; split; [done|]; split; [|done]); [| |done].
    all: assert (length (values k) = O) as Hl by lia; split; [|split; [cbn; unfold MIN_VALUES; lia|by eexists]].
    all: split; [apply V|cbn; unfold MIN_VALUES; lia|right; cbn; unfold MIN_VALUES; lia].
  - unfold MIN_VALUES in Hm. rewrite (proj2 (Z.eqb_neq _ _)) by lia. cbn [negb].
    pose proof (Z.div_le_lower_bound (nb_values k) 2 4 ltac:(lia) ltac:(lia)). pose proof (Z.div_le_upper_bound (nb_values k) 2 (nb_values k) ltac:(lia) ltac:(lia)).
    assert (Hi : i32 (nb_values k + nb_values k / 2) = nb_values k + nb_values k / 2) by (unfold i32; rewrite Z.mod_small; lia).
    destruct (allocs e) as [|[] l] eqn:Ea; cbn; (eexists _, _, _; split; [done|]; split; [|done]); [| |done].
    all: split; [|split; [cbn; rewrite Hi; lia|by eexists]]. all: split; [apply V|cbn; lia|right; unfold MIN_VALUES; cbn; lia].
Qed.

(** What insert_value stores, before its type and data are set. *)
Definition new_value (vs : list key_value) (name : list Z) (i : nat) (order : Z) : key_value :=
  mk_value name (match vs !! i with Some v => v_type v | None => REG_NONE end) []
    (if order =? -1 then Z.of_nat (length vs) else u32 order).

Lemma insert_value_run k name i order e :
  values_ok k -> place casemap (v_name <$> values k) name i -> Z.of_nat (length (values k)) < 2 ^ 30 ->
  exists k' ok e', insert_value k name (Z.of_nat i) order e = (Some (k', ok), e') /\ values_ok k' /\
    (exists nb, k' = set_values k (if ok then with_new (values k) i (new_value (values k) name i order) else values k) nb) /\
    (allocs e = [] -> Z.of_nat (length name) <= MAX_VALUE_LEN -> ok = true /\ e' = e).
Proof.
  intros V P Hs. unfold insert_value. assert (Hself : k = set_values k (values k) (nb_values k)) by (by destruct k).
  destruct (Z.ltb_spec (MAX_VALUE_LEN * sizeof_WCHAR) (Z.of_nat (length name) * sizeof_WCHAR)) as [Hl|Hl].
  { eexists k, false, _. split; [done|]. split; [done|]. split; [by eexists|]. unfold sizeof_WCHAR in Hl. lia. }
  assert (Hg : exists k1 ok1 e1, (if Z.of_nat (length (values k)) =? nb_values k then grow_values k else ret (k, true)) e = ((k1, ok1), e1) /\
    (if ok1 then values_ok k1 /\ Z.of_nat (length (values k1)) < nb_values k1 /\ exists nb, k1 = set_values k (values k) nb else k1 = k) /\
    (allocs e = [] -> ok1 = true /\ e1 = e)).
  { destruct (Z.eqb_spec (Z.of_nat (length (values k))) (nb_values k)) as [El|El]; [apply grow_values_run; [done..|lia]|].
    eexists k, true, e. split; [done|]. split; [|done]. split; [done|]. split; [pose proof (vo_length _ V); lia|by eexists]. }
  destruct Hg as (k1 & ok1 & e1 & E1 & H1 & A1). rewrite (bind_run _ _ _ _ _ E1). destruct ok1; cbn [negb].
  2: { subst k1. eexists k, false, e1. split; [done|]. split; [done|]. split; [by eexists|]. intros Ha. by destruct (A1 Ha). }
  destruct H1 as (V1 & L1 & nb & ->). cbn [values nb_values set_values] in *.
  assert (Hm : exists ok2 e2, match name with [] => ret true | _ :: _ => mem_alloc end e1 = (ok2, e2) /\ (allocs e1 = [] -> ok2 = true /\ e2 = e1)).
  { destruct name; [by eexists true, e1|]. unfold mem_alloc, malloc, bind. destruct (allocs e1) as [|[] l]; cbn; by eexists _, _. }
  destruct Hm as (ok2 & e2 & E2 & A2). rewrite (bind_run _ _ _ _ _ E2). destruct ok2; cbn [negb].
  2: { eexists _, false, e2. split; [done|]. split; [done|]. split; [by eexists|]. intros Ha _. destruct (A1 Ha) as [_ ->]. by destruct (A2 Ha). }
  destruct (Z.leb_spec nb (Z.of_nat (length (values k)))); [lia|].
  eexists (set_values k (with_new (values k) i (new_value (values k) name i order)) nb), true, e2. split; [by rewrite Nat2Z.id|]. split; [|split; [by eexists|]].
  - split; cbn [values nb_values set_values].
    + rewrite with_new_names. apply insert_sorted; [apply V|done].
    + rewrite with_new_length. lia.
    + destruct (vo_size _ V1) as [Hz|?]; [cbn in Hz; lia|by right].
  - intros Ha _. destruct (A1 Ha) as [_ ->]. by destruct (A2 Ha) as [_ ->].
Qed.

(** *** Setting the type and the data of an element *)

Lemma alter_keeps {A} (f : key_value -> A) (g : key_value -> key_value) i (vs : list key_value) :
  (forall v, f (g v) = f v) -> f <$> alter g i vs = f <$> vs.
Proof.
  intros H. apply list_eq. intros j. rewrite !list_lookup_fmap. destruct (decide (i = j)) as [<-|].
  - rewrite list_lookup_alter_eq. destruct (vs !! i); [|done]. cbn. by rewrite H.
  - by rewrite list_lookup_alter_ne.
Qed.

Lemma alter_elem (g : key_value -> key_value) i (vs : list key_value) v w :
  vs !! i = Some v -> w ∈ alter g i vs <-> w = g v \/ exists j, j <> i /\ vs !! j = Some w.
Proof.
  intros Hv. rewrite list_elem_of_lookup. split.
  - intros [j Hj]. destruct (decide (i = j)) as [<-|Hne]; [rewrite list_lookup_alter_eq, Hv in Hj; left; by injection Hj|].
    rewrite list_lookup_alter_ne in Hj by done. right. by exists j.
  - intros [->|(j & Hne & Hj)]; [exists i; by rewrite list_lookup_alter_eq, Hv|exists j; by rewrite list_lookup_alter_ne].
Qed.

Lemma alter_with_new g i (vs : list key_value) v : (i <= length vs)%nat -> alter g i (with_new vs i v) = with_new vs i (g v).
Proof.
  intros Hi. unfold with_new. replace i with (length (take i vs) + 0)%nat at 1 by (rewrite length_take; lia). by rewrite alter_app_r.
Qed.

Lemma with_new_orders vs i v : v_order v = Z.of_nat (length vs) ->
  v_order <$> vs ≡ₚ seqZ 0 (Z.of_nat (length vs)) -> v_order <$> with_new vs i v ≡ₚ seqZ 0 (Z.of_nat (length (with_new vs i v))).
Proof.
  intros Hv H. rewrite with_new_length, seqZ_S, Z.add_0_l. transitivity (Z.of_nat (length vs) :: (v_order <$> vs)).
  - unfold with_new. rewrite fmap_app, fmap_cons, Hv, <-Permutation_middle, <-fmap_app, take_drop. done.
  - rewrite H. apply Permutation_cons_append.
Qed.

(** *** set_value *)

Definition stored (vs : list key_value) (name : list Z) (type : Z) (data : list Z) : key_value :=
  match value_of vs name with
  | Some v => mk_value (v_name v) type data (v_order v)
  | None => mk_value name type data (Z.of_nat (length vs))
  end.

(** The new array. *)
Record updates (vs vs' : list key_value) (name : list Z) (type : Z) (data : list Z) : Prop := {
  ud_sorted : sorted_names casemap (v_name <$> vs');
  ud_elem : stored vs name type data ∈ vs';
  ud_others : forall w, cmp (v_name w) name <> 0 -> w ∈ vs' <-> w ∈ vs;
  ud_orders : v_order <$> vs ≡ₚ seqZ 0 (Z.of_nat (length vs)) -> v_order <$> vs' ≡ₚ seqZ 0 (Z.of_nat (length vs'))
}.

Lemma stored_name vs name type data : cmp (v_name (stored vs name type data)) name = 0.
Proof.
  unfold stored. destruct (value_of vs name) as [v|] eqn:Hv; [by apply value_of_some in Hv as [_ ?]|]. by apply cmp_zero.
Qed.

Lemma updates_value vs vs' name type data :
  sorted_names casemap (v_name <$> vs) -> updates vs vs' name type data ->
  forall name', value_of vs' name' = if decide (cmp name' name = 0) then Some (stored vs name type data) else value_of vs name'.
Proof. intros H U. apply value_of_update; [done|apply U|apply U|apply stored_name|apply U]. Qed.

Definition set_data (type : Z) (data : list Z) (v : key_value) : key_value := mk_value (v_name v) type data (v_order v).

Lemma change_updates vs i v name type data :
  sorted_names casemap (v_name <$> vs) -> value_of vs name = Some v -> vs !! i = Some v ->
  updates vs (alter (set_data type data) i vs) name type data.
Proof.
  intros H Hv Hi. pose proof (value_of_some _ _ _ Hv) as [_ Ev]. split.
  - by rewrite alter_keeps.
  - apply (alter_elem _ i vs v); [done|]. left. unfold stored. by rewrite Hv.
  - intros w Hw. rewrite (alter_elem _ i vs v) by done. split.
    + intros [->|(j & _ & Hj)]; [done|by eapply list_elem_of_lookup_2].
    + intros [j Hj]%list_elem_of_lookup. right. exists j. split; [|done]. intros ->. congruence.
  - rewrite alter_keeps by done. by rewrite length_alter.
Qed.

Lemma new_updates vs i name type data :
  sorted_names casemap (v_name <$> vs) -> value_of vs name = None -> place casemap (v_name <$> vs) name i ->
  updates vs (alter (set_data type data) i (with_new vs i (new_value vs name i (-1)))) name type data.
Proof.
  intros H Hv P. pose proof (pl_bound _ _ _ _ P) as Hi. rewrite length_fmap in Hi. rewrite alter_with_new by done. split.
  - rewrite with_new_names. by apply insert_sorted.
  - apply with_new_elem. left. unfold stored. by rewrite Hv.
  - intros w Hw. rewrite with_new_elem. split; [intros [->|?]; [|done]|by right]. destruct Hw. by apply cmp_zero.
  - by apply with_new_orders.
Qed.

(** Setting what the value holds already does nothing. *)
Definition identical (vs : list key_value) (name : list Z) (type : Z) (data : list Z) : bool :=
  match value_of vs name with
  | Some v => (v_type v =? type) && bool_decide (v_data v = data) && negb (bool_decide (v_data v = []))
  | None => false
  end.

Lemma identical_updates vs name type data :
  sorted_names casemap (v_name <$> vs) -> identical vs name type data = true -> updates vs vs name type data.
Proof.
  unfold identical. intros H. destruct (value_of vs name) as [v|] eqn:Hv; [|done]. rewrite !andb_true_iff, Z.eqb_eq, bool_decide_eq_true.
  intros [[E1 E2] _]. pose proof (value_of_some _ _ _ Hv) as [Hin _]. split; try done. unfold stored. rewrite Hv. by destruct v; cbn in *; subst.
Qed.

Lemma chain_set_key r a k k' x l : keys r !! a = Some k -> k_parent k' = k_parent k -> chain r x l -> chain (set_key r a k') x l.
Proof.
  intros Hk E. induction 1 as [|b kb l Hb _ IH]; [constructor|]. destruct (decide (b = a)) as [->|Hne].
  - rewrite Hk in Hb. injection Hb as <-. rewrite <-E in IH. econstructor; [by rewrite set_key_lookup, decide_True|done].
  - econstructor; [by rewrite set_key_lookup, decide_False|done].
Qed.

Lemma touch_events_same r r' a l change : same_notify r r' -> touch_events r' a l change = touch_events r a l change.
Proof.
  intros N. unfold touch_events. rewrite (sends_same r r') by done. do 2 f_equal. apply list_fmap_ext. intros i b _. by apply sends_same.
Qed.

(** Changing the arrays of a key and touching it. *)
Lemma store_run r a l k k' change :
  chain r (Some a) (a :: l) -> keys r !! a = Some k -> k_parent k' = k_parent k -> notify_list k' = notify_list k ->
  exists r' k'', touch_key (set_key r a k') a change = Some r' /\ keys r' !! a = Some k'' /\ contents k'' = contents k' /\
    signaled_events r' = signaled_events r ++ touch_events r a l change /\
    forall b, b <> a -> contents <$> keys r' !! b = contents <$> keys r !! b.
Proof.
  intros C Hk Hp Hn. set (r1 := set_key r a k'). assert (H1 : keys r1 !! a = Some k') by (unfold r1; by rewrite set_key_lookup, decide_True).
  destruct (touch_key_run r1 a l change (chain_set_key r a k k' _ _ Hk Hp C)) as (r' & E & T & S).
  destruct (touched_lookup _ _ _ _ T H1) as (k'' & Hk'' & Ec). exists r', k''. split; [done|]. split; [done|]. split; [done|]. split.
  - rewrite S, (touch_events_same r r1); [done|]. split; [|done]. intros b. unfold r1. rewrite set_key_lookup. case_decide; [subst; by rewrite Hk; cbn; rewrite Hn|done].
  - intros b Hb. rewrite (to_contents _ _ T). unfold r1. by rewrite set_key_lookup, decide_False.
Qed.

Lemma contents_values_ok k k' : contents k' = contents k -> values_ok k -> values_ok k'.
Proof. intros E V. pose proof (f_equal values E) as E1. pose proof (f_equal nb_values E) as E2. cbn in E1, E2. split; rewrite ?E1, ?E2; apply V. Qed.

Lemma values_ok_same k vs : values_ok k -> v_name <$> vs = v_name <$> values k -> values_ok (set_values k vs (nb_values k)).
Proof.
  intros V E. split; cbn; [rewrite E; apply V| |apply V]. apply (f_equal length) in E. rewrite !length_fmap in E. rewrite E. apply V.
Qed.

Record set_result (r r' : registry) (a : Z) (l : list Z) (k k' : key) (name : list Z) (type : Z) (data : list Z) (ok : bool) : Prop := {
  sr_key : keys r' !! a = Some k';
  sr_rest : contents k' = contents (set_values k (values k') (nb_values k'));
  sr_ok : values_ok k';
  sr_values : if ok then updates (values k) (values k') name type data else values k' = values k;
  sr_events : signaled_events r' = signaled_events r ++
    (if ok && negb (identical (values k) name type data) then touch_events r a l REG_NOTIFY_CHANGE_LAST_SET else []);
  sr_others : forall b, b <> a -> contents <$> keys r' !! b = contents <$> keys r !! b
}.

(** Nothing but the allocated size has changed. *)
Lemma set_result_failed r a l k nb name type data :
  keys r !! a = Some k -> values_ok (set_values k (values k) nb) ->
  set_result r (set_key r a (set_values k (values k) nb)) a l k (set_values k (values k) nb) name type data false.
Proof.
  intros Hk V. split; try done; [by rewrite set_key_lookup, decide_True|cbn; by rewrite app_nil_r|]. intros b Hb. by rewrite set_key_lookup, decide_False.
Qed.

Lemma data_alloc (data : list Z) (e : senv) :
  exists ok e', match data with [] => ret true | _ :: _ => mem_alloc end e = (ok, e') /\ (allocs e = [] -> ok = true /\ e' = e).
Proof. destruct data; [by eexists true, e|]. unfold mem_alloc, malloc, bind. destruct (allocs e) as [|[] l]; cbn; by eexists _, _. Qed.

(** A symbolic link takes nothing but its target. *)
Definition link_denied (k : key) (name : list Z) (type : Z) : bool :=
  has_bits (k_flags k) KEY_SYMLINK &&
  (negb (type =? REG_LINK) || negb (length name =? length symlink_value)%nat || negb (memicmp_strW casemap name symlink_value (length name) =? 0)).

Lemma set_value_run r a l k name type data e :
  chain r (Some a) (a :: l) -> keys r !! a = Some k -> values_ok k -> Z.of_nat (length (values k)) < 2 ^ 30 ->
  has_bits (k_flags k) KEY_PREDEF = false -> link_denied k name type = false ->
  exists r' e' k' ok, set_value casemap r a name type data e = (Some r', e') /\ set_result r r' a l k k' name type data ok /\
    (allocs e = [] -> Z.of_nat (length name) <= MAX_VALUE_LEN -> ok = true /\ e' = e).
Proof.
  intros C Hk V Hs Hp Hl. unfold set_value. rewrite Hk, Hp. fold (link_denied k name type). rewrite Hl. pose proof (vo_sorted _ V) as Hsort.
  assert (Hself : k = set_values k (values k) (nb_values k)) by (by destruct k).
  assert (Hsame : set_key r a k = r) by (destruct r as [m ? ? ?]; unfold set_key, set_keys; cbn in *; by rewrite insert_id).
  assert (Hid : identical (values k) name type data = true -> set_result r r a l k k name type data true).
  { intros E. split; try done; [by apply identical_updates|by rewrite E, app_nil_r]. }
  assert (Hfail : set_result r r a l k k name type data false).
  { pose proof (set_result_failed r a l k (nb_values k) name type data Hk) as F. rewrite <-Hself, Hsame in F. auto. }
  destruct (find_value_run k name V) as [i Hi]. unfold identical in Hid |- *. destruct (value_of (values k) name) as [v|] eqn:Hv; destruct Hi as [-> Hi].
  - rewrite Nat2Z.id, Hi. destruct (_ && _ && _) eqn:Et; [exists r, e, k, true; by auto|].
    destruct (data_alloc data e) as (ok & e1 & E1 & A1). rewrite (bind_run _ _ _ _ _ E1). destruct ok; cbn [negb].
    2: { exists r, e1, k, false. split; [done|]. split; [done|]. intros Ha. by destruct (A1 Ha). }
    fold (set_data type data). pose proof (change_updates (values k) i v name type data Hsort Hv Hi) as U.
    set (k1 := set_values k (alter (set_data type data) i (values k)) (nb_values k)).
    destruct (store_run r a l k k1 REG_NOTIFY_CHANGE_LAST_SET C Hk eq_refl eq_refl) as (r' & k' & Et' & Hk' & Ec & Se & Ho).
    unfold bind, ret. cbn [values nb_values]. fold k1. rewrite Et'. exists r', e1, k', true. split; [done|]. split; [|intros Ha _; by destruct (A1 Ha)].
    assert (Ev : values k' = values k1) by exact (f_equal values Ec). assert (Enb : nb_values k' = nb_values k1) by exact (f_equal nb_values Ec).
    split; try done.
    + rewrite Ec, Ev, Enb. done.
    + apply (contents_values_ok k1); [done|]. apply values_ok_same; [done|by rewrite alter_keeps].
    + by rewrite Ev.
    + rewrite Se. unfold identical. by rewrite Hv, Et.
  - destruct (data_alloc data e) as (ok & e1 & E1 & A1). rewrite (bind_run _ _ _ _ _ E1). destruct ok; cbn [negb].
    2: { exists r, e1, k, false. split; [done|]. split; [done|]. intros Ha. by destruct (A1 Ha). }
    destruct (insert_value_run k name i (-1) e1 V Hi Hs) as (k1 & ok & e2 & E2 & V1 & (nb & Ek1) & A2). rewrite (bind_run _ _ _ _ _ E2).
    assert (A : allocs e = [] -> Z.of_nat (length name) <= MAX_VALUE_LEN -> ok = true /\ e2 = e).
    { intros Ha Hn. destruct (A1 Ha) as [_ ->]. by apply A2. }
    destruct ok; cbn beta iota.
    2: { exists (set_key r a k1), e2, k1, false. split; [done|]. subst k1. split; [by apply set_result_failed|done]. }
    fold (set_data type data). pose proof (new_updates (values k) i name type data Hsort Hv Hi) as U.
    set (k2 := set_values k1 (alter (set_data type data) (Z.to_nat (Z.of_nat i)) (values k1)) (nb_values k1)).
    assert (Ek2 : k2 = set_values k (alter (set_data type data) i (with_new (values k) i (new_value (values k) name i (-1)))) nb)
      by (unfold k2; subst k1; by rewrite Nat2Z.id).
    destruct (store_run r a l k k2 REG_NOTIFY_CHANGE_LAST_SET C Hk ltac:(by rewrite Ek2) ltac:(by rewrite Ek2)) as (r' & k' & Et' & Hk' & Ec & Se & Ho).
    unfold ret. rewrite Et'. exists r', e2, k', true. split; [done|]. split; [|done].
    assert (Ev : values k' = values k2) by exact (f_equal values Ec). assert (Enb : nb_values k' = nb_values k2) by exact (f_equal nb_values Ec).
    split; try done.
    + rewrite Ec, Ev, Enb, Ek2. done.
    + apply (contents_values_ok k2); [done|]. unfold k2. apply values_ok_same; [done|by rewrite alter_keeps].
    + by rewrite Ev, Ek2.
    + rewrite Se. unfold identical. by rewrite Hv.
Qed.
End values.
