(* ===== verification/RegistryOrder.v ===== *)
(** * Deleting and enumerating registry values

    delete_value removes exactly one name; enumeration visits every value once as
    long as the places are numbered without gaps, which deletion does not always
    preserve. *)

From Stdlib Require Import ZArith Lia Sorted.
From stdpp Require Import base list numbers option gmap.
From S2P Require Import Prelude Unicode UnicodeTheorems Registry RegistrySearch RegistryValues.

#[local] Open Scope Z_scope.
#[local] Open Scope server_scope.

(** ** The array after a deletion *)

Lemma insert_alter (g : key_value -> key_value) i v (vs : list key_value) : <[i := v]> (alter g i vs) = <[i := v]> vs.
Proof.
  apply list_eq. intros j. destruct (decide (i = j)) as [<-|].
  - destruct (decide (i < length vs)%nat); [rewrite !list_lookup_insert_eq; rewrite ?length_alter; done|].
    by rewrite !lookup_ge_None_2 by (rewrite length_insert, ?length_alter; lia).
  - by rewrite !list_lookup_insert_ne, list_lookup_alter_ne.
Qed.

(** Moving the values down drops value [i]; what is lowered on the way is
    overwritten. *)
Lemma shift_down_take n : forall i order (vs : list key_value), length vs = S (i + n) ->
  take (i + n) (shift_down n i order vs) = take i vs ++ drop (S i) vs.
Proof.
  induction n as [|n IH]; intros i order vs Hl; cbn [shift_down].
  - rewrite Nat.add_0_r in *. by rewrite drop_ge, app_nil_r by lia.
  - rewrite list_lookup_alter_ne by lia. destruct (lookup_lt_is_Some_2 vs (S i)) as [v Hv]; [lia|]. rewrite Hv, insert_alter.
    replace (i + S n)%nat with (S i + n)%nat in * by lia. rewrite IH by (rewrite length_insert; lia).
    rewrite drop_insert_lt by lia. rewrite (take_S_r _ i v) by (apply list_lookup_insert_eq; lia). rewrite take_insert_ge by lia.
    rewrite <-app_assoc. cbn. by rewrite (drop_S vs v (S i)).
Qed.

Lemma shift_down_length n : forall i order (vs : list key_value), length (shift_down n i order vs) = length vs.
Proof.
  induction n as [|n IH]; intros i order vs; [done|]. cbn [shift_down]. case_match; [|by rewrite length_alter].
  by rewrite IH, length_insert, length_alter.
Qed.

Lemma lower_first_take m : forall n order (vs : list key_value), take n (lower_first m order vs) = lower_first m order (take n vs).
Proof. induction m as [|m IH]; intros [|n] order [|v vs]; try done. cbn. by rewrite IH. Qed.

(** What is left of the array after value [i] is deleted. *)
Definition without (vs : list key_value) (i : nat) (order : Z) : list key_value := lower_first (S i) order (take i vs ++ drop (S i) vs).

Lemma delete_array (vs : list key_value) i order : (i < length vs)%nat ->
  take (pred (length vs)) (lower_first (S i) order (shift_down (pred (length vs) - i) i order vs)) = without vs i order.
Proof.
  intros Hi. rewrite lower_first_take. unfold without. f_equal. replace (pred (length vs)) with (i + (pred (length vs) - i))%nat at 1 by lia.
  apply shift_down_take. lia.
Qed.

(** A value without its place in the enumeration. *)
Definition forget (v : key_value) : list Z * Z * list Z := (v_name v, v_type v, v_data v).

Lemma lower_forget order v : forget (lower_order order v) = forget v.
Proof. unfold lower_order. by case_match. Qed.

Lemma lower_first_forget m : forall order (vs : list key_value), forget <$> lower_first m order vs = forget <$> vs.
Proof. induction m as [|m IH]; intros order [|v vs]; try done. cbn. rewrite lower_forget. f_equal. apply IH. Qed.

Lemma forget_names (vs vs' : list key_value) : forget <$> vs' = forget <$> vs -> v_name <$> vs' = v_name <$> vs.
Proof.
  intros E. apply (f_equal (fmap (fun p : list Z * Z * list Z => p.1.1))) in E. rewrite <-!list_fmap_compose in E. exact E.
Qed.

Section delete.
Context (casemap : Z -> Z).
#[local] Abbreviation cmp := (cmp_name casemap).
#[local] Abbreviation value_of := (value_of casemap).
#[local] Abbreviation values_ok := (values_ok casemap).

Lemma value_of_forget (vs : list key_value) : forall (vs' : list key_value) name,
  forget <$> vs' = forget <$> vs -> forget <$> value_of vs' name = forget <$> value_of vs name.
Proof.
  unfold RegistryValues.value_of. induction vs as [|v vs IH]; intros [|v' vs'] name; try done. cbn. intros [= E1 E2 E3 E4]. rewrite E1.
  specialize (IH vs' name E4). destruct (decide (cmp (v_name v) name = 0)); [cbn; unfold forget; by rewrite E1, E2, E3|].
  destruct (list_find _ vs) as [[]|], (list_find _ vs') as [[]|]; cbn in *; congruence.
Qed.

Lemma without_names vs i order : v_name <$> without vs i order = take i (v_name <$> vs) ++ drop (S i) (v_name <$> vs).
Proof. rewrite <-fmap_take, <-fmap_drop, <-fmap_app. apply forget_names, lower_first_forget. Qed.

Lemma without_length vs i order : (i < length vs)%nat -> length (without vs i order) = pred (length vs).
Proof.
  intros Hi. pose proof (f_equal length (without_names vs i order)) as E. rewrite length_fmap, length_app, length_take, length_drop, length_fmap in E. lia.
Qed.

(** Only the one name is gone. *)
Lemma without_value_of vs i order v name :
  sorted_names casemap (v_name <$> vs) -> vs !! i = Some v -> cmp (v_name v) name = 0 ->
  forall name', forget <$> value_of (without vs i order) name' = if decide (cmp name' name = 0) then None else forget <$> value_of vs name'.
Proof.
  intros H Hv E name'. unfold without. rewrite (value_of_forget (take i vs ++ drop (S i) vs)) by apply lower_first_forget.
  assert (Hsort : sorted_names casemap (v_name <$> take i vs ++ drop (S i) vs)).
  { rewrite fmap_app, fmap_take, fmap_drop. by apply remove_sorted. }
  assert (Hin : forall w, w ∈ take i vs ++ drop (S i) vs <-> exists j, j <> i /\ vs !! j = Some w).
  { intros w. rewrite elem_of_app, !list_elem_of_lookup. setoid_rewrite lookup_take_Some. setoid_rewrite lookup_drop. split.
    - intros [(j & Hj & Hl)|(j & Hj)]; [exists j; split; [lia|done]|exists (S i + j)%nat; split; [lia|done]].
    - intros (j & Hne & Hj). destruct (decide (j < i)%nat); [left; by exists j|right; exists (j - S i)%nat; rewrite <-Hj; f_equal; lia]. }
  case_decide as En.
  - rewrite value_of_none; [done|]. intros w (j & Hne & Hj)%Hin Hw. apply Hne.
    apply (sorted_same casemap (v_name <$> vs) j i (v_name w) (v_name v) H); rewrite ?list_lookup_fmap, ?Hj, ?Hv; try done.
    apply cmp_zero in E, En, Hw. apply cmp_zero. congruence.
  - f_equal. destruct (value_of vs name') as [w|] eqn:Hw.
    + apply value_of_some in Hw as [Hw Ew]. apply list_elem_of_lookup in Hw as [j Hj].
      assert (Hne : j <> i) by (intros ->; rewrite Hv in Hj; injection Hj as <-; apply En, cmp_zero; apply cmp_zero in E, Ew; congruence).
      assert (Hmem : w ∈ take i vs ++ drop (S i) vs) by (apply Hin; by exists j). apply list_elem_of_lookup in Hmem as [j' Hj'].
      by apply (value_of_lookup casemap _ name' j' w).
    + apply value_of_none. intros w (j & _ & Hj)%Hin Ew. by rewrite (value_of_lookup casemap vs name' j w) in Hw.
Qed.

(** ** delete_value *)

Lemma shrunk_bounds nb last nb' : shrunk nb last MIN_VALUES = Some nb' -> last < nb' /\ MIN_VALUES <= nb' <= nb.
Proof.
  unfold shrunk, MIN_VALUES. destruct (Z.ltb_spec 8 nb) as [H1|]; [|done]. cbn [andb]. destruct (Z.ltb_spec last (nb / 2)) as [H2|]; [|done].
  intros [= <-]. pose proof (Z.div_mod nb 2 ltac:(lia)). pose proof (Z.mod_pos_bound nb 2 ltac:(lia)).
  pose proof (Z.div_mod nb 3 ltac:(lia)). pose proof (Z.mod_pos_bound nb 3 ltac:(lia)). lia.
Qed.

Lemma values_ok_nb k nb : values_ok k -> Z.of_nat (length (values k)) <= nb -> MIN_VALUES <= nb <= nb_values k -> values_ok (set_values k (values k) nb).
Proof. intros V H1 H2. split; cbn; [apply V|done|right]. destruct (vo_size _ _ V) as [?|?]; unfold MIN_VALUES in *; lia. Qed.

Lemma delete_value_run r a l k name e :
  chain r (Some a) (a :: l) -> keys r !! a = Some k -> values_ok k -> has_bits (k_flags k) KEY_PREDEF = false ->
  match value_of (values k) name with
  | None => delete_value casemap r a name e = (Some r, mk_senv STATUS_OBJECT_NAME_NOT_FOUND (allocs e))
  | Some v => exists r' e' k' i, delete_value casemap r a name e = (Some r', e') /\ error e' = error e /\ keys r' !! a = Some k' /\
      contents k' = contents (set_values k (values k') (nb_values k')) /\ values_ok k' /\
      values k !! i = Some v /\ values k' = without (values k) i (v_order v) /\
      signaled_events r' = signaled_events r ++ touch_events r a l REG_NOTIFY_CHANGE_LAST_SET /\
      forall b, b <> a -> contents <$> keys r' !! b = contents <$> keys r !! b
  end.
Proof.
  intros C Hk V Hp. unfold delete_value. rewrite Hk, Hp. destruct (find_value_run casemap k name V) as [i Hi].
  destruct (value_of (values k) name) as [v|] eqn:Hv; destruct Hi as [-> Hi]; [|done]. rewrite Nat2Z.id, Hi.
  pose proof (lookup_lt_Some _ _ _ Hi) as Hl. rewrite delete_array by done. set (vs := without (values k) i (v_order v)).
  set (k1 := set_values k vs (nb_values k)).
  destruct (store_run r a l k k1 REG_NOTIFY_CHANGE_LAST_SET C Hk eq_refl eq_refl) as (r1 & k2 & -> & Hk2 & Ec & Se & Ho). rewrite Hk2.
  assert (Ev : values k2 = vs) by exact (f_equal values Ec). assert (Enb : nb_values k2 = nb_values k) by exact (f_equal nb_values Ec).
  assert (Hlen : length vs = pred (length (values k))) by (by apply without_length).
  assert (V1 : values_ok k1).
  { split; [change (values k1) with vs; unfold vs; rewrite without_names; apply remove_sorted, V|change (Z.of_nat (length vs) <= nb_values k); pose proof (vo_length _ _ V); lia|apply V]. }
  assert (V2 : values_ok k2) by (by apply (contents_values_ok casemap k1)).
  assert (Hbase : contents k2 = contents (set_values k (values k2) (nb_values k2))) by (rewrite Ec, Ev, Enb; done).
  destruct (shrunk (nb_values k) _ MIN_VALUES) as [nb|] eqn:Esh.
  - apply shrunk_bounds in Esh as [H1 H2]. set (k3 := set_values k2 (values k2) nb).
    assert (V3 : values_ok k3) by (apply values_ok_nb; [done|rewrite Ev; lia|lia]).
    assert (Hb3 : contents k3 = contents (set_values k (values k3) (nb_values k3))).
    { pose proof (f_equal k_flags Ec) as Ef. pose proof (f_equal (fun x => set_values x (values k2) nb) Ec) as E. exact E. }
    assert (Hb : forall b : bool, exists k', keys (if b then set_key r1 a k3 else r1) !! a = Some k' /\ contents k' = contents (set_values k (values k') (nb_values k')) /\
       values_ok k' /\ values k' = vs /\ signaled_events (if b then set_key r1 a k3 else r1) = signaled_events r1 /\
       forall c, c <> a -> contents <$> keys (if b then set_key r1 a k3 else r1) !! c = contents <$> keys r !! c).
    { intros [].
      - exists k3. rewrite set_key_lookup, decide_True by done. do 5 (split; [done|]). intros c Hc. rewrite set_key_lookup, decide_False by done. by apply Ho.
      - exists k2. done. }
    unfold bind, malloc, ret. destruct (allocs e) as [|b al]; [destruct (Hb true) as (k' & F1 & F2 & F3 & F4 & F5 & F6)
                                                              |destruct (Hb b) as (k' & F1 & F2 & F3 & F4 & F5 & F6)];
      (eexists _, _, k', i; split; [done|]; rewrite F5; by repeat (split; [done|])).
  - exists r1, e, k2, i. split; [done|]. by repeat (split; [done|]).
Qed.

(** ** Enumeration *)

Lemma value_at_order k v : orders_ok k -> v ∈ values k -> value_at k (v_order v) = Some v.
Proof.
  intros O Hv. unfold orders_ok in O. assert (Hn : NoDup (v_order <$> values k)) by (rewrite O; apply NoDup_seqZ). unfold value_at.
  apply list_elem_of_lookup in Hv as [i Hi]. destruct (list_find _ (values k)) as [[j w]|] eqn:Hf.
  - cbn. apply list_find_Some in Hf as (Hw & Ew & _). f_equal. assert (j = i) as ->; [|congruence].
    eapply (NoDup_lookup (v_order <$> values k)); [done|by rewrite list_lookup_fmap, Hw|by rewrite list_lookup_fmap, Hi; cbn; rewrite Ew].
  - apply list_find_None in Hf. rewrite list.Forall_forall in Hf. destruct (Hf v); [by eapply list_elem_of_lookup_2|done].
Qed.

Lemma value_at_iff k i v : orders_ok k -> value_at k i = Some v <-> v ∈ values k /\ v_order v = i.
Proof.
  intros O. split; [|intros [Hv <-]; by apply value_at_order]. unfold value_at.
  destruct (list_find _ (values k)) as [[j w]|] eqn:Hf; [|done]. intros [= <-]. apply list_find_Some in Hf as (Hw & Ew & _).
  split; [by eapply list_elem_of_lookup_2|done].
Qed.

(** Setting a value keeps its place, gives a new one the last place, and leaves the
    other places alone. *)
Lemma updates_value_at k k' name type data : values_ok k -> values_ok k' -> orders_ok k ->
  updates casemap (values k) (values k') name type data ->
  forall i, value_at k' i = if decide (i = v_order (stored casemap (values k) name type data))
                            then Some (stored casemap (values k) name type data) else value_at k i.
Proof.
  intros V V' O U i. assert (O' : orders_ok k') by (by apply (ud_orders _ _ _ _ _ _ U)). set (s := stored casemap (values k) name type data).
  case_decide as Hi; [subst i; apply value_at_order; [done|apply U]|].
  apply option_eq. intros w. rewrite !value_at_iff by done. destruct (decide (cmp (v_name w) name = 0)) as [E|E]; [|by rewrite (ud_others _ _ _ _ _ _ U)].
  split; intros [Hw Ei]; exfalso; apply Hi; rewrite <-Ei.
  - apply list_elem_of_lookup in Hw as [j Hj]. pose proof (updates_value casemap _ _ _ _ _ (vo_sorted _ _ V) U name) as H.
    rewrite decide_True in H by (by apply cmp_zero). rewrite (value_of_lookup casemap _ name j w (vo_sorted _ _ V') Hj E) in H. by injection H as ->.
  - apply list_elem_of_lookup in Hw as [j Hj]. unfold s, stored. by rewrite (value_of_lookup casemap _ name j w (vo_sorted _ _ V) Hj E).
Qed.

(** Counting up visits every value once. *)
Lemma enumeration_perm k : orders_ok k -> omap (value_at k) (seqZ 0 (Z.of_nat (length (values k)))) ≡ₚ values k.
Proof.
  intros O. pose proof O as P. unfold orders_ok in P. rewrite <-P. assert (forall l : list key_value, (forall v, v ∈ l -> v ∈ values k) -> omap (value_at k) (v_order <$> l) = l) as H.
  { induction l as [|v l IH]; intros Hl; [done|]. cbn. rewrite (value_at_order k v O) by (apply Hl; by left). f_equal. apply IH.
    intros w Hw. apply Hl. by right. }
  by rewrite H.
Qed.

(** When the places are numbered without gaps there is a value at every place. *)
Lemma value_at_some k i : orders_ok k -> 0 <= i < Z.of_nat (length (values k)) -> exists v, value_at k i = Some v.
Proof.
  intros O Hi. assert (i ∈ v_order <$> values k) as Hin by (unfold orders_ok in O; rewrite O; apply elem_of_seqZ; lia).
  apply list_elem_of_fmap in Hin as (v & -> & Hv). exists v. by apply value_at_order.
Qed.

Lemma enum_value_full r a k i v max_size e :
  keys r !! a = Some k -> has_bits (k_flags k) KEY_PREDEF = false -> 0 <= i < Z.of_nat (length (values k)) -> value_at k i = Some v ->
  Z.of_nat (length (wchars (v_name v)) + length (v_data v)) <= max_size -> allocs e = [] ->
  enum_value r a i KeyValueFullInformation max_size e =
    (Some (v_type v, Z.of_nat (length (wchars (v_name v)) + length (v_data v)), Z.of_nat (length (wchars (v_name v))),
           wchars (v_name v) ++ v_data v), e).
Proof.
  intros Hk Hp Hi Hv Hm Ha. unfold enum_value. rewrite Hk, Hp. destruct (Z.ltb_spec i 0); [lia|]. cbn [orb].
  destruct (Z.ltb_spec (Z.of_nat (length (values k)) - 1) i); [lia|]. rewrite Hv, Z.min_l by lia. rewrite <-Nat2Z.inj_add. unfold set_reply_data_size, ret.
  set (n := length (wchars (v_name v))) in *. set (d := length (v_data v)) in *.
  destruct (Z.eqb_spec (Z.of_nat (n + d)) 0) as [Ez|Ez].
  - assert (n = O /\ d = O) as [E1 E2] by lia. rewrite (nil_length_inv _ E1), (nil_length_inv _ E2). unfold d, n in *. rewrite E1. done.
  - unfold bind. rewrite mem_alloc_full by done. cbn [negb]. rewrite Nat2Z.id. destruct (Z.ltb_spec (Z.of_nat n) (Z.of_nat (n + d))).
    + rewrite take_ge by (unfold n; lia). rewrite (take_ge (v_data v)) by (fold d; lia). done.
    + assert (d = O) as E2 by lia. rewrite (nil_length_inv _ E2), app_nil_r. rewrite Nat2Z.id, take_ge by (fold n; lia).
      replace (n + d)%nat with n by lia. done.
Qed.

(** Deleting keeps the numbering when no later value of the array has a later
    place. *)
Lemma lower_perm (l : list Z) o n : o :: l ≡ₚ seqZ 0 (Z.of_nat (S n)) -> (fun x => if o <? x then x - 1 else x) <$> l ≡ₚ seqZ 0 (Z.of_nat n).
Proof.
  intros H. assert (Hn : NoDup (o :: l)) by (rewrite H; apply NoDup_seqZ). apply list.NoDup_cons in Hn as [Ho Hn].
  assert (Hin : forall x, x ∈ l <-> 0 <= x < Z.of_nat (S n) /\ x <> o).
  { intros x. assert (x ∈ o :: l <-> 0 <= x < Z.of_nat (S n)) as Hx by (rewrite H, elem_of_seqZ; lia). rewrite elem_of_cons in Hx.
    split; [intros Hl; split; [tauto|by intros ->]|tauto]. }
  assert (Hoin : 0 <= o < Z.of_nat (S n)) by (assert (o ∈ o :: l) as Hx by (by left); rewrite H, elem_of_seqZ in Hx; lia).
  apply NoDup_Permutation; [|apply NoDup_seqZ|].
  - apply NoDup_fmap_2_strong; [|done]. intros x y [Hx Hxo]%Hin [Hy Hyo]%Hin. destruct (Z.ltb_spec o x), (Z.ltb_spec o y); lia.
  - intros x. rewrite list_elem_of_fmap, elem_of_seqZ. split.
    + intros (y & -> & [Hy Hyo]%Hin). destruct (Z.ltb_spec o y); lia.
    + intros Hx. destruct (Z.ltb_spec x o).
      * exists x. split; [destruct (Z.ltb_spec o x); lia|]. apply Hin. lia.
      * exists (x + 1). split; [destruct (Z.ltb_spec o (x + 1)); lia|]. apply Hin. lia.
Qed.

Lemma lower_first_all m : forall order (vs : list key_value),
  (forall j w, (m <= j)%nat -> vs !! j = Some w -> v_order w < order) -> lower_first m order vs = lower_order order <$> vs.
Proof.
  induction m as [|m IH]; intros order vs H; cbn [lower_first].
  - revert H. induction vs as [|v vs IH]; intros H; [done|]. cbn. rewrite <-IH by (intros j w _ Hw; apply (H (S j) w); [lia|done]).
    unfold lower_order. by rewrite (proj2 (Z.ltb_ge _ _)) by (pose proof (H O v ltac:(lia) eq_refl); lia).
  - destruct vs as [|v vs]; [done|]. cbn. f_equal. apply IH. intros j w Hj Hw. apply (H (S j) w); [lia|done].
Qed.

Lemma without_orders (vs : list key_value) i v :
  vs !! i = Some v -> v_order <$> vs ≡ₚ seqZ 0 (Z.of_nat (length vs)) ->
  (forall j w, (S i < j)%nat -> vs !! j = Some w -> v_order w < v_order v) ->
  v_order <$> without vs i (v_order v) ≡ₚ seqZ 0 (Z.of_nat (pred (length vs))).
Proof.
  intros Hv H Hl. pose proof (lookup_lt_Some _ _ _ Hv) as Hi. unfold without. rewrite lower_first_all.
  - assert (H' : v_order v :: (v_order <$> (take i vs ++ drop (S i) vs)) ≡ₚ seqZ 0 (Z.of_nat (S (pred (length vs))))).
    { replace (S (pred (length vs))) with (length vs) by lia. rewrite <-H. rewrite <-(take_drop_middle vs i v Hv) at 3.
      rewrite !fmap_app, fmap_cons. apply Permutation_middle. }
    rewrite <-(lower_perm _ _ _ H'), <-!list_fmap_compose. apply reflexive_eq, list_fmap_ext. intros j w _. cbn. unfold lower_order. by case_match.
  - intros j w Hj Hw. destruct (decide (j < length (take i vs))%nat) as [Hlt|Hge]; [rewrite length_take in Hlt; lia|].
    rewrite lookup_app_r in Hw by lia. rewrite lookup_drop, length_take in Hw. apply (Hl (S i + (j - i `min` length vs))%nat w); [lia|done].
Qed.
End delete.
