(* ===== verification/RegistryForest.v ===== *)
(** * The forest of registry keys

    The invariant of the tree of keys, and linking and unlinking of keys. *)

From Stdlib Require Import ZArith Lia Sorted.
From stdpp Require Import base list numbers option gmap.
From S2P Require Import Prelude Unicode UnicodeTheorems Registry RegistryTree RegistrySearch RegistryValues RegistryOrder.

#[local] Open Scope Z_scope.
#[local] Open Scope server_scope.

(** * The tree of registry keys: invariant, lookup and creation

    The invariant of the tree: the arrays of a key are sorted and within their
    allocated size, children and parents know each other, following the parents
    of a key ends, and below a volatile key there are only volatile ones.
    Subkeys are found by name, and creating a key keeps the invariant. *)

(** ** Names of subkeys *)

Definition has_name (r : registry) (s : Z) (n : list Z) : Prop := k_name <$> keys r !! s = Some n.

Lemma names_of_spec r l : forall names, names_of r l = Some names <-> Forall2 (has_name r) l names.
Proof.
  induction l as [|s l IH]; intros names; cbn [names_of].
  - split; [by intros [= <-]|by intros ->%Forall2_nil_inv_l].
  - unfold has_name at 1. split.
    + destruct (keys r !! s) as [k|] eqn:Hk; [|done]. cbn. destruct (names_of r l) as [ns|]; [|done]. cbn. intros [= <-].
      constructor; [by rewrite Hk|by apply IH].
    + intros (n & ns & Hn & Hs & ->)%Forall2_cons_inv_l. destruct (keys r !! s) as [k|]; [|done]. injection Hn as <-. cbn.
      by rewrite (proj2 (IH ns) Hs).
Qed.

Lemma has_name_det r s n n' : has_name r s n -> has_name r s n' -> n = n'.
Proof. unfold has_name. congruence. Qed.

Section forest.
Context (casemap : Z -> Z).
#[local] Abbreviation cmp := (cmp_name casemap).
#[local] Abbreviation values_ok := (values_ok casemap).

(** ** The invariant *)

Definition volatile (k : key) : bool := has_bits (k_flags k) KEY_VOLATILE.

Definition deleted (k : key) : bool := has_bits (k_flags k) KEY_DELETED.

Definition size_ok (n : nat) (nb : Z) : Prop := Z.of_nat n <= nb /\ (nb = 0 \/ MIN_SUBKEYS <= nb < 2 ^ 31).

Record key_ok (r : registry) (a : Z) (k : key) : Prop := {
  ko_values : values_ok k;
  ko_names : exists names, Forall2 (has_name r) (subkeys k) names /\ sorted_names casemap names;
  ko_size : size_ok (length (subkeys k)) (nb_subkeys k);
  ko_children : forall s, s ∈ subkeys k ->
    exists ks, keys r !! s = Some ks /\ k_parent ks = Some a /\ (volatile k = true -> volatile ks = true);
  ko_parent : forall p, k_parent k = Some p -> deleted k = false /\ exists kp, keys r !! p = Some kp /\ a ∈ subkeys kp;
  ko_wow : forall w, wow6432node k = Some w -> w ∈ subkeys k
}.

Record reg_ok (r : registry) : Prop := {
  ro_chains : chains_ok r;
  ro_keys : forall a k, keys r !! a = Some k -> key_ok r a k
}.

(** The subkeys are all different. *)
Lemma subkeys_nodup r a k : key_ok r a k -> NoDup (subkeys k).
Proof.
  intros K. destruct (ko_names _ _ _ K) as (names & F & S). apply NoDup_alt. intros i j s Hi Hj.
  destruct (Forall2_lookup_l _ _ _ _ _ F Hi) as (n & Hn & H1), (Forall2_lookup_l _ _ _ _ _ F Hj) as (n' & Hn' & H2).
  rewrite <-(has_name_det _ _ _ _ H1 H2) in Hn'. apply (sorted_same casemap names i j n n S Hn Hn'). by apply cmp_zero.
Qed.

(** ** Frames *)

(** What the invariant says of a key apart from its values, and what it says of a
    key as a child. *)
Definition links (k : key) : list Z * Z * option Z * option Z * bool * bool :=
  (subkeys k, nb_subkeys k, k_parent k, wow6432node k, volatile k, deleted k).

Definition label (k : key) : list Z * option Z * bool := (k_name k, k_parent k, volatile k).

Lemma label_name r r' s n : label <$> keys r' !! s = label <$> keys r !! s -> has_name r s n -> has_name r' s n.
Proof. unfold has_name. destruct (keys r !! s), (keys r' !! s); try done. cbn. intros [= -> _ _]. done. Qed.

Lemma label_names r r' (l : list Z) names :
  (forall s, s ∈ l -> label <$> keys r' !! s = label <$> keys r !! s) -> Forall2 (has_name r) l names -> Forall2 (has_name r') l names.
Proof.
  intros H F. rewrite Forall2_same_length_lookup in F |- *. destruct F as [Hl F]. split; [done|]. intros i x y Hx Hy.
  apply (label_name r); [|by apply (F i)]. apply H. by eapply list_elem_of_lookup_2.
Qed.

Lemma label_child r r' s ks : label <$> keys r' !! s = label <$> keys r !! s -> keys r !! s = Some ks ->
  exists ks', keys r' !! s = Some ks' /\ k_parent ks' = k_parent ks /\ volatile ks' = volatile ks.
Proof. intros E Hs. rewrite Hs in E. destruct (keys r' !! s) as [ks'|]; [|done]. injection E as _ E1 E2. by exists ks'. Qed.

Lemma key_ok_frame r r' b kb kb' :
  key_ok r b kb -> links kb' = links kb -> values_ok kb' ->
  (forall s, s ∈ subkeys kb -> label <$> keys r' !! s = label <$> keys r !! s) ->
  (forall p kp, k_parent kb = Some p -> keys r !! p = Some kp -> exists kp', keys r' !! p = Some kp' /\ (b ∈ subkeys kp -> b ∈ subkeys kp')) ->
  key_ok r' b kb'.
Proof.
  intros K [= E1 E2 E3 E4 E5 E6] V Hs Hp. split; rewrite ?E1, ?E2, ?E3, ?E4; try apply K; [done|..].
  - destruct (ko_names _ _ _ K) as (names & F & S). exists names. split; [by apply (label_names r)|done].
  - intros s Hin. destruct (ko_children _ _ _ K s Hin) as (ks & Hks & Hpa & Hv).
    destruct (label_child r r' s ks (Hs s Hin) Hks) as (ks' & Hks' & Hp' & Hv'). exists ks'. by rewrite Hp', Hv', E5.
  - intros p Hpa. rewrite E6. destruct (ko_parent _ _ _ K p Hpa) as (Hd & kp & Hkp & Hb). split; [done|].
    destruct (Hp p kp Hpa Hkp) as (kp' & Hkp' & H). exists kp'. auto.
Qed.

Lemma contents_links k k' : contents k' = contents k -> links k' = links k /\ label k' = label k.
Proof.
  intros E. assert (volatile k' = volatile k) as Ev by (by apply contents_flags). assert (deleted k' = deleted k) as Ed by (by apply contents_flags).
  unfold links, label. rewrite Ev, Ed. injection E as E1 E2 _ E3 E4 E5 _ _ _. by rewrite E1, E2, E3, E4, E5.
Qed.

Lemma contents_label (x y : option key) : contents <$> x = contents <$> y -> label <$> x = label <$> y.
Proof. destruct x, y; try done. cbn. intros E%(inj Some). f_equal. by apply contents_links. Qed.

(** Touching keeps the invariant. *)
Lemma touched_reg_ok r r' : touched r r' -> reg_ok r -> reg_ok r'.
Proof.
  intros T R. split; [eapply touched_chains; [done|apply R]|]. intros a k' Hk'.
  destruct (touched_lookup _ _ _ _ (touched_sym _ _ T) Hk') as (k & Hk & E). pose proof (ro_keys _ R a k Hk) as K.
  apply (key_ok_frame r r' a k); [done|by apply contents_links|apply (contents_values_ok casemap k); [done|apply K]|..].
  - intros s _. apply contents_label, T.
  - intros p kp _ Hkp. destruct (touched_lookup _ _ _ _ T Hkp) as (kp' & Hkp' & E'). exists kp'. split; [done|].
    assert (subkeys kp' = subkeys kp) as -> by exact (f_equal subkeys E'). done.
Qed.

(** Touching a key of a well-formed registry. *)
Lemma touch_reg_ok r a change : reg_ok r -> is_Some (keys r !! a) ->
  exists r', touch_key r a change = Some r' /\ touched r r' /\ reg_ok r'.
Proof.
  intros R Ha. destruct (ro_chains _ R a Ha) as (l & Hl). inversion Hl as [|? k l' Hk Hl']; subst.
  destruct (touch_key_run r a l' change Hl) as (r' & E & T & _). exists r'. split; [done|]. split; [done|]. by eapply touched_reg_ok.
Qed.

(** Changing a key in other respects than its children and its parent. *)
Lemma relink_reg_ok r a k k' :
  reg_ok r -> keys r !! a = Some k -> label k' = label k -> deleted k' = deleted k -> subkeys k' = subkeys k -> values_ok k' ->
  size_ok (length (subkeys k')) (nb_subkeys k') -> (forall w, wow6432node k' = Some w -> w ∈ subkeys k') -> reg_ok (set_key r a k').
Proof.
  intros R Hk Eb Ed Es V Hsz Hw. injection Eb as En Ep Ev.
  assert (Hl : forall s, label <$> keys (set_key r a k') !! s = label <$> keys r !! s).
  { intros s. rewrite set_key_lookup. case_decide; [subst; rewrite Hk; cbn; unfold label; by rewrite En, Ep, Ev|done]. }
  assert (Hp : forall p kp, keys r !! p = Some kp -> exists kp', keys (set_key r a k') !! p = Some kp' /\ subkeys kp' = subkeys kp).
  { intros p kp Hkp. rewrite set_key_lookup. case_decide; [subst; exists k'; split; [done|]; congruence|by exists kp]. }
  assert (Hold : forall b kb, keys r !! b = Some kb -> key_ok (set_key r a k') b kb).
  { intros b kb Hb. pose proof (ro_keys _ R b kb Hb) as K. apply (key_ok_frame r _ b kb); [done|done|apply K|done|].
    intros p kp _ Hkp. destruct (Hp p kp Hkp) as (kp' & H1 & H2). exists kp'. by rewrite H2. }
  split.
  - intros b Hb. assert (is_Some (keys r !! b)) as Hb' by (rewrite set_key_lookup in Hb; case_decide; [subst; by eexists|done]).
    destruct (ro_chains _ R b Hb') as (l & C). exists l. by apply (chain_set_key r a k).
  - intros b kb Hb. rewrite set_key_lookup in Hb. case_decide; [|by apply Hold]. subst. injection Hb as <-. pose proof (Hold a k Hk) as K.
    split; [done|rewrite Es; apply K|done|rewrite Es, Ev; apply K|rewrite Ep, Ed; apply K|done].
Qed.

(** Changing only what the invariant does not speak of, or the values. *)
Lemma set_key_reg_ok r a k k' :
  reg_ok r -> keys r !! a = Some k -> links k' = links k -> label k' = label k -> values_ok k' -> reg_ok (set_key r a k').
Proof.
  intros R Hk [= E1 E2 E3 E4 E5 E6] Eb V. pose proof (ro_keys _ R a k Hk) as K. apply (relink_reg_ok r a k); try done; rewrite ?E1, ?E2, ?E4; apply K.
Qed.

(** ** Finding subkeys *)

(** The subkey of that name. *)
Definition subkey_of (r : registry) (k : key) (name : list Z) (s : Z) : Prop :=
  s ∈ subkeys k /\ exists ks, keys r !! s = Some ks /\ cmp (k_name ks) name = 0.

Lemma find_subkey_run r a k name : key_ok r a k ->
  exists names i, Forall2 (has_name r) (subkeys k) names /\ sorted_names casemap names /\
    ((find_subkey casemap r k name = Some (true, Z.of_nat i) /\ exists s, subkeys k !! i = Some s /\ subkey_of r k name s) \/
     (find_subkey casemap r k name = Some (false, Z.of_nat i) /\ place casemap names name i /\ forall s, ~ subkey_of r k name s)).
Proof.
  intros K. destruct (ko_names _ _ _ K) as (names & F & S). exists names. unfold find_subkey. rewrite (proj2 (names_of_spec r _ names) F). cbn [mbind option_bind].
  destruct (find_name_spec casemap names name S) as ([] & i & -> & H); exists i; (split; [done|]); (split; [done|]).
  - left. split; [done|]. destruct H as (n & Hn & E). destruct (Forall2_lookup_r _ _ _ _ _ F Hn) as (s & Hs & Hn').
    exists s. split; [done|]. split; [by eapply list_elem_of_lookup_2|]. unfold has_name in Hn'. destruct (keys r !! s) as [ks|]; [|done].
    injection Hn' as <-. by exists ks.
  - right. split; [done|]. split; [done|]. intros s ([j Hj]%list_elem_of_lookup & ks & Hks & E).
    destruct (Forall2_lookup_l _ _ _ _ _ F Hj) as (n & Hn & Hn'). unfold has_name in Hn'. rewrite Hks in Hn'. injection Hn' as <-.
    destruct (decide (j < i)%nat) as [Hl|Hl].
    + pose proof (pl_before _ _ _ _ H j _ Hn Hl) as Hlt. unfold name_lt in Hlt. lia.
    + pose proof (pl_after _ _ _ _ H j _ Hn ltac:(lia)) as Hlt. unfold name_lt in Hlt. apply cmp_sym in E. lia.
Qed.

(** There is at most one. *)
Lemma subkey_of_unique r a k name s s' : key_ok r a k -> subkey_of r k name s -> subkey_of r k name s' -> s = s'.
Proof.
  intros K ([i Hi]%list_elem_of_lookup & ks & Hks & E) ([j Hj]%list_elem_of_lookup & ks' & Hks' & E'). destruct (ko_names _ _ _ K) as (names & F & S).
  destruct (Forall2_lookup_l _ _ _ _ _ F Hi) as (n & Hn & H1), (Forall2_lookup_l _ _ _ _ _ F Hj) as (n' & Hn' & H2).
  unfold has_name in H1, H2. rewrite Hks in H1. rewrite Hks' in H2. injection H1 as <-. injection H2 as <-.
  assert (i = j) as ->; [|congruence]. apply (sorted_same casemap names i j _ _ S Hn Hn'). apply cmp_zero in E, E'. apply cmp_zero. congruence.
Qed.
End forest.

(** * Linking and unlinking registry keys

    Creating a key puts it where its name belongs among the subkeys of its parent;
    taking it out again leaves the rest of the tree as it was.  Both keep the
    invariant of the tree. *)

(** A registry in which keys may have lost their parents. *)
Lemma chain_cut r r' x l :
  (forall b kb, keys r !! b = Some kb -> exists kb', keys r' !! b = Some kb' /\ (k_parent kb' = k_parent kb \/ k_parent kb' = None)) ->
  chain r x l -> exists l', chain r' x l'.
Proof.
  intros H. induction 1 as [|b kb l Hb _ [l' IH]]; [exists []; constructor|]. destruct (H b kb Hb) as (kb' & Hb' & [E|E]).
  - exists (b :: l'). econstructor; [done|by rewrite E].
  - exists [b]. econstructor; [done|]. rewrite E. constructor.
Qed.

Lemma not_own_parent r a k : chains_ok r -> keys r !! a = Some k -> k_parent k <> Some a.
Proof.
  intros C Hk E. destruct (C a) as [l Hl]; [by eexists|]. pose proof (chain_nodup _ _ _ Hl) as Hn. inversion Hl as [|? k' l' Hk' Hl']; subst.
  rewrite Hk in Hk'. injection Hk' as <-. rewrite E in Hl'. inversion Hl'; subst. apply list.NoDup_cons in Hn as [Hn _]. apply Hn. by left.
Qed.

Lemma insert_elem (l : list Z) i x y : y ∈ take i l ++ x :: drop i l <-> y = x \/ y ∈ l.
Proof. rewrite <-(take_drop i l) at 3. rewrite !elem_of_app, elem_of_cons. tauto. Qed.

Lemma remove_elem (l : list Z) i x y : NoDup l -> l !! i = Some x -> y ∈ take i l ++ drop (S i) l <-> y <> x /\ y ∈ l.
Proof.
  intros Hn Hx. assert (E : y ∈ l <-> y ∈ take i l \/ y = x \/ y ∈ drop (S i) l).
  { rewrite <-(take_drop_middle l i x Hx) at 1. by rewrite elem_of_app, elem_of_cons. }
  rewrite <-(take_drop_middle l i x Hx) in Hn. apply NoDup_app in Hn as (_ & H1 & [H2 _]%list.NoDup_cons). rewrite E, elem_of_app. split; [|tauto].
  intros [H|H]; split; try tauto; intros ->; [by apply (H1 x H); left|done].
Qed.

Section link.
Context (casemap : Z -> Z).
#[local] Abbreviation values_ok := (values_ok casemap).
#[local] Abbreviation reg_ok := (reg_ok casemap).
#[local] Abbreviation key_ok := (key_ok casemap).

(** ** Linking *)

Record new_key (k : key) (name : list Z) (p : Z) : Prop := {
  nk_label : k_name k = name /\ k_parent k = Some p;
  nk_empty : subkeys k = [] /\ nb_subkeys k = 0 /\ wow6432node k = None /\ values k = [] /\ nb_values k = 0;
  nk_live : deleted k = false
}.

Lemma link_reg_ok r r' a p parent parent' k name names i :
  reg_ok r -> keys r !! p = Some parent -> keys r !! a = None ->
  Forall2 (has_name r) (subkeys parent) names -> sorted_names casemap names -> place casemap names name i ->
  (forall b, keys r' !! b = if decide (b = a) then Some k else if decide (b = p) then Some parent' else keys r !! b) ->
  label parent' = label parent -> deleted parent' = deleted parent -> values_ok parent' ->
  subkeys parent' = take i (subkeys parent) ++ a :: drop i (subkeys parent) -> size_ok (length (subkeys parent')) (nb_subkeys parent') ->
  (wow6432node parent' = wow6432node parent \/ wow6432node parent' = Some a) ->
  new_key k name p -> (volatile parent = true -> volatile k = true) -> reg_ok r'.
Proof.
  intros R Hp Ha F S P Hr Elab Edel V Es Hsz Ew N Hv. destruct N as [[En Epa] (E1 & E2 & E3 & E4 & E5) Hd].
  assert (Hap : a <> p) by congruence. injection Elab as Epn Epp Epv.
  assert (Hrp : keys r' !! p = Some parent') by (rewrite Hr, decide_False, decide_True by done; done).
  assert (Hra : keys r' !! a = Some k) by (by rewrite Hr, decide_True).
  assert (Hlab : forall s, s <> a -> label <$> keys r' !! s = label <$> keys r !! s).
  { intros s Hs. rewrite Hr, decide_False by done. case_decide; [subst; rewrite Hp; cbn; unfold label; by rewrite Epn, Epp, Epv|done]. }
  assert (Hsub : forall b kb s, keys r !! b = Some kb -> s ∈ subkeys kb -> s <> a).
  { intros b kb s Hb Hs ->. destruct (ko_children _ _ _ _ (ro_keys _ _ R b kb Hb) a Hs) as (ka & Hka & _). congruence. }
  split.
  - assert (Hold : forall b, is_Some (keys r !! b) -> exists l, chain r' (Some b) l).
    { intros b Hb. destruct (ro_chains _ _ R b Hb) as [l Hl]. apply (chain_cut r r' _ l); [|done]. intros c kc Hc. rewrite Hr.
      destruct (decide (c = a)); [congruence|]. case_decide; [subst; exists parent'; split; [done|]; left; congruence|exists kc; auto]. }
    intros b Hb. rewrite Hr in Hb. destruct (decide (b = a)) as [->|]; [|apply Hold; case_decide; [subst; by eexists|done]].
    destruct (Hold p ltac:(by eexists)) as [l Hl]. exists (a :: l). econstructor; [done|]. by rewrite Epa.
  - intros b kb Hb. rewrite Hr in Hb. destruct (decide (b = a)) as [->|Hba]; [injection Hb as <-|destruct (decide (b = p)) as [->|Hbp]; [injection Hb as <-|]].
    + split; rewrite ?E1, ?E2, ?E3.
      * split; rewrite ?E4, ?E5; cbn; [constructor|lia|by left].
      * exists []. split; [constructor|constructor].
      * split; cbn; [lia|by left].
      * by intros s ?%not_elem_of_nil.
      * intros q Hq. split; [done|]. assert (q = p) as -> by congruence. exists parent'. split; [done|]. rewrite Es. apply insert_elem. by left.
      * done.
    + pose proof (ro_keys _ _ R p parent Hp) as K. split; try done.
      * rewrite Es. exists (take i names ++ name :: drop i names). split; [|by apply insert_sorted].
        assert (F' : Forall2 (has_name r') (subkeys parent) names).
        { apply (label_names r); [|done]. intros x Hx. by apply Hlab, (Hsub p parent x Hp). }
        apply Forall2_app; [by apply Forall2_take|]. constructor; [unfold has_name; rewrite Hra; cbn; by rewrite En|by apply Forall2_drop].
      * intros s. rewrite Es, insert_elem, Epv. intros [->|Hs]; [by exists k|]. destruct (ko_children _ _ _ _ K s Hs) as (ks & Hks & H1 & H2).
        destruct (label_child r r' s ks (Hlab s (Hsub p parent s Hp Hs)) Hks) as (ks' & L0 & L1 & L2). exists ks'. by rewrite L1, L2.
      * rewrite Epp, Edel. intros q Hq. destruct (ko_parent _ _ _ _ K q Hq) as (H1 & kq & Hkq & H2). split; [done|].
        assert (q <> p) by (intros ->; by apply (not_own_parent r p parent (ro_chains _ _ R) Hp)).
        exists kq. rewrite Hr, !decide_False; [done..|congruence].
      * intros w Hw. rewrite Es, insert_elem. destruct Ew as [Ew|Ew]; rewrite Ew in Hw; [right; by apply K|left; congruence].
    + apply (key_ok_frame casemap r r' b kb); [by apply R|done|by apply (ko_values _ r b), R| |].
      * intros s Hs. apply Hlab, (Hsub b kb s Hb Hs).
      * intros q kq _ Hkq. rewrite Hr. destruct (decide (q = a)); [congruence|]. case_decide; [|by exists kq]. subst. exists parent'. split; [done|].
        rewrite Hp in Hkq. injection Hkq as <-. rewrite Es, insert_elem. by right.
Qed.

(** ** Unlinking *)

Lemma unlink_reg_ok r r' a p parent parent' k k' i :
  reg_ok r -> keys r !! a = Some k -> k_parent k = Some p -> keys r !! p = Some parent -> subkeys parent !! i = Some a ->
  (forall b, keys r' !! b = if decide (b = a) then Some k' else if decide (b = p) then Some parent' else keys r !! b) ->
  label parent' = label parent -> deleted parent' = deleted parent -> values_ok parent' ->
  subkeys parent' = take i (subkeys parent) ++ drop (S i) (subkeys parent) -> size_ok (length (subkeys parent')) (nb_subkeys parent') ->
  wow6432node parent' = (if bool_decide (wow6432node parent = Some a) then None else wow6432node parent) ->
  k_parent k' = None -> subkeys k' = subkeys k -> nb_subkeys k' = nb_subkeys k -> wow6432node k' = wow6432node k -> volatile k' = volatile k ->
  values_ok k' -> reg_ok r'.
Proof.
  intros R Ha Hka Hp Hi Hr Elab Edel V Es Hsz Ew E1 E2 E3 E4 E5 V'. injection Elab as Epn Epp Epv.
  assert (Hap : a <> p) by (intros ->; by apply (not_own_parent r p k (ro_chains _ _ R) Ha)).
  pose proof (ro_keys _ _ R p parent Hp) as K. pose proof (subkeys_nodup casemap r p parent K) as Hnd.
  assert (Hin : forall y, y ∈ subkeys parent' <-> y <> a /\ y ∈ subkeys parent) by (intros y; rewrite Es; by apply remove_elem).
  assert (Hlab : forall s, s <> a -> label <$> keys r' !! s = label <$> keys r !! s).
  { intros s Hs. rewrite Hr, decide_False by done. destruct (decide (s = p)) as [->|]; [rewrite Hp; cbn; unfold label; by rewrite Epn, Epp, Epv|done]. }
  assert (Hsub : forall b kb s, b <> p -> keys r !! b = Some kb -> s ∈ subkeys kb -> s <> a).
  { intros b kb s Hbp Hb Hs ->. destruct (ko_children _ _ _ _ (ro_keys _ _ R b kb Hb) a Hs) as (ka & Hka' & H & _). congruence. }
  assert (Hpar : forall q kq b, keys r !! q = Some kq -> b <> a -> exists kq', keys r' !! q = Some kq' /\ (b ∈ subkeys kq -> b ∈ subkeys kq')).
  { intros q kq b Hkq Hb. rewrite Hr. destruct (decide (q = a)) as [->|]; [exists k'; rewrite E2; split; [done|congruence]|].
    destruct (decide (q = p)) as [->|]; [|by exists kq]. exists parent'. split; [done|]. rewrite Hp in Hkq. injection Hkq as <-. intros Hb'. by apply Hin. }
  split.
  - intros b Hb. assert (is_Some (keys r !! b)) as Hb'.
    { rewrite Hr in Hb. destruct (decide (b = a)) as [->|]; [by eexists|]. destruct (decide (b = p)) as [->|]; [by eexists|done]. }
    destruct (ro_chains _ _ R b Hb') as [l Hl]. apply (chain_cut r r' _ l); [|done]. intros c kc Hc. rewrite Hr.
    destruct (decide (c = a)); [exists k'; auto|]. destruct (decide (c = p)) as [->|]; [exists parent'; split; [done|]; left; congruence|exists kc; auto].
  - intros b kb Hb. rewrite Hr in Hb. destruct (decide (b = a)) as [->|Hba]; [injection Hb as <-|destruct (decide (b = p)) as [->|Hbp]; [injection Hb as <-|]].
    + pose proof (ro_keys _ _ R a k Ha) as Kk. assert (Hs0 : forall s, s ∈ subkeys k -> label <$> keys r' !! s = label <$> keys r !! s).
      { intros s Hs. apply Hlab, (Hsub a k s); [done..]. }
      split; rewrite ?E1, ?E2, ?E3, ?E4, ?E5; try apply Kk; try done.
      * destruct (ko_names _ _ _ _ Kk) as (names & F & S). exists names. split; [by apply (label_names r)|done].
      * intros s Hs. destruct (ko_children _ _ _ _ Kk s Hs) as (ks & Hks & H1 & H2). destruct (label_child r r' s ks (Hs0 s Hs) Hks) as (ks' & L0 & L1 & L2).
        exists ks'. by rewrite L1, L2.
    + split; try done.
      * destruct (ko_names _ _ _ _ K) as (names & F & S). exists (take i names ++ drop (Datatypes.S i) names). split; [|by apply remove_sorted].
        assert (F' : forall j x y, x <> a -> subkeys parent !! j = Some x -> names !! j = Some y -> has_name r' x y).
        { intros j x y Hx Hj Hy. apply (label_name r); [by apply Hlab|]. rewrite Forall2_same_length_lookup in F. by apply (proj2 F j). }
        rewrite Es. pose proof (Forall2_length _ _ _ F) as Hlen. apply Forall2_app; apply Forall2_same_length_lookup; (split; [rewrite ?length_take, ?length_drop; lia|]); intros j x y.
        -- rewrite !lookup_take_Some. intros [Hx Hj] [Hy _]. apply (F' j); [|done..]. intros ->. assert (j = i) by (eapply NoDup_lookup; done). lia.
        -- rewrite !lookup_drop. intros Hx Hy. apply (F' (Datatypes.S i + j)%nat); [|done..]. intros ->. assert (Datatypes.S i + j = i)%nat by (eapply NoDup_lookup; done). lia.
      * intros s. rewrite Hin, Epv. intros [Hne Hs]. destruct (ko_children _ _ _ _ K s Hs) as (ks & Hks & H1 & H2).
        destruct (label_child r r' s ks (Hlab s Hne) Hks) as (ks' & L0 & L1 & L2). exists ks'. by rewrite L1, L2.
      * rewrite Epp, Edel. intros q Hq. destruct (ko_parent _ _ _ _ K q Hq) as (H1 & kq & Hkq & H2). split; [done|].
        destruct (Hpar q kq p Hkq ltac:(done)) as (kq' & H3 & H4). exists kq'. auto.
      * intros w. rewrite Ew, Hin. case_bool_decide as Hw; [done|]. intros Hw'. split; [congruence|by apply K].
    + apply (key_ok_frame casemap r r' b kb); [by apply R|done|by apply (ko_values _ r b), R| |].
      * intros s Hs. apply Hlab, (Hsub b kb s Hbp Hb Hs).
      * intros q kq _ Hkq. by apply Hpar.
Qed.
End link.
