(* ===== verification/RegistryCreate.v ===== *)
(** * Creating registry keys

    Paths are looked up element by element and the lookup ends; create_key and
    key_unlink_name run to completion on well-formed registries; a created key is
    found under its name, and a failed creation leaves the tree as it was. *)

From Stdlib Require Import ZArith Lia Sorted.
From stdpp Require Import base list numbers option gmap.
From S2P Require Import Prelude Unicode UnicodeTheorems Memory Registry RegistryTree RegistrySearch RegistryValues RegistryOrder RegistryForest.

#[local] Open Scope Z_scope.
#[local] Open Scope server_scope.

Section create.
Context (casemap : Z -> Z).
#[local] Abbreviation values_ok := (values_ok casemap).
#[local] Abbreviation reg_ok := (reg_ok casemap).
#[local] Abbreviation key_ok := (key_ok casemap).

(** ** Allocation *)

Lemma mem_alloc_run (e : senv) : exists ok e', mem_alloc e = (ok, e') /\ (allocs e = [] -> ok = true /\ e' = e).
Proof. unfold mem_alloc, malloc, bind. destruct (allocs e) as [|[] l]; cbn; by eexists _, _. Qed.

Lemma malloc_run (e : senv) : exists ok e', malloc e = (ok, e') /\ error e' = error e /\ (allocs e = [] -> ok = true /\ e' = e).
Proof. unfold malloc. destruct (allocs e) as [|b l]; cbn; by eexists _, _. Qed.

(** Room for one more subkey. *)
Lemma subkeys_room k e :
  size_ok (length (subkeys k)) (nb_subkeys k) -> Z.of_nat (length (subkeys k)) < 2 ^ 30 ->
  exists k1 ok e1, (if Z.of_nat (length (subkeys k)) =? nb_subkeys k then grow_subkeys k else ret (k, true)) e = ((k1, ok), e1) /\
    (ok = true -> exists nb, k1 = set_subkeys k (subkeys k) nb /\ size_ok (S (length (subkeys k))) nb) /\ (allocs e = [] -> ok = true /\ e1 = e).
Proof.
  intros [Hn Hs] Hl. unfold size_ok. destruct (Z.eqb_spec (Z.of_nat (length (subkeys k))) (nb_subkeys k)) as [El|El].
  2: { exists k, true, e. split; [done|]. split; [|done]. intros _. exists (nb_subkeys k). split; [by destruct k|]. lia. }
  unfold grow_subkeys. destruct Hs as [Hz|[Hm _]].
  - rewrite Hz. cbn [Z.eqb negb]. destruct (mem_alloc_run e) as ([] & e1 & E & A); rewrite (bind_run _ _ _ _ _ E); cbn [negb].
    + eexists _, true, e1. split; [done|]. split; [|done]. intros _. eexists. split; [done|]. unfold MIN_SUBKEYS. lia.
    + eexists k, false, e1. split; [done|]. split; [done|]. intros Ha. by destruct (A Ha).
  - unfold MIN_SUBKEYS in *. rewrite (proj2 (Z.eqb_neq _ _)) by lia. cbn [negb].
    pose proof (Z.div_le_lower_bound (nb_subkeys k) 2 4 ltac:(lia) ltac:(lia)). pose proof (Z.div_le_upper_bound (nb_subkeys k) 2 (nb_subkeys k) ltac:(lia) ltac:(lia)).
    assert (Hi : i32 (nb_subkeys k + nb_subkeys k / 2) = nb_subkeys k + nb_subkeys k / 2) by (unfold i32; rewrite Z.mod_small; lia).
    destruct (malloc_run e) as ([] & e1 & E & _ & A); rewrite (bind_run _ _ _ _ _ E); cbn [negb].
    + eexists _, true, e1. split; [done|]. split; [|done]. intros _. eexists. split; [done|]. rewrite Hi. lia.
    + eexists k, false, _. split; [done|]. split; [done|]. intros Ha. by destruct (A Ha).
Qed.

(** ** Linking *)

(** The parent after a key has been put among its subkeys. *)
Record linked (r : registry) (a : Z) (name : list Z) (parent parent' : key) : Prop := {
  li_place : exists names i, Forall2 (has_name r) (subkeys parent) names /\ sorted_names casemap names /\ place casemap names name i /\
    subkeys parent' = take i (subkeys parent) ++ a :: drop i (subkeys parent);
  li_size : size_ok (length (subkeys parent')) (nb_subkeys parent');
  li_wow : wow6432node parent' = wow6432node parent \/ wow6432node parent' = Some a;
  li_rest : parent' = set_wow6432node (set_subkeys parent (subkeys parent') (nb_subkeys parent')) (wow6432node parent')
}.

Lemma key_link_name_run r a p parent name e :
  key_ok r p parent -> keys r !! p = Some parent -> (forall s, ~ subkey_of casemap r parent name s) -> Z.of_nat (length (subkeys parent)) < 2 ^ 30 ->
  exists r1 ok e1, key_link_name casemap r a name p e = (Some (r1, ok), e1) /\
    (if ok then exists parent', r1 = set_key r p parent' /\ linked r a name parent parent' else r1 = r) /\
    (allocs e = [] -> ok = true /\ e1 = e).
Proof.
  intros K Hp Hno Hl. unfold key_link_name. rewrite Hp. destruct (subkeys_room parent e (ko_size _ _ _ _ K) Hl) as (k1 & ok & e1 & E & Hok & A).
  rewrite (bind_run _ _ _ _ _ E). destruct ok; cbn [negb]; [|exists r, false, e1; split; [done|]; split; [done|]; intros Ha; by destruct (A Ha)].
  destruct (Hok eq_refl) as (nb & -> & Hsz). destruct (find_subkey_run casemap r p parent name K) as (names & i & F & S & [(_ & s & _ & Hs)|(Ef & P & _)]); [by destruct (Hno s)|].
  assert (find_subkey casemap r (set_subkeys parent (subkeys parent) nb) name = Some (false, Z.of_nat i)) as -> by exact Ef.
  cbn [subkeys nb_subkeys set_subkeys]. destruct (Z.leb_spec nb (Z.of_nat (length (subkeys parent)))) as [Hle|_]; [unfold size_ok in Hsz; lia|].
  rewrite Nat2Z.id. eexists _, true, e1. split; [done|]. split; [|done]. eexists. split; [done|].
  assert (Hlen : length (take i (subkeys parent) ++ a :: drop i (subkeys parent)) = Datatypes.S (length (subkeys parent))).
  { rewrite length_app. cbn. rewrite length_take, length_drop. lia. }
  destruct (negb _ && _ && _); (split; [by exists names, i|cbn [subkeys nb_subkeys set_subkeys set_wow6432node]; by rewrite Hlen|cbn; by auto|done]).
Qed.

(** ** Unlinking *)

(** The parent after its subkey at [i] has been taken out. *)
Record unlinked (a : Z) (i : nat) (parent parent' : key) : Prop := {
  un_subkeys : subkeys parent' = take i (subkeys parent) ++ drop (S i) (subkeys parent);
  un_size : size_ok (length (subkeys parent')) (nb_subkeys parent');
  un_wow : wow6432node parent' = if bool_decide (wow6432node parent = Some a) then None else wow6432node parent;
  un_rest : parent' = set_wow6432node (set_subkeys parent (subkeys parent') (nb_subkeys parent')) (wow6432node parent')
}.

Lemma shrunk_ok n nb nb' : size_ok n nb -> shrunk nb (Z.of_nat n - 1) MIN_SUBKEYS = Some nb' -> size_ok n nb'.
Proof. intros [H1 H2] H%shrunk_bounds. unfold size_ok, MIN_SUBKEYS, MIN_VALUES in *. lia. Qed.

Lemma find_address (l : list Z) a : a ∈ l -> exists i, list_find (fun x => x = a) l = Some (i, a) /\ l !! i = Some a.
Proof.
  intros Ha. destruct (list_find_elem_of (fun x => x = a) l a Ha eq_refl) as [[i x] E]. apply list_find_Some in E as H. destruct H as (Hi & -> & _). by exists i.
Qed.

Lemma key_unlink_name_run r a p k parent e :
  keys r !! a = Some k -> k_parent k = Some p -> keys r !! p = Some parent -> a <> p -> a ∈ subkeys parent ->
  size_ok (length (subkeys parent)) (nb_subkeys parent) ->
  exists r' e' i parent', key_unlink_name r a e = (Some r', e') /\ error e' = error e /\ subkeys parent !! i = Some a /\ unlinked a i parent parent' /\
    r' = set_keys r (keys r') /\
    forall b, keys r' !! b = if decide (b = a) then Some (set_name k [] None) else if decide (b = p) then Some parent' else keys r !! b.
Proof.
  intros Ha Hp Hparent Hne Hin Hsz. unfold key_unlink_name. rewrite Ha, Hp, Hparent. destruct (find_address _ _ Hin) as (i & -> & Hi).
  set (l := take i (subkeys parent) ++ drop (S i) (subkeys parent)). set (p1 := set_subkeys parent l (nb_subkeys parent)).
  set (p2 := if bool_decide (wow6432node p1 = Some a) then set_wow6432node p1 None else p1).
  assert (Hl : length l = pred (length (subkeys parent))).
  { apply lookup_lt_Some in Hi. unfold l. rewrite length_app, length_take, length_drop. lia. }
  assert (Hsz1 : size_ok (length l) (nb_subkeys parent)) by (unfold size_ok in *; lia).
  assert (U : forall nb, size_ok (length l) nb -> unlinked a i parent (set_subkeys p2 l nb)).
  { intros nb Hnb. unfold p2. cbn [wow6432node p1 set_subkeys]. split; case_bool_decide; done. }
  assert (Enb : nb_subkeys p2 = nb_subkeys parent) by (unfold p2; by case_bool_decide).
  assert (E2 : p2 = set_subkeys p2 l (nb_subkeys parent)) by (unfold p2; by case_bool_decide).
  assert (Look : forall p', forall b, keys (set_key (set_key (set_key r p p2) a (set_name k [] None)) p p') !! b =
    if decide (b = a) then Some (set_name k [] None) else if decide (b = p) then Some p' else keys r !! b).
  { intros p' b. rewrite !set_key_lookup. destruct (decide (b = p)), (decide (b = a)); congruence. }
  assert (Look2 : forall b, keys (set_key (set_key r p p2) a (set_name k [] None)) !! b =
    if decide (b = a) then Some (set_name k [] None) else if decide (b = p) then Some p2 else keys r !! b).
  { intros b. by rewrite !set_key_lookup. }
  pose proof (U _ Hsz1) as U2. rewrite <-E2 in U2. rewrite Enb. destruct (shrunk _ _ _) as [nb|] eqn:Esh.
  - pose proof (shrunk_ok _ _ _ Hsz1 Esh) as Hnb. destruct (malloc_run e) as ([] & e1 & E & Ee & _); rewrite (bind_run _ _ _ _ _ E).
    + eexists _, e1, i, (set_subkeys p2 l nb). split; [done|]. by repeat (split; [by auto|]).
    + eexists _, e1, i, p2. split; [done|]. by repeat (split; [by auto|]).
  - eexists _, e, i, p2. split; [done|]. by repeat (split; [by auto|]).
Qed.

(** ** create_key *)

(** The new key is a subkey of its parent, nothing else has changed. *)
Record created (r r' : registry) (a p : Z) (parent : key) (name : list Z) (options : Z) : Prop := {
  cr_new : exists k, keys r' !! a = Some k /\ new_key k name p /\ volatile k = has_bits options REG_OPTION_VOLATILE /\
    has_bits (k_flags k) KEY_SYMLINK = has_bits options REG_OPTION_CREATE_LINK;
  cr_parent : exists parent' nb w, keys r' !! p = Some parent' /\ contents parent' = contents (set_wow6432node (set_subkeys parent (subkeys parent') nb) w) /\
    (forall s, s ∈ subkeys parent' <-> s = a \/ s ∈ subkeys parent) /\ subkey_of casemap r' parent' name a;
  cr_others : forall b, b <> a -> b <> p -> contents <$> keys r' !! b = contents <$> keys r !! b
}.

Lemma created_touched r r1 r' a p parent name options : created r r1 a p parent name options -> touched r1 r' -> created r r' a p parent name options.
Proof.
  intros [(k & Hk & N & Hv & Hs) (pa & nb & w & Hp & Ec & Hin & S) Ho] T. destruct (touched_lookup _ _ _ _ T Hk) as (k' & Hk' & E).
  destruct (touched_lookup _ _ _ _ T Hp) as (pa' & Hp' & E'). assert (Esub : subkeys pa' = subkeys pa) by exact (f_equal subkeys E'). split.
  - exists k'. destruct (contents_links _ _ E) as [El Eb]. injection El as L1 L2 L3 L4 L5 L6. injection Eb as B1 B2 B3. split; [done|]. destruct N as [N1 N2 N3].
    split; [|split; [by rewrite L5|rewrite <-Hs; by apply contents_flags]]. split; [by rewrite B1, B2| |by rewrite L6].
    rewrite L1, L2, L4. assert (values k' = values k) as -> by exact (f_equal values E). by assert (nb_values k' = nb_values k) as -> by exact (f_equal nb_values E).
  - exists pa', nb, w. rewrite Esub. split; [done|]. split; [by rewrite E'|]. split; [done|]. destruct S as (S1 & ks & S2 & S3). split; [by rewrite Esub|].
    rewrite Hk in S2. injection S2 as <-. exists k'. split; [done|]. assert (k_name k' = k_name k) as -> by exact (f_equal k_name E). done.
  - intros b H1 H2. rewrite (to_contents _ _ T). by apply Ho.
Qed.

(** The tree is as before. *)
Definition uncreated (r r' : registry) (a p : Z) (parent : key) : Prop :=
  keys r' !! a = None /\ (forall b, b <> p -> keys r' !! b = keys r !! b) /\
  exists nb w, keys r' !! p = Some (set_wow6432node (set_subkeys parent (subkeys parent) nb) w).

Definition must_be_volatile (parent : key) (options : Z) : bool := volatile parent && negb (has_bits options REG_OPTION_VOLATILE).

Lemma uncreated_same r a p parent : keys r !! a = None -> keys r !! p = Some parent -> uncreated r r a p parent.
Proof. intros Ha Hp. split; [done|]. split; [done|]. exists (nb_subkeys parent), (wow6432node parent). rewrite Hp. by destruct parent. Qed.

Lemma link_flags (options f : Z) : let link := if has_bits options REG_OPTION_CREATE_LINK then KEY_SYMLINK else 0 in
  f = KEY_VOLATILE \/ f = KEY_DIRTY ->
  has_bits (Z.lor link f) KEY_SYMLINK = has_bits options REG_OPTION_CREATE_LINK /\ has_bits (Z.lor link f) KEY_DELETED = false /\
  has_bits (Z.lor link f) KEY_VOLATILE = (f =? KEY_VOLATILE).
Proof. cbn zeta. intros [->| ->]; by destruct (has_bits options REG_OPTION_CREATE_LINK). Qed.

Lemma linked_reg_ok r a p parent parent' name f options modif :
  reg_ok r -> keys r !! p = Some parent -> keys r !! a = None -> linked r a name parent parent' ->
  f = (if has_bits options REG_OPTION_VOLATILE then KEY_VOLATILE else KEY_DIRTY) -> must_be_volatile parent options = false ->
  let link := if has_bits options REG_OPTION_CREATE_LINK then KEY_SYMLINK else 0 in
  let r' := set_key (set_key r p parent') a (mk_key name (Some p) None [] 0 None [] 0 (Z.lor link f) modif [] 0) in
  reg_ok r' /\ created r r' a p parent name options.
Proof.
  intros R Hp Ha L Hf Hv link r'. destruct (li_place _ _ _ _ _ L) as (names & i & F & S & P & Es). pose proof (li_rest _ _ _ _ _ L) as Er.
  set (k := mk_key _ _ _ _ _ _ _ _ _ _ _ _) in r'. assert (Hap : a <> p) by congruence.
  destruct (link_flags options f) as (F1 & F2 & F3); [rewrite Hf; destruct (has_bits _ _); auto|]. fold link in F1, F2, F3.
  assert (Fv : (f =? KEY_VOLATILE) = has_bits options REG_OPTION_VOLATILE) by (rewrite Hf; by destruct (has_bits _ _)). rewrite Fv in F3.
  assert (N : new_key k name p) by (by split).
  assert (Look : forall b, keys r' !! b = if decide (b = a) then Some k else if decide (b = p) then Some parent' else keys r !! b) by (intros b; unfold r'; by rewrite !set_key_lookup).
  pose proof (ko_values _ _ _ _ (ro_keys _ _ R p parent Hp)) as V.
  split.
  - apply (link_reg_ok casemap r r' a p parent parent' k name names i); [done..| | | |done|apply L|apply L|done|].
    + by rewrite Er.
    + by rewrite Er.
    + rewrite Er. by destruct V.
    + unfold must_be_volatile, volatile in *. intros Ev. rewrite Ev in Hv. cbn [k_flags k]. rewrite F3. by destruct (has_bits options _).
  - split.
    + exists k. by rewrite Look, decide_True.
    + exists parent', (nb_subkeys parent'), (wow6432node parent'). rewrite Look, decide_False, decide_True by done. split; [done|]. split; [exact (f_equal contents Er)|].
      assert (Hin : forall s, s ∈ subkeys parent' <-> s = a \/ s ∈ subkeys parent) by (intros s; rewrite Es; exact (insert_elem (subkeys parent) i a s)). split; [done|].
      split; [apply Hin; by left|]. exists k. rewrite Look, decide_True by done. split; [done|]. by apply cmp_zero.
    + intros b H1 H2. rewrite Look, !decide_False; done.
Qed.

(** Putting a key among the subkeys and taking it out again. *)
Lemma link_unlink (l : list Z) i j a : a ∉ l -> (i <= length l)%nat -> (take i l ++ a :: drop i l) !! j = Some a ->
  take j (take i l ++ a :: drop i l) ++ drop (S j) (take i l ++ a :: drop i l) = l.
Proof.
  intros Ha Hi Hj. assert (length (take i l) = i) as Hli by (rewrite length_take; lia). assert (j = i) as ->.
  { destruct (decide (j < i)%nat) as [H|H].
    - rewrite lookup_app_l in Hj by lia. destruct Ha. apply lookup_take_Some in Hj as [Hj _]. by eapply list_elem_of_lookup_2.
    - rewrite lookup_app_r in Hj by lia. rewrite Hli in Hj. destruct (j - i)%nat as [|m] eqn:Em; [lia|]. change (drop i l !! m = Some a) in Hj. rewrite lookup_drop in Hj.
      destruct Ha. by eapply list_elem_of_lookup_2. }
  rewrite take_app_length' by done. replace (S i) with (length (take i l) + 1)%nat by lia. rewrite drop_app_add. cbn. by rewrite drop_0, take_drop.
Qed.

(** Creation below a volatile key without asking for a volatile key. *)
Lemma create_volatile_fails r a p parent parent' name link modif e :
  reg_ok r -> keys r !! p = Some parent -> keys r !! a = None -> linked r a name parent parent' ->
  let r1 := set_key (set_key r p parent') a (mk_key name (Some p) None [] 0 None [] 0 link modif [] 0) in
  exists r2 e', key_unlink_name r1 a e = (Some r2, e') /\ error e' = error e /\ reg_ok (set_keys r2 (delete a (keys r2))) /\
    uncreated r (set_keys r2 (delete a (keys r2))) a p parent.
Proof.
  intros R Hp Ha L r1. destruct (li_place _ _ _ _ _ L) as (names & i & F & S & P & Es). pose proof (li_rest _ _ _ _ _ L) as Er.
  pose proof (ro_keys _ _ R p parent Hp) as K. assert (Hap : a <> p) by congruence. set (k := mk_key _ _ _ _ _ _ _ _ _ _ _ _) in r1.
  assert (Hr1a : keys r1 !! a = Some k) by (unfold r1; by rewrite !set_key_lookup, decide_True).
  assert (Hr1p : keys r1 !! p = Some parent') by (unfold r1; rewrite !set_key_lookup, decide_False, decide_True by done; done).
  assert (Hna : a ∉ subkeys parent) by (intros Hin; destruct (ko_children _ _ _ _ K a Hin) as (? & ? & _); congruence).
  destruct (key_unlink_name_run r1 a p k parent' e Hr1a eq_refl Hr1p Hap) as (r2 & e' & j & p2 & E & Ee & Hj & U & Er2 & Look); [rewrite Es; apply insert_elem; by left|apply L|].
  exists r2, e'. split; [done|]. split; [done|]. pose proof (un_rest _ _ _ _ U) as Eu.
  assert (Esub : subkeys p2 = subkeys parent).
  { rewrite (un_subkeys _ _ _ _ U), Es. rewrite Es in Hj. apply link_unlink; [done| |done]. rewrite (Forall2_length _ _ _ F). apply P. }
  assert (Ep2 : p2 = set_wow6432node (set_subkeys parent (subkeys parent) (nb_subkeys p2)) (wow6432node p2)).
  { rewrite <-Esub. rewrite Eu at 1. rewrite Er. done. }
  set (r' := set_keys r2 (delete a (keys r2))).
  assert (Look' : forall b, keys r' !! b = keys (set_key r p p2) !! b).
  { intros b. unfold r'. cbn [keys set_keys]. rewrite set_key_lookup. destruct (decide (b = a)) as [->|Hb]; [rewrite lookup_delete_eq, decide_False; done|].
    rewrite lookup_delete_ne, Look, decide_False by done. case_decide; [done|]. unfold r1. by rewrite !set_key_lookup, !decide_False. }
  assert (r' = set_key r p p2) as ->.
  { unfold r', set_key, set_keys. rewrite Er2. cbn. f_equal; [|unfold r1; done..]. apply map_eq. exact Look'. }
  split.
  - apply (relink_reg_ok casemap r p parent); [done|done|by rewrite Ep2|by rewrite Ep2|done|rewrite Ep2; by destruct (ko_values _ _ _ _ K)|apply U|].
    intros w. rewrite (un_wow _ _ _ _ U), Esub. destruct (li_wow _ _ _ _ _ L) as [Ew|Ew]; rewrite Ew; (case_bool_decide as Hb; [done|]).
    + apply K.
    + done.
  - split; [by rewrite set_key_lookup, decide_False|]. split; [intros b Hb; by rewrite set_key_lookup, decide_False|].
    exists (nb_subkeys p2), (wow6432node p2). rewrite set_key_lookup, decide_True by done. by rewrite <-Ep2.
Qed.

(** A key whose name the parent does not have yet. *)
Lemma new_key_run r a p parent name options modif e :
  reg_ok r -> keys r !! p = Some parent -> keys r !! a = None -> (forall s, ~ subkey_of casemap r parent name s) ->
  Z.of_nat (length (subkeys parent)) < 2 ^ 30 ->
  exists r' ok e', new_key_object casemap r a p name options modif e = (Some (r', ok), e') /\ reg_ok r' /\
    (if ok then created r r' a p parent name options else uncreated r r' a p parent) /\
    (allocs e = [] -> ok = negb (must_be_volatile parent options) /\ error e' = if ok then error e else STATUS_CHILD_MUST_BE_VOLATILE).
Proof.
  intros R Hp Ha Hno Hl. pose proof (uncreated_same r a p parent Ha Hp) as Hsame. unfold new_key_object.
  assert (Fail : forall e' : senv, (allocs e = [] -> False) -> exists (r' : registry) (ok : bool) (e'' : senv), (Some (r, false), e') = (Some (r', ok), e'') /\ reg_ok r' /\
     (if ok then created r r' a p parent name options else uncreated r r' a p parent) /\
     (allocs e = [] -> ok = negb (must_be_volatile parent options) /\ error e'' = if ok then error e else STATUS_CHILD_MUST_BE_VOLATILE)).
  { intros e' HA. exists r, false, e'. split; [done|]. split; [done|]. split; [done|]. intros Hal. by destruct (HA Hal). }
  destruct (mem_alloc_run e) as (ok1 & e1 & E1 & A1). destruct ok1.
  2: { rewrite (bind_run _ _ _ _ _ E1). cbn [negb]. apply Fail. intros Hal. by destruct (A1 Hal). }
  rewrite (bind_run _ _ _ _ _ E1). cbn [negb]. destruct (mem_alloc_run e1) as (ok2 & e2 & E2 & A2). rewrite (bind_run _ _ _ _ _ E2). destruct ok2; cbn [negb].
  2: { apply Fail. intros Hal. destruct (A1 Hal) as [_ ->]. by destruct (A2 Hal). }
  destruct (key_link_name_run r a p parent name e2 (ro_keys _ _ R p parent Hp) Hp Hno Hl) as (r1 & ok3 & e3 & E3 & H3 & A3). rewrite (bind_run _ _ _ _ _ E3).
  assert (A : allocs e = [] -> ok3 = true /\ e3 = e) by (intros Hal; destruct (A1 Hal) as [_ ->], (A2 Hal) as [_ ->]; by apply A3).
  destruct ok3; [|subst r1; apply Fail; intros Hal; by destruct (A Hal)]. destruct H3 as (parent' & -> & L).
  assert (Ef : k_flags parent' = k_flags parent) by (rewrite (li_rest _ _ _ _ _ L); done). rewrite set_key_lookup, decide_True by done. rewrite Ef. fold (volatile parent).
  set (link := if has_bits options REG_OPTION_CREATE_LINK then KEY_SYMLINK else 0).
  destruct (has_bits options REG_OPTION_VOLATILE) eqn:Ev; [|destruct (volatile parent) eqn:Epv].
  2: { unfold set_error, bind. destruct (create_volatile_fails r a p parent parent' name link modif (mk_senv STATUS_CHILD_MUST_BE_VOLATILE (allocs e3)) R Hp Ha L) as (r2 & e' & E & Ee & R2 & U).
       rewrite E. eexists _, false, e'. split; [done|]. split; [done|]. split; [done|]. intros _. unfold must_be_volatile. by rewrite Epv, Ev. }
  all: assert (Hm : must_be_volatile parent options = false) by (unfold must_be_volatile; rewrite Ev; by destruct (volatile parent)).
  all: edestruct (linked_reg_ok r a p parent parent' name _ options modif R Hp Ha L eq_refl Hm) as [R1 C1]; rewrite Ev in R1, C1; fold link in R1, C1.
  all: eexists _, true, e3; split; [done|]; split; [done|]; split; [done|]; intros Hal; destruct (A Hal) as [_ ->]; by rewrite Hm.
Qed.
(** Memory that is there leaves the error alone. *)
Lemma mem_alloc_error (e e' : senv) : mem_alloc e = (true, e') -> error e' = error e.
Proof. unfold mem_alloc, malloc, bind. destruct (allocs e) as [|[] l]; cbn; intros [= <-]; done. Qed.

Lemma malloc_error ok (e e' : senv) : malloc e = (ok, e') -> error e' = error e.
Proof. unfold malloc. destruct (allocs e) as [|b l]; by intros [= <- <-]. Qed.

Lemma grow_subkeys_error k k' (e e' : senv) : grow_subkeys k e = ((k', true), e') -> error e' = error e.
Proof.
  unfold grow_subkeys, bind. destruct (negb _).
  - destruct (malloc e) as [[] e1] eqn:E; [|done]. intros [= _ <-]. by apply malloc_error in E.
  - destruct (mem_alloc e) as [[] e1] eqn:E; [|done]. intros [= _ <-]. by apply mem_alloc_error in E.
Qed.

Lemma key_link_name_error r a name p r' (e e' : senv) : key_link_name casemap r a name p e = (Some (r', true), e') -> error e' = error e.
Proof.
  unfold key_link_name. destruct (keys r !! p) as [k|]; [|done]. unfold bind.
  destruct ((if Z.of_nat (length (subkeys k)) =? nb_subkeys k then grow_subkeys k else ret (k, true)) e) as [[k1 ok] e1] eqn:E.
  destruct ok; [|done]. cbn [negb]. assert (error e1 = error e) as <-.
  { destruct (_ =? _); [by apply grow_subkeys_error in E|by injection E as _ <-]. }
  destruct (find_subkey casemap r k1 name) as [[b i]|]; [|done]. destruct (_ <=? _); [done|]. by intros [= _ <-].
Qed.

Lemma new_key_error r a p name options modif r' (e e' : senv) :
  new_key_object casemap r a p name options modif e = (Some (r', true), e') -> error e' = error e.
Proof.
  unfold new_key_object, bind. destruct (mem_alloc e) as [[] e1] eqn:E1; [|done]. apply mem_alloc_error in E1 as <-. cbn [negb].
  destruct (mem_alloc e1) as [[] e2] eqn:E2; [|done]. apply mem_alloc_error in E2 as <-. cbn [negb].
  destruct (key_link_name casemap r a name p e2) as [[[r1 []]|] e3] eqn:E3; [|done..]. apply key_link_name_error in E3 as <-.
  destruct (keys r1 !! p) as [k|]; [|done]. destruct (has_bits options REG_OPTION_VOLATILE); [by intros [= _ <-]|].
  destruct (has_bits (k_flags k) KEY_VOLATILE); [|by intros [= _ <-]]. cbn. destruct (key_unlink_name _ _ _) as [[r2|] e4]; done.
Qed.

(** ** Paths *)

(** A path: an element, separators, and the rest. *)
Definition element (n : list Z) : Prop := n <> [] /\ 92 ∉ n.

Definition separated (n : nat) (rest : list Z) : Prop := rest = [] \/ (n <> O /\ head rest <> Some 92 /\ rest <> []).

Lemma path_element_sep n : forall m rest, 92 ∉ n -> separated m rest -> get_path_element (n ++ replicate m 92 ++ rest) = length n.
Proof.
  induction n as [|c n IH]; intros m rest Hn Hs; cbn.
  - destruct Hs as [->|(Hm & _)]; [by destruct m|by destruct m].
  - apply not_elem_of_cons in Hn as [Hc Hn]. rewrite (proj2 (Z.eqb_neq c 92)) by done. by rewrite IH.
Qed.

Lemma count_backslashes_sep m rest : head rest <> Some 92 -> count_backslashes (replicate m 92 ++ rest) = m.
Proof.
  induction m as [|m IH]; intros Hr; cbn; [|by rewrite IH]. destruct rest as [|c rest]; [done|]. cbn. destruct (Z.eqb_spec c 92); [subst; done|done].
Qed.

Lemma separated_head m rest : separated m rest -> head rest <> Some 92.
Proof. by intros [->|(_ & ? & _)]. Qed.

Lemma drop_sep (n : list Z) m rest : drop (length n + m) (n ++ replicate m 92 ++ rest) = rest.
Proof. rewrite <-drop_drop, drop_app_length, drop_app_length' by (by rewrite length_replicate). done. Qed.

(** Every found element shortens the path. *)
Lemma path_shorter name : name <> [] ->
  (length (drop (get_path_element name + count_backslashes (drop (get_path_element name) name)) name) < length name)%nat.
Proof.
  intros Hn. rewrite length_drop. destruct name as [|c name]; [done|]. cbn [get_path_element]. destruct (Z.eqb_spec c 92) as [->|]; cbn; lia.
Qed.

(** ** Looking up *)

Section lookup.
Context (lookup_absolute : registry -> list Z -> M (option (Z * list Z))).
#[local] Abbreviation step := (key_lookup_name casemap lookup_absolute).
#[local] Abbreviation loop := (lookup_loop casemap lookup_absolute).

Definition symlink (k : key) : bool := has_bits (k_flags k) KEY_SYMLINK.

(** The key [q] has no subkey of that name. *)
Definition missing (r : registry) (q : Z) (name : list Z) : Prop :=
  exists kq, keys r !! q = Some kq /\ forall s, ~ subkey_of casemap r kq name s.

(** What the lookup of a path from the root of the namespace comes to: an error, or
    a key that is no link, and nothing or a name it does not have left. *)
Definition absolute_ok (r : registry) : Prop := forall path e,
  match lookup_absolute r path e with
  | (None, e') => error e' <> 0
  | (Some (d, rem), e') => exists kd, keys r !! d = Some kd /\ symlink kd = false /\
      (rem = [] \/ element rem /\ Z.of_nat (length rem) <= MAX_NAME_LEN /\ forall s, ~ subkey_of casemap r kd rem s)
  end.

Lemma subkey_index r p kp name : reg_ok r -> keys r !! p = Some kp ->
  exists i, (find_subkey casemap r kp name = Some (true, Z.of_nat i) /\ exists s ks, subkeys kp !! i = Some s /\ keys r !! s = Some ks /\ deleted ks = false /\ subkey_of casemap r kp name s) \/
    (find_subkey casemap r kp name = Some (false, Z.of_nat i) /\ forall s, ~ subkey_of casemap r kp name s).
Proof.
  intros R Hp. pose proof (ro_keys _ _ R p kp Hp) as K. destruct (find_subkey_run casemap r p kp name K) as (names & i & _ & _ & [(E & s & Hs & Hn)|(E & _ & Hn)]); exists i; [left|by right].
  split; [done|]. pose proof Hn as (Hin & ks & Hks & _). destruct (ko_children _ _ _ _ K s Hin) as (ks' & Hks' & Hpar & _). rewrite Hks in Hks'. injection Hks' as <-.
  exists s, ks. split; [done|]. split; [done|]. split; [|done]. by destruct (ko_parent _ _ _ _ (ro_keys _ _ R s ks Hks) p Hpar).
Qed.

Lemma step_deleted r a k name attr e : keys r !! a = Some k -> deleted k = true ->
  step r a name attr e = Some (Stop name, mk_senv STATUS_KEY_DELETED (allocs e)).
Proof. intros Hk Hd. unfold key_lookup_name, ubind, try. unfold deleted in Hd. by rewrite Hk, Hd. Qed.

Lemma step_end r a k attr e : keys r !! a = Some k -> deleted k = false -> symlink k = false \/ has_bits attr OBJ_OPENLINK = true ->
  step r a [] attr e = Some (Stop [], e).
Proof.
  intros Hk Hd Hl. unfold key_lookup_name, ubind, try. unfold deleted, symlink in *. rewrite Hk, Hd.
  destruct (has_bits (k_flags k) KEY_SYMLINK); [|done]. destruct Hl as [|Hl]; [done|]. by rewrite Hl.
Qed.

(** An element of a path below a key that is no link. *)
Lemma step_element r p kp n m rest attr e :
  reg_ok r -> keys r !! p = Some kp -> deleted kp = false -> symlink kp = false -> element n -> separated m rest ->
  if MAX_NAME_LEN <? Z.of_nat (length n)
  then step r p (n ++ replicate m 92 ++ rest) attr e = Some (Stop (n ++ replicate m 92 ++ rest), mk_senv STATUS_INVALID_PARAMETER (allocs e))
  else (forall s, subkey_of casemap r kp n s -> step r p (n ++ replicate m 92 ++ rest) attr e = Some (Next s rest, e)) /\
    ((forall s, ~ subkey_of casemap r kp n s) -> step r p (n ++ replicate m 92 ++ rest) attr e =
       match rest with
       | [] => Some (Stop n, e)
       | _ :: _ => Some (Stop (n ++ replicate m 92 ++ rest), mk_senv STATUS_OBJECT_NAME_NOT_FOUND (allocs e))
       end).
Proof.
  intros R Hp Hd Hl [Hn Hb] Hs. unfold key_lookup_name, ubind, try, lift, uret, fail. unfold deleted, symlink in *. rewrite Hp, Hd, Hl.
  rewrite bool_decide_eq_false_2 by (by destruct n). rewrite path_element_sep by done.
  destruct (_ <? _); [done|]. rewrite take_app_length, drop_app_length, count_backslashes_sep, drop_sep by (by eapply separated_head).
  destruct (subkey_index r p kp n R Hp) as (i & [(-> & s & ks & Hi & _ & _ & Hsub)|(-> & Hno)]).
  - split; [|intros Hno; by destruct (Hno s)]. intros s' Hs'. rewrite Nat2Z.id, Hi.
    by rewrite (subkey_of_unique casemap r p kp n s s' (ro_keys _ _ R p kp Hp)).
  - split; [intros s Hsub; by destruct (Hno s)|]. intros _. rewrite !length_app, length_replicate. destruct rest as [|c rest].
    + by rewrite (proj2 (Nat.ltb_ge _ _)) by (cbn; lia).
    + by rewrite (proj2 (Nat.ltb_lt _ _)) by (cbn; lia).
Qed.

(** More steps than needed change nothing. *)
Lemma loop_more n : forall m r a name attr e x, loop n r a name attr e = Some x -> (n <= m)%nat -> loop m r a name attr e = Some x.
Proof.
  induction n as [|n IH]; intros [|m] r a name attr e x E Hm; [done..|lia|]. cbn [lookup_loop] in *. unfold ubind in *.
  destruct (step r a name attr e) as [[[|] e1]|]; [done| |done]. apply IH; [done|lia].
Qed.

(** Every lookup comes to an end. *)
Lemma link_path_run r a k : reg_ok r -> keys r !! a = Some k -> exists path, link_path casemap k = Some path.
Proof.
  intros R Hk. unfold link_path. destruct (find_value_run casemap k symlink_value (ko_values _ _ _ _ (ro_keys _ _ R a k Hk))) as [i Hi].
  destruct (value_of casemap (values k) symlink_value) as [v|]; destruct Hi as [-> Hi]; cbn; [rewrite Nat2Z.id, Hi|]; by eexists.
Qed.

Lemma follow_run r a k name e : reg_ok r -> absolute_ok r -> keys r !! a = Some k ->
  exists s e', follow_symlink casemap lookup_absolute r k name e = Some (s, e') /\
    match s with
    | Stop _ => error e' <> 0
    | Next d rem => exists kd, keys r !! d = Some kd /\ symlink kd = false /\
        (rem = name \/ name = [] /\ element rem /\ Z.of_nat (length rem) <= MAX_NAME_LEN /\ forall s, ~ subkey_of casemap r kd rem s)
    end.
Proof.
  intros R A Hk. unfold follow_symlink, ubind, try, lift, uret. destruct (link_path_run r a k R Hk) as [path ->].
  destruct (negb _); [by eexists _, _|]. specialize (A path e). destruct (lookup_absolute r path e) as [[[d rem]|] e'].
  2: { eexists _, e'. split; [done|]. exact A. }
  destruct A as (kd & Hd & Hl & Hm). case_bool_decide as Hn; [|case_bool_decide as Hn'].
  - eexists _, e'. split; [done|]. exists kd. split; [done|]. split; [done|]. subst name. destruct Hm as [->|?]; [by left|by right].
  - eexists _, e'. split; [done|]. exists kd. split; [done|]. split; [done|]. by left.
  - by eexists _, _.
Qed.

(** A name that is missing ends the lookup, and so does the end of the path. *)
Lemma step_stops r q kq rem attr e :
  reg_ok r -> keys r !! q = Some kq -> symlink kq = false ->
  rem = [] \/ element rem /\ Z.of_nat (length rem) <= MAX_NAME_LEN /\ (forall s, ~ subkey_of casemap r kq rem s) ->
  exists rem' e', step r q rem attr e = Some (Stop rem', e') /\ (error e' = 0 -> rem' = rem).
Proof.
  intros R Hq Hl H. destruct (deleted kq) eqn:Hd; [rewrite (step_deleted r q kq) by done; by eexists _, _|].
  destruct H as [->|(Hn & Hm & Hno)]; [rewrite (step_end r q kq) by auto; by eexists _, _|].
  pose proof (step_element r q kq rem O [] attr e R Hq Hd Hl Hn (or_introl eq_refl)) as H.
  rewrite (proj2 (Z.ltb_ge _ _)) in H by done. destruct H as [_ H]. cbn in H. rewrite app_nil_r in H. rewrite H by done. by eexists _, _.
Qed.

Lemma stop_name r q kq rem : keys r !! q = Some kq ->
  rem = [] \/ element rem /\ Z.of_nat (length rem) <= MAX_NAME_LEN /\ (forall s, ~ subkey_of casemap r kq rem s) -> rem = [] \/ missing r q rem.
Proof. intros Hq [H|(_ & _ & H)]; [by left|]. right. by exists kq. Qed.

(** The outcome of a step from a key that is no link. *)
Lemma step_run r a k name attr e : reg_ok r -> keys r !! a = Some k -> symlink k = false -> name <> [] ->
  exists s e', step r a name attr e = Some (s, e') /\
    match s with
    | Stop rem => error e' = 0 -> missing r a rem
    | Next b rest => is_Some (keys r !! b) /\ (length rest < length name)%nat
    end.
Proof.
  intros R Hk Hl Hn. unfold key_lookup_name, ubind, try, lift, uret. rewrite Hk. destruct (has_bits (k_flags k) KEY_DELETED); [by eexists _, _|].
  unfold symlink in Hl. rewrite Hl. rewrite bool_decide_eq_false_2 by done. destruct (_ <? _); [by eexists _, _|].
  destruct (subkey_index r a k (take (get_path_element name) name) R Hk) as (i & [(-> & s & ks & Hi & Hks & _)|(-> & Hno)]).
  - rewrite Nat2Z.id, Hi. eexists _, e. split; [done|]. split; [by eexists|]. by apply path_shorter.
  - destruct (_ <? _)%nat; [by eexists _, _|]. eexists _, e. split; [done|]. intros _. by exists k.
Qed.

Lemma loop_run fuel : forall r a k name attr e, reg_ok r -> absolute_ok r -> keys r !! a = Some k ->
  (2 * length name + (if symlink k then 2 else 1) <= fuel)%nat ->
  exists b rem e', loop fuel r a name attr e = Some ((b, rem), e') /\ is_Some (keys r !! b) /\ (error e' = 0 -> rem = [] \/ missing r b rem).
Proof.
  induction fuel as [|fuel IH]; intros r a k name attr e R A Hk Hf; [destruct (symlink k); lia|]. cbn [lookup_loop]. unfold ubind at 1.
  destruct (symlink k) eqn:Hl.
  - destruct (deleted k) eqn:Hd; [rewrite (step_deleted r a k) by done; eexists _, _, _; split; [done|]; split; [by eexists|done]|].
    unfold key_lookup_name, ubind at 1, try at 1. unfold deleted, symlink in Hd, Hl. rewrite Hk, Hd, Hl.
    destruct (bool_decide (name = []) && has_bits attr OBJ_OPENLINK) eqn:Ho.
    + apply andb_prop in Ho as [->%bool_decide_eq_true _]. eexists _, _, _. split; [done|]. split; [by eexists|by left].
    + destruct (follow_run r a k name e R A Hk) as ([rem|d rem] & e1 & -> & H).
      * eexists _, _, _. split; [done|]. split; [by eexists|done].
      * destruct H as (kd & Hkd & Hld & [->|(-> & Hm)]); [apply (IH r d kd); [done..|rewrite Hld; lia]|].
        destruct fuel as [|fuel]; [lia|]. cbn [lookup_loop]. unfold ubind.
        destruct (step_stops r d kd rem attr e1 R Hkd Hld (or_intror Hm)) as (rem' & e2 & -> & H). eexists _, _, _. split; [done|]. split; [by eexists|].
        intros E. rewrite (H E). apply (stop_name r d kd); [done|by right].
  - destruct (decide (name = [])) as [->|Hn].
    + destruct (step_stops r a k [] attr e R Hk Hl (or_introl eq_refl)) as (rem & e1 & -> & H). eexists _, _, _. split; [done|]. split; [by eexists|].
      intros E. left. by apply H.
    + destruct (step_run r a k name attr e R Hk Hl Hn) as ([rem|b rest] & e1 & -> & H).
      * eexists _, _, _. split; [done|]. split; [by eexists|]. intros E. right. by apply H.
      * destruct H as [[kb Hkb] Hlt]. apply (IH r b kb); [done..|]. destruct (symlink kb); lia.
Qed.

Lemma lookup_named_run r p name attr e : reg_ok r -> absolute_ok r -> is_Some (keys r !! p) ->
  exists x e', lookup_named_object casemap lookup_absolute r p name attr e = Some (x, e') /\
    match x with
    | None => True
    | Some (b, rem) => error e' = 0 /\ is_Some (keys r !! b) /\ (name = [] -> b = p /\ rem = []) /\ (rem = [] \/ missing r b rem)
    end.
Proof.
  intros R A [k Hk]. unfold lookup_named_object. destruct name as [|c name]; [eexists _, _; split; [done|]; split; [done|]; split; [by eexists|]; auto|].
  destruct (c =? 92); [by eexists _, _|]. unfold ubind, lift, uret.
  destruct (loop_run (2 * length (c :: name) + 4) r p k (c :: name) attr (snd (clear_error e)) R A Hk) as (b & rem & e' & E & Hb & H); [destruct (symlink k); lia|].
  change (clear_error e) with (tt, snd (clear_error e)). cbn iota. rewrite E. unfold get_error. destruct (Z.eqb_spec (error e') 0); [|by eexists _, _].
  eexists _, e'. split; [done|]. split_and!; [done..|by apply H].
Qed.

(** ** create_key *)

#[local] Abbreviation create_key := (create_key casemap lookup_absolute).

Definition room (r : registry) : Prop := forall b kb, keys r !! b = Some kb -> Z.of_nat (length (subkeys kb)) < 2 ^ 30.

(** What follows the lookup in create_key. *)
Lemma created_finish r r1 a q kq name options (e : senv) :
  reg_ok r1 -> created r r1 a q kq name options ->
  exists r2 k, keys r1 !! a = Some k /\ k_parent k = Some q /\ touch_key r1 q REG_NOTIFY_CHANGE_NAME = Some r2 /\ reg_ok r2 /\ created r r2 a q kq name options.
Proof.
  intros R1 C. destruct (cr_new _ _ _ _ _ _ _ C) as (k & Hk & N & _). destruct (cr_parent _ _ _ _ _ _ _ C) as (kq' & _ & _ & Hq & _).
  destruct (touch_reg_ok casemap r1 q REG_NOTIFY_CHANGE_NAME R1 ltac:(by eexists)) as (r2 & E & T & R2).
  exists r2, k. split; [done|]. split; [apply N|]. split; [done|]. split; [done|]. by eapply created_touched.
Qed.

Lemma create_key_completes r a p kp name options attributes e :
  reg_ok r -> absolute_ok r -> room r -> keys r !! a = None -> keys r !! p = Some kp -> (name = [] -> k_parent kp <> None) ->
  exists r' b e', create_key r a p name options attributes e = Some ((r', b), e') /\ reg_ok r'.
Proof.
  intros R A Hr Ha Hp Hn. unfold RegistryTree.create_key, create_key_object. set (attr := key_attributes options attributes).
  unfold ubind, lift, try, uret. change (clear_error e) with (tt, snd (clear_error e)). cbn iota.
  destruct (lookup_named_run r p name attr (snd (clear_error e)) R A ltac:(by eexists)) as ([[b [|c rem]]|] & e1 & -> & H); cbn iota.
  - destruct H as (E1 & [kb Hb] & He & _). case_bool_decide as Hname.
    + destruct (He Hname) as [-> _]. rewrite Hp in Hb. injection Hb as <-. rewrite Hp. unfold get_error. rewrite E1. cbn [Z.eqb STATUS_OBJECT_NAME_EXISTS].
      destruct (k_parent kp) as [pp|] eqn:Epp; [|by destruct (Hn Hname)].
      destruct (ko_parent _ _ _ _ (ro_keys _ _ R p kp Hp) pp Epp) as (_ & kpp & Hpp & _).
      destruct (touch_reg_ok casemap r pp REG_NOTIFY_CHANGE_NAME R ltac:(by eexists)) as (r' & -> & _ & R'). by eexists _, _, _.
    + destruct (has_bits attr OBJ_OPENIF); [|by eexists _, _, _]. unfold fail, set_error, bind, ret. cbn iota. rewrite Hb. unfold get_error. cbn [error].
      rewrite Z.eqb_refl. destruct (has_bits (k_flags kb) KEY_PREDEF); by eexists _, _, _.
  - destruct H as (E1 & _ & _ & [Hc|(kq & Hq & Hno)]); [done|].
    destruct (new_key_run r a b kq (c :: rem) options (now r) e1 R Hq Ha Hno (Hr b kq Hq)) as (r1 & ok & e2 & E2 & R1 & C & _). rewrite E2. cbn iota.
    destruct ok; [|by eexists _, _, _]. apply new_key_error in E2. destruct (created_finish r r1 a b kq (c :: rem) options e2 R1 C) as (r2 & k & -> & Ek & Et & R2 & _).
    unfold get_error. rewrite E2, E1, Ek, Et. by eexists _, _, _.
  - by eexists _, _, _.
Qed.

(** *** By the elements of the path *)

Lemma lookup_named_loop r p name attr e : name <> [] -> head name <> Some 92 ->
  lookup_named_object casemap lookup_absolute r p name attr e =
    match loop (2 * length name + 4) r p name attr (mk_senv 0 (allocs e)) with
    | Some ((b, rem), e') => Some (if error e' =? 0 then Some (b, rem) else None, e')
    | None => None
    end.
Proof.
  intros Hn Hh. unfold lookup_named_object. destruct name as [|c name]; [done|]. destruct (Z.eqb_spec c 92) as [->|]; [done|].
  unfold ubind, lift, uret. change (clear_error e) with (tt, mk_senv 0 (allocs e)). cbn iota.
  destruct (loop _ _ _ _ _ _) as [[[b rem] e']|]; done.
Qed.

Lemma element_head n rest : element n -> n ++ rest <> [] /\ head (n ++ rest) <> Some 92.
Proof. intros [Hn Hb]. destruct n as [|c n]; [done|]. split; [done|]. cbn. intros [= ->]. apply Hb. by left. Qed.

(** A path is looked up element by element; separators at its end do not count. *)
Lemma lookup_path r p kp s n m rest attr e x :
  reg_ok r -> keys r !! p = Some kp -> deleted kp = false -> symlink kp = false -> element n -> Z.of_nat (length n) <= MAX_NAME_LEN ->
  separated m rest -> rest <> [] -> subkey_of casemap r kp n s ->
  lookup_named_object casemap lookup_absolute r s rest attr e = Some x ->
  lookup_named_object casemap lookup_absolute r p (n ++ replicate m 92 ++ rest) attr e = Some x.
Proof.
  intros R Hp Hd Hl Hn Hm Hs Hr Hsub. destruct (element_head n (replicate m 92 ++ rest) Hn) as [N1 N2]. rewrite !lookup_named_loop by (try done; by eapply separated_head).
  pose proof (step_element r p kp n m rest attr (mk_senv 0 (allocs e)) R Hp Hd Hl Hn Hs) as H. rewrite (proj2 (Z.ltb_ge _ _)) in H by done. destruct H as [H _].
  destruct (loop (2 * length rest + 4) r s rest attr (mk_senv 0 (allocs e))) as [y|] eqn:E; [|done].
  set (l := n ++ replicate m 92 ++ rest) in *. assert (length rest < length l)%nat as Hlt by (unfold l; rewrite !length_app; destruct n; [by destruct Hn|]; cbn; lia).
  replace (2 * length l + 4)%nat with (S (2 * length l + 3)) by lia.
  cbn [lookup_loop]. unfold ubind. rewrite (H s Hsub). rewrite (loop_more _ (2 * length l + 3) _ _ _ _ _ _ E); [done|lia].
Qed.

Lemma lookup_trailing r p kp n m attr e :
  reg_ok r -> keys r !! p = Some kp -> deleted kp = false -> symlink kp = false -> element n -> Z.of_nat (length n) <= MAX_NAME_LEN ->
  forall x, lookup_named_object casemap lookup_absolute r p n attr e = Some x ->
    lookup_named_object casemap lookup_absolute r p (n ++ replicate m 92) attr e = Some x.
Proof.
  intros R Hp Hd Hl Hn Hm x. destruct (element_head n (replicate m 92) Hn) as [N1 N2], (element_head n [] Hn) as [N3 N4]. rewrite app_nil_r in *. rewrite !lookup_named_loop by done.
  pose proof (step_element r p kp n m [] attr (mk_senv 0 (allocs e)) R Hp Hd Hl Hn (or_introl eq_refl)) as H. pose proof (step_element r p kp n O [] attr (mk_senv 0 (allocs e)) R Hp Hd Hl Hn (or_introl eq_refl)) as H'.
  rewrite (proj2 (Z.ltb_ge _ _)) in H, H' by done. cbn [replicate app] in H'. rewrite !app_nil_r in H, H'.
  set (l := n ++ replicate m 92) in *. assert (length n <= length l)%nat as Hlen by (unfold l; rewrite length_app; lia).
  assert (forall y, loop (2 * length n + 4) r p n attr (mk_senv 0 (allocs e)) = Some y -> loop (2 * length l + 4) r p l attr (mk_senv 0 (allocs e)) = Some y) as HL.
  2: { destruct (loop (2 * length n + 4) r p n attr (mk_senv 0 (allocs e))) as [y|]; [|done]. by rewrite (HL y). }
  intros y. replace (2 * length n + 4)%nat with (S (2 * length n + 3)) by lia. replace (2 * length l + 4)%nat with (S (2 * length l + 3)) by lia.
  cbn [lookup_loop]. unfold ubind. destruct (subkey_index r p kp n R Hp) as (i & [(_ & s & ks & _ & _ & _ & Hsub)|(_ & Hno)]).
  - rewrite (proj1 H s Hsub), (proj1 H' s Hsub). intros E. eapply loop_more; [exact E|]. lia.
  - by rewrite (proj2 H Hno), (proj2 H' Hno).
Qed.

(** Paths that are looked up alike are created alike. *)
Lemma create_alike r a p1 p2 name1 name2 options attributes e y : name1 <> [] -> name2 <> [] ->
  (forall e x, lookup_named_object casemap lookup_absolute r p1 name1 (key_attributes options attributes) e = Some x ->
     lookup_named_object casemap lookup_absolute r p2 name2 (key_attributes options attributes) e = Some x) ->
  create_key r a p1 name1 options attributes e = Some y -> create_key r a p2 name2 options attributes e = Some y.
Proof.
  intros N1 N2 H. unfold RegistryTree.create_key, create_key_object, ubind, lift. change (clear_error e) with (tt, mk_senv 0 (allocs e)). cbn iota.
  rewrite !(bool_decide_eq_false_2 (_ = [])) by done.
  destruct (lookup_named_object casemap lookup_absolute r p1 name1 _ _) as [[x e']|] eqn:E; [|done]. by rewrite (H _ _ E).
Qed.

(** The lookup of a single element. *)
Lemma lookup_single r p kp n attr e :
  reg_ok r -> keys r !! p = Some kp -> symlink kp = false -> element n ->
  (forall s ks, subkey_of casemap r kp n s -> keys r !! s = Some ks -> symlink ks = false \/ has_bits attr OBJ_OPENLINK = true) ->
  if deleted kp then lookup_named_object casemap lookup_absolute r p n attr e = Some (None, mk_senv STATUS_KEY_DELETED (allocs e))
  else if MAX_NAME_LEN <? Z.of_nat (length n) then lookup_named_object casemap lookup_absolute r p n attr e = Some (None, mk_senv STATUS_INVALID_PARAMETER (allocs e))
  else (forall s, subkey_of casemap r kp n s -> lookup_named_object casemap lookup_absolute r p n attr e = Some (Some (s, []), mk_senv 0 (allocs e))) /\
    ((forall s, ~ subkey_of casemap r kp n s) -> lookup_named_object casemap lookup_absolute r p n attr e = Some (Some (p, n), mk_senv 0 (allocs e))).
Proof.
  intros R Hp Hl Hn Hs. destruct (element_head n [] Hn) as [N1 N2]. rewrite app_nil_r in *. rewrite !lookup_named_loop by done.
  replace (2 * length n + 4)%nat with (S (S (2 * length n + 2))) by lia. cbn [lookup_loop]. unfold ubind.
  destruct (deleted kp) eqn:Hd; [by rewrite (step_deleted r p kp)|].
  pose proof (step_element r p kp n O [] attr (mk_senv 0 (allocs e)) R Hp Hd Hl Hn (or_introl eq_refl)) as H. cbn [replicate app] in H. rewrite app_nil_r in H.
  destruct (_ <? _); [by rewrite H|]. destruct H as [H1 H2]. split.
  - intros s Hsub. rewrite (H1 s Hsub). pose proof Hsub as (Hin & ks & Hks & _). destruct (ko_children _ _ _ _ (ro_keys _ _ R p kp Hp) s Hin) as (ks' & Hks' & Hpar & _).
    rewrite Hks in Hks'. injection Hks' as <-. destruct (ko_parent _ _ _ _ (ro_keys _ _ R s ks Hks) p Hpar) as [Hds _]. by rewrite (step_end r s ks) by eauto.
  - intros Hno. by rewrite (H2 Hno).
Qed.

(** *** Outcomes *)

Lemma key_attributes_openif options attributes :
  has_bits (key_attributes options attributes) OBJ_OPENIF = has_bits attributes OBJ_OPENIF && negb (has_bits options REG_OPTION_CREATE_LINK).
Proof.
  unfold key_attributes. destruct (has_bits options REG_OPTION_CREATE_LINK); [|by rewrite andb_true_r]. rewrite andb_false_r. unfold has_bits, OBJ_OPENIF, OBJ_OPENLINK.
  rewrite Z.land_lor_distr_l. change (Z.land 0x100 0x80) with 0. rewrite Z.lor_0_r.
  assert (Z.land (Z.ldiff attributes 0x80) 0x80 = 0) as ->; [|done]. apply Z.bits_inj'. intros i Hi. rewrite Z.land_spec, Z.ldiff_spec, Z.bits_0. by destruct (Z.testbit attributes i), (Z.testbit _ i).
Qed.

Lemma key_attributes_openlink options attributes :
  has_bits options REG_OPTION_CREATE_LINK = true \/ has_bits attributes OBJ_OPENLINK = true -> has_bits (key_attributes options attributes) OBJ_OPENLINK = true.
Proof.
  unfold key_attributes. destruct (has_bits options REG_OPTION_CREATE_LINK); [intros _|intros [|]; done]. unfold has_bits, OBJ_OPENLINK.
  rewrite Z.land_lor_distr_l. change (Z.land 0x100 0x100) with 0x100. destruct (Z.eqb_spec (Z.lor (Z.land (Z.ldiff attributes OBJ_OPENIF) 0x100) 0x100) 0) as [E|]; [|done].
  by apply Z.lor_eq_0_iff in E as [_ ?].
Qed.

(** What creating a key under a single element comes to: an error for a deleted
    parent or a long name; the key of that name, when the request accepts it; a new
    key, unless memory runs out or a volatile key would get one that is not. *)
Definition create_outcome (r : registry) (a p : Z) (parent : key) (n : list Z) (options attributes : Z) (e : senv) (r' : registry) (b : option Z) (e' : senv) : Prop :=
  if deleted parent then r' = r /\ b = None /\ error e' = STATUS_KEY_DELETED
  else if MAX_NAME_LEN <? Z.of_nat (length n) then r' = r /\ b = None /\ error e' = STATUS_INVALID_PARAMETER
  else
    (forall s ks, subkey_of casemap r parent n s -> keys r !! s = Some ks -> r' = r /\
       if has_bits attributes OBJ_OPENIF && negb (has_bits options REG_OPTION_CREATE_LINK)
       then b = Some s /\ error e' = if has_bits (k_flags ks) KEY_PREDEF then STATUS_PREDEFINED_HANDLE else STATUS_OBJECT_NAME_EXISTS
       else b = None /\ error e' = STATUS_OBJECT_NAME_COLLISION) /\
    ((forall s, ~ subkey_of casemap r parent n s) ->
       (allocs e = [] -> if must_be_volatile parent options then b = None /\ error e' = STATUS_CHILD_MUST_BE_VOLATILE else b = Some a /\ error e' = 0) /\
       match b with
       | Some b => b = a /\ error e' = 0 /\ created r r' a p parent n options
       | None => uncreated r r' a p parent
       end).

Lemma create_single r a p parent n options attributes e :
  reg_ok r -> keys r !! p = Some parent -> keys r !! a = None -> symlink parent = false -> Z.of_nat (length (subkeys parent)) < 2 ^ 30 -> element n ->
  (forall s ks, subkey_of casemap r parent n s -> keys r !! s = Some ks ->
     symlink ks = false \/ has_bits options REG_OPTION_CREATE_LINK = true \/ has_bits attributes OBJ_OPENLINK = true) ->
  exists r' b e', create_key r a p n options attributes e = Some ((r', b), e') /\ reg_ok r' /\ create_outcome r a p parent n options attributes e r' b e'.
Proof.
  intros R Hp Ha Hl Hr Hn Hs. unfold RegistryTree.create_key, create_key_object, ubind, lift, try, uret, create_outcome.
  change (clear_error e) with (tt, mk_senv 0 (allocs e)). cbn iota. rewrite (bool_decide_eq_false_2 (n = [])) by apply Hn.
  pose proof (lookup_single r p parent n (key_attributes options attributes) (mk_senv 0 (allocs e)) R Hp Hl Hn) as H.
  cbn [allocs] in H.
  specialize (H ltac:(intros s ks H1 H2; destruct (Hs s ks H1 H2); [by left|right; by apply key_attributes_openlink])).
  destruct (deleted parent); [rewrite H; by eexists _, _, _|]. destruct (_ <? _); [rewrite H; by eexists _, _, _|]. destruct H as [H1 H2].
  destruct (subkey_index r p parent n R Hp) as (i & [(_ & s & ks & _ & Hks & _ & Hsub)|(_ & Hno)]).
  - rewrite (H1 s Hsub), key_attributes_openif. cbn iota. assert (Hu : forall s', subkey_of casemap r parent n s' -> s' = s)
      by (intros s' Hs'; exact (subkey_of_unique casemap r p parent n s' s (ro_keys _ _ R p parent Hp) Hs' Hsub)).
    assert (Hf : (forall s, ~ subkey_of casemap r parent n s) -> False) by (intros Hno; by destruct (Hno s)).
    destruct (has_bits attributes OBJ_OPENIF && _).
    + unfold fail, set_error, bind, ret. cbn iota. rewrite Hks. unfold get_error. cbn [error]. rewrite Z.eqb_refl.
      destruct (has_bits (k_flags ks) KEY_PREDEF) eqn:Epre; (eexists _, _, _; split; [done|]; split; [done|]; split; [|done]);
        intros s' ks' Hs' Hks'; rewrite (Hu s' Hs') in *; rewrite Hks in Hks'; injection Hks' as <-; by rewrite Epre.
    + eexists _, _, _. split; [done|]. split; [done|]. split; [|done]. by intros s' ks' Hs' Hks'.
  - rewrite (H2 Hno). cbn iota. destruct n as [|c n']; [by destruct Hn|]. set (n := c :: n') in *.
    destruct (new_key_run r a p parent n options (now r) (mk_senv 0 (allocs e)) R Hp Ha Hno Hr) as (r1 & ok & e2 & E2 & R1 & C & A). rewrite E2. cbn iota.
    destruct ok.
    + apply new_key_error in E2. destruct (created_finish r r1 a p parent n options e2 R1 C) as (r2 & k & -> & Ek & Et & R2 & C2).
      unfold get_error. rewrite E2, Ek, Et. cbn. eexists _, _, _. split; [done|]. split; [done|]. split; [by intros s ks Hsub; destruct (Hno s)|]. intros _. split; [|done].
      intros Hal. destruct (A Hal) as [Hm _]. by destruct (must_be_volatile parent options).
    + eexists _, _, _. split; [done|]. split; [done|]. split; [by intros s ks Hsub; destruct (Hno s)|]. intros _. split; [|done].
      intros Hal. destruct (A Hal) as [Hm Em]. destruct (must_be_volatile parent options); [by split|done].
Qed.

(** The empty name opens the key itself, and touches its parent. *)
Lemma create_empty r a p parent options attributes e : keys r !! p = Some parent ->
  create_key r a p [] options attributes e =
    match k_parent parent with
    | Some pp => match touch_key r pp REG_NOTIFY_CHANGE_NAME with Some r' => Some ((r', Some p), mk_senv 0 (allocs e)) | None => None end
    | None => None
    end.
Proof.
  intros Hp. unfold RegistryTree.create_key, create_key_object, lookup_named_object, ubind, lift, try, uret. cbn. rewrite Hp.
  destruct (k_parent parent) as [pp|]; [|done]. by destruct (touch_key r pp REG_NOTIFY_CHANGE_NAME).
Qed.

(** An element on the way that is missing. *)
Lemma create_missing r a p parent n m rest options attributes e :
  reg_ok r -> keys r !! p = Some parent -> deleted parent = false -> symlink parent = false -> element n -> Z.of_nat (length n) <= MAX_NAME_LEN ->
  separated m rest -> rest <> [] -> (forall s, ~ subkey_of casemap r parent n s) ->
  create_key r a p (n ++ replicate m 92 ++ rest) options attributes e = Some ((r, None), mk_senv STATUS_OBJECT_NAME_NOT_FOUND (allocs e)).
Proof.
  intros R Hp Hd Hl Hn Hm Hs Hr Hno. unfold RegistryTree.create_key, create_key_object, ubind, lift, try, uret.
  change (clear_error e) with (tt, mk_senv 0 (allocs e)). cbn iota. destruct (element_head n (replicate m 92 ++ rest) Hn) as [N1 N2]. rewrite lookup_named_loop by done.
  rewrite Nat.add_succ_r. cbn [lookup_loop]. unfold ubind. pose proof (fun attr => step_element r p parent n m rest attr (mk_senv 0 (allocs e)) R Hp Hd Hl Hn Hs) as H.
  specialize (H (key_attributes options attributes)). rewrite (proj2 (Z.ltb_ge _ _)) in H by done. destruct H as [_ H]. cbn [allocs] in *. rewrite (H Hno). by destruct rest.
Qed.
End lookup.
End create.
