(* ===== verification/RegistryDelete.v ===== *)
(** * Deleting registry keys

    Deleting a key with everything below it always comes to an end: it takes
    exactly that part out of the tree, or stops at a predefined key, and the tree
    stays well formed either way. *)

From Stdlib Require Import ZArith Lia Sorted.
From stdpp Require Import base list numbers option gmap fin_sets.
From S2P Require Import Prelude Unicode UnicodeTheorems Registry RegistryTree RegistrySearch RegistryValues RegistryOrder RegistryForest RegistryCreate.

#[local] Open Scope Z_scope.
#[local] Open Scope server_scope.

(** ** What is below a key *)

(** [b] is [a] or below it. *)
Definition below (r : registry) (a b : Z) : Prop := exists l, chain r (Some b) l /\ a ∈ l.

Lemma below_self r a k l : keys r !! a = Some k -> chain r (k_parent k) l -> below r a a.
Proof. intros Hk Hl. exists (a :: l). split; [by econstructor|by left]. Qed.

Lemma below_dec r a b : chains_ok r -> below r a b \/ ~ below r a b.
Proof.
  intros C. destruct (keys r !! b) as [kb|] eqn:Hb.
  - destruct (C b ltac:(by eexists)) as [l Hl]. destruct (decide (a ∈ l)) as [Ha|Ha]; [left; by exists l|]. right. intros (l' & Hl' & Ha').
    by rewrite (chain_det _ _ _ _ Hl Hl') in Ha.
  - right. intros (l & Hl & _). inversion Hl. congruence.
Qed.

Lemma below_trans r a b c : below r a b -> below r b c -> below r a c.
Proof.
  intros (l & Hl & Ha) (l' & Hl' & Hb). exists l'. split; [done|]. destruct (chain_suffix _ _ _ _ Hl' Hb) as (l2 & H2 & Hs).
  rewrite (chain_det _ _ _ _ Hl H2) in Ha. destruct Hs as [m ->]. apply elem_of_app. by right.
Qed.

(** A key is below its parent, and not the other way around. *)
Lemma below_parent r a k p : chains_ok r -> keys r !! a = Some k -> k_parent k = Some p -> below r p a.
Proof.
  intros C Hk Hp. destruct (C a ltac:(by eexists)) as [l Hl]. exists l. split; [done|]. inversion Hl as [|? k' l' Hk' Hl']; subst.
  rewrite Hk in Hk'. injection Hk' as <-. rewrite Hp in Hl'. inversion Hl'; subst. right. by left.
Qed.

Lemma below_antisym r a b : below r a b -> below r b a -> a = b.
Proof.
  intros (l & Hl & Ha) (l' & Hl' & Hb). destruct (chain_suffix _ _ _ _ Hl Ha) as (l2 & H2 & S2), (chain_suffix _ _ _ _ Hl' Hb) as (l3 & H3 & S3).
  rewrite (chain_det _ _ _ _ H2 Hl') in S2. rewrite (chain_det _ _ _ _ H3 Hl) in S3.
  assert (l = l') as <-. { destruct S2 as [m E]. apply suffix_length in S3. rewrite E in S3. rewrite length_app in S3. destruct m; [done|cbn in S3; lia]. }
  inversion Hl; inversion Hl'; congruence.
Qed.

(** ** Pruned registries *)

(** The keys of [D] are no longer in the tree, and nothing else has changed. *)
Record pruned (r r' : registry) (D : Z -> Prop) : Prop := {
  pr_gone : forall b, D b -> exists kb, keys r' !! b = Some kb /\ deleted kb = true /\ k_parent kb = None /\ subkeys kb = [];
  pr_rest : forall b kb, ~ D b -> keys r !! b = Some kb -> exists kb', keys r' !! b = Some kb' /\
    contents kb' = contents (set_wow6432node (set_subkeys kb (subkeys kb') (nb_subkeys kb')) (wow6432node kb')) /\
    forall s, s ∈ subkeys kb' <-> s ∈ subkeys kb /\ ~ D s;
  pr_none : forall b, ~ D b -> keys r !! b = None -> keys r' !! b = None
}.

Lemma pruned_refl r (D : Z -> Prop) : (forall b, ~ D b) -> pruned r r D.
Proof.
  intros H. split; [intros b Hb; by destruct (H b)| |done]. intros b kb _ Hb. exists kb. split; [done|]. split; [by destruct kb|].
  intros s. split; [intros Hs; by split|by intros []].
Qed.

Lemma pruned_trans r r1 r2 (D1 D2 : Z -> Prop) : (forall b, D2 b \/ ~ D2 b) -> pruned r r1 D1 -> pruned r1 r2 D2 -> pruned r r2 (fun b => D1 b \/ D2 b).
Proof.
  intros Dec P1 P2. split.
  - intros b Hb. destruct (Dec b) as [H2|H2]; [by apply P2|]. destruct Hb as [H1|]; [|done]. destruct (pr_gone _ _ _ P1 b H1) as (k1 & Hk1 & Hd & Hp & Hs).
    destruct (pr_rest _ _ _ P2 b k1 H2 Hk1) as (k2 & Hk2 & E & Hs2). exists k2. split; [done|]. split; [rewrite <-Hd; exact (contents_flags _ _ KEY_DELETED E eq_refl)|].
    split; [rewrite <-Hp; exact (f_equal k_parent E)|]. destruct (subkeys k2) as [|s l]; [done|]. destruct (proj1 (Hs2 s) ltac:(by left)) as [Hin _].
    rewrite Hs in Hin. by apply not_elem_of_nil in Hin.
  - intros b kb Hn Hb. destruct (pr_rest _ _ _ P1 b kb ltac:(tauto) Hb) as (k1 & Hk1 & E1 & Hs1).
    destruct (pr_rest _ _ _ P2 b k1 ltac:(tauto) Hk1) as (k2 & Hk2 & E2 & Hs2). exists k2. split; [done|]. split.
    + rewrite E2. unfold contents in *. cbn in *. injection E1 as -> -> -> -> -> ->. done.
    + intros s. rewrite Hs2, Hs1. tauto.
  - intros b Hn Hb. apply P2; [tauto|]. apply P1; [tauto|done].
Qed.

Lemma pruned_ext r r' (D D' : Z -> Prop) : (forall b, D b <-> D' b) -> pruned r r' D -> pruned r r' D'.
Proof.
  intros H P. split.
  - intros b Hb. by apply P, H.
  - intros b kb Hb Hk. destruct (pr_rest _ _ _ P b kb) as (kb' & H1 & H2 & H3); [by rewrite H|done|]. exists kb'. split; [done|]. split; [done|].
    intros s. by rewrite H3, H.
  - intros b Hb. apply P. by rewrite H.
Qed.

(** Touching afterwards changes nothing of this. *)
Lemma pruned_touched r r1 r2 D : pruned r r1 D -> touched r1 r2 -> pruned r r2 D.
Proof.
  intros P T. split.
  - intros b Hb. destruct (pr_gone _ _ _ P b Hb) as (kb & Hk & Hd & Hp & Hs). destruct (touched_lookup _ _ _ _ T Hk) as (k2 & Hk2 & E). exists k2.
    split; [done|]. split; [rewrite <-Hd; by apply contents_flags|]. split; [rewrite <-Hp; exact (f_equal k_parent E)|rewrite <-Hs; exact (f_equal subkeys E)].
  - intros b kb Hn Hb. destruct (pr_rest _ _ _ P b kb Hn Hb) as (k1 & Hk1 & E1 & Hs1). destruct (touched_lookup _ _ _ _ T Hk1) as (k2 & Hk2 & E).
    assert (E2 : subkeys k2 = subkeys k1) by exact (f_equal subkeys E). assert (E3 : nb_subkeys k2 = nb_subkeys k1) by exact (f_equal nb_subkeys E).
    assert (E4 : wow6432node k2 = wow6432node k1) by exact (f_equal wow6432node E). exists k2. rewrite E2, E3, E4. split; [done|]. by rewrite E.
  - intros b Hn Hb. pose proof (to_contents _ _ T b) as E. rewrite (pr_none _ _ _ P b Hn Hb) in E. by destruct (keys r2 !! b).
Qed.

Lemma pruned_chain r r' D x l : pruned r r' D -> chain r x l -> (forall c, c ∈ l -> ~ D c) -> chain r' x l.
Proof.
  intros P. induction 1 as [|b kb l Hb _ IH]; intros Hn; [constructor|]. destruct (pr_rest _ _ _ P b kb) as (kb' & Hb' & E & _); [apply Hn; by left|done|].
  econstructor; [done|]. assert (k_parent kb' = k_parent kb) as -> by exact (f_equal k_parent E). apply IH. intros c Hc. apply Hn. by right.
Qed.

(** ** Keys in the tree *)

Definition linked_keys (r : registry) : gset Z := dom (filter (fun p : Z * key => k_parent p.2 <> None) (keys r)).

Lemma elem_linked r b : b ∈ linked_keys r <-> exists kb p, keys r !! b = Some kb /\ k_parent kb = Some p.
Proof.
  unfold linked_keys. rewrite elem_of_dom. split.
  - intros [kb [Hb Hp]%map_lookup_filter_Some]. cbn in Hp. destruct (k_parent kb) as [p|] eqn:E; [|done]. by exists kb, p.
  - intros (kb & p & Hb & Hp). exists kb. apply map_lookup_filter_Some. split; [done|]. cbn. by rewrite Hp.
Qed.

(** The keys left to delete below [a], whose parents are [l]. *)
Definition rest_keys (r : registry) (l : list Z) : nat := size (linked_keys r ∖ list_to_set l).

Lemma pruned_linked r r' D b : pruned r r' D -> b ∈ linked_keys r' -> (D b \/ ~ D b) -> b ∈ linked_keys r /\ ~ D b.
Proof.
  intros P (kb' & p & Hb' & Hp)%elem_linked [Hd|Hd].
  - destruct (pr_gone _ _ _ P b Hd) as (kb & Hb & _ & Hn & _). congruence.
  - split; [|done]. destruct (keys r !! b) as [kb|] eqn:Hb; [|by rewrite (pr_none _ _ _ P b Hd Hb) in Hb'].
    destruct (pr_rest _ _ _ P b kb Hd Hb) as (kb2 & Hb2 & E & _). apply elem_linked. exists kb, p. split; [done|]. rewrite <-Hp.
    assert (kb2 = kb') as -> by congruence. symmetry. exact (f_equal k_parent E).
Qed.

Lemma rest_keys_below r a k l : keys r !! a = Some k -> k_parent k <> None -> a ∉ l -> rest_keys r l = S (rest_keys r (a :: l)).
Proof.
  intros Hk Hp Ha. unfold rest_keys. cbn [list_to_set].
  assert (H : linked_keys r ∖ list_to_set l = {[a]} ∪ (linked_keys r ∖ ({[a]} ∪ list_to_set l))).
  { apply leibniz_equiv. intros b. rewrite elem_of_union, !elem_of_difference, elem_of_union, elem_of_singleton, elem_of_list_to_set.
    destruct (decide (b = a)) as [->|]; [|tauto]. split; [by left|]. intros _. split; [|done]. apply elem_linked. destruct (k_parent k) as [p|] eqn:E; [|done].
    by exists k, p. }
  rewrite H, size_union, size_singleton; [done|]. intros b ->%elem_of_singleton [_ Hb]%elem_of_difference. apply Hb, elem_of_union. left. by apply elem_of_singleton.
Qed.

Lemma rest_keys_pruned r r' (D : Z -> Prop) s l : (forall b, D b \/ ~ D b) -> pruned r r' D -> D s -> s ∈ linked_keys r -> s ∉ l -> (rest_keys r' l < rest_keys r l)%nat.
Proof.
  intros Dec P Hs Hl Hn. unfold rest_keys. apply subset_size. split.
  - intros b. rewrite !elem_of_difference. intros [H1 H2]. split; [|done]. by apply (pruned_linked r r' D b P H1 (Dec b)).
  - intros Hsub. assert (s ∈ linked_keys r' ∖ list_to_set l) as [H _]%elem_of_difference.
    { apply Hsub. apply elem_of_difference. split; [done|]. by rewrite elem_of_list_to_set. }
    by destruct (pruned_linked r r' D s P H (Dec s)).
Qed.

(** ** Deleting *)

Lemma deleted_flag f : has_bits (Z.lor f KEY_DELETED) KEY_DELETED = true.
Proof.
  unfold has_bits. assert (E : Z.land (Z.lor f KEY_DELETED) KEY_DELETED = KEY_DELETED); [|by rewrite E].
  apply Z.bits_inj'. intros n Hn. rewrite Z.land_spec, Z.lor_spec. by destruct (Z.testbit f n), (Z.testbit KEY_DELETED n).
Qed.

Lemma lor_flag f g m : Z.land g m = 0 -> has_bits (Z.lor f g) m = has_bits f m.
Proof. intros H. unfold has_bits. by rewrite Z.land_lor_distr_l, H, Z.lor_0_r. Qed.

Section delete.
Context (casemap : Z -> Z).
#[local] Abbreviation reg_ok := (reg_ok casemap).

(** Only its parent has a key as subkey. *)
Lemma other_subkeys r a k b kb : reg_ok r -> keys r !! a = Some k -> k_parent k <> Some b -> keys r !! b = Some kb -> a ∉ subkeys kb.
Proof. intros R Hk Hp Hb Hin. destruct (ko_children _ _ _ _ (ro_keys _ _ R b kb Hb) a Hin) as (k' & Hk' & H & _). congruence. Qed.

Lemma delete_leaf_run r a p k e :
  reg_ok r -> keys r !! a = Some k -> k_parent k = Some p -> subkeys k = [] ->
  exists r' e', delete_leaf r a p e = (Some (r', true), e') /\ error e' = error e /\ reg_ok r' /\ pruned r r' (fun b => b = a).
Proof.
  intros R Hk Hp Hs. destruct (ko_parent _ _ _ _ (ro_keys _ _ R a k Hk) p Hp) as (Hd & parent & Hpa & Hin). pose proof (ro_keys _ _ R p parent Hpa) as K.
  assert (Hap : a <> p) by (intros ->; by apply (not_own_parent r p k (ro_chains _ _ R) Hk)). unfold delete_leaf. rewrite Hk.
  set (k1 := set_flags k _). set (r1 := set_key r a k1). assert (Hr1 : keys r1 !! a = Some k1) by (unfold r1; by rewrite set_key_lookup, decide_True).
  assert (Hr1p : keys r1 !! p = Some parent) by (unfold r1; by rewrite set_key_lookup, decide_False).
  destruct (key_unlink_name_run r1 a p k1 parent e Hr1 Hp Hr1p Hap Hin (ko_size _ _ _ _ K)) as (r2 & e' & i & p' & E & Ee & Hi & U & _ & Look).
  rewrite (bind_run _ _ _ _ _ E). set (k' := set_name k1 [] None) in Look.
  assert (Look' : forall b, keys r2 !! b = if decide (b = a) then Some k' else if decide (b = p) then Some p' else keys r !! b).
  { intros b. rewrite Look. destruct (decide (b = a)); [done|]. case_decide; [done|]. unfold r1. by rewrite set_key_lookup, decide_False. }
  pose proof (un_rest _ _ _ _ U) as Eu. assert (Ein : forall s, s ∈ subkeys p' <-> s <> a /\ s ∈ subkeys parent).
  { intros s. rewrite (un_subkeys _ _ _ _ U). apply remove_elem; [by eapply subkeys_nodup|done]. }
  assert (R2 : reg_ok r2).
  { apply (unlink_reg_ok casemap r r2 a p parent p' k k' i); try done; try apply U; try (by rewrite Eu); [rewrite Eu; by destruct (ko_values _ _ _ _ K)| |].
    - unfold volatile. cbn. by apply lor_flag.
    - by destruct (ko_values _ _ _ _ (ro_keys _ _ R a k Hk)). }
  assert (P2 : pruned r r2 (fun b => b = a)).
  { split.
    - intros b ->. exists k'. rewrite Look', decide_True by done. split; [done|]. split; [apply deleted_flag|done].
    - intros b kb Hb Hkb. rewrite Look', decide_False by done. destruct (decide (b = p)) as [->|Hbp].
      + assert (kb = parent) as -> by congruence. exists p'. split; [done|]. split; [exact (f_equal contents Eu)|]. intros s. rewrite Ein. tauto.
      + exists kb. split; [done|]. split; [by destruct kb|]. pose proof (other_subkeys r a k b kb R Hk ltac:(congruence) Hkb). intros s. split; [|by intros []].
        intros Hs'. split; [done|]. by intros ->.
    - intros b Hb Hn. rewrite Look', decide_False by done. case_decide; [congruence|done]. }
  destruct (touch_reg_ok casemap r2 p REG_NOTIFY_CHANGE_NAME R2) as (r' & Et & T & R'); [rewrite Look', decide_False, decide_True by done; by eexists|].
  unfold ret. rewrite Et. exists r', e'. split; [done|]. split; [done|]. split; [done|]. by eapply pruned_touched.
Qed.

(** Everything below a key is the key itself or below one of its subkeys. *)
Lemma below_subkeys r a b : reg_ok r -> below r a b -> b = a \/ exists k s, keys r !! a = Some k /\ s ∈ subkeys k /\ below r s b.
Proof.
  intros R (l & Hl & Ha). remember (Some b) as x eqn:Ex. revert b Ex Ha. induction Hl as [|c kc l Hc Hl IH]; intros b Ex Ha; [done|]. injection Ex as ->.
  apply elem_of_cons in Ha as [->|Ha]; [by left|]. destruct (k_parent kc) as [q|] eqn:Eq; [|inversion Hl; subst; by apply not_elem_of_nil in Ha].
  right. destruct (IH q eq_refl Ha) as [->|(k & s & Hk & Hs & Hb)].
  - destruct (ko_parent _ _ _ _ (ro_keys _ _ R b kc Hc) a Eq) as (_ & ka & Hka & Hin). exists ka, b. split; [done|]. split; [done|].
    apply (below_self r b kc l); [done|by rewrite Eq].
  - exists k, s. split; [done|]. split; [done|]. apply (below_trans r s q b); [done|]. apply (below_parent r b kc); [apply R|done..].
Qed.

(** What is below [a] after everything below its subkey [s] is gone. *)
Lemma below_pruned r r1 a s : chains_ok r -> pruned r r1 (below r s) -> below r a s -> a <> s ->
  forall b, below r1 a b <-> below r a b /\ ~ below r s b.
Proof.
  intros C P Has Hne b. assert (Hna : ~ below r s a) by (intros H; by apply Hne, (below_antisym r)).
  assert (Hchain : forall l, chain r (Some b) l -> ~ below r s b -> chain r1 (Some b) l).
  { intros l Hl Hb. apply (pruned_chain r r1 (below r s)); [done..|]. intros c Hc Hsc. apply Hb. apply (below_trans r s c b); [done|]. by exists l. }
  split.
  - intros (l & Hl & Ha). destruct (below_dec r s b C) as [Hb|Hb].
    { destruct (pr_gone _ _ _ P b Hb) as (kb & Hkb & _ & Hp & _). inversion Hl as [|? kb' l' Hkb' Hl']; subst. assert (kb' = kb) as -> by congruence.
      rewrite Hp in Hl'. inversion Hl'; subst. apply elem_of_cons in Ha as [->|Ha]; [done|by apply not_elem_of_nil in Ha]. }
    split; [|done]. destruct (keys r !! b) as [kb|] eqn:Hkb; [|inversion Hl; by rewrite (pr_none _ _ _ P b Hb Hkb) in *].
    destruct (C b ltac:(by eexists)) as [lb Hlb]. exists lb. split; [done|]. by rewrite (chain_det _ _ _ _ (Hchain lb Hlb Hb) Hl).
  - intros [(l & Hl & Ha) Hb]. exists l. by auto.
Qed.

Definition no_predef (r : registry) (a : Z) : Prop := forall b kb, below r a b -> keys r !! b = Some kb -> has_bits (k_flags kb) KEY_PREDEF = false.

Lemma no_predef_below r a s : below r a s -> no_predef r a -> no_predef r s.
Proof. intros H N b kb Hb. apply N. by apply (below_trans r a s b). Qed.

Lemma no_predef_pruned r r1 a s : chains_ok r -> pruned r r1 (below r s) -> below r a s -> a <> s -> no_predef r a -> no_predef r1 a.
Proof.
  intros C P Has Hne N b kb1 [Hb Hs]%(below_pruned r r1 a s C P Has Hne) Hkb1. destruct (keys r !! b) as [kb|] eqn:Hkb; [|by rewrite (pr_none _ _ _ P b Hs Hkb) in Hkb1].
  destruct (pr_rest _ _ _ P b kb Hs Hkb) as (kb' & Hkb' & E & _). assert (kb1 = kb') as -> by congruence. rewrite <-(N b kb Hb Hkb).
  exact (contents_flags _ _ KEY_PREDEF E eq_refl).
Qed.

(** What deleting returns: [D] are the keys that go. *)
Definition prunes (m : M (option (registry * bool))) (r : registry) (a : Z) (D : Z -> Prop) : Prop :=
  forall e, exists r' ok e', m e = (Some (r', ok), e') /\ reg_ok r' /\
    (if ok then pruned r r' D /\ error e' = error e else error e' = STATUS_INVALID_HANDLE) /\ (no_predef r a -> ok = true).

Definition deletes_key (fuel : nat) : Prop := forall r a k p l,
  reg_ok r -> keys r !! a = Some k -> k_parent k = Some p -> chain r (Some p) l -> (2 * rest_keys r l <= fuel)%nat ->
  prunes (delete_key fuel r a true) r a (below r a).

Definition deletes_subkeys (fuel : nat) : Prop := forall r a k l,
  reg_ok r -> keys r !! a = Some k -> chain r (k_parent k) l -> (2 * rest_keys r (a :: l) < fuel)%nat ->
  prunes (delete_subkeys fuel r a) r a (fun b => below r a b /\ b <> a).

Lemma delete_key_step fuel : deletes_subkeys fuel -> deletes_key (S fuel).
Proof.
  intros IH r a k p l R Hk Hp Hl Hf e. cbn [delete_key]. rewrite Hk. destruct (ko_parent _ _ _ _ (ro_keys _ _ R a k Hk) p Hp) as (Hd & _).
  unfold deleted in Hd. rewrite Hd, Hp. assert (Ha : below r a a) by (apply (below_self r a k l); [done|by rewrite Hp]).
  destruct (has_bits (k_flags k) KEY_PREDEF) eqn:Epre.
  { eexists r, false, _. split; [done|]. split; [done|]. split; [done|]. intros N. by rewrite (N a k Ha Hk) in Epre. }
  assert (Hn : a ∉ l).
  { intros Hin. assert (C : chain r (Some a) (a :: l)) by (econstructor; [done|by rewrite Hp]). by apply chain_nodup, list.NoDup_cons in C as [? _]. }
  rewrite (rest_keys_below r a k l Hk ltac:(congruence) Hn) in Hf.
  destruct (IH r a k l R Hk ltac:(by rewrite Hp) ltac:(lia) e) as (r1 & ok & e1 & E & R1 & H & N). rewrite (bind_run _ _ _ _ _ E).
  destruct ok; [|by exists r1, false, e1]. destruct H as [P Ee].
  destruct (pr_rest _ _ _ P a k ltac:(by intros [_ ?]) Hk) as (k1 & Hk1 & Ec & Hs1). assert (Hp1 : k_parent k1 = Some p) by (rewrite <-Hp; exact (f_equal k_parent Ec)).
  assert (subkeys k1 = []) as Hnil.
  { destruct (subkeys k1) as [|s ls]; [done|]. destruct (proj1 (Hs1 s) ltac:(by left)) as [Hin Hnot]. destruct Hnot.
    destruct (ko_children _ _ _ _ (ro_keys _ _ R a k Hk) s Hin) as (ks & Hks & Hps & _). split; [by apply (below_parent r s ks); [apply R|..]|].
    intros ->. by apply (not_own_parent r a ks (ro_chains _ _ R)). }
  destruct (delete_leaf_run r1 a p k1 e1 R1 Hk1 Hp1 Hnil) as (r2 & e2 & -> & Ee2 & R2 & P2). exists r2, true, e2. split; [done|]. split; [done|]. split; [|done].
  split; [|congruence]. apply (pruned_ext r r2 (fun b => (below r a b /\ b <> a) \/ b = a)); [intros b; destruct (decide (b = a)) as [->|]; [split; [done|by right]|split; [by intros [[? _]|?]|by left]]|].
  apply (pruned_trans r r1 r2); [|done..]. intros b. destruct (decide (b = a)); auto.
Qed.

Lemma delete_subkeys_step fuel : deletes_key fuel -> deletes_subkeys fuel -> deletes_subkeys (S fuel).
Proof.
  intros IHk IHs r a k l R Hk Hl Hf e. cbn [delete_subkeys]. rewrite Hk. pose proof (ro_keys _ _ R a k Hk) as K. destruct (last (subkeys k)) as [s|] eqn:Elast.
  2: { apply last_None in Elast. exists r, true, e. split; [done|]. split; [done|]. split; [|done]. split; [|done]. apply pruned_refl. intros b [Hb Hne].
       destruct (below_subkeys r a b R Hb) as [|(k' & s & Hk' & Hs & _)]; [done|]. rewrite Hk in Hk'. injection Hk' as <-. rewrite Elast in Hs. by apply not_elem_of_nil in Hs. }
  assert (Hs : s ∈ subkeys k) by (apply last_Some in Elast as [l' ->]; apply elem_of_app; right; by left).
  destruct (ko_children _ _ _ _ K s Hs) as (ks & Hks & Hps & _). assert (Has : below r a s) by (by apply (below_parent r s ks); [apply R|..]).
  assert (Hne : a <> s) by (intros <-; by apply (not_own_parent r a ks (ro_chains _ _ R))).
  assert (Hsa : ~ below r s a) by (intros H; by apply Hne, (below_antisym r)). assert (Hc : chain r (Some a) (a :: l)) by (by econstructor).
  destruct (IHk r s ks a (a :: l) R Hks Hps Hc ltac:(lia) e) as (r1 & ok & e1 & E & R1 & H & N). rewrite (bind_run _ _ _ _ _ E).
  destruct ok; [|exists r1, false, e1; split; [done|]; split; [done|]; split; [done|]; intros N0; apply N; by apply (no_predef_below r a s)]. destruct H as [P Ee].
  destruct (pr_rest _ _ _ P a k Hsa Hk) as (k1 & Hk1 & Ec & Hs1). assert (Hp1 : k_parent k1 = k_parent k) by exact (f_equal k_parent Ec).
  assert (Hl1 : chain r1 (k_parent k1) l).
  { rewrite Hp1. apply (pruned_chain r r1 (below r s)); [done..|]. intros c Hc' Hsc. apply Hsa. apply (below_trans r s c a); [done|]. exists (a :: l). split; [done|]. by right. }
  assert (Hsl : s ∉ a :: l) by (intros Hin; apply Hsa; by exists (a :: l)).
  pose proof (rest_keys_pruned r r1 (below r s) s (a :: l) (fun b => below_dec r s b (ro_chains _ _ R)) P) as Hrest.
  destruct (IHs r1 a k1 l R1 Hk1 Hl1) with (e := e1) as (r2 & ok & e2 & E2 & R2 & H2 & N2).
  { assert (rest_keys r1 (a :: l) < rest_keys r (a :: l))%nat; [|lia]. destruct (ro_chains _ _ R s ltac:(by eexists)) as [ls Hls].
    apply Hrest; [|apply elem_linked; by exists ks, a|done]. exists ls. split; [done|]. inversion Hls; subst. by left. }
  exists r2, ok, e2. split; [done|]. split; [done|]. split; [|intros N0; apply N2; by apply (no_predef_pruned r r1 a s); [apply R|..]].
  destruct ok; [|done]. destruct H2 as [P2 Ee2]. split; [|congruence]. pose proof (below_pruned r r1 a s (ro_chains _ _ R) P Has Hne) as Hbp.
  apply (pruned_ext r r2 (fun b => below r s b \/ (below r1 a b /\ b <> a))).
  - intros b. rewrite Hbp. split; [intros [Hb|[[Hb _] Hba]]; [split; [by apply (below_trans r a s b)|by intros ->]|done]|].
    intros [Hb Hba]. destruct (below_dec r s b (ro_chains _ _ R)); [by left|by right].
  - apply (pruned_trans r r1 r2); [|done..]. intros b. destruct (decide (b = a)); [right; by intros []|]. destruct (below_dec r1 a b (ro_chains _ _ R1)); [by left|right; by intros []].
Qed.

Lemma delete_recursive fuel : deletes_key fuel /\ deletes_subkeys fuel.
Proof.
  induction fuel as [|fuel [IHk IHs]].
  - split; [|intros r a k l _ _ _ Hf; lia]. intros r a k p l R Hk Hp Hl Hf e.
    assert (rest_keys r l = 0)%nat as Hz by lia. unfold rest_keys in Hz. apply size_empty_inv in Hz. destruct (Hz a) as [H _].
    assert (a ∈ (∅ : gset Z)) as []%not_elem_of_empty. apply H. apply elem_of_difference. split; [apply elem_linked; by exists k, p|]. rewrite elem_of_list_to_set. intros Hin.
    assert (C : chain r (Some a) (a :: l)) by (econstructor; [done|by rewrite Hp]). by apply chain_nodup, list.NoDup_cons in C as [? _].
  - split; [by apply delete_key_step|by apply delete_subkeys_step].
Qed.

Lemma rest_keys_size r l : (rest_keys r l <= size (keys r))%nat.
Proof.
  unfold rest_keys, linked_keys. rewrite <-size_dom. apply subseteq_size. etrans; [apply subseteq_difference_l, reflexivity|].
  intros b [kb [Hb _]%map_lookup_filter_Some]%elem_of_dom. apply elem_of_dom. by eexists.
Qed.

(** Deleting a key of the tree with everything below it. *)
Lemma delete_tree_run r a k p e :
  reg_ok r -> keys r !! a = Some k -> k_parent k = Some p ->
  exists r' ok e', delete_tree r a true e = (Some (r', ok), e') /\ reg_ok r' /\
    (if ok then pruned r r' (below r a) /\ error e' = error e else error e' = STATUS_INVALID_HANDLE) /\ (no_predef r a -> ok = true).
Proof.
  intros R Hk Hp. destruct (ko_parent _ _ _ _ (ro_keys _ _ R a k Hk) p Hp) as (_ & kp & Hkp & _). destruct (ro_chains _ _ R p ltac:(by eexists)) as [l Hl].
  apply (proj1 (delete_recursive _) r a k p l); [done..|]. pose proof (rest_keys_size r l). lia.
Qed.

(** Without asking for the subkeys only a key that has none is deleted. *)
Lemma delete_single_run r a k p e :
  reg_ok r -> keys r !! a = Some k -> k_parent k = Some p -> has_bits (k_flags k) KEY_PREDEF = false ->
  match subkeys k with
  | [] => exists r' e', delete_tree r a false e = (Some (r', true), e') /\ error e' = error e /\ reg_ok r' /\ pruned r r' (fun b => b = a)
  | _ :: _ => delete_tree r a false e = (Some (r, false), mk_senv STATUS_ACCESS_DENIED (allocs e))
  end.
Proof.
  intros R Hk Hp Hpre. unfold delete_tree. replace (2 * size (keys r) + 1)%nat with (S (2 * size (keys r))) by lia. cbn [delete_key]. rewrite Hk.
  destruct (ko_parent _ _ _ _ (ro_keys _ _ R a k Hk) p Hp) as (Hd & _). unfold deleted in Hd. rewrite Hd, Hp, Hpre.
  destruct (subkeys k) eqn:Hs; [by apply (delete_leaf_run r a p k)|done].
Qed.
End delete.
