(* ===== verification/RegistryRename.v ===== *)
(** * Renaming registry keys

    rename_key moves a key among the subkeys of its parent to where its new name
    belongs, except when that place is directly behind the old one: then the key
    is written over its neighbour. *)

From Stdlib Require Import ZArith Lia Sorted.
From stdpp Require Import base list numbers option gmap.
From S2P Require Import Prelude Unicode UnicodeTheorems Registry RegistryTree RegistrySearch RegistryValues RegistryOrder RegistryForest RegistryCreate.

#[local] Open Scope Z_scope.
#[local] Open Scope server_scope.

(** ** Moving the elements of the array *)

Lemma move_down_write n : forall (l1 l2 : list Z) x a, (n <= length l2)%nat ->
  <[(length l1 + n)%nat := a]> (move_down n (length l1) (l1 ++ x :: l2)) = l1 ++ take n l2 ++ a :: drop n l2.
Proof.
  induction n as [|n IH]; intros l1 l2 x a Hn; cbn [move_down].
  - by rewrite insert_app_r.
  - destruct l2 as [|y l2]; [cbn in Hn; lia|]. rewrite lookup_app_r, Nat.sub_succ_l, Nat.sub_diag by lia. cbn [lookup list_lookup].
    rewrite <-(Nat.add_0_r (length l1)) at 3. rewrite insert_app_r. cbn [insert list_insert].
    specialize (IH (l1 ++ [y]) l2 y a ltac:(cbn in Hn; lia)). rewrite length_app, <-!app_assoc in IH. cbn [length app] in IH.
    replace (length l1 + 1)%nat with (S (length l1)) in IH by lia. replace (length l1 + S n)%nat with (S (length l1) + n)%nat by lia. by rewrite IH.
Qed.

Lemma move_up_write n : forall (l1 l2 l3 : list Z) x a, length l2 = n ->
  <[length l1 := a]> (move_up n (length l1 + n) (l1 ++ l2 ++ x :: l3)) = l1 ++ a :: l2 ++ l3.
Proof.
  induction n as [|n IH]; intros l1 l2 l3 x a Hn; cbn [move_up].
  - destruct l2; [|done]. rewrite <-(Nat.add_0_r (length l1)) at 1. by rewrite insert_app_r.
  - destruct l2 as [|y l2' _] using rev_ind; [done|]. rewrite length_app in Hn. cbn in Hn. assert (length l2' = n) as Hn' by lia.
    replace (pred (length l1 + S n)) with (length l1 + n)%nat by lia.
    rewrite lookup_app_r by lia. rewrite <-app_assoc. rewrite lookup_app_r by lia. replace (length l1 + n - length l1 - length l2')%nat with 0%nat by lia. cbn [lookup list_lookup app].
    rewrite insert_app_r. replace (S n) with (length l2' + 1)%nat by lia. rewrite insert_app_r. cbn [insert list_insert].
    rewrite (IH l1 l2' (y :: l3) y a Hn'). by rewrite <-app_assoc.
Qed.

(** The array after the key at [cur] has been moved to [index]. *)
Definition moved (l : list Z) (cur index : nat) (a : Z) : list Z :=
  let l0 := take cur l ++ drop (S cur) l in
  let i := if (index <=? cur)%nat then index else pred index in
  take i l0 ++ a :: drop i l0.

Lemma rename_array_moved l nb cur index a :
  l !! cur = Some a -> (index <= length l)%nat -> index <> S cur ->
  let '(l', i) := rename_array l cur index in write_subkey l' nb i a = Some (moved l cur index a).
Proof.
  intros Hc Hi Hne. pose proof (lookup_lt_Some _ _ _ Hc) as Hl. pose proof (take_drop_middle l cur a Hc) as El. unfold rename_array, write_subkey, moved.
  assert (Hlt : length (take cur l) = cur) by (rewrite length_take; lia). set (l1 := take cur l) in *. set (l2 := drop (S cur) l) in *.
  assert (Hl2 : length l2 = (length l - S cur)%nat) by (unfold l2; by rewrite length_drop).
  destruct (Nat.ltb_spec cur index) as [H1|H1]; cbn [andb].
  - destruct (Nat.ltb_spec 1 (index - cur)) as [H2|H2]; [|lia]. rewrite (proj2 (Nat.leb_gt index cur)) by lia.
    set (n := (pred index - cur)%nat). assert (En : pred index = (cur + n)%nat) by lia. rewrite En.
    pose proof (move_down_write n l1 l2 a a ltac:(lia)) as E. rewrite Hlt, El in E. pose proof (f_equal length E) as E'.
    rewrite length_insert, !length_app in E'. cbn [length] in E'. rewrite length_take, length_drop in E'. rewrite (proj2 (Nat.ltb_lt _ _)) by (rewrite E'; lia).
    rewrite E. f_equal. rewrite <-Hlt. rewrite take_app_add, drop_app_add, <-app_assoc. done.
  - destruct (Nat.ltb_spec index cur) as [H2|H2].
    + rewrite (proj2 (Nat.leb_le index cur)) by lia. set (n := (cur - index)%nat). pose proof (take_drop index l1) as El1.
      assert (Hli : length (take index l1) = index) by (rewrite length_take; lia). assert (Hld : length (drop index l1) = n) by (rewrite length_drop; lia).
      pose proof (move_up_write n (take index l1) (drop index l1) l2 a a Hld) as E. rewrite Hli in E. replace (index + n)%nat with cur in E by lia.
      rewrite app_assoc, El1, El in E. pose proof (f_equal length E) as E'. rewrite length_insert, !length_app in E'. cbn [length] in E'. rewrite length_app in E'.
      rewrite (proj2 (Nat.ltb_lt _ _)) by (rewrite E'; lia). rewrite E. f_equal. rewrite take_app_le, drop_app_le by lia. done.
    + assert (index = cur) as -> by lia. rewrite (proj2 (Nat.leb_le cur cur)), (proj2 (Nat.ltb_lt _ _)) by lia. rewrite list_insert_id by done. f_equal.
      rewrite <-El at 1. rewrite take_app_length', drop_app_length' by done. done.
Qed.

Section rename.
Context (casemap : Z -> Z).
#[local] Abbreviation reg_ok := (reg_ok casemap).

Lemma rename_reg_ok r r' a p k parent l names new_name :
  reg_ok r -> keys r !! a = Some k -> k_parent k = Some p -> keys r !! p = Some parent ->
  (forall b, keys r' !! b = if decide (b = a) then Some (set_name k new_name (Some p)) else if decide (b = p) then Some (set_subkeys parent l (nb_subkeys parent)) else keys r !! b) ->
  Forall2 (has_name r') l names -> sorted_names casemap names -> (forall s, s ∈ l <-> s ∈ subkeys parent) -> length l = length (subkeys parent) -> reg_ok r'.
Proof.
  intros R Hk Hp Hpa Hr F S Hin Hlen. assert (Hap : a <> p) by (intros ->; by apply (not_own_parent r p k (ro_chains _ _ R) Hk)).
  pose proof (ro_keys _ _ R p parent Hpa) as K. set (k' := set_name k new_name (Some p)) in *. set (parent' := set_subkeys parent l (nb_subkeys parent)) in *.
  assert (Hlab : forall s, s <> a -> label <$> keys r' !! s = label <$> keys r !! s).
  { intros s Hs. rewrite Hr, decide_False by done. case_decide; [subst; by rewrite Hpa|done]. }
  assert (Hchild : forall s ks, keys r !! s = Some ks -> exists ks', keys r' !! s = Some ks' /\ k_parent ks' = k_parent ks /\ volatile ks' = volatile ks /\ (forall x, x ∈ subkeys ks -> x ∈ subkeys ks')).
  { intros s ks Hs. rewrite Hr. destruct (decide (s = a)) as [->|]; [rewrite Hk in Hs; injection Hs as <-; by exists k'|].
    destruct (decide (s = p)) as [->|]; [|by exists ks]. rewrite Hpa in Hs. injection Hs as <-. exists parent'. split; [done|]. split; [done|]. split; [done|]. intros x. apply Hin. }
  assert (Hsub : forall b kb s, b <> p -> keys r !! b = Some kb -> s ∈ subkeys kb -> s <> a).
  { intros b kb s Hbp Hb Hs ->. destruct (ko_children _ _ _ _ (ro_keys _ _ R b kb Hb) a Hs) as (ka & Hka' & H & _). congruence. }
  assert (Hframe : forall b kb kb', b <> p -> keys r !! b = Some kb -> links kb' = links kb -> values_ok casemap kb' -> key_ok casemap r' b kb').
  { intros b kb kb' Hbp Hb El V. apply (key_ok_frame casemap r r' b kb); [by apply R|done|done|intros s Hs; by apply Hlab, (Hsub b kb s)|].
    intros q kq _ Hkq. destruct (Hchild q kq Hkq) as (kq' & H1 & _ & _ & H2). exists kq'. auto. }
  split.
  - intros b Hb. assert (is_Some (keys r !! b)) as Hb'.
    { rewrite Hr in Hb. destruct (decide (b = a)) as [->|]; [by eexists|]. destruct (decide (b = p)) as [->|]; [by eexists|done]. }
    destruct (ro_chains _ _ R b Hb') as [lc Hl]. apply (chain_cut r r' _ lc); [|done]. intros c kc Hc. destruct (Hchild c kc Hc) as (kc' & H1 & H2 & _). exists kc'. auto.
  - intros b kb Hb. rewrite Hr in Hb. destruct (decide (b = a)) as [->|Hba]; [injection Hb as <-|destruct (decide (b = p)) as [->|Hbp]; [injection Hb as <-|]].
    + apply (Hframe a k k'); [done..|unfold links; cbn; by rewrite Hp|by destruct (ko_values _ _ _ _ (ro_keys _ _ R a k Hk))].
    + split; cbn [subkeys nb_subkeys parent' set_subkeys].
      * by destruct (ko_values _ _ _ _ K).
      * by exists names.
      * rewrite Hlen. apply K.
      * intros s Hs%Hin. destruct (ko_children _ _ _ _ K s Hs) as (ks & Hks & H1 & H2). destruct (Hchild s ks Hks) as (ks' & H3 & H4 & H5 & _). exists ks'. by rewrite H4, H5.
      * intros q Hq. destruct (ko_parent _ _ _ _ K q Hq) as (H1 & kq & Hkq & H2). split; [done|]. destruct (Hchild q kq Hkq) as (kq' & H3 & _ & _ & H4). exists kq'. auto.
      * intros w Hw. apply Hin. by apply K.
    + apply (Hframe b kb kb); [done..|by apply (ko_values _ r b), R].
Qed.

(** The names of the other subkeys, and the new one. *)
Lemma moved_names r r' a k new_name (l : list Z) names cur index :
  NoDup l -> l !! cur = Some a -> Forall2 (has_name r) l names -> sorted_names casemap names -> place casemap names new_name index ->
  (forall s, s ∈ l -> s <> a -> label <$> keys r' !! s = label <$> keys r !! s) -> keys r' !! a = Some k -> k_name k = new_name ->
  exists names', Forall2 (has_name r') (moved l cur index a) names' /\ sorted_names casemap names'.
Proof.
  intros Hnd Hc F S P Hlab Ha Hn. unfold moved. set (i := if (index <=? cur)%nat then index else pred index). set (l0 := take cur l ++ drop (Datatypes.S cur) l).
  set (n0 := take cur names ++ drop (Datatypes.S cur) names). pose proof (Forall2_length _ _ _ F) as Hlen. pose proof (lookup_lt_Some _ _ _ Hc) as Hcl.
  assert (F0 : Forall2 (has_name r') l0 n0).
  { apply (label_names r); [|apply Forall2_app; [by apply Forall2_take|by apply Forall2_drop]]. intros s [Hne Hs]%(remove_elem l cur a s Hnd Hc). by apply Hlab. }
  assert (P0 : place casemap n0 new_name i).
  { assert (Hlook : forall j n, n0 !! j = Some n -> names !! (if (j <? cur)%nat then j else Datatypes.S j) = Some n).
    { intros j n. unfold n0. destruct (Nat.ltb_spec j cur) as [Hj|Hj]; [rewrite lookup_app_l by (rewrite length_take; lia); by rewrite lookup_take_lt|].
      rewrite lookup_app_r by (rewrite length_take; lia). rewrite lookup_drop, length_take, <-Hlen. intros <-. f_equal. lia. }
    pose proof (pl_bound _ _ _ _ P) as Hb. unfold i. split.
    - unfold n0. rewrite length_app, length_take, length_drop. destruct (Nat.leb_spec index cur); lia.
    - intros j n Hj%Hlook Hl. apply (pl_before _ _ _ _ P _ n Hj). destruct (Nat.ltb_spec j cur), (Nat.leb_spec index cur); lia.
    - intros j n Hj%Hlook Hl. apply (pl_after _ _ _ _ P _ n Hj). destruct (Nat.ltb_spec j cur), (Nat.leb_spec index cur); lia. }
  exists (take i n0 ++ new_name :: drop i n0). split; [|apply insert_sorted; [by apply remove_sorted|done]].
  apply Forall2_app; [by apply Forall2_take|]. constructor; [unfold has_name; rewrite Ha; cbn; by rewrite Hn|by apply Forall2_drop].
Qed.

(** ** rename_key *)

(** A name that rename_key accepts. *)
Definition new_name_ok (r : registry) (a : Z) (parent : key) (new_name : list Z) : Prop :=
  new_name <> [] /\ (92 ∉ new_name) /\ Z.of_nat (length new_name) <= MAX_NAME_LEN /\ wow6432node parent <> Some a /\
  is_wow6432node casemap new_name = false /\ forall s, ~ subkey_of casemap r parent new_name s.

Lemma get_path_element_all name : 92 ∉ name -> get_path_element name = length name.
Proof.
  induction name as [|c name IH]; [done|]. intros [Hc Hn]%not_elem_of_cons. cbn. rewrite (proj2 (Z.eqb_neq c 92)) by congruence. by rewrite IH.
Qed.

(** The registry before it is touched. *)
Definition renamed_registry (r : registry) (a p : Z) (k parent : key) (new_name : list Z) (l : list Z) : registry :=
  set_key (set_key r p (set_subkeys parent l (nb_subkeys parent))) a (set_name k new_name (Some p)).

Lemma rename_key_unfold r a k p parent new_name e :
  reg_ok r -> keys r !! a = Some k -> k_parent k = Some p -> keys r !! p = Some parent -> new_name_ok r a parent new_name -> allocs e = [] ->
  exists names cur index, Forall2 (has_name r) (subkeys parent) names /\ sorted_names casemap names /\ place casemap names new_name index /\
    subkeys parent !! cur = Some a /\
    rename_key casemap r a new_name e =
      (let '(l, i) := rename_array (subkeys parent) cur index in
       match write_subkey l (nb_subkeys parent) i a with
       | None => None
       | Some l => touch_key (renamed_registry r a p k parent new_name l) a REG_NOTIFY_CHANGE_NAME
       end, e).
Proof.
  intros R Hk Hp Hpa (N1 & N2 & N3 & N4 & N5 & N6) Ha. pose proof (ro_keys _ _ R p parent Hpa) as K.
  destruct (find_subkey_run casemap r p parent new_name K) as (names & index & F & S & [(_ & s & _ & Hs)|(Ef & P & _)]); [by destruct (N6 s)|].
  destruct (ko_parent _ _ _ _ (ro_keys _ _ R a k Hk) p Hp) as (_ & kp & Hkp & Hin). rewrite Hpa in Hkp. injection Hkp as <-.
  destruct (find_address _ _ Hin) as (cur & Hcur & Hc). exists names, cur, index. do 4 (split; [done|]).
  unfold rename_key. rewrite Hk, Hp, Hpa, Ef, get_path_element_all, Nat.eqb_refl by done.
  assert ((length new_name =? 0)%nat = false) as -> by (destruct new_name; done). cbn [orb negb]. rewrite (proj2 (Z.ltb_ge _ _)) by done.
  rewrite bool_decide_eq_false_2, N5 by done. cbn [orb]. unfold mem_alloc, malloc, bind. rewrite Ha. cbn [negb]. rewrite Hcur, Nat2Z.id. unfold ret, renamed_registry.
  destruct (rename_array (subkeys parent) cur index) as [l i]. by destruct (write_subkey l (nb_subkeys parent) i a).
Qed.

Lemma renamed_lookup r a p k parent new_name l b :
  keys (renamed_registry r a p k parent new_name l) !! b =
    if decide (b = a) then Some (set_name k new_name (Some p)) else if decide (b = p) then Some (set_subkeys parent l (nb_subkeys parent)) else keys r !! b.
Proof. unfold renamed_registry. by rewrite !set_key_lookup. Qed.

Lemma renamed_touch r a p k parent new_name l : chains_ok r -> keys r !! a = Some k -> k_parent k = Some p -> keys r !! p = Some parent ->
  exists r', touch_key (renamed_registry r a p k parent new_name l) a REG_NOTIFY_CHANGE_NAME = Some r' /\ touched (renamed_registry r a p k parent new_name l) r'.
Proof.
  intros C Hk Hp Hpa. destruct (C a ltac:(by eexists)) as [lc Hl]. set (r1 := renamed_registry r a p k parent new_name l).
  destruct (chain_cut r r1 (Some a) lc) as [lc' Hl']; [|done|].
  - intros b kb Hb. unfold r1. rewrite renamed_lookup. destruct (decide (b = a)) as [->|]; [eexists; split; [done|]; left; cbn; congruence|].
    destruct (decide (b = p)) as [->|]; [eexists; split; [done|]; left; cbn; congruence|exists kb; auto].
  - inversion Hl' as [|? k' l' Hk' Hl'']; subst. destruct (touch_key_run r1 a l' REG_NOTIFY_CHANGE_NAME Hl') as (r' & E & T & _). by exists r'.
Qed.

(** The key has its new name and is found under it, nothing else has changed. *)
Record renamed (r r' : registry) (a p : Z) (k parent : key) (new_name : list Z) : Prop := {
  rn_key : exists k', keys r' !! a = Some k' /\ contents k' = contents (set_name k new_name (Some p));
  rn_parent : exists parent', keys r' !! p = Some parent' /\ contents parent' = contents (set_subkeys parent (subkeys parent') (nb_subkeys parent)) /\
    (forall s, s ∈ subkeys parent' <-> s ∈ subkeys parent) /\ subkey_of casemap r' parent' new_name a;
  rn_others : forall b, b <> a -> b <> p -> contents <$> keys r' !! b = contents <$> keys r !! b
}.

Lemma moved_elem (l : list Z) cur index a s : NoDup l -> l !! cur = Some a -> s ∈ moved l cur index a <-> s ∈ l.
Proof.
  intros Hn Hc. unfold moved. rewrite insert_elem, (remove_elem l cur a s Hn Hc). destruct (decide (s = a)) as [->|]; [|tauto].
  split; [|by left]. intros _. by eapply list_elem_of_lookup_2.
Qed.

Lemma moved_length (l : list Z) cur index a : (cur < length l)%nat -> length (moved l cur index a) = length l.
Proof.
  intros Hc. unfold moved. rewrite length_app. cbn [length]. rewrite length_take, length_drop, length_app, length_take, length_drop. lia.
Qed.

Lemma moved_reg_ok r a k p parent new_name names cur index :
  reg_ok r -> keys r !! a = Some k -> k_parent k = Some p -> keys r !! p = Some parent ->
  Forall2 (has_name r) (subkeys parent) names -> sorted_names casemap names -> place casemap names new_name index -> subkeys parent !! cur = Some a ->
  reg_ok (renamed_registry r a p k parent new_name (moved (subkeys parent) cur index a)) /\
  forall s, s ∈ moved (subkeys parent) cur index a <-> s ∈ subkeys parent.
Proof.
  intros R Hk Hp Hpa F S P Hc. pose proof (ro_keys _ _ R p parent Hpa) as K. pose proof (subkeys_nodup casemap r p parent K) as Hnd.
  set (l := moved (subkeys parent) cur index a). set (r1 := renamed_registry r a p k parent new_name l).
  pose proof (renamed_lookup r a p k parent new_name l) as Look. fold r1 in Look. assert (Ha1 : keys r1 !! a = Some (set_name k new_name (Some p))) by (by rewrite Look, decide_True).
  assert (Hin : forall s, s ∈ l <-> s ∈ subkeys parent) by (intros s; by apply moved_elem).
  destruct (moved_names r r1 a (set_name k new_name (Some p)) new_name (subkeys parent) names cur index) as (names' & F' & S'); try done.
  { intros s Hs Hsa. rewrite Look, decide_False by done. case_decide; [subst; by rewrite Hpa|done]. }
  split; [|done]. apply (rename_reg_ok r r1 a p k parent l names' new_name); try done. apply moved_length. by eapply lookup_lt_Some.
Qed.

Lemma rename_key_run r a k p parent new_name e :
  reg_ok r -> keys r !! a = Some k -> k_parent k = Some p -> keys r !! p = Some parent -> new_name_ok r a parent new_name -> allocs e = [] ->
  exists names cur index, Forall2 (has_name r) (subkeys parent) names /\ place casemap names new_name index /\ subkeys parent !! cur = Some a /\
    (index <> S cur -> exists r', rename_key casemap r a new_name e = (Some r', e) /\ reg_ok r' /\ renamed r r' a p k parent new_name) /\
    (index = S cur -> (index < length (subkeys parent))%nat ->
      exists r' parent', rename_key casemap r a new_name e = (Some r', e) /\ keys r' !! p = Some parent' /\ subkeys parent' = <[S cur := a]> (subkeys parent)) /\
    (index = S cur -> index = length (subkeys parent) -> nb_subkeys parent = Z.of_nat index -> rename_key casemap r a new_name e = (None, e)).
Proof.
  intros R Hk Hp Hpa N Ha. destruct (rename_key_unfold r a k p parent new_name e R Hk Hp Hpa N Ha) as (names & cur & index & F & S & P & Hc & E).
  exists names, cur, index. do 3 (split; [done|]). pose proof (ro_keys _ _ R p parent Hpa) as K. pose proof (subkeys_nodup casemap r p parent K) as Hnd.
  assert (Hap : a <> p) by (intros ->; by apply (not_own_parent r p k (ro_chains _ _ R) Hk)). pose proof (lookup_lt_Some _ _ _ Hc) as Hcl.
  rewrite E. clear E. split; [|split].
  - intros Hne. pose proof (rename_array_moved (subkeys parent) (nb_subkeys parent) cur index a Hc ltac:(rewrite (Forall2_length _ _ _ F); apply P) Hne) as Hm.
    destruct (rename_array _ _ _) as [l i]. rewrite Hm. clear Hm l i. set (l := moved (subkeys parent) cur index a). set (r1 := renamed_registry r a p k parent new_name l).
    pose proof (renamed_lookup r a p k parent new_name l) as Look. fold r1 in Look. assert (Ha1 : keys r1 !! a = Some (set_name k new_name (Some p))) by (by rewrite Look, decide_True).
    destruct (moved_reg_ok r a k p parent new_name names cur index R Hk Hp Hpa F S P Hc) as [R1 Hin]. fold l in R1, Hin. fold r1 in R1.
    destruct (touch_reg_ok casemap r1 a REG_NOTIFY_CHANGE_NAME R1 ltac:(by eexists)) as (r' & -> & T & R'). exists r'. split; [done|]. split; [done|].
    destruct (touched_lookup _ _ _ _ T Ha1) as (k' & Hk' & Ek). split; [by exists k'| |].
    + assert (Hp1 : keys r1 !! p = Some (set_subkeys parent l (nb_subkeys parent))) by (rewrite Look, decide_False, decide_True by done; done).
      destruct (touched_lookup _ _ _ _ T Hp1) as (p' & Hp' & Ep). assert (Es : subkeys p' = l) by exact (f_equal subkeys Ep). exists p'. rewrite Es.
      split; [done|]. split; [done|]. split; [done|]. split; [rewrite Es; apply Hin; by eapply list_elem_of_lookup_2|]. exists k'. split; [done|].
      apply cmp_zero. by assert (k_name k' = new_name) as -> by exact (f_equal k_name Ek).
    + intros b Hb1 Hb2. rewrite (to_contents _ _ T), Look, !decide_False; done.
  - intros -> Hl. unfold rename_array. rewrite (proj2 (Nat.ltb_lt cur (Datatypes.S cur))), (proj2 (Nat.ltb_ge 1 (Datatypes.S cur - cur))), (proj2 (Nat.ltb_ge (Datatypes.S cur) cur)) by lia.
    cbn [andb]. unfold write_subkey. rewrite (proj2 (Nat.ltb_lt _ _)) by done. set (l := <[Datatypes.S cur := a]> (subkeys parent)).
    destruct (renamed_touch r a p k parent new_name l (ro_chains _ _ R) Hk Hp Hpa) as (r' & -> & T).
    destruct (touched_lookup _ _ p (set_subkeys parent l (nb_subkeys parent)) T) as (p' & Hp' & Ep); [rewrite renamed_lookup, decide_False, decide_True by done; done|].
    exists r', p'. split; [done|]. split; [done|]. exact (f_equal subkeys Ep).
  - intros -> Hl Hnb. unfold rename_array. rewrite (proj2 (Nat.ltb_lt cur (Datatypes.S cur))), (proj2 (Nat.ltb_ge 1 (Datatypes.S cur - cur))), (proj2 (Nat.ltb_ge (Datatypes.S cur) cur)) by lia.
    cbn [andb]. unfold write_subkey. rewrite (proj2 (Nat.ltb_ge _ _)) by lia. by rewrite (proj2 (Z.ltb_ge _ _)) by lia.
Qed.
End rename.
