(* ===== verification/RegistryMarks.v ===== *)
(** * Saving the registry and the marks that decide about it

    The model of saving branches, and the theorems on the marks of modified keys. *)

From Stdlib Require Import ZArith Lia Sorted.
From stdpp Require Import base list numbers option gmap.
From S2P Require Import Prelude Unicode UnicodeTheorems Registry RegistryTree RegistrySearch RegistryValues RegistryOrder RegistryForest RegistryCreate RegistryDelete.

#[local] Open Scope Z_scope.
#[local] Open Scope server_scope.

(** * Saving the registry: server/registry.c

    Which branches are written to disk: a branch is a key together with the file
    it is saved to, and it is written when it is marked as modified.  Whether the
    file could be written is a parameter; writing succeeds or not as a whole. *)

(** struct save_branch_info: the keys of the branches, in order. *)
Definition save_branch_info : Type := list Z.

(** The depth of the tree is at most the number of keys. *)
Definition clean_branch (r : registry) (a : Z) (timestamp : Z) : option registry := make_clean (size (keys r)) r a timestamp.

(** save_branch: the registry, what is returned and whether the file was written. *)
Definition save_branch (r : registry) (a : Z) (written : bool) : option (registry * bool * bool) :=
  k ← keys r !! a;
  if negb (has_bits (k_flags k) KEY_DIRTY) then Some (r, true, false)
  else if written then r ← clean_branch r a (timestamp_counter k); Some (r, true, true)
  else Some (r, false, false).

(** The branches that were written; [written] answers for each branch in turn. *)
Fixpoint flush_registry (r : registry) (branches : save_branch_info) (written : Z -> bool) : option (registry * list Z) :=
  match branches with
  | [] => Some (r, [])
  | a :: branches =>
      '(r, _, w) ← save_branch r a (written a);
      '(r, l) ← flush_registry r branches written;
      Some (r, if (w : bool) then a :: l else l)
  end.

(** Is [key] among the parents of [k]? *)
Fixpoint has_parent (fuel : nat) (r : registry) (k key : Z) : option bool :=
  match fuel with
  | O => None
  | S fuel =>
      obj ← keys r !! k;
      match k_parent obj with
      | None => Some false
      | Some p => if p =? key then Some true else has_parent fuel r p key
      end
  end.

(** The branches below a key, by their index. *)
Fixpoint branches_below (r : registry) (branches : save_branch_info) (i key : Z) : option (list Z) :=
  match branches with
  | [] => Some []
  | b :: branches =>
      inside ← has_parent (size (keys r)) r b key;
      l ← branches_below r branches (i + 1) key;
      Some (if (inside : bool) then i :: l else l)
  end.

(** The branch that holds a key. *)
Fixpoint branch_above (fuel : nat) (r : registry) (branches : save_branch_info) (key : Z) : option (list Z) :=
  match fuel with
  | O => None
  | S fuel =>
      match list_find (fun b => b = key) branches with
      | Some (i, _) => Some [Z.of_nat i]
      | None =>
          k ← keys r !! key;
          match k_parent k with
          | None => Some []
          | Some p => branch_above fuel r branches p
          end
      end
  end.

Definition find_branches_for_key (r : registry) (branches : save_branch_info) (key : Z) : option (list Z) :=
  l ← branches_below r branches 0 key;
  match l with
  | [] => branch_above (size (keys r)) r branches key
  | _ :: _ => Some l
  end.

(** The branches whose snapshots flush_key replies, and the time of the reply. *)
Definition flush_key (r : registry) (branches : save_branch_info) (key : Z) : option (list Z * Z) :=
  k ← keys r !! key;
  l ← (if has_bits (k_flags k) KEY_DIRTY && negb (has_bits (k_flags k) KEY_VOLATILE)
       then find_branches_for_key r branches key else Some []);
  let dirty i := match (branches : list Z) !! Z.to_nat i with
                 | Some b => match keys r !! b with Some k => has_bits (k_flags k) KEY_DIRTY | None => false end
                 | None => false
                 end in
  Some (filter (fun i => dirty i = true) l, change_timestamp_counter r).

(** The index comes from the client and is signed: in front of the array there is
    no branch. *)
Definition flush_key_done (r : registry) (branches : save_branch_info) (branch timestamp : Z) : M (option registry) :=
  if branch <? Z.of_nat (length (branches : list Z)) then
    ret (if branch <? 0 then None else b ← (branches : list Z) !! Z.to_nat branch; clean_branch r b timestamp)
  else set_error STATUS_INVALID_PARAMETER ;;; ret (Some r).

(** * Marks of modified registry keys

    A change marks a key and its parents, so that the branch it belongs to is
    saved; make_clean takes back the marks that are not newer than a given time. *)

Definition dirty (k : key) : bool := has_bits (k_flags k) KEY_DIRTY.

(** The keys that are saved with a mark. *)
Definition marked (k : key) : bool := dirty k && negb (volatile k).

(** The parents of a marked key are marked. *)
Definition marks_ok (r : registry) : Prop := forall a k p kp,
  keys r !! a = Some k -> k_parent k = Some p -> keys r !! p = Some kp -> marked k = true -> marked kp = true.

(** ** Marking *)

Lemma has_bits_lor f x y : has_bits f (Z.lor x y) = has_bits f x || has_bits f y.
Proof.
  unfold has_bits. rewrite Z.land_lor_distr_r. destruct (Z.eqb_spec (Z.land f x) 0) as [E|E], (Z.eqb_spec (Z.land f y) 0) as [E'|E']; cbn [negb orb].
  - by rewrite E, E'.
  - rewrite E, Z.lor_0_l. by rewrite (proj2 (Z.eqb_neq _ _) E').
  - rewrite E', Z.lor_0_r. by rewrite (proj2 (Z.eqb_neq _ _) E).
  - destruct (Z.eqb_spec (Z.lor (Z.land f x) (Z.land f y)) 0) as [H|]; [|done]. by apply Z.lor_eq_0_iff in H as [? _].
Qed.

Lemma has_bits_set f m : m <> 0 -> has_bits (Z.lor f m) m = true.
Proof.
  intros Hm. unfold has_bits. assert (E : Z.land (Z.lor f m) m = m); [|by rewrite E, (proj2 (Z.eqb_neq _ _) Hm)].
  apply Z.bits_inj'. intros n Hn. rewrite Z.land_spec, Z.lor_spec. by destruct (Z.testbit f n), (Z.testbit m n).
Qed.

(** Marks go up along a chain. *)
Definition marks_on (r : registry) (l : list Z) : Prop := forall b kb p kp,
  b ∈ l -> keys r !! b = Some kb -> k_parent kb = Some p -> keys r !! p = Some kp -> marked kb = true -> marked kp = true.

Definition all_marked (r : registry) (l : list Z) : Prop := forall b, b ∈ l -> exists kb, keys r !! b = Some kb /\ marked kb = true.

Definition none_volatile (r : registry) (l : list Z) : Prop := forall b kb, b ∈ l -> keys r !! b = Some kb -> volatile kb = false.

Lemma chain_marked r x l : chain r x l -> marks_on r l -> (forall a, x = Some a -> exists k, keys r !! a = Some k /\ marked k = true) -> all_marked r l.
Proof.
  induction 1 as [|a k l Hk Hl IH]; intros Hm Ha; [by intros b ?%not_elem_of_nil|]. destruct (Ha a eq_refl) as (k' & Hk' & Hd). assert (k' = k) as -> by congruence.
  intros b [->|Hb]%elem_of_cons; [by exists k|]. apply IH; [|intros p Hp|done].
  - intros c kc p kp Hc. apply Hm. by right.
  - rewrite Hp in Hl. inversion Hl as [|? kp l' Hkp _]; subst. exists kp. split; [done|]. apply (Hm a k p kp); [by left|done..].
Qed.

Lemma marked_after k t : volatile k = false -> marked (set_timestamp (set_flags k (Z.lor (k_flags k) KEY_DIRTY)) t) = true.
Proof.
  unfold marked, dirty, volatile. cbn. intros Hv. rewrite has_bits_set by done. unfold has_bits in *. by rewrite Z.land_lor_distr_l, Z.lor_0_r, Hv.
Qed.

(** Marking goes on to the first parent that is marked. *)
Lemma dirty_loop_marks fuel : forall r x l r', chain r x l -> NoDup l -> marks_on r l -> none_volatile r l -> dirty_loop fuel r x = Some r' ->
  all_marked r' l /\ forall b, b ∉ l -> keys r' !! b = keys r !! b.
Proof.
  induction fuel as [|fuel IH]; intros r x l r' Hl Hn Hm Hv; destruct Hl as [|a k l Hk Hl]; cbn [dirty_loop]; try done.
  1, 2: intros [= <-]; split; [by intros b ?%not_elem_of_nil|done].
  rewrite Hk, has_bits_lor. fold (dirty k) (volatile k). assert (Hva : volatile k = false) by (apply (Hv a); [by left|done]). rewrite Hva, orb_false_r.
  destruct (dirty k) eqn:Hd.
  - intros [= <-]. split; [|done]. apply (chain_marked r (Some a)); [by econstructor|done|]. intros b [= <-]. exists k. split; [done|]. unfold marked. by rewrite Hd, Hva.
  - apply list.NoDup_cons in Hn as [Ha Hn]. set (k' := set_timestamp _ _). set (r1 := set_key r a k').
    assert (Hsame : forall b, b ∈ l -> keys r1 !! b = keys r !! b) by (intros b Hb; unfold r1; rewrite set_key_lookup, decide_False; congruence).
    assert (Hc : chain r1 (k_parent k) l) by (by apply (chain_set_key r a k)). intros E.
    destruct (IH r1 (k_parent k) l r' Hc Hn) as [H1 H2]; [| |done|].
    + intros b kb p kp Hb Hkb Hp Hkp. rewrite Hsame in Hkb by done. assert (p ∈ l) as Hpl.
      { destruct (chain_suffix _ _ _ _ Hl Hb) as (l' & Hl' & Hs). inversion Hl' as [|? kb' l'' Hkb' Hl'']; subst. assert (kb' = kb) as -> by congruence.
        rewrite Hp in Hl''. inversion Hl''; subst. destruct Hs as [m ->]. apply elem_of_app. right. right. by left. }
      rewrite Hsame in Hkp by done. apply (Hm b kb p kp); [by right|done..].
    + intros b kb Hb. rewrite Hsame by done. apply Hv. by right.
    + split.
      * intros b [->|Hb]%elem_of_cons; [|by apply H1]. exists k'. rewrite H2 by done. unfold r1. rewrite set_key_lookup, decide_True by done. split; [done|]. by apply marked_after.
      * intros b [Hb1 Hb2]%not_elem_of_cons. rewrite H2 by done. unfold r1. by rewrite set_key_lookup, decide_False.
Qed.

(** ** Notifications leave the marks alone *)

Definition flags_of (r : registry) (b : Z) : option (Z * option Z * Z) := (fun k => (k_flags k, k_parent k, timestamp_counter k)) <$> keys r !! b.

Definition same_marks (r r' : registry) : Prop := forall b, flags_of r' b = flags_of r b.

#[export] Instance same_marks_preorder : PreOrder same_marks.
Proof. split; [done|]. intros r1 r2 r3 H1 H2 b. by rewrite H2, H1. Qed.

Lemma notify_all_keys change ns l : forall r, keys (notify_all r change ns l).1 = keys r.
Proof.
  induction l as [|n l IH]; intros r; [done|]. cbn [notify_all]. destruct (_ && _); cbn [do_notification].
  - specialize (IH (signal_events r (n_events n))). destruct (notify_all _ _ _ l). done.
  - specialize (IH r). destruct (notify_all _ _ _ l). done.
Qed.

Lemma set_key_marks r a k k' : keys r !! a = Some k -> k_flags k' = k_flags k -> k_parent k' = k_parent k -> timestamp_counter k' = timestamp_counter k ->
  same_marks r (set_key r a k').
Proof. intros Hk E1 E2 E3 b. unfold flags_of. rewrite set_key_lookup. case_decide; [subst; rewrite Hk; cbn; by rewrite E1, E2, E3|done]. Qed.

Lemma check_notify_marks r a change ns r' : check_notify r a change ns = Some r' -> same_marks r r'.
Proof.
  unfold check_notify. destruct (keys r !! a) as [k|] eqn:Hk; [|done]. pose proof (notify_all_keys change ns (notify_list k) r) as E.
  destruct (notify_all r change ns (notify_list k)) as [r1 l]. cbn in E. intros [= <-]. transitivity r1; [intros b; unfold flags_of; by rewrite E|].
  by apply (set_key_marks r1 a k); [rewrite E|..].
Qed.

Lemma notify_parents_marks change fuel : forall r x r', notify_parents fuel r x change = Some r' -> same_marks r r'.
Proof.
  induction fuel as [|fuel IH]; intros r [a|] r'; cbn [notify_parents]; try (by intros [= <-]).
  destruct (check_notify r a change false) as [r1|] eqn:E1; [|done]. cbn [mbind option_bind]. destruct (keys r1 !! a) as [k|]; [|done]. cbn [mbind option_bind].
  intros E. transitivity r1; [by eapply check_notify_marks|by eapply IH].
Qed.

Lemma flags_lookup r r' b k : same_marks r r' -> keys r !! b = Some k -> exists k', keys r' !! b = Some k' /\ k_flags k' = k_flags k /\ k_parent k' = k_parent k.
Proof.
  intros H Hk. specialize (H b). unfold flags_of in H. rewrite Hk in H. destruct (keys r' !! b) as [k'|]; [|done]. injection H as H1 H2 _. by exists k'.
Qed.

Lemma same_marks_sym r r' : same_marks r r' -> same_marks r' r.
Proof. by intros H b. Qed.

Lemma flags_marked k k' : k_flags k' = k_flags k -> marked k' = marked k.
Proof. unfold marked, dirty, volatile. by intros ->. Qed.

Lemma marks_ok_same r r' : same_marks r r' -> marks_ok r -> marks_ok r'.
Proof.
  intros S M a k' p kp' Hk' Hp Hkp' Hm. destruct (flags_lookup _ _ _ _ (same_marks_sym _ _ S) Hk') as (k & Hk & E1 & E2).
  destruct (flags_lookup _ _ _ _ (same_marks_sym _ _ S) Hkp') as (kp & Hkp & E3 & _). rewrite <-(flags_marked _ _ E3). apply (M a k p kp); [done|congruence|done|].
  by rewrite (flags_marked _ _ E1).
Qed.

(** ** touch_key *)

Section marks.
Context (casemap : Z -> Z).
#[local] Abbreviation reg_ok := (reg_ok casemap).

(** Above a key that is not volatile no key is volatile. *)
Lemma chain_not_volatile r x l : reg_ok r -> chain r x l -> (forall a k, x = Some a -> keys r !! a = Some k -> volatile k = false) -> none_volatile r l.
Proof.
  intros R. induction 1 as [|a k l Hk Hl IH]; intros Hv; [by intros b kb ?%not_elem_of_nil|]. intros b kb [->|Hb]%elem_of_cons Hkb; [by apply (Hv a)|].
  apply (IH) with (b := b); [|done..]. intros p kp Hp Hkp. destruct (ko_parent _ _ _ _ (ro_keys _ _ R a k Hk) p Hp) as (_ & kp' & Hkp' & Hin).
  destruct (ko_children _ _ _ _ (ro_keys _ _ R p kp Hkp) a) as (ks & Hks & _ & Hvol); [congruence|]. destruct (volatile kp); [|done].
  rewrite <-(Hv a k eq_refl Hk). assert (ks = k) as -> by congruence. symmetry. by apply Hvol.
Qed.

(** Touching a key that is marked, or volatile, changes no marks. *)
Lemma touch_key_same r a k change r' : keys r !! a = Some k -> volatile k || dirty k = true -> touch_key r a change = Some r' -> same_marks r r'.
Proof.
  intros Hk Hd. unfold touch_key. rewrite Hk. cbn [mbind option_bind]. set (r0 := set_key r a (set_modif k (now r))).
  assert (S0 : same_marks r r0) by (by apply (set_key_marks r a k)). unfold make_dirty. set (r1 := mk_registry (keys r0) _ _ _).
  assert (E1 : dirty_loop (size (keys r0)) r1 (Some a) = Some r1 \/ dirty_loop (size (keys r0)) r1 (Some a) = None).
  { destruct (size (keys r0)); cbn [dirty_loop]; [by right|]. assert (keys r1 !! a = Some (set_modif k (now r))) as -> by (unfold r1, r0; cbn; by rewrite lookup_insert_eq).
    rewrite has_bits_lor. cbn [k_flags set_modif]. fold (dirty k) (volatile k). rewrite orb_comm, Hd. by left. }
  destruct E1 as [-> | ->]; [|done]. cbn [mbind option_bind]. destruct (check_notify r1 a change true) as [r3|] eqn:E3; [|done]. cbn [mbind option_bind]. intros E4.
  transitivity r0; [done|]. transitivity r1; [done|]. transitivity r3; [by eapply check_notify_marks|by eapply notify_parents_marks].
Qed.

Lemma touch_key_marks r a k l change r' :
  reg_ok r -> marks_ok r -> keys r !! a = Some k -> chain r (Some a) l -> touch_key r a change = Some r' ->
  marks_ok r' /\ (if volatile k || dirty k then same_marks r r' else all_marked r' l).
Proof.
  intros R Mk Hk Hl E. destruct (volatile k || dirty k) eqn:Evd.
  { pose proof (touch_key_same r a k change r' Hk Evd E) as S. split; [by apply (marks_ok_same r)|done]. }
  revert E. unfold touch_key. rewrite Hk. cbn [mbind option_bind]. set (r0 := set_key r a (set_modif k (now r))).
  assert (S0 : same_marks r r0) by (by apply (set_key_marks r a k)). unfold make_dirty. set (r1 := mk_registry (keys r0) _ _ _).
  assert (S1 : same_marks r r1) by (by transitivity r0). destruct (dirty_loop (size (keys r0)) r1 (Some a)) as [r2|] eqn:E2; [|done]. cbn [mbind option_bind].
  destruct (check_notify r2 a change true) as [r3|] eqn:E3; [|done]. cbn [mbind option_bind]. intros E4.
  assert (S23 : same_marks r2 r') by (transitivity r3; [by eapply check_notify_marks|by eapply notify_parents_marks]).
  assert (Hr1a : keys r1 !! a = Some (set_modif k (now r))) by (unfold r1, r0; cbn; by rewrite lookup_insert_eq).
  assert (Hl1 : chain r1 (Some a) l).
  { apply (chain_set_key r a k (set_modif k (now r))) in Hl; [|done..]. clear -Hl. unfold r1. fold r0 in Hl. induction Hl as [|b kb l Hb _ IH]; econstructor; done. }
  apply orb_false_iff in Evd as [Hv Hd]. pose proof (marks_ok_same _ _ S1 Mk) as M1.
  assert (Nv : none_volatile r1 l).
  { intros b kb Hb Hkb. destruct (flags_lookup _ _ _ _ (same_marks_sym _ _ S1) Hkb) as (kb0 & Hkb0 & Ef & _). unfold volatile. rewrite <-Ef.
    apply (chain_not_volatile r (Some a) l R Hl) with (b := b); [|done..]. intros a' k' [= <-] Hk'. congruence. }
  destruct (dirty_loop_marks (size (keys r0)) r1 (Some a) l r2 Hl1 (chain_nodup _ _ _ Hl1)) as [Hall Hrest]; [intros b kb p kp _; apply M1|done|done|].
  split.
  - apply (marks_ok_same r2); [done|]. intros b kb p kp Hkb Hp Hkp Hm. destruct (decide (p ∈ l)) as [Hpl|Hpl].
    { destruct (Hall p Hpl) as (kp' & Hkp' & Hm'). congruence. }
    destruct (decide (b ∈ l)) as [Hbl|Hbl].
    { destruct Hpl. destruct (chain_suffix _ _ _ _ Hl1 Hbl) as (l' & Hl' & [m ->]). inversion Hl' as [|? kb' l'' Hkb' Hl'']; subst.
      assert (T : touched r1 r2).
      { destruct (dirty_loop_run (size (keys r0)) r1 (Some a) _ Hl1) as (r2' & E2' & T & _); [apply (parents_length _ _ _ Hl1)|]. congruence. }
      destruct (touched_lookup _ _ _ _ T Hkb') as (kb2 & Hkb2 & Ec). assert (kb2 = kb) as -> by congruence. assert (k_parent kb = k_parent kb') as Epar by exact (f_equal k_parent Ec).
      rewrite <-Epar, Hp in Hl''. inversion Hl''; subst. apply elem_of_app. right. right. by left. }
    rewrite Hrest in Hkb, Hkp by done. by apply (M1 b kb p kp).
  - intros b Hb. destruct (Hall b Hb) as (kb & Hkb & Hm). destruct (flags_lookup _ _ _ _ S23 Hkb) as (kb' & Hkb' & Ef & _). exists kb'. split; [done|].
    by rewrite (flags_marked _ _ Ef).
Qed.

(** ** make_clean *)

(** The keys that make_clean visits: those below [a] along marked keys. *)
Inductive visited (r : registry) : Z -> Z -> Prop :=
  | visited_self a k : keys r !! a = Some k -> marked k = true -> visited r a a
  | visited_sub a k s b : keys r !! a = Some k -> marked k = true -> s ∈ subkeys k -> visited r s b -> visited r a b.

Definition clear_mark (t : Z) (k : key) : key :=
  if timestamp_counter k <=? t then set_flags k (Z.ldiff (k_flags k) KEY_DIRTY) else k.

Lemma visited_below r a b : reg_ok r -> visited r a b -> below r a b.
Proof.
  intros R. induction 1 as [a k Hk _|a k s b Hk _ Hs _ IH].
  - destruct (ro_chains _ _ R a ltac:(by eexists)) as [l Hl]. exists l. split; [done|]. inversion Hl; subst. by left.
  - destruct (ko_children _ _ _ _ (ro_keys _ _ R a k Hk) s Hs) as (ks & Hks & Hp & _). apply (below_trans r a s b); [|done]. by apply (below_parent r s ks); [apply R|..].
Qed.

Lemma visited_frame r r' s b : reg_ok r -> is_Some (keys r !! s) -> (forall c, below r s c -> keys r' !! c = keys r !! c) -> visited r s b <-> visited r' s b.
Proof.
  intros R Hsome Hf. assert (Hchild : forall a k c ka, keys r !! a = Some k -> c ∈ subkeys k -> keys r !! c = Some ka -> below r a c).
  { intros a k c ka Hk Hc Hka. destruct (ko_children _ _ _ _ (ro_keys _ _ R a k Hk) c Hc) as (kc & Hkc & Hp & _). by apply (below_parent r c kc); [apply R|..]. }
  assert (Hself : forall a, is_Some (keys r !! a) -> below r a a).
  { intros a Ha. destruct (ro_chains _ _ R a Ha) as [l Hl]. exists l. split; [done|]. inversion Hl; subst. by left. }
  split; intros V; revert Hsome Hf.
  - induction V as [a k Hk Hm|a k c b Hk Hm Hc V IH]; intros Hsome Hf; assert (Ek : keys r' !! a = Some k) by (rewrite Hf; [done|by apply Hself]); [by econstructor|].
    destruct (ko_children _ _ _ _ (ro_keys _ _ R a k Hk) c Hc) as (kc & Hkc & Hp & _).
    econstructor 2; [done..|]. apply IH; [by eexists|]. intros d Hd. apply Hf. apply (below_trans r a c d); [|done]. by eapply Hchild.
  - induction V as [a k Hk Hm|a k c b Hk Hm Hc V IH]; intros Hsome Hf; rewrite Hf in Hk by (by apply Hself); [by econstructor|].
    destruct (ko_children _ _ _ _ (ro_keys _ _ R a k Hk) c Hc) as (kc & Hkc & Hp & _).
    econstructor 2; [done..|]. apply IH; [by eexists|]. intros d Hd. apply Hf. apply (below_trans r a c d); [|done]. by eapply Hchild.
Qed.

(** What is below one subkey is not below another. *)
Lemma below_siblings r a s s' b : (exists k, keys r !! s = Some k /\ k_parent k = Some a) -> (exists k, keys r !! s' = Some k /\ k_parent k = Some a) ->
  below r s b -> below r s' b -> s = s'.
Proof.
  intros (k & Hk & Hp) (k' & Hk' & Hp') (l & Hl & Hs) (l' & Hl' & Hs'). rewrite (chain_det _ _ _ _ Hl' Hl) in Hs'.
  destruct (chain_suffix _ _ _ _ Hl Hs) as (m & Hm & [x Ex]), (chain_suffix _ _ _ _ Hl Hs') as (m' & Hm' & [x' Ex']).
  inversion Hm as [|? k1 m1 Hk1 Hm1]; subst. inversion Hm' as [|? k2 m2 Hk2 Hm2]; subst. assert (k1 = k) as -> by congruence. assert (k2 = k') as -> by congruence.
  rewrite Hp in Hm1. rewrite Hp' in Hm2. rewrite (chain_det _ _ _ _ Hm2 Hm1) in Ex'. apply app_inj_2 in Ex' as [_ E]; [congruence|done].
Qed.

Lemma clear_contents t k : contents (clear_mark t k) = contents k.
Proof.
  unfold clear_mark. case_match; [|done]. unfold contents. cbn. f_equal. apply Z.bits_inj'. intros n Hn. rewrite !Z.ldiff_spec.
  by destruct (Z.testbit (k_flags k) n), (Z.testbit KEY_DIRTY n).
Qed.

Lemma clear_marked t k : marked (clear_mark t k) = marked k && (t <? timestamp_counter k).
Proof.
  unfold clear_mark. destruct (Z.leb_spec (timestamp_counter k) t) as [H|H]; [|by rewrite (proj2 (Z.ltb_lt _ _) H), andb_true_r].
  rewrite (proj2 (Z.ltb_ge _ _) H), andb_false_r. unfold marked, dirty, has_bits. cbn [k_flags set_flags].
  assert (Z.land (Z.ldiff (k_flags k) KEY_DIRTY) KEY_DIRTY = 0) as ->; [|done].
  apply Z.bits_inj'. intros n Hn. rewrite Z.land_spec, Z.ldiff_spec, Z.bits_0. by destruct (Z.testbit (k_flags k) n), (Z.testbit KEY_DIRTY n).
Qed.

(** The marks of the visited keys are taken back unless they are newer. *)
Record cleaned (r r' : registry) (t : Z) (V : Z -> Prop) : Prop := {
  cl_touched : touched r r';
  cl_visited : forall b kb, V b -> keys r !! b = Some kb -> keys r' !! b = Some (clear_mark t kb);
  cl_others : forall b, ~ V b -> keys r' !! b = keys r !! b
}.

Definition cleans (fuel : nat) (t : Z) : Prop := forall r a l,
  reg_ok r -> chain r (Some a) (a :: l) -> (size (keys r) < fuel + length (a :: l))%nat ->
  exists r', make_clean fuel r a t = Some r' /\ cleaned r r' t (visited r a).

Lemma clean_list fuel t : cleans fuel t -> forall ls r a l,
  reg_ok r -> chain r (Some a) (a :: l) -> (size (keys r) < fuel + S (length (a :: l)))%nat -> NoDup ls ->
  (forall s, s ∈ ls -> exists ks, keys r !! s = Some ks /\ k_parent ks = Some a) ->
  exists r', foldl (fun (r : option registry) s => r ← r; make_clean fuel r s t) (Some r) ls = Some r' /\
    cleaned r r' t (fun b => exists s, s ∈ ls /\ visited r s b).
Proof.
  intros IH. induction ls as [|s ls IHl]; intros r a l R Hl Hf Hn Hs; cbn [foldl].
  { exists r. split; [done|]. split; [done| |done]. intros b kb (s & Hs' & _). by apply not_elem_of_nil in Hs'. }
  apply list.NoDup_cons in Hn as [Hsn Hn]. destruct (Hs s ltac:(by left)) as (ks & Hks & Hp).
  destruct (IH r s (a :: l) R) as (r1 & E1 & C1); [econstructor; [done|by rewrite Hp]|cbn in *; lia|]. cbn [mbind option_bind]. rewrite E1.
  pose proof (touched_reg_ok casemap _ _ (cl_touched _ _ _ _ C1) R) as R1. pose proof (touched_chain _ _ _ _ (cl_touched _ _ _ _ C1) Hl) as Hl1.
  destruct (IHl r1 a l R1 Hl1) as (r2 & E2 & C2); [rewrite (touched_size _ _ (cl_touched _ _ _ _ C1)); done|done| |].
  { intros s' Hs'. destruct (Hs s' ltac:(by right)) as (ks' & Hks' & Hp'). destruct (touched_lookup _ _ _ _ (cl_touched _ _ _ _ C1) Hks') as (k1 & Hk1 & Ec).
    exists k1. split; [done|]. rewrite <-Hp'. exact (f_equal k_parent Ec). }
  exists r2. split; [done|].
  assert (Hdis : forall s' b, s' ∈ ls -> visited r s b -> below r s' b -> False).
  { intros s' b Hs' V Hb. apply Hsn. rewrite (below_siblings r a s s' b); [done|by exists ks|apply Hs; by right|by apply visited_below|done]. }
  assert (Hv : forall s' b, s' ∈ ls -> visited r s' b <-> visited r1 s' b).
  { intros s' b Hs'. apply visited_frame; [done|destruct (Hs s' ltac:(by right)) as (k' & ? & _); by eexists|]. intros c Hc. apply (cl_others _ _ _ _ C1). intros V. by apply (Hdis s' c). }
  split.
  - transitivity r1; [apply C1|apply C2].
  - intros b kb (s' & [->|Hs']%elem_of_cons & V) Hkb.
    + rewrite (cl_others _ _ _ _ C2); [by apply (cl_visited _ _ _ _ C1)|]. intros (s' & Hs' & V'). apply (Hdis s' b Hs' V). apply visited_below; [done|]. by apply Hv.
    + apply (cl_visited _ _ _ _ C2); [exists s'; split; [done|by apply Hv]|]. rewrite (cl_others _ _ _ _ C1); [done|]. intros V'. apply (Hdis s' b Hs' V'). by apply visited_below.
  - intros b Hb. rewrite (cl_others _ _ _ _ C2), (cl_others _ _ _ _ C1); [done| |].
    + intros V. apply Hb. exists s. split; [by left|done].
    + intros (s' & Hs' & V). apply Hb. exists s'. split; [by right|by apply Hv].
Qed.

Lemma make_clean_run fuel t : cleans fuel t.
Proof.
  induction fuel as [|fuel IH]; intros r a l R Hl Hf; [pose proof (parents_length _ _ _ Hl); cbn in *; lia|]. inversion Hl as [|? k l' Hk Hl']; subst. cbn [make_clean]. rewrite Hk.
  fold (volatile k) (dirty k). destruct (marked k) eqn:Hm.
  2: { exists r. assert (Hv : forall b, ~ visited r a b) by (intros b V; inversion V; congruence).
       split; [unfold marked in Hm; destruct (volatile k); [done|]; by destruct (dirty k)|]. split; [done| |done]. intros b kb V. by destruct (Hv b). }
  pose proof Hm as Hm'. unfold marked in Hm'. apply andb_true_iff in Hm' as [-> ->%negb_true_iff]. cbn [negb].
  set (r1 := if timestamp_counter k <=? t then _ else r). assert (Hr1 : forall b, keys r1 !! b = if decide (b = a) then Some (clear_mark t k) else keys r !! b).
  { intros b. unfold r1, clear_mark. destruct (timestamp_counter k <=? t); [by rewrite set_key_lookup|]. case_decide; congruence. }
  assert (T1 : touched r r1).
  { split. intros b. rewrite Hr1. case_decide; [subst; rewrite Hk; cbn; by rewrite clear_contents|done]. }
  pose proof (touched_reg_ok casemap _ _ T1 R) as R1. pose proof (ro_keys _ _ R a k Hk) as K.
  destruct (clean_list fuel t IH (subkeys k) r1 a l R1 (touched_chain _ _ _ _ T1 Hl)) as (r2 & E2 & C2).
  { rewrite (touched_size _ _ T1). cbn in *. lia. }
  { by eapply subkeys_nodup. }
  { intros s Hs. destruct (ko_children _ _ _ _ K s Hs) as (ks & Hks & Hp & _). destruct (touched_lookup _ _ _ _ T1 Hks) as (k1 & Hk1 & Ec). exists k1. split; [done|].
    rewrite <-Hp. exact (f_equal k_parent Ec). }
  assert (Hna : forall s, s ∈ subkeys k -> ~ below r s a).
  { intros s Hs H. destruct (ko_children _ _ _ _ K s Hs) as (ks & Hks & Hp & _). assert (below r a s) by (by apply (below_parent r s ks); [apply R|..]).
    assert (a = s) as -> by (by apply (below_antisym r)). by apply (not_own_parent r s ks (ro_chains _ _ R)). }
  assert (Hv : forall s b, s ∈ subkeys k -> visited r s b <-> visited r1 s b).
  { intros s b Hs. destruct (ko_children _ _ _ _ K s Hs) as (ks & Hks & _). apply visited_frame; [done|by eexists|]. intros c Hc. rewrite Hr1, decide_False; [done|]. intros ->. by apply (Hna s Hs). }
  assert (Hnv : ~ exists s, s ∈ subkeys k /\ visited r1 s a) by (intros (s & Hs & V%(Hv s a Hs)); apply (Hna s Hs); by apply visited_below).
  exists r2. split; [done|]. split.
  - transitivity r1; [done|apply C2].
  - intros b kb V Hkb. destruct (decide (b = a)) as [->|Hba].
    + rewrite (cl_others _ _ _ _ C2) by done. rewrite Hr1, decide_True by done. congruence.
    + inversion V as [|? k' s ? Hk' _ Hs V']; subst; [done|]. assert (k' = k) as -> by congruence.
      apply (cl_visited _ _ _ _ C2); [exists s; split; [done|by apply Hv]|]. by rewrite Hr1, decide_False.
  - intros b Hb. assert (b <> a) by (intros ->; apply Hb; by eapply visited_self). rewrite (cl_others _ _ _ _ C2); [by rewrite Hr1, decide_False|].
    intros (s & Hs & V). apply Hb. eapply visited_sub; [done..|]. by apply Hv.
Qed.

(** Among well-kept marks the keys visited are the marked keys below. *)
Lemma visited_marked r a b kb : reg_ok r -> marks_ok r -> keys r !! b = Some kb -> visited r a b <-> below r a b /\ marked kb = true.
Proof.
  intros R Mk Hb. split.
  - intros V. split; [by apply visited_below|]. induction V; congruence || (by apply IHV).
  - intros [(l & Hl & Ha) Hm]. remember (Some b) as x eqn:Ex. revert b kb Hb Hm Ex Ha. 
    induction Hl as [|c kc l Hc Hl IH]; intros b kb Hb Hm Ex Ha; [done|]. injection Ex as ->. assert (kc = kb) as -> by congruence.
    apply elem_of_cons in Ha as [->|Ha]; [by eapply visited_self|]. destruct (k_parent kb) as [q|] eqn:Eq; [|inversion Hl; subst; by apply not_elem_of_nil in Ha].
    destruct (ko_parent _ _ _ _ (ro_keys _ _ R b kb Hb) q Eq) as (_ & kq & Hkq & Hin). pose proof (IH q kq Hkq (Mk b kb q kq Hb Eq Hkq Hm) eq_refl Ha) as V.
    clear IH Ha Hl. induction V as [a ka Hka Hma|a ka s c Hka Hma Hs V IH].
    + assert (ka = kq) as -> by congruence. eapply visited_sub; [done..|]. by eapply visited_self.
    + eapply visited_sub; [done..|]. by apply IH.
Qed.
End marks.
