(* ===== verification/RegistrySteps.v ===== *)
(** * Sequences of registry operations, and registries to evaluate

    Operations on a well-formed registry in any order, and a decision procedure for the
    invariant on concrete registries. *)

From Stdlib Require Import ZArith Lia Sorted.
From stdpp Require Import base list numbers option gmap.
From S2P Require Import Prelude Unicode UnicodeTheorems Memory Registry RegistryTree RegistrySearch RegistryValues RegistryOrder RegistryForest RegistryCreate RegistryDelete RegistryRename RegistryMarks.

#[local] Open Scope Z_scope.
#[local] Open Scope server_scope.

(** * Sequences of registry operations

    Every operation on a well-formed registry runs to completion and leaves it
    well formed, so the same holds for any sequence of operations. *)

(** ** Operations *)

Inductive reg_op :=
  | OpCreateKey (a p : Z) (name : list Z) (options attributes : Z)
  | OpSetValue (a : Z) (name : list Z) (type : Z) (data : list Z)
  | OpDeleteValue (a : Z) (name : list Z)
  | OpDeleteKey (a : Z) (recurse : bool)
  | OpRenameKey (a : Z) (new_name : list Z)
  | OpAddNotification (a process hkey event : Z) (subtree : bool) (filter : Z)
  | OpCloseHandle (a process hkey : Z)
  | OpSaveBranch (a : Z) (written : bool)
  | OpFlushDone (a timestamp : Z).

Section steps.
Context (casemap : Z -> Z) (lookup_absolute : registry -> list Z -> M (option (Z * list Z))).
#[local] Abbreviation reg_ok := (reg_ok casemap).

Definition drop_result {A} (m : M (option (registry * A))) : M (option registry) := let* x := m in ret (fst <$> x).

Definition drop_key {A} (m : U (registry * A)) : M (option registry) :=
  fun e => match m e with Some ((r, _), e') => (Some r, e') | None => (None, e) end.

Definition run_op (r : registry) (op : reg_op) : M (option registry) :=
  match op with
  | OpCreateKey a p name options attributes => drop_key (create_key casemap lookup_absolute r a p name options attributes)
  | OpSetValue a name type data => set_value casemap r a name type data
  | OpDeleteValue a name => delete_value casemap r a name
  | OpDeleteKey a recurse => drop_result (delete_tree r a recurse)
  | OpRenameKey a new_name => rename_key casemap r a new_name
  | OpAddNotification a process hkey event subtree filter => drop_result (add_notification r a process hkey event subtree filter)
  | OpCloseHandle a process hkey => ret (key_close_handle r a process hkey)
  | OpSaveBranch a written => ret ((fun x => x.1.1) <$> save_branch r a written)
  | OpFlushDone a timestamp => ret (clean_branch r a timestamp)
  end.

(** The new name does not belong directly behind the old one. *)
Definition rename_safe (r : registry) (a : Z) (new_name : list Z) : Prop := forall k p parent index cur,
  keys r !! a = Some k -> k_parent k = Some p -> keys r !! p = Some parent -> find_subkey casemap r parent new_name = Some (false, Z.of_nat index) ->
  subkeys parent !! cur = Some a -> index <> S cur.

(** Operations name keys that exist; a new key gets a new address, the paths of links
    can be looked up, a key that is opened by an empty name has a parent, a renamed
    key does not go directly behind its own place, and arrays have fewer than 2^30
    elements. *)
Definition admissible (r : registry) (op : reg_op) : Prop :=
  match op with
  | OpCreateKey a p name _ _ => keys r !! a = None /\ absolute_ok casemap lookup_absolute r /\ room r /\
      exists kp, keys r !! p = Some kp /\ (name = [] -> k_parent kp <> None)
  | OpSetValue a _ _ _ => exists k, keys r !! a = Some k /\ Z.of_nat (length (values k)) < 2 ^ 30
  | OpRenameKey a new_name => is_Some (keys r !! a) /\ rename_safe r a new_name
  | OpDeleteValue a _ | OpDeleteKey a _ | OpAddNotification a _ _ _ _ _ | OpCloseHandle a _ _ | OpSaveBranch a _ | OpFlushDone a _ => is_Some (keys r !! a)
  end.

(** ** Each of them *)

Definition completes (m : M (option registry)) : Prop := forall e, exists r' e', m e = (Some r', e') /\ reg_ok r'.

Lemma completes_ret r : reg_ok r -> completes (ret (Some r)).
Proof. intros R e. by exists r, e. Qed.

Lemma completes_error r err : reg_ok r -> completes (set_error err ;;; ret (Some r)).
Proof. intros R e. by eexists r, _. Qed.

(** Only the values of one key have changed. *)
Lemma values_reg_ok r r' a k k' : reg_ok r -> keys r !! a = Some k -> keys r' !! a = Some k' -> contents k' = contents (set_values k (values k') (nb_values k')) ->
  values_ok casemap k' -> (forall b, b <> a -> contents <$> keys r' !! b = contents <$> keys r !! b) -> reg_ok r'.
Proof.
  intros R Hk Hk' E V Ho. set (r1 := set_key r a (set_values k (values k') (nb_values k'))).
  assert (R1 : reg_ok r1) by (apply (set_key_reg_ok casemap r a k); try done; by destruct V).
  apply (touched_reg_ok casemap r1); [|done]. split. intros b. unfold r1. rewrite set_key_lookup. case_decide as Hb; [subst; rewrite Hk'; cbn; by rewrite E|by apply Ho].
Qed.

Lemma chain_head r a k : reg_ok r -> keys r !! a = Some k -> exists l, chain r (Some a) (a :: l).
Proof. intros R Hk. destruct (ro_chains _ _ R a ltac:(by eexists)) as [l Hl]. inversion Hl; subst. by eexists. Qed.

Lemma set_value_completes r a k name type data : reg_ok r -> keys r !! a = Some k -> Z.of_nat (length (values k)) < 2 ^ 30 -> completes (set_value casemap r a name type data).
Proof.
  intros R Hk Hl e. pose proof (ko_values _ _ _ _ (ro_keys _ _ R a k Hk)) as V. destruct (has_bits (k_flags k) KEY_PREDEF) eqn:Hp.
  { unfold set_value. rewrite Hk, Hp. by apply completes_error. }
  destruct (link_denied casemap k name type) eqn:Hd.
  - unfold set_value. rewrite Hk, Hp. fold (link_denied casemap k name type). rewrite Hd. destruct (find_value_run casemap k name V) as [i Hi].
    destruct (value_of casemap (values k) name); destruct Hi as [-> Hi]; [|by apply completes_error].
    rewrite Nat2Z.id, Hi. destruct (_ && _ && _); [by apply completes_ret|by apply completes_error].
  - destruct (chain_head r a k R Hk) as [l C]. destruct (set_value_run casemap r a l k name type data e C Hk V Hl Hp Hd) as (r' & e' & k' & ok & E & S & _).
    exists r', e'. split; [done|]. by apply (values_reg_ok r r' a k k'); [done..|apply S|apply S|apply S|apply S].
Qed.

Lemma delete_value_completes r a k name : reg_ok r -> keys r !! a = Some k -> completes (delete_value casemap r a name).
Proof.
  intros R Hk e. pose proof (ko_values _ _ _ _ (ro_keys _ _ R a k Hk)) as V. destruct (has_bits (k_flags k) KEY_PREDEF) eqn:Hp.
  { unfold delete_value. rewrite Hk, Hp. by apply completes_error. }
  destruct (chain_head r a k R Hk) as [l C]. pose proof (delete_value_run casemap r a l k name e C Hk V Hp) as H. destruct (value_of casemap (values k) name) as [v|].
  - destruct H as (r' & e' & k' & i & E & _ & Hk' & Ec & V' & _ & _ & _ & Ho). exists r', e'. split; [done|]. by apply (values_reg_ok r r' a k k').
  - rewrite H. by eexists r, _.
Qed.

Lemma delete_key_completes r a k recurse : reg_ok r -> keys r !! a = Some k -> completes (drop_result (delete_tree r a recurse)).
Proof.
  intros R Hk e. unfold drop_result. destruct (k_parent k) as [p|] eqn:Hp.
  - destruct recurse.
    + destruct (delete_tree_run casemap r a k p e R Hk Hp) as (r' & ok & e' & E & R' & _). rewrite (bind_run _ _ _ _ _ E). by exists r', e'.
    + destruct (has_bits (k_flags k) KEY_PREDEF) eqn:Hpre.
      * destruct (ko_parent _ _ _ _ (ro_keys _ _ R a k Hk) p Hp) as (Hd & _). unfold deleted in Hd. unfold delete_tree. rewrite Nat.add_1_r.
        unfold bind. cbn [delete_key]. rewrite Hk, Hd, Hp, Hpre. by eexists r, _.
      * pose proof (delete_single_run casemap r a k p e R Hk Hp Hpre) as H. destruct (subkeys k).
        -- destruct H as (r' & e' & E & _ & R' & _). rewrite (bind_run _ _ _ _ _ E). by exists r', e'.
        -- rewrite (bind_run _ _ _ _ _ H). by eexists r, _.
  - unfold delete_tree. rewrite Nat.add_1_r. unfold bind. cbn [delete_key]. rewrite Hk, Hp. destruct (has_bits (k_flags k) KEY_DELETED); by eexists r, _.
Qed.

Lemma rename_key_completes r a new_name : reg_ok r -> is_Some (keys r !! a) -> rename_safe r a new_name -> completes (rename_key casemap r a new_name).
Proof.
  intros R [k Hk] Hsafe e. destruct (k_parent k) as [p|] eqn:Hp.
  2: { unfold rename_key. rewrite Hk, Hp. destruct (_ || _ || _); by eexists r, _. }
  destruct (ko_parent _ _ _ _ (ro_keys _ _ R a k Hk) p Hp) as (_ & parent & Hpa & Hin). pose proof (ro_keys _ _ R p parent Hpa) as K.
  destruct (mem_alloc_run e) as (ok & e1 & Ea & _).
  unfold rename_key. rewrite Hk, Hp, Hpa. destruct ((get_path_element new_name =? 0)%nat || negb (get_path_element new_name =? length new_name)%nat || (MAX_NAME_LEN <? Z.of_nat (get_path_element new_name))) eqn:Eb;
    [by apply completes_error|]. destruct (find_subkey_run casemap r p parent new_name K) as (names & i & F & S & [(Ef & _)|(Ef & P & Hno)]); rewrite Ef; [by apply completes_error|].
  destruct (bool_decide (wow6432node parent = Some a) || is_wow6432node casemap new_name) eqn:Ew; [by apply completes_error|]. rewrite (bind_run _ _ _ _ _ Ea).
  destruct ok; cbn [negb]; [|by apply completes_ret]. rewrite Nat2Z.id. destruct (find_address _ _ Hin) as (cur & -> & Hc).
  pose proof (rename_array_moved (subkeys parent) (nb_subkeys parent) cur i a Hc ltac:(rewrite (Forall2_length _ _ _ F); apply P) (Hsafe k p parent i cur Hk Hp Hpa Ef Hc)) as Hm.
  destruct (rename_array (subkeys parent) cur i) as [l j]. rewrite Hm.
  destruct (moved_reg_ok casemap r a k p parent new_name names cur i) as [R1 _]; try done. fold (renamed_registry r a p k parent new_name (moved (subkeys parent) cur i a)).
  destruct (touch_reg_ok casemap _ a REG_NOTIFY_CHANGE_NAME R1) as (r' & -> & _ & R'); [rewrite renamed_lookup, decide_True by done; by eexists|]. by exists r', e1.
Qed.

Lemma notify_reg_ok r a k l ev : reg_ok r -> keys r !! a = Some k -> reg_ok (set_key (signal_events r ev) a (set_notify k l)).
Proof.
  intros R Hk. apply (touched_reg_ok casemap r); [|done]. split. intros b. rewrite set_key_lookup. case_decide; [subst; by rewrite Hk|done].
Qed.

Lemma add_notification_completes r a k process hkey event subtree filter :
  reg_ok r -> keys r !! a = Some k -> completes (drop_result (add_notification r a process hkey event subtree filter)).
Proof.
  intros R Hk e. assert (Hs : forall l, reg_ok (set_key r a (set_notify k l))).
  { intros l. apply (touched_reg_ok casemap r); [|done]. split. intros b. rewrite set_key_lookup. case_decide; [subst; by rewrite Hk|done]. }
  unfold drop_result, add_notification, mem_alloc, malloc, set_error, bind, ret. rewrite Hk.
  destruct (find_notify k process hkey) as [[i n]|]; destruct e as [err [|[] [|[] al]]]; cbn; (eexists _, _; split; [done|]); first [apply Hs|done].
Qed.

Lemma clean_completes r a t : reg_ok r -> is_Some (keys r !! a) -> exists r', clean_branch r a t = Some r' /\ touched r r' /\ reg_ok r'.
Proof.
  intros R [k Hk]. destruct (chain_head r a k R Hk) as [l C]. destruct (make_clean_run casemap (size (keys r)) t r a l R C) as (r' & E & H).
  { cbn. lia. }
  exists r'. split; [done|]. split; [apply H|]. eapply touched_reg_ok; [apply H|done].
Qed.

(** ** All of them *)

Lemma run_op_ok r op : reg_ok r -> admissible r op -> completes (run_op r op).
Proof.
  intros R. destruct op; cbn [run_op admissible].
  - intros (Ha & A & Hr & kp & Hp & Hn) e. destruct (create_key_completes casemap lookup_absolute r a p kp name options attributes e R A Hr Ha Hp Hn) as (r' & b & e' & E & R').
    unfold drop_key. rewrite E. by exists r', e'.
  - intros (k & Hk & Hl). by apply (set_value_completes r a k).
  - intros [k Hk]. by apply (delete_value_completes r a k).
  - intros [k Hk]. by apply (delete_key_completes r a k).
  - intros [Hk Hs]. by apply rename_key_completes.
  - intros [k Hk]. by apply (add_notification_completes r a k).
  - intros [k Hk]. unfold key_close_handle. rewrite Hk. destruct (find_notify k process hkey) as [[i n]|]; apply completes_ret; [by apply notify_reg_ok|done].
  - intros [k Hk]. unfold save_branch. rewrite Hk. cbn [mbind option_bind]. destruct (negb _); [by apply completes_ret|]. destruct written; [|by apply completes_ret].
    destruct (clean_completes r a (timestamp_counter k) R ltac:(by eexists)) as (r' & -> & _ & R'). by apply completes_ret.
  - intros Hk. destruct (clean_completes r a timestamp R Hk) as (r' & -> & _ & R'). by apply completes_ret.
Qed.

(** The registries that operations lead to, each with its own answers to requests
    for memory. *)
Inductive reachable (r : registry) : registry -> Prop :=
  | reach_start : reachable r r
  | reach_op r1 op e r2 e' : reachable r r1 -> admissible r1 op -> run_op r1 op e = (Some r2, e') -> reachable r r2.

Lemma reachable_ok r r' : reg_ok r -> reachable r r' -> reg_ok r'.
Proof.
  intros R. induction 1 as [|r1 op e r2 e' _ IH Ha E]; [done|]. destruct (run_op_ok r1 op IH Ha e) as (r3 & e3 & E' & R3). rewrite E' in E. by injection E as <- _.
Qed.
End steps.

(** * Checking the invariant of the registry

    A decision procedure for the invariant, and the registries on which the
    properties are evaluated. *)

Fixpoint chain_list (fuel : nat) (r : registry) (x : option Z) : option (list Z) :=
  match x, fuel with
  | None, _ => Some []
  | Some _, O => None
  | Some a, S fuel => k ← keys r !! a; l ← chain_list fuel r (k_parent k); Some (a :: l)
  end.

Lemma chain_list_ok fuel : forall r x l, chain_list fuel r x = Some l -> chain r x l.
Proof.
  induction fuel as [|fuel IH]; intros r [a|] l; cbn [chain_list]; try done; try (intros [= <-]; constructor).
  destruct (keys r !! a) as [k|] eqn:Hk; [|done]. cbn [mbind option_bind]. destruct (chain_list fuel r (k_parent k)) as [l'|] eqn:E; [|done]. cbn. intros [= <-].
  econstructor; [done|by apply IH].
Qed.

Section check.
Context (casemap : Z -> Z).

Fixpoint names_sorted (l : list (list Z)) : bool :=
  match l with
  | [] => true
  | a :: l => forallb (fun b => cmp_name casemap a b <? 0) l && names_sorted l
  end.

Lemma names_sorted_ok l : names_sorted l = true -> sorted_names casemap l.
Proof.
  induction l as [|a l IH]; [constructor|]. cbn. intros [H1 H2]%andb_true_iff. constructor; [by apply IH|]. apply list.Forall_forall. intros b Hb.
  rewrite forallb_forall in H1. unfold name_lt. apply Z.ltb_lt, H1. by apply list_elem_of_In.
Qed.

Definition size_check (n : nat) (nb : Z) : bool := (Z.of_nat n <=? nb) && ((nb =? 0) || ((8 <=? nb) && (nb <? 2 ^ 31))).

Lemma size_check_ok n nb : size_check n nb = true -> size_ok n nb.
Proof.
  unfold size_check, size_ok, MIN_SUBKEYS. rewrite andb_true_iff, orb_true_iff, andb_true_iff, !Z.leb_le, Z.ltb_lt, Z.eqb_eq. done.
Qed.

Definition key_check (r : registry) (a : Z) (k : key) : bool :=
  names_sorted (v_name <$> values k) && size_check (length (values k)) (nb_values k) &&
  match names_of r (subkeys k) with Some names => names_sorted names | None => false end &&
  size_check (length (subkeys k)) (nb_subkeys k) &&
  forallb (fun s => match keys r !! s with
                    | Some ks => bool_decide (k_parent ks = Some a) && (negb (volatile k) || volatile ks)
                    | None => false
                    end) (subkeys k) &&
  match k_parent k with
  | None => true
  | Some p => negb (deleted k) && match keys r !! p with Some kp => bool_decide (a ∈ subkeys kp) | None => false end
  end &&
  match wow6432node k with None => true | Some w => bool_decide (w ∈ subkeys k) end &&
  match chain_list (size (keys r)) r (Some a) with Some _ => true | None => false end.

Lemma key_check_ok r a k : key_check r a k = true -> key_ok casemap r a k /\ exists l, chain r (Some a) l.
Proof.
  unfold key_check. rewrite !andb_true_iff. intros [[[[[[[H1 H2] H3] H4] H5] H6] H7] H8]. split.
  - split.
    + apply size_check_ok in H2 as [H2 H2']. split; [by apply names_sorted_ok|done|]. unfold MIN_SUBKEYS, MIN_VALUES in *. tauto.
    + destruct (names_of r (subkeys k)) as [names|] eqn:E; [|done]. exists names. split; [by apply names_of_spec|by apply names_sorted_ok].
    + by apply size_check_ok.
    + intros s Hs. rewrite forallb_forall in H5. specialize (H5 s (proj1 (list_elem_of_In _ _) Hs)). destruct (keys r !! s) as [ks|]; [|done].
      apply andb_true_iff in H5 as [H5 H5']. apply bool_decide_eq_true in H5. exists ks. split; [done|]. split; [done|]. intros Hv. by rewrite Hv in H5'.
    + intros p Hp. rewrite Hp in H6. apply andb_true_iff in H6 as [H6 H6']. apply negb_true_iff in H6. split; [done|]. destruct (keys r !! p) as [kp|]; [|done].
      exists kp. split; [done|]. by apply bool_decide_eq_true in H6'.
    + intros w Hw. rewrite Hw in H7. by apply bool_decide_eq_true in H7.
  - destruct (chain_list _ r (Some a)) as [l|] eqn:E; [|done]. exists l. by eapply chain_list_ok.
Qed.

Definition reg_check (r : registry) : bool := forallb (fun p : Z * key => key_check r p.1 p.2) (map_to_list (keys r)).

Lemma reg_check_ok r : reg_check r = true -> reg_ok casemap r.
Proof.
  intros H. assert (Hk : forall a k, keys r !! a = Some k -> key_ok casemap r a k /\ exists l, chain r (Some a) l).
  { intros a k Hk. apply key_check_ok. unfold reg_check in H. rewrite forallb_forall in H. apply (H (a, k)). apply list_elem_of_In. by apply elem_of_map_to_list. }
  split; [intros a [k Hk']; by apply (Hk a k)|]. intros a k Hk'. by apply Hk.
Qed.
End check.

Definition marks_check (r : registry) : bool :=
  forallb (fun x : Z * key => match k_parent x.2 with
                              | None => true
                              | Some p => match keys r !! p with Some kp => negb (marked x.2) || marked kp | None => true end
                              end) (map_to_list (keys r)).

Lemma marks_check_ok r : marks_check r = true <-> marks_ok r.
Proof.
  unfold marks_check. rewrite forallb_forall. split.
  - intros H a k p kp Hk Hp Hkp Hm. specialize (H (a, k)). cbn in H. rewrite Hp, Hkp, Hm in H. apply H. apply list_elem_of_In. by apply elem_of_map_to_list.
  - intros Mk [a k] Hin. apply list_elem_of_In, elem_of_map_to_list in Hin. cbn. destruct (k_parent k) as [p|] eqn:Hp; [|done]. destruct (keys r !! p) as [kp|] eqn:Hkp; [|done].
    destruct (marked k) eqn:Hm; [|done]. cbn. by apply (Mk a k p kp).
Qed.

(** ** Registries to evaluate *)

(** No character has another case. *)
Definition no_case (_ : Z) : Z := 0.

Definition sample_key (name : list Z) (parent : option Z) (subs : list Z) (vs : list key_value) (flags : Z) : key :=
  mk_key name parent None subs 8 None vs 8 flags 0 [] 0.

(** The key R with the subkeys a and c; a has the subkey x. *)
Definition sample_registry (vs : list key_value) : registry :=
  mk_registry
    (list_to_map [(1, sample_key [82] None [2; 3] [] 0); (2, sample_key [97] (Some 1) [4] vs 0);
                  (3, sample_key [99] (Some 1) [] [] 0); (4, sample_key [120] (Some 2) [] [] 0)])
    0 7 [].

(** The values b, c and d, set in that order. *)
Definition sample_values : list key_value := [mk_value [98] 4 [1; 0; 0; 0] 0; mk_value [99] 4 [2; 0; 0; 0] 1; mk_value [100] 4 [3; 0; 0; 0] 2].

Lemma sample_ok : reg_ok no_case (sample_registry sample_values).
Proof. apply reg_check_ok. vm_compute. reflexivity. Qed.

Lemma sample_marks : marks_ok (sample_registry []).
Proof. apply marks_check_ok. vm_compute. reflexivity. Qed.
