(* ===== verification/RegistryClaims.v ===== *)
(** * What holds of the registry

    The properties of values, keys, saving and sequences of operations. *)

From Stdlib Require Import ZArith Lia Sorted.
From stdpp Require Import base list numbers option gmap.
From S2P Require Import Prelude Unicode UnicodeTheorems Memory Registry RegistryTree RegistrySearch RegistryValues RegistryOrder RegistryForest RegistryCreate RegistryDelete RegistryRename RegistryMarks RegistrySteps.

#[local] Open Scope Z_scope.
#[local] Open Scope server_scope.

(** ** Sequences of operations *)

(** C17: starting from a well-formed registry, every registry that operations lead
    to is well formed, and every operation on it runs to completion: arrays stay
    sorted and within their allocated size, children and parents know each other,
    no loop runs on and no key is missing.  Operations name keys that exist, and a new
    key has a new address; arrays have fewer than 2^30 elements.  Left out are what
    is shown to break: renaming a key so that it goes directly behind its own place,
    and creating a key with an empty name in one that has no parent.  Paths may hold
    any characters; the lookup of the paths in symbolic links ends with an error or
    at a key. *)
Theorem registry_ops_ok casemap lookup_absolute r0 r :
  reg_ok casemap r0 -> reachable casemap lookup_absolute r0 r ->
  reg_ok casemap r /\ forall op e, admissible casemap lookup_absolute r op -> exists r' e', run_op casemap lookup_absolute r op e = (Some r', e') /\ reg_ok casemap r'.
Proof. intros R0 H. pose proof (reachable_ok casemap lookup_absolute r0 r R0 H) as R. split; [done|]. intros op e Ha. by apply run_op_ok. Qed.

(** A namespace in which the path of every link leads to the key R. *)
Definition to_root (r : registry) (path : list Z) : M (option (Z * list Z)) :=
  match keys r !! 1 with
  | Some k => if symlink k then fail STATUS_OBJECT_NAME_NOT_FOUND None else ret (Some (1, []))
  | None => fail STATUS_OBJECT_NAME_NOT_FOUND None
  end.

Lemma to_root_ok casemap r : absolute_ok casemap to_root r.
Proof.
  intros path e. unfold to_root. destruct (keys r !! 1) as [k|] eqn:Hk; [|done]. destruct (symlink k) eqn:Hl; [done|].
  cbn. exists k. split; [done|]. split; [done|]. by left.
Qed.

Lemma registry_ops_ok_witness : exists r', run_op no_case to_root (sample_registry sample_values) (OpCreateKey 5 1 [97; 92; 98; 92] 0 0) (mk_senv 0 []) = (Some r', mk_senv 0 []) /\ reg_ok no_case r'.
Proof.
  destruct (registry_ops_ok no_case to_root (sample_registry sample_values) (sample_registry sample_values) sample_ok (reach_start _ _ _)) as [_ H].
  destruct (H (OpCreateKey 5 1 [97; 92; 98; 92] 0 0) (mk_senv 0 [])) as (r' & e' & E & R').
  - split; [reflexivity|]. split; [apply to_root_ok|]. split; [|by eexists].
    intros b kb Hb. apply elem_of_map_to_list in Hb. vm_compute in Hb. repeat (apply elem_of_cons in Hb as [Hb|Hb]; [injection Hb as -> ->; done|]). by apply not_elem_of_nil in Hb.
  - exists r'. split; [|exact R']. rewrite E. f_equal.
    assert (He : e' = snd (run_op no_case to_root (sample_registry sample_values) (OpCreateKey 5 1 [97; 92; 98; 92] 0 0) (mk_senv 0 []))) by (by rewrite E). by rewrite He.
Defined.

(** ** Values *)

Lemma predef_contents k k' vs nb : contents k' = contents (set_values k vs nb) -> has_bits (k_flags k) KEY_PREDEF = false -> has_bits (k_flags k') KEY_PREDEF = false.
Proof. intros E <-. exact (contents_flags _ _ KEY_PREDEF E eq_refl). Qed.

(** C18: set_value, when it has memory and the name is not too long, makes
    get_value reply with that type and data for the name in any case (without data
    and with STATUS_NO_MEMORY when there is no memory for the reply), and changes no
    other name and no other key.  While the places of the enumeration are numbered
    without gaps a value keeps its place, a new one gets the place after the last,
    and every other place has the same value as before.  The events of those who watch the
    key or a subtree it belongs to are signaled, unless the value was there already. *)
Theorem registry_values_correct casemap r a l k name type data e :
  reg_ok casemap r -> chain r (Some a) (a :: l) -> keys r !! a = Some k -> Z.of_nat (length (values k)) < 2 ^ 30 ->
  has_bits (k_flags k) KEY_PREDEF = false -> link_denied casemap k name type = false ->
  exists r' e' ok, set_value casemap r a name type data e = (Some r', e') /\ reg_ok casemap r' /\
    (allocs e = [] -> Z.of_nat (length name) <= MAX_VALUE_LEN -> ok = true /\ e' = e) /\
    (forall name' max_size e1, get_value casemap r' a name' max_size e1 =
       if decide (ok = true /\ cmp_name casemap name' name = 0) then reply_value type data max_size e1 else get_value casemap r a name' max_size e1) /\
    (orders_ok k -> exists k', keys r' !! a = Some k' /\ orders_ok k' /\
       forall i, value_at k' i = if decide (ok = true /\ i = v_order (stored casemap (values k) name type data))
                                 then Some (stored casemap (values k) name type data) else value_at k i) /\
    signaled_events r' = signaled_events r ++
      (if ok && negb (identical casemap (values k) name type data) then touch_events r a l REG_NOTIFY_CHANGE_LAST_SET else []) /\
    forall b, b <> a -> contents <$> keys r' !! b = contents <$> keys r !! b.
Proof.
  intros R C Hk Hl Hp Hd. pose proof (ko_values _ _ _ _ (ro_keys _ _ R a k Hk)) as V.
  destruct (set_value_run casemap r a l k name type data e C Hk V Hl Hp Hd) as (r' & e' & k' & ok & E & S & A). exists r', e', ok. split; [done|].
  pose proof (sr_rest _ _ _ _ _ _ _ _ _ _ _ S) as Er. pose proof (sr_ok _ _ _ _ _ _ _ _ _ _ _ S) as V'. pose proof (sr_key _ _ _ _ _ _ _ _ _ _ _ S) as Hk'.
  pose proof (sr_values _ _ _ _ _ _ _ _ _ _ _ S) as Sv. split; [|split; [done|split; [|split; [|split; [apply S|apply S]]]]].
  - apply (values_reg_ok casemap r r' a k k'); [done..|apply S].
  - intros name' max_size e1. rewrite (get_value_run casemap r' a k' name' max_size e1 Hk' V' (predef_contents _ _ _ _ Er Hp)), (get_value_run casemap r a k name' max_size e1 Hk V Hp).
    destruct ok.
    + rewrite (updates_value casemap _ _ _ _ _ (vo_sorted _ _ V) Sv name'). destruct (decide (cmp_name casemap name' name = 0)) as [E0|E0].
      * rewrite decide_True by done. unfold stored. by destruct (value_of casemap (values k) name).
      * by rewrite decide_False by (by intros [_ ?]).
    + rewrite Sv. by rewrite decide_False by (by intros [? _]).
  - intros O. exists k'. split; [done|]. destruct ok.
    + split; [by apply (ud_orders _ _ _ _ _ _ Sv)|]. intros i. rewrite (updates_value_at casemap k k' name type data) by done.
      destruct (decide (i = _)) as [Hi|Hi]; [by rewrite decide_True|by rewrite decide_False by (by intros [_ ?])].
    + unfold orders_ok, value_at. rewrite Sv. split; [done|]. intros i. by rewrite decide_False by (by intros [? _]).
Qed.

Lemma registry_values_correct_witness :
  exists r', fst (set_value no_case (sample_registry sample_values) 2 [97] 1 [65; 0] (mk_senv 0 [])) = Some r' /\
    get_value no_case r' 2 [97] 100 (mk_senv 0 []) = reply_value 1 [65; 0] 100 (mk_senv 0 []) /\
    get_value no_case r' 2 [98] 100 (mk_senv 0 []) = reply_value 4 [1; 0; 0; 0] 100 (mk_senv 0 []).
Proof.
  destruct (registry_values_correct no_case (sample_registry sample_values) 2 [1] (sample_key [97] (Some 1) [4] sample_values 0) [97] 1 [65; 0] (mk_senv 0 []) sample_ok) as (r' & e' & ok & E & _ & A & G & _).
  - by apply (chain_list_ok 4).
  - reflexivity.
  - done.
  - done.
  - done.
  - destruct (A eq_refl ltac:(done)) as [Hok _]. exists r'. rewrite E. split; [done|]. rewrite !G, Hok. split; done.
Defined.

(** Delete_value removes exactly the value of the name in any case, or fails
    with STATUS_OBJECT_NAME_NOT_FOUND when there is none; no other name and no
    other key changes, and the events of those who watch the key are signaled.
    The places of the enumeration stay numbered without gaps when no value further
    on in the array than the next one has a later place than the deleted one. *)
Lemma delete_value_ok casemap r a l k name e :
  reg_ok casemap r -> chain r (Some a) (a :: l) -> keys r !! a = Some k -> has_bits (k_flags k) KEY_PREDEF = false ->
  exists r' e', delete_value casemap r a name e = (Some r', e') /\ reg_ok casemap r' /\
    match value_of casemap (values k) name with
    | None => r' = r /\ error e' = STATUS_OBJECT_NAME_NOT_FOUND
    | Some _ => error e' = error e /\
        (forall name' max_size e1, get_value casemap r' a name' max_size e1 =
           if decide (cmp_name casemap name' name = 0) then (Some (-1, 0, []), mk_senv STATUS_OBJECT_NAME_NOT_FOUND (allocs e1))
           else get_value casemap r a name' max_size e1) /\
        (forall i v, values k !! i = Some v -> cmp_name casemap (v_name v) name = 0 -> orders_ok k ->
           (forall j w, (S i < j)%nat -> values k !! j = Some w -> v_order w < v_order v) -> exists k', keys r' !! a = Some k' /\ orders_ok k') /\
        signaled_events r' = signaled_events r ++ touch_events r a l REG_NOTIFY_CHANGE_LAST_SET /\
        forall b, b <> a -> contents <$> keys r' !! b = contents <$> keys r !! b
    end.
Proof.
  intros R C Hk Hp. pose proof (ko_values _ _ _ _ (ro_keys _ _ R a k Hk)) as V. pose proof (delete_value_run casemap r a l k name e C Hk V Hp) as H.
  destruct (value_of casemap (values k) name) as [v|] eqn:Hv; [|rewrite H; by eexists r, _].
  destruct H as (r' & e' & k' & i & E & Ee & Hk' & Ec & V' & Hi & Evs & Se & Ho). exists r', e'. split; [done|]. split; [by apply (values_reg_ok casemap r r' a k k')|].
  pose proof (proj2 (value_of_some _ _ _ _ Hv)) as Ev. split; [done|]. split; [|split; [|done]].
  2: { intros j w Hj Ew O Hlater. exists k'. split; [done|]. assert (j = i) as ->.
       { apply (sorted_same casemap (v_name <$> values k) j i (v_name w) (v_name v) (vo_sorted _ _ V)); rewrite ?list_lookup_fmap, ?Hj, ?Hi; try done.
         apply cmp_zero in Ew, Ev. apply cmp_zero. congruence. }
       assert (w = v) as -> by congruence. unfold orders_ok. rewrite Evs, without_length by (by eapply lookup_lt_Some). by apply without_orders. }
  intros name' max_size e1.
  rewrite (get_value_run casemap r' a k' name' max_size e1 Hk' V' (predef_contents _ _ _ _ Ec Hp)), (get_value_run casemap r a k name' max_size e1 Hk V Hp), Evs.
  pose proof (without_value_of casemap (values k) i (v_order v) v name (vo_sorted _ _ V) Hi Ev name') as W.
  destruct (decide (cmp_name casemap name' name = 0)); [by destruct (value_of casemap (without _ _ _) name')|].
  destruct (value_of casemap (without _ _ _) name') as [w|], (value_of casemap (values k) name') as [w'|]; try done. by injection W as _ -> ->.
Qed.

(** While the places of the values are numbered without gaps, counting up
    visits every value once.  Deleting the first of three values set in the order
    of their names leaves the places 0 and 2: the enumeration of the two that are
    left fails at 1 with STATUS_OBJECT_NAME_NOT_FOUND, though both can be read. *)
Lemma delete_value_breaks_enumeration :
  (forall k, orders_ok k -> omap (value_at k) (seqZ 0 (Z.of_nat (length (values k)))) ≡ₚ values k) /\
  exists k r' k', keys (sample_registry sample_values) !! 2 = Some k /\ orders_ok k /\
    delete_value no_case (sample_registry sample_values) 2 [98] (mk_senv 0 []) = (Some r', mk_senv 0 []) /\
    keys r' !! 2 = Some k' /\ length (values k') = 2%nat /\
    enum_value r' 2 1 KeyValueFullInformation 100 (mk_senv 0 []) = (Some (0, 0, 0, []), mk_senv STATUS_OBJECT_NAME_NOT_FOUND []) /\
    get_value no_case r' 2 [100] 100 (mk_senv 0 []) = reply_value 4 [3; 0; 0; 0] 100 (mk_senv 0 []).
Proof.
  split; [apply enumeration_perm|]. exists (sample_key [97] (Some 1) [4] sample_values 0). eexists _, _.
  split; [reflexivity|]. split; [apply reflexive_eq; reflexivity|]. split; [vm_compute; reflexivity|]. split; [reflexivity|]. split; [reflexivity|]. split; reflexivity.
Qed.

(** ** Keys *)

Lemma subkey_found casemap r p parent name a : key_ok casemap r p parent -> subkey_of casemap r parent name a ->
  exists i, find_subkey casemap r parent name = Some (true, Z.of_nat i) /\ subkeys parent !! i = Some a.
Proof.
  intros K H. destruct (find_subkey_run casemap r p parent name K) as (names & i & _ & _ & [(E & s & Hs & Hs')|(_ & _ & Hno)]); [|by destruct (Hno a)].
  exists i. split; [done|]. by rewrite (subkey_of_unique casemap r p parent name a s K H Hs').
Qed.

(** A new key is found under its name. *)
Lemma created_found casemap r a p parent n options attributes e r' b e' :
  reg_ok casemap r' -> keys r !! p = Some parent -> keys r !! a = None -> create_outcome casemap r a p parent n options attributes e r' b e' -> reg_ok casemap r ->
  keys r' !! a <> None -> exists parent' i, keys r' !! p = Some parent' /\ find_subkey casemap r' parent' n = Some (true, Z.of_nat i) /\ subkeys parent' !! i = Some a.
Proof.
  intros R' Hp Ha O R Hnew. unfold create_outcome in O. destruct (deleted parent); [by destruct O as [-> _]|]. destruct (_ <? _); [by destruct O as [-> _]|].
  destruct O as [O1 O2]. destruct (subkey_index casemap r p parent n R Hp) as (i & [(_ & s & ks & _ & Hks & _ & Hsub)|(_ & Hno)]); [by destruct (O1 s ks Hsub Hks) as [-> _]|].
  destruct (O2 Hno) as [_ C]. destruct b as [b|]; [|by destruct C]. destruct C as (_ & _ & C). destruct (cr_parent _ _ _ _ _ _ _ _ C) as (parent' & nb & w & Hp' & _ & _ & Hs).
  destruct (subkey_found casemap r' p parent' n a (ro_keys _ _ R' p parent' Hp') Hs) as (j & Ej & Hj). by exists parent', j.
Qed.

(** C19: creating a key under a name of one element.  Below a deleted key it fails
    with STATUS_KEY_DELETED, with a name that is too long with
    STATUS_INVALID_PARAMETER.  When there is a key of that name in any case, nothing
    changes: it is the result, with STATUS_OBJECT_NAME_EXISTS or
    STATUS_PREDEFINED_HANDLE, if the request accepts one, and
    STATUS_OBJECT_NAME_COLLISION otherwise.  Else a new key is made when there is
    memory, except for one that is not volatile below a volatile one; it is then
    found under its name, and the other keys and subkeys stay, while a failed
    creation leaves the tree as it was.  A path is created element by element, where
    a missing element on the way is STATUS_OBJECT_NAME_NOT_FOUND; separators at the
    end do not count, and one at the start is STATUS_OBJECT_PATH_SYNTAX_BAD.  The
    empty name opens the key itself and touches its parent: for a key without a
    parent the server goes on with a null pointer.  Links on the way are not
    followed here. *)
Theorem create_key_correct casemap lookup_absolute r a p parent options attributes e :
  reg_ok casemap r -> keys r !! p = Some parent -> keys r !! a = None -> symlink parent = false -> Z.of_nat (length (subkeys parent)) < 2 ^ 30 ->
  let create p name := create_key casemap lookup_absolute r a p name options attributes e in
  (forall n, element n ->
     (forall s ks, subkey_of casemap r parent n s -> keys r !! s = Some ks ->
        symlink ks = false \/ has_bits options REG_OPTION_CREATE_LINK = true \/ has_bits attributes OBJ_OPENLINK = true) ->
     exists r' b e', create p n = Some ((r', b), e') /\ reg_ok casemap r' /\ create_outcome casemap r a p parent n options attributes e r' b e' /\
       (keys r' !! a <> None -> exists parent' i, keys r' !! p = Some parent' /\ find_subkey casemap r' parent' n = Some (true, Z.of_nat i) /\ subkeys parent' !! i = Some a)) /\
  (deleted parent = false -> forall n m rest, element n -> Z.of_nat (length n) <= MAX_NAME_LEN -> separated m rest ->
     match rest with
     | [] => forall x, create p n = Some x -> create p (n ++ replicate m 92 ++ rest) = Some x
     | _ :: _ =>
         (forall s x, subkey_of casemap r parent n s -> create s rest = Some x -> create p (n ++ replicate m 92 ++ rest) = Some x) /\
         ((forall s, ~ subkey_of casemap r parent n s) -> create p (n ++ replicate m 92 ++ rest) = Some ((r, None), mk_senv STATUS_OBJECT_NAME_NOT_FOUND (allocs e)))
     end) /\
  (forall rest, create p (92 :: rest) = Some ((r, None), mk_senv STATUS_OBJECT_PATH_SYNTAX_BAD (allocs e))) /\
  create p [] = match k_parent parent with
                | Some pp => match touch_key r pp REG_NOTIFY_CHANGE_NAME with Some r' => Some ((r', Some p), mk_senv 0 (allocs e)) | None => None end
                | None => None
                end.
Proof.
  intros R Hp Ha Hl Hr create. split; [|split; [|split; [|by apply create_empty]]].
  - intros n Hn Hs. destruct (create_single casemap lookup_absolute r a p parent n options attributes e R Hp Ha Hl Hr Hn Hs) as (r' & b & e' & E & R' & O).
    exists r', b, e'. split; [done|]. split; [done|]. split; [done|]. by apply (created_found casemap r a p parent n options attributes e r' b e').
  - intros Hd n m rest Hn Hm Hs. assert (N : n ++ replicate m 92 ++ rest <> []) by (by apply element_head). destruct rest as [|c rest].
    + intros x. rewrite app_nil_r in *. apply create_alike; [apply Hn|done|]. intros e1 x1. by apply (lookup_trailing casemap lookup_absolute r p parent).
    + split; [|by apply (create_missing casemap lookup_absolute r a p parent)]. intros s x Hsub. apply create_alike; [done..|].
      intros e1 x1. by apply (lookup_path casemap lookup_absolute r p parent).
  - done.
Qed.

Lemma create_key_correct_witness :
  exists r', create_key no_case to_root (sample_registry []) 5 1 [98] 0 0 (mk_senv 0 []) = Some ((r', Some 5), mk_senv 0 []) /\
    created no_case (sample_registry []) r' 5 1 (sample_key [82] None [2; 3] [] 0) [98] 0 /\
    create_key no_case to_root (sample_registry []) 5 1 [] 0 0 (mk_senv 0 []) = None.
Proof.
  destruct (create_key_correct no_case to_root (sample_registry []) 5 1 (sample_key [82] None [2; 3] [] 0) 0 0 (mk_senv 0 [])) as (H & _ & _ & Hempty).
  - apply reg_check_ok. vm_compute. reflexivity.
  - reflexivity.
  - reflexivity.
  - reflexivity.
  - reflexivity.
  - assert (Hno : forall s, ~ subkey_of no_case (sample_registry []) (sample_key [82] None [2; 3] [] 0) [98] s).
    { intros s (Hin & ks & Hks & Hc). repeat (apply elem_of_cons in Hin as [->|Hin]; [injection Hks as <-; vm_compute in Hc; discriminate Hc|]). by apply not_elem_of_nil in Hin. }
    destruct (H [98]) as (r' & b & e' & E & _ & O & _).
    + split; [done|]. intros [?|[]%not_elem_of_nil]%elem_of_cons. done.
    + intros s ks Hsub. by destruct (Hno s).
    + destruct O as [_ O]. destruct (O Hno) as [A C]. destruct (A eq_refl) as [-> Ee]. exists r'. split; [|split; [apply C|exact Hempty]].
      assert (He : snd <$> create_key no_case to_root (sample_registry []) 5 1 [98] 0 0 (mk_senv 0 []) = Some (mk_senv 0 [])) by (vm_compute; reflexivity).
      rewrite E in He |- *. cbn in He. by injection He as ->.
Defined.

(** C20: deleting a key with everything below it always comes to an end.  Unless
    there is a predefined key among them, which stops it with
    STATUS_INVALID_HANDLE, exactly the keys below go, and the others keep their
    contents and those of their subkeys that are left.  Without recursion a key
    goes when it has no subkeys, and STATUS_ACCESS_DENIED is the answer otherwise. *)
Theorem delete_key_correct casemap r a k p e :
  reg_ok casemap r -> keys r !! a = Some k -> k_parent k = Some p ->
  (exists r' ok e', delete_tree r a true e = (Some (r', ok), e') /\ reg_ok casemap r' /\
    (if ok then pruned r r' (below r a) /\ error e' = error e else error e' = STATUS_INVALID_HANDLE) /\ (no_predef r a -> ok = true)) /\
  (has_bits (k_flags k) KEY_PREDEF = false ->
    match subkeys k with
    | [] => exists r' e', delete_tree r a false e = (Some (r', true), e') /\ error e' = error e /\ reg_ok casemap r' /\ pruned r r' (fun b => b = a)
    | _ :: _ => delete_tree r a false e = (Some (r, false), mk_senv STATUS_ACCESS_DENIED (allocs e))
    end).
Proof. intros R Hk Hp. split; [by apply (delete_tree_run casemap r a k p)|by apply (delete_single_run casemap r a k p)]. Qed.

Lemma delete_key_correct_witness :
  exists r' ok e', delete_tree (sample_registry sample_values) 2 true (mk_senv 0 []) = (Some (r', ok), e') /\ reg_ok no_case r' /\
    delete_tree (sample_registry sample_values) 2 false (mk_senv 0 []) = (Some (sample_registry sample_values, false), mk_senv STATUS_ACCESS_DENIED []).
Proof.
  destruct (delete_key_correct no_case (sample_registry sample_values) 2 (sample_key [97] (Some 1) [4] sample_values 0) 1 (mk_senv 0 []) sample_ok) as [(r' & ok & e' & E & R' & _) H].
  - reflexivity.
  - reflexivity.
  - exists r', ok, e'. split; [exact E|]. split; [exact R'|]. by apply H.
Defined.

(** C21: rename_key moves a key to where its new name belongs, keeping the tree
    well formed, except when that place is directly behind the old one.  Then the
    key is written over the subkey that follows it, which is lost from the array
    while the key is there twice, or, if it is the last one and the array is full,
    beyond the end of the array. *)
Theorem rename_key_outcome casemap r a k p parent new_name e :
  reg_ok casemap r -> keys r !! a = Some k -> k_parent k = Some p -> keys r !! p = Some parent -> new_name_ok casemap r a parent new_name -> allocs e = [] ->
  exists names cur index, Forall2 (has_name r) (subkeys parent) names /\ place casemap names new_name index /\ subkeys parent !! cur = Some a /\
    (index <> S cur -> exists r', rename_key casemap r a new_name e = (Some r', e) /\ reg_ok casemap r' /\ renamed casemap r r' a p k parent new_name) /\
    (index = S cur -> (index < length (subkeys parent))%nat ->
      exists r' parent', rename_key casemap r a new_name e = (Some r', e) /\ keys r' !! p = Some parent' /\ subkeys parent' = <[S cur := a]> (subkeys parent)) /\
    (index = S cur -> index = length (subkeys parent) -> nb_subkeys parent = Z.of_nat index -> rename_key casemap r a new_name e = (None, e)).
Proof. apply rename_key_run. Qed.

Lemma rename_key_outcome_witness :
  exists r' parent', rename_key no_case (sample_registry []) 2 [98] (mk_senv 0 []) = (Some r', mk_senv 0 []) /\ keys r' !! 1 = Some parent' /\ subkeys parent' = [2; 2].
Proof.
  destruct (rename_key_outcome no_case (sample_registry []) 2 (sample_key [97] (Some 1) [4] [] 0) 1 (sample_key [82] None [2; 3] [] 0) [98] (mk_senv 0 []))
    as (names & cur & index & F & P & Hc & _ & H & _).
  - apply reg_check_ok. vm_compute. reflexivity.
  - reflexivity.
  - reflexivity.
  - reflexivity.
  - split; [done|]. split; [by intros [|?%elem_of_nil]%elem_of_cons|]. split; [done|]. split; [done|]. split; [done|].
    intros s ([->|[->|Hs]%elem_of_cons]%elem_of_cons & ks & Hks & E); [by injection Hks as <-|by injection Hks as <-|by apply not_elem_of_nil in Hs].
  - reflexivity.
  - assert (names = [[97]; [99]]) as -> by (apply names_of_spec in F; by injection F).
    assert (cur = 0%nat) as -> by (destruct cur as [|[|cur]]; [done|discriminate Hc|discriminate Hc]).
    assert (index = 1%nat) as ->.
    { destruct index as [|[|index]]; [|done|].
      - pose proof (pl_after _ _ _ _ P 0%nat [97] eq_refl ltac:(lia)) as L. vm_compute in L. discriminate L.
      - pose proof (pl_before _ _ _ _ P 1%nat [99] eq_refl ltac:(lia)) as L. vm_compute in L. discriminate L. }
    destruct (H eq_refl) as (r' & parent' & E & Hp & Es); [cbn; lia|]. exists r', parent'. split; [exact E|]. split; [exact Hp|]. exact Es.
Defined.

(** ** Saving *)

Lemma marked_saves casemap r b kb : reg_ok casemap r -> keys r !! b = Some kb -> marked kb = true -> exists r', save_branch r b true = Some (r', true, true).
Proof.
  intros R Hb [Hd _]%andb_true_iff. unfold save_branch. rewrite Hb. cbn [mbind option_bind]. fold (dirty kb). rewrite Hd. cbn [negb].
  destruct (clean_completes casemap r b (timestamp_counter kb) R ltac:(by eexists)) as (r' & -> & _). by exists r'.
Qed.

(** A change to a key that is not volatile leaves the parents of marked keys
    marked and makes the next save write every branch that holds the key.  Taking
    marks back up to a time takes back exactly the marks below the branch that are
    not newer, and changes nothing else. *)
Lemma registry_marks_ok casemap r a k :
  reg_ok casemap r -> marks_ok r -> keys r !! a = Some k ->
  (forall change r', touch_key r a change = Some r' ->
     marks_ok r' /\ (volatile k = false -> forall b, below r b a -> exists r'', save_branch r' b true = Some (r'', true, true))) /\
  (forall t, exists r', clean_branch r a t = Some r' /\ reg_ok casemap r' /\
     ((forall b kb, below r a b -> keys r !! b = Some kb -> timestamp_counter kb <= t) -> marks_ok r') /\
     forall b kb, keys r !! b = Some kb -> exists kb', keys r' !! b = Some kb' /\ contents kb' = contents kb /\
       (below r a b -> marked kb' = marked kb && (t <? timestamp_counter kb)) /\ (~ below r a b -> kb' = kb)).
Proof.
  intros R Mk Hk. destruct (chain_head casemap r a k R Hk) as [l C]. split.
  - intros change r' E. destruct (touch_key_marks casemap r a k (a :: l) change r' R Mk Hk C E) as [Mk' H]. split; [done|]. intros Hv b (lb & Hlb & Hb).
    rewrite Hv in H. cbn [orb] in H. destruct (touch_reg_ok casemap r a change R ltac:(by eexists)) as (r2 & E2 & T & R'). assert (r2 = r') as -> by congruence.
    assert (exists kb, keys r' !! b = Some kb /\ marked kb = true) as (kb & Hkb & Hm); [|by apply (marked_saves casemap r' b kb)].
    rewrite (chain_det _ _ _ _ Hlb C) in Hb. destruct (dirty k) eqn:Hd; [|by apply H].
    assert (A : all_marked r (a :: l)).
    { apply (chain_marked r (Some a)); [done|intros c kc p kp _; apply Mk|]. intros c [= <-]. exists k. unfold marked. by rewrite Hd, Hv. }
    destruct (A b Hb) as (kb & Hkb & Hm). destruct (flags_lookup _ _ _ _ H Hkb) as (kb' & Hkb' & Ef & _). exists kb'. split; [done|]. by rewrite (flags_marked _ _ Ef).
  - intros t. destruct (make_clean_run casemap (size (keys r)) t r a l R C) as (r' & E & H); [cbn; lia|]. exists r'. split; [done|].
    pose proof (touched_reg_ok casemap _ _ (cl_touched _ _ _ _ H) R) as R'.
    assert (Hall : forall b kb, keys r !! b = Some kb -> exists kb', keys r' !! b = Some kb' /\ contents kb' = contents kb /\
       (below r a b -> marked kb' = marked kb && (t <? timestamp_counter kb)) /\ (~ below r a b -> kb' = kb)).
    { intros b kb Hb. pose proof (visited_marked casemap r a b kb R Mk Hb) as Hv. destruct (below_dec r a b (ro_chains _ _ R)) as [Hbel|Hbel]; [destruct (marked kb) eqn:Hm|].
      - exists (clear_mark t kb). rewrite (cl_visited _ _ _ _ H b kb); [|by apply Hv|done]. split; [done|]. split; [apply clear_contents|]. by rewrite clear_marked, Hm.
      - exists kb. rewrite (cl_others _ _ _ _ H b); [|intros V; apply Hv in V as [_ ?]; done]. by rewrite Hm.
      - exists kb. rewrite (cl_others _ _ _ _ H b); [done|]. intros V. by apply Hv in V as [? _]. }
    split; [done|]. split; [|done]. intros Ht b kb' q kq' Hb' Hq Hq' Hm. pose proof (cl_touched _ _ _ _ H) as T.
    destruct (touched_lookup _ _ _ _ (touched_sym _ _ T) Hb') as (kb & Hkb & Ec), (touched_lookup _ _ _ _ (touched_sym _ _ T) Hq') as (kq & Hkq & _).
    assert (Hpar : k_parent kb = Some q) by (rewrite <-Hq; exact (f_equal k_parent Ec)). destruct (Hall b kb Hkb) as (kb2 & H1 & _ & H2 & H3). assert (kb2 = kb') as -> by congruence.
    assert (Hnb : ~ below r a b) by (intros Hbel; rewrite (H2 Hbel), (proj2 (Z.ltb_ge _ _)), andb_false_r in Hm; [done|by apply (Ht b kb)]).
    rewrite (H3 Hnb) in Hm. destruct (Hall q kq Hkq) as (kq2 & H4 & _ & _ & H6). assert (kq2 = kq') as -> by congruence. rewrite H6; [by apply (Mk b kb q kq)|].
    intros Hbq. apply Hnb. apply (below_trans r a q b); [done|]. apply (below_parent r b kb); [apply R|done..].
Qed.

(** Save_branch takes marks back up to the time its own key was first marked.
    After changes to the subkeys a and c of a branch, in that order, saving takes
    back the mark of the branch but not that of c; whatever changes c from then on,
    the branch stays unmarked and is not written. *)
Lemma save_branch_forgets_changes :
  exists r1 r2 r3, set_value no_case (sample_registry []) 2 [118] 4 [1; 0; 0; 0] (mk_senv 0 []) = (Some r1, mk_senv 0 []) /\
    set_value no_case r1 3 [118] 4 [2; 0; 0; 0] (mk_senv 0 []) = (Some r2, mk_senv 0 []) /\
    marks_ok r2 /\ save_branch r2 1 true = Some (r3, true, true) /\ ~ marks_ok r3 /\
    (exists k, keys r3 !! 3 = Some k /\ marked k = true) /\
    (forall change r4, touch_key r3 3 change = Some r4 -> save_branch r4 1 true = Some (r4, true, false)) /\
    exists r4, set_value no_case r3 3 [118] 4 [9; 0; 0; 0] (mk_senv 0 []) = (Some r4, mk_senv 0 []) /\
      get_value no_case r4 3 [118] 4 (mk_senv 0 []) = reply_value 4 [9; 0; 0; 0] 4 (mk_senv 0 []) /\ save_branch r4 1 true = Some (r4, true, false).
Proof.
  eexists _, _, _. split; [vm_compute; reflexivity|]. split; [vm_compute; reflexivity|]. split; [apply marks_check_ok; vm_compute; reflexivity|].
  split; [vm_compute; reflexivity|]. split; [intros H%marks_check_ok; vm_compute in H; discriminate H|]. split; [eexists; split; [reflexivity|reflexivity]|]. split.
  - intros change r4 E. eapply touch_key_same in E; [|reflexivity|reflexivity]. specialize (E 1). unfold flags_of, save_branch in *.
    destruct (keys r4 !! 1) as [k|]; [|discriminate E]. cbn [mbind option_bind]. injection E as Ef _ _. by rewrite Ef.
  - eexists. split; [vm_compute; reflexivity|]. split; vm_compute; reflexivity.
Qed.

(** delete_value removes exactly the value of the name in any case, or fails with
    STATUS_OBJECT_NAME_NOT_FOUND when there is none; no other name and no other key
    changes, and the events of those who watch the key are signaled.  The places of
    the enumeration stay numbered without gaps when no value further on in the array
    than the next one has a later place than the deleted one; without gaps, counting
    up visits every value once.  But deleting the first of three values set in the
    order of their names leaves the places 0 and 2: the enumeration of the two that
    are left fails at 1 with STATUS_OBJECT_NAME_NOT_FOUND, though both can be read. *)
Theorem delete_value_correct casemap r a l k name e :
  reg_ok casemap r -> chain r (Some a) (a :: l) -> keys r !! a = Some k -> has_bits (k_flags k) KEY_PREDEF = false ->
  (exists r' e', delete_value casemap r a name e = (Some r', e') /\ reg_ok casemap r' /\
     match value_of casemap (values k) name with
     | None => r' = r /\ error e' = STATUS_OBJECT_NAME_NOT_FOUND
     | Some _ => error e' = error e /\
         (forall name' max_size e1, get_value casemap r' a name' max_size e1 =
            if decide (cmp_name casemap name' name = 0) then (Some (-1, 0, []), mk_senv STATUS_OBJECT_NAME_NOT_FOUND (allocs e1))
            else get_value casemap r a name' max_size e1) /\
         (forall i v, values k !! i = Some v -> cmp_name casemap (v_name v) name = 0 -> orders_ok k ->
            (forall j w, (S i < j)%nat -> values k !! j = Some w -> v_order w < v_order v) -> exists k', keys r' !! a = Some k' /\ orders_ok k') /\
         signaled_events r' = signaled_events r ++ touch_events r a l REG_NOTIFY_CHANGE_LAST_SET /\
         forall b, b <> a -> contents <$> keys r' !! b = contents <$> keys r !! b
     end) /\
  (forall k, orders_ok k -> omap (value_at k) (seqZ 0 (Z.of_nat (length (values k)))) ≡ₚ values k) /\
  exists k r' k', keys (sample_registry sample_values) !! 2 = Some k /\ orders_ok k /\
    delete_value no_case (sample_registry sample_values) 2 [98] (mk_senv 0 []) = (Some r', mk_senv 0 []) /\
    keys r' !! 2 = Some k' /\ length (values k') = 2%nat /\
    enum_value r' 2 1 KeyValueFullInformation 100 (mk_senv 0 []) = (Some (0, 0, 0, []), mk_senv STATUS_OBJECT_NAME_NOT_FOUND []) /\
    get_value no_case r' 2 [100] 100 (mk_senv 0 []) = reply_value 4 [3; 0; 0; 0] 100 (mk_senv 0 []).
Proof. intros. split; [by eapply delete_value_ok|exact delete_value_breaks_enumeration]. Qed.

Lemma delete_value_correct_witness :
  exists r', fst (delete_value no_case (sample_registry sample_values) 2 [98] (mk_senv 0 [])) = Some r' /\
    get_value no_case r' 2 [98] 100 (mk_senv 0 []) = (Some (-1, 0, []), mk_senv STATUS_OBJECT_NAME_NOT_FOUND []).
Proof.
  destruct (delete_value_correct no_case (sample_registry sample_values) 2 [1] (sample_key [97] (Some 1) [4] sample_values 0) [98] (mk_senv 0 []) sample_ok) as [(r' & e' & E & _ & H) _].
  - by apply (chain_list_ok 4).
  - reflexivity.
  - done.
  - destruct H as (_ & G & _). exists r'. rewrite E. split; [done|]. rewrite G. done.
Defined.

(** C24: a change to a key that is not volatile leaves the parents of marked keys
    marked and makes the next save write every branch that holds the key.  Taking
    marks back up to a time takes back exactly the marks below the branch that are
    not newer, and changes nothing else.  But save_branch takes marks back up to the
    time its own key was first marked: after changes to the subkeys a and c of a
    branch, in that order, saving takes back the mark of the branch but not that of
    c; whatever changes c from then on, the branch stays unmarked and is not written. *)
Theorem registry_marks_correct casemap r a k :
  reg_ok casemap r -> marks_ok r -> keys r !! a = Some k ->
  (forall change r', touch_key r a change = Some r' ->
     marks_ok r' /\ (volatile k = false -> forall b, below r b a -> exists r'', save_branch r' b true = Some (r'', true, true))) /\
  (forall t, exists r', clean_branch r a t = Some r' /\ reg_ok casemap r' /\
     ((forall b kb, below r a b -> keys r !! b = Some kb -> timestamp_counter kb <= t) -> marks_ok r') /\
     forall b kb, keys r !! b = Some kb -> exists kb', keys r' !! b = Some kb' /\ contents kb' = contents kb /\
       (below r a b -> marked kb' = marked kb && (t <? timestamp_counter kb)) /\ (~ below r a b -> kb' = kb)) /\
  exists r1 r2 r3, set_value no_case (sample_registry []) 2 [118] 4 [1; 0; 0; 0] (mk_senv 0 []) = (Some r1, mk_senv 0 []) /\
    set_value no_case r1 3 [118] 4 [2; 0; 0; 0] (mk_senv 0 []) = (Some r2, mk_senv 0 []) /\
    marks_ok r2 /\ save_branch r2 1 true = Some (r3, true, true) /\ ~ marks_ok r3 /\
    (exists k, keys r3 !! 3 = Some k /\ marked k = true) /\
    (forall change r4, touch_key r3 3 change = Some r4 -> save_branch r4 1 true = Some (r4, true, false)) /\
    exists r4, set_value no_case r3 3 [118] 4 [9; 0; 0; 0] (mk_senv 0 []) = (Some r4, mk_senv 0 []) /\
      get_value no_case r4 3 [118] 4 (mk_senv 0 []) = reply_value 4 [9; 0; 0; 0] 4 (mk_senv 0 []) /\ save_branch r4 1 true = Some (r4, true, false).
Proof. intros R Mk Hk. destruct (registry_marks_ok casemap r a k R Mk Hk). split_and!; [done..|exact save_branch_forgets_changes]. Qed.

Lemma registry_marks_correct_witness : exists r' r'', touch_key (sample_registry []) 4 REG_NOTIFY_CHANGE_LAST_SET = Some r' /\ save_branch r' 1 true = Some (r'', true, true).
Proof.
  destruct (registry_marks_correct no_case (sample_registry []) 4 (sample_key [120] (Some 2) [] [] 0)) as [H _].
  - apply reg_check_ok. vm_compute. reflexivity.
  - exact sample_marks.
  - reflexivity.
  - destruct (touch_key (sample_registry []) 4 REG_NOTIFY_CHANGE_LAST_SET) as [r'|] eqn:E; [|discriminate E]. exists r'.
    destruct (H REG_NOTIFY_CHANGE_LAST_SET r' E) as [_ Hs]. destruct (Hs eq_refl 1) as [r'' Hr''].
    + exists [4; 2; 1]. split; [by apply (chain_list_ok 4)|]. right. right. by left.
    + exists r''. split; [reflexivity|exact Hr''].
Defined.
