(* ===== verification/Security.v ===== *)
(** * Security descriptors: server/security.h, server/token.c and server/object.c

    SIDs, access control entries (ACEs), access control lists (ACLs) and security
    descriptors as the code reads and builds them, in blocks of memory: lengths
    come from the data, and an access outside a block is [None]. *)

From Stdlib Require Import ZArith Lia Strings.Byte.
From stdpp Require Import base list numbers option.
From S2P Require Import Prelude Memory.

#[local] Open Scope Z_scope.
#[local] Open Scope server_scope.

(** ** Layout *)

(** Sizes of struct acl, struct ace and struct security_descriptor, and the
    offset of the first sub-authority in struct sid. *)
Definition sizeof_acl : Z := 8.

Definition sizeof_ace : Z := 8.

Definition sizeof_sd : Z := 20.

Definition sid_header : Z := 8.

Definition MAX_ACL_LEN : Z := 65535.

Definition ACL_REVISION : Z := 2.

Definition ACCESS_ALLOWED_ACE_TYPE : Z := 0.

Definition ACCESS_DENIED_ACE_TYPE : Z := 1.

Definition SYSTEM_AUDIT_ACE_TYPE : Z := 2.

Definition SYSTEM_ALARM_ACE_TYPE : Z := 3.

Definition SYSTEM_MANDATORY_LABEL_ACE_TYPE : Z := 0x11.

Definition SE_DACL_PRESENT : Z := 0x0004.

Definition SE_SACL_PRESENT : Z := 0x0010.

Definition SE_SELF_RELATIVE : Z := 0x8000.

Definition STATUS_INVALID_ACL : Z := 0xC0000077.

Definition OWNER_SECURITY_INFORMATION : Z := 1.

Definition GROUP_SECURITY_INFORMATION : Z := 2.

Definition DACL_SECURITY_INFORMATION : Z := 4.

Definition SACL_SECURITY_INFORMATION : Z := 8.

Definition LABEL_SECURITY_INFORMATION : Z := 16.

(** The fields of struct sid, struct ace and struct acl. *)
Definition sub_count (sid : cptr) : option Z := get8 sid 1.

Definition ace_type (ace : cptr) : option Z := get8 ace 0.

Definition ace_flags (ace : cptr) : option Z := get8 ace 1.

Definition ace_size (ace : cptr) : option Z := get16 ace 2.

Definition ace_mask (ace : cptr) : option Z := get32 ace 4.

Definition acl_revision (acl : cptr) : option Z := get8 acl 0.

Definition acl_size (acl : cptr) : option Z := get16 acl 2.

Definition acl_count (acl : cptr) : option Z := get16 acl 4.

(** [(const struct sid * )(ace + 1)]. *)
Definition ace_sid (ace : cptr) : cptr := ace +! sizeof_ace.

Definition ace_first (acl : cptr) : cptr := acl +! sizeof_acl.

Definition ace_next (ace : cptr) : option cptr := size ← ace_size ace; Some (ace +! size).

(** The fields of struct security_descriptor. *)
Definition sd_control (sd : cptr) : option Z := get32 sd 0.

Definition sd_owner_len (sd : cptr) : option Z := get32 sd 4.

Definition sd_group_len (sd : cptr) : option Z := get32 sd 8.

Definition sd_sacl_len (sd : cptr) : option Z := get32 sd 12.

Definition sd_dacl_len (sd : cptr) : option Z := get32 sd 16.

(** ** SIDs *)

Definition sid_len (sid : cptr) : option Z := n ← sub_count sid; Some (sid_header + 4 * n).

Definition equal_sid (sid1 sid2 : cptr) : option bool :=
  n1 ← sub_count sid1;
  n2 ← sub_count sid2;
  if n1 =? n2 then len ← sid_len sid1; memcmp sid1 sid2 len else Some false.

(** [size] is a 32-bit data_size_t. *)
Definition sid_valid_size (sid : cptr) (size : Z) : option bool :=
  if sid_header <=? size then len ← sid_len sid; Some (len <=? size) else Some false.

(** Every round passes a SID of at least [sid_header] bytes, so that [size] is
    enough fuel. *)
Fixpoint sid_count_loop (fuel : nat) (sid : cptr) (size count : Z) : option Z :=
  ok ← sid_valid_size sid size;
  if negb ok then Some count
  else
    match fuel with
    | O => None
    | S fuel => len ← sid_len sid; sid_count_loop fuel (sid +! len) (size - len) (count + 1)
    end.

Definition get_sid_count (sid : cptr) (size : Z) : option Z :=
  sid_count_loop (Z.to_nat size) sid size 0.

(** ** Access control lists *)

Definition valid_ace_type (type : Z) : bool :=
  (type =? ACCESS_DENIED_ACE_TYPE) || (type =? ACCESS_ALLOWED_ACE_TYPE) ||
  (type =? SYSTEM_AUDIT_ACE_TYPE) || (type =? SYSTEM_ALARM_ACE_TYPE) ||
  (type =? SYSTEM_MANDATORY_LABEL_ACE_TYPE).

(** The loop over [count] ACEs with [size] bytes left. *)
Fixpoint aces_valid (count : nat) (ace : cptr) (size : Z) : option bool :=
  match count with
  | O => Some true
  | S count =>
      if size <? sizeof_ace then Some false
      else
        len ← ace_size ace;
        if size <? len then Some false
        else
          type ← ace_type ace;
          if negb (valid_ace_type type) then Some false
          else
            ok ← sid_valid_size (ace_sid ace) (u32 (len - sizeof_ace));
            if negb ok then Some false
            else next ← ace_next ace; aces_valid count next (size - len)
  end.

Definition acl_is_valid (acl : cptr) (size : Z) : option bool :=
  if size <? sizeof_acl then Some false
  else
    count ← acl_count acl;
    aces_valid (Z.to_nat count) (ace_first acl) (Z.min size MAX_ACL_LEN - sizeof_acl).

(** Store an ACE with its SID at [ace]. *)
Definition set_ace (ace sid : cptr) (type flags mask : Z) : option cptr :=
  len ← sid_len sid;
  ace ← store ace (bytes ([byte_of_Z type; byte_of_Z flags] ++ le16 (sizeof_ace + len) ++ le32 mask));
  s ← load sid len;
  a ← store (ace_sid ace) s;
  Some (mk_cptr (blk a) (off ace)).

(** Store the header of an ACL at [acl]. *)
Definition set_acl (acl : cptr) (revision size count : Z) : option cptr :=
  store acl (bytes ([byte_of_Z revision; x00] ++ le16 size ++ le16 count ++ [x00; x00])).

(** ** Security descriptors *)

Definition sd_get_owner (sd : cptr) : option (option cptr) :=
  owner_len ← sd_owner_len sd;
  Some (if owner_len =? 0 then None else Some (sd +! sizeof_sd)).

Definition sd_get_group (sd : cptr) : option (option cptr) :=
  group_len ← sd_group_len sd;
  owner_len ← sd_owner_len sd;
  Some (if group_len =? 0 then None else Some (sd +! sizeof_sd +! owner_len)).

(** The ACL, if any, and whether the control flags say that it is present. *)
Definition sd_get_sacl (sd : cptr) : option (option cptr * bool) :=
  control ← sd_control sd;
  sacl_len ← sd_sacl_len sd;
  owner_len ← sd_owner_len sd;
  group_len ← sd_group_len sd;
  Some (if sacl_len =? 0 then None else Some (sd +! sizeof_sd +! (owner_len + group_len)),
        has_bits control SE_SACL_PRESENT).

Definition sd_get_dacl (sd : cptr) : option (option cptr * bool) :=
  control ← sd_control sd;
  dacl_len ← sd_dacl_len sd;
  owner_len ← sd_owner_len sd;
  group_len ← sd_group_len sd;
  sacl_len ← sd_sacl_len sd;
  Some (if dacl_len =? 0 then None else Some (sd +! sizeof_sd +! (owner_len + group_len + sacl_len)),
        has_bits control SE_DACL_PRESENT).

(** The check of one member: within the bounds and, if there is one, valid. *)
Definition member_valid (valid : cptr -> Z -> option bool) (p : option cptr) (len limit offset size : Z) :
    option bool :=
  if (limit <=? len) || (size <? offset + len) then Some false
  else match p with None => Some true | Some p => valid p len end.

Definition sd_is_valid (sd : cptr) (size : Z) : option bool :=
  let offset := sizeof_sd in
  if size <? offset then Some false
  else
    owner_len ← sd_owner_len sd;
    owner ← sd_get_owner sd;
    ok ← member_valid sid_valid_size owner owner_len (sid_header + 4 * 255) offset size;
    if negb ok then Some false
    else
      let offset := offset + owner_len in
      group_len ← sd_group_len sd;
      group ← sd_get_group sd;
      ok ← member_valid sid_valid_size group group_len (sid_header + 4 * 255) offset size;
      if negb ok then Some false
      else
        let offset := offset + group_len in
        sacl_len ← sd_sacl_len sd;
        sacl ← sd_get_sacl sd;
        ok ← member_valid acl_is_valid (fst sacl) sacl_len MAX_ACL_LEN offset size;
        if negb ok then Some false
        else
          let offset := offset + sacl_len in
          dacl_len ← sd_dacl_len sd;
          dacl ← sd_get_dacl sd;
          member_valid acl_is_valid (fst dacl) dacl_len MAX_ACL_LEN offset size.

(** ** Security labels *)

Definition is_label (type : Z) : bool := type =? SYSTEM_MANDATORY_LABEL_ACE_TYPE.

Definition is_no_label (type : Z) : bool := negb (is_label type).

(** The loops that add up the sizes of the ACEs to keep and count them. *)
Fixpoint sum_aces (keep : Z -> bool) (n : nat) (ace : cptr) (size count : Z) : option (Z * Z) :=
  match n with
  | O => Some (size, count)
  | S n =>
      type ← ace_type ace;
      len ← ace_size ace;
      next ← ace_next ace;
      if keep type then sum_aces keep n next (size + len) (count + 1)
      else sum_aces keep n next size count
  end.

(** The loops that copy them; [dst] is where the next copy goes, and moves by the
    size read back from the copy. *)
Fixpoint copy_aces (keep : Z -> bool) (n : nat) (ace dst : cptr) : option cptr :=
  match n with
  | O => Some dst
  | S n =>
      type ← ace_type ace;
      if keep type then
        len ← ace_size ace;
        s ← load ace len;
        dst ← store dst s;
        dst ← ace_next dst;
        next ← ace_next ace;
        copy_aces keep n next dst
      else next ← ace_next ace; copy_aces keep n next dst
  end.

Definition extract_security_labels (sacl : cptr) : U (option cptr) :=
  let? n := try (acl_count sacl) in
  let? (size, count) := try (sum_aces is_label (Z.to_nat n) (ace_first sacl) sizeof_acl 0) in
  let? acl := lift (mem_alloc_block size) in
  match acl with
  | None => uret None
  | Some acl =>
      let? revision := try (acl_revision sacl) in
      let? acl := try (set_acl acl revision size count) in
      let? p := try (copy_aces is_label (Z.to_nat n) (ace_first sacl) (ace_first acl)) in
      uret (Some (ptr_to (blk p)))
  end.

(** The sums and the copies over a list that may be absent. *)
Definition sum_acl (keep : Z -> bool) (acl : option cptr) (size count : Z) : option (Z * Z) :=
  match acl with
  | None => Some (size, count)
  | Some acl => n ← acl_count acl; sum_aces keep (Z.to_nat n) (ace_first acl) size count
  end.

Definition copy_acl (keep : Z -> bool) (acl : option cptr) (dst : cptr) : option cptr :=
  match acl with
  | None => Some dst
  | Some acl => n ← acl_count acl; copy_aces keep (Z.to_nat n) (ace_first acl) dst
  end.

Definition max_revision (revision : Z) (acl : option cptr) : option Z :=
  match acl with None => Some revision | Some acl => r ← acl_revision acl; Some (Z.max revision r) end.

Definition replace_security_labels (old_sacl new_sacl : option cptr) : U (option cptr) :=
  let? revision := try (max_revision ACL_REVISION old_sacl) in
  let? (size, count) := try (sum_acl is_no_label old_sacl sizeof_acl 0) in
  let? revision := try (max_revision revision new_sacl) in
  let? (size, count) := try (sum_acl is_label new_sacl size count) in
  if MAX_ACL_LEN <? u32 size then let? _ := lift (set_error STATUS_INVALID_ACL) in uret None
  else
    let? acl := lift (mem_alloc_block (u32 size)) in
    match acl with
    | None => uret None
    | Some acl =>
        let? acl := try (set_acl acl revision (u32 size) count) in
        let? dst := try (copy_acl is_no_label old_sacl (ace_first acl)) in
        let? dst := try (copy_acl is_label new_sacl dst) in
        uret (Some (ptr_to (blk dst)))
    end.
