(* ===== verification/SecurityLists.v ===== *)
(** * What valid SIDs and access control lists are

    An abstract access control list is a list of entries; [encode_acl] is its
    layout in memory.  The lemmas relate the routines that walk the bytes to the
    list, and show that validation accepts exactly the encodings, as long as no
    entry claims to be smaller than its own header. *)

From Stdlib Require Import ZArith Lia Strings.Byte.
From stdpp Require Import base list numbers option.
From S2P Require Import Prelude Memory Security.

#[local] Open Scope Z_scope.
#[local] Open Scope server_scope.

#[local] Abbreviation len s := (Z.of_nat (length s)).

(** ** SIDs *)

Definition wf_sid (s : list byte) : Prop :=
  exists n, s !! 1%nat = Some n /\ len s = sid_header + 4 * Z_of_byte n.

(** A well-formed SID lies at [p]. *)
Definition sid_at (p : cptr) (s : list byte) : Prop := points p (bytes s) /\ wf_sid s.

Lemma points_lookup p s k x : points p (bytes s) -> s !! k = Some x -> points (p +! Z.of_nat k) (bytes [x]).
Proof.
  intros H Hx. rewrite <-(take_drop_middle s k x Hx), bytes_app in H.
  apply points_app in H as [_ H]. change (x :: drop (S k) s) with ([x] ++ drop (S k) s) in H.
  rewrite bytes_app, points_app in H. destruct H as [H _]. apply lookup_lt_Some in Hx.
  rewrite length_bytes, length_take, Nat.min_l in H by lia. done.
Qed.

Lemma points_prefix p s t : points p (bytes (s ++ t)) -> points p (bytes s).
Proof. rewrite bytes_app, points_app. by intros [? _]. Qed.

Lemma points_suffix p s t : points p (bytes (s ++ t)) -> points (p +! len s) (bytes t).
Proof. rewrite bytes_app, points_app, length_bytes. by intros [_ ?]. Qed.

Lemma wf_sid_len s : wf_sid s -> sid_header <= len s <= sid_header + 4 * 255.
Proof. intros (n & _ & ->). pose proof (Z_of_byte_range n). unfold sid_header. lia. Qed.

Lemma sid_len_at p s : sid_at p s -> sid_len p = Some (len s).
Proof.
  intros [H (n & Hn & E)]. unfold sid_len, sub_count.
  rewrite (get8_points _ _ n) by exact (points_lookup p s 1 n H Hn). cbn. by rewrite E.
Qed.

Lemma sub_count_at p s : sid_at p s -> exists n, sub_count p = Some n /\ len s = sid_header + 4 * n.
Proof.
  intros [H (n & Hn & E)]. exists (Z_of_byte n). split; [|done].
  apply get8_points. exact (points_lookup p s 1 n H Hn).
Qed.

Lemma equal_sid_at p q s t : sid_at p s -> sid_at q t -> equal_sid p q = Some (bool_decide (s = t)).
Proof.
  intros Hs Ht. destruct (sub_count_at p s Hs) as (n & En & Es), (sub_count_at q t Ht) as (m & Em & Et).
  unfold equal_sid. rewrite En, Em. cbn. destruct (Z.eqb_spec n m) as [->|Hne].
  - rewrite (sid_len_at p s Hs). cbn. unfold memcmp.
    rewrite (load_bytes_points p s) by apply Hs. cbn.
    replace (len s) with (len t) by lia. rewrite (load_bytes_points q t) by apply Ht. done.
  - rewrite bool_decide_eq_false_2; [done|]. intros ->. unfold sid_header in *. lia.
Qed.

(** The SID that [size] readable bytes start with. *)
Lemma sid_valid_size_readable p size :
  readable p size -> 0 <= size ->
  exists ok, sid_valid_size p size = Some ok /\ (ok = true <-> exists s, sid_at p s /\ len s <= size).
Proof.
  intros H Hs. unfold sid_valid_size. destruct (Z.leb_spec sid_header size) as [Hh|Hh].
  - destruct (get8_readable p 1 size H) as (n & En & Hn); [unfold sid_header in Hh; lia|].
    unfold sid_len, sub_count. rewrite En. cbn. eexists. split; [done|]. rewrite Z.leb_le.
    pose proof (Z_of_byte_range n). split.
    + intros Hl. destruct (readable_sub p size 0 (sid_header + 4 * Z_of_byte n) H) as (s & Hp & Es);
        [unfold sid_header in *; lia..|]. rewrite plus_0 in Hp.
      exists s. split; [split; [done|]|lia]. exists n. split; [|done].
      destruct (s !! 1%nat) as [m|] eqn:Em.
      * pose proof (points_lookup p s 1 m Hp Em) as Hm. f_equal.
        pose proof (points_unique _ _ _ Hm Hn eq_refl). congruence.
      * apply lookup_ge_None in Em. unfold sid_header in *. lia.
    + intros (s & Hsid & Hl). pose proof (sid_len_at p s Hsid) as E. unfold sid_len, sub_count in E.
      rewrite En in E. cbn in E. injection E as E. lia.
  - exists false. split; [done|]. split; [done|]. intros (s & [_ Hw] & Hl).
    pose proof (wf_sid_len s Hw). lia.
Qed.

(** ** Entries *)

Record ace := mk_ace {
  a_type : Z;
  a_flags : Z;
  a_mask : Z;
  a_sid : list byte;
  a_pad : list byte
}.

Definition a_size (a : ace) : Z := sizeof_ace + len (a_sid a) + len (a_pad a).

Definition wf_ace (a : ace) : Prop :=
  valid_ace_type (a_type a) = true /\ 0 <= a_flags a < 2 ^ 8 /\ 0 <= a_mask a < 2 ^ 32 /\
  wf_sid (a_sid a) /\ a_size a < 2 ^ 16.

Definition encode_ace (a : ace) : list byte :=
  [byte_of_Z (a_type a); byte_of_Z (a_flags a)] ++ le16 (a_size a) ++ le32 (a_mask a) ++ a_sid a ++ a_pad a.

Definition encode_aces (l : list ace) : list byte := concat (encode_ace <$> l).

Lemma length_encode_ace a : len (encode_ace a) = a_size a.
Proof. unfold encode_ace, a_size, sizeof_ace, le16, le32. rewrite !length_app. cbn [length]. lia. Qed.

Lemma encode_aces_cons a l : encode_aces (a :: l) = encode_ace a ++ encode_aces l.
Proof. done. Qed.

Lemma encode_aces_app l k : encode_aces (l ++ k) = encode_aces l ++ encode_aces k.
Proof. unfold encode_aces. rewrite fmap_app. apply concat_app. Qed.

Lemma a_size_pos a : wf_ace a -> sizeof_ace + sid_header <= a_size a.
Proof. intros (_ & _ & _ & Hs%wf_sid_len & _). unfold a_size. lia. Qed.

Lemma valid_ace_type_range t : valid_ace_type t = true -> 0 <= t < 2 ^ 8.
Proof. unfold valid_ace_type. repeat rewrite orb_true_iff. rewrite !Z.eqb_eq. intros H. decompose [or] H; subst; done. Qed.

(** What the code reads from an entry. *)
Lemma ace_at p a :
  wf_ace a -> points p (bytes (encode_ace a)) ->
  ace_type p = Some (a_type a) /\ ace_flags p = Some (a_flags a) /\ ace_size p = Some (a_size a) /\
  ace_mask p = Some (a_mask a) /\ sid_at (ace_sid p) (a_sid a).
Proof.
  intros Hw H. pose proof (a_size_pos a Hw) as Hpos. destruct Hw as (Ht & Hf & Hm & Hsid & Hsz).
  unfold encode_ace in H. rewrite !app_assoc in H.
  pose proof (points_suffix p _ _ (points_prefix p _ _ H)) as Hs. cbn in Hs.
  apply points_prefix, points_prefix in H.
  pose proof (points_suffix p _ _ H) as Hmask. cbn in Hmask. apply points_prefix in H.
  pose proof (points_suffix p _ _ H) as Hsize. cbn in Hsize. apply points_prefix in H.
  unfold ace_type, ace_flags, ace_size, ace_mask. split_and!.
  - erewrite get8_points by exact (points_lookup p _ 0 _ H eq_refl). rewrite Z_of_byte_of_Z, Z.mod_small; [done|].
    by apply valid_ace_type_range in Ht.
  - erewrite get8_points by exact (points_lookup p _ 1 _ H eq_refl). by rewrite Z_of_byte_of_Z, Z.mod_small.
  - apply get16_le16; [|done]. unfold sizeof_ace, sid_header in *. lia.
  - by apply get32_le32.
  - split; done.
Qed.

Lemma ace_next_at p a : wf_ace a -> points p (bytes (encode_ace a)) -> ace_next p = Some (p +! a_size a).
Proof. intros Hw H. unfold ace_next. destruct (ace_at p a Hw H) as (_ & _ & -> & _). done. Qed.

(** ** Lists *)

Definition aces_at (p : cptr) (l : list ace) : Prop := points p (bytes (encode_aces l)) /\ Forall wf_ace l.

Lemma aces_at_cons p a l :
  aces_at p (a :: l) <-> wf_ace a /\ points p (bytes (encode_ace a)) /\ aces_at (p +! a_size a) l.
Proof.
  unfold aces_at. rewrite encode_aces_cons, bytes_app, points_app, length_bytes, length_encode_ace, list.Forall_cons.
  tauto.
Qed.

(** The header of an ACL; its size field is not looked at by validation. *)
Definition encode_header (revision pad1 size count pad2 : Z) : list byte :=
  [byte_of_Z revision; byte_of_Z pad1] ++ le16 size ++ le16 count ++ le16 pad2.

Definition acl_at (p : cptr) (revision size : Z) (l : list ace) : Prop :=
  (exists pad1 pad2, points p (bytes (encode_header revision pad1 size (len l) pad2))) /\
  0 <= revision < 2 ^ 8 /\ 0 <= size < 2 ^ 16 /\ len l < 2 ^ 16 /\
  aces_at (p +! sizeof_acl) l.

Lemma acl_at_fields p revision size l :
  acl_at p revision size l ->
  acl_revision p = Some revision /\ acl_size p = Some size /\ acl_count p = Some (len l).
Proof.
  intros ((pad1 & pad2 & H) & Hr & Hs & Hl & _). unfold encode_header in H. rewrite !app_assoc in H.
  apply points_prefix in H.
  pose proof (points_suffix p _ _ H) as Hc. cbn in Hc. apply points_prefix in H.
  pose proof (points_suffix p _ _ H) as Hsz. cbn in Hsz. apply points_prefix in H.
  unfold acl_revision, acl_size, acl_count. split_and!.
  - erewrite get8_points by exact (points_lookup p _ 0 _ H eq_refl). by rewrite Z_of_byte_of_Z, Z.mod_small.
  - by apply get16_le16.
  - apply get16_le16; [lia|done].
Qed.

(** No entry that validation looks at is smaller than an entry's header. *)
Fixpoint ace_sizes_ok (count : nat) (p : cptr) (size : Z) : bool :=
  match count with
  | O => true
  | S count =>
      if size <? sizeof_ace then true
      else match ace_size p with
           | None => true
           | Some n => if size <? n then true else (sizeof_ace <=? n) && ace_sizes_ok count (p +! n) (size - n)
           end
  end.

Definition acl_sizes_ok (acl : cptr) (size : Z) : bool :=
  if size <? sizeof_acl then true
  else match acl_count acl with
       | None => true
       | Some n => ace_sizes_ok (Z.to_nat n) (ace_first acl) (Z.min size MAX_ACL_LEN - sizeof_acl)
       end.

(** ** Validation *)

(** An entry read back from its bytes. *)
Lemma ace_of_bytes p n t s :
  readable p n -> ace_size p = Some n -> ace_type p = Some t -> valid_ace_type t = true ->
  sid_at (ace_sid p) s -> sizeof_ace + len s <= n ->
  exists a, wf_ace a /\ a_size a = n /\ points p (bytes (encode_ace a)).
Proof.
  intros (b & Hb & Hn) Hsz Ht Hv [Hs Hw] Hle. pose proof (wf_sid_len s Hw) as Hsl.
  unfold sizeof_ace, sid_header in *.
  destruct b as [|b0 [|b1 [|b2 [|b3 [|b4 [|b5 [|b6 [|b7 rest]]]]]]]]; cbn [length] in Hn; try lia.
  assert (ace_type p = Some (Z_of_byte b0)) as Et by exact (get8_points _ _ _ (points_lookup p _ 0 _ Hb eq_refl)).
  assert (ace_size p = Some (un_le16 b2 b3)) as En.
  { apply get16_points. apply (points_prefix _ [b2; b3] (b4 :: b5 :: b6 :: b7 :: rest)).
    exact (points_suffix p [b0; b1] _ Hb). }
  pose proof (points_suffix p [b0; b1; b2; b3; b4; b5; b6; b7] rest Hb) as Hr. cbn in Hr.
  assert (take (length s) rest = s) as Es.
  { apply (points_unique (p +! 8)); [|done|rewrite length_take; lia].
    apply (points_prefix _ _ (drop (length s) rest)). by rewrite take_drop. }
  exists (mk_ace (Z_of_byte b0) (Z_of_byte b1) (un_le32 b4 b5 b6 b7) s (drop (length s) rest)).
  assert (n = un_le16 b2 b3) as En' by congruence.
  assert (8 + len s + len (drop (length s) rest) = n) as Esz by (rewrite length_drop; lia).
  pose proof (Z_of_byte_range b1). pose proof (un_le16_range b2 b3). pose proof (un_le32_range b4 b5 b6 b7).
  unfold wf_ace, a_size, sizeof_ace; cbn [a_type a_flags a_mask a_sid a_pad]. split_and!; try done; try lia.
  - congruence.
  - replace (encode_ace _) with (b0 :: b1 :: b2 :: b3 :: b4 :: b5 :: b6 :: b7 :: rest); [done|].
    unfold encode_ace, a_size, sizeof_ace; cbn [a_type a_flags a_mask a_sid a_pad].
    rewrite Esz, En', le16_un_le16, le32_un_le32, !byte_of_Z_of_byte. cbn [app]. do 8 f_equal.
    rewrite <-Es at 1. by rewrite take_drop.
Qed.

(** [l] entries lie at [p] in [size] bytes. *)
Definition fits (p : cptr) (size : Z) (l : list ace) : Prop := aces_at p l /\ len (encode_aces l) <= size.

Lemma fits_nil p size : readable p size -> 0 <= size -> fits p size [].
Proof.
  intros (s & Hp & _) Hs. split; [|cbn; lia]. split; [|done]. exact (points_prefix p [] s Hp).
Qed.

Lemma fits_cons p size a l :
  fits p size (a :: l) <-> wf_ace a /\ points p (bytes (encode_ace a)) /\ fits (p +! a_size a) (size - a_size a) l.
Proof.
  unfold fits. rewrite aces_at_cons, encode_aces_cons, length_app, Nat2Z.inj_add, length_encode_ace.
  split; [intros ((? & ? & ?) & ?)|intros (? & ? & ? & ?)]; split_and!; (done || lia).
Qed.

(** What the fields of the first entry say when [S count] entries fit. *)
Lemma fits_first p size count :
  (exists l, length l = S count /\ fits p size l) ->
  exists n t, ace_size p = Some n /\ ace_type p = Some t /\ valid_ace_type t = true /\
    sizeof_ace <= n <= size /\ (exists s, sid_at (ace_sid p) s /\ len s <= n - sizeof_ace) /\
    exists l, length l = count /\ fits (p +! n) (size - n) l.
Proof.
  intros ([|a l] & Hl & Hf); [done|]. injection Hl as Hl. apply fits_cons in Hf as (Hw & Hp & Hf).
  destruct (ace_at p a Hw Hp) as (Et & _ & En & _ & Hsid). pose proof (a_size_pos a Hw).
  exists (a_size a), (a_type a). unfold sid_header in *. split_and!; try done.
  - by destruct Hw.
  - lia.
  - destruct Hf as [_ Hf]. lia.
  - exists (a_sid a). split; [done|]. unfold a_size. lia.
  - by exists l.
Qed.

Lemma rejected (P : Prop) : ~ P -> exists ok, Some false = Some ok /\ (ok = true <-> P).
Proof. intros H. exists false. split; [done|]. split; [done|]. by intros ?%H. Qed.

Lemma aces_valid_readable count p size :
  readable p size -> 0 <= size < 2 ^ 16 -> ace_sizes_ok count p size = true ->
  exists ok, aces_valid count p size = Some ok /\ (ok = true <-> exists l, length l = count /\ fits p size l).
Proof.
  revert p size. induction count as [|count IH]; intros p size H Hs Hok.
  - exists true. split; [done|]. split; [|done]. intros _. exists []. split; [done|]. apply fits_nil; [done|lia].
  - cbn [aces_valid ace_sizes_ok] in *.
    destruct (Z.ltb_spec size sizeof_ace) as [Hlt|Hge].
    { apply rejected. intros (? & ? & _ & _ & _ & ? & _)%fits_first. lia. }
    unfold sizeof_ace in Hge.
    destruct (get16_readable p 2 size H) as (n & En & Hn & _); [lia..|]. fold (ace_size p) in En.
    rewrite En in *. cbn [mbind option_bind].
    destruct (Z.ltb_spec size n) as [Hlt|Hge2].
    { apply rejected. intros (n' & ? & E & _ & _ & ? & _)%fits_first. assert (n' = n) by congruence. lia. }
    apply andb_prop in Hok as [Hn8 Hok]. apply Z.leb_le in Hn8. unfold sizeof_ace in Hn8.
    destruct (get8_readable p 0 size H) as (t & Et & _); [lia|]. fold (ace_type p) in Et. rewrite Et. cbn [mbind option_bind].
    destruct (valid_ace_type (Z_of_byte t)) eqn:Hv; cbn [negb].
    2: { apply rejected. intros (? & t' & _ & E & ? & _)%fits_first. congruence. }
    rewrite u32_small by (unfold sizeof_ace; lia).
    destruct (sid_valid_size_readable (ace_sid p) (n - sizeof_ace)) as (ok & -> & Hsid).
    { apply (readable_sub p size); unfold sizeof_ace; [done|lia..]. }
    { unfold sizeof_ace. lia. }
    cbn [mbind option_bind]. destruct ok; cbn [negb].
    2: { apply rejected. intros (n' & ? & E & _ & _ & _ & Hs' & _)%fits_first. rewrite E in En. injection En as ->.
         by apply Hsid in Hs'. }
    destruct Hsid as [Hsid _]. destruct (Hsid eq_refl) as (s & Hs' & Hle).
    unfold ace_next. rewrite En. cbn [mbind option_bind].
    destruct (ace_of_bytes p n (Z_of_byte t) s) as (a & Hw & Ea & Hp);
      [|done..|unfold sizeof_ace in *; lia|].
    { pose proof (readable_sub p size 0 n H) as Hsub. rewrite plus_0 in Hsub. apply Hsub; lia. }
    destruct (IH (p +! n) (size - n)) as (ok & Eok & Hiff); [|lia|done|].
    { apply (readable_sub p size); [done|lia..]. }
    exists ok. split; [done|]. rewrite Hiff. split.
    + intros (k & Hk & Hf). exists (a :: k). rewrite fits_cons, Ea. cbn [length]. by rewrite Hk.
    + intros (n' & ? & E & _ & _ & _ & _ & Hk)%fits_first. rewrite E in En. by injection En as ->.
Qed.

(** Validation of a whole list in [size] readable bytes. *)
Lemma acl_is_valid_readable p size :
  readable p size -> 0 <= size < 2 ^ 32 -> acl_sizes_ok p size = true ->
  exists ok, acl_is_valid p size = Some ok /\
    (ok = true <-> exists revision sz l, acl_at p revision sz l /\
       sizeof_acl + len (encode_aces l) <= Z.min size MAX_ACL_LEN).
Proof.
  intros H Hs. unfold acl_is_valid, acl_sizes_ok. destruct (Z.ltb_spec size sizeof_acl) as [Hlt|Hge]; intros Hok.
  { apply rejected. intros (? & ? & ? & _ & Hle). lia. }
  unfold sizeof_acl in Hge.
  destruct (get8_readable p 0 size H) as (r & Er & Hr); [lia|].
  destruct (get8_readable p 1 size H) as (p1 & _ & Hp1); [lia|].
  destruct (get16_readable p 2 size H) as (sz & Esz & Hsz & Psz); [lia..|].
  destruct (get16_readable p 4 size H) as (n & En & Hn & Pn); [lia..|].
  destruct (get16_readable p 6 size H) as (p2 & _ & _ & Pp2); [lia..|].
  fold (acl_count p) in En. rewrite En in *. cbn [mbind option_bind].
  destruct (aces_valid_readable (Z.to_nat n) (ace_first p) (Z.min size MAX_ACL_LEN - sizeof_acl))
    as (ok & -> & Hiff); [|unfold sizeof_acl, MAX_ACL_LEN in *; lia|done|].
  { apply (readable_sub p size); unfold sizeof_acl, MAX_ACL_LEN in *; [done|lia..]. }
  exists ok. split; [done|]. rewrite Hiff. split.
  - intros (l & Hl & Hat & Hle). exists (Z_of_byte r), sz, l. pose proof (Z_of_byte_range r).
    split; [|lia]. unfold acl_at. replace (len l) with n by lia. split_and!; try done; try lia.
    exists (Z_of_byte p1), p2. unfold encode_header. rewrite !byte_of_Z_of_byte.
    rewrite plus_0 in Hr.
    change [r; p1] with ([r] ++ [p1]). rewrite !bytes_app, !points_app, !plus_plus. cbn [length bytes fmap list_fmap le16].
    cbn [length fmap list_fmap]. split_and!; done.
  - intros (r' & sz' & l & Hat & Hle). exists l. pose proof (acl_at_fields p r' sz' l Hat) as (_ & _ & En').
    destruct Hat as (_ & _ & _ & _ & Hat). rewrite En' in En. injection En as En.
    split; [lia|]. split; [done|lia].
Qed.
