(* ===== verification/SecurityDescr.v ===== *)
(** * Valid security descriptors and the lists in them

    Validation of descriptors, and the routines that build access control lists. *)

From Stdlib Require Import ZArith Lia Strings.Byte.
From stdpp Require Import base list numbers option.
From S2P Require Import Prelude Memory Security SecurityLists.

#[local] Open Scope Z_scope.
#[local] Open Scope server_scope.

(** * What valid security descriptors are

    An abstract security descriptor has a control word, an owner, a group and two
    access control lists, each of which may be absent.  Validation accepts exactly
    the blocks that hold one, and the accessors find its parts. *)

#[local] Abbreviation len s := (Z.of_nat (length s)).

(** ** The abstract descriptor *)

Record descr := mk_descr {
  d_control : Z;
  d_owner : option (list byte);
  d_group : option (list byte);
  d_sacl : option (list ace);
  d_dacl : option (list ace)
}.

(** A SID, or an ACL, in [n] bytes; either may be followed by unused bytes. *)
Definition sid_in (p : cptr) (n : Z) (s : list byte) : Prop := sid_at p s /\ len s <= n.

Definition acl_in (p : cptr) (n : Z) (l : list ace) : Prop :=
  exists revision size, acl_at p revision size l /\ sizeof_acl + len (encode_aces l) <= n.

(** A member of [n] bytes; none stands for an absent one. *)
Definition member_at {A} (rep : cptr -> Z -> A -> Prop) (p : cptr) (n : Z) (o : option A) : Prop :=
  match o with None => n = 0 | Some x => n <> 0 /\ rep p n x end.

(** The four lengths in the header. *)
Definition sd_lens (p : cptr) (control ol gl sl dl : Z) : Prop :=
  sd_control p = Some control /\ sd_owner_len p = Some ol /\ sd_group_len p = Some gl /\
  sd_sacl_len p = Some sl /\ sd_dacl_len p = Some dl /\
  0 <= ol /\ 0 <= gl /\ 0 <= sl /\ 0 <= dl.

Definition sd_at (p : cptr) (size : Z) (d : descr) : Prop :=
  exists ol gl sl dl, sd_lens p (d_control d) ol gl sl dl /\
    ol < sid_header + 4 * 255 /\ gl < sid_header + 4 * 255 /\ sl < MAX_ACL_LEN /\ dl < MAX_ACL_LEN /\
    sizeof_sd + ol + gl + sl + dl <= size /\
    member_at sid_in (p +! sizeof_sd) ol (d_owner d) /\
    member_at sid_in (p +! (sizeof_sd + ol)) gl (d_group d) /\
    member_at acl_in (p +! (sizeof_sd + ol + gl)) sl (d_sacl d) /\
    member_at acl_in (p +! (sizeof_sd + ol + gl + sl)) dl (d_dacl d).

(** ** The accessors *)

Section accessors.
Context (p : cptr) (control ol gl sl dl : Z) (Hl : sd_lens p control ol gl sl dl).

Lemma sd_get_owner_at : sd_get_owner p = Some (if ol =? 0 then None else Some (p +! sizeof_sd)).
Proof using Hl. destruct Hl as (_ & E & _). unfold sd_get_owner. by rewrite E. Qed.

Lemma sd_get_group_at : sd_get_group p = Some (if gl =? 0 then None else Some (p +! (sizeof_sd + ol))).
Proof using Hl. destruct Hl as (_ & E & E' & _). unfold sd_get_group. rewrite E, E'. cbn. by rewrite plus_plus. Qed.

Lemma sd_get_sacl_at :
  sd_get_sacl p = Some (if sl =? 0 then None else Some (p +! (sizeof_sd + ol + gl)),
                        has_bits control SE_SACL_PRESENT).
Proof using Hl.
  destruct Hl as (E & E1 & E2 & E3 & _). unfold sd_get_sacl. rewrite E, E1, E2, E3. cbn.
  by rewrite plus_plus, Z.add_assoc.
Qed.

Lemma sd_get_dacl_at :
  sd_get_dacl p = Some (if dl =? 0 then None else Some (p +! (sizeof_sd + ol + gl + sl)),
                        has_bits control SE_DACL_PRESENT).
Proof using Hl.
  destruct Hl as (E & E1 & E2 & E3 & E4 & _). unfold sd_get_dacl. rewrite E, E1, E2, E3, E4. cbn.
  by rewrite plus_plus, !Z.add_assoc.
Qed.
End accessors.

(** The pointer an accessor returns for a member. *)
Lemma member_ptr {A} (rep : cptr -> Z -> A -> Prop) p n o :
  member_at rep p n o ->
  match o with
  | None => (if n =? 0 then None else Some p) = None
  | Some x => (if n =? 0 then None else Some p) = Some p /\ rep p n x
  end.
Proof.
  destruct o as [x|]; cbn.
  - intros [Hn Hr]. by rewrite (proj2 (Z.eqb_neq n 0)).
  - by intros ->.
Qed.

(** ** Validation *)

(** A member is accepted when it is short enough, lies within the bounds and is
    absent or valid. *)
Lemma member_valid_readable {A} (valid : cptr -> Z -> option bool) (rep : cptr -> Z -> A -> Prop)
    (base : cptr) (n limit offset size : Z) :
  (n <> 0 -> n < limit -> readable (base +! offset) n ->
   exists ok, valid (base +! offset) n = Some ok /\ (ok = true <-> exists x, rep (base +! offset) n x)) ->
  readable base size -> 0 <= n -> 0 <= offset ->
  exists ok,
    member_valid valid (if n =? 0 then None else Some (base +! offset)) n limit offset size = Some ok /\
    (ok = true <-> n < limit /\ offset + n <= size /\ exists o, member_at rep (base +! offset) n o).
Proof.
  intros Hv Hr Hn Ho. unfold member_valid.
  destruct ((limit <=? n) || (size <? offset + n)) eqn:Hb.
  - apply rejected. intros (? & ? & _). apply orb_prop in Hb as [Hb|Hb];
      [apply Z.leb_le in Hb|apply Z.ltb_lt in Hb]; lia.
  - apply orb_false_elim in Hb as [Hb1 Hb2]. apply Z.leb_gt in Hb1. apply Z.ltb_ge in Hb2.
    destruct (Z.eqb_spec n 0) as [->|Hne].
    + exists true. split; [done|]. split; [|done]. intros _. split_and!; [done..|]. by exists None.
    + destruct Hv as (ok & Eok & Hiff); [done..| |].
      { apply (readable_sub base size); [done|lia..]. }
      exists ok. split; [done|]. rewrite Hiff. split.
      * intros (x & Hx). split_and!; [done..|]. by exists (Some x).
      * intros (_ & _ & o & Hm). destruct o as [x|]; [|done]. destruct Hm as [_ Hm]. by exists x.
Qed.

(** The condition on the entries of both lists. *)
Definition sd_sizes_ok (sd : cptr) : bool :=
  match sd_get_sacl sd, sd_sacl_len sd, sd_get_dacl sd, sd_dacl_len sd with
  | Some (sacl, _), Some sl, Some (dacl, _), Some dl =>
      match sacl with None => true | Some p => acl_sizes_ok p sl end &&
      match dacl with None => true | Some p => acl_sizes_ok p dl end
  | _, _, _, _ => true
  end.

Lemma acl_member p n :
  readable p n -> 0 <= n -> n < MAX_ACL_LEN -> acl_sizes_ok p n = true ->
  exists ok, acl_is_valid p n = Some ok /\ (ok = true <-> exists l, acl_in p n l).
Proof.
  intros Hr Hn Hlt Hok. unfold MAX_ACL_LEN in Hlt.
  destruct (acl_is_valid_readable p n Hr) as (ok & E & Hiff); [lia|done|].
  exists ok. split; [done|]. rewrite Hiff. unfold acl_in, MAX_ACL_LEN. rewrite Z.min_l by lia.
  split; intros H; decompose [ex] H; eauto.
Qed.

Lemma sd_header_readable p size :
  readable p size -> sizeof_sd <= size ->
  exists control ol gl sl dl, sd_lens p control ol gl sl dl.
Proof.
  intros Hr Hs. unfold sizeof_sd in Hs.
  destruct (get32_readable p 0 size Hr) as (c & Ec & Hc & _); [lia..|].
  destruct (get32_readable p 4 size Hr) as (ol & Eo & Ho & _); [lia..|].
  destruct (get32_readable p 8 size Hr) as (gl & Eg & Hg & _); [lia..|].
  destruct (get32_readable p 12 size Hr) as (sl & Es & Hs' & _); [lia..|].
  destruct (get32_readable p 16 size Hr) as (dl & Ed & Hd & _); [lia..|].
  exists c, ol, gl, sl, dl. unfold sd_lens. split_and!; (done || lia).
Qed.

Lemma sd_lens_unique p c c' ol ol' gl gl' sl sl' dl dl' :
  sd_lens p c ol gl sl dl -> sd_lens p c' ol' gl' sl' dl' ->
  c = c' /\ ol = ol' /\ gl = gl' /\ sl = sl' /\ dl = dl'.
Proof. intros (? & ? & ? & ? & ? & _) (? & ? & ? & ? & ? & _). split_and!; congruence. Qed.

(** A failed check of one member rejects the descriptor. *)
Ltac reject_member Hlens Hiff :=
  apply rejected; intros (d & ? & ? & ? & ? & Hl' & Hd');
  destruct (sd_lens_unique _ _ _ _ _ _ _ _ _ _ _ Hlens Hl') as (_ & <- & <- & <- & <-);
  enough (false = true) by done; apply Hiff; decompose [and] Hd'; split_and!; eauto; lia.

Lemma sd_is_valid_readable p size :
  readable p size -> 0 <= size -> sd_sizes_ok p = true ->
  exists ok, sd_is_valid p size = Some ok /\ (ok = true <-> exists d, sd_at p size d).
Proof.
  intros Hr Hs Hok. unfold sd_is_valid. destruct (Z.ltb_spec size sizeof_sd) as [Hlt|Hge].
  { apply rejected. intros (d & ? & ? & ? & ? & (_ & _ & _ & _ & _ & ? & ? & ? & ?) & ? & ? & ? & ? & ? & _). lia. }
  destruct (sd_header_readable p size Hr Hge) as (c & ol & gl & sl & dl & Hlens).
  unfold sd_sizes_ok in Hok.
  rewrite (sd_get_owner_at p c ol gl sl dl Hlens), (sd_get_group_at p c ol gl sl dl Hlens).
  rewrite (sd_get_sacl_at p c ol gl sl dl Hlens), (sd_get_dacl_at p c ol gl sl dl Hlens) in *.
  pose proof Hlens as (_ & Eo & Eg & Es & Ed & Ho & Hg & Hsl & Hdl). rewrite Eo, Eg, Es, Ed in *. cbn [mbind option_bind fst].
  apply andb_prop in Hok as [Hoks Hokd].
  destruct (member_valid_readable sid_valid_size sid_in p ol (sid_header + 4 * 255) sizeof_sd size) as (ok & -> & Ho');
    [intros; by apply sid_valid_size_readable|done|done|unfold sizeof_sd; lia|].
  cbn [mbind option_bind]. destruct ok; cbn [negb]; [|reject_member Hlens Ho'].
  destruct (member_valid_readable sid_valid_size sid_in p gl (sid_header + 4 * 255) (sizeof_sd + ol) size) as (ok & -> & Hg');
    [intros; by apply sid_valid_size_readable|done|done|unfold sizeof_sd; lia|].
  cbn [mbind option_bind]. destruct ok; cbn [negb]; [|reject_member Hlens Hg'].
  destruct (member_valid_readable acl_is_valid acl_in p sl MAX_ACL_LEN (sizeof_sd + ol + gl) size) as (ok & -> & Hs');
    [|done|done|unfold sizeof_sd; lia|].
  { intros Hne Hlt Hr'. apply acl_member; try done. by rewrite (proj2 (Z.eqb_neq sl 0) Hne) in Hoks. }
  cbn [mbind option_bind]. destruct ok; cbn [negb]; [|reject_member Hlens Hs'].
  destruct (member_valid_readable acl_is_valid acl_in p dl MAX_ACL_LEN (sizeof_sd + ol + gl + sl) size) as (ok & -> & Hd');
    [|done|done|unfold sizeof_sd; lia|].
  { intros Hne Hlt Hr'. apply acl_member; try done. by rewrite (proj2 (Z.eqb_neq dl 0) Hne) in Hokd. }
  exists ok. split; [done|]. rewrite Hd'. split.
  - intros (Hdlt & Hde & dacl & Hdm).
    destruct (proj1 Ho' eq_refl) as (? & _ & owner & Hom), (proj1 Hg' eq_refl) as (? & _ & group & Hgm),
      (proj1 Hs' eq_refl) as (? & _ & sacl & Hsm).
    exists (mk_descr c owner group sacl dacl), ol, gl, sl, dl. split_and!; done.
  - intros (d & ? & ? & ? & ? & Hl' & Hat).
    destruct (sd_lens_unique _ _ _ _ _ _ _ _ _ _ _ Hlens Hl') as (_ & <- & <- & <- & <-).
    decompose [and] Hat. split_and!; eauto; lia.
Qed.

(** * Building access control lists: security labels

    Copying selected entries into a new list stays within the block that was
    allocated for their sizes, and gives the list of the selected entries. *)


(** The entries whose type is kept. *)
Definition kept (keep : Z -> bool) (l : list ace) : list ace := List.filter (fun a => keep (a_type a)) l.

Definition acl_bytes (l : list ace) : Z := sizeof_acl + len (encode_aces l).

(** A block of its own that holds exactly a list and says so in its header. *)
Definition acl_block (p : cptr) (revision : Z) (l : list ace) : Prop :=
  acl_at p revision (acl_bytes l) l /\ off p = 0 /\ len (blk p) = acl_bytes l.

Lemma encode_aces_cons_len a l : len (encode_aces (a :: l)) = a_size a + len (encode_aces l).
Proof. rewrite encode_aces_cons, length_app, Nat2Z.inj_add, length_encode_ace. done. Qed.

Lemma encode_aces_app_len l k : len (encode_aces (l ++ k)) = len (encode_aces l) + len (encode_aces k).
Proof. rewrite encode_aces_app, length_app. lia. Qed.

Lemma kept_bytes keep l : len (encode_aces (kept keep l)) <= len (encode_aces l).
Proof.
  induction l as [|a l IH]; [done|]. cbn [kept List.filter]. fold (kept keep l).
  rewrite (encode_aces_cons_len a l). pose proof (length_encode_ace a).
  destruct (keep (a_type a)); [rewrite encode_aces_cons_len|]; lia.
Qed.

Lemma kept_length keep l : len (kept keep l) <= len l.
Proof. pose proof (List.filter_length_le (fun a => keep (a_type a)) l). unfold kept. lia. Qed.

Lemma kept_wf keep l : Forall wf_ace l -> Forall wf_ace (kept keep l).
Proof. rewrite !List.Forall_forall. intros H a [Ha _]%List.filter_In. auto. Qed.

Lemma sum_aces_at keep p l size count :
  aces_at p l ->
  sum_aces keep (length l) p size count =
    Some (size + len (encode_aces (kept keep l)), count + len (kept keep l)).
Proof.
  revert p size count. induction l as [|a l IH]; intros p size count H.
  - cbn. rewrite !Z.add_0_r. done.
  - apply aces_at_cons in H as (Hw & Hp & Hl). cbn [sum_aces length kept List.filter].
    destruct (ace_at p a Hw Hp) as (-> & _ & Esz & _). rewrite (ace_next_at p a Hw Hp), Esz. cbn [mbind option_bind].
    fold (kept keep l). destruct (keep (a_type a)); rewrite (IH _ _ _ Hl).
    + rewrite encode_aces_cons_len. cbn [length]. do 2 f_equal; lia.
    + done.
Qed.

(** The copies go to the cells [c] of the block, one after the other. *)
Lemma copy_aces_at keep p l dst pre c post :
  aces_at p l -> blk dst = pre ++ c ++ post -> off dst = len pre ->
  len c = len (encode_aces (kept keep l)) ->
  copy_aces keep (length l) p dst =
    Some (mk_cptr (pre ++ bytes (encode_aces (kept keep l)) ++ post) (off dst + len c)).
Proof.
  revert p dst pre c. induction l as [|a l IH]; intros p dst pre c H Hb Ho Hc.
  - cbn in Hc. destruct c; [|done]. cbn. destruct dst as [b o]. cbn in *. subst. f_equal. f_equal. lia.
  - apply aces_at_cons in H as (Hw & Hp & Hl). cbn [copy_aces length kept List.filter] in *.
    destruct (ace_at p a Hw Hp) as (-> & _ & Esz & _). rewrite (ace_next_at p a Hw Hp), Esz. cbn [mbind option_bind].
    fold (kept keep l) in *. destruct (keep (a_type a)); [|by apply IH].
    rewrite encode_aces_cons_len in Hc. pose proof (length_encode_ace a) as Ha.
    rewrite <-Ha, <-(length_bytes (encode_ace a)), (load_points p _ Hp). cbn [mbind option_bind].
    set (n := length (encode_ace a)) in *.
    rewrite (store_at dst pre (take n c) (drop n c ++ post));
      [|by rewrite (app_assoc (take n c)), take_drop|done|rewrite length_bytes, length_take; lia].
    cbn [mbind option_bind].
    set (dst' := mk_cptr _ _).
    assert (points dst' (bytes (encode_ace a))) as Hd by (exists pre, (drop n c ++ post); done).
    rewrite (ace_next_at dst' a Hw Hd). cbn [mbind option_bind].
    rewrite (IH _ (dst' +! a_size a) (pre ++ bytes (encode_ace a)) (drop n c)).
    + rewrite encode_aces_cons, bytes_app. unfold plus, dst'. cbn [blk off]. rewrite <-!app_assoc.
      do 2 f_equal. rewrite length_drop. lia.
    + rewrite length_bytes. fold n. by rewrite Ha.
    + unfold plus, dst'. cbn. by rewrite <-!app_assoc.
    + unfold plus, dst'. cbn [off]. rewrite length_app, length_bytes, Nat2Z.inj_add. lia.
    + rewrite length_drop. lia.
Qed.

(** The header and the entries of a new list. *)
Lemma set_acl_at n revision size count :
  sizeof_acl <= n ->
  set_acl (ptr_to (replicate (Z.to_nat n) None)) revision size count =
    Some (ptr_to (bytes (encode_header revision 0 size count 0) ++ replicate (Z.to_nat (n - sizeof_acl)) None)).
Proof.
  intros Hn. unfold set_acl, ptr_to, sizeof_acl in *.
  rewrite (store_at _ [] (replicate 8 None) (replicate (Z.to_nat (n - 8)) None)); [done| |done|done].
  cbn [blk app]. rewrite <-replicate_add. f_equal. lia.
Qed.

Lemma acl_block_built revision l :
  0 <= revision < 2 ^ 8 -> acl_bytes l < 2 ^ 16 -> len l < 2 ^ 16 -> Forall wf_ace l ->
  acl_block (ptr_to (bytes (encode_header revision 0 (acl_bytes l) (len l) 0) ++ bytes (encode_aces l))) revision l.
Proof.
  intros Hr Hb Hl Hw. pose proof (points_ptr_to (bytes (encode_header revision 0 (acl_bytes l) (len l) 0) ++ bytes (encode_aces l))) as Hp.
  apply points_app in Hp as [Hh Hp]. rewrite length_bytes in Hp.
  split; [|split].
  - split_and!; try done; try (unfold acl_bytes, sizeof_acl; lia). by exists 0, 0.
  - done.
  - cbn [ptr_to blk]. rewrite length_app, !length_bytes. unfold acl_bytes, encode_header, le16, sizeof_acl.
    rewrite !length_app. cbn [length]. lia.
Qed.

Lemma len_aces_bound l : Forall wf_ace l -> 16 * len l <= len (encode_aces l).
Proof.
  induction 1 as [|a l Hw Hl IH]; [done|]. rewrite encode_aces_cons_len. cbn [length].
  pose proof (a_size_pos a Hw). unfold sizeof_ace, sid_header in *. lia.
Qed.

Lemma acl_count_at p r sz l : acl_at p r sz l -> acl_count p = Some (len l) /\ aces_at (ace_first p) l.
Proof. intros H. pose proof (acl_at_fields p r sz l H) as (_ & _ & ?). by destruct H as (_ & _ & _ & _ & ?). Qed.

(** ** The two routines *)

Lemma extract_labels_at p r sz l e :
  acl_at p r sz l -> acl_bytes l < 2 ^ 16 ->
  extract_security_labels p e =
    let '(ok, e') := mem_alloc e in
    Some (if ok then Some (ptr_to (bytes (encode_header r 0 (acl_bytes (kept is_label l)) (len (kept is_label l)) 0) ++
                                   bytes (encode_aces (kept is_label l)))) else None, e').
Proof.
  intros H Hb. pose proof (acl_at_fields p r sz l H) as (Er & _). destruct (acl_count_at p r sz l H) as [En Hat].
  unfold extract_security_labels, ubind, try, lift, mem_alloc_block, bind, ret, uret.
  rewrite En, Nat2Z.id, (sum_aces_at is_label _ l _ _ Hat).
  destruct (mem_alloc e) as [[] e1]; [|done]. rewrite Er. fold (acl_bytes (kept is_label l)).
  rewrite Z.add_0_l, set_acl_at by (unfold acl_bytes; lia).
  set (h := bytes (encode_header _ _ _ _ _)).
  set (c := replicate _ _).
  rewrite (copy_aces_at is_label _ l _ h c []); [cbn [blk]; by rewrite app_nil_r|done|by rewrite app_nil_r|done|].
  subst c. rewrite length_replicate. unfold acl_bytes. lia.
Qed.

(** The list, if any, that a pointer leads to. *)
Definition acl_opt (acl : option cptr) (revision : Z) (l : list ace) : Prop :=
  match acl with
  | None => l = [] /\ revision = 0
  | Some p => exists sz, acl_at p revision sz l
  end.

Lemma sum_acl_at keep acl r l size count :
  acl_opt acl r l ->
  sum_acl keep acl size count = Some (size + len (encode_aces (kept keep l)), count + len (kept keep l)).
Proof.
  destruct acl as [p|]; cbn.
  - intros (sz & H). destruct (acl_count_at p r sz l H) as [-> Hat]. cbn [mbind option_bind].
    rewrite Nat2Z.id. by apply sum_aces_at.
  - intros [-> _]. cbn. by rewrite !Z.add_0_r.
Qed.

Lemma copy_acl_at keep acl r l dst pre c post :
  acl_opt acl r l -> blk dst = pre ++ c ++ post -> off dst = len pre ->
  len c = len (encode_aces (kept keep l)) ->
  copy_acl keep acl dst = Some (mk_cptr (pre ++ bytes (encode_aces (kept keep l)) ++ post) (off dst + len c)).
Proof.
  destruct acl as [p|]; cbn.
  - intros (sz & H) Hb Ho Hc. destruct (acl_count_at p r sz l H) as [-> Hat]. cbn [mbind option_bind].
    rewrite Nat2Z.id. by apply copy_aces_at.
  - intros [-> _] Hb Ho Hc. cbn in Hc. destruct c; [|done]. cbn. destruct dst as [b o]. cbn in *. subst.
    do 2 f_equal. lia.
Qed.

Lemma max_revision_at acl r r0 l : 0 <= r0 -> acl_opt acl r l -> max_revision r0 acl = Some (Z.max r0 r).
Proof.
  intros Hr. destruct acl as [p|]; cbn.
  - intros (sz & H). pose proof (acl_at_fields p r sz l H) as (-> & _). done.
  - intros [_ ->]. f_equal. lia.
Qed.

Lemma acl_opt_wf acl r l : acl_opt acl r l -> Forall wf_ace l /\ 0 <= r < 2 ^ 8.
Proof. destruct acl as [p|]; cbn; [by intros (sz & _ & ? & _ & _ & _ & ?)|by intros [-> ->]]. Qed.

(** What replace_security_labels builds. *)
Definition replaced (old new : list ace) : list ace := kept is_no_label old ++ kept is_label new.

Lemma replace_labels_at old new ro rn lo ln e :
  acl_opt old ro lo -> acl_opt new rn ln -> acl_bytes (replaced lo ln) < 2 ^ 32 ->
  replace_security_labels old new e =
    if MAX_ACL_LEN <? acl_bytes (replaced lo ln) then Some (None, mk_senv STATUS_INVALID_ACL (allocs e))
    else
      let '(ok, e') := mem_alloc e in
      Some (if ok then Some (ptr_to (bytes (encode_header (Z.max (Z.max ACL_REVISION ro) rn) 0
                                       (acl_bytes (replaced lo ln)) (len (replaced lo ln)) 0) ++
                                     bytes (encode_aces (replaced lo ln)))) else None, e').
Proof.
  intros Ho Hn Hb. unfold replace_security_labels, ubind, try, lift, mem_alloc_block, bind, ret, uret.
  rewrite (max_revision_at old ro _ lo) by done. rewrite (sum_acl_at _ old ro lo) by done.
  pose proof (acl_opt_wf old ro lo Ho) as [_ Hro].
  rewrite (max_revision_at new rn _ ln) by (done || unfold ACL_REVISION; lia). rewrite (sum_acl_at _ new rn ln) by done.
  assert (sizeof_acl + len (encode_aces (kept is_no_label lo)) + len (encode_aces (kept is_label ln)) =
          acl_bytes (replaced lo ln)) as -> by (unfold acl_bytes, replaced; rewrite encode_aces_app_len; lia).
  assert (0 + len (kept is_no_label lo) + len (kept is_label ln) = len (replaced lo ln)) as ->
    by (unfold replaced; rewrite length_app; lia).
  rewrite u32_small by (unfold acl_bytes, sizeof_acl in *; lia).
  destruct (MAX_ACL_LEN <? _); [done|]. destruct (mem_alloc e) as [[] e1]; [|done].
  rewrite set_acl_at by (unfold acl_bytes; lia).
  set (h := bytes (encode_header _ _ _ _ _)).
  set (n1 := length (encode_aces (kept is_no_label lo))). set (n2 := length (encode_aces (kept is_label ln))).
  rewrite (copy_acl_at is_no_label old ro lo _ h (replicate n1 None) (replicate n2 None));
    [|done| |done|by rewrite length_replicate].
  2: { cbn [ace_first plus ptr_to blk]. rewrite <-replicate_add. do 2 f_equal.
       unfold acl_bytes, replaced. rewrite encode_aces_app_len. lia. }
  rewrite (copy_acl_at is_label new rn ln _ (h ++ bytes (encode_aces (kept is_no_label lo))) (replicate n2 None) []);
    [|done|cbn [blk]; by rewrite app_nil_r, <-app_assoc| |by rewrite length_replicate].
  - cbn [blk]. unfold replaced. by rewrite encode_aces_app, bytes_app, app_nil_r, <-app_assoc.
  - cbn [off ace_first plus ptr_to]. rewrite length_app, length_bytes, length_replicate, Nat2Z.inj_add.
    unfold ace_first, plus, ptr_to. cbn [off]. fold n1. unfold sizeof_acl. change (len h) with 8. lia.
Qed.

(** ** The lists that they build *)

Lemma uspec_alloc_if {A} (a : A) (Q : A -> Prop) :
  Q a -> uspec (fun e => let '(ok, e') := mem_alloc e in Some (if ok then Some a else None, e')) Q.
Proof.
  intros Ha e. destruct (mem_alloc e) as [[] e'] eqn:E; eexists _, e'; (split_and!; [done..|]); intros He;
    rewrite mem_alloc_full in E by done; [by injection E as <-|done].
Qed.

Lemma wf_block l r :
  0 <= r < 2 ^ 8 -> acl_bytes l < 2 ^ 16 -> Forall wf_ace l ->
  acl_block (ptr_to (bytes (encode_header r 0 (acl_bytes l) (len l) 0) ++ bytes (encode_aces l))) r l.
Proof.
  intros Hr Hb Hw. pose proof (len_aces_bound l Hw). apply acl_block_built; try done.
  unfold acl_bytes, sizeof_acl in *. lia.
Qed.

Lemma extract_labels_spec p r sz l :
  acl_at p r sz l -> acl_bytes l < 2 ^ 16 ->
  uspec (extract_security_labels p) (fun q => acl_block q r (kept is_label l)).
Proof.
  intros H Hb e. rewrite (extract_labels_at p r sz l e H Hb). apply uspec_alloc_if.
  destruct H as (_ & Hr & _ & _ & _ & Hw). apply wf_block; [done| |by apply kept_wf].
  pose proof (kept_bytes is_label l). unfold acl_bytes in *. lia.
Qed.

Lemma replace_labels_spec old new ro rn lo ln :
  acl_opt old ro lo -> acl_opt new rn ln -> acl_bytes (replaced lo ln) <= MAX_ACL_LEN ->
  uspec (replace_security_labels old new)
    (fun q => acl_block q (Z.max (Z.max ACL_REVISION ro) rn) (replaced lo ln)).
Proof.
  intros Ho Hn Hb e. destruct (acl_opt_wf old ro lo Ho) as [Hwo Hro], (acl_opt_wf new rn ln Hn) as [Hwn Hrn].
  unfold MAX_ACL_LEN in Hb. rewrite (replace_labels_at old new ro rn lo ln e Ho Hn) by lia.
  rewrite (proj2 (Z.ltb_ge MAX_ACL_LEN _)) by (unfold MAX_ACL_LEN; lia). apply uspec_alloc_if.
  apply wf_block; [unfold ACL_REVISION; lia|lia|]. apply list.Forall_app. split; by apply kept_wf.
Qed.
