(* ===== verification/Tokens.v ===== *)
(** * Security tokens: server/token.c, with the descriptors of server/object.c

    A token says who a process or thread is: a user, groups, and privileges that
    can be enabled.  Access to an object is decided from the token and the
    security descriptor of the object.  Tokens are objects of the handle tables;
    the state keeps them, the descriptors of all objects and the last locally
    unique id next to the world of the handle tables.  The pointers [owner] and
    [primary_group] of a token lead to one of its groups and are positions in the
    list; [owner] is not initialised before [primary_group] is set. *)

From Stdlib Require Import ZArith Lia Strings.Byte.
From stdpp Require Import base list numbers option gmap.
From S2P Require Import Prelude Handles Memory Security.

#[local] Open Scope Z_scope.
#[local] Open Scope server_scope.

(** ** Data *)

Record luid := mk_luid {
  low_part : Z;
  high_part : Z
}.

#[export] Instance luid_eq_dec : EqDecision luid.
Proof. solve_decision. Defined.

Record luid_attr := mk_luid_attr {
  la_luid : luid;
  la_attrs : Z
}.

Record privilege := mk_privilege {
  priv_luid : luid;
  enabled : bool;
  def : bool
}.

Record group := mk_group {
  attrs : Z;
  sid : cptr
}.

Record token := mk_token {
  token_id : luid;
  modified_id : luid;
  privileges : list privilege;
  groups : list group;
  user : cptr;
  owner : option nat;
  primary_group : option nat;
  primary : Z;
  session_id : Z;
  default_dacl : option cptr;
  impersonation_level : Z;
  elevation : Z
}.

(** Descriptors and tokens by the address of the object; the tokens of threads and
    processes by the address of the thread or process. *)
Record tstate := mk_ts {
  wld : world;
  tokens : gmap Z token;
  sds : gmap Z cptr;
  prev_luid_value : luid;
  thread_token : gmap Z Z;
  process_token : gmap Z Z
}.

Definition set_wld (s : tstate) (w : world) : tstate :=
  mk_ts w (tokens s) (sds s) (prev_luid_value s) (thread_token s) (process_token s).

Definition set_tokens (s : tstate) (ts : gmap Z token) : tstate :=
  mk_ts (wld s) ts (sds s) (prev_luid_value s) (thread_token s) (process_token s).

Definition set_sds (s : tstate) (d : gmap Z cptr) : tstate :=
  mk_ts (wld s) (tokens s) d (prev_luid_value s) (thread_token s) (process_token s).

Definition SE_PRIVILEGE_ENABLED_BY_DEFAULT : Z := 1.

Definition SE_PRIVILEGE_ENABLED : Z := 2.

Definition SE_PRIVILEGE_REMOVED : Z := 4.

Definition SE_PRIVILEGE_USED_FOR_ACCESS : Z := 0x80000000.

Definition SE_GROUP_MANDATORY : Z := 1.

Definition SE_GROUP_ENABLED_BY_DEFAULT : Z := 2.

Definition SE_GROUP_ENABLED : Z := 4.

Definition SE_GROUP_OWNER : Z := 8.

Definition SE_GROUP_USE_FOR_DENY_ONLY : Z := 16.

Definition SE_GROUP_LOGON_ID : Z := 0xC0000000.

Definition INHERIT_ONLY_ACE : Z := 8.

Definition GENERIC_READ : Z := 0x80000000.

Definition GENERIC_WRITE : Z := 0x40000000.

Definition GENERIC_EXECUTE : Z := 0x20000000.

Definition GENERIC_RIGHTS : Z := Z.lor (Z.lor (Z.lor GENERIC_READ GENERIC_WRITE) GENERIC_EXECUTE) GENERIC_ALL.

Definition STANDARD_RIGHTS_REQUIRED : Z := 0x000f0000.

Definition ACCESS_SYSTEM_SECURITY : Z := 0x01000000.

Definition SecurityAnonymous : Z := 0.

Definition SecurityIdentification : Z := 1.

Definition SecurityDelegation : Z := 3.

Definition STATUS_NOT_ALL_ASSIGNED : Z := 0x00000106.

Definition STATUS_BUFFER_OVERFLOW : Z := 0x80000005.

Definition STATUS_ACCESS_VIOLATION : Z := 0xC0000005.

Definition STATUS_BUFFER_TOO_SMALL : Z := 0xC0000023.

Definition STATUS_OBJECT_NAME_INVALID : Z := 0xC0000033.

Definition STATUS_NO_IMPERSONATION_TOKEN : Z := 0xC000005C.

Definition STATUS_PRIVILEGE_NOT_HELD : Z := 0xC0000061.

Definition STATUS_INVALID_SECURITY_DESCR : Z := 0xC0000079.

Definition STATUS_NO_TOKEN : Z := 0xC000007C.

Definition STATUS_BAD_IMPERSONATION_LEVEL : Z := 0xC00000A5.

Definition STATUS_CANT_OPEN_ANONYMOUS : Z := 0xC00000A6.

Definition STATUS_GENERIC_NOT_MAPPED : Z := 0xC00000E6.

Definition SeSecurityPrivilege : luid := mk_luid 8 0.

(** ** Locally unique ids *)

Definition is_equal_luid (luid1 luid2 : luid) : bool :=
  (low_part luid1 =? low_part luid2) && (high_part luid1 =? high_part luid2).

(** Only the low part is counted up. *)
Definition allocate_luid (s : tstate) : luid * tstate :=
  let prev := mk_luid (u32 (low_part (prev_luid_value s) + 1)) (high_part (prev_luid_value s)) in
  (prev, mk_ts (wld s) (tokens s) (sds s) prev (thread_token s) (process_token s)).

(** ** Privileges *)

Definition luid_and_attr_from_privilege (p : privilege) : luid_attr :=
  mk_luid_attr (priv_luid p)
    (Z.lor (if enabled p then SE_PRIVILEGE_ENABLED else 0)
           (if def p then SE_PRIVILEGE_ENABLED_BY_DEFAULT else 0)).

Definition new_privilege (l : luid) (on : bool) : privilege := mk_privilege l on on.

(** The list is in order, new privileges at the end; [false] if there is no memory. *)
Definition privilege_add (ps : list privilege) (l : luid) (on : bool) : M (list privilege * bool) :=
  let* ok := mem_alloc in
  ret (if ok then (ps ++ [new_privilege l on], true) else (ps, false)).

(** Position of the first privilege with the id, unless it must be enabled and is
    not. *)
Fixpoint find_privilege (i : nat) (ps : list privilege) (l : luid) (enabled_only : bool) : option nat :=
  match ps with
  | [] => None
  | p :: ps =>
      if is_equal_luid l (priv_luid p) then if enabled_only && negb (enabled p) then None else Some i
      else find_privilege (S i) ps l enabled_only
  end.

Definition token_find_privilege (t : token) (l : luid) (enabled_only : bool) : option nat :=
  find_privilege 0 (privileges t) l enabled_only.

Definition set_privileges (t : token) (ps : list privilege) : token :=
  mk_token (token_id t) (modified_id t) ps (groups t) (user t) (owner t) (primary_group t) (primary t)
           (session_id t) (default_dacl t) (impersonation_level t) (elevation t).

Definition set_modified (t : token) (l : luid) : token :=
  mk_token (token_id t) l (privileges t) (groups t) (user t) (owner t) (primary_group t) (primary t)
           (session_id t) (default_dacl t) (impersonation_level t) (elevation t).

Definition set_default_dacl (t : token) (acl : option cptr) : token :=
  mk_token (token_id t) (modified_id t) (privileges t) (groups t) (user t) (owner t) (primary_group t)
           (primary t) (session_id t) acl (impersonation_level t) (elevation t).

Definition set_enabled (on : bool) (p : privilege) : privilege := mk_privilege (priv_luid p) on (def p).

(** The loop over the request; [room] is what is left of mod_privs_count, the last
    result the states written to mod_privs. *)
Fixpoint adjust_loop (privs : list luid_attr) (t : token) (room : Z) : M (token * list luid_attr) :=
  match privs with
  | [] => ret (t, [])
  | p :: privs =>
      match token_find_privilege t (la_luid p) false with
      | None => set_error STATUS_NOT_ALL_ASSIGNED ;;; adjust_loop privs t room
      | Some i =>
          if has_bits (la_attrs p) SE_PRIVILEGE_REMOVED then
            adjust_loop privs (set_privileges t (delete i (privileges t))) room
          else
            let t' := set_privileges t (alter (set_enabled (has_bits (la_attrs p) SE_PRIVILEGE_ENABLED)) i
                                              (privileges t)) in
            if negb (room =? 0) then
              let* (t', mods) := adjust_loop privs t' (room - 1) in
              ret (t', match privileges t !! i with
                       | Some q => luid_and_attr_from_privilege q :: mods
                       | None => mods
                       end)
            else adjust_loop privs t' room
      end
  end.

(** The new token and what was written to the reply. *)
Definition token_adjust_privileges (s : tstate) (addr : Z) (t : token) (privs : list luid_attr) (room : Z) :
    M (tstate * list luid_attr) :=
  let '(l, s) := allocate_luid s in
  let* (t, mods) := adjust_loop privs (set_modified t l) room in
  ret (set_tokens s (<[addr := t]> (tokens s)), mods).

Definition token_disable_privileges (s : tstate) (addr : Z) (t : token) : tstate :=
  let '(l, s) := allocate_luid s in
  let t := set_modified t l in
  set_tokens s (<[addr := set_privileges t (set_enabled false <$> privileges t)]> (tokens s)).

(** Whether the privileges are held, and the contents of usedprivs. *)
Fixpoint check_loop (t : token) (req : list luid_attr) : Z * list luid_attr :=
  match req with
  | [] => (0, [])
  | r :: req =>
      let '(n, used) := check_loop t req in
      match token_find_privilege t (la_luid r) true ≫= (fun i => privileges t !! i) with
      | Some p =>
          if enabled p
          then (n + 1, mk_luid_attr (la_luid r) (Z.lor (la_attrs r) SE_PRIVILEGE_USED_FOR_ACCESS) :: used)
          else (n, r :: used)
      | None => (n, r :: used)
      end
  end.

Definition token_check_privileges (t : token) (all_required : bool) (req : list luid_attr) :
    bool * list luid_attr :=
  let '(n, used) := check_loop t req in
  (if all_required then n =? Z.of_nat (length req) else 0 <? n, used).

(** ** Access *)

Fixpoint groups_have (gs : list group) (s : cptr) (deny : bool) : option bool :=
  match gs with
  | [] => Some false
  | g :: gs =>
      if negb (has_bits (attrs g) SE_GROUP_ENABLED) then groups_have gs s deny
      else if negb deny && has_bits (attrs g) SE_GROUP_USE_FOR_DENY_ONLY then groups_have gs s deny
      else same ← equal_sid (sid g) s; if (same : bool) then Some true else groups_have gs s deny
  end.

Definition token_sid_present (t : token) (s : cptr) (deny : bool) : option bool :=
  same ← equal_sid (user t) s; if (same : bool) then Some true else groups_have (groups t) s deny.

Record generic_map := mk_map {
  map_read : Z;
  map_write : Z;
  map_exec : Z;
  map_all : Z
}.

(** object.h [map_access]. *)
Definition map_access (acc : Z) (mapping : generic_map) : Z :=
  let acc := if has_bits acc GENERIC_READ then Z.lor acc (map_read mapping) else acc in
  let acc := if has_bits acc GENERIC_WRITE then Z.lor acc (map_write mapping) else acc in
  let acc := if has_bits acc GENERIC_EXECUTE then Z.lor acc (map_exec mapping) else acc in
  let acc := if has_bits acc GENERIC_ALL then Z.lor acc (map_all mapping) else acc in
  Z.land acc (not32 GENERIC_RIGHTS).

(** Step 4: the loop over the DACL, with current_access and denied_access.  The
    test against [*granted_access], which is still 0, ends it when nothing is
    desired. *)
Fixpoint dacl_loop (t : token) (desired : Z) (mapping : generic_map) (n : nat) (ace : cptr) (cur denied : Z) :
    option (Z * Z) :=
  match n with
  | O => Some (cur, denied)
  | S n =>
      flags ← ace_flags ace;
      if has_bits flags INHERIT_ONLY_ACE then
        next ← ace_next ace; dacl_loop t desired mapping n next cur denied
      else
        type ← ace_type ace;
        let continue cur denied :=
          if desired =? 0 then Some (cur, denied)
          else next ← ace_next ace; dacl_loop t desired mapping n next cur denied in
        if type =? ACCESS_DENIED_ACE_TYPE then
          present ← token_sid_present t (ace_sid ace) true;
          if (present : bool) then
            mask ← ace_mask ace;
            let acc := map_access mask mapping in
            if has_bits desired MAXIMUM_ALLOWED then continue cur (Z.lor denied acc)
            else
              let denied := Z.lor denied (Z.land acc (not32 cur)) in
              if has_bits desired acc then Some (cur, denied) else continue cur denied
          else continue cur denied
        else if type =? ACCESS_ALLOWED_ACE_TYPE then
          present ← token_sid_present t (ace_sid ace) false;
          if (present : bool) then
            mask ← ace_mask ace;
            let acc := map_access mask mapping in
            if has_bits desired MAXIMUM_ALLOWED then continue (Z.lor cur acc) denied
            else continue (Z.lor cur (Z.land acc (not32 denied))) denied
          else continue cur denied
        else continue cur denied
  end.

(** Steps 3 and 4, with the rights [cur] so far: the owner and the DACL.  The
    granted access and the access status. *)
Definition access_from_dacl (t : token) (desired : Z) (mapping : generic_map) (owner dacl : cptr) (cur : Z) :
    option (Z * Z) :=
  present ← token_sid_present t owner false;
  let cur := if (present : bool) then Z.lor cur (Z.lor STANDARD_RIGHTS_REQUIRED SYNCHRONIZE) else cur in
  if present && (desired =? cur) then Some (cur, STATUS_SUCCESS)
  else
    n ← acl_count dacl;
    '(cur, denied) ← dacl_loop t desired mapping (Z.to_nat n) (ace_first dacl) cur 0;
    let granted :=
      if has_bits desired MAXIMUM_ALLOWED then Z.land cur (not32 denied)
      else if Z.land cur desired =? desired then Z.land cur desired else 0 in
    Some (granted, if negb (granted =? 0) then STATUS_SUCCESS else STATUS_ACCESS_DENIED).

(** What the call returns and writes: the status of the call, the granted access,
    the access status if it is written, the count of privileges if the caller asks
    for it, and the privilege used. *)
Record access_result := mk_access {
  ac_ret : Z;
  ac_granted : Z;
  ac_status : option Z;
  ac_priv_count : option Z;
  ac_priv : option luid_attr
}.

(** [priv_count] is [None] for a null pointer. *)
Definition token_access_check (t : token) (sd : cptr) (desired : Z) (priv_count : option Z)
    (mapping : generic_map) : option access_result :=
  let no_privs := match priv_count with None => None | Some _ => Some 0 end in
  if has_bits desired GENERIC_RIGHTS then Some (mk_access STATUS_GENERIC_NOT_MAPPED 0 None no_privs None)
  else
    '(dacl, dacl_present) ← sd_get_dacl sd;
    owner ← sd_get_owner sd;
    grp ← sd_get_group sd;
    match owner, grp with
    | Some owner, Some _ =>
        match (if (dacl_present : bool) then (dacl : option cptr) else None) with
        | None =>
            let granted := if has_bits desired MAXIMUM_ALLOWED then map_all mapping else desired in
            Some (mk_access STATUS_SUCCESS granted (Some STATUS_SUCCESS) no_privs None)
        | Some dacl =>
            let rest cur priv_count priv :=
              '(granted, status) ← access_from_dacl t desired mapping owner dacl cur;
              Some (mk_access STATUS_SUCCESS granted (Some status) priv_count priv) in
            if has_bits desired ACCESS_SYSTEM_SECURITY then
              let '(held, used) := token_check_privileges t true [mk_luid_attr SeSecurityPrivilege 0] in
              if held then
                let cur := ACCESS_SYSTEM_SECURITY in
                let go priv_count priv :=
                  if desired =? cur
                  then Some (mk_access STATUS_SUCCESS cur (Some STATUS_SUCCESS) priv_count priv)
                  else rest cur priv_count priv in
                match priv_count with
                | Some n => if 1 <=? n then go (Some 1) (head used)
                            else Some (mk_access STATUS_BUFFER_TOO_SMALL 0 None (Some 1) None)
                | None => go None None
                end
              else Some (mk_access STATUS_SUCCESS 0 (Some STATUS_PRIVILEGE_NOT_HELD) no_privs None)
            else rest 0 no_privs None
        end
    | _, _ => Some (mk_access STATUS_INVALID_SECURITY_DESCR 0 None no_privs None)
    end.

(** ** Creation *)

(** release_object: with the last reference an object goes with its descriptor
    and, if it is a token, with what the token holds. *)
Definition release (s : tstate) (obj : Z) : tstate :=
  let w := release_object (wld s) obj in
  match objects w !! obj with
  | Some _ => set_wld s w
  | None => mk_ts w (delete obj (tokens s)) (delete obj (sds s)) (prev_luid_value s) (thread_token s)
                  (process_token s)
  end.

(** A copy of a SID in a block of its own. *)
Definition dup_sid (p : cptr) : U (option cptr) := let? n := try (sid_len p) in memdup p n.

(** The loop that copies the groups. *)
Fixpoint copy_groups (gs : list group) : U (option (list group)) :=
  match gs with
  | [] => uret (Some [])
  | g :: gs =>
      let? p := dup_sid (sid g) in
      match p with
      | None => uret None
      | Some p =>
          let? rest := copy_groups gs in
          uret (match rest with None => None | Some rest => Some (mk_group (attrs g) p :: rest) end)
      end
  end.

Fixpoint add_privileges (ps : list privilege) (privs : list luid_attr) : M (list privilege * bool) :=
  match privs with
  | [] => ret (ps, true)
  | p :: privs =>
      let* (ps, ok) := privilege_add ps (la_luid p) (has_bits (la_attrs p) SE_PRIVILEGE_ENABLED) in
      if ok then add_privileges ps privs else ret (ps, false)
  end.

(** A copy of an ACL, as long as its header says. *)
Definition dup_acl (acl : cptr) : U (option cptr) := let? n := try (acl_size acl) in memdup acl n.

(** The privileges of a new token, and its default DACL. *)
Definition fill_token (t : token) (privs : list luid_attr) (dacl : option cptr) : U (option token) :=
  let? (ps, ok) := lift (add_privileges [] privs) in
  if negb ok then uret None
  else
    let t := set_privileges t ps in
    match dacl with
    | None => uret (Some t)
    | Some acl =>
        let? d := dup_acl acl in
        uret (match d with None => None | Some d => Some (set_default_dacl t (Some d)) end)
    end.

(** Position [pg] of the list of groups, if there is one. *)
Definition group_index (pg : Z) (n : nat) : option nat :=
  if (0 <=? pg) && (pg <? Z.of_nat n) then Some (Z.to_nat pg) else None.

(** [addr] is the address of the new object; the result is a null pointer without
    memory. *)
Definition create_token (token_ops addr : Z) (s : tstate) (prim session : Z) (usr : cptr) (gs : list group)
    (privs : list luid_attr) (dacl : option cptr) (modified : option luid) (pg level elev : Z) :
    U (option Z * tstate) :=
  let? w := lift (alloc_object (wld s) addr token_ops) in
  match w with
  | None => uret (None, s)
  | Some w =>
      let '(id, s) := allocate_luid (set_wld s w) in
      let '(mid, s) := match modified with Some m => (m, s) | None => allocate_luid s end in
      let fail : U (option Z * tstate) := uret (None, release s addr) in
      let? u := dup_sid usr in
      match u with
      | None => fail
      | Some u =>
          let? gs := copy_groups gs in
          match gs with
          | None => fail
          | Some gs =>
              let main := group_index pg (length gs) in
              let t := mk_token id mid [] gs u main main prim session None
                                (if negb (prim =? 0) then -1 else level) elev in
              let? t := fill_token t privs dacl in
              match t with
              | None => fail
              | Some t => uret (Some addr, set_tokens s (<[addr := t]> (tokens s)))
              end
          end
      end
  end.

(** ** Descriptors of objects (object.c) *)

(** The SID that a token's [owner] or [primary_group] leads to. *)
Definition group_sid (t : token) (i : option nat) : option cptr := g ← i ≫= (fun i => groups t !! i); Some (sid g).

Definition token_get_owner (t : token) : option cptr := group_sid t (owner t).

Definition token_get_primary_group (t : token) : option cptr := group_sid t (primary_group t).

(** A SID and its length: from the new descriptor, the old one or the token. *)
Definition choose_sid (want : bool) (get_len : cptr -> option Z) (get : cptr -> option (option cptr))
    (sd : cptr) (old_sd : option cptr) (tok : option token) (from_token : token -> option cptr) :
    option (option cptr * Z) :=
  n ← get_len sd;
  if want && negb (n =? 0) then p ← get sd; Some (p, n)
  else
    o ← match old_sd with None => Some 0 | Some old => get_len old end;
    match old_sd with
    | Some old =>
        if negb (o =? 0) then p ← get old; Some (p, o)
        else match tok with
             | Some t => p ← from_token t; k ← sid_len p; Some (Some p, k)
             | None => Some (None, 0)
             end
    | None =>
        match tok with
        | Some t => p ← from_token t; k ← sid_len p; Some (Some p, k)
        | None => Some (None, 0)
        end
    end.

(** The SACL, its length and whether it is marked as present.  The outer option is
    a failure of replace_security_labels. *)
Definition choose_sacl (set_info : Z) (sd : cptr) (old_sd : option cptr) : U (option (option cptr * Z * bool)) :=
  let? (sacl, present) := try (sd_get_sacl sd) in
  if has_bits set_info SACL_SECURITY_INFORMATION && present then
    let? n := try (sd_sacl_len sd) in uret (Some (sacl, n, true))
  else if has_bits set_info LABEL_SECURITY_INFORMATION && present then
    let? old_sacl := try (match old_sd with
                          | None => Some None
                          | Some old => '(p, there) ← sd_get_sacl old; Some (if (there : bool) then p else None)
                          end) in
    let? acl := replace_security_labels old_sacl sacl in
    match acl with
    | None => uret None
    | Some acl => let? n := try (acl_size acl) in uret (Some (Some acl, n, true))
    end
  else
    match old_sd with
    | None => uret (Some (sacl, 0, false))
    | Some old =>
        let? (p, there) := try (sd_get_sacl old) in
        if (there : bool) then let? n := try (sd_sacl_len old) in uret (Some (p, n, true))
        else uret (Some (p, 0, false))
    end.

(** The DACL.  The default DACL of the token is used without a test for null. *)
Definition choose_dacl (set_info : Z) (sd : cptr) (old_sd : option cptr) (tok : option token) :
    option (option cptr * Z * bool) :=
  '(dacl, present) ← sd_get_dacl sd;
  if has_bits set_info DACL_SECURITY_INFORMATION && present then n ← sd_dacl_len sd; Some (dacl, n, true)
  else
    old ← match old_sd with None => Some (dacl, false) | Some old => sd_get_dacl old end;
    match old_sd with
    | Some o =>
        if (snd old : bool) then n ← sd_dacl_len o; Some (fst old, n, true)
        else match tok with
             | Some t => d ← default_dacl t; n ← acl_size d; Some (Some d, n, true)
             | None => Some (fst old, 0, false)
             end
    | None =>
        match tok with
        | Some t => d ← default_dacl t; n ← acl_size d; Some (Some d, n, true)
        | None => Some (fst old, 0, false)
        end
    end.

(** memcpy of [n] bytes; a null pointer is fine for none. *)
Definition copy_part (p : option cptr) (n : Z) : option block :=
  if n =? 0 then Some [] else match p with None => None | Some p => load p n end.

(** The bytes of a descriptor's header. *)
Definition sd_header (control ol gl sl dl : Z) : list byte := le32 control ++ le32 ol ++ le32 gl ++ le32 sl ++ le32 dl.

Definition set_sd_from_token_internal (sd : cptr) (old_sd : option cptr) (set_info : Z) (tok : option token) :
    U (option cptr) :=
  let? control := try (sd_control sd) in
  let control := Z.land control (not32 SE_SELF_RELATIVE) in
  let? (own, ol) := try (choose_sid (has_bits set_info OWNER_SECURITY_INFORMATION) sd_owner_len sd_get_owner
                           sd old_sd tok token_get_owner) in
  let? (grp, gl) := try (choose_sid (has_bits set_info GROUP_SECURITY_INFORMATION) sd_group_len sd_get_group
                           sd old_sd tok token_get_primary_group) in
  let? sacl := choose_sacl set_info sd old_sd in
  match sacl with
  | None => uret None
  | Some (sacl, sl, sp) =>
      let? (dacl, dl, dp) := try (choose_dacl set_info sd old_sd tok) in
      let control := if (sp : bool) then Z.lor control SE_SACL_PRESENT else control in
      let control := if (dp : bool) then Z.lor control SE_DACL_PRESENT else control in
      let? ok := lift mem_alloc in
      if negb ok then uret None
      else
        let? o := try (copy_part own ol) in
        let? g := try (copy_part grp gl) in
        let? sb := try (copy_part sacl sl) in
        let? db := try (copy_part dacl dl) in
        uret (Some (ptr_to (bytes (sd_header control ol gl sl dl) ++ o ++ g ++ sb ++ db)))
  end.

Definition set_sd_defaults_from_token (s : tstate) (obj : Z) (sd : cptr) (set_info : Z) (tok : option token) :
    U (bool * tstate) :=
  if set_info =? 0 then uret (true, s)
  else
    let? new_sd := set_sd_from_token_internal sd (sds s !! obj) set_info tok in
    uret (match new_sd with
          | Some d => (true, set_sds s (<[obj := d]> (sds s)))
          | None => (false, s)
          end).

(** ** Duplication *)

(** [filter] points to [count] SIDs, one after the other. *)
Fixpoint filter_group (g : group) (filter : cptr) (count : nat) : option bool :=
  match count with
  | O => Some false
  | S count =>
      same ← equal_sid (sid g) filter;
      if (same : bool) then Some true
      else n ← sid_len filter; filter_group g (filter +! n) count
  end.

Definition filter_privilege (p : privilege) (filter : list luid_attr) : bool :=
  existsb (fun f => is_equal_luid (priv_luid p) (la_luid f)) filter.

Definition deny_only (a : Z) : Z :=
  Z.lor (Z.land a (not32 (Z.lor SE_GROUP_ENABLED SE_GROUP_ENABLED_BY_DEFAULT))) SE_GROUP_USE_FOR_DENY_ONLY.

(** The loop over the groups of the source. *)
Fixpoint duplicate_groups (gs : list group) (filter : cptr) (count : nat) : U (option (list group)) :=
  match gs with
  | [] => uret (Some [])
  | g :: gs =>
      let? p := dup_sid (sid g) in
      match p with
      | None => uret None
      | Some p =>
          let? f := try (filter_group g filter count) in
          let? rest := duplicate_groups gs filter count in
          uret (match rest with
                | None => None
                | Some rest => Some (mk_group (if (f : bool) then deny_only (attrs g) else attrs g) p :: rest)
                end)
      end
  end.

(** The loop over its privileges. *)
Fixpoint duplicate_privileges (ps : list privilege) (src : list privilege) (filter : list luid_attr) :
    M (list privilege * bool) :=
  match src with
  | [] => ret (ps, true)
  | p :: src =>
      if filter_privilege p filter then duplicate_privileges ps src filter
      else
        let* (ps, ok) := privilege_add ps (priv_luid p) (enabled p) in
        if ok then duplicate_privileges ps src filter else ret (ps, false)
  end.

Definition set_groups (t : token) (gs : list group) (main : option nat) : token :=
  mk_token (token_id t) (modified_id t) (privileges t) gs (user t) main main (primary t)
           (session_id t) (default_dacl t) (impersonation_level t) (elevation t).

(** A token may be impersonated only at its own level or below. *)
Definition bad_level (src : token) (prim level : Z) : bool :=
  (prim =? 0) &&
  ((level <? SecurityAnonymous) || (SecurityDelegation <? level) ||
   ((primary src =? 0) && (impersonation_level src <? level))).

(** [tok] is the token of the current process, whose defaults complete [sd]. *)
Definition token_duplicate (token_ops addr : Z) (s : tstate) (tok : option token) (src : token) (prim level : Z)
    (sd : option cptr) (remove_privs : list luid_attr) (remove_groups : cptr) (remove_group_count : nat) : U (option Z * tstate) :=
  let modified := if negb (prim =? 0) || (level =? impersonation_level src) then Some (modified_id src) else None in
  if bad_level src prim level then
    let? _ := lift (set_error STATUS_BAD_IMPERSONATION_LEVEL) in uret (None, s)
  else
    let? (a, s) := create_token token_ops addr s prim (session_id src) (user src) [] [] (default_dacl src)
                     modified 0 level (elevation src) in
    match a with
    | None => uret (None, s)
    | Some addr =>
        let fail : U (option Z * tstate) := uret (None, release s addr) in
        let? t := try (tokens s !! addr) in
        let? gs := duplicate_groups (groups src) remove_groups remove_group_count in
        match gs with
        | None => fail
        | Some gs =>
            let? main := try (primary_group src) in
            let? (ps, ok) := lift (duplicate_privileges (privileges t) (privileges src) remove_privs) in
            if negb ok then fail
            else
              let s := set_tokens s (<[addr := set_privileges (set_groups t gs (Some main)) ps]> (tokens s)) in
              match sd with
              | None => uret (Some addr, s)
              | Some sd =>
                  let? (_, s) := set_sd_defaults_from_token s addr sd
                      (Z.lor (Z.lor OWNER_SECURITY_INFORMATION GROUP_SECURITY_INFORMATION)
                             (Z.lor DACL_SECURITY_INFORMATION SACL_SECURITY_INFORMATION)) tok in
                  uret (Some addr, s)
              end
        end
    end.
