(* ===== verification/TokenAccess.v ===== *)
(** * What the access check decides

    The reference is a function of sets of rights: who the subject is, the entries
    of the DACL in order and the rights the subject has without it.  The routine
    of token.c, which walks bytes and keeps two masks, computes it. *)

From Stdlib Require Import ZArith Lia Strings.Byte.
From stdpp Require Import base list numbers option gmap.
From S2P Require Import Prelude Handles Memory Security SecurityLists SecurityDescr Tokens.

#[local] Open Scope Z_scope.
#[local] Open Scope server_scope.

#[local] Abbreviation len s := (Z.of_nat (length s)).

(** ** Subjects *)

Record subject := mk_subject {
  s_user : list byte;
  s_groups : list (Z * list byte)
}.

(** A token whose SIDs can be read as those of the subject. *)
Definition group_at (g : group) (x : Z * list byte) : Prop := attrs g = fst x /\ sid_at (sid g) (snd x).

Definition subject_at (t : token) (u : subject) : Prop :=
  sid_at (user t) (s_user u) /\ Forall2 group_at (groups t) (s_groups u).

(** Does a group count, for an allowing or for a denying entry? *)
Definition counts (deny : bool) (a : Z) : bool :=
  has_bits a SE_GROUP_ENABLED && (deny || negb (has_bits a SE_GROUP_USE_FOR_DENY_ONLY)).

Definition has_sid (u : subject) (deny : bool) (s : list byte) : bool :=
  bool_decide (s_user u = s) || existsb (fun g => counts deny (fst g) && bool_decide (snd g = s)) (s_groups u).

Lemma groups_have_at gs xs p s deny :
  Forall2 group_at gs xs -> sid_at p s ->
  groups_have gs p deny = Some (existsb (fun g => counts deny (fst g) && bool_decide (snd g = s)) xs).
Proof.
  intros Hgs Hp. induction Hgs as [|g [a x] gs xs [Ha Hx] Hgs IH]; [done|]. cbn in Ha, Hx. subst a.
  cbn [groups_have existsb fst snd]. unfold counts at 1. rewrite (equal_sid_at _ _ _ _ Hx Hp), IH.
  destruct (has_bits (attrs g) SE_GROUP_ENABLED), deny, (has_bits (attrs g) SE_GROUP_USE_FOR_DENY_ONLY), (bool_decide (x = s));
    done.
Qed.

Lemma token_sid_present_at t u p s deny :
  subject_at t u -> sid_at p s -> token_sid_present t p deny = Some (has_sid u deny s).
Proof.
  intros [Hu Hg] Hp. unfold token_sid_present, has_sid. rewrite (equal_sid_at _ _ _ _ Hu Hp). cbn [mbind option_bind].
  destruct (bool_decide (s_user u = s)); [done|]. by apply groups_have_at.
Qed.

(** ** Rights *)

(** Bit by bit. *)
Lemma has_bits_false x y i : has_bits x y = false -> Z.testbit x i = true -> Z.testbit y i = false.
Proof.
  unfold has_bits. intros H%negb_false_iff%Z.eqb_eq Hx. destruct (Z.testbit y i) eqn:Hy; [|done].
  pose proof (Z.land_spec x y i) as E. by rewrite H, Hx, Hy, Z.bits_0 in E.
Qed.

(** Two masks that agree on the bits of a third. *)
Lemma land_agree x y d :
  0 <= d < 2 ^ 32 -> (forall i, 0 <= i < 32 -> Z.testbit d i = true -> Z.testbit x i = Z.testbit y i) ->
  Z.land x d = Z.land y d.
Proof.
  intros Hd H. apply Z.bits_inj'. intros i Hi. rewrite !Z.land_spec.
  destruct (Z.lt_ge_cases i 32); [|rewrite (testbit_high d i) by lia; by rewrite !andb_false_r].
  destruct (Z.testbit d i) eqn:E; [by rewrite H|by rewrite !andb_false_r].
Qed.

Section decision.
Context (u : subject) (mapping : generic_map).

Definition applies (a : ace) : bool := negb (has_bits (a_flags a) INHERIT_ONLY_ACE).

(** The rights an entry allows, and denies, the subject. *)
Definition allowed (a : ace) : Z :=
  if applies a && (a_type a =? ACCESS_ALLOWED_ACE_TYPE) && has_sid u false (a_sid a)
  then map_access (a_mask a) mapping else 0.

Definition denied (a : ace) : Z :=
  if applies a && (a_type a =? ACCESS_DENIED_ACE_TYPE) && has_sid u true (a_sid a)
  then map_access (a_mask a) mapping else 0.

(** The rights allowed before the first entry that denies a desired right. *)
Fixpoint allowed_before (desired : Z) (l : list ace) : Z :=
  match l with
  | [] => 0
  | a :: l => if has_bits desired (denied a) then 0 else Z.lor (allowed a) (allowed_before desired l)
  end.

Definition union (l : list Z) : Z := foldr Z.lor 0 l.

(** What the DACL [l] gives a subject that has the rights [given] without it. *)
Definition granted (given desired : Z) (l : list ace) : Z :=
  if has_bits desired MAXIMUM_ALLOWED
  then Z.land (Z.lor given (union (allowed <$> l))) (not32 (union (denied <$> l)))
  else if Z.land (Z.lor given (allowed_before desired l)) desired =? desired then desired else 0.

(** ** The loop *)

Lemma ace_kinds a : wf_ace a -> a_type a = ACCESS_DENIED_ACE_TYPE -> (a_type a =? ACCESS_ALLOWED_ACE_TYPE) = false.
Proof. by intros _ ->. Qed.

(** One entry: what happens to the two masks, or that the loop stops. *)
Definition entry_step (desired : Z) (a : ace) (cur den : Z) : Z * Z * bool :=
  if has_bits desired MAXIMUM_ALLOWED then (Z.lor cur (allowed a), Z.lor den (denied a), false)
  else (Z.lor cur (Z.land (allowed a) (not32 den)), Z.lor den (Z.land (denied a) (not32 cur)),
        has_bits desired (denied a)).

Lemma has_bits_0_r x : has_bits x 0 = false.
Proof. unfold has_bits. by rewrite Z.land_0_r. Qed.

Lemma dacl_loop_entry t desired n p a cur den :
  desired <> 0 -> subject_at t u -> wf_ace a -> points p (bytes (encode_ace a)) ->
  dacl_loop t desired mapping (S n) p cur den =
    let '(cur', den', stop) := entry_step desired a cur den in
    if stop then Some (cur', den') else dacl_loop t desired mapping n (p +! a_size a) cur' den'.
Proof.
  intros Hd Hu Hw Hp. cbn [dacl_loop]. destruct (ace_at p a Hw Hp) as (-> & -> & _ & -> & Hsid).
  rewrite (ace_next_at p a Hw Hp). cbn [mbind option_bind]. rewrite (proj2 (Z.eqb_neq desired 0) Hd).
  rewrite !(token_sid_present_at t u _ _ _ Hu Hsid). cbn [mbind option_bind].
  unfold entry_step, allowed, denied, applies.
  destruct (has_bits (a_flags a) INHERIT_ONLY_ACE); cbn [negb andb];
    [rewrite ?Z.land_0_l, ?Z.lor_0_r, ?has_bits_0_r; by destruct (has_bits desired MAXIMUM_ALLOWED)|].
  destruct (Z.eqb_spec (a_type a) ACCESS_DENIED_ACE_TYPE) as [E|E].
  - rewrite (ace_kinds a Hw E). cbn [andb]. rewrite ?Z.land_0_l, ?Z.lor_0_r.
    destruct (has_sid u true (a_sid a)); rewrite ?Z.land_0_l, ?Z.lor_0_r, ?has_bits_0_r;
      by destruct (has_bits desired MAXIMUM_ALLOWED).
  - rewrite ?Z.land_0_l, ?Z.lor_0_r, ?has_bits_0_r. destruct (a_type a =? ACCESS_ALLOWED_ACE_TYPE); cbn [andb];
      [destruct (has_sid u false (a_sid a))|]; rewrite ?Z.land_0_l, ?Z.lor_0_r;
      by destruct (has_bits desired MAXIMUM_ALLOWED).
Qed.

(** With MAXIMUM_ALLOWED every entry is taken into account. *)
Lemma dacl_loop_maximum t desired p l cur den :
  subject_at t u -> aces_at p l -> has_bits desired MAXIMUM_ALLOWED = true ->
  dacl_loop t desired mapping (length l) p cur den =
    Some (Z.lor cur (union (allowed <$> l)), Z.lor den (union (denied <$> l))).
Proof.
  intros Hu Hl Hm. revert p cur den Hl. induction l as [|a l IH]; intros p cur den Hl.
  - cbn. by rewrite !Z.lor_0_r.
  - apply aces_at_cons in Hl as (Hw & Hp & Hl). cbn [length].
    rewrite (dacl_loop_entry t desired _ p a) by (done || by intros ->). unfold entry_step. rewrite Hm.
    rewrite (IH _ _ _ Hl). cbn. by rewrite !Z.lor_assoc.
Qed.

(** Otherwise a desired right is current at the end exactly when it was before or
    is allowed before the loop stops. *)
Lemma dacl_loop_desired t desired p l cur den :
  subject_at t u -> aces_at p l -> has_bits desired MAXIMUM_ALLOWED = false -> desired <> 0 ->
  0 <= desired < 2 ^ 32 -> has_bits desired den = false ->
  exists cur' den', dacl_loop t desired mapping (length l) p cur den = Some (cur', den') /\
    Z.land cur' desired = Z.land (Z.lor cur (allowed_before desired l)) desired.
Proof.
  intros Hu Hl Hm Hd Hr. revert p cur den Hl. induction l as [|a l IH]; intros p cur den Hl Hden.
  - cbn. rewrite Z.lor_0_r. by eauto.
  - apply aces_at_cons in Hl as (Hw & Hp & Hl). cbn [length allowed_before].
    rewrite (dacl_loop_entry t desired _ p a) by done. unfold entry_step. rewrite Hm.
    assert (forall x, Z.land (Z.lor cur (Z.land x (not32 den))) desired = Z.land (Z.lor cur x) desired) as Hcur.
    { intros x. apply land_agree; [done|]. intros i Hi Hdi. rewrite !Z.lor_spec, Z.land_spec, not32_spec by done.
      by rewrite (has_bits_false desired den i Hden Hdi), andb_true_r. }
    destruct (has_bits desired (denied a)) eqn:Hs.
    + do 2 eexists. split; [done|]. rewrite Hcur. f_equal. f_equal.
      unfold allowed. unfold denied in Hs.
      destruct (applies a); [|done]. cbn [andb] in *.
      destruct (Z.eqb_spec (a_type a) ACCESS_DENIED_ACE_TYPE) as [E|E]; [by rewrite (ace_kinds a Hw E)|].
      by rewrite has_bits_0_r in Hs.
    + destruct (IH (p +! a_size a) (Z.lor cur (Z.land (allowed a) (not32 den)))
                   (Z.lor den (Z.land (denied a) (not32 cur))) Hl) as (cur' & den' & E & H').
      * unfold has_bits. apply negb_false_iff, Z.eqb_eq, Z.bits_inj'. intros i Hi.
        rewrite Z.land_spec, Z.lor_spec, Z.land_spec, Z.bits_0. destruct (Z.testbit desired i) eqn:Hdi; [|done].
        by rewrite (has_bits_false _ _ i Hden Hdi), (has_bits_false _ _ i Hs Hdi).
      * exists cur', den'. split; [done|]. rewrite H', Z.land_lor_distr_l, Hcur, <-Z.land_lor_distr_l.
        by rewrite Z.lor_assoc.
Qed.

(** Nothing is desired: the loop ends, at the latest after the list. *)
Lemma dacl_loop_nothing t p l cur den :
  subject_at t u -> aces_at p l -> exists r, dacl_loop t 0 mapping (length l) p cur den = Some r.
Proof.
  intros Hu. revert p. induction l as [|a l IH]; intros p Hl; [by eexists|].
  apply aces_at_cons in Hl as (Hw & Hp & Hl). cbn [length dacl_loop].
  destruct (ace_at p a Hw Hp) as (-> & -> & _ & -> & Hsid). rewrite (ace_next_at p a Hw Hp). cbn [mbind option_bind].
  rewrite !(token_sid_present_at t u _ _ _ Hu Hsid). cbn [mbind option_bind].
  destruct (has_bits (a_flags a) INHERIT_ONLY_ACE); [by apply IH|]. cbn.
  repeat case_match; by eexists.
Qed.

(** ** The whole decision *)

(** The rights of the owner. *)
Definition owner_rights : Z := Z.lor STANDARD_RIGHTS_REQUIRED SYNCHRONIZE.

(** The rights a subject has without the DACL: the owner's, and access to the
    SACL for who asks for it and holds the privilege. *)
Definition given (held : bool) (o : list byte) (desired : Z) : Z :=
  Z.lor (if has_bits desired ACCESS_SYSTEM_SECURITY && held then ACCESS_SYSTEM_SECURITY else 0)
        (if has_sid u false o then owner_rights else 0).

(** The status of the call, the granted rights and the access status. *)
Definition decision (held : bool) (d : descr) (desired : Z) : Z * Z * option Z :=
  if has_bits desired GENERIC_RIGHTS then (STATUS_GENERIC_NOT_MAPPED, 0, None)
  else
    match d_owner d, d_group d with
    | Some o, Some _ =>
        match (if has_bits (d_control d) SE_DACL_PRESENT then d_dacl d else None) with
        | None => (STATUS_SUCCESS, if has_bits desired MAXIMUM_ALLOWED then map_all mapping else desired,
                   Some STATUS_SUCCESS)
        | Some l =>
            if has_bits desired ACCESS_SYSTEM_SECURITY && negb held
            then (STATUS_SUCCESS, 0, Some STATUS_PRIVILEGE_NOT_HELD)
            else
              let g := granted (given held o desired) desired l in
              (STATUS_SUCCESS, g, Some (if negb (g =? 0) then STATUS_SUCCESS else STATUS_ACCESS_DENIED))
        end
    | _, _ => (STATUS_INVALID_SECURITY_DESCR, 0, None)
    end.

Definition outcome (r : access_result) : Z * Z * option Z := (ac_ret r, ac_granted r, ac_status r).

(** The loop and the computation of the result after it. *)
Definition final_access (desired cur den : Z) : Z :=
  if has_bits desired MAXIMUM_ALLOWED then Z.land cur (not32 den)
  else if Z.land cur desired =? desired then Z.land cur desired else 0.

Lemma dacl_result t desired p l cur :
  subject_at t u -> aces_at p l -> 0 <= desired < 2 ^ 32 ->
  exists cur' den', dacl_loop t desired mapping (length l) p cur 0 = Some (cur', den') /\
    final_access desired cur' den' = granted cur desired l.
Proof.
  intros Hu Hl Hd. unfold final_access, granted. destruct (has_bits desired MAXIMUM_ALLOWED) eqn:Hm.
  - rewrite (dacl_loop_maximum t desired p l cur 0 Hu Hl Hm). by eauto.
  - destruct (Z.eq_dec desired 0) as [->|Hne].
    + destruct (dacl_loop_nothing t p l cur 0 Hu Hl) as ([c d] & ->). exists c, d. split; [done|]. by rewrite !Z.land_0_r.
    + destruct (dacl_loop_desired t desired p l cur 0) as (c & d & -> & E); try done; [apply has_bits_0_r|].
      exists c, d. split; [done|]. rewrite E. by destruct (Z.eqb_spec (Z.land (Z.lor cur (allowed_before desired l)) desired) desired).
Qed.

(** A subject that is granted exactly its rights without the DACL needs no DACL. *)
Lemma granted_given gv desired l :
  has_bits desired MAXIMUM_ALLOWED = false -> Z.land gv desired = desired -> granted gv desired l = desired.
Proof.
  intros Hm Hg. unfold granted. rewrite Hm, Z.land_lor_distr_l, Hg.
  rewrite (proj2 (Z.eqb_eq _ _)); [done|]. apply Z.bits_inj'. intros i Hi. rewrite Z.lor_spec, Z.land_spec.
  by destruct (Z.testbit desired i), (Z.testbit (allowed_before desired l) i).
Qed.
End decision.

(** The rights without the DACL do not include MAXIMUM_ALLOWED. *)
Lemma given_maximum u held o desired : has_bits (given u held o desired) MAXIMUM_ALLOWED = false.
Proof. unfold given. by destruct (has_bits desired ACCESS_SYSTEM_SECURITY && held), (has_sid u false o). Qed.

(** The access status goes with the rights granted. *)
Definition access_status (g : Z) : Z := if negb (g =? 0) then STATUS_SUCCESS else STATUS_ACCESS_DENIED.

Lemma owner_access_nonzero cur : Z.lor cur owner_rights <> 0.
Proof. intros [_ H]%Z.lor_eq_0_iff. done. Qed.

(** The rest of the check after the privileges, for rights [cur] so far. *)
Lemma access_from_dacl_at u mapping t desired owner o dacl r sz l cur :
  subject_at t u -> sid_at owner o -> acl_at dacl r sz l -> 0 <= desired < 2 ^ 32 ->
  has_bits (Z.lor cur (if has_sid u false o then owner_rights else 0)) MAXIMUM_ALLOWED = false ->
  let g := granted u mapping (Z.lor cur (if has_sid u false o then owner_rights else 0)) desired l in
  access_from_dacl t desired mapping owner dacl cur = Some (g, access_status g).
Proof.
  intros Hu Ho Hl Hd Hm g. unfold access_from_dacl.
  rewrite (token_sid_present_at t u owner o false Hu Ho). cbn [mbind option_bind]. fold owner_rights.
  replace (if has_sid u false o then Z.lor cur owner_rights else cur)
    with (Z.lor cur (if has_sid u false o then owner_rights else 0))
    by (destruct (has_sid u false o); [done|by rewrite Z.lor_0_r]).
  set (c := Z.lor cur _) in *.
  destruct (has_sid u false o && (desired =? c)) eqn:E.
  - apply andb_prop in E as [Hs E%Z.eqb_eq]. subst desired g. rewrite granted_given by (done || apply Z.land_diag).
    unfold access_status. rewrite (proj2 (Z.eqb_neq c 0)); [done|]. unfold c. rewrite Hs. apply owner_access_nonzero.
  - pose proof (acl_at_fields dacl r sz l Hl) as (_ & _ & ->). destruct Hl as (_ & _ & _ & _ & Hl). cbn [mbind option_bind].
    rewrite Nat2Z.id. destruct (dacl_result u mapping t desired (ace_first dacl) l c Hu Hl Hd) as (c' & d' & -> & Hg).
    cbn. unfold final_access in Hg. fold g in Hg. by rewrite Hg.
Qed.

(** The whole routine, for a caller that does not ask for the privileges used or
    has room for one. *)
Lemma token_access_check_at u t p size d desired pc mapping :
  subject_at t u -> sd_at p size d -> 0 <= desired < 2 ^ 32 -> match pc with None => True | Some n => 1 <= n end ->
  exists r, token_access_check t p desired pc mapping = Some r /\
    outcome r = decision u mapping (fst (token_check_privileges t true [mk_luid_attr SeSecurityPrivilege 0])) d desired.
Proof.
  intros Hu (ol & gl & sl & dl & Hlens & _ & _ & _ & _ & _ & Ho & Hg & _ & Hd) Hr Hpc.
  unfold token_access_check, decision. destruct (has_bits desired GENERIC_RIGHTS); [by eexists|].
  rewrite (sd_get_dacl_at p _ ol gl sl dl Hlens), (sd_get_owner_at p _ ol gl sl dl Hlens),
    (sd_get_group_at p _ ol gl sl dl Hlens). cbn [mbind option_bind].
  apply member_ptr in Ho, Hg, Hd.
  destruct (d_owner d) as [o|]; [destruct Ho as [-> [Ho _]]|rewrite Ho; by eexists].
  destruct (d_group d) as [g|]; [destruct Hg as [-> _]|rewrite Hg; by eexists].
  destruct (has_bits (d_control d) SE_DACL_PRESENT); [|by eexists].
  destruct (d_dacl d) as [l|]; [destruct Hd as [-> (r & sz & Hl & _)]|rewrite Hd; by eexists].
  pose proof (given_maximum u (fst (token_check_privileges t true [mk_luid_attr SeSecurityPrivilege 0])) o desired) as Hm.
  unfold given in *. destruct (has_bits desired ACCESS_SYSTEM_SECURITY) eqn:Ha; cbn [andb] in *.
  - destruct (token_check_privileges t true _) as [held used]. cbn [fst] in *. destruct held; cbn [negb]; [|by eexists].
    pose proof (access_from_dacl_at u mapping t desired _ o _ r sz l ACCESS_SYSTEM_SECURITY Hu Ho Hl Hr Hm) as E.
    cbn beta zeta in E.
    fold (access_status (granted u mapping (Z.lor ACCESS_SYSTEM_SECURITY (if has_sid u false o then owner_rights else 0)) desired l)).
    destruct pc as [n|]; [rewrite (proj2 (Z.leb_le 1 n) Hpc)|];
      (destruct (Z.eqb_spec desired ACCESS_SYSTEM_SECURITY) as [->|_]; [|rewrite E; by eexists];
       eexists; split; [done|]; by rewrite granted_given by (by destruct (has_sid u false o))).
  - pose proof (access_from_dacl_at u mapping t desired _ o _ r sz l 0 Hu Ho Hl Hr Hm) as E. cbn beta zeta in E.
    rewrite E. by eexists.
Qed.
