(* ===== verification/TokenTheorems.v ===== *)
(** * Creating and duplicating tokens

    Copies of SIDs, groups, privileges and lists are what they were copied from;
    duplication gives the subject of the source with the filtered groups marked. *)

From Stdlib Require Import ZArith Lia Strings.Byte.
From stdpp Require Import base list numbers option gmap.
From S2P Require Import Prelude Handles Memory Security SecurityLists SecurityDescr Tokens TokenAccess.

#[local] Open Scope Z_scope.
#[local] Open Scope server_scope.

#[local] Abbreviation len s := (Z.of_nat (length s)).

(** ** Copies *)

Lemma sid_at_block s : wf_sid s -> sid_at (ptr_to (bytes s)) s.
Proof. intros H. split; [apply points_ptr_to|done]. Qed.

Lemma uspec_dup_sid p s : sid_at p s -> uspec (dup_sid p) (fun q => sid_at q s).
Proof.
  intros H. unfold dup_sid. eapply uspec_try; [by apply sid_len_at|].
  eapply uspec_weaken.
  - apply uspec_memdup. rewrite <-length_bytes. apply load_points, H.
  - intros q ->. apply sid_at_block, H.
Qed.

Lemma uspec_copy_groups gs xs :
  Forall2 group_at gs xs -> uspec (copy_groups gs) (fun gs' => Forall2 group_at gs' xs).
Proof.
  induction 1 as [|g x gs xs [Ha Hs] H IH]; cbn [copy_groups]; [by apply uspec_ret|].
  eapply uspec_bind; [by apply uspec_dup_sid|]. intros q Hq. cbn beta.
  eapply uspec_map; [exact IH|]. intros rest Hr. cbn beta. constructor; [done|exact Hr].
Qed.

(** An ACL in a block of its own, as tokens hold them. *)
Definition own_acl (p : cptr) (l : list ace) : Prop := exists revision, acl_block p revision l.

Definition dacl_ok (d : option cptr) (l : option (list ace)) : Prop :=
  match d, l with
  | None, None => True
  | Some p, Some l => own_acl p l
  | _, _ => False
  end.

Lemma acl_block_ptr p r l : acl_block p r l -> p = ptr_to (blk p).
Proof. intros (_ & Ho & _). destruct p. cbn in *. by subst. Qed.

Lemma uspec_dup_acl p l : own_acl p l -> uspec (dup_acl p) (fun q => own_acl q l).
Proof.
  intros (r & H). unfold dup_acl. pose proof (acl_at_fields p r _ l (proj1 H)) as (_ & Esz & _).
  eapply uspec_try; [done|]. eapply uspec_weaken.
  - apply (uspec_memdup p _ (blk p)). destruct H as (_ & Ho & Hl). rewrite <-Hl. apply load_points.
    exists [], []. by rewrite app_nil_r.
  - intros q ->. exists r. by rewrite <-(acl_block_ptr p r l H).
Qed.

(** ** Privileges of a new token *)

Definition priv_of (a : luid_attr) : privilege :=
  new_privilege (la_luid a) (has_bits (la_attrs a) SE_PRIVILEGE_ENABLED).

(** A routine that adds to a list and reports whether it had memory. *)
Definition addspec (m : M (list privilege * bool)) (ps : list privilege) : Prop :=
  forall e, exists r ok e', m e = ((r, ok), e') /\ (ok = true -> r = ps) /\ (allocs e = [] -> ok = true /\ e' = e).

Lemma addspec_add ps l on (k : list privilege -> M (list privilege * bool)) qs :
  addspec (k (ps ++ [new_privilege l on])) qs ->
  addspec (bind (privilege_add ps l on) (fun '(ps, ok) => if ok then k ps else ret (ps, false))) qs.
Proof.
  intros Hk e. unfold bind, privilege_add, ret. destruct (mem_alloc e) as [[] e1] eqn:E.
  - unfold bind. rewrite E. destruct (Hk e1) as (r & ok & e2 & -> & Hr & Hf). exists r, ok, e2. split_and!; [done..|].
    intros He. rewrite mem_alloc_full in E by done. injection E as <-. auto.
  - unfold bind. rewrite E. exists ps, false, e1. split_and!; [done..|]. intros He. by rewrite mem_alloc_full in E.
Qed.

Lemma addspec_ret ps : addspec (ret (ps, true)) ps.
Proof. intros e. exists ps, true, e. done. Qed.

Lemma add_privileges_spec ps privs : addspec (add_privileges ps privs) (ps ++ (priv_of <$> privs)).
Proof.
  revert ps. induction privs as [|p privs IH]; intros ps; cbn [add_privileges].
  - rewrite app_nil_r. apply addspec_ret.
  - apply (addspec_add ps _ _ (fun ps => add_privileges ps privs)). cbn [fmap list_fmap].
    specialize (IH (ps ++ [priv_of p])). rewrite <-app_assoc in IH. exact IH.
Qed.

(** The privileges that are not filtered out, enabled by default when they are
    enabled in the source. *)
Definition kept_privileges (src : list privilege) (filter : list luid_attr) : list privilege :=
  (fun p => new_privilege (priv_luid p) (enabled p)) <$> List.filter (fun p => negb (filter_privilege p filter)) src.

Lemma duplicate_privileges_spec ps src filter :
  addspec (duplicate_privileges ps src filter) (ps ++ kept_privileges src filter).
Proof.
  revert ps. induction src as [|p src IH]; intros ps; cbn [duplicate_privileges].
  - rewrite app_nil_r. apply addspec_ret.
  - unfold kept_privileges. cbn [List.filter]. destruct (filter_privilege p filter); cbn [negb]; [apply IH|].
    apply (addspec_add ps _ _ (fun ps => duplicate_privileges ps src filter)). cbn [fmap list_fmap].
    specialize (IH (ps ++ [new_privilege (priv_luid p) (enabled p)])). rewrite <-app_assoc in IH. exact IH.
Qed.

(** ** Groups *)

(** SIDs one after the other. *)
Definition sids_at (p : cptr) (l : list (list byte)) : Prop := points p (bytes (concat l)) /\ Forall wf_sid l.

Lemma sids_at_cons p s l : sids_at p (s :: l) <-> sid_at p s /\ sids_at (p +! len s) l.
Proof.
  unfold sids_at, sid_at. cbn [concat]. rewrite bytes_app, points_app, length_bytes, list.Forall_cons. tauto.
Qed.

Lemma filter_group_at g x p l :
  group_at g x -> sids_at p l -> filter_group g p (length l) = Some (bool_decide (snd x ∈ l)).
Proof.
  intros [_ Hg]. revert p. induction l as [|s l IH]; intros p H.
  - cbn. rewrite bool_decide_eq_false_2; [done|]. apply not_elem_of_nil.
  - apply sids_at_cons in H as [Hs Hl]. cbn [filter_group length]. rewrite (equal_sid_at _ _ _ _ Hg Hs). cbn [mbind option_bind].
    destruct (bool_decide_reflect (snd x = s)) as [->|Hne].
    + rewrite bool_decide_eq_true_2; [done|]. apply list_elem_of_here.
    + rewrite (sid_len_at p s Hs). cbn [mbind option_bind]. rewrite (IH _ Hl). f_equal. apply bool_decide_ext.
      rewrite elem_of_cons. tauto.
Qed.

(** The subject of a filtered token. *)
Definition restrict_group (removed : list (list byte)) (x : Z * list byte) : Z * list byte :=
  (if bool_decide (snd x ∈ removed) then deny_only (fst x) else fst x, snd x).

Definition restrict (removed : list (list byte)) (u : subject) : subject :=
  mk_subject (s_user u) (restrict_group removed <$> s_groups u).

Lemma uspec_duplicate_groups gs xs p removed :
  Forall2 group_at gs xs -> sids_at p removed ->
  uspec (duplicate_groups gs p (length removed)) (fun gs' => Forall2 group_at gs' (restrict_group removed <$> xs)).
Proof.
  intros H Hp. induction H as [|g x gs xs Hg H IH]; cbn [duplicate_groups]; [by apply uspec_ret|].
  eapply uspec_bind; [apply uspec_dup_sid, Hg|]. intros q Hq. cbn beta.
  eapply uspec_try; [by apply filter_group_at|].
  eapply uspec_map; [exact IH|]. intros rest Hr. cbn beta. constructor; [|exact Hr].
  destruct Hg as [Ha _]. split; [|done]. cbn. by rewrite Ha.
Qed.

(** ** Tokens *)

(** A token that the code can work with: its SIDs and lists can be read, and the
    pointers to its groups lead to one. *)
Record token_ok (t : token) (u : subject) (l : option (list ace)) : Prop := mk_token_ok {
  tok_subject : subject_at t u;
  tok_owner : owner t = primary_group t;
  tok_group : exists i, primary_group t = Some i /\ (i < length (groups t))%nat;
  tok_dacl : dacl_ok (default_dacl t) l
}.

Lemma fill_token_spec t privs d l :
  dacl_ok d l -> default_dacl t = None ->
  uspec (fill_token t privs d) (fun t' => exists d', dacl_ok d' l /\
    t' = set_default_dacl (set_privileges t (priv_of <$> privs)) d').
Proof.
  intros Hd Hn e. unfold fill_token, ubind, lift. destruct (add_privileges_spec [] privs e) as (ps & ok & e1 & -> & Hps & Hf).
  destruct ok; cbn [negb].
  - rewrite (Hps eq_refl). cbn [app] in *. destruct d as [p|], l as [l|]; try done; cbn in Hd.
    + destruct (uspec_dup_acl p l Hd e1) as (r & e2 & E & Hr & He). unfold ubind, uret. rewrite E.
      destruct r as [q|]; eexists _, e2; split_and!; try done.
      * by exists (Some q).
      * intros H. destruct (Hf H) as [_ ->]. by destruct (He H).
      * intros H. destruct (Hf H) as [_ ->]. by destruct (He H).
    + eexists _, e1. split; [done|]. split; [|intros H; by destruct (Hf H)].
      exists None. split; [done|]. destruct t. cbn in *. by subst.
  - exists None, e1. split_and!; [done..|]. intros H. by destruct (Hf H).
Qed.

(** ** Creation and duplication *)

(** Whatever the allocator answers, the routine is defined: it gives a new object
    in a state that satisfies [Q], or a null pointer in a state that satisfies
    [F]; the latter only when memory runs out. *)
Definition tspec (m : U (option Z * tstate)) (addr : Z) (Q F : tstate -> Prop) : Prop :=
  forall e, exists r s' e', m e = Some ((r, s'), e') /\
    match r with Some a => a = addr /\ Q s' | None => F s' end /\ (allocs e = [] -> r <> None /\ e' = e).

Lemma tspec_ret addr s (Q F : tstate -> Prop) : Q s -> tspec (uret (Some addr, s)) addr Q F.
Proof. intros H e. exists (Some addr), s, e. done. Qed.

Lemma tspec_bind {A} (m : U (option A)) (k : A -> U (option Z * tstate)) P addr s0 (Q F : tstate -> Prop) :
  uspec m P -> F s0 -> (forall a, P a -> tspec (k a) addr Q F) ->
  tspec (ubind m (fun r => match r with None => uret (None, s0) | Some a => k a end)) addr Q F.
Proof.
  intros Hm HF Hk e. destruct (Hm e) as (r & e1 & E & HP & Hf). unfold ubind. rewrite E. destruct r as [a|].
  - destruct (Hk a HP e1) as (r & s' & e2 & E2 & HQ & Hf2). exists r, s', e2. split_and!; [done..|].
    intros He. destruct (Hf He) as [_ ->]. auto.
  - exists None, s0, e1. split_and!; [done..|]. intros He. by destruct (Hf He).
Qed.

(** Nothing but the world of objects and the ids may differ. *)
Definition same_tokens (s s' : tstate) : Prop :=
  tokens s' = tokens s /\ sds s' = sds s /\ thread_token s' = thread_token s /\ process_token s' = process_token s /\
  objects (wld s') = objects (wld s) /\ handles (wld s') = handles (wld s).

(** A new object and its token. *)
Definition new_token (s s' : tstate) (token_ops addr : Z) (t : token) : Prop :=
  tokens s' = <[addr := t]> (tokens s) /\ sds s' = sds s /\ thread_token s' = thread_token s /\
  process_token s' = process_token s /\
  objects (wld s') = <[addr := mk_obj token_ops 1 0]> (objects (wld s)) /\ handles (wld s') = handles (wld s).

(** The address is not in use. *)
Definition unused (s : tstate) (addr : Z) : Prop :=
  objects (wld s) !! addr = None /\ tokens s !! addr = None /\ sds s !! addr = None.

Lemma alloc_object_run w addr ops e :
  alloc_object w addr ops e =
    let '(ok, e') := mem_alloc e in
    (if ok then Some (set_objects w (<[addr := mk_obj ops 1 0]> (objects w))) else None, e').
Proof. unfold alloc_object, bind, ret. by destruct (mem_alloc e) as [[] e']. Qed.

(** Releasing the only reference to an object removes it. *)
Lemma release_last s addr ops h :
  objects (wld s) !! addr = Some (mk_obj ops 1 h) ->
  release s addr =
    mk_ts (mk_world (delete addr (objects (wld s))) (dead (wld s) ++ [addr]) (handles (wld s)) (global_table (wld s)))
      (delete addr (tokens s)) (delete addr (sds s)) (prev_luid_value s) (thread_token s) (process_token s).
Proof.
  intros E. unfold release. assert (release_object (wld s) addr =
    mk_world (delete addr (objects (wld s))) (dead (wld s) ++ [addr]) (handles (wld s)) (global_table (wld s))) as ->.
  { unfold release_object. rewrite E. done. }
  cbn [objects]. by rewrite lookup_delete_eq.
Qed.

(** For a new object that undoes its creation. *)
Lemma release_new s s' token_ops addr :
  unused s addr -> objects (wld s') = <[addr := mk_obj token_ops 1 0]> (objects (wld s)) ->
  delete addr (tokens s') = delete addr (tokens s) -> sds s' = sds s -> thread_token s' = thread_token s ->
  process_token s' = process_token s -> handles (wld s') = handles (wld s) -> same_tokens s (release s' addr).
Proof.
  intros (Hw & Ht & Hd) E1 E2 E3 E4 E5 E6. rewrite (release_last s' addr token_ops 0) by (by rewrite E1, lookup_insert_eq).
  unfold same_tokens. cbn [tokens sds thread_token process_token wld objects handles].
  by rewrite E1, E2, E3, delete_insert_id, !delete_id.
Qed.

Lemma uspec_alloc s addr ops :
  uspec (lift (alloc_object (wld s) addr ops))
    (fun w => w = set_objects (wld s) (<[addr := mk_obj ops 1 0]> (objects (wld s)))).
Proof.
  intros e. unfold lift. rewrite alloc_object_run. destruct (mem_alloc e) as [[] e'] eqn:E.
  - eexists _, e'. split_and!; [done..|]. intros He. rewrite mem_alloc_full in E by done. by injection E as <-.
  - exists None, e'. split_and!; [done..|]. intros He. by rewrite mem_alloc_full in E.
Qed.

Lemma create_token_spec token_ops addr s prim session usr u gs xs privs d l modified pg level elev :
  unused s addr -> sid_at usr u -> Forall2 group_at gs xs -> dacl_ok d l ->
  tspec (create_token token_ops addr s prim session usr gs privs d modified pg level elev) addr
    (fun s' => exists t, new_token s s' token_ops addr t /\ subject_at t (mk_subject u xs) /\
       dacl_ok (default_dacl t) l /\ privileges t = priv_of <$> privs /\
       owner t = group_index pg (length gs) /\ primary_group t = group_index pg (length gs) /\
       token_id t = fst (allocate_luid s) /\ (forall m, modified = Some m -> modified_id t = m) /\
       primary t = prim /\ session_id t = session /\ elevation t = elev /\
       impersonation_level t = (if negb (prim =? 0) then -1 else level))
    (same_tokens s).
Proof.
  intros Hf Hu Hg Hd. unfold create_token.
  eapply tspec_bind; [apply uspec_alloc|done|]. intros w ->. cbn [allocate_luid fst].
  set (s1 := match modified with Some m => _ | None => _ end).
  assert (exists mid prev, s1 = (mid, mk_ts (set_objects (wld s) (<[addr := mk_obj token_ops 1 0]> (objects (wld s))))
            (tokens s) (sds s) prev (thread_token s) (process_token s)) /\ forall m, modified = Some m -> mid = m)
    as (mid & prev & -> & Hmid).
  { subst s1. destruct modified as [m|]; do 2 eexists; split; try done. by intros ? [= ->]. }
  set (s2 := mk_ts _ _ _ _ _ _).
  assert (forall t, new_token s (set_tokens s2 (<[addr := t]> (tokens s))) token_ops addr t) as Hnew by done.
  assert (same_tokens s (release s2 addr)) as Hfail.
  { by apply (release_new s s2 token_ops). }
  eapply tspec_bind; [by apply uspec_dup_sid|done|]. intros uq Huq. cbn beta.
  eapply tspec_bind; [by apply uspec_copy_groups|done|]. intros gs' Hgs'. cbn beta.
  assert (length gs' = length gs) as Hlen.
  { by rewrite (Forall2_length _ _ _ Hgs'), (Forall2_length _ _ _ Hg). }
  eapply tspec_bind; [by apply fill_token_spec|done|]. intros t (d' & Hd' & ->). apply tspec_ret.
  eexists. split; [apply Hnew|]. cbn. rewrite Hlen. split_and!; done.
Qed.

(** A new token for the restricted subject, with the privileges that are kept. *)
Definition duplicated (s : tstate) (token_ops addr : Z) (src : token) (u : subject) (l : option (list ace))
    (prim level : Z) (privs : list luid_attr) (removed : list (list byte)) (s' : tstate) : Prop :=
  exists t, new_token s s' token_ops addr t /\ token_ok t (restrict removed u) l /\
    privileges t = kept_privileges (privileges src) privs /\ primary_group t = primary_group src /\
    token_id t = fst (allocate_luid s) /\ primary t = prim /\ session_id t = session_id src /\
    elevation t = elevation src /\ impersonation_level t = (if negb (prim =? 0) then -1 else level) /\
    (prim <> 0 \/ level = impersonation_level src -> modified_id t = modified_id src).

(** Duplicating a token without a descriptor of its own. *)
Lemma token_duplicate_spec token_ops addr s tok src u l prim level privs p removed :
  unused s addr -> token_ok src u l -> bad_level src prim level = false -> sids_at p removed ->
  tspec (token_duplicate token_ops addr s tok src prim level None privs p (length removed)) addr
    (duplicated s token_ops addr src u l prim level privs removed)
    (same_tokens s).
Proof.
  intros Hf [Hs Ho (i & Hi & Hlt) Hd] Hb Hp e. unfold token_duplicate. rewrite Hb.
  set (md := if negb (prim =? 0) || _ then _ else _).
  destruct (create_token_spec token_ops addr s prim (session_id src) (user src) (s_user u) [] [] [] (default_dacl src) l md
              0 level (elevation src) Hf (proj1 Hs) (List.Forall2_nil _) Hd e) as (r & s1 & e1 & E & Hr & He).
  unfold ubind at 1. rewrite E. cbn [fst snd]. destruct r as [a|]; [|by exists None, s1, e1].
  destruct Hr as [-> (t & Hnew & Hst & Hdt & Hpt & _ & _ & Hid & Hmid & Hpr & Hse & Hel & Hlv)].
  pose proof Hnew as (Etok & Esd & Eth & Epr & Eob & Eha). unfold ubind at 1, try at 1. rewrite Etok, lookup_insert_eq.
  assert (same_tokens s (release s1 addr)) as Hfail.
  { apply (release_new s s1 token_ops); try done. rewrite Etok. by rewrite delete_insert_eq. }
  assert (tspec (let? gs := duplicate_groups (groups src) p (length removed) in
                 match gs with None => uret (None, release s1 addr) | Some gs =>
                   let? main := try (primary_group src) in
                   let? (ps, ok) := lift (duplicate_privileges (privileges t) (privileges src) privs) in
                   if negb ok then uret (None, release s1 addr)
                   else uret (Some addr, set_tokens s1 (<[addr := set_privileges (set_groups t gs (Some main)) ps]> (tokens s1)))
                 end) addr
    (duplicated s token_ops addr src u l prim level privs removed)
    (same_tokens s)) as Hrest.
  { eapply tspec_bind; [apply uspec_duplicate_groups; [apply Hs|done]|done|]. intros gs Hgs. cbn beta.
    rewrite Hi. intros e2. unfold ubind, try, lift.
    destruct (duplicate_privileges_spec (privileges t) (privileges src) privs e2) as (ps & ok & e3 & -> & Hps & Hok).
    destruct ok; cbn [negb].
    - do 3 eexists. split; [done|]. split; [|intros H; by destruct (Hok H)].
      split; [done|]. eexists. split; [split; [by cbn [set_tokens tokens]; rewrite Etok, insert_insert_eq|done]|].
      rewrite (Hps eq_refl), Hpt. cbn. split_and!; try done.
      + split; cbn; try done.
        * split; [apply Hst|exact Hgs].
        * exists i. split; [done|]. apply Forall2_length in Hgs. destruct Hs as [_ Hs]. apply Forall2_length in Hs.
          rewrite length_fmap in Hgs. lia.
      + intros H. apply Hmid. subst md. destruct (Z.eqb_spec prim 0); cbn [negb orb]; [|done].
        destruct H as [H|H]; [done|]. by rewrite (proj2 (Z.eqb_eq _ _) H).
    - exists None. do 2 eexists. split; [done|]. split; [done|]. intros H. by destruct (Hok H). }
  destruct (Hrest e1) as (r & s' & e2 & E2 & HQ & Hf2). exists r, s', e2. split; [|split; [exact HQ|]].
  - rewrite Etok in E2. exact E2.
  - intros H. destruct (He H) as [_ ->]. auto.
Qed.
