(* ===== verification/TokenRestrict.v ===== *)
(** * Privileges and restrictions of tokens

    Adjusting privileges, and how decisions for a filtered token compare with those for
    the token it was made from. *)

From Stdlib Require Import ZArith Lia Strings.Byte.
From stdpp Require Import base list numbers option gmap.
From S2P Require Import Prelude Handles Memory Security SecurityLists SecurityDescr Tokens TokenAccess TokenTheorems.

#[local] Open Scope Z_scope.
#[local] Open Scope server_scope.

(** * Privileges of a token

    A list of privileges without duplicates stands for a map from ids to whether
    the privilege is enabled.  Adjusting is a sequence of updates of the map, and
    the states it returns undo it. *)

(** ** The map *)

Lemma is_equal_luid_spec a b : is_equal_luid a b = bool_decide (a = b).
Proof.
  destruct a as [l h], b as [l' h']. unfold is_equal_luid. cbn.
  destruct (Z.eqb_spec l l'), (Z.eqb_spec h h'); cbn; symmetry;
    [apply bool_decide_eq_true_2|apply bool_decide_eq_false_2..]; congruence.
Qed.

(** Whether the first privilege with an id is enabled; [None] if there is none. *)
Fixpoint held (ps : list privilege) (l : luid) : option bool :=
  match ps with
  | [] => None
  | p :: ps => if decide (priv_luid p = l) then Some (enabled p) else held ps l
  end.

Definition luids (ps : list privilege) : list luid := priv_luid <$> ps.

(** What token_find_privilege finds. *)
Lemma find_privilege_spec k ps l :
  match find_privilege k ps l false with
  | None => held ps l = None /\ l ∉ luids ps
  | Some j => exists i p, j = (k + i)%nat /\ ps !! i = Some p /\ priv_luid p = l /\ held ps l = Some (enabled p) /\
                          (forall n q, (n < i)%nat -> ps !! n = Some q -> priv_luid q <> l)
  end.
Proof.
  revert k. induction ps as [|p ps IH]; intros k; cbn [find_privilege held luids].
  - split; [done|]. apply not_elem_of_nil.
  - rewrite is_equal_luid_spec. cbn [andb]. destruct (decide (priv_luid p = l)) as [E|E].
    + rewrite bool_decide_eq_true_2 by done. exists 0%nat, p. split_and!; try done. lia.
    + rewrite bool_decide_eq_false_2 by congruence. specialize (IH (S k)). destruct (find_privilege (S k) ps l false).
      * destruct IH as (i & q & -> & Hq & El & Hh & Hm). exists (S i), q. split_and!; try done; [lia|].
        intros [|n] r Hn Hr; [by injection Hr as <-|]. apply (Hm n r); [lia|done].
      * destruct IH as [Hh Hn]. split; [done|]. unfold luids in *. rewrite fmap_cons, not_elem_of_cons. split; [congruence|done].
Qed.

Lemma find_privilege_enabled k ps l :
  find_privilege k ps l true = match held ps l with Some true => find_privilege k ps l false | _ => None end.
Proof.
  revert k. induction ps as [|p ps IH]; intros k; cbn [find_privilege held]; [done|].
  rewrite is_equal_luid_spec. destruct (decide (priv_luid p = l)) as [E|E].
  - rewrite bool_decide_eq_true_2 by done. by destruct (enabled p).
  - rewrite bool_decide_eq_false_2 by congruence. apply IH.
Qed.

(** Removing and setting the privilege at the position that was found. *)
Lemma held_delete ps i p l :
  NoDup (luids ps) -> ps !! i = Some p ->
  held (delete i ps) l = (if decide (l = priv_luid p) then None else held ps l) /\ NoDup (luids (delete i ps)).
Proof.
  revert i. induction ps as [|q ps IH]; intros i Hn Hi; [done|]. unfold luids in *. rewrite fmap_cons in Hn.
  apply list.NoDup_cons in Hn as [Hq Hn]. destruct i as [|i].
  - injection Hi as ->. cbn [delete list_delete]. split; [|done]. cbn [held].
    destruct (decide (l = priv_luid p)) as [->|Hne]; [|by rewrite decide_False].
    pose proof (find_privilege_spec 0 ps (priv_luid p)) as H. destruct (find_privilege 0 ps (priv_luid p) false).
    + destruct H as (j & r & _ & Hr & El & _). destruct Hq. rewrite <-El.
      apply list_elem_of_fmap. exists r. split; [done|]. by eapply list_elem_of_lookup_2.
    + by destruct H.
  - cbn in Hi. destruct (IH i Hn Hi) as [E Hn']. change (delete (S i) (q :: ps)) with (q :: delete i ps).
    rewrite fmap_cons. cbn [held]. split.
    + rewrite E. destruct (decide (priv_luid q = l)) as [<-|]; [|done].
      rewrite decide_False; [done|]. intros Hx. destruct Hq. rewrite Hx. apply list_elem_of_fmap. exists p. split; [done|].
      by eapply list_elem_of_lookup_2.
    + apply list.NoDup_cons. split; [|done]. intros Hin. destruct Hq.
      apply list_elem_of_fmap in Hin as (r & -> & Hr). apply list_elem_of_fmap. exists r. split; [done|].
      apply list_elem_of_lookup in Hr as (n & Hr). destruct (decide (n < i)%nat).
      * rewrite list_lookup_delete_lt in Hr by done. by eapply list_elem_of_lookup_2.
      * rewrite list_lookup_delete_ge in Hr by lia. by eapply list_elem_of_lookup_2.
Qed.

Lemma luids_alter on i ps : luids (alter (set_enabled on) i ps) = luids ps.
Proof.
  unfold luids. revert i. induction ps as [|p ps IH]; intros [|i]; try done. cbn. f_equal. apply IH.
Qed.

Lemma held_alter ps i p on l :
  NoDup (luids ps) -> ps !! i = Some p ->
  held (alter (set_enabled on) i ps) l = if decide (l = priv_luid p) then Some on else held ps l.
Proof.
  revert i. induction ps as [|q ps IH]; intros i Hn Hi; [done|]. unfold luids in *. rewrite fmap_cons in Hn.
  apply list.NoDup_cons in Hn as [Hq Hn]. destruct i as [|i].
  - injection Hi as ->. cbn. destruct (decide (priv_luid p = l)) as [<-|]; [by rewrite decide_True|by rewrite decide_False].
  - cbn in Hi |- *. rewrite (IH i Hn Hi). destruct (decide (priv_luid q = l)) as [<-|]; [|done].
    rewrite decide_False; [done|]. intros Hx. destruct Hq. rewrite Hx. apply list_elem_of_fmap. exists p. split; [done|].
    by eapply list_elem_of_lookup_2.
Qed.

(** ** Adjusting *)

(** One request on the map. *)
Definition adjust_one (h : luid -> option bool) (r : luid_attr) (l : luid) : option bool :=
  if decide (l = la_luid r) then
    match h l with
    | None => None
    | Some _ => if has_bits (la_attrs r) SE_PRIVILEGE_REMOVED then None
                else Some (has_bits (la_attrs r) SE_PRIVILEGE_ENABLED)
    end
  else h l.

Definition adjusted (h : luid -> option bool) (req : list luid_attr) : luid -> option bool := foldl adjust_one h req.

(** Every request was for a privilege that was there. *)
Fixpoint all_assigned (h : luid -> option bool) (req : list luid_attr) : bool :=
  match req with
  | [] => true
  | r :: req => match h (la_luid r) with None => false | Some _ => true end && all_assigned (adjust_one h r) req
  end.

Lemma adjusted_ext h h' req : (forall l, h l = h' l) -> forall l, adjusted h req l = adjusted h' req l.
Proof.
  revert h h'. induction req as [|r req IH]; intros h h' H l; [done|]. cbn. apply IH. intros k. unfold adjust_one.
  by rewrite !H.
Qed.

Lemma all_assigned_ext h h' req : (forall l, h l = h' l) -> all_assigned h req = all_assigned h' req.
Proof.
  revert h h'. induction req as [|r req IH]; intros h h' H; [done|]. cbn. rewrite H. f_equal. apply IH. intros k.
  unfold adjust_one. by rewrite !H.
Qed.

(** Only the privileges of a token differ. *)
Definition only_privileges (t t' : token) : Prop := t' = set_privileges t (privileges t').

Lemma adjust_loop_spec req t room e :
  NoDup (luids (privileges t)) ->
  exists t' mods e', adjust_loop req t room e = ((t', mods), e') /\
    only_privileges t t' /\ NoDup (luids (privileges t')) /\
    (forall l, held (privileges t') l = adjusted (held (privileges t)) req l) /\
    allocs e' = allocs e /\
    error e' = (if all_assigned (held (privileges t)) req then error e else STATUS_NOT_ALL_ASSIGNED).
Proof.
  revert t room e. induction req as [|r req IH]; intros t room e Hn; cbn [adjust_loop].
  - exists t, [], e. split_and!; try done. unfold only_privileges. by destruct t.
  - unfold token_find_privilege. pose proof (find_privilege_spec 0 (privileges t) (la_luid r)) as Hf.
    destruct (find_privilege 0 (privileges t) (la_luid r) false) as [i|].
    + destruct Hf as (j & p & -> & Hp & El & Hh & _). cbn [Nat.add].
      assert (forall t1 rm, NoDup (luids (privileges t1)) -> (exists ps, t1 = set_privileges t ps) ->
                (forall l, held (privileges t1) l = adjust_one (held (privileges t)) r l) ->
                exists t' mods e', adjust_loop req t1 rm e = ((t', mods), e') /\
                  only_privileges t t' /\ NoDup (luids (privileges t')) /\
                  (forall l, held (privileges t') l = adjusted (held (privileges t)) (r :: req) l) /\
                  allocs e' = allocs e /\
                  error e' = (if all_assigned (held (privileges t)) (r :: req) then error e else STATUS_NOT_ALL_ASSIGNED))
        as Hgo.
      { intros t1 rm Hn1 (ps & ->) Hh1. destruct (IH _ rm e Hn1) as (t' & mods & e' & E & Ho & Hn' & Hh' & Ha & He).
        exists t', mods, e'. split_and!; try done.
        - intros l. rewrite Hh'. cbn. by apply adjusted_ext.
        - rewrite He. cbn. rewrite Hh. cbn. by rewrite (all_assigned_ext _ _ _ Hh1). }
      destruct (has_bits (la_attrs r) SE_PRIVILEGE_REMOVED) eqn:Hr.
      * pose proof (fun l => held_delete _ _ _ l Hn Hp) as Hd. apply Hgo; [apply (Hd (la_luid r))|by eexists|].
        intros l. cbn [privileges set_privileges]. rewrite (proj1 (Hd l)). unfold adjust_one. rewrite El, Hr. destruct (decide (l = la_luid r)) as [->|]; [|done].
        by rewrite Hh.
      * destruct (Hgo (set_privileges t (alter (set_enabled (has_bits (la_attrs r) SE_PRIVILEGE_ENABLED)) j (privileges t)))
                    (if room =? 0 then room else room - 1)) as (t' & mods & e' & E & H).
        { cbn. by rewrite luids_alter. }
        { by eexists. }
        { intros l. cbn. rewrite (held_alter _ _ p) by done. unfold adjust_one. rewrite El, Hr.
          destruct (decide (l = la_luid r)) as [->|]; [|done]. by rewrite Hh. }
        destruct (room =? 0); cbn [negb]; [by exists t', mods, e'|].
        unfold bind. rewrite E. rewrite Hp. by exists t', (luid_and_attr_from_privilege p :: mods), e'.
    + destruct Hf as [Hh _]. unfold bind, set_error.
      destruct (IH t room (mk_senv STATUS_NOT_ALL_ASSIGNED (allocs e)) Hn) as (t' & mods & e' & E & Ho & Hn' & Hh' & Ha & He).
      exists t', mods, e'. split_and!; try done.
      * intros l. rewrite Hh'. cbn. apply adjusted_ext. intros k. unfold adjust_one.
        destruct (decide (k = la_luid r)) as [->|]; [|done]. by rewrite Hh.
      * rewrite He. cbn. rewrite Hh. cbn. by destruct (all_assigned _ _).
Qed.

(** ** Restoring *)

(** A returned state that says what [h] says. *)
Definition state_of (h : luid -> option bool) (m : luid_attr) : Prop :=
  h (la_luid m) = Some (has_bits (la_attrs m) SE_PRIVILEGE_ENABLED) /\
  has_bits (la_attrs m) SE_PRIVILEGE_REMOVED = false.

Lemma state_of_privilege h p : h (priv_luid p) = Some (enabled p) -> state_of h (luid_and_attr_from_privilege p).
Proof. intros E. unfold state_of. cbn. rewrite E. by destruct (enabled p), (def p). Qed.

Definition ids (req : list luid_attr) : list luid := la_luid <$> req.

Lemma adjusted_other h req l : l ∉ ids req -> adjusted h req l = h l.
Proof.
  revert h. induction req as [|r req IH]; intros h Hl; [done|]. unfold ids in *. rewrite fmap_cons, not_elem_of_cons in Hl.
  destruct Hl as [Hne Hl]. cbn. rewrite IH by done. unfold adjust_one. by rewrite decide_False.
Qed.

(** Setting the states of [mods] turns any map with the same ids that differs only
    there into [h]. *)
Lemma adjusted_restores h h' mods :
  Forall (state_of h) mods -> (forall l, is_Some (h' l) <-> is_Some (h l)) ->
  (forall l, l ∉ ids mods -> h' l = h l) -> forall l, adjusted h' mods l = h l.
Proof.
  revert h'. induction mods as [|m mods IH]; intros h' Hm Hd He l.
  - apply He, not_elem_of_nil.
  - apply list.Forall_cons in Hm as [[Hs Hr] Hm].
    assert (forall k, adjust_one h' m k = if decide (k = la_luid m) then h k else h' k) as Ha.
    { intros k. unfold adjust_one. rewrite Hr. destruct (decide (k = la_luid m)) as [->|]; [|done].
      rewrite Hs. destruct (h' (la_luid m)) eqn:E; [done|].
      destruct (proj2 (Hd (la_luid m))) as [b Hb]; [by eexists|congruence]. }
    cbn. rewrite (adjusted_ext _ (fun k => if decide (k = la_luid m) then h k else h' k)) by done. apply IH; [done| |].
    + intros k. destruct (decide (k = la_luid m)); [done|apply Hd].
    + intros k Hk. destruct (decide (k = la_luid m)) as [|Hne]; [done|]. apply He. unfold ids in *.
      rewrite fmap_cons, not_elem_of_cons. done.
Qed.

Lemma adjusted_domain h req :
  Forall (fun r => has_bits (la_attrs r) SE_PRIVILEGE_REMOVED = false) req ->
  forall l, is_Some (adjusted h req l) <-> is_Some (h l).
Proof.
  intros Hr. revert h. induction Hr as [|r req Hr H IH]; intros h l; [done|]. cbn. rewrite IH. unfold adjust_one. rewrite Hr.
  destruct (decide (l = la_luid r)) as [->|]; [|done]. destruct (h (la_luid r)); split; intros [? ?]; by eexists || done.
Qed.

(** The states returned are those before the call, for every request that is met. *)
Lemma adjust_loop_mods h req t room e :
  NoDup (luids (privileges t)) -> NoDup (ids req) ->
  Forall (fun r => has_bits (la_attrs r) SE_PRIVILEGE_REMOVED = false) req -> Z.of_nat (length req) <= room ->
  (forall l, l ∈ ids req -> held (privileges t) l = h l) ->
  exists t' mods e', adjust_loop req t room e = ((t', mods), e') /\ Forall (state_of h) mods /\
    (forall l, l ∈ ids req -> is_Some (h l) -> l ∈ ids mods).
Proof.
  intros Hn Hi Hr. revert t room e Hn Hi. induction Hr as [|r req Hr H IH]; intros t room e Hn Hi Hroom Hh; cbn [adjust_loop].
  - exists t, [], e. split_and!; done.
  - unfold ids in *. rewrite fmap_cons in Hi, Hh. apply list.NoDup_cons in Hi as [Hni Hi]. cbn [length] in Hroom.
    assert (held (privileges t) (la_luid r) = h (la_luid r)) as Hhr by (apply Hh, elem_of_cons; by left).
    unfold token_find_privilege. pose proof (find_privilege_spec 0 (privileges t) (la_luid r)) as Hf.
    destruct (find_privilege 0 (privileges t) (la_luid r) false) as [i|].
    + destruct Hf as (j & p & -> & Hp & El & Hhp & _). cbn [Nat.add]. rewrite Hr, (proj2 (Z.eqb_neq room 0)) by lia. cbn [negb].
      destruct (IH (set_privileges t (alter (set_enabled (has_bits (la_attrs r) SE_PRIVILEGE_ENABLED)) j (privileges t)))
                  (room - 1) e) as (t' & mods & e' & E & Hm & Hc); [cbn; by rewrite luids_alter|done|lia| |].
      { intros l Hl. cbn [privileges set_privileges]. rewrite (held_alter _ _ p) by done.
        rewrite decide_False by congruence. apply Hh, elem_of_cons. by right. }
      unfold bind. rewrite E, Hp. exists t', (luid_and_attr_from_privilege p :: mods), e'. split_and!; [done| |].
      * constructor; [|done]. apply state_of_privilege. by rewrite El, <-Hhr.
      * intros l Hl Hs. rewrite fmap_cons. apply elem_of_cons in Hl as [->|Hl]; apply elem_of_cons; [left|right; auto].
        cbn. by rewrite El.
    + destruct Hf as [Hnone _]. unfold bind, set_error.
      destruct (IH t room (mk_senv STATUS_NOT_ALL_ASSIGNED (allocs e))) as (t' & mods & e' & E & Hm & Hc); try done; [lia| |].
      { intros l Hl. apply Hh, elem_of_cons. by right. }
      exists t', mods, e'. split_and!; try done. intros l Hl Hs. apply elem_of_cons in Hl as [->|Hl]; [|auto].
      rewrite <-Hhr, Hnone in Hs. by destruct Hs.
Qed.

(** ** Checking *)

Lemma check_loop_spec t req :
  let '(n, used) := check_loop t req in
  n = Z.of_nat (length (List.filter (fun r => bool_decide (held (privileges t) (la_luid r) = Some true)) req)) /\
  used = (fun r => if bool_decide (held (privileges t) (la_luid r) = Some true)
                   then mk_luid_attr (la_luid r) (Z.lor (la_attrs r) SE_PRIVILEGE_USED_FOR_ACCESS) else r) <$> req.
Proof.
  induction req as [|r req IH]; [done|]. cbn [check_loop List.filter]. rewrite fmap_cons.
  destruct (check_loop t req) as [n used]. destruct IH as [-> ->].
  unfold token_find_privilege. rewrite find_privilege_enabled.
  pose proof (find_privilege_spec 0 (privileges t) (la_luid r)) as Hf.
  destruct (held (privileges t) (la_luid r)) as [[]|] eqn:Eh.
  - rewrite bool_decide_eq_true_2 by done. destruct (find_privilege 0 (privileges t) (la_luid r) false) as [i|].
    + destruct Hf as (j & p & -> & Hp & El & Hhp & _). cbn [Nat.add mbind option_bind]. rewrite Hp.
      injection Hhp as <-. cbn [length]. split; [lia|done].
    + by destruct Hf.
  - by rewrite bool_decide_eq_false_2.
  - by rewrite bool_decide_eq_false_2.
Qed.

Lemma filter_all {A} (f : A -> bool) l :
  (length (List.filter f l) = length l <-> Forall (fun x => f x = true) l) /\
  ((0 < length (List.filter f l))%nat <-> Exists (fun x => f x = true) l).
Proof.
  induction l as [|x l [IH1 IH2]]; cbn; [rewrite list.Forall_nil, Exists_nil; split; [done|split; [lia|done]]|].
  rewrite list.Forall_cons, Exists_cons. pose proof (List.filter_length_le f l).
  destruct (f x); cbn [length].
  - split; [rewrite <-IH1; split; [intros; split; [done|lia]|lia]|split; [by left|lia]].
  - split; [split; [lia|by intros [? _]]|rewrite IH2; split; [by right|by intros [?|?]]].
Qed.

(** ** The three operations *)

Lemma adjust_privileges_spec s addr t req room e :
  NoDup (luids (privileges t)) ->
  exists s' mods e' t', token_adjust_privileges s addr t req room e = ((s', mods), e') /\
    tokens s' = <[addr := t']> (tokens s) /\ wld s' = wld s /\ sds s' = sds s /\
    t' = set_privileges (set_modified t (fst (allocate_luid s))) (privileges t') /\
    NoDup (luids (privileges t')) /\
    (forall l, held (privileges t') l = adjusted (held (privileges t)) req l) /\
    error e' = (if all_assigned (held (privileges t)) req then error e else STATUS_NOT_ALL_ASSIGNED) /\
    (NoDup (ids req) -> Forall (fun r => has_bits (la_attrs r) SE_PRIVILEGE_REMOVED = false) req ->
     Z.of_nat (length req) <= room ->
     forall room' e2, exists s2 mods2 e2' t2, token_adjust_privileges s' addr t' mods room' e2 = ((s2, mods2), e2') /\
       tokens s2 !! addr = Some t2 /\ forall l, held (privileges t2) l = held (privileges t) l).
Proof.
  intros Hn. unfold token_adjust_privileges at 1. cbn [allocate_luid fst].
  set (t1 := set_modified t _).
  destruct (adjust_loop_spec req t1 room e Hn) as (t' & mods & e' & E & Ho & Hn' & Hh & _ & He).
  unfold bind, ret. rewrite E. eexists _, mods, e', t'. split; [done|]. split_and!; try done.
  intros Hi Hr Hroom room' e2.
  destruct (adjust_loop_mods (held (privileges t)) req t1 room e Hn Hi Hr Hroom) as (t'' & mods' & e'' & E' & Hm & Hc); [done|].
  assert (mods' = mods) as -> by congruence.
  unfold token_adjust_privileges. cbn [allocate_luid]. set (t3 := set_modified t' _).
  destruct (adjust_loop_spec mods t3 room' e2 Hn') as (t4 & mods4 & e4 & E4 & _ & _ & Hh4 & _).
  unfold bind, ret. rewrite E4. eexists _, mods4, e4, t4. split; [done|]. split; [apply lookup_insert_eq|].
  intros l. rewrite Hh4. apply adjusted_restores; [done| |].
  - intros k. cbn. rewrite Hh. by apply adjusted_domain.
  - intros k Hk. cbn. rewrite Hh. destruct (decide (k ∈ ids req)) as [Hin|]; [|by apply adjusted_other].
    assert (held (privileges t) k = None) as Hz.
    { destruct (held (privileges t) k) eqn:Ek; [|done]. destruct Hk. apply Hc; [done|by eexists]. }
    pose proof (adjusted_domain (held (privileges t)) req Hr k) as Hd. rewrite Hz in *.
    destruct (adjusted (held (privileges t)) req k) eqn:Ea; [|done]. destruct (proj1 Hd); [by eexists|done].
Qed.

Lemma disable_privileges_spec s addr t :
  exists t', tokens (token_disable_privileges s addr t) = <[addr := t']> (tokens s) /\
    forall l, held (privileges t') l = (fun _ => false) <$> held (privileges t) l.
Proof.
  eexists. split; [done|]. intros l. cbn [privileges set_privileges set_modified].
  induction (privileges t) as [|p ps IH]; [done|]. rewrite fmap_cons. cbn [held set_enabled priv_luid enabled].
  by destruct (decide (priv_luid p = l)).
Qed.

Lemma check_privileges_spec t req :
  (fst (token_check_privileges t true req) = true <->
     Forall (fun r => held (privileges t) (la_luid r) = Some true) req) /\
  (fst (token_check_privileges t false req) = true <->
     Exists (fun r => held (privileges t) (la_luid r) = Some true) req).
Proof.
  unfold token_check_privileges. pose proof (check_loop_spec t req) as H. destruct (check_loop t req) as [n used].
  destruct H as [-> _]. cbn [fst].
  destruct (filter_all (fun r => bool_decide (held (privileges t) (la_luid r) = Some true)) req) as [H1 H2].
  split.
  - rewrite Z.eqb_eq, Nat2Z.inj_iff, H1. apply Forall_iff. intros r. apply bool_decide_eq_true.
  - rewrite Z.ltb_lt. change 0 with (Z.of_nat 0). rewrite <-Nat2Z.inj_lt, H2, !List.Exists_exists.
    by setoid_rewrite bool_decide_eq_true.
Qed.

(** * Comparing decisions

    Rights are compared bit by bit.  What MAXIMUM_ALLOWED grants can be requested,
    and a filtered token is granted no more than its source, unless a denying entry
    names one of the groups that were filtered out. *)

(** The rights of [x] are among those of [y]. *)
Definition within (x y : Z) : Prop := forall i, Z.testbit x i = true -> Z.testbit y i = true.

#[export] Instance within_preorder : PreOrder within.
Proof. split; [by intros x i|]. intros x y z H1 H2 i Hi. auto. Qed.

Lemma within_0 y : within 0 y.
Proof. intros i. by rewrite Z.bits_0. Qed.

Lemma within_lor x x' y y' : within x x' -> within y y' -> within (Z.lor x y) (Z.lor x' y').
Proof. intros H1 H2 i. rewrite !Z.lor_spec, !orb_true_iff. intros [?|?]; auto. Qed.

Lemma within_lor_l x y : within x (Z.lor x y).
Proof. intros i Hi. by rewrite Z.lor_spec, Hi. Qed.

Lemma within_lor_r x y : within y (Z.lor x y).
Proof. intros i Hi. by rewrite Z.lor_spec, Hi, orb_true_r. Qed.

Lemma within_land x d : within d x <-> Z.land x d = d.
Proof.
  split.
  - intros H. apply Z.bits_inj'. intros i Hi. rewrite Z.land_spec. specialize (H i).
    destruct (Z.testbit d i); [by rewrite H|apply andb_false_r].
  - intros E i Hi. rewrite <-E, Z.land_spec in Hi. by apply andb_prop in Hi as [? _].
Qed.

Lemma has_bits_disjoint x y : has_bits x y = false <-> forall i, Z.testbit x i = true -> Z.testbit y i = false.
Proof.
  split; [intros H i; by apply has_bits_false|]. intros H. unfold has_bits. apply negb_false_iff, Z.eqb_eq, Z.bits_inj'.
  intros i Hi. rewrite Z.land_spec, Z.bits_0. specialize (H i). destruct (Z.testbit x i); [by rewrite H|done].
Qed.

(** ** MAXIMUM_ALLOWED *)

Lemma within_union f (a : ace) l : a ∈ l -> within (f a) (union (f <$> l)).
Proof.
  induction l as [|b l IH]; intros Ha; [by apply not_elem_of_nil in Ha|]. cbn.
  apply elem_of_cons in Ha as [->|Ha]; [apply within_lor_l|]. etransitivity; [by apply IH|apply within_lor_r].
Qed.

(** No entry denies a right of [d], so that all of them count. *)
Lemma allowed_before_all u mapping d l :
  (forall a, a ∈ l -> has_bits d (denied u mapping a) = false) ->
  allowed_before u mapping d l = union (allowed u mapping <$> l).
Proof.
  induction l as [|a l IH]; intros H; [done|]. cbn. rewrite H by (apply elem_of_cons; by left). f_equal.
  apply IH. intros b Hb. apply H, elem_of_cons. by right.
Qed.

Lemma maximum_requestable u mapping gv gv' desired d l :
  has_bits desired MAXIMUM_ALLOWED = true -> has_bits d MAXIMUM_ALLOWED = false -> 0 <= d < 2 ^ 32 ->
  (forall i, Z.testbit d i = true -> Z.testbit gv i = true -> Z.testbit gv' i = true) ->
  within d (granted u mapping gv desired l) -> granted u mapping gv' d l = d.
Proof.
  intros Hm Hd Hr Hg Hw. unfold granted in *. rewrite Hm in Hw. rewrite Hd.
  assert (forall i, Z.testbit d i = true -> 0 <= i < 32) as Hi.
  { intros i Hi. destruct (Z.lt_ge_cases i 0); [by rewrite Z.testbit_neg_r in Hi by lia|].
    destruct (Z.lt_ge_cases i 32); [done|]. by rewrite testbit_high in Hi by lia. }
  rewrite allowed_before_all.
  - rewrite (proj2 (Z.eqb_eq _ _)); [done|]. apply within_land. intros i Hdi. specialize (Hw i Hdi).
    rewrite Z.land_spec, Z.lor_spec in Hw. rewrite Z.lor_spec. apply andb_prop in Hw as [[Hw|Hw]%orb_prop _];
      [rewrite (Hg i Hdi Hw)|rewrite Hw, orb_true_r]; done.
  - intros a Ha. apply has_bits_disjoint. intros i Hdi. specialize (Hw i Hdi). rewrite Z.land_spec, not32_spec in Hw by auto.
    apply andb_prop in Hw as [_ Hw%negb_true_iff]. destruct (Z.testbit (denied u mapping a) i) eqn:E; [|done].
    by rewrite (within_union (denied u mapping) a l Ha i E) in Hw.
Qed.

(** ** Filtered tokens *)

Lemma deny_only_disabled a : has_bits (deny_only a) SE_GROUP_ENABLED = false.
Proof.
  unfold deny_only. apply has_bits_disjoint. intros i Hi. unfold SE_GROUP_ENABLED.
  change 4 with (2 ^ 2). destruct (Z.eq_dec i 2) as [->|]; [|apply Z.pow2_bits_false; lia].
  rewrite Z.lor_spec, Z.land_spec, not32_spec in Hi by lia. by rewrite andb_false_r in Hi.
Qed.

Lemma has_sid_restrict rm u deny s : has_sid (restrict rm u) deny s = true -> has_sid u deny s = true.
Proof.
  unfold has_sid. cbn. rewrite !orb_true_iff. intros [?|H]; [by left|right].
  apply existsb_exists in H as (x & Hx & H). apply list_elem_of_In, list_elem_of_fmap in Hx as (y & -> & Hy).
  apply existsb_exists. exists y. split; [by apply list_elem_of_In|]. cbn in H. apply andb_prop in H as [Hc H]. rewrite H.
  destruct (bool_decide (snd y ∈ rm)); [|by rewrite Hc]. unfold counts in Hc. by rewrite deny_only_disabled in Hc.
Qed.

Lemma has_sid_kept rm u deny s : s ∉ rm -> has_sid (restrict rm u) deny s = has_sid u deny s.
Proof.
  intros Hs. unfold has_sid. cbn. f_equal. induction (s_groups u) as [|[a x] l IH]; [done|]. cbn. f_equal; [|apply IH].
  destruct (bool_decide_reflect (x = s)) as [->|]; [|by rewrite !andb_false_r]. by rewrite bool_decide_eq_false_2.
Qed.

(** The entries that deny do not name a filtered group. *)
Definition denies_kept (rm : list (list byte)) (l : list ace) : Prop :=
  Forall (fun a => a_type a = ACCESS_DENIED_ACE_TYPE -> a_sid a ∉ rm) l.

Lemma allowed_restrict rm u mapping a : within (allowed (restrict rm u) mapping a) (allowed u mapping a).
Proof.
  unfold allowed. destruct (applies a && _); cbn [andb]; [|apply within_0].
  destruct (has_sid (restrict rm u) false (a_sid a)) eqn:E; [|apply within_0]. by rewrite (has_sid_restrict _ _ _ _ E).
Qed.

Lemma denied_restrict rm u mapping a :
  (a_type a = ACCESS_DENIED_ACE_TYPE -> a_sid a ∉ rm) -> denied (restrict rm u) mapping a = denied u mapping a.
Proof.
  intros H. unfold denied. destruct (Z.eqb_spec (a_type a) ACCESS_DENIED_ACE_TYPE) as [E|]; [|by rewrite !andb_false_r].
  by rewrite has_sid_kept by auto.
Qed.

Lemma union_within (f g : ace -> Z) l : (forall a, within (f a) (g a)) -> within (union (f <$> l)) (union (g <$> l)).
Proof. intros H. induction l as [|a l IH]; [apply within_0|]. cbn. by apply within_lor. Qed.

Lemma allowed_before_restrict rm u mapping d l :
  denies_kept rm l -> within (allowed_before (restrict rm u) mapping d l) (allowed_before u mapping d l).
Proof.
  induction 1 as [|a l Ha H IH]; [apply within_0|]. cbn. rewrite denied_restrict by done.
  destruct (has_bits d (denied u mapping a)); [apply within_0|]. apply within_lor; [apply allowed_restrict|done].
Qed.

Lemma granted_restrict rm u mapping gv gv' d l :
  denies_kept rm l -> within gv' gv -> within (granted (restrict rm u) mapping gv' d l) (granted u mapping gv d l).
Proof.
  intros Hk Hg. unfold granted. destruct (has_bits d MAXIMUM_ALLOWED).
  - replace (union (denied (restrict rm u) mapping <$> l)) with (union (denied u mapping <$> l)).
    + intros i. rewrite !Z.land_spec, !andb_true_iff. intros [H ?]. split; [|done].
      eapply within_lor; [exact Hg|apply union_within, allowed_restrict|exact H].
    + clear Hg. induction Hk as [|a l Ha H IH]; [done|]. rewrite !fmap_cons. cbn [union foldr].
      rewrite denied_restrict by done. f_equal. exact IH.
  - destruct (Z.eqb_spec (Z.land (Z.lor gv' (allowed_before (restrict rm u) mapping d l)) d) d) as [E|]; [|apply within_0].
    apply within_land in E. rewrite (proj2 (Z.eqb_eq _ _)); [done|]. apply within_land. etransitivity; [exact E|].
    apply within_lor; [done|]. by apply allowed_before_restrict.
Qed.

Lemma given_restrict rm u held held' o d :
  (held' = true -> held = true) -> within (given (restrict rm u) held' o d) (given u held o d).
Proof.
  intros H. unfold given. apply within_lor.
  - destruct (has_bits d ACCESS_SYSTEM_SECURITY && held') eqn:E; [|apply within_0]. apply andb_prop in E as [-> E].
    by rewrite (H E).
  - destruct (has_sid (restrict rm u) false o) eqn:E; [|apply within_0]. by rewrite (has_sid_restrict _ _ _ _ E).
Qed.

(** The rights in a decision. *)
Definition rights (x : Z * Z * option Z) : Z := snd (fst x).

Lemma decision_restrict rm u mapping held held' d desired :
  (held' = true -> held = true) -> match d_dacl d with Some l => denies_kept rm l | None => True end ->
  within (rights (decision (restrict rm u) mapping held' d desired)) (rights (decision u mapping held d desired)).
Proof.
  intros Hh Hk. unfold decision. destruct (has_bits desired GENERIC_RIGHTS); [done|].
  destruct (d_owner d) as [o|]; [|done]. destruct (d_group d) as [g|]; [|done].
  destruct (has_bits (d_control d) SE_DACL_PRESENT); [|done]. destruct (d_dacl d) as [l|]; [|done].
  destruct (has_bits desired ACCESS_SYSTEM_SECURITY && negb held') eqn:E'; [apply within_0|].
  destruct (has_bits desired ACCESS_SYSTEM_SECURITY && negb held) eqn:E.
  - exfalso. apply andb_prop in E as [E1 E2%negb_true_iff]. rewrite E1 in E'. cbn in E'. apply negb_false_iff in E'.
    rewrite (Hh E') in E2. done.
  - cbn [rights fst snd]. apply granted_restrict; [done|]. by apply given_restrict.
Qed.

(** A privilege of a filtered token is one of its source. *)
Lemma held_kept src filter l b : held (kept_privileges src filter) l = Some b -> held src l = Some b.
Proof.
  unfold kept_privileges. induction src as [|p src IH]; [done|]. cbn [List.filter held].
  destruct (filter_privilege p filter) eqn:Ef; cbn [negb].
  - destruct (decide (priv_luid p = l)) as [<-|]; [|done]. intros H. exfalso.
    revert H. clear IH. induction src as [|q src IH]; [done|]. cbn [List.filter].
    destruct (filter_privilege q filter) eqn:Eq; cbn [negb]; [done|]. cbn [fmap list_fmap held new_privilege priv_luid].
    destruct (decide (priv_luid q = priv_luid p)) as [E|]; [|done]. intros _.
    unfold filter_privilege in *. by rewrite E, Ef in Eq.
  - cbn [fmap list_fmap held new_privilege priv_luid enabled]. destruct (decide (priv_luid p = l)); [done|]. apply IH.
Qed.

(** Whether one privilege is held and enabled, as the access check asks. *)
Lemma held_check t l :
  fst (token_check_privileges t true [mk_luid_attr l 0]) = bool_decide (held (privileges t) l = Some true).
Proof.
  unfold token_check_privileges. pose proof (check_loop_spec t [mk_luid_attr l 0]) as H.
  destruct (check_loop t [mk_luid_attr l 0]) as [n used]. destruct H as [-> _]. cbn.
  by destruct (bool_decide (held (privileges t) l = Some true)).
Qed.

(** ** Requesting what MAXIMUM_ALLOWED grants *)

(** Specific rights: no generic ones, no access to the SACL, not MAXIMUM_ALLOWED. *)
Definition specific (x : Z) : Prop :=
  0 < x < 2 ^ 32 /\ has_bits x GENERIC_RIGHTS = false /\ has_bits x ACCESS_SYSTEM_SECURITY = false /\
  has_bits x MAXIMUM_ALLOWED = false.

Lemma given_specific u hd o desired x i :
  has_bits x ACCESS_SYSTEM_SECURITY = false -> Z.testbit x i = true -> Z.testbit (given u hd o desired) i = true ->
  Z.testbit (given u hd o x) i = true.
Proof.
  intros Hx Hi. unfold given. rewrite Hx. cbn [andb]. rewrite Z.lor_0_l, Z.lor_spec. intros H.
  apply orb_prop in H as [H|H]; [|done]. destruct (has_bits desired ACCESS_SYSTEM_SECURITY && hd); [|by rewrite Z.bits_0 in H].
  by rewrite (has_bits_false _ _ _ Hx Hi) in H.
Qed.

Lemma within_zero x : within x 0 -> x = 0.
Proof.
  intros H. apply Z.bits_inj'. intros i _. rewrite Z.bits_0. destruct (Z.testbit x i) eqn:E; [|done].
  apply H in E. by rewrite Z.bits_0 in E.
Qed.

Lemma decision_maximum u mapping hd d desired x :
  has_bits desired MAXIMUM_ALLOWED = true -> specific x -> within x (rights (decision u mapping hd d desired)) ->
  decision u mapping hd d x = (STATUS_SUCCESS, x, Some STATUS_SUCCESS).
Proof.
  intros Hm (Hr & Hg & Ha & Hx). unfold decision. rewrite Hg, Ha, Hx. cbn [andb].
  destruct (has_bits desired GENERIC_RIGHTS); [intros E%within_zero; lia|].
  destruct (d_owner d) as [o|]; [|intros E%within_zero; lia]. destruct (d_group d) as [g|]; [|intros E%within_zero; lia].
  destruct (if has_bits (d_control d) SE_DACL_PRESENT then d_dacl d else None) as [l|]; [|done].
  destruct (has_bits desired ACCESS_SYSTEM_SECURITY && negb hd); [intros E%within_zero; lia|]. cbn [rights fst snd]. intros Hw.
  rewrite (maximum_requestable u mapping (given u hd o desired) _ desired x l Hm Hx); [|lia| |done].
  - by rewrite (proj2 (Z.eqb_neq x 0)) by lia.
  - intros i. by apply given_specific.
Qed.
