(* ===== verification/TokenDescr.v ===== *)
(** * Setting the descriptor of an object

    The new descriptor is built from parts of the one in the request, of the old
    one and of the token of the process.  It is valid when its parts are, and is
    the merge of the three. *)

From Stdlib Require Import ZArith Lia Strings.Byte.
From stdpp Require Import base list numbers option gmap.
From S2P Require Import Prelude Handles Memory Security SecurityLists SecurityDescr Tokens TokenAccess TokenTheorems.

#[local] Open Scope Z_scope.
#[local] Open Scope server_scope.

#[local] Abbreviation len s := (Z.of_nat (length s)).

(** ** Parts *)

(** A representation that a copy of the bytes keeps. *)
Class Movable {A} (rep : cptr -> Z -> A -> Prop) : Prop :=
  moved p q n x s : rep p n x -> points p (bytes s) -> len s = n -> points q (bytes s) -> rep q n x.

Lemma points_same_prefix p w s :
  points p (bytes w) -> points p (bytes s) -> len w <= len s -> exists s', s = w ++ s'.
Proof.
  intros Hw Hs Hl. exists (drop (length w) s). rewrite <-(take_drop (length w) s) at 1. f_equal.
  apply (points_unique p); [|done|rewrite length_take; lia].
  apply (points_prefix p _ (drop (length w) s)). by rewrite take_drop.
Qed.

#[export] Instance sid_movable : Movable sid_in.
Proof.
  intros p q n x s [[Hp Hw] Hl] Hs Hn Hq. destruct (points_same_prefix p x s Hp Hs) as (s' & ->); [lia|].
  split; [split; [exact (points_prefix q x s' Hq)|done]|done].
Qed.

#[export] Instance acl_movable : Movable acl_in.
Proof.
  intros p q n l s (r & sz & ((p1 & p2 & Hh) & Hr & Hsz & Hc & Hat & Hw) & Hl) Hs Hn Hq.
  set (h := encode_header r p1 sz (len l) p2) in *. assert (len h = sizeof_acl) as Eh by done.
  destruct (points_same_prefix p (h ++ encode_aces l) s) as (s' & ->).
  - rewrite bytes_app, points_app, length_bytes, Eh. done.
  - done.
  - rewrite length_app. lia.
  - apply points_prefix in Hq. exists r, sz. split; [|done]. rewrite bytes_app, points_app, length_bytes, Eh in Hq.
    destruct Hq as [Hq1 Hq2]. split; [by exists p1, p2|]. split_and!; (done || lia).
Qed.

(** A pointer and a length that stand for a member, or for none. *)
Definition part {A} (rep : cptr -> Z -> A -> Prop) (po : option cptr) (n : Z) (o : option A) : Prop :=
  (n = 0 /\ o = None) \/ (n <> 0 /\ exists p x, po = Some p /\ o = Some x /\ rep p n x /\ readable p n).

Lemma part_member {A} (rep : cptr -> Z -> A -> Prop) p n o :
  member_at rep p n o -> readable p n -> part rep (if n =? 0 then None else Some p) n o.
Proof.
  intros Hm Hr. destruct o as [x|]; cbn in Hm.
  - destruct Hm as [Hn Hx]. right. rewrite (proj2 (Z.eqb_neq n 0) Hn). eauto 8.
  - by left.
Qed.

Lemma part_copy {A} (rep : cptr -> Z -> A -> Prop) `{!Movable rep} po n o :
  part rep po n o ->
  exists s, copy_part po n = Some (bytes s) /\ len s = n /\ forall q, points q (bytes s) -> member_at rep q n o.
Proof.
  intros [[-> ->]|(Hn & p & x & -> & -> & Hx & s & Hs & Hl)].
  - by exists [].
  - exists s. unfold copy_part. rewrite (proj2 (Z.eqb_neq n 0) Hn). split_and!; [|done|].
    + rewrite <-Hl, <-length_bytes. by apply load_points.
    + intros q Hq. split; [done|]. by apply (moved p q n x s).
Qed.

(** A descriptor that was validated in [size] readable bytes. *)
Definition valid_sd (p : cptr) (d : descr) : Prop := exists size, readable p size /\ sd_at p size d.

(** The parts of a valid descriptor, as the accessors give them. *)
Lemma valid_sd_parts p d :
  valid_sd p d ->
  exists ol gl sl dl, sd_lens p (d_control d) ol gl sl dl /\ 0 <= d_control d < 2 ^ 32 /\
    ol < sid_header + 4 * 255 /\ gl < sid_header + 4 * 255 /\ sl < MAX_ACL_LEN /\ dl < MAX_ACL_LEN /\
    part sid_in (if ol =? 0 then None else Some (p +! sizeof_sd)) ol (d_owner d) /\
    part sid_in (if gl =? 0 then None else Some (p +! (sizeof_sd + ol))) gl (d_group d) /\
    part acl_in (if sl =? 0 then None else Some (p +! (sizeof_sd + ol + gl))) sl (d_sacl d) /\
    part acl_in (if dl =? 0 then None else Some (p +! (sizeof_sd + ol + gl + sl))) dl (d_dacl d).
Proof.
  intros (size & Hr & ol & gl & sl & dl & Hlens & ? & ? & ? & ? & Hsz & Ho & Hg & Hs & Hd).
  exists ol, gl, sl, dl. pose proof Hlens as (Ec & _ & _ & _ & _ & ? & ? & ? & ?).
  assert (forall k n, 0 <= k -> 0 <= n -> k + n <= size -> readable (p +! k) n) as Hsub
    by (intros; by apply (readable_sub p size)).
  split_and!; try done; try (apply part_member; [done|apply Hsub; unfold sizeof_sd in *; lia]).
  all: destruct (get32_readable p 0 size Hr) as (c & Ec' & ? & _); unfold sizeof_sd in *; [lia..|].
  all: unfold sd_control in Ec; rewrite Ec' in Ec; injection Ec as <-; lia.
Qed.

(** ** The merge *)

Definition or_else {A} (x y : option A) : option A := match x with Some _ => x | None => y end.

Definition has_sacl (d : descr) : bool := has_bits (d_control d) SE_SACL_PRESENT.

Definition has_dacl (d : descr) : bool := has_bits (d_control d) SE_DACL_PRESENT.

Section merge.
Context (new : descr) (old : option descr) (info : Z).

Definition merge_sid (flag : Z) (f : descr -> option (list byte)) (dflt : option (list byte)) : option (list byte) :=
  or_else (if has_bits info flag then f new else None) (or_else (old ≫= f) dflt).

(** The SACL and whether it is marked as present here. *)
Definition merge_sacl : option (list ace) * bool :=
  if has_bits info SACL_SECURITY_INFORMATION && has_sacl new then (d_sacl new, true)
  else if has_bits info LABEL_SECURITY_INFORMATION && has_sacl new then
    (Some (replaced (default [] (match old with Some o => if has_sacl o then d_sacl o else None | None => None end))
                    (default [] (d_sacl new))), true)
  else match old with
       | Some o => if has_sacl o then (d_sacl o, true) else (None, false)
       | None => (None, false)
       end.

Definition merge_dacl (dflt : option (list ace)) : option (list ace) * bool :=
  if has_bits info DACL_SECURITY_INFORMATION && has_dacl new then (d_dacl new, true)
  else match old with
       | Some o => if has_dacl o then (d_dacl o, true) else (dflt, bool_decide (is_Some dflt))
       | None => (dflt, bool_decide (is_Some dflt))
       end.

Definition merge (own grp : option (list byte)) (dacl : option (list ace)) : descr :=
  let control := Z.land (d_control new) (not32 SE_SELF_RELATIVE) in
  let control := if snd merge_sacl then Z.lor control SE_SACL_PRESENT else control in
  let control := if snd (merge_dacl dacl) then Z.lor control SE_DACL_PRESENT else control in
  mk_descr control (merge_sid OWNER_SECURITY_INFORMATION d_owner own)
    (merge_sid GROUP_SECURITY_INFORMATION d_group grp) (fst merge_sacl) (fst (merge_dacl dacl)).
End merge.

(** ** Choosing the parts *)

(** The old descriptor, if there is one. *)
Definition old_ok (p : option cptr) (d : option descr) : Prop :=
  match p, d with None, None => True | Some p, Some d => valid_sd p d | _, _ => False end.

(** A SID of the token with its length. *)
Lemma part_sid p s : sid_at p s -> part sid_in (Some p) (len s) (Some s) /\ 0 <= len s.
Proof.
  intros Hs. pose proof (wf_sid_len s (proj2 Hs)). unfold sid_header in *. split; [|lia]. right. split; [lia|].
  exists p, s. split_and!; try done. exists s. split; [apply Hs|done].
Qed.

(** The two accessors of a SID, on a valid descriptor. *)
Definition gives_sid (get_len : cptr -> option Z) (get : cptr -> option (option cptr)) (f : descr -> option (list byte)) : Prop :=
  forall p d, valid_sd p d ->
    exists po n, get_len p = Some n /\ get p = Some po /\ part sid_in po n (f d) /\ 0 <= n < sid_header + 4 * 255.

Lemma gives_owner : gives_sid sd_owner_len sd_get_owner d_owner.
Proof.
  intros p d H. destruct (valid_sd_parts p d H) as (ol & gl & sl & dl & Hl & _ & ? & _ & _ & _ & Ho & _).
  pose proof Hl as (_ & E & _ & _ & _ & ? & _). do 2 eexists. split_and!; [done|exact (sd_get_owner_at _ _ _ _ _ _ Hl)|done..].
Qed.

Lemma gives_group : gives_sid sd_group_len sd_get_group d_group.
Proof.
  intros p d H. destruct (valid_sd_parts p d H) as (ol & gl & sl & dl & Hl & _ & _ & ? & _ & _ & _ & Hg & _).
  pose proof Hl as (_ & _ & E & _ & _ & _ & ? & _). do 2 eexists. split_and!; [done|exact (sd_get_group_at _ _ _ _ _ _ Hl)|done..].
Qed.

Lemma part_none {A} (rep : cptr -> Z -> A -> Prop) po n o : part rep po n o -> (n = 0 <-> o = None).
Proof. intros [[-> ->]|(Hn & p & x & -> & -> & _)]; split; done. Qed.

(** What the token, if any, offers: a SID that fits in a descriptor. *)
Definition token_offers (tok : option token) (from : token -> option cptr) (s : option (list byte)) : Prop :=
  match tok, s with
  | None, None => True
  | Some t, Some s => exists p, from t = Some p /\ sid_at p s /\ len s < sid_header + 4 * 255
  | _, _ => False
  end.

Lemma choose_sid_at want get_len get f sd new old_sd old tok from s :
  gives_sid get_len get f -> valid_sd sd new -> old_ok old_sd old -> token_offers tok from s ->
  exists po n, choose_sid want get_len get sd old_sd tok from = Some (po, n) /\ 0 <= n < sid_header + 4 * 255 /\
    part sid_in po n (or_else (if want then f new else None) (or_else (old ≫= f) s)).
Proof.
  intros Hg Hn Ho Ht. unfold choose_sid. destruct (Hg sd new Hn) as (po & n & -> & Egot & Hp & Hr). cbn [mbind option_bind].
  pose proof (part_none _ _ _ _ Hp) as Hz. unfold sid_header in *.
  destruct (want && negb (n =? 0)) eqn:Hw.
  - apply andb_prop in Hw as [-> Hw%negb_true_iff%Z.eqb_neq]. rewrite Egot. cbn. exists po, n. split_and!; try done; [lia..|].
    destruct (f new); [done|]. by destruct Hw, Hz; auto.
  - assert (or_else (if want then f new else None) (or_else (old ≫= f) s) = or_else (old ≫= f) s) as ->.
    { destruct want; [|done]. apply negb_false_iff, Z.eqb_eq, Hz in Hw. by rewrite Hw. }
    assert (exists po k, match tok with Some t => p ← from t; k ← sid_len p; Some (Some p, k) | None => Some (None, 0) end =
              Some (po, k) /\ 0 <= k < 8 + 4 * 255 /\ part sid_in po k s) as Htok.
    { destruct tok as [t|], s as [s|]; try done; cbn in Ht.
      - destruct Ht as (p & -> & Hs & Hlt). destruct (part_sid p s Hs) as [Hps ?]. cbn [mbind option_bind].
        rewrite (sid_len_at p s Hs). cbn. do 2 eexists. split_and!; [done|lia|unfold sid_header in *; lia|done].
      - exists None, 0. split_and!; try done. by left. }
    destruct old_sd as [op|], old as [od|]; try done; cbn in Ho.
    + destruct (Hg op od Ho) as (po' & k & -> & Eo & Hp' & Hr'). cbn [mbind option_bind].
      pose proof (part_none _ _ _ _ Hp') as Hz'. destruct (Z.eqb_spec k 0) as [Hk|Hk]; cbn [negb].
      * rewrite (proj1 Hz' Hk). exact Htok.
      * rewrite Eo. cbn. exists po', k. split_and!; try done; [unfold sid_header in *; lia..|].
        destruct (f od); [done|]. by destruct Hk, Hz'; auto.
Qed.

(** The SACL: the accessors, and the list of labels that is replaced. *)
Lemma get_sacl_at p d :
  valid_sd p d ->
  exists po n, sd_sacl_len p = Some n /\ sd_get_sacl p = Some (po, has_sacl d) /\ part acl_in po n (d_sacl d) /\
    0 <= n < MAX_ACL_LEN /\ (n = 0 -> po = None).
Proof.
  intros H. destruct (valid_sd_parts p d H) as (ol & gl & sl & dl & Hl & _ & _ & _ & ? & _ & _ & _ & Hs & _).
  pose proof Hl as (_ & _ & _ & E & _ & _ & _ & ? & _). do 2 eexists.
  split_and!; [done|exact (sd_get_sacl_at _ _ _ _ _ _ Hl)|done..|]. by intros ->.
Qed.

Lemma get_dacl_at p d :
  valid_sd p d ->
  exists po n, sd_dacl_len p = Some n /\ sd_get_dacl p = Some (po, has_dacl d) /\ part acl_in po n (d_dacl d) /\
    0 <= n < MAX_ACL_LEN.
Proof.
  intros H. destruct (valid_sd_parts p d H) as (ol & gl & sl & dl & Hl & _ & _ & _ & _ & ? & _ & _ & _ & Hd).
  pose proof Hl as (_ & _ & _ & _ & E & _ & _ & _ & ?). do 2 eexists.
  split_and!; [done|exact (sd_get_dacl_at _ _ _ _ _ _ Hl)|done..].
Qed.

Lemma part_acl_opt po n o : part acl_in po n o -> (n = 0 -> po = None) -> exists r, acl_opt po r (default [] o).
Proof.
  intros [[Hn ->]|(Hn & p & l & -> & -> & (r & sz & H & _) & _)] Hz.
  - exists 0. by rewrite (Hz Hn).
  - exists r. by exists sz.
Qed.

Lemma acl_block_part p r l :
  acl_block p r l -> part acl_in (Some p) (acl_bytes l) (Some l).
Proof.
  intros H. pose proof H as (Hat & Ho & Hl). right. unfold acl_bytes, sizeof_acl in *. split; [lia|].
  exists p, l. split_and!; try done; [by exists r, (8 + len (encode_aces l))|].
  destruct Hat as ((p1 & p2 & Hh) & _ & _ & _ & Hp & _).
  exists (encode_header r p1 (8 + len (encode_aces l)) (len l) p2 ++ encode_aces l). split.
  - rewrite bytes_app, points_app. done.
  - rewrite length_app. change (length (encode_header _ _ _ _ _)) with 8%nat. lia.
Qed.

(** The list with replaced labels, if it is built, fits in a descriptor. *)
Definition labels_fit (new : descr) (old : option descr) (info : Z) : Prop :=
  acl_bytes (default [] (fst (merge_sacl new old info))) < MAX_ACL_LEN.

Lemma choose_sacl_spec info sd new old_sd old :
  valid_sd sd new -> old_ok old_sd old -> labels_fit new old info ->
  uspec (choose_sacl info sd old_sd)
    (fun '(po, n, b) => b = snd (merge_sacl new old info) /\ part acl_in po n (fst (merge_sacl new old info)) /\
                        0 <= n < MAX_ACL_LEN).
Proof.
  intros Hn Ho Hf. unfold choose_sacl, labels_fit, merge_sacl in *.
  destruct (get_sacl_at sd new Hn) as (po & n & En & Eg & Hp & Hr & Hz).
  eapply uspec_try; [exact Eg|]. cbn beta iota.
  destruct (has_bits info SACL_SECURITY_INFORMATION && has_sacl new).
  { eapply uspec_try; [exact En|]. by apply uspec_ret. }
  destruct (has_bits info LABEL_SECURITY_INFORMATION && has_sacl new).
  - change (acl_bytes (replaced
        (default [] (match old with Some o => if has_sacl o then d_sacl o else None | None => None end))
        (default [] (d_sacl new))) < MAX_ACL_LEN) in Hf.
    set (lo := default [] (match old with Some o => _ | None => _ end)) in *. set (ln := default [] (d_sacl new)) in *.
    destruct (part_acl_opt po n (d_sacl new) Hp Hz) as (rn & Hln). fold ln in Hln.
    assert (exists oo ro, match old_sd with None => Some None | Some o => '(p, there) ← sd_get_sacl o; Some (if (there : bool) then p else None) end
              = Some oo /\ acl_opt oo ro lo) as (oo & ro & Eoo & Hlo).
    { destruct old_sd as [op|], old as [od|]; try done; cbn in Ho.
      - destruct (get_sacl_at op od Ho) as (po' & n' & _ & -> & Hp' & _ & Hz'). cbn [mbind option_bind].
        destruct (part_acl_opt po' n' (d_sacl od) Hp' Hz') as (ro & Hlo).
        destruct (has_sacl od); [by eauto|]. by exists None, 0.
      - by exists None, 0. }
    eapply uspec_try; [exact Eoo|]. unfold MAX_ACL_LEN in Hf.
    assert (acl_bytes (replaced lo ln) <= MAX_ACL_LEN) as Hle by (unfold MAX_ACL_LEN; lia).
    pose proof (replace_labels_spec oo po ro rn lo ln Hlo Hln Hle) as Hrep.
    eapply uspec_bind; [exact Hrep|]. intros q Hq. cbn beta.
    pose proof (acl_at_fields q _ _ _ (proj1 Hq)) as (_ & Esz & _). eapply uspec_try; [exact Esz|]. apply uspec_ret.
    split_and!; [done|exact (acl_block_part q _ _ Hq)|unfold acl_bytes, sizeof_acl; lia|unfold MAX_ACL_LEN; lia].
  - destruct old_sd as [op|], old as [od|]; try done; cbn in Ho.
    + destruct (get_sacl_at op od Ho) as (po' & n' & En' & Eg' & Hp' & Hr' & _). eapply uspec_try; [exact Eg'|]. cbn beta iota.
      destruct (has_sacl od).
      * eapply uspec_try; [exact En'|]. by apply uspec_ret.
      * apply uspec_ret. split_and!; try done. by left.
    + apply uspec_ret. split_and!; try done. by left.
Qed.

(** What the token, if any, offers as a DACL. *)
Definition token_dacl (tok : option token) (l : option (list ace)) : Prop :=
  match tok, l with
  | None, None => True
  | Some t, Some l => dacl_ok (default_dacl t) (Some l) /\ acl_bytes l < MAX_ACL_LEN
  | _, _ => False
  end.

Lemma choose_dacl_at info sd new old_sd old tok l :
  valid_sd sd new -> old_ok old_sd old -> token_dacl tok l ->
  exists po n, choose_dacl info sd old_sd tok = Some (po, n, snd (merge_dacl new old info l)) /\
    part acl_in po n (fst (merge_dacl new old info l)) /\ 0 <= n < MAX_ACL_LEN.
Proof.
  intros Hn Ho Ht. unfold choose_dacl, merge_dacl. destruct (get_dacl_at sd new Hn) as (po & n & En & -> & Hp & Hr).
  cbn [mbind option_bind]. destruct (has_bits info DACL_SECURITY_INFORMATION && has_dacl new).
  { rewrite En. cbn. by eauto. }
  assert (forall x, exists po n,
            match tok with Some t => d ← default_dacl t; n ← acl_size d; Some (Some d, n, true) | None => Some (x, 0, false) end =
            Some (po, n, bool_decide (is_Some l)) /\ part acl_in po n l /\ 0 <= n < MAX_ACL_LEN) as Htok.
  { intros x. destruct tok as [t|], l as [l|]; try done; cbn in Ht.
    - destruct Ht as [Hd Hlt]. destruct (default_dacl t) as [d|]; [|done]. destruct Hd as (r & Hd). cbn [mbind option_bind].
      pose proof (acl_at_fields d _ _ _ (proj1 Hd)) as (_ & -> & _). cbn [mbind option_bind].
      exists (Some d), (acl_bytes l). rewrite bool_decide_eq_true_2 by eauto.
      split_and!; [done|exact (acl_block_part d _ _ Hd)|unfold acl_bytes, sizeof_acl; lia|done].
    - exists x, 0. rewrite bool_decide_eq_false_2 by (by intros [? ?]). split_and!; try done. by left. }
  destruct old_sd as [op|], old as [od|]; try done; cbn in Ho.
  - destruct (get_dacl_at op od Ho) as (po' & n' & En' & -> & Hp' & Hr'). cbn [mbind option_bind fst snd].
    destruct (has_dacl od); [|apply Htok]. rewrite En'. cbn. by eauto.
  - cbn [mbind option_bind fst snd]. apply Htok.
Qed.

(** ** The new descriptor *)

Lemma sd_header_at p control ol gl sl dl :
  points p (bytes (sd_header control ol gl sl dl)) ->
  0 <= control < 2 ^ 32 -> 0 <= ol < 2 ^ 32 -> 0 <= gl < 2 ^ 32 -> 0 <= sl < 2 ^ 32 -> 0 <= dl < 2 ^ 32 ->
  sd_lens p control ol gl sl dl.
Proof.
  intros H Hc Ho Hg Hs Hd. unfold sd_header in H. rewrite !bytes_app in H.
  repeat (apply points_app in H as [? H]). rewrite !plus_plus in *. cbn in *.
  unfold sd_lens, sd_control, sd_owner_len, sd_group_len, sd_sacl_len, sd_dacl_len.
  split_and!; try lia; apply get32_le32; try done. by rewrite plus_0.
Qed.

Lemma flags_range c x : 0 <= c < 2 ^ 32 -> 0 <= x < 2 ^ 32 -> 0 <= Z.lor c x < 2 ^ 32.
Proof.
  intros Hc Hx. assert (0 <= Z.lor c x) by (apply Z.lor_nonneg; lia). split; [done|].
  apply Z.bounded_iff_bits_nonneg; [lia|done|]. intros i Hi. by rewrite Z.lor_spec, !testbit_high by lia.
Qed.

Lemma mask_range c x : 0 <= c < 2 ^ 32 -> 0 <= Z.land c x < 2 ^ 32.
Proof.
  intros Hc. assert (0 <= Z.land c x) by (apply Z.land_nonneg; lia). split; [done|].
  apply Z.bounded_iff_bits_nonneg; [lia|done|]. intros i Hi. by rewrite Z.land_spec, testbit_high by lia.
Qed.

Lemma merge_control_range new old info own grp l :
  0 <= d_control new < 2 ^ 32 -> 0 <= d_control (merge new old info own grp l) < 2 ^ 32.
Proof.
  intros H. cbn. pose proof (mask_range _ (not32 SE_SELF_RELATIVE) H).
  destruct (snd (merge_sacl new old info)), (snd (merge_dacl new old info l)); repeat (apply flags_range; [|done]); done.
Qed.

(** A header and the bytes of the parts make a valid descriptor. *)
Lemma sd_built control ol gl sl dl o g s d own grp sacl dacl :
  0 <= control < 2 ^ 32 -> len o = ol -> len g = gl -> len s = sl -> len d = dl ->
  ol < sid_header + 4 * 255 -> gl < sid_header + 4 * 255 -> sl < MAX_ACL_LEN -> dl < MAX_ACL_LEN ->
  (forall q, points q (bytes o) -> member_at sid_in q ol own) ->
  (forall q, points q (bytes g) -> member_at sid_in q gl grp) ->
  (forall q, points q (bytes s) -> member_at acl_in q sl sacl) ->
  (forall q, points q (bytes d) -> member_at acl_in q dl dacl) ->
  valid_sd (ptr_to (bytes (sd_header control ol gl sl dl) ++ bytes o ++ bytes g ++ bytes s ++ bytes d))
    (mk_descr control own grp sacl dacl).
Proof.
  intros Hc Eo Eg Es Ed Lo Lg Ls Ld Mo Mg Ms Md. rewrite <-!bytes_app.
  set (all := sd_header control ol gl sl dl ++ o ++ g ++ s ++ d).
  pose proof (points_ptr_to (bytes all)) as Hp. unfold sid_header, MAX_ACL_LEN in *.
  exists (len all). split; [by exists all|]. unfold all in Hp at 2. rewrite !bytes_app in Hp.
  apply points_app in Hp as [Hh Hp]. apply points_app in Hp as [Ho Hp]. apply points_app in Hp as [Hg Hp].
  apply points_app in Hp as [Hs Hd]. rewrite !plus_plus, !length_bytes, ?Eo, ?Eg, ?Es in *.
  change (len (sd_header control ol gl sl dl)) with sizeof_sd in *.
  exists ol, gl, sl, dl. split; [apply sd_header_at; try done; lia|]. cbn [d_owner d_group d_sacl d_dacl d_control].
  unfold sid_header, MAX_ACL_LEN. rewrite ?Z.add_assoc in *. split_and!; try done; auto.
  subst all. rewrite !length_app. change (length (sd_header control ol gl sl dl)) with 20%nat. unfold sizeof_sd. lia.
Qed.

(** The defaults a token, if any, has for new descriptors. *)
Record token_defaults (tok : option token) (own grp : option (list byte)) (l : option (list ace)) : Prop := mk_defaults {
  def_owner : token_offers tok token_get_owner own;
  def_group : token_offers tok token_get_primary_group grp;
  def_dacl : token_dacl tok l
}.

Lemma set_sd_spec sd new old_sd old info tok own grp l :
  valid_sd sd new -> old_ok old_sd old -> token_defaults tok own grp l -> labels_fit new old info ->
  uspec (set_sd_from_token_internal sd old_sd info tok) (fun q => valid_sd q (merge new old info own grp l)).
Proof.
  intros Hn Ho [Hto Htg Htd] Hf. unfold set_sd_from_token_internal.
  destruct (valid_sd_parts sd new Hn) as (? & ? & ? & ? & (Ec & _) & Hc & _).
  eapply uspec_try; [exact Ec|].
  destruct (choose_sid_at (has_bits info OWNER_SECURITY_INFORMATION) _ _ _ sd new old_sd old tok _ own gives_owner Hn Ho Hto)
    as (po & ol & Eo & Hol & Hpo). eapply uspec_try; [exact Eo|]. cbn beta iota.
  destruct (choose_sid_at (has_bits info GROUP_SECURITY_INFORMATION) _ _ _ sd new old_sd old tok _ grp gives_group Hn Ho Htg)
    as (pg & gl & Eg & Hgl & Hpg). eapply uspec_try; [exact Eg|]. cbn beta iota.
  eapply uspec_bind; [by eapply choose_sacl_spec|]. intros [[ps sl] sp] (-> & Hps & Hsl).
  destruct (choose_dacl_at info sd new old_sd old tok l Hn Ho Htd) as (pd & dl & Ed & Hpd & Hdl).
  eapply uspec_try; [exact Ed|]. cbn beta iota.
  destruct (part_copy sid_in po ol _ Hpo) as (o & Co & Lo & Mo), (part_copy sid_in pg gl _ Hpg) as (g & Cg & Lg & Mg),
    (part_copy acl_in ps sl _ Hps) as (s & Cs & Ls & Ms), (part_copy acl_in pd dl _ Hpd) as (d & Cd & Ld & Md).
  intros e. unfold ubind, lift. destruct (mem_alloc e) as [[] e'] eqn:E; cbn [negb].
  - unfold try. rewrite Co, Cg, Cs, Cd. eexists _, e'. split; [done|]. split.
    + apply sd_built; try done; try lia.
      pose proof (merge_control_range new old info own grp l Hc) as H. exact H.
    + intros He. rewrite mem_alloc_full in E by done. by injection E as <-.
  - exists None, e'. split_and!; try done. intros He. by rewrite mem_alloc_full in E.
Qed.

(** Validation accepts the descriptors that the server builds. *)
Lemma valid_sd_at p d : valid_sd p d -> exists size, sd_at p size d.
Proof. intros (size & _ & H). by exists size. Qed.
