(* ===== verification/TokenRequests.v ===== *)
(** * Requests on tokens and descriptors: server/token.c, handle.c and request.c

    The handlers, on top of the handle tables.  A request comes with a block of
    data; the reply has a block of at most [reply_max] bytes.  A reply that cannot
    be allocated is a null pointer, which several handlers use all the same. *)

From Stdlib Require Import ZArith Lia Strings.Byte.
From stdpp Require Import base list numbers option gmap.
From S2P Require Import Prelude Handles Memory Security Tokens.

#[local] Open Scope Z_scope.
#[local] Open Scope server_scope.

Definition TOKEN_DUPLICATE : Z := 0x0002.

Definition TOKEN_IMPERSONATE : Z := 0x0004.

Definition TOKEN_QUERY : Z := 0x0008.

Definition TOKEN_ADJUST_PRIVILEGES : Z := 0x0020.

Definition TOKEN_ADJUST_DEFAULT : Z := 0x0080.

Definition TOKEN_ALL_ACCESS : Z := 0x000f01ff.

Definition READ_CONTROL : Z := 0x00020000.

Definition WRITE_DAC : Z := 0x00040000.

Definition WRITE_OWNER : Z := 0x00080000.

Definition OPEN_TOKEN_THREAD : Z := 1.

Definition TokenElevationTypeFull : Z := 2.

Definition TokenElevationTypeLimited : Z := 3.

Definition TokenUser : Z := 1.

Definition TokenOwner : Z := 4.

Definition TokenPrimaryGroup : Z := 5.

(** Sizes of struct luid_attr and struct object_attributes. *)
Definition sizeof_luid_attr : Z := 12.

Definition sizeof_objattr : Z := 16.

(** ** Well-known SIDs *)

Definition sid_bytes (authority : Z) (rids : list Z) : list byte :=
  [x01; byte_of_Z (Z.of_nat (length rids)); x00; x00; x00; x00; x00; byte_of_Z authority] ++ concat (le32 <$> rids).

Definition mk_sid (authority : Z) (rids : list Z) : cptr := ptr_to (bytes (sid_bytes authority rids)).

Definition world_sid : cptr := mk_sid 1 [0].

Definition local_sid : cptr := mk_sid 2 [0].

Definition interactive_sid : cptr := mk_sid 5 [4].

Definition authenticated_user_sid : cptr := mk_sid 5 [0xb].

Definition local_system_sid : cptr := mk_sid 5 [0x12].

Definition builtin_admins_sid : cptr := mk_sid 5 [0x20; 0x220].

Definition builtin_users_sid : cptr := mk_sid 5 [0x20; 0x221].

Definition domain_users_sid : cptr := mk_sid 5 [0x15; 0; 0; 0; 0x201].

Definition logon_sid : cptr := mk_sid 5 [5; 0; 0].

(** ** Default contents *)

(** Full access for the local system and one SID. *)
Definition create_default_dacl (usr : cptr) : U (option cptr) :=
  let? n1 := try (sid_len local_system_sid) in
  let? n2 := try (sid_len usr) in
  let size := sizeof_acl + 2 * sizeof_ace + n1 + n2 in
  let? acl := lift (mem_alloc_block size) in
  match acl with
  | None => uret None
  | Some acl =>
      let? acl := try (set_acl acl ACL_REVISION size 2) in
      let? ace := try (set_ace (ace_first acl) local_system_sid ACCESS_ALLOWED_ACE_TYPE 0 GENERIC_ALL) in
      let? ace := try (ace_next ace) in
      let? ace := try (set_ace ace usr ACCESS_ALLOWED_ACE_TYPE 0 GENERIC_ALL) in
      uret (Some (ptr_to (blk ace)))
  end.

(** A descriptor with nothing but a label. *)
Definition create_security_label_sd (label_sid : cptr) : U (option cptr) :=
  let? n := try (sid_len label_sid) in
  let sacl_size := sizeof_acl + sizeof_ace + n in
  let? sd := lift (mem_alloc_block (sizeof_sd + sacl_size)) in
  match sd with
  | None => uret None
  | Some sd =>
      let? sd := try (store sd (bytes (sd_header SE_SACL_PRESENT 0 0 sacl_size 0))) in
      let? sacl := try (set_acl (sd +! sizeof_sd) ACL_REVISION sacl_size 1) in
      let? ace := try (set_ace (ace_first sacl) label_sid SYSTEM_MANDATORY_LABEL_ACE_TYPE 0 1) in
      let sd := ptr_to (blk ace) in
      let? valid := try (sd_is_valid sd (sizeof_sd + sacl_size)) in
      if (valid : bool) then uret (Some sd) else try None
  end.

Definition token_assign_label (s : tstate) (addr : Z) (t : token) (label : cptr) : U (bool * tstate) :=
  let? sd := create_security_label_sd label in
  match sd with
  | None => uret (false, s)
  | Some sd => set_sd_defaults_from_token s addr sd LABEL_SECURITY_INFORMATION (Some t)
  end.

(** The privileges of an administrator, most of them disabled. *)
Definition admin_privs : list luid_attr :=
  let p n on := mk_luid_attr (mk_luid n 0) (if (on : bool) then SE_PRIVILEGE_ENABLED else 0) in
  [p 23 true; p 7 false; p 8 false; p 17 false; p 18 false; p 12 false; p 19 false; p 24 false; p 9 false;
   p 20 false; p 22 false; p 11 false; p 13 false; p 14 false; p 10 true; p 15 false; p 5 false; p 25 false;
   p 28 false; p 29 true; p 30 true].

Definition admin_groups : list group :=
  let on := Z.lor (Z.lor SE_GROUP_ENABLED SE_GROUP_ENABLED_BY_DEFAULT) SE_GROUP_MANDATORY in
  [mk_group on world_sid; mk_group on local_sid; mk_group on interactive_sid; mk_group on authenticated_user_sid;
   mk_group (Z.lor on SE_GROUP_OWNER) domain_users_sid; mk_group (Z.lor on SE_GROUP_OWNER) builtin_admins_sid;
   mk_group on builtin_users_sid; mk_group (Z.lor on SE_GROUP_LOGON_ID) logon_sid].

(** ** Request data *)

Fixpoint read_luid_attrs (p : cptr) (n : nat) : option (list luid_attr) :=
  match n with
  | O => Some []
  | S n =>
      low ← get32 p 0;
      high ← get32 p 4;
      a ← get32 p 8;
      rest ← read_luid_attrs (p +! sizeof_luid_attr) n;
      Some (mk_luid_attr (mk_luid low (i32 high)) a :: rest)
  end.

(** request.c [get_req_object_attributes], for callers that pass no root: the
    descriptor and the attributes, or an error. *)
Definition get_req_object_attributes (data : block) : U (option (option cptr * Z)) :=
  let attr := ptr_to data in
  let size := Z.of_nat (length data) in
  if size =? 0 then uret (Some (None, 0))
  else if size <? sizeof_objattr then
    let? _ := lift (set_error STATUS_ACCESS_VIOLATION) in uret None
  else
    let? sd_len := try (get32 attr 8) in
    let? name_len := try (get32 attr 12) in
    if (size - sizeof_objattr <? sd_len) || (size - sizeof_objattr - sd_len <? name_len) then
      let? _ := lift (set_error STATUS_ACCESS_VIOLATION) in uret None
    else
      let? valid := if sd_len =? 0 then uret true else try (sd_is_valid (attr +! sizeof_objattr) sd_len) in
      if negb valid then let? _ := lift (set_error STATUS_INVALID_SECURITY_DESCR) in uret None
      else if has_bits name_len 1 || (65534 <=? name_len) then
        let? _ := lift (set_error STATUS_OBJECT_NAME_INVALID) in uret None
      else
        let? attributes := try (get32 attr 4) in
        uret (Some (if sd_len =? 0 then None else Some (attr +! sizeof_objattr), attributes)).

(** request.c [get_req_data_after_objattr]: where the data goes on, and how many
    bytes there are. *)
Definition get_req_data_after_objattr (data : block) : option (option cptr * Z) :=
  let attr := ptr_to data in
  sd_len ← get32 attr 8;
  name_len ← get32 attr 12;
  let size := u32 (Z.land (sizeof_objattr + Z.land sd_len (not32 1) + Z.land name_len (not32 1) + 3) (-4)) in
  Some (if Z.of_nat (length data) <=? size then (None, 0)
        else (Some (attr +! size), Z.of_nat (length data) - size)).

Section server.
Variable ops_table : Z -> object_ops.
Variables token_ops thread_ops process_ops : Z.
Variables thread proc : Z.
Variable local_user_sid : cptr.
Variable default_session_id : Z.

(** The thread that makes the request, as the handle tables see it. *)
Definition current (s : tstate) : current_t :=
  mk_current thread proc (thread_token s !! thread)
    (match thread_token s !! thread with Some t => Some t | None => process_token s !! proc end)
    (process_token s !! proc).

Definition get_obj (s : tstate) (handle acc : Z) (expected : option Z) : M (option Z * tstate) :=
  let* (obj, w) := get_handle_obj (current s) (wld s) proc handle acc expected in
  ret (obj, set_wld s w).

(** ** Access to objects *)

(** The granted access, or [None] when access is denied. *)
Definition check_object_access (s : tstate) (tok : option Z) (obj acc : Z) : U (option Z) :=
  let tok := match tok with Some t => Some t | None => cur_impersonation (current s) end in
  let map a := map_access_op (methods ops_table (wld s) obj) obj a in
  match sds s !! obj with
  | None => uret (Some (if has_bits acc MAXIMUM_ALLOWED then map GENERIC_ALL else acc))
  | Some sd =>
      let? t := try (tok ≫= (fun a => tokens s !! a)) in
      let? r := try (token_access_check t sd acc None
                       (mk_map (map GENERIC_READ) (map GENERIC_WRITE) (map GENERIC_EXECUTE) (map GENERIC_ALL))) in
      if (ac_ret r =? STATUS_SUCCESS) && bool_decide (ac_status r = Some STATUS_SUCCESS)
      then uret (Some (ac_granted r))
      else let? _ := lift (set_error STATUS_ACCESS_DENIED) in uret None
  end.

(** handle.c [alloc_handle], with this access check. *)
Definition alloc_checked_handle (s : tstate) (obj acc attr : Z) : U (Z * tstate) :=
  let acc := Z.land (map_access_op (methods ops_table (wld s) obj) obj acc) (not32 RESERVED_ALL) in
  let? granted := if acc =? 0 then uret (Some acc) else check_object_access s None obj acc in
  match granted with
  | None => uret (0, s)
  | Some acc =>
      let? allocated := lift (alloc_handle_entry (wld s) proc obj acc attr) in
      let? (h, w) := try allocated in
      uret (h, set_wld s w)
  end.

Definition alloc_unchecked_handle (s : tstate) (obj acc attr : Z) : U (Z * tstate) :=
  let? allocated := lift (alloc_handle_no_access_check ops_table (wld s) proc obj acc attr) in
  let? (h, w) := try allocated in
  uret (h, set_wld s w).

(** security.h [thread_single_check_privilege], for the current thread. *)
Definition thread_single_check_privilege (s : tstate) (priv : luid) : option bool :=
  match cur_impersonation (current s) with
  | None => Some false
  | Some a => t ← tokens s !! a; Some (fst (token_check_privileges t true [mk_luid_attr priv 0]))
  end.

Definition req_allocate_locally_unique_id (s : tstate) : luid * tstate := allocate_luid s.

(** ** Tokens of threads *)

Definition set_thread_token (s : tstate) (th : Z) (t : option Z) : tstate :=
  let s := match thread_token s !! th with Some old => release s old | None => s end in
  mk_ts (wld s) (tokens s) (sds s) (prev_luid_value s)
        (match t with Some t => <[th := t]> (thread_token s) | None => delete th (thread_token s) end)
        (process_token s).

Definition security_set_thread_token (s : tstate) (th handle : Z) : M tstate :=
  if handle =? 0 then ret (set_thread_token s th None)
  else
    let* (t, s) := get_obj s handle TOKEN_IMPERSONATE (Some token_ops) in
    ret (match t with Some t => set_thread_token s th (Some t) | None => s end).

(** ** Creation *)

Definition token_create_admin (addr : Z) (s : tstate) (prim level elev session : Z) : U (Z * tstate) :=
  let? dacl := create_default_dacl domain_users_sid in
  let? (a, s) := create_token token_ops addr s prim session local_user_sid admin_groups admin_privs dacl None 4
                   level elev in
  let? addr := try a in
  uret (addr, s).

(** The loop over the groups of the request, with [size] bytes used so far. *)
Fixpoint read_groups (n : nat) (ap p : cptr) (size data_size : Z) : option (option (list group * Z)) :=
  match n with
  | O => Some (Some ([], size))
  | S n =>
      a ← get32 ap 0;
      ok ← sid_valid_size p (u32 (data_size - size));
      if negb ok then Some None
      else
        k ← sid_len p;
        r ← read_groups n (ap +! 4) (p +! k) (u32 (size + k)) data_size;
        Some (match r with None => None | Some (gs, size) => Some (mk_group a p :: gs, size) end)
  end.

Definition invalid_parameter (s : tstate) : U (Z * tstate) :=
  let? _ := lift (set_error STATUS_INVALID_PARAMETER) in uret (0, s).

(** The new token is not released at the end. *)
Definition req_create_token (addr : Z) (s : tstate) (data : block) (acc prim level group_count pg priv_count : Z) :
    U (Z * tstate) :=
  let? (usr, data_size) := try (get_req_data_after_objattr data) in
  match usr with
  | None => invalid_parameter s
  | Some usr =>
      let? ok := try (sid_valid_size usr data_size) in
      if negb ok then invalid_parameter s
      else
        let? ulen := try (sid_len usr) in
        let data_size := data_size - ulen in
        let groups_size := u32 (group_count * 4) in
        if data_size <? groups_size then invalid_parameter s
        else if (pg <? 0) || (group_count <=? pg) then invalid_parameter s
        else
          let? ok := lift mem_alloc in
          if negb ok then uret (0, s)
          else
            let ap := usr +! ulen in
            let? gs := try (read_groups (Z.to_nat group_count) ap (ap +! (group_count * 4)) groups_size data_size) in
            match gs with
            | None => invalid_parameter s
            | Some (gs, groups_size) =>
                let data_size := u32 (data_size - groups_size) in
                if (priv_count <? 0) || (data_size <? priv_count * sizeof_luid_attr) then invalid_parameter s
                else
                  let pp := ap +! groups_size in
                  let data_size := data_size - priv_count * sizeof_luid_attr in
                  let acl := pp +! (priv_count * sizeof_luid_attr) in
                  let? valid := if data_size =? 0 then uret true else try (acl_is_valid acl data_size) in
                  if negb valid then invalid_parameter s
                  else
                    let? dacl := if data_size =? 0 then create_default_dacl domain_users_sid
                                 else uret (Some acl) in
                    let? privs := try (read_luid_attrs pp (Z.to_nat priv_count)) in
                    let? (t, s) := create_token token_ops addr s prim default_session_id usr gs privs dacl None
                                     pg level 0 in
                    match t with
                    | None => uret (0, s)
                    | Some t =>
                        let? attributes := try (get32 (ptr_to data) 4) in
                        alloc_checked_handle s t acc attributes
                    end
            end
  end.

Definition req_open_token (s : tstate) (handle acc attributes flags : Z) : U (Z * tstate) :=
  let fail err (s : tstate) : U (Z * tstate) := let? _ := lift (set_error err) in uret (0, s) in
  if has_bits flags OPEN_TOKEN_THREAD then
    let? (th, s) := lift (get_obj s handle 0 (Some thread_ops)) in
    match th with
    | None => uret (0, s)
    | Some th =>
        let? (h, s) :=
          match thread_token s !! th with
          | Some a =>
              let? t := try (tokens s !! a) in
              if (primary t =? 0) && (impersonation_level t <=? SecurityAnonymous)
              then fail STATUS_CANT_OPEN_ANONYMOUS s
              else alloc_checked_handle s a acc attributes
          | None => fail STATUS_NO_TOKEN s
          end in
        uret (h, release s th)
    end
  else
    let? (p, s) := lift (get_obj s handle 0 (Some process_ops)) in
    match p with
    | None => uret (0, s)
    | Some p =>
        let? (h, s) := match process_token s !! p with
                       | Some a => alloc_checked_handle s a acc attributes
                       | None => fail STATUS_NO_TOKEN s
                       end in
        uret (h, release s p)
    end.
(** ** Requests on a token *)

(** A handler that gets a token from a handle, works on it and releases it; [k]
    gets the address and the token. *)
Definition with_token {A} (s : tstate) (handle acc : Z) (none : A) (k : tstate -> Z -> token -> U (A * tstate)) :
    U (A * tstate) :=
  let? (a, s) := lift (get_obj s handle acc (Some token_ops)) in
  match a with
  | None => uret (none, s)
  | Some a =>
      let? t := try (tokens s !! a) in
      let? (r, s) := k s a t in
      uret (r, release s a)
  end.

(** The array of luid_attr that request data is. *)
Definition req_privs (data : block) : option (list luid_attr) :=
  read_luid_attrs (ptr_to data) (Z.to_nat (Z.of_nat (length data) / sizeof_luid_attr)).

(** The reply: its entries, of which some may never have been written.  A null
    pointer is written to when the reply cannot be allocated. *)
Definition req_adjust_token_privileges (s : tstate) (data : block) (handle : Z)
    (disable_all get_modified_state : bool) (reply_max : Z) : U (list (option luid_attr) * tstate) :=
  let acc := if get_modified_state then Z.lor TOKEN_ADJUST_PRIVILEGES TOKEN_QUERY else TOKEN_ADJUST_PRIVILEGES in
  with_token s handle acc [] (fun s a t =>
    let? privs := try (req_privs data) in
    let found := List.filter (fun p => match token_find_privilege t (la_luid p) false with
                                       | Some _ => true | None => false end) privs in
    let n := if get_modified_state && negb disable_all
             then Z.min (Z.of_nat (length found)) (reply_max / sizeof_luid_attr) else 0 in
    let? reply := if n =? 0 then uret true else lift (set_reply_data_size (n * sizeof_luid_attr)) in
    if disable_all then uret ([], token_disable_privileges s a t)
    else
      let? (s, mods) := lift (token_adjust_privileges s a t privs n) in
      match mods with
      | [] => uret (if reply then replicate (Z.to_nat n) None else [], s)
      | _ => if negb reply then try None
             else uret ((Some <$> mods) ++ replicate (Z.to_nat n - length mods) None, s)
      end).

(** The length needed and, if there is room, the privileges. *)
Definition req_get_token_privileges (s : tstate) (handle reply_max : Z) : U (Z * option (list luid_attr) * tstate) :=
  with_token s handle TOKEN_QUERY (0, None) (fun s a t =>
    let n := Z.of_nat (length (privileges t)) * sizeof_luid_attr in
    if n <=? reply_max then
      let? ok := lift (set_reply_data_size n) in
      uret ((n, if ok then Some (luid_and_attr_from_privilege <$> privileges t) else None), s)
    else
      let? _ := lift (set_error STATUS_BUFFER_TOO_SMALL) in uret ((n, None), s)).

(** The token of the current process. *)
Definition process_tok (s : tstate) : option token := process_token s !! proc ≫= (fun a => tokens s !! a).

Definition req_duplicate_token (addr : Z) (s : tstate) (data : block) (handle acc prim level : Z) : U (Z * tstate) :=
  let? oa := get_req_object_attributes data in
  match oa with
  | None => uret (0, s)
  | Some (sd, attributes) =>
      with_token s handle TOKEN_DUPLICATE 0 (fun s _ src =>
        let? (a, s) := token_duplicate token_ops addr s (process_tok s) src prim level sd [] (ptr_to []) 0 in
        match a with
        | None => uret (0, s)
        | Some a =>
            let acc := if negb (acc =? 0) then acc else get_handle_access (current s) (wld s) proc handle in
            let? (h, s) := alloc_unchecked_handle s a acc attributes in
            uret (h, release s a)
        end)
  end.

Definition req_filter_token (addr : Z) (s : tstate) (data : block) (handle privileges_size : Z) : U (Z * tstate) :=
  with_token s handle TOKEN_DUPLICATE 0 (fun s _ src =>
    let size := Z.of_nat (length data) in
    let priv_count := Z.min privileges_size size / sizeof_luid_attr in
    let filter_groups := ptr_to data +! (priv_count * sizeof_luid_attr) in
    let? privs := try (read_luid_attrs (ptr_to data) (Z.to_nat priv_count)) in
    let? group_count := try (get_sid_count filter_groups (size - priv_count * sizeof_luid_attr)) in
    let? (a, s) := token_duplicate token_ops addr s (process_tok s) src (primary src) (impersonation_level src) None
                     privs filter_groups (Z.to_nat group_count) in
    match a with
    | None => uret (0, s)
    | Some a =>
        let acc := get_handle_access (current s) (wld s) proc handle in
        let? (h, s) := alloc_unchecked_handle s a acc 0 in
        uret (h, release s a)
    end).

(** Whether the privileges are held, and the reply. *)
Definition req_check_token_privileges (s : tstate) (data : block) (handle : Z) (all_required : bool) (reply_max : Z) :
    U (bool * list luid_attr * tstate) :=
  with_token s handle TOKEN_QUERY (false, []) (fun s a t =>
    let count := Z.of_nat (length data) / sizeof_luid_attr in
    if (primary t =? 0) && (impersonation_level t <=? SecurityAnonymous) then
      let? _ := lift (set_error STATUS_BAD_IMPERSONATION_LEVEL) in uret ((false, []), s)
    else if count * sizeof_luid_attr <=? reply_max then
      let? ok := lift (set_reply_data_size (count * sizeof_luid_attr)) in
      let? privs := try (req_privs data) in
      let '(held, used) := token_check_privileges t all_required privs in
      uret ((held, if ok then used else []), s)
    else
      let? _ := lift (set_error STATUS_BUFFER_OVERFLOW) in uret ((false, []), s)).

(** The granted access, the access status and the privilege used. *)
Definition req_access_check (s : tstate) (data : block) (handle desired : Z) (mapping : generic_map) (reply_max : Z) :
    U (Z * Z * option luid_attr * tstate) :=
  let? valid := try (sd_is_valid (ptr_to data) (Z.of_nat (length data))) in
  if negb valid then
    let? _ := lift (set_error STATUS_ACCESS_VIOLATION) in uret ((0, 0, None), s)
  else
    with_token s handle TOKEN_QUERY (0, 0, None) (fun s a t =>
      if negb (primary t =? 0) then
        let? _ := lift (set_error STATUS_NO_IMPERSONATION_TOKEN) in uret ((0, 0, None), s)
      else if impersonation_level t <=? SecurityAnonymous then
        let? _ := lift (set_error STATUS_BAD_IMPERSONATION_LEVEL) in uret ((0, 0, None), s)
      else
        let? r := try (token_access_check t (ptr_to data) desired (Some 1) mapping) in
        let n := default 0 (ac_priv_count r) in
        let? priv :=
          if (0 <? n) && (n * sizeof_luid_attr <=? reply_max) then
            let? ok := lift (set_reply_data_size (n * sizeof_luid_attr)) in
            if ok then uret (ac_priv r) else try None
          else uret None in
        let? _ := lift (set_error (ac_ret r)) in
        uret ((ac_granted r, default 0 (ac_status r), priv), s)).

(** The length of the SID and, if there is room, the SID. *)
Definition req_get_token_sid (s : tstate) (handle which reply_max : Z) : U (Z * option block * tstate) :=
  with_token s handle TOKEN_QUERY (0, None) (fun s a t =>
    let? p :=
      if which =? TokenUser then uret (Some (user t))
      else if which =? TokenPrimaryGroup then
        match primary_group t with None => uret None | Some _ => let? p := try (token_get_primary_group t) in uret (Some p) end
      else if which =? TokenOwner then let? p := try (token_get_owner t) in uret (Some p)
      else let? _ := lift (set_error STATUS_INVALID_PARAMETER) in uret None in
    match p with
    | None => uret ((0, None), s)
    | Some p =>
        let? n := try (sid_len p) in
        if n <=? reply_max then
          let? ok := lift mem_alloc in
          if ok then let? c := try (load p n) in uret ((n, Some c), s) else uret ((n, None), s)
        else let? _ := lift (set_error STATUS_BUFFER_TOO_SMALL) in uret ((n, None), s)
    end).

(** The groups that the mask selects; 0 selects all. *)
Definition selected (mask : Z) (g : group) : bool := (mask =? 0) || has_bits (attrs g) mask.

Fixpoint sid_lens (gs : list group) : option Z :=
  match gs with [] => Some 0 | g :: gs => n ← sid_len (sid g); m ← sid_lens gs; Some (n + m) end.

Fixpoint load_sids (gs : list group) : option block :=
  match gs with [] => Some [] | g :: gs => n ← sid_len (sid g); c ← load (sid g) n; d ← load_sids gs; Some (c ++ d) end.

(** The two lengths and the reply: the attributes, then the SIDs. *)
Definition req_get_token_groups (s : tstate) (handle mask reply_max : Z) : U (Z * Z * option block * tstate) :=
  with_token s handle TOKEN_QUERY (0, 0, None) (fun s a t =>
    let gs := List.filter (selected mask) (groups t) in
    let? sl := try (sid_lens gs) in
    let al := 4 * Z.of_nat (length gs) in
    if al + sl <=? reply_max then
      let? ok := lift (set_reply_data_size (al + sl)) in
      if ok then let? c := try (load_sids gs) in
                 uret ((al, sl, Some (bytes (concat ((fun g => le32 (attrs g)) <$> gs)) ++ c)), s)
      else uret ((al, sl, None), s)
    else let? _ := lift (set_error STATUS_BUFFER_TOO_SMALL) in uret ((al, sl, None), s)).

(** Token id, modified id, session, primary, level, elevation and the two counts. *)
Definition req_get_token_info (s : tstate) (handle : Z) : U (option (luid * luid * Z * Z * Z * Z * nat * nat) * tstate) :=
  with_token s handle TOKEN_QUERY None (fun s a t =>
    uret (Some (token_id t, modified_id t, session_id t, primary t, impersonation_level t, elevation t,
                length (groups t), length (privileges t)), s)).

(** The length in the header of the ACL decides how much is sent. *)
Definition req_get_token_default_dacl (s : tstate) (handle reply_max : Z) : U (Z * option block * tstate) :=
  with_token s handle TOKEN_QUERY (0, None) (fun s a t =>
    let? n := match default_dacl t with None => uret 0 | Some acl => try (acl_size acl) end in
    if n <=? reply_max then
      let? ok := lift (set_reply_data_size n) in
      match ok, default_dacl t with
      | true, Some acl => let? c := try (load acl n) in uret ((n, Some c), s)
      | _, _ => uret ((n, None), s)
      end
    else let? _ := lift (set_error STATUS_BUFFER_TOO_SMALL) in uret ((n, None), s)).

Definition req_set_token_default_dacl (s : tstate) (data : block) (handle : Z) : U (unit * tstate) :=
  let acl := ptr_to data in
  let size := Z.of_nat (length data) in
  let? valid := if size =? 0 then uret true else try (acl_is_valid acl size) in
  if negb valid then let? _ := lift (set_error STATUS_INVALID_ACL) in uret (tt, s)
  else
    with_token s handle TOKEN_ADJUST_DEFAULT tt (fun s a t =>
      let? d := if size =? 0 then uret None else memdup acl size in
      uret (tt, set_tokens s (<[a := set_default_dacl t d]> (tokens s)))).

Definition req_create_linked_token (addr : Z) (s : tstate) (handle : Z) : U (Z * tstate) :=
  with_token s handle TOKEN_QUERY 0 (fun s a t =>
    let link elev :=
      let? (l, s) := token_create_admin addr s 0 SecurityIdentification elev (session_id t) in
      let? (h, s) := alloc_checked_handle s l TOKEN_ALL_ACCESS 0 in
      uret (h, release s l) in
    if elevation t =? TokenElevationTypeFull then link TokenElevationTypeLimited
    else if elevation t =? TokenElevationTypeLimited then link TokenElevationTypeFull
    else uret (0, s)).

(** ** Descriptors of objects (handle.c) *)

Definition req_set_security_object (s : tstate) (data : block) (handle info : Z) : U (unit * tstate) :=
  let? valid := try (sd_is_valid (ptr_to data) (Z.of_nat (length data))) in
  if negb valid then let? _ := lift (set_error STATUS_ACCESS_VIOLATION) in uret (tt, s)
  else
    let acc := if has_bits info OWNER_SECURITY_INFORMATION || has_bits info GROUP_SECURITY_INFORMATION ||
                  has_bits info LABEL_SECURITY_INFORMATION then WRITE_OWNER else 0 in
    let acc := if has_bits info SACL_SECURITY_INFORMATION then Z.lor acc ACCESS_SYSTEM_SECURITY else acc in
    let acc := if has_bits info DACL_SECURITY_INFORMATION then Z.lor acc WRITE_DAC else acc in
    let? (obj, s) := lift (get_obj s handle acc None) in
    match obj with
    | None => uret (tt, s)
    | Some obj =>
        let? (_, s) := set_sd_defaults_from_token s obj (ptr_to data) info (process_tok s) in
        uret (tt, release s obj)
    end.

(** The length of the descriptor and, if there is room, the descriptor. *)
Definition req_get_security_object (s : tstate) (handle info reply_max : Z) : U (Z * option block * tstate) :=
  let acc := if has_bits info SACL_SECURITY_INFORMATION then Z.lor READ_CONTROL ACCESS_SYSTEM_SECURITY
             else READ_CONTROL in
  let? (obj, s) := lift (get_obj s handle acc None) in
  match obj with
  | None => uret (0, None, s)
  | Some obj =>
      match sds s !! obj with
      | None => uret (0, None, release s obj)
      | Some sd =>
          let? control := try (sd_control sd) in
          let control := Z.land control (not32 SE_SELF_RELATIVE) in
          let? own := try (sd_get_owner sd) in
          let? ol := if has_bits info OWNER_SECURITY_INFORMATION then try (sd_owner_len sd) else uret 0 in
          let? grp := try (sd_get_group sd) in
          let? gl := if has_bits info GROUP_SECURITY_INFORMATION then try (sd_group_len sd) else uret 0 in
          let? (sacl, present) := try (sd_get_sacl sd) in
          let? sacl :=
            if has_bits info SACL_SECURITY_INFORMATION && present then
              let? n := try (sd_sacl_len sd) in uret (Some (sacl, n))
            else
              match (if has_bits info LABEL_SECURITY_INFORMATION && present then sacl else None) with
              | Some p =>
                  let? l := extract_security_labels p in
                  match l with
                  | None => uret None
                  | Some l => let? n := try (acl_size l) in uret (Some (Some l, n))
                  end
              | None => uret (Some (sacl, 0))
              end in
          match sacl with
          | None => uret (0, None, release s obj)
          | Some (sacl, sl) =>
              let? (dacl, present) := try (sd_get_dacl sd) in
              let? dl := if has_bits info DACL_SECURITY_INFORMATION && present then try (sd_dacl_len sd) else uret 0 in
              let n := sizeof_sd + ol + gl + sl + dl in
              if n <=? reply_max then
                let? ok := lift (set_reply_data_size n) in
                if negb ok then try None
                else
                  let? o := try (copy_part own ol) in
                  let? g := try (copy_part grp gl) in
                  let? sb := try (copy_part sacl sl) in
                  let? db := try (copy_part dacl dl) in
                  uret (n, Some (bytes (sd_header control ol gl sl dl) ++ o ++ g ++ sb ++ db), release s obj)
              else
                let? _ := lift (set_error STATUS_BUFFER_TOO_SMALL) in uret (n, None, release s obj)
          end
      end
  end.
End server.
