(* ===== verification/TokenClaims.v ===== *)
(** * Security: what the theorems show

    The statements about security descriptors, access checks and tokens, and the
    states on which they are tried out. *)

From Stdlib Require Import ZArith Lia Strings.Byte.
From stdpp Require Import base list numbers option gmap.
From S2P Require Import Prelude Handles HandleTheorems HandleCounts HandleClaims Memory Security SecurityLists SecurityDescr Tokens TokenAccess TokenTheorems TokenRestrict TokenDescr TokenRequests.

#[local] Open Scope Z_scope.
#[local] Open Scope server_scope.

(** ** Samples *)

(** Two SIDs, entries that allow or deny, an ACL and a descriptor. *)
Definition user_sid : list byte := sid_bytes 5 [21; 1000].

Definition group1_sid : list byte := sid_bytes 5 [32; 545].

Definition allow (s : list byte) (mask : Z) : ace := mk_ace ACCESS_ALLOWED_ACE_TYPE 0 mask s [].

Definition deny (s : list byte) (mask : Z) : ace := mk_ace ACCESS_DENIED_ACE_TYPE 0 mask s [].

Definition label_ace (s : list byte) : ace := mk_ace SYSTEM_MANDATORY_LABEL_ACE_TYPE 0 1 s [].

Definition encode_acl (l : list ace) : list byte :=
  encode_header ACL_REVISION 0 (acl_bytes l) (Z.of_nat (length l)) 0 ++ encode_aces l.

(** A descriptor whose owner and group are [owner], with a DACL. *)
Definition encode_sd (owner : list byte) (l : list ace) : list byte :=
  sd_header SE_DACL_PRESENT (Z.of_nat (length owner)) (Z.of_nat (length owner)) 0 (acl_bytes l) ++
  owner ++ owner ++ encode_acl l.

Definition sample_map : generic_map := mk_map 1 2 4 0x1f0007.

Definition no_alloc : senv := mk_senv 0 [].

Lemma wf_sid_check s :
  match s !! 1%nat with Some n => Z.of_nat (length s) =? sid_header + 4 * Z_of_byte n | None => false end = true -> wf_sid s.
Proof. unfold wf_sid. destruct (s !! 1%nat) as [n|]; [|done]. intros H%Z.eqb_eq. by exists n. Qed.

Lemma user_sid_wf : wf_sid user_sid.
Proof. by apply wf_sid_check. Qed.

Lemma group1_sid_wf : wf_sid group1_sid.
Proof. by apply wf_sid_check. Qed.

Lemma readable_all s : readable (ptr_to (bytes s)) (Z.of_nat (length s)).
Proof. exists s. split; [apply points_ptr_to|done]. Qed.

Lemma wf_ace_check a :
  valid_ace_type (a_type a) && (0 <=? a_flags a) && (a_flags a <? 256) && (0 <=? a_mask a) && (a_mask a <? 2 ^ 32) &&
  (a_size a <? 2 ^ 16) = true -> wf_sid (a_sid a) -> wf_ace a.
Proof.
  rewrite !andb_true_iff, !Z.leb_le, !Z.ltb_lt. intros H Hs. unfold wf_ace. decompose [and] H. split_and!; (done || lia).
Qed.

(** Lists of sample entries. *)
Ltac wf_aces :=
  repeat first [apply List.Forall_nil | apply List.Forall_cons];
  (apply wf_ace_check; [reflexivity|first [exact user_sid_wf | exact group1_sid_wf]]).

Lemma sample_acl l :
  Forall wf_ace l -> acl_bytes l < 2 ^ 16 -> acl_block (ptr_to (bytes (encode_acl l))) ACL_REVISION l.
Proof. intros Hw Hb. unfold encode_acl. rewrite bytes_app. by apply wf_block. Qed.

Lemma sample_sd o l :
  wf_sid o -> Z.of_nat (length o) < sid_header + 4 * 255 -> Forall wf_ace l -> acl_bytes l < MAX_ACL_LEN ->
  valid_sd (ptr_to (bytes (encode_sd o l))) (mk_descr SE_DACL_PRESENT (Some o) (Some o) None (Some l)).
Proof.
  intros Ho Hlo Hw Hl. unfold encode_sd. rewrite !bytes_app. pose proof (wf_sid_len o Ho). unfold MAX_ACL_LEN in *.
  assert (Z.of_nat (length (encode_acl l)) = acl_bytes l) as El.
  { unfold encode_acl. rewrite length_app. change (length (encode_header _ _ _ _ _)) with 8%nat. unfold acl_bytes, sizeof_acl. lia. }
  assert (forall q, points q (bytes o) -> member_at sid_in q (Z.of_nat (length o)) (Some o)) as Hm.
  { intros q Hq. split; [unfold sid_header in *; lia|]. by split. }
  apply (sd_built _ _ _ _ _ o o [] (encode_acl l)); try done.
  intros q Hq. unfold acl_bytes, sizeof_acl in *. split; [lia|]. exists ACL_REVISION, (8 + Z.of_nat (length (encode_aces l))).
  split; [|unfold sizeof_acl; lia]. unfold encode_acl in Hq. rewrite bytes_app, points_app in Hq. destruct Hq as [Hq1 Hq2].
  pose proof (len_aces_bound l Hw). split; [by exists 0, 0|]. unfold ACL_REVISION. split_and!; (done || lia).
Qed.

(** ** Validation *)

(** C26: on [size] bytes that can be read, with no entry that claims to be smaller
    than its own header, acl_is_valid and sd_is_valid never read outside; they
    accept exactly the encodings of a list of entries, and of a descriptor with
    its four members, that fit. *)
Theorem validation_exact p size :
  readable p size -> 0 <= size < 2 ^ 32 ->
  (acl_sizes_ok p size = true ->
   exists ok, acl_is_valid p size = Some ok /\
     (ok = true <-> exists revision sz l, acl_at p revision sz l /\ acl_bytes l <= Z.min size MAX_ACL_LEN)) /\
  (sd_sizes_ok p = true ->
   exists ok, sd_is_valid p size = Some ok /\ (ok = true <-> exists d, sd_at p size d)).
Proof.
  intros Hr Hs. split; intros Hok.
  - by apply acl_is_valid_readable.
  - apply sd_is_valid_readable; [done|lia|done].
Qed.

Lemma validation_exact_witness :
  exists ok, sd_is_valid (ptr_to (bytes (encode_sd user_sid [allow user_sid 1]))) 84 = Some ok /\
    (ok = true <-> exists d, sd_at (ptr_to (bytes (encode_sd user_sid [allow user_sid 1]))) 84 d).
Proof.
  apply (validation_exact (ptr_to (bytes (encode_sd user_sid [allow user_sid 1]))) 84);
    [exact (readable_all (encode_sd user_sid [allow user_sid 1]))|lia|vm_compute; reflexivity].
Defined.

(** ** Labels *)

(** Extracting the labels of a list gives, unless memory runs out, a new list
    of exactly the label entries in order; replacing them gives the entries of the
    old list that are no labels followed by the labels of the new one, or
    STATUS_INVALID_ACL when that is too long.  Both stay within the block they
    allocate. *)
Theorem security_labels_correct p revision sz l old new ro rn lo ln :
  acl_at p revision sz l -> acl_bytes l < 2 ^ 16 ->
  acl_opt old ro lo -> acl_opt new rn ln -> acl_bytes (replaced lo ln) < 2 ^ 32 ->
  uspec (extract_security_labels p) (fun q => acl_block q revision (kept is_label l)) /\
  (acl_bytes (replaced lo ln) <= MAX_ACL_LEN ->
   uspec (replace_security_labels old new)
     (fun q => acl_block q (Z.max (Z.max ACL_REVISION ro) rn) (replaced lo ln))) /\
  (MAX_ACL_LEN < acl_bytes (replaced lo ln) -> forall e,
   replace_security_labels old new e = Some (None, mk_senv STATUS_INVALID_ACL (allocs e))).
Proof.
  intros Hl Hb Ho Hn Hr. split_and!.
  - by apply (extract_labels_spec p revision sz).
  - intros Hle. by apply replace_labels_spec.
  - intros Hlt e. rewrite (replace_labels_at old new ro rn lo ln e Ho Hn Hr). by rewrite (proj2 (Z.ltb_lt _ _) Hlt).
Qed.

Lemma security_labels_correct_witness :
  uspec (extract_security_labels (ptr_to (bytes (encode_acl [allow user_sid 1; label_ace user_sid]))))
    (fun q => acl_block q ACL_REVISION [label_ace user_sid]).
Proof.
  assert (Forall wf_ace [allow user_sid 1; label_ace user_sid]) as Hw
    by wf_aces.
  assert (acl_bytes [allow user_sid 1; label_ace user_sid] < 2 ^ 16) as Hb by (vm_compute; reflexivity).
  apply (security_labels_correct (ptr_to (bytes (encode_acl [allow user_sid 1; label_ace user_sid]))) ACL_REVISION
           (acl_bytes [allow user_sid 1; label_ace user_sid]) [allow user_sid 1; label_ace user_sid] None None 0 0 [] []);
    [exact (proj1 (sample_acl _ Hw Hb))|exact Hb|split; reflexivity|split; reflexivity|vm_compute; reflexivity].
Defined.

(** ** Access *)

(** A token for the user in one group, with two privileges. *)
Definition sample_token : token :=
  mk_token (mk_luid 1 0) (mk_luid 2 0) [mk_privilege (mk_luid 8 0) false false; mk_privilege (mk_luid 23 0) true true]
    [mk_group SE_GROUP_ENABLED (ptr_to (bytes group1_sid))] (ptr_to (bytes user_sid)) (Some 0%nat) (Some 0%nat) 0 0
    (Some (ptr_to (bytes (encode_acl [allow user_sid 1])))) 2 1.

Definition sample_subject : subject := mk_subject user_sid [(SE_GROUP_ENABLED, group1_sid)].

Lemma sample_token_ok : token_ok sample_token sample_subject (Some [allow user_sid 1]).
Proof.
  split; [|done|exists 0%nat; split; [done|cbn; lia]|].
  - split; [apply sid_at_block, user_sid_wf|]. constructor; [|constructor]. split; [done|]. apply sid_at_block, group1_sid_wf.
  - exists ACL_REVISION. apply sample_acl; [wf_aces|vm_compute; reflexivity].
Qed.

(** The user may read, unless the group is denied. *)
Definition sample_dacl : list ace := [deny group1_sid 1; allow user_sid 3].

Lemma sample_dacl_wf : Forall wf_ace sample_dacl.
Proof. wf_aces. Qed.

Definition sample_descr : descr :=
  mk_descr SE_DACL_PRESENT (Some group1_sid) (Some group1_sid) None (Some sample_dacl).

Lemma sample_descr_at : exists size, sd_at (ptr_to (bytes (encode_sd group1_sid sample_dacl))) size sample_descr.
Proof.
  apply valid_sd_at, sample_sd; [apply group1_sid_wf|vm_compute; reflexivity|apply sample_dacl_wf|vm_compute; reflexivity].
Qed.

(** The user may read, says the first entry; the second denies it. *)
Definition late_denial : cptr := ptr_to (bytes (encode_sd group1_sid [allow user_sid 1; deny user_sid 1])).

(** C25: for a token and a descriptor whose parts can be read, token_access_check
    always returns, and what it returns is the decision on sets of rights: an error
    for generic rights or a missing owner or group; everything for an object
    without DACL; otherwise the rights requested if all of them are the owner's,
    covered by the privilege, or allowed by an entry before the first one that
    denies a requested right, and none if not; with MAXIMUM_ALLOWED all rights
    allowed by some entry and denied by none.  Specific rights among those granted
    for MAXIMUM_ALLOWED are granted when they are requested.  The converse fails: a
    right that is allowed and denied by a later entry is granted on request,
    because the first entry decides, but not with MAXIMUM_ALLOWED. *)
Theorem access_check_decides u t p size d desired priv_count mapping :
  subject_at t u -> sd_at p size d -> 0 <= desired < 2 ^ 32 ->
  match priv_count with None => True | Some n => 1 <= n end ->
  (exists r, token_access_check t p desired priv_count mapping = Some r /\
    outcome r = decision u mapping (fst (token_check_privileges t true [mk_luid_attr SeSecurityPrivilege 0])) d desired /\
    (priv_count = None -> has_bits desired MAXIMUM_ALLOWED = true -> forall x, specific x -> within x (ac_granted r) ->
     exists r', token_access_check t p x None mapping = Some r' /\ outcome r' = (STATUS_SUCCESS, x, Some STATUS_SUCCESS))) /\
  option_map outcome (token_access_check sample_token late_denial 1 None sample_map) =
    Some (STATUS_SUCCESS, 1, Some STATUS_SUCCESS) /\
  option_map outcome (token_access_check sample_token late_denial MAXIMUM_ALLOWED None sample_map) =
    Some (STATUS_SUCCESS, 0x1f0000, Some STATUS_SUCCESS).
Proof.
  intros Hu Hd Hr Hc. split; [|split; [by vm_compute|by vm_compute]].
  destruct (token_access_check_at u t p size d desired priv_count mapping Hu Hd Hr Hc) as (r & E & Ho). exists r. split; [done|]. split; [done|].
  intros -> Hm x Hx Hw. destruct (token_access_check_at u t p size d x None mapping Hu Hd) as (r' & E' & Ho'); [destruct Hx; lia|done|].
  exists r'. split; [done|]. rewrite Ho'. apply (decision_maximum u mapping _ d desired); try done. rewrite <-Ho. done.
Qed.

Lemma access_check_decides_witness :
  exists r, token_access_check sample_token (ptr_to (bytes (encode_sd group1_sid sample_dacl))) MAXIMUM_ALLOWED None sample_map = Some r /\
    outcome r = decision sample_subject sample_map false sample_descr MAXIMUM_ALLOWED /\
    exists r', token_access_check sample_token (ptr_to (bytes (encode_sd group1_sid sample_dacl))) 2 None sample_map = Some r' /\
      outcome r' = (STATUS_SUCCESS, 2, Some STATUS_SUCCESS).
Proof.
  destruct sample_descr_at as [size Hd].
  destruct (access_check_decides sample_subject sample_token (ptr_to (bytes (encode_sd group1_sid sample_dacl))) size
    sample_descr MAXIMUM_ALLOWED None sample_map (tok_subject _ _ _ sample_token_ok) Hd ltac:(unfold MAXIMUM_ALLOWED; lia) I) as [(r & E & Ho & H) _].
  exists r. split; [exact E|]. split; [exact Ho|]. apply (H eq_refl eq_refl 2).
  - split; [lia|]. split; [reflexivity|]. split; reflexivity.
  - apply within_land. vm_compute in E. injection E as <-. reflexivity.
Defined.

(** ** Filtered tokens *)

(** A state with the process 1, the thread 2 and the token at 100, which is the
    token of the process and has one handle. *)
Definition token_ops : Z := 7.

Definition sample_table : handle_table := mk_ht (Some 1) 32 1 [Some (mk_he 100 TOKEN_ALL_ACCESS)].

Definition sample_state (t : token) : tstate :=
  mk_ts (mk_world {[ 100 := mk_obj token_ops 2 1 ]} [] {[ 1 := sample_table ]} None) {[ 100 := t ]} ∅ (mk_luid 1000 0) ∅
    {[ 1 := 100 ]}.

(** The rights that the duplicate of the sample token without the group has. *)
Definition filtered_rights (sd : cptr) (desired : Z) : option Z :=
  match token_duplicate token_ops 200 (sample_state sample_token) None sample_token 0 2 None [] (ptr_to (bytes group1_sid)) 1
          no_alloc with
  | Some ((Some a, s), _) =>
      t ← tokens s !! a; r ← token_access_check t sd desired None sample_map; Some (ac_granted r)
  | _ => None
  end.

(** C27: filtering a token, as filter_token does, always completes; without memory
    nothing changes, otherwise the new token has the same user, the same groups
    with the removed ones marked, and the privileges that are not removed.  It is
    granted no right by any descriptor that the source is not granted, unless a
    denying entry names one of the removed groups: a group that is marked for
    denial only is also disabled, so that its denial is lost and the filtered
    token is granted what the source is denied. *)
Theorem filter_token_restricts ops addr s tok src u l privs p removed e :
  unused s addr -> token_ok src u l -> bad_level src (primary src) (impersonation_level src) = false ->
  sids_at p removed ->
  (exists r s' e',
     token_duplicate ops addr s tok src (primary src) (impersonation_level src) None privs p (length removed) e =
       Some ((r, s'), e') /\ (allocs e = [] -> r <> None) /\
     match r with
     | None => same_tokens s s'
     | Some a => a = addr /\ exists t, new_token s s' ops addr t /\ token_ok t (restrict removed u) l /\
         privileges t = kept_privileges (privileges src) privs /\
         forall sd size d desired mapping,
           sd_at sd size d -> 0 <= desired < 2 ^ 32 -> match d_dacl d with Some l => denies_kept removed l | None => True end ->
           exists x y, token_access_check src sd desired None mapping = Some x /\
             token_access_check t sd desired None mapping = Some y /\ within (ac_granted y) (ac_granted x)
     end) /\
  option_map ac_granted
    (token_access_check sample_token (ptr_to (bytes (encode_sd user_sid sample_dacl))) 1 None sample_map) = Some 0 /\
  filtered_rights (ptr_to (bytes (encode_sd user_sid sample_dacl))) 1 = Some 1.
Proof.
  intros Hf Hok Hb Hp. split; [|split; by vm_compute].
  destruct (token_duplicate_spec ops addr s tok src u l (primary src) (impersonation_level src) privs p removed Hf Hok Hb Hp e)
    as (r & s' & e' & E & Hr & He).
  exists r, s', e'. split; [done|]. split; [intros H; by destruct (He H)|]. destruct r as [a|]; [|done].
  destruct Hr as [-> (t & Hnew & Ht & Hpr & _)]. split; [done|]. exists t. split_and!; try done.
  intros sd size d desired mapping Hd Hr Hk.
  destruct (token_access_check_at u src sd size d desired None mapping (tok_subject _ _ _ Hok) Hd Hr I) as (x & Ex & Ox).
  destruct (token_access_check_at _ t sd size d desired None mapping (tok_subject _ _ _ Ht) Hd Hr I) as (y & Ey & Oy).
  exists x, y. split_and!; try done. change (within (rights (outcome y)) (rights (outcome x))). rewrite Ox, Oy.
  apply decision_restrict; [|done]. rewrite !held_check, !bool_decide_eq_true, Hpr. apply held_kept.
Qed.

Lemma filter_token_restricts_witness :
  exists r s' e',
    token_duplicate token_ops 200 (sample_state sample_token) None sample_token 0 2 None [] (ptr_to (bytes group1_sid)) 1 no_alloc =
      Some ((r, s'), e') /\ r <> None.
Proof.
  destruct (filter_token_restricts token_ops 200 (sample_state sample_token) None sample_token sample_subject
    (Some [allow user_sid 1]) [] (ptr_to (bytes group1_sid)) [group1_sid] no_alloc) as [(r & s' & e' & E & Hr & _) _].
  - split; [reflexivity|]. split; reflexivity.
  - exact sample_token_ok.
  - reflexivity.
  - split; [exact (points_ptr_to (bytes group1_sid))|]. apply List.Forall_cons; [exact group1_sid_wf|apply List.Forall_nil].
  - exists r, s', e'. split; [exact E|]. apply Hr. reflexivity.
Defined.

(** ** Privileges *)

(** C29: adjusting makes the privileges of a token without duplicates what the
    requests say, one after the other, and sets STATUS_NOT_ALL_ASSIGNED when one of
    them is not there; besides them only the modified id of the token changes.
    When a request removes none and names none twice, and there is room for all
    states, the states returned undo the adjustment.  Disabling leaves the same
    privileges, all disabled, and checking tells whether all, or some, of the
    privileges asked for are there and enabled. *)
Theorem privileges_correct s addr t req room e :
  NoDup (luids (privileges t)) ->
  (exists s' mods e' t', token_adjust_privileges s addr t req room e = ((s', mods), e') /\
     tokens s' = <[addr := t']> (tokens s) /\ wld s' = wld s /\ sds s' = sds s /\
     t' = set_privileges (set_modified t (fst (allocate_luid s))) (privileges t') /\
     NoDup (luids (privileges t')) /\
     (forall l, held (privileges t') l = adjusted (held (privileges t)) req l) /\
     error e' = (if all_assigned (held (privileges t)) req then error e else STATUS_NOT_ALL_ASSIGNED) /\
     (NoDup (ids req) -> Forall (fun r => has_bits (la_attrs r) SE_PRIVILEGE_REMOVED = false) req ->
      Z.of_nat (length req) <= room ->
      forall room' e2, exists s2 mods2 e2' t2, token_adjust_privileges s' addr t' mods room' e2 = ((s2, mods2), e2') /\
        tokens s2 !! addr = Some t2 /\ forall l, held (privileges t2) l = held (privileges t) l)) /\
  (exists t', tokens (token_disable_privileges s addr t) = <[addr := t']> (tokens s) /\
     forall l, held (privileges t') l = (fun _ => false) <$> held (privileges t) l) /\
  (fst (token_check_privileges t true req) = true <->
     Forall (fun r => held (privileges t) (la_luid r) = Some true) req) /\
  (fst (token_check_privileges t false req) = true <->
     Exists (fun r => held (privileges t) (la_luid r) = Some true) req).
Proof.
  intros Hn. split_and!; [apply adjust_privileges_spec, Hn|apply disable_privileges_spec|apply check_privileges_spec..].
Qed.

Lemma privileges_correct_witness :
  exists s' mods e' t',
    token_adjust_privileges (sample_state sample_token) 100 sample_token [mk_luid_attr (mk_luid 8 0) SE_PRIVILEGE_ENABLED] 1 no_alloc =
      ((s', mods), e') /\ tokens s' = <[100 := t']> (tokens (sample_state sample_token)).
Proof.
  destruct (privileges_correct (sample_state sample_token) 100 sample_token
    [mk_luid_attr (mk_luid 8 0) SE_PRIVILEGE_ENABLED] 1 no_alloc) as [(s' & mods & e' & t' & E & Ht & _) _].
  - apply (bool_decide_unpack _). vm_compute. exact I.
  - exists s', mods, e', t'. split; [exact E|exact Ht].
Defined.

(** ** Descriptors of objects *)

(** Setting the descriptor of an object from a valid one always completes.
    Without memory nothing changes; otherwise the object has a valid descriptor
    that takes the parts named in the request from the new one, with labels
    replaced where only those are named, and the other parts from the old one or
    from the defaults of the token.  No other object is touched. *)
Theorem set_sd_correct s obj sd new old info tok own grp l e :
  valid_sd sd new -> old_ok (sds s !! obj) old -> token_defaults tok own grp l -> labels_fit new old info -> info <> 0 ->
  exists ok s' e', set_sd_defaults_from_token s obj sd info tok e = Some ((ok, s'), e') /\
    (allocs e = [] -> ok = true) /\
    if ok then exists q, s' = set_sds s (<[obj := q]> (sds s)) /\ valid_sd q (merge new old info own grp l)
    else s' = s.
Proof.
  intros Hn Ho Ht Hf Hi. unfold set_sd_defaults_from_token. rewrite (proj2 (Z.eqb_neq info 0) Hi).
  destruct (set_sd_spec sd new (sds s !! obj) old info tok own grp l Hn Ho Ht Hf e) as (r & e' & E & Hr & He).
  unfold ubind. rewrite E. destruct r as [q|].
  - eexists true, _, e'. split; [done|]. split; [done|]. by exists q.
  - exists false, s, e'. split; [done|]. split; [|done]. intros H. by destruct (He H).
Qed.

Lemma set_sd_correct_witness :
  exists ok s' e',
    set_sd_defaults_from_token (sample_state sample_token) 300 (ptr_to (bytes (encode_sd group1_sid sample_dacl)))
      DACL_SECURITY_INFORMATION (Some sample_token) no_alloc = Some ((ok, s'), e') /\ ok = true.
Proof.
  destruct (set_sd_correct (sample_state sample_token) 300 (ptr_to (bytes (encode_sd group1_sid sample_dacl))) sample_descr None
    DACL_SECURITY_INFORMATION (Some sample_token) (Some group1_sid) (Some group1_sid) (Some [allow user_sid 1]) no_alloc)
    as (ok & s' & e' & E & Hok & _).
  - apply sample_sd; [exact group1_sid_wf|vm_compute; reflexivity|exact sample_dacl_wf|vm_compute; reflexivity].
  - exact I.
  - split.
    + exists (ptr_to (bytes group1_sid)). split; [reflexivity|]. split; [apply sid_at_block, group1_sid_wf|vm_compute; reflexivity].
    + exists (ptr_to (bytes group1_sid)). split; [reflexivity|]. split; [apply sid_at_block, group1_sid_wf|vm_compute; reflexivity].
    + split; [exact (tok_dacl _ _ _ sample_token_ok)|vm_compute; reflexivity].
  - vm_compute. reflexivity.
  - discriminate.
  - exists ok, s', e'. split; [exact E|]. apply Hok. reflexivity.
Defined.

(** ** Opening objects *)

Definition sample_ops (_ : Z) : object_ops := mk_ops (fun _ a => map_access a sample_map) (fun _ _ _ => true).

(** An object at 300 whose DACL names a bit that handle entries reserve. *)
Definition reserved_state : tstate :=
  mk_ts (mk_world {[ 100 := mk_obj token_ops 2 1; 300 := mk_obj 9 1 0 ]} [] {[ 1 := sample_table ]} None)
    {[ 100 := sample_token ]}
    {[ 300 := ptr_to (bytes (encode_sd group1_sid [allow user_sid (Z.lor 1 RESERVED_CLOSE_PROTECT)])) ]}
    (mk_luid 1000 0) ∅ {[ 1 := 100 ]}.

(** Opening it. *)
Definition open_reserved (acc : Z) : option Z :=
  match alloc_checked_handle sample_ops 2 1 reserved_state 300 acc 0 no_alloc with
  | Some ((h, _), _) => Some h
  | None => None
  end.

(** The rights of a handle entry. *)
Definition entry_rights (acc attr : Z) : Z := if has_bits attr OBJ_INHERIT then Z.lor acc RESERVED_INHERIT else acc.

(** C28: opening an object with a descriptor gives a handle exactly when the
    decision on the descriptor and the token of the thread grants access; the
    handle is new and carries the rights granted.  Otherwise STATUS_ACCESS_DENIED
    is set and nothing changes.  Rights granted with a bit that handle entries reserve
    fail an assertion, which ends the server.  With MAXIMUM_ALLOWED the rights come
    from the DACL, and such a bit in it is enough: an object that can be opened for
    one right ends the server when it is opened for the maximum. *)
Theorem open_handle_access ops_table thread proc s obj acc attr e sd size d a t u ht :
  world_wf (wld s) -> handles (wld s) !! proc = Some ht -> is_Some (objects (wld s) !! obj) ->
  sds s !! obj = Some sd -> sd_at sd size d ->
  cur_impersonation (current thread proc s) = Some a -> tokens s !! a = Some t -> subject_at t u ->
  let map x := map_access_op (methods ops_table (wld s) obj) obj x in
  let acc' := Z.land (map acc) (not32 RESERVED_ALL) in
  0 < acc' < 2 ^ 32 ->
  let dec := decision u (mk_map (map GENERIC_READ) (map GENERIC_WRITE) (map GENERIC_EXECUTE) (map GENERIC_ALL))
               (fst (token_check_privileges t true [mk_luid_attr SeSecurityPrivilege 0])) d acc' in
  let granted := (fst (fst dec) =? STATUS_SUCCESS) && bool_decide (snd dec = Some STATUS_SUCCESS) in
  (if granted && has_bits (rights dec) RESERVED_ALL then alloc_checked_handle ops_table thread proc s obj acc attr e = None
   else
     exists h s' e', alloc_checked_handle ops_table thread proc s obj acc attr e = Some ((h, s'), e') /\
       if granted then
         (h = 0 -> wld s' = wld s /\ error e' = STATUS_INSUFFICIENT_RESOURCES) /\
         (h <> 0 -> get_handle (wld s) proc h = None /\
            exists i, get_handle (wld s') proc h = Some (Some proc, i, mk_he obj (entry_rights (rights dec) attr)))
       else h = 0 /\ s' = s /\ error e' = STATUS_ACCESS_DENIED) /\
  open_reserved 1 = Some 8 /\ open_reserved MAXIMUM_ALLOWED = None.
Proof.
  intros W Hh Ho Hsd Hd Hc Ht Hu map acc' Ha dec granted. split; [|split; by vm_compute].
  assert (E : alloc_checked_handle ops_table thread proc s obj acc attr e =
    if granted then
      if has_bits (rights dec) RESERVED_ALL then None
      else let '((h, w), e') := alloc_entry (wld s) (Some proc) obj (entry_rights (rights dec) attr) e in Some ((h, set_wld s w), e')
    else Some ((0, s), mk_senv STATUS_ACCESS_DENIED (allocs e))).
  { unfold alloc_checked_handle. fold (map acc). fold acc'. rewrite (proj2 (Z.eqb_neq acc' 0)) by lia.
    destruct (token_access_check_at u t sd size d acc' None (mk_map (map GENERIC_READ) (map GENERIC_WRITE) (map GENERIC_EXECUTE) (map GENERIC_ALL))
                Hu Hd ltac:(lia) I) as (r & Er & Or). fold dec in Or.
    unfold ubind at 1, check_object_access. rewrite Hsd, Hc. cbn [mbind option_bind]. unfold ubind at 1, try. rewrite Ht. unfold ubind at 1.
    unfold map in Er. rewrite Er. unfold granted. rewrite <-Or. unfold outcome, rights. cbn [fst snd].
    destruct ((ac_ret r =? STATUS_SUCCESS) && bool_decide (ac_status r = Some STATUS_SUCCESS)); [|reflexivity].
    unfold uret, ubind, lift, alloc_handle_entry. destruct (has_bits (ac_granted r) RESERVED_ALL); [reflexivity|]. rewrite Hh. fold (entry_rights (ac_granted r) attr). unfold bind.
    by destruct (alloc_entry (wld s) (Some proc) obj (entry_rights (ac_granted r) attr) e) as [[h w'] e']. }
  rewrite E. destruct granted; cbn [andb]; [|by eexists 0, s, _]. destruct (has_bits (rights dec) RESERVED_ALL); [done|].
  pose proof (alloc_entry_ok (wld s) proc ht obj (entry_rights (rights dec) attr) e W Hh Ho) as H.
  destruct (alloc_entry (wld s) (Some proc) obj (entry_rights (rights dec) attr) e) as [[h w'] e'].
  exists h, (set_wld s w'), e'. split; [done|]. destruct H as [H1 H2]. split.
  - intros H. by destruct (H1 H) as (-> & ? & _).
  - intros H. destruct (H2 H) as (i & _ & _ & Hn & Hs & _). split; [done|]. by exists i.
Qed.

(** The world of the handle tables with a descriptor for its object. *)
Definition opened_state : tstate :=
  mk_ts test_world {[ 100 := sample_token ]} {[ 7 := ptr_to (bytes (encode_sd group1_sid sample_dacl)) ]} (mk_luid 1000 0) ∅
    {[ 1 := 100 ]}.

Lemma open_handle_access_witness :
  exists h s' e', alloc_checked_handle sample_ops 2 1 opened_state 7 2 0 no_alloc = Some ((h, s'), e') /\ h = 8 /\
    exists i, get_handle (wld s') 1 h = Some (Some 1, i, mk_he 7 2).
Proof.
  destruct sample_descr_at as [size Hd].
  destruct (open_handle_access sample_ops 2 1 opened_state 7 2 0 no_alloc (ptr_to (bytes (encode_sd group1_sid sample_dacl))) size
    sample_descr 100 sample_token sample_subject test_table) as [H0 _].
  - exact test_world_wf.
  - vm_compute. reflexivity.
  - eexists. vm_compute. reflexivity.
  - vm_compute. reflexivity.
  - exact Hd.
  - vm_compute. reflexivity.
  - vm_compute. reflexivity.
  - exact (tok_subject _ _ _ sample_token_ok).
  - vm_compute. split; reflexivity.
  - cbv zeta in H0.
    match type of H0 with context [decision ?a ?b ?c ?d ?f] =>
      replace (decision a b c d f) with (STATUS_SUCCESS, 2, Some STATUS_SUCCESS) in H0 by (vm_compute; reflexivity) end.
    destruct H0 as (h & s' & e' & E & H). exists h, s', e'. split; [exact E|].
    assert (h = 8) as Eh.
    { assert (option_map (fun x => fst (fst x)) (alloc_checked_handle sample_ops 2 1 opened_state 7 2 0 no_alloc) = Some 8)
        as Ec by (vm_compute; reflexivity). rewrite E in Ec. injection Ec as Ec. exact Ec. }
    split; [exact Eh|]. destruct H as [_ H]. destruct H as [_ (i & H)]; [rewrite Eh; discriminate|]. exists i. exact H.
Defined.

(** ** Where the code is wrong *)

(** An ACL of one entry with the given size field; [rest] follows its header. *)
Definition small_acl (type size : Z) (rest : list byte) : list byte :=
  encode_header ACL_REVISION 0 (16 + Z.of_nat (length rest)) 1 0 ++
  [byte_of_Z type; x00] ++ le16 size ++ le32 1 ++ rest.

(** A descriptor with owner and group and the bytes of a DACL. *)
Definition sd_with_dacl (acl : list byte) : list byte :=
  sd_header SE_DACL_PRESENT (Z.of_nat (length group1_sid)) (Z.of_nat (length group1_sid)) 0 (Z.of_nat (length acl)) ++
  group1_sid ++ group1_sid ++ acl.

(** A descriptor that has an owner only. *)
Definition sd_with_owner : list byte := sd_header 0 (Z.of_nat (length user_sid)) 0 0 0 ++ user_sid.

(** The state after setting the default DACL of the sample token. *)
Definition after_set_dacl (data : list byte) : option tstate :=
  match req_set_token_default_dacl token_ops 2 1 (sample_state sample_token) (bytes data) 4 no_alloc with
  | Some ((_, s), _) => Some s
  | None => None
  end.

(** Is the next request defined: getting the default DACL, setting the owner. *)
Definition get_dacl_defined (s : tstate) : bool :=
  match req_get_token_default_dacl token_ops 2 1 s 4 1000 no_alloc with Some _ => true | None => false end.

Definition set_owner_defined (s : tstate) : bool :=
  match req_set_security_object 2 1 s (bytes sd_with_owner) 4 OWNER_SECURITY_INFORMATION no_alloc with
  | Some _ => true
  | None => false
  end.

(** Object attributes, a user, one group and no privileges. *)
Definition create_data : list byte :=
  le32 0 ++ le32 0 ++ le32 0 ++ le32 0 ++ user_sid ++ le32 SE_GROUP_ENABLED ++ group1_sid ++ encode_acl [allow user_sid 1].

(** The counts of the new token after create_token. *)
Definition created_counts : option (Z * Z) :=
  match req_create_token sample_ops token_ops 2 1 0 200 (sample_state sample_token) (bytes create_data) TOKEN_QUERY 0 2 1 0 0 no_alloc with
  | Some ((_, s), _) => o ← objects (wld s) !! 200; Some (refcount o, handle_count o)
  | None => None
  end.

(** A request for two privileges, one to be removed and one to be disabled. *)
Definition remove_data : list byte :=
  le32 8 ++ le32 0 ++ le32 SE_PRIVILEGE_REMOVED ++ le32 23 ++ le32 0 ++ le32 0.

Definition adjust_reply : option (list (option luid_attr)) :=
  match req_adjust_token_privileges token_ops 2 1 (sample_state sample_token) (bytes remove_data) 4 false true 24 no_alloc with
  | Some ((r, _), _) => Some r
  | None => None
  end.

(** What is left of a privilege that create_token got twice, after its removal. *)
Definition twice_data : list byte :=
  let p := le32 23 ++ le32 0 ++ le32 SE_PRIVILEGE_ENABLED in
  le32 0 ++ le32 0 ++ le32 0 ++ le32 0 ++ user_sid ++ le32 SE_GROUP_ENABLED ++ group1_sid ++ p ++ p.

Definition held_after_removal : option bool :=
  match req_create_token sample_ops token_ops 2 1 0 200 (sample_state sample_token) (bytes twice_data) TOKEN_QUERY 0 2 1 0 2 no_alloc with
  | Some ((_, s), _) =>
      t ← tokens s !! 200;
      t' ← tokens (fst (fst (token_adjust_privileges s 200 t [mk_luid_attr (mk_luid 23 0) SE_PRIVILEGE_REMOVED] 0 no_alloc))) !! 200;
      held (privileges t') (mk_luid 23 0)
  | None => None
  end.

(** C30: an entry whose size field is smaller than its header passes for one with a
    huge SID: validation reads behind a list of 16 bytes; it accepts a descriptor
    whose list is two bytes longer, and the access check then reads behind it; a
    label of one byte is accepted, and extracting it uses the size of a copy that
    was never written.  The size field of an ACL is not validated, but used: setting
    a default DACL that claims more bytes than it has makes the request to get it
    read behind the copy.  Without a default DACL, setting a descriptor that has
    none either follows a null pointer.  Creating a token without data reads
    behind the request, and the token created keeps a second reference; a privilege
    that it is given twice is still held after its removal.  Adjusting privileges
    returns bytes that were never written for those it removes. *)
Theorem security_requests_crash :
  acl_is_valid (ptr_to (bytes (small_acl ACCESS_ALLOWED_ACE_TYPE 0 []))) 16 = None /\
  (let sd := ptr_to (bytes (sd_with_dacl (small_acl ACCESS_ALLOWED_ACE_TYPE 0 [x01; x02]))) in
   sd_is_valid sd (Z.of_nat (length (blk sd))) = Some true /\
   token_access_check sample_token sd 1 None sample_map = None) /\
  (let acl := ptr_to (bytes (small_acl SYSTEM_MANDATORY_LABEL_ACE_TYPE 1 [x01; x00])) in
   acl_is_valid acl 18 = Some true /\ extract_security_labels acl no_alloc = None) /\
  get_dacl_defined (sample_state sample_token) = true /\
  option_map get_dacl_defined (after_set_dacl (encode_header ACL_REVISION 0 100 0 0)) = Some false /\
  set_owner_defined (sample_state sample_token) = true /\
  option_map set_owner_defined (after_set_dacl []) = Some false /\
  req_create_token sample_ops token_ops 2 1 0 200 (sample_state sample_token) [] TOKEN_QUERY 0 2 1 0 0 no_alloc = None /\
  created_counts = Some (2, 1) /\ held_after_removal = Some true /\
  adjust_reply = Some [Some (mk_luid_attr (mk_luid 23 0) 3); None].
Proof.
  split; [by vm_compute|]. split; [split; by vm_compute|]. split; [split; by vm_compute|].
  repeat (split; [by vm_compute|]). by vm_compute.
Qed.
