(* ===== verification/RegistryText.v ===== *)
(** * The text of the registry: values

    server/registry.c writes every value of a key as one line of text, or several
    for long binary data, and reads them back line by line.  A file is the list of
    the bytes that are left to read, or that were written; a C string is the list
    of its characters without the terminating NUL.  Long names and data are held in
    two growing buffers, of which only the sizes matter.  A write outside a local
    array and a read in front of a buffer are [None]. *)

From Stdlib Require Import ZArith Lia Ascii String.
From stdpp Require Import base list numbers option gmap.
From S2P Require Import Prelude Unicode Registry Memory.

#[local] Open Scope Z_scope.
#[local] Open Scope server_scope.

Definition REG_SZ : Z := 1.

Definition REG_EXPAND_SZ : Z := 2.

Definition REG_BINARY : Z := 3.

Definition REG_DWORD : Z := 4.

Definition REG_MULTI_SZ : Z := 7.

(** ** printf and strtoul *)

(** The characters of a literal. *)
Definition chars (s : string) : list Z := (fun a => Z.of_N (N_of_ascii a)) <$> list_ascii_of_string s.

(** The [n] last hexadecimal digits: %02x, %08x. *)
Fixpoint fmt_digits (n : nat) (v : Z) : list Z :=
  match n with
  | O => []
  | S n => digit (Z.land (Z.shiftr v (4 * Z.of_nat n)) 15) :: fmt_digits n v
  end.

(** %x of an unsigned int. *)
Definition fmt_x32 (v : Z) : list Z := strip_zeros (fmt_digits 8 v).

Definition isspace (c : Z) : bool := (c =? 32) || ((9 <=? c) && (c <=? 13)).

Fixpoint skip_spaces (p : list Z) : list Z :=
  match p with
  | c :: q => if isspace c then skip_spaces q else p
  | [] => []
  end.

(** The value of the hexadecimal digits at [p] after those worth [acc]. *)
Fixpoint hex_value (p : list Z) (acc : Z) : Z * list Z :=
  match p with
  | c :: q => if isxdigit c then hex_value q (acc * 16 + to_hex c) else (acc, p)
  | [] => (acc, [])
  end.

Definition ULONG_MAX : Z := 2 ^ 64 - 1.

(** The prefix 0x, if a digit follows. *)
Definition skip_0x (p : list Z) : list Z :=
  match p with
  | c :: x :: ((h :: _) as q) =>
      if (c =? 48) && ((x =? 120) || (x =? 88)) && isxdigit h then q else p
  | _ => p
  end.

(** strtoul in base 16: the value and where it ends. *)
Definition strtoul16 (p : list Z) : Z * list Z :=
  let s := skip_spaces p in
  let neg := deref s =? 45 in
  let s := skip_0x (if neg || (deref s =? 43) then tail s else s) in
  if isxdigit (deref s) then
    let '(v, e) := hex_value s 0 in
    (if ULONG_MAX <? v then ULONG_MAX else if neg then u64 (- v) else v, e)
  else (0, p).

(** ** Writing *)

(** Bytes as WCHARs; the last byte of an odd number is left out. *)
Fixpoint wchars_of (l : list Z) : list Z :=
  match l with
  | lo :: hi :: l => lo + 256 * hi :: wchars_of l
  | _ => []
  end.

Definition is_string_type (type : Z) : bool :=
  (type =? REG_SZ) || (type =? REG_EXPAND_SZ) || (type =? REG_MULTI_SZ).

(** Only properly terminated strings are written as strings. *)
Definition terminated (data : list Z) : bool :=
  let len := Z.of_nat (length data) in
  (2 <=? len) && (len mod sizeof_WCHAR =? 0) &&
  match last (wchars_of data) with Some c => c =? 0 | None => false end.

(** An unsigned int in memory. *)
Definition dword_of (data : list Z) : Z :=
  match data with
  | [b0; b1; b2; b3] => b0 + 2 ^ 8 * b1 + 2 ^ 16 * b2 + 2 ^ 24 * b3
  | _ => 0
  end.

(** The loop over the bytes; [count] is the length of the line so far. *)
Fixpoint dump_hex (data : list Z) (count : Z) : list Z :=
  match data with
  | [] => [10]
  | [b] => fmt_digits 2 b ++ [10]
  | b :: data =>
      fmt_digits 2 b ++ 44 ::
      (if 76 <? count + 3 then [92; 10; 32; 32] ++ dump_hex data 2 else dump_hex data (count + 3))
  end.

(** What stands behind the name; [count] is the length of the name. *)
Definition dump_data (type : Z) (data : list Z) (count : Z) : list Z :=
  if is_string_type type && terminated data then
    (if type =? REG_SZ then [] else chars "str(" ++ fmt_x32 type ++ chars "):") ++
    34 :: fst (dump_strW (wchars_of (take (length data - 2) data)) (34, 34)) ++ [34; 10]
  else if (type =? REG_DWORD) && (length data =? 4)%nat then
    chars "dword:" ++ fmt_digits 8 (dword_of data) ++ [10]
  else
    let tag := if type =? REG_BINARY then chars "hex:" else chars "hex(" ++ fmt_x32 type ++ chars "):" in
    tag ++ dump_hex data (count + Z.of_nat (length tag)).

Definition dump_value (v : key_value) : list Z :=
  match v_name v with
  | [] => chars "@=" ++ dump_data (v_type v) (v_data v) 2
  | name =>
      let '(text, n) := dump_strW name (34, 34) in
      let order := fmt_x32 (v_order v) in
      34 :: text ++ [34; 36] ++ order ++ 61 ::
      dump_data (v_type v) (v_data v) (1 + n + 2 + Z.of_nat (length order))
  end.

(** ** Reading lines *)

(** struct file_load_info: what is left of the file, and the sizes of the line
    buffer and of the buffer for WCHARs. *)
Record file_load_info := mk_info {
  fi_file : list Z;
  fi_len : Z;
  fi_tmplen : Z
}.

(** What fgets takes from a file if it may store [n] characters. *)
Fixpoint fgets (n : nat) (file : list Z) : list Z * list Z :=
  match n, file with
  | S n, c :: file =>
      if c =? 10 then ([c], file) else let '(l, file) := fgets n file in (c :: l, file)
  | _, _ => ([], file)
  end.

(** The C string that a buffer holds. *)
Fixpoint c_string (l : list Z) : list Z :=
  match l with
  | [] => []
  | c :: l => if c =? 0 then [] else c :: c_string l
  end.

(** The carriage return in front of a newline. *)
Definition strip_cr (s : list Z) : list Z :=
  match last s with Some 13 => removelast s | _ => s end.

(** The loop, with what the buffer holds; the result is 1, 0 at the end of the
    file or -1 without memory.  Every round reads at least one character. *)
Fixpoint line_loop (fuel : nat) (buf : list Z) (info : file_load_info) : U (Z * list Z * file_load_info) :=
  match fuel with
  | O => try None
  | S fuel =>
      if (length (fi_file info) =? 0)%nat then uret (match buf with [] => 0 | _ => 1 end, buf, info)
      else
        let '(chunk, file) := fgets (Z.to_nat (fi_len info - Z.of_nat (length buf) - 1)) (fi_file info) in
        let info := mk_info file (fi_len info) (fi_tmplen info) in
        let s := c_string (buf ++ chunk) in
        let? c := try (last s) in
        if c =? 10 then uret (1, strip_cr (removelast s), info)
        else if Z.of_nat (length s) <? fi_len info - 1 then uret (1, s, info)
        else
          let newlen := i32 (fi_len info + fi_len info / 2) in
          let? ok := lift malloc in
          if ok && (0 <? newlen) then line_loop fuel s (mk_info file newlen (fi_tmplen info))
          else let? _ := lift (set_error STATUS_NO_MEMORY) in uret (-1, s, info)
  end.

Definition read_next_line (info : file_load_info) : U (Z * list Z * file_load_info) :=
  line_loop (S (length (fi_file info))) [] info.

Definition get_file_tmp_space (info : file_load_info) (size : Z) : M (file_load_info * bool) :=
  if size <=? fi_tmplen info then ret (info, true)
  else
    let* ok := malloc in
    if negb ok then set_error STATUS_NO_MEMORY ;;; ret (info, false)
    else ret (mk_info (fi_file info) (fi_len info) size, true).

(** ** Reading values *)

(** How the data are written. *)
Inductive parse_type := ParseString | ParseBinary | ParseDword.

(** The table of tags: the type of the data, the way to parse them and where they
    start. *)
Definition data_types : list (list Z * Z * parse_type) :=
  [([34], REG_SZ, ParseString);
   (chars "str:" ++ [34], REG_SZ, ParseString);
   (chars "str(2):" ++ [34], REG_EXPAND_SZ, ParseString);
   (chars "str(7):" ++ [34], REG_MULTI_SZ, ParseString);
   (chars "hex:", REG_BINARY, ParseBinary);
   (chars "dword:", REG_DWORD, ParseDword);
   (chars "hex(", -1, ParseBinary)].

Definition starts_with (tag p : list Z) : bool := bool_decide (take (length tag) p = tag).

Fixpoint find_type (l : list (list Z * Z * parse_type)) (p : list Z) : option (Z * parse_type * list Z) :=
  match l with
  | [] => None
  | (tag, type, parse) :: l =>
      if negb (starts_with tag p) then find_type l p
      else if negb (type =? -1) then Some (type, parse, drop (length tag) p)
      else
        let '(v, e) := strtoul16 (drop 4 p) in
        if starts_with (chars "):") e then Some (i32 v, parse, drop 2 e) else None
  end.

Definition get_data_type (p : list Z) : option (Z * parse_type * list Z) := find_type data_types p.

(** The bytes of a line of hexadecimal data, at most [room], and where they end;
    [None] is the result -1.  Every round takes at least one character. *)
Fixpoint parse_hex (fuel : nat) (room : Z) (p : list Z) : option (option (list Z * list Z)) :=
  if negb (isxdigit (deref p)) then Some (Some ([], p))
  else
    match fuel with
    | O => None
    | S fuel =>
        let '(v, e) := strtoul16 p in
        let val := u32 v in
        if bool_decide (e = p) || (0xff <? val) then Some None
        else if room =? 0 then Some None
        else
          let q := skip_spaces e in
          let q := if deref q =? 44 then tail q else q in
          r ← parse_hex fuel (room - 1) (skip_spaces q);
          Some (match r with None => None | Some (l, q) => Some (val :: l, q) end)
    end.

Definition sizeof_order_buf : nat := 512.

(** The digits of the order up to '=', copied to a local array; [Some None] is an
    error. *)
Fixpoint order_digits (i : nat) (p : list Z) : option (option (list Z * list Z)) :=
  let c := deref p in
  if c =? 61 then Some (Some ([], p))
  else if (sizeof_order_buf <=? i)%nat then None
  else if negb (isxdigit c) then Some None
  else
    match p with
    | [] => Some None
    | _ :: p =>
        r ← order_digits (S i) p;
        Some (match r with None => None | Some (l, q) => Some (c :: l, q) end)
    end.

(** The optional order behind a name: the order, -1 without one, and the rest. *)
Definition parse_order (p : list Z) : option (option (Z * list Z)) :=
  if negb (deref p =? 36) then Some (Some (-1, p))
  else
    r ← order_digits 0 (tail p);
    match r with
    | None | Some ([], _) => Some None
    | Some (l, q) =>
        if (sizeof_order_buf <=? length l)%nat then None else Some (Some (i32 (fst (strtoul16 l)), q))
    end.

(** The name and what follows it, with [tmplen] bytes for the name. *)
Definition parse_name (buffer : list Z) (tmplen : Z) : option (option (list Z * list Z)) :=
  if deref buffer =? 64 then Some (Some ([], tail buffer))
  else
    '(r, str, len) ← parse_strW tmplen (tail buffer) 34;
    Some (if r =? -1 then None
          else Some (take (Z.to_nat (len / sizeof_WCHAR - 1)) str, drop (Z.to_nat r) (tail buffer))).

(** The name, the order and where the data start. *)
Definition parse_head (buffer : list Z) (tmplen : Z) : option (option (list Z * Z * list Z)) :=
  name ← parse_name buffer tmplen;
  match name with
  | None => Some None
  | Some (name, p) =>
      order ← parse_order (skip_spaces p);
      Some (match order with
            | None => None
            | Some (order, p) => if negb (deref p =? 61) then None else Some (name, order, skip_spaces (tail p))
            end)
  end.

Section values.
Variable casemap : Z -> Z.

(** The index of the value of that name, which is new if there was none. *)
Definition find_or_insert (k : key) (name : list Z) (order : Z) : U (key * option Z) :=
  let? (found, index) := try (find_value casemap k name) in
  if (found : bool) then uret (k, Some index)
  else
    let? r := lift (insert_value k name index order) in
    let? (k, ok) := try r in
    uret (k, if (ok : bool) then Some index else None).

(** The key, which may have a new value; the index of the value and where its data
    start, or [None] after an error. *)
Definition parse_value_name (k : key) (buffer : list Z) (info : file_load_info) :
    U (key * file_load_info * option (Z * list Z)) :=
  let? (info, ok) := lift (get_file_tmp_space info (Z.of_nat (length buffer) * sizeof_WCHAR)) in
  if negb ok then uret (k, info, None)
  else
    let? head := try (parse_head buffer (fi_tmplen info)) in
    match head with
    | None => uret (k, info, None)
    | Some (name, order, p) =>
        let? (k, index) := find_or_insert k name order in
        uret (k, info, match index with Some index => Some (index, p) | None => None end)
    end.

(** What reading the data came to: malformed data clear the value, without memory
    it is left as it is. *)
Inductive load_result := Loaded (data : list Z) | NoMemory | Malformed.

(** The lines of binary data, with the bytes read so far.  Every further line takes
    at least one character of the file. *)
Fixpoint load_binary (fuel : nat) (info : file_load_info) (p data : list Z) : U (load_result * file_load_info) :=
  match fuel with
  | O => try None
  | S fuel =>
      let maxlen := 1 + Z.of_nat (length p) / 2 in
      let? (info, ok) := lift (get_file_tmp_space info (Z.of_nat (length data) + maxlen)) in
      if negb ok then uret (NoMemory, info)
      else
        let? r := try (parse_hex (length p) maxlen p) in
        match r with
        | None => uret (Malformed, info)
        | Some (l, p) =>
            let data := data ++ l in
            let p := skip_spaces p in
            match p with
            | [] => uret (Loaded data, info)
            | c :: _ =>
                if negb (c =? 92) then uret (Malformed, info)
                else
                  let? (res, buffer, info) := read_next_line info in
                  if negb (res =? 1) then uret (Malformed, info)
                  else load_binary fuel info (skip_spaces buffer) data
            end
        end
  end.

Definition load_data (parse : parse_type) (p : list Z) (info : file_load_info) : U (load_result * file_load_info) :=
  match parse with
  | ParseString =>
      let? (info, ok) := lift (get_file_tmp_space info (Z.of_nat (length p) * sizeof_WCHAR)) in
      if negb ok then uret (NoMemory, info)
      else
        let? (r, str, len) := try (parse_strW (fi_tmplen info) p 34) in
        uret (if r =? -1 then Malformed else Loaded (wchars (take (Z.to_nat (len / sizeof_WCHAR)) str)), info)
  | ParseDword =>
      let dw := u32 (fst (strtoul16 p)) in
      uret (Loaded [dw mod 2 ^ 8; dw / 2 ^ 8 mod 2 ^ 8; dw / 2 ^ 16 mod 2 ^ 8; dw / 2 ^ 24], info)
  | ParseBinary => load_binary (S (length (fi_file info))) info p []
  end.

(** Give the value at [index] a type and data. *)
Definition store_value (k : key) (index type : Z) (data : list Z) : key :=
  set_values k (alter (fun v => mk_value (v_name v) type data (v_order v)) (Z.to_nat index) (values k)) (nb_values k).

Definition load_value (k : key) (buffer : list Z) (info : file_load_info) : U (key * file_load_info * bool) :=
  let? (k, info, value) := parse_value_name k buffer info in
  match value with
  | None => uret (k, info, false)
  | Some (index, p) =>
      let clear := store_value k index REG_NONE [] in
      match get_data_type p with
      | None => uret (clear, info, false)
      | Some (type, parse, p) =>
          let? (res, info) := load_data parse p info in
          match res with
          | NoMemory => uret (k, info, false)
          | Malformed => uret (clear, info, false)
          | Loaded data =>
              let? ok := match data with [] => uret true | _ => lift mem_alloc end in
              uret (if (ok : bool) then (store_value k index (u32 type) data, info, true) else (k, info, false))
          end
      end
  end.
End values.
