(* ===== verification/RegistryValueText.v ===== *)
(** * The text of the registry: reading back values

    A line that was written is read back as it was, whatever the size of the buffer
    it is read into, and strtoul reads what printf wrote.  load_value on the lines
    that dump_value wrote gives back the value. *)

From Stdlib Require Import ZArith Lia Ascii String.
From stdpp Require Import base list numbers option gmap.
From S2P Require Import Prelude Unicode UnicodeTheorems Registry RegistrySearch RegistryValues Memory RegistryText.

#[local] Open Scope Z_scope.
#[local] Open Scope server_scope.

(** ** Lines *)

(** The characters of a line. *)
Definition printable (c : Z) : Prop := 32 <= c < 128.

Record info_ok (info : file_load_info) : Prop := mk_info_ok {
  io_len : 4 <= fi_len info < 2 ^ 31;
  io_tmplen : 0 <= fi_tmplen info
}.

Lemma malloc_full e : allocs e = [] -> malloc e = (true, e).
Proof. unfold malloc. by intros ->. Qed.

Lemma c_string_line l : Forall (fun c => c <> 0) l -> c_string l = l.
Proof. induction 1 as [|c l Hc _ IH]; [done|]. cbn. rewrite (proj2 (Z.eqb_neq c 0) Hc). by rewrite IH. Qed.

Lemma fgets_long n : forall line rest, Forall printable line -> (n <= length line)%nat ->
  fgets n (line ++ 10 :: rest) = (take n line, drop n line ++ 10 :: rest).
Proof.
  induction n as [|n IH]; intros line rest Hl Hn; [done|]. destruct line as [|c line]; [cbn in Hn; lia|].
  apply list.Forall_cons in Hl as [Hc Hl]. cbn. unfold printable in Hc. rewrite (proj2 (Z.eqb_neq c 10)) by lia.
  rewrite IH; [done|done|cbn in Hn; lia].
Qed.

Lemma fgets_short n : forall line rest, Forall printable line -> (length line < n)%nat ->
  fgets n (line ++ 10 :: rest) = (line ++ [10], rest).
Proof.
  induction n as [|n IH]; intros line rest Hl Hn; [lia|]. destruct line as [|c line]; [done|].
  apply list.Forall_cons in Hl as [Hc Hl]. cbn. unfold printable in Hc. rewrite (proj2 (Z.eqb_neq c 10)) by lia.
  rewrite IH; [done|done|cbn in Hn; lia].
Qed.

Lemma printable_nonzero l : Forall printable l -> Forall (fun c => c <> 0) l.
Proof. intros H. eapply list.Forall_impl; [exact H|]. unfold printable. lia. Qed.

Lemma strip_cr_line l : Forall printable l -> strip_cr l = l.
Proof.
  intros H. unfold strip_cr. destruct (last l) as [c|] eqn:E; [|done].
  assert (printable c) as Hc. { rewrite list.Forall_forall in H. apply H. by apply last_Some_elem_of. }
  unfold printable in Hc. do 4 (destruct c as [|c|]; try lia; try done; destruct c; try done).
Qed.

Lemma i32_small z : 0 <= z < 2 ^ 31 -> i32 z = z.
Proof. intros H. unfold i32. rewrite Z.mod_small; lia. Qed.

Lemma line_loop_run fuel : forall buf info line rest e,
  fi_file info = line ++ 10 :: rest -> Forall printable (buf ++ line) -> 4 <= fi_len info < 2 ^ 31 ->
  Z.of_nat (length buf) + 2 <= fi_len info -> Z.of_nat (length (buf ++ line)) < 2 ^ 30 ->
  (length (fi_file info) < fuel)%nat -> allocs e = [] ->
  exists len, line_loop fuel buf info e = Some ((1, buf ++ line, mk_info rest len (fi_tmplen info)), e) /\ 4 <= len < 2 ^ 31.
Proof.
  induction fuel as [|fuel IH]; intros buf info line rest e Ef Hp Hl Hb Hs Hf He; [lia|]. cbn [line_loop]. rewrite Ef.
  set (n := Z.to_nat (fi_len info - Z.of_nat (length buf) - 1)). pose proof Hp as Hp'. apply list.Forall_app in Hp' as [Hpb Hpl].
  rewrite (proj2 (Nat.eqb_neq (length (line ++ 10 :: rest)) 0)) by (rewrite length_app; cbn; lia). fold n.
  destruct (Nat.lt_ge_cases (length line) n) as [Hn|Hn].
  - rewrite fgets_short by done. cbn zeta iota. rewrite app_assoc, c_string_line.
    + rewrite last_snoc, removelast_last, strip_cr_line by done. unfold ubind, try, uret. cbn. by exists (fi_len info).
    + apply list.Forall_app. split; [by apply printable_nonzero|]. by repeat constructor.
  - rewrite fgets_long by done. cbn zeta iota beta. cbn [fi_len fi_tmplen].
    assert (Forall printable (buf ++ take n line)) as Hpt. { apply list.Forall_app. split; [done|by apply Forall_take]. }
    rewrite c_string_line by (by apply printable_nonzero).
    assert (Z.of_nat (length (buf ++ take n line)) = fi_len info - 1) as El. { rewrite length_app, length_take in *. lia. }
    destruct (last (buf ++ take n line)) as [c|] eqn:E.
    2: { apply last_None in E. rewrite E in El. cbn in El. lia. }
    assert (printable c) as Hc. { rewrite list.Forall_forall in Hpt. by apply Hpt, last_Some_elem_of. }
    unfold ubind at 1, try. rewrite (proj2 (Z.eqb_neq c 10)) by (unfold printable in Hc; lia).
    rewrite El, Z.ltb_irrefl. unfold ubind at 1, lift. rewrite malloc_full by done.
    assert (fi_len info <= 2 ^ 30) as Hle. { rewrite length_app in Hs, El. rewrite length_take in El. lia. }
    assert (fi_len info / 2 <= 2 ^ 29) by (apply Z.div_le_upper_bound; lia).
    assert (2 <= fi_len info / 2) by (apply Z.div_le_lower_bound; lia).
    rewrite i32_small by lia. rewrite (proj2 (Z.ltb_lt 0 _)) by lia. cbn [andb].
    destruct (IH (buf ++ take n line) (mk_info (drop n line ++ 10 :: rest) (fi_len info + fi_len info / 2) (fi_tmplen info))
                (drop n line) rest e) as (len & -> & Hlen); cbn [fi_file fi_len fi_tmplen]; try done.
    + by rewrite <-app_assoc, take_drop.
    + lia.
    + lia.
    + by rewrite <-app_assoc, take_drop.
    + rewrite Ef in Hf. rewrite !length_app in *. rewrite length_drop. cbn in *. lia.
    + exists len. by rewrite <-app_assoc, take_drop.
Qed.

Lemma read_line info line rest e :
  info_ok info -> fi_file info = line ++ 10 :: rest -> Forall printable line -> Z.of_nat (length line) < 2 ^ 30 ->
  allocs e = [] ->
  exists info', read_next_line info e = Some ((1, line, info'), e) /\ info_ok info' /\ fi_file info' = rest.
Proof.
  intros [Hl Ht] Ef Hp Hs He.
  destruct (line_loop_run (S (length (fi_file info))) [] info line rest e Ef Hp Hl) as (len & E & Hlen); [cbn; lia..|done|].
  eexists. split; [exact E|]. by split.
Qed.

(** ** Numbers *)

Lemma hex_value_digits n v acc p :
  isxdigit (deref p) = false -> hex_value (fmt_digits n v ++ p) acc = (acc * 16 ^ Z.of_nat n + v mod 16 ^ Z.of_nat n, p).
Proof.
  intros Hp. revert acc. induction n as [|n IH]; intros acc.
  - change (16 ^ Z.of_nat 0) with 1. rewrite Z.mod_1_r. replace (acc * 1 + 0) with acc by lia.
    destruct p as [|c p]; [done|]. cbn in *. by rewrite Hp.
  - cbn [fmt_digits app hex_value].
    assert (0 <= Z.land (Z.shiftr v (4 * Z.of_nat n)) 15 < 16) as Hd.
    { change 15 with (Z.ones 4). rewrite Z.land_ones by lia. apply Z.mod_pos_bound. lia. }
    destruct (digit_hex _ Hd) as [-> ->]. rewrite IH. f_equal.
    change 15 with (Z.ones 4). rewrite Z.land_ones, Z.shiftr_div_pow2 by lia. rewrite Z.pow_mul_r by lia. change (2 ^ 4) with 16.
    rewrite Nat2Z.inj_succ, Z.pow_succ_r by lia. rewrite (Z.mul_comm 16 (16 ^ Z.of_nat n)), Z.rem_mul_r; lia.
Qed.

(** The digits that printf writes. *)
Definition hexdigit (c : Z) : Prop := 48 <= c <= 57 \/ 97 <= c <= 102.

Lemma digit_hexdigit d : 0 <= d < 16 -> hexdigit (digit d).
Proof. unfold hexdigit, digit. intros Hd. zbools. Qed.

Lemma hexdigit_xdigit c : hexdigit c -> isxdigit c = true.
Proof. unfold hexdigit, isxdigit, isdigit. intros H. zbools. Qed.

Lemma fmt_digits_hex n v : Forall hexdigit (fmt_digits n v).
Proof.
  induction n as [|n IH]; constructor; [|done]. apply digit_hexdigit. change 15 with (Z.ones 4). rewrite Z.land_ones by lia.
  apply Z.mod_pos_bound. lia.
Qed.

Lemma fmt_digits_length n v : length (fmt_digits n v) = n.
Proof. induction n as [|n IH]; [done|]. cbn. by rewrite IH. Qed.

Lemma strip_zeros_Forall (P : Z -> Prop) l : Forall P l -> Forall P (strip_zeros l).
Proof.
  induction 1 as [|c l Hc Hl IH]; [done|]. cbn. destruct l as [|d l]; [by apply list.Forall_singleton|].
  destruct (c =? 48); [done|]. by apply List.Forall_cons.
Qed.

Lemma strip_zeros_cons l : l <> [] -> strip_zeros l <> [].
Proof.
  induction l as [|c l IH]; [done|]. intros _. cbn. destruct l as [|d l]; [done|]. destruct (c =? 48); [|done]. by apply IH.
Qed.

Lemma hex_value_strip l p : hex_value (strip_zeros l ++ p) 0 = hex_value (l ++ p) 0.
Proof.
  induction l as [|c l IH]; [done|]. cbn [strip_zeros]. destruct l as [|d l]; [done|].
  destruct (Z.eqb_spec c 48) as [->|]; [|done]. rewrite IH. done.
Qed.

(** What may follow a number. *)
Definition not_digit (p : list Z) : Prop := isxdigit (deref p) = false /\ deref p <> 120 /\ deref p <> 88.

Lemma skip_0x_digits c l p : hexdigit c -> Forall hexdigit l -> not_digit p -> skip_0x (c :: l ++ p) = c :: l ++ p.
Proof.
  intros Hc Hl (_ & H1 & H2). destruct l as [|d l].
  - destruct p as [|x p]; [done|]. cbn in *. destruct p; [done|].
    rewrite (proj2 (Z.eqb_neq x 120) H1), (proj2 (Z.eqb_neq x 88) H2). by rewrite andb_false_r.
  - apply list.Forall_cons in Hl as [Hd _]. cbn. destruct (l ++ p); [done|].
    unfold hexdigit in Hd. rewrite (proj2 (Z.eqb_neq d 120)), (proj2 (Z.eqb_neq d 88)) by lia. by rewrite andb_false_r.
Qed.

Lemma strtoul_digits l p v :
  Forall hexdigit l -> l <> [] -> not_digit p -> hex_value (l ++ p) 0 = (v, p) -> v <= ULONG_MAX ->
  strtoul16 (l ++ p) = (v, p).
Proof.
  intros Hl Hn Hp Hv Hb. destruct l as [|c l]; [done|]. apply list.Forall_cons in Hl as [Hc Hl]. cbn [app] in *.
  assert (isspace c = false /\ (c =? 45) = false /\ (c =? 43) = false) as (H1 & H2 & H3).
  { unfold hexdigit, isspace in *. zbools. }
  unfold strtoul16. cbn [skip_spaces]. rewrite H1. cbn [deref]. rewrite H2, H3. cbn [orb].
  rewrite skip_0x_digits by done. cbn [deref]. rewrite hexdigit_xdigit by done. rewrite Hv.
  by rewrite (proj2 (Z.ltb_ge _ _) Hb).
Qed.

Lemma strtoul_fmt n v p :
  (0 < n)%nat -> 0 <= v < 16 ^ Z.of_nat n -> v < 2 ^ 32 -> not_digit p -> strtoul16 (fmt_digits n v ++ p) = (v, p).
Proof.
  intros Hn Hv Hb Hp. apply strtoul_digits; [apply fmt_digits_hex|destruct n; [lia|done]|done| |unfold ULONG_MAX; lia].
  rewrite hex_value_digits by apply Hp. rewrite Z.mod_small by done. done.
Qed.

Lemma strtoul_fmt_x v p : 0 <= v < 2 ^ 32 -> not_digit p -> strtoul16 (fmt_x32 v ++ p) = (v, p).
Proof.
  intros Hv Hp. apply strtoul_digits; [apply strip_zeros_Forall, fmt_digits_hex|by apply strip_zeros_cons|done| |unfold ULONG_MAX; lia].
  unfold fmt_x32. rewrite hex_value_strip, hex_value_digits by apply Hp. rewrite Z.mod_small by done. done.
Qed.

Lemma fmt_x32_hex v : Forall hexdigit (fmt_x32 v).
Proof. apply strip_zeros_Forall, fmt_digits_hex. Qed.

Lemma fmt_x32_length v : (length (fmt_x32 v) <= 8)%nat.
Proof. unfold fmt_x32. pose proof (strip_zeros_length (fmt_digits 8 v)). by rewrite fmt_digits_length in H. Qed.

Lemma hexdigit_printable l : Forall hexdigit l -> Forall printable l.
Proof. intros H. eapply list.Forall_impl; [exact H|]. unfold hexdigit, printable. lia. Qed.

Lemma skip_spaces_id p : isspace (deref p) = false -> skip_spaces p = p.
Proof. destruct p as [|c p]; [done|]. cbn. by intros ->. Qed.

(** ** Strings *)

Lemma dump_char_printable escape str : Forall (fun c => 0 <= c < 2 ^ 16) str -> Forall printable (dump_char escape str).
Proof.
  intros H. destruct str as [|c next]; [constructor|]. apply list.Forall_cons in H as [Hc _]. unfold dump_char.
  assert (Forall printable (fmt_04x c)) as H4.
  { apply hexdigit_printable. unfold fmt_04x. change 15 with (Z.ones 4). rewrite !Z.land_ones by lia.
    repeat apply List.Forall_cons; try apply List.Forall_nil; apply digit_hexdigit; apply Z.mod_pos_bound; lia. }
  assert (Forall printable (fmt_03o c)) as H3.
  { unfold fmt_03o. change 7 with (Z.ones 3). rewrite !Z.land_ones by lia.
    assert (forall z, printable (digit (z mod 2 ^ 3))) as Hd.
    { intros z. pose proof (Z.mod_pos_bound z (2 ^ 3) ltac:(lia)). unfold printable, digit. zbools. }
    repeat apply List.Forall_cons; try apply List.Forall_nil; apply Hd. }
  pose proof (strip_zeros_Forall printable) as Hs.
  assert (forall x l, printable x -> Forall printable l -> Forall printable (x :: l)) as Hcons by (intros; by constructor).
  assert (printable 92 /\ printable 120) as [P1 P2] by (unfold printable; lia).
  destruct (Z.ltb_spec 127 c).
  - destruct next as [|n next]; [|destruct (_ && _)]; auto.
    + apply Hcons; [done|]. apply Hcons; [done|]. by apply Hs.
    + apply Hcons; [done|]. apply Hcons; [done|]. by apply Hs.
  - destruct (Z.ltb_spec c 32).
    + destruct (Z.eqb_spec (escapes c) 46); cbn [negb].
      * destruct next as [|n next]; [|destruct (isodigit n)]; apply Hcons; try done; by apply Hs.
      * apply Hcons; [done|]. apply list.Forall_singleton. unfold escapes, printable in *. zbools.
    + apply list.Forall_app. split; [case_match; [by apply list.Forall_singleton|done]|]. apply list.Forall_singleton. unfold printable. lia.
Qed.

Lemma dump_chars_printable escape str :
  Forall (fun c => 0 <= c < 2 ^ 16) str -> Forall printable (dump_chars escape str).
Proof.
  induction str as [|c str IH]; intros H; [constructor|]. cbn [dump_chars]. apply list.Forall_app. split; [by apply dump_char_printable|].
  apply IH. by apply list.Forall_cons in H as [_ H].
Qed.

Definition is_byte (c : Z) : Prop := 0 <= c < 256.

(** ** Binary data *)

(** The first line of binary data, and the text after it. *)
Fixpoint hex_lines (data : list Z) (count : Z) : list Z * list Z :=
  match data with
  | [] => ([], [])
  | [b] => (fmt_digits 2 b, [])
  | b :: data =>
      if 76 <? count + 3 then (fmt_digits 2 b ++ [44; 92], [32; 32] ++ dump_hex data 2)
      else (fmt_digits 2 b ++ 44 :: fst (hex_lines data (count + 3)), snd (hex_lines data (count + 3)))
  end.

Lemma hex_lines_cons b b' data count :
  hex_lines (b :: b' :: data) count =
    if 76 <? count + 3 then (fmt_digits 2 b ++ [44; 92], [32; 32] ++ dump_hex (b' :: data) 2)
    else (fmt_digits 2 b ++ 44 :: fst (hex_lines (b' :: data) (count + 3)), snd (hex_lines (b' :: data) (count + 3))).
Proof. done. Qed.

Lemma dump_hex_lines data : forall count, dump_hex data count = fst (hex_lines data count) ++ 10 :: snd (hex_lines data count).
Proof.
  induction data as [|b data IH]; intros count; [done|]. cbn [dump_hex hex_lines]. destruct data as [|b' data]; [done|].
  destruct (76 <? count + 3); cbn [fst snd]; rewrite <-!app_assoc; cbn [app]; [done|]. by rewrite IH.
Qed.

Lemma hex_lines_printable data : forall count, Forall printable (fst (hex_lines data count)).
Proof.
  assert (printable 44 /\ printable 92) as [H1 H2] by (unfold printable; lia).
  induction data as [|b data IH]; intros count; [constructor|]. cbn [hex_lines].
  pose proof (hexdigit_printable _ (fmt_digits_hex 2 b)). destruct data as [|b' data]; [done|].
  destruct (76 <? count + 3); cbn [fst]; apply list.Forall_app; (split; [done|]); repeat (apply List.Forall_cons; [done|]); [constructor|apply IH].
Qed.

(** The line starts with a digit. *)
Lemma hex_lines_head b data count : isxdigit (deref (fst (hex_lines (b :: data) count))) = true /\
  isspace (deref (fst (hex_lines (b :: data) count))) = false.
Proof.
  assert (forall l, deref (fmt_digits 2 b ++ l) = deref (fmt_digits 2 b)) as Hd by done.
  assert (deref (fst (hex_lines (b :: data) count)) = deref (fmt_digits 2 b)) as ->.
  { cbn [hex_lines]. destruct data; [done|]. destruct (76 <? count + 3); cbn [fst]; by rewrite Hd. }
  pose proof (fmt_digits_hex 2 b) as H. cbn [fmt_digits] in *. apply list.Forall_cons in H as [H _]. cbn [deref].
  split; [by apply hexdigit_xdigit|]. unfold hexdigit, isspace in *. zbools.
Qed.

Lemma not_digit_44 p : not_digit (44 :: p).
Proof. done. Qed.

Lemma not_digit_nil : not_digit [].
Proof. done. Qed.

(** One line of binary data: the bytes of the line and those left for the next. *)
Lemma parse_hex_line data : forall count fuel room,
  Forall is_byte data -> (length (fst (hex_lines data count)) <= fuel)%nat ->
  Z.of_nat (length (fst (hex_lines data count))) / 2 < room ->
  exists d1 d2 q, data = d1 ++ d2 /\ parse_hex fuel room (fst (hex_lines data count)) = Some (Some (d1, q)) /\
    match d2 with
    | [] => q = [] /\ snd (hex_lines data count) = []
    | _ => q = [92] /\ snd (hex_lines data count) = [32; 32] ++ dump_hex d2 2 /\ d1 <> []
    end.
Proof.
  induction data as [|b data IH]; intros count fuel room Hd Hf Hr.
  { exists [], [], []. cbn. by destruct fuel. }
  apply list.Forall_cons in Hd as [Hb Hd]. unfold is_byte in Hb. destruct (hex_lines_head b data count) as [Hx _].
  set (p := fst (hex_lines (b :: data) count)) in *.
  assert (exists l, p = fmt_digits 2 b ++ l /\ not_digit l /\
            match data with [] => l = [] | _ => exists l', l = 44 :: l' end) as (l & Ep & Hl & Hs).
  { unfold p. destruct data as [|b' data]; [exists []; by rewrite app_nil_r|]. rewrite hex_lines_cons.
    destruct (76 <? count + 3); cbn [fst]; eexists; (split; [done|]); (split; [done|]); by eexists. }
  assert (length (fmt_digits 2 b) = 2%nat) as El by apply fmt_digits_length.
  assert (strtoul16 p = (b, l)) as Es. { rewrite Ep. apply strtoul_fmt; [lia|lia|lia|done]. }
  destruct fuel as [|fuel]; [rewrite Ep, length_app in Hf; lia|]. cbn [parse_hex]. rewrite Hx. cbn [negb]. rewrite Es.
  rewrite bool_decide_false. 2: { intros E. rewrite <-E in Ep. apply (f_equal length) in Ep. rewrite length_app in Ep. lia. }
  rewrite (u32_small b) by lia. rewrite (proj2 (Z.ltb_ge 255 b)) by lia. cbn [orb].
  assert (2 <= Z.of_nat (length p)) by (rewrite Ep, length_app; lia).
  assert (1 <= Z.of_nat (length p) / 2) by (apply Z.div_le_lower_bound; lia). rewrite (proj2 (Z.eqb_neq room 0)) by lia.
  destruct data as [|b' data].
  - subst l. exists [b], [], []. cbn. destruct fuel; cbn; by rewrite ?app_nil_r.
  - unfold p in *. rewrite hex_lines_cons in *. destruct (76 <? count + 3) eqn:Ec; cbn [fst snd] in *; apply app_inv_head in Ep; subst l.
    + exists [b], (b' :: data), [92]. cbn. destruct fuel; cbn; done.
    + set (L := fst (hex_lines (b' :: data) (count + 3))) in *.
      destruct (hex_lines_head b' data (count + 3)) as [_ Hsp]. fold L in Hsp.
      rewrite (skip_spaces_id (44 :: L)) by done. cbn [deref tail Z.eqb Pos.eqb]. rewrite (skip_spaces_id L) by done.
      destruct (IH (count + 3) fuel (room - 1) Hd) as (d1 & d2 & q & E & Hp & Hq).
      * unfold L in Hf. rewrite length_app in Hf. cbn in *. lia.
      * fold L. unfold L in *. rewrite length_app in Hr. cbn [length] in Hr.
        replace (Z.of_nat (length (fmt_digits 2 b) + S (length (fst (hex_lines (b' :: data) (count + 3)))))) with
          (Z.of_nat (length (fst (hex_lines (b' :: data) (count + 3)))) + 1 + 1 * 2) in Hr by lia.
        rewrite Z.div_add in Hr by lia.
        assert (Z.of_nat (length (fst (hex_lines (b' :: data) (count + 3)))) / 2 <= (Z.of_nat (length (fst (hex_lines (b' :: data) (count + 3)))) + 1) / 2)
          by (apply Z.div_le_mono; lia). lia.
      * fold L in Hp. rewrite Hp. exists (b :: d1), d2, q. split; [cbn; by rewrite <-E|]. split; [done|].
        destruct d2; [done|]. destruct Hq as (? & ? & ?). by split_and!.
Qed.

(** Room for the bytes of a line. *)
Lemma tmp_space info size e : info_ok info -> allocs e = [] ->
  exists info', get_file_tmp_space info size e = ((info', true), e) /\ info_ok info' /\ fi_file info' = fi_file info /\
    size <= fi_tmplen info'.
Proof.
  intros [Hl Ht] He. unfold get_file_tmp_space. destruct (Z.leb_spec size (fi_tmplen info)).
  - by exists info.
  - unfold bind. rewrite malloc_full by done. cbn. eexists. split; [done|]. split; [|done]. split; cbn; [done|lia].
Qed.

Lemma load_binary_run n : forall data count fuel info acc rest e,
  (length data < n)%nat -> Forall is_byte data -> info_ok info -> allocs e = [] ->
  fi_file info = snd (hex_lines data count) ++ rest -> (length (fi_file info) < fuel)%nat ->
  Z.of_nat (length (dump_hex data count)) < 2 ^ 30 ->
  exists info', load_binary fuel info (fst (hex_lines data count)) acc e = Some ((Loaded (acc ++ data), info'), e) /\
    info_ok info' /\ fi_file info' = rest.
Proof.
  induction n as [|n IH]; intros data count fuel info acc rest e Hn Hd Hi He Ef Hf Hs; [lia|].
  destruct fuel as [|fuel]; [lia|]. cbn [load_binary]. set (p := fst (hex_lines data count)).
  destruct (tmp_space info (Z.of_nat (length acc) + (1 + Z.of_nat (length p) / 2)) e Hi He) as (i1 & E1 & Hi1 & Ef1 & _).
  unfold ubind at 1, lift at 1. rewrite E1. cbn [negb].
  destruct (parse_hex_line data count (length p) (1 + Z.of_nat (length p) / 2) Hd) as (d1 & d2 & q & Ed & Eq & Hq); [done|unfold p; lia|].
  fold p in Eq. unfold ubind at 1, try at 1. rewrite Eq. destruct d2 as [|b d2].
  - destruct Hq as [-> Hr]. cbn [skip_spaces]. exists i1. rewrite app_nil_r in Ed. subst d1. split; [done|]. split; [done|].
    by rewrite Ef1, Ef, Hr.
  - destruct Hq as (-> & Hr & Hd1). rewrite (skip_spaces_id [92]) by done. cbn [Z.eqb Pos.eqb negb].
    rewrite dump_hex_lines, Hr, length_app in Hs. cbn [length app] in Hs.
    assert (Z.of_nat (length (dump_hex (b :: d2) 2)) < 2 ^ 30) as Hs' by lia.
    destruct (read_line i1 (32 :: 32 :: fst (hex_lines (b :: d2) 2)) (snd (hex_lines (b :: d2) 2) ++ rest) e Hi1) as (i2 & E2 & Hi2 & Ef2).
    + rewrite Ef1, Ef, Hr, dump_hex_lines. cbn. by rewrite <-app_assoc.
    + repeat (apply List.Forall_cons; [unfold printable; lia|]). apply hex_lines_printable.
    + cbn [length] in *. rewrite dump_hex_lines, length_app in Hs. cbn [length] in Hs. lia.
    + done.
    + unfold ubind at 1. rewrite E2. cbn [Z.eqb Pos.eqb negb].
      destruct (hex_lines_head b d2 2) as [_ Hsp].
      change (skip_spaces (32 :: 32 :: fst (hex_lines (b :: d2) 2))) with (skip_spaces (fst (hex_lines (b :: d2) 2))).
      rewrite (skip_spaces_id _ Hsp). destruct (IH (b :: d2) 2 fuel i2 (acc ++ d1) rest e) as (i3 & E3 & Hi3 & Ef3); try done.
      * rewrite Ed, length_app in Hn. destruct d1; [done|]. cbn in *. lia.
      * rewrite Ed in Hd. by apply list.Forall_app in Hd as [_ Hd].
      * rewrite Ef2. rewrite Ef, Hr, dump_hex_lines in Hf. rewrite ?length_app in *. cbn [length] in *. rewrite ?length_app in *. cbn [length] in *. lia.
      * exists i3. rewrite E3. rewrite Ed, app_assoc. by split_and!.
Qed.

(** ** Data *)

Lemma wchars_of_wchars data : Forall is_byte data -> Nat.even (length data) = true -> wchars (wchars_of data) = data.
Proof.
  intros Hd. remember (length data) as n eqn:En. revert data Hd En.
  induction n as [n IH] using lt_wf_ind. intros data Hd -> He. destruct data as [|lo [|hi data]]; [done|done|].
  apply list.Forall_cons in Hd as [Hlo Hd]. apply list.Forall_cons in Hd as [Hhi Hd]. unfold is_byte in *. cbn [wchars_of wchars].
  change 0xff with (Z.ones 8). rewrite Z.land_ones, Z.shiftr_div_pow2 by lia. change (2 ^ 8) with 256.
  replace ((lo + 256 * hi) mod 256) with lo by (Z.to_euclidean_division_equations; lia).
  replace ((lo + 256 * hi) / 256) with hi by (Z.to_euclidean_division_equations; lia).
  rewrite (IH (length data)); [done|cbn; lia|done|done|done].
Qed.

Lemma wchars_of_length data : Nat.even (length data) = true -> (2 * length (wchars_of data))%nat = length data.
Proof.
  remember (length data) as n eqn:En. revert data En. induction n as [n IH] using lt_wf_ind. intros data -> He.
  destruct data as [|lo [|hi data]]; [done|done|].
  pose proof (IH (length data) ltac:(cbn; lia) data eq_refl He) as H. cbn in *. lia.
Qed.

Lemma wchars_of_range data : Forall is_byte data -> Forall (fun c => 0 <= c < 2 ^ 16) (wchars_of data).
Proof.
  remember (length data) as n eqn:En. revert data En. induction n as [n IH] using lt_wf_ind. intros data -> Hd.
  destruct data as [|lo [|hi data]]; [constructor..|]. apply list.Forall_cons in Hd as [Hlo Hd].
  apply list.Forall_cons in Hd as [Hhi Hd]. unfold is_byte in *. cbn [wchars_of].
  apply List.Forall_cons; [lia|]. apply (IH (length data)); [cbn; lia|done|done].
Qed.

Lemma wchars_of_app l l' : Nat.even (length l) = true -> wchars_of (l ++ l') = wchars_of l ++ wchars_of l'.
Proof.
  remember (length l) as n eqn:En. revert l En. induction n as [n IH] using lt_wf_ind. intros l -> He.
  destruct l as [|lo [|hi l]]; [done|done|]. cbn. rewrite (IH (length l)); [done|cbn; lia|done|done].
Qed.

(** A terminated string is its characters and a NUL. *)
Lemma terminated_split data : Forall is_byte data -> terminated data = true ->
  data = wchars (wchars_of (take (length data - 2) data) ++ [0]) /\ Forall is_byte (take (length data - 2) data).
Proof.
  intros Hd H. unfold terminated, sizeof_WCHAR in H. rewrite !andb_true_iff in H. destruct H as [[H1 H2] H3]. apply Z.leb_le in H1.
  apply Z.eqb_eq in H2. assert (Nat.even (length data) = true) as He.
  { apply Nat.even_spec. exists (Z.to_nat (Z.of_nat (length data) / 2)). Z.to_euclidean_division_equations. lia. }
  split; [|by apply Forall_take]. assert (length (drop (length data - 2) data) = 2%nat) as El by (rewrite length_drop; lia).
  destruct (drop (length data - 2) data) as [|lo [|hi [|]]] eqn:Ed; try done.
  assert (data = take (length data - 2) data ++ [lo; hi]) as Es by (by rewrite <-Ed, take_drop).
  assert (Nat.even (length (take (length data - 2) data)) = true) as He'.
  { rewrite length_take. replace (Nat.min (length data - 2) (length data)) with (length data - 2)%nat by lia.
    by rewrite Nat.even_sub, He by lia. }
  rewrite Es, wchars_of_app, last_app in H3 by done. cbn in H3. apply Z.eqb_eq in H3.
  assert (is_byte lo /\ is_byte hi) as [Hlo Hhi].
  { rewrite Es in Hd. apply list.Forall_app in Hd as [_ Hd]. apply list.Forall_cons in Hd as [? Hd]. by apply list.Forall_cons in Hd as [? _]. }
  unfold is_byte in *. assert (lo = 0 /\ hi = 0) as [-> ->] by lia.
  assert (wchars_of data = wchars_of (take (length data - 2) data) ++ [0]) as Ew.
  { rewrite Es at 1. by rewrite wchars_of_app. }
  rewrite <-Ew. by rewrite wchars_of_wchars.
Qed.

Lemma type_sz p : get_data_type (34 :: p) = Some (REG_SZ, ParseString, p).
Proof. reflexivity. Qed.

Lemma type_expand_sz p : get_data_type (chars "str(2):" ++ 34 :: p) = Some (REG_EXPAND_SZ, ParseString, p).
Proof. reflexivity. Qed.

Lemma type_multi_sz p : get_data_type (chars "str(7):" ++ 34 :: p) = Some (REG_MULTI_SZ, ParseString, p).
Proof. reflexivity. Qed.

Lemma type_dword p : get_data_type (chars "dword:" ++ p) = Some (REG_DWORD, ParseDword, p).
Proof. reflexivity. Qed.

Lemma type_binary p : get_data_type (chars "hex:" ++ p) = Some (REG_BINARY, ParseBinary, p).
Proof. reflexivity. Qed.

Lemma type_hex type p : 0 <= type < 2 ^ 32 ->
  get_data_type (chars "hex(" ++ fmt_x32 type ++ chars "):" ++ p) = Some (i32 type, ParseBinary, p).
Proof.
  intros Ht. transitivity (let '(v, e) := strtoul16 (fmt_x32 type ++ chars "):" ++ p) in
    if starts_with (chars "):") e then Some (i32 v, ParseBinary, drop 2 e) else None); [reflexivity|].
  rewrite strtoul_fmt_x by done. reflexivity.
Qed.

(** What stands behind the name: the first line and the lines that follow. *)
Definition data_lines (type : Z) (data : list Z) (count : Z) : list Z * list Z :=
  if is_string_type type && terminated data then
    ((if type =? REG_SZ then [] else chars "str(" ++ fmt_x32 type ++ chars "):") ++
     34 :: dump_chars (34, 34) (wchars_of (take (length data - 2) data)) ++ [34], [])
  else if (type =? REG_DWORD) && (length data =? 4)%nat then (chars "dword:" ++ fmt_digits 8 (dword_of data), [])
  else
    let tag := if type =? REG_BINARY then chars "hex:" else chars "hex(" ++ fmt_x32 type ++ chars "):" in
    (tag ++ fst (hex_lines data (count + Z.of_nat (length tag))), snd (hex_lines data (count + Z.of_nat (length tag)))).

Lemma dump_data_lines type data count :
  dump_data type data count = fst (data_lines type data count) ++ 10 :: snd (data_lines type data count).
Proof.
  unfold dump_data, data_lines. destruct (is_string_type type && terminated data).
  - rewrite dump_strW_chars. cbn [fst snd]. rewrite <-!app_assoc. cbn [app]. by rewrite <-!app_assoc.
  - destruct (_ && _); cbn [fst snd]; [by rewrite <-!app_assoc|]. rewrite dump_hex_lines. by rewrite <-!app_assoc.
Qed.

Lemma chars_printable s : forallb (fun c => (32 <=? c) && (c <? 128)) (chars s) = true -> Forall printable (chars s).
Proof.
  intros H. apply list.Forall_forall. intros c Hc. rewrite forallb_forall in H. apply list_elem_of_In in Hc.
  specialize (H c Hc). unfold printable. lia.
Qed.

Lemma data_line_printable type data count : Forall is_byte data -> Forall printable (fst (data_lines type data count)).
Proof.
  intros Hd. pose proof (hexdigit_printable _ (fmt_x32_hex type)) as Hx.
  assert (printable 34) as H34 by (unfold printable; lia). unfold data_lines.
  destruct (is_string_type type && terminated data); cbn [fst].
  - apply list.Forall_app. split.
    + destruct (type =? REG_SZ); [constructor|]. repeat (apply list.Forall_app; split); [by apply chars_printable|done|by apply chars_printable].
    + apply List.Forall_cons; [done|]. apply list.Forall_app. split; [|by apply list.Forall_singleton].
      apply dump_chars_printable, wchars_of_range. by apply Forall_take.
  - destruct (_ && _); cbn [fst].
    + apply list.Forall_app. split; [by apply chars_printable|]. apply hexdigit_printable, fmt_digits_hex.
    + apply list.Forall_app. split; [|apply hex_lines_printable]. destruct (type =? REG_BINARY); [by apply chars_printable|].
      repeat (apply list.Forall_app; split); [by apply chars_printable|done|by apply chars_printable].
Qed.

Lemma data_line_head type data count : isspace (deref (fst (data_lines type data count))) = false.
Proof. unfold data_lines. repeat case_match; done. Qed.

Lemma safe_quote : safe_escape 34.
Proof. by unfold safe_escape. Qed.

Lemma dump_chars_length escape str : (length str <= length (dump_chars escape str))%nat.
Proof.
  induction str as [|c str IH]; [done|]. cbn [dump_chars]. rewrite length_app.
  destruct (dump_char_cons escape c str) as (a & l & ->). cbn. lia.
Qed.

(** Reading a quoted string into the buffer. *)
Lemma parse_quoted str rest info e :
  Forall (fun c => 0 <= c < 2 ^ 16) str -> info_ok info -> allocs e = [] ->
  let p := dump_chars (34, 34) str ++ 34 :: rest in
  exists info', get_file_tmp_space info (Z.of_nat (length p) * sizeof_WCHAR) e = ((info', true), e) /\ info_ok info' /\
    fi_file info' = fi_file info /\
    parse_strW (fi_tmplen info') p 34 =
      Some (Z.of_nat (length (dump_chars (34, 34) str)) + 1, str ++ [0], Z.of_nat (length str + 1) * sizeof_WCHAR).
Proof.
  intros Hs Hi He p. destruct (tmp_space info (Z.of_nat (length p) * sizeof_WCHAR) e Hi He) as (i1 & E1 & Hi1 & Ef1 & Hl).
  exists i1. split_and!; [done..|]. apply parse_dumped; [done|apply safe_quote|apply safe_quote|by left|].
  unfold p in Hl. rewrite length_app in Hl. cbn [length] in Hl. pose proof (dump_chars_length (34, 34) str). unfold sizeof_WCHAR in *. lia.
Qed.

Lemma load_string_run type data info rest e :
  Forall is_byte data -> terminated data = true -> is_string_type type = true -> info_ok info -> allocs e = [] ->
  fi_file info = rest ->
  exists p, get_data_type ((if type =? REG_SZ then [] else chars "str(" ++ fmt_x32 type ++ chars "):") ++
              34 :: dump_chars (34, 34) (wchars_of (take (length data - 2) data)) ++ [34]) = Some (type, ParseString, p) /\
  exists info', load_data ParseString p info e = Some ((Loaded data, info'), e) /\ info_ok info' /\ fi_file info' = rest.
Proof.
  intros Hd Ht Hy Hi He Ef. destruct (terminated_split data Hd Ht) as [Es Hb].
  set (str := wchars_of (take (length data - 2) data)) in *.
  exists (dump_chars (34, 34) str ++ [34]). split.
  - unfold is_string_type in Hy. rewrite !orb_true_iff, !Z.eqb_eq in Hy. destruct Hy as [[-> | ->] | ->].
    + apply type_sz.
    + change (fmt_x32 REG_EXPAND_SZ) with [50]. apply type_expand_sz.
    + change (fmt_x32 REG_MULTI_SZ) with [55]. apply type_multi_sz.
  - destruct (parse_quoted str [] info e (wchars_of_range _ Hb) Hi He) as (i1 & E1 & Hi1 & Ef1 & Ep).
    exists i1. unfold load_data, ubind, lift. rewrite E1. cbn [negb]. unfold try. rewrite Ep. unfold uret.
    rewrite (proj2 (Z.eqb_neq _ (-1))) by lia. split; [|split; [done|congruence]].
    unfold sizeof_WCHAR. rewrite Z.div_mul by lia. rewrite Nat2Z.id. rewrite take_ge by (rewrite length_app; cbn; lia). by rewrite <-Es.
Qed.

Lemma dword_bytes data : Forall is_byte data -> length data = 4%nat ->
  0 <= dword_of data < 2 ^ 32 /\
  [dword_of data mod 2 ^ 8; dword_of data / 2 ^ 8 mod 2 ^ 8; dword_of data / 2 ^ 16 mod 2 ^ 8; dword_of data / 2 ^ 24] = data.
Proof.
  intros Hd Hl. destruct data as [|b0 [|b1 [|b2 [|b3 [|]]]]]; try done.
  repeat match goal with H : Forall is_byte (_ :: _) |- _ => apply list.Forall_cons in H as [? H] end. unfold is_byte in *. cbn [dword_of].
  split; [lia|]. repeat f_equal; Z.to_euclidean_division_equations; lia.
Qed.

Lemma load_data_run type data count info rest e :
  Forall is_byte data -> 0 <= type < 2 ^ 32 -> info_ok info -> allocs e = [] ->
  fi_file info = snd (data_lines type data count) ++ rest -> Z.of_nat (length (dump_data type data count)) < 2 ^ 30 ->
  exists type' parse p, get_data_type (fst (data_lines type data count)) = Some (type', parse, p) /\ u32 type' = type /\
    exists info', load_data parse p info e = Some ((Loaded data, info'), e) /\ info_ok info' /\ fi_file info' = rest.
Proof.
  intros Hd Ht Hi He Ef Hs. rewrite dump_data_lines in Hs. unfold data_lines in *.
  destruct (is_string_type type && terminated data) eqn:E1; cbn [fst snd app] in *.
  - apply andb_true_iff in E1 as [E1 E2]. destruct (load_string_run type data info rest e Hd E2 E1 Hi He Ef) as (p & Ep & H).
    exists type, ParseString, p. split; [done|]. split; [by rewrite u32_small|done].
  - destruct ((type =? REG_DWORD) && (length data =? 4)%nat) eqn:E2; cbn [fst snd app] in *.
    + apply andb_true_iff in E2 as [->%Z.eqb_eq E2%Nat.eqb_eq]. destruct (dword_bytes data Hd E2) as [Hr Hb].
      exists REG_DWORD, ParseDword, (fmt_digits 8 (dword_of data)). split; [apply type_dword|]. split; [done|]. exists info.
      unfold load_data, uret. rewrite <-(app_nil_r (fmt_digits 8 (dword_of data))), strtoul_fmt; [|lia|lia|lia|done].
      cbn [fst]. rewrite u32_small by done. by rewrite Hb.
    + set (tag := if type =? REG_BINARY then chars "hex:" else chars "hex(" ++ fmt_x32 type ++ chars "):") in *.
      set (c := count + Z.of_nat (length tag)) in *.
      assert (exists type', get_data_type (tag ++ fst (hex_lines data c)) = Some (type', ParseBinary, fst (hex_lines data c)) /\ u32 type' = type)
        as (type' & Ep & Eu).
      { unfold tag. destruct (Z.eqb_spec type REG_BINARY) as [->|]; [by exists REG_BINARY|]. exists (i32 type).
        rewrite <-!app_assoc, type_hex by done. split; [done|]. unfold u32, i32. Z.to_euclidean_division_equations. lia. }
      exists type', ParseBinary, (fst (hex_lines data c)). split; [done|]. split; [done|].
      apply (load_binary_run (S (length data)) data c); [lia|done|done|done|done|lia|].
      rewrite dump_hex_lines. rewrite !length_app in Hs. rewrite length_app. lia.
Qed.

(** ** Values *)

(** The values that can be stored. *)
Record wf_value (v : key_value) : Prop := mk_wf_value {
  wv_name : Forall (fun c => 0 <= c < 2 ^ 16) (v_name v);
  wv_namelen : Z.of_nat (length (v_name v)) <= MAX_VALUE_LEN;
  wv_type : 0 <= v_type v < 2 ^ 32;
  wv_data : Forall is_byte (v_data v);
  wv_order : 0 <= v_order v < 2 ^ 32 - 1
}.

(** The text in front of the data, and its length as dump_value counts it. *)
Definition value_head (v : key_value) : list Z :=
  match v_name v with
  | [] => chars "@="
  | name => 34 :: dump_chars (34, 34) name ++ [34; 36] ++ fmt_x32 (v_order v) ++ [61]
  end.

Definition head_count (v : key_value) : Z :=
  match v_name v with
  | [] => 2
  | name => 1 + Z.of_nat (length (dump_chars (34, 34) name)) + 2 + Z.of_nat (length (fmt_x32 (v_order v)))
  end.

Lemma dump_value_head v : dump_value v = value_head v ++ dump_data (v_type v) (v_data v) (head_count v).
Proof.
  unfold dump_value, value_head, head_count. destruct (v_name v) as [|c name]; [done|]. rewrite dump_strW_chars.
  cbn [app]. f_equal. rewrite <-!app_assoc. cbn [app]. rewrite <-!app_assoc. done.
Qed.

Lemma value_head_printable v : wf_value v -> Forall printable (value_head v).
Proof.
  intros Hv. pose proof (wv_name v Hv) as Hn. unfold value_head. assert (forall c, (32 <=? c) = true -> (c <? 128) = true -> printable c) as Hp.
  { unfold printable. lia. }
  destruct (v_name v) as [|c name]; [by apply chars_printable|]. apply List.Forall_cons; [by apply Hp|].
  apply list.Forall_app. split; [by apply dump_chars_printable|]. repeat (apply List.Forall_cons; [by apply Hp|]).
  apply list.Forall_app. split; [apply hexdigit_printable, fmt_x32_hex|]. apply list.Forall_singleton. by apply Hp.
Qed.

Lemma order_digits_run l : forall i p, Forall hexdigit l -> (i + length l < sizeof_order_buf)%nat ->
  order_digits i (l ++ 61 :: p) = Some (Some (l, 61 :: p)).
Proof.
  induction l as [|c l IH]; intros i p Hl Hi; [done|]. apply list.Forall_cons in Hl as [Hc Hl]. cbn [length] in Hi.
  change ((c :: l) ++ 61 :: p) with (c :: (l ++ 61 :: p)). unfold order_digits; fold order_digits. cbn [deref].
  rewrite (proj2 (Z.eqb_neq c 61)) by (unfold hexdigit in Hc; lia). rewrite (proj2 (Nat.leb_gt _ _)) by lia.
  rewrite hexdigit_xdigit by done. cbn [negb]. rewrite IH by (done || lia). done.
Qed.

Lemma parse_order_run o p : 0 <= o < 2 ^ 32 -> parse_order (36 :: fmt_x32 o ++ 61 :: p) = Some (Some (i32 o, 61 :: p)).
Proof.
  intros Ho. unfold parse_order. cbn [deref Z.eqb Pos.eqb negb tail].
  pose proof (fmt_x32_length o) as Hl. rewrite order_digits_run; [|apply fmt_x32_hex|unfold sizeof_order_buf; lia].
  cbn [mbind option_bind]. destruct (fmt_x32 o) as [|c l] eqn:E.
  - exfalso. by apply (strip_zeros_cons (fmt_digits 8 o)).
  - rewrite (proj2 (Nat.leb_gt _ _)) by (unfold sizeof_order_buf; cbn in *; lia). rewrite <-E.
    rewrite <-(app_nil_r (fmt_x32 o)), strtoul_fmt_x by done. done.
Qed.

Section load.
Variable casemap : Z -> Z.

(** The value as it is loaded: an unnamed value comes last in the order. *)
Definition loaded (vs : list key_value) (v : key_value) : key_value :=
  mk_value (v_name v) (v_type v) (v_data v) (match v_name v with [] => Z.of_nat (length vs) | _ => v_order v end).

(** The order that is passed on when the value is inserted. *)
Definition head_order (v : key_value) : Z := match v_name v with [] => -1 | _ => i32 (v_order v) end.

Lemma parse_head_run v L tmplen :
  wf_value v -> isspace (deref L) = false -> Z.of_nat (length (value_head v ++ L)) * sizeof_WCHAR <= tmplen ->
  parse_head (value_head v ++ L) tmplen = Some (Some (v_name v, head_order v, L)).
Proof.
  intros Hv HL Ht. pose proof (wv_name v Hv) as Hn. pose proof (wv_order v Hv) as Ho.
  unfold parse_head, parse_name, value_head, head_order in *. destruct (v_name v) as [|c name] eqn:En.
  - cbn [chars]. change (chars "@=" ++ L) with (64 :: 61 :: L). cbn [deref tail Z.eqb Pos.eqb mbind option_bind].
    rewrite (skip_spaces_id (61 :: L)) by done. cbn [parse_order deref Z.eqb Pos.eqb negb mbind option_bind tail]. by rewrite skip_spaces_id.
  - cbn [app deref Z.eqb Pos.eqb tail length] in *. rewrite <-!app_assoc in *. cbn [app] in *.
    rewrite parse_dumped; [|done|apply safe_quote|apply safe_quote|by left|].
    2: { rewrite length_app in Ht. pose proof (dump_chars_length (34, 34) (c :: name)). unfold sizeof_WCHAR in *. cbn [length] in *. lia. }
    cbn [mbind option_bind]. rewrite (proj2 (Z.eqb_neq _ (-1))) by lia.
    unfold sizeof_WCHAR. rewrite Z.div_mul by lia. rewrite Nat2Z.inj_add, Z.add_simpl_r, Nat2Z.id, take_app_length.
    rewrite Z2Nat.inj_add, Nat2Z.id by lia. change (Z.to_nat 1) with 1%nat. rewrite drop_app_add. cbn [drop mbind option_bind]. rewrite (skip_spaces_id (36 :: _)) by done. rewrite <-!app_assoc. cbn [app].
    rewrite parse_order_run by lia. cbn. by rewrite skip_spaces_id.
Qed.

Lemma find_or_insert_run k v order e :
  values_ok casemap k -> Z.of_nat (length (values k)) < 2 ^ 30 -> value_of casemap (values k) (v_name v) = None ->
  wf_value v -> allocs e = [] ->
  exists i nb, let k' := set_values k (with_new (values k) i (new_value (values k) (v_name v) i order)) nb in
    find_or_insert casemap k (v_name v) order e = Some ((k', Some (Z.of_nat i)), e) /\ values_ok casemap k' /\ (i <= length (values k))%nat.
Proof.
  intros Hk Hlen Hno Hv He. destruct (find_value_run casemap k (v_name v) Hk) as [i Hf]. rewrite Hno in Hf. destruct Hf as [Ef Hpl].
  destruct (insert_value_run casemap k (v_name v) i order e Hk Hpl Hlen) as (k' & ok & e' & Ei & Hk' & (nb & Enb) & Hok).
  destruct (Hok He (wv_namelen v Hv)) as [-> ->]. subst k'. exists i, nb. unfold find_or_insert, ubind, try, lift. rewrite Ef, Ei.
  split; [done|]. split; [done|]. pose proof (pl_bound _ _ _ _ Hpl) as Hb. by rewrite length_fmap in Hb.
Qed.

(** Giving a new value its type and data. *)
Lemma store_new vs i v type :
  (i <= length vs)%nat -> u32 type = v_type v -> wf_value v ->
  alter (fun w => mk_value (v_name w) (u32 type) (v_data v) (v_order w)) i (with_new vs i (new_value vs (v_name v) i (head_order v))) =
    with_new vs i (loaded vs v).
Proof.
  intros Hi Ht Hv. rewrite alter_with_new by done. unfold new_value, loaded, head_order. cbn [v_name v_order]. rewrite Ht.
  pose proof (wv_order v Hv) as Ho. destruct (v_name v); [done|]. destruct (Z.eqb_spec (i32 (v_order v)) (-1)) as [E|E].
  - unfold i32 in E. Z.to_euclidean_division_equations. lia.
  - do 2 f_equal. unfold u32, i32. Z.to_euclidean_division_equations. lia.
Qed.

(** Loading what was written for a value, with [rest] behind it. *)
Lemma load_value_run k v info rest e :
  values_ok casemap k -> Z.of_nat (length (values k)) < 2 ^ 30 -> value_of casemap (values k) (v_name v) = None ->
  wf_value v -> Z.of_nat (length (dump_value v)) < 2 ^ 30 -> info_ok info -> fi_file info = dump_value v ++ rest -> allocs e = [] ->
  exists line info1, read_next_line info e = Some ((1, line, info1), e) /\ (deref line = 64 \/ deref line = 34) /\
  exists i nb info2, load_value casemap k line info1 e = Some ((set_values k (with_new (values k) i (loaded (values k) v)) nb, info2, true), e) /\
    values_ok casemap (set_values k (with_new (values k) i (loaded (values k) v)) nb) /\ (i <= length (values k))%nat /\
    info_ok info2 /\ fi_file info2 = rest.
Proof.
  intros Hk Hlen Hno Hv Hs Hi Ef He. rewrite dump_value_head in Ef, Hs. set (count := head_count v) in *.
  rewrite dump_data_lines in Ef. rewrite length_app in Hs. pose proof (wv_data v Hv) as Hd.
  set (L := fst (data_lines (v_type v) (v_data v) count)) in *. set (more := snd (data_lines (v_type v) (v_data v) count)) in *.
  destruct (read_line info (value_head v ++ L) (more ++ rest) e Hi) as (i1 & E1 & Hi1 & Ef1).
  { rewrite Ef, <-!app_assoc. done. }
  { apply list.Forall_app. split; [by apply value_head_printable|by apply data_line_printable]. }
  { rewrite dump_data_lines in Hs. fold L in Hs. rewrite !length_app in *. lia. }
  { done. }
  exists (value_head v ++ L), i1. split; [done|]. split; [unfold value_head; destruct (v_name v); [by left|by right]|].
  destruct (tmp_space i1 (Z.of_nat (length (value_head v ++ L)) * sizeof_WCHAR) e Hi1 He) as (i2 & E2 & Hi2 & Ef2 & Ht).
  destruct (find_or_insert_run k v (head_order v) e Hk Hlen Hno Hv He) as (i & nb & Ei & Hk' & Hb).
  destruct (load_data_run (v_type v) (v_data v) count i2 rest e Hd (wv_type v Hv) Hi2 He) as (type' & parse & p & Eg & Et & i3 & E3 & Hi3 & Ef3).
  { rewrite Ef2, Ef1. done. }
  { lia. }
  exists i, nb, i3. unfold load_value, parse_value_name, ubind, lift. rewrite E2. cbn [negb]. unfold try.
  rewrite parse_head_run by (done || apply data_line_head). rewrite Ei. unfold uret. fold L in Eg. rewrite Eg. rewrite E3.
  assert (store_value (set_values k (with_new (values k) i (new_value (values k) (v_name v) i (head_order v))) nb) (Z.of_nat i) (u32 type') (v_data v) =
          set_values k (with_new (values k) i (loaded (values k) v)) nb) as Es.
  { unfold store_value. cbn. rewrite Nat2Z.id. by rewrite store_new. }
  rewrite <-Es. split; [by destruct (v_data v); [|rewrite mem_alloc_full]|]. split_and!; try done.
  destruct Hk' as [H1 H2 H3]. split; cbn; [|by rewrite length_alter|done]. by rewrite alter_keeps.
Qed.
End load.
