(* ===== verification/RegistryFile.v ===== *)
(** * The text of the registry: keys and files

    server/registry.c writes a branch of the registry as a file of sections, one
    for each key that has values, a class or no subkeys, and builds the keys again
    when it reads the file.  The path in the head of a section is relative to the
    key of the branch.

    [new_addr] is the address of a new key object.  [lookup_absolute] is the lookup of
    a path from the root of the object namespace, as in RegistryTree. *)

From Stdlib Require Import ZArith Lia Ascii String.
From stdpp Require Import base list numbers option gmap.
From S2P Require Import Prelude Unicode Registry RegistryTree Memory RegistryText.

#[local] Open Scope Z_scope.
#[local] Open Scope server_scope.

Definition STATUS_NOT_REGISTRY_FILE : Z := 0xC000015C.

Definition TICKS_PER_SEC : Z := 10000000.

Definition ticks_1601_to_1970 : Z := 86400 * (369 * 365 + 89) * TICKS_PER_SEC.

Inductive prefix_type := PREFIX_UNKNOWN | PREFIX_32BIT | PREFIX_64BIT.

#[export] Instance prefix_type_eq_dec : EqDecision prefix_type.
Proof. solve_decision. Defined.

(** ** Writing *)

(** %u; [n] digits are enough. *)
Fixpoint fmt_decimal (n : nat) (v : Z) : list Z :=
  match n with
  | O => []
  | S n => (if v <? 10 then [] else fmt_decimal n (v / 10)) ++ [48 + v mod 10]
  end.

Definition fmt_u (v : Z) : list Z := fmt_decimal 10 v.

(** The path of a key below [base]; [None] is no key. *)
Fixpoint dump_path (fuel : nat) (r : registry) (a : Z) (base : option Z) : option (list Z) :=
  match fuel with
  | O => None
  | S fuel =>
      k ← keys r !! a;
      parents ← match k_parent k with
                | Some p => if bool_decide (Some p = base) then Some []
                            else t ← dump_path fuel r p base; Some (t ++ [92; 92])
                | None => Some []
                end;
      Some (parents ++ fst (dump_strW (k_name k) (91, 93)))
  end.

(** The lines below the head of a section. *)
Definition dump_times (modif : Z) : list Z :=
  chars "#time=" ++ fmt_x32 (u32 (Z.shiftr modif 32)) ++ fmt_digits 8 (u32 modif) ++ [10].

Definition dump_class (c : option (list Z)) : list Z :=
  match c with
  | Some c => chars "#class=" ++ 34 :: fst (dump_strW c (34, 34)) ++ [34; 10]
  | None => []
  end.

(** The seconds since 1970, rounded towards 0. *)
Definition unix_time (modif : Z) : Z := u32 (Z.quot (modif - ticks_1601_to_1970) TICKS_PER_SEC).

Definition dump_section (path : list Z) (k : key) : list Z :=
  [10; 91] ++ path ++ chars "] " ++ fmt_u (unix_time (modif k)) ++ [10] ++ dump_times (modif k) ++ dump_class (k_class k) ++
  (if has_bits (k_flags k) KEY_SYMLINK then chars "#link" ++ [10] else []) ++ concat (dump_value <$> values k).

Definition needs_section (k : key) : bool :=
  negb (bool_decide (values k = [])) || bool_decide (subkeys k = []) || bool_decide (k_class k <> None) ||
  has_bits (k_flags k) KEY_SYMLINK.

(** The depth of the tree is at most the number of keys. *)
Fixpoint save_subkeys (fuel : nat) (r : registry) (a base : Z) : option (list Z) :=
  match fuel with
  | O => None
  | S fuel =>
      k ← keys r !! a;
      if has_bits (k_flags k) KEY_VOLATILE then Some []
      else
        section ← (if needs_section k then
                     path ← (if a =? base then Some [] else dump_path (size (keys r)) r a (Some base));
                     Some (dump_section path k)
                   else Some []);
        below ← mapM (fun s => save_subkeys fuel r s base) (subkeys k);
        Some (section ++ concat below)
  end.

Definition dump_arch (p : prefix_type) : list Z :=
  match p with
  | PREFIX_32BIT => 10 :: chars "#arch=win32" ++ [10]
  | PREFIX_64BIT => 10 :: chars "#arch=win64" ++ [10]
  | PREFIX_UNKNOWN => []
  end.

Definition save_all_subkeys (r : registry) (a : Z) (p : prefix_type) : option (list Z) :=
  path ← dump_path (size (keys r)) r a None;
  text ← save_subkeys (size (keys r)) r a a;
  Some (chars "WINE REGISTRY Version 2" ++ [10] ++ chars ";; All keys relative to " ++ path ++ [10] ++ dump_arch p ++ text).

(** ** Creating the keys of a path *)

Section load.
Variable casemap : Z -> Z.
Variable new_addr : registry -> Z.
Variable lookup_absolute : registry -> list Z -> M (option (Z * list Z)).

(** Every element takes a character or ends the path. *)
Fixpoint create_key_recursive (fuel : nat) (r : registry) (p : Z) (name : list Z) (modif : Z) : U (registry * option Z) :=
  match name, fuel with
  | [], _ => uret (r, Some p)
  | _, O => try None
  | _, S fuel =>
      let n := get_path_element name in
      let? (r, a) := create_key_object casemap lookup_absolute r (new_addr r) p (take n name) OBJ_OPENIF 0 modif in
      match a with
      | None => uret (r, None)
      | Some a => create_key_recursive fuel r a (drop (S n) name) modif
      end
  end.

(** ** Reading *)

(** The digits of %u. *)
Fixpoint dec_value (p : list Z) (acc : Z) : Z :=
  match p with
  | c :: q => if isdigit c then dec_value q (acc * 10 + (c - 48)) else acc
  | [] => acc
  end.

(** sscanf with " %u". *)
Definition scan_u (p : list Z) : option Z :=
  let s := skip_spaces p in
  let neg := deref s =? 45 in
  let s := if neg || (deref s =? 43) then tail s else s in
  if isdigit (deref s) then
    let v := dec_value s 0 in
    Some (u32 (if ULONG_MAX <? v then ULONG_MAX else if neg then - v else v))
  else None.

(** Skip [n] path elements of a NUL-terminated path: how many were left to skip,
    and the rest of the path. *)
Fixpoint skip_prefix (n : Z) (p : list Z) : Z * list Z :=
  match p with
  | [] => (n, [])
  | c :: q =>
      if (n =? 0) || (c =? 0) then (n, p) else skip_prefix (if c =? 92 then n - 1 else n) q
  end.

(** The key of a section and the time in its head. *)
Definition load_key (r : registry) (base : Z) (buffer : list Z) (prefix_len : Z) (info : file_load_info) :
    U (registry * file_load_info * option (Z * Z)) :=
  let? (info, ok) := lift (get_file_tmp_space info (Z.of_nat (length buffer) * sizeof_WCHAR)) in
  if negb ok then uret (r, info, None)
  else
    let? (res, str, len) := try (parse_strW (fi_tmplen info) buffer 93) in
    if res =? -1 then uret (r, info, None)
    else
      let modif := match scan_u (drop (Z.to_nat res) buffer) with
                   | Some m => m * TICKS_PER_SEC + ticks_1601_to_1970
                   | None => now r
                   end in
      let '(n, p) := skip_prefix prefix_len (take (Z.to_nat (len / sizeof_WCHAR - 1)) str) in
      if deref p =? 0 then uret (r, info, if 1 <? n then None else Some (base, modif))
      else
        let? (r, a) := create_key_recursive (length p) r base p 0 in
        uret (r, info, match a with Some a => Some (a, modif) | None => None end).

(** Give a key and its parents the time of a section, unless they have one. *)
Fixpoint update_key_time (fuel : nat) (r : registry) (a : option Z) (modif : Z) : option registry :=
  match a with
  | None => Some r
  | Some a =>
      k ← keys r !! a;
      if negb (Registry.modif k =? 0) then Some r
      else match fuel with
           | O => None
           | S fuel => update_key_time fuel (set_key r a (set_modif k modif)) (k_parent k) modif
           end
  end.

Definition update_time (r : registry) (a modif : Z) : option registry := update_key_time (S (size (keys r))) r (Some a) modif.

(** [None] when the file is for another architecture. *)
Definition load_global_option (buffer : list Z) (p : prefix_type) : M (option prefix_type) :=
  if negb (starts_with (chars "#arch=") buffer) then ret (Some p)
  else
    let s := drop 6 buffer in
    let type := if bool_decide (s = chars "win32") then PREFIX_32BIT
                else if bool_decide (s = chars "win64") then PREFIX_64BIT else PREFIX_UNKNOWN in
    if bool_decide (type = PREFIX_UNKNOWN) then fail STATUS_NOT_REGISTRY_FILE None
    else if bool_decide (p = PREFIX_UNKNOWN) then ret (Some type)
    else if bool_decide (type = p) then ret (Some p)
    else fail STATUS_NOT_REGISTRY_FILE None.

(** The time of an option: hexadecimal digits, shifted into 64 bits. *)
Fixpoint time_digits (p : list Z) (acc : Z) : Z :=
  match p with
  | c :: q => if isxdigit c then time_digits q (u64 (Z.lor (Z.shiftl acc 4) (to_hex c))) else acc
  | [] => acc
  end.

Definition i64 (z : Z) : Z := (z + 2 ^ 63) mod 2 ^ 64 - 2 ^ 63.

Definition set_class (k : key) (c : option (list Z)) : key :=
  mk_key (k_name k) (k_parent k) c (subkeys k) (nb_subkeys k) (wow6432node k) (values k) (nb_values k) (k_flags k) (modif k)
    (notify_list k) (timestamp_counter k).

(** The class keeps the terminating NUL. *)
Definition load_class (r : registry) (a : Z) (k : key) (p : list Z) (info : file_load_info) :
    U (registry * file_load_info * bool) :=
  if negb (deref p =? 34) then uret (r, info, false)
  else
    let p := tail p in
    let? (info, ok) := lift (get_file_tmp_space info (Z.of_nat (length p) * sizeof_WCHAR)) in
    if negb ok then uret (r, info, false)
    else
      let? (res, str, len) := try (parse_strW (fi_tmplen info) p 34) in
      if res =? -1 then uret (r, info, false)
      else
        let? ok := lift mem_alloc in
        uret (set_key r a (set_class k (if ok then Some (take (Z.to_nat (len / sizeof_WCHAR)) str) else None)), info, true).

Definition load_key_option (r : registry) (a : Z) (buffer : list Z) (info : file_load_info) : U (registry * file_load_info) :=
  let? r := if starts_with (chars "#time=") buffer then try (update_time r a (i64 (time_digits (drop 6 buffer) 0)))
            else uret r in
  let? k := try (keys r !! a) in
  let? (r, info, ok) := if starts_with (chars "#class=") buffer then load_class r a k (drop 7 buffer) info
                        else uret (r, info, true) in
  if negb ok then uret (r, info)
  else
    let? k := try (keys r !! a) in
    uret (if starts_with (chars "#link") buffer then set_key r a (set_flags k (Z.lor (k_flags k) KEY_SYMLINK)) else r, info).

(** The number of path elements of a file that are part of the path of the key; the
    path is cut at the first separator or NUL. *)
Fixpoint first_element (p : list Z) : list Z :=
  match p with
  | [] => []
  | c :: q => if (c =? 0) || (c =? 92) then [] else c :: first_element q
  end.

Fixpoint prefix_loop (fuel : nat) (r : registry) (root a : Z) (name : list Z) (res : Z) : option Z :=
  if a =? root then Some 0
  else
    match fuel with
    | O => None
    | S fuel =>
        k ← keys r !! a;
        if (length name =? length (k_name k))%nat && (memicmp_strW casemap name (k_name k) (length name) =? 0) then Some res
        else p ← k_parent k; prefix_loop fuel r root p name (res + 1)
    end.

Definition get_prefix_len (r : registry) (root a : Z) (name : list Z) (info : file_load_info) : U (Z * file_load_info) :=
  let? (info, ok) := lift (get_file_tmp_space info (Z.of_nat (length name) * sizeof_WCHAR)) in
  if negb ok then uret (0, info)
  else
    let? (res, str, _) := try (parse_strW (fi_tmplen info) name 93) in
    if res =? -1 then uret (0, info)
    else let? n := try (prefix_loop (size (keys r)) r root a (first_element str) 1) in uret (n, info).

(** What load_keys keeps from line to line: the key of the current section, the
    time in its head, the number of elements to skip and the architecture. *)
Record load_state := mk_load {
  ls_registry : registry;
  ls_info : file_load_info;
  ls_subkey : option Z;
  ls_modif : Z;
  ls_prefix_len : Z;
  ls_prefix_type : prefix_type
}.

(** The end of a section. *)
Definition end_section (s : load_state) : option registry :=
  match ls_subkey s with
  | Some a => update_time (ls_registry s) a (ls_modif s)
  | None => Some (ls_registry s)
  end.

Variable root_key : Z.

(** The switch on the first character of a line; [false] ends the loop. *)
Definition load_line (base : Z) (s : load_state) (p : list Z) : U (load_state * bool) :=
  let c := deref p in
  if c =? 91 then
    let? r := try (end_section s) in
    let? (n, info) := if ls_prefix_len s =? -1 then get_prefix_len r root_key base (tail p) (ls_info s)
                      else uret (ls_prefix_len s, ls_info s) in
    let? (r, info, k) := load_key r base (tail p) n info in
    uret (match k with
          | Some (a, m) => mk_load r info (Some a) m n (ls_prefix_type s)
          | None => mk_load r info None (ls_modif s) n (ls_prefix_type s)
          end, true)
  else if (c =? 64) || (c =? 34) then
    match ls_subkey s with
    | None => uret (s, true)
    | Some a =>
        let? k := try (keys (ls_registry s) !! a) in
        let? (k, info, _) := load_value casemap k p (ls_info s) in
        uret (mk_load (set_key (ls_registry s) a k) info (Some a) (ls_modif s) (ls_prefix_len s) (ls_prefix_type s), true)
    end
  else if c =? 35 then
    match ls_subkey s with
    | Some a =>
        let? (r, info) := load_key_option (ls_registry s) a p (ls_info s) in
        uret (mk_load r info (Some a) (ls_modif s) (ls_prefix_len s) (ls_prefix_type s), true)
    | None =>
        let? t := lift (load_global_option p (ls_prefix_type s)) in
        uret (match t with
              | Some t => (mk_load (ls_registry s) (ls_info s) None (ls_modif s) (ls_prefix_len s) t, true)
              | None => (s, false)
              end)
    end
  else uret (s, true).

(** Every round reads at least one character. *)
Fixpoint load_loop (fuel : nat) (base : Z) (s : load_state) : U load_state :=
  match fuel with
  | O => try None
  | S fuel =>
      let? (res, buffer, info) := read_next_line (ls_info s) in
      let s := mk_load (ls_registry s) info (ls_subkey s) (ls_modif s) (ls_prefix_len s) (ls_prefix_type s) in
      if negb (res =? 1) then uret s
      else
        let? (s, go) := load_line base s (skip_spaces buffer) in
        if (go : bool) then load_loop fuel base s else uret s
  end.

Definition load_keys (r : registry) (base : Z) (file : list Z) (prefix_len : Z) (p : prefix_type) : U (registry * prefix_type) :=
  let? ok1 := lift mem_alloc in
  let? ok2 := if (ok1 : bool) then lift mem_alloc else uret false in
  if negb ok2 then uret (r, p)
  else
    let? (res, buffer, info) := read_next_line (mk_info file 4 4) in
    if negb (res =? 1) || negb (bool_decide (buffer = chars "WINE REGISTRY Version 2")) then
      lift (fail STATUS_NOT_REGISTRY_FILE (r, p))
    else
      let? s := load_loop (S (length file)) base (mk_load r info None (now r) prefix_len p) in
      let? r := try (end_section s) in
      uret (r, ls_prefix_type s).
End load.
