(* ===== verification/RegistrySections.v ===== *)
(** * The text of the registry: reading back sections

    load_keys on a section that save_subkeys wrote gives the key of the section its
    time, class, flags and values. *)

From Stdlib Require Import ZArith Lia Ascii String.
From stdpp Require Import base list numbers option gmap.
From S2P Require Import Prelude Unicode UnicodeTheorems Registry RegistryTree RegistrySearch RegistryValues Memory RegistryText RegistryValueText RegistryFile.

#[local] Open Scope Z_scope.
#[local] Open Scope server_scope.

(** ** Numbers *)

(** The time of a key as dump_times writes it. *)
Lemma time_digits_fmt n v p : forall acc, 0 <= acc -> acc * 16 ^ Z.of_nat n + v mod 16 ^ Z.of_nat n < 2 ^ 64 ->
  time_digits (fmt_digits n v ++ p) acc = time_digits p (acc * 16 ^ Z.of_nat n + v mod 16 ^ Z.of_nat n).
Proof.
  induction n as [|n IH]; intros acc Ha Hb.
  - change (16 ^ Z.of_nat 0) with 1. rewrite Z.mod_1_r. cbn [fmt_digits app]. f_equal. lia.
  - cbn [fmt_digits app time_digits].
    assert (0 <= Z.land (Z.shiftr v (4 * Z.of_nat n)) 15 < 16) as Hd.
    { change 15 with (Z.ones 4). rewrite Z.land_ones by lia. apply Z.mod_pos_bound. lia. }
    destruct (digit_hex _ Hd) as [-> ->]. rewrite lor_shiftl by lia.
    assert (Z.land (Z.shiftr v (4 * Z.of_nat n)) 15 = v / 16 ^ Z.of_nat n mod 16) as El.
    { change 15 with (Z.ones 4). rewrite Z.land_ones, Z.shiftr_div_pow2 by lia. by rewrite Z.pow_mul_r by lia. }
    rewrite El in *. rewrite Nat2Z.inj_succ, Z.pow_succ_r in * by lia. rewrite (Z.mul_comm 16 (16 ^ Z.of_nat n)), Z.rem_mul_r in * by lia.
    set (x := v / 16 ^ Z.of_nat n mod 16) in *. pose proof (Z.mod_pos_bound v (16 ^ Z.of_nat n) ltac:(lia)).
    assert (0 < 16 ^ Z.of_nat n) by lia. unfold u64. rewrite (Z.mod_small (acc * 16 + x)) by nia. rewrite IH; [f_equal; lia|lia|nia].
Qed.

Lemma time_digits_strip l p : time_digits (strip_zeros l ++ p) 0 = time_digits (l ++ p) 0.
Proof.
  induction l as [|c l IH]; [done|]. cbn [strip_zeros]. destruct l as [|d l]; [done|].
  destruct (Z.eqb_spec c 48) as [->|]; [|done]. rewrite IH. done.
Qed.

Lemma time_roundtrip m : 0 <= m < 2 ^ 63 -> i64 (time_digits (fmt_x32 (u32 (Z.shiftr m 32)) ++ fmt_digits 8 (u32 m)) 0) = m.
Proof.
  intros Hm. unfold fmt_x32. rewrite time_digits_strip. rewrite Z.shiftr_div_pow2 by lia.
  assert (0 <= m / 2 ^ 32 < 2 ^ 32) as Hh. { split; [apply Z.div_pos; lia|apply Z.div_lt_upper_bound; lia]. }
  pose proof (Z.mod_pos_bound m (2 ^ 32) ltac:(lia)) as Hl. rewrite u32_small by done. unfold u32.
  change (Z.of_nat 8) with 8 in *. rewrite time_digits_fmt; change (16 ^ Z.of_nat 8) with (2 ^ 32); rewrite ?(Z.mod_small _ (2 ^ 32)) by done; [|lia..].
  rewrite <-(app_nil_r (fmt_digits 8 (m mod 2 ^ 32))), time_digits_fmt; change (16 ^ Z.of_nat 8) with (2 ^ 32);
    rewrite ?(Z.mod_small _ (2 ^ 32)) by done; [|lia..].
  cbn [time_digits]. unfold i64. rewrite Z.mod_small by (Z.to_euclidean_division_equations; lia).
  Z.to_euclidean_division_equations. lia.
Qed.

(** The digits of a decimal number. *)
Definition decimal (c : Z) : Prop := 48 <= c <= 57.

Lemma fmt_decimal_digits n : forall v, 0 <= v -> Forall decimal (fmt_decimal n v).
Proof.
  induction n as [|n IH]; intros v Hv; [constructor|]. cbn [fmt_decimal]. apply list.Forall_app. split.
  - destruct (v <? 10); [constructor|]. apply IH. apply Z.div_pos; lia.
  - apply list.Forall_singleton. pose proof (Z.mod_pos_bound v 10 ltac:(lia)). unfold decimal. lia.
Qed.

Lemma dec_value_app l p : forall acc, Forall decimal l -> dec_value (l ++ p) acc = dec_value p (dec_value l acc).
Proof.
  induction l as [|c l IH]; intros acc Hl; [done|]. apply list.Forall_cons in Hl as [Hc Hl]. cbn.
  assert (isdigit c = true) as ->. { unfold isdigit, decimal in *. zbools. }
  by apply IH.
Qed.

Lemma dec_value_fmt n : forall v, 0 <= v < 10 ^ Z.of_nat n -> dec_value (fmt_decimal n v) 0 = v.
Proof.
  induction n as [|n IH]; intros v Hv; [cbn in *; lia|]. cbn [fmt_decimal]. rewrite Nat2Z.inj_succ, Z.pow_succ_r in Hv by lia.
  pose proof (Z.mod_pos_bound v 10 ltac:(lia)) as Hm.
  assert (isdigit (48 + v mod 10) = true) as Ed. { unfold isdigit. zbools. }
  rewrite dec_value_app.
  - cbn [dec_value]. rewrite Ed. destruct (Z.ltb_spec v 10).
    + cbn. rewrite Z.mod_small by lia. lia.
    + rewrite IH; [pose proof (Z.div_mod v 10); lia|]. split; [apply Z.div_pos; lia|apply Z.div_lt_upper_bound; lia].
  - destruct (v <? 10); [constructor|]. apply fmt_decimal_digits. apply Z.div_pos; lia.
Qed.

Lemma fmt_u_cons v : exists l d, fmt_u v = l ++ [d].
Proof. unfold fmt_u. cbn [fmt_decimal]. by eexists _, _. Qed.

(** sscanf reads the time in the head of a section. *)
Lemma scan_fmt_u v : 0 <= v < 2 ^ 32 -> scan_u (32 :: fmt_u v) = Some v.
Proof.
  intros Hv. pose proof (fmt_decimal_digits 10 v ltac:(lia)) as Hd. fold (fmt_u v) in Hd.
  pose proof (dec_value_fmt 10 v ltac:(lia)) as Ev. fold (fmt_u v) in Ev. destruct (fmt_u_cons v) as (l & d & E).
  unfold scan_u. cbn [skip_spaces isspace Z.eqb Pos.eqb orb].
  destruct (fmt_u v) as [|c q] eqn:Eq; [by destruct l|]. apply list.Forall_cons in Hd as [Hc _].
  assert (isspace c = false /\ (c =? 45) = false /\ (c =? 43) = false /\ isdigit c = true) as (H1 & H2 & H3 & H4).
  { unfold decimal, isspace, isdigit in *. zbools. }
  rewrite (skip_spaces_id (c :: q)) by done. cbn [deref]. rewrite H2, H3. cbn [orb]. cbn [deref]. rewrite H4, Ev.
  rewrite (proj2 (Z.ltb_ge _ _)) by (unfold ULONG_MAX; lia). by rewrite u32_small.
Qed.

Lemma decimal_printable l : Forall decimal l -> Forall printable l.
Proof. intros H. eapply list.Forall_impl; [exact H|]. unfold decimal, printable. lia. Qed.

(** ** Tags of lines *)

Lemma starts_with_cons a t b p : starts_with (a :: t) (b :: p) = (a =? b) && starts_with t p.
Proof.
  unfold starts_with. cbn [length take]. destruct (Z.eqb_spec a b) as [->|Hne]; cbn [andb].
  - apply bool_decide_ext. split; [by intros [= ->]|by intros ->].
  - apply bool_decide_eq_false. congruence.
Qed.

Lemma starts_with_app t p : starts_with t (t ++ p) = true.
Proof. unfold starts_with. apply bool_decide_eq_true. by rewrite take_app_length. Qed.

(** ** Times *)

(** Some keys that had no time have the time [m]. *)
Definition retimed (m : Z) (r r' : registry) : Prop :=
  forall b, keys r' !! b = keys r !! b \/ exists k, keys r !! b = Some k /\ modif k = 0 /\ keys r' !! b = Some (set_modif k m).

Lemma retimed_set m r a k : keys r !! a = Some k -> modif k = 0 -> retimed m r (set_key r a (set_modif k m)).
Proof.
  intros Hk E b. rewrite set_key_lookup. case_decide as Eb; [subst; right; by exists k|by left].
Qed.

#[export] Instance retimed_preorder m : PreOrder (retimed m).
Proof.
  split; [intros r b; by left|]. intros r1 r2 r3 H1 H2 b. destruct (H2 b) as [->|(k & Hk & E & ->)]; [done|].
  right. destruct (H1 b) as [E1|(k1 & Hk1 & E1 & E2)].
  - rewrite E1 in Hk. by exists k.
  - rewrite E2 in Hk. injection Hk as <-. by exists k1.
Qed.

Lemma retimed_touched m r r' : retimed m r r' -> touched r r'.
Proof. intros H. split. intros b. destruct (H b) as [->|(k & -> & _ & ->)]; done. Qed.

(** The time is given to the key and to the parents that have none. *)
Lemma update_key_time_run fuel m : forall r a l, chain r a l -> (length l <= fuel)%nat ->
  exists r', update_key_time fuel r a m = Some r' /\ retimed m r r' /\ forall b, b ∉ l -> keys r' !! b = keys r !! b.
Proof.
  induction fuel as [|fuel IH]; intros r a l Hc Hl; inversion Hc as [|b k l' Hk Hc']; subst; cbn [update_key_time length] in *; try lia;
    try (by exists r).
  rewrite Hk. cbn [mbind option_bind]. destruct (Z.eqb_spec (modif k) 0) as [E|E]; cbn [negb]; [|by exists r].
  set (r1 := set_key r b (set_modif k m)). assert (retimed m r r1) as T1 by (by apply retimed_set).
  destruct (IH r1 (k_parent k) l' (touched_chain _ _ _ _ (retimed_touched _ _ _ T1) Hc') ltac:(lia)) as (r' & E' & T & N).
  exists r'. split; [done|]. split; [by transitivity r1|]. intros c [Hn Hc2]%not_elem_of_cons. rewrite N by done.
  unfold r1. rewrite set_key_lookup. by rewrite decide_False.
Qed.

(** The key as update_time leaves it. *)
Definition timed (k : key) (m : Z) : key := set_modif k (if modif k =? 0 then m else modif k).

Lemma update_time_run r a k l m : chain r (Some a) l -> keys r !! a = Some k ->
  exists r', update_time r a m = Some r' /\ retimed m r r' /\ keys r' !! a = Some (timed k m).
Proof.
  intros Hc Hk. pose proof (parents_length r _ _ Hc) as Hl. pose proof (chain_nodup _ _ _ Hc) as Hn. unfold update_time.
  inversion Hc as [|b k0 l' Hk0 Hc']; subst. rewrite Hk in Hk0. injection Hk0 as <-. cbn [update_key_time]. rewrite Hk. cbn [mbind option_bind].
  unfold timed. destruct (Z.eqb_spec (modif k) 0) as [E|E]; cbn [negb].
  - assert (retimed m r (set_key r a (set_modif k m))) as T1 by (by apply retimed_set).
    destruct (update_key_time_run (size (keys r)) m (set_key r a (set_modif k m)) (k_parent k) l'
      (touched_chain _ _ _ _ (retimed_touched _ _ _ T1) Hc')) as (r' & -> & T & N); [cbn in Hl; lia|].
    exists r'. split; [done|]. split; [by etransitivity|]. apply NoDup_cons in Hn as [Hn _]. rewrite N by done.
    by rewrite set_key_lookup, decide_True.
  - exists r. split; [done|]. split; [done|]. rewrite Hk. by destruct k.
Qed.

(** ** The loop *)

Section load.
Context (casemap : Z -> Z) (new_addr : registry -> Z) (lookup_absolute : registry -> list Z -> M (option (Z * list Z))) (root_key base : Z).
#[local] Abbreviation loop := (load_loop casemap new_addr lookup_absolute root_key).
#[local] Abbreviation line := (load_line casemap new_addr lookup_absolute root_key base).

Definition with_info (s : load_state) (info : file_load_info) : load_state :=
  mk_load (ls_registry s) info (ls_subkey s) (ls_modif s) (ls_prefix_len s) (ls_prefix_type s).

Definition with_registry (s : load_state) (r : registry) : load_state :=
  mk_load r (ls_info s) (ls_subkey s) (ls_modif s) (ls_prefix_len s) (ls_prefix_type s).

(** The text that is left to read. *)
Definition text_left (s : load_state) : list Z := fi_file (ls_info s).

(** The loop gets from [s] to [s'], with enough fuel for the rest. *)
Definition reaches (s : load_state) (e : senv) (s' : load_state) (e' : senv) : Prop :=
  forall fuel, (length (text_left s) < fuel)%nat ->
  exists fuel', (length (text_left s') < fuel')%nat /\ loop fuel base s e = loop fuel' base s' e'.

Lemma reaches_refl s e : reaches s e s e.
Proof. intros fuel Hf. by exists fuel. Qed.

Lemma reaches_trans s1 e1 s2 e2 s3 e3 : reaches s1 e1 s2 e2 -> reaches s2 e2 s3 e3 -> reaches s1 e1 s3 e3.
Proof. intros H1 H2 fuel Hf. destruct (H1 fuel Hf) as (f1 & Hf1 & ->). by apply H2. Qed.

(** One round. *)
Lemma reaches_line s e l info s' e' :
  read_next_line (ls_info s) e = Some ((1, l, info), e) -> line (with_info s info) (skip_spaces l) e = Some ((s', true), e') ->
  (length (text_left s') < length (text_left s))%nat -> reaches s e s' e'.
Proof.
  intros E1 E2 Hl [|fuel] Hf; [lia|]. exists fuel. split; [lia|]. cbn [load_loop]. unfold ubind at 1. rewrite E1. cbn [Z.eqb Pos.eqb negb].
  unfold ubind. fold (with_info s info). by rewrite E2.
Qed.

(** A round that reads one line. *)
Lemma reaches_text s e l rest : info_ok (ls_info s) -> text_left s = l ++ 10 :: rest -> Forall printable l ->
  Z.of_nat (length l) < 2 ^ 30 -> allocs e = [] ->
  exists info, info_ok info /\ fi_file info = rest /\
    forall s' e', line (with_info s info) (skip_spaces l) e = Some ((s', true), e') -> text_left s' = rest -> reaches s e s' e'.
Proof.
  intros Hi Et Hp Hs He. destruct (read_line (ls_info s) l rest e Hi Et Hp Hs He) as (info & E & Hi' & Ef). exists info. split; [done|].
  split; [done|]. intros s' e' El Et'. apply (reaches_line s e l info); [done|done|]. rewrite Et, Et', length_app. cbn. lia.
Qed.

(** ** Values *)

(** A value as it comes back: the unnamed value is the first of a file. *)
Definition reload (v : key_value) : key_value :=
  mk_value (v_name v) (v_type v) (v_data v) (match v_name v with [] => 0 | _ => v_order v end).

Lemma reload_names (vs : list key_value) : v_name <$> (reload <$> vs) = v_name <$> vs.
Proof. rewrite <-list_fmap_compose. by apply list_fmap_ext. Qed.

(** A value whose name is after all the others comes last. *)
Lemma last_place (vs : list key_value) i v : (i <= length vs)%nat -> sorted_names casemap (v_name <$> with_new vs i v) ->
  sorted_names casemap (v_name <$> vs ++ [v]) -> i = length vs.
Proof.
  intros Hi H1 H2. destruct (Nat.eq_dec i (length vs)) as [|Hne]; [done|]. exfalso.
  destruct (lookup_lt_is_Some_2 vs i) as [w Hw]; [lia|].
  pose proof (sorted_lookup casemap _ i (S i) (v_name v) (v_name w) H1) as A1.
  pose proof (sorted_lookup casemap _ i (length vs) (v_name w) (v_name v) H2) as A2. unfold name_lt in A1, A2.
  rewrite !list_lookup_fmap in A1, A2. unfold with_new in A1.
  rewrite lookup_app_l, Hw in A2 by lia. rewrite list_lookup_middle in A2 by done.
  rewrite list_lookup_middle in A1 by (rewrite length_take; lia).
  rewrite lookup_app_r in A1 by (rewrite length_take; lia). rewrite length_take in A1. replace (S i - i `min` length vs)%nat with 1%nat in A1 by lia.
  change ((v :: drop i vs) !! 1%nat) with (drop i vs !! 0%nat) in A1. rewrite lookup_drop, Nat.add_0_r, Hw in A1.
  specialize (A1 eq_refl eq_refl ltac:(lia)). specialize (A2 eq_refl eq_refl ltac:(lia)). pose proof (cmp_gt casemap (v_name v) (v_name w)). lia.
Qed.

Lemma loaded_reload (vs : list key_value) v : sorted_names casemap (v_name <$> vs ++ [v]) -> loaded vs v = reload v.
Proof.
  intros H. unfold loaded, reload. destruct (v_name v) as [|c name] eqn:E; [|done]. f_equal. destruct vs as [|w vs]; [done|]. exfalso.
  rewrite fmap_app in H. apply sorted_app in H as (_ & _ & H). specialize (H (v_name w) (v_name v)). unfold name_lt in H.
  rewrite E, cmp_nil_r in H. specialize (H ltac:(left) ltac:(cbn; rewrite E; left)). lia.
Qed.

Lemma set_key_twice r a k k' : set_key (set_key r a k) a k' = set_key r a k'.
Proof. unfold set_key, set_keys. cbn. by rewrite insert_insert_eq. Qed.

Lemma set_key_same r a k : keys r !! a = Some k -> set_key r a k = r.
Proof. intros H. unfold set_key, set_keys. rewrite insert_id by done. by destruct r. Qed.

(** One value. *)
Lemma value_reach s e a k v rest :
  ls_subkey s = Some a -> keys (ls_registry s) !! a = Some k -> values_ok casemap k -> Z.of_nat (length (values k)) < 2 ^ 30 ->
  sorted_names casemap (v_name <$> values k ++ [v]) -> wf_value v -> Z.of_nat (length (dump_value v)) < 2 ^ 30 ->
  info_ok (ls_info s) -> text_left s = dump_value v ++ rest -> allocs e = [] ->
  exists nb info, let k' := set_values k (values k ++ [reload v]) nb in
    reaches s e (with_info (with_registry s (set_key (ls_registry s) a k')) info) e /\ info_ok info /\ fi_file info = rest /\ values_ok casemap k'.
Proof.
  intros Hs Hk Hok Hlen Hsort Hv Hd Hi Et He.
  assert (value_of casemap (values k) (v_name v) = None) as Hno.
  { apply value_of_none. intros w Hw Ec. rewrite fmap_app in Hsort. apply sorted_app in Hsort as (_ & _ & H).
    specialize (H (v_name w) (v_name v) (list_elem_of_fmap_2 _ _ _ Hw) ltac:(left)). unfold name_lt in H. lia. }
  destruct (load_value_run casemap k v (ls_info s) rest e Hok Hlen Hno Hv Hd Hi Et He)
    as (l & i1 & E1 & Hhead & i & nb & i2 & E2 & Hok' & Hb & Hi2 & Ef2).
  assert (i = length (values k)) as ->. { apply (last_place _ i (loaded (values k) v)); [done|apply Hok'|by rewrite fmap_app in *]. }
  assert (with_new (values k) (length (values k)) (loaded (values k) v) = values k ++ [reload v]) as Ew.
  { unfold with_new. by rewrite take_ge, drop_ge, loaded_reload by done. }
  rewrite Ew in *. exists nb, i2. split; [|done]. apply (reaches_line s e l i1); [done| |].
  - unfold load_line. rewrite skip_spaces_id by (destruct Hhead as [->| ->]; done).
    assert ((deref l =? 91) = false /\ ((deref l =? 64) || (deref l =? 34)) = true) as [-> ->] by (destruct Hhead as [->| ->]; done).
    cbn [with_info ls_subkey ls_registry ls_info]. rewrite Hs. unfold ubind, try. rewrite Hk, E2. unfold uret.
    unfold with_info, with_registry. cbn [ls_info ls_subkey ls_modif ls_registry ls_prefix_len ls_prefix_type]. by rewrite Hs.
  - unfold text_left in *. cbn [with_info ls_info]. rewrite Et, Ef2, length_app. rewrite dump_value_head, dump_data_lines, !length_app. cbn. lia.
Qed.

Lemma values_reach (vs : list key_value) : forall s e a k rest,
  ls_subkey s = Some a -> keys (ls_registry s) !! a = Some k -> values_ok casemap k ->
  Z.of_nat (length (values k ++ vs)) < 2 ^ 30 -> sorted_names casemap (v_name <$> values k ++ vs) -> Forall wf_value vs ->
  Z.of_nat (length (concat (dump_value <$> vs))) < 2 ^ 30 ->
  info_ok (ls_info s) -> text_left s = concat (dump_value <$> vs) ++ rest -> allocs e = [] ->
  exists nb info, let k' := set_values k (values k ++ (reload <$> vs)) nb in
    reaches s e (with_info (with_registry s (set_key (ls_registry s) a k')) info) e /\ info_ok info /\ fi_file info = rest /\ values_ok casemap k'.
Proof.
  induction vs as [|v vs IH]; intros s e a k rest Hs Hk Hok Hlen Hsort Hv Hd Hi Et He.
  - exists (nb_values k), (ls_info s). cbn [fmap list_fmap]. rewrite app_nil_r. replace (set_values k (values k) (nb_values k)) with k by (by destruct k).
    rewrite set_key_same by done. split_and!; [|done..]. destruct s. apply reaches_refl.
  - apply list.Forall_cons in Hv as [Hv Hvs]. rewrite fmap_cons in Hd, Et. cbn [concat] in Hd, Et. rewrite length_app in Hd, Hlen. cbn [length] in Hlen.
    rewrite cons_middle, app_assoc in Hsort. pose proof Hsort as Hs1. rewrite fmap_app in Hs1. apply sorted_app in Hs1 as (Hs1 & _ & _).
    destruct (value_reach s e a k v (concat (dump_value <$> vs) ++ rest) Hs Hk Hok ltac:(lia) Hs1 Hv ltac:(lia) Hi) as (nb & i1 & R1 & Hi1 & Ef1 & Hok1);
      [by rewrite Et, <-app_assoc|done|].
    set (k1 := set_values k (values k ++ [reload v]) nb) in *.
    destruct (IH (with_info (with_registry s (set_key (ls_registry s) a k1)) i1) e a k1 rest) as (nb2 & i2 & R2 & Hi2 & Ef2 & Hok2); try done; cbn.
    + by rewrite lookup_insert_eq.
    + rewrite !length_app. cbn. lia.
    + rewrite !fmap_app in *. done.
    + lia.
    + exists nb2, i2. cbn in R2, Hok2. rewrite <-app_assoc in R2, Hok2. cbn in R2, Hok2. split_and!; [|done..].
      eapply reaches_trans; [exact R1|]. by rewrite set_key_twice in R2.
Qed.

(** ** The head and the options of a section *)

(** An empty line. *)
Lemma blank_reach s e rest : info_ok (ls_info s) -> text_left s = 10 :: rest -> allocs e = [] ->
  exists info, reaches s e (with_info s info) e /\ info_ok info /\ fi_file info = rest.
Proof.
  intros Hi Et He. destruct (reaches_text s e [] rest Hi Et) as (info & Hi' & Ef & R); [constructor|cbn; lia|done|]. exists info.
  split; [|done]. by apply R.
Qed.

(** The line with the path and the time. *)
Definition head_line (p : list Z) (t : Z) : list Z := 91 :: dump_chars (91, 93) p ++ chars "] " ++ fmt_u t.

Lemma head_line_printable p t : Forall (fun c => 0 <= c < 2 ^ 16) p -> 0 <= t -> Forall printable (head_line p t).
Proof.
  intros Hp Ht. unfold head_line. apply List.Forall_cons; [unfold printable; lia|]. apply list.Forall_app. split; [by apply dump_chars_printable|].
  apply list.Forall_app. split; [by apply chars_printable|]. by apply decimal_printable, fmt_decimal_digits.
Qed.

Lemma safe_brackets : safe_escape 91 /\ safe_escape 93.
Proof. by unfold safe_escape. Qed.

(** A path that can be looked up. *)
Definition path_ok (p : list Z) : Prop := Forall (fun c => 0 <= c < 2 ^ 16) p /\ (p = [] \/ deref p <> 0).

Lemma load_key_run r p t info r2 a e e2 :
  path_ok p -> 0 <= t < 2 ^ 32 -> info_ok info -> allocs e = [] ->
  create_key_recursive casemap new_addr lookup_absolute (length p) r base p 0 e = Some ((r2, Some a), e2) ->
  exists info', load_key casemap new_addr lookup_absolute r base (tail (head_line p t)) 0 info e =
    Some ((r2, info', Some (a, t * TICKS_PER_SEC + ticks_1601_to_1970)), e2) /\ info_ok info' /\ fi_file info' = fi_file info.
Proof using.
  intros [Hp Hd] Ht Hi He Ec. unfold head_line. cbn [tail]. set (buf := dump_chars (91, 93) p ++ chars "] " ++ fmt_u t).
  destruct (tmp_space info (Z.of_nat (length buf) * sizeof_WCHAR) e Hi He) as (i1 & E1 & Hi1 & Ef1 & Hl).
  exists i1. split; [|done]. unfold load_key, ubind at 1, lift. rewrite E1. cbn [negb]. unfold ubind at 1, try.
  unfold buf at 1. change (chars "] " ++ fmt_u t) with (93 :: 32 :: fmt_u t).
  rewrite parse_dumped; [|done|apply safe_brackets|apply safe_brackets|by right|].
  2: { unfold buf in Hl. rewrite !length_app in Hl. cbn [length chars] in Hl. change (length (chars "] ")) with 2%nat in Hl.
       pose proof (dump_chars_length (91, 93) p). unfold sizeof_WCHAR in *. lia. }
  rewrite (proj2 (Z.eqb_neq _ (-1))) by lia.
  assert (drop (Z.to_nat (Z.of_nat (length (dump_chars (91, 93) p)) + 1)) buf = 32 :: fmt_u t) as ->.
  { unfold buf. rewrite Z2Nat.inj_add, Nat2Z.id by lia. by rewrite drop_app_add. }
  rewrite scan_fmt_u by done. unfold sizeof_WCHAR. rewrite Z.div_mul by lia. rewrite Nat2Z.inj_add, Z.add_simpl_r, Nat2Z.id, take_app_length.
  destruct p as [|c p].
  - cbn [skip_prefix deref Z.eqb]. cbn in Ec. unfold uret in *. by injection Ec as -> -> ->.
  - destruct Hd as [?|Hd]; [done|]. cbn [skip_prefix Z.eqb orb]. rewrite (proj2 (Z.eqb_neq _ 0) Hd). unfold ubind. by rewrite Ec.
Qed.

Lemma head_reach s e p t rest r1 r2 a e2 :
  path_ok p -> 0 <= t < 2 ^ 32 -> info_ok (ls_info s) -> allocs e = [] -> ls_prefix_len s = 0 -> end_section s = Some r1 ->
  create_key_recursive casemap new_addr lookup_absolute (length p) r1 base p 0 e = Some ((r2, Some a), e2) ->
  text_left s = head_line p t ++ 10 :: rest -> Z.of_nat (length (head_line p t)) < 2 ^ 30 ->
  exists info, reaches s e (mk_load r2 info (Some a) (t * TICKS_PER_SEC + ticks_1601_to_1970) 0 (ls_prefix_type s)) e2 /\
    info_ok info /\ fi_file info = rest.
Proof.
  intros Hp Ht Hi He Epl Er Ec Et Hl. destruct (reaches_text s e _ _ Hi Et) as (i1 & Hi1 & Ef1 & R);
    [apply head_line_printable; [apply Hp|lia]|done|done|].
  destruct (load_key_run r1 p t i1 r2 a e e2 Hp Ht Hi1 He Ec) as (i2 & E2 & Hi2 & Ef2). exists i2. split; [|split; [done|congruence]].
  apply R; [|unfold text_left; cbn; congruence]. rewrite skip_spaces_id by done. unfold load_line.
  change (deref (head_line p t)) with 91. cbn [Z.eqb Pos.eqb]. unfold ubind at 1, try.
  change (end_section (with_info s i1)) with (end_section s). rewrite Er. cbn [with_info ls_prefix_len ls_info ls_modif ls_prefix_type]. rewrite Epl.
  cbn [Z.eqb]. unfold ubind at 1, uret at 1. unfold ubind. by rewrite E2.
Qed.

(** The line with the time. *)
Definition time_line (m : Z) : list Z := chars "#time=" ++ fmt_x32 (u32 (Z.shiftr m 32)) ++ fmt_digits 8 (u32 m).

Lemma time_line_printable m : Forall printable (time_line m).
Proof.
  unfold time_line. repeat (apply list.Forall_app; split); [by apply chars_printable|..]; apply hexdigit_printable; [apply fmt_x32_hex|apply fmt_digits_hex].
Qed.

(** The switch on a line with an option. *)
Lemma option_line s e l a r info : ls_subkey s = Some a -> deref l = 35 ->
  load_key_option (ls_registry s) a l (ls_info s) e = Some ((r, info), e) ->
  line s (skip_spaces l) e = Some ((with_info (with_registry s r) info, true), e).
Proof using.
  intros Hs Hl E. rewrite skip_spaces_id by (by rewrite Hl). unfold load_line. rewrite Hl, Hs. cbn [Z.eqb Pos.eqb orb]. unfold ubind. rewrite E.
  unfold uret, with_info, with_registry. cbn. by rewrite Hs.
Qed.

Lemma time_reach s e a k l m rest :
  ls_subkey s = Some a -> keys (ls_registry s) !! a = Some k -> chain (ls_registry s) (Some a) l -> 0 <= m < 2 ^ 63 ->
  info_ok (ls_info s) -> text_left s = time_line m ++ 10 :: rest -> allocs e = [] ->
  exists r info, update_time (ls_registry s) a m = Some r /\ retimed m (ls_registry s) r /\ keys r !! a = Some (timed k m) /\
    reaches s e (with_info (with_registry s r) info) e /\ info_ok info /\ fi_file info = rest.
Proof.
  intros Hs Hk Hc Hm Hi Et He. destruct (update_time_run (ls_registry s) a k l m Hc Hk) as (r & Eu & T & Ek).
  destruct (reaches_text s e _ _ Hi Et) as (i1 & Hi1 & Ef1 & R); [apply time_line_printable| |done|].
  { unfold time_line. rewrite !length_app, fmt_digits_length. pose proof (fmt_x32_length (u32 (Z.shiftr m 32))).
    change (length (chars "#time=")) with 6%nat. lia. }
  exists r, i1. split_and!; try done. apply R; [|done]. apply (option_line (with_info s i1) e _ a); [done|done|].
  unfold load_key_option. cbn [with_info ls_registry ls_info]. unfold time_line. rewrite starts_with_app.
  change (drop 6 (chars "#time=" ++ ?x)) with x. rewrite time_roundtrip by done. unfold ubind, try. rewrite Eu, Ek.
  change (chars "#time=" ++ ?x) with (35 :: 116 :: drop 2 (chars "#time=") ++ x).
  change (chars "#class=") with (35 :: 99 :: drop 2 (chars "#class=")). change (chars "#link") with (35 :: 108 :: drop 2 (chars "#link")).
  rewrite !starts_with_cons. cbn [Z.eqb Pos.eqb andb]. unfold uret. cbn [negb]. by rewrite Ek.
Qed.

(** The class, which grows by a NUL. *)
Definition class_loaded (c : option (list Z)) (k : key) : key :=
  set_class k (match c with Some c => Some (c ++ [0]) | None => k_class k end).

Definition class_ok (c : option (list Z)) : Prop := match c with Some c => Forall (fun x => 0 <= x < 2 ^ 16) c | None => True end.

Lemma class_reach s e a k c rest :
  ls_subkey s = Some a -> keys (ls_registry s) !! a = Some k -> class_ok c -> info_ok (ls_info s) ->
  text_left s = dump_class c ++ rest -> Z.of_nat (length (dump_class c)) < 2 ^ 30 -> allocs e = [] ->
  exists info, reaches s e (with_info (with_registry s (set_key (ls_registry s) a (class_loaded c k))) info) e /\ info_ok info /\ fi_file info = rest.
Proof.
  intros Hs Hk Hc Hi Et Hl He. unfold class_loaded. destruct c as [c|].
  2: { exists (ls_info s). replace (set_class k (k_class k)) with k by (by destruct k). rewrite set_key_same by done. split_and!; [|done..].
       destruct s. apply reaches_refl. }
  cbn [class_ok dump_class] in *. rewrite dump_strW_chars in *. cbn [fst] in *.
  set (l := chars "#class=" ++ 34 :: dump_chars (34, 34) c ++ [34]).
  assert (text_left s = l ++ 10 :: rest) as Et'. { rewrite Et. unfold l. rewrite <-!app_assoc. cbn [app]. by rewrite <-!app_assoc. }
  destruct (reaches_text s e l rest Hi Et') as (i1 & Hi1 & Ef1 & R); [|unfold l; rewrite !length_app in *; cbn [length] in *; rewrite ?length_app in *; cbn [length] in *; lia|done|].
  { unfold l. apply list.Forall_app. split; [by apply chars_printable|]. apply List.Forall_cons; [unfold printable; lia|].
    apply list.Forall_app. split; [by apply dump_chars_printable|]. apply list.Forall_singleton. unfold printable; lia. }
  destruct (parse_quoted c [] i1 e Hc Hi1 He) as (i2 & E2 & Hi2 & Ef2 & Ep).
  exists i2. split; [|split; [done|congruence]]. apply R; [|unfold text_left; cbn; congruence].
  apply (option_line (with_info s i1) e l a); [done|done|]. unfold load_key_option. cbn [with_info ls_registry ls_info].
  assert (starts_with (chars "#time=") l = false /\ starts_with (chars "#link") l = false /\ starts_with (chars "#class=") l = true) as (E1 & E3 & E4).
  { split_and!; [| |apply starts_with_app]; unfold l; change (chars "#class=" ++ ?x) with (35 :: 99 :: drop 2 (chars "#class=") ++ x);
      [change (chars "#time=") with (35 :: 116 :: drop 2 (chars "#time="))|change (chars "#link") with (35 :: 108 :: drop 2 (chars "#link"))];
      by rewrite !starts_with_cons. }
  rewrite E1, E3, E4. unfold ubind, uret, try. rewrite Hk. unfold load_class.
  change (drop 7 l) with (34 :: dump_chars (34, 34) c ++ [34]). cbn [deref Z.eqb Pos.eqb negb tail]. unfold ubind, lift, try. rewrite E2. cbn [negb].
  rewrite Ep. rewrite (proj2 (Z.eqb_neq _ (-1))) by lia. rewrite mem_alloc_full by done. unfold uret. cbn [negb set_key set_keys keys].
  rewrite lookup_insert_eq. unfold sizeof_WCHAR. rewrite Z.div_mul, Nat2Z.id by lia. by rewrite take_ge by (rewrite length_app; cbn; lia).
Qed.

(** The mark of a symbolic link. *)
Definition link_loaded (link : bool) (k : key) : key := if link then set_flags k (Z.lor (k_flags k) KEY_SYMLINK) else k.

Definition dump_link (link : bool) : list Z := if link then chars "#link" ++ [10] else [].

Lemma link_reach s e a k link rest :
  ls_subkey s = Some a -> keys (ls_registry s) !! a = Some k -> info_ok (ls_info s) -> text_left s = dump_link link ++ rest -> allocs e = [] ->
  exists info, reaches s e (with_info (with_registry s (set_key (ls_registry s) a (link_loaded link k))) info) e /\ info_ok info /\ fi_file info = rest.
Proof.
  intros Hs Hk Hi Et He. destruct link; cbn [link_loaded].
  2: { exists (ls_info s). rewrite set_key_same by done. split_and!; [|done..]. destruct s. apply reaches_refl. }
  destruct (reaches_text s e (chars "#link") rest Hi Et) as (i1 & Hi1 & Ef1 & R); [by apply chars_printable|cbn; lia|done|].
  exists i1. split; [|done]. apply R; [|done]. apply (option_line (with_info s i1) e _ a); [done|done|].
  unfold load_key_option. cbn [with_info ls_registry ls_info]. change (starts_with (chars "#time=") (chars "#link")) with false.
  change (starts_with (chars "#class=") (chars "#link")) with false. change (starts_with (chars "#link") (chars "#link")) with true.
  unfold ubind, uret, try. cbn [negb]. by rewrite Hk.
Qed.

(** ** Sections *)

(** A key that can be written. *)
Record wf_key (k : key) : Prop := {
  wk_values : Forall wf_value (values k);
  wk_sorted : sorted_names casemap (v_name <$> values k);
  wk_class : class_ok (k_class k);
  wk_modif : 0 <= modif k < 2 ^ 63
}.

(** The key [k'] of a file after the section of [k] was loaded into it. *)
Definition section_loaded (k' k : key) (nb : Z) : key :=
  set_values (link_loaded (has_bits (k_flags k) KEY_SYMLINK) (class_loaded (k_class k) (timed k' (modif k)))) (reload <$> values k) nb.

Lemma dump_section_lines p k rest :
  dump_section (fst (dump_strW p (91, 93))) k ++ rest =
  10 :: head_line p (unix_time (modif k)) ++ 10 :: time_line (modif k) ++ 10 :: dump_class (k_class k) ++
  dump_link (has_bits (k_flags k) KEY_SYMLINK) ++ concat (dump_value <$> values k) ++ rest.
Proof using.
  unfold dump_section, head_line, dump_times, time_line. rewrite dump_strW_chars. cbn [fst]. unfold dump_link.
  repeat (rewrite <-!app_assoc; cbn [app]). done.
Qed.

Lemma values_text_length (vs : list key_value) : (length vs <= length (concat (dump_value <$> vs)))%nat.
Proof using.
  induction vs as [|v vs IH]; [done|]. rewrite fmap_cons. cbn [concat length]. rewrite length_app, dump_value_head, dump_data_lines, !length_app. cbn. lia.
Qed.

Lemma section_reach s e p k rest r1 r2 a k2 l e2 :
  wf_key k -> Z.of_nat (length (dump_section (fst (dump_strW p (91, 93))) k)) < 2 ^ 30 -> path_ok p ->
  info_ok (ls_info s) -> allocs e = [] -> ls_prefix_len s = 0 -> text_left s = dump_section (fst (dump_strW p (91, 93))) k ++ rest ->
  end_section s = Some r1 -> create_key_recursive casemap new_addr lookup_absolute (length p) r1 base p 0 e = Some ((r2, Some a), e2) ->
  allocs e2 = [] -> keys r2 !! a = Some k2 -> values k2 = [] -> values_ok casemap k2 -> chain r2 (Some a) l ->
  exists r3 nb info, retimed (modif k) r2 r3 /\ keys r3 !! a = Some (timed k2 (modif k)) /\ values_ok casemap (section_loaded k2 k nb) /\
    info_ok info /\ fi_file info = rest /\
    reaches s e (mk_load (set_key r3 a (section_loaded k2 k nb)) info (Some a) (unix_time (modif k) * TICKS_PER_SEC + ticks_1601_to_1970) 0 (ls_prefix_type s)) e2.
Proof.
  intros Hk Hlen Hp Hi He Epl Et Er Ec He2 Ek2 Ev Hok Hc. rewrite dump_section_lines in Et.
  pose proof (dump_section_lines p k []) as El. rewrite !app_nil_r in El. rewrite El in Hlen. cbn [length] in Hlen. rewrite !length_app in Hlen.
  cbn [length] in Hlen. rewrite !length_app in Hlen. cbn [length] in Hlen. rewrite !length_app in Hlen.
  assert (0 <= unix_time (modif k) < 2 ^ 32) as Ht by (apply Z.mod_pos_bound; lia).
  destruct (blank_reach s e _ Hi Et He) as (i0 & R0 & Hi0 & Ef0).
  destruct (head_reach (with_info s i0) e p (unix_time (modif k)) _ r1 r2 a e2 Hp Ht Hi0 He Epl Er Ec Ef0) as (i1 & R1 & Hi1 & Ef1); [lia|].
  set (st := fun r i => mk_load r i (Some a) (unix_time (modif k) * TICKS_PER_SEC + ticks_1601_to_1970) 0 (ls_prefix_type s)).
  destruct (time_reach (st r2 i1) e2 a k2 l (modif k) _ eq_refl Ek2 Hc (wk_modif k Hk) Hi1 Ef1 He2) as (r3 & i2 & Eu & T & Ek3 & R2 & Hi2 & Ef2).
  destruct (class_reach (st r3 i2) e2 a _ (k_class k) _ eq_refl Ek3 (wk_class k Hk) Hi2 Ef2) as (i3 & R3 & Hi3 & Ef3); [lia|done|].
  set (r4 := set_key r3 a (class_loaded (k_class k) (timed k2 (modif k)))).
  destruct (link_reach (st r4 i3) e2 a _ _ _ eq_refl (lookup_insert_eq _ _ _) Hi3 Ef3 He2) as (i4 & R4 & Hi4 & Ef4).
  pose proof (values_text_length (values k)) as Hn. set (k5 := link_loaded _ _) in *. set (r5 := set_key r4 a k5) in *.
  assert (values k5 = [] /\ values_ok casemap k5) as [Ev5 Hok5].
  { unfold k5, link_loaded. destruct Hok as [H1 H2 H3]. by destruct (has_bits _ _). }
  destruct (values_reach (values k) (st r5 i4) e2 a k5 rest eq_refl (lookup_insert_eq _ _ _) Hok5) as (nb & i5 & R5 & Hi5 & Ef5 & Hok6); try done;
    rewrite ?Ev5; cbn [app]; [lia|apply Hk|apply Hk|lia|].
  rewrite Ev5 in R5, Hok6. exists r3, nb, i5. split_and!; try done.
  assert (set_key r5 a (section_loaded k2 k nb) = set_key r3 a (section_loaded k2 k nb)) as <- by (unfold r5, r4; by rewrite !set_key_twice).
  eapply reaches_trans; [exact R0|]. eapply reaches_trans; [exact R1|]. eapply reaches_trans; [exact R2|].
  eapply reaches_trans; [exact R3|]. eapply reaches_trans; [exact R4|]. exact R5.
Qed.

End load.
