(* ===== verification/RegistryPaths.v ===== *)
(** * The text of the registry: creating the keys of a path

    create_key_recursive gets to the key of a path, whatever part of it is there
    already: the keys that were there stay, and those that are created lie on the
    path. *)

From Stdlib Require Import ZArith Lia Ascii String.
From stdpp Require Import base list numbers option gmap.
From S2P Require Import Prelude Unicode UnicodeTheorems Registry RegistryTree RegistrySearch RegistryValues RegistryForest RegistryCreate Memory RegistryFile.

#[local] Open Scope Z_scope.
#[local] Open Scope server_scope.

(** ** Paths *)

(** The text of a path. *)
Fixpoint join (names : list (list Z)) : list Z :=
  match names with
  | [] => []
  | [n] => n
  | n :: names => n ++ 92 :: join names
  end.

Record name_ok (n : list Z) : Prop := {
  no_empty : n <> [];
  no_slash : Forall (fun c => c <> 92) n;
  no_length : Z.of_nat (length n) <= MAX_NAME_LEN
}.

Lemma name_element n : name_ok n -> element n.
Proof. intros [Hn Hs _]. split; [done|]. intros Hin. rewrite list.Forall_forall in Hs. by apply (Hs 92). Qed.

Lemma path_element n rest : Forall (fun c => c <> 92) n -> get_path_element (n ++ 92 :: rest) = length n /\ get_path_element n = length n.
Proof.
  induction 1 as [|c n Hc _ [IH1 IH2]]; [done|]. cbn. rewrite (proj2 (Z.eqb_neq c 92) Hc). by rewrite IH1, IH2.
Qed.

Lemma join_cons n n' names : join (n :: n' :: names) = n ++ 92 :: join (n' :: names).
Proof. done. Qed.

Lemma join_element n names : name_ok n ->
  get_path_element (join (n :: names)) = length n /\ take (length n) (join (n :: names)) = n /\ drop (S (length n)) (join (n :: names)) = join names.
Proof.
  intros Hn. destruct (path_element n (join names) (no_slash n Hn)) as [E1 E2]. destruct names as [|n' names].
  - cbn [join]. rewrite E2, take_ge, drop_ge by lia. done.
  - rewrite join_cons, E1, take_app_length. split_and!; [done..|]. rewrite <-Nat.add_1_r, drop_app_add. done.
Qed.

Lemma join_length n names : name_ok n -> (length (join names) < length (join (n :: names)))%nat.
Proof.
  intros Hn. pose proof (no_empty n Hn). destruct names as [|n' names]; [destruct n; [done|]; cbn; lia|]. rewrite join_cons, length_app. cbn [length]. lia.
Qed.

Lemma join_nonempty n names : name_ok n -> join (n :: names) <> [].
Proof. intros Hn E. pose proof (join_length n names Hn). rewrite E in H. cbn in H. lia. Qed.

(** ** Growing registries *)

(** A key without the list of its subkeys. *)
Definition inner (k : key) : key := set_wow6432node (set_subkeys k [] 0) None.

(** Keys were added; the new ones are empty. *)
Record grown (r r' : registry) : Prop := {
  gr_old : forall b k, keys r !! b = Some k -> exists k', keys r' !! b = Some k' /\ inner k' = inner k;
  gr_new : forall b k, keys r !! b = None -> keys r' !! b = Some k -> values k = [] /\ k_class k = None /\ k_flags k = KEY_DIRTY
}.

#[export] Instance grown_preorder : PreOrder grown.
Proof.
  split; [intros r; split; [intros b k Hk; by exists k|congruence]|]. intros r1 r2 r3 [O1 N1] [O2 N2]. split.
  - intros b k Hk. destruct (O1 b k Hk) as (k2 & Hk2 & E2). destruct (O2 b k2 Hk2) as (k3 & Hk3 & E3). exists k3. by rewrite E3.
  - intros b k Hb Hk. destruct (keys r2 !! b) as [k2|] eqn:E; [|by apply (N2 b)]. destruct (O2 b k2 E) as (k3 & Hk3 & E3).
    rewrite Hk in Hk3. injection Hk3 as <-. destruct (N1 b k2 Hb E) as (H1 & H2 & H3).
    injection E3 as _ _ Ec Ev _ Ef _ _ _. by rewrite Ec, Ev, Ef.
Qed.

Lemma grown_size r r' s : grown r r' -> (forall b, keys r !! b = None -> b <> s -> keys r' !! b = None) -> (size (keys r') <= S (size (keys r)))%nat.
Proof.
  intros G H. rewrite <-!size_dom. transitivity (size ({[s]} ∪ dom (keys r) : gset Z)).
  - apply subseteq_size. intros b [k Hk]%elem_of_dom. rewrite elem_of_union, elem_of_singleton, elem_of_dom. destruct (decide (b = s)) as [->|Hne]; [by left|].
    right. destruct (keys r !! b) eqn:E; [by eexists|]. rewrite H in Hk by done. done.
  - pose proof (size_union_alt ({[s]} : gset Z) (dom (keys r))) as E. rewrite E, size_singleton.
    assert (size (dom (keys r) ∖ {[s]} : gset Z) <= size (dom (keys r)))%nat by (by apply subseteq_size, subseteq_difference_l). lia.
Qed.

Section paths.
Context (casemap : Z -> Z).
#[local] Abbreviation low := (to_lower casemap).
#[local] Abbreviation reg_ok := (reg_ok casemap).
#[local] Abbreviation subkey_of := (subkey_of casemap).

(** Names and paths without regard to case. *)
Definition low_path (p : list (list Z)) : list (list Z) := (fun n : list Z => low <$> n) <$> p.

(** The key at a path below [base]. *)
Inductive key_at (r : registry) (base : Z) : list (list Z) -> Z -> Prop :=
  | at_base : key_at r base [] base
  | at_sub q n b k c : key_at r base q c -> keys r !! b = Some k -> k_parent k = Some c -> low <$> k_name k = low <$> n -> key_at r base (q ++ [n]) b.

Lemma key_at_nil r base b : key_at r base [] b -> b = base.
Proof. intros H. remember [] as q eqn:E. destruct H as [|q n b k c]; [done|]. by destruct q. Qed.

Lemma key_at_snoc r base q n b : key_at r base (q ++ [n]) b ->
  exists k c, key_at r base q c /\ keys r !! b = Some k /\ k_parent k = Some c /\ low <$> k_name k = low <$> n.
Proof.
  intros H. remember (q ++ [n]) as p eqn:E. destruct H as [|q' n' b k c H Hk Hp En]; [by destruct q|].
  apply app_inj_tail in E as [-> ->]. by exists k, c.
Qed.

Lemma key_at_some r base q b : is_Some (keys r !! base) -> key_at r base q b -> is_Some (keys r !! b).
Proof. intros Hb [|q' n b' k c _ Hk _ _]; [done|]. by eexists. Qed.

(** A path leads to one key. *)
Lemma key_at_unique r base q b : reg_ok r -> key_at r base q b -> forall q' b', low_path q = low_path q' -> key_at r base q' b' -> b = b'.
Proof.
  intros R. induction 1 as [|q n b k c H IH Hk Hp En]; intros q' b' E H'.
  - symmetry in E. apply fmap_nil_inv in E as ->. symmetry. by apply (key_at_nil r).
  - destruct H' as [|q' n' b' k' c' H' Hk' Hp' En']; [unfold low_path in E; rewrite fmap_app in E; by destruct (_ <$> q)|].
    unfold low_path in E. rewrite !fmap_app in E. apply app_inj_tail in E as [E1 E2]. pose proof (IH q' c' E1 H') as <-.
    destruct (ko_parent _ _ _ _ (ro_keys _ _ R b k Hk) c Hp) as (_ & kc & Hkc & Hin).
    destruct (ko_parent _ _ _ _ (ro_keys _ _ R b' k' Hk') c Hp') as (_ & kc' & Hkc' & Hin'). rewrite Hkc in Hkc'. injection Hkc' as <-.
    apply (subkey_of_unique casemap r c kc n); [by apply R| |]; (split; [done|]); eexists; (split; [done|]); apply cmp_zero; congruence.
Qed.

(** A key has one path. *)
Lemma key_at_chain r base q b l0 : key_at r base q b -> chain r (Some base) l0 -> exists l, chain r (Some b) l /\ length l = (length q + length l0)%nat.
Proof.
  induction 1 as [|q n b k c H IH Hk Hp En]; intros Hl0; [by exists l0|]. destruct (IH Hl0) as (l & Hl & El). exists (b :: l).
  split; [econstructor; [done|by rewrite Hp]|]. rewrite length_app. cbn. lia.
Qed.

Lemma key_at_path r base q b : reg_ok r -> is_Some (keys r !! base) -> key_at r base q b -> forall q', key_at r base q' b -> low_path q = low_path q'.
Proof.
  intros R Hb H q' H'. destruct (ro_chains _ _ R base Hb) as [l0 Hl0]. assert (length q = length q') as El.
  { destruct (key_at_chain r base q b l0 H Hl0) as (l & Hl & E), (key_at_chain r base q' b l0 H' Hl0) as (l' & Hl' & E').
    rewrite (chain_det _ _ _ _ Hl Hl') in E. lia. }
  revert q' H' El. induction H as [|q n b k c H IH Hk Hp En]; intros q' H' El; [by destruct q'|].
  destruct H' as [|q' n' b k' c' H' Hk' Hp' En']; [rewrite length_app in El; cbn in El; lia|].
  rewrite Hk in Hk'. injection Hk' as <-. rewrite Hp in Hp'. injection Hp' as <-. rewrite !length_app in El. cbn in El.
  unfold low_path in *. rewrite !fmap_app, (IH q') by (done || lia). cbn. by rewrite <-En, <-En'.
Qed.

(** Registries with the same keys below the same keys. *)
Definition same_tree (r r' : registry) : Prop := forall b, (fun k => (k_name k, k_parent k)) <$> keys r' !! b = (fun k => (k_name k, k_parent k)) <$> keys r !! b.

Lemma key_at_same r r' base q b : same_tree r r' -> key_at r base q b -> key_at r' base q b.
Proof.
  intros S. induction 1 as [|q n b k c H IH Hk Hp En]; [constructor|]. specialize (S b). rewrite Hk in S.
  destruct (keys r' !! b) as [k'|] eqn:Hk'; [|done]. injection S as S1 S2. apply (at_sub r' base q n b k' c); congruence.
Qed.

(** The keys that were there are at the same paths. *)
Lemma key_at_grown r r' base q b : grown r r' -> key_at r base q b -> key_at r' base q b.
Proof.
  intros G. induction 1 as [|q n b k c H IH Hk Hp En]; [constructor|]. destruct (gr_old _ _ G b k Hk) as (k' & Hk' & E).
  injection E as E1 E2 _ _ _ _ _ _ _. apply (at_sub r' base q n b k' c); congruence.
Qed.

Lemma key_at_old r r' base q b : grown r r' -> reg_ok r -> key_at r' base q b -> is_Some (keys r !! b) -> key_at r base q b.
Proof.
  intros G R. induction 1 as [|q n b k c H IH Hk Hp En]; [constructor|]. intros [k0 Hk0]. destruct (gr_old _ _ G b k0 Hk0) as (k' & Hk' & E).
  rewrite Hk in Hk'. injection Hk' as <-. injection E as E1 E2 _ _ _ _ _ _ _. rewrite E2 in Hp.
  destruct (ko_parent _ _ _ _ (ro_keys _ _ R b k0 Hk0) c Hp) as (_ & kc & Hkc & _).
  apply (at_sub r base q n b k0 c); [apply IH; by eexists|done..|congruence].
Qed.

(** ** Creating keys *)

(** The key that new_key_object makes. *)
Definition bare_key (n : list Z) (p m : Z) : key := mk_key n (Some p) None [] 0 None [] 0 KEY_DIRTY m [] 0.

Lemma create_object_run r a p parent n m e :
  reg_ok r -> keys r !! p = Some parent -> keys r !! a = None -> (forall s, ~ subkey_of r parent n s) ->
  Z.of_nat (length (subkeys parent)) < 2 ^ 30 -> volatile parent = false -> allocs e = [] ->
  exists parent', let r' := set_key (set_key r p parent') a (bare_key n p m) in
    new_key_object casemap r a p n 0 m e = (Some (r', true), e) /\ reg_ok r' /\ inner parent' = inner parent.
Proof.
  intros R Hp Ha Hno Hl Hv He. unfold new_key_object. pose proof (mem_alloc_full e He) as Em. rewrite (bind_run _ _ _ _ _ Em). cbn [negb]. rewrite (bind_run _ _ _ _ _ Em). cbn [negb].
  destruct (key_link_name_run casemap r a p parent n e (ro_keys _ _ R p parent Hp) Hp Hno Hl) as (r1 & ok & e1 & E & H & A).
  destruct (A He) as [-> ->]. rewrite (bind_run _ _ _ _ _ E). destruct H as (parent' & -> & L). exists parent'.
  rewrite set_key_lookup, decide_True by done. pose proof (li_rest _ _ _ _ _ _ L) as Er.
  assert (k_flags parent' = k_flags parent) as Ef by (by rewrite Er). rewrite Ef. unfold volatile in Hv. rewrite Hv.
  split; [done|]. split; [|by rewrite Er].
  apply (linked_reg_ok casemap r a p parent parent' n KEY_DIRTY 0 m); try done. unfold must_be_volatile, volatile. by rewrite Hv.
Qed.

(** Keys that can be looked up and get subkeys. *)
Definition plain (k : key) : Prop := deleted k = false /\ has_bits (k_flags k) KEY_SYMLINK = false /\ volatile k = false.

Definition plain_below (r : registry) (base : Z) : Prop := forall q b k, key_at r base q b -> keys r !! b = Some k -> plain k.

Lemma bare_plain n p m : plain (bare_key n p m).
Proof. done. Qed.

Lemma grown_create r a p parent parent' n m :
  keys r !! p = Some parent -> keys r !! a = None -> inner parent' = inner parent -> grown r (set_key (set_key r p parent') a (bare_key n p m)).
Proof.
  intros Hp Ha E. split.
  - intros b k Hk. rewrite !set_key_lookup. destruct (decide (b = a)) as [->|]; [congruence|]. destruct (decide (b = p)) as [->|]; [|by exists k].
    exists parent'. split; [done|congruence].
  - intros b k Hk. rewrite !set_key_lookup. destruct (decide (b = a)) as [->|]; [by intros [= <-]|]. destruct (decide (b = p)) as [->|]; congruence.
Qed.

Context (new_addr : registry -> Z) (lookup_absolute : registry -> list Z -> M (option (Z * list Z))).
Context (new_addr_fresh : forall r, keys r !! new_addr r = None).

Lemma subkeys_size r a k : reg_ok r -> keys r !! a = Some k -> (length (subkeys k) <= size (keys r))%nat.
Proof.
  intros R Hk. rewrite <-size_dom. rewrite <-(size_list_to_set (C := gset Z) (subkeys k)) by (apply (subkeys_nodup casemap r a); by apply R).
  apply subseteq_size. intros b Hb%elem_of_list_to_set. apply elem_of_dom.
  destruct (ko_children _ _ _ _ (ro_keys _ _ R a k Hk) b Hb) as (ks & E & _). by eexists.
Qed.

(** One element of a path: the subkey is found, or a new one is made. *)
Lemma open_run r base q c k n e :
  reg_ok r -> plain_below r base -> key_at r base q c -> keys r !! c = Some k -> name_ok n -> Z.of_nat (size (keys r)) < 2 ^ 30 -> allocs e = [] ->
  exists r' s e', create_key_object casemap lookup_absolute r (new_addr r) c n OBJ_OPENIF 0 0 e = Some ((r', Some s), e') /\ allocs e' = [] /\ reg_ok r' /\ grown r r' /\ key_at r' base (q ++ [n]) s /\
    plain_below r' base /\
    (r' = r \/ (keys r' !! s = Some (bare_key n c 0) /\ forall b, keys r !! b = None -> b <> s -> keys r' !! b = None)).
Proof using new_addr_fresh.
  intros R Pl Hc Hk Hn Hs He. destruct (Pl q c k Hc Hk) as (P1 & P2 & P3). 
  unfold create_key_object, ubind, lift, try, uret. change (clear_error e) with (tt, mk_senv 0 (allocs e)). cbn iota.
  assert (n <> []) as Hne by (intros ->; by destruct (no_empty [] Hn)). rewrite bool_decide_eq_false_2 by done.
  pose proof (lookup_single casemap lookup_absolute r c k n OBJ_OPENIF (mk_senv 0 (allocs e)) R Hk P2 (name_element n Hn)) as H. rewrite P1, (proj2 (Z.ltb_ge _ _) (no_length n Hn)) in H.
  assert (forall s ks, subkey_of r k n s -> keys r !! s = Some ks -> key_at r base (q ++ [n]) s) as Hat.
  { intros s ks (Hin & ks' & Hks' & Hcmp) Hks. rewrite Hks in Hks'. injection Hks' as <-. destruct (ko_children _ _ _ _ (ro_keys _ _ R c k Hk) s Hin) as (ks' & Hks' & Hpar & _).
    rewrite Hks in Hks'. injection Hks' as <-. apply cmp_zero in Hcmp. by apply (at_sub r base q n s ks c). }
  destruct H as [H1 H2]; [intros s ks Hsk Hks; left; by apply (Pl _ s ks (Hat s ks Hsk Hks) Hks)|]. cbn [allocs] in H1, H2.
  destruct (subkey_index casemap r c k n R Hk) as (i & [(_ & s & ks & _ & Hks & _ & Hsub)|(_ & Hno)]).
  - rewrite (H1 s Hsub). cbn iota. unfold fail, set_error, bind, ret. eexists r, s, _. split; [done|]. split_and!; try done; [by apply (Hat s ks)|by left].
  - rewrite (H2 Hno). cbn iota. destruct n as [|x n'] eqn:En; [done|]. rewrite <-En in *. set (e0' := mk_senv 0 (allocs e)). assert (allocs e0' = []) as He0 by done.
    pose proof (subkeys_size r c k R Hk). destruct (create_object_run r (new_addr r) c k n 0 e0' R Hk (new_addr_fresh r) Hno ltac:(lia) P3 He0)
      as (k' & E & R' & Ei).
    set (r' := set_key (set_key r c k') (new_addr r) (bare_key n c 0)) in *. rewrite E.
    exists r', (new_addr r), e0'. assert (grown r r') as G by (by eapply grown_create).
    assert (keys r' !! new_addr r = Some (bare_key n c 0)) as Hnew by (unfold r'; by rewrite set_key_lookup, decide_True).
    assert (key_at r' base (q ++ [n]) (new_addr r)) as Hat' by (by apply (at_sub r' base q n _ (bare_key n c 0) c); [apply (key_at_grown r)|..]).
    split_and!; try done.
    + intros q' b kb Hb Hkb. destruct (keys r !! b) as [k0|] eqn:Eb.
      * destruct (gr_old _ _ G b k0 Eb) as (kb' & Hkb' & Ein). rewrite Hkb in Hkb'. injection Hkb' as <-. injection Ein as _ _ _ _ _ Ef' _ _ _.
        unfold plain, deleted, volatile. rewrite Ef'. apply (Pl q' b); [|done]. by apply (key_at_old r r'); [..|by eexists].
      * destruct (gr_new _ _ G b kb Eb Hkb) as (_ & _ & Efl). unfold plain, deleted, volatile. by rewrite Efl.
    + right. split; [done|]. intros b Hb Hbs. unfold r'. rewrite !set_key_lookup, decide_False by done. rewrite decide_False; [done|congruence].
Qed.

(** What is below a key without subkeys. *)
Lemma key_at_prefix r base q' : forall q b, key_at r base (q ++ q') b -> exists c, key_at r base q c.
Proof using.
  induction q' as [|n q' IH] using rev_ind; intros q b H; [rewrite app_nil_r in H; by exists b|].
  rewrite app_assoc in H. apply key_at_snoc in H as (k & c & H & _). by apply (IH q c).
Qed.

Lemma no_subkeys_below r base q s ks n q' b :
  reg_ok r -> key_at r base q s -> keys r !! s = Some ks -> subkeys ks = [] -> ~ key_at r base (q ++ n :: q') b.
Proof using.
  intros R Hs Hks Ek H. rewrite cons_middle, app_assoc in H. apply key_at_prefix in H as [c H]. apply key_at_snoc in H as (kc & p & Hp & Hkc & Epar & _).
  rewrite <-(key_at_unique r base q s R Hs q p eq_refl Hp) in Epar.
  destruct (ko_parent _ _ _ _ (ro_keys _ _ R c kc Hkc) s Epar) as (_ & ks' & Hks' & Hin). rewrite Hks in Hks'. injection Hks' as <-.
  rewrite Ek in Hin. by apply not_elem_of_nil in Hin.
Qed.

(** The new keys lie on the path. *)
Definition on_path (r r' : registry) (base : Z) (q names : list (list Z)) : Prop :=
  forall b, keys r !! b = None -> is_Some (keys r' !! b) -> exists i, key_at r' base (q ++ take i names) b.

Lemma create_walk names : forall fuel r base q c k e,
  reg_ok r -> plain_below r base -> key_at r base q c -> keys r !! c = Some k -> Forall name_ok names ->
  Z.of_nat (size (keys r) + length names) < 2 ^ 30 -> allocs e = [] -> (length (join names) <= fuel)%nat ->
  exists r' a e', create_key_recursive casemap new_addr lookup_absolute fuel r c (join names) 0 e = Some ((r', Some a), e') /\ allocs e' = [] /\ reg_ok r' /\
    grown r r' /\ key_at r' base (q ++ names) a /\ plain_below r' base /\ on_path r r' base q names /\ (size (keys r') <= size (keys r) + length names)%nat /\
    ((exists b, key_at r base (q ++ names) b) \/ exists n p ka, last names = Some n /\ keys r' !! a = Some ka /\ inner ka = inner (bare_key n p 0)).
Proof using new_addr_fresh.
  induction names as [|n names IH]; intros fuel r base q c k e R Pl Hc Hk Hn Hs He Hf.
  - exists r, c, e. rewrite app_nil_r. split; [by destruct fuel|]. split_and!; try done; [| |left; by exists c].
    + intros b E [kb Eb]. congruence.
    + cbn. lia.
  - apply list.Forall_cons in Hn as [Hn Hns]. destruct (join_element n names Hn) as (J1 & J2 & J3). pose proof (join_length n names Hn) as J4.
    destruct fuel as [|fuel]; [lia|]. cbn [create_key_recursive]. destruct (join (n :: names)) as [|x t] eqn:Ej; [by destruct (join_nonempty n names Hn)|].
    rewrite <-Ej in *. rewrite J1, J2, J3.
    destruct (open_run r base q c k n e R Pl Hc Hk Hn ltac:(lia) He) as (r1 & s & e1 & E1 & He1 & R1 & G1 & Hat & Pl1 & Hnew).
    unfold ubind. rewrite E1. assert (is_Some (keys r1 !! s)) as [ks Hks].
    { destruct (key_at_snoc _ _ _ _ _ Hat) as (ks & _ & _ & Hks & _). by eexists. }
    assert (size (keys r1) <= S (size (keys r)))%nat as Hsz. { destruct Hnew as [->|[_ Hnone]]; [lia|]. by eapply grown_size. }
    cbn [length] in Hs.
    destruct (IH fuel r1 base (q ++ [n]) s ks e1 R1 Pl1 Hat Hks Hns ltac:(lia) He1 ltac:(lia)) as (r2 & a & e2 & E2 & He2 & R2 & G2 & Hat2 & Pl2 & On & Hsz2 & Hend).
    exists r2, a, e2. rewrite E2. rewrite <-app_assoc in Hat2, Hend. cbn [app] in Hat2, Hend. split_and!; try done.
    + by transitivity r1.
    + intros b Hb Hb2. destruct (keys r1 !! b) as [k1|] eqn:Eb.
      * destruct Hnew as [->|[_ Hnone]]; [congruence|]. destruct (decide (b = s)) as [->|Hne]; [|rewrite Hnone in Eb by done; done].
        exists 1%nat. cbn [take]. rewrite take_0. by apply (key_at_grown r1).
      * destruct (On b Eb Hb2) as [i Hi]. exists (S i). rewrite <-app_assoc in Hi. exact Hi.
    + cbn. lia.
    + destruct Hnew as [->|[Hbare Hnone]].
      * destruct Hend as [Hend|(n' & p & ka & El & Ea)]; [by left|]. right. exists n', p, ka. by rewrite last_cons, El.
      * right. destruct Hend as [[b Hb]|(n' & p & ka & El & Ea)]; [|exists n', p, ka; by rewrite last_cons, El].
        destruct names as [|n' names].
        -- rewrite <-(key_at_unique r2 base _ s R2 (key_at_grown _ _ _ _ _ G2 Hat) _ a eq_refl Hat2). destruct (gr_old _ _ G2 s _ Hbare) as (ka & Hka & Ei).
           by exists n, c, ka.
        -- rewrite cons_middle, app_assoc in Hb. by apply (no_subkeys_below r1 base (q ++ [n]) s (bare_key n c 0)) in Hb.
Qed.
End paths.
