(* ===== verification/RegistryLoad.v ===== *)
(** * The text of the registry: reading back files

    load_keys on a file of sections creates the key of every section, with what the
    section holds, and no other keys than those on the way to them. *)

From Stdlib Require Import ZArith Lia Ascii String Sorted.
From stdpp Require Import base list numbers option gmap sorting.
From S2P Require Import Prelude Unicode UnicodeTheorems Registry RegistryTree RegistrySearch RegistryValues RegistryForest Memory RegistryText RegistryValueText RegistryFile RegistrySections RegistryPaths.

#[local] Open Scope Z_scope.
#[local] Open Scope server_scope.

(** A section: the path below the key of the file, and the key. *)
Abbreviation section := (list (list Z) * key)%type.

Definition section_text (s : section) : list Z := dump_section (fst (dump_strW (join (fst s)) (91, 93))) (snd s).

(** A key as it comes back from its section. *)
Record loaded_as (p : list (list Z)) (ks k : key) : Prop := {
  la_values : values k = reload <$> values ks;
  la_class : k_class k = (fun c => c ++ [0]) <$> k_class ks;
  la_name : forall n, last p = Some n -> k_name k = n;
  la_modif : p <> [] -> modif k = modif ks
}.

Section load.
Context (casemap : Z -> Z) (new_addr : registry -> Z) (lookup_absolute : registry -> list Z -> M (option (Z * list Z))) (root_key base : Z).
Context (new_addr_fresh : forall r, keys r !! new_addr r = None).
#[local] Abbreviation reg_ok := (reg_ok casemap).
#[local] Abbreviation key_at := (key_at casemap).
#[local] Abbreviation reaches := (reaches casemap new_addr lookup_absolute root_key base).

(** The sections that can be written and read back. *)
Record section_ok (s : section) : Prop := {
  so_key : wf_key casemap (snd s);
  so_modif : 0 < modif (snd s);
  so_link : has_bits (k_flags (snd s)) KEY_SYMLINK = false;
  so_names : Forall name_ok (fst s);
  so_path : path_ok (join (fst s));
  so_length : Z.of_nat (length (section_text s)) < 2 ^ 30
}.

(** A path that leads to none of the keys on the way to the others. *)
Definition new_path (D : list section) (p : list (list Z)) : Prop := forall s, s ∈ D -> ~ low_path casemap p `prefix_of` low_path casemap (fst s).

(** What holds when the sections [D] have been read. *)
Record load_inv (D : list section) (r : registry) : Prop := {
  ld_reg : reg_ok r;
  ld_plain : plain_below casemap r base;
  ld_base : exists k0, keys r !! base = Some k0 /\ (D = [] -> values k0 = [] /\ k_class k0 = None);
  ld_done : forall p ks, (p, ks) ∈ D -> exists a k, key_at r base p a /\ keys r !! a = Some k /\ loaded_as p ks k;
  ld_paths : forall q b, key_at r base q b -> q = [] \/ exists s, s ∈ D /\ low_path casemap q `prefix_of` low_path casemap (fst s)
}.

(** The key of a new section is empty. *)
Lemma section_key D r p e : load_inv D r -> new_path D p -> Forall name_ok p -> Z.of_nat (size (keys r) + length p) < 2 ^ 30 -> allocs e = [] ->
  exists r2 a k2 e2, create_key_recursive casemap new_addr lookup_absolute (length (join p)) r base (join p) 0 e = Some ((r2, Some a), e2) /\ allocs e2 = [] /\
    reg_ok r2 /\ plain_below casemap r2 base /\ grown r r2 /\ key_at r2 base p a /\ keys r2 !! a = Some k2 /\ values k2 = [] /\ k_class k2 = None /\
    (forall n, last p = Some n -> k_name k2 = n /\ modif k2 = 0) /\ (p <> [] -> keys r !! a = None) /\
    on_path casemap r r2 base [] p /\ (size (keys r2) <= size (keys r) + length p)%nat.
Proof using new_addr_fresh.
  intros I Hnew Hp Hs He. destruct (ld_base _ _ I) as (k0 & Hk0 & Hempty).
  destruct (create_walk casemap new_addr lookup_absolute new_addr_fresh p (length (join p)) r base [] base k0 e (ld_reg _ _ I) (ld_plain _ _ I) (at_base _ _ _) Hk0 Hp Hs He ltac:(lia))
    as (r2 & a & e2 & E & He2 & R2 & G & Hat & Pl & On & Hsz & Hend). cbn [app] in *.
  assert (p <> [] -> forall b, ~ key_at r base p b) as Hno.
  { intros Hne b Hb. destruct (ld_paths _ _ I p b Hb) as [->|(s & Hin & Hpre)]; [done|]. by apply (Hnew s). }
  destruct p as [|n0 p'].
  - apply key_at_nil in Hat as ->. destruct (gr_old _ _ G base k0 Hk0) as (k2 & Hk2 & Ei).
    assert (D = []) as ->. { destruct D as [|s D]; [done|]. exfalso. apply (Hnew s); [left|]. apply prefix_nil. }
    destruct (Hempty eq_refl) as [H1 H2]. injection Ei as _ _ Ec Ev _ _ _ _ _. exists r2, base, k2, e2.
    split_and!; try done; try congruence. constructor.
  - destruct Hend as [[b Hb]|(n & c & k2 & El & Hk2 & Ei)]; [by apply Hno in Hb|]. injection Ei as E1 E2 Ec Ev _ _ Em _ _.
    exists r2, a, k2, e2. split_and!; try done.
    + intros n' El'. rewrite El in El'. injection El' as <-. done.
    + intros _. destruct (keys r !! a) as [ka|] eqn:Ea; [|done]. exfalso. apply (Hno ltac:(done) a). apply (key_at_old casemap r r2); [done|apply I|done|by eexists].
Qed.

Lemma retimed_size m r r' : retimed m r r' -> size (keys r') = size (keys r).
Proof using. intros H. by eapply touched_size, retimed_touched. Qed.

(** A key that has a time keeps it. *)
Lemma update_time_done r a k m : keys r !! a = Some k -> modif k <> 0 -> update_time r a m = Some r.
Proof using. intros Hk Hm. unfold update_time. cbn [update_key_time]. rewrite Hk. cbn [mbind option_bind]. by rewrite (proj2 (Z.eqb_neq _ 0) Hm). Qed.

(** What filling a key does to the registry: the times of keys without one change,
    and the contents of the key. *)
Lemma filled_tree r2 r3 a k2 ks nb :
  retimed (modif ks) r2 r3 -> keys r3 !! a = Some (timed k2 (modif ks)) -> keys r2 !! a = Some k2 ->
  has_bits (k_flags ks) KEY_SYMLINK = false -> same_tree r2 (set_key r3 a (section_loaded k2 ks nb)) /\
  forall b kb, keys (set_key r3 a (section_loaded k2 ks nb)) !! b = Some kb -> exists k, keys r2 !! b = Some k /\ k_flags kb = k_flags k.
Proof using.
  intros T Ha Ha2 Hl. unfold section_loaded. rewrite Hl. cbn [link_loaded]. split.
  - intros b. rewrite set_key_lookup. case_decide as E; [subst; by rewrite Ha2|]. destruct (T b) as [->|(k & -> & _ & ->)]; done.
  - intros b kb. rewrite set_key_lookup. case_decide as E; [subst; intros [= <-]; by exists k2|].
    destruct (T b) as [->|(k & Hk & _ & ->)]; [intros Hb; by exists kb|]. intros [= <-]. by exists k.
Qed.

Lemma filled_ok r2 r3 a k2 ks nb :
  reg_ok r2 -> retimed (modif ks) r2 r3 -> keys r3 !! a = Some (timed k2 (modif ks)) -> values_ok casemap (section_loaded k2 ks nb) ->
  has_bits (k_flags ks) KEY_SYMLINK = false -> reg_ok (set_key r3 a (section_loaded k2 ks nb)).
Proof using.
  intros R T Ha V Hl. apply (set_key_reg_ok casemap r3 a (timed k2 (modif ks))); [|done|..|done].
  - apply (touched_reg_ok casemap r2); [by eapply retimed_touched|done].
  - unfold section_loaded. by rewrite Hl.
  - unfold section_loaded. by rewrite Hl.
Qed.

(** The key of a section after it has been filled. *)
Lemma filled_as p k2 ks nb : values k2 = [] -> k_class k2 = None -> (forall n, last p = Some n -> k_name k2 = n /\ modif k2 = 0) ->
  has_bits (k_flags ks) KEY_SYMLINK = false -> loaded_as p ks (section_loaded k2 ks nb).
Proof using.
  intros Ev Ec Hn Hl. unfold section_loaded. rewrite Hl. cbn [link_loaded]. split; cbn.
  - done.
  - rewrite Ec. by destruct (k_class ks).
  - intros n El. by apply Hn.
  - intros Hp. assert (exists n, last p = Some n) as [n El]. { destruct (last p) eqn:E; [by eexists|]. by apply last_None in E. }
    destruct (Hn n El) as [_ ->]. done.
Qed.

(** Sections that were read before stay. *)
Lemma kept_as r r2 r3 a b p ks k m x : grown r r2 -> retimed m r2 r3 -> b <> a -> keys r !! b = Some k -> loaded_as p ks k -> 0 < modif ks ->
  exists k', keys (set_key r3 a x) !! b = Some k' /\ loaded_as p ks k'.
Proof using.
  intros G T Hne Hk L Hm. destruct (gr_old _ _ G b k Hk) as (k2 & Hk2 & Ei). injection Ei as E1 E2 Ec Ev _ _ Em _ _.
  assert (loaded_as p ks k2) as L2. { destruct L as [L1 L2 L3 L4]. split; [by rewrite Ev|by rewrite Ec|by rewrite E1|by rewrite Em]. }
  rewrite set_key_lookup, decide_False by done. destruct (T b) as [->|(k3 & Hk3 & Hz & ->)]; [by exists k2|].
  rewrite Hk2 in Hk3. injection Hk3 as <-. eexists. split; [done|]. destruct L2 as [L1' L2' L3' L4']. split; [done..|]. intros Hp. rewrite L4' in Hz by done. lia.
Qed.

Lemma section_inv D r p ks r2 r3 a k2 nb :
  load_inv D r -> (forall y, y ∈ D -> 0 < modif (snd y)) -> reg_ok r2 -> plain_below casemap r2 base -> grown r r2 -> key_at r2 base p a ->
  keys r2 !! a = Some k2 -> values k2 = [] -> k_class k2 = None -> (forall n, last p = Some n -> k_name k2 = n /\ modif k2 = 0) ->
  (D <> [] -> keys r !! a = None) -> on_path casemap r r2 base [] p -> retimed (modif ks) r2 r3 -> keys r3 !! a = Some (timed k2 (modif ks)) ->
  values_ok casemap (section_loaded k2 ks nb) -> has_bits (k_flags ks) KEY_SYMLINK = false ->
  load_inv (D ++ [(p, ks)]) (set_key r3 a (section_loaded k2 ks nb)).
Proof using.
  intros I HD R2 Pl G Hat Hk2 Ev Ecl Hn Hfresh On T Ek3 V Hlk. set (r4 := set_key r3 a (section_loaded k2 ks nb)).
  destruct (filled_tree r2 r3 a k2 ks nb T Ek3 Hk2 Hlk) as [St Fl]. fold r4 in St, Fl. destruct (ld_base _ _ I) as (k0 & Hk0 & _).
  assert (same_tree r4 r2) as St' by (intros b; by rewrite (St b)). destruct (gr_old _ _ G base k0 Hk0) as (k0' & Hk0' & _).
  assert (keys r4 !! a = Some (section_loaded k2 ks nb)) as Ha4 by (unfold r4; by rewrite set_key_lookup, decide_True).
  split.
  - by apply (filled_ok r2).
  - intros q b kb Hb Hkb. destruct (Fl b kb Hkb) as (k & Hk & Ef). unfold plain, deleted, volatile. rewrite Ef.
    apply (Pl q b); [by apply (key_at_same casemap r4)|done].
  - specialize (St base). rewrite Hk0' in St. destruct (keys r4 !! base) as [kb|]; [|done]. exists kb. split; [done|]. by destruct D.
  - intros p' ks' [Hin|Hin]%elem_of_app.
    + destruct (ld_done _ _ I p' ks' Hin) as (b & k & Hb & Hk & L).
      assert (b <> a) as Hne. { intros ->. rewrite Hfresh in Hk; [done|]. intros ->. by apply not_elem_of_nil in Hin. }
      destruct (kept_as r r2 r3 a b p' ks' k (modif ks) (section_loaded k2 ks nb) G T Hne Hk L (HD _ Hin)) as (k' & Hk' & L'). exists b, k'. split; [|done].
      apply (key_at_same casemap r2); [done|]. by apply (key_at_grown casemap r).
    + apply list_elem_of_singleton in Hin as [= -> ->]. exists a, (section_loaded k2 ks nb). split; [by apply (key_at_same casemap r2)|]. split; [done|].
      by apply filled_as.
  - intros q b Hb. apply (key_at_same casemap r4 r2) in Hb; [|done]. destruct (keys r !! b) as [kb|] eqn:Eb.
    + destruct (ld_paths _ _ I q b) as [->|(s & Hin & Hpre)]; [|by left|].
      * apply (key_at_old casemap r r2); [done|apply I|done|by eexists].
      * right. exists s. split; [|done]. apply elem_of_app. by left.
    + right. exists (p, ks). split; [apply elem_of_app; right; by apply list_elem_of_singleton|].
      destruct (On b Eb) as [i Hi]; [apply (key_at_some casemap r2 base q); [by eexists|done]|]. cbn [app] in Hi.
      rewrite (key_at_path casemap r2 base q b R2 ltac:(by eexists) Hb _ Hi). unfold low_path. rewrite fmap_take. apply prefix_take.
Qed.

(** The loop between two sections. *)
Record between (s : load_state) (e : senv) (t : prefix_type) : Prop := {
  bt_info : info_ok (ls_info s);
  bt_allocs : allocs e = [];
  bt_prefix : ls_prefix_len s = 0;
  bt_type : ls_prefix_type s = t;
  bt_end : end_section s = Some (ls_registry s)
}.

Lemma section_step D s e t x rest :
  between s e t -> load_inv D (ls_registry s) -> (forall y, y ∈ D -> 0 < modif (snd y)) -> section_ok x -> new_path D (fst x) ->
  Z.of_nat (size (keys (ls_registry s)) + length (fst x)) < 2 ^ 30 -> text_left s = section_text x ++ rest ->
  exists s' e', reaches s e s' e' /\ between s' e' t /\ load_inv (D ++ [x]) (ls_registry s') /\ text_left s' = rest /\
    (size (keys (ls_registry s')) <= size (keys (ls_registry s)) + length (fst x))%nat.
Proof using new_addr_fresh.
  intros B I HD X Hnew Hs Et. destruct x as [p ks]. set (r := ls_registry s) in *. cbn [fst snd] in *.
  destruct (section_key D r p e I Hnew (so_names _ X) Hs (bt_allocs _ _ _ B)) as (r2 & a & k2 & e2 & Ec & He2 & R2 & Pl & G & Hat & Hk2 & Ev & Ecl & Hn & Hfresh & On & Hsz).
  pose proof (ro_keys _ _ R2 a k2 Hk2) as K2. destruct (ro_chains _ _ R2 a ltac:(by eexists)) as [l Hl].
  destruct (section_reach casemap new_addr lookup_absolute root_key base s e (join p) ks rest r r2 a k2 l e2 (so_key _ X) (so_length _ X) (so_path _ X)
    (bt_info _ _ _ B) (bt_allocs _ _ _ B) (bt_prefix _ _ _ B) Et (bt_end _ _ _ B) Ec He2 Hk2 Ev (ko_values _ _ _ _ K2) Hl) as (r3 & nb & info & T & Ek3 & V & Hi & Ef & Re).
  set (r4 := set_key r3 a (section_loaded k2 ks nb)) in *. pose proof (so_link _ X) as Hlk. pose proof (so_modif _ X) as Hmod. cbn [snd] in Hlk, Hmod.
  assert (keys r4 !! a = Some (section_loaded k2 ks nb)) as Ha4 by (unfold r4; by rewrite set_key_lookup, decide_True).
  assert (D <> [] -> keys r !! a = None) as HDn.
  { intros HDn. apply Hfresh. intros ->. destruct D as [|y D]; [done|]. apply (Hnew y); [left|apply prefix_nil]. }
  eexists _, e2. split; [exact Re|]. split; [|split; [|split; [done|]]].
  - split; [done|done|done|apply B|]. apply (update_time_done r4 a (section_loaded k2 ks nb)); [done|].
    unfold section_loaded. rewrite Hlk. cbn. unfold timed. destruct (Z.eqb_spec (modif k2) 0); cbn; lia.
  - by apply (section_inv D r p ks r2).
  - cbn [ls_registry]. unfold r4. rewrite <-(retimed_size _ _ _ T) in Hsz. cbn. rewrite map_size_insert_Some; [done|by eexists].
Qed.

(** ** Files *)

(** No section is for a key on the way to the key of an earlier one. *)
Definition ordered (secs : list section) : Prop :=
  StronglySorted (fun x y => ~ low_path casemap (fst y) `prefix_of` low_path casemap (fst x)) secs.

Lemma ordered_new D x T : ordered (D ++ x :: T) -> new_path D (fst x).
Proof using. intros H s Hs. by apply (StronglySorted_app_1_elem_of _ D (x :: T) s x H Hs ltac:(left)). Qed.

(** The number of path elements. *)
Definition elements (secs : list section) : nat := sum_list ((fun x : section => length (fst x)) <$> secs).

Lemma sections_run secs : forall D s e t rest,
  between s e t -> load_inv D (ls_registry s) -> Forall section_ok (D ++ secs) -> ordered (D ++ secs) ->
  Z.of_nat (size (keys (ls_registry s)) + elements secs) < 2 ^ 30 -> text_left s = concat (section_text <$> secs) ++ rest ->
  exists s' e', reaches s e s' e' /\ between s' e' t /\ load_inv (D ++ secs) (ls_registry s') /\ text_left s' = rest.
Proof using new_addr_fresh.
  induction secs as [|x secs IH]; intros D s e t rest B I Hok Hord Hs Et.
  - rewrite app_nil_r. exists s, e. split; [apply reaches_refl|]. by split_and!.
  - unfold elements in Hs. rewrite fmap_cons in Hs. cbn [sum_list] in Hs.
    change (concat (section_text <$> x :: secs)) with (section_text x ++ concat (section_text <$> secs)) in Et. pose proof Hok as Hok'. apply list.Forall_app in Hok' as [HD Hx].
    apply list.Forall_cons in Hx as [Hx Hxs].
    destruct (section_step D s e t x (concat (section_text <$> secs) ++ rest) B I) as (s1 & e1 & R1 & B1 & I1 & Et1 & Hsz).
    + intros y Hy. rewrite list.Forall_forall in HD. by apply HD.
    + done.
    + by apply (ordered_new D x secs).
    + cbn in Hs. lia.
    + by rewrite Et, <-app_assoc.
    + destruct (IH (D ++ [x]) s1 e1 t rest) as (s2 & e2 & R2 & B2 & I2 & Et2); rewrite <-?app_assoc; try done.
      * unfold elements. cbn in Hs. lia.
      * rewrite <-app_assoc in I2. exists s2, e2. split; [|done]. by eapply reaches_trans.
Qed.

(** The end of the file. *)
Lemma loop_end fuel s e : text_left s = [] -> load_loop casemap new_addr lookup_absolute root_key (S fuel) base s e = Some (s, e).
Proof using.
  intros Et. unfold text_left in Et. cbn [load_loop]. unfold read_next_line. cbn [line_loop]. unfold ubind. rewrite Et. cbn. by destruct s.
Qed.

(** The architecture of the file. *)
Definition arch_ok (t p : prefix_type) : Prop := t = PREFIX_UNKNOWN \/ p = PREFIX_UNKNOWN \/ t = p.

Definition arch (t p : prefix_type) : prefix_type := match p with PREFIX_UNKNOWN => t | _ => p end.

Lemma arch_option t p e : arch_ok t p -> p <> PREFIX_UNKNOWN -> load_global_option (tail (removelast (dump_arch p))) t e = (Some p, e).
Proof using. intros H Hp. destruct p; [done|..]; destruct H as [->|[?| ->]]; done. Qed.

Definition with_type (s : load_state) (t : prefix_type) : load_state :=
  mk_load (ls_registry s) (ls_info s) (ls_subkey s) (ls_modif s) (ls_prefix_len s) t.

Lemma arch_reach s e p rest :
  info_ok (ls_info s) -> allocs e = [] -> ls_subkey s = None -> arch_ok (ls_prefix_type s) p -> text_left s = dump_arch p ++ rest ->
  exists info, reaches s e (with_type (with_info s info) (arch (ls_prefix_type s) p)) e /\ info_ok info /\ fi_file info = rest.
Proof using.
  intros Hi He Hs Ha Et. destruct (decide (p = PREFIX_UNKNOWN)) as [->|Hp].
  { exists (ls_info s). split; [destruct s; apply reaches_refl|done]. }
  set (l := tail (removelast (dump_arch p))). assert (dump_arch p = 10 :: l ++ [10]) as El by (by destruct p). rewrite El in Et.
  assert (Forall printable l /\ Z.of_nat (length l) < 2 ^ 30 /\ deref l = 35 /\ arch (ls_prefix_type s) p = p) as (Hp1 & Hp2 & Hp3 & ->).
  { destruct p; [done|..]; (split; [by apply (chars_printable "#arch=win32") || by apply (chars_printable "#arch=win64")|done]). }
  destruct (blank_reach casemap new_addr lookup_absolute root_key base s e (l ++ 10 :: rest) Hi) as (i1 & R1 & Hi1 & Ef1); [rewrite Et; cbn [app]; by rewrite <-app_assoc|done|].
  destruct (reaches_text casemap new_addr lookup_absolute root_key base (with_info s i1) e l rest Hi1 Ef1 Hp1 Hp2 He) as (i2 & Hi2 & Ef2 & R2).
  exists i2. split; [|done]. eapply reaches_trans; [exact R1|]. apply R2; [|done]. rewrite skip_spaces_id by (by rewrite Hp3).
  unfold load_line. rewrite Hp3. cbn [Z.eqb Pos.eqb orb with_info ls_subkey ls_prefix_type]. rewrite Hs. unfold ubind, lift. unfold l. rewrite arch_option by done.
  unfold uret, with_type, with_info. cbn. by rewrite Hs.
Qed.

Lemma load_keys_run r path secs p t e :
  load_inv [] r -> Forall section_ok secs -> ordered secs -> Z.of_nat (size (keys r) + elements secs) < 2 ^ 30 -> allocs e = [] -> arch_ok t p ->
  Forall printable path -> Z.of_nat (length path) < 2 ^ 29 ->
  let text := chars "WINE REGISTRY Version 2" ++ [10] ++ chars ";; All keys relative to " ++ path ++ [10] ++ dump_arch p ++ concat (section_text <$> secs) in
  exists r' e', load_keys casemap new_addr lookup_absolute root_key r base text 0 t e = Some ((r', arch t p), e') /\ load_inv secs r' /\ allocs e' = [].
Proof using new_addr_fresh.
  intros I Hok Hord Hs He Ha Hp Hpl text. unfold load_keys, ubind at 1, lift at 1. rewrite mem_alloc_full by done.
  unfold ubind at 1, lift at 1. rewrite mem_alloc_full by done. cbn [negb].
  set (body := chars ";; All keys relative to " ++ path ++ [10] ++ dump_arch p ++ concat (section_text <$> secs)) in *.
  destruct (read_line (mk_info text 4 4) (chars "WINE REGISTRY Version 2") body e) as (i0 & E0 & Hi0 & Ef0); [by split; cbn|done|by apply chars_printable|cbn; lia|done|].
  unfold ubind at 1. rewrite E0. cbn [Z.eqb Pos.eqb negb orb]. rewrite bool_decide_eq_true_2 by done. cbn [negb].
  set (s0 := mk_load r i0 None (now r) 0 t).
  destruct (reaches_text casemap new_addr lookup_absolute root_key base s0 e (chars ";; All keys relative to " ++ path) (dump_arch p ++ concat (section_text <$> secs)) Hi0)
    as (i1 & Hi1 & Ef1 & R1); [by rewrite <-app_assoc|apply list.Forall_app; split; [by apply chars_printable|done]|rewrite length_app; cbn; lia|done|].
  assert (reaches s0 e (with_info s0 i1) e) as R1' by (by apply R1).
  destruct (arch_reach (with_info s0 i1) e p _ Hi1 He eq_refl Ha Ef1) as (i2 & R2 & Hi2 & Ef2).
  set (s2 := with_type (with_info (with_info s0 i1) i2) (arch t p)).
  destruct (sections_run secs [] s2 e (arch t p) []) as (s3 & e3 & R3 & B3 & I3 & Et3); try done; [by rewrite app_nil_r|].
  assert (reaches s0 e s3 e3) as Hr by (eapply reaches_trans; [exact R1'|]; by eapply reaches_trans).
  destruct (Hr (S (length text))) as (fuel & Hf & El); [unfold text_left; cbn [s0 ls_info]; rewrite Ef0; unfold text; rewrite !length_app; lia|].
  unfold ubind at 1. fold s0. rewrite El. destruct fuel as [|fuel]; [lia|]. rewrite loop_end by done. unfold ubind, try. rewrite (bt_end _ _ _ B3). unfold uret.
  exists (ls_registry s3), e3. rewrite (bt_type _ _ _ B3). split; [done|]. split; [done|apply B3].
Qed.
End load.
