(* ===== verification/RegistryTextClaims.v ===== *)
(** * The registry as text: what is saved, and the claims

    The sections of a saved file, and the theorems on files and snapshots of the registry. *)

From Stdlib Require Import ZArith Lia Ascii String Sorted.
From stdpp Require Import base list numbers option gmap sorting.
From S2P Require Import Prelude Unicode UnicodeTheorems Registry RegistryTree RegistrySearch RegistryValues RegistryForest RegistrySteps Memory RegistryText RegistryValueText RegistryFile RegistrySections RegistryPaths RegistryLoad.

#[local] Open Scope Z_scope.
#[local] Open Scope server_scope.

(** * The text of the registry: what is saved

    save_subkeys always comes to an end, and the file it writes consists of the
    sections of the keys that are saved, each with its path.  Their order is such
    that the file can be read back. *)

(** ** Paths *)

(** A separator does not change how the characters in front of it are written. *)
Lemma dump_chars_slash escape x y : dump_chars escape (x ++ 92 :: y) = dump_chars escape x ++ [92; 92] ++ dump_chars escape y.
Proof.
  induction x as [|c x IH]; [done|]. change ((c :: x) ++ 92 :: y) with (c :: (x ++ 92 :: y)). cbn [dump_chars]. rewrite IH.
  assert (dump_char escape (c :: x ++ 92 :: y) = dump_char escape (c :: x)) as -> by (by destruct x). by rewrite <-app_assoc.
Qed.

Lemma join_snoc q n : q <> [] -> join (q ++ [n]) = join q ++ 92 :: n.
Proof.
  induction q as [|m q IH]; [done|]. intros _. destruct q as [|m' q]; [done|]. cbn [app]. rewrite !join_cons. cbn [app] in IH. rewrite IH by done.
  by rewrite <-app_assoc.
Qed.

(** The key at a path, by the names themselves. *)
Inductive named (r : registry) (base : Z) : list (list Z) -> Z -> Prop :=
  | named_base : named r base [] base
  | named_sub q b k c : named r base q c -> keys r !! b = Some k -> k_parent k = Some c -> named r base (q ++ [k_name k]) b.

Section saved.
Context (casemap : Z -> Z).
#[local] Abbreviation reg_ok := (reg_ok casemap).
#[local] Abbreviation key_at := (key_at casemap).

Lemma named_at r base q b : named r base q b -> key_at r base q b.
Proof. induction 1 as [|q b k c H IH Hk Hp]; [constructor|by eapply at_sub]. Qed.

(** The path that is written. *)
Lemma dump_path_run r base q b : reg_ok r -> is_Some (keys r !! base) -> named r base q b -> forall fuel l, q <> [] ->
  chain r (Some b) l -> (length l <= fuel)%nat -> dump_path fuel r b (Some base) = Some (fst (dump_strW (join q) (91, 93))).
Proof.
  intros R Hb H. induction H as [|q b k c H IH Hk Hp]; intros fuel l Hq Hl Hf; [done|]. inversion Hl as [|? k' l' Hk' Hl']; subst.
  rewrite Hk in Hk'. injection Hk' as <-. destruct fuel as [|fuel]; [cbn in Hf; lia|]. cbn [dump_path]. rewrite Hk. cbn [mbind option_bind]. rewrite Hp in *.
  rewrite !dump_strW_chars. cbn [fst]. case_bool_decide as E.
  - injection E as ->. pose proof (key_at_path casemap r base q base R Hb (named_at _ _ _ _ H) [] (at_base _ _ _)) as Ep.
    apply fmap_nil_inv in Ep as ->. done.
  - assert (q <> []) as Hne. { intros ->. apply named_at, key_at_nil in H. congruence. }
    cbn [length] in Hf. rewrite (IH fuel l' Hne Hl') by lia. cbn [mbind option_bind]. rewrite dump_strW_chars. cbn [fst].
    rewrite join_snoc by done. rewrite dump_chars_slash. by rewrite <-app_assoc.
Qed.

Lemma some_bind {A B} (x : A) (f : A -> option B) : Some x ≫= f = f x.
Proof using. done. Qed.

(** ** The sections *)

(** The sections of the key [a] at [path] and of the keys below it. *)
Fixpoint saved (fuel : nat) (r : registry) (a : Z) (path : list (list Z)) : option (list section) :=
  match fuel with
  | O => None
  | S fuel =>
      k ← keys r !! a;
      if volatile k then Some []
      else
        below ← mapM (fun s => ks ← keys r !! s; saved fuel r s (path ++ [k_name ks])) (subkeys k);
        Some ((if needs_section k then [(path, k)] else []) ++ concat below)
  end.

Lemma named_app r a p b q c : named r a p b -> named r b q c -> named r a (p ++ q) c.
Proof using. intros H. induction 1 as [|q c k d H' IH Hk Hp]; [by rewrite app_nil_r|]. rewrite app_assoc. by eapply named_sub. Qed.

(** The first step of a path. *)
Lemma named_cons r a q b : named r a q b -> q = [] /\ b = a \/
  exists s ks q', keys r !! s = Some ks /\ k_parent ks = Some a /\ q = k_name ks :: q' /\ named r s q' b.
Proof using.
  induction 1 as [|q b k c H IH Hk Hp]; [by left|]. right. destruct IH as [[-> ->]|(s & ks & q' & Hs & Hps & -> & H')].
  - exists b, k, []. by repeat split; [..|constructor].
  - exists s, ks, (q' ++ [k_name k]). by repeat split; [..|eapply named_sub].
Qed.

(** What is below a volatile key is volatile. *)
Lemma volatile_below r a q b ka : reg_ok r -> keys r !! a = Some ka -> volatile ka = true -> named r a q b -> forall kb, keys r !! b = Some kb -> volatile kb = true.
Proof.
  intros R Ha Hv. induction 1 as [|q b k c H IH Hk Hp]; intros kb Hkb; [congruence|]. rewrite Hk in Hkb. injection Hkb as <-.
  destruct (ko_parent _ _ _ _ (ro_keys _ _ R b k Hk) c Hp) as (_ & kc & Hkc & Hin).
  destruct (ko_children _ _ _ _ (ro_keys _ _ R c kc Hkc) b Hin) as (k' & Hk' & _ & Hvol). rewrite Hk in Hk'. injection Hk' as <-. apply Hvol. by apply IH.
Qed.

(** A key below [a] with a section of its own. *)
Definition has_section (r : registry) (a : Z) (q : list (list Z)) (k : key) : Prop :=
  exists b, named r a q b /\ keys r !! b = Some k /\ volatile k = false /\ needs_section k = true.

(** The sections are those of the keys below [a], in an order that can be read. *)
Record saves (r : registry) (a : Z) (path : list (list Z)) (secs : list section) : Prop := {
  sv_keys : forall x, x ∈ secs <-> exists q, fst x = path ++ q /\ has_section r a q (snd x);
  sv_ordered : ordered casemap secs
}.

Lemma has_section_cons r a k q ks : reg_ok r -> keys r !! a = Some k -> has_section r a q ks ->
  (q = [] /\ ks = k) \/ exists s n q', s ∈ subkeys k /\ has_name r s n /\ q = n :: q' /\ has_section r s q' ks.
Proof.
  intros R Hk (b & H & Hb & Hv & Hn). apply named_cons in H as [[-> ->]|(s & kc & q' & Hs & Hp & -> & H)]; [left; split; congruence|]. right.
  destruct (ko_parent _ _ _ _ (ro_keys _ _ R s kc Hs) a Hp) as (_ & k' & Hk' & Hin). rewrite Hk in Hk'. injection Hk' as <-.
  exists s, (k_name kc), q'. split; [done|]. split; [unfold has_name; by rewrite Hs|]. split; [done|]. by exists b.
Qed.

Lemma has_section_sub r a k s n q ks : reg_ok r -> keys r !! a = Some k -> s ∈ subkeys k -> has_name r s n -> has_section r s q ks -> has_section r a (n :: q) ks.
Proof.
  intros R Hk Hin Hn (b & H & Hb). destruct (ko_children _ _ _ _ (ro_keys _ _ R a k Hk) s Hin) as (kc & Hs & Hp & _). unfold has_name in Hn. rewrite Hs in Hn.
  injection Hn as <-. exists b. split; [|done]. change (k_name kc :: q) with (([] ++ [k_name kc]) ++ q). eapply named_app; [|exact H].
  eapply named_sub; [constructor|done|done].
Qed.

(** The sections below the subkeys, one subkey after the other. *)
Lemma below_saves r path (l : list Z) names below :
  Forall2 (has_name r) l names -> sorted_names casemap names -> Forall3 (fun s n secs => saves r s (path ++ [n]) secs) l names below ->
  (forall x, x ∈ concat below <-> exists s n q, s ∈ l /\ has_name r s n /\ fst x = path ++ n :: q /\ has_section r s q (snd x)) /\ ordered casemap (concat below).
Proof using.
  intros F S H. induction H as [|s n secs l names below Hs H IH]; cbn [concat].
  - split; [|constructor]. intros x. split; [by intros ?%not_elem_of_nil|]. intros (s & n & q & Hin & _). by apply not_elem_of_nil in Hin.
  - apply list.Forall2_cons in F as [Fn F]. apply StronglySorted_inv in S as [S Sn]. destruct (IH F S) as [IH1 IH2]. clear IH. split.
    + intros x. rewrite elem_of_app, (sv_keys _ _ _ _ Hs x), IH1. split.
      * intros [(q & E & Hq)|(s' & n' & q & Hin & Hn' & E & Hq)].
        -- exists s, n, q. rewrite <-app_assoc in E. by repeat split; [left|..].
        -- exists s', n', q. by repeat split; [right|..].
      * intros (s' & n' & q & [->|Hin]%elem_of_cons & Hn' & E & Hq).
        -- left. exists q. rewrite (has_name_det _ _ _ _ Fn Hn'), <-app_assoc. done.
        -- right. by exists s', n', q.
    + apply StronglySorted_app. split; [|split; [apply Hs|done]]. intros x y (q & Ex & _)%(sv_keys _ _ _ _ Hs) (s' & n' & q' & Hin & Hn' & Ey & _)%IH1 Hpre.
      rewrite Ex, Ey, <-app_assoc in Hpre. unfold low_path in Hpre. rewrite !fmap_app in Hpre. apply prefix_app_inv in Hpre. cbn in Hpre.
      apply prefix_cons_inv_1 in Hpre. apply list_elem_of_lookup in Hin as [i Hi]. destruct (Forall2_lookup_l _ _ _ _ _ F Hi) as (n2 & Hn2 & Hn2').
      rewrite (has_name_det _ _ _ _ Hn' Hn2') in *. rewrite list.Forall_forall in Sn. specialize (Sn n2 ltac:(by eapply list_elem_of_lookup_2)).
      unfold name_lt in Sn. apply (cmp_zero casemap) in Hpre. apply cmp_sym in Hpre. lia.
Qed.

(** A key and the sections below it. *)
Lemma key_saves r a k path below names :
  reg_ok r -> keys r !! a = Some k -> volatile k = false -> Forall2 (has_name r) (subkeys k) names -> sorted_names casemap names ->
  Forall3 (fun s n secs => saves r s (path ++ [n]) secs) (subkeys k) names below ->
  saves r a path ((if needs_section k then [(path, k)] else []) ++ concat below).
Proof.
  intros R Hk Hv F S H. destruct (below_saves r path _ _ _ F S H) as [Hin Hord]. split.
  - intros x. rewrite elem_of_app, Hin. split.
    + intros [Hx|(s & n & q & Hs & Hn & E & Hq)].
      * destruct (needs_section k) eqn:En; [|by apply not_elem_of_nil in Hx]. apply list_elem_of_singleton in Hx as ->. exists []. rewrite app_nil_r.
        split; [done|]. exists a. by repeat split; [constructor|..].
      * exists (n :: q). split; [done|]. by apply (has_section_sub r a k s).
    + intros (q & E & Hq). destruct (has_section_cons r a k q (snd x) R Hk Hq) as [[-> Ek]|(s & n & q' & Hs & Hn & -> & Hq')].
      * left. destruct Hq as (b & _ & _ & _ & En). rewrite Ek in En. rewrite En. apply list_elem_of_singleton. rewrite app_nil_r in E.
        destruct x as [p' k']. cbn in E, Ek. by subst.
      * right. by exists s, n, q'.
  - apply StronglySorted_app. split; [|split; [destruct (needs_section k); repeat constructor|done]].
    intros x y Hx (s & n & q & _ & _ & Ey & _)%Hin Hpre. destruct (needs_section k); [|by apply not_elem_of_nil in Hx]. apply list_elem_of_singleton in Hx as ->.
    apply prefix_length in Hpre. unfold low_path in Hpre. rewrite !length_fmap in Hpre. rewrite Ey, length_app in Hpre. cbn in Hpre. lia.
Qed.

Lemma volatile_saves r a k path : reg_ok r -> keys r !! a = Some k -> volatile k = true -> saves r a path [].
Proof.
  intros R Hk Hv. split; [|constructor]. intros x. split; [by intros ?%not_elem_of_nil|]. intros (q & _ & b & H & Hb & Hvb & _).
  rewrite (volatile_below r a q b k R Hk Hv H _ Hb) in Hvb. done.
Qed.

(** What one call of save_subkeys does. *)
Definition save_runs (r : registry) (base : Z) (fuel : nat) : Prop := forall a path l,
  named r base path a -> chain r (Some a) l -> (size (keys r) < length l + fuel)%nat ->
  exists secs, save_subkeys fuel r a base = Some (concat (section_text <$> secs)) /\ saved fuel r a path = Some secs /\ saves r a path secs.

Lemma subkeys_run r base fuel a k path l names :
  save_runs r base fuel -> named r base path a -> chain r (Some a) l -> (size (keys r) < S (length l) + fuel)%nat ->
  forall ls, Forall2 (has_name r) ls names -> (forall s, s ∈ ls -> exists ks, keys r !! s = Some ks /\ k_parent ks = Some a) -> keys r !! a = Some k ->
  exists below texts, mapM (fun s => save_subkeys fuel r s base) ls = Some texts /\ concat texts = concat (section_text <$> concat below) /\
    mapM (fun s => ks ← keys r !! s; saved fuel r s (path ++ [k_name ks])) ls = Some below /\ Forall3 (fun s n secs => saves r s (path ++ [n]) secs) ls names below.
Proof using.
  intros IH Ha Hl Hf ls F Hc Hk. induction F as [|s n ls names Hn F IHl]; [exists [], []; by repeat split; constructor|].
  destruct (Hc s ltac:(left)) as (ks & Hs & Hp). assert (n = k_name ks) as -> by (unfold has_name in Hn; rewrite Hs in Hn; by injection Hn).
  destruct (IH s (path ++ [k_name ks]) (s :: l)) as (secs & E1 & E2 & Sv); [by eapply named_sub|econstructor; [done|by rewrite Hp]|cbn; lia|].
  destruct IHl as (below & texts & E3 & E4 & E5 & H); [intros s' Hs'; apply Hc; by right|].
  exists (secs :: below), (concat (section_text <$> secs) :: texts). cbn [mapM]. rewrite E1, Hs. cbn [mbind option_bind]. rewrite E2. cbn [mbind option_bind].
  rewrite E3, E5. split_and!; [done| |done|by constructor]. cbn [concat]. by rewrite fmap_app, concat_app, E4.
Qed.

Lemma save_run r base fuel : reg_ok r -> is_Some (keys r !! base) -> save_runs r base fuel.
Proof.
  intros R Hb. induction fuel as [|fuel IH]; intros a path l Ha Hl Hf; [pose proof (parents_length _ _ _ Hl); lia|].
  inversion Hl as [|? k l' Hk Hl']; subst. cbn [save_subkeys saved]. rewrite Hk, !some_bind. fold (volatile k).
  destruct (volatile k) eqn:Hv; [exists []; split_and!; [done..|by eapply volatile_saves]|].
  destruct (ko_names _ _ _ _ (ro_keys _ _ R a k Hk)) as (names & F & S).
  destruct (subkeys_run r base fuel a k path (a :: l') names IH Ha Hl ltac:(lia) (subkeys k) F) as (below & texts & E1 & E2 & E3 & H); [|done|].
  { intros s Hs. destruct (ko_children _ _ _ _ (ro_keys _ _ R a k Hk) s Hs) as (ks & H1 & H2 & _). by exists ks. }
  rewrite E1, E3, !some_bind. exists ((if needs_section k then [(path, k)] else []) ++ concat below). split; [|split; [done|by eapply key_saves]].
  rewrite fmap_app, concat_app, <-E2. destruct (needs_section k); [|done]. cbn [fmap list_fmap concat]. rewrite app_nil_r. unfold section_text. cbn [fst snd].
  destruct (Z.eqb_spec a base) as [->|Hne].
  - pose proof (key_at_path casemap r base path base R Hb (named_at _ _ _ _ Ha) [] (at_base _ _ _)) as Ep. apply fmap_nil_inv in Ep as ->. done.
  - assert (path <> []) as Hp. { intros ->. by apply named_at, key_at_nil in Ha. }
    rewrite (dump_path_run r base path a R Hb Ha (size (keys r)) (a :: l') Hp Hl) by (by eapply parents_length). done.
Qed.

(** The path of a key in the comment at the top of the file. *)
Lemma full_path_run r fuel : forall a l, chain r (Some a) l -> (length l <= fuel)%nat ->
  (forall b k, keys r !! b = Some k -> Forall (fun c => 0 <= c < 2 ^ 16) (k_name k)) ->
  exists p, dump_path fuel r a None = Some p /\ Forall printable p.
Proof using.
  induction fuel as [|fuel IH]; intros a l Hl Hf Hn; inversion Hl as [|? k l' Hk Hl']; subst; cbn [length] in Hf; [lia|]. cbn [dump_path]. rewrite Hk.
  cbn [mbind option_bind]. rewrite dump_strW_chars. cbn [fst]. pose proof (dump_chars_printable (91, 93) (k_name k) (Hn a k Hk)) as Hp.
  destruct (k_parent k) as [p|]; [|by eexists]. rewrite bool_decide_eq_false_2 by done. destruct (IH p l' Hl' ltac:(lia) Hn) as (t & -> & Ht).
  eexists. split; [done|]. repeat (apply list.Forall_app; split); try done. repeat (apply List.Forall_cons; [unfold printable; lia|]). constructor.
Qed.

(** The whole file. *)
Lemma save_all_run r a k p : reg_ok r -> keys r !! a = Some k -> (forall b k, keys r !! b = Some k -> Forall (fun c => 0 <= c < 2 ^ 16) (k_name k)) ->
  exists path secs text, save_all_subkeys r a p = Some text /\ saves r a [] secs /\ Forall printable path /\
    text = chars "WINE REGISTRY Version 2" ++ [10] ++ chars ";; All keys relative to " ++ path ++ [10] ++ dump_arch p ++ concat (section_text <$> secs).
Proof.
  intros R Hk Hn. destruct (ro_chains _ _ R a ltac:(by eexists)) as [l Hl]. pose proof (parents_length _ _ _ Hl) as Hlen.
  destruct (full_path_run r (size (keys r)) a l Hl Hlen Hn) as (path & E1 & Hp). inversion Hl as [|? k' l' _ _]; subst.
  destruct (save_run r a (size (keys r)) R ltac:(by eexists) a [] (a :: l') (named_base _ _) Hl) as (secs & E2 & _ & Sv); [cbn; lia|].
  unfold save_all_subkeys. rewrite E1, E2. cbn [mbind option_bind]. by eexists path, secs, _.
Qed.
End saved.

(** * The text of the registry: the claims

    Saving a branch of the registry and loading the file gives the branch back, with
    some exceptions. *)

Section roundtrip.
Context (casemap : Z -> Z).

(** The keys that can be written and read back. *)
Record writable (k : key) : Prop := {
  wr_key : wf_key casemap k;
  wr_modif : 0 < modif k;
  wr_link : has_bits (k_flags k) KEY_SYMLINK = false;
  wr_name : k_parent k <> None -> name_ok (k_name k) /\ deref (k_name k) <> 0
}.

Definition branch_writable (r : registry) (a : Z) : Prop := forall q b k, named r a q b -> keys r !! b = Some k -> writable k.

Definition names_ok (r : registry) : Prop := forall b k, keys r !! b = Some k -> Forall (fun c => 0 <= c < 2 ^ 16) (k_name k).

(** The key a file is loaded into. *)
Record empty_key (k : key) : Prop := {
  ek_values : values k = [];
  ek_subkeys : subkeys k = [];
  ek_class : k_class k = None;
  ek_plain : plain k
}.

Definition good_name (n : list Z) : Prop := name_ok n /\ deref n <> 0 /\ Forall (fun c => 0 <= c < 2 ^ 16) n.

Lemma named_good r a q b : names_ok r -> branch_writable r a -> named r a q b -> Forall good_name q.
Proof.
  intros Hn Hw. induction 1 as [|q b k c H IH Hk Hp]; [constructor|]. apply list.Forall_app. split; [done|]. apply list.Forall_singleton.
  destruct (wr_name k) as [H1 H2]; [by apply (Hw (q ++ [k_name k]) b); [eapply named_sub|]|congruence|]. split; [done|]. split; [done|]. by apply (Hn b).
Qed.

Lemma good_path q : Forall good_name q -> path_ok (join q) /\ Forall name_ok q.
Proof.
  intros H. split; [split|].
  - induction H as [|n q (H1 & H2 & H3) H IH]; [constructor|]. destruct q as [|m q]; [done|]. rewrite join_cons. apply list.Forall_app. split; [done|].
    apply List.Forall_cons; [lia|done].
  - destruct H as [|n q (H1 & H2 & H3) H]; [by left|]. right. destruct n as [|c n]; [by destruct (no_empty _ H1)|]. by destruct q.
  - eapply list.Forall_impl; [exact H|]. by intros n (H1 & _).
Qed.

Lemma section_text_length x : Forall name_ok (fst x) -> (length (fst x) <= length (section_text x))%nat.
Proof.
  intros H. unfold section_text, dump_section. rewrite dump_strW_chars. cbn [fst]. rewrite !length_app. pose proof (dump_chars_length (91, 93) (join (fst x))).
  assert (length (fst x) <= length (join (fst x)))%nat; [|lia]. clear -H. induction H as [|n q Hn H IH]; [done|].
  pose proof (join_length n q Hn). change (length (n :: q)) with (S (length q)). lia.
Qed.

Lemma elements_length secs : Forall (fun x : section => Forall name_ok (fst x)) secs -> (elements secs <= length (concat (section_text <$> secs)))%nat.
Proof.
  unfold elements. induction 1 as [|x secs Hx H IH]; [done|]. rewrite !fmap_cons. cbn [sum_list concat]. rewrite length_app.
  pose proof (section_text_length x Hx). unfold sum_list in IH |- *. cbn [sum_list_with]. unfold id at 1. lia.
Qed.

Lemma section_length x secs : x ∈ secs -> (length (section_text x) <= length (concat (section_text <$> secs)))%nat.
Proof.
  induction 1 as [x secs|x y secs _ IH]; rewrite fmap_cons; cbn [concat]; rewrite length_app; lia.
Qed.

Lemma saved_sections_ok r a secs : names_ok r -> branch_writable r a -> saves casemap r a [] secs ->
  Z.of_nat (length (concat (section_text <$> secs))) < 2 ^ 30 -> Forall (section_ok casemap) secs.
Proof.
  intros Hn Hw Sv Hl. apply list.Forall_forall. intros x Hx. pose proof (section_length x secs Hx) as Hxl.
  apply (sv_keys _ _ _ _ _ Sv) in Hx as (q & Eq & b & Hb & Hk & _). cbn in Eq. rewrite <-Eq in Hb.
  destruct (good_path (fst x) (named_good r a _ b Hn Hw Hb)) as [H1 H2]. destruct (Hw _ b (snd x) Hb Hk) as [W1 W2 W3 _]. split; [done..|lia].
Qed.

Lemma empty_inv r0 base k0 : reg_ok casemap r0 -> keys r0 !! base = Some k0 -> empty_key k0 -> load_inv casemap base [] r0.
Proof.
  intros R Hk E. assert (forall q b, key_at casemap r0 base q b -> q = []) as Hq.
  { intros [|n q] b H; [done|]. exfalso. by apply (no_subkeys_below casemap r0 base [] base k0 n q b R (at_base _ _ _) Hk (ek_subkeys _ E)). }
  split; [done| |exists k0; split; [done|]; intros _; split; apply E|by intros p ks ?%not_elem_of_nil|].
  - intros q b k H Hb. pose proof (Hq q b H). subst q. apply key_at_nil in H as ->. rewrite Hk in Hb. injection Hb as <-. apply E.
  - intros q b H. left. by eapply Hq.
Qed.
End roundtrip.

(** ** Registries to evaluate *)

(** The address after all the others. *)
Definition next_addr (r : registry) : Z := 1 + foldr (fun x : Z * key => Z.max (fst x)) 0 (map_to_list (keys r)).

Lemma next_addr_fresh r : keys r !! next_addr r = None.
Proof.
  destruct (keys r !! next_addr r) as [k|] eqn:E; [|done]. exfalso. apply elem_of_map_to_list in E. unfold next_addr in E.
  assert (forall (l : list (Z * key)) x, x ∈ l -> fst x <= foldr (fun x : Z * key => Z.max (fst x)) 0 l) as H.
  { intros l x. induction 1 as [x l|x y l _ IH]; cbn; lia. }
  apply H in E. cbn in E. lia.
Qed.

(** No link leads anywhere. *)
Definition no_links (_ : registry) (_ : list Z) : M (option (Z * list Z)) := ret None.

Definition timed_key (name : list Z) (parent : option Z) (class : option (list Z)) (subs : list Z) (vs : list key_value) (flags : Z) : key :=
  mk_key name parent class subs 8 None vs 8 flags 133000000000000001 [] 0.

(** The values @, b, c and d of several types. *)
Definition typed_values : list key_value :=
  [mk_value [] REG_DWORD [1; 2; 3; 4] 0; mk_value [98] REG_SZ [65; 0; 0; 0] 1; mk_value [99] REG_BINARY (replicate 40 7) 2; mk_value [100] 9 [1] 3].

(** The key R with the subkeys a and c; a has a class and the volatile subkey x. *)
Definition branch_registry : registry :=
  mk_registry
    (list_to_map [(1, timed_key [82] None None [2; 3] [] 0); (2, timed_key [97] (Some 1) (Some [67]) [4] typed_values 0);
                  (3, timed_key [99; 233] (Some 1) None [] [] 0); (4, timed_key [120] (Some 2) None [] [] KEY_VOLATILE)])
    0 7 [].

(** A registry with a single key. *)
Definition single_registry : registry := mk_registry {[1 := timed_key [82] None None [] [] 0]} 0 7 [].

Ltac each_key H := cbn in H; repeat (apply lookup_insert_Some in H as [[<- <-]|[_ H]]); try (by apply lookup_empty_Some in H).

Ltac small_list := cbn; repeat (apply List.Forall_cons; [unfold is_byte; lia|]); apply List.Forall_nil.

Lemma typed_values_ok : Forall wf_value typed_values /\ sorted_names no_case (v_name <$> typed_values).
Proof.
  split; [|apply names_sorted_ok; reflexivity].
  unfold typed_values. repeat (apply List.Forall_cons; [split; first [small_list|by vm_compute]|]). apply List.Forall_nil.
Qed.

Lemma branch_registry_ok : reg_ok no_case branch_registry /\ names_ok branch_registry /\ branch_writable no_case branch_registry 1.
Proof.
  split; [apply reg_check_ok; vm_compute; reflexivity|]. split.
  - intros b k H. each_key H; small_list.
  - intros q b k _ H. destruct typed_values_ok as [Hv Hs].
    each_key H; (split; [split; first [exact Hv|exact Hs|small_list|apply SSorted_nil|by vm_compute]|by vm_compute|by vm_compute|]);
      intros Hp; first [by destruct Hp|split; [split; first [small_list|by vm_compute]|by vm_compute]].
Qed.

(** ** What does not come back *)

(** Save the key 1 and load the file below a key of its own. *)
Definition reloaded (r : registry) : option registry :=
  text ← save_all_subkeys r 1 PREFIX_UNKNOWN;
  match load_keys no_case next_addr no_links 1 single_registry 1 text 0 PREFIX_UNKNOWN (mk_senv 0 []) with
  | Some ((r, _), _) => Some r
  | None => None
  end.

Definition one_key (k : key) : registry := mk_registry {[1 := k]} 0 7 [].

(** The unnamed value, set after another one. *)
Definition unnamed_last : registry := one_key (timed_key [82] None None [] [mk_value [] REG_BINARY [1] 1; mk_value [98] REG_BINARY [2] 0] 0).

(** The key R with the subkey a, which has the volatile subkey x. *)
Definition volatile_leaf : registry :=
  mk_registry (list_to_map [(1, timed_key [82] None None [2] [] 0); (2, timed_key [97] (Some 1) None [3] [] 0);
                            (3, timed_key [120] (Some 2) None [] [] KEY_VOLATILE)]) 0 7 [].


