(* ===== verification/RegistrySnapshot.v ===== *)
(** * Snapshots of the registry

    The model of flush_key and of the process that writes a file from its reply, and what
    it writes. *)

From Stdlib Require Import ZArith Lia Ascii String Sorted.
From stdpp Require Import base list numbers option gmap.
From S2P Require Import Prelude Unicode UnicodeTheorems Registry RegistryTree RegistrySearch RegistryValues RegistryForest RegistrySteps Memory RegistryText RegistryValueText RegistryFile RegistrySections RegistryPaths RegistryLoad RegistryTextClaims.

#[local] Open Scope Z_scope.
#[local] Open Scope server_scope.

(** * Snapshots of the registry

    flush_key replies the contents of a branch of the registry as bytes
    (server/registry.c), and the process that asked for it writes the file from
    them (dlls/ntdll/unix/registry.c).  The routines of the server are called twice:
    without a buffer they only count.  A pointer into the reply is the list of the
    bytes from there on; a read behind the end is [None]. *)

(** An integer of [n] bytes in memory. *)
Fixpoint int_bytes (n : nat) (z : Z) : list Z :=
  match n with
  | O => []
  | S n => z mod 256 :: int_bytes n (z / 256)
  end.

(** ** The server *)

(** What is returned, and what is written if there is a buffer. *)
Definition serialize_value (v : key_value) (buf : bool) : Z * list Z :=
  let namelen := 2 * Z.of_nat (length (v_name v)) in
  let len := Z.of_nat (length (v_data v)) in
  let size := u32 (4 + namelen + 4 + 4 + len) in
  (size, if buf then int_bytes 4 namelen ++ wchars (v_name v) ++ int_bytes 4 (v_type v) ++ int_bytes 4 len ++ v_data v else []).

(** The size of the parts [l] behind a part of [size] bytes, and what they write. *)
Definition add_parts (size : Z) (l : list (Z * list Z)) : Z * list Z :=
  foldl (fun x y => (u32 (fst x + fst y), snd x ++ snd y)) (size, []) l.

Definition classlen (k : key) : Z := match k_class k with Some c => 2 * Z.of_nat (length c) | None => 0 end.

Definition prefix_value (p : prefix_type) : Z := match p with PREFIX_UNKNOWN => 0 | PREFIX_32BIT => 1 | PREFIX_64BIT => 2 end.

(** The fixed part of a key, which is written last. *)
Definition key_header (k : key) (subkey_count : Z) : list Z :=
  int_bytes 4 (2 * Z.of_nat (length (k_name k))) ++ wchars (k_name k) ++
  int_bytes 4 (classlen k) ++ wchars (match k_class k with Some c => c | None => [] end) ++
  int_bytes 4 (Z.of_nat (length (values k))) ++ int_bytes 4 subkey_count ++
  int_bytes 4 (Z.land (k_flags k) KEY_SYMLINK) ++ int_bytes 8 (modif k).

(** The depth of the tree is at most the number of keys. *)
Fixpoint serialize_key (fuel : nat) (r : registry) (a : Z) (buf : bool) : option (Z * list Z) :=
  match fuel with
  | O => None
  | S fuel =>
      k ← keys r !! a;
      if has_bits (k_flags k) KEY_VOLATILE then Some (0, [])
      else
        let size := u32 (4 + 2 * Z.of_nat (length (k_name k)) + 4 + classlen k + 4 + 4 + 4 + 8) in
        let vals := add_parts size ((fun v => serialize_value v buf) <$> values k) in
        subs ← mapM (fun s => ks ← keys r !! s;
                              if has_bits (k_flags ks) KEY_VOLATILE then Some None
                              else x ← serialize_key fuel r s buf; Some (Some x)) (subkeys k);
        let subs := omap id subs in
        let below := add_parts (fst vals) subs in
        Some (fst below, if buf then key_header k (Z.of_nat (length subs)) ++ snd vals ++ snd below else [])
  end.

(** The names of the key and its parents: their size, their number and what is
    written. *)
Fixpoint serialize_parents (fuel : nat) (r : registry) (a size : Z) (buf : bool) : option (Z * Z * list Z) :=
  match fuel with
  | O => None
  | S fuel =>
      k ← keys r !! a;
      let namelen := 2 * Z.of_nat (length (k_name k)) in
      let size := u32 (size + 4 + namelen) in
      let own := if buf then int_bytes 4 namelen ++ wchars (k_name k) else [] in
      match k_parent k with
      | None => Some (size, 1, own)
      | Some p => '(size, n, rest) ← serialize_parents fuel r p size buf; Some (size, n + 1, own ++ rest)
      end
  end.

Definition save_registry (r : registry) (a : Z) (p : prefix_type) (buf : bool) : option (Z * list Z) :=
  '(start, count, parents) ← serialize_parents (size (keys r)) r a (4 + 4) buf;
  '(keysize, text) ← serialize_key (size (keys r)) r a buf;
  Some (u32 (start + keysize), if buf then int_bytes 4 (prefix_value p) ++ int_bytes 4 count ++ parents ++ text else []).

(** ** The process *)

(** Like the routine of the server, but a NUL at the end is not written. *)
Fixpoint client_dump_loop (escape : Z * Z) (str : list Z) (buffer file : list Z) (count : Z) : list Z * list Z * Z :=
  match str with
  | [] => (buffer, file, count)
  | c :: next =>
      let '(buffer, file, count) :=
        if sizeof_buffer - 8 <? Z.of_nat (length buffer)
        then ([], file ++ buffer, count + Z.of_nat (length buffer))
        else (buffer, file, count) in
      let out := if (c =? 0) && (length next =? 0)%nat then [] else dump_char escape str in
      client_dump_loop escape next (buffer ++ out) file count
  end.

Definition client_dump_strW (str : list Z) (escape : Z * Z) : list Z * Z :=
  let '(buffer, file, count) := client_dump_loop escape str [] [] 0 in
  (file ++ buffer, count + Z.of_nat (length buffer)).

(** Bytes and integers of a reply. *)
Definition read_bytes (n : Z) (data : list Z) : option (list Z * list Z) :=
  if Z.of_nat (length data) <? n then None else Some (take (Z.to_nat n) data, drop (Z.to_nat n) data).

Fixpoint int_value (l : list Z) : Z :=
  match l with
  | [] => 0
  | b :: l => b + 256 * int_value l
  end.

Definition read_uint (data : list Z) : option (Z * list Z) := '(l, data) ← read_bytes 4 data; Some (int_value l, data).

Definition read_int (data : list Z) : option (Z * list Z) := '(v, data) ← read_uint data; Some (i32 v, data).

(** A length and as many bytes. *)
Definition read_counted (data : list Z) : option (list Z * list Z) := '(n, data) ← read_uint data; read_bytes n data.

(** struct saved_key; the parents are passed along, from the nearest to the base. *)
Record saved_key := mk_saved_key {
  sk_name : list Z;
  sk_class : list Z;
  sk_value_count : Z;
  sk_subkey_count : Z;
  sk_is_symlink : Z;
  sk_modif : Z
}.

Definition fill_saved_key (data : list Z) : option (saved_key * list Z) :=
  '(name, data) ← read_counted data;
  '(class, data) ← read_counted data;
  '(value_count, data) ← read_int data;
  '(subkey_count, data) ← read_int data;
  '(is_symlink, data) ← read_uint data;
  '(modif, data) ← read_bytes 8 data;
  Some (mk_saved_key name class value_count subkey_count is_symlink (i64 (int_value modif)), data).

(** [n] parents, the farthest first. *)
Fixpoint dump_parents (n : nat) (data : list Z) : option (list Z * list Z) :=
  '(name, data) ← read_counted data;
  let own := fst (client_dump_strW (wchars_of name) (91, 93)) in
  match n with
  | S ((S _) as n) => '(text, data) ← dump_parents n data; Some (text ++ [92; 92] ++ own, data)
  | _ => Some (own, data)
  end.

(** The path of a key below the last of its parents. *)
Fixpoint client_dump_path (name : list Z) (parents : list saved_key) : list Z :=
  let own := fst (client_dump_strW (wchars_of name) (91, 93)) in
  match parents with
  | p :: ((_ :: _) as parents) => client_dump_path (sk_name p) parents ++ [92; 92] ++ own
  | _ => own
  end.

(** What stands behind the name. *)
Definition client_dump_data (type : Z) (data : list Z) (count : Z) : list Z :=
  if is_string_type type && terminated data then
    (if type =? REG_SZ then [] else chars "str(" ++ fmt_x32 type ++ chars "):") ++
    34 :: fst (client_dump_strW (wchars_of data) (34, 34)) ++ [34; 10]
  else if (type =? REG_DWORD) && (length data =? 4)%nat then
    chars "dword:" ++ fmt_digits 8 (dword_of data) ++ [10]
  else
    let tag := if type =? REG_BINARY then chars "hex:" else chars "hex(" ++ fmt_x32 type ++ chars "):" in
    tag ++ dump_hex data (count + Z.of_nat (length tag)).

Definition client_dump_value (data : list Z) : option (list Z * list Z) :=
  '(name, data) ← read_counted data;
  '(type, data) ← read_uint data;
  '(valuedata, data) ← read_counted data;
  let '(head, count) :=
    match name with
    | [] => (chars "@=", 2)
    | _ => let '(text, n) := client_dump_strW (wchars_of name) (34, 34) in (34 :: text ++ [34; 61], 1 + n + 2)
    end in
  Some (head ++ client_dump_data type valuedata count, data).

(** A routine that writes and moves on, [n] times. *)
Fixpoint repeat_dump (f : list Z -> option (list Z * list Z)) (n : nat) (data : list Z) : option (list Z * list Z) :=
  match n with
  | O => Some ([], data)
  | S n => '(t, data) ← f data; '(t', data) ← repeat_dump f n data; Some (t ++ t', data)
  end.

(** The seconds since 1970, in unsigned arithmetic. *)
Definition client_unix_time (modif : Z) : Z := u32 (u64 (modif - ticks_1601_to_1970) / TICKS_PER_SEC).

(** Does the key get a section? *)
Definition client_needs (k : saved_key) : bool :=
  (0 <? sk_value_count k) || (sk_subkey_count k =? 0) || negb (bool_decide (sk_class k = [])) || negb (sk_is_symlink k =? 0).

(** The lines in front of the values. *)
Definition client_head (parents : list saved_key) (k : saved_key) : list Z :=
  [10; 91] ++ match parents with [] => [] | _ => client_dump_path (sk_name k) parents end ++ chars "] " ++ fmt_u (client_unix_time (sk_modif k)) ++ [10] ++
  dump_times (sk_modif k) ++
  (if bool_decide (sk_class k = []) then []
   else chars "#class=" ++ 34 :: fst (client_dump_strW (wchars_of (sk_class k)) (34, 34)) ++ [34; 10]) ++
  (if sk_is_symlink k =? 0 then [] else chars "#link" ++ [10]).

(** The section of a key. *)
Definition client_section (parents : list saved_key) (k : saved_key) (data : list Z) : option (list Z * list Z) :=
  if client_needs k then
    '(vals, data) ← repeat_dump client_dump_value (Z.to_nat (sk_value_count k)) data;
    Some (client_head parents k ++ vals, data)
  else Some ([], data).

(** Every level of subkeys takes some bytes. *)
Fixpoint client_save_subkeys (fuel : nat) (parents : list saved_key) (data : list Z) : option (list Z * list Z) :=
  match fuel with
  | O => None
  | S fuel =>
      '(k, data) ← fill_saved_key data;
      '(text, data) ← client_section parents k data;
      '(below, data) ← repeat_dump (client_save_subkeys fuel (k :: parents)) (Z.to_nat (sk_subkey_count k)) data;
      Some (text ++ below, data)
  end.

Definition prefix_of_value (v : Z) : prefix_type := if v =? 1 then PREFIX_32BIT else if v =? 2 then PREFIX_64BIT else PREFIX_UNKNOWN.

(** The text of the file, and what is behind the snapshot. *)
Definition client_save_all_subkeys (data : list Z) : option (list Z * list Z) :=
  '(prefix, data) ← read_int data;
  '(parent_count, data) ← read_int data;
  '(path, data) ← dump_parents (Z.to_nat parent_count) data;
  '(text, data) ← client_save_subkeys (length data) [] data;
  Some (chars "WINE REGISTRY Version 2" ++ [10] ++ chars ";; All keys relative to " ++ path ++ [10] ++ dump_arch (prefix_of_value prefix) ++ text,
        data).

(** * Snapshots of the registry: what is written from them

    The bytes that the server serializes are as many as it announced, and the
    process that reads them finds every key and value again: it writes the file that
    the server would write, without the places of the values in the enumeration. *)

(** ** Strings *)

(** Everything the routine of the process prints. *)
Fixpoint client_chars (escape : Z * Z) (str : list Z) : list Z :=
  match str with
  | [] => []
  | c :: next => (if (c =? 0) && (length next =? 0)%nat then [] else dump_char escape str) ++ client_chars escape next
  end.

Lemma client_loop_spec escape str : forall buffer file count,
  let '(b, f, c) := client_dump_loop escape str buffer file count in
  f ++ b = file ++ buffer ++ client_chars escape str /\
  c + Z.of_nat (length b) = count + Z.of_nat (length buffer) + Z.of_nat (length (client_chars escape str)).
Proof.
  induction str as [|x next IH]; intros buffer file count; [cbn; rewrite app_nil_r; split; [done|lia]|]. cbn [client_dump_loop client_chars].
  set (out := if (x =? 0) && _ then [] else _). destruct (sizeof_buffer - 8 <? Z.of_nat (length buffer)).
  - specialize (IH ([] ++ out) (file ++ buffer) (count + Z.of_nat (length buffer))). destruct (client_dump_loop _ _ _ _ _) as [[b f] c].
    destruct IH as [-> ->]. rewrite <-!app_assoc, !length_app. cbn [app]. split; [done|]. cbn. lia.
  - specialize (IH (buffer ++ out) file count). destruct (client_dump_loop _ _ _ _ _) as [[b f] c]. destruct IH as [-> ->].
    rewrite <-!app_assoc, !length_app. split; [done|lia].
Qed.

Lemma client_dump_chars str escape : client_dump_strW str escape = (client_chars escape str, Z.of_nat (length (client_chars escape str))).
Proof.
  unfold client_dump_strW. pose proof (client_loop_spec escape str [] [] 0) as H. destruct (client_dump_loop _ _ _ _ _) as [[b f] c].
  destruct H as [-> H]. cbn in *. by rewrite H.
Qed.

(** A string that does not end with a NUL is written as by the server. *)
Definition no_nul (str : list Z) : Prop := last str <> Some 0.

Lemma client_chars_plain escape str : no_nul str -> client_chars escape str = dump_chars escape str.
Proof.
  unfold no_nul. induction str as [|c next IH]; [done|]. intros H. cbn [client_chars dump_chars]. destruct next as [|d next].
  - destruct (Z.eqb_spec c 0) as [->|]; [done|]. by cbn.
  - rewrite andb_false_r, IH; [done|]. done.
Qed.

Lemma client_chars_nul escape str : client_chars escape (str ++ [0]) = dump_chars escape str.
Proof.
  induction str as [|c next IH]; [done|]. change ((c :: next) ++ [0]) with (c :: (next ++ [0])). cbn [client_chars dump_chars]. rewrite IH.
  rewrite length_app, Nat.add_1_r. cbn [Nat.eqb]. rewrite andb_false_r. f_equal. by destruct next.
Qed.

Lemma wchars_names name : Forall (fun c => 0 <= c < 2 ^ 16) name -> wchars_of (wchars name) = name.
Proof.
  induction 1 as [|c name Hc _ IH]; [done|]. cbn [wchars wchars_of]. rewrite IH. f_equal. change 0xff with (Z.ones 8). rewrite Z.land_ones, Z.shiftr_div_pow2 by lia.
  change (2 ^ 8) with 256. pose proof (Z.div_mod c 256). lia.
Qed.

Lemma wchars_length name : length (wchars name) = (2 * length name)%nat.
Proof. induction name as [|c name IH]; [done|]. cbn [wchars length]. rewrite IH. lia. Qed.

Lemma client_name name escape : Forall (fun c => 0 <= c < 2 ^ 16) name -> no_nul name ->
  client_dump_strW (wchars_of (wchars name)) escape = (dump_chars escape name, Z.of_nat (length (dump_chars escape name))).
Proof. intros H1 H2. by rewrite wchars_names, client_dump_chars, client_chars_plain. Qed.

(** ** Integers *)

Lemma int_bytes_length n : forall z, length (int_bytes n z) = n.
Proof. induction n as [|n IH]; intros z; [done|]. cbn. by rewrite IH. Qed.

Lemma int_value_bytes n : forall z, int_value (int_bytes n z) = z mod 256 ^ Z.of_nat n.
Proof.
  induction n as [|n IH]; intros z; [by rewrite Z.mod_1_r|]. cbn [int_bytes int_value]. rewrite IH, Nat2Z.inj_succ, Z.pow_succ_r by lia. rewrite Z.rem_mul_r by lia. lia.
Qed.

Lemma read_bytes_app n l rest : Z.of_nat (length l) = n -> read_bytes n (l ++ rest) = Some (l, rest).
Proof.
  intros <-. unfold read_bytes. rewrite length_app. rewrite (proj2 (Z.ltb_ge _ _)) by lia. by rewrite Nat2Z.id, take_app_length, drop_app_length.
Qed.

Lemma read_uint_app z rest : 0 <= z < 2 ^ 32 -> read_uint (int_bytes 4 z ++ rest) = Some (z, rest).
Proof.
  intros Hz. unfold read_uint. rewrite read_bytes_app by (by rewrite int_bytes_length). cbn [mbind option_bind]. rewrite int_value_bytes. by rewrite Z.mod_small.
Qed.

Lemma read_int_app z rest : 0 <= z < 2 ^ 31 -> read_int (int_bytes 4 z ++ rest) = Some (z, rest).
Proof. intros Hz. unfold read_int. rewrite read_uint_app by lia. cbn [mbind option_bind]. by rewrite i32_small. Qed.

Lemma read_counted_app l n rest : n = Z.of_nat (length l) -> n < 2 ^ 32 -> read_counted (int_bytes 4 n ++ l ++ rest) = Some (l, rest).
Proof. intros -> Hl. unfold read_counted. rewrite read_uint_app by lia. cbn [mbind option_bind]. by apply read_bytes_app. Qed.

Lemma read_name name rest : 2 * Z.of_nat (length name) < 2 ^ 32 ->
  read_counted (int_bytes 4 (2 * Z.of_nat (length name)) ++ wchars name ++ rest) = Some (wchars name, rest).
Proof. intros H. apply read_counted_app; [rewrite wchars_length; lia|lia]. Qed.

(** ** Values *)

(** A value without its place in the enumeration. *)
Definition plain_value (v : key_value) : list Z :=
  match v_name v with
  | [] => chars "@=" ++ dump_data (v_type v) (v_data v) 2
  | name => 34 :: dump_chars (34, 34) name ++ [34; 61] ++ dump_data (v_type v) (v_data v) (1 + Z.of_nat (length (dump_chars (34, 34) name)) + 2)
  end.

Lemma client_data type data count : Forall is_byte data -> client_dump_data type data count = dump_data type data count.
Proof.
  intros Hd. unfold client_dump_data, dump_data. destruct (is_string_type type && terminated data) eqn:E; [|done]. apply andb_true_iff in E as [_ E].
  destruct (terminated_split data Hd E) as [Es Hb]. do 3 f_equal. rewrite client_dump_chars, dump_strW_chars. cbn [fst]. rewrite Es at 1.
  rewrite wchars_names; [apply client_chars_nul|]. apply list.Forall_app. split; [by apply wchars_of_range|]. apply list.Forall_singleton. lia.
Qed.

Lemma client_value v rest : wf_value v -> no_nul (v_name v) -> Z.of_nat (length (snd (serialize_value v true))) < 2 ^ 31 ->
  client_dump_value (snd (serialize_value v true) ++ rest) = Some (plain_value v, rest).
Proof.
  intros Hv Hn Hl. unfold serialize_value in *. cbn [snd] in *. rewrite !length_app, !int_bytes_length, wchars_length in Hl.
  unfold client_dump_value. rewrite <-!app_assoc. rewrite read_name by lia. cbn [mbind option_bind]. rewrite read_uint_app by apply Hv. cbn [mbind option_bind].
  rewrite read_counted_app by (done || lia). cbn [mbind option_bind]. unfold plain_value.
  destruct (v_name v) as [|c name] eqn:En; [cbn [wchars]; by rewrite client_data by apply Hv|]. pose proof (wv_name v Hv) as Hr. rewrite En in Hr.
  assert (forall A (x y : A), match wchars (c :: name) with [] => x | _ => y end = y) as Em by done. rewrite Em, client_name by done.
  rewrite client_data by apply Hv. cbn [app]. by rewrite <-app_assoc.
Qed.

Lemma client_values (vs : list key_value) rest : Forall wf_value vs -> Forall (fun v => no_nul (v_name v)) vs ->
  let bytes := concat ((fun v => snd (serialize_value v true)) <$> vs) in Z.of_nat (length bytes) < 2 ^ 31 ->
  repeat_dump client_dump_value (length vs) (bytes ++ rest) = Some (concat (plain_value <$> vs), rest).
Proof.
  intros Hv Hn. induction vs as [|v vs IH]; [done|]. apply list.Forall_cons in Hv as [Hv Hvs]. apply list.Forall_cons in Hn as [Hn Hns]. cbn zeta.
  rewrite !fmap_cons. cbn [concat length repeat_dump]. rewrite length_app, <-app_assoc. intros Hl. rewrite client_value by (done || lia). cbn [mbind option_bind].
  rewrite IH by (done || lia). done.
Qed.

(** ** Sizes *)

Lemma add_parts_snd size l : snd (add_parts size l) = concat (snd <$> l).
Proof.
  unfold add_parts. assert (forall acc, snd (foldl (fun x y : Z * list Z => (u32 (fst x + fst y), snd x ++ snd y)) acc l) = snd acc ++ concat (snd <$> l)) as H.
  { induction l as [|x l IH]; intros acc; [by cbn; rewrite app_nil_r|]. cbn [foldl]. rewrite IH, fmap_cons. cbn. by rewrite app_assoc. }
  by rewrite H.
Qed.

Lemma u32_add a b : u32 (u32 a + u32 b) = u32 (a + b).
Proof. unfold u32. by rewrite <-Z.add_mod by lia. Qed.

(** The parts are as long as they say. *)
Definition sized (x : Z * list Z) : Prop := fst x = u32 (Z.of_nat (length (snd x))).

Lemma add_parts_fst L l : Forall sized l -> fst (add_parts (u32 L) l) = u32 (L + Z.of_nat (length (concat (snd <$> l)))).
Proof.
  unfold add_parts. intros H. assert (forall L acc, fst acc = u32 L ->
    fst (foldl (fun x y : Z * list Z => (u32 (fst x + fst y), snd x ++ snd y)) acc l) = u32 (L + Z.of_nat (length (concat (snd <$> l))))) as G.
  { clear L. induction H as [|x l Hx H IH]; intros L acc Ha; [cbn; by rewrite Z.add_0_r|]. cbn [foldl]. rewrite fmap_cons. cbn [concat]. rewrite length_app.
    rewrite (IH (L + Z.of_nat (length (snd x)))); [f_equal; lia|]. cbn [fst]. by rewrite Ha, Hx, u32_add. }
  by apply G.
Qed.

(** Only the sizes count for the size. *)
Lemma add_parts_sizes size l l' : fst <$> l = fst <$> l' -> fst (add_parts size l) = fst (add_parts size l').
Proof.
  unfold add_parts. assert (forall acc acc', fst acc = fst acc' -> fst <$> l = fst <$> l' ->
    fst (foldl (fun x y : Z * list Z => (u32 (fst x + fst y), snd x ++ snd y)) acc l) = fst (foldl (fun x y : Z * list Z => (u32 (fst x + fst y), snd x ++ snd y)) acc' l')) as G.
  { revert l'. induction l as [|x l IH]; intros [|x' l'] acc acc' Ha E; try done. rewrite !fmap_cons in E. injection E as E1 E2. cbn [foldl]. apply IH; [|done].
    cbn. by rewrite Ha, E1. }
  by apply G.
Qed.

Lemma value_sized v : sized (serialize_value v true) /\ fst (serialize_value v false) = fst (serialize_value v true) /\ snd (serialize_value v false) = [].
Proof.
  split; [|done]. unfold sized, serialize_value. cbn [fst snd]. rewrite !length_app, !int_bytes_length, wchars_length. f_equal. lia.
Qed.

Definition class_of (k : key) : list Z := match k_class k with Some c => c | None => [] end.

Lemma classlen_of k : classlen k = 2 * Z.of_nat (length (class_of k)).
Proof. unfold classlen, class_of. by destruct (k_class k). Qed.

Lemma key_header_length k n : Z.of_nat (length (key_header k n)) = 4 + 2 * Z.of_nat (length (k_name k)) + 4 + classlen k + 4 + 4 + 4 + 8.
Proof. unfold key_header. fold (class_of k). rewrite !length_app, !int_bytes_length, !wchars_length, classlen_of. lia. Qed.

(** ** Keys *)

(** What the process writes for a key. *)
Definition live (r : registry) (s : Z) : bool := match keys r !! s with Some ks => negb (volatile ks) | None => false end.

Definition live_subkeys (r : registry) (k : key) : list Z := filter (fun s => live r s = true) (subkeys k).

Definition needs_snapshot (r : registry) (k : key) : bool :=
  negb (bool_decide (values k = [])) || bool_decide (live_subkeys r k = []) || negb (bool_decide (class_of k = [])) || has_bits (k_flags k) KEY_SYMLINK.

Definition plain_text (x : section) : list Z :=
  let k := snd x in
  [10; 91] ++ fst (dump_strW (join (fst x)) (91, 93)) ++ chars "] " ++ fmt_u (unix_time (modif k)) ++ [10] ++ dump_times (modif k) ++ dump_class (k_class k) ++
  (if has_bits (k_flags k) KEY_SYMLINK then chars "#link" ++ [10] else []) ++ concat (plain_value <$> values k).

(** What the process reads. *)
Definition snapshot_of (k : key) (n : Z) : saved_key :=
  mk_saved_key (wchars (k_name k)) (wchars (class_of k)) (Z.of_nat (length (values k))) n (Z.land (k_flags k) KEY_SYMLINK) (modif k).

Lemma symlink_bit z : Z.land z KEY_SYMLINK = if Z.testbit z 3 then 8 else 0.
Proof.
  unfold KEY_SYMLINK. change 8 with (2 ^ 3). apply Z.bits_inj'. intros n Hn. rewrite Z.land_spec, Z.pow2_bits_eqb by lia.
  destruct (Z.eqb_spec 3 n) as [<-|Hne]; [rewrite andb_true_r; by destruct (Z.testbit z 3)|]. rewrite andb_false_r.
  destruct (Z.testbit z 3); [|by rewrite Z.bits_0]. rewrite Z.pow2_bits_eqb by lia. by rewrite (proj2 (Z.eqb_neq 3 n)).
Qed.

Lemma fill_header k n rest : Z.of_nat (length (key_header k n)) < 2 ^ 31 -> Z.of_nat (length (values k)) < 2 ^ 31 -> 0 <= n < 2 ^ 31 -> 0 <= modif k < 2 ^ 63 ->
  fill_saved_key (key_header k n ++ rest) = Some (snapshot_of k n, rest).
Proof.
  intros Hl Hv Hn Hm. rewrite key_header_length, classlen_of in Hl. unfold fill_saved_key, key_header. fold (class_of k). rewrite classlen_of, <-!app_assoc.
  rewrite read_name by lia. cbn [mbind option_bind]. rewrite read_name by lia. cbn [mbind option_bind]. rewrite read_int_app by lia. cbn [mbind option_bind].
  rewrite read_int_app by done. cbn [mbind option_bind]. rewrite read_uint_app.
  2: { rewrite symlink_bit. destruct (Z.testbit (k_flags k) 3); lia. }
  cbn [mbind option_bind]. rewrite read_bytes_app by (by rewrite int_bytes_length). cbn [mbind option_bind]. rewrite int_value_bytes.
  change (256 ^ Z.of_nat 8) with (2 ^ 64). rewrite Z.mod_small by lia. unfold snapshot_of. do 3 f_equal. unfold i64. rewrite Z.mod_small; lia.
Qed.

(** ** Paths *)

Definition clean_name (n : list Z) : Prop := Forall (fun c => 0 <= c < 2 ^ 16) n /\ no_nul n.

(** The parents of the keys below the key at a path. *)
Inductive climbs : list saved_key -> list (list Z) -> Prop :=
  | climbs_base k : climbs [k] []
  | climbs_sub p ps q n : climbs ps q -> sk_name p = wchars n -> clean_name n -> climbs (p :: ps) (q ++ [n]).

Lemma client_dump_path_cons name p p' ps :
  client_dump_path name (p :: p' :: ps) = client_dump_path (sk_name p) (p' :: ps) ++ [92; 92] ++ fst (client_dump_strW (wchars_of name) (91, 93)).
Proof. reflexivity. Qed.

Lemma climbs_path ps q : climbs ps q -> forall n, clean_name n -> client_dump_path (wchars n) ps = dump_chars (91, 93) (join (q ++ [n])).
Proof.
  induction 1 as [k|p ps q m H IH Ep Hm]; intros n [Hn1 Hn2].
  - cbn [client_dump_path]. rewrite client_name by done. done.
  - destruct ps as [|p' ps]; [inversion H|]. rewrite client_dump_path_cons, client_name by done. cbn [fst]. rewrite Ep, IH by done.
    rewrite (join_snoc (q ++ [m])) by (by destruct q). by rewrite dump_chars_slash.
Qed.

(** The parents of a key at a path, as they are passed along. *)
Definition placed (ps : list saved_key) (path : list (list Z)) : Prop := (ps = [] /\ path = []) \/ exists q n, path = q ++ [n] /\ clean_name n /\ climbs ps q.

Lemma placed_path ps path k name : placed ps path -> (forall n, last path = Some n -> name = n) -> sk_name k = wchars name ->
  match ps with [] => [] | _ => client_dump_path (sk_name k) ps end = fst (dump_strW (join path) (91, 93)).
Proof.
  intros H Hn Ek. rewrite dump_strW_chars. cbn [fst]. destruct H as [[-> ->]|(q & n & -> & Hc & H)]; [done|].
  destruct ps as [|p ps]; [inversion H|]. rewrite Ek, (Hn n) by (by rewrite last_snoc). by rewrite (climbs_path _ q).
Qed.

(** Those of its subkeys. *)
Lemma placed_sub ps path k name n : placed ps path -> (forall n, last path = Some n -> name = n) -> sk_name k = wchars name -> clean_name n ->
  placed (k :: ps) (path ++ [n]).
Proof.
  intros H Hn Ek Hc. right. exists path, n. split; [done|]. split; [done|]. destruct H as [[-> ->]|(q & m & -> & Hm & H)]; [constructor|].
  constructor; [done| |done]. by rewrite Ek, (Hn m) by (by rewrite last_snoc).
Qed.

(** ** Keys *)

Lemma client_unix m : ticks_1601_to_1970 <= m < 2 ^ 63 -> client_unix_time m = unix_time m.
Proof.
  intros Hm. unfold client_unix_time, unix_time, u64. assert (0 <= ticks_1601_to_1970) by (by vm_compute). rewrite Z.mod_small by lia.
  rewrite Z.quot_div_nonneg; [done|lia|by vm_compute].
Qed.

Section client.
Context (casemap : Z -> Z).
#[local] Abbreviation reg_ok := (reg_ok casemap).

(** Every key that is not volatile, with its path, below the key [a] at [path]. *)
Fixpoint walked (fuel : nat) (r : registry) (a : Z) (path : list (list Z)) : option (list section) :=
  match fuel with
  | O => None
  | S fuel =>
      k ← keys r !! a;
      if volatile k then Some []
      else
        below ← mapM (fun s => ks ← keys r !! s; walked fuel r s (path ++ [k_name ks])) (subkeys k);
        Some ((path, k) :: concat below)
  end.

(** The sections that the server and the process write for them. *)
Definition server_sections (secs : list section) : list section := filter (fun x => needs_section (snd x) = true) secs.

Definition client_sections (r : registry) (secs : list section) : list section := filter (fun x => needs_snapshot r (snd x) = true) secs.

Lemma mapM_then {A B C} (f : A -> option B) (F : B -> C) (l : list A) : mapM (fun x => F <$> f x) l = fmap F <$> mapM f l.
Proof using. induction l as [|x l IH]; [done|]. cbn. rewrite IH. destruct (f x); [|done]. cbn. by destruct (mapM f l). Qed.

Lemma filter_concat {A} (P : A -> Prop) `{!forall x, Decision (P x)} (ls : list (list A)) : filter P (concat ls) = concat (filter P <$> ls).
Proof using. induction ls as [|l ls IH]; [done|]. cbn [concat fmap list_fmap]. by rewrite filter_app, IH. Qed.

Lemma saved_walked fuel r : forall a path, saved fuel r a path = server_sections <$> walked fuel r a path.
Proof using.
  induction fuel as [|fuel IH]; intros a path; [done|]. cbn [saved walked]. destruct (keys r !! a) as [k|]; [|done]. rewrite !some_bind.
  destruct (volatile k); [done|].
  assert (mapM (fun s => ks ← keys r !! s; saved fuel r s (path ++ [k_name ks])) (subkeys k) =
          mapM (fun s => server_sections <$> (ks ← keys r !! s; walked fuel r s (path ++ [k_name ks]))) (subkeys k)) as ->.
  { apply mapM_ext. intros s. destruct (keys r !! s) as [ks|]; [|done]. apply IH. }
  rewrite mapM_then. destruct (mapM _ (subkeys k)) as [below|]; [|done].
  change (Some ((if needs_section k then [(path, k)] else []) ++ concat (server_sections <$> below)) = Some (server_sections ((path, k) :: concat below))).
  unfold server_sections. rewrite filter_cons, filter_concat. cbn [snd].
  destruct (needs_section k); [by rewrite decide_True|by rewrite decide_False].
Qed.

Lemma elem_of_concat {A} (x : A) (ls : list (list A)) : x ∈ concat ls <-> exists l, x ∈ l /\ l ∈ ls.
Proof using. rewrite list_elem_of_In, in_concat. setoid_rewrite list_elem_of_In. split; intros (l & H1 & H2); by exists l. Qed.

(** The walk meets exactly the keys below [a] that are not volatile. *)
Lemma walked_elem r fuel : reg_ok r -> forall a path k secs, keys r !! a = Some k -> walked fuel r a path = Some secs ->
  forall x, x ∈ secs <-> exists q b, fst x = path ++ q /\ named r a q b /\ keys r !! b = Some (snd x) /\ volatile (snd x) = false.
Proof.
  intros R. induction fuel as [|fuel IH]; intros a path k secs Hk E x; [done|]. cbn [walked] in E. rewrite Hk, some_bind in E. destruct (volatile k) eqn:Hv.
  { injection E as <-. split; [by intros ?%not_elem_of_nil|]. intros (q & b & _ & H & Hb & Hvb). by rewrite (volatile_below casemap r a q b k R Hk Hv H _ Hb) in Hvb. }
  destruct (mapM _ (subkeys k)) as [below|] eqn:Em; [|done]. rewrite some_bind in E. injection E as <-. apply mapM_Some in Em.
  assert (Hsub : forall s secs, (ks ← keys r !! s; walked fuel r s (path ++ [k_name ks])) = Some secs -> exists ks, keys r !! s = Some ks /\
     forall x, x ∈ secs <-> exists q b, fst x = path ++ k_name ks :: q /\ named r s q b /\ keys r !! b = Some (snd x) /\ volatile (snd x) = false).
  { intros s secs E. destruct (keys r !! s) as [ks|] eqn:Hs; [|done]. exists ks. split; [done|]. intros y. rewrite some_bind in E. rewrite (IH s _ ks secs Hs E y).
    setoid_rewrite <-app_assoc. done. }
  rewrite elem_of_cons, elem_of_concat. split.
  - intros [->|(secs & Hin & Hx)]; [exists [], a; cbn [fst snd]; rewrite app_nil_r; by split_and!; [|constructor|..]|].
    apply list_elem_of_lookup in Hx as [i Hi]. destruct (Forall2_lookup_r _ _ _ _ _ Em Hi) as (s & Hs & Es). destruct (Hsub s secs Es) as (ks & Hks & H).
    apply H in Hin as (q & b & E & Hq & Hb). destruct (ko_children _ _ _ _ (ro_keys _ _ R a k Hk) s ltac:(by eapply list_elem_of_lookup_2)) as (ks' & Hks' & Hp & _).
    rewrite Hks in Hks'. injection Hks' as <-. exists (k_name ks :: q), b. split; [done|]. split; [|done]. change (k_name ks :: q) with (([] ++ [k_name ks]) ++ q).
    eapply named_app; [|exact Hq]. eapply named_sub; [constructor|done|done].
  - intros (q & b & E & H & Hb & Hvb). apply named_cons in H as [[-> ->]|(s & ks & q' & Hks & Hp & -> & H)].
    + left. rewrite app_nil_r in E. rewrite Hk in Hb. injection Hb as Hb. destruct x; cbn in *; congruence.
    + right. destruct (ko_parent _ _ _ _ (ro_keys _ _ R s ks Hks) a Hp) as (_ & k' & Hk' & Hin). rewrite Hk in Hk'. injection Hk' as <-.
      apply list_elem_of_lookup in Hin as [i Hi]. destruct (Forall2_lookup_l _ _ _ _ _ Em Hi) as (secs & Hsecs & Es).
      destruct (Hsub s secs Es) as (ks' & Hks' & H'). rewrite Hks in Hks'. injection Hks' as <-. exists secs. split; [|by eapply list_elem_of_lookup_2]. apply H'. by exists q', b.
Qed.

(** The keys of which the process writes what the server would. *)
Record snapshot_ok (k : key) : Prop := {
  sn_key : wf_key casemap k;
  sn_modif : ticks_1601_to_1970 <= modif k;
  sn_name : clean_name (k_name k);
  sn_values : Forall (fun v => no_nul (v_name v)) (values k);
  sn_class : k_class k <> Some [] /\ no_nul (class_of k)
}.

(** A key with subkeys that are all volatile. *)
Definition only_volatile (r : registry) (k : key) : bool :=
  negb (bool_decide (subkeys k = [])) && forallb (fun s => negb (live r s)) (subkeys k).

Lemma live_none r k : live_subkeys r k = [] <-> forallb (fun s => negb (live r s)) (subkeys k) = true.
Proof using.
  unfold live_subkeys. induction (subkeys k) as [|s l IH]; [done|]. rewrite filter_cons. cbn [forallb]. destruct (live r s); cbn; [by split|exact IH].
Qed.

(** The process writes the sections of the server, and those of the keys that only
    have volatile subkeys. *)
Lemma needs_both r k : snapshot_ok k -> needs_snapshot r k = needs_section k || only_volatile r k.
Proof using.
  intros S. unfold needs_snapshot, needs_section, only_volatile.
  assert (negb (bool_decide (class_of k = [])) = bool_decide (k_class k <> None)) as ->.
  { destruct (sn_class _ S) as [H _]. unfold class_of. destruct (k_class k) as [c|]; [|done]. rewrite (bool_decide_eq_true_2 (Some c <> None)) by done.
    by rewrite bool_decide_eq_false_2 by congruence. }
  assert (bool_decide (live_subkeys r k = []) = bool_decide (subkeys k = []) || negb (bool_decide (subkeys k = [])) && forallb (fun s => negb (live r s)) (subkeys k)) as ->.
  { pose proof (live_none r k) as H. destruct (forallb _ _) eqn:E.
    - rewrite bool_decide_eq_true_2 by (by apply H). by destruct (bool_decide (subkeys k = [])).
    - rewrite bool_decide_eq_false_2 by (intros ?%H; congruence). rewrite andb_false_r, orb_false_r. symmetry. apply bool_decide_eq_false_2. intros E'. by rewrite E' in E. }
  destruct (negb (bool_decide (values k = []))), (bool_decide (subkeys k = [])), (forallb _ _), (bool_decide (k_class k <> None)), (has_bits _ _); done.
Qed.

Lemma client_needs_ok r k n : n = Z.of_nat (length (live_subkeys r k)) -> client_needs (snapshot_of k n) = needs_snapshot r k.
Proof.
  intros En. unfold client_needs, needs_snapshot, snapshot_of. cbn [sk_value_count sk_subkey_count sk_class sk_is_symlink].
  fold (has_bits (k_flags k) KEY_SYMLINK). f_equal. f_equal; [f_equal|].
  - destruct (values k); [done|]. by rewrite bool_decide_eq_false_2.
  - rewrite En. by destruct (live_subkeys r k).
  - f_equal. apply bool_decide_ext. by destruct (class_of k).
Qed.

Lemma client_head_ok k n ps path : snapshot_ok k -> placed ps path -> (forall m, last path = Some m -> k_name k = m) ->
  client_head ps (snapshot_of k n) ++ concat (plain_value <$> values k) = plain_text (path, k).
Proof.
  intros S Hp Hn. unfold client_head. rewrite (placed_path ps path _ (k_name k)) by done. unfold snapshot_of, plain_text.
  cbn [sk_name sk_modif sk_class sk_is_symlink fst snd]. rewrite client_unix by (pose proof (sn_modif _ S); pose proof (wk_modif _ _ (sn_key _ S)); lia).
  rewrite <-!app_assoc. do 6 f_equal. unfold has_bits.
  assert ((if bool_decide (wchars (class_of k) = []) then [] else chars "#class=" ++ 34 :: fst (client_dump_strW (wchars_of (wchars (class_of k))) (34, 34)) ++ [34; 10]) =
          dump_class (k_class k)) as ->.
  { destruct (sn_class _ S) as [H1 H2]. pose proof (wk_class _ _ (sn_key _ S)) as H3. unfold class_of, dump_class in *. destruct (k_class k) as [c|]; [|done].
    destruct c as [|x c]; [done|]. rewrite bool_decide_eq_false_2 by done. by rewrite client_name, dump_strW_chars. }
  f_equal. by destruct (Z.land (k_flags k) KEY_SYMLINK =? 0).
Qed.

Lemma client_section_ok r k n ps path rest :
  snapshot_ok k -> placed ps path -> (forall m, last path = Some m -> k_name k = m) -> n = Z.of_nat (length (live_subkeys r k)) ->
  let bytes := concat ((fun v => snd (serialize_value v true)) <$> values k) in Z.of_nat (length bytes) < 2 ^ 31 ->
  client_section ps (snapshot_of k n) (bytes ++ rest) = Some (concat (plain_text <$> client_sections r [(path, k)]), rest).
Proof.
  intros S Hp Hn En bytes Hl. unfold client_section. rewrite (client_needs_ok r) by done. unfold client_sections. rewrite filter_cons. cbn [snd]. destruct (needs_snapshot r k) eqn:Ens.
  - rewrite decide_True by done. cbn [snapshot_of sk_value_count]. rewrite Nat2Z.id. unfold bytes. rewrite client_values; [|apply S|apply S|done]. cbn [mbind option_bind].
    rewrite (client_head_ok k n ps path) by done. cbn [fmap list_fmap concat]. by rewrite app_nil_r.
  - rewrite decide_False by done. assert (values k = []) as Ev. { unfold needs_snapshot in Ens. destruct (values k); [done|]. rewrite bool_decide_eq_false_2 in Ens by done. done. }
    unfold bytes. by rewrite Ev.
Qed.

Lemma named_last r base path a k : named r base path a -> keys r !! a = Some k -> forall m, last path = Some m -> k_name k = m.
Proof using.
  intros [|q b kb c _ Hb _] Hk m E; [done|]. rewrite last_snoc in E. injection E as <-. congruence.
Qed.

(** The bytes of the subkeys that are not volatile. *)
Definition part (fuel : nat) (r : registry) (buf : bool) (s : Z) : option (option (Z * list Z)) :=
  ks ← keys r !! s; if has_bits (k_flags ks) KEY_VOLATILE then Some None else x ← serialize_key fuel r s buf; Some (Some x).

Definition part_bytes (parts : list (option (Z * list Z))) : list Z := concat (snd <$> omap id parts).

(** What one call of the server, and of the process on what it wrote, does. *)
Definition client_runs (r : registry) (base : Z) (fuel : nat) : Prop := forall a path l k,
  named r base path a -> chain r (Some a) l -> (size (keys r) < length l + fuel)%nat -> keys r !! a = Some k -> volatile k = false ->
  exists bytes secs, serialize_key fuel r a true = Some (u32 (Z.of_nat (length bytes)), bytes) /\ serialize_key fuel r a false = Some (u32 (Z.of_nat (length bytes)), []) /\
    walked fuel r a path = Some secs /\
    (Z.of_nat (length bytes) < 2 ^ 31 -> forall fuel' ps rest, (length bytes <= fuel')%nat -> placed ps path ->
     client_save_subkeys fuel' ps (bytes ++ rest) = Some (concat (plain_text <$> client_sections r secs), rest)).

Definition snapshots_ok (r : registry) (base : Z) : Prop :=
  forall q b k, named r base q b -> keys r !! b = Some k -> volatile k = false -> snapshot_ok k.

Lemma subkeys_client r base fuel a path l :
  client_runs r base fuel -> snapshots_ok r base -> named r base path a -> chain r (Some a) l -> (size (keys r) < S (length l) + fuel)%nat ->
  forall ls, (forall s, s ∈ ls -> exists ks, keys r !! s = Some ks /\ k_parent ks = Some a) ->
  exists parts below, mapM (part fuel r true) ls = Some parts /\ mapM (part fuel r false) ls = Some ((fun x => (fun y => (fst y, [])) <$> x) <$> parts) /\
    mapM (fun s => ks ← keys r !! s; walked fuel r s (path ++ [k_name ks])) ls = Some below /\ Forall sized (omap id parts) /\
    length (omap id parts) = length (filter (fun s => live r s = true) ls) /\
    (Z.of_nat (length (part_bytes parts)) < 2 ^ 31 -> forall fuel' ps rest, (length (part_bytes parts) <= fuel')%nat ->
     (forall n, clean_name n -> placed ps (path ++ [n])) ->
     repeat_dump (client_save_subkeys fuel' ps) (length (omap id parts)) (part_bytes parts ++ rest) = Some (concat (plain_text <$> client_sections r (concat below)), rest)).
Proof using.
  intros IH Hok Ha Hl Hf ls Hc. induction ls as [|s ls IHl]; [exists [], []; split_and!; try done; constructor|].
  destruct (Hc s ltac:(left)) as (ks & Hs & Hp). destruct IHl as (parts & below & E1 & E2 & E3 & Hsz & Hlen & Hcl); [intros s' Hs'; apply Hc; by right|].
  assert (named r base (path ++ [k_name ks]) s) as Hsn by (by eapply named_sub). assert (chain r (Some s) (s :: l)) as Hsl by (econstructor; [done|by rewrite Hp]).
  cbn [mapM]. rewrite E1, E2, E3, Hs, some_bind. unfold part at 1 2. rewrite Hs, !some_bind. rewrite filter_cons.
  assert (live r s = negb (volatile ks)) as El by (unfold live; by rewrite Hs). destruct (volatile ks) eqn:Hv; cbn [negb] in El.
  - rewrite decide_False by congruence. destruct fuel as [|fuel]; [pose proof (parents_length _ _ _ Hsl); cbn in *; lia|]. cbn [walked]. rewrite Hs, some_bind, Hv, some_bind.
    unfold volatile in Hv. rewrite Hv, !some_bind. exists (None :: parts), ([] :: below). split_and!; done.
  - rewrite decide_True by done. destruct (IH s _ (s :: l) ks Hsn Hsl ltac:(cbn; lia) Hs Hv) as (bytes & secs & S1 & S2 & S3 & S4).
    pose proof (sn_name ks (Hok _ s ks Hsn Hs Hv)) as Hcn. unfold volatile in Hv. rewrite Hv, S1, S2, S3, !some_bind.
    exists (Some (u32 (Z.of_nat (length bytes)), bytes) :: parts), (secs :: below).
    split_and!; [done..|by constructor|cbn; by rewrite Hlen|].
    change (part_bytes (Some (u32 (Z.of_nat (length bytes)), bytes) :: parts)) with (bytes ++ part_bytes parts). rewrite length_app.
    intros Hb fuel' ps rest Hf' Hps. cbn [omap list_omap id length repeat_dump]. rewrite <-app_assoc, S4 by (first [lia|by apply Hps]).
    rewrite some_bind. cbn beta iota. fold (omap (M := list) (id (A := option (Z * list Z))) parts). rewrite Hcl by (done || lia). rewrite some_bind. cbn [concat]. unfold client_sections. by rewrite filter_app, fmap_app, concat_app.
Qed.

(** The size without a buffer. *)
Lemma add_parts_unwritten size (l : list (Z * list Z)) : fst (add_parts size ((fun y => (fst y, [])) <$> l)) = fst (add_parts size l).
Proof using. apply add_parts_sizes. rewrite <-list_fmap_compose. by apply list_fmap_ext. Qed.

Lemma omap_unwritten (parts : list (option (Z * list Z))) :
  omap id ((fun x => (fun y => (fst y, [])) <$> x) <$> parts) = (fun y : Z * list Z => (fst y, [] : list Z)) <$> omap id parts.
Proof using. induction parts as [|[x|] parts IH]; [done|..]; cbn; [f_equal|]; exact IH. Qed.

(** The bytes of a key. *)
Definition key_bytes (k : key) (parts : list (option (Z * list Z))) : list Z :=
  key_header k (Z.of_nat (length (omap id parts))) ++ concat ((fun v => snd (serialize_value v true)) <$> values k) ++ part_bytes parts.

Lemma serialize_key_parts fuel r a k parts : keys r !! a = Some k -> volatile k = false ->
  mapM (part fuel r true) (subkeys k) = Some parts ->
  mapM (part fuel r false) (subkeys k) = Some ((fun x => (fun y => (fst y, [])) <$> x) <$> parts) -> Forall sized (omap id parts) ->
  serialize_key (S fuel) r a true = Some (u32 (Z.of_nat (length (key_bytes k parts))), key_bytes k parts) /\
  serialize_key (S fuel) r a false = Some (u32 (Z.of_nat (length (key_bytes k parts))), []).
Proof using.
  intros Hk Hv E1 E2 Hsz. cbn [serialize_key]. rewrite Hk, !some_bind. unfold volatile in Hv. rewrite Hv. fold (part fuel r true) (part fuel r false).
  rewrite E1, E2, !some_bind, omap_unwritten, add_parts_unwritten.
  assert (Forall sized ((fun v => serialize_value v true) <$> values k)) as Hvs by (apply Forall_fmap, Forall_true; intros v; apply value_sized).
  assert (forall z, fst (add_parts z ((fun v => serialize_value v false) <$> values k)) = fst (add_parts z ((fun v => serialize_value v true) <$> values k))) as Ef.
  { intros z. apply add_parts_sizes. rewrite <-!list_fmap_compose. by apply list_fmap_ext. }
  rewrite Ef, !add_parts_snd, (add_parts_fst _ _ Hvs), (add_parts_fst _ _ Hsz), <-list_fmap_compose. unfold key_bytes, part_bytes.
  assert (forall X Y : Z, X = Y -> Some (u32 X, ([] : list Z)) = Some (u32 Y, [])) as Hc by (by intros X Y ->).
  split; [f_equal; f_equal; f_equal|apply Hc]; rewrite !length_app, !Nat2Z.inj_add, key_header_length; unfold compose; lia.
Qed.

Lemma client_run r base fuel : reg_ok r -> snapshots_ok r base -> Z.of_nat (size (keys r)) < 2 ^ 31 -> client_runs r base fuel.
Proof.
  intros R Hok Hsize. induction fuel as [|fuel IH]; intros a path l k Ha Hl Hf Hk Hv; [pose proof (parents_length _ _ _ Hl); lia|].
  inversion Hl as [|? k' l' Hk' Hl']; subst. rewrite Hk in Hk'. injection Hk' as <-.
  destruct (subkeys_client r base fuel a path (a :: l') IH Hok Ha Hl ltac:(lia) (subkeys k)) as (parts & below & E1 & E2 & E3 & Hsz & Hlen & Hcl).
  { intros s Hs. destruct (ko_children _ _ _ _ (ro_keys _ _ R a k Hk) s Hs) as (ks & H1 & H2 & _). by exists ks. }
  destruct (serialize_key_parts fuel r a k parts Hk Hv E1 E2 Hsz) as [S1 S2]. exists (key_bytes k parts), ((path, k) :: concat below).
  split; [done|]. split; [done|]. split; [cbn [walked]; by rewrite Hk, some_bind, Hv, E3, some_bind|]. intros Hb fuel' ps rest Hf' Hps.
  pose proof (Hok path a k Ha Hk Hv) as Sn. set (n := Z.of_nat (length (omap id parts))). unfold key_bytes in *. fold n in Hb, Hf' |- *. rewrite !length_app in Hb, Hf'.
  pose proof (key_header_length k n) as Hh. rewrite classlen_of in Hh.
  assert (length (values k) <= length (concat ((fun v => snd (serialize_value v true)) <$> values k)))%nat as Hnv.
  { clear. induction (values k) as [|v vs IHv]; [done|]. rewrite fmap_cons. cbn [concat length]. rewrite length_app. unfold serialize_value at 1. cbn [snd]. rewrite length_app, int_bytes_length. lia. }
  assert (length (omap id parts) <= length (subkeys k))%nat as Hns. { rewrite Hlen. apply length_filter. }
  pose proof (subkeys_size casemap r a k R Hk) as Hsk. destruct fuel' as [|fuel']; [lia|]. cbn [client_save_subkeys]. rewrite <-!app_assoc.
  rewrite fill_header; [|lia|lia|lia|apply Sn]. rewrite some_bind. cbn beta iota.
  rewrite (client_section_ok r k n ps path); [|done|done|by eapply named_last|unfold n; by rewrite Hlen|lia]. rewrite some_bind. cbn beta iota.
  cbn [snapshot_of sk_subkey_count]. unfold n at 2. rewrite Nat2Z.id.
  rewrite Hcl; [rewrite some_bind; change ((path, k) :: concat below) with ([(path, k)] ++ concat below); unfold client_sections; by rewrite filter_app, fmap_app, concat_app|lia|lia|]. intros m Hm. apply (placed_sub ps path _ (k_name k)); try done. by eapply named_last.
Qed.

(** ** The path at the top of the file *)

Definition names_clean (r : registry) : Prop := forall b k, keys r !! b = Some k -> clean_name (k_name k).

Lemma dump_parents_SS n data : dump_parents (S (S n)) data =
  ('(name, data) ← read_counted data; '(text, data) ← dump_parents (S n) data;
   Some (text ++ [92; 92] ++ fst (client_dump_strW (wchars_of name) (91, 93)), data)).
Proof using. done. Qed.

Lemma parents_run r fuel : names_clean r -> forall a l L, chain r (Some a) l -> (length l <= fuel)%nat ->
  exists bytes path, serialize_parents fuel r a (u32 L) true = Some (u32 (L + Z.of_nat (length bytes)), Z.of_nat (length l), bytes) /\
    serialize_parents fuel r a (u32 L) false = Some (u32 (L + Z.of_nat (length bytes)), Z.of_nat (length l), []) /\ dump_path fuel r a None = Some path /\
    (length l <= length bytes)%nat /\
    (Z.of_nat (length bytes) < 2 ^ 31 -> forall rest, dump_parents (length l) (bytes ++ rest) = Some (path, rest)).
Proof using.
  intros Hn. induction fuel as [|fuel IH]; intros a l L Hl Hf; inversion Hl as [|? k l' Hk Hl']; subst; cbn [length] in Hf; [lia|].
  cbn [serialize_parents dump_path]. rewrite Hk, !some_bind. destruct (Hn a k Hk) as [H1 H2]. set (own := int_bytes 4 (2 * Z.of_nat (length (k_name k))) ++ wchars (k_name k)).
  assert (Z.of_nat (length own) = 4 + 2 * Z.of_nat (length (k_name k))) as Hown by (unfold own; rewrite length_app, int_bytes_length, wchars_length; lia).
  assert (u32 (u32 L + 4 + 2 * Z.of_nat (length (k_name k))) = u32 (L + Z.of_nat (length own))) as ->.
  { rewrite Hown. unfold u32. rewrite <-Z.add_assoc, Zplus_mod_idemp_l. f_equal. }
  destruct (k_parent k) as [p|].
  - rewrite bool_decide_eq_false_2 by done. destruct (IH p l' (L + Z.of_nat (length own)) Hl' ltac:(lia)) as (bytes & path & -> & -> & -> & Hlen & Hd).
    exists (own ++ bytes), (path ++ [92; 92] ++ dump_chars (91, 93) (k_name k)). rewrite !some_bind. cbn beta iota. rewrite length_app.
    split; [do 4 f_equal; cbn [length]; lia|]. split; [do 4 f_equal; cbn [length]; lia|]. split; [rewrite dump_strW_chars; cbn [fst]; by rewrite <-app_assoc|].
    split; [cbn [length]; lia|]. intros Hb rest. inversion Hl' as [|? k2 l2 Hk2 Hl2]; subst. cbn [length] in Hd |- *. unfold own. rewrite <-!app_assoc.
    rewrite dump_parents_SS, read_name by lia. rewrite some_bind. cbn beta iota. rewrite (Hd ltac:(lia)). rewrite some_bind. cbn beta iota. by rewrite client_name.
  - inversion Hl'; subst. exists own, (dump_chars (91, 93) (k_name k)). rewrite !some_bind, dump_strW_chars. cbn [fst length app].
    split_and!; [done|done|done|lia|]. intros Hb rest. cbn [dump_parents]. unfold own. rewrite <-app_assoc, read_name by lia. rewrite some_bind. by rewrite client_name.
Qed.
End client.

(** ** Files *)

(** The lines above the sections. *)
Definition file_head (path : list Z) (p : prefix_type) : list Z :=
  chars "WINE REGISTRY Version 2" ++ [10] ++ chars ";; All keys relative to " ++ path ++ [10] ++ dump_arch p.

(** The lines of a section above the values. *)
Definition section_head (x : section) : list Z :=
  let k := snd x in
  [10; 91] ++ fst (dump_strW (join (fst x)) (91, 93)) ++ chars "] " ++ fmt_u (unix_time (modif k)) ++ [10] ++ dump_times (modif k) ++ dump_class (k_class k) ++
  (if has_bits (k_flags k) KEY_SYMLINK then chars "#link" ++ [10] else []).

(** A file with the values written by [f]. *)
Definition file_text (path : list Z) (p : prefix_type) (f : key_value -> list Z) (secs : list section) : list Z :=
  file_head path p ++ concat ((fun x => section_head x ++ concat (f <$> values (snd x))) <$> secs).

Lemma server_file path p secs : file_text path p dump_value secs = file_head path p ++ concat (section_text <$> secs).
Proof.
  unfold file_text. do 2 f_equal. apply list_fmap_ext. intros i [q k] _. unfold section_head, section_text, dump_section. cbn [fst snd]. by rewrite <-!app_assoc.
Qed.

Lemma client_file path p secs : file_text path p plain_value secs = file_head path p ++ concat (plain_text <$> secs).
Proof.
  unfold file_text. do 2 f_equal. apply list_fmap_ext. intros i [q k] _. unfold section_head, plain_text. cbn [fst snd]. by rewrite <-!app_assoc.
Qed.

Lemma prefix_read p : prefix_of_value (prefix_value p) = p /\ 0 <= prefix_value p < 2 ^ 31.
Proof. by destruct p. Qed.

Lemma clean_names_branch : names_clean branch_registry.
Proof. intros b k H. each_key H; (split; [small_list|done]). Qed.

Lemma branch_snapshots : snapshots_ok no_case branch_registry 1.
Proof.
  destruct branch_registry_ok as (_ & _ & Hw). intros q b k Hb H Hv. pose proof (Hw q b k Hb H) as W. pose proof (clean_names_branch b k H) as Hc.
  split; [apply W| |done| |]; clear W Hc; each_key H; try (by vm_compute); try (split; by vm_compute).
  all: repeat (apply List.Forall_cons; [by vm_compute|]); apply List.Forall_nil.
Qed.

(** ** Where the files differ *)

(** The file that the process writes for the key 1. *)
Definition flushed (r : registry) : option (list Z) :=
  '(_, bytes) ← save_registry r 1 PREFIX_UNKNOWN true; '(text, _) ← client_save_all_subkeys bytes; Some text.

(** Load a file below a key of its own. *)
Definition loaded_from (text : list Z) : option registry :=
  match load_keys no_case next_addr no_links 1 single_registry 1 text 0 PREFIX_UNKNOWN (mk_senv 0 []) with
  | Some ((r, _), _) => Some r
  | None => None
  end.

(** The values a and b, set in the order b, a. *)
Definition reverse_order : registry := one_key (timed_key [82] None None [] [mk_value [97] REG_BINARY [1] 1; mk_value [98] REG_BINARY [2] 0] 0).

Definition volatile_root : registry := one_key (timed_key [82] None None [] [] KEY_VOLATILE).

(** What the process writes for keys that it copies faithfully. *)
Lemma client_sections_both r secs : (forall x, x ∈ secs -> needs_snapshot r (snd x) = needs_section (snd x) || only_volatile r (snd x)) ->
  client_sections r secs = filter (fun x => needs_section (snd x) || only_volatile r (snd x) = true) secs.
Proof.
  intros H. unfold client_sections. induction secs as [|x secs IH]; [done|]. rewrite !filter_cons, <-(H x ltac:(left)).
  destruct (needs_snapshot r (snd x)); [rewrite !decide_True by done; f_equal|rewrite !decide_False by done]; apply IH; intros y Hy; apply H; by right.
Qed.

(** C23: the snapshot of a branch is as long as the server announced, and the file
    that the process writes from it, whatever follows the snapshot, has the same
    sections as the file that the server would write, with the same keys in the same
    order and the same times, classes and data, and one more for every key without a
    section whose subkeys are all volatile: the server counts volatile subkeys and the
    snapshot does not, so that such a key is lost when the server saves and kept when
    the process does.  The places of the values in the enumeration are missing: after
    a flush and a restart values are enumerated by name.  The snapshot of a volatile
    key holds no key, and the process reads behind its end; a NUL at the end of a name
    is written by the server only, and keys older than 1970 get another time.  Names
    without a NUL at the end, times from 1970 on and classes that are not empty are
    assumed for the comparison, and fewer than 2^31 bytes and keys. *)
Theorem registry_snapshot_equivalence casemap r a k p :
  reg_ok casemap r -> keys r !! a = Some k -> volatile k = false -> names_clean r -> snapshots_ok casemap r a -> Z.of_nat (size (keys r)) < 2 ^ 31 ->
  (exists bytes path secs,
    (forall x, x ∈ secs <-> exists b, named r a (fst x) b /\ keys r !! b = Some (snd x) /\ volatile (snd x) = false) /\
    save_registry r a p true = Some (u32 (Z.of_nat (length bytes)), bytes) /\ save_registry r a p false = Some (u32 (Z.of_nat (length bytes)), []) /\
    save_all_subkeys r a p = Some (file_text path p dump_value (filter (fun x => needs_section (snd x) = true) secs)) /\
    (Z.of_nat (length bytes) < 2 ^ 31 -> forall rest, client_save_all_subkeys (bytes ++ rest) =
       Some (file_text path p plain_value (filter (fun x => needs_section (snd x) || only_volatile r (snd x) = true) secs), rest))) /\
  (r' ← reloaded volatile_leaf; k ← keys r' !! 1; Some (length (subkeys k))) = Some 0%nat /\
  (text ← flushed volatile_leaf; r' ← loaded_from text; k ← keys r' !! 1; Some (length (subkeys k))) = Some 1%nat /\
  (text ← flushed reverse_order; r' ← loaded_from text; k ← keys r' !! 1; Some (v_order <$> values k)) = Some [0; 1] /\
  (r' ← reloaded reverse_order; k ← keys r' !! 1; Some (v_order <$> values k)) = Some [1; 0] /\
  fst <$> save_registry volatile_root 1 PREFIX_64BIT true = Some 14 /\
  (x ← save_registry volatile_root 1 PREFIX_64BIT true; client_save_all_subkeys (snd x)) = None /\
  fst (dump_strW [97; 0] (91, 93)) = [97; 92; 48] /\ fst (client_dump_strW [97; 0] (91, 93)) = [97] /\
  unix_time 10000001 = 1240428290 /\ client_unix_time 10000001 = 3373865675.
Proof.
  intros R Hk Hv Hn Hok Hs. split; [|split_and!; vm_compute; reflexivity]. destruct (ro_chains _ _ R a ltac:(by eexists)) as [l Hl]. pose proof (parents_length _ _ _ Hl) as Hlen.
  destruct (parents_run r (size (keys r)) Hn a l 8 Hl Hlen) as (pbytes & path & P1 & P2 & P3 & P4 & P5).
  assert (length l <> 0)%nat as Hl0 by (by inversion Hl).
  destruct (client_run casemap r a (size (keys r)) R Hok Hs a [] l k (named_base _ _) Hl ltac:(lia) Hk Hv) as (kbytes & secs & K1 & K2 & K3 & K4).
  destruct (save_run casemap r a (size (keys r)) R ltac:(by eexists) a [] l (named_base _ _) Hl ltac:(lia)) as (secs' & S1 & S2 & _).
  rewrite saved_walked, K3 in S2. injection S2 as <-. destruct (prefix_read p) as [Ep Hp].
  pose proof (walked_elem casemap r _ R a [] k secs Hk K3) as Hel.
  exists (int_bytes 4 (prefix_value p) ++ int_bytes 4 (Z.of_nat (length l)) ++ pbytes ++ kbytes), path, secs.
  assert (u32 (u32 (8 + Z.of_nat (length pbytes)) + u32 (Z.of_nat (length kbytes))) =
          u32 (Z.of_nat (length (int_bytes 4 (prefix_value p) ++ int_bytes 4 (Z.of_nat (length l)) ++ pbytes ++ kbytes)))) as Esz.
  { rewrite u32_add, !length_app, !int_bytes_length. f_equal. lia. }
  split; [intros x; rewrite Hel; split; [intros (q & b & -> & ?); by exists b|intros (b & ?); by exists (fst x), b]|].
  rewrite <-client_sections_both.
  2: { intros x (q & b & _ & Hq & Hb & Hvb)%Hel. apply (needs_both casemap). by apply (Hok q b). }
  unfold save_registry. change (4 + 4) with (u32 8). rewrite P1, P2, !some_bind. cbn beta iota. rewrite K1, K2, !some_bind. cbn beta iota. rewrite Esz.
  split; [done|]. split; [done|]. split; [unfold save_all_subkeys; rewrite P3, S1, !some_bind, server_file; unfold file_head; by rewrite <-!app_assoc|].
  rewrite !length_app, !int_bytes_length. intros Hb rest. unfold client_save_all_subkeys. rewrite <-!app_assoc, read_int_app by done. rewrite some_bind. cbn beta iota.
  rewrite read_int_app by lia. rewrite some_bind. cbn beta iota. rewrite Nat2Z.id, P5 by lia. rewrite some_bind. cbn beta iota.
  rewrite K4; [|lia|rewrite length_app; lia|by left]. rewrite some_bind. cbn beta iota. rewrite Ep, client_file. unfold file_head. by rewrite <-!app_assoc.
Qed.

Lemma registry_snapshot_equivalence_witness :
  exists bytes path secs, save_registry branch_registry 1 PREFIX_64BIT true = Some (211, bytes) /\
    save_all_subkeys branch_registry 1 PREFIX_64BIT = Some (file_text path PREFIX_64BIT dump_value (filter (fun x => needs_section (snd x) = true) secs)) /\
    client_save_all_subkeys (bytes ++ [5]) =
      Some (file_text path PREFIX_64BIT plain_value (filter (fun x => needs_section (snd x) || only_volatile branch_registry (snd x) = true) secs), [5]).
Proof.
  destruct (registry_snapshot_equivalence no_case branch_registry 1 (timed_key [82] None None [2; 3] [] 0) PREFIX_64BIT) as [(bytes & path & secs & _ & H1 & H2 & H3 & H4) _].
  - apply branch_registry_ok.
  - reflexivity.
  - reflexivity.
  - exact clean_names_branch.
  - exact branch_snapshots.
  - vm_compute. reflexivity.
  - assert (fst <$> save_registry branch_registry 1 PREFIX_64BIT true = Some 211) as Hs by (vm_compute; reflexivity).
    assert (length ∘ snd <$> save_registry branch_registry 1 PREFIX_64BIT true = Some 211%nat) as Hl by (vm_compute; reflexivity).
    rewrite H1 in Hs, Hl. injection Hs as Hs. injection Hl as Hl. exists bytes, path, secs. split; [rewrite H1, Hs; reflexivity|]. split; [exact H3|].
    apply H4. rewrite Hl. reflexivity.
Defined.
