(* ===== verification/Windows.v ===== *)
(** * Windows: server/window.c

    The tree of windows with their order on the screen (the Z-order), their
    rectangles and styles, and the questions that only read it.  A pointer to a
    window is an address in [wins].  The [entry] of a window is on one of the two
    lists of its parent, [children] or [unlinked]; a list is given by its entries
    in order, and taking an entry off "its" list takes it off whatever list it is
    on, as list_remove does.  Desktops are those of winstation.c, reduced to their
    two root windows; of the message queue of a thread there is what paint
    messages need.  A null or dangling pointer is [None]. *)

From Stdlib Require Import ZArith Lia.
From stdpp Require Import base list numbers option gmap.
From S2P Require Import Prelude Region UserHandles.

#[local] Open Scope Z_scope.

(** ** Data *)

(** class.c: what windows read of their class. *)
Record window_class := mk_class {
  c_style : Z;
  c_atom : Z
}.

Inductive property_type :=
  | PROP_TYPE_FREE
  | PROP_TYPE_STRING
  | PROP_TYPE_ATOM.

#[export] Instance property_type_eq_dec : EqDecision property_type.
Proof. solve_decision. Defined.

(** A window property. *)
Record property := mk_prop {
  p_type : property_type;
  p_atom : Z;
  p_data : Z
}.

(** The fields that do not matter to the tree and to painting.  [d_props] is the part
    of the array of properties that is in use; [d_extra] are the extra bytes. *)
Record window_data := mk_data {
  d_id : Z;
  d_instance : Z;
  d_is_unicode : Z;
  d_user_data : Z;
  d_text : list Z;
  d_color_key : Z;
  d_alpha : Z;
  d_props : list property;
  d_prop_alloc : Z;
  d_extra : list Z
}.

Record window := mk_window {
  w_parent : option Z;
  w_owner : Z;
  w_children : list Z;
  w_unlinked : list Z;
  w_handle : Z;
  w_thread : option Z;
  w_desktop : Z;
  w_class : option window_class;
  w_last_active : Z;
  w_window_rect : rectangle_t;
  w_visible_rect : rectangle_t;
  w_surface_rect : rectangle_t;
  w_client_rect : rectangle_t;
  w_win_region : option region;
  w_update_region : option region;
  w_style : Z;
  w_ex_style : Z;
  w_is_linked : bool;
  w_is_layered : bool;
  w_is_orphan : bool;
  w_layered_flags : Z;
  w_dpi : Z;
  w_dpi_awareness : Z;
  w_paint_flags : Z;
  w_data : window_data;
  w_refcount : Z
}.

Definition set_parent (w : window) (x : option Z) : window :=
  mk_window x (w_owner w) (w_children w) (w_unlinked w) (w_handle w) (w_thread w)
            (w_desktop w) (w_class w) (w_last_active w) (w_window_rect w) (w_visible_rect w)
            (w_surface_rect w) (w_client_rect w) (w_win_region w) (w_update_region w) (w_style w)
            (w_ex_style w) (w_is_linked w) (w_is_layered w) (w_is_orphan w) (w_layered_flags w)
            (w_dpi w) (w_dpi_awareness w) (w_paint_flags w) (w_data w) (w_refcount w).

Definition set_owner (w : window) (x : Z) : window :=
  mk_window (w_parent w) x (w_children w) (w_unlinked w) (w_handle w) (w_thread w)
            (w_desktop w) (w_class w) (w_last_active w) (w_window_rect w) (w_visible_rect w)
            (w_surface_rect w) (w_client_rect w) (w_win_region w) (w_update_region w) (w_style w)
            (w_ex_style w) (w_is_linked w) (w_is_layered w) (w_is_orphan w) (w_layered_flags w)
            (w_dpi w) (w_dpi_awareness w) (w_paint_flags w) (w_data w) (w_refcount w).

Definition set_lists (w : window) (c : list Z) (u : list Z) : window :=
  mk_window (w_parent w) (w_owner w) c u (w_handle w) (w_thread w) (w_desktop w)
            (w_class w) (w_last_active w) (w_window_rect w) (w_visible_rect w) (w_surface_rect w)
            (w_client_rect w) (w_win_region w) (w_update_region w) (w_style w) (w_ex_style w)
            (w_is_linked w) (w_is_layered w) (w_is_orphan w) (w_layered_flags w) (w_dpi w)
            (w_dpi_awareness w) (w_paint_flags w) (w_data w) (w_refcount w).

Definition set_last_active (w : window) (x : Z) : window :=
  mk_window (w_parent w) (w_owner w) (w_children w) (w_unlinked w) (w_handle w)
            (w_thread w) (w_desktop w) (w_class w) x (w_window_rect w) (w_visible_rect w)
            (w_surface_rect w) (w_client_rect w) (w_win_region w) (w_update_region w) (w_style w)
            (w_ex_style w) (w_is_linked w) (w_is_layered w) (w_is_orphan w) (w_layered_flags w)
            (w_dpi w) (w_dpi_awareness w) (w_paint_flags w) (w_data w) (w_refcount w).

Definition set_rects (w : window) (wr : rectangle_t) (vr : rectangle_t) (sr : rectangle_t) (cr : rectangle_t) : window :=
  mk_window (w_parent w) (w_owner w) (w_children w) (w_unlinked w) (w_handle w)
            (w_thread w) (w_desktop w) (w_class w) (w_last_active w) wr vr sr cr (w_win_region w)
            (w_update_region w) (w_style w) (w_ex_style w) (w_is_linked w) (w_is_layered w)
            (w_is_orphan w) (w_layered_flags w) (w_dpi w) (w_dpi_awareness w) (w_paint_flags w)
            (w_data w) (w_refcount w).

Definition set_win_region (w : window) (x : option region) : window :=
  mk_window (w_parent w) (w_owner w) (w_children w) (w_unlinked w) (w_handle w)
            (w_thread w) (w_desktop w) (w_class w) (w_last_active w) (w_window_rect w)
            (w_visible_rect w) (w_surface_rect w) (w_client_rect w) x (w_update_region w)
            (w_style w) (w_ex_style w) (w_is_linked w) (w_is_layered w) (w_is_orphan w)
            (w_layered_flags w) (w_dpi w) (w_dpi_awareness w) (w_paint_flags w) (w_data w)
            (w_refcount w).

Definition put_update_region (w : window) (x : option region) : window :=
  mk_window (w_parent w) (w_owner w) (w_children w) (w_unlinked w) (w_handle w)
            (w_thread w) (w_desktop w) (w_class w) (w_last_active w) (w_window_rect w)
            (w_visible_rect w) (w_surface_rect w) (w_client_rect w) (w_win_region w) x (w_style w)
            (w_ex_style w) (w_is_linked w) (w_is_layered w) (w_is_orphan w) (w_layered_flags w)
            (w_dpi w) (w_dpi_awareness w) (w_paint_flags w) (w_data w) (w_refcount w).

Definition set_style (w : window) (x : Z) : window :=
  mk_window (w_parent w) (w_owner w) (w_children w) (w_unlinked w) (w_handle w)
            (w_thread w) (w_desktop w) (w_class w) (w_last_active w) (w_window_rect w)
            (w_visible_rect w) (w_surface_rect w) (w_client_rect w) (w_win_region w)
            (w_update_region w) x (w_ex_style w) (w_is_linked w) (w_is_layered w) (w_is_orphan w)
            (w_layered_flags w) (w_dpi w) (w_dpi_awareness w) (w_paint_flags w) (w_data w)
            (w_refcount w).

Definition set_ex_style (w : window) (x : Z) : window :=
  mk_window (w_parent w) (w_owner w) (w_children w) (w_unlinked w) (w_handle w)
            (w_thread w) (w_desktop w) (w_class w) (w_last_active w) (w_window_rect w)
            (w_visible_rect w) (w_surface_rect w) (w_client_rect w) (w_win_region w)
            (w_update_region w) (w_style w) x (w_is_linked w) (w_is_layered w) (w_is_orphan w)
            (w_layered_flags w) (w_dpi w) (w_dpi_awareness w) (w_paint_flags w) (w_data w)
            (w_refcount w).

Definition set_is_linked (w : window) (x : bool) : window :=
  mk_window (w_parent w) (w_owner w) (w_children w) (w_unlinked w) (w_handle w)
            (w_thread w) (w_desktop w) (w_class w) (w_last_active w) (w_window_rect w)
            (w_visible_rect w) (w_surface_rect w) (w_client_rect w) (w_win_region w)
            (w_update_region w) (w_style w) (w_ex_style w) x (w_is_layered w) (w_is_orphan w)
            (w_layered_flags w) (w_dpi w) (w_dpi_awareness w) (w_paint_flags w) (w_data w)
            (w_refcount w).

Definition set_is_layered (w : window) (x : bool) : window :=
  mk_window (w_parent w) (w_owner w) (w_children w) (w_unlinked w) (w_handle w)
            (w_thread w) (w_desktop w) (w_class w) (w_last_active w) (w_window_rect w)
            (w_visible_rect w) (w_surface_rect w) (w_client_rect w) (w_win_region w)
            (w_update_region w) (w_style w) (w_ex_style w) (w_is_linked w) x (w_is_orphan w)
            (w_layered_flags w) (w_dpi w) (w_dpi_awareness w) (w_paint_flags w) (w_data w)
            (w_refcount w).

Definition set_is_orphan (w : window) (x : bool) : window :=
  mk_window (w_parent w) (w_owner w) (w_children w) (w_unlinked w) (w_handle w)
            (w_thread w) (w_desktop w) (w_class w) (w_last_active w) (w_window_rect w)
            (w_visible_rect w) (w_surface_rect w) (w_client_rect w) (w_win_region w)
            (w_update_region w) (w_style w) (w_ex_style w) (w_is_linked w) (w_is_layered w) x
            (w_layered_flags w) (w_dpi w) (w_dpi_awareness w) (w_paint_flags w) (w_data w)
            (w_refcount w).

Definition set_layered_flags (w : window) (x : Z) : window :=
  mk_window (w_parent w) (w_owner w) (w_children w) (w_unlinked w) (w_handle w)
            (w_thread w) (w_desktop w) (w_class w) (w_last_active w) (w_window_rect w)
            (w_visible_rect w) (w_surface_rect w) (w_client_rect w) (w_win_region w)
            (w_update_region w) (w_style w) (w_ex_style w) (w_is_linked w) (w_is_layered w)
            (w_is_orphan w) x (w_dpi w) (w_dpi_awareness w) (w_paint_flags w) (w_data w)
            (w_refcount w).

Definition set_dpi (w : window) (x : Z) (y : Z) : window :=
  mk_window (w_parent w) (w_owner w) (w_children w) (w_unlinked w) (w_handle w)
            (w_thread w) (w_desktop w) (w_class w) (w_last_active w) (w_window_rect w)
            (w_visible_rect w) (w_surface_rect w) (w_client_rect w) (w_win_region w)
            (w_update_region w) (w_style w) (w_ex_style w) (w_is_linked w) (w_is_layered w)
            (w_is_orphan w) (w_layered_flags w) x y (w_paint_flags w) (w_data w) (w_refcount w).

Definition set_paint_flags (w : window) (x : Z) : window :=
  mk_window (w_parent w) (w_owner w) (w_children w) (w_unlinked w) (w_handle w)
            (w_thread w) (w_desktop w) (w_class w) (w_last_active w) (w_window_rect w)
            (w_visible_rect w) (w_surface_rect w) (w_client_rect w) (w_win_region w)
            (w_update_region w) (w_style w) (w_ex_style w) (w_is_linked w) (w_is_layered w)
            (w_is_orphan w) (w_layered_flags w) (w_dpi w) (w_dpi_awareness w) x (w_data w)
            (w_refcount w).

Definition set_data (w : window) (x : window_data) : window :=
  mk_window (w_parent w) (w_owner w) (w_children w) (w_unlinked w) (w_handle w)
            (w_thread w) (w_desktop w) (w_class w) (w_last_active w) (w_window_rect w)
            (w_visible_rect w) (w_surface_rect w) (w_client_rect w) (w_win_region w)
            (w_update_region w) (w_style w) (w_ex_style w) (w_is_linked w) (w_is_layered w)
            (w_is_orphan w) (w_layered_flags w) (w_dpi w) (w_dpi_awareness w) (w_paint_flags w) x
            (w_refcount w).

Definition set_refcount (w : window) (x : Z) : window :=
  mk_window (w_parent w) (w_owner w) (w_children w) (w_unlinked w) (w_handle w)
            (w_thread w) (w_desktop w) (w_class w) (w_last_active w) (w_window_rect w)
            (w_visible_rect w) (w_surface_rect w) (w_client_rect w) (w_win_region w)
            (w_update_region w) (w_style w) (w_ex_style w) (w_is_linked w) (w_is_layered w)
            (w_is_orphan w) (w_layered_flags w) (w_dpi w) (w_dpi_awareness w) (w_paint_flags w)
            (w_data w) x.

Record desktop := mk_desktop {
  top_window : option Z;
  msg_window : option Z
}.

(** struct msg_queue of queue.c, as far as paint messages go. *)
Record msg_queue := mk_queue {
  paint_count : Z;
  wake_bits : Z;
  changed_bits : Z
}.

(** What windows ask of other parts of the server, in order. *)
Inductive call :=
  | attach_thread_input (from to : Z)
  | set_clip_rectangle (desktop : Z)
  | update_cursor_pos (desktop : Z).

Record wstate := mk_ws {
  wins : gmap Z window;
  users : user_state;
  desktops : gmap Z desktop;
  queues : gmap Z msg_queue;
  calls : list call
}.

Definition set_wins (s : wstate) (m : gmap Z window) : wstate :=
  mk_ws m (users s) (desktops s) (queues s) (calls s).

Definition set_queues (s : wstate) (q : gmap Z msg_queue) : wstate :=
  mk_ws (wins s) (users s) (desktops s) q (calls s).

Definition add_call (s : wstate) (c : call) : wstate :=
  mk_ws (wins s) (users s) (desktops s) (queues s) (calls s ++ [c]).

Definition upd (s : wstate) (a : Z) (f : window -> window) : wstate :=
  set_wins s (alter f a (wins s)).

Definition WS_POPUP : Z := 0x80000000.
Definition WS_CHILD : Z := 0x40000000.
Definition WS_MINIMIZE : Z := 0x20000000.
Definition WS_VISIBLE : Z := 0x10000000.
Definition WS_DISABLED : Z := 0x08000000.
Definition WS_CLIPSIBLINGS : Z := 0x04000000.
Definition WS_CLIPCHILDREN : Z := 0x02000000.
Definition WS_EX_TOPMOST : Z := 0x00000008.
Definition WS_EX_TRANSPARENT : Z := 0x00000020.
Definition WS_EX_LAYERED : Z := 0x00080000.
Definition WS_EX_LAYOUTRTL : Z := 0x00400000.
Definition WS_EX_COMPOSITED : Z := 0x02000000.
Definition CS_PARENTDC : Z := 0x0080.
Definition USER_DEFAULT_SCREEN_DPI : Z := 96.
Definition LWA_COLORKEY : Z := 0x00000001.
Definition QS_PAINT : Z := 0x0020.

Definition PAINT_HAS_SURFACE : Z := 0x0001.
Definition PAINT_HAS_PIXEL_FORMAT : Z := 0x0002.
Definition PAINT_CLIENT_FLAGS : Z := Z.lor PAINT_HAS_SURFACE PAINT_HAS_PIXEL_FORMAT.
Definition PAINT_INTERNAL : Z := 0x0010.
Definition PAINT_ERASE : Z := 0x0020.
Definition PAINT_NONCLIENT : Z := 0x0040.
Definition PAINT_DELAYED_ERASE : Z := 0x0080.
Definition PAINT_PIXEL_FORMAT_CHILD : Z := 0x0100.

(** [x &= ~bits]. *)
Definition clear_bits (x bits : Z) : Z := Z.ldiff x bits.

(** [(x & mask) == value]. *)
Definition bits_are (x mask value : Z) : bool := Z.land x mask =? value.

Definition visible (w : window) : bool := has_bits (w_style w) WS_VISIBLE.

Definition topmost (w : window) : bool := has_bits (w_ex_style w) WS_EX_TOPMOST.

(** ** Computations on the windows *)

(** State passing over the windows and the request environment; [None] is undefined
    behaviour or a loop that runs out of fuel. *)
Definition W (A : Type) : Type := wstate * senv -> option (A * (wstate * senv)).

#[export] Instance W_ret : MRet W := fun A a st => Some (a, st).

#[export] Instance W_bind : MBind W :=
  fun A B k m st => match m st with None => None | Some (a, st') => k a st' end.

Definition wget : W wstate := fun st => Some (st.1, st).

Definition wput (s : wstate) : W unit := fun st => Some (tt, (s, st.2)).

Definition wopt {A} (o : option A) : W A := fun st => a ← o; Some (a, st).

Definition lift {A} (m : M A) : W A := fun st => let '(a, e) := m st.2 in Some (a, (st.1, e)).

(** Routines of region.c that may run out of fuel. *)
Definition lift_op {A} (m : M (option A)) : W A :=
  fun st => match m st.2 with (None, _) => None | (Some a, e) => Some (a, (st.1, e)) end.

(** A question about the windows. *)
Definition wask {A} (f : wstate -> option A) : W A := fun st => a ← f st.1; Some (a, st).

(** The window at an address. *)
Definition at_win (a : Z) : W window := wask (fun s => wins s !! a).

(** Change a window; a field of a dangling pointer cannot be set. *)
Definition wupd (a : Z) (f : window -> window) : W unit :=
  fun st => match wins st.1 !! a with
            | None => None
            | Some _ => Some (tt, (upd st.1 a f, st.2))
            end.

Definition wcall (c : call) : W unit := fun st => Some (tt, (add_call st.1 c, st.2)).

(** LIST_FOR_EACH_ENTRY over a list that the body does not change. *)
Fixpoint wfor (f : Z -> W unit) (l : list Z) : W unit :=
  match l with
  | [] => mret tt
  | c :: l => f c;; wfor f l
  end.

(** Enough for every walk up or down the tree. *)
Definition tree_fuel (s : wstate) : nat := S (base.size (wins s)).

(** ** Lists of windows (include/wine/list.h) *)

(** Neighbours of an entry: the head of a list, or another entry. *)
Inductive anchor :=
  | Children (p : Z)
  | Unlinked (p : Z)
  | Entry (b : Z).

#[export] Instance anchor_eq_dec : EqDecision anchor.
Proof. solve_decision. Defined.

Definition remove_entry (a : Z) (w : window) : window :=
  set_lists w (filter (fun x => x <> a) (w_children w)) (filter (fun x => x <> a) (w_unlinked w)).

Definition list_remove (s : wstate) (a : Z) : wstate := set_wins s (remove_entry a <$> wins s).

Fixpoint prev_in (hd : anchor) (l : list Z) (a : Z) : option anchor :=
  match l with
  | [] => None
  | x :: l => if decide (x = a) then Some hd else prev_in (Entry x) l a
  end.

Fixpoint next_in (hd : anchor) (l : list Z) (a : Z) : option anchor :=
  match l with
  | [] => None
  | x :: l => if decide (x = a) then Some (match l with [] => hd | y :: _ => Entry y end) else next_in hd l a
  end.

(** Apply [f] to the list that the entry is on. *)
Definition on_its_list (f : anchor -> list Z -> Z -> option anchor) (s : wstate) (a : Z) : option anchor :=
  head (omap (fun '(p, w) => match f (Children p) (w_children w) a with
                             | Some x => Some x
                             | None => f (Unlinked p) (w_unlinked w) a
                             end) (map_to_list (wins s))).

Definition entry_prev : wstate -> Z -> option anchor := on_its_list prev_in.

Definition entry_next : wstate -> Z -> option anchor := on_its_list next_in.

Fixpoint insert_after (b a : Z) (l : list Z) : list Z :=
  match l with
  | [] => []
  | x :: l => if decide (x = b) then x :: a :: l else x :: insert_after b a l
  end.

Definition insert_before (b a : Z) (l : list Z) : list Z := foldr (fun x r => if decide (x = b) then a :: x :: r else x :: r) [] l.

(** [b] has to be on a list. *)
Definition list_add_after (s : wstate) (b a : Z) : option wstate :=
  _ ← entry_prev s b;
  Some (set_wins s ((fun w => set_lists w (insert_after b a (w_children w)) (insert_after b a (w_unlinked w))) <$> wins s)).

Definition list_add_before (s : wstate) (b a : Z) : option wstate :=
  _ ← entry_prev s b;
  Some (set_wins s ((fun w => set_lists w (insert_before b a (w_children w)) (insert_before b a (w_unlinked w))) <$> wins s)).

(** ** Moving in the tree *)

Definition is_desktop_window (w : window) : bool := match w_parent w with None => true | Some _ => false end.

Fixpoint is_orphan_loop (n : nat) (s : wstate) (a : Z) : option bool :=
  match n with
  | O => None
  | S n =>
      w ← wins s !! a;
      if w_is_orphan w then Some true
      else match w_parent w with None => Some false | Some p => is_orphan_loop n s p end
  end.

Definition is_orphan_window (s : wstate) (a : Z) : option bool := is_orphan_loop (tree_fuel s) s a.

(** Next or previous entry as a window; a head that is not that of the children of the
    parent would be taken for a window. *)
Definition sibling (n : option anchor) (p : Z) : option (option Z) :=
  x ← n;
  match x with
  | Entry b => Some (Some b)
  | Children q => if q =? p then Some None else None
  | Unlinked _ => None
  end.

Definition get_next_window (s : wstate) (a : Z) : option (option Z) :=
  w ← wins s !! a;
  p ← w_parent w;
  sibling (entry_next s a) p.

Definition get_prev_window (s : wstate) (a : Z) : option (option Z) :=
  w ← wins s !! a;
  p ← w_parent w;
  sibling (entry_prev s a) p.

Definition get_first_child (w : window) : option Z := head (w_children w).

Definition get_last_child (w : window) : option Z := last (w_children w).

(** From the parent of the window up to below the root. *)
Fixpoint pixel_format_loop (n : nat) (s : wstate) (win : option Z) : option wstate :=
  match win with
  | None => Some s
  | Some a =>
      match n with
      | O => None
      | S n =>
          w ← wins s !! a;
          match w_parent w with
          | None => Some s
          | Some p =>
              pixel_format_loop n
                (upd s a (fun w => set_paint_flags w (Z.lor (w_paint_flags w) PAINT_PIXEL_FORMAT_CHILD)))
                (Some p)
          end
      end
  end.

Definition update_pixel_format_flags (s : wstate) (a : Z) : option wstate :=
  w ← wins s !! a;
  pixel_format_loop (tree_fuel s) s (w_parent w).

Fixpoint monitor_dpi_loop (n : nat) (s : wstate) (a : Z) : option Z :=
  match n with
  | O => None
  | S n =>
      w ← wins s !! a;
      match w_parent w with
      | Some p => monitor_dpi_loop n s p
      | None => Some (if negb (w_dpi w =? 0) then w_dpi w else USER_DEFAULT_SCREEN_DPI)
      end
  end.

Definition get_monitor_dpi (s : wstate) (a : Z) : option Z := monitor_dpi_loop (tree_fuel s) s a.

(** ** The Z-order *)

(** The argument [previous]: a magic pointer or a window. *)
Inductive winptr :=
  | WINPTR_TOP
  | WINPTR_BOTTOM
  | WINPTR_TOPMOST
  | WINPTR_NOTOPMOST
  | Previous (b : Z).

(** The loop of the WINPTR_TOP case, for a window that is not topmost: the entries
    above and below the place, and whether the owner was met. *)
Fixpoint find_top (s : wstate) (owner : Z) (l : list Z) : option (list Z * list Z * bool) :=
  match l with
  | [] => Some ([], [], false)
  | b :: l' =>
      next ← wins s !! b;
      if negb (topmost next) then Some ([], l, false)
      else if w_handle next =? owner then Some ([], l, true)
      else '(above, below, keep) ← find_top s owner l'; Some (b :: above, below, keep)
  end.

Definition set_topmost (w : window) : window := set_ex_style w (Z.lor (w_ex_style w) WS_EX_TOPMOST).

Definition clear_topmost (w : window) : window := set_ex_style w (clear_bits (w_ex_style w) WS_EX_TOPMOST).

Definition set_children (l : list Z) (w : window) : window := set_lists w l (w_unlinked w).

(** The window is off its list; put it at its new place. *)
Definition place_window (s : wstate) (a : Z) (previous : winptr) : option wstate :=
  w ← wins s !! a;
  p ← w_parent w;
  parent ← wins s !! p;
  match previous with
  | WINPTR_BOTTOM => Some (upd (upd s p (set_children (w_children parent ++ [a]))) a clear_topmost)
  | WINPTR_TOPMOST => Some (upd (upd s p (set_children (a :: w_children parent))) a set_topmost)
  | WINPTR_TOP | WINPTR_NOTOPMOST =>
      if topmost w then Some (upd s p (set_children (a :: w_children parent)))
      else
        '(above, below, keep) ← find_top s (w_owner w) (w_children parent);
        let s := upd s p (set_children (above ++ a :: below)) in
        Some (if keep : bool then upd s a set_topmost else s)
  | Previous b =>
      s ← list_add_after s b a;
      prev ← wins s !! b;
      if negb (topmost prev) then Some (upd s a clear_topmost)
      else
        next ← get_next_window s a;
        match next with
        | None => Some s
        | Some n => nw ← wins s !! n; Some (if topmost nw then upd s a set_topmost else s)
        end
  end.

(** The boolean says whether the place has changed. *)
Definition link_window (s : wstate) (a : Z) (previous : winptr) : option (wstate * bool) :=
  w ← wins s !! a;
  if (if previous is WINPTR_NOTOPMOST then negb (topmost w) && w_is_linked w else false) then Some (s, false)
  else
    let s := if previous is WINPTR_NOTOPMOST then upd s a clear_topmost else s in
    let old_prev := if w_is_linked w then entry_prev s a else None in
    s ← place_window (list_remove s a) a previous;
    let s := upd s a (fun w => set_is_linked w true) in
    Some (s, bool_decide (old_prev <> entry_prev s a)).

(** Is [a] the window [ptr] or one of its parents? *)
Fixpoint is_self_or_parent (n : nat) (s : wstate) (a : Z) (ptr : option Z) : option bool :=
  match ptr with
  | None => Some false
  | Some q =>
      if q =? a then Some true
      else match n with
           | O => None
           | S n => w ← wins s !! q; is_self_or_parent n s a (w_parent w)
           end
  end.

(** object.c, for the references that windows hold on their parents.  A window that
    loses its last reference is destroyed, which no routine below makes happen. *)
Definition grab_window (s : wstate) (a : Z) : wstate := upd s a (fun w => set_refcount w (w_refcount w + 1)).

Definition release_window (s : wstate) (a : Z) : option wstate :=
  w ← wins s !! a;
  if w_refcount w =? 1 then None else Some (upd s a (fun w => set_refcount w (w_refcount w - 1))).

(** What a window that has been linked takes over from its new parent. *)
Definition inherit_from_parent (s : wstate) (a parent : Z) : option wstate :=
  pw ← wins s !! parent;
  let s := if is_desktop_window pw then s
           else upd s a (fun w => set_dpi w (w_dpi pw) (w_dpi_awareness pw)) in
  w ← wins s !! a;
  s ← match w_thread pw with
      | Some t => if negb (bool_decide (w_thread w = Some t)) && negb (is_desktop_window pw)
                  then from ← w_thread w; Some (add_call s (attach_thread_input from t))
                  else Some s
      | None => Some s
      end;
  if has_bits (w_paint_flags w) (Z.lor PAINT_HAS_PIXEL_FORMAT PAINT_PIXEL_FORMAT_CHILD)
  then update_pixel_format_flags s a else Some s.

(** The part of set_parent_window for a new parent. *)
Definition attach_to_parent (s : wstate) (a parent : Z) : option wstate :=
  w ← wins s !! a;
  s ← match w_parent w with None => Some s | Some p => release_window s p end;
  let s := upd (grab_window s parent) a (fun w => set_parent w (Some parent)) in
  '(s, _) ← link_window s a WINPTR_TOP;
  inherit_from_parent s a parent.

(** The part for no parent: the window moves to the other list of its parent. *)
Definition detach_from_parent (s : wstate) (a : Z) : option wstate :=
  let s := list_remove s a in
  w ← wins s !! a;
  p ← w_parent w;
  _ ← wins s !! p;
  let s := upd s p (fun pw => set_lists pw (w_children pw) (a :: w_unlinked pw)) in
  Some (upd s a (fun w => set_is_orphan (set_is_linked w false) true)).

Definition set_parent_window (a : Z) (parent : option Z) : W bool :=
  below ← wask (fun s => is_self_or_parent (tree_fuel s) s a parent);
  if below : bool then lift (set_error STATUS_INVALID_PARAMETER);; mret false
  else
    s ← wask (fun s => match parent with
                       | Some p => attach_to_parent s a p
                       | None => detach_from_parent s a
                       end);
    wput s;; mret true.
