(* ===== verification/WindowQueries.v ===== *)
(** * Questions about windows: server/window.c

    Coordinates, visibility, the windows at a point, lists of windows and the choice
    of the window to repaint. *)

From Stdlib Require Import ZArith Lia.
From stdpp Require Import base list numbers option gmap.
From S2P Require Import Prelude Region UserHandles Windows.

#[local] Open Scope Z_scope.

(** ** Handles and owners *)

Definition user_window (s : wstate) (handle : Z) : option Z :=
  match get_user_object (users s) handle USER_WINDOW with
  | Some (Object a) => Some a
  | _ => None
  end.

Definition get_window (handle : Z) : W (option Z) :=
  s ← wget;
  match user_window s handle with
  | Some a => mret (Some a)
  | None => lift (set_win32_error ERROR_INVALID_WINDOW_HANDLE);; mret None
  end.

(** The walk from the child up, comparing parents. *)
Fixpoint is_child_loop (n : nat) (s : wstate) (parent child : Z) : option bool :=
  match n with
  | O => None
  | S n =>
      w ← wins s !! child;
      match w_parent w with
      | None => Some false
      | Some p => if p =? parent then Some true else is_child_loop n s parent p
      end
  end.

Definition is_child_window (s : wstate) (parent child : Z) : option bool :=
  match user_window s child, user_window s parent with
  | Some c, Some p => is_child_loop (tree_fuel s) s p c
  | _, _ => Some false
  end.

Definition is_valid_foreground_window (s : wstate) (handle : Z) : option bool :=
  match user_window s handle with
  | None => Some false
  | Some a => w ← wins s !! a; Some (negb (bits_are (w_style w) (Z.lor WS_POPUP WS_CHILD) WS_CHILD))
  end.

(** The window and its owners get a new last active popup. *)
Fixpoint active_loop (n : nat) (s : wstate) (last : Z) (owner : option Z) : option wstate :=
  match owner with
  | None => Some s
  | Some q =>
      match n with
      | O => None
      | S n =>
          w ← wins s !! q;
          let s := upd s q (fun w => set_last_active w last) in
          active_loop n s last (user_window s (w_owner w))
      end
  end.

Definition make_window_active (handle : Z) : W bool :=
  win ← get_window handle;
  match win with
  | None => mret false
  | Some a =>
      w ← at_win a;
      s ← wask (fun s => active_loop (tree_fuel s) s (w_handle w) (Some a));
      wput s;;
      mret true
  end.

(** ** Coordinates *)

Definition map_dpi_point (s : wstate) (a x y from to : Z) : option (Z * Z) :=
  from ← (if from =? 0 then get_monitor_dpi s a else Some from);
  to ← (if to =? 0 then get_monitor_dpi s a else Some to);
  Some (if from =? to then (x, y) else (scale_dpi x from to, scale_dpi y from to)).

Definition map_dpi_rect (s : wstate) (a : Z) (rect : rectangle_t) (from to : Z) : option rectangle_t :=
  from ← (if from =? 0 then get_monitor_dpi s a else Some from);
  to ← (if to =? 0 then get_monitor_dpi s a else Some to);
  Some (if from =? to then rect else scale_dpi_rect rect from to).

Definition map_dpi_region (s : wstate) (a : Z) (reg : region) (from to : Z) : option region :=
  from ← (if from =? 0 then get_monitor_dpi s a else Some from);
  to ← (if to =? 0 then get_monitor_dpi s a else Some to);
  Some (if from =? to then reg else scale_region reg from to).

(** The loop stops at the root, or at once for a null pointer. *)
Fixpoint client_to_screen_loop (n : nat) (s : wstate) (win : option Z) (x y : Z) : option (Z * Z) :=
  match win with
  | None => Some (x, y)
  | Some a =>
      match n with
      | O => None
      | S n =>
          w ← wins s !! a;
          if is_desktop_window w then Some (x, y)
          else client_to_screen_loop n s (w_parent w) (i32 (x + left (w_client_rect w))) (i32 (y + top (w_client_rect w)))
      end
  end.

Definition client_to_screen (s : wstate) (win : option Z) (x y : Z) : option (Z * Z) :=
  client_to_screen_loop (tree_fuel s) s win x y.

Fixpoint client_to_screen_rect_loop (n : nat) (s : wstate) (win : option Z) (rect : rectangle_t) : option rectangle_t :=
  match win with
  | None => Some rect
  | Some a =>
      match n with
      | O => None
      | S n =>
          w ← wins s !! a;
          if is_desktop_window w then Some rect
          else client_to_screen_rect_loop n s (w_parent w) (offset_rect rect (left (w_client_rect w)) (top (w_client_rect w)))
      end
  end.

Definition client_to_screen_rect (s : wstate) (win : option Z) (rect : rectangle_t) : option rectangle_t :=
  client_to_screen_rect_loop (tree_fuel s) s win rect.

Definition screen_to_client (s : wstate) (a x y dpi : Z) : option (Z * Z) :=
  w ← wins s !! a;
  if is_desktop_window w then Some (x, y)
  else
    '(offset_x, offset_y) ← client_to_screen s (Some a) 0 0;
    '(x, y) ← map_dpi_point s a x y dpi (w_dpi w);
    Some (i32 (x - offset_x), i32 (y - offset_y)).

(** ** Visibility *)

Fixpoint is_visible_loop (n : nat) (s : wstate) (a : Z) : option bool :=
  match n with
  | O => None
  | S n =>
      w ← wins s !! a;
      if negb (visible w) then Some false
      else
        match w_parent w with
        | None => Some true
        | Some p =>
            pw ← wins s !! p;
            if has_bits (w_style pw) WS_MINIMIZE then Some false else is_visible_loop n s p
        end
  end.

Definition is_visible (s : wstate) (a : Z) : option bool := is_visible_loop (tree_fuel s) s a.

Definition is_window_visible (s : wstate) (handle : Z) : option bool :=
  match user_window s handle with
  | None => Some false
  | Some a => is_visible s a
  end.

Definition layered_transparent (w : window) : bool :=
  bits_are (w_ex_style w) (Z.lor WS_EX_LAYERED WS_EX_TRANSPARENT) (Z.lor WS_EX_LAYERED WS_EX_TRANSPARENT).

Definition is_window_transparent (s : wstate) (handle : Z) : option bool :=
  match user_window s handle with
  | None => Some false
  | Some a => w ← wins s !! a; Some (layered_transparent w)
  end.

(** A child with a class that is gone cannot be asked for its style. *)
Definition is_window_using_parent_dc (w : window) : option bool :=
  if bits_are (w_style w) (Z.lor WS_POPUP WS_CHILD) WS_CHILD
  then c ← w_class w; Some (has_bits (c_style c) CS_PARENTDC)
  else Some false.

Definition is_window_composited (w : window) : option bool :=
  if has_bits (w_ex_style w) WS_EX_COMPOSITED
  then b ← is_window_using_parent_dc w; Some (negb b)
  else Some false.

Definition is_parent_composited (s : wstate) (w : window) : option bool :=
  match w_parent w with
  | None => Some false
  | Some p => pw ← wins s !! p; is_window_composited pw
  end.

(** ** Windows at a point *)

(** The point in the coordinates of the window, if it is inside. *)
Definition is_point_in_window (s : wstate) (a x y dpi : Z) : option (option (Z * Z)) :=
  w ← wins s !! a;
  if negb (visible w) then Some None
  else if bits_are (w_style w) (Z.lor (Z.lor WS_POPUP WS_CHILD) WS_DISABLED) (Z.lor WS_CHILD WS_DISABLED) then Some None
  else if layered_transparent w then Some None
  else
    '(x, y) ← map_dpi_point s a x y dpi (w_dpi w);
    if negb (point_in_rect (w_visible_rect w) x y) then Some None
    else
      match w_win_region w with
      | Some r =>
          if negb (point_in_region r (i32 (x - left (w_window_rect w))) (i32 (y - top (w_window_rect w))))
          then Some None else Some (Some (x, y))
      | None => Some (Some (x, y))
      end.

(** Does the search go on below the window? *)
Definition enters (w : window) (x y : Z) : bool :=
  negb (has_bits (w_style w) (Z.lor WS_MINIMIZE WS_DISABLED)) && point_in_rect (w_client_rect w) x y.

Fixpoint child_window_from_point (n : nat) (s : wstate) (parent x y : Z) : option Z :=
  match n with
  | O => None
  | S n =>
      pw ← wins s !! parent;
      (fix go (l : list Z) : option Z :=
         match l with
         | [] => Some parent
         | c :: l =>
             r ← is_point_in_window s c x y (w_dpi pw);
             match r with
             | None => go l
             | Some (xc, yc) =>
                 w ← wins s !! c;
                 if has_bits (w_style w) (Z.lor WS_MINIMIZE WS_DISABLED) then Some c
                 else if negb (point_in_rect (w_client_rect w) xc yc) then Some c
                 else child_window_from_point n s c (i32 (xc - left (w_client_rect w))) (i32 (yc - top (w_client_rect w)))
             end
         end) (w_children pw)
  end.

(** struct user_handle_array; the count is the length of [harray]. *)
Record user_handle_array := mk_array {
  harray : list Z;
  total : Z
}.

Definition add_handle_to_array (array : user_handle_array) (handle : Z) : M (user_handle_array * bool) :=
  bind (if total array <=? Z.of_nat (length (harray array)) then malloc else ret true) (fun ok =>
  if negb ok then bind (set_error STATUS_NO_MEMORY) (fun _ => ret (mk_array [] (total array), false))
  else
    let new_total := if total array <=? Z.of_nat (length (harray array)) then Z.max (total array * 2) 32 else total array in
    ret (mk_array (harray array ++ [handle]) new_total, true)).

Fixpoint get_window_children_from_point (n : nat) (parent x y : Z) (array : user_handle_array) :
    W (user_handle_array * bool) :=
  match n with
  | O => wopt None
  | S n =>
      pw ← at_win parent;
      (fix go (l : list Z) (array : user_handle_array) : W (user_handle_array * bool) :=
         match l with
         | [] => mret (array, true)
         | c :: l =>
             r ← wask (fun s => is_point_in_window s c x y (w_dpi pw));
             match r with
             | None => go l array
             | Some (xc, yc) =>
                 w ← at_win c;
                 '(array, ok) ← (if enters w xc yc
                                 then get_window_children_from_point n c (i32 (xc - left (w_client_rect w)))
                                        (i32 (yc - top (w_client_rect w))) array
                                 else mret (array, true));
                 if negb ok then mret (array, false)
                 else
                   '(array, ok) ← lift (add_handle_to_array array (w_handle w));
                   if negb ok then mret (array, false) else go l array
             end
         end) (w_children pw) array
  end.

Fixpoint first_at_point (s : wstate) (x y : Z) (l : list Z) : option (option Z) :=
  match l with
  | [] => Some None
  | c :: l =>
      r ← is_point_in_window s c x y 0;
      match r with
      | None => first_at_point s x y l
      | Some _ => w ← wins s !! c; Some (Some (w_handle w))
      end
  end.

Definition shallow_window_from_point (s : wstate) (d x y : Z) : option Z :=
  dk ← desktops s !! d;
  match top_window dk with
  | None => Some 0
  | Some t =>
      tw ← wins s !! t;
      r ← first_at_point s x y (w_children tw);
      Some (match r with Some h => h | None => w_handle tw end)
  end.

(** The thread of the window at a point; the reference taken on it is not counted. *)
Definition window_thread_from_point (s : wstate) (scope x y : Z) : option (option Z) :=
  match user_window s scope with
  | None => Some None
  | Some a =>
      '(x, y) ← screen_to_client s a x y 0;
      b ← child_window_from_point (tree_fuel s) s a x y;
      w ← wins s !! b;
      Some (w_thread w)
  end.

Definition all_windows_from_point (t x y dpi : Z) (array : user_handle_array) : W (user_handle_array * bool) :=
  w ← at_win t;
  '(x, y, dpi) ← wask (fun s =>
     match w_parent w with
     | None => Some (x, y, dpi)
     | Some p =>
         pw ← wins s !! p;
         if is_desktop_window pw then Some (x, y, dpi)
         else '(x, y) ← screen_to_client s p x y dpi; Some (x, y, w_dpi pw)
     end);
  r ← wask (fun s => is_point_in_window s t x y dpi);
  match r with
  | None => mret (array, true)
  | Some (x, y) =>
      '(array, ok) ← (if enters w x y
                      then
                        n ← wask (fun s => Some (tree_fuel s));
                        if is_desktop_window w then get_window_children_from_point n t x y array
                        else get_window_children_from_point n t (i32 (x - left (w_client_rect w)))
                               (i32 (y - top (w_client_rect w))) array
                      else mret (array, true));
      if negb ok then mret (array, false)
      else lift (add_handle_to_array array (w_handle w))
  end.

(** ** Lists of windows *)

(** The handles written so far and the number counted. *)
Definition append_window_to_list (w : window) (thread : option Z) (acc : list Z * Z) (max_count : Z) : list Z * Z :=
  let '(handles, count) := acc in
  if (if thread is Some t then negb (bool_decide (w_thread w = Some t)) else false) then acc
  else ((if count <? max_count then handles ++ [w_handle w] else handles), count + 1).

(** Append the windows of a list, each followed by what [below] appends for it. *)
Fixpoint append_all (s : wstate) (thread : option Z) (max_count : Z)
    (below : Z -> list Z * Z -> option (list Z * Z)) (l : list Z) (acc : list Z * Z) : option (list Z * Z) :=
  match l with
  | [] => Some acc
  | c :: l =>
      w ← wins s !! c;
      acc ← below c (append_window_to_list w thread acc max_count);
      append_all s thread max_count below l acc
  end.

(** The recursive case: all descendants, in order. *)
Fixpoint list_descendants (n : nat) (s : wstate) (thread : option Z) (max_count a : Z) (acc : list Z * Z) :
    option (list Z * Z) :=
  match n with
  | O => None
  | S n =>
      w ← wins s !! a;
      append_all s thread max_count (fun c acc => list_descendants n s thread max_count c acc) (w_children w) acc
  end.

(** The entries of a list from [a] on. *)
Fixpoint from_entry (a : Z) (l : list Z) : list Z :=
  match l with
  | [] => []
  | x :: l' => if decide (x = a) then l else from_entry a l'
  end.

(** [desktop_win] is the desktop window of the current thread.  The siblings of a window
    that is not linked end at the head of another list, which is taken for a window. *)
Definition get_window_list (s : wstate) (desktop_win : option Z) (d : option Z) (win : option Z) (thread : option Z)
    (children : bool) (max_count : Z) : option (list Z * Z) :=
  let children_of a := w ← wins s !! a; append_all s thread max_count (fun _ acc => Some acc) (w_children w) ([], 0) in
  match d, win with
  | Some d, _ =>
      if children then Some ([], 0)
      else
        dk ← desktops s !! d;
        match top_window dk with None => Some ([], 0) | Some t => children_of t end
  | None, None => match desktop_win with None => Some ([], 0) | Some t => children_of t end
  | None, Some a =>
      if children then list_descendants (tree_fuel s) s thread max_count a ([], 0)
      else
        w ← wins s !! a;
        match w_parent w with
        | Some p =>
            pw ← wins s !! p;
            if w_is_linked w then append_all s thread max_count (fun _ acc => Some acc) (from_entry a (w_children pw)) ([], 0)
            else None
        | None =>
            let acc := append_window_to_list w thread ([], 0) max_count in
            dk ← desktops s !! w_desktop w;
            match msg_window dk with
            | Some m =>
                if bool_decide (top_window dk = Some a)
                then mw ← wins s !! m; Some (append_window_to_list mw thread acc max_count)
                else Some acc
            | None => Some acc
            end
        end
  end.

(** The handles of the children with that class and thread ([0] for any); without a
    buffer ([None]) they are only counted. *)
Fixpoint get_children_windows (s : wstate) (atom tid : Z) (max_count : option Z) (l : list Z) (handles : list Z) (count : Z) :
    option (list Z * Z) :=
  match l with
  | [] => Some (handles, count)
  | c :: l =>
      w ← wins s !! c;
      skip ← (if negb (atom =? 0) then cl ← w_class w; Some (negb (c_atom cl =? atom)) else Some false);
      if skip : bool then get_children_windows s atom tid max_count l handles count
      else
        skip ← (if negb (tid =? 0) then t ← w_thread w; Some (negb (t =? tid)) else Some false);
        if skip : bool then get_children_windows s atom tid max_count l handles count
        else
          match max_count with
          | Some m =>
              if m <=? count then Some (handles, count)
              else get_children_windows s atom tid max_count l (handles ++ [w_handle w]) (count + 1)
          | None => get_children_windows s atom tid max_count l handles (count + 1)
          end
  end.

(** ** The window to repaint *)

Definition win_needs_repaint (w : window) : bool :=
  (if w_update_region w is Some _ then true else false) || has_bits (w_paint_flags w) PAINT_INTERNAL.

(** The siblings below a transparent window, for one that is not. *)
Fixpoint sibling_to_repaint (n : nat) (s : wstate) (thread a : Z) : option (option Z) :=
  match n with
  | O => None
  | S n =>
      next ← get_next_window s a;
      match next with
      | None => Some None
      | Some b =>
          w ← wins s !! b;
          if visible w && negb (has_bits (w_ex_style w) WS_EX_TRANSPARENT) && bool_decide (w_thread w = Some thread) &&
             win_needs_repaint w
          then Some (Some b) else sibling_to_repaint n s thread b
      end
  end.

Fixpoint find_child_to_repaint (n : nat) (s : wstate) (thread parent : Z) : option (option Z) :=
  match n with
  | O => None
  | S n =>
      pw ← wins s !! parent;
      r ← (fix go (l : list Z) : option (option Z) :=
             match l with
             | [] => Some None
             | c :: l =>
                 w ← wins s !! c;
                 if negb (visible w) then go l
                 else
                   r ← (if bool_decide (w_thread w = Some thread) && win_needs_repaint w then Some (Some c)
                        else if negb (has_bits (w_style w) WS_MINIMIZE) then find_child_to_repaint n s thread c
                        else Some None);
                   match r with None => go l | Some _ => Some r end
             end) (w_children pw);
      match r with
      | None => Some None
      | Some a =>
          w ← wins s !! a;
          if has_bits (w_ex_style w) WS_EX_TRANSPARENT
          then
            b ← sibling_to_repaint (tree_fuel s) s thread a;
            Some (match b with None => r | Some _ => b end)
          else Some r
      end
  end.

(** Is a window with that handle among the window and its parents? *)
Fixpoint has_parent_handle (n : nat) (s : wstate) (handle : Z) (ptr : option Z) : option bool :=
  match ptr with
  | None => Some false
  | Some a =>
      match n with
      | O => None
      | S n =>
          w ← wins s !! a;
          if w_handle w =? handle then Some true else has_parent_handle n s handle (w_parent w)
      end
  end.

(** [top] is the desktop window of the thread. *)
Definition find_window_to_repaint (top : option Z) (parent thread : Z) : W Z :=
  match top with
  | None => mret 0
  | Some t =>
      win ← wask (fun s =>
        tw ← wins s !! t;
        r ← (if bool_decide (w_thread tw = Some thread) && win_needs_repaint tw then Some (Some t)
             else find_child_to_repaint (tree_fuel s) s thread t);
        match r with
        | Some _ =>
            if negb (parent =? 0)
            then ok ← has_parent_handle (tree_fuel s) s parent r; Some (if ok : bool then r else None)
            else Some r
        | None => Some None
        end);
      match win with
      | None => mret 0
      | Some a =>
          wupd a (fun w => set_paint_flags w (clear_bits (w_paint_flags w) PAINT_INTERNAL));;
          w ← at_win a; mret (w_handle w)
      end
  end.
