(* ===== verification/WindowPaint.v ===== *)
(** * Painting and moving windows: server/window.c

    Visible and update regions, redrawing, exposing, and changes of position. *)

From Stdlib Require Import ZArith Lia.
From stdpp Require Import base list numbers option gmap.
From S2P Require Import Prelude Region UserHandles Windows WindowQueries.

#[local] Open Scope Z_scope.

(** * Painting windows: server/window.c

    Visible regions, and the update regions that collect what is to be painted.  A
    region pointer is the region itself: a routine that changes a region in place
    returns it.  A boolean next to it is false where the C routine returns NULL. *)

Definition DCX_WINDOW : Z := 0x00000001.
Definition DCX_CLIPCHILDREN : Z := 0x00000008.
Definition DCX_PARENTCLIP : Z := 0x00000020.
Definition RDW_INVALIDATE : Z := 0x0001.
Definition RDW_INTERNALPAINT : Z := 0x0002.
Definition RDW_ERASE : Z := 0x0004.
Definition RDW_VALIDATE : Z := 0x0008.
Definition RDW_NOINTERNALPAINT : Z := 0x0010.
Definition RDW_NOERASE : Z := 0x0020.
Definition RDW_NOCHILDREN : Z := 0x0040.
Definition RDW_ALLCHILDREN : Z := 0x0080.
Definition RDW_FRAME : Z := 0x0400.
Definition RDW_NOFRAME : Z := 0x0800.
Definition UPDATE_NONCLIENT : Z := 0x001.
Definition UPDATE_ERASE : Z := 0x002.
Definition UPDATE_PAINT : Z := 0x004.
Definition UPDATE_INTERNALPAINT : Z := 0x008.
Definition UPDATE_ALLCHILDREN : Z := 0x010.
Definition UPDATE_NOCHILDREN : Z := 0x020.
Definition UPDATE_NOREGION : Z := 0x040.
Definition UPDATE_DELAYED_ERASE : Z := 0x080.
Definition UPDATE_CLIPCHILDREN : Z := 0x100.

(** ** Visible regions *)

(** The region is relative to the parent of the window, which has a region. *)
Definition intersect_window_region (reg : region) (w : window) (win_region : region) : W (region * bool) :=
  let x := left (w_window_rect w) in
  let y := top (w_window_rect w) in
  let reg := offset_region reg (i32 (- x)) (i32 (- y)) in
  '(reg, ok) ← lift_op (intersect_region reg reg win_region);
  mret (if ok : bool then (offset_region reg x y, true) else (reg, false)).

(** [if (win->win_region && !intersect_window_region( region, win ))]. *)
Definition clip_to_window (reg : region) (w : window) : W (region * bool) :=
  match w_win_region w with
  | None => mret (reg, true)
  | Some r => intersect_window_region reg w r
  end.

(** Is the window left out when others are clipped? *)
Definition see_through (w : window) : bool := negb (visible w) || has_bits (w_ex_style w) WS_EX_TRANSPARENT.

Fixpoint clip_children_loop (l : list Z) (last : option Z) (reg tmp : region) (offset_x offset_y : Z) : W (region * bool) :=
  match l with
  | [] => mret (reg, true)
  | c :: l =>
      if decide (last = Some c) then mret (reg, true)
      else
        w ← at_win c;
        if see_through w then clip_children_loop l last reg tmp offset_x offset_y
        else
          '(tmp, ok) ← clip_to_window (set_region_rect tmp (w_visible_rect w)) w;
          if negb ok then mret (reg, false)
          else
            let tmp := offset_region tmp offset_x offset_y in
            '(reg, ok) ← lift_op (subtract_region reg reg tmp);
            if negb ok then mret (reg, false)
            else if is_region_empty reg then mret (reg, true)
            else clip_children_loop l last reg tmp offset_x offset_y
  end.

Definition clip_children (parent : Z) (last : option Z) (reg : region) (offset_x offset_y : Z) : W (region * bool) :=
  tmp ← lift create_empty_region;
  match tmp with
  | None => mret (reg, false)
  | Some tmp =>
      pw ← at_win parent;
      clip_children_loop (w_children pw) last reg tmp offset_x offset_y
  end.

(** The client rectangle clipped by the window and its surface. *)
Definition clipped_client_rect (w : window) : rectangle_t :=
  fst (intersect_rect (fst (intersect_rect (w_window_rect w) (w_client_rect w))) (w_surface_rect w)).

Definition set_region_client_rect (reg : region) (w : window) : region := set_region_rect reg (clipped_client_rect w).

Definition clipped_visible_rect (w : window) : rectangle_t := fst (intersect_rect (w_visible_rect w) (w_surface_rect w)).

Definition set_region_visible_rect (reg : region) (w : window) : region := set_region_rect reg (clipped_visible_rect w).

Fixpoint top_clipping_loop (n : nat) (s : wstate) (a : Z) : option Z :=
  match n with
  | O => None
  | S n =>
      w ← wins s !! a;
      match w_parent w with
      | Some p =>
          pw ← wins s !! p;
          if negb (has_bits (w_paint_flags w) PAINT_HAS_SURFACE) && negb (is_desktop_window pw) then top_clipping_loop n s p
          else Some a
      | None => Some a
      end
  end.

Definition get_top_clipping_window (s : wstate) (a : Z) : option Z := top_clipping_loop (tree_fuel s) s a.

(** The region of the window itself, relative to its parent. *)
Definition base_region (reg : region) (w pw : window) (flags : Z) : W (region * bool) :=
  if has_bits flags DCX_PARENTCLIP && negb (is_desktop_window pw) then
    mret (offset_region (set_region_client_rect reg pw) (i32 (- left (w_client_rect pw))) (i32 (- top (w_client_rect pw))), true)
  else if has_bits flags DCX_WINDOW then clip_to_window (set_region_visible_rect reg w) w
  else clip_to_window (set_region_client_rect reg w) w.

(** The loop that clips the siblings of the ancestors, up to the top-level window. *)
Fixpoint clip_ancestors (n : nat) (a : Z) (reg tmp : region) (offset_x offset_y : Z) : W (option (region * Z * Z)) :=
  match n with
  | O => wopt None
  | S n =>
      w ← at_win a;
      p ← wopt (w_parent w);
      pw ← at_win p;
      if is_desktop_window pw then mret (Some (reg, offset_x, offset_y))
      else
        '(reg, ok) ← (if has_bits (w_style w) WS_CLIPSIBLINGS then clip_children p (Some a) reg 0 0 else mret (reg, true));
        if negb ok then mret None
        else if has_bits (w_style w) WS_CLIPSIBLINGS && is_region_empty reg then mret (Some (reg, offset_x, offset_y))
        else
          let x := left (w_client_rect pw) in
          let y := top (w_client_rect pw) in
          let reg := offset_region reg x y in
          '(tmp, ok) ← clip_to_window (set_region_client_rect tmp pw) pw;
          if negb ok then mret None
          else
            '(reg, ok) ← lift_op (intersect_region reg reg tmp);
            if negb ok then mret None
            else if is_region_empty reg then mret (Some (reg, i32 (offset_x + x), i32 (offset_y + y)))
            else clip_ancestors n p reg tmp (i32 (offset_x + x)) (i32 (offset_y + y))
  end.

Definition get_visible_region (a flags : Z) : W (option region) :=
  reg ← lift create_empty_region;
  match reg with
  | None => mret None
  | Some reg =>
      vis ← wask (fun s => is_visible s a);
      if negb vis then mret (Some reg)
      else
        w ← at_win a;
        match w_parent w with
        | None => mret (Some (set_region_rect reg (w_window_rect w)))
        | Some p =>
            pw ← at_win p;
            '(reg, ok) ← base_region reg w pw flags;
            if negb ok then mret None
            else
              '(reg, ok) ← (if has_bits flags DCX_CLIPCHILDREN
                            then clip_children a None reg (left (w_client_rect w)) (top (w_client_rect w))
                            else mret (reg, true));
              if negb ok then mret None
              else
                let offset_x := left (w_window_rect w) in
                let offset_y := top (w_window_rect w) in
                tmp ← lift create_empty_region;
                r ← match tmp with
                    | None => mret (Some (reg, offset_x, offset_y))
                    | Some tmp => s ← wget; clip_ancestors (tree_fuel s) a reg tmp offset_x offset_y
                    end;
                match r with
                | None => mret None
                | Some (reg, offset_x, offset_y) => mret (Some (offset_region reg (i32 (- offset_x)) (i32 (- offset_y))))
                end
        end
  end.

(** clip_pixel_format_children: [region] ends as it is where the C loop breaks; the boolean
    is false without memory. *)
Fixpoint clip_pixel_format_children (n : nat) (parent : Z) (parent_clip reg : region) (offset_x offset_y : Z) : W (region * bool) :=
  match n with
  | O => wopt None
  | S n =>
      clip ← lift create_empty_region;
      match clip with
      | None => mret (reg, false)
      | Some clip =>
          pw ← at_win parent;
          (fix go (l : list Z) (reg clip : region) : W (region * bool) :=
             match l with
             | [] => mret (reg, true)
             | c :: l =>
                 w ← at_win c;
                 if see_through w then go l reg clip
                 else
                   '(clip, ok) ← clip_to_window (set_region_rect clip (w_visible_rect w)) w;
                   if negb ok then mret (reg, true)
                   else
                     let clip := offset_region clip offset_x offset_y in
                     '(clip, ok) ← lift_op (intersect_region clip clip parent_clip);
                     if negb ok then mret (reg, true)
                     else
                       '(reg, ok) ← lift_op (union_region false reg reg clip);
                       if negb ok then mret (reg, true)
                       else if negb (has_bits (w_paint_flags w) (Z.lor PAINT_HAS_PIXEL_FORMAT PAINT_PIXEL_FORMAT_CHILD)) then go l reg clip
                       else
                         '(clip, ok) ← clip_to_window (set_region_rect clip (w_client_rect w)) w;
                         if negb ok then mret (reg, true)
                         else
                           let clip := offset_region clip offset_x offset_y in
                           '(clip, ok) ← lift_op (intersect_region clip clip parent_clip);
                           if negb ok then mret (reg, true)
                           else
                             '(reg, ok) ← (if has_bits (w_paint_flags w) PAINT_HAS_PIXEL_FORMAT
                                           then lift_op (subtract_region reg reg clip) else mret (reg, true));
                             if negb ok then mret (reg, true)
                             else
                               '(reg, ok) ← clip_pixel_format_children n c clip reg (i32 (offset_x + left (w_client_rect w)))
                                                                                    (i32 (offset_y + top (w_client_rect w)));
                               if negb ok then mret (reg, true) else go l reg clip
             end) (reverse (w_children pw)) reg clip
      end
  end.

Definition get_surface_region (a : Z) : W (option region) :=
  reg ← lift create_empty_region;
  match reg with
  | None => mret None
  | Some reg =>
      clip ← lift create_empty_region;
      match clip with
      | None => mret None
      | Some clip =>
          w ← at_win a;
          '(reg, ok) ← clip_to_window (set_region_rect reg (w_visible_rect w)) w;
          if negb ok then mret None
          else
            '(clip, ok) ← clip_to_window (set_region_rect clip (w_client_rect w)) w;
            if negb ok then mret None
            else
              '(reg, ok) ← (if negb (has_bits (w_ex_style w) WS_EX_LAYERED) && has_bits (w_paint_flags w) PAINT_HAS_PIXEL_FORMAT
                            then lift_op (subtract_region reg reg clip) else mret (reg, true));
              if negb ok then mret None
              else
                let '(x, y) := if is_desktop_window w then (0, 0) else (left (w_client_rect w), top (w_client_rect w)) in
                s ← wget;
                '(reg, ok) ← clip_pixel_format_children (tree_fuel s) a clip reg x y;
                mret (if ok : bool then Some reg else None)
      end
  end.

(** ** Update regions *)

(** The loop that crops to the parents; [None] inside is an empty rectangle. *)
Fixpoint visible_rect_loop (n : nat) (s : wstate) (a : Z) (rect : rectangle_t) (offset_x offset_y : Z) :
    option (option rectangle_t) :=
  match n with
  | O => None
  | S n =>
      w ← wins s !! a;
      p ← w_parent w;
      pw ← wins s !! p;
      if is_desktop_window pw then Some (Some (offset_rect rect (i32 (- offset_x)) (i32 (- offset_y))))
      else if negb (visible pw) || has_bits (w_style pw) WS_MINIMIZE then Some None
      else
        let x := left (w_client_rect pw) in
        let y := top (w_client_rect pw) in
        let '(rect, ok) := intersect_rect (offset_rect rect x y) (w_client_rect pw) in
        if negb ok then Some None
        else
          let '(rect, ok) := intersect_rect rect (w_window_rect pw) in
          if negb ok then Some None else visible_rect_loop n s p rect (i32 (offset_x + x)) (i32 (offset_y + y))
  end.

Definition get_window_visible_rect (s : wstate) (a : Z) (frame : bool) : option (option rectangle_t) :=
  w ← wins s !! a;
  let rect := if frame then w_window_rect w else w_client_rect w in
  if negb (visible w) then Some None
  else if is_desktop_window w then Some (Some rect)
  else visible_rect_loop (tree_fuel s) s a rect (left (w_window_rect w)) (top (w_window_rect w)).

Definition crop_region_to_win_rect (a : Z) (reg : option region) (frame : bool) : W (option region) :=
  rect ← wask (fun s => get_window_visible_rect s a frame);
  match rect with
  | None => mret None
  | Some rect =>
      tmp ← lift create_empty_region;
      match tmp with
      | None => mret None
      | Some tmp =>
          let tmp := set_region_rect tmp rect in
          match reg with
          | None => mret (Some tmp)
          | Some reg =>
              w ← at_win a;
              let x := i32 (left (w_window_rect w) - left (w_client_rect w)) in
              let y := i32 (top (w_window_rect w) - top (w_client_rect w)) in
              let tmp := offset_region tmp x y in
              '(tmp, ok) ← lift_op (intersect_region tmp reg tmp);
              if negb ok then mret None
              else if is_region_empty tmp then mret None
              else
                mret (Some (offset_region tmp (i32 (left (w_client_rect w) - left (w_window_rect w)))
                                              (i32 (top (w_client_rect w) - top (w_window_rect w)))))
          end
      end
  end.

(** queue.c; the thread has to have a queue. *)
Definition inc_queue_paint_count (thread incr : Z) : W unit :=
  s ← wget;
  q ← wopt (queues s !! thread);
  let count := i32 (paint_count q + incr) in
  let count := if count <? 0 then 0 else count in
  let q := if negb (count =? 0)
           then mk_queue count (Z.lor (wake_bits q) QS_PAINT) (Z.lor (changed_bits q) QS_PAINT)
           else mk_queue count (clear_bits (wake_bits q) QS_PAINT) (clear_bits (changed_bits q) QS_PAINT) in
  wput (set_queues s (<[thread := q]> (queues s))).

Definition inc_window_paint_count (a incr : Z) : W unit :=
  w ← at_win a;
  match w_thread w with
  | None => mret tt
  | Some t => inc_queue_paint_count t incr
  end.

Definition clear_paint (a bits : Z) : W unit :=
  wupd a (fun w => set_paint_flags w (clear_bits (w_paint_flags w) bits)).

Definition set_paint (a bits : Z) : W unit :=
  wupd a (fun w => set_paint_flags w (Z.lor (w_paint_flags w) bits)).

Definition set_update_region (a : Z) (reg : option region) : W unit :=
  w ← at_win a;
  match (match reg with Some r => if is_region_empty r then None else Some r | None => None end) with
  | Some r =>
      (if w_update_region w is Some _ then mret tt else inc_window_paint_count a 1);;
      wupd a (fun w => put_update_region w (Some r))
  | None =>
      (if w_update_region w is Some _ then inc_window_paint_count a (-1) else mret tt);;
      clear_paint a (Z.lor (Z.lor PAINT_ERASE PAINT_DELAYED_ERASE) PAINT_NONCLIENT);;
      wupd a (fun w => put_update_region w None)
  end.

Definition add_update_region (a : Z) (reg : region) : W bool :=
  w ← at_win a;
  match w_update_region w with
  | None => set_update_region a (Some reg);; mret true
  | Some u =>
      '(reg, ok) ← lift_op (union_region false reg u reg);
      if negb ok then mret false else set_update_region a (Some reg);; mret true
  end.

(** Replace the update region by its intersection with [tmp]. *)
Definition crop_update_region (a : Z) (u tmp : region) : W unit :=
  '(tmp, ok) ← lift_op (intersect_region tmp u tmp);
  if ok : bool then set_update_region a (Some tmp) else mret tt.

Fixpoint crop_children_update_region (n : nat) (a : Z) (rect : option rectangle_t) : W unit :=
  match n with
  | O => wopt None
  | S n =>
      w ← at_win a;
      wfor (fun c =>
        cw ← at_win c;
        if negb (visible cw) then mret tt
        else
          match rect with
          | None => crop_children_update_region n c None;; set_update_region c None
          | Some rect =>
              if (left rect <=? left (w_window_rect cw)) && (top rect <=? top (w_window_rect cw)) &&
                 (right (w_window_rect cw) <=? right rect) && (bottom (w_window_rect cw) <=? bottom rect)
              then mret tt
              else
                crop_children_update_region n c
                  (Some (offset_rect rect (i32 (- left (w_client_rect cw))) (i32 (- top (w_client_rect cw)))));;
                cw ← at_win c;
                match w_update_region cw with
                | None => mret tt
                | Some u =>
                    tmp ← lift create_empty_region;
                    match tmp with
                    | None => mret tt
                    | Some tmp =>
                        crop_update_region c u
                          (offset_region (set_region_rect tmp rect)
                             (i32 (- left (w_window_rect cw))) (i32 (- top (w_window_rect cw))))
                    end
                end
          end) (w_children w)
  end.

Definition validate_non_client (a : Z) : W unit :=
  w ← at_win a;
  match w_update_region w with
  | None => mret tt
  | Some u =>
      let x := left (w_window_rect w) in
      let y := top (w_window_rect w) in
      let c := w_client_rect w in
      let rect := mk_rect (i32 (left c - x)) (i32 (top c - y)) (i32 (right c - x)) (i32 (bottom c - y)) in
      tmp ← lift create_empty_region;
      (match tmp with
       | None => mret tt
       | Some tmp => crop_update_region a u (set_region_rect tmp rect)
       end);;
      clear_paint a PAINT_NONCLIENT
  end.

Definition validate_whole_window (a : Z) : W unit :=
  set_update_region a None;;
  w ← at_win a;
  if has_bits (w_paint_flags w) PAINT_INTERNAL
  then clear_paint a PAINT_INTERNAL;; inc_window_paint_count a (-1)
  else mret tt.

Fixpoint validate_children (n : nat) (a : Z) : W unit :=
  match n with
  | O => wopt None
  | S n =>
      w ← at_win a;
      wfor (fun c =>
        cw ← at_win c;
        if negb (visible cw) then mret tt else validate_children n c;; validate_whole_window c) (w_children w)
  end.

(** The loop of validate_parents: [tmp] is a region allocated by an earlier round. *)
Fixpoint validate_parents_loop (n : nat) (child a : Z) (tmp : option region) (offset_x offset_y : Z) : W unit :=
  match n with
  | O => wopt None
  | S n =>
      w ← at_win a;
      match w_parent w with
      | None => mret tt
      | Some p =>
          pw ← at_win p;
          let offset_x := i32 (i32 (offset_x + left (w_window_rect w)) + i32 (left (w_client_rect pw) - left (w_window_rect pw))) in
          let offset_y := i32 (i32 (offset_y + top (w_window_rect w)) + i32 (top (w_client_rect pw) - top (w_window_rect pw))) in
          match w_update_region pw with
          | Some u =>
              if has_bits (w_style pw) WS_CLIPCHILDREN then validate_parents_loop n child p tmp offset_x offset_y
              else
                tmp ← match tmp with Some t => mret (Some t) | None => lift create_empty_region end;
                match tmp with
                | None => mret tt
                | Some tmp =>
                    cw ← at_win child;
                    cu ← wopt (w_update_region cw);
                    let cu := offset_region cu offset_x offset_y in
                    '(tmp, ok) ← lift_op (subtract_region tmp u cu);
                    (if ok : bool then set_update_region p (Some tmp) else mret tt);;
                    wupd child (fun w => put_update_region w (Some (offset_region cu (i32 (- offset_x)) (i32 (- offset_y)))));;
                    validate_parents_loop n child p (if negb ok then Some tmp else None) offset_x offset_y
                end
          | None => validate_parents_loop n child p tmp offset_x offset_y
          end
      end
  end.

Definition validate_parents (child : Z) : W unit :=
  w ← at_win child;
  match w_update_region w with
  | None => mret tt
  | Some _ => s ← wget; validate_parents_loop (tree_fuel s) child child None 0 0
  end.

(** ** Redrawing *)

(** The part of redraw_window that changes the update region of the window itself; the
    boolean is false where it returns. *)
Definition redraw_self (a : Z) (reg : option region) (frame : bool) (flags : Z) : W bool :=
  if has_bits flags RDW_INVALIDATE then
    tmp ← crop_region_to_win_rect a reg frame;
    match tmp with
    | None => mret false
    | Some tmp =>
        ok ← add_update_region a tmp;
        if negb ok then mret false
        else
          (if has_bits flags RDW_FRAME then set_paint a PAINT_NONCLIENT else mret tt);;
          (if has_bits flags RDW_ERASE then set_paint a PAINT_ERASE else mret tt);;
          mret true
    end
  else if has_bits flags RDW_VALIDATE then
    w ← at_win a;
    if (if reg is None then true else false) && has_bits flags RDW_NOFRAME then set_update_region a None;; mret true
    else
      match w_update_region w with
      | None => mret true
      | Some u =>
          tmp ← crop_region_to_win_rect a reg frame;
          ok ← match tmp with
               | None => mret true
               | Some tmp =>
                   '(tmp, ok) ← lift_op (subtract_region tmp u tmp);
                   if negb ok then mret false else set_update_region a (Some tmp);; mret true
               end;
          if negb ok then mret false
          else
            (if has_bits flags RDW_NOFRAME then validate_non_client a else mret tt);;
            (if has_bits flags RDW_NOERASE then clear_paint a (Z.lor PAINT_ERASE PAINT_DELAYED_ERASE) else mret tt);;
            mret true
      end
  else mret true.

Definition redraw_internal (a flags : Z) : W unit :=
  w ← at_win a;
  if has_bits flags RDW_INTERNALPAINT && negb (has_bits (w_paint_flags w) PAINT_INTERNAL) then
    set_paint a PAINT_INTERNAL;; inc_window_paint_count a 1
  else if has_bits flags RDW_NOINTERNALPAINT && has_bits (w_paint_flags w) PAINT_INTERNAL then
    clear_paint a PAINT_INTERNAL;; inc_window_paint_count a (-1)
  else mret tt.

Fixpoint redraw_window (n : nat) (a : Z) (reg : option region) (frame : bool) (flags : Z) : W unit :=
  match n with
  | O => wopt None
  | S n =>
      ok ← redraw_self a reg frame flags;
      if negb ok then mret tt
      else
        redraw_internal a flags;;
        w ← at_win a;
        if has_bits flags RDW_NOCHILDREN || has_bits (w_style w) WS_MINIMIZE ||
           (has_bits (w_style w) WS_CLIPCHILDREN && negb (has_bits flags RDW_ALLCHILDREN)) then mret tt
        else
          tmp ← crop_region_to_win_rect a reg false;
          match tmp with
          | None => mret tt
          | Some tmp =>
              let tmp := offset_region tmp (i32 (left (w_window_rect w) - left (w_client_rect w)))
                                           (i32 (top (w_window_rect w) - top (w_client_rect w))) in
              let flags := if has_bits flags RDW_INVALIDATE then Z.lor flags (Z.lor RDW_FRAME RDW_ERASE) else flags in
              wfor (fun c =>
                cw ← at_win c;
                if negb (visible cw) then mret tt
                else
                  child_rgn ← lift create_empty_region;
                  match child_rgn with
                  | None => mret tt
                  | Some child_rgn =>
                      '(child_rgn, ok) ← lift (copy_region child_rgn tmp);
                      if negb ok then mret tt
                      else
                        child_rgn ← wask (fun s => map_dpi_region s c child_rgn (w_dpi w) (w_dpi cw));
                        if rect_in_region child_rgn (w_window_rect cw)
                        then
                          redraw_window n c
                            (Some (offset_region child_rgn (i32 (- left (w_client_rect cw))) (i32 (- top (w_client_rect cw)))))
                            true flags
                        else mret tt
                  end) (w_children w)
          end
  end.

(** * Moving, showing and painting windows: server/window.c

    Changes of position and shape with the areas they expose, the search for a window
    with something to paint. *)

Definition SWP_NOZORDER : Z := 0x0004.
Definition SWP_NOREDRAW : Z := 0x0008.
Definition SWP_FRAMECHANGED : Z := 0x0020.
Definition SWP_SHOWWINDOW : Z := 0x0040.
Definition SWP_HIDEWINDOW : Z := 0x0080.
Definition SWP_NOCOPYBITS : Z := 0x0100.
Definition SET_WIN_STYLE : Z := 0x01.
Definition SET_WIN_EXSTYLE : Z := 0x02.
Definition STATUS_ACCESS_DENIED : Z := 0xC0000022.

Definition redraw (a : Z) (reg : option region) (frame : bool) (flags : Z) : W unit :=
  s ← wget; redraw_window (tree_fuel s) a reg frame flags.

(** ** Exposed areas *)

(** What is visible now and was not, in client coordinates. *)
Definition exposed_on_window (w : window) (composited : bool) (new_vis old_vis : region) : W (option region) :=
  exposed ← lift create_empty_region;
  match exposed with
  | None => mret None
  | Some e =>
      '(e, ok) ← lift_op (if composited then union_region false e new_vis old_vis else subtract_region e new_vis old_vis);
      mret (if (ok : bool) && negb (is_region_empty e)
            then Some (offset_region e (i32 (left (w_window_rect w) - left (w_client_rect w)))
                                       (i32 (top (w_window_rect w) - top (w_client_rect w))))
            else None)
  end.

(** Invalidate what was visible and is not any more on the parent. *)
Definition expose_on_parent (w : window) (p : Z) (old_window_rect : rectangle_t) (composited : bool)
    (new_vis old_vis : region) : W unit :=
  let new_vis := offset_region new_vis (i32 (left (w_window_rect w) - left old_window_rect))
                                       (i32 (top (w_window_rect w) - top old_window_rect)) in
  '(new_vis, ok) ← (if is_region_empty old_vis then mret (new_vis, true)
                    else lift_op (if composited then union_region false new_vis old_vis new_vis
                                  else subtract_region new_vis old_vis new_vis));
  if (ok : bool) && negb (is_region_empty new_vis)
  then redraw p (Some (offset_region new_vis (left old_window_rect) (top old_window_rect))) false
              (Z.lor (Z.lor RDW_INVALIDATE RDW_ERASE) RDW_ALLCHILDREN)
  else mret tt.

Definition expose_window (a : Z) (old_window_rect : rectangle_t) (old_vis : region) (zorder_changed : bool) :
    W (option region) :=
  w ← at_win a;
  composited ← wask (fun s => is_parent_composited s w);
  new_vis ← get_visible_region a DCX_WINDOW;
  match new_vis with
  | None => mret None
  | Some new_vis =>
      if composited && negb zorder_changed && is_rect_equal old_window_rect (w_window_rect w) &&
         is_region_equal old_vis new_vis
      then mret None
      else
        exposed ← exposed_on_window w composited new_vis old_vis;
        match w_parent w with
        | None => mret exposed
        | Some p =>
            pw ← at_win p;
            (if is_desktop_window pw then mret tt else expose_on_parent w p old_window_rect composited new_vis old_vis);;
            mret exposed
        end
  end.

(** ** Position *)

(** Keep children at the same distance from the right edge. *)
Fixpoint shift_children (s : wstate) (dx : Z) (l : list Z) : wstate :=
  match l with
  | [] => s
  | c :: l =>
      shift_children
        (upd s c (fun w => set_rects w (offset_rect (w_window_rect w) dx 0) (offset_rect (w_visible_rect w) dx 0)
                                       (offset_rect (w_surface_rect w) dx 0) (offset_rect (w_client_rect w) dx 0)))
        dx l
  end.

(** The new rectangles of a window. *)
Record pos := mk_pos {
  p_window : rectangle_t;
  p_client : rectangle_t;
  p_visible : rectangle_t;
  p_surface : rectangle_t;
  p_valid : rectangle_t
}.

(** "set the new window info before invalidating anything"; returns whether the Z-order
    has changed. *)
Definition set_window_info_pos (a : Z) (previous : winptr) (swp_flags : Z) (r : pos) : W bool :=
  old ← at_win a;
  wupd a (fun w => set_rects w (p_window r) (p_visible r) (p_surface r) (p_client r));;
  zorder_changed ← (if negb (has_bits swp_flags SWP_NOZORDER) && negb (is_desktop_window old)
                    then
                      '(s, changed) ← wask (fun s => link_window s a previous);
                      wput s;; mret changed
                    else mret false);
  (if has_bits swp_flags SWP_SHOWWINDOW then wupd a (fun w => set_style w (Z.lor (w_style w) WS_VISIBLE))
   else if has_bits swp_flags SWP_HIDEWINDOW then wupd a (fun w => set_style w (clear_bits (w_style w) WS_VISIBLE))
   else mret tt);;
  w ← at_win a;
  (if has_bits (w_ex_style w) WS_EX_LAYOUTRTL then
     let old_size := i32 (right (w_client_rect old) - left (w_client_rect old)) in
     let new_size := i32 (right (w_client_rect w) - left (w_client_rect w)) in
     if negb (old_size =? new_size)
     then s ← wget; wput (shift_children s (i32 (new_size - old_size)) (w_children w))
     else mret tt
   else mret tt);;
  s ← wget;
  d ← wopt (desktops s !! w_desktop w);
  (if bool_decide (top_window d = Some a) then wcall (set_clip_rectangle (w_desktop w)) else mret tt);;
  mret zorder_changed.

(** Crop the update regions of the window and of its children. *)
Definition crop_to_window (a : Z) : W unit :=
  w ← at_win a;
  (match w_update_region w with
   | None => mret tt
   | Some u =>
       rect ← wask (fun s => get_window_visible_rect s a true);
       match rect with
       | None => set_update_region a None
       | Some rect =>
           tmp ← lift create_empty_region;
           match tmp with
           | None => mret tt
           | Some tmp => crop_update_region a u (set_region_rect tmp rect)
           end
       end
   end);;
  rect ← wask (fun s => get_window_visible_rect s a false);
  s ← wget;
  crop_children_update_region (tree_fuel s) a
    (match rect with
     | None => None
     | Some rect => Some (offset_rect rect (i32 (left (w_window_rect w) - left (w_client_rect w)))
                                           (i32 (top (w_window_rect w) - top (w_client_rect w))))
     end).

(** Have the frame or the client area changed, if the bits move with the window? *)
Definition moved_otherwise (dx dy : Z) (r old : rectangle_t) : bool :=
  negb (i32 (left r - left old) =? dx) || negb (i32 (right r - right old) =? dx) ||
  negb (i32 (top r - top old) =? dy) || negb (i32 (bottom r - bottom old) =? dy).

Definition frame_changed (old : window) (swp_flags : Z) (r : pos) : bool :=
  if has_bits swp_flags SWP_NOCOPYBITS then
    has_bits swp_flags SWP_FRAMECHANGED || negb (bool_decide (p_window r = w_window_rect old)) ||
    negb (bool_decide (p_visible r = w_visible_rect old))
  else
    let x_offset := i32 (left (p_window r) - left (w_window_rect old)) in
    let y_offset := i32 (top (p_window r) - top (w_window_rect old)) in
    has_bits swp_flags SWP_FRAMECHANGED ||
    negb (i32 (right (p_window r) - right (w_window_rect old)) =? x_offset) ||
    negb (i32 (bottom (p_window r) - bottom (w_window_rect old)) =? y_offset) ||
    moved_otherwise x_offset y_offset (p_visible r) (w_visible_rect old).

Definition client_changed (old : window) (swp_flags : Z) (r : pos) : bool :=
  if has_bits swp_flags SWP_NOCOPYBITS then negb (bool_decide (p_client r = w_client_rect old))
  else
    moved_otherwise (i32 (left (p_window r) - left (w_window_rect old))) (i32 (top (p_window r) - top (w_window_rect old)))
                    (p_client r) (w_client_rect old) ||
    negb (bool_decide (p_valid r = p_client r)).

(** The part of the window that is not valid, in client coordinates. *)
Definition invalid_part (a : Z) (win_rgn : region) (r : pos) : W region :=
  w ← at_win a;
  let x := left (p_window r) in
  let y := top (p_window r) in
  let win_rgn := set_region_rect win_rgn (p_window r) in
  win_rgn ← (if is_rect_empty (p_valid r) then mret win_rgn
             else
               tmp ← lift create_empty_region;
               match tmp with
               | None => mret win_rgn
               | Some tmp =>
                   let tmp := set_region_rect tmp (p_valid r) in
                   tmp ← match w_update_region w with
                         | None => mret tmp
                         | Some u =>
                             let tmp := offset_region tmp (i32 (- x)) (i32 (- y)) in
                             '(tmp, _) ← lift_op (subtract_region tmp tmp u);
                             mret (offset_region tmp x y)
                         end;
                   '(tmp, ok) ← lift_op (subtract_region tmp win_rgn tmp);
                   mret (if ok : bool then tmp else win_rgn)
               end);
  mret (if is_desktop_window w then win_rgn
        else offset_region win_rgn (i32 (- left (p_client r))) (i32 (- top (p_client r)))).

(** The last part of set_window_pos, for a window that is visible. *)
Definition crop_and_redraw (a : Z) (old : window) (swp_flags : Z) (r : pos) (old_vis : region) (exposed : option region) : W unit :=
  crop_to_window a;;
  if has_bits swp_flags SWP_NOREDRAW then mret tt
  else
    exposed ← (if frame_changed old swp_flags r || client_changed old swp_flags r then
                 win_rgn ← invalid_part a old_vis r;
                 match exposed with
                 | None => mret (Some win_rgn)
                 | Some e => '(e, _) ← lift_op (union_region false e e win_rgn); mret (Some e)
                 end
               else mret exposed);
    match exposed with
    | None => mret tt
    | Some e => redraw a (Some e) true (Z.lor (Z.lor (Z.lor RDW_INVALIDATE RDW_ERASE) RDW_FRAME) RDW_ALLCHILDREN)
    end.

Definition set_window_pos (a : Z) (previous : winptr) (swp_flags : Z) (r : pos) : W unit :=
  old ← at_win a;
  vis ← (if visible old || has_bits swp_flags SWP_SHOWWINDOW
         then match w_parent old with None => mret true | Some p => wask (fun s => is_visible s p) end
         else mret false);
  old_vis ← (if vis : bool then get_visible_region a DCX_WINDOW else mret None);
  if vis && (if old_vis is None then true else false) then mret tt
  else
    zorder_changed ← set_window_info_pos a previous swp_flags r;
    match old_vis with
    | None => mret tt
    | Some old_vis =>
        exposed ← (if has_bits swp_flags SWP_NOREDRAW then mret None
                   else expose_window a (w_window_rect old) old_vis zorder_changed);
        w ← at_win a;
        (if negb (visible w) then
           validate_whole_window a;;
           s ← wget; validate_children (tree_fuel s) a
         else crop_and_redraw a old swp_flags r old_vis exposed);;
        lift clear_error
    end.

Definition set_window_region (a : Z) (reg : option region) (do_redraw : bool) : W unit :=
  vis ← (if do_redraw then wask (fun s => is_visible s a) else mret false);
  old_vis ← (if vis : bool then get_visible_region a DCX_WINDOW else mret None);
  wupd a (fun w => set_win_region w reg);;
  (match old_vis with
   | None => mret tt
   | Some old_vis =>
       w ← at_win a;
       exposed ← expose_window a (w_window_rect w) old_vis false;
       match exposed with
       | None => mret tt
       | Some e => redraw a (Some e) true (Z.lor (Z.lor (Z.lor RDW_INVALIDATE RDW_ERASE) RDW_FRAME) RDW_ALLCHILDREN)
       end
   end);;
  lift clear_error.

(** ** What to paint next *)

Definition get_update_flags (w : window) (flags : Z) : Z :=
  let updated := if w_update_region w is Some _ then true else false in
  let paint bit := has_bits (w_paint_flags w) bit in
  Z.lor (if has_bits flags UPDATE_NONCLIENT && paint PAINT_NONCLIENT && updated then UPDATE_NONCLIENT else 0)
 (Z.lor (if has_bits flags UPDATE_ERASE && paint PAINT_ERASE && updated then UPDATE_ERASE else 0)
 (Z.lor (if has_bits flags UPDATE_PAINT && updated
         then Z.lor (if paint PAINT_DELAYED_ERASE then UPDATE_DELAYED_ERASE else 0) UPDATE_PAINT else 0)
        (if has_bits flags UPDATE_INTERNALPAINT && paint PAINT_INTERNAL
         then Z.lor UPDATE_INTERNALPAINT (if paint PAINT_DELAYED_ERASE then UPDATE_DELAYED_ERASE else 0) else 0))).

(** The flags found, with the window that has them. *)
Fixpoint get_child_update_flags (n : nat) (s : wstate) (a : Z) (from_child : option Z) (flags : Z) : option (option (Z * Z)) :=
  match n with
  | O => None
  | S n =>
      w ← wins s !! a;
      if has_bits (w_style w) WS_MINIMIZE then Some None
      else if negb (has_bits flags UPDATE_ALLCHILDREN) && negb (has_bits (w_style w) WS_CLIPCHILDREN) then Some None
      else
        (fix go (from_child : option Z) (l : list Z) : option (option (Z * Z)) :=
           match l with
           | [] => Some None
           | c :: l =>
               match from_child with
               | Some f => go (if decide (c = f) then None else from_child) l
               | None =>
                   cw ← wins s !! c;
                   if negb (visible cw) then go None l
                   else
                     let r := get_update_flags cw flags in
                     if negb (r =? 0) then Some (Some (r, c))
                     else
                       r ← get_child_update_flags n s c None flags;
                       match r with Some _ => Some r | None => go None l end
               end
           end) from_child (w_children w)
  end.

(** The walks from [ptr] up to [win] that remember the last window that satisfies [f]. *)
Fixpoint last_up_to (n : nat) (s : wstate) (f : window -> bool) (win : Z) (ptr : option Z) (acc : option Z) : option (option Z) :=
  match ptr with
  | None => Some acc
  | Some q =>
      match n with
      | O => None
      | S n =>
          w ← wins s !! q;
          let acc := if f w then Some q else acc in
          if q =? win then Some acc else last_up_to n s f win (w_parent w) acc
      end
  end.

(** Does a window from [ptr] up satisfy [f]? *)
Fixpoint any_up (n : nat) (s : wstate) (f : window -> bool) (ptr : option Z) : option bool :=
  match ptr with
  | None => Some false
  | Some q =>
      match n with
      | O => None
      | S n => w ← wins s !! q; if f w then Some true else any_up n s f (w_parent w)
      end
  end.

Definition will_repaint_over (w : window) : bool := negb (has_bits (w_style w) WS_CLIPCHILDREN) && win_needs_repaint w.

(** The last loop: siblings, then those of the parents. *)
Fixpoint siblings_update_flags (n : nat) (s : wstate) (win from_sibling flags : Z) : option (option (Z * Z)) :=
  match n with
  | O => None
  | S n =>
      w ← wins s !! from_sibling;
      match w_parent w with
      | None => Some None
      | Some p =>
          if from_sibling =? win then Some None
          else
            r ← get_child_update_flags (tree_fuel s) s p (Some from_sibling) flags;
            match r with Some _ => Some r | None => siblings_update_flags n s win p flags end
      end
  end.

Definition get_window_update_flags (s : wstate) (win : Z) (from_child : option Z) (flags : Z) : option (option (Z * Z)) :=
  let n := tree_fuel s in
  vis ← is_visible s win;
  if negb vis then Some None
  else
    from_sibling ← last_up_to n s (fun w => negb (visible w) || has_bits (w_style w) WS_MINIMIZE) win from_child None;
    w ← wins s !! win;
    r ← (if has_bits flags UPDATE_NONCLIENT && negb (has_bits flags (Z.lor UPDATE_PAINT UPDATE_INTERNALPAINT)) then
           over ← any_up n s will_repaint_over (w_parent w);
           if over : bool then Some None
           else
             match from_child with
             | Some _ =>
                 if has_bits flags UPDATE_ALLCHILDREN then Some (Some from_sibling)
                 else
                   f ← last_up_to n s will_repaint_over win (if from_sibling is Some _ then from_sibling else from_child) from_sibling;
                   Some (Some f)
             | None => Some (Some from_sibling)
             end
         else Some (Some from_sibling));
    match r with
    | None => Some None
    | Some from_sibling =>
        let own := get_update_flags w flags in
        if (if from_child is None then negb (own =? 0) else false) then Some (Some (own, win))
        else if has_bits flags UPDATE_NOCHILDREN then Some None
        else
          let from_child := if from_child is Some c then c else win in
          match from_sibling with
          | Some f => siblings_update_flags n s win f flags
          | None =>
              r ← get_child_update_flags n s from_child None flags;
              match r with Some _ => Some r | None => siblings_update_flags n s win from_child flags end
          end
    end.
