(* ===== verification/WindowRequests.v ===== *)
(** * Window requests: server/window.c

    The request handlers on windows, as the client calls them: parents and owners,
    information, positions, regions, the Z-order.  A handler that ends without a reply
    returns [None]; the status is in the request environment. *)

From Stdlib Require Import ZArith Lia.
From stdpp Require Import base list numbers option gmap.
From S2P Require Import Prelude Region UserHandles Windows WindowQueries WindowPaint.

#[local] Open Scope Z_scope.

Definition SET_WIN_ID : Z := 0x04.
Definition SET_WIN_INSTANCE : Z := 0x08.
Definition SET_WIN_USERDATA : Z := 0x10.
Definition SET_WIN_EXTRA : Z := 0x20.
Definition SET_WIN_UNICODE : Z := 0x40.
Definition LWA_ALPHA : Z := 0x00000002.
Definition ERROR_INVALID_INDEX : Z := 1413.
Definition sizeof_lparam : Z := 8.
Definition sizeof_user_handle : Z := 4.

(** [if (!(win = get_window( handle ))) return;]. *)
Definition with_window {A} (handle : Z) (k : Z -> W (option A)) : W (option A) :=
  win ← get_window handle;
  match win with None => mret None | Some a => k a end.

Definition fail {A} (status : Z) : W (option A) := lift (set_error status);; mret None.

(** ** Parents and owners *)

Record parent_reply := mk_parent_reply {
  old_parent : Z;
  full_parent : Z;
  r_dpi : Z;
  r_awareness : Z
}.

Definition req_set_parent (handle parent : Z) : W (option parent_reply) :=
  with_window handle (fun a =>
    parent ← (if parent =? 0 then mret (Some None)
              else p ← get_window parent; mret (match p with None => None | Some p => Some (Some p) end));
    match parent with
    | None => mret None
    | Some parent =>
        w ← at_win a;
        refuse ← (if is_desktop_window w then mret true
                  else
                    orphan ← wask (fun s => is_orphan_window s a);
                    if orphan : bool then mret true
                    else match parent with None => mret false | Some p => wask (fun s => is_orphan_window s p) end);
        if refuse : bool then fail STATUS_INVALID_PARAMETER
        else
          p ← wopt (w_parent w);
          pw ← at_win p;
          full ← match parent with None => mret 0 | Some q => qw ← at_win q; mret (w_handle qw) end;
          _ ← set_parent_window a parent;
          w ← at_win a;
          mret (Some (mk_parent_reply (w_handle pw) full (w_dpi w) (w_dpi_awareness w)))
    end).

(** "make sure owner is not a successor of window": the walk looks up the owners by
    handle. *)
Fixpoint owner_loop (n : nat) (win : Z) (ptr : option Z) : W bool :=
  match ptr with
  | None => mret false
  | Some q =>
      if q =? win then mret true
      else
        match n with
        | O => wopt None
        | S n =>
            w ← at_win q;
            next ← (if w_owner w =? 0 then mret None else get_window (w_owner w));
            owner_loop n win next
        end
  end.

(** Reply: the previous owner and the new one. *)
Definition req_set_window_owner (handle owner : Z) : W (option (Z * Z)) :=
  win ← get_window handle;
  match win with
  | None => mret None
  | Some a =>
      owner ← (if owner =? 0 then mret (Some None)
               else o ← get_window owner; mret (match o with None => None | Some o => Some (Some o) end));
      match owner with
      | None => mret None
      | Some owner =>
          w ← at_win a;
          if is_desktop_window w then fail STATUS_ACCESS_DENIED
          else
            s ← wget;
            successor ← owner_loop (tree_fuel s) a owner;
            if successor : bool then fail STATUS_INVALID_PARAMETER
            else
              full ← match owner with None => mret 0 | Some o => ow ← at_win o; mret (w_handle ow) end;
              wupd a (fun w => set_owner w full);;
              mret (Some (w_owner w, full))
      end
  end.

(** ** Information *)

Definition le_bytes (n : nat) (z : Z) : list Z := (fun i => Z.shiftr z (8 * Z.of_nat i) `mod` 256) <$> seq 0 n.

Fixpoint le_value (l : list Z) : Z :=
  match l with
  | [] => 0
  | b :: l => b + 256 * le_value l
  end.

(** [memcpy( win->extra_bytes + offset, value, size )], within the bytes. *)
Definition put_bytes (l : list Z) (offset : nat) (bs : list Z) : list Z :=
  take offset l ++ bs ++ drop (offset + length bs) l.

Record info_req := mk_info_req {
  i_flags : Z;
  i_is_unicode : Z;
  i_style : Z;
  i_ex_style : Z;
  i_extra_size : Z;
  i_instance : Z;
  i_user_data : Z;
  i_extra_value : Z;
  i_extra_offset : Z
}.

Record info_reply := mk_info_reply {
  old_style : Z;
  old_ex_style : Z;
  old_instance : Z;
  old_user_data : Z;
  old_extra_value : Z;
  old_id : Z
}.

Definition info_data (r : info_req) (d : window_data) : window_data :=
  mk_data (if has_bits (i_flags r) SET_WIN_ID then i_extra_value r else d_id d)
          (if has_bits (i_flags r) SET_WIN_INSTANCE then i_instance r else d_instance d)
          (if has_bits (i_flags r) SET_WIN_UNICODE then Z.land (i_is_unicode r) 1 else d_is_unicode d)
          (if has_bits (i_flags r) SET_WIN_USERDATA then i_user_data r else d_user_data d)
          (d_text d) (d_color_key d) (d_alpha d) (d_props d) (d_prop_alloc d)
          (if has_bits (i_flags r) SET_WIN_EXTRA
           then put_bytes (d_extra d) (Z.to_nat (i_extra_offset r)) (le_bytes (Z.to_nat (i_extra_size r)) (i_extra_value r))
           else d_extra d).

(** Styles: the topmost bit of a linked window stays. *)
Definition info_styles (r : info_req) (w : window) : window :=
  let w := if has_bits (i_flags r) SET_WIN_STYLE then set_style w (i_style r) else w in
  if has_bits (i_flags r) SET_WIN_EXSTYLE then
    let ex := if w_is_linked w
              then Z.lor (clear_bits (i_ex_style r) WS_EX_TOPMOST) (Z.land (w_ex_style w) WS_EX_TOPMOST)
              else i_ex_style r in
    let w := set_ex_style w ex in
    if has_bits ex WS_EX_LAYERED then w else set_is_layered w false
  else w.

Definition info_window (r : info_req) (w : window) : window :=
  let w := info_styles r w in
  let w := set_data w (info_data r (w_data w)) in
  if has_bits (i_flags r) SET_WIN_STYLE then set_paint_flags w (Z.lor (w_paint_flags w) PAINT_NONCLIENT) else w.

(** [nb_extra_bytes - (int)extra_size], compared with the offset. *)
Definition bad_extra (r : info_req) (w : window) : bool :=
  (sizeof_lparam <? i_extra_size r) || (i_extra_offset r <? -1) ||
  (i32 (Z.of_nat (length (d_extra (w_data w))) - i32 (i_extra_size r)) <? i_extra_offset r).

(** [current] is the thread that makes the request. *)
Definition req_set_window_info (current : Z) (handle : Z) (r : info_req) : W (option info_reply) :=
  with_window handle (fun a =>
    w ← at_win a;
    if negb (i_flags r =? 0) && is_desktop_window w && negb (bool_decide (w_thread w = Some current))
    then fail STATUS_ACCESS_DENIED
    else if bad_extra r w then lift (set_win32_error ERROR_INVALID_INDEX);; mret None
    else if (i_extra_offset r =? -1) && has_bits (i_flags r) SET_WIN_EXTRA
    then lift (set_win32_error ERROR_INVALID_INDEX);; mret None
    else
      let d := w_data w in
      let old := if i_extra_offset r =? -1 then 0
                 else le_value (take (Z.to_nat (i_extra_size r)) (drop (Z.to_nat (i_extra_offset r)) (d_extra d))) in
      wupd a (info_window r);;
      mret (Some (mk_info_reply (w_style w) (w_ex_style w) (d_instance d) (d_user_data d) old (d_id d)))).

(** ** The tree *)

Fixpoint parent_handles (n : nat) (s : wstate) (ptr : option Z) : option (list Z) :=
  match ptr with
  | None => Some []
  | Some q =>
      match n with
      | O => None
      | S n => w ← wins s !! q; l ← parent_handles n s (w_parent w); Some (w_handle w :: l)
      end
  end.

(** The handles written until [len], which is unsigned, reaches 0. *)
Fixpoint fill_handles (l : list Z) (len : Z) : list Z :=
  match l with
  | [] => []
  | h :: l => if len =? 0 then [] else h :: fill_handles l (u32 (len - sizeof_user_handle))
  end.

(** The count, and the data of the reply; writing past its end is undefined. *)
Definition req_get_window_parents (handle max_size : Z) : W (Z * list Z) :=
  win ← get_window handle;
  match win with
  | None => mret (0, [])
  | Some a =>
      l ← wask (fun s => w ← wins s !! a; parent_handles (tree_fuel s) s (w_parent w));
      let total := Z.of_nat (length l) in
      let size := Z.min max_size (total * sizeof_user_handle) in
      if size =? 0 then mret (total, [])
      else
        ok ← lift mem_alloc;
        if negb ok then mret (total, [])
        else
          let data := fill_handles l size in
          if Z.of_nat (length data) * sizeof_user_handle <=? size then mret (total, data) else wopt None
  end.

Record tree_reply := mk_tree_reply {
  t_parent : Z;
  t_owner : Z;
  t_next_sibling : Z;
  t_prev_sibling : Z;
  t_first_sibling : Z;
  t_last_sibling : Z;
  t_first_child : Z;
  t_last_child : Z
}.

(** The handle of a window, or 0. *)
Definition handle_of (s : wstate) (ptr : option Z) : option Z :=
  match ptr with None => Some 0 | Some a => w ← wins s !! a; Some (w_handle w) end.

Definition tree_of (s : wstate) (a : Z) : option tree_reply :=
  w ← wins s !! a;
  first_child ← handle_of s (get_first_child w);
  last_child ← handle_of s (get_last_child w);
  match w_parent w with
  | None => Some (mk_tree_reply 0 0 0 0 0 0 first_child last_child)
  | Some p =>
      pw ← wins s !! p;
      '(next, prev) ← (if w_is_linked w then
                         n ← get_next_window s a; nh ← handle_of s n;
                         b ← get_prev_window s a; bh ← handle_of s b;
                         Some (nh, bh)
                       else Some (0, 0));
      first ← handle_of s (get_first_child pw);
      last ← handle_of s (get_last_child pw);
      Some (mk_tree_reply (w_handle pw) (w_owner w) next prev first last first_child last_child)
  end.

Definition req_get_window_tree (handle : Z) : W (option tree_reply) :=
  with_window handle (fun a => r ← wask (fun s => tree_of s a); mret (Some r)).

(** ** Positions *)

Record pos_req := mk_pos_req {
  q_flags : Z;
  q_paint_flags : Z;
  q_previous : Z;
  q_window : rectangle_t;
  q_client : rectangle_t;
  q_extra : list rectangle_t
}.

Record pos_reply := mk_pos_reply {
  new_style : Z;
  new_ex_style : Z;
  surface_win : Z;
  needs_update : bool
}.

(** The switch on [previous]; [None] where the handler returns. *)
Definition get_previous (handle : Z) (parent : option Z) : W (option winptr) :=
  let previous := i32 handle in
  if previous =? 0 then mret (Some WINPTR_TOP)
  else if previous =? 1 then mret (Some WINPTR_BOTTOM)
  else if previous =? -1 then mret (Some WINPTR_TOPMOST)
  else if previous =? -2 then mret (Some WINPTR_NOTOPMOST)
  else
    b ← get_window handle;
    match b with
    | None => mret None
    | Some b =>
        bw ← at_win b;
        if bool_decide (w_parent bw = parent) then mret (Some (Previous b)) else fail STATUS_INVALID_PARAMETER
    end.

(** The rectangles of the request, "relative to the parent", mirrored if it is laid out
    from right to left. *)
Definition req_pos (q : pos_req) (mirror : option rectangle_t) : pos :=
  let visible := default (q_window q) (q_extra q !! 0%nat) in
  let surface := default visible (q_extra q !! 1%nat) in
  let valid := default empty_rect (q_extra q !! 2%nat) in
  let m r := match mirror with None => r | Some c => mirror_rect c r end in
  mk_pos (m (q_window q)) (m (q_client q)) (m visible) (m surface) (m valid).

Definition layered_update (w : window) : bool := has_bits (w_ex_style w) WS_EX_LAYERED && negb (w_is_layered w).

(** The flags with what the handler adds. *)
Definition pos_flags (q : pos_req) (w : window) (a : Z) (previous : winptr) : Z :=
  let flags := if is_desktop_window w then Z.lor (q_flags q) SWP_NOZORDER else q_flags q in
  let flags := if negb (has_bits flags SWP_NOZORDER) && (if previous is Previous b then b =? a else false) then Z.lor flags SWP_NOZORDER else flags in
  if layered_update w then Z.lor flags SWP_NOREDRAW else flags.

Definition client_paint_flags (q : pos_req) (w : window) : window :=
  set_paint_flags w (Z.lor (clear_bits (w_paint_flags w) PAINT_CLIENT_FLAGS) (Z.land (q_paint_flags q) PAINT_CLIENT_FLAGS)).

Definition req_set_window_pos (handle : Z) (q : pos_req) : W (option pos_reply) :=
  with_window handle (fun a =>
    w ← at_win a;
    previous ← (if has_bits (q_flags q) SWP_NOZORDER || is_desktop_window w then mret (Some WINPTR_TOP)
                else get_previous (q_previous q) (w_parent w));
    match previous with
    | None => mret None
    | Some previous =>
        let flags := pos_flags q w a previous in
        if (right (q_window q) <? left (q_window q)) || (bottom (q_window q) <? top (q_window q))
        then fail STATUS_INVALID_PARAMETER
        else
          mirror ← match w_parent w with
                   | None => mret None
                   | Some p => pw ← at_win p; mret (if has_bits (w_ex_style pw) WS_EX_LAYOUTRTL then Some (w_client_rect pw) else None)
                   end;
          wupd a (client_paint_flags q);;
          w1 ← at_win a;
          (if has_bits (w_paint_flags w1) PAINT_HAS_PIXEL_FORMAT
           then s ← wask (fun s => update_pixel_format_flags s a); wput s else mret tt);;
          set_window_pos a previous flags (req_pos q mirror);;
          w' ← at_win a;
          (if has_bits (Z.land (w_style w') (w_style w)) WS_VISIBLE &&
              negb (bool_decide (w_client_rect w = w_client_rect w' /\ w_window_rect w = w_window_rect w'))
           then wcall (update_cursor_pos (w_desktop w')) else mret tt);;
          t ← wask (fun s => get_top_clipping_window s a);
          vis ← wask (fun s => is_visible s t);
          tw ← at_win t;
          mret (Some (if vis && has_bits (w_paint_flags tw) PAINT_HAS_SURFACE
                      then mk_pos_reply (w_style w') (w_ex_style w') (w_handle tw)
                             (has_bits (w_paint_flags tw) (Z.lor PAINT_HAS_PIXEL_FORMAT PAINT_PIXEL_FORMAT_CHILD))
                      else mk_pos_reply (w_style w') (w_ex_style w') 0 false))
    end).

Inductive coords_relative := COORDS_CLIENT | COORDS_WINDOW | COORDS_PARENT | COORDS_SCREEN.

(** The two rectangles in the coordinates that are asked for; [None] is any other value
    of the enumeration. *)
Definition relative_rects (s : wstate) (w : window) (relative : option coords_relative) :
    option (rectangle_t * rectangle_t) :=
  let wr := w_window_rect w in
  let cr := w_client_rect w in
  let rtl := has_bits (w_ex_style w) WS_EX_LAYOUTRTL in
  match relative with
  | Some COORDS_CLIENT =>
      let move r := offset_rect r (i32 (- left cr)) (i32 (- top cr)) in
      Some (if rtl then mirror_rect cr (move wr) else move wr, move cr)
  | Some COORDS_WINDOW =>
      let move r := offset_rect r (i32 (- left wr)) (i32 (- top wr)) in
      Some (move wr, if rtl then mirror_rect wr (move cr) else move cr)
  | Some COORDS_PARENT =>
      match w_parent w with
      | None => Some (wr, cr)
      | Some p =>
          pw ← wins s !! p;
          Some (if has_bits (w_ex_style pw) WS_EX_LAYOUTRTL
                then (mirror_rect (w_client_rect pw) wr, mirror_rect (w_client_rect pw) cr) else (wr, cr))
      end
  | Some COORDS_SCREEN =>
      wr ← client_to_screen_rect s (w_parent w) wr;
      cr ← client_to_screen_rect s (w_parent w) cr;
      Some (wr, cr)
  | None => Some (wr, cr)
  end.

Definition req_get_window_rectangles (handle : Z) (relative : option coords_relative) (dpi : Z) :
    W (option (rectangle_t * rectangle_t)) :=
  with_window handle (fun a =>
    w ← at_win a;
    (if relative is None then lift (set_error STATUS_INVALID_PARAMETER) else mret tt);;
    '(wr, cr) ← wask (fun s => relative_rects s w relative);
    wr ← wask (fun s => map_dpi_rect s a wr (w_dpi w) dpi);
    cr ← wask (fun s => map_dpi_rect s a cr (w_dpi w) dpi);
    mret (Some (wr, cr))).

(** The origin of the client area of a window on the screen, and whether it is mirrored. *)
Definition screen_origin (s : wstate) (a dpi : Z) : option (Z * Z * bool) :=
  w ← wins s !! a;
  let mirror := has_bits (w_ex_style w) WS_EX_LAYOUTRTL in
  let x := if mirror then i32 (right (w_client_rect w) - left (w_client_rect w)) else 0 in
  '(x, y) ← client_to_screen s (Some a) x 0;
  '(x, y) ← map_dpi_point s a x y (w_dpi w) dpi;
  Some (x, y, mirror).

(** Reply: the offset and whether to mirror; a handle that is not valid ends the request
    with what has been computed. *)
Definition req_get_windows_offset (from to dpi : Z) : W (Z * Z * bool) :=
  first ← (if from =? 0 then mret (Some (0, 0, false))
           else a ← get_window from;
                match a with None => mret None | Some a => r ← wask (fun s => screen_origin s a dpi); mret (Some r) end);
  match first with
  | None => mret (0, 0, false)
  | Some (x, y, mirror_from) =>
      second ← (if to =? 0 then mret (Some (0, 0, false))
                else a ← get_window to;
                     match a with None => mret None | Some a => r ← wask (fun s => screen_origin s a dpi); mret (Some r) end);
      match second with
      | None => mret (x, y, false)
      | Some (x', y', mirror_to) =>
          let x := i32 (x - x') in
          mret (if mirror_from : bool then i32 (- x) else x, i32 (y - y'), xorb mirror_from mirror_to)
      end
  end.

(** ** Regions *)

Definition map_win_region_to_screen (s : wstate) (w : window) (reg : region) : option region :=
  if is_desktop_window w then Some reg
  else
    '(x, y) ← client_to_screen s (w_parent w) (left (w_window_rect w)) (top (w_window_rect w));
    Some (offset_region reg x y).

Record visible_reply := mk_visible_reply {
  v_data : option (list rectangle_t);
  v_total_size : Z;
  v_top_win : Z;
  v_top_rect : rectangle_t;
  v_win_rect : rectangle_t;
  v_paint_flags : Z
}.

Definition req_get_visible_region (handle flags max_size : Z) : W (option visible_reply) :=
  with_window handle (fun a =>
    t ← wask (fun s => get_top_clipping_window s a);
    reg ← get_visible_region a flags;
    w ← at_win a;
    tw ← at_win t;
    '(data, size) ← match reg with
                    | None => mret (None, 0)
                    | Some reg =>
                        reg ← wask (fun s => map_win_region_to_screen s w reg);
                        lift (get_region_data_and_free reg max_size)
                    end;
    let c := w_client_rect w in
    '(top_rect, win_rect) ←
      (if is_desktop_window w
       then mret (w_surface_rect tw, mk_rect 0 0 (i32 (right c - left c)) (i32 (bottom c - top c)))
       else
         tr ← wask (fun s => client_to_screen_rect s (w_parent tw) (w_surface_rect tw));
         wr ← wask (fun s => client_to_screen_rect s (w_parent w) (if has_bits flags DCX_WINDOW then w_window_rect w else c));
         mret (tr, wr));
    mret (Some (mk_visible_reply data size (w_handle tw) top_rect win_rect (Z.land (w_paint_flags w) PAINT_CLIENT_FLAGS)))).

(** Reply: the data, the total size and the visible rectangle. *)
Definition req_get_surface_region (handle max_size : Z) : W (option (option (list rectangle_t) * Z * rectangle_t)) :=
  with_window handle (fun a =>
    vis ← wask (fun s => is_visible s a);
    if negb vis then mret None
    else
      reg ← get_surface_region a;
      w ← at_win a;
      '(data, size) ← match reg with None => mret (None, 0) | Some reg => lift (get_region_data_and_free reg max_size) end;
      mret (Some (data, size, w_visible_rect w))).

(** Reply: the data, and the total size. *)
Definition req_get_window_region (handle max_size : Z) : W (option (option (list rectangle_t) * Z)) :=
  with_window handle (fun a =>
    w ← at_win a;
    match w_win_region w with
    | None => mret None
    | Some r =>
        if has_bits (w_ex_style w) WS_EX_LAYOUTRTL then
          reg ← lift create_empty_region;
          match reg with
          | None => mret None
          | Some reg =>
              '(reg, ok) ← lift (copy_region reg r);
              if negb ok then mret None
              else
                r ← lift (get_region_data_and_free (mirror_region (w_window_rect w) reg) max_size);
                mret (Some r)
          end
        else r ← lift (get_region_data r max_size); mret (Some r)
    end).

(** The region of a request, mirrored for windows laid out from right to left; no data is
    no region. *)
Definition region_from_req (data : list rectangle_t) (w : window) (rect : rectangle_t) : W (option (option region)) :=
  match data with
  | [] => mret (Some None)
  | _ =>
      reg ← lift (create_region_from_req_data data);
      match reg with
      | None => mret None
      | Some reg => mret (Some (Some (if has_bits (w_ex_style w) WS_EX_LAYOUTRTL then mirror_region rect reg else reg)))
      end
  end.

Definition req_set_window_region (handle : Z) (data : list rectangle_t) (do_redraw : bool) : W unit :=
  win ← get_window handle;
  match win with
  | None => mret tt
  | Some a =>
      w ← at_win a;
      reg ← region_from_req data w (w_window_rect w);
      match reg with
      | None => mret tt
      | Some reg => set_window_region a reg do_redraw
      end
  end.

(** [thread_desktop] is the desktop of the current thread. *)
Definition req_redraw_window (thread_desktop : option Z) (handle flags : Z) (data : list rectangle_t) : W unit :=
  '(win, flags) ← (if handle =? 0 then
                     s ← wget;
                     mret (d ← thread_desktop; d ← desktops s !! d; top_window d, flags)
                   else
                     win ← get_window handle;
                     match win with
                     | None => mret (None, flags)
                     | Some a => w ← at_win a; mret (Some a, if is_desktop_window w then clear_bits flags RDW_ALLCHILDREN else flags)
                     end);
  match win with
  | None => mret tt
  | Some a =>
      vis ← wask (fun s => is_visible s a);
      if negb vis then mret tt
      else
        w ← at_win a;
        reg ← (if has_bits flags (Z.lor RDW_VALIDATE RDW_INVALIDATE) then region_from_req data w (w_client_rect w) else mret (Some None));
        match reg with
        | None => mret tt
        | Some reg => redraw a reg (has_bits flags RDW_INVALIDATE && has_bits flags RDW_FRAME) flags
        end
  end.

Record update_reply := mk_update_reply {
  u_child : Z;
  u_flags : Z;
  u_data : list rectangle_t;
  u_total_size : Z
}.

(** The last part of get_update_region: what has been handed out is valid. *)
Definition validate_update (a flags : Z) : W unit :=
  w ← at_win a;
  if has_bits flags (Z.lor UPDATE_PAINT UPDATE_INTERNALPAINT) then validate_parents a;; validate_whole_window a
  else
    (if has_bits flags UPDATE_NONCLIENT then validate_non_client a else mret tt);;
    if has_bits flags UPDATE_ERASE then
      clear_paint a (Z.lor PAINT_ERASE PAINT_DELAYED_ERASE);;
      if is_desktop_window w then validate_whole_window a else mret tt
    else mret tt.

(** The update region of a window on the screen; [None] ends the request. *)
Definition update_region_data (a flags max_size : Z) : W (option (list rectangle_t * Z)) :=
  w ← at_win a;
  match w_update_region w with
  | None => mret (Some ([], 0))
  | Some u =>
      reg ← lift create_empty_region;
      match reg with
      | None => mret None
      | Some reg =>
          '(reg, ok) ← lift (copy_region reg u);
          if negb ok then mret None
          else
            '(reg, _) ← (if has_bits flags UPDATE_CLIPCHILDREN && has_bits (w_style w) WS_CLIPCHILDREN
                         then clip_children a None reg (i32 (left (w_client_rect w) - left (w_window_rect w)))
                                                       (i32 (top (w_client_rect w) - top (w_window_rect w)))
                         else mret (reg, true));
            reg ← wask (fun s => map_win_region_to_screen s w reg);
            '(data, size) ← lift (get_region_data_and_free reg max_size);
            mret (match data with None => None | Some d => Some (d, size) end)
      end
  end.

Definition req_get_update_region (handle from_child flags max_size : Z) : W (option update_reply) :=
  with_window handle (fun a =>
    from ← (if from_child =? 0 then mret (Some None)
            else
              c ← get_window from_child;
              match c with
              | None => mret None
              | Some c =>
                  below ← wask (fun s => is_self_or_parent (tree_fuel s) s a (Some c));
                  if below : bool then mret (Some (Some c)) else fail STATUS_INVALID_PARAMETER
              end);
    match from with
    | None => mret None
    | Some from =>
        (if has_bits flags UPDATE_DELAYED_ERASE then set_paint (default a from) PAINT_DELAYED_ERASE else mret tt);;
        r ← wask (fun s => get_window_update_flags s a from flags);
        let '(rflags, child) := default (0, a) r in
        cw ← at_win child;
        if has_bits flags UPDATE_NOREGION then mret (Some (mk_update_reply (w_handle cw) rflags [] 0))
        else
          d ← update_region_data child flags max_size;
          match d with
          | None => mret (Some (mk_update_reply (w_handle cw) rflags [] 0))
          | Some (data, size) =>
              validate_update child rflags;;
              mret (Some (mk_update_reply (w_handle cw) rflags data size))
          end
    end).

(** ** The Z-order *)

(** Does the window cover part of the rectangle? *)
Definition obscures (s : wstate) (a : Z) (rect : rectangle_t) (w pw ptr : window) : option bool :=
  if negb (visible ptr) || has_bits (w_ex_style ptr) WS_EX_TRANSPARENT ||
     (w_is_layered ptr && has_bits (w_layered_flags ptr) LWA_COLORKEY) then Some false
  else
    tmp ← map_dpi_rect s a rect (w_dpi pw) (w_dpi w);
    let '(tmp, ok) := intersect_rect tmp (w_visible_rect ptr) in
    if negb ok then Some false
    else
      match w_win_region ptr with
      | None => Some true
      | Some r => Some (rect_in_region r (offset_rect tmp (i32 (- left (w_window_rect ptr))) (i32 (- top (w_window_rect ptr)))))
      end.

(** The first window of the list in front of [a] that covers part of the rectangle. *)
Fixpoint first_obscuring (s : wstate) (a : Z) (rect : rectangle_t) (w pw : window) (l : list Z) : option (option Z) :=
  match l with
  | [] => Some None
  | b :: l =>
      if b =? a then Some None
      else
        bw ← wins s !! b;
        o ← obscures s a rect w pw bw;
        if o : bool then Some (Some b) else first_obscuring s a rect w pw l
  end.

Definition req_update_window_zorder (handle : Z) (rect : rectangle_t) : W unit :=
  win ← get_window handle;
  match win with
  | None => mret tt
  | Some a =>
      w ← at_win a;
      match w_parent w with
      | None => mret tt
      | Some p =>
          vis ← wask (fun s => is_visible s a);
          if negb vis then mret tt
          else
            pw ← at_win p;
            b ← wask (fun s => first_obscuring s a rect w pw (w_children pw));
            match b with
            | None => mret tt
            | Some b =>
                bw ← at_win b;
                if negb (topmost bw) || topmost w
                then s ← wask (fun s => list_add_before (list_remove s a) b a); wput s
                else mret tt
            end
      end
  end.

(** ** Text and layered windows *)

Definition set_text (t : list Z) (d : window_data) : window_data :=
  mk_data (d_id d) (d_instance d) (d_is_unicode d) (d_user_data d) t (d_color_key d) (d_alpha d) (d_props d) (d_prop_alloc d) (d_extra d).

(** [text] are the whole characters of the request. *)
Definition req_set_window_text (handle : Z) (text : list Z) : W unit :=
  win ← get_window handle;
  match win with
  | None => mret tt
  | Some a =>
      ok ← (if text is [] then mret true else lift mem_alloc);
      if negb ok then mret tt else wupd a (fun w => set_data w (set_text text (w_data w)))
  end.

(** Reply: the length in characters, and the bytes of the text that fit. *)
Definition req_get_window_text (handle max_size : Z) : W (option (Z * list Z)) :=
  with_window handle (fun a =>
    w ← at_win a;
    match d_text (w_data w) with
    | [] => mret None
    | text =>
        let bytes := text ≫= le_bytes 2 in
        ok ← (if Z.min (Z.of_nat (length bytes)) max_size =? 0 then mret true else lift mem_alloc);
        mret (Some (Z.of_nat (length text), if ok : bool then take (Z.to_nat max_size) bytes else []))
    end).

Definition set_layered (color_key alpha : Z) (d : window_data) : window_data :=
  mk_data (d_id d) (d_instance d) (d_is_unicode d) (d_user_data d) (d_text d) color_key alpha (d_props d) (d_prop_alloc d) (d_extra d).

(** Reply: colour key, alpha and flags. *)
Definition req_get_window_layered_info (handle : Z) : W (option (Z * Z * Z)) :=
  with_window handle (fun a =>
    w ← at_win a;
    if w_is_layered w then mret (Some (d_color_key (w_data w), d_alpha (w_data w), w_layered_flags w))
    else lift (set_win32_error ERROR_INVALID_WINDOW_HANDLE);; mret None).

Definition req_set_window_layered_info (handle color_key alpha flags : Z) : W unit :=
  win ← get_window handle;
  match win with
  | None => mret tt
  | Some a =>
      w ← at_win a;
      if has_bits (w_ex_style w) WS_EX_LAYERED then
        let alpha := if has_bits flags LWA_ALPHA then alpha else if w_is_layered w then d_alpha (w_data w) else 0 in
        wupd a (fun w => set_is_layered (set_layered_flags (set_data w (set_layered color_key alpha (w_data w))) flags) true);;
        if w_is_layered w then mret tt
        else redraw a None true (Z.lor (Z.lor (Z.lor RDW_ALLCHILDREN RDW_INVALIDATE) RDW_ERASE) RDW_FRAME)
      else lift (set_win32_error ERROR_INVALID_WINDOW_HANDLE)
  end.
