(* ===== verification/WindowTree.v ===== *)
(** * The tree of windows and its order

    The invariant of the tree of windows, and how linking a window and changing its parent
    keep it together with the Z-order. *)

From Stdlib Require Import ZArith Lia Sorted.
From stdpp Require Import base list numbers option gmap.
From S2P Require Import Prelude Region UserHandles Windows.

#[local] Open Scope Z_scope.

(** * The tree of windows: invariant

    Lists and parents agree, every window leads to a root, and a window holds one
    reference on its parent.  Taking a window off its list and putting it on the list
    of its parent keeps the invariant; so do linking and changing parents. *)

(** ** Bits *)

Lemma has_bits_pow2 x k : 0 <= k -> has_bits x (2 ^ k) = Z.testbit x k.
Proof.
  intros Hk. unfold has_bits. destruct (Z.testbit x k) eqn:E.
  - apply negb_true_iff, Z.eqb_neq. intros H. apply (f_equal (fun z => Z.testbit z k)) in H.
    rewrite Z.land_spec, E, Z.pow2_bits_true, Z.bits_0 in H by done. done.
  - apply negb_false_iff, Z.eqb_eq, Z.bits_inj'. intros i Hi. rewrite Z.land_spec, Z.bits_0.
    destruct (decide (i = k)) as [->|Hne]; [by rewrite E|]. rewrite Z.pow2_bits_false by done. apply andb_false_r.
Qed.

(** Setting and clearing the bits of a flag. *)
Lemma topmost_bit w : topmost w = Z.testbit (w_ex_style w) 3.
Proof. exact (has_bits_pow2 (w_ex_style w) 3 ltac:(done)). Qed.

Lemma topmost_set w : topmost (set_topmost w) = true.
Proof. rewrite topmost_bit. cbn [set_topmost set_ex_style w_ex_style]. rewrite Z.lor_spec. apply orb_true_r. Qed.

Lemma topmost_clear w : topmost (clear_topmost w) = false.
Proof. rewrite topmost_bit. cbn [clear_topmost set_ex_style w_ex_style]. unfold clear_bits. rewrite Z.ldiff_spec. apply andb_false_r. Qed.

(** ** Running computations *)

Lemma wrun_bind {A B} (m : W A) (k : A -> W B) st a st' : m st = Some (a, st') -> mbind k m st = k a st'.
Proof. unfold mbind, W_bind. by intros ->. Qed.

Lemma wrun_ask {A} (f : wstate -> option A) s e a : f s = Some a -> wask f (s, e) = Some (a, (s, e)).
Proof. unfold wask. cbn. by intros ->. Qed.

Lemma wrun_at a s e w : wins s !! a = Some w -> at_win a (s, e) = Some (w, (s, e)).
Proof. exact (wrun_ask (fun s => wins s !! a) s e w). Qed.

Lemma wrun_get s e : wget (s, e) = Some (s, (s, e)).
Proof. done. Qed.

Lemma wrun_ret {A} (a : A) st : mret (M := W) a st = Some (a, st).
Proof. done. Qed.

Lemma wrun_put s s' e : wput s' (s, e) = Some (tt, (s', e)).
Proof. done. Qed.

Lemma wrun_opt {A} (o : option A) a st : o = Some a -> wopt o st = Some (a, st).
Proof. unfold wopt. by intros ->. Qed.

Lemma wrun_upd a f s e w : wins s !! a = Some w -> wupd a f (s, e) = Some (tt, (upd s a f, e)).
Proof. unfold wupd. cbn. by intros ->. Qed.

Lemma wrun_lift {A} (m : M A) s e a e' : m e = (a, e') -> lift m (s, e) = Some (a, (s, e')).
Proof. unfold lift. cbn. by intros ->. Qed.

Lemma wrun_op {A} (m : M (option A)) s e a e' : m e = (Some a, e') -> lift_op m (s, e) = Some (a, (s, e')).
Proof. unfold lift_op. cbn. by intros ->. Qed.

(** One step of a computation, with the run of its first part. *)
Ltac wstep H := erewrite wrun_bind; [|H]; cbv beta iota zeta; cbn [negb].

(** ** Lookups *)

Lemma lookup_upd s a f b : wins (upd s a f) !! b = if decide (b = a) then f <$> wins s !! b else wins s !! b.
Proof. cbn. case_decide; [subst; apply lookup_alter_eq|by apply lookup_alter_ne]. Qed.

Lemma lookup_upd_eq s a f w : wins s !! a = Some w -> wins (upd s a f) !! a = Some (f w).
Proof. intros H. rewrite lookup_upd, decide_True by done. by rewrite H. Qed.

Lemma lookup_upd_ne s a f b : b <> a -> wins (upd s a f) !! b = wins s !! b.
Proof. intros H. by rewrite lookup_upd, decide_False. Qed.

Lemma lookup_list_remove s a b : wins (list_remove s a) !! b = remove_entry a <$> wins s !! b.
Proof. apply lookup_fmap. Qed.

(** ** The way to the root *)

Inductive path (s : wstate) : Z -> list Z -> Prop :=
  | path_root a w : wins s !! a = Some w -> w_parent w = None -> path s a [a]
  | path_up a w p l : wins s !! a = Some w -> w_parent w = Some p -> path s p l -> path s a (a :: l).

Lemma path_det s a l l' : path s a l -> path s a l' -> l = l'.
Proof.
  intros H. revert l'. induction H as [a w Hw Hp|a w p l Hw Hp H IH]; intros l' H'; inversion H'; subst; try congruence.
  f_equal. apply IH. congruence.
Qed.

(** The rest of a path is a path. *)
Lemma path_suffix s a l l1 b l2 : path s a l -> l = l1 ++ b :: l2 -> path s b (b :: l2).
Proof.
  intros H. revert l1. induction H as [a w Hw Hp|a w p l Hw Hp H IH]; intros [|x l1] E; cbn in E; injection E as -> E.
  - subst l2. by econstructor.
  - by destruct l1.
  - subst l2. by econstructor.
  - by apply (IH l1).
Qed.

Lemma path_nodup s a l : path s a l -> NoDup l.
Proof.
  intros H. induction H as [a w Hw Hp|a w p l Hw Hp H IH]; [apply NoDup_singleton|].
  apply NoDup_cons. split; [|done]. intros (l1 & l2 & ->)%list_elem_of_split.
  pose proof (path_suffix s p _ l1 a l2 H eq_refl) as H1.
  pose proof (path_det s a _ _ H1 (path_up s a w p _ Hw Hp H)) as E. apply (f_equal length) in E. cbn in E.
  rewrite length_app in E. cbn in E. lia.
Qed.

Lemma path_in s a l b : path s a l -> b ∈ l -> is_Some (wins s !! b).
Proof.
  intros H (l1 & l2 & ->)%list_elem_of_split. pose proof (path_suffix s a _ l1 b l2 H eq_refl) as H1.
  inversion H1; by eexists.
Qed.

Lemma path_length s a l : path s a l -> (length l <= base.size (wins s))%nat.
Proof.
  intros H. rewrite <-size_dom, <-(size_list_to_set (C := gset Z) l) by (by eapply path_nodup).
  apply subseteq_size. intros b Hb%elem_of_list_to_set. apply elem_of_dom. by eapply path_in.
Qed.

Lemma path_fuel s a l : path s a l -> (length l < tree_fuel s)%nat.
Proof. intros H%path_length. unfold tree_fuel. lia. Qed.

(** Looking up what agrees in some respect. *)
Lemma fmap_some {A} (f : window -> A) (x y : option window) w :
  f <$> x = f <$> y -> y = Some w -> exists w', x = Some w' /\ f w' = f w.
Proof. intros E ->. destruct x as [w'|]; [|done]. exists w'. split; [done|]. by injection E. Qed.

(** Paths depend on the parents only. *)
Lemma path_parents s s' a l :
  (forall b, b ∈ l -> w_parent <$> wins s' !! b = w_parent <$> wins s !! b) -> path s a l -> path s' a l.
Proof.
  intros E H. induction H as [a w Hw Hp|a w p l Hw Hp H IH].
  - destruct (fmap_some w_parent _ _ w (E a ltac:(set_solver)) Hw) as (w' & Hw' & Ea). econstructor; [done|congruence].
  - destruct (fmap_some w_parent _ _ w (E a ltac:(set_solver)) Hw) as (w' & Hw' & Ea). eapply path_up; [exact Hw'|by rewrite Ea|].
    apply IH. intros b Hb. apply E. set_solver.
Qed.

(** ** The invariant *)

(** The list that holds the entry of a linked or unlinked window. *)
Definition entries (linked : bool) (w : window) : list Z := if linked then w_children w else w_unlinked w.

(** The window [x], if any, is on no list. *)
Record tree_but (x : option Z) (s : wstate) : Prop := {
  tb_child : forall p pw linked c, wins s !! p = Some pw -> c ∈ entries linked pw ->
    Some c <> x /\ exists cw, wins s !! c = Some cw /\ w_parent cw = Some p /\ w_is_linked cw = linked;
  tb_parent : forall a w p, wins s !! a = Some w -> w_parent w = Some p ->
    exists pw, wins s !! p = Some pw /\ (Some a <> x -> a ∈ entries (w_is_linked w) pw);
  tb_nodup : forall p pw linked, wins s !! p = Some pw -> NoDup (entries linked pw);
  tb_path : forall a, is_Some (wins s !! a) -> exists l, path s a l;
  tb_refs : forall p pw, wins s !! p = Some pw ->
    1 + Z.of_nat (length (w_children pw) + length (w_unlinked pw)) +
    (if x is Some a then if decide (w_parent <$> wins s !! a = Some (Some p)) then 1 else 0 else 0) <= w_refcount pw
}.

Definition tree_ok : wstate -> Prop := tree_but None.

(** What the invariant says of a window. *)
Definition links (w : window) : option Z * list Z * list Z * bool * Z :=
  (w_parent w, w_children w, w_unlinked w, w_is_linked w, w_refcount w).

Lemma links_entries w w' linked : links w = links w' -> entries linked w = entries linked w'.
Proof. intros [= _ E1 E2 _ _]. by destruct linked. Qed.

(** Nothing else matters. *)
Lemma tree_but_ext x s s' : (forall b, links <$> wins s' !! b = links <$> wins s !! b) -> tree_but x s -> tree_but x s'.
Proof.
  intros E T.
  assert (Hl : forall b w', wins s' !! b = Some w' -> exists w, wins s !! b = Some w /\ links w' = links w).
  { intros b w' H. destruct (fmap_some links _ _ w' (eq_sym (E b)) H) as (w & Hw & L). by exists w. }
  assert (Hr : forall b w, wins s !! b = Some w -> exists w', wins s' !! b = Some w' /\ links w' = links w).
  { intros b w H. exact (fmap_some links _ _ w (E b) H). }
  assert (Hp : forall b, w_parent <$> wins s' !! b = w_parent <$> wins s !! b).
  { intros b. specialize (E b). destruct (wins s !! b), (wins s' !! b); try done. cbn in *. injection E. by intros _ _ _ _ ->. }
  split.
  - intros p pw' linked c (pw & Hpw & L)%Hl Hc. rewrite (links_entries _ _ linked L) in Hc.
    destruct (tb_child _ _ T p pw linked c Hpw Hc) as (Hx & cw & Hcw & P & I). split; [done|].
    destruct (Hr _ _ Hcw) as (cw' & Hcw' & [= E1 _ _ E2 _]). exists cw'. split; [done|]. split; congruence.
  - intros a w' p (w & Hw & L)%Hl Hpa. injection L as L1 _ _ L2 _.
    destruct (tb_parent _ _ T a w p Hw ltac:(congruence)) as (pw & Hpw & Ha). destruct (Hr _ _ Hpw) as (pw' & Hpw' & L').
    exists pw'. split; [done|]. intros Hx. rewrite (links_entries _ _ _ L'), L2. by apply Ha.
  - intros p pw' linked (pw & Hpw & L)%Hl. rewrite (links_entries _ _ linked L). by apply (tb_nodup _ _ T p).
  - intros a [w' (w & Hw & _)%Hl]. destruct (tb_path _ _ T a ltac:(by eexists)) as [l P]. exists l.
    eapply path_parents; [|exact P]. auto.
  - intros p pw' (pw & Hpw & [= _ L2 L3 _ L5])%Hl. pose proof (tb_refs _ _ T p pw Hpw) as R. rewrite L2, L3, L5.
    destruct x as [a|]; [rewrite Hp|]; exact R.
Qed.

(** The walk to the root has enough fuel. *)
Lemma tree_path x s a : tree_but x s -> is_Some (wins s !! a) -> exists l, path s a l /\ (length l < tree_fuel s)%nat.
Proof. intros T H. destruct (tb_path _ _ T a H) as [l P]. exists l. split; [done|by eapply path_fuel]. Qed.

Lemma parent_ne x s a w p : tree_but x s -> wins s !! a = Some w -> w_parent w = Some p -> a <> p.
Proof.
  intros T Hw Hp ->. destruct (tb_path _ _ T p ltac:(by eexists)) as [l P]. pose proof (path_nodup _ _ _ P) as N.
  inversion P as [|? w0 q l' H0 Hq P']; subst; [congruence|]. assert (q = p) as -> by congruence.
  inversion P'; subst; apply NoDup_cons in N as [N _]; set_solver.
Qed.

(** A window is on one list only. *)
Lemma on_one_list x s a w p pw q qw linked :
  tree_but x s -> wins s !! a = Some w -> w_parent w = Some p -> wins s !! p = Some pw ->
  wins s !! q = Some qw -> a ∈ entries linked qw -> q = p /\ linked = w_is_linked w.
Proof.
  intros T Hw Hp Hpw Hqw Ha. destruct (tb_child _ _ T q qw linked a Hqw Ha) as (_ & cw & Hcw & P & I). split; congruence.
Qed.

(** ** Off the lists *)

Lemma filter_id (a : Z) (l : list Z) : a ∉ l -> filter (fun x => x <> a) l = l.
Proof.
  induction l as [|x l IH]; [done|]. intros [H1 H2]%not_elem_of_cons. rewrite filter_cons_True by congruence. by rewrite IH.
Qed.

Lemma filter_length (a : Z) (l : list Z) : NoDup l ->
  length l = (length (filter (fun x => x <> a) l) + (if decide (a ∈ l) then 1 else 0))%nat.
Proof.
  induction l as [|x l IH]; [done|]. intros [H1 H2]%NoDup_cons. destruct (decide (x = a)) as [->|Hx].
  - rewrite filter_cons_False by auto. rewrite (decide_True (P := a ∈ a :: l)) by set_solver. rewrite (filter_id a l H1). cbn. lia.
  - rewrite filter_cons_True by done. cbn [length]. rewrite (IH H2). destruct (decide (a ∈ l)) as [H|H].
    + rewrite decide_True by (by apply list_elem_of_further). lia.
    + rewrite decide_False by (apply not_elem_of_cons; auto). lia.
Qed.

Lemma entries_remove a linked w : entries linked (remove_entry a w) = filter (fun x => x <> a) (entries linked w).
Proof. by destruct linked. Qed.

(** The way to the root from a window whose parent changes to one that is not below it. *)
Lemma path_reparent s s' a p :
  (forall b, b <> a -> w_parent <$> wins s' !! b = w_parent <$> wins s !! b) ->
  w_parent <$> wins s' !! a = Some (Some p) ->
  forall lp, path s p lp -> a ∉ lp -> forall b l, path s b l -> exists l', path s' b l'.
Proof.
  intros Hne Ha lp Hlp Hnotin. assert (path s' p lp) as P' by (eapply path_parents; [|done]; intros b Hb; apply Hne; set_solver).
  assert (exists l, path s' a l) as (la & Pa).
  { destruct (wins s' !! a) as [w|] eqn:Hw; [|done]. cbn in Ha. injection Ha as Ha. exists (a :: lp). by econstructor. }
  intros b l H. induction H as [b w Hw Hp|b w q l Hw Hp H (l' & IH)]; (destruct (decide (b = a)) as [->|Hb]; [by eexists|]);
    destruct (fmap_some w_parent _ _ w (Hne b Hb) Hw) as (w' & Hw' & E).
  - exists [b]. econstructor; [done|congruence].
  - exists (b :: l'). eapply path_up; [exact Hw'|by rewrite E|done].
Qed.

(** Take a window off its list after giving it the parent [p]: the references of the
    old and the new parent have been adjusted. *)
Lemma remove_tree_ok s s1 a w p lp :
  tree_ok s -> wins s !! a = Some w -> path s p lp -> a ∉ lp ->
  (forall b linked, entries linked <$> wins s1 !! b = entries linked <$> wins s !! b) ->
  (forall b, w_is_linked <$> wins s1 !! b = w_is_linked <$> wins s !! b) ->
  (forall b, b <> a -> w_parent <$> wins s1 !! b = w_parent <$> wins s !! b) ->
  w_parent <$> wins s1 !! a = Some (Some p) ->
  (forall q qw qw1, wins s !! q = Some qw -> wins s1 !! q = Some qw1 ->
     w_refcount qw + (if decide (q = p) then 1 else 0) <= w_refcount qw1 + (if decide (w_parent w = Some q) then 1 else 0)) ->
  tree_but (Some a) (list_remove s1 a).
Proof.
  intros T Hw Hlp Hnot He Hi Hp Ha Hr.
  assert (Hb : forall b w', wins (list_remove s1 a) !! b = Some w' -> exists w1 w0, wins s1 !! b = Some w1 /\ wins s !! b = Some w0 /\ w' = remove_entry a w1).
  { intros b w'. rewrite lookup_list_remove. destruct (wins s1 !! b) as [w1|] eqn:H1; [|done]. intros [= <-].
    destruct (fmap_some w_is_linked _ _ w1 (eq_sym (Hi b)) H1) as (w0 & H0 & _). by exists w1, w0. }
  assert (Hent : forall b w1 w0 linked, wins s1 !! b = Some w1 -> wins s !! b = Some w0 -> entries linked w1 = entries linked w0).
  { intros b w1 w0 linked H1 H0. specialize (He b linked). rewrite H1, H0 in He. by injection He. }
  assert (Hex : forall b w0, wins s !! b = Some w0 -> exists w1, wins s1 !! b = Some w1 /\ w_is_linked w1 = w_is_linked w0 /\
                  wins (list_remove s1 a) !! b = Some (remove_entry a w1)).
  { intros b w0 H0. destruct (fmap_some w_is_linked _ _ w0 (Hi b) H0) as (w1 & H1 & E). exists w1. rewrite lookup_list_remove, H1. done. }
  assert (Hpar : forall b, w_parent <$> wins (list_remove s1 a) !! b = w_parent <$> wins s1 !! b).
  { intros b. rewrite lookup_list_remove. by destruct (wins s1 !! b). }
  split.
  - intros q qw' linked c Hq Hc. destruct (Hb q qw' Hq) as (qw1 & qw & H1 & H0 & ->).
    rewrite entries_remove, (Hent q qw1 qw) in Hc by done. apply list_elem_of_filter in Hc as [Hca Hc].
    split; [congruence|]. destruct (tb_child _ _ T q qw linked c H0 Hc) as (_ & cw & Hcw & P & I).
    destruct (Hex c cw Hcw) as (cw1 & Hc1 & E & Hc2). exists (remove_entry a cw1). split; [done|]. split; [|by cbn; congruence].
    pose proof (Hp c Hca) as Hpc. rewrite Hc1, Hcw in Hpc. cbn in *. congruence.
  - intros b w' q Hbw Hq. destruct (Hb b w' Hbw) as (w1 & w0 & H1 & H0 & ->). cbn in Hq.
    destruct (decide (b = a)) as [->|Hba].
    + rewrite H1 in Ha. cbn in Ha. assert (q = p) as -> by congruence. inversion Hlp; subst;
        (edestruct Hex as (pw1 & _ & _ & Hpw1); [eassumption|]); eexists; (split; [exact Hpw1|done]).
    + pose proof (Hp b Hba) as Hpb. rewrite H1, H0 in Hpb. cbn in Hpb.
      destruct (tb_parent _ _ T b w0 q H0 ltac:(congruence)) as (qw & Hqw & Hin). destruct (Hex q qw Hqw) as (qw1 & Hq1 & E & Hq2).
      exists (remove_entry a qw1). split; [done|]. intros _. rewrite entries_remove. apply list_elem_of_filter. split; [done|].
      cbn [remove_entry set_lists w_is_linked]. rewrite (Hent q qw1 qw) by done. specialize (Hi b). rewrite H1, H0 in Hi. cbn in Hi.
      injection Hi as ->. by apply Hin.
  - intros q qw' linked Hq. destruct (Hb q qw' Hq) as (qw1 & qw & H1 & H0 & ->). rewrite entries_remove, (Hent q qw1 qw) by done.
    apply NoDup_filter, (tb_nodup _ _ T q qw linked H0).
  - intros b [w' Hbw]. destruct (Hb b w' Hbw) as (w1 & w0 & H1 & H0 & ->). destruct (tb_path _ _ T b ltac:(by eexists)) as [l P].
    apply (path_reparent s _ a p) with lp l; try done; [|by rewrite Hpar]. intros c Hc. rewrite Hpar. by apply Hp.
  - intros q qw' Hq. destruct (Hb q qw' Hq) as (qw1 & qw & H1 & H0 & ->). rewrite Hpar, Ha. cbn [remove_entry set_lists w_children w_unlinked w_refcount].
    pose proof (tb_refs _ _ T q qw H0) as R. pose proof (Hr q qw qw1 H0 H1) as R1.
    pose proof (Hent q qw1 qw true H1 H0) as E1. pose proof (Hent q qw1 qw false H1 H0) as E2. cbn in E1, E2. rewrite E1, E2.
    pose proof (filter_length a (w_children qw) (tb_nodup _ _ T q qw true H0)) as L1.
    pose proof (filter_length a (w_unlinked qw) (tb_nodup _ _ T q qw false H0)) as L2.
    assert ((if decide (w_parent w = Some q) then 1 else 0) <= Z.of_nat (if decide (a ∈ w_children qw) then 1 else 0) + Z.of_nat (if decide (a ∈ w_unlinked qw) then 1 else 0)).
    { destruct (decide (w_parent w = Some q)) as [Hpq|Hpq]; [|lia]. destruct (tb_parent _ _ T a w q Hw Hpq) as (qw2 & Hq2 & Hin). specialize (Hin ltac:(done)).
      assert (qw2 = qw) as -> by congruence. destruct (w_is_linked w); cbn in Hin; repeat case_decide; done || lia. }
    assert ((if decide (Some (Some p) = Some (Some q)) then 1 else 0) = (if decide (q = p) then 1 else 0)) as -> by (repeat case_decide; congruence).
    lia.
Qed.

(** ** On a list *)

Definition set_entries (linked : bool) (l : list Z) (w : window) : window :=
  if linked then set_lists w l (w_unlinked w) else set_lists w (w_children w) l.

Lemma entries_set linked linked' l w :
  entries linked' (set_entries linked l w) = if decide (linked' = linked) then l else entries linked' w.
Proof. by destruct linked, linked'. Qed.

Lemma NoDup_middle (a : Z) l1 l2 : NoDup (l1 ++ l2) -> a ∉ l1 ++ l2 -> NoDup (l1 ++ a :: l2).
Proof. intros H1 H2. rewrite <-Permutation_middle. by apply NoDup_cons. Qed.

(** Put a window that is off the lists on one of the lists of its parent. *)
Lemma insert_tree_ok s a w p pw linked l1 l2 :
  tree_but (Some a) s -> wins s !! a = Some w -> w_parent w = Some p -> wins s !! p = Some pw ->
  entries linked pw = l1 ++ l2 ->
  tree_ok (upd (upd s p (set_entries linked (l1 ++ a :: l2))) a (fun w => set_is_linked w linked)).
Proof.
  intros T Hw Hp Hpw E. set (s' := upd _ _ _). pose proof (parent_ne _ _ _ _ _ T Hw Hp) as Hne.
  assert (Hl : forall b, wins s' !! b = (fun w => (if decide (b = a) then fun w => set_is_linked w linked else id)
                 ((if decide (b = p) then set_entries linked (l1 ++ a :: l2) else id) w)) <$> wins s !! b).
  { intros b. unfold s'. rewrite !lookup_upd. destruct (wins s !! b); repeat case_decide; done. }
  assert (Hpar : forall b, w_parent <$> wins s' !! b = w_parent <$> wins s !! b).
  { intros b. rewrite Hl. destruct (wins s !! b); [|done]. cbn. repeat case_decide; destruct linked; done. }
  assert (Hb : forall b w', wins s' !! b = Some w' -> exists w0, wins s !! b = Some w0 /\ w_parent w' = w_parent w0 /\ w_refcount w' = w_refcount w0 /\
                 (forall k, entries k w' = if decide (b = p /\ k = linked) then l1 ++ a :: l2 else entries k w0) /\
                 (b <> a -> w_is_linked w' = w_is_linked w0)).
  { intros b w'. rewrite Hl. destruct (wins s !! b) as [w0|]; [|done]. intros [= <-]. exists w0. split; [done|].
    repeat case_decide; subst; try done; destruct linked; (split_and!; try done);
      intros []; repeat case_decide; try done; naive_solver. }
  assert (Hr : forall b w0, wins s !! b = Some w0 -> exists w', wins s' !! b = Some w' /\ w_parent w' = w_parent w0 /\
                 (forall k, entries k w' = if decide (b = p /\ k = linked) then l1 ++ a :: l2 else entries k w0) /\
                 w_is_linked w' = if decide (b = a) then linked else w_is_linked w0).
  { intros b w0 H0. rewrite Hl, H0. eexists. split; [done|].
    repeat case_decide; subst; try done; destruct linked; (split_and!; try done);
      intros []; repeat case_decide; try done; naive_solver. }
  split.
  - intros q qw' k c (qw & Hq & _ & _ & Hent & _)%Hb Hc. split; [done|]. rewrite Hent in Hc.
    assert (c = a /\ q = p /\ k = linked \/ c ∈ entries k qw) as [(-> & -> & ->)|Hc'].
    { destruct (decide (q = p /\ k = linked)) as [[-> ->]|]; [|by right]. assert (qw = pw) as -> by congruence. rewrite E.
      apply elem_of_app in Hc as [Hc|[->|Hc]%elem_of_cons]; [right|by left|right]; apply elem_of_app; auto. }
    + destruct (Hr a w Hw) as (w' & H1 & H2 & _ & H3). exists w'. rewrite decide_True in H3 by done. split_and!; [done|congruence|done].
    + destruct (tb_child _ _ T q qw k c Hq Hc') as (Hca & cw & Hcw & P & I). destruct (Hr c cw Hcw) as (cw' & H1 & H2 & _ & H3).
      rewrite decide_False in H3 by congruence. exists cw'. split_and!; [done|congruence|congruence].
  - intros b w' q Hbw Hq. destruct (Hb b w' Hbw) as (w0 & H0 & Hp0 & _ & _ & Hi). rewrite Hp0 in Hq.
    destruct (tb_parent _ _ T b w0 q H0 Hq) as (qw & Hqw & Hin). destruct (Hr q qw Hqw) as (qw' & Hq' & _ & Hent & _).
    exists qw'. split; [done|]. intros _. rewrite Hent. destruct (decide (b = a)) as [->|Hba].
    + assert (q = p) as -> by congruence. destruct (Hr a w Hw) as (w1 & H1 & _ & _ & H3). rewrite decide_True in H3 by done.
      assert (w_is_linked w' = linked) as -> by congruence. rewrite decide_True by done. set_solver.
    + rewrite (Hi Hba). specialize (Hin ltac:(congruence)).
      destruct (decide (q = p /\ w_is_linked w0 = linked)) as [[-> Hk]|]; [|done].
      assert (qw = pw) as -> by congruence. rewrite Hk, E in Hin. set_solver.
  - intros q qw' k (qw & Hq & _ & _ & Hent & _)%Hb. rewrite Hent. pose proof (tb_nodup _ _ T q qw k Hq) as N.
    destruct (decide (q = p /\ k = linked)) as [[-> ->]|]; [|done]. assert (qw = pw) as -> by congruence. rewrite E in N.
    apply NoDup_middle; [done|]. rewrite <-E. intros Ha. by destruct (tb_child _ _ T p pw linked a Hpw Ha).
  - intros b [w' (w0 & H0 & _)%Hb]. destruct (tb_path _ _ T b ltac:(by eexists)) as [l P]. exists l. eapply path_parents; [|done]. auto.
  - intros q qw' (qw & Hq & _ & Hrc & Hent & _)%Hb. pose proof (tb_refs _ _ T q qw Hq) as R. rewrite Hrc, Z.add_0_r.
    change (w_children qw') with (entries true qw'). change (w_unlinked qw') with (entries false qw'). rewrite !Hent.
    cbv iota in R. rewrite Hw in R. change (w_parent <$> Some w) with (Some (w_parent w)) in R. rewrite Hp in R.
    destruct (decide (q = p)) as [->|Hqp].
    + rewrite decide_True in R by congruence. assert (qw = pw) as -> by congruence.
      apply (f_equal length) in E. rewrite length_app in E.
      destruct linked.
      * rewrite decide_True by done. rewrite decide_False by (intros [_ ?]; done). cbn in E |- *. rewrite length_app. cbn [length]. lia.
      * rewrite decide_False by (intros [_ ?]; done). rewrite decide_True by done. cbn in E |- *. rewrite length_app. cbn [length]. lia.
    + rewrite decide_False in R by congruence. rewrite !decide_False by (intros [? _]; done). cbn. lia.
Qed.

(** * The Z-order

    What link_window does to the tree: the window goes to its place among the children
    of its parent, topmost windows stay in front, and the result says whether the order
    has changed.  Changing the parent of a window. *)

(** ** Neighbours *)

Definition anchor_of (linked : bool) (p : Z) : anchor := if linked then Children p else Unlinked p.

Lemma on_its_list_in f s a p pw linked x :
  (forall hd l, a ∉ l -> f hd l a = None) ->
  (forall q qw k, wins s !! q = Some qw -> a ∈ entries k qw -> q = p /\ k = linked) ->
  wins s !! p = Some pw -> f (anchor_of linked p) (entries linked pw) a = Some x ->
  on_its_list f s a = Some x.
Proof.
  intros Hf Hu Hp Hx. unfold on_its_list. set (g := fun '(q, w) => _).
  assert (Hg : forall q qw y, wins s !! q = Some qw -> g (q, qw) = Some y -> q = p /\ y = x).
  { intros q qw y Hq. unfold g. destruct (f (Children q) (w_children qw) a) as [z|] eqn:E.
    - intros [= <-]. destruct (decide (a ∈ w_children qw)) as [Hin|Hin]; [|by rewrite Hf in E].
      destruct (Hu q qw true Hq Hin) as [-> <-]. split; [done|]. assert (qw = pw) as -> by congruence. cbn in Hx. congruence.
    - intros E2. destruct (decide (a ∈ w_unlinked qw)) as [Hin|Hin]; [|by rewrite Hf in E2].
      destruct (Hu q qw false Hq Hin) as [-> <-]. split; [done|]. assert (qw = pw) as -> by congruence. cbn in Hx. congruence. }
  assert (Hgp : g (p, pw) = Some x).
  { unfold g. destruct linked; cbn in Hx; [by rewrite Hx|]. rewrite Hf; [done|]. intros Hin. by destruct (Hu p pw true Hp Hin). }
  assert (Hin : x ∈ omap g (map_to_list (wins s))) by (apply list_elem_of_omap; exists (p, pw); split; [by apply elem_of_map_to_list|done]).
  destruct (omap g (map_to_list (wins s))) as [|y l] eqn:E; [by apply elem_of_nil in Hin|]. cbn. f_equal.
  assert (y ∈ omap g (map_to_list (wins s))) as ([q qw] & Hq%elem_of_map_to_list & Hy)%list_elem_of_omap by (rewrite E; set_solver).
  by apply (Hg q qw y).
Qed.

Lemma prev_in_notin hd l a : a ∉ l -> prev_in hd l a = None.
Proof. revert hd. induction l as [|x l IH]; intros hd; [done|]. intros [H1 H2]%not_elem_of_cons. cbn. rewrite decide_False by done. auto. Qed.

Lemma next_in_notin hd l a : a ∉ l -> next_in hd l a = None.
Proof. induction l as [|x l IH]; [done|]. intros [H1 H2]%not_elem_of_cons. cbn. rewrite decide_False by done. auto. Qed.

(** The entry before the place behind [l1]. *)
Definition before (hd : anchor) (l1 : list Z) : anchor := if last l1 is Some b then Entry b else hd.

Lemma prev_in_mid hd l1 l2 a : a ∉ l1 -> prev_in hd (l1 ++ a :: l2) a = Some (before hd l1).
Proof.
  revert hd. induction l1 as [|x l1 IH]; intros hd; cbn; [by rewrite decide_True|]. intros [H1 H2]%not_elem_of_cons.
  rewrite decide_False, IH by done. f_equal. unfold before. destruct l1 as [|y l1]; [done|].
  change (last (x :: y :: l1)) with (last (y :: l1)). destruct (last (y :: l1)) eqn:L; [done|by apply last_None in L].
Qed.

Lemma next_in_mid hd l1 l2 a : a ∉ l1 -> next_in hd (l1 ++ a :: l2) a = Some (if l2 is y :: _ then Entry y else hd).
Proof.
  induction l1 as [|x l1 IH]; cbn; [by rewrite decide_True|]. intros [H1 H2]%not_elem_of_cons. rewrite decide_False by done. by apply IH.
Qed.

(** The places in a list without duplicates are told apart by what is before them. *)
Lemma before_inj hd l1 l2 k1 k2 :
  (forall b, hd <> Entry b) -> NoDup (l1 ++ l2) -> l1 ++ l2 = k1 ++ k2 -> before hd l1 = before hd k1 -> l1 = k1.
Proof.
  intros Hhd N E Hb. unfold before in Hb.
  destruct (last l1) as [b|] eqn:L1, (last k1) as [c|] eqn:K1; try (exfalso; by eapply Hhd); [|by apply last_None in L1, K1; congruence].
  injection Hb as <-. apply last_Some in L1 as [l1' ->]. apply last_Some in K1 as [k1' ->].
  assert (length l1' = length k1') as El.
  { apply (NoDup_lookup _ _ _ b N).
    - by rewrite <-app_assoc, lookup_app_r, Nat.sub_diag by lia.
    - rewrite E. by rewrite <-app_assoc, lookup_app_r, Nat.sub_diag by lia. }
  apply app_inj_1 in E; [tauto|]. rewrite !length_app. lia.
Qed.

Lemma insert_after_notin b a l : b ∉ l -> insert_after b a l = l.
Proof. induction l as [|x l IH]; [done|]. intros [H1 H2]%not_elem_of_cons. cbn. rewrite decide_False by done. by rewrite IH. Qed.

Lemma insert_after_mid b a l1 l2 : b ∉ l1 -> insert_after b a (l1 ++ b :: l2) = l1 ++ b :: a :: l2.
Proof.
  induction l1 as [|x l1 IH]; cbn; [by rewrite decide_True|]. intros [H1 H2]%not_elem_of_cons. rewrite decide_False by done. by rewrite IH.
Qed.

Lemma set_lists_id w : set_lists w (w_children w) (w_unlinked w) = w.
Proof. by destruct w. Qed.

(** ** Places *)

(** Is the window at that address topmost? *)
Definition top_at (s : wstate) (b : Z) : bool := if wins s !! b is Some w then topmost w else false.

(** Topmost windows come first. *)
Definition zsorted (s : wstate) : list Z -> Prop := StronglySorted (fun x y => top_at s y = true -> top_at s x = true).

(** Extended styles that agree but for WS_EX_TOPMOST. *)
Definition but_topmost (x y : Z) : Prop := forall i, i <> 3 -> Z.testbit x i = Z.testbit y i.

Lemma but_topmost_refl x : but_topmost x x.
Proof. done. Qed.

Lemma but_topmost_set x : but_topmost (Z.lor x WS_EX_TOPMOST) x.
Proof. intros i Hi. rewrite Z.lor_spec. change WS_EX_TOPMOST with (2 ^ 3). rewrite Z.pow2_bits_false by done. apply orb_false_r. Qed.

Lemma but_topmost_clear x : but_topmost (clear_bits x WS_EX_TOPMOST) x.
Proof.
  intros i Hi. unfold clear_bits. rewrite Z.ldiff_spec. change WS_EX_TOPMOST with (2 ^ 3). rewrite Z.pow2_bits_false by done. apply andb_true_r.
Qed.

(** The place for a window that has or has not the style. *)
Record fits (s : wstate) (t : bool) (l1 l2 : list Z) : Prop := {
  fit_above : t = true -> forall x, x ∈ l1 -> top_at s x = true;
  fit_below : forall y, y ∈ l2 -> top_at s y = true -> t = true
}.

(** Where each kind of request puts the window: [t] tells whether it is topmost. *)
Definition placed (s : wstate) (previous : winptr) (w : window) (l1 l2 : list Z) (t : bool) : Prop :=
  match previous with
  | WINPTR_BOTTOM => l2 = [] /\ t = false
  | WINPTR_TOPMOST => l1 = [] /\ t = true
  | WINPTR_TOP | WINPTR_NOTOPMOST =>
      (forall x, x ∈ l1 -> top_at s x = true) /\
      (topmost w = true -> l1 = [] /\ t = true) /\
      (topmost w = false -> match l2 with
                            | [] => t = false
                            | b :: _ => (t = false /\ top_at s b = false) \/
                                        (t = true /\ top_at s b = true /\ w_handle <$> wins s !! b = Some (w_owner w))
                            end)
  | Previous b => last l1 = Some b
  end.

Lemma find_top_spec s owner l :
  (forall b, b ∈ l -> is_Some (wins s !! b)) ->
  exists above below keep, find_top s owner l = Some (above, below, keep) /\ l = above ++ below /\
    (forall x, x ∈ above -> top_at s x = true) /\
    match below with
    | [] => keep = false
    | b :: _ => (keep = false /\ top_at s b = false) \/
                (keep = true /\ top_at s b = true /\ w_handle <$> wins s !! b = Some owner)
    end.
Proof.
  induction l as [|b l IH]; intros Hin; cbn [find_top]; [by exists [], [], false; split_and!; [..|intros ? ?%elem_of_nil|]|].
  destruct (Hin b ltac:(set_solver)) as [w Hw]. rewrite Hw. cbn [mbind option_bind].
  assert (top_at s b = topmost w) as Ht by (unfold top_at; by rewrite Hw).
  destruct (topmost w) eqn:E; cbn [negb].
  - destruct (Z.eqb_spec (w_handle w) owner) as [Ho|Ho].
    + exists [], (b :: l), true. split_and!; [done..|by intros ? ?%elem_of_nil|]. right. by rewrite Hw, <-Ho.
    + destruct IH as (above & below & keep & -> & -> & H1 & H2); [set_solver|]. cbn. exists (b :: above), below, keep.
      split_and!; [done..| |done]. intros x [->|Hx]%elem_of_cons; auto.
  - exists [], (b :: l), false. split_and!; [done..|by intros ? ?%elem_of_nil|]. by left.
Qed.

(** A sorted list seen from a place. *)
Lemma zsorted_split s l1 l2 : zsorted s (l1 ++ l2) -> forall x y, x ∈ l1 -> y ∈ l2 -> top_at s y = true -> top_at s x = true.
Proof.
  induction l1 as [|z l1 IH]; intros H x y Hx Hy; [by apply elem_of_nil in Hx|].
  apply StronglySorted_inv in H as [H1 H2]. apply elem_of_cons in Hx as [->|Hx]; [|by apply (IH H1 x y)].
  rewrite Forall_forall in H2. apply H2. apply elem_of_app. by right.
Qed.

Lemma zsorted_insert s s' a l1 l2 :
  (forall x, x ∈ l1 ++ l2 -> top_at s' x = top_at s x) ->
  fits s (top_at s' a) l1 l2 -> zsorted s (l1 ++ l2) -> zsorted s' (l1 ++ a :: l2).
Proof.
  intros E F H. unfold zsorted in *. induction l1 as [|z l1 IH]; cbn in *.
  - constructor.
    + clear F. induction l2 as [|y l2 IH]; [constructor|]. apply StronglySorted_inv in H as [H1 H2]. constructor; [apply IH; [set_solver|done]|].
      rewrite Forall_forall in H2 |- *. intros x Hx. specialize (H2 x Hx). rewrite !E by set_solver. done.
    + rewrite Forall_forall. intros y Hy. rewrite E by done. by apply (fit_below _ _ _ _ F).
  - apply StronglySorted_inv in H as [H1 H2]. constructor.
    + apply IH; [set_solver| |done]. split; [|apply F]. intros Ht x Hx. apply (fit_above _ _ _ _ F Ht). set_solver.
    + rewrite Forall_forall in H2 |- *. intros x Hx. rewrite (E z) by set_solver.
      apply elem_of_app in Hx as [Hx|[->|Hx]%elem_of_cons].
      * rewrite E by set_solver. apply H2. set_solver.
      * intros Ht. apply (fit_above _ _ _ _ F Ht). set_solver.
      * rewrite E by set_solver. apply H2. set_solver.
Qed.

(** ** Linking *)

Lemma upd_ext s a w f g : wins s !! a = Some w -> f w = g w -> upd s a f = upd s a g.
Proof. intros H E. unfold upd. f_equal. apply map_eq. intros b. destruct (decide (b = a)) as [->|Hb]; [rewrite !lookup_alter_eq, H; cbn; congruence|by rewrite !lookup_alter_ne]. Qed.

Lemma upd_same s a w f : wins s !! a = Some w -> f w = w -> upd s a f = s.
Proof.
  intros H E. transitivity (upd s a id); [by apply (upd_ext s a w)|]. destruct s as [m u d q c]. unfold upd, set_wins. cbn. f_equal.
  apply map_eq. intros b. destruct (decide (b = a)) as [->|Hb]; [rewrite lookup_alter_eq; cbn in H; by rewrite H|by rewrite lookup_alter_ne].
Qed.

Lemma set_ex_same w : set_ex_style w (w_ex_style w) = w.
Proof. by destruct w. Qed.

(** Adding behind a sibling. *)
Lemma list_add_after_spec x s a b p pw l1 l2 :
  tree_but x s -> wins s !! p = Some pw -> w_children pw = l1 ++ b :: l2 ->
  list_add_after s b a = Some (upd s p (set_children ((l1 ++ [b]) ++ a :: l2))).
Proof.
  intros T Hp E. assert (b ∈ entries true pw) as Hb by (cbn; rewrite E; set_solver).
  destruct (tb_child _ _ T p pw true b Hp Hb) as (_ & bw & Hbw & Hpb & Hlb).
  assert (Hu : forall q qw k, wins s !! q = Some qw -> b ∈ entries k qw -> q = p /\ k = true).
  { intros q qw k Hq Hk. rewrite <-Hlb. by apply (on_one_list x s b bw p pw q qw k). }
  pose proof (tb_nodup _ _ T p pw true Hp) as N. cbn in N. rewrite E in N.
  assert (b ∉ l1) as Hb1 by (apply NoDup_app in N as (_ & N & _); intros H; apply (N b H); set_solver).
  unfold list_add_after, entry_prev. rewrite (on_its_list_in prev_in s b p pw true (before (Children p) l1)); [|by intros; apply prev_in_notin|done|done|].
  2: { cbn. rewrite E. by apply prev_in_mid. }
  cbn [mbind option_bind]. f_equal. unfold upd. f_equal. apply map_eq. intros q. rewrite lookup_fmap. destruct (decide (q = p)) as [->|Hq].
  - rewrite lookup_alter_eq, Hp. cbn. f_equal. unfold set_children. f_equal.
    + rewrite E, insert_after_mid by done. by rewrite <-app_assoc.
    + apply insert_after_notin. intros Hin. by destruct (Hu p pw false Hp Hin).
  - rewrite lookup_alter_ne by done. destruct (wins s !! q) as [qw|] eqn:Hqw; [|done]. cbn. f_equal.
    rewrite !insert_after_notin; [apply set_lists_id|..]; intros Hin; [by destruct (Hu q qw false Hqw Hin)|by destruct (Hu q qw true Hqw Hin)].
Qed.

(** What a place has to satisfy: the window goes between [l1] and [l2], and its extended
    style becomes [ex]. *)
Definition good_place (s : wstate) (previous : winptr) (w pw : window) (l1 l2 : list Z) (ex : Z) : Prop :=
  w_children pw = l1 ++ l2 /\ but_topmost ex (w_ex_style w) /\
  (zsorted s (l1 ++ l2) -> fits s (Z.testbit ex 3) l1 l2) /\ placed s previous w l1 l2 (Z.testbit ex 3).

Section place.
Context (s : wstate) (a : Z) (w : window) (p : Z) (pw : window).
Hypotheses (T : tree_but (Some a) s) (Hw : wins s !! a = Some w) (Hp : w_parent w = Some p) (Hpw : wins s !! p = Some pw).

Definition put_at (l1 l2 : list Z) (ex : Z) : wstate :=
  upd (upd s p (set_children (l1 ++ a :: l2))) a (fun w => set_ex_style w ex).

Lemma still_there l : wins (upd s p (set_children l)) !! a = Some w.
Proof. rewrite lookup_upd_ne; [done|]. by apply (parent_ne _ _ _ _ _ T Hw). Qed.

Lemma put_set l1 l2 : put_at l1 l2 (Z.lor (w_ex_style w) WS_EX_TOPMOST) = upd (upd s p (set_children (l1 ++ a :: l2))) a set_topmost.
Proof. apply (upd_ext _ a w); [apply still_there|done]. Qed.

Lemma put_clear l1 l2 : put_at l1 l2 (clear_bits (w_ex_style w) WS_EX_TOPMOST) = upd (upd s p (set_children (l1 ++ a :: l2))) a clear_topmost.
Proof. apply (upd_ext _ a w); [apply still_there|done]. Qed.

Lemma put_same l1 l2 : put_at l1 l2 (w_ex_style w) = upd s p (set_children (l1 ++ a :: l2)).
Proof. apply (upd_same _ a w); [by apply still_there|apply set_ex_same]. Qed.

Lemma bit_set : Z.testbit (Z.lor (w_ex_style w) WS_EX_TOPMOST) 3 = true.
Proof. rewrite Z.lor_spec. apply orb_true_r. Qed.

Lemma bit_clear : Z.testbit (clear_bits (w_ex_style w) WS_EX_TOPMOST) 3 = false.
Proof. unfold clear_bits. rewrite Z.ldiff_spec. apply andb_false_r. Qed.

Lemma child_there b : b ∈ w_children pw -> exists bw, wins s !! b = Some bw /\ top_at s b = topmost bw /\ forall l, wins (upd s p (set_children l)) !! b = Some bw.
Proof.
  intros Hb. destruct (tb_child _ _ T p pw true b Hpw Hb) as (_ & bw & Hbw & Hpb & _). exists bw. split; [done|].
  split; [unfold top_at; by rewrite Hbw|]. intros l. rewrite lookup_upd_ne; [done|]. by apply (parent_ne _ _ _ _ _ T Hbw).
Qed.

Lemma place_at_top : exists l1 l2 ex, good_place s WINPTR_TOP w pw l1 l2 ex /\
  (if topmost w then Some (upd s p (set_children (a :: w_children pw)))
   else '(above, below, keep) ← find_top s (w_owner w) (w_children pw);
        let s := upd s p (set_children (above ++ a :: below)) in Some (if keep : bool then upd s a set_topmost else s)) =
  Some (put_at l1 l2 ex).
Proof.
  pose proof (topmost_bit w) as Hbit. destruct (topmost w) eqn:Et.
  - exists [], (w_children pw), (w_ex_style w). split; [|by rewrite put_same]. split; [done|]. split; [done|]. rewrite <-Hbit.
    split; [split; [by intros ? ? ?%elem_of_nil|done]|]. cbn. split_and!; [by intros ? ?%elem_of_nil|done|congruence].
  - destruct (find_top_spec s (w_owner w) (w_children pw)) as (above & below & keep & -> & El & H1 & H2).
    { intros b (bw & Hbw & _)%child_there. by eexists. }
    cbn [mbind option_bind]. set (ex := if keep then Z.lor (w_ex_style w) WS_EX_TOPMOST else w_ex_style w).
    assert (Z.testbit ex 3 = keep) as Hk by (unfold ex; destruct keep; [apply bit_set|done]). exists above, below, ex.
    split; [|unfold ex; destruct keep; [by rewrite put_set|by rewrite put_same]]. unfold good_place. rewrite Hk.
    split; [done|]. split; [unfold ex; destruct keep; [apply but_topmost_set|done]|]. split.
    + intros Hs. split; [by intros _|]. intros y Hy Hty. destruct below as [|b below]; [by apply elem_of_nil in Hy|].
      destruct H2 as [[-> Hb]|[-> _]]; [|done]. exfalso. apply elem_of_cons in Hy as [->|Hy]; [congruence|].
      rewrite (cons_middle b), app_assoc in Hs. rewrite (zsorted_split s _ _ Hs b y) in Hb; [done|set_solver|done|done].
    + cbn. split_and!; [done|congruence|done].
Qed.

(** Behind [b]: a window is as topmost as its new neighbours make it. *)
Lemma fits_behind b l1 l2 t :
  (t = true -> top_at s b = true) ->
  (top_at s b = true -> match l2 with [] => True | y :: _ => top_at s y = true -> t = true end) ->
  zsorted s ((l1 ++ [b]) ++ l2) -> fits s t (l1 ++ [b]) l2.
Proof.
  intros Ht1 Ht2 Hs. assert (Hb' : forall y, y ∈ l2 -> top_at s y = true -> top_at s b = true).
  { intros y Hy Hty. apply (zsorted_split s _ _ Hs b y); [set_solver|done|done]. }
  split.
  - intros Ht x Hx. apply elem_of_app in Hx as [Hx|Hx]; [|apply list_elem_of_singleton in Hx as ->; auto].
    rewrite <-app_assoc in Hs. apply (zsorted_split s _ _ Hs x b); [done|set_solver|auto].
  - intros y Hy Hty. specialize (Ht2 (Hb' y Hy Hty)). destruct l2 as [|z k]; [by apply elem_of_nil in Hy|].
    apply Ht2. apply elem_of_cons in Hy as [->|Hy]; [done|]. rewrite (cons_middle z), app_assoc in Hs.
    apply (zsorted_split s _ _ Hs z y); [set_solver|done|done].
Qed.

Lemma next_behind b l1 l2 : w_children pw = l1 ++ b :: l2 ->
  get_next_window (upd s p (set_children ((l1 ++ [b]) ++ a :: l2))) a = Some (head l2).
Proof.
  intros E. unfold get_next_window. rewrite still_there. cbn [mbind option_bind]. rewrite Hp. cbn [mbind option_bind].
  assert (a ∉ l1 ++ b :: l2) as Hal by (rewrite <-E; intros H; by destruct (tb_child _ _ T p pw true a Hpw H)).
  rewrite (on_its_list_in next_in _ a p (set_children ((l1 ++ [b]) ++ a :: l2) pw) true (if l2 is y :: _ then Entry y else Children p)).
  - cbn. destruct l2; cbn; [by rewrite Z.eqb_refl|done].
  - by intros; apply next_in_notin.
  - intros q qw k Hq Hin. rewrite lookup_upd in Hq. case_decide as D.
    + subst q. rewrite Hpw in Hq. injection Hq as <-. split; [done|]. destruct k; [done|]. by destruct (tb_child _ _ T p pw false a Hpw Hin).
    + by destruct (tb_child _ _ T q qw k a Hq Hin).
  - by apply lookup_upd_eq.
  - cbn. apply next_in_mid. set_solver.
Qed.

Lemma place_behind b : b ∈ w_children pw -> exists l1 l2 ex, good_place s (Previous b) w pw l1 l2 ex /\
  place_window s a (Previous b) = Some (put_at l1 l2 ex).
Proof.
  intros Hb. destruct (list_elem_of_split _ _ Hb) as (l1 & l2 & E). destruct (child_there b Hb) as (bw & Hbw & Htb & Hb1).
  pose proof (topmost_bit w) as Hbit. exists (l1 ++ [b]), l2. unfold place_window. rewrite Hw. cbn [mbind option_bind]. rewrite Hp.
  cbn [mbind option_bind]. rewrite Hpw. cbn [mbind option_bind]. rewrite (list_add_after_spec (Some a) s a b p pw l1 l2 T Hpw E).
  cbn [mbind option_bind]. rewrite Hb1. cbn [mbind option_bind]. unfold good_place. cbn [placed]. rewrite last_snoc.
  assert (w_children pw = (l1 ++ [b]) ++ l2) as E' by (by rewrite E, <-app_assoc). rewrite E'.
  destruct (topmost bw) eqn:Etb; cbn [negb].
  - rewrite (next_behind b l1 l2 E). cbn [mbind option_bind]. destruct l2 as [|n l2]; cbn [head].
    + exists (w_ex_style w). rewrite put_same. split; [|done]. split; [done|]. split; [done|]. split; [|done].
      intros Hs. apply fits_behind; [congruence|congruence || done|done].
    + destruct (child_there n) as (nw & Hnw & Htn & Hn1); [rewrite E; set_solver|]. rewrite Hn1. cbn [mbind option_bind].
      exists (if topmost nw then Z.lor (w_ex_style w) WS_EX_TOPMOST else w_ex_style w).
      split; [|destruct (topmost nw); [by rewrite put_set|by rewrite put_same]].
      split; [done|]. split; [destruct (topmost nw); [apply but_topmost_set|done]|]. split; [|done].
      intros Hs. apply fits_behind; [done| |done]. intros _. rewrite Htn. intros ->. apply bit_set.
  - exists (clear_bits (w_ex_style w) WS_EX_TOPMOST). rewrite put_clear. split; [|done]. split; [done|]. split; [apply but_topmost_clear|].
    split; [|done]. rewrite bit_clear. intros Hs. apply fits_behind; [congruence|congruence || done|done].
Qed.

Lemma place_window_spec previous : (forall b, previous = Previous b -> b ∈ w_children pw) ->
  exists l1 l2 ex, good_place s previous w pw l1 l2 ex /\ place_window s a previous = Some (put_at l1 l2 ex).
Proof.
  intros Hprev. destruct previous as [| | | |b]; [..|by apply place_behind, Hprev]; unfold place_window; rewrite Hw; cbn [mbind option_bind];
    rewrite Hp; cbn [mbind option_bind]; rewrite Hpw; cbn [mbind option_bind]; [exact place_at_top|..|exact place_at_top].
  - exists (w_children pw), [], (clear_bits (w_ex_style w) WS_EX_TOPMOST). split; [|by rewrite put_clear].
    unfold good_place. rewrite app_nil_r, bit_clear. split; [done|]. split; [apply but_topmost_clear|]. split; [|done].
    split; [done|by intros ? ?%elem_of_nil].
  - exists [], (w_children pw), (Z.lor (w_ex_style w) WS_EX_TOPMOST). split; [|by rewrite put_set].
    unfold good_place. rewrite bit_set. split; [done|]. split; [apply but_topmost_set|]. split; [|done]. split; [by intros ? ? ?%elem_of_nil|done].
Qed.
End place.

(** The windows after a window has been put among the children of [p]. *)
Definition linked_state (s : wstate) (a p : Z) (l : list Z) (ex : Z) : wstate :=
  upd (upd (list_remove s a) p (set_children l)) a (fun w => set_is_linked (set_ex_style w ex) true).

Definition relink (a p : Z) (l : list Z) (ex : Z) (b : Z) (w : window) : window :=
  let w := remove_entry a w in
  let w := if decide (b = p) then set_children l w else w in
  if decide (b = a) then set_is_linked (set_ex_style w ex) true else w.

Lemma lookup_linked s a p l ex b : wins (linked_state s a p l ex) !! b = relink a p l ex b <$> wins s !! b.
Proof.
  unfold linked_state, relink. rewrite !lookup_upd, lookup_list_remove. destruct (wins s !! b); repeat case_decide; done.
Qed.

Lemma wstate_eq s s' : (forall b, wins s' !! b = wins s !! b) -> users s' = users s -> desktops s' = desktops s ->
  queues s' = queues s -> calls s' = calls s -> s' = s.
Proof. destruct s, s'. cbn. intros H -> -> -> ->. f_equal. by apply map_eq. Qed.

Lemma linked_ex s a p l ex e : linked_state (upd s a (fun w => set_ex_style w e)) a p l ex = linked_state s a p l ex.
Proof.
  apply wstate_eq; try done. intros b. rewrite !lookup_linked, lookup_upd. case_decide as D; [|done].
  destruct (wins s !! b); [|done]. cbn. f_equal. unfold relink. rewrite !(decide_True (P := b = a)) by done. by case_decide.
Qed.

Definition zorder_ok (s : wstate) : Prop := forall p pw, wins s !! p = Some pw -> zsorted s (w_children pw).

Lemma zsorted_ext s s' l : (forall x, x ∈ l -> top_at s' x = top_at s x) -> zsorted s l -> zsorted s' l.
Proof.
  intros E. induction 1 as [|x l H IH F]; constructor; [apply IH; set_solver|]. rewrite Forall_forall in F |- *. intros y Hy.
  rewrite !E by set_solver. by apply F.
Qed.

Lemma zsorted_filter s a (l : list Z) : zsorted s l -> zsorted s (filter (fun x => x <> a) l).
Proof.
  induction 1 as [|x l H IH F]; [constructor|]. destruct (decide (x = a)); [by rewrite filter_cons_False by auto|].
  rewrite filter_cons_True by done. constructor; [done|]. rewrite Forall_forall in F |- *. intros y [_ Hy]%list_elem_of_filter. by apply F.
Qed.

(** The part of link_window that moves the window. *)
Definition move_window (s : wstate) (a : Z) (previous : winptr) : option wstate :=
  s ← place_window (list_remove s a) a previous; Some (upd s a (fun w => set_is_linked w true)).

Lemma move_window_spec s a w p pw previous :
  tree_but (Some a) (list_remove s a) -> wins s !! a = Some w -> w_parent w = Some p -> wins s !! p = Some pw ->
  (forall b, previous = Previous b -> b <> a /\ b ∈ w_children pw) ->
  exists l1 l2 ex, move_window s a previous = Some (linked_state s a p (l1 ++ a :: l2) ex) /\
    good_place (list_remove s a) previous (remove_entry a w) (remove_entry a pw) l1 l2 ex /\
    tree_ok (linked_state s a p (l1 ++ a :: l2) ex) /\
    ((forall q qw, wins s !! q = Some qw -> zsorted s (filter (fun x => x <> a) (w_children qw))) ->
     zorder_ok (linked_state s a p (l1 ++ a :: l2) ex)) /\
    entry_prev (linked_state s a p (l1 ++ a :: l2) ex) a = Some (before (Children p) l1).
Proof.
  intros T Hw Hp Hpw Hprev. set (s0 := list_remove s a) in *.
  assert (wins s0 !! a = Some (remove_entry a w)) as Hw0 by (unfold s0; by rewrite lookup_list_remove, Hw).
  assert (wins s0 !! p = Some (remove_entry a pw)) as Hpw0 by (unfold s0; by rewrite lookup_list_remove, Hpw).
  destruct (place_window_spec s0 a (remove_entry a w) p (remove_entry a pw) T Hw0 Hp Hpw0 previous) as (l1 & l2 & ex & G & E).
  { intros b Hb. destruct (Hprev b Hb) as [H1 H2]. apply (list_elem_of_filter (fun x => x <> a)). by split. }
  exists l1, l2, ex. set (s' := linked_state s a p (l1 ++ a :: l2) ex).
  assert (move_window s a previous = Some s') as ->.
  { unfold move_window. fold s0. rewrite E. cbn [mbind option_bind]. f_equal. apply wstate_eq; try done. intros b. unfold s', linked_state, put_at.
    fold s0. rewrite !lookup_upd. case_decide; [|done]. by destruct (if decide _ then _ else _). }
  destruct G as (El & Gx & Gf & Gp).
  assert (tree_ok s') as T'.
  { eapply tree_but_ext; [|exact (insert_tree_ok s0 a _ p _ true l1 l2 T Hw0 Hp Hpw0 El)]. intros b. unfold s', linked_state. fold s0.
    rewrite !lookup_upd. destruct (wins s0 !! b); repeat case_decide; done. }
  assert (Hn : a ∉ l1 ++ l2) by (rewrite <-El; cbn; intros [? _]%list_elem_of_filter; done).
  assert (Hp' : wins s' !! p = Some (relink a p (l1 ++ a :: l2) ex p pw)) by (unfold s'; by rewrite lookup_linked, Hpw).
  assert (Htop : forall x, x <> a -> top_at s' x = top_at s x).
  { intros x Hx. unfold top_at, s'. rewrite lookup_linked. destruct (wins s !! x); [|done]. cbn. unfold relink. rewrite (decide_False (P := x = a)) by done. by case_decide. }
  assert (Hc : w_children (relink a p (l1 ++ a :: l2) ex p pw) = l1 ++ a :: l2).
  { unfold relink. rewrite (decide_True (P := p = p)) by done. case_decide as D; [|done]. subst. by destruct (parent_ne _ _ _ _ _ T Hw0 Hp). }
  split; [done|]. split; [done|]. split; [done|]. split.
  - intros Hz q qw' Hq. unfold s' in Hq. rewrite lookup_linked in Hq. destruct (wins s !! q) as [qw|] eqn:Hqw; [|done]. injection Hq as <-.
    specialize (Hz q qw Hqw). destruct (decide (q = p)) as [->|Hqp].
    + assert (qw = pw) as -> by congruence. rewrite Hc. cbn in El. rewrite El in Hz.
      assert (Hz0 : zsorted s0 (l1 ++ l2)). { eapply zsorted_ext; [|exact Hz]. intros x _. unfold top_at, s0. rewrite lookup_list_remove. by destruct (wins s !! x). }
      assert (Ht' : top_at s' a = Z.testbit ex 3).
      { unfold top_at, s'. rewrite lookup_linked, Hw. cbn. unfold relink. rewrite (decide_True (P := a = a)) by done. case_decide; apply topmost_bit. }
      apply (zsorted_insert s0); [|rewrite Ht'; by apply Gf|done]. intros x Hx. rewrite Htop by (intros ->; done).
      unfold top_at, s0. rewrite lookup_list_remove. by destruct (wins s !! x).
    + assert (w_children (relink a p (l1 ++ a :: l2) ex q qw) = filter (fun x => x <> a) (w_children qw)) as ->.
      { unfold relink. rewrite (decide_False (P := q = p)) by done. by case_decide. }
      eapply zsorted_ext; [|exact Hz]. intros x [Hx _]%list_elem_of_filter. by apply Htop.
  - assert (wins s' !! a = Some (relink a p (l1 ++ a :: l2) ex a w)) as Hw' by (unfold s'; by rewrite lookup_linked, Hw).
    assert (w_parent (relink a p (l1 ++ a :: l2) ex a w) = Some p /\ w_is_linked (relink a p (l1 ++ a :: l2) ex a w) = true) as [Hpa Hla].
    { unfold relink. rewrite (decide_True (P := a = a)) by done. by case_decide. }
    unfold entry_prev. eapply (on_its_list_in prev_in s' a p _ true); [intros; by apply prev_in_notin| |exact Hp'|].
    + intros q qw k Hq Hin. rewrite <-Hla. by apply (on_one_list None s' a _ p _ q qw k T' Hw' Hpa Hp' Hq Hin).
    + cbn. rewrite Hc. apply prev_in_mid. set_solver.
Qed.

(** ** link_window *)

(** A window given as [previous] is another linked child of the parent. *)
Definition good_previous (s : wstate) (a p : Z) (previous : winptr) : Prop :=
  forall b, previous = Previous b -> b <> a /\ exists pw, wins s !! p = Some pw /\ b ∈ w_children pw.

(** Removing a window from a well-formed tree. *)
Lemma list_remove_ok s a w p : tree_ok s -> wins s !! a = Some w -> w_parent w = Some p -> tree_but (Some a) (list_remove s a).
Proof.
  intros T Hw Hp. destruct (tb_path _ _ T a ltac:(by eexists)) as [l P]. pose proof (path_nodup _ _ _ P) as N.
  inversion P as [|? w0 q lp H0 Hq P']; subst; [congruence|]. assert (q = p) as -> by congruence. apply NoDup_cons in N as [N _].
  apply (remove_tree_ok s s a w p lp); try done; [by rewrite Hw; cbn; rewrite Hp|]. intros r rw rw1 H1 H2.
  assert (rw1 = rw) as -> by congruence. repeat case_decide; congruence || lia.
Qed.

(** The place of a linked window. *)
Lemma linked_split s a w p pw :
  tree_ok s -> wins s !! a = Some w -> w_parent w = Some p -> wins s !! p = Some pw -> w_is_linked w = true ->
  exists k1 k2, w_children pw = k1 ++ a :: k2 /\ a ∉ k1 ++ k2 /\ NoDup (k1 ++ k2) /\
    filter (fun x => x <> a) (w_children pw) = k1 ++ k2 /\ entry_prev s a = Some (before (Children p) k1).
Proof.
  intros T Hw Hp Hpw Hl. destruct (tb_parent _ _ T a w p Hw Hp) as (pw' & Hpw' & Hin). assert (pw' = pw) as -> by congruence.
  rewrite Hl in Hin. specialize (Hin ltac:(done)). cbn in Hin. destruct (list_elem_of_split _ _ Hin) as (k1 & k2 & E).
  pose proof (tb_nodup _ _ T p pw true Hpw) as N. cbn in N. rewrite E, <-Permutation_middle in N. apply NoDup_cons in N as [Hn N].
  exists k1, k2. rewrite E. split_and!; [done..|by rewrite filter_app, filter_cons_False, !filter_id by (done || auto || set_solver)|].
  eapply (on_its_list_in prev_in s a p pw true); [by intros; apply prev_in_notin| |done|cbn; rewrite E; apply prev_in_mid; set_solver].
  intros q qw k Hq Hin'. rewrite <-Hl. by apply (on_one_list None s a w p pw q qw k).
Qed.

Lemma links_only s s' : (forall b, links <$> wins s' !! b = links <$> wins s !! b) -> tree_ok s -> tree_ok s'.
Proof. apply tree_but_ext. Qed.

(** Linking a linked window where it is changes nothing. *)
Lemma linked_same s a w p pw :
  tree_ok s -> wins s !! a = Some w -> w_parent w = Some p -> wins s !! p = Some pw -> w_is_linked w = true ->
  linked_state s a p (w_children pw) (w_ex_style w) = s.
Proof.
  intros T Hw Hp Hpw Hl. pose proof (parent_ne _ _ _ _ _ T Hw Hp) as Hne. apply wstate_eq; try done. intros b. rewrite lookup_linked.
  destruct (wins s !! b) as [bw|] eqn:Hb; [|done]. cbn. f_equal. unfold relink.
  assert (Hf : forall k, (b = p -> k = false) -> filter (fun x => x <> a) (entries k bw) = entries k bw).
  { intros k Hk. apply filter_id. intros Hin. destruct (on_one_list None s a w p pw b bw k T Hw Hp Hpw Hb Hin) as [-> ->]. rewrite Hk in Hl; done. }
  pose proof (Hf false ltac:(done)) as F2. cbn in F2. destruct (decide (b = p)) as [->|Hbp].
  - rewrite decide_False by done. assert (bw = pw) as -> by congruence. unfold set_children, remove_entry. cbn. rewrite F2. by destruct pw.
  - pose proof (Hf true ltac:(done)) as F1. cbn in F1. unfold remove_entry. rewrite F1, F2, set_lists_id.
    case_decide; [|done]. assert (bw = w) as -> by congruence. rewrite set_ex_same. destruct w. cbn in Hl. by subst.
Qed.

(** The window is put into its place among the linked children of its parent, which keeps
    the tree in order; the result tells whether that changes the order. *)
Record linked_well (s : wstate) (a p : Z) (w pw : window) (previous : winptr) (l1 l2 : list Z) (ex : Z) (changed : bool) : Prop := {
  lw_list : filter (fun x => x <> a) (w_children pw) = l1 ++ l2;
  lw_style : but_topmost ex (w_ex_style w);
  lw_tree : tree_ok (linked_state s a p (l1 ++ a :: l2) ex);
  lw_order : zorder_ok s -> zorder_ok (linked_state s a p (l1 ++ a :: l2) ex);
  lw_changed : changed = false <-> w_is_linked w = true /\ w_children pw = l1 ++ a :: l2;
  lw_placed : match previous with
              | WINPTR_TOP | WINPTR_BOTTOM | WINPTR_TOPMOST => placed s previous w l1 l2 (Z.testbit ex 3)
              | WINPTR_NOTOPMOST => topmost w = true \/ w_is_linked w = false -> placed s previous (clear_topmost w) l1 l2 (Z.testbit ex 3)
              | Previous b => last l1 = Some b
              end
}.

(** Places are described by the other windows. *)
Lemma placed_ext s s' previous w w' l1 l2 t :
  (forall x, x ∈ l1 ++ l2 -> top_at s' x = top_at s x /\ w_handle <$> wins s' !! x = w_handle <$> wins s !! x) ->
  topmost w' = topmost w -> w_owner w' = w_owner w -> placed s previous w l1 l2 t -> placed s' previous w' l1 l2 t.
Proof.
  intros E Et Eo. destruct previous; cbn; try done; rewrite Et, Eo; intros (H1 & H2 & H3); (split_and!; [|done|]).
  1, 3: intros x Hx; destruct (E x) as [-> _]; [set_solver|auto].
  all: intros Ht; specialize (H3 Ht); destruct l2 as [|b l2]; [done|]; destruct (E b) as [-> ->]; [set_solver|done].
Qed.

(** Taking the window off and clearing its style does not matter to the others. *)
Lemma remove_entry_same s a x f : x <> a ->
  top_at (list_remove (upd s a f) a) x = top_at s x /\
  w_handle <$> wins (list_remove (upd s a f) a) !! x = w_handle <$> wins s !! x.
Proof.
  intros Hx. unfold top_at. rewrite lookup_list_remove, lookup_upd_ne by done. by destruct (wins s !! x).
Qed.

Lemma link_window_spec s a w p pw previous :
  tree_ok s -> wins s !! a = Some w -> w_parent w = Some p -> wins s !! p = Some pw -> good_previous s a p previous ->
  exists l1 l2 ex changed, link_window s a previous = Some (linked_state s a p (l1 ++ a :: l2) ex, changed) /\
    linked_well s a p w pw previous l1 l2 ex changed.
Proof.
  intros T Hw Hp Hpw Hprev. unfold link_window. rewrite Hw. cbn [mbind option_bind].
  destruct (if previous is WINPTR_NOTOPMOST then negb (topmost w) && w_is_linked w else false) eqn:Hno.
  - destruct previous; try done. apply andb_true_iff in Hno as [Ht%negb_true_iff Hl].
    destruct (linked_split s a w p pw T Hw Hp Hpw Hl) as (l1 & l2 & E & Hn & N & Ef & _).
    exists l1, l2, (w_ex_style w), false. rewrite <-E, (linked_same s a w p pw T Hw Hp Hpw Hl). split; [done|]. split; rewrite <-?E.
    + done.
    + done.
    + by rewrite (linked_same s a w p pw T Hw Hp Hpw Hl).
    + by rewrite (linked_same s a w p pw T Hw Hp Hpw Hl).
    + done.
    + intros [?|?]; congruence.
  - set (s1 := if previous is WINPTR_NOTOPMOST then upd s a clear_topmost else s).
    set (w1 := if previous is WINPTR_NOTOPMOST then clear_topmost w else w).
    assert (Hs1 : s1 = upd s a (fun w => set_ex_style w (w_ex_style w1))).
    { unfold s1, w1. destruct previous; try (symmetry; by apply (upd_same s a w), set_ex_same). by apply (upd_ext s a w). }
    assert (T1 : tree_ok s1).
    { apply (links_only s); [|done]. intros b. rewrite Hs1, lookup_upd. case_decide; [|done]. by destruct (wins s !! b). }
    assert (Hw1 : wins s1 !! a = Some w1).
    { rewrite Hs1, (lookup_upd_eq s a _ w) by done. f_equal. unfold w1. by destruct previous, w. }
    assert (Hp1 : w_parent w1 = Some p) by (unfold w1; by destruct previous).
    assert (Hpw1 : wins s1 !! p = Some pw) by (rewrite Hs1, lookup_upd_ne; [done|by apply not_eq_sym, (parent_ne _ _ _ _ _ T Hw)]).
    assert (Hl1 : w_is_linked w1 = w_is_linked w) by (unfold w1; by destruct previous).
    destruct (move_window_spec s1 a w1 p pw previous (list_remove_ok s1 a w1 p T1 Hw1 Hp1) Hw1 Hp1 Hpw1) as (l1 & l2 & ex & E & (El & Gx & _ & Gp) & T' & Z' & Ep).
    { intros b Hb. destruct (Hprev b Hb) as (Hba & pw' & Hpw' & Hin). assert (pw' = pw) as -> by congruence. done. }
    assert (linked_state s1 a p (l1 ++ a :: l2) ex = linked_state s a p (l1 ++ a :: l2) ex) as Els by (rewrite Hs1; apply linked_ex).
    rewrite Els in *. unfold move_window in E. destruct (place_window (list_remove s1 a) a previous) as [s2|]; [|done].
    cbn [mbind option_bind] in E |- *. apply (inj Some) in E. rewrite E. eexists l1, l2, ex, _. split; [done|]. cbn in El. split; [done| |done|..].
    + intros i Hi. rewrite (Gx i Hi). unfold w1. destruct previous; try done. cbn. by apply but_topmost_clear.
    + intros Z. apply Z'. intros q qw Hq. eapply zsorted_ext; [|apply zsorted_filter].
      { intros x [Hx _]%list_elem_of_filter. unfold top_at. rewrite Hs1. by rewrite lookup_upd_ne. }
      rewrite Hs1 in Hq. rewrite lookup_upd in Hq. case_decide; [subst q; rewrite Hw in Hq; injection Hq as <-; cbn; by apply (Z a)|by apply (Z q)].
    + rewrite bool_decide_eq_false. rewrite Ep. split.
      * intros D. apply dec_stable in D. destruct (w_is_linked w) eqn:Hl; [|done]. split; [done|].
        destruct (linked_split s1 a w1 p pw T1 Hw1 Hp1 Hpw1 Hl1) as (k1 & k2 & Ek & Hn & N & Ef & Epk). rewrite Ef in El. rewrite Epk in D.
        injection D as D. assert (k1 = l1) as ->; [|apply app_inv_head in El as <-; done]. by apply (before_inj (Children p) k1 k2 l1 l2).
      * intros [Hl Ek] D. apply D. rewrite Hl. rewrite Hl in Hl1.
        destruct (linked_split s1 a w1 p pw T1 Hw1 Hp1 Hpw1 Hl1) as (k1 & k2 & Ek' & Hn & N & Ef & ->).
        assert (a ∉ l1 ++ l2) as Hn' by (rewrite <-El; intros [? _]%list_elem_of_filter; done).
        rewrite <-(prev_in_mid (Children p) l1 l2 a), <-(prev_in_mid (Children p) k1 k2 a) by set_solver. congruence.
    + assert (Hx : forall x, x ∈ l1 ++ l2 -> top_at s x = top_at (list_remove s1 a) x /\ w_handle <$> wins s !! x = w_handle <$> wins (list_remove s1 a) !! x).
      { intros x Hin. rewrite <-El in Hin. apply list_elem_of_filter in Hin as [Hxa _]. rewrite Hs1.
        destruct (remove_entry_same s a x (fun w => set_ex_style w (w_ex_style w1)) Hxa) as [-> ->]. done. }
      destruct previous; try exact Gp; [..|intros _]; by apply (placed_ext (list_remove s1 a) s _ (remove_entry a w1)).
Qed.

(** ** Changing the parent *)

Definition win_ok (s : wstate) : Prop := tree_ok s /\ zorder_ok s.

(** What the order of the windows depends on. *)
Definition shape (w : window) : option Z * list Z * list Z * bool * Z * bool := (links w, topmost w).

Lemma shape_links (x y : option window) : shape <$> x = shape <$> y -> links <$> x = links <$> y.
Proof. destruct x, y; try done. cbn. intros E%(inj Some). f_equal. exact (f_equal fst E). Qed.

Lemma shape_parent (x y : option window) : shape <$> x = shape <$> y -> w_parent <$> x = w_parent <$> y.
Proof. destruct x, y; try done. cbn. intros E%(inj Some). f_equal. exact (f_equal (fun t => t.1.1.1.1.1) E). Qed.

Lemma shape_top s s' : (forall b, shape <$> wins s' !! b = shape <$> wins s !! b) -> forall b, top_at s' b = top_at s b.
Proof. intros E b. specialize (E b). unfold top_at. destruct (wins s !! b), (wins s' !! b); try done. cbn in E. by injection E. Qed.

Lemma win_ok_ext s s' : (forall b, shape <$> wins s' !! b = shape <$> wins s !! b) -> win_ok s -> win_ok s'.
Proof.
  intros E [T Zo]. split.
  - apply (links_only s); [|done]. intros b. apply shape_links, E.
  - intros p pw' Hp. destruct (fmap_some shape _ _ pw' (eq_sym (E p)) Hp) as (pw & Hpw & Es). injection Es as _ Ec _ _ _ _. rewrite <-Ec.
    eapply zsorted_ext; [|by apply (Zo p)]. intros x _. by apply shape_top.
Qed.

Lemma is_self_or_parent_spec s a q l n :
  path s q l -> (length l <= n)%nat -> is_self_or_parent n s a (Some q) = Some (bool_decide (a ∈ l)).
Proof.
  intros P. revert n. induction P as [q w Hw Hp|q w p l Hw Hp P IH]; intros n Hn; (destruct n as [|n]; [cbn in Hn; lia|]);
    cbn [is_self_or_parent]; (destruct (Z.eqb_spec q a) as [->|Hne]; [f_equal; symmetry; apply bool_decide_eq_true; set_solver|]);
    rewrite Hw; cbn [mbind option_bind]; rewrite Hp.
  - transitivity (Some false); [by destruct n|]. f_equal. symmetry. apply bool_decide_eq_false. set_solver.
  - rewrite IH by (cbn in Hn; lia). f_equal. apply bool_decide_ext. set_solver.
Qed.

(** Marking the parents changes nothing but paint flags. *)
Lemma pixel_format_spec s q l n : path s q l -> (length l <= n)%nat ->
  exists s', pixel_format_loop n s (Some q) = Some s' /\ forall b, shape <$> wins s' !! b = shape <$> wins s !! b.
Proof.
  intros P. revert s q P n. induction l as [|x l IH]; intros s q P n Hn; [inversion P|]. destruct n as [|n]; [cbn in Hn; lia|].
  inversion P as [? w Hw Hp|? w p l' Hw Hp P']; subst; cbn [pixel_format_loop]; rewrite Hw; cbn [mbind option_bind]; rewrite Hp.
  - by eexists.
  - set (s1 := upd s _ _). assert (Hs : forall b, shape <$> wins s1 !! b = shape <$> wins s !! b).
    { intros b. unfold s1. rewrite lookup_upd. case_decide; [|done]. by destruct (wins s !! b). }
    destruct (IH s1 p) with (n := n) as (s' & E & H); [|cbn in Hn; lia|].
    { eapply path_parents; [|exact P']. intros b _. apply shape_parent, Hs. }
    exists s'. split; [done|]. intros b. by rewrite H, Hs.
Qed.

(** The windows once [a] has another parent but is still on the list of the old one. *)
Definition reparented (s : wstate) (a p q : Z) : wstate :=
  upd (grab_window (upd s p (fun w => set_refcount w (w_refcount w - 1))) q) a (fun w => set_parent w (Some q)).

Lemma lookup_reparented s a p q b : wins (reparented s a p q) !! b =
  (fun w => let w := if decide (b = p) then set_refcount w (w_refcount w - 1) else w in
            let w := if decide (b = q) then set_refcount w (w_refcount w + 1) else w in
            if decide (b = a) then set_parent w (Some q) else w) <$> wins s !! b.
Proof.
  unfold reparented, grab_window. rewrite !lookup_upd. destruct (wins s !! b); repeat case_decide; done.
Qed.

(** Fields other than the parent and the references are as before. *)
Lemma reparented_field {A} (f : window -> A) s a p q b :
  (forall w x, f (set_refcount w x) = f w) -> (b = a -> forall w x, f (set_parent w x) = f w) ->
  f <$> wins (reparented s a p q) !! b = f <$> wins s !! b.
Proof.
  intros H1 H2. rewrite lookup_reparented. destruct (wins s !! b); [|done]. cbn. f_equal. repeat case_decide; rewrite ?H2, ?H1 by done; done.
Qed.

Lemma reparented_off s a w p q lq :
  tree_ok s -> wins s !! a = Some w -> w_parent w = Some p -> path s q lq -> a ∉ lq ->
  tree_but (Some a) (list_remove (reparented s a p q) a).
Proof.
  intros T Hw Hp P Hn. apply (remove_tree_ok s _ a w q lq T Hw P Hn).
  - intros b k. apply reparented_field; by destruct k.
  - intros b. by apply reparented_field.
  - intros b Hb. by apply reparented_field.
  - rewrite lookup_reparented, Hw. cbn. by rewrite (decide_True (P := a = a)).
  - intros r rw rw1 Hr. rewrite lookup_reparented, Hr. intros [= <-]. rewrite Hp. repeat case_decide; simplify_eq; cbn; lia.
Qed.

(** Everything after the move leaves the order alone. *)
Lemma inherit_spec s a q t : win_ok s -> is_Some (wins s !! q) ->
  (exists w, wins s !! a = Some w /\ w_parent w = Some q /\ w_thread w = Some t) ->
  exists s', inherit_from_parent s a q = Some s' /\ forall b, shape <$> wins s' !! b = shape <$> wins s !! b.
Proof.
  intros [T _] [qw Hqw] (w & Hw & Hp & Ht). unfold inherit_from_parent. rewrite Hqw. cbn [mbind option_bind].
  set (s3 := if is_desktop_window qw then s else _).
  assert (Hs3 : forall b, shape <$> wins s3 !! b = shape <$> wins s !! b).
  { intros b. unfold s3. destruct (is_desktop_window qw); [done|]. rewrite lookup_upd. case_decide; [|done]. by destruct (wins s !! b). }
  assert (exists w3, wins s3 !! a = Some w3 /\ w_thread w3 = Some t /\ w_parent w3 = Some q) as (w3 & Hw3 & Ht3 & Hp3).
  { unfold s3. destruct (is_desktop_window qw); [by exists w|]. eexists. split; [by apply lookup_upd_eq|]. done. }
  rewrite Hw3. cbn [mbind option_bind]. rewrite Ht3. cbn [mbind option_bind]. set (s4 := match w_thread qw with Some t0 => _ | None => _ end).
  assert (exists s5, s4 = Some s5 /\ wins s5 = wins s3) as (s5 & -> & Hs5).
  { unfold s4. destruct (w_thread qw); [|by eexists]. destruct (negb _ && negb _); by eexists. }
  cbn [mbind option_bind]. destruct (has_bits (w_paint_flags w3) _); [|exists s5; split; [done|]; intros b; by rewrite Hs5].
  unfold update_pixel_format_flags. rewrite Hs5, Hw3. cbn [mbind option_bind]. rewrite Hp3.
  assert (exists l, path s5 q l) as [l Pl].
  { destruct (tb_path _ _ T q ltac:(by eexists)) as [l Pl]. exists l. eapply path_parents; [|exact Pl]. intros b _. rewrite Hs5. by apply shape_parent. }
  destruct (pixel_format_spec s5 q l (tree_fuel s5) Pl) as (s6 & E6 & H6); [pose proof (path_fuel _ _ _ Pl); lia|].
  exists s6. split; [done|]. intros b. by rewrite H6, Hs5.
Qed.

(** The old parent does not lose its last reference. *)
Lemma attach_run s a w p q changed s2 s' :
  tree_ok s -> wins s !! a = Some w -> w_parent w = Some p ->
  link_window (reparented s a p q) a WINPTR_TOP = Some (s2, changed) -> inherit_from_parent s2 a q = Some s' ->
  attach_to_parent s a q = Some s'.
Proof.
  intros T Hw Hp E1 E2. unfold attach_to_parent. rewrite Hw. cbn [mbind option_bind]. rewrite Hp. unfold release_window.
  destruct (tb_parent _ _ T a w p Hw Hp) as (pw & Hpw & Hin). rewrite Hpw. cbn [mbind option_bind].
  assert (w_refcount pw <> 1).
  { pose proof (tb_refs _ _ T p pw Hpw) as R. specialize (Hin ltac:(done)). destruct (w_is_linked w); cbn in Hin;
      [destruct (w_children pw)|destruct (w_unlinked pw)]; (by apply elem_of_nil in Hin) || cbn in R; lia. }
  destruct (Z.eqb_spec (w_refcount pw) 1); [done|]. cbn [mbind option_bind]. fold (reparented s a p q). rewrite E1. exact E2.
Qed.

Lemma attach_to_parent_spec s a w p q lq :
  win_ok s -> wins s !! a = Some w -> w_parent w = Some p -> is_Some (w_thread w) -> path s q lq -> a ∉ lq ->
  exists s' l1 l2 qw, attach_to_parent s a q = Some s' /\ win_ok s' /\ wins s !! q = Some qw /\
    filter (fun x => x <> a) (w_children qw) = l1 ++ l2 /\
    (forall b, w_parent <$> wins s' !! b = if decide (b = a) then Some (Some q) else w_parent <$> wins s !! b) /\
    (forall b, w_children <$> wins s' !! b =
       (fun w => if decide (b = q) then l1 ++ a :: l2 else filter (fun x => x <> a) (w_children w)) <$> wins s !! b).
Proof.
  intros [T Zo] Hw Hp [t Ht] P Hn. pose proof (path_in _ _ _ q P ltac:(inversion P; set_solver)) as [qw Hqw].
  set (s1 := reparented s a p q).
  assert (Hne : a <> q) by (intros ->; inversion P; subst; set_solver).
  assert (Hs1 : forall b, w_children <$> wins s1 !! b = w_children <$> wins s !! b) by (intros b; by apply reparented_field).
  assert (Htop : forall b, top_at s1 b = top_at s b).
  { intros b. pose proof (reparented_field topmost s a p q b ltac:(done) ltac:(done)) as E. fold s1 in E. unfold top_at.
    destruct (wins s !! b), (wins s1 !! b); try done. cbn in E. congruence. }
  assert (exists w1, wins s1 !! a = Some w1 /\ w_parent w1 = Some q /\ w_thread w1 = Some t) as (w1 & Hw1 & Hp1 & Ht1).
  { unfold s1. rewrite lookup_reparented, Hw. eexists. split; [done|]. rewrite (decide_True (P := a = a)) by done. repeat case_decide; done. }
  destruct (fmap_some w_children _ _ qw (Hs1 q) Hqw) as (qw1 & Hqw1 & Eqw1).
  destruct (move_window_spec s1 a w1 q qw1 WINPTR_TOP (reparented_off s a w p q lq T Hw Hp P Hn) Hw1 Hp1 Hqw1 ltac:(done))
    as (l1 & l2 & ex & E & (El & _) & T' & Z' & _).
  set (s2 := linked_state s1 a q (l1 ++ a :: l2) ex) in *.
  assert (W2 : win_ok s2).
  { split; [done|]. apply Z'. intros r rw1 Hr. destruct (fmap_some w_children _ _ rw1 (eq_sym (Hs1 r)) Hr) as (rw & Hrw & <-).
    apply (zsorted_ext s); [intros; apply Htop|]. apply zsorted_filter. by apply (Zo r). }
  assert (E1 : link_window s1 a WINPTR_TOP = Some (s2, bool_decide ((if w_is_linked w1 then entry_prev s1 a else None) <> entry_prev s2 a))).
  { unfold link_window. rewrite Hw1. cbn [mbind option_bind]. unfold move_window in E. destruct (place_window _ a _) as [s0|]; [|done].
    cbn [mbind option_bind] in E |- *. apply (inj Some) in E. by rewrite E. }
  destruct (inherit_spec s2 a q t) as (s' & E' & Hs'); [done|unfold s2; rewrite lookup_linked, Hqw1; by eexists|..].
  { unfold s2. rewrite lookup_linked, Hw1. eexists. split; [done|]. unfold relink. repeat case_decide; try done; (split; [exact Hp1|exact Ht1]). }
  exists s', l1, l2, qw. split; [exact (attach_run s a w p q _ s2 s' T Hw Hp E1 E')|]. split; [by apply (win_ok_ext s2)|]. split; [done|].
  split; [cbn in El; by rewrite Eqw1 in El|]. split.
  - intros b. rewrite (shape_parent _ _ (Hs' b)). unfold s2. rewrite lookup_linked. unfold s1. rewrite lookup_reparented.
    destruct (decide (b = a)) as [->|Hba]; [rewrite Hw|destruct (wins s !! b); [|done]]; cbn; unfold relink; repeat case_decide; done.
  - intros b. assert (w_children <$> wins s' !! b = w_children <$> wins s2 !! b) as ->.
    { specialize (Hs' b). destruct (wins s' !! b), (wins s2 !! b); try done. cbn in *. apply (inj Some) in Hs'. f_equal. exact (f_equal (fun t => t.1.1.1.1.2) Hs'). }
    unfold s2. rewrite lookup_linked. unfold s1. rewrite lookup_reparented.
    destruct (wins s !! b) as [bw|]; [|done]. cbn. unfold relink. repeat case_decide; simplify_eq; done.
Qed.

(** The part without a new parent: the window goes to the other list. *)
Lemma detach_spec s a w p :
  win_ok s -> wins s !! a = Some w -> w_parent w = Some p ->
  exists s', detach_from_parent s a = Some s' /\ win_ok s' /\
    (forall b, w_parent <$> wins s' !! b = w_parent <$> wins s !! b) /\
    (forall b, w_children <$> wins s' !! b = (fun w => filter (fun x => x <> a) (w_children w)) <$> wins s !! b) /\
    (fun w => (w_is_linked w, w_is_orphan w)) <$> wins s' !! a = Some (false, true).
Proof.
  intros [T Zo] Hw Hp. destruct (tb_parent _ _ T a w p Hw Hp) as (pw & Hpw & _). pose proof (parent_ne _ _ _ _ _ T Hw Hp) as Hne.
  set (s0 := list_remove s a). pose proof (list_remove_ok s a w p T Hw Hp) as T0. fold s0 in T0.
  assert (wins s0 !! a = Some (remove_entry a w)) as Hw0 by (unfold s0; by rewrite lookup_list_remove, Hw).
  assert (wins s0 !! p = Some (remove_entry a pw)) as Hpw0 by (unfold s0; by rewrite lookup_list_remove, Hpw).
  unfold detach_from_parent. fold s0. rewrite Hw0. cbn [mbind option_bind]. cbn [remove_entry set_lists w_parent]. rewrite Hp.
  cbn [mbind option_bind]. rewrite Hpw0. cbn [mbind option_bind]. eexists. split; [done|]. set (s' := upd _ a _).
  assert (Hs' : forall b, wins s' !! b = (fun w => (if decide (b = a) then fun w => set_is_orphan (set_is_linked w false) true else id)
      ((if decide (b = p) then fun pw => set_lists pw (w_children pw) (a :: w_unlinked pw) else id) (remove_entry a w))) <$> wins s !! b).
  { intros b. unfold s', s0. rewrite !lookup_upd, lookup_list_remove. destruct (wins s !! b); repeat case_decide; done. }
  split_and!.
  - split.
    + eapply links_only; [|exact (insert_tree_ok s0 a _ p _ false [] _ T0 Hw0 Hp Hpw0 eq_refl)]. intros b. unfold s'. rewrite !lookup_upd.
      destruct (decide (b = p)) as [->|]; [rewrite Hpw0|destruct (wins s0 !! b)]; repeat case_decide; done.
    + intros q qw' Hq. rewrite Hs' in Hq. destruct (wins s !! q) as [qw|] eqn:Hqw; [|done]. injection Hq as <-.
      apply (zsorted_ext s).
      { intros x _. unfold top_at. rewrite Hs'. destruct (wins s !! x); [|done]. cbn. repeat case_decide; done. }
      assert (w_children _ = filter (fun x => x <> a) (w_children qw)) as -> by (repeat case_decide; reflexivity). by apply zsorted_filter, (Zo q).
  - intros b. rewrite Hs'. destruct (wins s !! b); [|done]. cbn. repeat case_decide; done.
  - intros b. rewrite Hs'. destruct (wins s !! b); [|done]. cbn. repeat case_decide; done.
  - rewrite Hs', Hw. cbn. rewrite (decide_True (P := a = a)) by done. by case_decide.
Qed.

(** ** The request *)

(** set_parent_window refuses to make a window a child of itself or of a window below it;
    otherwise the window moves, with everything below it, to its place among the children
    of the new parent, or to the list of windows that are not linked. *)
Lemma set_parent_window_spec s e a w p parent :
  win_ok s -> wins s !! a = Some w -> w_parent w = Some p -> is_Some (w_thread w) ->
  (forall q, parent = Some q -> is_Some (wins s !! q)) ->
  (exists q l, parent = Some q /\ path s q l /\ a ∈ l /\
     set_parent_window a parent (s, e) = Some (false, (s, mk_senv STATUS_INVALID_PARAMETER (allocs e)))) \/
  ((forall q l, parent = Some q -> path s q l -> a ∉ l) /\
   exists s', set_parent_window a parent (s, e) = Some (true, (s', e)) /\ win_ok s' /\
     (forall b, w_parent <$> wins s' !! b =
        if decide (b = a) then Some (match parent with Some q => Some q | None => Some p end) else w_parent <$> wins s !! b) /\
     (forall b, Some b <> parent ->
        w_children <$> wins s' !! b = (fun w => filter (fun x => x <> a) (w_children w)) <$> wins s !! b) /\
     (forall q, parent = Some q -> exists l1 l2, w_children <$> wins s' !! q = Some (l1 ++ a :: l2) /\
        (fun w => filter (fun x => x <> a) (w_children w)) <$> wins s !! q = Some (l1 ++ l2))).
Proof.
  intros W Hw Hp Ht Hq. destruct parent as [q|].
  - destruct (tree_path None s q (proj1 W) (Hq q eq_refl)) as (lq & P & F).
    unfold set_parent_window. wstep ltac:(apply wrun_ask; apply (is_self_or_parent_spec s a q lq); [done|lia]).
    destruct (decide (a ∈ lq)) as [Hin|Hin]; [left|right].
    + exists q, lq. rewrite bool_decide_true by done. done.
    + rewrite bool_decide_false by done. split; [intros q' l' [= <-] P'; by rewrite (path_det _ _ _ _ P' P)|].
      destruct (attach_to_parent_spec s a w p q lq W Hw Hp Ht P Hin) as (s' & l1 & l2 & qw & E & W' & Hqw & El & Hpar & Hch).
      wstep ltac:(apply wrun_ask; exact E).
      exists s'. split; [done|]. split; [done|]. split; [done|]. split.
      * intros b Hb. rewrite Hch. destruct (wins s !! b); [|done]. cbn. f_equal. rewrite decide_False; [done|congruence].
      * intros q' [= <-]. exists l1, l2. rewrite Hch, Hqw. cbn. rewrite decide_True by done. by rewrite El.
  - right. split; [done|]. destruct (detach_spec s a w p W Hw Hp) as (s' & E & W' & Hpar & Hch & _).
    unfold set_parent_window. wstep ltac:(by apply wrun_ask). wstep ltac:(apply wrun_ask; exact E). exists s'. split; [done|]. split; [done|]. split; [|split; [auto|done]].
    intros b. rewrite Hpar. case_decide as D; [subst|done]. rewrite Hw. cbn. by rewrite Hp.
Qed.
