(* ===== verification/WindowUpdate.v ===== *)
(** * Visible regions and update regions

    What a window shows on the screen, pixel by pixel, and how the update regions of
    windows and the counts of paint messages go together. *)

From Stdlib Require Import ZArith Lia.
From stdpp Require Import base list numbers option gmap.
From S2P Require Import Prelude Region RegionSpans RegionBands RegionTheorems UserHandles Windows WindowQueries WindowPaint WindowTree.

#[local] Open Scope Z_scope.

(** * Visible regions, pixel by pixel

    With memory, get_visible_region computes exactly the pixels of the window that
    nothing hides: those inside the window and inside the client areas of its parents,
    less the siblings in front of the window and of its parents. *)

(** ** Regions as sets of pixels within bounds *)

Definition within (B : Z) (f : Z -> Z -> bool) : Prop := forall x y, f x y = true -> - B <= x < B /\ - B <= y < B.

(** The region has the pixels of [f], which are within [B]. *)
Definition draws (B : Z) (f : Z -> Z -> bool) (reg : region) : Prop := computes f reg /\ within B f.

Lemma draws_ext B f g reg : (forall x y, f x y = g x y) -> draws B f reg -> draws B g reg.
Proof. intros E [C H]. split; [by eapply computes_ext|]. intros x y. rewrite <-E. apply H. Qed.

Lemma draws_weaken B B' f reg : B <= B' -> draws B f reg -> draws B' f reg.
Proof. intros HB [C H]. split; [done|]. intros x y Hf. specialize (H x y Hf). lia. Qed.

Lemma draws_capacity B f reg : draws B f reg -> capacity_ok reg.
Proof. intros [[(_ & C & _) _] _]. exact C. Qed.

Lemma draws_wf B f reg : draws B f reg -> region_wf reg.
Proof. intros [[W _] _]. exact W. Qed.

Lemma draws_pixel B f reg x y : draws B f reg -> pixel reg x y = f x y.
Proof. intros [[_ P] _]. apply P. Qed.

Lemma draws_empty B f reg : draws B f reg -> is_region_empty reg = true <-> forall x y, f x y = false.
Proof.
  intros [[W P] _]. rewrite is_region_empty_true. split.
  - intros E x y. rewrite <-P. unfold pixel. by rewrite E.
  - intros E. destruct (rects reg) as [|r rs] eqn:Er; [done|]. exfalso.
    pose proof (validate_all _ (proj1 W) r) as H. rewrite Er in H. specialize (H ltac:(by left)).
    assert (pixel reg (left r) (top r) = true) as Hp; [|by rewrite P, E in Hp].
    unfold pixel. rewrite Er. apply covers_In. exists r. split; [by left|]. apply point_in_rect_iff. lia.
Qed.

Lemma create_run e : allocs e = [] -> exists reg, create_empty_region e = (Some reg, e) /\ draws 0 (fun _ _ => false) reg.
Proof.
  intros Ha. pose proof (create_empty_region_spec e) as H. destruct (create_empty_region e) as [[reg|] e']; [|done].
  destruct H as [C He]. rewrite (He Ha). exists reg. by split.
Qed.

(** A routine with memory. *)
Lemma ospec_run {A} (m : M (option (A * bool))) Q e : ospec m Q -> allocs e = [] -> exists a, m e = (Some (a, true), e) /\ Q a.
Proof.
  intros H Ha. specialize (H e). destruct (m e) as [[[a ok]|] e']; [|done]. destruct H as [H1 H2].
  destruct (H2 Ha) as [-> ->]. exists a. auto.
Qed.

Section memory.
Context (e : senv) (He : allocs e = []).

Lemma intersect_run B1 B2 f1 f2 d r1 r2 : capacity_ok d -> draws B1 f1 r1 -> draws B2 f2 r2 ->
  exists r, intersect_region d r1 r2 e = (Some (r, true), e) /\ draws (Z.min B1 B2) (fun x y => f1 x y && f2 x y) r.
Proof.
  intros Hd D1 D2. destruct (ospec_run _ _ e (intersect_region_spec d r1 r2 (draws_wf _ _ _ D1) (draws_wf _ _ _ D2) Hd) He) as (r & E & C).
  exists r. split; [done|]. split.
  - eapply computes_ext; [exact C|]. intros x y. cbn. by rewrite (draws_pixel _ _ _ _ _ D1), (draws_pixel _ _ _ _ _ D2).
  - intros x y [H1 H2]%andb_true_iff. destruct D1 as [_ D1], D2 as [_ D2]. specialize (D1 x y H1). specialize (D2 x y H2). lia.
Qed.

Lemma subtract_run B1 B2 f1 f2 d r1 r2 : capacity_ok d -> draws B1 f1 r1 -> draws B2 f2 r2 ->
  exists r, subtract_region d r1 r2 e = (Some (r, true), e) /\ draws B1 (fun x y => f1 x y && negb (f2 x y)) r.
Proof.
  intros Hd D1 D2. destruct (ospec_run _ _ e (subtract_region_spec d r1 r2 (draws_wf _ _ _ D1) (draws_wf _ _ _ D2) Hd) He) as (r & E & C).
  exists r. split; [done|]. split.
  - eapply computes_ext; [exact C|]. intros x y. cbn. by rewrite (draws_pixel _ _ _ _ _ D1), (draws_pixel _ _ _ _ _ D2).
  - intros x y [H1 _]%andb_true_iff. destruct D1 as [_ D1]. by apply D1.
Qed.

Lemma union_run B1 B2 f1 f2 d r1 r2 : capacity_ok d -> draws B1 f1 r1 -> draws B2 f2 r2 ->
  exists r, union_region false d r1 r2 e = (Some (r, true), e) /\ draws (Z.max B1 B2) (fun x y => f1 x y || f2 x y) r.
Proof.
  intros Hd D1 D2. destruct (ospec_run _ _ e (union_region_spec false d r1 r2 (draws_wf _ _ _ D1) (draws_wf _ _ _ D2) Hd ltac:(done)) He) as (r & E & C).
  exists r. split; [done|]. split.
  - eapply computes_ext; [exact C|]. intros x y. cbn. by rewrite (draws_pixel _ _ _ _ _ D1), (draws_pixel _ _ _ _ _ D2).
  - intros x y [H|H]%orb_true_iff; [destruct D1 as [_ D]|destruct D2 as [_ D]]; specialize (D x y H); lia.
Qed.

Lemma copy_run B f d r : capacity_ok d -> draws B f r -> exists r', copy_region d r e = ((r', true), e) /\ draws B f r'.
Proof.
  intros Hd D. pose proof (copy_region_spec d r (draws_wf _ _ _ D) Hd e) as H. destruct (copy_region d r e) as [[r' ok] e'].
  destruct H as [H1 H2]. destruct (H2 He) as [-> ->]. exists r'. split; [done|]. split; [|apply D].
  eapply computes_ext; [by apply H1|]. intros x y. by apply (draws_pixel B).
Qed.
End memory.

(** Moving a region: no coordinate leaves the range of an int. *)
Lemma offset_draws B f reg dx dy b :
  draws B f reg -> 0 <= B -> - b <= dx <= b -> - b <= dy <= b -> B + b < 2 ^ 31 ->
  draws (B + b) (fun x y => f (x - dx) (y - dy)) (offset_region reg dx dy).
Proof.
  intros [[W P] H] HB Hx Hy Hb. split.
  - assert (offset_fits reg dx dy) as F.
    { destruct W as (_ & _ & E). unfold extents_ok in E. unfold offset_fits, int_range.
      destruct (rects reg) as [|r rs] eqn:Er; [rewrite E; cbn; lia|]. destruct E as (_ & (y1 & H1) & (y2 & H2) & (x1 & H3) & (x2 & H4)).
      rewrite <-Er in *. fold (pixel reg (left (extents reg)) y1) in H1. fold (pixel reg (right (extents reg) - 1) y2) in H2.
      fold (pixel reg x1 (top (extents reg))) in H3. fold (pixel reg x2 (bottom (extents reg) - 1)) in H4. rewrite P in *.
      apply H in H1, H2, H3, H4. lia. }
    destruct (offset_region_correct reg dx dy W F) as [W' P']. split; [done|]. intros x y. by rewrite P', P.
  - intros x y Hf. specialize (H _ _ Hf). lia.
Qed.

Definition rect_within (B : Z) (r : rectangle_t) : Prop :=
  - B <= left r <= B /\ - B <= top r <= B /\ - B <= right r <= B /\ - B <= bottom r <= B.

Lemma set_rect_draws B reg r : capacity_ok reg -> rect_within B r -> draws B (point_in_rect r) (set_region_rect reg r).
Proof.
  intros [C1 C2] Hr. split.
  - unfold set_region_rect. destruct (is_rect_empty r) eqn:E.
    + split; [split; [done|split; [|done]]; split; cbn; [done|unfold num_rects; cbn; lia]|]. intros x y. unfold pixel. cbn. symmetry.
      apply not_true_iff_false. intros Hp%point_in_rect_iff. unfold is_rect_empty in E. apply orb_true_iff in E as [E%Z.leb_le|E%Z.leb_le]; lia.
    + unfold is_rect_empty in E. apply orb_false_iff in E as [E1%Z.leb_gt E2%Z.leb_gt].
      assert (Hc : forall x y, covers [r] x y = point_in_rect r x y) by (intros; unfold covers; cbn; apply orb_false_r).
      split; [|intros x y; unfold pixel; apply Hc]. split; [by apply validate_one|].
      split; [split; cbn; [done|unfold num_rects; cbn; lia]|]. unfold extents_ok. cbn [rects].
      split; [intros x y; by rewrite Hc|]. split_and!; [exists (top r)|exists (top r)|exists (left r)|exists (left r)];
        rewrite Hc; apply point_in_rect_iff; cbn [extents]; lia.
  - intros x y Hp%point_in_rect_iff. unfold rect_within in Hr. lia.
Qed.

Lemma intersect_rect_pixel r1 r2 x y : point_in_rect (fst (intersect_rect r1 r2)) x y = point_in_rect r1 x y && point_in_rect r2 x y.
Proof. apply eq_true_iff_eq. rewrite andb_true_iff, !point_in_rect_iff. cbn. lia. Qed.

Lemma intersect_rect_within B r1 r2 : rect_within B r1 -> rect_within B r2 -> rect_within B (fst (intersect_rect r1 r2)).
Proof. unfold rect_within. cbn. lia. Qed.

(** ** Windows on the screen *)

(** Coordinates that leave room for the arithmetic. *)
Record window_fits (B : Z) (w : window) : Prop := {
  wf_window : rect_within B (w_window_rect w);
  wf_visible : rect_within B (w_visible_rect w);
  wf_surface : rect_within B (w_surface_rect w);
  wf_client : rect_within B (w_client_rect w);
  wf_region : forall r, w_win_region w = Some r -> region_wf r /\ within B (pixel r)
}.

Definition windows_fit (B : Z) (s : wstate) : Prop :=
  0 <= B /\ (2 * Z.of_nat (base.size (wins s)) + 10) * B < 2 ^ 31 /\ forall a w, wins s !! a = Some w -> window_fits B w.

(** Is the pixel, relative to the parent, inside the region of the window? *)
Definition in_win_region (w : window) (x y : Z) : bool :=
  match w_win_region w with
  | None => true
  | Some r => pixel r (x - left (w_window_rect w)) (y - top (w_window_rect w))
  end.

(** The pixels that a window hides, relative to its parent. *)
Definition hides (w : window) (x y : Z) : bool :=
  visible w && negb (has_bits (w_ex_style w) WS_EX_TRANSPARENT) && point_in_rect (w_visible_rect w) x y && in_win_region w x y.

(** The pixels of the client area, relative to the parent. *)
Definition client_pixel (w : window) (x y : Z) : bool :=
  point_in_rect (w_window_rect w) x y && point_in_rect (w_client_rect w) x y && point_in_rect (w_surface_rect w) x y.

Definition in_client (w : window) (x y : Z) : bool := client_pixel w x y && in_win_region w x y.

Lemma clipped_client_pixel w x y : point_in_rect (clipped_client_rect w) x y = client_pixel w x y.
Proof. unfold clipped_client_rect. by rewrite !intersect_rect_pixel. Qed.

Lemma clipped_visible_pixel w x y : point_in_rect (clipped_visible_rect w) x y = point_in_rect (w_visible_rect w) x y && point_in_rect (w_surface_rect w) x y.
Proof. apply intersect_rect_pixel. Qed.

(** Is the pixel hidden by a window of the list in front of [last]? *)
Fixpoint hidden (s : wstate) (l : list Z) (last : option Z) (x y : Z) : bool :=
  match l with
  | [] => false
  | c :: l =>
      if decide (last = Some c) then false
      else (match wins s !! c with Some w => hides w x y | None => false end) || hidden s l last x y
  end.

Lemma i32_bounded B z : - B <= z <= B -> B < 2 ^ 31 -> i32 z = z.
Proof. intros H1 H2. apply i32_id. unfold int_range. lia. Qed.

Section visible.
Context (s : wstate) (e : senv) (B : Z).
Hypotheses (He : allocs e = []) (Hfit : windows_fit B s).

Lemma fits_at a w : wins s !! a = Some w -> window_fits B w.
Proof. apply Hfit. Qed.

Lemma bounds_ok : 0 <= B /\ 4 * B < 2 ^ 31.
Proof. destruct Hfit as (H1 & H2 & _). split; [done|]. nia. Qed.

(** Clipping to the region of a window. *)
Lemma clip_to_window_run f reg a w : wins s !! a = Some w -> draws B f reg ->
  exists reg', clip_to_window reg w (s, e) = Some ((reg', true), (s, e)) /\ draws B (fun x y => f x y && in_win_region w x y) reg'.
Proof.
  intros Hw D. pose proof (fits_at a w Hw) as F. destruct bounds_ok as [B1 B2]. unfold clip_to_window, in_win_region.
  destruct (w_win_region w) as [r|] eqn:Er.
  - destruct (wf_region _ _ F r Er) as [Wr Br]. destruct (wf_window _ _ F) as (H1 & H2 & _). unfold intersect_window_region.
    rewrite !(i32_bounded B) by lia.
    pose proof (offset_draws B f reg (- left (w_window_rect w)) (- top (w_window_rect w)) B D B1 ltac:(lia) ltac:(lia) ltac:(lia)) as D1.
    assert (Dr : draws B (pixel r) r) by (split; [by split|done]).
    destruct (intersect_run e He _ _ _ _ _ _ _ (draws_capacity _ _ _ D1) D1 Dr) as (reg1 & E1 & D2).
    wstep ltac:(apply wrun_op; exact E1). eexists. split; [done|].
    pose proof (offset_draws B _ reg1 (left (w_window_rect w)) (top (w_window_rect w)) B ltac:(eapply draws_weaken; [|exact D2]; lia) B1 ltac:(lia) ltac:(lia) ltac:(lia)) as [C3 _].
    split.
    + eapply computes_ext; [exact C3|]. intros x y. cbn. f_equal. f_equal; lia.
    + intros x y [Hf _]%andb_true_iff. by apply D.
  - exists reg. split; [done|]. eapply draws_ext; [|exact D]. intros. by rewrite andb_true_r.
Qed.

Lemma visible_shape_run tmp a w : wins s !! a = Some w -> capacity_ok tmp ->
  exists tmp', clip_to_window (set_region_rect tmp (w_visible_rect w)) w (s, e) = Some ((tmp', true), (s, e)) /\
    draws B (fun x y => point_in_rect (w_visible_rect w) x y && in_win_region w x y) tmp'.
Proof. intros Hw C. apply (clip_to_window_run _ _ a); [done|]. apply set_rect_draws; [done|]. apply (fits_at a w Hw). Qed.

(** Clipping the children of a window. *)
Lemma clip_children_loop_run l last reg tmp ox oy f Bf :
  (forall c, c ∈ l -> is_Some (wins s !! c)) -> capacity_ok tmp -> draws Bf f reg -> - B <= ox <= B -> - B <= oy <= B ->
  exists reg', clip_children_loop l last reg tmp ox oy (s, e) = Some ((reg', true), (s, e)) /\
    draws Bf (fun x y => f x y && negb (hidden s l last (x - ox) (y - oy))) reg'.
Proof.
  intros Hin C D Hx Hy. destruct bounds_ok as [B1 B2]. revert reg tmp f C D. induction l as [|c l IH]; intros reg tmp f C D; cbn [clip_children_loop hidden].
  { exists reg. split; [done|]. eapply draws_ext; [|exact D]. intros. by rewrite andb_true_r. }
  destruct (decide (last = Some c)) as [Hl|Hl].
  { exists reg. split; [done|]. eapply draws_ext; [|exact D]. intros. by rewrite andb_true_r. }
  destruct (Hin c ltac:(set_solver)) as [w Hw]. wstep ltac:(by apply wrun_at). rewrite Hw. unfold hides.
  replace (visible w && negb (has_bits (w_ex_style w) WS_EX_TRANSPARENT)) with (negb (see_through w)) by (unfold see_through; by rewrite negb_orb, negb_involutive).
  destruct (see_through w) eqn:Hs; cbn [negb andb].
  { destruct (IH ltac:(set_solver) reg tmp f C D) as (reg' & E & D'). exists reg'. split; [done|]. done. }
  destruct (visible_shape_run tmp c w Hw C) as (tmp1 & E1 & D1). wstep ltac:(exact E1).
  pose proof (offset_draws B _ tmp1 ox oy B D1 B1 Hx Hy ltac:(lia)) as D2.
  destruct (subtract_run e He _ _ _ _ _ _ _ (draws_capacity _ _ _ D) D D2) as (reg1 & E3 & D3). wstep ltac:(apply wrun_op; exact E3).
  destruct (is_region_empty reg1) eqn:Hemp; cbn [negb].
  - exists reg1. split; [done|]. eapply draws_ext; [|exact D3]. intros x y. pose proof (proj1 (draws_empty _ _ _ D3) Hemp x y) as H0.
    cbv beta in H0 |- *. rewrite negb_orb, andb_assoc, H0. done.
  - destruct (IH ltac:(set_solver) reg1 _ _ (draws_capacity _ _ _ D2) D3) as (reg' & E' & D'). exists reg'. split; [exact E'|].
    eapply draws_ext; [|exact D']. intros x y. by rewrite negb_orb, andb_assoc.
Qed.

Lemma clip_children_run a w last reg ox oy f Bf :
  wins s !! a = Some w -> (forall c, c ∈ w_children w -> is_Some (wins s !! c)) -> draws Bf f reg -> - B <= ox <= B -> - B <= oy <= B ->
  exists reg', clip_children a last reg ox oy (s, e) = Some ((reg', true), (s, e)) /\
    draws Bf (fun x y => f x y && negb (hidden s (w_children w) last (x - ox) (y - oy))) reg'.
Proof.
  intros Hw Hin D Hx Hy. unfold clip_children. destruct (create_run e He) as (tmp & E & D0). wstep ltac:(apply wrun_lift; exact E).
  wstep ltac:(by apply wrun_at). apply clip_children_loop_run; try done. by apply (draws_capacity _ _ _ D0).
Qed.
End visible.

(** ** The whole way up *)

(** With the way from a window to the root: is the pixel, relative to the parent of the
    window, neither behind a sibling nor outside the client area of a parent?  Windows
    below the root are not clipped against each other. *)
Fixpoint unobstructed (s : wstate) (l : list Z) (x y : Z) : bool :=
  match l with
  | a :: ((p :: _ :: _) as l') =>
      match wins s !! a, wins s !! p with
      | Some w, Some pw =>
          let x' := x + left (w_client_rect pw) in
          let y' := y + top (w_client_rect pw) in
          negb (has_bits (w_style w) WS_CLIPSIBLINGS && hidden s (w_children pw) (Some a) x y) &&
          in_client pw x' y' && unobstructed s l' x' y'
      | _, _ => false
      end
  | _ => true
  end.

(** All windows on the way are visible, and none of the parents is minimized. *)
Fixpoint all_visible (s : wstate) (l : list Z) : bool :=
  match l with
  | [] => true
  | a :: l =>
      (if wins s !! a is Some w then visible w else false) &&
      (if l is p :: _ then if wins s !! p is Some pw then negb (has_bits (w_style pw) WS_MINIMIZE) else false else true) &&
      all_visible s l
  end.

(** The pixels of the window itself, relative to its parent. *)
Definition own_pixels (w pw : window) (flags x y : Z) : bool :=
  if has_bits flags DCX_PARENTCLIP && negb (is_desktop_window pw)
  then client_pixel pw (x + left (w_client_rect pw)) (y + top (w_client_rect pw))
  else if has_bits flags DCX_WINDOW then point_in_rect (w_visible_rect w) x y && point_in_rect (w_surface_rect w) x y && in_win_region w x y
  else in_client w x y.

(** The visible pixels of a window, relative to the window, given the way to the root. *)
Definition visible_pixel (s : wstate) (l : list Z) (flags x y : Z) : bool :=
  all_visible s l &&
  match l with
  | [a] => if wins s !! a is Some w then point_in_rect (w_window_rect w) x y else false
  | a :: p :: _ =>
      match wins s !! a, wins s !! p with
      | Some w, Some pw =>
          let x := x + left (w_window_rect w) in
          let y := y + top (w_window_rect w) in
          own_pixels w pw flags x y &&
          negb (has_bits flags DCX_CLIPCHILDREN &&
                hidden s (w_children w) None (x - left (w_client_rect w)) (y - top (w_client_rect w))) &&
          unobstructed s l x y
      | _, _ => false
      end
  | [] => false
  end.

Lemma is_visible_spec s a l n : path s a l -> (length l <= n)%nat -> is_visible_loop n s a = Some (all_visible s l).
Proof.
  intros P. revert n. induction P as [a w Hw Hp|a w p l Hw Hp P IH]; intros n Hn; (destruct n as [|n]; [cbn in Hn; lia|]);
    cbn [is_visible_loop all_visible]; rewrite Hw; cbn [mbind option_bind]; destruct (visible w); cbn [negb andb]; try done; rewrite Hp; [done|].
  assert (exists pw l', wins s !! p = Some pw /\ l = p :: l') as (pw & l' & Hpw & ->) by (inversion P; subst; by eexists _, _).
  rewrite Hpw. cbn [mbind option_bind]. destruct (has_bits (w_style pw) WS_MINIMIZE); cbn [negb andb]; [done|]. apply IH. cbn in Hn |- *. lia.
Qed.

Lemma is_visible_run s a l : path s a l -> is_visible s a = Some (all_visible s l).
Proof. intros P. apply is_visible_spec; [done|]. pose proof (path_fuel _ _ _ P). lia. Qed.

Section visible_region.
Context (s : wstate) (e : senv) (B : Z).
Hypotheses (He : allocs e = []) (Hfit : windows_fit B s) (T : tree_ok s).

Lemma children_there p pw : wins s !! p = Some pw -> forall c, c ∈ w_children pw -> is_Some (wins s !! c).
Proof. intros Hp c Hc. destruct (tb_child _ _ T p pw true c Hp Hc) as (_ & cw & H & _). by eexists. Qed.

Lemma client_region_run tmp a w : wins s !! a = Some w -> capacity_ok tmp ->
  exists tmp', clip_to_window (set_region_client_rect tmp w) w (s, e) = Some ((tmp', true), (s, e)) /\ draws B (in_client w) tmp'.
Proof.
  intros Hw C. pose proof (fits_at s B Hfit a w Hw) as F. apply (clip_to_window_run s e B He Hfit (client_pixel w) _ a); [done|].
  eapply draws_ext; [apply clipped_client_pixel|]. apply set_rect_draws; [done|]. apply intersect_rect_within; [apply intersect_rect_within|]; apply F.
Qed.

Lemma base_region_run reg a w p pw flags : wins s !! a = Some w -> wins s !! p = Some pw -> capacity_ok reg ->
  exists reg', base_region reg w pw flags (s, e) = Some ((reg', true), (s, e)) /\ draws (2 * B) (own_pixels w pw flags) reg'.
Proof.
  intros Hw Hp C. destruct (bounds_ok s B Hfit) as [B1 B2]. unfold base_region, own_pixels. destruct (has_bits flags DCX_PARENTCLIP && _).
  - pose proof (fits_at s B Hfit p pw Hp) as F. destruct (wf_client _ _ F) as (H1 & H2 & _). rewrite !(i32_bounded B) by lia. eexists. split; [done|].
    assert (D : draws B (client_pixel pw) (set_region_client_rect reg pw)).
    { eapply draws_ext; [apply clipped_client_pixel|]. apply set_rect_draws; [done|]. apply intersect_rect_within; [apply intersect_rect_within|]; apply F. }
    pose proof (offset_draws _ _ _ (- left (w_client_rect pw)) (- top (w_client_rect pw)) B D B1 ltac:(lia) ltac:(lia) ltac:(lia)) as D1.
    replace (2 * B) with (B + B) by lia. eapply draws_ext; [|exact D1]. intros x y. cbv beta. f_equal; lia.
  - assert (B <= 2 * B) as HB by lia. destruct (has_bits flags DCX_WINDOW).
    + destruct (clip_to_window_run s e B He Hfit (point_in_rect (clipped_visible_rect w)) (set_region_visible_rect reg w) a w Hw) as (reg' & E & D).
      { apply set_rect_draws; [done|]. apply intersect_rect_within; apply (fits_at s B Hfit a w Hw). }
      exists reg'. split; [done|]. apply (draws_weaken B); [done|]. eapply draws_ext; [|exact D]. intros x y. cbv beta. by rewrite clipped_visible_pixel.
    + destruct (client_region_run reg a w Hw C) as (reg' & E & D). exists reg'. split; [done|]. by apply (draws_weaken B).
Qed.

(** The result of the way up: the region relative to the parent of the top-level window,
    with the distance travelled. *)
Definition moved_up (f : Z -> Z -> bool) (l : list Z) (ox oy : Z) (r : option (region * Z * Z)) : Prop :=
  exists reg' dx dy g, r = Some (reg', ox + dx, oy + dy) /\ draws (2 * B) g reg' /\
    - (Z.of_nat (length l) * B) <= dx <= Z.of_nat (length l) * B /\ - (Z.of_nat (length l) * B) <= dy <= Z.of_nat (length l) * B /\
    forall x y, g (x + dx) (y + dy) = f x y && unobstructed s l x y.

Lemma moved_up_empty f l ox oy reg' dx dy g :
  draws (2 * B) g reg' -> is_region_empty reg' = true ->
  - (Z.of_nat (length l) * B) <= dx <= Z.of_nat (length l) * B -> - (Z.of_nat (length l) * B) <= dy <= Z.of_nat (length l) * B ->
  (forall x y, f x y && unobstructed s l x y = true -> g (x + dx) (y + dy) = true) -> moved_up f l ox oy (Some (reg', ox + dx, oy + dy)).
Proof.
  intros D Hemp Hx Hy Hg. exists reg', dx, dy, g. split_and!; try done; [lia..|]. intros x y. pose proof (proj1 (draws_empty _ _ _ D) Hemp) as H0.
  rewrite H0. symmetry. apply not_true_iff_false. intros H%Hg. by rewrite H0 in H.
Qed.

Lemma clip_ancestors_run l : forall n a reg tmp ox oy f m,
  path s a l -> (2 <= length l)%nat -> (length l <= n)%nat -> capacity_ok tmp -> draws (2 * B) f reg ->
  - (m * B) <= ox <= m * B -> - (m * B) <= oy <= m * B -> 0 <= m -> (m + Z.of_nat (length l)) * B < 2 ^ 31 ->
  exists r, clip_ancestors n a reg tmp ox oy (s, e) = Some (r, (s, e)) /\ moved_up f l ox oy r.
Proof.
  induction l as [|a0 l IH]; intros n a reg tmp ox oy f m P Hl Hn C D Hx Hy Hm Hb; [cbn in Hl; lia|].
  destruct n as [|n]; [cbn in Hn; lia|]. destruct (bounds_ok s B Hfit) as [B1 B2].
  inversion P as [? w Hw Hp|? w p l' Hw Hp P']; subst; [cbn in Hl; lia|].
  assert (exists pw l', wins s !! p = Some pw /\ l = p :: l') as (pw & l' & Hpw & ->) by (inversion P'; subst; by eexists _, _).
  cbn [clip_ancestors]. wstep ltac:(by apply wrun_at). wstep ltac:(by apply wrun_opt). wstep ltac:(by apply wrun_at).
  pose proof (fits_at s B Hfit p pw Hpw) as F. destruct (wf_client _ _ F) as (HL & HT & _).
  assert (Hlen : Z.of_nat (length (a0 :: p :: l')) = 2 + Z.of_nat (length l')) by (cbn; lia).
  destruct (is_desktop_window pw) eqn:Hdesk.
  { eexists. split; [done|]. exists reg, 0, 0, f. rewrite !Z.add_0_r. split_and!; try done; [nia..|]. intros x y. rewrite !Z.add_0_r.
    assert (l' = []) as ->; [|cbn; by rewrite andb_true_r]. unfold is_desktop_window in Hdesk. inversion P' as [|? pw' q l'' Hpw' Hq P'']; subst; [done|].
    assert (pw' = pw) as -> by congruence. by rewrite Hq in Hdesk. }
  assert (exists q l'', l' = q :: l'') as (q & l'' & ->).
  { unfold is_desktop_window in Hdesk. inversion P' as [? pw' Hpw' Hq|? pw' q l'' Hpw' Hq P'']; subst;
      [assert (pw' = pw) as -> by congruence; by rewrite Hq in Hdesk|]. inversion P''; by eexists _, _. }
  assert (Hun : forall x y, unobstructed s (a0 :: p :: q :: l'') x y =
    negb (has_bits (w_style w) WS_CLIPSIBLINGS && hidden s (w_children pw) (Some a0) x y) &&
    in_client pw (x + left (w_client_rect pw)) (y + top (w_client_rect pw)) &&
    unobstructed s (p :: q :: l'') (x + left (w_client_rect pw)) (y + top (w_client_rect pw))).
  { intros x y. cbn [unobstructed]. by rewrite Hw, Hpw. }
  (* the siblings in front *)
  set (f1 := fun x y => f x y && negb (has_bits (w_style w) WS_CLIPSIBLINGS && hidden s (w_children pw) (Some a0) x y)).
  assert (exists reg1, (if has_bits (w_style w) WS_CLIPSIBLINGS then clip_children p (Some a0) reg 0 0 else mret (reg, true)) (s, e) =
    Some ((reg1, true), (s, e)) /\ draws (2 * B) f1 reg1) as (reg1 & E1 & D1).
  { unfold f1. destruct (has_bits (w_style w) WS_CLIPSIBLINGS).
    - destruct (clip_children_run s e B He Hfit p pw (Some a0) reg 0 0 f (2 * B) Hpw (children_there p pw Hpw) D ltac:(lia) ltac:(lia)) as (reg1 & E & D1).
      exists reg1. split; [done|]. eapply draws_ext; [|exact D1]. intros x y. cbn. by rewrite !Z.sub_0_r.
    - exists reg. split; [done|]. eapply draws_ext; [|exact D]. intros. by rewrite andb_true_r. }
  wstep ltac:(exact E1). destruct (has_bits (w_style w) WS_CLIPSIBLINGS && is_region_empty reg1) eqn:Hemp.
  { apply andb_true_iff in Hemp as [_ Hemp]. eexists. split; [done|].
    replace (Some (reg1, ox, oy)) with (Some (reg1, ox + 0, oy + 0)) by (by rewrite !Z.add_0_r).
    apply (moved_up_empty _ _ _ _ _ _ _ f1); try done; [nia..|]. intros x y. rewrite Hun, !Z.add_0_r. unfold f1.
    rewrite !andb_true_iff. tauto. }
  (* the client area of the parent *)
  pose proof (offset_draws (2 * B) f1 reg1 (left (w_client_rect pw)) (top (w_client_rect pw)) B D1 ltac:(lia) ltac:(lia) ltac:(lia) ltac:(lia)) as D2.
  destruct (client_region_run tmp p pw Hpw C) as (tmp1 & E3 & D3). wstep ltac:(exact E3).
  destruct (intersect_run e He _ _ _ _ _ _ _ (draws_capacity _ _ _ D2) D2 D3) as (reg2 & E4 & D4). wstep ltac:(apply wrun_op; exact E4).
  apply (draws_weaken _ (2 * B)) in D4; [|lia]. rewrite (i32_bounded ((m + 1) * B) (ox + _)), (i32_bounded ((m + 1) * B) (oy + _)) by nia.
  destruct (is_region_empty reg2) eqn:Hemp2.
  { eexists. split; [done|]. eapply moved_up_empty; [exact D4|done|nia..|]. intros x y. cbv beta. rewrite Hun. unfold f1.
    rewrite !Z.add_simpl_r, !andb_true_iff. tauto. }
  set (f2 := fun x y => f1 (x - left (w_client_rect pw)) (y - top (w_client_rect pw)) && in_client pw x y) in D4.
  destruct (IH n p reg2 tmp1 (ox + left (w_client_rect pw)) (oy + top (w_client_rect pw)) f2 (m + 1) P') as (r & E5 & reg' & dx & dy & g & -> & D5 & H5 & H6 & H7);
    [cbn; lia|cbn in Hn |- *; lia|by apply (draws_capacity _ _ _ D3)|exact D4|nia|nia|lia|cbn in Hb |- *; nia|].
  rewrite E5. eexists. split; [done|]. exists reg', (left (w_client_rect pw) + dx), (top (w_client_rect pw) + dy), g.
  split; [by rewrite !Z.add_assoc|]. split; [done|]. cbn [length] in H5, H6 |- *. split; [nia|]. split; [nia|].
  intros x y. rewrite !Z.add_assoc, H7, Hun. unfold f2, f1. rewrite !Z.add_simpl_r, !andb_assoc. done.
Qed.

(** The visible region of a window. *)
Lemma get_visible_region_run a l flags : path s a l ->
  exists reg, get_visible_region a flags (s, e) = Some (Some reg, (s, e)) /\
    draws ((Z.of_nat (base.size (wins s)) + 3) * B) (visible_pixel s l flags) reg.
Proof.
  intros P. destruct (bounds_ok s B Hfit) as [B1 B2]. destruct Hfit as (_ & Hsz & _). pose proof (path_length _ _ _ P) as Hlen.
  unfold get_visible_region. destruct (create_run e He) as (reg0 & E0 & D0). wstep ltac:(apply wrun_lift; exact E0).
  wstep ltac:(apply wrun_ask; by apply is_visible_run). unfold visible_pixel. destruct (all_visible s l) eqn:Hv; cbn [negb andb].
  2: { exists reg0. split; [done|]. apply (draws_weaken 0); [nia|done]. }
  pose proof (draws_capacity _ _ _ D0) as C0.
  inversion P as [? w Hw Hp|? w p l' Hw Hp P']; subst; wstep ltac:(by apply wrun_at); rewrite Hw, Hp.
  { eexists. split; [done|]. apply (draws_weaken B); [nia|]. apply set_rect_draws; [done|]. apply (fits_at s B Hfit a w Hw). }
  assert (exists pw l'', wins s !! p = Some pw /\ l' = p :: l'') as (pw & l'' & Hpw & ->) by (inversion P'; subst; by eexists _, _).
  wstep ltac:(by apply wrun_at). rewrite Hpw. destruct (base_region_run reg0 a w p pw flags Hw Hpw C0) as (reg1 & E1 & D1). wstep ltac:(exact E1).
  pose proof (fits_at s B Hfit a w Hw) as F. destruct (wf_client _ _ F) as (HL & HT & _), (wf_window _ _ F) as (WL & WT & _).
  set (f2 := fun x y => own_pixels w pw flags x y && negb (has_bits flags DCX_CLIPCHILDREN &&
    hidden s (w_children w) None (x - left (w_client_rect w)) (y - top (w_client_rect w)))).
  assert (exists reg2, (if has_bits flags DCX_CLIPCHILDREN then clip_children a None reg1 (left (w_client_rect w)) (top (w_client_rect w))
    else mret (reg1, true)) (s, e) = Some ((reg2, true), (s, e)) /\ draws (2 * B) f2 reg2) as (reg2 & E2 & D2).
  { unfold f2. destruct (has_bits flags DCX_CLIPCHILDREN).
    - exact (clip_children_run s e B He Hfit a w None reg1 _ _ _ _ Hw (children_there a w Hw) D1 HL HT).
    - exists reg1. split; [done|]. eapply draws_ext; [|exact D1]. intros. by rewrite andb_true_r. }
  wstep ltac:(exact E2). destruct (create_run e He) as (tmp & E3 & D3). wstep ltac:(apply wrun_lift; exact E3).
  destruct (clip_ancestors_run (a :: p :: l'') (tree_fuel s) a reg2 tmp (left (w_window_rect w)) (top (w_window_rect w)) f2 1 P)
    as (r & E4 & reg' & dx & dy & g & -> & D4 & H1 & H2 & H3);
    [cbn; lia|pose proof (path_fuel _ _ _ P); lia|by apply (draws_capacity _ _ _ D3)|done|lia|lia|lia|nia|].
  wstep ltac:(cbn; exact E4). eexists. split; [done|].
  set (N := Z.of_nat (base.size (wins s)) + 1).
  assert (Hdx : - (N * B) <= left (w_window_rect w) + dx <= N * B) by (unfold N; nia).
  assert (Hdy : - (N * B) <= top (w_window_rect w) + dy <= N * B) by (unfold N; nia).
  assert (N * B + 2 * B < 2 ^ 31) as HN by (unfold N; nia). rewrite !(i32_bounded (N * B)) by lia.
  pose proof (offset_draws (2 * B) g reg' (- (left (w_window_rect w) + dx)) (- (top (w_window_rect w) + dy)) (N * B) D4
    ltac:(lia) ltac:(lia) ltac:(lia) ltac:(lia)) as D5.
  replace ((Z.of_nat (base.size (wins s)) + 3) * B) with (2 * B + N * B) by (unfold N; lia). eapply draws_ext; [|exact D5]. intros x y. cbv beta.
  replace (x - - (left (w_window_rect w) + dx)) with (x + left (w_window_rect w) + dx) by lia.
  replace (y - - (top (w_window_rect w) + dy)) with (y + top (w_window_rect w) + dy) by lia. rewrite H3. unfold f2. done.
Qed.
End visible_region.

(** * Update regions: frames and counts

    Painting changes update regions and paint flags only, below the window that is
    painted.  The number of paint messages that a queue expects is exact: one for each
    window of the thread with an update region, and one for each with an internal paint
    pending. *)

(** ** The scene *)

(** Everything about a window but what is to be painted. *)
Definition scene (w : window) : window := set_paint_flags (put_update_region w None) 0.

Record same_scene (s s' : wstate) : Prop := {
  sc_wins : forall b, scene <$> wins s' !! b = scene <$> wins s !! b;
  sc_users : users s' = users s;
  sc_desktops : desktops s' = desktops s;
  sc_calls : calls s' = calls s
}.

#[export] Instance same_scene_equiv : Equivalence same_scene.
Proof.
  split.
  - intros s. by split.
  - intros s s' [H1 H2 H3 H4]. by split.
  - intros s1 s2 s3 [H1 H2 H3 H4] [K1 K2 K3 K4]. split; [intros b; by rewrite K1, H1|congruence..].
Qed.

(** A field that painting leaves alone. *)
Definition scenic {A} (f : window -> A) : Prop := forall w, f (scene w) = f w.

Lemma scene_field {A} (f : window -> A) s s' b : scenic f -> same_scene s s' -> f <$> wins s' !! b = f <$> wins s !! b.
Proof.
  intros Hf H. pose proof (sc_wins _ _ H b) as E. destruct (wins s !! b) as [w|], (wins s' !! b) as [w'|]; try done.
  cbn in *. apply (inj Some) in E. f_equal. by rewrite <-Hf, E, Hf.
Qed.

Lemma scene_lookup s s' b w : same_scene s s' -> wins s !! b = Some w -> exists w', wins s' !! b = Some w' /\ scene w' = scene w.
Proof. intros H Hw. exact (fmap_some scene _ _ w (sc_wins _ _ H b) Hw). Qed.

Lemma scene_size s s' : same_scene s s' -> base.size (wins s') = base.size (wins s).
Proof.
  intros H. rewrite <-!size_dom. f_equal. apply set_eq. intros b. rewrite !elem_of_dom. pose proof (sc_wins _ _ H b) as E.
  destruct (wins s !! b), (wins s' !! b); try done; split; by intros [].
Qed.

Lemma scene_path s s' a l : same_scene s s' -> path s a l -> path s' a l.
Proof. intros H. apply path_parents. intros b _. by apply (scene_field w_parent). Qed.

Lemma scene_tree s s' : same_scene s s' -> tree_ok s -> tree_ok s'.
Proof. intros H. apply tree_but_ext. intros b. by apply (scene_field links). Qed.

Lemma scene_fit B s s' : same_scene s s' -> windows_fit B s -> windows_fit B s'.
Proof.
  intros H (H1 & H2 & H3). split; [done|]. rewrite (scene_size s s' H). split; [done|]. intros a w' Hw'. symmetry in H.
  destruct (scene_lookup _ _ _ _ H Hw') as (w & Hw & E). destruct (H3 a w Hw) as [F1 F2 F3 F4 F5].
  assert (Hf : forall {A} (f : window -> A), scenic f -> f w' = f w) by (intros A f Hf; rewrite <-(Hf w'), <-E; apply Hf).
  split; [rewrite (Hf _ w_window_rect)|rewrite (Hf _ w_visible_rect)|rewrite (Hf _ w_surface_rect)|rewrite (Hf _ w_client_rect)|rewrite (Hf _ w_win_region)]; done.
Qed.

(** Is [b] the window [c] or below it? *)
Definition below (s : wstate) (c b : Z) : Prop := exists l, path s b l /\ c ∈ l.

Lemma below_scene s s' c b : same_scene s s' -> below s c b -> below s' c b.
Proof. intros H (l & P & Hc). exists l. split; [by apply (scene_path s)|done]. Qed.

Lemma window_below_trans s a b c : below s a b -> below s b c -> below s a c.
Proof.
  intros (lb & Pb & Ha) (lc & Pc & Hb). exists lc. split; [done|]. apply list_elem_of_split in Hb as (l1 & l2 & ->).
  pose proof (path_suffix _ _ _ l1 b l2 Pc eq_refl) as P. rewrite (path_det _ _ _ _ Pb P) in Ha. set_solver.
Qed.

(** ** Counting paint messages *)

Definition pending (w : window) : Z :=
  (if w_update_region w is Some _ then 1 else 0) + (if has_bits (w_paint_flags w) PAINT_INTERNAL then 1 else 0).

Definition due (t : Z) (w : window) : Z := if decide (w_thread w = Some t) then pending w else 0.

Definition paint_total (t : Z) (m : gmap Z window) : Z := map_fold (fun _ w n => due t w + n) 0 m.

Lemma due_bound t w : 0 <= due t w <= 2.
Proof. unfold due, pending. repeat case_match; lia. Qed.

Lemma paint_total_insert t m a w : m !! a = None -> paint_total t (<[a := w]> m) = due t w + paint_total t m.
Proof. intros H. unfold paint_total. rewrite map_fold_insert_L; [done| |done]. intros. lia. Qed.

Lemma paint_total_alter t m a w f : m !! a = Some w -> paint_total t (alter f a m) = paint_total t m - due t w + due t (f w).
Proof.
  intros H. assert (alter f a m = <[a := f w]> (delete a m)) as ->.
  { apply map_eq. intros b. destruct (decide (b = a)) as [->|Hb]; [by rewrite lookup_alter_eq, H, lookup_insert_eq|].
    by rewrite lookup_alter_ne, lookup_insert_ne, lookup_delete_ne by done. }
  rewrite <-(insert_delete_id m a w H) at 2. rewrite !paint_total_insert by apply lookup_delete_eq. lia.
Qed.

Lemma paint_total_bound t m : 0 <= paint_total t m <= 2 * Z.of_nat (base.size m).
Proof.
  induction m as [|a w m Hm IH] using map_ind; [unfold paint_total; rewrite map_fold_empty, map_size_empty; lia|].
  rewrite paint_total_insert, map_size_insert_None by done. pose proof (due_bound t w). lia.
Qed.

(** Every thread with windows has a queue, and its count is that of its windows; the
    bit QS_PAINT tells whether there are any. *)
Record counts_ok (s : wstate) : Prop := {
  co_size : 2 * Z.of_nat (base.size (wins s)) + 2 < 2 ^ 31;
  co_queue : forall a w t, wins s !! a = Some w -> w_thread w = Some t -> is_Some (queues s !! t);
  co_count : forall t q, queues s !! t = Some q ->
    paint_count q = paint_total t (wins s) /\ has_bits (wake_bits q) QS_PAINT = negb (paint_count q =? 0)
}.

Lemma wake_set x : has_bits (Z.lor x QS_PAINT) QS_PAINT = true.
Proof. change QS_PAINT with (2 ^ 5). rewrite has_bits_pow2, Z.lor_spec, Z.pow2_bits_true by done. apply orb_true_r. Qed.

Lemma wake_clear x : has_bits (clear_bits x QS_PAINT) QS_PAINT = false.
Proof. unfold clear_bits. change QS_PAINT with (2 ^ 5). rewrite has_bits_pow2, Z.ldiff_spec, Z.pow2_bits_true by done. apply andb_false_r. Qed.

(** The counts are exact but for [d] messages of the thread of window [a], which are
    about to be recorded. *)
Definition counts_but (a d : Z) (s : wstate) : Prop :=
  2 * Z.of_nat (base.size (wins s)) + 2 < 2 ^ 31 /\
  (forall a w t, wins s !! a = Some w -> w_thread w = Some t -> is_Some (queues s !! t)) /\
  forall t q, queues s !! t = Some q ->
    paint_count q = paint_total t (wins s) + (if decide (w_thread <$> wins s !! a = Some (Some t)) then d else 0) /\
    has_bits (wake_bits q) QS_PAINT = negb (paint_count q =? 0).

Lemma counts_but_0 a s : counts_but a 0 s <-> counts_ok s.
Proof.
  split.
  - intros (H1 & H2 & H3). split; [done..|]. intros t q Hq. destruct (H3 t q Hq) as [H4 H5]. split; [|done]. case_decide; lia.
  - intros [H1 H2 H3]. split; [done|]. split; [done|]. intros t q Hq. destruct (H3 t q Hq) as [H4 H5]. split; [rewrite H4; destruct (decide _); lia|done].
Qed.

(** Counting one message more or less. *)
Lemma inc_count_run s e a w d incr :
  counts_but a d s -> wins s !! a = Some w -> (forall t, w_thread w = Some t -> 0 <= paint_total t (wins s) + d + incr) ->
  - 1 <= d <= 1 -> - 1 <= incr <= 1 ->
  exists s', inc_window_paint_count a incr (s, e) = Some (tt, (s', e)) /\ wins s' = wins s /\ users s' = users s /\
    desktops s' = desktops s /\ calls s' = calls s /\ (d + incr <= 1 -> counts_but a (d + incr) s').
Proof.
  intros (H1 & H2 & H3) Hw Hpos Hd Hi. unfold inc_window_paint_count. wstep ltac:(by apply wrun_at).
  destruct (w_thread w) as [t|] eqn:Ht.
  - destruct (H2 a w t Hw Ht) as [q Hq]. destruct (H3 t q Hq) as [Hc Hb]. rewrite Hw in Hc. cbn in Hc. rewrite decide_True in Hc by congruence.
    specialize (Hpos t eq_refl). pose proof (paint_total_bound t (wins s)) as Hbd.
    unfold inc_queue_paint_count. wstep ltac:(apply wrun_get). wstep ltac:(by apply wrun_opt).
    assert (i32 (paint_count q + incr) = paint_total t (wins s) + d + incr) as -> by (rewrite Hc; apply i32_id; unfold int_range; lia).
    rewrite (proj2 (Z.ltb_ge _ 0)) by done. set (q' := if negb _ then _ else _). exists (set_queues s (<[t := q']> (queues s))). split; [done|].
    split_and!; try done. intros Hd'. unfold counts_but. cbn [wins queues set_queues]. split; [done|]. split.
    + intros b bw t' Hbw Ht'. destruct (decide (t' = t)) as [->|Hne]; [rewrite lookup_insert_eq; by eexists|].
      rewrite lookup_insert_ne by done. by apply (H2 b bw).
    + intros t' qt. destruct (decide (t' = t)) as [->|Hne].
      * rewrite lookup_insert_eq. intros [= <-]. rewrite Hw. change (w_thread <$> Some w) with (Some (w_thread w)). rewrite decide_True by congruence.
        assert (paint_count q' = paint_total t (wins s) + d + incr) as Hq' by (unfold q'; by case_match). split; [lia|].
        rewrite Hq'. unfold q'. destruct (Z.eqb_spec (paint_total t (wins s) + d + incr) 0); cbn [negb wake_bits]; [apply wake_clear|apply wake_set].
      * rewrite lookup_insert_ne by done. intros Hq'. destruct (H3 t' qt Hq') as [H4 H5]. split; [|done]. rewrite Hw in *. cbn in *.
        rewrite decide_False in H4 |- * by congruence. done.
  - exists s. split; [done|]. split_and!; try done. intros Hd'. split; [done|]. split; [done|]. intros t' qt Hq'. destruct (H3 t' qt Hq') as [H4 H5].
    split; [|done]. rewrite Hw in *. cbn in *. rewrite decide_False in H4 |- * by congruence. done.
Qed.

(** ** Changing one window *)

(** Recording what has been counted. *)
Lemma counts_upd s a w d f :
  counts_but a d s -> wins s !! a = Some w -> w_thread (f w) = w_thread w -> pending (f w) = pending w + d -> counts_ok (upd s a f).
Proof.
  intros (H1 & H2 & H3) Hw Ht Hp. split; cbn [wins queues upd set_wins].
  - rewrite <-size_dom, dom_alter_L, size_dom. done.
  - intros b bw t Hb Hbt. destruct (decide (b = a)) as [->|Hne].
    + rewrite lookup_alter_eq, Hw in Hb. injection Hb as <-. rewrite Ht in Hbt. by apply (H2 a w).
    + rewrite lookup_alter_ne in Hb by done. by apply (H2 b bw).
  - intros t q Hq. destruct (H3 t q Hq) as [H4 H5]. split; [|done]. rewrite (paint_total_alter t _ a w f Hw).
    rewrite Hw in H4. change (w_thread <$> Some w) with (Some (w_thread w)) in H4. unfold due. rewrite Ht.
    repeat case_decide; try congruence; lia.
Qed.

(** Only window [a] has changed, to [w']. *)
Record put_win (s : wstate) (a : Z) (w' : window) (s' : wstate) : Prop := {
  pu_wins : wins s' = <[a := w']> (wins s);
  pu_users : users s' = users s;
  pu_desktops : desktops s' = desktops s;
  pu_calls : calls s' = calls s;
  pu_counts : counts_ok s'
}.

Lemma put_upd s s1 a w f :
  wins s1 = wins s -> users s1 = users s -> desktops s1 = desktops s -> calls s1 = calls s -> wins s !! a = Some w ->
  counts_ok (upd s1 a f) -> put_win s a (f w) (upd s1 a f).
Proof.
  intros E1 E2 E3 E4 Hw C. split; try done. cbn. rewrite E1. apply map_eq. intros b.
  destruct (decide (b = a)) as [->|Hb]; [by rewrite lookup_alter_eq, lookup_insert_eq, Hw|by rewrite lookup_alter_ne, lookup_insert_ne].
Qed.

Lemma put_lookup s a w' s' : put_win s a w' s' -> wins s' !! a = Some w'.
Proof. intros H. by rewrite (pu_wins _ _ _ _ H), lookup_insert_eq. Qed.

Lemma put_lookup_ne s a w' s' b : put_win s a w' s' -> b <> a -> wins s' !! b = wins s !! b.
Proof. intros H Hb. by rewrite (pu_wins _ _ _ _ H), lookup_insert_ne. Qed.

Lemma put_trans s a w1 s1 w2 s2 : put_win s a w1 s1 -> put_win s1 a w2 s2 -> put_win s a w2 s2.
Proof. intros [H1 H2 H3 H4 H5] [K1 K2 K3 K4 K5]. split; [by rewrite K1, H1, insert_insert_eq|congruence..|done]. Qed.

Lemma put_refl s a w : counts_ok s -> wins s !! a = Some w -> put_win s a w s.
Proof. intros C Hw. split; try done. by rewrite insert_id. Qed.

(** Bits of the paint flags. *)
Lemma internal_bit w : has_bits (w_paint_flags w) PAINT_INTERNAL = Z.testbit (w_paint_flags w) 4.
Proof. exact (has_bits_pow2 (w_paint_flags w) 4 ltac:(done)). Qed.

Lemma internal_clear x m : Z.testbit m 4 = false -> has_bits (clear_bits x m) PAINT_INTERNAL = has_bits x PAINT_INTERNAL.
Proof.
  intros H. change PAINT_INTERNAL with (2 ^ 4). unfold clear_bits. rewrite !has_bits_pow2, Z.ldiff_spec, H by done. apply andb_true_r.
Qed.

Lemma internal_set x m : Z.testbit m 4 = false -> has_bits (Z.lor x m) PAINT_INTERNAL = has_bits x PAINT_INTERNAL.
Proof.
  intros H. change PAINT_INTERNAL with (2 ^ 4). rewrite !has_bits_pow2, Z.lor_spec, H by done. apply orb_false_r.
Qed.

Section any_memory.
Context (s : wstate) (e : senv) (a : Z) (w : window).
Hypotheses (C : counts_ok s) (Hw : wins s !! a = Some w).

Lemma paint_flags_run f : (forall x, has_bits (f x) PAINT_INTERNAL = has_bits x PAINT_INTERNAL) ->
  exists s', wupd a (fun w => set_paint_flags w (f (w_paint_flags w))) (s, e) = Some (tt, (s', e)) /\
    put_win s a (set_paint_flags w (f (w_paint_flags w))) s'.
Proof.
  intros Hf. eexists. split; [by apply (wrun_upd _ _ _ _ w)|]. apply (put_upd s s a w (fun w => set_paint_flags w (f (w_paint_flags w)))); try done.
  apply (counts_upd s a w 0); [by apply counts_but_0|done|done|]. unfold pending. cbn. rewrite Hf. lia.
Qed.

Lemma clear_paint_run bits : Z.testbit bits 4 = false ->
  exists s', clear_paint a bits (s, e) = Some (tt, (s', e)) /\ put_win s a (set_paint_flags w (clear_bits (w_paint_flags w) bits)) s'.
Proof. intros Hb. apply (paint_flags_run (fun x => clear_bits x bits)). intros x. by apply internal_clear. Qed.

Lemma set_paint_run bits : Z.testbit bits 4 = false ->
  exists s', set_paint a bits (s, e) = Some (tt, (s', e)) /\ put_win s a (set_paint_flags w (Z.lor (w_paint_flags w) bits)) s'.
Proof. intros Hb. apply (paint_flags_run (fun x => Z.lor x bits)). intros x. by apply internal_set. Qed.

(** Counting a message and recording it. *)
Lemma count_and_upd incr f :
  - 1 <= incr <= 1 -> (forall w, w_thread (f w) = w_thread w) -> pending (f w) = pending w + incr ->
  exists s1 s', inc_window_paint_count a incr (s, e) = Some (tt, (s1, e)) /\ wins s1 = wins s /\
    wupd a f (s1, e) = Some (tt, (s', e)) /\ put_win s a (f w) s'.
Proof.
  intros Hi Ht Hp. destruct (inc_count_run s e a w 0 incr) as (s1 & E1 & W1 & U1 & D1 & C1 & K1); [by apply counts_but_0|done| |lia|lia|].
  { intros t Htw. assert (0 <= paint_total t (wins (upd s a f))) as Hb by apply paint_total_bound. cbn in Hb.
    rewrite (paint_total_alter t _ a w f Hw) in Hb. unfold due in Hb. rewrite Ht in Hb. rewrite !decide_True in Hb by done. lia. }
  exists s1. eexists. split; [done|]. split; [done|]. split; [apply (wrun_upd _ _ _ _ w); by rewrite W1|].
  apply (put_upd s s1 a w f); try done. apply (counts_upd s1 a w incr); [apply K1; lia|by rewrite W1|done|done].
Qed.

(** The same the other way round. *)
Lemma upd_and_count incr f :
  - 1 <= incr <= 1 -> (forall w, w_thread (f w) = w_thread w) -> pending (f w) = pending w + incr ->
  exists s1 s', wupd a f (s, e) = Some (tt, (s1, e)) /\ inc_window_paint_count a incr (s1, e) = Some (tt, (s', e)) /\ put_win s a (f w) s'.
Proof.
  intros Hi Ht Hp. set (s1 := upd s a f). assert (Hw1 : wins s1 !! a = Some (f w)) by (by apply lookup_upd_eq).
  assert (counts_but a (- incr) s1) as C1.
  { destruct C as [H1 H2 H3]. split; [unfold s1; cbn; rewrite <-size_dom, dom_alter_L, size_dom; done|]. split.
    - intros b bw t Hb Hbt. unfold s1 in Hb. rewrite lookup_upd in Hb. case_decide; [|by apply (H2 b bw)].
      subst b. rewrite Hw in Hb. injection Hb as <-. rewrite Ht in Hbt. by apply (H2 a w).
    - intros t q Hq. destruct (H3 t q Hq) as [H4 H5]. split; [|done]. rewrite Hw1. change (w_thread <$> Some (f w)) with (Some (w_thread (f w))).
      unfold s1. cbn [wins upd set_wins]. rewrite (paint_total_alter t _ a w f Hw). unfold due. rewrite Ht. repeat case_decide; try congruence; lia. }
  destruct (inc_count_run s1 e a (f w) (- incr) incr) as (s' & E1 & W1 & U1 & D1 & K1 & K2); [done|done| |lia|lia|].
  { intros t _. pose proof (paint_total_bound t (wins s1)). lia. }
  exists s1, s'. split; [by apply (wrun_upd _ _ _ _ w)|]. split; [done|]. split; [|done..|].
  - rewrite W1. unfold s1. cbn. apply map_eq. intros b.
    destruct (decide (b = a)) as [->|Hb]; [by rewrite lookup_alter_eq, lookup_insert_eq, Hw|by rewrite lookup_alter_ne, lookup_insert_ne].
  - apply (counts_but_0 a). replace 0 with (- incr + incr) by lia. apply K2. lia.
Qed.
End any_memory.

(** A region that is empty counts as none. *)
Definition nonempty (reg : option region) : option region :=
  match reg with Some r => if is_region_empty r then None else Some r | None => None end.

Definition ERASE_FLAGS : Z := Z.lor (Z.lor PAINT_ERASE PAINT_DELAYED_ERASE) PAINT_NONCLIENT.

(** What set_update_region makes of a window. *)
Definition updated (reg : option region) (w : window) : window :=
  match nonempty reg with
  | Some r => put_update_region w (Some r)
  | None => put_update_region (set_paint_flags w (clear_bits (w_paint_flags w) ERASE_FLAGS)) None
  end.

Lemma set_update_region_run s e a w reg : counts_ok s -> wins s !! a = Some w ->
  exists s', set_update_region a reg (s, e) = Some (tt, (s', e)) /\ put_win s a (updated reg w) s'.
Proof.
  intros C Hw. unfold set_update_region, updated. wstep ltac:(by apply wrun_at). fold (nonempty reg). destruct (nonempty reg) as [r|].
  - destruct (w_update_region w) as [u|] eqn:Hu.
    + wstep ltac:(apply wrun_ret). eexists. split; [by apply (wrun_upd _ _ _ _ w)|]. apply (put_upd s s a w (fun w => put_update_region w (Some r))); try done.
      apply (counts_upd s a w 0); [by apply counts_but_0|done|done|]. unfold pending. cbn. rewrite Hu. lia.
    + destruct (count_and_upd s e a w C Hw 1 (fun w => put_update_region w (Some r))) as (s1 & s' & E1 & _ & E2 & P); [lia|done|unfold pending; cbn; rewrite Hu; lia|].
      wstep ltac:(exact E1). by exists s'.
  - assert (Hint : forall x, has_bits (clear_bits x ERASE_FLAGS) PAINT_INTERNAL = has_bits x PAINT_INTERNAL) by (intros; by apply internal_clear).
    set (f := fun w => put_update_region (set_paint_flags w (clear_bits (w_paint_flags w) ERASE_FLAGS)) None).
    assert (Hff : forall s1, upd (upd s1 a (fun w => set_paint_flags w (clear_bits (w_paint_flags w) ERASE_FLAGS))) a (fun w => put_update_region w None) = upd s1 a f).
    { intros s1. unfold upd, set_wins. cbn. f_equal. apply map_eq. intros b.
      destruct (decide (b = a)) as [->|Hb]; [rewrite !lookup_alter_eq; by destruct (wins s1 !! a)|by rewrite !lookup_alter_ne]. }
    assert (Hrun : forall s1, wins s1 = wins s -> (clear_paint a ERASE_FLAGS;; wupd a (fun w => put_update_region w None)) (s1, e) = Some (tt, (upd s1 a f, e))).
    { intros s1 E. wstep ltac:(apply (wrun_upd _ _ _ _ w); by rewrite E). rewrite (wrun_upd a _ _ e (set_paint_flags w (clear_bits (w_paint_flags w) ERASE_FLAGS))).
      - by rewrite Hff.
      - rewrite (lookup_upd_eq s1 a _ w); [done|by rewrite E]. }
    destruct (w_update_region w) as [u|] eqn:Hu.
    + destruct (count_and_upd s e a w C Hw (-1) f) as (s1 & s' & E1 & W1 & E2 & P); [lia|done|unfold pending, f; cbn; rewrite Hu, Hint; lia|].
      wstep ltac:(exact E1). exists s'. split; [|done]. etransitivity; [exact (Hrun s1 W1)|]. rewrite (wrun_upd a f s1 e w) in E2; [congruence|by rewrite W1].
    + wstep ltac:(apply wrun_ret). exists (upd s a f). split; [exact (Hrun s eq_refl)|]. apply (put_upd s s a w f); try done.
      apply (counts_upd s a w 0); [by apply counts_but_0|done|done|]. unfold pending, f. cbn. rewrite Hu, Hint. lia.
Qed.
