(* ===== verification/WindowRedraw.v ===== *)
(** * Invalidating windows and exposing what is behind them

    redraw_window on a window and what is below it, and the areas that a window exposes. *)

From Stdlib Require Import ZArith Lia.
From stdpp Require Import base list numbers option gmap.
From S2P Require Import Prelude Region RegionSpans RegionBands RegionTheorems UserHandles Windows WindowQueries WindowPaint WindowTree WindowUpdate.

#[local] Open Scope Z_scope.

(** * Invalidating windows

    With memory, invalidating a region adds to the update region of a window exactly
    the pixels of the region that are inside the window and the client areas of its
    parents; update regions below the window only grow, and nothing else changes. *)

(** ** The visible rectangle *)

(** With the way from a window to the root: is the pixel, relative to the parent of the
    window, inside the rectangles of all parents below the root? *)
Fixpoint in_parents (s : wstate) (l : list Z) (x y : Z) : bool :=
  match l with
  | a :: ((p :: _ :: _) as l') =>
      match wins s !! p with
      | Some pw =>
          let x' := x + left (w_client_rect pw) in
          let y' := y + top (w_client_rect pw) in
          visible pw && negb (has_bits (w_style pw) WS_MINIMIZE) &&
          point_in_rect (w_client_rect pw) x' y' && point_in_rect (w_window_rect pw) x' y' && in_parents s l' x' y'
      | None => false
      end
  | _ => true
  end.

Definition frame_rect (w : window) (frame : bool) : rectangle_t := if frame then w_window_rect w else w_client_rect w.

(** The pixels, relative to the window, that can be painted. *)
Definition frame_pixel (s : wstate) (l : list Z) (frame : bool) (x y : Z) : bool :=
  match l with
  | [] => false
  | a :: l' =>
      match wins s !! a with
      | Some w =>
          visible w &&
          match l' with
          | [] => point_in_rect (frame_rect w frame) x y
          | _ => point_in_rect (frame_rect w frame) (x + left (w_window_rect w)) (y + top (w_window_rect w)) &&
                 in_parents s l (x + left (w_window_rect w)) (y + top (w_window_rect w))
          end
      | None => false
      end
  end.

Lemma offset_rect_pixel B b r dx dy x y :
  rect_within B r -> - b <= dx <= b -> - b <= dy <= b -> B + b < 2 ^ 31 ->
  point_in_rect (offset_rect r dx dy) x y = point_in_rect r (x - dx) (y - dy) /\ rect_within (B + b) (offset_rect r dx dy).
Proof.
  intros (H1 & H2 & H3 & H4) Hx Hy Hb. unfold offset_rect. rewrite !(i32_bounded (B + b)) by lia. split; [|unfold rect_within; cbn; lia].
  apply eq_true_iff_eq. rewrite !point_in_rect_iff. cbn. lia.
Qed.

Lemma rect_empty_pixel r x y : is_rect_empty r = true -> point_in_rect r x y = false.
Proof.
  unfold is_rect_empty. intros [H%Z.leb_le|H%Z.leb_le]%orb_true_iff; apply not_true_iff_false; intros Hp%point_in_rect_iff; lia.
Qed.

(** The largest distance from a window to its visible pixels. *)
Definition reach (B : Z) (s : wstate) : Z := (Z.of_nat (base.size (wins s)) + 3) * B.

(** The answer of get_window_visible_rect for a set of pixels. *)
Definition rect_answer (K : Z) (f : Z -> Z -> bool) (r : option rectangle_t) : Prop :=
  match r with
  | None => forall x y, f x y = false
  | Some r => rect_within K r /\ forall x y, point_in_rect r x y = f x y
  end.

Section rectangles.
Context (s : wstate) (B : Z).
Hypothesis (Hfit : windows_fit B s).

Lemma visible_rect_loop_spec l : forall n a rect ox oy m,
  path s a l -> (2 <= length l)%nat -> (length l <= n)%nat -> rect_within B rect ->
  - (m * B) <= ox <= m * B -> - (m * B) <= oy <= m * B -> 0 <= m -> (m + Z.of_nat (length l) + 2) * B < 2 ^ 31 ->
  exists r, visible_rect_loop n s a rect ox oy = Some r /\
    rect_answer ((m + Z.of_nat (length l) + 1) * B) (fun x y => point_in_rect rect (x + ox) (y + oy) && in_parents s l (x + ox) (y + oy)) r.
Proof.
  induction l as [|a0 l IH]; intros n a rect ox oy m P Hl Hn R Hx Hy Hm Hb; [cbn in Hl; lia|].
  destruct n as [|n]; [cbn in Hn; lia|]. destruct (bounds_ok s B Hfit) as [B1 B2].
  inversion P as [? w Hw Hp|? w p l' Hw Hp P']; subst; [cbn in Hl; lia|].
  assert (exists pw l', wins s !! p = Some pw /\ l = p :: l') as (pw & l' & Hpw & ->) by (inversion P'; subst; by eexists _, _).
  cbn [visible_rect_loop]. rewrite Hw. cbn [mbind option_bind]. rewrite Hp. cbn [mbind option_bind]. rewrite Hpw. cbn [mbind option_bind].
  pose proof (fits_at s B Hfit p pw Hpw) as F. destruct (wf_client _ _ F) as (HL & HT & _).
  assert (Hlen : Z.of_nat (length (a0 :: p :: l')) = 2 + Z.of_nat (length l')) by (cbn; lia). rewrite Hlen in *.
  destruct (is_desktop_window pw) eqn:Hdesk.
  { eexists. split; [done|]. rewrite !(i32_bounded (m * B)) by nia.
    assert (l' = []) as ->. { unfold is_desktop_window in Hdesk. inversion P' as [|? pw' q l'' Hpw' Hq P'']; subst; [done|].
      assert (pw' = pw) as -> by congruence. by rewrite Hq in Hdesk. }
    assert (B + m * B < 2 ^ 31) as Hmb by (cbn in Hb; nia). split.
    - destruct (offset_rect_pixel B (m * B) rect (- ox) (- oy) 0 0 R ltac:(lia) ltac:(lia) Hmb) as [_ W].
      unfold rect_within in *. cbn [length] in *. nia.
    - intros x y. destruct (offset_rect_pixel B (m * B) rect (- ox) (- oy) x y R ltac:(lia) ltac:(lia) Hmb) as [-> _].
      cbn [in_parents]. rewrite andb_true_r. f_equal; lia. }
  assert (exists q l'', l' = q :: l'') as (q & l'' & ->).
  { unfold is_desktop_window in Hdesk. inversion P' as [? pw' Hpw' Hq|? pw' q l'' Hpw' Hq P'']; subst;
      [assert (pw' = pw) as -> by congruence; by rewrite Hq in Hdesk|]. inversion P''; by eexists _, _. }
  assert (Hin : forall x y, in_parents s (a0 :: p :: q :: l'') x y =
    visible pw && negb (has_bits (w_style pw) WS_MINIMIZE) &&
    point_in_rect (w_client_rect pw) (x + left (w_client_rect pw)) (y + top (w_client_rect pw)) &&
    point_in_rect (w_window_rect pw) (x + left (w_client_rect pw)) (y + top (w_client_rect pw)) &&
    in_parents s (p :: q :: l'') (x + left (w_client_rect pw)) (y + top (w_client_rect pw))).
  { intros x y. cbn [in_parents]. by rewrite Hpw. }
  destruct (negb (visible pw) || has_bits (w_style pw) WS_MINIMIZE) eqn:Hv.
  { eexists. split; [done|]. intros x y. rewrite Hin. apply orb_true_iff in Hv as [->%negb_true_iff| ->]; cbn; by rewrite ?andb_false_r. }
  apply orb_false_iff in Hv as [Hv1%negb_false_iff Hv2].
  set (dx := left (w_client_rect pw)) in *. set (dy := top (w_client_rect pw)) in *.
  set (r1 := fst (intersect_rect (offset_rect rect dx dy) (w_client_rect pw))).
  set (r2 := fst (intersect_rect r1 (w_window_rect pw))).
  assert (Hr1 : forall x y, point_in_rect r1 (x + dx) (y + dy) = point_in_rect rect x y && point_in_rect (w_client_rect pw) (x + dx) (y + dy)).
  { intros x y. unfold r1. rewrite intersect_rect_pixel. destruct (offset_rect_pixel B B rect dx dy (x + dx) (y + dy) R HL HT ltac:(lia)) as [-> _].
    by rewrite !Z.add_simpl_r. }
  assert (Hr2 : forall x y, point_in_rect r2 (x + dx) (y + dy) =
    point_in_rect rect x y && point_in_rect (w_client_rect pw) (x + dx) (y + dy) && point_in_rect (w_window_rect pw) (x + dx) (y + dy)).
  { intros x y. unfold r2. by rewrite intersect_rect_pixel, Hr1. }
  rewrite (surjective_pairing (intersect_rect (offset_rect rect dx dy) (w_client_rect pw))). fold r1.
  change (snd (intersect_rect (offset_rect rect dx dy) (w_client_rect pw))) with (negb (is_rect_empty r1)). rewrite negb_involutive.
  destruct (is_rect_empty r1) eqn:He1.
  { eexists. split; [done|]. intros x y. rewrite Hin, Hv1, Hv2. cbn [negb andb]. pose proof (rect_empty_pixel r1 (x + ox + dx) (y + oy + dy) He1) as E.
    rewrite Hr1 in E. rewrite !andb_assoc, E. done. }
  rewrite (surjective_pairing (intersect_rect r1 (w_window_rect pw))). fold r2.
  change (snd (intersect_rect r1 (w_window_rect pw))) with (negb (is_rect_empty r2)). rewrite negb_involutive.
  destruct (is_rect_empty r2) eqn:He2.
  { eexists. split; [done|]. intros x y. rewrite Hin, Hv1, Hv2. cbn [negb andb]. pose proof (rect_empty_pixel r2 (x + ox + dx) (y + oy + dy) He2) as E.
    rewrite Hr2 in E. rewrite !andb_assoc, E. done. }
  rewrite (i32_bounded ((m + 1) * B) (ox + dx)), (i32_bounded ((m + 1) * B) (oy + dy)) by nia.
  destruct (IH n p r2 (ox + dx) (oy + dy) (m + 1) P') as (r & E & A); [cbn; lia|cbn in Hn |- *; lia| |nia|nia|lia|cbn [length] in *; nia|].
  { destruct (offset_rect_pixel B B rect dx dy 0 0 R HL HT ltac:(lia)) as [_ W1]. destruct (wf_window _ _ F) as (W2 & W3 & W4 & W5), (wf_client _ _ F) as (W6 & W7 & W8 & W9).
    destruct W1 as (V1 & V2 & V3 & V4).
    unfold is_rect_empty in He2. apply orb_false_iff in He2 as [He2%Z.leb_gt He3%Z.leb_gt]. unfold rect_within. unfold r2, r1 in *. cbn in *. lia. }
  exists r. split; [done|]. replace ((m + (2 + Z.of_nat (length (q :: l''))) + 1) * B) with ((m + 1 + Z.of_nat (length (p :: q :: l'')) + 1) * B) by (cbn [length]; lia).
  assert (Hg : forall x y, point_in_rect r2 (x + (ox + dx)) (y + (oy + dy)) && in_parents s (p :: q :: l'') (x + (ox + dx)) (y + (oy + dy)) =
    point_in_rect rect (x + ox) (y + oy) && in_parents s (a0 :: p :: q :: l'') (x + ox) (y + oy)).
  { intros x y. rewrite Hin, Hv1, Hv2, !Z.add_assoc, Hr2. cbn [negb andb]. by rewrite !andb_assoc. }
  destruct r as [r|]; cbn in A |- *; [destruct A as [A1 A2]; split; [done|]; intros x y; by rewrite A2, Hg|intros x y; by rewrite <-Hg].
Qed.

Lemma visible_rect_spec a l w frame : path s a l -> wins s !! a = Some w ->
  exists r, get_window_visible_rect s a frame = Some r /\ rect_answer (reach B s) (frame_pixel s l frame) r.
Proof.
  intros P Hw. destruct (bounds_ok s B Hfit) as [B1 B2]. pose proof (fits_at s B Hfit a w Hw) as F. pose proof (path_length _ _ _ P) as Hlen.
  assert (R : rect_within B (frame_rect w frame)) by (unfold frame_rect; destruct frame; apply F). destruct Hfit as (_ & Hsz & _).
  unfold get_window_visible_rect. rewrite Hw. cbn [mbind option_bind]. fold (frame_rect w frame).
  inversion P as [? w0 Hw0 Hp|? w0 p l' Hw0 Hp P']; subst; (assert (w0 = w) as -> by congruence); unfold frame_pixel; cbv beta iota; rewrite Hw.
  - unfold is_desktop_window. rewrite Hp. destruct (visible w); cbn [negb andb]; eexists; (split; [done|]); [|done].
    split; [|done]. unfold rect_within, reach in *. nia.
  - unfold is_desktop_window. rewrite Hp. destruct (visible w); cbn [negb andb]; [|eexists; split; [done|]; intros x y; by destruct l'].
    destruct (wf_window _ _ F) as (WL & WT & _).
    assert (exists l'', l' = p :: l'') as [l'' ->] by (inversion P'; by eexists).
    destruct (visible_rect_loop_spec (a :: p :: l'') (tree_fuel s) a (frame_rect w frame) (left (w_window_rect w)) (top (w_window_rect w)) 1 P)
      as (r & E & A); [cbn; lia|pose proof (path_fuel _ _ _ P); lia|done|lia|lia|lia|nia|].
    exists r. split; [done|]. destruct r as [r|]; [|done]. destruct A as [A1 A2]. split; [|done].
    unfold rect_within, reach in *. nia.
Qed.
End rectangles.

(** ** What painting keeps *)

Definition updates_ok (K : Z) (s : wstate) : Prop :=
  forall a w u, wins s !! a = Some w -> w_update_region w = Some u -> region_wf u /\ within K (pixel u).

(** Windows have the DPI of their parent, unless it is the root: see
    [inherit_from_parent]. *)
Definition one_dpi (s : wstate) : Prop :=
  forall c cw p pw, wins s !! c = Some cw -> w_parent cw = Some p -> wins s !! p = Some pw -> is_desktop_window pw = false ->
    w_dpi cw = w_dpi pw.

Record paint_ok (B : Z) (s : wstate) : Prop := {
  po_tree : tree_ok s;
  po_fit : windows_fit B s;
  po_counts : counts_ok s;
  po_updates : updates_ok (reach B s) s;
  po_dpi : one_dpi s
}.

(** The pixels of the update region of a window. *)
Definition upd_at (s : wstate) (a x y : Z) : bool :=
  match wins s !! a with
  | Some w => match w_update_region w with Some u => pixel u x y | None => false end
  | None => false
  end.

(** Only update regions and paint flags of [c] and of the windows below it have changed. *)
Record repaint (B c : Z) (s s' : wstate) : Prop := {
  rp_scene : same_scene s s';
  rp_frame : forall b, ~ below s c b -> wins s' !! b = wins s !! b;
  rp_ok : paint_ok B s'
}.

(** Update regions have only grown. *)
Definition grown (s s' : wstate) : Prop := forall b x y, upd_at s b x y = true -> upd_at s' b x y = true.

#[export] Instance grown_preorder : PreOrder grown.
Proof. split; [by intros s b x y|]. intros s1 s2 s3 H1 H2 b x y H. by apply H2, H1. Qed.

Lemma repaint_refl B c s : paint_ok B s -> repaint B c s s.
Proof. intros H. by split. Qed.

Lemma repaint_trans B c s1 s2 s3 : repaint B c s1 s2 -> repaint B c s2 s3 -> repaint B c s1 s3.
Proof.
  intros [H1 H2 H3] [K1 K2 K3]. split; [by etransitivity| |done]. intros b Hb. rewrite K2, H2; [done..|]. intros Hb'. apply Hb.
  apply (below_scene s2); [by symmetry|done].
Qed.

(** What happens below a window below [c] happens below [c]. *)
Lemma repaint_up B c d s s' : below s c d -> repaint B d s s' -> repaint B c s s'.
Proof. intros Hd [H1 H2 H3]. split; try done. intros b Hb. apply H2. intros Hdb. apply Hb. by apply (window_below_trans s c d). Qed.

Lemma scene_dpi s s' : same_scene s s' -> one_dpi s -> one_dpi s'.
Proof.
  intros H D c cw' p pw' Hc Hp Hpw Hd. symmetry in H. destruct (scene_lookup _ _ _ _ H Hc) as (cw & Hcw & E1), (scene_lookup _ _ _ _ H Hpw) as (pw & Hpw0 & E2).
  pose proof (f_equal w_parent E1) as E3. pose proof (f_equal w_dpi E1) as E4. pose proof (f_equal w_dpi E2) as E5. pose proof (f_equal w_parent E2) as E6.
  cbn in E3, E4, E5, E6. rewrite <-E4, <-E5. apply (D c cw p pw); [congruence..|]. unfold is_desktop_window in *. by rewrite E6.
Qed.

Lemma scene_reach B s s' : same_scene s s' -> reach B s' = reach B s.
Proof. intros H. unfold reach. by rewrite (scene_size s s' H). Qed.

Lemma window_below_self s a l : path s a l -> below s a a.
Proof. intros P. exists l. split; [done|]. inversion P; set_solver. Qed.

Lemma below_child s c w p : tree_ok s -> wins s !! c = Some w -> w_parent w = Some p -> below s p c.
Proof.
  intros T Hw Hp. destruct (tb_path _ _ T c ltac:(by eexists)) as [l P]. exists l. split; [done|].
  inversion P as [? w' H1 H2|? w' q l' H1 H2 P']; subst; [congruence|]. assert (q = p) as -> by congruence. inversion P'; set_solver.
Qed.

(** Changing what is to be painted of one window. *)
Lemma put_repaint B s a w w' s' :
  paint_ok B s -> wins s !! a = Some w -> put_win s a w' s' -> scene w' = scene w ->
  (forall u, w_update_region w' = Some u -> region_wf u /\ within (reach B s) (pixel u)) -> repaint B a s s'.
Proof.
  intros O Hw P E Hu. assert (same_scene s s') as S.
  { split; [|apply P..]. intros b. rewrite (pu_wins _ _ _ _ P). destruct (decide (b = a)) as [->|Hb]; [rewrite lookup_insert_eq, Hw; cbn; by rewrite E|by rewrite lookup_insert_ne]. }
  split; [done| |].
  - intros b Hb. rewrite (put_lookup_ne _ _ _ _ _ P); [done|]. intros ->. apply Hb. destruct (tb_path _ _ (po_tree _ _ O) a ltac:(by eexists)) as [l Pl].
    by apply (window_below_self s a l).
  - split; [by apply (scene_tree s), O|by apply (scene_fit B s), O|apply P| |by apply (scene_dpi s), O].
    rewrite (scene_reach B s s' S). intros b bw u Hb Hbu. destruct (decide (b = a)) as [->|Hne].
    + rewrite (put_lookup _ _ _ _ P) in Hb. injection Hb as <-. by apply Hu.
    + rewrite (put_lookup_ne _ _ _ _ _ P Hne) in Hb. by apply (po_updates _ _ O b bw).
Qed.

Lemma put_upd_at s a w' s' b x y : put_win s a w' s' ->
  upd_at s' b x y = if decide (b = a) then match w_update_region w' with Some u => pixel u x y | None => false end else upd_at s b x y.
Proof. intros P. unfold upd_at. case_decide; [subst; by rewrite (put_lookup _ _ _ _ P)|by rewrite (put_lookup_ne _ _ _ _ _ P)]. Qed.

Lemma updated_scene reg w : scene (updated reg w) = scene w.
Proof. unfold updated. by destruct (nonempty reg). Qed.

(** ** Cropping *)

Section redraw.
Context (e : senv) (He : allocs e = []) (B : Z).

Lemma reach_bounds s : windows_fit B s -> 0 <= B /\ 0 <= reach B s /\ reach B s + 5 * B < 2 ^ 31.
Proof. intros (H1 & H2 & _). unfold reach. split; [done|]. nia. Qed.

(** A region in client coordinates, seen from the window. *)
Definition from_client (w : window) (f : Z -> Z -> bool) (x y : Z) : bool :=
  f (x + left (w_window_rect w) - left (w_client_rect w)) (y + top (w_window_rect w) - top (w_client_rect w)).

Definition region_draws (f : Z -> Z -> bool) (reg : option region) : Prop :=
  match reg with None => forall x y, f x y = true | Some r => exists K, draws K f r end.

Lemma crop_run s a l w reg frame f : windows_fit B s -> path s a l -> wins s !! a = Some w -> region_draws f reg ->
  exists tmp, crop_region_to_win_rect a reg frame (s, e) = Some (tmp, (s, e)) /\
    let g := fun x y => frame_pixel s l frame x y && from_client w f x y in
    match tmp with None => forall x y, g x y = false | Some t => draws (reach B s) g t end.
Proof.
  intros Hfit P Hw Hf. destruct (reach_bounds s Hfit) as (B1 & B2 & B3). unfold crop_region_to_win_rect.
  destruct (visible_rect_spec s B Hfit a l w frame P Hw) as (r & E & A). wstep ltac:(apply wrun_ask; exact E).
  destruct r as [r|]; [|exists None; split; [done|]; intros x y; cbn; by rewrite A]. destruct A as [A1 A2].
  destruct (create_run e He) as (tmp & E0 & D0). wstep ltac:(apply wrun_lift; exact E0).
  pose proof (set_rect_draws (reach B s) tmp r (draws_capacity _ _ _ D0) A1) as D1.
  apply (draws_ext _ _ _ _ A2) in D1. destruct reg as [reg|].
  2: { eexists. split; [done|]. eapply draws_ext; [|exact D1]. intros x y. unfold from_client. cbn in Hf. by rewrite Hf, andb_true_r. }
  wstep ltac:(by apply wrun_at). pose proof (fits_at s B Hfit a w Hw) as F.
  destruct (wf_window _ _ F) as (WL & WT & _), (wf_client _ _ F) as (CL & CT & _). rewrite !(i32_bounded (2 * B)) by lia.
  destruct Hf as [K Hf]. set (dx := left (w_window_rect w) - left (w_client_rect w)). set (dy := top (w_window_rect w) - top (w_client_rect w)).
  pose proof (offset_draws _ _ _ dx dy (2 * B) D1 B2 ltac:(unfold dx; lia) ltac:(unfold dy; lia) ltac:(lia)) as D2.
  destruct (intersect_run e He _ _ _ _ _ _ _ (draws_capacity _ _ _ D2) Hf D2) as (t & E3 & D3). wstep ltac:(apply wrun_op; exact E3).
  assert (Hg : forall x y, frame_pixel s l frame x y && from_client w f x y = f (x + dx) (y + dy) && frame_pixel s l frame x y).
  { intros x y. unfold from_client, dx, dy. rewrite !Z.add_sub_assoc. apply andb_comm. }
  destruct (is_region_empty t) eqn:Ht.
  { exists None. split; [done|]. intros x y. cbv zeta. rewrite Hg. pose proof (proj1 (draws_empty _ _ _ D3) Ht (x + dx) (y + dy)) as H0. cbv beta in H0.
    by rewrite !Z.add_simpl_r in H0. }
  apply (draws_weaken _ (reach B s + 2 * B)) in D3; [|lia].
  replace (left (w_client_rect w) - left (w_window_rect w)) with (- dx) by (unfold dx; lia).
  replace (top (w_client_rect w) - top (w_window_rect w)) with (- dy) by (unfold dy; lia).
  pose proof (offset_draws _ _ _ (- dx) (- dy) (2 * B) D3 ltac:(lia) ltac:(unfold dx; lia) ltac:(unfold dy; lia) ltac:(lia)) as [C4 _].
  eexists. split; [done|]. split.
  - eapply computes_ext; [exact C4|]. intros x y. cbv beta zeta. rewrite Hg, !Z.sub_opp_r, !Z.add_simpl_r. done.
  - intros x y [H _]%andb_true_iff. by apply D1.
Qed.

(** ** Adding to an update region *)

Lemma add_update_run s a w tmp g : paint_ok B s -> wins s !! a = Some w -> draws (reach B s) g tmp ->
  exists s', add_update_region a tmp (s, e) = Some (true, (s', e)) /\ repaint B a s s' /\
    (forall b x y, upd_at s' b x y = if decide (b = a) then upd_at s a x y || g x y else upd_at s b x y).
Proof.
  intros O Hw D. unfold add_update_region. wstep ltac:(by apply wrun_at).
  assert (Hset : forall r f, draws (reach B s) f r -> (forall x y, f x y = upd_at s a x y || g x y) ->
    exists s', (set_update_region a (Some r);; mret true) (s, e) = Some (true, (s', e)) /\ repaint B a s s' /\
      (forall b x y, upd_at s' b x y = if decide (b = a) then upd_at s a x y || g x y else upd_at s b x y)).
  { intros r f Dr Hf. destruct (set_update_region_run s e a w (Some r) (po_counts _ _ O) Hw) as (s' & E & P). exists s'.
    split; [by wstep ltac:(exact E)|]. split.
    - apply (put_repaint B s a w _ s' O Hw P (updated_scene _ _)). intros u Hu. unfold updated, nonempty in Hu.
      destruct (is_region_empty r); [done|]. injection Hu as <-. split; [by apply (draws_wf _ _ _ Dr)|].
      intros x y Hp. rewrite (draws_pixel _ _ _ _ _ Dr) in Hp. by apply Dr.
    - intros b x y. rewrite (put_upd_at _ _ _ _ b x y P). case_decide; [|done]. rewrite <-Hf. unfold updated, nonempty.
      destruct (is_region_empty r) eqn:Hr; cbn; [symmetry; by apply (proj1 (draws_empty _ _ _ Dr) Hr)|by apply (draws_pixel _ _ _ _ _ Dr)]. }
  destruct (w_update_region w) as [u|] eqn:Hu.
  - destruct (po_updates _ _ O a w u Hw Hu) as [Wu Bu]. assert (Du : draws (reach B s) (pixel u) u) by (split; [by split|done]).
    destruct (union_run e He _ _ _ _ _ _ _ (draws_capacity _ _ _ D) Du D) as (r & E & Dr). wstep ltac:(apply wrun_op; exact E).
    apply (Hset r (fun x y => pixel u x y || g x y)); [eapply draws_weaken; [|exact Dr]; lia|]. intros x y. unfold upd_at. by rewrite Hw, Hu.
  - apply (Hset tmp g D). intros x y. unfold upd_at. by rewrite Hw, Hu.
Qed.

(** Setting a paint flag other than the internal one. *)
Lemma set_paint_repaint s a w bits (b : bool) : paint_ok B s -> wins s !! a = Some w -> Z.testbit bits 4 = false ->
  exists s', (if b then set_paint a bits else mret tt) (s, e) = Some (tt, (s', e)) /\ repaint B a s s' /\
    (forall c x y, upd_at s' c x y = upd_at s c x y).
Proof.
  intros O Hw Hb. destruct b; [|exists s; split; [done|]; split; [by apply repaint_refl|done]].
  destruct (set_paint_run s e a w (po_counts _ _ O) Hw bits Hb) as (s' & E & P). exists s'. split; [done|]. split.
  - apply (put_repaint B s a w _ s' O Hw P); [done|]. intros u Hu. by apply (po_updates _ _ O a w).
  - intros c x y. rewrite (put_upd_at _ _ _ _ c x y P). case_decide; [subst|done]. unfold upd_at. by rewrite Hw.
Qed.

Lemma repaint_there s s' c a w : repaint B c s s' -> wins s !! a = Some w -> exists w', wins s' !! a = Some w' /\ scene w' = scene w.
Proof. intros R. apply scene_lookup, R. Qed.

Lemma redraw_self_run s a l w reg frame flags f :
  paint_ok B s -> path s a l -> wins s !! a = Some w -> region_draws f reg -> has_bits flags RDW_INVALIDATE = true ->
  exists s' ok, redraw_self a reg frame flags (s, e) = Some (ok, (s', e)) /\ repaint B a s s' /\
    (forall b x y, upd_at s' b x y = if decide (b = a) then upd_at s a x y || (frame_pixel s l frame x y && from_client w f x y) else upd_at s b x y).
Proof.
  intros O P Hw Hf Hinv. unfold redraw_self. rewrite Hinv.
  destruct (crop_run s a l w reg frame f (po_fit _ _ O) P Hw Hf) as (tmp & E & Hg). wstep ltac:(exact E). cbv zeta in Hg. destruct tmp as [tmp|].
  - destruct (add_update_run s a w tmp _ O Hw Hg) as (s1 & E1 & R1 & U1). wstep ltac:(exact E1).
    destruct (repaint_there _ _ _ a w R1 Hw) as (w1 & Hw1 & _).
    destruct (set_paint_repaint s1 a w1 PAINT_NONCLIENT (has_bits flags RDW_FRAME) (rp_ok _ _ _ _ R1) Hw1 ltac:(done)) as (s2 & E2 & R2 & U2). wstep ltac:(exact E2).
    destruct (repaint_there _ _ _ a w1 R2 Hw1) as (w2 & Hw2 & _).
    destruct (set_paint_repaint s2 a w2 PAINT_ERASE (has_bits flags RDW_ERASE) (rp_ok _ _ _ _ R2) Hw2 ltac:(done)) as (s3 & E3 & R3 & U3). wstep ltac:(exact E3).
    exists s3, true. split; [done|]. split; [eapply repaint_trans; [exact R1|]; by eapply repaint_trans|]. intros b x y. by rewrite U3, U2, U1.
  - exists s, false. split; [done|]. split; [by apply repaint_refl|]. intros b x y. case_decide; [subst|done]. by rewrite Hg, orb_false_r.
Qed.

Lemma redraw_internal_run s a w flags : paint_ok B s -> wins s !! a = Some w ->
  exists s', redraw_internal a flags (s, e) = Some (tt, (s', e)) /\ repaint B a s s' /\ (forall b x y, upd_at s' b x y = upd_at s b x y).
Proof.
  intros O Hw. unfold redraw_internal. wstep ltac:(by apply wrun_at).
  assert (Hput : forall f s', put_win s a (set_paint_flags w f) s' -> repaint B a s s' /\ (forall b x y, upd_at s' b x y = upd_at s b x y)).
  { intros f s' P. split; [apply (put_repaint B s a w _ s' O Hw P); [done|]; intros u Hu; by apply (po_updates _ _ O a w)|].
    intros b x y. rewrite (put_upd_at _ _ _ _ b x y P). case_decide; [subst|done]. unfold upd_at. by rewrite Hw. }
  destruct (has_bits flags RDW_INTERNALPAINT && _) eqn:H1.
  { apply andb_true_iff in H1 as [_ H1%negb_true_iff].
    destruct (upd_and_count s e a w (po_counts _ _ O) Hw 1 (fun w => set_paint_flags w (Z.lor (w_paint_flags w) PAINT_INTERNAL))) as (s1 & s' & E1 & E2 & P); [lia|done| |].
    { unfold pending. cbn. rewrite H1. change PAINT_INTERNAL with (2 ^ 4). rewrite has_bits_pow2, Z.lor_spec, Z.pow2_bits_true, orb_true_r by done. lia. }
    unfold set_paint. wstep ltac:(exact E1). exists s'. split; [exact E2|]. exact (Hput _ s' P). }
  destruct (has_bits flags RDW_NOINTERNALPAINT && _) eqn:H2; [|exists s; split; [done|]; split; [by apply repaint_refl|done]].
  apply andb_true_iff in H2 as [_ H2].
  destruct (upd_and_count s e a w (po_counts _ _ O) Hw (-1) (fun w => set_paint_flags w (clear_bits (w_paint_flags w) PAINT_INTERNAL))) as (s1 & s' & E1 & E2 & P); [lia|done| |].
  { unfold pending. cbn. rewrite H2. change PAINT_INTERNAL with (2 ^ 4). unfold clear_bits. rewrite has_bits_pow2, Z.ldiff_spec, Z.pow2_bits_true, andb_false_r by done. lia. }
  unfold clear_paint. wstep ltac:(exact E1). exists s'. split; [exact E2|]. exact (Hput _ s' P).
Qed.
End redraw.

(** * What a change of position exposes

    Invalidating a window with its children, the crops that follow a change of
    position, and what set_window_pos leaves to be painted: every pixel that has become
    visible, on the window, and every pixel that the window no longer covers, on its
    parent. *)

(** ** Loops over children *)

(** A loop keeps what its body keeps. *)
Lemma wfor_run f (I : wstate -> Prop) e l s :
  I s -> (forall c s, c ∈ l -> I s -> exists s', f c (s, e) = Some (tt, (s', e)) /\ I s') ->
  exists s', wfor f l (s, e) = Some (tt, (s', e)) /\ I s'.
Proof.
  revert s. induction l as [|c l IH]; intros s Hs Hf; cbn [wfor]; [by exists s|].
  destruct (Hf c s ltac:(set_solver) Hs) as (s1 & E1 & I1). wstep ltac:(exact E1). apply IH; [done|]. intros c' s' Hc'. apply Hf. set_solver.
Qed.

(** The scene at a window. *)
Lemma repaint_at B c s s' b w : repaint B c s s' -> wins s !! b = Some w ->
  exists w', wins s' !! b = Some w' /\ (forall A (f : window -> A), scenic f -> f w' = f w).
Proof.
  intros R Hw. destruct (repaint_there B s s' c b w R Hw) as (w' & Hw' & E). exists w'. split; [done|]. intros A f Hf. by rewrite <-(Hf w'), E, Hf.
Qed.

Lemma not_below s c a l : path s c (c :: l) -> path s a l -> ~ below s c a.
Proof.
  intros Pc Pa (l' & P & Hc). rewrite (path_det _ _ _ _ P Pa) in Hc. apply path_nodup in Pc. apply NoDup_cons in Pc as [Pc _]. done.
Qed.

Lemma repaint_upd_at B c s s' b : repaint B c s s' -> ~ below s c b -> forall x y, upd_at s' b x y = upd_at s b x y.
Proof. intros R Hb x y. unfold upd_at. by rewrite (rp_frame _ _ _ _ R b Hb). Qed.

(** Paths to children of a window. *)
Lemma child_path s a l w c : tree_ok s -> path s a l -> wins s !! a = Some w -> c ∈ w_children w ->
  exists cw, wins s !! c = Some cw /\ w_parent cw = Some a /\ path s c (c :: l).
Proof.
  intros T P Hw Hc. destruct (tb_child _ _ T a w true c Hw Hc) as (_ & cw & Hcw & Hp & _). exists cw. split; [done|]. split; [done|]. by eapply path_up.
Qed.

(** A window below the root finds the DPI of the root. *)
Lemma monitor_dpi_run s a l : path s a l -> exists d, get_monitor_dpi s a = Some d.
Proof.
  intros P. unfold get_monitor_dpi. pose proof (path_fuel _ _ _ P) as Hn. revert Hn. generalize (tree_fuel s) as n.
  induction P as [a w Hw Hp|a w p l Hw Hp P IH]; intros n Hn; (destruct n as [|n]; [cbn in Hn; lia|]); cbn [monitor_dpi_loop];
    rewrite Hw; cbn [mbind option_bind]; rewrite Hp; [by eexists|]. apply IH. cbn in Hn. lia.
Qed.

Section paint.
Context (e : senv) (He : allocs e = []) (B : Z).

(** While the children of [a] are painted: [s0] was the state before. *)
Definition painting (a : Z) (s0 s : wstate) : Prop :=
  repaint B a s0 s /\ (forall x y, upd_at s a x y = upd_at s0 a x y).

(** A loop over the children of [a] whose body paints below each child only. *)
Lemma children_run f s a l w :
  paint_ok B s -> path s a l -> wins s !! a = Some w ->
  (forall c cw s1, painting a s s1 -> c ∈ w_children w -> wins s1 !! c = Some cw -> w_parent cw = Some a -> path s1 c (c :: l) ->
     exists s2, f c (s1, e) = Some (tt, (s2, e)) /\ repaint B c s1 s2) ->
  exists s', wfor f (w_children w) (s, e) = Some (tt, (s', e)) /\ painting a s s'.
Proof.
  intros O P Hw Hf. apply (wfor_run f (painting a s)); [split; [by apply repaint_refl|done]|].
  intros c s1 Hc [R1 U1]. destruct (repaint_at B a s s1 a w R1 Hw) as (w1 & Hw1 & Ef). pose proof (scene_path _ _ _ _ (rp_scene _ _ _ _ R1) P) as P1.
  assert (w_children w1 = w_children w) as Ec by (by apply (Ef _ w_children)).
  destruct (child_path s1 a l w1 c (po_tree _ _ (rp_ok _ _ _ _ R1)) P1 Hw1 ltac:(by rewrite Ec)) as (cw & Hcw & Hp & Pc).
  destruct (Hf c cw s1 (conj R1 U1) Hc Hcw Hp Pc) as (s2 & E2 & R2). exists s2. split; [done|]. split.
  - eapply repaint_trans; [exact R1|]. apply (repaint_up B a c); [|done]. exists (c :: l). split; [done|]. inversion P1; set_solver.
  - intros x y. rewrite <-U1. apply (repaint_upd_at B c); [done|]. by apply (not_below s1 c a l).
Qed.

(** The DPI of a child is that of its parent. *)
Lemma map_dpi_same s a reg d : (exists l, path s a l) -> map_dpi_region s a reg d d = Some reg.
Proof.
  intros [l P]. unfold map_dpi_region. destruct (d =? 0); [|cbn; by rewrite Z.eqb_refl].
  destruct (monitor_dpi_run s a l P) as [m ->]. cbn. by rewrite Z.eqb_refl.
Qed.

(** Invalidating a window below the root. *)
Lemma redraw_window_run n : forall s a l w reg frame flags f,
  paint_ok B s -> path s a l -> (2 <= length l)%nat -> (base.size (wins s) < n + length l)%nat -> wins s !! a = Some w ->
  region_draws f reg -> has_bits flags RDW_INVALIDATE = true ->
  exists s', redraw_window n a reg frame flags (s, e) = Some (tt, (s', e)) /\ repaint B a s s' /\
    (forall x y, upd_at s' a x y = upd_at s a x y || (frame_pixel s l frame x y && from_client w f x y)).
Proof.
  induction n as [|n IH]; intros s a l w reg frame flags f O P Hl Hn Hw Hf Hinv; [pose proof (path_length _ _ _ P); lia|].
  cbn [redraw_window]. destruct (redraw_self_run e He B s a l w reg frame flags f O P Hw Hf Hinv) as (s1 & ok & E1 & R1 & U1). wstep ltac:(exact E1).
  assert (U1' : forall x y, upd_at s1 a x y = upd_at s a x y || (frame_pixel s l frame x y && from_client w f x y)) by (intros x y; by rewrite U1, decide_True).
  destruct ok; cbn [negb]; [|by exists s1].
  destruct (repaint_at B a s s1 a w R1 Hw) as (w1 & Hw1 & F1).
  destruct (redraw_internal_run e B s1 a w1 flags (rp_ok _ _ _ _ R1) Hw1) as (s2 & E2 & R2 & U2). wstep ltac:(exact E2).
  destruct (repaint_at B a s1 s2 a w1 R2 Hw1) as (w2 & Hw2 & F2). pose proof (repaint_trans B a s s1 s2 R1 R2) as R12.
  wstep ltac:(by apply wrun_at). destruct (_ || _ || _); [exists s2; split; [done|]; split; [done|]; intros x y; by rewrite U2, U1'|].
  pose proof (rp_ok _ _ _ _ R12) as O2. pose proof (scene_path _ _ _ _ (rp_scene _ _ _ _ R12) P) as P2.
  destruct (crop_run e He B s2 a l w2 reg false f (po_fit _ _ O2) P2 Hw2 Hf) as (tmp & E3 & G3). wstep ltac:(exact E3).
  destruct tmp as [tmp|]; [|exists s2; split; [done|]; split; [done|]; intros x y; by rewrite U2, U1'].
  set (flags' := if has_bits flags RDW_INVALIDATE then Z.lor flags (Z.lor RDW_FRAME RDW_ERASE) else flags).
  assert (has_bits flags' RDW_INVALIDATE = true) as Hinv'.
  { unfold flags'. rewrite Hinv. change RDW_INVALIDATE with (2 ^ 0) in Hinv |- *. rewrite has_bits_pow2 in Hinv |- * by done. by rewrite Z.lor_spec, Hinv. }
  destruct (reach_bounds B s2 (po_fit _ _ O2)) as (B1 & B2 & B3). pose proof (fits_at s2 B (po_fit _ _ O2) a w2 Hw2) as Fa.
  destruct (wf_window _ _ Fa) as (WL & WT & _), (wf_client _ _ Fa) as (CL & CT & _). rewrite !(i32_bounded (2 * B)) by lia.
  pose proof (offset_draws _ _ _ (left (w_window_rect w2) - left (w_client_rect w2)) (top (w_window_rect w2) - top (w_client_rect w2)) (2 * B)
    G3 B2 ltac:(lia) ltac:(lia) ltac:(lia)) as D3.
  match goal with |- context [wfor ?g _] => edestruct (children_run g s2 a l w2 O2 P2 Hw2) as (s3 & E4 & R3 & U3) end.
  2: { exists s3. split; [exact E4|]. split; [by eapply repaint_trans|]. intros x y. by rewrite U3, U2, U1'. }
  intros c cw s4 [R4 U4] Hc Hcw Hp Pc. pose proof (rp_ok _ _ _ _ R4) as O4. cbv beta. wstep ltac:(by apply wrun_at).
  destruct (visible cw); cbn [negb]; [|exists s4; split; [done|by apply repaint_refl]].
  destruct (create_run e He) as (r0 & E5 & D5). wstep ltac:(apply wrun_lift; exact E5).
  destruct (copy_run e He _ _ r0 _ (draws_capacity _ _ _ D5) D3) as (r1 & E6 & D6). wstep ltac:(apply wrun_lift; exact E6).
  destruct (repaint_at B a s2 s4 a w2 R4 Hw2) as (w4 & Hw4 & F4).
  assert (w_dpi w2 = w_dpi cw) as Hdpi.
  { rewrite <-(F4 _ w_dpi) by done. symmetry. apply (po_dpi _ _ O4 c cw a w4 Hcw Hp Hw4).
    unfold is_desktop_window. inversion Pc as [|? ? q l' H1 H2 P']; subst; [congruence|]. assert (q = a) as -> by congruence.
    inversion P' as [? w' H3 H4|? w' q l'' H3 H4 P'']; subst; [cbn in Hl; lia|]. assert (w' = w4) as -> by congruence. by rewrite H4. }
  wstep ltac:(apply wrun_ask; rewrite Hdpi; apply map_dpi_same; by eexists).
  destruct (rect_in_region r1 (w_window_rect cw)); [|exists s4; split; [done|by apply repaint_refl]].
  pose proof (fits_at s4 B (po_fit _ _ O4) c cw Hcw) as Fc. destruct (wf_client _ _ Fc) as (CL' & CT' & _). rewrite !(i32_bounded B) by lia.
  pose proof (offset_draws _ _ _ (- left (w_client_rect cw)) (- top (w_client_rect cw)) B D6 ltac:(lia) ltac:(lia) ltac:(lia) ltac:(lia)) as D7.
  edestruct (IH s4 c (c :: l) cw (Some (offset_region r1 (- left (w_client_rect cw)) (- top (w_client_rect cw)))) true flags') as (s5 & E7 & R7 & _); try done.
  - cbn. lia.
  - rewrite (scene_size s2 s4) by apply R4. rewrite (scene_size s s2) by apply R12. cbn. lia.
  - eexists. exact D7.
  - exists s5. done.
Qed.
(** ** Crops *)

(** Cropping the update region of a window. *)
Lemma crop_update_run s a w u tmp K g : paint_ok B s -> wins s !! a = Some w -> w_update_region w = Some u -> draws K g tmp ->
  exists s', crop_update_region a u tmp (s, e) = Some (tt, (s', e)) /\ repaint B a s s' /\
    (forall b x y, upd_at s' b x y = if decide (b = a) then upd_at s a x y && g x y else upd_at s b x y).
Proof.
  intros O Hw Hu D. destruct (po_updates _ _ O a w u Hw Hu) as [Wu Bu]. assert (Du : draws (reach B s) (pixel u) u) by (split; [by split|done]).
  unfold crop_update_region. destruct (intersect_run e He _ _ _ _ _ _ _ (draws_capacity _ _ _ D) Du D) as (r & E & Dr). wstep ltac:(apply wrun_op; exact E).
  destruct (set_update_region_run s e a w (Some r) (po_counts _ _ O) Hw) as (s' & E' & P). exists s'. split; [done|]. split.
  - apply (put_repaint B s a w _ s' O Hw P (updated_scene _ _)). intros v Hv. unfold updated, nonempty in Hv.
    destruct (is_region_empty r); [done|]. injection Hv as <-. split; [by apply (draws_wf _ _ _ Dr)|].
    intros x y Hp. rewrite (draws_pixel _ _ _ _ _ Dr) in Hp. apply andb_true_iff in Hp as [Hp _]. by apply Bu.
  - intros b x y. rewrite (put_upd_at _ _ _ _ b x y P). case_decide; [|done]. unfold updated, nonempty, upd_at. rewrite Hw, Hu.
    destruct (is_region_empty r) eqn:Hr; cbn; [symmetry; by apply (proj1 (draws_empty _ _ _ Dr) Hr)|by apply (draws_pixel _ _ _ _ _ Dr)].
Qed.

Lemma clear_update_run s a w : paint_ok B s -> wins s !! a = Some w ->
  exists s', set_update_region a None (s, e) = Some (tt, (s', e)) /\ repaint B a s s' /\
    (forall b x y, upd_at s' b x y = if decide (b = a) then false else upd_at s b x y).
Proof.
  intros O Hw. destruct (set_update_region_run s e a w None (po_counts _ _ O) Hw) as (s' & E & P). exists s'. split; [done|]. split.
  - by apply (put_repaint B s a w _ s' O Hw P (updated_scene None w)).
  - intros b x y. rewrite (put_upd_at _ _ _ _ b x y P). by case_decide.
Qed.

Lemma crop_children_run n : forall s a l w rect M,
  paint_ok B s -> path s a l -> (base.size (wins s) < n + length l)%nat -> wins s !! a = Some w ->
  (forall r, rect = Some r -> rect_within (M * B) r) -> 0 <= M -> (M + Z.of_nat n + 2) * B < 2 ^ 31 ->
  exists s', crop_children_update_region n a rect (s, e) = Some (tt, (s', e)) /\ painting a s s'.
Proof.
  induction n as [|n IH]; intros s a l w rect M O P Hn Hw Hr HM Hb; [pose proof (path_length _ _ _ P); lia|].
  destruct (po_fit _ _ O) as (B0 & _). cbn [crop_children_update_region]. wstep ltac:(by apply wrun_at).
  apply (children_run _ s a l w O P Hw). intros c cw s1 [R1 U1] Hc Hcw Hp Pc. pose proof (rp_ok _ _ _ _ R1) as O1. wstep ltac:(by apply wrun_at).
  assert (Hs : base.size (wins s1) = base.size (wins s)) by (apply scene_size, R1).
  destruct (visible cw); cbn [negb]; [|exists s1; split; [done|by apply repaint_refl]]. destruct rect as [rect|].
  - destruct (_ && _ && _ && _); [exists s1; split; [done|by apply repaint_refl]|].
    pose proof (fits_at s1 B (po_fit _ _ O1) c cw Hcw) as F. destruct (wf_client _ _ F) as (CL & CT & _), (wf_window _ _ F) as (WL & WT & _).
    specialize (Hr rect eq_refl). rewrite !(i32_bounded B) by nia.
    destruct (IH s1 c (c :: l) cw (Some (offset_rect rect (- left (w_client_rect cw)) (- top (w_client_rect cw)))) (M + 1)) as (s2 & E2 & R2 & U2); try done.
    + rewrite Hs. cbn. lia.
    + intros r [= <-]. replace ((M + 1) * B) with (M * B + B) by lia.
      apply (offset_rect_pixel (M * B) B rect _ _ 0 0 Hr); [lia|lia|nia].
    + lia.
    + nia.
    + wstep ltac:(exact E2). destruct (repaint_at B c s1 s2 c cw R2 Hcw) as (cw2 & Hcw2 & F2). wstep ltac:(by apply wrun_at).
      destruct (w_update_region cw2) as [u|] eqn:Hu; [|by exists s2]. destruct (create_run e He) as (t0 & E3 & D3). wstep ltac:(apply wrun_lift; exact E3).
      rewrite (F2 _ w_window_rect) by done. rewrite !(i32_bounded B) by nia.
      pose proof (set_rect_draws (M * B) t0 rect (draws_capacity _ _ _ D3) Hr) as D4.
      pose proof (offset_draws _ _ _ (- left (w_window_rect cw)) (- top (w_window_rect cw)) B D4 ltac:(nia) ltac:(lia) ltac:(lia) ltac:(nia)) as D5.
      destruct (crop_update_run s2 c cw2 u _ _ _ (rp_ok _ _ _ _ R2) Hcw2 Hu D5) as (s3 & E6 & R6 & _).
      exists s3. split; [exact E6|]. by eapply repaint_trans.
  - destruct (IH s1 c (c :: l) cw None M) as (s2 & E2 & R2 & U2); try done; [rewrite Hs; cbn; lia|nia|]. wstep ltac:(exact E2).
    destruct (repaint_at B c s1 s2 c cw R2 Hcw) as (cw2 & Hcw2 & _). destruct (clear_update_run s2 c cw2 (rp_ok _ _ _ _ R2) Hcw2) as (s3 & E3 & R3 & _).
    exists s3. split; [exact E3|]. by eapply repaint_trans.
Qed.

(** The crops of set_window_pos: the update region stays inside the window. *)
Lemma crop_to_window_run s a l w : paint_ok B s -> path s a l -> wins s !! a = Some w ->
  exists s', crop_to_window a (s, e) = Some (tt, (s', e)) /\ repaint B a s s' /\
    (forall x y, upd_at s' a x y = upd_at s a x y && frame_pixel s l true x y).
Proof.
  intros O P Hw. unfold crop_to_window. wstep ltac:(by apply wrun_at).
  destruct (visible_rect_spec s B (po_fit _ _ O) a l w true P Hw) as (r & E & A).
  assert (exists s1, (match w_update_region w with
     | None => mret tt
     | Some u => rect ← wask (fun s => get_window_visible_rect s a true);
         match rect with
         | None => set_update_region a None
         | Some rect => tmp ← lift create_empty_region;
             match tmp with None => mret tt | Some tmp => crop_update_region a u (set_region_rect tmp rect) end
         end
     end : W unit) (s, e) = Some (tt, (s1, e)) /\ repaint B a s s1 /\
    (forall x y, upd_at s1 a x y = upd_at s a x y && frame_pixel s l true x y)) as (s1 & E1 & R1 & U1).
  { destruct (w_update_region w) as [u|] eqn:Hu; [|exists s; split; [done|]; split; [by apply repaint_refl|]; intros x y; unfold upd_at; by rewrite Hw, Hu].
    wstep ltac:(apply wrun_ask; exact E). destruct r as [r|].
    - destruct A as [A1 A2]. destruct (create_run e He) as (t0 & E2 & D2). wstep ltac:(apply wrun_lift; exact E2).
      pose proof (set_rect_draws (reach B s) t0 r (draws_capacity _ _ _ D2) A1) as D3.
      destruct (crop_update_run s a w u _ _ _ O Hw Hu D3) as (s1 & E4 & R4 & U4). exists s1. split; [done|]. split; [done|].
      intros x y. by rewrite U4, decide_True, A2.
    - destruct (clear_update_run s a w O Hw) as (s1 & E4 & R4 & U4). exists s1. split; [done|]. split; [done|].
      intros x y. by rewrite U4, decide_True, A, andb_false_r. }
  wstep ltac:(exact E1). destruct (repaint_at B a s s1 a w R1 Hw) as (w1 & Hw1 & F1). pose proof (rp_ok _ _ _ _ R1) as O1.
  pose proof (scene_path _ _ _ _ (rp_scene _ _ _ _ R1) P) as P1.
  destruct (visible_rect_spec s1 B (po_fit _ _ O1) a l w1 false P1 Hw1) as (r' & E' & A'). wstep ltac:(apply wrun_ask; exact E'). wstep ltac:(apply wrun_get).
  destruct (reach_bounds B s1 (po_fit _ _ O1)) as (B1 & B2 & B3). pose proof (fits_at s B (po_fit _ _ O) a w Hw) as F.
  destruct (wf_window _ _ F) as (WL & WT & _), (wf_client _ _ F) as (CL & CT & _). rewrite !(i32_bounded (2 * B)) by lia.
  match goal with |- context [crop_children_update_region _ _ ?q] =>
    destruct (crop_children_run (tree_fuel s1) s1 a l w1 q (Z.of_nat (base.size (wins s1)) + 5)) as (s2 & E2 & R2 & U2) end; try done.
  - unfold tree_fuel. lia.
  - intros q Hq. destruct r' as [r'|]; [|done]. injection Hq as <-. destruct A' as [A1 _].
    replace ((Z.of_nat (base.size (wins s1)) + 5) * B) with (reach B s1 + 2 * B) by (unfold reach; lia).
    apply (offset_rect_pixel (reach B s1) (2 * B) r' _ _ 0 0 A1); lia.
  - lia.
  - destruct (po_fit _ _ O1) as (_ & H & _). unfold tree_fuel. nia.
  - exists s2. split; [exact E2|]. split; [by eapply repaint_trans|]. intros x y. by rewrite U2, U1.
Qed.
End paint.
