(* ===== verification/WindowMoved.v ===== *)
(** * Moving, showing and hiding windows

    set_window_pos: what happens to the tree of windows, and what is to be painted after it. *)

From Stdlib Require Import ZArith Lia.
From stdpp Require Import base list numbers option gmap.
From S2P Require Import Prelude Region RegionSpans RegionBands RegionTheorems UserHandles Windows WindowQueries WindowPaint WindowTree WindowUpdate WindowRedraw.

#[local] Open Scope Z_scope.

(** * New positions

    set_window_info_pos gives a window its new rectangles, its place in the Z-order and
    its visibility.  It keeps the tree in order, and changes nothing else but the
    positions of the children of a window that is laid out from right to left. *)

(** What a change of position keeps of every window. *)
Definition kept (w : window) := (w_parent w, w_thread w, w_dpi w, w_update_region w, w_paint_flags w, w_class w, w_desktop w).

(** What it keeps of every window but the one that moves, and its children. *)
Definition face (w : window) :=
  (w_window_rect w, w_visible_rect w, w_surface_rect w, w_client_rect w, w_style w, w_win_region w).

(** Only window [a] and its children have moved. *)
Record moved (a : Z) (s s1 : wstate) : Prop := {
  mv_kept : forall b, kept <$> wins s1 !! b = kept <$> wins s !! b;
  mv_far : forall b, b <> a -> w_parent <$> wins s !! b <> Some (Some a) -> face <$> wins s1 !! b = face <$> wins s !! b;
  mv_queues : queues s1 = queues s;
  mv_desktops : desktops s1 = desktops s;
  mv_ok : win_ok s -> win_ok s1
}.

Lemma moved_refl a s : moved a s s.
Proof. by split. Qed.

Lemma kept_parent (x y : option window) : kept <$> x = kept <$> y -> w_parent <$> x = w_parent <$> y.
Proof. destruct x, y; try done. cbn. intros E%(inj Some). f_equal. exact (f_equal (fun t => t.1.1.1.1.1.1) E). Qed.

Lemma moved_trans a s1 s2 s3 : moved a s1 s2 -> moved a s2 s3 -> moved a s1 s3.
Proof.
  intros [H1 H2 H3 H4 H5] [K1 K2 K3 K4 K5]. split; [intros b; by rewrite K1, H1| |congruence|congruence|auto].
  intros b Hb Hp. rewrite K2, H2; [done..|]. by rewrite (kept_parent _ _ (H1 b)).
Qed.

(** Changing a window without moving it in the tree. *)
Lemma moved_upd a b s f :
  (forall w, shape (f w) = shape w) -> (forall w, kept (f w) = kept w) -> (b = a \/ w_parent <$> wins s !! b = Some (Some a)) ->
  moved a s (upd s b f).
Proof.
  intros Hs Hk Hb. split; try done.
  - intros c. rewrite lookup_upd. case_decide; [|done]. destruct (wins s !! c); [|done]. cbn. by rewrite Hk.
  - intros c Hca Hcp. rewrite lookup_upd. case_decide; [subst; by destruct Hb|done].
  - apply win_ok_ext. intros c. rewrite lookup_upd. case_decide; [|done]. destruct (wins s !! c); [|done]. cbn. by rewrite Hs.
Qed.

Lemma moved_shift a dx l : forall s, (forall c, c ∈ l -> w_parent <$> wins s !! c = Some (Some a)) -> moved a s (shift_children s dx l).
Proof.
  induction l as [|c l IH]; intros s Hl; [apply moved_refl|]. cbn [shift_children]. set (s1 := upd s c _).
  assert (moved a s s1) as M by (apply moved_upd; [done..|right; apply Hl; set_solver]).
  eapply moved_trans; [exact M|]. apply IH. intros b Hb. rewrite (kept_parent _ _ (mv_kept _ _ _ M b)). apply Hl. set_solver.
Qed.

Lemma shift_lookup_ne dx l : forall s b, b ∉ l -> wins (shift_children s dx l) !! b = wins s !! b.
Proof.
  induction l as [|c l IH]; intros s b Hb; [done|]. cbn [shift_children]. rewrite IH by set_solver. apply lookup_upd_ne. set_solver.
Qed.

(** Linking moves the window in the tree only. *)
Lemma relink_kept a p l ex b w : kept (relink a p l ex b w) = kept w /\ face (relink a p l ex b w) = face w.
Proof. unfold relink. by repeat case_decide. Qed.

Lemma moved_link s a w p pw previous :
  win_ok s -> wins s !! a = Some w -> w_parent w = Some p -> wins s !! p = Some pw -> good_previous s a p previous ->
  exists s1 changed, link_window s a previous = Some (s1, changed) /\ moved a s s1 /\
    (forall b, face <$> wins s1 !! b = face <$> wins s !! b).
Proof.
  intros [T Zo] Hw Hp Hpw Hprev. destruct (link_window_spec s a w p pw previous T Hw Hp Hpw Hprev) as (l1 & l2 & ex & ch & E & L).
  exists (linked_state s a p (l1 ++ a :: l2) ex), ch. split; [done|].
  assert (Hk : forall b, kept <$> wins (linked_state s a p (l1 ++ a :: l2) ex) !! b = kept <$> wins s !! b).
  { intros b. rewrite lookup_linked. destruct (wins s !! b); [|done]. cbn. f_equal. apply relink_kept. }
  assert (Hf : forall b, face <$> wins (linked_state s a p (l1 ++ a :: l2) ex) !! b = face <$> wins s !! b).
  { intros b. rewrite lookup_linked. destruct (wins s !! b); [|done]. cbn. f_equal. apply relink_kept. }
  split; [|done]. split; [done|intros b _ _; apply Hf|done|done|]. intros _. split; [apply L|by apply L].
Qed.

(** The style after the flags SWP_SHOWWINDOW and SWP_HIDEWINDOW. *)
Definition shown_style (swp_flags style : Z) : Z :=
  if has_bits swp_flags SWP_SHOWWINDOW then Z.lor style WS_VISIBLE
  else if has_bits swp_flags SWP_HIDEWINDOW then clear_bits style WS_VISIBLE
  else style.

(** The window has moved, and looks like this. *)
Definition moved_to (a : Z) (s s1 : wstate) (w : window) : Prop := moved a s s1 /\ wins s1 !! a = Some w.

Section info_pos.
Context (s : wstate) (e : senv) (a : Z) (W : win_ok s).

Lemma zorder_run s1 w1 previous swp_flags old :
  moved_to a s s1 w1 -> w_parent w1 = w_parent old ->
  (forall p, w_parent w1 = Some p -> has_bits swp_flags SWP_NOZORDER = false -> good_previous s1 a p previous) ->
  exists s2 zc w2, (if negb (has_bits swp_flags SWP_NOZORDER) && negb (is_desktop_window old)
     then '(s, changed) ← wask (fun s => link_window s a previous); wput s;; mret changed else mret false) (s1, e) = Some (zc, (s2, e)) /\
     moved_to a s s2 w2 /\ face w2 = face w1.
Proof.
  intros [M1 Hw1] Hp Hprev. destruct (_ && _) eqn:Hc; [|by exists s1, false, w1]. apply andb_true_iff in Hc as [Hc%negb_true_iff Hd%negb_true_iff].
  unfold is_desktop_window in Hd. rewrite <-Hp in Hd. destruct (w_parent w1) as [p|] eqn:Hp1; [|done]. pose proof (mv_ok _ _ _ M1 W) as W1.
  destruct (tb_parent _ _ (proj1 W1) a w1 p Hw1 Hp1) as (pw & Hpw & _).
  destruct (moved_link s1 a w1 p pw previous W1 Hw1 Hp1 Hpw (Hprev p eq_refl Hc)) as (s2 & zc & E & M & F).
  destruct (fmap_some face _ _ w1 (F a) Hw1) as (w2 & Hw2 & Ef). exists s2, zc, w2. wstep ltac:(apply wrun_ask; exact E).
  split; [done|]. split; [|done]. split; [by eapply moved_trans|done].
Qed.

Lemma show_run s2 w2 swp_flags : moved_to a s s2 w2 ->
  exists s3, (if has_bits swp_flags SWP_SHOWWINDOW then wupd a (fun w => set_style w (Z.lor (w_style w) WS_VISIBLE))
     else if has_bits swp_flags SWP_HIDEWINDOW then wupd a (fun w => set_style w (clear_bits (w_style w) WS_VISIBLE)) else mret tt) (s2, e) = Some (tt, (s3, e)) /\
     moved_to a s s3 (set_style w2 (shown_style swp_flags (w_style w2))).
Proof.
  intros [M2 Hw2]. assert (H : forall g, exists s3, wupd a (fun w => set_style w (g (w_style w))) (s2, e) = Some (tt, (s3, e)) /\ moved_to a s s3 (set_style w2 (g (w_style w2)))).
  { intros g. eexists. split; [by eapply wrun_upd|]. split; [|by rewrite (lookup_upd_eq s2 a _ w2 Hw2)].
    eapply moved_trans; [exact M2|]. apply moved_upd; [done..|by left]. }
  unfold shown_style. destruct (has_bits swp_flags SWP_SHOWWINDOW); [exact (H (fun x => Z.lor x WS_VISIBLE))|].
  destruct (has_bits swp_flags SWP_HIDEWINDOW); [exact (H (fun x => clear_bits x WS_VISIBLE))|]. exists s2. split; [done|]. by destruct w2.
Qed.

Lemma mirror_run s3 w3 old_size : moved_to a s s3 w3 ->
  exists s4, (if has_bits (w_ex_style w3) WS_EX_LAYOUTRTL then
     let new_size := i32 (right (w_client_rect w3) - left (w_client_rect w3)) in
     if negb (old_size =? new_size) then s ← wget; wput (shift_children s (i32 (new_size - old_size)) (w_children w3)) else mret tt
     else mret tt) (s3, e) = Some (tt, (s4, e)) /\ moved_to a s s4 w3.
Proof.
  intros [M3 Hw3]. pose proof (proj1 (mv_ok _ _ _ M3 W)) as T3. cbv zeta.
  destruct (has_bits _ _); [|by exists s3]. destruct (negb _); [|by exists s3]. eexists. split; [done|].
  assert (Hch : forall c, c ∈ w_children w3 -> w_parent <$> wins s3 !! c = Some (Some a)).
  { intros c Hc. destruct (tb_child _ _ T3 a w3 true c Hw3 Hc) as (_ & cw & -> & Hcp & _). cbn. by rewrite Hcp. }
  split; [eapply moved_trans; [exact M3|by apply moved_shift]|].
  rewrite shift_lookup_ne; [done|]. intros Hin. specialize (Hch a Hin). rewrite Hw3 in Hch. cbn in Hch.
  injection Hch as Hch. by destruct (parent_ne _ _ _ _ _ T3 Hw3 Hch).
Qed.

(** All but the last step, which tells the desktop. *)
Lemma info_pos_moves w previous swp_flags r :
  wins s !! a = Some w -> (forall p, w_parent w = Some p -> has_bits swp_flags SWP_NOZORDER = false -> good_previous s a p previous) ->
  exists s1 zc w1, moved_to a s s1 w1 /\
    face w1 = (p_window r, p_visible r, p_surface r, p_client r, shown_style swp_flags (w_style w), w_win_region w) /\
    set_window_info_pos a previous swp_flags r (s, e) =
      (d ← wopt (desktops s !! w_desktop w);
       (if bool_decide (top_window d = Some a) then wcall (set_clip_rectangle (w_desktop w)) else mret tt);; mret zc) (s1, e).
Proof.
  intros Hw Hprev. unfold set_window_info_pos. wstep ltac:(by apply wrun_at).
  set (f := fun w => set_rects w (p_window r) (p_visible r) (p_surface r) (p_client r)). wstep ltac:(by apply (wrun_upd a f s e w)).
  set (s1 := upd s a f). assert (moved_to a s s1 (f w)) as M1 by (split; [apply moved_upd; [done..|by left]|by apply lookup_upd_eq]).
  destruct (zorder_run s1 (f w) previous swp_flags w M1 eq_refl) as (s2 & zc & w2 & E2 & M2 & F2).
  { intros p Hp Hc b Hb. destruct (Hprev p Hp Hc b Hb) as (H1 & pw & H2 & H3). split; [done|]. exists pw. split; [|done].
    unfold s1. rewrite lookup_upd_ne; [done|]. by apply not_eq_sym, (parent_ne _ _ _ _ _ (proj1 W) Hw). }
  wstep ltac:(exact E2). destruct (show_run s2 w2 swp_flags M2) as (s3 & E3 & M3). wstep ltac:(exact E3). wstep ltac:(apply wrun_at, M3).
  set (w3 := set_style w2 _) in *. destruct (mirror_run s3 w3 (i32 (right (w_client_rect w) - left (w_client_rect w))) M3) as (s4 & E4 & M4 & Hw4).
  wstep ltac:(exact E4). wstep ltac:(apply wrun_get). rewrite (mv_desktops _ _ _ M4).
  assert (w_desktop w3 = w_desktop w) as ->.
  { pose proof (mv_kept _ _ _ M4 a) as K. rewrite Hw4, Hw in K. exact (f_equal (fun o => match o with Some t => snd t | None => 0 end) K). }
  exists s4, zc, w3. split; [by split|]. split; [|done].
  unfold face, f in F2. cbn in F2. injection F2 as F2a F2b F2c F2d F2e F2f. unfold face, w3. cbn. congruence.
Qed.

Lemma moved_call c s1 : moved a s s1 -> moved a s (add_call s1 c).
Proof. intros M. eapply moved_trans; [exact M|]. split; try done. by apply win_ok_ext. Qed.

Lemma info_pos_run w previous swp_flags r :
  wins s !! a = Some w -> is_Some (desktops s !! w_desktop w) ->
  (forall p, w_parent w = Some p -> has_bits swp_flags SWP_NOZORDER = false -> good_previous s a p previous) ->
  exists s1 zc w1, set_window_info_pos a previous swp_flags r (s, e) = Some (zc, (s1, e)) /\ moved_to a s s1 w1 /\
    face w1 = (p_window r, p_visible r, p_surface r, p_client r, shown_style swp_flags (w_style w), w_win_region w).
Proof.
  intros Hw [d Hd] Hprev. destruct (info_pos_moves w previous swp_flags r Hw Hprev) as (s1 & zc & w1 & [M Hw1] & F & ->).
  wstep ltac:(by apply wrun_opt). case_bool_decide; [|by exists s1, zc, w1]. eexists _, zc, w1. split; [done|]. split; [|done]. split; [by apply moved_call|done].
Qed.
End info_pos.

(** * Changing position

    set_window_pos with memory: what it leaves to be painted. *)

(** ** Equal regions *)

Lemma is_rect_equal_eq r1 r2 : is_rect_equal r1 r2 = true <-> r1 = r2.
Proof.
  unfold is_rect_equal. rewrite !andb_true_iff, !Z.eqb_eq. destruct r1, r2. cbn. split; [intros (((-> & ->) & ->) & ->)|intros [= -> -> -> ->]]; done.
Qed.

Lemma rects_equal_eq l1 : forall l2, length l1 = length l2 -> rects_equal l1 l2 = true -> l1 = l2.
Proof.
  induction l1 as [|r1 l1 IH]; intros [|r2 l2] Hl; try done. cbn [rects_equal]. destruct (is_rect_equal r1 r2) eqn:E; [|done].
  apply is_rect_equal_eq in E as ->. intros H. f_equal. apply IH; [cbn in Hl; lia|done].
Qed.

Lemma region_equal_pixels r1 r2 x y : is_region_equal r1 r2 = true -> pixel r1 x y = pixel r2 x y.
Proof.
  unfold is_region_equal. destruct (Z.eqb_spec (num_rects r1) (num_rects r2)) as [Hn|]; [|done]. unfold num_rects in *. cbn [negb].
  assert (length (rects r1) = length (rects r2)) as Hl by lia. intros H. unfold pixel. f_equal.
  destruct (Z.eqb_spec (Z.of_nat (length (rects r1))) 0) as [H0|_].
  - destruct (rects r1), (rects r2); done.
  - destruct (is_rect_equal (extents r1) (extents r2)); [|done]. by apply rects_equal_eq.
Qed.

(** ** Visible pixels can be painted *)

Lemma path_two s a p w l : path s a l -> wins s !! a = Some w -> w_parent w = Some p -> exists l', l = a :: p :: l' /\ path s p (p :: l').
Proof.
  intros P Hw Hp. inversion P as [? w' H1 H2|? w' q l' H1 H2 P']; subst; [congruence|]. assert (q = p) as -> by congruence.
  assert (exists l'', l' = p :: l'') as [l'' ->] by (inversion P'; by eexists). by exists l''.
Qed.

Lemma in_client_rects w x y : in_client w x y = true -> point_in_rect (w_client_rect w) x y = true /\ point_in_rect (w_window_rect w) x y = true.
Proof. unfold in_client, client_pixel. rewrite !andb_true_iff. tauto. Qed.

Lemma all_visible_cons s a l w : wins s !! a = Some w -> all_visible s (a :: l) = true -> visible w = true /\ all_visible s l = true.
Proof. intros Hw. cbn [all_visible]. rewrite Hw, !andb_true_iff. tauto. Qed.

Lemma all_visible_next s a p l pw : wins s !! p = Some pw -> all_visible s (a :: p :: l) = true -> has_bits (w_style pw) WS_MINIMIZE = false.
Proof. intros Hp. cbn [all_visible]. rewrite Hp, !andb_true_iff, negb_true_iff. tauto. Qed.

Lemma unobstructed_step s a p q l w pw x y : wins s !! a = Some w -> wins s !! p = Some pw ->
  unobstructed s (a :: p :: q :: l) x y = true ->
  in_client pw (x + left (w_client_rect pw)) (y + top (w_client_rect pw)) = true /\
  unobstructed s (p :: q :: l) (x + left (w_client_rect pw)) (y + top (w_client_rect pw)) = true.
Proof. intros Hw Hp H. cbn [unobstructed] in H. rewrite Hw, Hp in H. apply andb_true_iff in H as [[_ Hc]%andb_true_iff Hu]. split; [done|]. cbn [unobstructed]. by rewrite Hp. Qed.

Lemma unobstructed_there s a p q l x y : unobstructed s (a :: p :: q :: l) x y = true -> is_Some (wins s !! a) /\ is_Some (wins s !! p).
Proof. cbn [unobstructed]. destruct (wins s !! a), (wins s !! p); try done. Qed.

Lemma in_parents_step s a p q l pw x y : wins s !! p = Some pw ->
  in_parents s (a :: p :: q :: l) x y =
  visible pw && negb (has_bits (w_style pw) WS_MINIMIZE) &&
  point_in_rect (w_client_rect pw) (x + left (w_client_rect pw)) (y + top (w_client_rect pw)) &&
  point_in_rect (w_window_rect pw) (x + left (w_client_rect pw)) (y + top (w_client_rect pw)) &&
  in_parents s (p :: q :: l) (x + left (w_client_rect pw)) (y + top (w_client_rect pw)).
Proof. intros Hp. cbn [in_parents]. by rewrite Hp. Qed.

Lemma unobstructed_in_parents s l : forall x y, all_visible s l = true -> unobstructed s l x y = true -> in_parents s l x y = true.
Proof.
  induction l as [|a [|p [|q l]] IH]; intros x y Hv Hu; try done. destruct (unobstructed_there _ _ _ _ _ _ _ Hu) as [[w Hw] [pw Hp]].
  destruct (unobstructed_step s a p q l w pw x y Hw Hp Hu) as [[Hc1 Hc2]%in_client_rects Hu']. rewrite (in_parents_step s a p q l pw x y Hp), Hc1, Hc2.
  rewrite (all_visible_next s a p _ pw Hp Hv). destruct (all_visible_cons _ _ _ _ Hw Hv) as [_ Hv'].
  rewrite (IH _ _ Hv' Hu'). by destruct (all_visible_cons _ _ _ _ Hp Hv') as [-> _].
Qed.

Lemma visible_own s a p l w pw x y : wins s !! a = Some w -> wins s !! p = Some pw -> visible_pixel s (a :: p :: l) DCX_WINDOW x y = true ->
  all_visible s (a :: p :: l) = true /\ unobstructed s (a :: p :: l) (x + left (w_window_rect w)) (y + top (w_window_rect w)) = true.
Proof. unfold visible_pixel. intros -> ->. rewrite !andb_true_iff. tauto. Qed.

(** What is visible inside the rectangle of the window. *)
Lemma visible_frame s a p l w pw x y :
  wins s !! a = Some w -> wins s !! p = Some pw -> visible_pixel s (a :: p :: l) DCX_WINDOW x y = true ->
  point_in_rect (w_window_rect w) (x + left (w_window_rect w)) (y + top (w_window_rect w)) = true -> frame_pixel s (a :: p :: l) true x y = true.
Proof.
  intros Hw Hp Hv Hr. destruct (visible_own s a p l w pw x y Hw Hp Hv) as [V U]. unfold frame_pixel. rewrite Hw. unfold frame_rect. rewrite Hr.
  rewrite (unobstructed_in_parents s _ _ _ V U). by destruct (all_visible_cons _ _ _ _ Hw V) as [-> _].
Qed.

(** A visible pixel of a window, relative to its parent. *)
Lemma visible_parent_frame s a p q l w pw x y :
  wins s !! a = Some w -> wins s !! p = Some pw -> visible_pixel s (a :: p :: q :: l) DCX_WINDOW x y = true ->
  frame_pixel s (p :: q :: l) false (x + left (w_window_rect w) + left (w_client_rect pw) - left (w_window_rect pw))
                                    (y + top (w_window_rect w) + top (w_client_rect pw) - top (w_window_rect pw)) = true.
Proof.
  intros Hw Hp Hv. destruct (visible_own s a p (q :: l) w pw x y Hw Hp Hv) as [V U]. destruct (all_visible_cons _ _ _ _ Hw V) as [_ V'].
  destruct (unobstructed_step s a p q l w pw _ _ Hw Hp U) as [[Hc _]%in_client_rects U']. unfold frame_pixel. rewrite Hp. unfold frame_rect. rewrite !Z.sub_add, Hc.
  rewrite (unobstructed_in_parents s (p :: q :: l)) by done. by destruct (all_visible_cons _ _ _ _ Hp V') as [-> _].
Qed.

(** The pixels that can be painted depend on the faces of the windows on the way. *)
Lemma in_parents_ext s s1 l : (forall b, b ∈ l -> face <$> wins s1 !! b = face <$> wins s !! b) -> forall x y, in_parents s1 l x y = in_parents s l x y.
Proof.
  induction l as [|a [|p [|q l]] IH]; intros Hf x y; try done. pose proof (Hf p ltac:(set_solver)) as Fp.
  destruct (wins s !! p) as [pw|] eqn:Hp; [|destruct (wins s1 !! p) as [pw1|] eqn:Hp1; [done|]; cbn [in_parents]; by rewrite Hp, Hp1].
  destruct (wins s1 !! p) as [pw1|] eqn:Hp1; [|done]. rewrite (in_parents_step s _ _ _ _ pw), (in_parents_step s1 _ _ _ _ pw1) by done.
  cbn in Fp. injection Fp as E1 E2 E3 E4 E5 E6. unfold visible. rewrite E1, E4, E5. rewrite IH; [done|]. intros b Hb. apply Hf. set_solver.
Qed.

Lemma frame_pixel_ext s s1 l frame x y :
  (forall b, b ∈ l -> face <$> wins s1 !! b = face <$> wins s !! b) -> frame_pixel s1 l frame x y = frame_pixel s l frame x y.
Proof.
  intros Hf. destruct l as [|a l]; [done|]. unfold frame_pixel. pose proof (Hf a ltac:(set_solver)) as Fa.
  destruct (wins s !! a) as [w|], (wins s1 !! a) as [w1|]; try done. cbn in Fa. injection Fa as E1 E2 E3 E4 E5 E6.
  unfold visible, frame_rect. rewrite E1, E4, E5. rewrite (in_parents_ext s s1 (a :: l) Hf). done.
Qed.

(** ** What changes with a position *)

Section exposed.
Context (e : senv) (He : allocs e = []) (B : Z).

(** Pixels of [new] that [old] does not have. *)
Definition gained (old new : Z -> Z -> bool) (x y : Z) : bool := new x y && negb (old x y).

(** The part of the window to be painted. *)
Definition exposes (w : window) (old new : Z -> Z -> bool) (exposed : option region) : Prop :=
  match exposed with
  | None => forall x y, gained old new x y = false
  | Some r => exists K f, draws K f r /\ forall x y, gained old new x y = true -> from_client w f x y = true
  end.

Lemma exposed_on_window_run s w b new_vis old_vis old new :
  windows_fit B s -> window_fits B w -> draws (reach B s) old old_vis -> draws (reach B s) new new_vis ->
  exists exposed, exposed_on_window w b new_vis old_vis (s, e) = Some (exposed, (s, e)) /\ exposes w old new exposed.
Proof.
  intros Hfit F Do Dn. destruct (reach_bounds B s Hfit) as (B1 & B2 & B3). unfold exposed_on_window.
  destruct (create_run e He) as (r0 & E0 & D0). wstep ltac:(apply wrun_lift; exact E0).
  set (f := fun x y => if b : bool then new x y || old x y else new x y && negb (old x y)).
  assert (exists r, lift_op (if b then union_region false r0 new_vis old_vis else subtract_region r0 new_vis old_vis) (s, e) = Some ((r, true), (s, e)) /\
    draws (reach B s) f r) as (r & E & D).
  { destruct b.
    - destruct (union_run e He _ _ _ _ r0 _ _ (draws_capacity _ _ _ D0) Dn Do) as (r & E & D). exists r. split; [by apply wrun_op|].
      eapply draws_weaken; [|exact D]. lia.
    - destruct (subtract_run e He _ _ _ _ r0 _ _ (draws_capacity _ _ _ D0) Dn Do) as (r & E & D). exists r. split; [by apply wrun_op|done]. }
  assert (Hg : forall x y, gained old new x y = true -> f x y = true).
  { intros x y. unfold gained, f. rewrite andb_true_iff. intros [-> H]. destruct b; [done|by rewrite H]. }
  wstep ltac:(exact E). cbn [andb]. eexists. split; [done|]. destruct (is_region_empty r) eqn:Hr; cbn.
  - intros x y. apply not_true_iff_false. intros H%Hg. by rewrite (proj1 (draws_empty _ _ _ D) Hr) in H.
  - destruct (wf_window _ _ F) as (WL & WT & _), (wf_client _ _ F) as (CL & CT & _). rewrite !(i32_bounded (2 * B)) by lia. eexists _, _.
    split; [apply (offset_draws _ _ _ _ _ (2 * B) D); lia|]. intros x y H%Hg. unfold from_client. rewrite <-H. f_equal; lia.
Qed.

(** The part of the parent to be painted, which the window does not cover any more. *)
Lemma expose_on_parent_run s w p pw lp old_rect b new_vis old_vis old new :
  paint_ok B s -> window_fits B w -> rect_within B old_rect -> path s p lp -> (2 <= length lp)%nat -> wins s !! p = Some pw ->
  draws (reach B s) old old_vis -> draws (reach B s) new new_vis ->
  exists s', expose_on_parent w p old_rect b new_vis old_vis (s, e) = Some (tt, (s', e)) /\ repaint B p s s' /\
    (forall x y, old x y = true -> new (x + left old_rect - left (w_window_rect w)) (y + top old_rect - top (w_window_rect w)) = false ->
       let x' := x + left old_rect + left (w_client_rect pw) - left (w_window_rect pw) in
       let y' := y + top old_rect + top (w_client_rect pw) - top (w_window_rect pw) in
       frame_pixel s lp false x' y' = true -> upd_at s' p x' y' = true).
Proof.
  intros O F Ro P Hl Hp Do Dn. destruct (reach_bounds B s (po_fit _ _ O)) as (B1 & B2 & B3). unfold expose_on_parent.
  destruct (wf_window _ _ F) as (WL & WT & _). destruct Ro as (RL & RT & _). rewrite !(i32_bounded (2 * B)) by lia.
  set (dx := left (w_window_rect w) - left old_rect). set (dy := top (w_window_rect w) - top old_rect).
  pose proof (offset_draws _ _ _ dx dy (2 * B) Dn B2 ltac:(unfold dx; lia) ltac:(unfold dy; lia) ltac:(lia)) as D1.
  set (nv := offset_region new_vis dx dy) in *.
  assert (exists r f, (if is_region_empty old_vis then mret (nv, true)
      else lift_op (if b then union_region false nv old_vis nv else subtract_region nv old_vis nv)) (s, e) = Some ((r, true), (s, e)) /\
    draws (reach B s + 2 * B) f r /\ forall x y, old x y = true -> new (x - dx) (y - dy) = false -> f x y = true) as (r & f & E & D & Hf).
  { destruct (is_region_empty old_vis) eqn:Ho.
    { eexists nv, _. split; [done|]. split; [exact D1|]. intros x y H. by rewrite (proj1 (draws_empty _ _ _ Do) Ho) in H. }
    destruct b.
    - destruct (union_run e He _ _ _ _ nv _ _ (draws_capacity _ _ _ D1) Do D1) as (r & E & D). eexists r, _. split; [by apply wrun_op|].
      split; [eapply draws_weaken; [|exact D]; lia|]. intros x y H _. cbv beta. by rewrite H.
    - destruct (subtract_run e He _ _ _ _ nv _ _ (draws_capacity _ _ _ D1) Do D1) as (r & E & D). eexists r, _. split; [by apply wrun_op|].
      split; [eapply draws_weaken; [|exact D]; lia|]. intros x y H1 H2. cbv beta. by rewrite H1, H2. }
  wstep ltac:(exact E). cbn [andb]. destruct (is_region_empty r) eqn:Hr; cbn [negb].
  { exists s. split; [done|]. split; [by apply repaint_refl|]. intros x y H1 H2. assert (f x y = true) as H3.
    { apply Hf; [done|]. rewrite <-H2. unfold dx, dy. f_equal; lia. } by rewrite (proj1 (draws_empty _ _ _ D) Hr) in H3. }
  unfold redraw. wstep ltac:(apply wrun_get).
  pose proof (offset_draws _ _ _ (left old_rect) (top old_rect) B D ltac:(lia) ltac:(lia) ltac:(lia) ltac:(lia)) as D2.
  assert (region_draws (fun x y => f (x - left old_rect) (y - top old_rect)) (Some (offset_region r (left old_rect) (top old_rect)))) as D3 by (by eexists).
  destruct (redraw_window_run e He B (tree_fuel s) s p lp pw (Some (offset_region r (left old_rect) (top old_rect))) false
    (Z.lor (Z.lor RDW_INVALIDATE RDW_ERASE) RDW_ALLCHILDREN) _ O P Hl ltac:(unfold tree_fuel; lia) Hp D3 ltac:(done)) as (s' & E' & R' & U').
  exists s'. split; [exact E'|]. split; [done|]. intros x y H1 H2. cbv zeta. intros H3. rewrite U', H3. apply orb_true_iff. right. unfold from_client. cbn [andb].
  assert (f x y = true) as H4 by (apply Hf; [done|]; rewrite <-H2; unfold dx, dy; f_equal; lia). rewrite <-H4. f_equal; lia.
Qed.

Lemma composited_run s w p pw : w_parent w = Some p -> wins s !! p = Some pw -> is_Some (w_class pw) -> exists b, is_parent_composited s w = Some b.
Proof.
  intros Hp Hpw [c Hc]. unfold is_parent_composited, is_window_composited, is_window_using_parent_dc. rewrite Hp, Hpw. cbn [mbind option_bind]. rewrite Hc.
  destruct (has_bits _ _); [|by eexists]. destruct (bits_are _ _ _); cbn; by eexists.
Qed.

(** expose_window: [old] is what was visible at [old_rect]. *)
Lemma expose_window_run s a w p pw lp old_rect old_vis old zc :
  let new := visible_pixel s (a :: lp) DCX_WINDOW in
  paint_ok B s -> wins s !! a = Some w -> w_parent w = Some p -> wins s !! p = Some pw -> is_Some (w_class pw) ->
  path s p lp -> rect_within B old_rect -> draws (reach B s) old old_vis ->
  exists s' exposed, expose_window a old_rect old_vis zc (s, e) = Some (exposed, (s', e)) /\ repaint B p s s' /\ exposes w old new exposed /\
    (forall x y, is_desktop_window pw = false ->
       old x y = true -> new (x + left old_rect - left (w_window_rect w)) (y + top old_rect - top (w_window_rect w)) = false ->
       let x' := x + left old_rect + left (w_client_rect pw) - left (w_window_rect pw) in
       let y' := y + top old_rect + top (w_client_rect pw) - top (w_window_rect pw) in
       frame_pixel s lp false x' y' = true -> upd_at s' p x' y' = true).
Proof.
  intros new O Hw Hp Hpw Hc P Ro Do. pose proof (po_fit _ _ O) as Hfit. pose proof (fits_at s B Hfit a w Hw) as F. unfold expose_window.
  wstep ltac:(by apply wrun_at). destruct (composited_run s w p pw Hp Hpw Hc) as [b Eb]. wstep ltac:(apply wrun_ask; exact Eb).
  assert (path s a (a :: lp)) as Pa by (by eapply path_up).
  destruct (get_visible_region_run s e B He Hfit (po_tree _ _ O) a (a :: lp) DCX_WINDOW Pa) as (new_vis & E1 & D1). wstep ltac:(exact E1).
  fold new in D1. fold (reach B s) in D1. destruct (b && negb zc && _ && _) eqn:Hq.
  { apply andb_true_iff in Hq as [[[_ _]%andb_true_iff Hq1]%andb_true_iff Hq2]. apply is_rect_equal_eq in Hq1 as ->.
    assert (forall x y, old x y = new x y) as Hon.
    { intros x y. rewrite <-(draws_pixel _ _ _ x y Do), <-(draws_pixel _ _ _ x y D1). by apply region_equal_pixels. }
    exists s, None. split; [done|]. split; [by apply repaint_refl|]. split.
    - intros x y. unfold gained. rewrite Hon. by destruct (new x y).
    - intros x y _ H1 H2. rewrite Hon in H1. rewrite !Z.add_simpl_r in H2. congruence. }
  destruct (exposed_on_window_run s w b new_vis old_vis old new Hfit F Do D1) as (exposed & E2 & X2). wstep ltac:(exact E2). rewrite Hp.
  wstep ltac:(by apply wrun_at). destruct (is_desktop_window pw) eqn:Hd.
  { wstep ltac:(apply wrun_ret). exists s, exposed. split; [done|]. split; [by apply repaint_refl|]. by split. }
  assert (2 <= length lp)%nat as Hl.
  { unfold is_desktop_window in Hd. inversion P as [? w' H1 H2|? w' q l' H1 H2 P']; subst; [assert (w' = pw) as -> by congruence; by rewrite H2 in Hd|].
    inversion P'; cbn; lia. }
  destruct (expose_on_parent_run s w p pw lp old_rect b new_vis old_vis old new O F Ro P Hl Hpw Do D1) as (s' & E3 & R3 & U3). wstep ltac:(exact E3).
  exists s', exposed. split; [done|]. split; [done|]. split; [done|]. intros x y _. by apply U3.
Qed.

(** ** Windows that are hidden *)

Lemma validate_whole_run s a w : paint_ok B s -> wins s !! a = Some w ->
  exists s', validate_whole_window a (s, e) = Some (tt, (s', e)) /\ repaint B a s s'.
Proof.
  intros O Hw. unfold validate_whole_window. destruct (clear_update_run e B s a w O Hw) as (s1 & E1 & R1 & _). wstep ltac:(exact E1).
  destruct (repaint_at B a s s1 a w R1 Hw) as (w1 & Hw1 & _).
  destruct (redraw_internal_run e B s1 a w1 RDW_NOINTERNALPAINT (rp_ok _ _ _ _ R1) Hw1) as (s2 & E2 & R2 & _).
  exists s2. split; [exact E2|]. by eapply repaint_trans.
Qed.

Lemma validate_children_run n : forall s a l w, paint_ok B s -> path s a l -> (base.size (wins s) < n + length l)%nat -> wins s !! a = Some w ->
  exists s', validate_children n a (s, e) = Some (tt, (s', e)) /\ repaint B a s s'.
Proof.
  induction n as [|n IH]; intros s a l w O P Hn Hw; [pose proof (path_length _ _ _ P); lia|]. cbn [validate_children]. wstep ltac:(by apply wrun_at).
  match goal with |- context [wfor ?g _] => edestruct (children_run e He B g s a l w O P Hw) as (s' & E & R & _) end; [|by exists s'].
  intros c cw s1 [R1 U1] Hc Hcw Hp Pc. pose proof (rp_ok _ _ _ _ R1) as O1. cbv beta. wstep ltac:(by apply wrun_at).
  destruct (visible cw); cbn [negb]; [|exists s1; split; [done|by apply repaint_refl]].
  destruct (IH s1 c (c :: l) cw O1 Pc) as (s2 & E2 & R2); [rewrite (scene_size s s1) by apply R1; cbn; lia|done|]. wstep ltac:(exact E2).
  destruct (repaint_at B c s1 s2 c cw R2 Hcw) as (cw2 & Hcw2 & _). destruct (validate_whole_run s2 c cw2 (rp_ok _ _ _ _ R2) Hcw2) as (s3 & E3 & R3).
  exists s3. split; [exact E3|]. by eapply repaint_trans.
Qed.

(** ** The part that is not valid *)

(** Outside the valid rectangle, in client coordinates. *)
Lemma invalid_part_run s a w rgn r :
  paint_ok B s -> wins s !! a = Some w -> w_parent w <> None -> capacity_ok rgn ->
  rect_within B (p_window r) -> rect_within B (p_client r) -> rect_within B (p_valid r) ->
  exists reg f, invalid_part a rgn r (s, e) = Some (reg, (s, e)) /\ draws (2 * B) f reg /\
    (forall x y, point_in_rect (p_window r) x y = true -> point_in_rect (p_valid r) x y = false ->
       f (x - left (p_client r)) (y - top (p_client r)) = true).
Proof.
  intros O Hw Hp C Rw Rc Rv. destruct (reach_bounds B s (po_fit _ _ O)) as (B1 & B2 & B3). unfold invalid_part. wstep ltac:(by apply wrun_at).
  destruct Rw as (WL & WT & Rw'). assert (rect_within B (p_window r)) as Rw by (by split). rewrite !(i32_bounded B) by (destruct Rc; lia).
  pose proof (set_rect_draws B rgn (p_window r) C Rw) as D1.
  set (body := if is_rect_empty (p_valid r) then mret (set_region_rect rgn (p_window r)) else _ : W region).
  assert (exists reg f, body (s, e) = Some (reg, (s, e)) /\ draws B f reg /\
    forall x y, point_in_rect (p_window r) x y = true -> point_in_rect (p_valid r) x y = false -> f x y = true) as (reg & f & E & D & Hf).
  { unfold body. destruct (is_rect_empty (p_valid r)); [by eexists _, _|].
    destruct (create_run e He) as (t0 & E0 & D0). wstep ltac:(apply wrun_lift; exact E0).
    pose proof (set_rect_draws B t0 (p_valid r) (draws_capacity _ _ _ D0) Rv) as D2.
    assert (exists t g, match w_update_region w with
       | None => mret (set_region_rect t0 (p_valid r))
       | Some u => '(tmp, _) ← lift_op (subtract_region (offset_region (set_region_rect t0 (p_valid r)) (- left (p_window r)) (- top (p_window r)))
                       (offset_region (set_region_rect t0 (p_valid r)) (- left (p_window r)) (- top (p_window r))) u);
                   mret (offset_region tmp (left (p_window r)) (top (p_window r)))
       end (s, e) = Some (t, (s, e)) /\ draws (3 * B) g t /\ forall x y, g x y = true -> point_in_rect (p_valid r) x y = true) as (t & g & E2 & Dg & Hg).
    { destruct (w_update_region w) as [u|] eqn:Hu; [|eexists _, _; split; [done|]; split; [|by intros x y H; exact H]; apply (draws_weaken B); [lia|done]].
      destruct (po_updates _ _ O a w u Hw Hu) as [Wu Bu]. assert (Du : draws (reach B s) (pixel u) u) by (split; [by split|done]).
      pose proof (offset_draws _ _ _ (- left (p_window r)) (- top (p_window r)) B D2 ltac:(lia) ltac:(lia) ltac:(lia) ltac:(lia)) as D3.
      destruct (subtract_run e He _ _ _ _ _ _ _ (draws_capacity _ _ _ D3) D3 Du) as (t & E3 & D4). eexists _, _. wstep ltac:(apply wrun_op; exact E3). split; [done|].
      pose proof (offset_draws _ _ _ (left (p_window r)) (top (p_window r)) B D4 ltac:(lia) ltac:(lia) ltac:(lia) ltac:(lia)) as D5.
      split; [eapply draws_weaken; [|exact D5]; lia|]. intros x y [H _]%andb_true_iff. rewrite <-H. f_equal; lia. }
    wstep ltac:(exact E2). destruct (subtract_run e He _ _ _ _ _ _ _ (draws_capacity _ _ _ Dg) D1 Dg) as (t' & E3 & D3). eexists t', _. wstep ltac:(apply wrun_op; exact E3).
    split; [done|]. split; [exact D3|]. intros x y H1 H2. cbv beta. rewrite H1. cbn. apply negb_true_iff, not_true_iff_false. intros H%Hg. congruence. }
  wstep ltac:(exact E). unfold is_desktop_window. destruct (w_parent w); [|done]. destruct Rc as (CL & CT & _). eexists _, _. split; [done|].
  pose proof (offset_draws _ _ _ (- left (p_client r)) (- top (p_client r)) B D ltac:(lia) ltac:(lia) ltac:(lia) ltac:(lia)) as D2.
  split; [eapply draws_weaken; [|exact D2]; lia|]. intros x y H1 H2. cbv beta. rewrite <-(Hf x y H1 H2). f_equal; lia.
Qed.

(** ** A new position *)

Lemma paint_total_ext t m1 m2 : (forall b, due t <$> m1 !! b = due t <$> m2 !! b) -> paint_total t m1 = paint_total t m2.
Proof.
  intros H. assert (Hm : forall m, paint_total t m = map_fold (fun _ d n => d + n) 0 (due t <$> m)) by (intros m; symmetry; apply map_fold_fmap).
  rewrite !Hm. f_equal. apply map_eq. intros b. by rewrite !lookup_fmap.
Qed.

Lemma moved_at a s s1 b w1 : moved a s s1 -> wins s1 !! b = Some w1 -> exists w, wins s !! b = Some w /\ kept w = kept w1.
Proof. intros M Hw. exact (fmap_some kept _ _ w1 (eq_sym (mv_kept _ _ _ M b)) Hw). Qed.

Lemma moved_size a s s1 : moved a s s1 -> base.size (wins s1) = base.size (wins s).
Proof.
  intros M. rewrite <-!size_dom. f_equal. apply set_eq. intros b. rewrite !elem_of_dom. pose proof (mv_kept _ _ _ M b) as E.
  destruct (wins s !! b), (wins s1 !! b); try done; split; by intros [].
Qed.

(** A change of position keeps what painting relies on. *)
Lemma moved_paint_ok a s s1 : win_ok s -> paint_ok B s -> moved a s s1 -> windows_fit B s1 -> paint_ok B s1.
Proof.
  intros W O M Hfit. assert (Hs := moved_size a s s1 M). destruct (po_counts _ _ O) as [C1 C2 C3]. split; [by apply M|done| | |].
  - split; [by rewrite Hs| |].
    + intros b w1 t Hb Ht. destruct (moved_at a s s1 b w1 M Hb) as (w & Hw & E). rewrite (mv_queues _ _ _ M). apply (C2 b w t Hw).
      rewrite <-Ht. exact (f_equal (fun t => t.1.1.1.1.1.2) E).
    + intros t q. rewrite (mv_queues _ _ _ M). intros Hq. destruct (C3 t q Hq) as [-> ->]. split; [|done]. apply paint_total_ext. intros b.
      pose proof (mv_kept _ _ _ M b) as E. destruct (wins s !! b) as [w|], (wins s1 !! b) as [w1|]; try done. cbn in *. injection E as _ E1 _ E2 E3 _ _.
      unfold due, pending. by rewrite E1, E2, E3.
  - unfold reach. rewrite Hs. intros b w1 u Hb Hu. destruct (moved_at a s s1 b w1 M Hb) as (w & Hw & E). apply (po_updates _ _ O b w u Hw).
    rewrite <-Hu. exact (f_equal (fun t => t.1.1.1.2) E).
  - intros c cw1 q qw1 Hc Hp Hq Hd. destruct (moved_at a s s1 c cw1 M Hc) as (cw & Hcw & Ec), (moved_at a s s1 q qw1 M Hq) as (qw & Hqw & Eq).
    injection Ec as Ec1 _ Ec2 _ _ _ _. injection Eq as Eq1 _ Eq2 _ _ _ _. rewrite <-Ec2, <-Eq2. apply (po_dpi _ _ O c cw q qw); try done; [congruence|].
    unfold is_desktop_window in *. by rewrite Eq1.
Qed.

(** The parents of a window do not move with it. *)
Lemma parents_far s s1 a p lp w : path s p lp -> a ∉ lp -> wins s !! a = Some w -> moved a s s1 ->
  forall b, b ∈ lp -> face <$> wins s1 !! b = face <$> wins s !! b.
Proof.
  intros P Hn Hw M b Hb. apply (mv_far _ _ _ M); [by intros ->|]. intros Hp. apply Hn. apply list_elem_of_split in Hb as (l1 & l2 & ->).
  pose proof (path_suffix _ _ _ l1 b l2 P eq_refl) as Pb. inversion Pb as [? bw H1 H2|? bw q l' H1 H2 P']; subst; rewrite H1 in Hp; cbn in Hp; [congruence|].
  assert (q = a) as -> by congruence. inversion P'; set_solver.
Qed.

Lemma all_visible_ext s s1 l : (forall b, b ∈ l -> face <$> wins s1 !! b = face <$> wins s !! b) -> all_visible s1 l = all_visible s l.
Proof.
  induction l as [|a l IH]; intros Hf; [done|]. cbn [all_visible]. rewrite IH by (intros; apply Hf; set_solver).
  assert (Hv : forall b (g : Z -> bool), b ∈ a :: l -> (if wins s1 !! b is Some w then g (w_style w) else false) = (if wins s !! b is Some w then g (w_style w) else false)).
  { intros b g Hb. specialize (Hf b Hb). destruct (wins s !! b), (wins s1 !! b); try done. cbn in Hf. by injection Hf as _ _ _ _ -> _. }
  unfold visible. rewrite (Hv a (fun st => has_bits st WS_VISIBLE)) by set_solver. destruct l as [|p l]; [done|].
  by rewrite (Hv p (fun st => negb (has_bits st WS_MINIMIZE))) by set_solver.
Qed.

Lemma crop_and_redraw_run s a l w old_w swp_flags r old_vis exposed old new :
  paint_ok B s -> path s a l -> (2 <= length l)%nat -> wins s !! a = Some w -> w_parent w <> None ->
  w_window_rect w = p_window r -> w_client_rect w = p_client r -> rect_within B (p_valid r) ->
  capacity_ok old_vis -> exposes w old new exposed -> has_bits swp_flags SWP_NOREDRAW = false ->
  exists s', crop_and_redraw a old_w swp_flags r old_vis exposed (s, e) = Some (tt, (s', e)) /\ repaint B a s s' /\
    (forall x y, upd_at s' a x y = true -> frame_pixel s l true x y = true) /\
    (forall x y, frame_pixel s l true x y = true -> gained old new x y = true -> upd_at s' a x y = true) /\
    (forall x y, frame_pixel s l true x y = true -> frame_changed old_w swp_flags r || client_changed old_w swp_flags r = true ->
       point_in_rect (p_valid r) (x + left (p_window r)) (y + top (p_window r)) = false ->
       point_in_rect (p_window r) (x + left (p_window r)) (y + top (p_window r)) = true -> upd_at s' a x y = true).
Proof.
  intros O P Hl Hw Hp Ew Ec Rv Co X Hnr. unfold crop_and_redraw. destruct (crop_to_window_run e He B s a l w O P Hw) as (s1 & E1 & R1 & U1). wstep ltac:(exact E1). rewrite Hnr.
  destruct (repaint_at B a s s1 a w R1 Hw) as (w1 & Hw1 & F1). pose proof (rp_ok _ _ _ _ R1) as O1. pose proof (scene_path _ _ _ _ (rp_scene _ _ _ _ R1) P) as P1.
  pose proof (fits_at s B (po_fit _ _ O) a w Hw) as F.
  assert (Hfr : forall x y, frame_pixel s1 l true x y = frame_pixel s l true x y).
  { intros x y. apply frame_pixel_ext. intros b _. apply (scene_field face); [done|apply R1]. }
  assert (Hfc : forall f x y, from_client w1 f x y = from_client w f x y).
  { intros f x y. unfold from_client. by rewrite (F1 _ w_window_rect), (F1 _ w_client_rect) by done. }
  set (changed := frame_changed old_w swp_flags r || client_changed old_w swp_flags r).
  set (more := fun f x y => changed = true -> point_in_rect (p_valid r) (x + left (p_window r)) (y + top (p_window r)) = false ->
       point_in_rect (p_window r) (x + left (p_window r)) (y + top (p_window r)) = true -> from_client w f x y = true).
  assert (exists exposed', (if changed then win_rgn ← invalid_part a old_vis r;
      match exposed with None => mret (Some win_rgn) | Some e => '(e, _) ← lift_op (union_region false e e win_rgn); mret (Some e) end
      else mret exposed) (s1, e) = Some (exposed', (s1, e)) /\
    match exposed' with
    | None => changed = false /\ forall x y, gained old new x y = false
    | Some r' => exists K f, draws K f r' /\ (forall x y, gained old new x y = true -> from_client w f x y = true) /\ forall x y, more f x y
    end) as (exposed' & E2 & X2).
  { unfold more. destruct changed.
    2: { exists exposed. split; [done|]. destruct exposed as [r'|]; [|done]. destruct X as (K & f & D & H). by exists K, f. }
    destruct (invalid_part_run s1 a w1 old_vis r O1 Hw1) as (rgn & g & E2 & D2 & G2); [by rewrite (F1 _ w_parent)|done|rewrite <-Ew; apply F|rewrite <-Ec; apply F|done|].
    wstep ltac:(exact E2).
    assert (Hg : forall x y, point_in_rect (p_valid r) (x + left (p_window r)) (y + top (p_window r)) = false ->
       point_in_rect (p_window r) (x + left (p_window r)) (y + top (p_window r)) = true -> from_client w g x y = true).
    { intros x y H1 H2. unfold from_client. rewrite Ew, Ec. by apply G2. }
    destruct exposed as [r0|].
    - destruct X as (K & f & D & H). destruct (union_run e He _ _ _ _ r0 _ _ (draws_capacity _ _ _ D) D D2) as (r' & E3 & D3). wstep ltac:(apply wrun_op; exact E3).
      eexists. split; [done|]. eexists _, _. split; [exact D3|]. split; [intros x y Hx%H; unfold from_client in *; by rewrite Hx|].
      intros x y _ H1 H2. pose proof (Hg x y H1 H2) as Hx. unfold from_client in *. rewrite Hx. apply orb_true_r.
    - eexists. split; [done|]. exists (2 * B), g. split; [done|]. split; [intros x y Hx; by rewrite X in Hx|]. intros x y _. apply Hg. }
  wstep ltac:(exact E2). destruct exposed' as [r'|].
  - destruct X2 as (K & f & D & H1 & H2). unfold redraw. wstep ltac:(apply wrun_get).
    destruct (redraw_window_run e He B (tree_fuel s1) s1 a l w1 (Some r') true (Z.lor (Z.lor (Z.lor RDW_INVALIDATE RDW_ERASE) RDW_FRAME) RDW_ALLCHILDREN) f O1 P1 Hl
      ltac:(unfold tree_fuel; lia) Hw1 ltac:(by exists K) ltac:(done)) as (s2 & E3 & R3 & U3). exists s2. split; [exact E3|]. split; [by eapply repaint_trans|].
    split; [|split]; intros x y; rewrite U3, U1, Hfr, Hfc.
    + rewrite orb_true_iff, !andb_true_iff. tauto.
    + intros H3 H4. rewrite H3, (H1 x y H4). apply orb_true_r.
    + intros H3 H4 H5 H6. rewrite H3, (H2 x y H4 H5 H6). apply orb_true_r.
  - destruct X2 as [Hc Hg]. exists s1. split; [done|]. split; [done|]. split; [|split].
    + intros x y. rewrite U1, andb_true_iff. tauto.
    + intros x y _. by rewrite Hg.
    + intros x y _. by rewrite Hc.
Qed.

(** What was and what is visible, relative to the window before and after: [s1] is the
    state with the new position, [s2] the final one. *)
Record repainted (a p : Z) (lp : list Z) (w pw : window) (swp_flags : Z) (r : pos) (s s1 s2 : wstate) : Prop := {
  rd_only : repaint B p s1 s2;
  rd_window : forall x y, point_in_rect (p_window r) (x + left (p_window r)) (y + top (p_window r)) = true ->
    visible_pixel s (a :: lp) DCX_WINDOW x y = false -> visible_pixel s1 (a :: lp) DCX_WINDOW x y = true -> upd_at s2 a x y = true;
  rd_parent : forall x y, is_desktop_window pw = false -> visible_pixel s (a :: lp) DCX_WINDOW x y = true ->
    visible_pixel s1 (a :: lp) DCX_WINDOW (x + left (w_window_rect w) - left (p_window r)) (y + top (w_window_rect w) - top (p_window r)) = false ->
    upd_at s2 p (x + left (w_window_rect w) + left (w_client_rect pw) - left (w_window_rect pw))
                (y + top (w_window_rect w) + top (w_client_rect pw) - top (w_window_rect pw)) = true;
  rd_inside : all_visible s1 (a :: lp) = true -> forall x y, upd_at s2 a x y = true -> frame_pixel s1 (a :: lp) true x y = true;
  rd_invalid : all_visible s1 (a :: lp) = true -> frame_changed w swp_flags r || client_changed w swp_flags r = true ->
    forall x y, frame_pixel s1 (a :: lp) true x y = true ->
    point_in_rect (p_valid r) (x + left (p_window r)) (y + top (p_window r)) = false -> upd_at s2 a x y = true
}.

Lemma not_visible_pixel s l flags x y : all_visible s l = false -> visible_pixel s l flags x y = false.
Proof. unfold visible_pixel. by intros ->. Qed.

(** Nothing was and nothing is visible. *)
Lemma repainted_hidden a p lp w pw swp_flags r s s1 :
  paint_ok B s1 -> all_visible s (a :: lp) = false -> all_visible s1 (a :: lp) = false -> repainted a p lp w pw swp_flags r s s1 s1.
Proof.
  intros O H1 H2. split; [by apply repaint_refl|intros x y; rewrite (not_visible_pixel s1)..|congruence|congruence]; try done.
  intros _. by rewrite (not_visible_pixel s).
Qed.

Lemma frame_in_rect s a p l w x y : wins s !! a = Some w -> frame_pixel s (a :: p :: l) true x y = true ->
  point_in_rect (w_window_rect w) (x + left (w_window_rect w)) (y + top (w_window_rect w)) = true.
Proof. unfold frame_pixel, frame_rect. intros ->. rewrite !andb_true_iff. tauto. Qed.

Lemma shown_visible swp_flags style : has_bits style WS_VISIBLE || has_bits swp_flags SWP_SHOWWINDOW = false -> has_bits (shown_style swp_flags style) WS_VISIBLE = false.
Proof.
  intros [H1 H2]%orb_false_iff. unfold shown_style. rewrite H2. destruct (has_bits swp_flags SWP_HIDEWINDOW); [|done].
  unfold clear_bits. change WS_VISIBLE with (2 ^ 28). rewrite has_bits_pow2, Z.ldiff_spec, Z.pow2_bits_true, andb_false_r by done. done.
Qed.

Section set_pos.
Context (s : wstate) (a : Z) (w : window) (p : Z) (pw : window) (lp : list Z) (previous : winptr) (swp_flags : Z) (r : pos).
Hypotheses (WO : win_ok s) (O : paint_ok B s) (Hw : wins s !! a = Some w) (Hp : w_parent w = Some p) (Hpw : wins s !! p = Some pw).
Hypotheses (Hc : is_Some (w_class pw)) (P : path s p lp) (Hd : is_Some (desktops s !! w_desktop w)).
Hypothesis (Hprev : has_bits swp_flags SWP_NOZORDER = false -> good_previous s a p previous).
Hypotheses (Rv : rect_within B (p_valid r)) (Hnr : has_bits swp_flags SWP_NOREDRAW = false).

Lemma window_not_own_parent : a ∉ lp.
Proof. pose proof (path_nodup _ _ _ (path_up s a w p lp Hw Hp P)) as N. by apply NoDup_cons in N as [N _]. Qed.

(** The end: validate a hidden window, crop and redraw a visible one. *)
Definition settle (old_vis : region) (exposed : option region) (w' : window) : W unit :=
  if negb (visible w') then validate_whole_window a;; s ← wget; validate_children (tree_fuel s) a
  else crop_and_redraw a w swp_flags r old_vis exposed.

Lemma settle_run s1 w1 old_vis exposed old new :
  paint_ok B s1 -> path s1 a (a :: lp) -> wins s1 !! a = Some w1 -> w_parent w1 = Some p ->
  w_window_rect w1 = p_window r -> w_client_rect w1 = p_client r -> capacity_ok old_vis -> exposes w1 old new exposed ->
  exists s2, settle old_vis exposed w1 (s1, e) = Some (tt, (s2, e)) /\ repaint B a s1 s2 /\
    (visible w1 = true ->
      (forall x y, upd_at s2 a x y = true -> frame_pixel s1 (a :: lp) true x y = true) /\
      (forall x y, frame_pixel s1 (a :: lp) true x y = true -> gained old new x y = true -> upd_at s2 a x y = true) /\
      (forall x y, frame_pixel s1 (a :: lp) true x y = true -> frame_changed w swp_flags r || client_changed w swp_flags r = true ->
         point_in_rect (p_valid r) (x + left (p_window r)) (y + top (p_window r)) = false -> upd_at s2 a x y = true)).
Proof.
  intros O1 P1 Hw1 Hp1 Ew Ec Co X. unfold settle. destruct (visible w1) eqn:Hv; cbn [negb].
  - assert (exists lp', lp = p :: lp') as [lp' Elp] by (inversion P; by eexists).
    destruct (crop_and_redraw_run s1 a (a :: lp) w1 w swp_flags r old_vis exposed old new O1 P1) as (s2 & E2 & R2 & H1 & H2 & H3); try done;
      [rewrite Elp; cbn; lia|by rewrite Hp1|].
    exists s2. split; [done|]. split; [done|]. intros _. split; [done|]. split; [done|]. intros x y Hf Hch Hval. apply H3; try done.
    rewrite <-Ew. rewrite Elp in Hf. by apply (frame_in_rect s1 a p lp').
  - destruct (validate_whole_run s1 a w1 O1 Hw1) as (s2 & E2 & R2). wstep ltac:(exact E2). wstep ltac:(apply wrun_get).
    destruct (repaint_at B a s1 s2 a w1 R2 Hw1) as (w2 & Hw2 & _). pose proof (scene_path _ _ _ _ (rp_scene _ _ _ _ R2) P1) as P2.
    destruct (validate_children_run (tree_fuel s2) s2 a (a :: lp) w2 (rp_ok _ _ _ _ R2) P2 ltac:(unfold tree_fuel; lia) Hw2) as (s3 & E3 & R3).
    exists s3. split; [exact E3|]. split; [by eapply repaint_trans|]. done.
Qed.

(** The window is shown before or after, and its parents are visible. *)
Lemma shown_run s1 zc w1 old_vis :
  moved_to a s s1 w1 -> face w1 = (p_window r, p_visible r, p_surface r, p_client r, shown_style swp_flags (w_style w), w_win_region w) ->
  windows_fit B s1 -> draws (reach B s) (visible_pixel s (a :: lp) DCX_WINDOW) old_vis ->
  exists s2 s3 exposed w2, expose_window a (w_window_rect w) old_vis zc (s1, e) = Some (exposed, (s2, e)) /\ wins s2 !! a = Some w2 /\
    settle old_vis exposed w2 (s2, e) = Some (tt, (s3, e)) /\ repainted a p lp w pw swp_flags r s s1 s3.
Proof.
  intros [M Hw1] Hf Hfit Do. pose proof (moved_paint_ok a s s1 WO O M Hfit) as O1. pose proof window_not_own_parent as Hn.
  pose proof (parents_far s s1 a p lp w P Hn Hw M) as Far. assert (exists lp', lp = p :: lp') as [lp' Elp] by (inversion P; by eexists).
  pose proof (mv_kept _ _ _ M) as K. assert (path s1 p lp) as P1 by (eapply path_parents; [|exact P]; intros b _; apply kept_parent, K).
  destruct (fmap_some kept _ _ w (K a) Hw) as (w1' & Hw1' & Kw). assert (w1' = w1) as -> by congruence. injection Kw as Kp _ _ _ _ _ _.
  rewrite Hp in Kp. assert (path s1 a (a :: lp)) as Pa1 by (by eapply path_up).
  destruct (fmap_some kept _ _ pw (K p) Hpw) as (pw1 & Hpw1 & Kpw). injection Kpw as Kpp _ _ _ _ Kpc _. injection Hf as Fw Fv Fs Fc Fst Fr.
  pose proof (Far p ltac:(rewrite Elp; set_solver)) as Fp. rewrite Hpw, Hpw1 in Fp. cbn in Fp. injection Fp as Fp1 _ _ Fp2 _ _.
  assert (rect_within B (w_window_rect w)) as Rw by apply (fits_at s B (po_fit _ _ O) a w Hw).
  assert (reach B s1 = reach B s) as Er by (unfold reach; by rewrite (moved_size a s s1 M)).
  destruct (expose_window_run s1 a w1 p pw1 lp (w_window_rect w) old_vis (visible_pixel s (a :: lp) DCX_WINDOW) zc O1 Hw1 Kp Hpw1) as (s2 & exposed & E2 & R2 & X2 & U2);
    [by rewrite Kpc|done|done|by rewrite Er|].
  destruct (repaint_at B p s1 s2 a w1 R2 Hw1) as (w2 & Hw2 & F2). pose proof (scene_path _ _ _ _ (rp_scene _ _ _ _ R2) Pa1) as Pa2.
  assert (exposes w2 (visible_pixel s (a :: lp) DCX_WINDOW) (visible_pixel s1 (a :: lp) DCX_WINDOW) exposed) as X2'.
  { destruct exposed as [er|]; [|done]. destruct X2 as (k & f & D & H). exists k, f. split; [done|]. intros x y Hg. unfold from_client.
    rewrite (F2 _ w_window_rect), (F2 _ w_client_rect) by done. by apply H. }
  destruct (settle_run s2 w2 old_vis exposed _ _ (rp_ok _ _ _ _ R2) Pa2 Hw2 ltac:(by rewrite (F2 _ w_parent)) ltac:(by rewrite (F2 _ w_window_rect))
    ltac:(by rewrite (F2 _ w_client_rect)) (draws_capacity _ _ _ Do) X2') as (s3 & E3 & R3 & V3).
  exists s2, s3, exposed, w2. split; [exact E2|]. split; [done|]. split; [exact E3|].
  assert (Hfr : forall x y, frame_pixel s2 (a :: lp) true x y = frame_pixel s1 (a :: lp) true x y).
  { intros x y. apply frame_pixel_ext. intros b _. apply (scene_field face); [done|apply R2]. }
  assert (Hv2 : all_visible s1 (a :: lp) = true -> visible w2 = true).
  { intros V. rewrite (F2 _ visible) by done. by destruct (all_visible_cons _ _ _ _ Hw1 V). }
  split.
  - eapply repaint_trans; [exact R2|]. apply (repaint_up B p a); [|done]. exists (a :: lp). split; [done|]. rewrite Elp. set_solver.
  - intros x y Hin Hold Hnew. rewrite Elp in *. destruct (visible_own s1 a p lp' w1 pw1 x y Hw1 Hpw1 Hnew) as [V _]. destruct (V3 (Hv2 V)) as (_ & H & _).
    apply H; [|unfold gained; by rewrite Hold, Hnew]. rewrite Hfr. apply (visible_frame s1 a p lp' w1 pw1); try done. by rewrite Fw.
  - intros x y Hdk Hold Hnew. rewrite (repaint_upd_at B a s2 s3 p R3).
    2: { apply (not_below s2 a p lp); [done|]. by apply (scene_path s1); [apply R2|]. }
    rewrite <-Fp1, <-Fp2. apply U2; [unfold is_desktop_window in *; by rewrite Kpp|done|by rewrite Fw|].
    rewrite (frame_pixel_ext s s1 lp false _ _ Far), Fp1, Fp2.
    assert (exists q lq, lp = p :: q :: lq) as (q & lq & ->).
    { unfold is_desktop_window in Hdk. inversion P as [? w' H1 H2|? w' q l' H1 H2 P']; subst; [assert (w' = pw) as -> by congruence; by rewrite H2 in Hdk|].
      inversion P'; subst; by eexists _, _. }
    by apply (visible_parent_frame s a p q lq w pw).
  - intros V x y. rewrite <-Hfr. apply (V3 (Hv2 V)).
  - intros V Hch x y. rewrite <-Hfr. intros H1 H2. by apply (V3 (Hv2 V)).
Qed.

Lemma set_window_pos_run :
  exists s1 zc, set_window_info_pos a previous swp_flags r (s, e) = Some (zc, (s1, e)) /\ win_ok s1 /\
    (windows_fit B s1 ->
     exists s2 e2, set_window_pos a previous swp_flags r (s, e) = Some (tt, (s2, e2)) /\ repainted a p lp w pw swp_flags r s s1 s2).
Proof.
  destruct (info_pos_run s e a WO w previous swp_flags r Hw Hd) as (s1 & zc & w1 & E1 & M & Hf).
  { intros p' Hp'. rewrite Hp in Hp'. injection Hp' as <-. exact Hprev. }
  exists s1, zc. split; [done|]. split; [by apply M|]. intros Hfit. pose proof (moved_paint_ok a s s1 WO O (proj1 M) Hfit) as O1.
  pose proof (parents_far s s1 a p lp w P window_not_own_parent Hw (proj1 M)) as Far.
  unfold set_window_pos. wstep ltac:(by apply wrun_at). rewrite Hp.
  assert (Hvis : (if visible w || has_bits swp_flags SWP_SHOWWINDOW then wask (fun s => is_visible s p) else mret false) (s, e) =
    Some ((visible w || has_bits swp_flags SWP_SHOWWINDOW) && all_visible s lp, (s, e))).
  { destruct (visible w || _); [|done]. cbn [andb]. apply wrun_ask. by apply is_visible_run. }
  wstep ltac:(exact Hvis). destruct ((visible w || _) && _) eqn:Hv.
  - destruct (get_visible_region_run s e B He (po_fit _ _ O) (po_tree _ _ O) a (a :: lp) DCX_WINDOW (path_up s a w p lp Hw Hp P)) as (old_vis & E0 & D0).
    wstep ltac:(exact E0). cbn [andb]. wstep ltac:(exact E1). rewrite Hnr.
    destruct (shown_run s1 zc w1 old_vis M Hf Hfit D0) as (s2 & s3 & exposed & w2 & E2 & Hw2 & E3 & R3).
    wstep ltac:(exact E2). wstep ltac:(by apply wrun_at). unfold settle in E3. wstep ltac:(exact E3). eexists s3, _. split; [done|done].
  - wstep ltac:(apply wrun_ret). cbn [andb]. wstep ltac:(exact E1). exists s1, e. split; [done|].
    assert (all_visible s (a :: lp) = false /\ all_visible s1 (a :: lp) = false) as [V V1]; [|by apply repainted_hidden].
    destruct M as [M Hw1]. injection Hf as _ _ _ _ Fst _. cbn [all_visible]. rewrite Hw, Hw1. rewrite (all_visible_ext s s1 lp Far).
    apply andb_false_iff in Hv as [Hv| ->]; [|by rewrite !andb_false_r]. pose proof (shown_visible _ _ Hv) as Hs. apply orb_false_iff in Hv as [-> _].
    unfold visible. by rewrite Fst, Hs.
Qed.
End set_pos.
End exposed.
