(* ===== verification/WindowSteps.v ===== *)
(** * Requests keep the windows in order

    Painting changes nothing but update regions, paint flags and paint counts, with and
    without memory; every request on windows keeps the tree and its Z-order. *)

From Stdlib Require Import ZArith Lia Sorted.
From stdpp Require Import base list numbers option gmap.
From S2P Require Import Prelude Region UserHandles Windows WindowQueries WindowPaint WindowRequests WindowTree WindowUpdate WindowMoved.

#[local] Open Scope Z_scope.

(** ** Computations that keep a relation *)

(** Every run of [m] relates the states before and after. *)
Definition keeps {A} (R : relation wstate) (m : W A) : Prop :=
  forall s e a s' e', m (s, e) = Some (a, (s', e')) -> R s s'.

Create HintDb keeps.

Section keeps.
Context (R : relation wstate) {HR : PreOrder R}.

Lemma keeps_mret {A} (a : A) : keeps R (mret a).
Proof. intros s e b s' e' [= _ <- _]. reflexivity. Qed.

Lemma keeps_bind {A B} (m : W A) (k : A -> W B) : keeps R m -> (forall a, keeps R (k a)) -> keeps R (mbind k m).
Proof.
  intros Hm Hk s e b s' e'. unfold mbind, W_bind. destruct (m (s, e)) as [[a [s1 e1]]|] eqn:E; [|done]. intros E'.
  transitivity s1; [by eapply Hm|by eapply Hk].
Qed.

Lemma keeps_ask {A} (f : wstate -> option A) : keeps R (wask f).
Proof. intros s e b s' e'. unfold wask. cbn. destruct (f s); [|done]. cbn. intros [= _ <- _]. reflexivity. Qed.

Lemma keeps_get : keeps R wget.
Proof. intros s e b s' e' [= _ <- _]. reflexivity. Qed.

Lemma keeps_opt {A} (o : option A) : keeps R (wopt o).
Proof. intros s e b s' e'. unfold wopt. destruct o; [|done]. cbn. intros [= _ <- _]. reflexivity. Qed.

Lemma keeps_lift {A} (m : M A) : keeps R (lift m).
Proof. intros s e b s' e'. unfold lift. cbn. destruct (m e). intros [= _ <- _]. reflexivity. Qed.

Lemma keeps_lift_op {A} (m : M (option A)) : keeps R (lift_op m).
Proof. intros s e b s' e'. unfold lift_op. cbn. destruct (m e) as [[a|] e1]; [|done]. intros [= _ <- _]. reflexivity. Qed.

Lemma keeps_upd a f : (forall s, R s (upd s a f)) -> keeps R (wupd a f).
Proof. intros Hf s e b s' e'. unfold wupd. cbn. destruct (wins s !! a); [|done]. intros [= _ <- _]. apply Hf. Qed.

Lemma keeps_call c : (forall s, R s (add_call s c)) -> keeps R (wcall c).
Proof. intros Hf s e b s' e' [= _ <- _]. apply Hf. Qed.

Lemma keeps_for f l : (forall c, keeps R (f c)) -> keeps R (wfor f l).
Proof. intros Hf. induction l as [|c l IH]; [apply keeps_mret|]. apply keeps_bind; [done|]. by intros _. Qed.

Lemma keeps_window handle : keeps R (get_window handle).
Proof. unfold get_window. apply keeps_bind; [apply keeps_get|]. intros s. destruct (user_window s handle); [apply keeps_mret|].
  apply keeps_bind; [apply keeps_lift|]. intros _. apply keeps_mret. Qed.
End keeps.

#[export] Hint Resolve keeps_mret keeps_ask keeps_get keeps_opt keeps_lift keeps_lift_op keeps_window : keeps.

(** Walk through a computation, up to the parts that change the state. *)
Ltac keeps_step :=
  lazymatch goal with
  | |- keeps _ (mbind _ _) => apply keeps_bind; [typeclasses eauto| |intros ?]
  | |- keeps _ (wfor _ _) => apply keeps_for; [typeclasses eauto|intros ?]
  | |- keeps _ (at_win _) => apply keeps_ask; typeclasses eauto
  | |- keeps _ (if ?b then _ else _) => destruct b
  | |- keeps _ (match ?x with _ => _ end) => destruct x
  | |- keeps _ (let '(_, _) := ?x in _) => destruct x
  | |- keeps _ _ => progress (cbv zeta) || solve [eauto with keeps typeclass_instances]
  end.

Ltac keeps := repeat keeps_step.

(** ** Painting *)

Lemma scene_upd s a f : (forall w, scene (f w) = scene w) -> same_scene s (upd s a f).
Proof.
  intros Hf. split; try done. intros b. rewrite lookup_upd. case_decide; [|done]. destruct (wins s !! b); [|done]. cbn. by rewrite Hf.
Qed.

Lemma paints_upd a f : (forall w, scene (f w) = scene w) -> keeps same_scene (wupd a f).
Proof. intros Hf. apply keeps_upd. intros s. by apply scene_upd. Qed.

Lemma paints_queue_count t incr : keeps same_scene (inc_queue_paint_count t incr).
Proof.
  intros s e b s' e'. unfold inc_queue_paint_count. unfold mbind at 1, W_bind at 1. unfold wget at 1. cbv beta iota.
  unfold mbind at 1, W_bind at 1. unfold wopt. cbn [fst]. destruct (queues s !! t) as [q|]; [|done]. cbn [mbind option_bind].
  intros [= _ <- _]. by split.
Qed.

Lemma paints_count a incr : keeps same_scene (inc_window_paint_count a incr).
Proof. unfold inc_window_paint_count. keeps. apply paints_queue_count. Qed.
#[export] Hint Resolve paints_count : keeps.

Lemma paints_set_paint a bits : keeps same_scene (set_paint a bits).
Proof. by apply paints_upd. Qed.

Lemma paints_clear_paint a bits : keeps same_scene (clear_paint a bits).
Proof. by apply paints_upd. Qed.

Lemma paints_put_update a r : keeps same_scene (wupd a (fun w => put_update_region w r)).
Proof. by apply paints_upd. Qed.
#[export] Hint Resolve paints_set_paint paints_clear_paint paints_put_update : keeps.

Lemma paints_set_update a reg : keeps same_scene (set_update_region a reg).
Proof. unfold set_update_region. keeps. Qed.
#[export] Hint Resolve paints_set_update : keeps.

Lemma paints_crop a u tmp : keeps same_scene (crop_update_region a u tmp).
Proof. unfold crop_update_region. keeps. Qed.
#[export] Hint Resolve paints_crop : keeps.

Lemma paints_add_update a reg : keeps same_scene (add_update_region a reg).
Proof. unfold add_update_region. keeps. Qed.
#[export] Hint Resolve paints_add_update : keeps.

Lemma paints_crop_children n : forall a rect, keeps same_scene (crop_children_update_region n a rect).
Proof. induction n as [|n IH]; intros a rect; cbn [crop_children_update_region]; keeps. Qed.
#[export] Hint Resolve paints_crop_children : keeps.

Lemma paints_validate_whole a : keeps same_scene (validate_whole_window a).
Proof. unfold validate_whole_window. keeps. Qed.
#[export] Hint Resolve paints_validate_whole : keeps.

Lemma paints_validate_children n : forall a, keeps same_scene (validate_children n a).
Proof. induction n as [|n IH]; intros a; cbn [validate_children]; keeps. Qed.
#[export] Hint Resolve paints_validate_children : keeps.

Lemma paints_validate_non_client a : keeps same_scene (validate_non_client a).
Proof. unfold validate_non_client. keeps. Qed.
#[export] Hint Resolve paints_validate_non_client : keeps.

Lemma paints_validate_parents_loop n : forall child a tmp x y, keeps same_scene (validate_parents_loop n child a tmp x y).
Proof. induction n as [|n IH]; intros; cbn [validate_parents_loop]; keeps. Qed.
#[export] Hint Resolve paints_validate_parents_loop : keeps.

Lemma paints_validate_parents a : keeps same_scene (validate_parents a).
Proof. unfold validate_parents. keeps. Qed.
#[export] Hint Resolve paints_validate_parents : keeps.

Lemma paints_crop_region a reg frame : keeps same_scene (crop_region_to_win_rect a reg frame).
Proof. unfold crop_region_to_win_rect. keeps. Qed.
#[export] Hint Resolve paints_crop_region : keeps.

Lemma paints_redraw_self a reg frame flags : keeps same_scene (redraw_self a reg frame flags).
Proof. unfold redraw_self. keeps. Qed.
#[export] Hint Resolve paints_redraw_self : keeps.

Lemma paints_redraw_internal a flags : keeps same_scene (redraw_internal a flags).
Proof. unfold redraw_internal. keeps. Qed.
#[export] Hint Resolve paints_redraw_internal : keeps.

Lemma paints_redraw_window n : forall a reg frame flags, keeps same_scene (redraw_window n a reg frame flags).
Proof. induction n as [|n IH]; intros; cbn [redraw_window]; keeps. Qed.
#[export] Hint Resolve paints_redraw_window : keeps.

Lemma paints_redraw a reg frame flags : keeps same_scene (redraw a reg frame flags).
Proof. unfold redraw. keeps. Qed.
#[export] Hint Resolve paints_redraw : keeps.

(** ** Visible regions and exposure *)

Lemma paints_clip_to_window reg w : keeps same_scene (clip_to_window reg w).
Proof. unfold clip_to_window, intersect_window_region. keeps. Qed.
#[export] Hint Resolve paints_clip_to_window : keeps.

Lemma paints_clip_loop l : forall last reg tmp x y, keeps same_scene (clip_children_loop l last reg tmp x y).
Proof. induction l as [|c l IH]; intros; cbn [clip_children_loop]; keeps. Qed.
#[export] Hint Resolve paints_clip_loop : keeps.

Lemma paints_clip_children p last reg x y : keeps same_scene (clip_children p last reg x y).
Proof. unfold clip_children. keeps. Qed.
#[export] Hint Resolve paints_clip_children : keeps.

Lemma paints_clip_ancestors n : forall a reg tmp x y, keeps same_scene (clip_ancestors n a reg tmp x y).
Proof. induction n as [|n IH]; intros; cbn [clip_ancestors]; keeps. Qed.
#[export] Hint Resolve paints_clip_ancestors : keeps.

Lemma paints_visible_region a flags : keeps same_scene (get_visible_region a flags).
Proof. unfold get_visible_region, base_region. keeps. Qed.
#[export] Hint Resolve paints_visible_region : keeps.

Lemma paints_expose a rect vis zc : keeps same_scene (expose_window a rect vis zc).
Proof. unfold expose_window, exposed_on_window, expose_on_parent. keeps. Qed.
#[export] Hint Resolve paints_expose : keeps.

Lemma paints_crop_to_window a : keeps same_scene (crop_to_window a).
Proof. unfold crop_to_window. keeps. Qed.
#[export] Hint Resolve paints_crop_to_window : keeps.

Lemma paints_invalid_part a rgn r : keeps same_scene (invalid_part a rgn r).
Proof. unfold invalid_part. keeps. Qed.
#[export] Hint Resolve paints_invalid_part : keeps.

Lemma paints_crop_and_redraw a old flags r vis exposed : keeps same_scene (crop_and_redraw a old flags r vis exposed).
Proof. unfold crop_and_redraw. keeps. Qed.
#[export] Hint Resolve paints_crop_and_redraw : keeps.

(** ** The tree stays in order *)

(** What requests keep: the windows are those there were, and they are in order. *)
Definition orderly (s s' : wstate) : Prop := (win_ok s -> win_ok s') /\ forall b, is_Some (wins s' !! b) <-> is_Some (wins s !! b).

#[export] Instance orderly_preorder : PreOrder orderly.
Proof. split; [by split|]. intros s1 s2 s3 [H1 H2] [K1 K2]. split; [auto|]. intros b. by rewrite K2, H2. Qed.

Lemma shape_orderly s s' : (forall b, shape <$> wins s' !! b = shape <$> wins s !! b) -> orderly s s'.
Proof.
  intros H. split; [by apply win_ok_ext|]. intros b. specialize (H b). destruct (wins s !! b), (wins s' !! b); try done; split; by intros [].
Qed.

Lemma scene_orderly s s' : same_scene s s' -> orderly s s'.
Proof. intros H. apply shape_orderly. intros b. by apply (scene_field shape). Qed.

Lemma keeps_weaken {A} (R R' : relation wstate) (m : W A) : (forall s s', R s s' -> R' s s') -> keeps R m -> keeps R' m.
Proof. intros H Hm s e a s' e' E. by eapply H, Hm. Qed.

Lemma painting_orderly {A} (m : W A) : keeps same_scene m -> keeps orderly m.
Proof. apply keeps_weaken, scene_orderly. Qed.

Lemma orderly_upd a f : (forall w, shape (f w) = shape w) -> keeps orderly (wupd a f).
Proof.
  intros Hf. apply keeps_upd. intros s. apply shape_orderly. intros b. rewrite lookup_upd. case_decide; [|done].
  destruct (wins s !! b); [|done]. cbn. by rewrite Hf.
Qed.

Lemma moved_orderly a s s' : moved a s s' -> orderly s s'.
Proof.
  intros M. split; [apply M|]. intros b. pose proof (mv_kept _ _ _ M b) as H. destruct (wins s !! b), (wins s' !! b); try done; split; by intros [].
Qed.

(** A new position. *)
Lemma orderly_info_pos s e a w previous swp_flags r zc s' e' :
  win_ok s -> wins s !! a = Some w ->
  (forall p, w_parent w = Some p -> has_bits swp_flags SWP_NOZORDER = false -> good_previous s a p previous) ->
  set_window_info_pos a previous swp_flags r (s, e) = Some (zc, (s', e')) -> orderly s s'.
Proof.
  intros W Hw Hprev. destruct (info_pos_moves s e a W w previous swp_flags r Hw Hprev) as (s1 & zc' & w1 & [M _] & _ & ->). intros E.
  transitivity s1; [by apply (moved_orderly a)|]. revert E. generalize s1 e zc s' e'. change (keeps orderly (d ← wopt (desktops s !! w_desktop w);
       (if bool_decide (top_window d = Some a) then wcall (set_clip_rectangle (w_desktop w)) else mret tt);; mret zc')).
  keeps. apply keeps_call. intros s2. by apply shape_orderly.
Qed.

(** ** Runs, taken apart *)

Lemma bind_inv {A B} (m : W A) (k : A -> W B) st r : mbind k m st = Some r -> exists a st1, m st = Some (a, st1) /\ k a st1 = Some r.
Proof. unfold mbind, W_bind. destruct (m st) as [[a st1]|]; [|done]. intros H. by exists a, st1. Qed.

Lemma ask_inv {A} (f : wstate -> option A) s e a st : wask f (s, e) = Some (a, st) -> f s = Some a /\ st = (s, e).
Proof. unfold wask. cbn. destruct (f s); [|done]. cbn. by intros [= -> <-]. Qed.

Lemma at_inv a s e w st : at_win a (s, e) = Some (w, st) -> wins s !! a = Some w /\ st = (s, e).
Proof. exact (ask_inv _ s e w st). Qed.

Lemma opt_inv {A} (o : option A) a st st' : wopt o st = Some (a, st') -> o = Some a /\ st' = st.
Proof. unfold wopt. destruct o; [|done]. cbn. by intros [= -> <-]. Qed.

Lemma get_window_inv handle s e x st : get_window handle (s, e) = Some (x, st) -> x = user_window s handle /\ exists e', st = (s, e').
Proof.
  unfold get_window. intros (s' & st1 & [= <- <-] & H)%bind_inv. destruct (user_window s handle) eqn:E.
  - injection H as <- <-. split; [done|]. by exists e.
  - apply bind_inv in H as (u & st2 & H1 & [= <- <-]). split; [done|]. unfold lift in H1. cbn in H1. injection H1 as _ <-. by eexists.
Qed.

(** What only reads. *)
Lemma reads_inv {A} (m : W A) s e a st : m (s, e) = Some (a, st) -> keeps eq m -> exists e', st = (s, e').
Proof. intros E H. destruct st as [s' e']. rewrite (H _ _ _ _ _ E). by exists e'. Qed.

Lemma keeps_run {A} (R : relation wstate) (m : W A) s e a s' e' : m (s, e) = Some (a, (s', e')) -> keeps R m -> R s s'.
Proof. intros E H. by eapply H. Qed.

(** Take the first step of a run: its result and the equation for it.  A step that only
    reads leaves the state alone. *)
Tactic Notation "winv" hyp(H) "as" ident(x) ident(E) :=
  let st := fresh "st" in
  apply bind_inv in H as (x & st & E & H);
  first [ apply at_inv in E as [E ->] | apply ask_inv in E as [E ->] | apply opt_inv in E as [E ->]
        | apply get_window_inv in E as [E [? ->]]
        | destruct (reads_inv _ _ _ _ _ E) as [? ->]; [solve [keeps]|]
        | destruct st as [? ?] ];
  cbv beta iota zeta in H.

(** ** Windows in order *)

(** The topmost style of a window that is not linked does not matter. *)
Lemma unlinked_style s a w f :
  win_ok s -> wins s !! a = Some w -> links (f w) = links w -> (w_is_linked w = true -> topmost (f w) = topmost w) -> win_ok (upd s a f).
Proof.
  intros [T Zo] Hw Hl Ht.
  assert (T' : tree_ok (upd s a f)).
  { apply (links_only s); [|done]. intros b. rewrite lookup_upd. case_decide; [subst; rewrite Hw; cbn; by rewrite Hl|done]. }
  split; [done|]. intros p pw' Hp.
  assert (exists pw, wins s !! p = Some pw /\ w_children pw' = w_children pw) as (pw & Hpw & Ec).
  { rewrite lookup_upd in Hp. case_decide; [|by exists pw']. subst p. rewrite Hw in Hp. injection Hp as <-. exists w. split; [done|].
    exact (f_equal (fun t => t.1.1.1.2) Hl). }
  rewrite Ec. eapply zsorted_ext; [|by apply (Zo p pw)]. intros x Hx. unfold top_at. rewrite lookup_upd. case_decide; [|done]. subst x. rewrite Hw. cbn.
  apply Ht. destruct (tb_child _ _ T p pw true a Hpw Hx) as (_ & cw & Hcw & _ & Hl'). congruence.
Qed.

Lemma good_previous_ext s s' a p previous : (forall b, shape <$> wins s' !! b = shape <$> wins s !! b) -> good_previous s a p previous -> good_previous s' a p previous.
Proof.
  intros H G b Hb. destruct (G b Hb) as (Hba & pw & Hpw & Hin). split; [done|]. destruct (fmap_some shape _ _ pw (H p) Hpw) as (pw' & Hpw' & E).
  exists pw'. split; [done|]. assert (w_children pw' = w_children pw) as -> by exact (f_equal (fun t => t.1.1.1.1.2) E). done.
Qed.

Lemma scene_shape s s' : same_scene s s' -> forall b, shape <$> wins s' !! b = shape <$> wins s !! b.
Proof. intros H b. by apply (scene_field shape). Qed.

(** set_window_pos, with or without memory. *)
Lemma set_window_pos_ok s e a w previous swp_flags r s' e' :
  win_ok s -> wins s !! a = Some w ->
  (forall p, w_parent w = Some p -> has_bits swp_flags SWP_NOZORDER = false -> good_previous s a p previous) ->
  set_window_pos a previous swp_flags r (s, e) = Some (tt, (s', e')) -> win_ok s'.
Proof.
  intros WO Hw Hprev H. unfold set_window_pos in H. winv H as x E. assert (x = w) as -> by congruence. winv H as vis E1.
  apply bind_inv in H as (old_vis & [s1 e2] & E2 & H).
  assert (same_scene s s1) as S1. { apply (keeps_run same_scene _ _ _ _ _ _ E2). keeps. }
  destruct (scene_lookup _ _ _ _ S1 Hw) as (w1 & Hw1 & Es). pose proof (win_ok_ext _ _ (scene_shape _ _ S1) WO) as W1.
  destruct (vis && _); [injection H as <- _; done|]. apply bind_inv in H as (zc & [s2 e3] & E3 & H).
  assert (win_ok s2) as W2.
  { eapply (orderly_info_pos s1 e2 a w1 previous swp_flags r zc s2 e3); try done. intros p Hp Hc. apply (good_previous_ext s); [by apply scene_shape|].
    apply Hprev; [|done]. rewrite <-Hp. by apply (f_equal w_parent) in Es. }
  assert (forall m : W unit, keeps same_scene m -> m (s2, e3) = Some (tt, (s', e')) -> win_ok s') as Hk.
  { intros m Hm Hr. apply (win_ok_ext s2); [|done]. apply scene_shape. by eapply Hm. }
  revert H. apply Hk. keeps.
Qed.

(** *** The Z-order of update_window_zorder *)

Lemma first_obscuring_split s a rect w pw l b : first_obscuring s a rect w pw l = Some (Some b) ->
  exists k1 k2, l = k1 ++ b :: k2 /\ a ∉ k1 /\ b <> a.
Proof.
  induction l as [|c l IH]; [done|]. cbn [first_obscuring]. destruct (Z.eqb_spec c a) as [|Hc]; [done|].
  destruct (wins s !! c) as [cw|]; [|done]. cbn [mbind option_bind]. destruct (obscures s a rect w pw cw) as [[]|]; [| |done]; cbn [mbind option_bind].
  - intros [= <-]. exists [], l. split; [done|]. split; [set_solver|done].
  - intros (k1 & k2 & -> & H1 & H2)%IH. exists (c :: k1), k2. split; [done|]. split; [set_solver|done].
Qed.

Lemma insert_before_notin b a l : b ∉ l -> insert_before b a l = l.
Proof. induction l as [|x l IH]; [done|]. intros [H1 H2]%not_elem_of_cons. cbn. fold (insert_before b a l). rewrite IH by done. by rewrite decide_False by auto. Qed.

Lemma insert_before_mid b a l1 l2 : b ∉ l1 -> b ∉ l2 -> insert_before b a (l1 ++ b :: l2) = l1 ++ a :: b :: l2.
Proof.
  intros H1 H2. induction l1 as [|x l1 IH]; cbn.
  - fold (insert_before b a l2). rewrite decide_True by done. by rewrite insert_before_notin.
  - fold (insert_before b a (l1 ++ b :: l2)). apply not_elem_of_cons in H1 as [H1 H3]. rewrite IH by done. by rewrite decide_False by auto.
Qed.

Lemma zsorted_app s l1 l2 x y : zsorted s (l1 ++ l2) -> x ∈ l1 -> y ∈ l2 -> top_at s y = true -> top_at s x = true.
Proof.
  unfold zsorted. induction l1 as [|z l1 IH]; [set_solver|]. cbn. intros [H F]%StronglySorted_inv Hx Hy. rewrite Forall_forall in F.
  apply elem_of_cons in Hx as [->|Hx]; [apply F; set_solver|by apply IH].
Qed.

(** Putting a linked window in front of one of the windows in front of it. *)
Lemma raise_ok s a w p pw b bw s' :
  win_ok s -> wins s !! a = Some w -> w_parent w = Some p -> wins s !! p = Some pw -> w_is_linked w = true ->
  (exists k1 k2, w_children pw = k1 ++ b :: k2 /\ a ∉ k1) -> b <> a -> wins s !! b = Some bw -> negb (topmost bw) || topmost w = true ->
  list_add_before (list_remove s a) b a = Some s' -> win_ok s'.
Proof.
  intros [T Zo] Hw Hp Hpw Hl (k1 & k2 & Ek & Hk1) Hba Hbw Htop. set (s0 := list_remove s a).
  pose proof (list_remove_ok s a w p T Hw Hp) as T0. fold s0 in T0. pose proof (tb_nodup _ _ T p pw true Hpw) as N. cbn in N. rewrite Ek in N.
  apply NoDup_app in N as (N1 & N12 & [Nb N2]%NoDup_cons).
  set (l2 := filter (fun x => x <> a) k2). assert (Hf : filter (fun x => x <> a) (w_children pw) = k1 ++ b :: l2).
  { rewrite Ek, filter_app, filter_cons_True, (filter_id a k1) by done. done. }
  assert (Hp0 : wins s0 !! p = Some (remove_entry a pw)) by (unfold s0; by rewrite lookup_list_remove, Hpw).
  assert (Hw0 : wins s0 !! a = Some (remove_entry a w)) by (unfold s0; by rewrite lookup_list_remove, Hw).
  assert (b ∉ k1) as Hb1 by (intros Hx; apply (N12 b Hx); by left).
  assert (b ∉ l2) as Hb2 by (intros [_ Hx]%list_elem_of_filter; exact (Nb Hx)).
  unfold list_add_before. destruct (entry_prev s0 b); [|done]. cbn [mbind option_bind]. intros <-%(inj Some).
  assert (Hcb : b ∈ entries true (remove_entry a pw)) by (cbn; rewrite Hf; set_solver).
  destruct (tb_child _ _ T0 p _ true b Hp0 Hcb) as (_ & bw0 & Hbw0 & Hpb & Hlb).
  assert (T' : tree_ok (upd (upd s0 p (set_entries true (k1 ++ a :: b :: l2))) a (fun w => set_is_linked w true))).
  { apply (insert_tree_ok s0 a (remove_entry a w) p (remove_entry a pw)); try done. }
  set (s1 := upd _ _ _) in T'. set (s' := set_wins s0 _).
  assert (Hs : forall c, wins s' !! c = wins s1 !! c).
  { intros c. unfold s', s1. rewrite !lookup_upd. change (wins (set_wins s0 ?m)) with m. rewrite lookup_fmap. destruct (wins s0 !! c) as [cw|] eqn:Hc;
      [|destruct (decide (c = a)), (decide (c = p)); done]. cbn [fmap option_fmap option_map].
    assert (Hone : forall k, b ∈ entries k cw -> c = p /\ k = true).
    { intros k Hk. rewrite <-Hlb. by apply (on_one_list (Some a) s0 b bw0 p (remove_entry a pw) c cw k T0 Hbw0 Hpb Hp0 Hc). }
    rewrite (insert_before_notin b a (w_unlinked cw)) by (intros Hk; destruct (Hone false Hk); done).
    pose proof (parent_ne _ _ _ _ _ T Hw Hp) as Hap. destruct (decide (c = a)) as [->|Hca].
    - rewrite (decide_False (P := a = p)) by done. cbn. rewrite (insert_before_notin b a (w_children cw)), set_lists_id by (intros Hk; by destruct (Hone true Hk)).
      f_equal. assert (cw = remove_entry a w) as -> by congruence. unfold remove_entry, set_is_linked, set_lists. cbn. by rewrite Hl.
    - destruct (decide (c = p)) as [->|Hcp].
      + assert (cw = remove_entry a pw) as -> by congruence.
        assert (insert_before b a (w_children (remove_entry a pw)) = k1 ++ a :: b :: l2) as -> by (etransitivity; [exact (f_equal (insert_before b a) Hf)|by apply insert_before_mid]). done.
      + cbn. rewrite (insert_before_notin b a (w_children cw)), set_lists_id by (intros Hk; by destruct (Hone true Hk)). done. }
  assert (Htp : forall x, top_at s' x = top_at s x).
  { intros x. unfold top_at, s'. change (wins (set_wins s0 ?m)) with m. rewrite lookup_fmap. unfold s0. rewrite lookup_list_remove. by destruct (wins s !! x). }
  split; [apply (links_only s1); [intros c; by rewrite Hs|done]|].
  intros q qw' Hq. rewrite Hs in Hq. unfold s1 in Hq. rewrite !lookup_upd in Hq. pose proof (Zo p pw Hpw) as Zp. rewrite Ek in Zp.
  destruct (decide (q = p)) as [->|Hqp].
  - assert (w_children qw' = k1 ++ a :: b :: l2) as ->.
    { rewrite Hp0 in Hq. case_decide; cbn in Hq; injection Hq as <-; done. }
    pose proof (zsorted_filter s a _ (Zo p pw Hpw)) as Zf. rewrite Hf in Zf.
    apply (zsorted_insert s); [intros; apply Htp| |done]. rewrite Htp. assert (top_at s a = topmost w) as -> by (unfold top_at; by rewrite Hw).
    assert (a ∈ k2) as Hak2.
    { destruct (tb_parent _ _ T a w p Hw Hp) as (pw' & Hpw' & Hin). assert (pw' = pw) as -> by congruence. rewrite Hl in Hin. specialize (Hin ltac:(done)). cbn in Hin.
      rewrite Ek in Hin. set_solver. }
    split.
    + intros Hta x Hx. apply (zsorted_app s k1 (b :: k2) x a Zp Hx); [set_solver|unfold top_at; by rewrite Hw].
    + intros y Hy Hty. assert (topmost bw = true) as Hb; [|rewrite Hb in Htop; done].
      assert (top_at s b = true) as Hb'; [|unfold top_at in Hb'; by rewrite Hbw in Hb'].
      apply elem_of_cons in Hy as [->|Hy]; [done|]. apply (zsorted_app s (k1 ++ [b]) l2 b y); [by rewrite <-app_assoc|set_solver|done|done].
  - assert (exists qw, wins s !! q = Some qw /\ w_children qw' = filter (fun x => x <> a) (w_children qw)) as (qw & Hqw & ->).
    { unfold s0 in Hq. rewrite lookup_list_remove in Hq. destruct (wins s !! q) as [qw|] eqn:E; [|by repeat case_decide]. exists qw. split; [done|].
      repeat case_decide; cbn in Hq; injection Hq as <-; done. }
    eapply zsorted_ext; [|apply zsorted_filter, (Zo q qw Hqw)]. intros x _. apply Htp.
Qed.

(** ** Requests *)

(** The requests that change windows; [current] is the thread that makes them. *)
Inductive window_request :=
  | SetParent (handle parent : Z)
  | SetOwner (handle owner : Z)
  | SetInfo (current handle : Z) (r : info_req)
  | SetPos (handle : Z) (q : pos_req)
  | SetRegion (handle : Z) (data : list rectangle_t) (do_redraw : bool)
  | GetUpdate (handle from_child flags max_size : Z)
  | UpdateZorder (handle : Z) (rect : rectangle_t)
  | Redraw (thread_desktop : option Z) (handle flags : Z) (data : list rectangle_t)
  | SetText (handle : Z) (text : list Z)
  | SetLayered (handle color_key alpha flags : Z).

Definition serve (rq : window_request) : W unit :=
  match rq with
  | SetParent handle parent => _ ← req_set_parent handle parent; mret tt
  | SetOwner handle owner => _ ← req_set_window_owner handle owner; mret tt
  | SetInfo current handle r => _ ← req_set_window_info current handle r; mret tt
  | SetPos handle q => _ ← req_set_window_pos handle q; mret tt
  | SetRegion handle data do_redraw => req_set_window_region handle data do_redraw
  | GetUpdate handle from_child flags max_size => _ ← req_get_update_region handle from_child flags max_size; mret tt
  | UpdateZorder handle rect => req_update_window_zorder handle rect
  | Redraw thread_desktop handle flags data => req_redraw_window thread_desktop handle flags data
  | SetText handle text => req_set_window_text handle text
  | SetLayered handle color_key alpha flags => req_set_window_layered_info handle color_key alpha flags
  end.

(** The window of a handle, if any, is linked. *)
Definition linked_handle (s : wstate) (handle : Z) : Prop :=
  forall a w, user_window s handle = Some a -> wins s !! a = Some w -> w_is_linked w = true.

(** What the handlers rely on without checking it: a window that is given as the previous
    one, or raised, is in the Z-order, and a window that gets a new parent has a thread. *)
Definition expected (s : wstate) (rq : window_request) : Prop :=
  match rq with
  | SetParent handle _ => forall a w, user_window s handle = Some a -> wins s !! a = Some w -> is_Some (w_thread w)
  | SetPos _ q => linked_handle s (q_previous q)
  | UpdateZorder handle _ => linked_handle s handle
  | _ => True
  end.

Lemma set_parent_ok s e handle parent r s' e' :
  win_ok s -> expected s (SetParent handle parent) -> req_set_parent handle parent (s, e) = Some (r, (s', e')) -> win_ok s'.
Proof.
  intros WO X H. unfold req_set_parent, with_window, fail in H. winv H as x E. subst. destruct (user_window s handle) as [a|] eqn:Ha; [|by injection H as _ <- _].
  winv H as par E1. destruct par as [par|]; [|by injection H as _ <- _]. winv H as w Hw. winv H as refuse E2. destruct refuse.
  { winv H as u Eu. by injection H as _ <- _. }
  winv H as p Hp. winv H as pw Hpw. winv H as full E5. apply bind_inv in H as (ok & [s1 e4] & E6 & H). winv H as w' Hw'. injection H as _ <- _.
  match type of E6 with set_parent_window _ _ (_, ?e0) = _ =>
    destruct (set_parent_window_spec s e0 a w p par WO Hw Hp) as [(q & l & -> & _ & _ & E')|(_ & s2 & E' & W2 & _)] end.
  - by apply (X a).
  - intros q ->. winv E5 as qw Hqw. by eexists.
  - rewrite E' in E6. injection E6 as _ <- _. done.
  - rewrite E' in E6. injection E6 as _ <- _. done.
Qed.

Lemma set_info_ok s e current handle q r s' e' :
  win_ok s -> req_set_window_info current handle q (s, e) = Some (r, (s', e')) -> win_ok s'.
Proof.
  intros WO H. unfold req_set_window_info, with_window, fail in H. winv H as x E. subst. destruct (user_window s handle) as [a|] eqn:Ha; [|by injection H as _ <- _].
  winv H as w Hw. destruct (_ && _); [winv H as u Eu; by injection H as _ <- _|]. destruct (bad_extra q w); [winv H as u Eu; by injection H as _ <- _|].
  destruct (_ && _); [winv H as u Eu; by injection H as _ <- _|]. apply bind_inv in H as (u & [s1 e1] & E1 & H). injection H as _ <- _.
  unfold wupd in E1. cbn in E1. rewrite Hw in E1. apply (inj Some) in E1. assert (s1 = upd s a (info_window q)) as -> by congruence.
  apply (unlinked_style s a w); [done|done| |].
  - unfold info_window, info_styles. repeat (case_match; cbn); done.
  - intros Hl. rewrite !topmost_bit. unfold info_window, info_styles.
    assert (Hb : Z.testbit (Z.lor (clear_bits (i_ex_style q) WS_EX_TOPMOST) (Z.land (w_ex_style w) WS_EX_TOPMOST)) 3 = Z.testbit (w_ex_style w) 3).
    { unfold clear_bits. rewrite Z.lor_spec, Z.ldiff_spec, Z.land_spec. change (Z.testbit WS_EX_TOPMOST 3) with true. by rewrite andb_false_r, andb_true_r. }
    destruct (has_bits (i_flags q) SET_WIN_STYLE), (has_bits (i_flags q) SET_WIN_EXSTYLE); cbn; rewrite ?Hl; try done; destruct (has_bits (Z.lor _ _) WS_EX_LAYERED); exact Hb.
Qed.

Lemma update_zorder_ok s e handle rect s' e' :
  win_ok s -> linked_handle s handle -> req_update_window_zorder handle rect (s, e) = Some (tt, (s', e')) -> win_ok s'.
Proof.
  intros WO L H. unfold req_update_window_zorder in H. winv H as x E. subst. destruct (user_window s handle) as [a|] eqn:Ha; [|by injection H as <- _].
  winv H as w Hw. destruct (w_parent w) as [p|] eqn:Hp; [|by injection H as <- _]. winv H as vis E1. destruct vis; cbn [negb] in H; [|by injection H as <- _].
  winv H as pw Hpw. winv H as ob E2. destruct ob as [b|]; [|by injection H as <- _]. winv H as bw Hbw.
  destruct (negb (topmost bw) || topmost w) eqn:Ht; [|by injection H as <- _]. winv H as s1 E3. injection H as <- _.
  destruct (first_obscuring_split _ _ _ _ _ _ _ E2) as (k1 & k2 & Ek & Hk & Hb).
  apply (raise_ok s a w p pw b bw s1); try done; [by apply (L a)|]. by exists k1, k2.
Qed.

(** Paint flags of the client and of the parents. *)
Lemma pixel_flags_shape s a s' : win_ok s -> is_Some (wins s !! a) -> update_pixel_format_flags s a = Some s' ->
  forall b, shape <$> wins s' !! b = shape <$> wins s !! b.
Proof.
  intros [T _] [w Hw] H. unfold update_pixel_format_flags in H. rewrite Hw in H. cbn [mbind option_bind] in H.
  destruct (w_parent w) as [p|] eqn:Hp; [|injection H as <-; done].
  destruct (tb_parent _ _ T a w p Hw Hp) as (pw & Hpw & _). destruct (tree_path None s p T ltac:(by eexists)) as (l & P & Hl).
  destruct (pixel_format_spec s p l (tree_fuel s) P ltac:(lia)) as (s1 & E & Hs). rewrite E in H. by injection H as <-.
Qed.

(** The window given as the previous one. *)
Lemma get_previous_good s e handle w a p previous st :
  win_ok s -> wins s !! a = Some w -> w_parent w = Some p -> linked_handle s handle ->
  get_previous handle (w_parent w) (s, e) = Some (Some previous, st) -> previous = Previous a \/ good_previous s a p previous.
Proof.
  intros [T _] Hw Hp L H. unfold get_previous, fail in H. rewrite Hp in H. repeat (case_match; [injection H as <- _; right; intros b; discriminate|]).
  winv H as x E. subst. destruct (user_window s handle) as [b|] eqn:Hb; [|done]. winv H as bw Hbw.
  case_bool_decide as Hpb; [|winv H as u Eu; done]. injection H as <- _. destruct (decide (b = a)) as [->|Hne]; [by left|right].
  intros b' [= <-]. split; [done|]. destruct (tb_parent _ _ T b bw p Hbw Hpb) as (pw & Hpw & Hin). exists pw. split; [done|].
  rewrite (L b bw Hb Hbw) in Hin. by apply Hin.
Qed.

Lemma set_pos_ok s e handle q r s' e' :
  win_ok s -> linked_handle s (q_previous q) -> req_set_window_pos handle q (s, e) = Some (r, (s', e')) -> win_ok s'.
Proof.
  intros WO L H. unfold req_set_window_pos, with_window, fail in H. winv H as x E. subst. destruct (user_window s handle) as [a|] eqn:Ha; [|by injection H as _ <- _].
  winv H as w Hw. apply bind_inv in H as (previous & st & E1 & H). destruct (reads_inv _ _ _ _ _ E1) as [e1 ->]; [unfold get_previous, fail; keeps|].
  destruct previous as [previous|]; [|by injection H as _ <- _]. destruct (_ || _); [winv H as u Eu; by injection H as _ <- _|]. winv H as mirror E2.
  apply bind_inv in H as (u & [s1 e2] & E3 & H). unfold wupd in E3. cbn in E3. rewrite Hw in E3. apply (inj Some) in E3.
  assert (s1 = upd s a (client_paint_flags q)) as -> by congruence. set (s1 := upd s a _) in *.
  assert (Hs1 : forall b, shape <$> wins s1 !! b = shape <$> wins s !! b).
  { intros b. unfold s1. rewrite lookup_upd. case_decide; [|done]. by destruct (wins s !! b). }
  assert (Hw1 : wins s1 !! a = Some (client_paint_flags q w)) by (by apply lookup_upd_eq). winv H as w1 Hw1'.
  apply bind_inv in H as (u' & [s2 e4] & E4 & H). pose proof (win_ok_ext _ _ Hs1 WO) as W1.
  assert (Hs2 : forall b, shape <$> wins s2 !! b = shape <$> wins s1 !! b).
  { destruct (has_bits (w_paint_flags w1) _); [|by injection E4 as _ <- _]. winv E4 as s3 E5. injection E4 as _ <- _.
    apply (pixel_flags_shape s1 a); [done|by eexists|done]. }
  destruct (fmap_some shape _ _ _ (Hs2 a) Hw1) as (w2 & Hw2 & Es). apply bind_inv in H as ([] & [s3 e5] & E5 & H).
  assert (win_ok s3) as W3.
  { eapply (set_window_pos_ok s2 _ a w2 _ _ _ s3 e5 (win_ok_ext _ _ Hs2 W1) Hw2); [|exact E5]. intros p Hp2 Hz.
    assert (Hp : w_parent w = Some p) by (rewrite <-Hp2; symmetry; exact (f_equal (fun t => t.1.1.1.1.1) Es)).
    apply (good_previous_ext s1); [done|]. apply (good_previous_ext s); [done|].
    unfold pos_flags in Hz. assert (is_desktop_window w = false) as Hd by (unfold is_desktop_window; by rewrite Hp). rewrite Hd in Hz.
    assert (Hnz : forall f, has_bits (Z.lor f SWP_NOZORDER) SWP_NOZORDER = true) by (intros f; change SWP_NOZORDER with (2 ^ 2); rewrite has_bits_pow2, Z.lor_spec by done; apply orb_true_r).
    assert (Hnr : forall f, has_bits (Z.lor f SWP_NOREDRAW) SWP_NOZORDER = has_bits f SWP_NOZORDER) by (intros f; change SWP_NOZORDER with (2 ^ 2); rewrite !has_bits_pow2, Z.lor_spec by done; apply orb_false_r).
    assert (has_bits (q_flags q) SWP_NOZORDER = false /\ previous <> Previous a) as [Hq Hpa].
    { destruct (has_bits (q_flags q) SWP_NOZORDER) eqn:Hq; cbn [negb andb] in Hz; [destruct (layered_update w); rewrite ?Hnr in Hz; congruence|].
      split; [done|]. intros ->. rewrite Z.eqb_refl in Hz. destruct (layered_update w); rewrite ?Hnr, Hnz in Hz; done. }
    rewrite Hq, Hd in E1. cbn [orb] in E1. by destruct (get_previous_good s _ _ w a p previous _ WO Hw Hp L E1). }
  assert (forall m : W (option pos_reply), keeps orderly m -> m (s3, e5) = Some (r, (s', e')) -> win_ok s') as Hk.
  { intros m Hm Hr. by apply (proj1 (Hm _ _ _ _ _ Hr)). }
  revert H. apply Hk. keeps. apply keeps_call. intros s4. by apply shape_orderly.
Qed.

Lemma orderly_region a reg b : keeps orderly (set_window_region a reg b).
Proof.
  unfold set_window_region. keeps; try (apply painting_orderly; solve [eauto with keeps]). by apply orderly_upd.
Qed.

Lemma orderly_owner_loop n : forall win ptr, keeps orderly (owner_loop n win ptr).
Proof. induction n as [|n IH]; intros; cbn [owner_loop]; keeps. Qed.

Lemma orderly_owner handle owner : keeps orderly (req_set_window_owner handle owner).
Proof.
  unfold req_set_window_owner, fail. keeps; try apply orderly_owner_loop. by apply orderly_upd.
Qed.

Lemma orderly_update handle from_child flags max_size : keeps orderly (req_get_update_region handle from_child flags max_size).
Proof.
  apply painting_orderly. unfold req_get_update_region, with_window, fail, update_region_data, validate_update. keeps.
Qed.

Lemma orderly_redraw td handle flags data : keeps orderly (req_redraw_window td handle flags data).
Proof. apply painting_orderly. unfold req_redraw_window, region_from_req. keeps. Qed.

Lemma orderly_text handle text : keeps orderly (req_set_window_text handle text).
Proof. unfold req_set_window_text. keeps. by apply orderly_upd. Qed.

Lemma orderly_layered handle color_key alpha flags : keeps orderly (req_set_window_layered_info handle color_key alpha flags).
Proof.
  unfold req_set_window_layered_info. keeps; try (apply painting_orderly; solve [eauto with keeps]). by apply orderly_upd.
Qed.

Lemma serve_ok rq s e s' e' : win_ok s -> expected s rq -> serve rq (s, e) = Some (tt, (s', e')) -> win_ok s'.
Proof.
  intros WO X H. assert (Hk : forall m : W unit, keeps orderly m -> m (s, e) = Some (tt, (s', e')) -> win_ok s').
  { intros m Hm Hr. by apply (proj1 (Hm _ _ _ _ _ Hr)). }
  destruct rq; cbn [serve] in H.
  - apply bind_inv in H as (r & [s1 e1] & E & [= <- _]). by eapply set_parent_ok.
  - revert H. apply Hk. keeps. apply orderly_owner.
  - apply bind_inv in H as (r' & [s1 e1] & E & [= <- _]). by eapply set_info_ok.
  - apply bind_inv in H as (r' & [s1 e1] & E & [= <- _]). by eapply set_pos_ok.
  - revert H. apply Hk. unfold req_set_window_region, region_from_req. keeps. apply orderly_region.
  - revert H. apply Hk. keeps. apply orderly_update.
  - by eapply update_zorder_ok.
  - revert H. apply Hk, orderly_redraw.
  - revert H. apply Hk, orderly_text.
  - revert H. apply Hk, orderly_layered.
Qed.

(** ** Reachable states *)

Inductive window_steps : wstate -> wstate -> Prop :=
  | steps_refl s : window_steps s s
  | steps_step s1 s2 s3 rq e e' : window_steps s1 s2 -> expected s2 rq -> serve rq (s2, e) = Some (tt, (s3, e')) -> window_steps s1 s3.

Lemma window_steps_ok s s' : window_steps s s' -> win_ok s -> win_ok s'.
Proof. induction 1 as [|s1 s2 s3 rq e e' _ IH X E]; [done|]. intros WO. eapply serve_ok; [by apply IH|done|exact E]. Qed.
