(* ===== verification/WindowReplies.v ===== *)
(** * Owners of windows and replies about them

    Chains of owners, and what the requests on parents and extra bytes read and write. *)

From Stdlib Require Import ZArith Lia.
From stdpp Require Import base list numbers option gmap.
From S2P Require Import Prelude Region RegionTheorems UserHandles Windows WindowQueries WindowPaint WindowRequests WindowTree.

#[local] Open Scope Z_scope.

(** * Owners of windows

    The chain of owners of every window ends: set_window_owner refuses exactly what would
    close a circle.  It follows owners by handle, so that a handle that is not valid any
    more leaves an error behind although the owner has been set. *)

(** ** Chains of owners *)

Definition owner_window (s : wstate) (w : window) : option Z := if w_owner w =? 0 then None else user_window s (w_owner w).

(** The way from a window to the last owner. *)
Inductive owner_path (s : wstate) : Z -> list Z -> Prop :=
  | owner_end a w : wins s !! a = Some w -> owner_window s w = None -> owner_path s a [a]
  | owner_next a w b l : wins s !! a = Some w -> owner_window s w = Some b -> owner_path s b l -> owner_path s a (a :: l).

Lemma owner_path_det s a l l' : owner_path s a l -> owner_path s a l' -> l = l'.
Proof.
  intros H. revert l'. induction H as [a w Hw Ho|a w b l Hw Ho H IH]; intros l' H'; inversion H'; subst; try congruence.
  f_equal. apply IH. congruence.
Qed.

Lemma owner_path_suffix s a l l1 b l2 : owner_path s a l -> l = l1 ++ b :: l2 -> owner_path s b (b :: l2).
Proof.
  intros H. revert l1. induction H as [a w Hw Ho|a w c l Hw Ho H IH]; intros [|x l1] E; cbn in E; injection E as -> E.
  - subst l2. by econstructor.
  - by destruct l1.
  - subst l2. by econstructor.
  - by apply (IH l1).
Qed.

Lemma owner_path_nodup s a l : owner_path s a l -> NoDup l.
Proof.
  intros H. induction H as [a w Hw Ho|a w b l Hw Ho H IH]; [apply NoDup_singleton|].
  apply NoDup_cons. split; [|done]. intros (l1 & l2 & ->)%list_elem_of_split.
  pose proof (owner_path_suffix s b _ l1 a l2 H eq_refl) as H1.
  pose proof (owner_path_det s a _ _ H1 (owner_next s a w b _ Hw Ho H)) as E. apply (f_equal length) in E. cbn in E.
  rewrite length_app in E. cbn in E. lia.
Qed.

Lemma owner_path_length s a l : owner_path s a l -> (length l <= base.size (wins s))%nat.
Proof.
  intros H. rewrite <-size_dom, <-(size_list_to_set (C := gset Z) l) by (by eapply owner_path_nodup).
  apply subseteq_size. intros b (l1 & l2 & ->)%elem_of_list_to_set%list_elem_of_split. apply elem_of_dom.
  pose proof (owner_path_suffix s a _ l1 b l2 H eq_refl) as H1. inversion H1; by eexists.
Qed.

(** Every chain of owners ends, and windows are found by their own handles. *)
Record owners_ok (s : wstate) : Prop := {
  oo_path : forall a, is_Some (wins s !! a) -> exists l, owner_path s a l;
  oo_handle : forall a w, wins s !! a = Some w -> user_window s (w_handle w) = Some a;
  oo_window : forall h a, user_window s h = Some a -> is_Some (wins s !! a)
}.

(** Does the chain end with a handle that is not valid? *)
Fixpoint stale_end (s : wstate) (l : list Z) : bool :=
  match l with
  | [] => false
  | [a] => if wins s !! a is Some w then negb (w_owner w =? 0) else false
  | _ :: l => stale_end s l
  end.

Definition INVALID_WINDOW : Z := Z.lor 0xc0010000 ERROR_INVALID_WINDOW_HANDLE.

(** The environment after a chain has been followed to its end. *)
Definition after_chain (s : wstate) (l : list Z) (e : senv) : senv :=
  if stale_end s l then mk_senv INVALID_WINDOW (allocs e) else e.

Lemma owner_loop_run s e win a l n : owner_path s a l -> (length l <= n)%nat ->
  owner_loop n win (Some a) (s, e) = Some (bool_decide (win ∈ l), (s, if bool_decide (win ∈ l) then e else after_chain s l e)).
Proof.
  intros P. revert n. induction P as [a w Hw Ho|a w b l Hw Ho P IH]; intros n Hn; (destruct n as [|n]; [cbn in Hn; lia|]); cbn [owner_loop];
    (destruct (Z.eqb_spec a win) as [->|Hne]; [rewrite !bool_decide_true by set_solver; done|]); wstep ltac:(by apply wrun_at); unfold owner_window in Ho.
  - rewrite !bool_decide_false by set_solver. unfold after_chain. cbn [stale_end]. rewrite Hw. destruct (w_owner w =? 0); cbn [negb].
    + wstep ltac:(apply wrun_ret). by destruct n.
    + unfold get_window at 1. wstep ltac:(unfold mbind, W_bind, wget; cbn [fst]; rewrite Ho; reflexivity). by destruct n.
  - destruct (w_owner w =? 0); [done|].
    wstep ltac:(unfold get_window, mbind, W_bind, wget; cbn [fst]; rewrite Ho; reflexivity). rewrite IH by (cbn in Hn; lia).
    assert (bool_decide (win ∈ a :: l) = bool_decide (win ∈ l)) as -> by (apply bool_decide_ext; set_solver). do 3 f_equal. unfold after_chain.
    destruct l; [by inversion P|]. done.
Qed.

(** ** Setting the owner *)

(** Nothing but the owner of [a] has changed. *)
Lemma owner_path_set s a w o : wins s !! a = Some w ->
  forall b l, owner_path s b l -> a ∉ l -> owner_path (upd s a (fun w => set_owner w o)) b l.
Proof.
  intros Hw b l P. induction P as [b bw Hb Ho|b bw c l Hb Ho P IH]; intros Hn.
  - econstructor; [rewrite lookup_upd_ne by set_solver; exact Hb|exact Ho].
  - econstructor; [rewrite lookup_upd_ne by set_solver; exact Hb|exact Ho|]. apply IH. set_solver.
Qed.

Lemma set_owner_ok s a w (owner : option Z) full lo :
  owners_ok s -> wins s !! a = Some w ->
  (forall o, owner = Some o -> exists ow, wins s !! o = Some ow /\ w_handle ow = full /\ owner_path s o lo /\ a ∉ lo) -> (owner = None -> full = 0) ->
  owners_ok (upd s a (fun w => set_owner w full)).
Proof.
  intros [H1 H2 H3] Hw Ho Hn. set (s' := upd _ _ _). assert (Hwa : wins s' !! a = Some (set_owner w full)) by exact (lookup_upd_eq s a (fun w => set_owner w full) w Hw).
  assert (exists l, owner_path s' a l) as [la Pa].
  { destruct owner as [o|].
    - destruct (Ho o eq_refl) as (ow & How & <- & P & Hna). destruct (w_handle ow =? 0) eqn:Hz.
      + exists [a]. econstructor; [exact Hwa|]. unfold owner_window. cbn. by rewrite Hz.
      + exists (a :: lo). econstructor; [exact Hwa| |by apply (owner_path_set s a w)]. unfold owner_window. cbn. rewrite Hz. by apply (H2 o ow).
    - exists [a]. econstructor; [exact Hwa|]. unfold owner_window. cbn. by rewrite (Hn eq_refl). }
  assert (Hpath : forall b l, owner_path s b l -> exists l', owner_path s' b l').
  { intros b l P. induction P as [b bw Hb Hob|b bw c l Hb Hob P (l' & IH)]; (destruct (decide (b = a)) as [->|Hne]; [by exists la|]).
    - exists [b]. econstructor; [unfold s'; rewrite lookup_upd_ne by done; exact Hb|exact Hob].
    - exists (b :: l'). econstructor; [unfold s'; rewrite lookup_upd_ne by done; exact Hb|exact Hob|done]. }
  split.
  - intros b [bw Hb]. unfold s' in Hb. rewrite lookup_upd in Hb. assert (is_Some (wins s !! b)) as Hs.
    { case_decide; [subst; by eexists|by eexists]. } destruct (H1 b Hs) as [l P]. by apply (Hpath b l).
  - intros b bw Hb. unfold s' in Hb. rewrite lookup_upd in Hb. case_decide; [|by apply H2]. subst b. rewrite Hw in Hb. injection Hb as <-. cbn. by apply (H2 a w).
  - intros h b Hb. destruct (H3 h b Hb) as [bw Hbw]. unfold s'. rewrite lookup_upd. case_decide; rewrite Hbw; by eexists.
Qed.

(** The answer to a request for owner [o], whose chain of owners is [lo]. *)
Lemma set_window_owner_run s e handle owner a w :
  owners_ok s -> user_window s handle = Some a -> wins s !! a = Some w -> w_parent w <> None ->
  (owner = 0 /\ req_set_window_owner handle owner (s, e) = Some (Some (w_owner w, 0), (upd s a (fun w => set_owner w 0), e)) /\
     owners_ok (upd s a (fun w => set_owner w 0))) \/
  (owner <> 0 /\ user_window s owner = None /\
     req_set_window_owner handle owner (s, e) = Some (None, (s, mk_senv INVALID_WINDOW (allocs e)))) \/
  (exists o ow lo, owner <> 0 /\ user_window s owner = Some o /\ wins s !! o = Some ow /\ owner_path s o lo /\
     if bool_decide (a ∈ lo) then req_set_window_owner handle owner (s, e) = Some (None, (s, mk_senv STATUS_INVALID_PARAMETER (allocs e)))
     else let s' := upd s a (fun w => set_owner w (w_handle ow)) in
          req_set_window_owner handle owner (s, e) = Some (Some (w_owner w, w_handle ow), (s', after_chain s lo e)) /\ owners_ok s').
Proof.
  intros O Ha Hw Hp. assert (Hget : forall h b e, user_window s h = Some b -> get_window h (s, e) = Some (Some b, (s, e))).
  { intros h b e0 H. unfold get_window, mbind, W_bind, wget. cbn [fst]. by rewrite H. }
  assert (Hd : is_desktop_window w = false) by (unfold is_desktop_window; by destruct (w_parent w)). unfold req_set_window_owner.
  destruct (Z.eqb_spec owner 0) as [->|Ho]; [left; split; [done|]|right].
  { split; [|by apply (set_owner_ok s a w None 0 [])]. wstep ltac:(by apply Hget). wstep ltac:(apply wrun_ret). wstep ltac:(by apply wrun_at). rewrite Hd.
    wstep ltac:(apply wrun_get). cbn [owner_loop tree_fuel]. wstep ltac:(apply wrun_ret). wstep ltac:(apply wrun_ret). wstep ltac:(by apply (wrun_upd _ _ _ _ w)). done. }
  destruct (user_window s owner) as [o|] eqn:Eo; [right|left].
  - destruct (oo_window _ O owner o Eo) as [ow How]. destruct (oo_path _ O o ltac:(by eexists)) as [lo P]. exists o, ow, lo. split; [done|]. split; [done|].
    split; [done|]. split; [done|]. wstep ltac:(by apply Hget). wstep ltac:(erewrite wrun_bind; [|by apply Hget]; reflexivity). wstep ltac:(by apply wrun_at). rewrite Hd.
    wstep ltac:(apply wrun_get). pose proof (owner_path_length _ _ _ P) as Hl.
    wstep ltac:(apply (owner_loop_run s e a o lo (tree_fuel s) P); unfold tree_fuel; lia). destruct (decide (a ∈ lo)) as [Hin|Hin].
    + rewrite !bool_decide_true by done. done.
    + rewrite !bool_decide_false by done. cbv zeta. wstep ltac:(erewrite wrun_bind; [|by apply wrun_at]; reflexivity).
      wstep ltac:(by apply (wrun_upd _ _ _ _ w)). split; [done|]. apply (set_owner_ok s a w (Some o) (w_handle ow) lo); try done. intros o' [= <-]. by exists ow.
  - split; [done|]. split; [done|]. wstep ltac:(by apply Hget). unfold get_window, mbind, W_bind, wget. cbn [fst]. rewrite Eo. done.
Qed.

(** ** The last active popup *)

Lemma active_loop_run s last : user_window s 0 = None -> forall n a l s0, owner_path s a l -> NoDup l -> (length l <= n)%nat ->
  users s0 = users s -> (forall b, b ∈ l -> wins s0 !! b = wins s !! b) ->
  exists s', active_loop n s0 last (Some a) = Some s' /\ forall b, wins s' !! b = if decide (b ∈ l) then (fun w => set_last_active w last) <$> wins s !! b else wins s0 !! b.
Proof.
  intros H0 n a l s0 P. revert n s0. induction P as [a w Hw Ho|a w b l Hw Ho P IH]; intros n s0 N Hn Hu Hs; (destruct n as [|n]; [cbn in Hn; lia|]); cbn [active_loop];
    rewrite (Hs a) by set_solver; rewrite Hw; cbn [mbind option_bind].
  - change (user_window (upd s0 a (fun w => set_last_active w last)) (w_owner w)) with (user_window s0 (w_owner w)). unfold user_window in *. rewrite Hu.
    assert (user_window s (w_owner w) = None) as E.
    { unfold owner_window in Ho. destruct (Z.eqb_spec (w_owner w) 0) as [->|]; [|done]. exact H0. }
    unfold user_window in E. rewrite E. exists (upd s0 a (fun w => set_last_active w last)). split; [by destruct n|]. intros c. rewrite lookup_upd.
    destruct (decide (c = a)) as [->|Hc]; [rewrite decide_True, Hs by set_solver; done|by rewrite decide_False by set_solver].
  - apply NoDup_cons in N as [Na N]. change (user_window (upd s0 a (fun w => set_last_active w last)) (w_owner w)) with (user_window s0 (w_owner w)).
    assert (user_window s0 (w_owner w) = Some b) as ->.
    { unfold owner_window in Ho. destruct (w_owner w =? 0); [done|]. unfold user_window in *. by rewrite Hu. }
    destruct (IH n (upd s0 a (fun w => set_last_active w last)) N) as (s' & E & H); [cbn in Hn; lia|done|..].
    + intros c Hc. rewrite lookup_upd_ne by set_solver. apply Hs. set_solver.
    + exists s'. split; [done|]. intros c. rewrite H. destruct (decide (c ∈ l)) as [Hc|Hc]; [by rewrite decide_True by set_solver|].
      rewrite lookup_upd. destruct (decide (c = a)) as [->|Hca]; [rewrite decide_True, Hs by set_solver; done|by rewrite decide_False by set_solver].
Qed.

(** With chains of owners that end, make_window_active ends, and exactly the window and its
    owners have it as their last active popup. *)
Theorem make_window_active_correct s e handle a w l :
  user_window s 0 = None -> user_window s handle = Some a -> wins s !! a = Some w -> owner_path s a l ->
  exists s', make_window_active handle (s, e) = Some (true, (s', e)) /\
    forall b, wins s' !! b = if decide (b ∈ l) then (fun x => set_last_active x (w_handle w)) <$> wins s !! b else wins s !! b.
Proof.
  intros H0 Ha Hw P. unfold make_window_active.
  wstep ltac:(unfold get_window, mbind, W_bind, wget; cbn [fst]; rewrite Ha; reflexivity). wstep ltac:(by apply wrun_at).
  destruct (active_loop_run s (w_handle w) H0 (tree_fuel s) a l s P) as (s' & E & H); [by eapply owner_path_nodup| |done|done|].
  - pose proof (owner_path_length _ _ _ P). unfold tree_fuel. lia.
  - exists s'. wstep ltac:(apply wrun_ask; exact E). by wstep ltac:(apply wrun_put).
Qed.

(** * Replies about windows

    get_window_parents writes the handles of the parents, and past the end of its reply
    when the room for it is not a whole number of handles.  set_window_info keeps its
    hands on the extra bytes of the window, and reads back what it has written. *)

Lemma get_window_run s e handle a : user_window s handle = Some a -> get_window handle (s, e) = Some (Some a, (s, e)).
Proof. intros H. unfold get_window, mbind, W_bind, wget. cbn [fst]. by rewrite H. Qed.

(** ** Parents *)

(** The handles of the windows on a way to the root. *)
Definition handles_on (s : wstate) (l : list Z) : list Z := omap (fun b => w_handle <$> wins s !! b) l.

Lemma parent_handles_run s p l n : path s p l -> (length l <= n)%nat -> parent_handles n s (Some p) = Some (handles_on s l).
Proof.
  intros P. revert n. induction P as [p w Hw Hp|p w q l Hw Hp P IH]; intros n Hn; (destruct n as [|n]; [cbn in Hn; lia|]); cbn [parent_handles];
    rewrite Hw; cbn [mbind option_bind]; rewrite Hp.
  - unfold handles_on. cbn. rewrite Hw. by destruct n.
  - rewrite IH by (cbn in Hn; lia). unfold handles_on. cbn. by rewrite Hw.
Qed.

Lemma handles_on_length s p l : path s p l -> length (handles_on s l) = length l.
Proof. induction 1 as [p w Hw Hp|p w q l Hw Hp P IH]; unfold handles_on in *; cbn; rewrite Hw; cbn; [done|]. by rewrite IH. Qed.

Lemma fill_whole l : forall k : nat, Z.of_nat k * 4 < 2 ^ 32 -> fill_handles l (Z.of_nat k * 4) = take k l.
Proof.
  induction l as [|h l IH]; intros k Hk; [by destruct k|]. destruct k as [|k]; [done|]. cbn [fill_handles take].
  rewrite (proj2 (Z.eqb_neq _ 0)) by lia. unfold sizeof_user_handle. rewrite u32_small by lia.
  replace (Z.of_nat (S k) * 4 - 4) with (Z.of_nat k * 4) by lia. by rewrite IH by lia.
Qed.

(** The count misses 0 and wraps: everything is written. *)
Lemma fill_wraps l : forall len, 0 <= len < 2 ^ 32 -> len mod 4 <> 0 -> fill_handles l len = l.
Proof.
  induction l as [|h l IH]; intros len Hlen Hm; [done|]. cbn [fill_handles]. rewrite (proj2 (Z.eqb_neq len 0)) by (intros ->; done). f_equal.
  unfold u32, sizeof_user_handle. apply IH; [apply Z.mod_pos_bound; lia|].
  intros H. apply Hm. replace len with (len - 4 + 1 * 4) by lia. rewrite Z.mod_add by lia.
  rewrite <-H. symmetry. apply Z.mod_mod_divide. by exists (2 ^ 30).
Qed.

Lemma get_window_parents_run s e handle a lp max_size :
  tree_ok s -> user_window s handle = Some a -> path s a (a :: lp) -> allocs e = [] ->
  0 <= max_size < 2 ^ 32 -> Z.of_nat (length lp) * 4 < 2 ^ 32 ->
  req_get_window_parents handle max_size (s, e) =
    if decide (max_size < Z.of_nat (length lp) * 4 /\ max_size mod 4 <> 0) then None
    else Some ((Z.of_nat (length lp), take (Z.to_nat (max_size / 4)) (handles_on s lp)), (s, e)).
Proof.
  intros T Ha P He Hm Hl. unfold req_get_window_parents. wstep ltac:(by apply get_window_run).
  assert (Hlen : (length (a :: lp) < tree_fuel s)%nat) by (by apply (path_fuel s a)). cbn in Hlen.
  assert (Hh : length (handles_on s lp) = length lp) by (inversion P as [? w Hw Hp|? w p l' Hw Hp P']; subst; [done|by apply (handles_on_length s p)]).
  assert (Hph : (w ← wins s !! a; parent_handles (tree_fuel s) s (w_parent w)) = Some (handles_on s lp)).
  { inversion P as [? w Hw Hp|? w p l' Hw Hp P']; subst; rewrite Hw; cbn [mbind option_bind]; rewrite Hp; [by destruct (tree_fuel s)|].
    apply (parent_handles_run s p lp); [done|lia]. }
  wstep ltac:(apply wrun_ask; exact Hph).
  rewrite Hh. unfold sizeof_user_handle. set (total := Z.of_nat (length lp)) in *.
  assert (Hmem : lift mem_alloc (s, e) = Some (true, (s, e))) by (destruct e as [err al]; cbn in He; by subst al).
  destruct (Z.eqb_spec (Z.min max_size (total * 4)) 0) as [H0|H0].
  { rewrite decide_False; [|intros [H1 H2]; assert (max_size = 0) as -> by lia; done].
    replace (take (Z.to_nat (max_size / 4)) (handles_on s lp)) with (@nil Z); [done|].
    assert (max_size = 0 \/ total = 0) as [-> |Ht] by lia; [done|]. destruct (handles_on s lp); [by rewrite take_nil|cbn in Hh; lia]. }
  wstep ltac:(exact Hmem). destruct (decide (max_size < total * 4 /\ max_size mod 4 <> 0)) as [[H1 H2]|Hn].
  - rewrite Z.min_l by lia. rewrite fill_wraps by done. rewrite Hh. fold total. by rewrite (proj2 (Z.leb_gt _ _)) by lia.
  - assert (exists k : nat, Z.min max_size (total * 4) = Z.of_nat k * 4 /\ take (Z.to_nat (max_size / 4)) (handles_on s lp) = take k (handles_on s lp)) as (k & Hk & ->).
    { destruct (decide (max_size < total * 4)) as [Hlt|Hge].
      - assert (max_size mod 4 = 0) as Hz by lia. exists (Z.to_nat (max_size / 4)). split; [|done]. rewrite Z.min_l by lia.
        rewrite Z2Nat.id by (apply Z.div_pos; lia). rewrite (Z.div_mod max_size 4) at 1 by lia. lia.
      - exists (length lp). split; [unfold total in *; lia|]. rewrite !take_ge; [done|lia|]. apply Nat2Z.inj_le. rewrite Z2Nat.id by (apply Z.div_pos; lia). rewrite Hh.
        apply Z.div_le_lower_bound; lia. }
    rewrite Hk, fill_whole by lia. rewrite length_take. by rewrite (proj2 (Z.leb_le _ _)) by lia.
Qed.

(** ** Extra bytes *)

Lemma le_bytes_length n z : length (le_bytes n z) = n.
Proof. unfold le_bytes. by rewrite length_fmap, length_seq. Qed.

Lemma le_bytes_S n z : le_bytes (S n) z = z mod 256 :: le_bytes n (z / 256).
Proof.
  unfold le_bytes. cbn [seq]. rewrite fmap_cons, <-fmap_S_seq, <-list_fmap_compose. f_equal.
  apply list_fmap_ext. intros i x _. cbn. f_equal. replace (8 * Z.of_nat (S x)) with (8 + 8 * Z.of_nat x) by lia.
  rewrite <-Z.shiftr_shiftr by lia. f_equal. by rewrite Z.shiftr_div_pow2.
Qed.

Lemma le_value_bytes n : forall z, le_value (le_bytes n z) = z mod 256 ^ Z.of_nat n.
Proof.
  induction n as [|n IH]; intros z; [by rewrite Z.mod_1_r|]. rewrite le_bytes_S. cbn [le_value]. rewrite IH.
  rewrite Nat2Z.inj_succ, Z.pow_succ_r by lia. rewrite Z.rem_mul_r by lia. done.
Qed.

Lemma put_bytes_length l off bs : (off + length bs <= length l)%nat -> length (put_bytes l off bs) = length l.
Proof. intros H. unfold put_bytes. rewrite !length_app, length_take, length_drop. lia. Qed.

Lemma put_bytes_read l off bs : (off + length bs <= length l)%nat -> take (length bs) (drop off (put_bytes l off bs)) = bs.
Proof.
  intros H. unfold put_bytes. rewrite drop_app_length'; [by rewrite take_app_length|]. rewrite length_take. lia.
Qed.

Lemma put_bytes_other l off bs i : (off + length bs <= length l)%nat -> (i < off \/ off + length bs <= i)%nat -> put_bytes l off bs !! i = l !! i.
Proof.
  intros H [Hi|Hi]; unfold put_bytes.
  - rewrite lookup_app_l by (rewrite length_take; lia). by rewrite lookup_take, decide_True.
  - rewrite lookup_app_r, lookup_app_r by (rewrite length_take; lia). rewrite length_take, lookup_drop. f_equal. lia.
Qed.

(** The extra bytes that a request of [set_window_info] names, on a window that is not a
    root: inside of those that the window has, at most the size of a value.  The offset -1
    names none, and cannot be written to. *)
Definition extra_allowed (r : info_req) (n : Z) : Prop :=
  i_extra_size r <= 8 /\ -1 <= i_extra_offset r /\ i_extra_offset r + i_extra_size r <= n /\
  (i_extra_offset r = -1 -> has_bits (i_flags r) SET_WIN_EXTRA = false).

#[export] Instance extra_allowed_dec r n : Decision (extra_allowed r n).
Proof. unfold extra_allowed. apply _. Defined.

Definition INVALID_INDEX : Z := Z.lor 0xc0010000 ERROR_INVALID_INDEX.

(** The sum that the code compares does not wrap. *)
Lemma bad_extra_spec r w : 0 <= i_extra_size r -> Z.of_nat (length (d_extra (w_data w))) < 2 ^ 31 ->
  bad_extra r w = false <->
    i_extra_size r <= 8 /\ -1 <= i_extra_offset r /\ i_extra_offset r + i_extra_size r <= Z.of_nat (length (d_extra (w_data w))).
Proof.
  intros H1 H2. unfold bad_extra, sizeof_lparam. rewrite !orb_false_iff, !Z.ltb_ge. split.
  - intros [[Hs Ho] Hb]. rewrite (i32_id (i_extra_size r)), i32_id in Hb by (unfold int_range; lia). lia.
  - intros (Hs & Ho & Hb). rewrite (i32_id (i_extra_size r)), i32_id by (unfold int_range; lia). lia.
Qed.

Lemma set_info_run s e current handle a w r :
  user_window s handle = Some a -> wins s !! a = Some w -> w_parent w <> None ->
  0 <= i_extra_size r -> Z.of_nat (length (d_extra (w_data w))) < 2 ^ 31 ->
  if decide (extra_allowed r (Z.of_nat (length (d_extra (w_data w))))) then
    exists reply, req_set_window_info current handle r (s, e) = Some (Some reply, (upd s a (info_window r), e)) /\
      old_extra_value reply = if i_extra_offset r =? -1 then 0
        else le_value (take (Z.to_nat (i_extra_size r)) (drop (Z.to_nat (i_extra_offset r)) (d_extra (w_data w))))
  else req_set_window_info current handle r (s, e) = Some (None, (s, mk_senv INVALID_INDEX (allocs e))).
Proof.
  intros Ha Hw Hp Hs Hx. pose proof (bad_extra_spec r w Hs Hx) as B.
  assert (is_desktop_window w = false) as Hd by (unfold is_desktop_window; by destruct (w_parent w)).
  unfold req_set_window_info, with_window.
  case_decide as Hc; (wstep ltac:(by apply get_window_run); wstep ltac:(by apply wrun_at); rewrite Hd, andb_false_r; cbn [andb]).
  - destruct Hc as (H1 & H2 & H3 & H4). rewrite (proj2 B) by done. destruct (Z.eqb_spec (i_extra_offset r) (-1)) as [E|E]; [rewrite (H4 E)|]; cbn [andb];
      (wstep ltac:(by apply (wrun_upd _ _ _ _ w)); eexists; by split).
  - destruct (bad_extra r w); [done|]. destruct (Z.eqb_spec (i_extra_offset r) (-1)) as [E|E]; cbn [andb].
    + destruct (has_bits (i_flags r) SET_WIN_EXTRA) eqn:F; [done|]. destruct Hc. destruct (proj1 B eq_refl) as (? & ? & ?). by split.
    + destruct Hc. destruct (proj1 B eq_refl) as (? & ? & ?). by split.
Qed.

Lemma info_window_extra r w :
  d_extra (w_data (info_window r w)) =
    if has_bits (i_flags r) SET_WIN_EXTRA
    then put_bytes (d_extra (w_data w)) (Z.to_nat (i_extra_offset r)) (le_bytes (Z.to_nat (i_extra_size r)) (i_extra_value r))
    else d_extra (w_data w).
Proof.
  unfold info_window, info_styles, info_data. destruct (has_bits (i_flags r) SET_WIN_EXTRA);
  destruct (has_bits (i_flags r) SET_WIN_STYLE), (has_bits (i_flags r) SET_WIN_EXSTYLE); cbn; try done; by destruct (has_bits _ WS_EX_LAYERED).
Qed.

(** What set_window_info makes of the extra bytes of a window. *)
Definition extra_written (r : info_req) (bytes bytes' : list Z) : Prop :=
  let size := Z.to_nat (i_extra_size r) in let off := Z.to_nat (i_extra_offset r) in
  length bytes' = length bytes /\
  if has_bits (i_flags r) SET_WIN_EXTRA then
    le_value (take size (drop off bytes')) = i_extra_value r mod 256 ^ i_extra_size r /\
    forall i, (i < off \/ off + size <= i)%nat -> bytes' !! i = bytes !! i
  else bytes' = bytes.

Lemma info_extra_written r w : 0 <= i_extra_size r -> extra_allowed r (Z.of_nat (length (d_extra (w_data w)))) ->
  extra_written r (d_extra (w_data w)) (d_extra (w_data (info_window r w))).
Proof.
  intros Hs (H1 & H2 & H3 & H4). unfold extra_written. cbv zeta. rewrite info_window_extra.
  destruct (has_bits (i_flags r) SET_WIN_EXTRA); [|done]. assert (0 <= i_extra_offset r) as Ho.
  { destruct (decide (i_extra_offset r = -1)) as [E|E]; [by specialize (H4 E)|lia]. }
  assert (Z.to_nat (i_extra_offset r) + length (le_bytes (Z.to_nat (i_extra_size r)) (i_extra_value r)) <= length (d_extra (w_data w)))%nat as Hin
    by (rewrite le_bytes_length; lia).
  split; [by apply put_bytes_length|]. split.
  - pose proof (put_bytes_read _ _ _ Hin) as H. rewrite le_bytes_length in H. rewrite H, le_value_bytes, Z2Nat.id by done. done.
  - intros i Hi. apply put_bytes_other; [done|]. by rewrite le_bytes_length.
Qed.

Lemma info_window_parent r w : w_parent (info_window r w) = w_parent w.
Proof. unfold info_window, info_styles. repeat (case_match; cbn); done. Qed.
