(* ===== verification/WindowProps.v ===== *)
(** * Properties of windows: server/window.c

    The array of properties of a window, with the atoms that name them: set_property,
    remove_property, get_property, destroy_properties and the request handlers.  The
    array refines a finite map from atoms to data; a property holds a reference on its
    atom for as long as it is set. *)

From Stdlib Require Import ZArith Lia.
From stdpp Require Import base list numbers option gmap.
From S2P Require Import Prelude Region UserHandles Unicode Atoms Windows.

#[local] Open Scope Z_scope.
#[local] Open Scope server_scope.

(** The properties of a window with the table of global atoms. *)
Record prop_state := mk_ps {
  props : list property;
  prop_alloc : Z;
  atoms : option atom_table
}.

Definition used (p : property) : bool := negb (bool_decide (p_type p = PROP_TYPE_FREE)).

(** The first loop of set_property from entry [i]: the entry with the atom, or the last
    free entry. *)
Fixpoint find_prop (l : list property) (i : nat) (atom : Z) (free : option nat) : nat + option nat :=
  match l with
  | [] => inr free
  | p :: l =>
      if negb (used p) then find_prop l (S i) atom (Some i)
      else if p_atom p =? atom then inl i
      else find_prop l (S i) atom free
  end.

Definition set_property (winstation : bool) (s : prop_state) (atom data : Z) (type : property_type) : M prop_state :=
  match find_prop (props s) 0 atom None with
  | inl i => ret (mk_ps (alter (fun p => mk_prop type (p_atom p) data) i (props s)) (prop_alloc s) (atoms s))
  | inr free =>
      let* (ok, slot) := grab_global_atom winstation (atoms s) atom in
      if negb ok then ret (mk_ps (props s) (prop_alloc s) slot)
      else
        let entry := mk_prop type atom data in
        match free with
        | Some i => ret (mk_ps (<[i := entry]> (props s)) (prop_alloc s) slot)
        | None =>
            if prop_alloc s <=? Z.of_nat (length (props s)) then
              let* mem := malloc in
              if mem then ret (mk_ps (props s ++ [entry]) (prop_alloc s + 16) slot)
              else
                set_error STATUS_NO_MEMORY ;;;
                let* slot := release_global_atom winstation slot atom in
                ret (mk_ps (props s) (prop_alloc s) slot)
            else ret (mk_ps (props s ++ [entry]) (prop_alloc s) slot)
        end
  end.

(** The first entry in use with the atom. *)
Fixpoint prop_index (l : list property) (i : nat) (atom : Z) : option nat :=
  match l with
  | [] => None
  | p :: l => if used p && (p_atom p =? atom) then Some i else prop_index l (S i) atom
  end.

Definition data_at (l : list property) (i : nat) : Z := if l !! i is Some p then p_data p else 0.

Definition remove_property (winstation : bool) (s : prop_state) (atom : Z) : M (Z * prop_state) :=
  match prop_index (props s) 0 atom with
  | None => ret (0, s)
  | Some i =>
      let* slot := release_global_atom winstation (atoms s) atom in
      ret (data_at (props s) i,
           mk_ps (alter (fun p => mk_prop PROP_TYPE_FREE (p_atom p) (p_data p)) i (props s)) (prop_alloc s) slot)
  end.

Definition get_property (s : prop_state) (atom : Z) : Z :=
  match prop_index (props s) 0 atom with None => 0 | Some i => data_at (props s) i end.

Fixpoint release_props (winstation : bool) (l : list property) (slot : option atom_table) : M (option atom_table) :=
  match l with
  | [] => ret slot
  | p :: l =>
      if negb (used p) then release_props winstation l slot
      else let* slot := release_global_atom winstation slot (p_atom p) in release_props winstation l slot
  end.

(** The array is freed. *)
Definition destroy_properties (winstation : bool) (s : prop_state) : M prop_state :=
  let* slot := release_props winstation (props s) (atoms s) in
  ret (mk_ps (props s) (prop_alloc s) slot).

(** ** Requests *)

Section requests.
Variable casemap : Z -> Z.

(** [name] is the name of the property, or empty; the outer [None] is that of
    add_global_atom. *)
Definition req_set_window_property (winstation : bool) (s : prop_state) (name : list Z) (atom data : Z) : M (option prop_state) :=
  match name with
  | [] => let* s := set_property winstation s atom data PROP_TYPE_ATOM in ret (Some s)
  | _ =>
      let* r := add_global_atom casemap winstation (atoms s) name in
      match r with
      | None => ret None
      | Some (atom, slot) =>
          let s := mk_ps (props s) (prop_alloc s) slot in
          if atom =? 0 then ret (Some s)
          else
            let* s := set_property winstation s atom data PROP_TYPE_STRING in
            let* slot := release_global_atom winstation (atoms s) atom in
            ret (Some (mk_ps (props s) (prop_alloc s) slot))
      end
  end.

Definition named_atom (winstation : bool) (s : prop_state) (name : list Z) (atom : Z) : M Z :=
  match name with [] => ret atom | _ => find_global_atom casemap winstation (atoms s) name end.

Definition req_remove_window_property (winstation : bool) (s : prop_state) (name : list Z) (atom : Z) : M (Z * prop_state) :=
  let* atom := named_atom winstation s name atom in
  if atom =? 0 then ret (0, s) else remove_property winstation s atom.

Definition req_get_window_property (winstation : bool) (s : prop_state) (name : list Z) (atom : Z) : M Z :=
  let* atom := named_atom winstation s name atom in
  ret (if atom =? 0 then 0 else get_property s atom).
End requests.

(** Reply: the number of properties, and those that fit: atom, whether it was a string,
    and data.  [max] is the number of entries that the reply has room for. *)
Definition req_get_window_properties (s : prop_state) (max : Z) : M (Z * list (Z * bool * Z)) :=
  let l := filter (fun p => used p = true) (props s) in
  let total := Z.of_nat (length l) in
  let count := Z.min total max in
  if count =? 0 then ret (total, [])
  else
    let* ok := mem_alloc in
    ret (total, if ok then (fun p => (p_atom p, bool_decide (p_type p = PROP_TYPE_STRING), p_data p)) <$> take (Z.to_nat count) l else []).

(** ** The map of properties *)

(** What is set: data and type by atom. *)
Definition prop_map (l : list property) : gmap Z (Z * property_type) :=
  list_to_map ((fun p => (p_atom p, (p_data p, p_type p))) <$> filter (fun p => used p = true) l).

(** No atom twice. *)
Definition props_ok (l : list property) : Prop := NoDup (p_atom <$> filter (fun p => used p = true) l).

Definition used_atoms (l : list property) : list Z := p_atom <$> filter (fun p => used p = true) l.

Lemma used_atoms_app l1 l2 : used_atoms (l1 ++ l2) = used_atoms l1 ++ used_atoms l2.
Proof. unfold used_atoms. by rewrite filter_app, fmap_app. Qed.

Lemma used_atoms_cons p l : used_atoms (p :: l) = if used p then p_atom p :: used_atoms l else used_atoms l.
Proof. unfold used_atoms. rewrite filter_cons. destruct (used p); [by rewrite decide_True|by rewrite decide_False]. Qed.

Lemma prop_map_app l1 l2 : prop_map (l1 ++ l2) = prop_map l1 ∪ prop_map l2.
Proof. unfold prop_map. by rewrite filter_app, fmap_app, list_to_map_app. Qed.

Lemma prop_map_cons p l : prop_map (p :: l) = if used p then <[p_atom p := (p_data p, p_type p)]> (prop_map l) else prop_map l.
Proof. unfold prop_map. rewrite filter_cons. destruct (used p); [by rewrite decide_True|by rewrite decide_False]. Qed.

Lemma prop_map_None l atom : atom ∉ used_atoms l <-> prop_map l !! atom = None.
Proof.
  unfold prop_map. rewrite <-not_elem_of_list_to_map, <-list_fmap_compose. done.
Qed.

(** The entry that is found splits the array. *)
Lemma prop_index_split l : forall i0 atom,
  match prop_index l i0 atom with
  | Some i => exists l1 p l2, l = l1 ++ p :: l2 /\ i = (i0 + length l1)%nat /\ used p = true /\ p_atom p = atom /\ atom ∉ used_atoms l1
  | None => atom ∉ used_atoms l
  end.
Proof.
  induction l as [|p l IH]; intros i0 atom; cbn [prop_index]; [set_solver|]. destruct (used p) eqn:Hu; cbn [andb].
  - destruct (Z.eqb_spec (p_atom p) atom) as [E|E].
    + exists [], p, l. cbn. split; [done|]. split; [lia|]. split; [done|]. split; [done|]. set_solver.
    + specialize (IH (S i0) atom). destruct (prop_index l (S i0) atom) as [i|].
      * destruct IH as (l1 & q & l2 & -> & -> & H1 & H2 & H3). exists (p :: l1), q, l2. split; [done|]. split; [cbn; lia|]. split; [done|]. split; [done|].
        rewrite used_atoms_cons, Hu. set_solver.
      * rewrite used_atoms_cons, Hu. set_solver.
  - specialize (IH (S i0) atom). destruct (prop_index l (S i0) atom) as [i|].
    + destruct IH as (l1 & q & l2 & -> & -> & H1 & H2 & H3). exists (p :: l1), q, l2. split; [done|]. split; [cbn; lia|]. split; [done|]. split; [done|].
      by rewrite used_atoms_cons, Hu.
    + by rewrite used_atoms_cons, Hu.
Qed.

(** find_prop finds the same entry, or a free one. *)
Lemma find_prop_spec l : forall i0 atom free,
  match find_prop l i0 atom free with
  | inl i => prop_index l i0 atom = Some i
  | inr free' => prop_index l i0 atom = None /\ (free' = free /\ forallb used l = true \/ exists l1 p l2, l = l1 ++ p :: l2 /\ free' = Some (i0 + length l1)%nat /\ used p = false)
  end.
Proof.
  induction l as [|p l IH]; intros i0 atom free; cbn [find_prop prop_index forallb]; [by split; [|left]|]. destruct (used p) eqn:Hu; cbn [negb andb].
  - destruct (Z.eqb_spec (p_atom p) atom); [done|]. specialize (IH (S i0) atom free). destruct (find_prop l (S i0) atom free) as [i|f]; [done|].
    destruct IH as [H1 [[-> Hf]|(l1 & q & l2 & -> & -> & H2)]]; (split; [done|]); [by left|right]. exists (p :: l1), q, l2. split; [done|]. split; [|done]. f_equal. cbn. lia.
  - specialize (IH (S i0) atom (Some i0)). destruct (find_prop l (S i0) atom (Some i0)) as [i|f]; [done|].
    destruct IH as [H1 [[-> _]|(l1 & q & l2 & -> & -> & H2)]]; (split; [done|]); right.
    + exists [], p, l. split; [done|]. split; [|done]. f_equal. cbn. lia.
    + exists (p :: l1), q, l2. split; [done|]. split; [|done]. f_equal. cbn. lia.
Qed.

Lemma alter_middle {A} (f : A -> A) l1 x l2 : alter f (length l1) (l1 ++ x :: l2) = l1 ++ f x :: l2.
Proof. induction l1 as [|y l1 IH]; [done|]. cbn. by f_equal. Qed.

Lemma insert_middle {A} (l1 : list A) x y l2 : <[length l1 := y]> (l1 ++ x :: l2) = l1 ++ y :: l2.
Proof. induction l1 as [|z l1 IH]; [done|]. cbn. by f_equal. Qed.

(** *** Changing an entry *)

(** An entry in use gets new data. *)
Lemma prop_overwrite l1 p l2 data type : used p = true -> type <> PROP_TYPE_FREE -> p_atom p ∉ used_atoms l1 ->
  let l' := l1 ++ mk_prop type (p_atom p) data :: l2 in
  prop_map l' = <[p_atom p := (data, type)]> (prop_map (l1 ++ p :: l2)) /\ used_atoms l' = used_atoms (l1 ++ p :: l2).
Proof.
  intros Hu Ht Hn. assert (Hu' : used (mk_prop type (p_atom p) data) = true) by (unfold used; cbn; by rewrite bool_decide_false). cbv zeta. split.
  - rewrite !prop_map_app, !prop_map_cons, Hu, Hu'. cbn [p_atom p_data p_type]. rewrite <-!insert_union_r by (by apply prop_map_None).
    by rewrite insert_insert_eq.
  - by rewrite !used_atoms_app, !used_atoms_cons, Hu, Hu'.
Qed.

(** A free entry is used. *)
Lemma prop_fill l1 p l2 atom data type : used p = false -> type <> PROP_TYPE_FREE -> atom ∉ used_atoms (l1 ++ p :: l2) ->
  let l' := l1 ++ mk_prop type atom data :: l2 in
  prop_map l' = <[atom := (data, type)]> (prop_map (l1 ++ p :: l2)) /\ used_atoms l' ≡ₚ atom :: used_atoms (l1 ++ p :: l2).
Proof.
  intros Hu Ht Hn. assert (Hu' : used (mk_prop type atom data) = true) by (unfold used; cbn; by rewrite bool_decide_false). cbv zeta.
  rewrite used_atoms_app, used_atoms_cons, Hu in Hn. split.
  - rewrite !prop_map_app, !prop_map_cons, Hu, Hu'. cbn [p_atom p_data p_type]. rewrite <-insert_union_r; [done|]. apply prop_map_None. set_solver.
  - rewrite !used_atoms_app, !used_atoms_cons, Hu, Hu'. cbn [p_atom]. by rewrite Permutation_middle.
Qed.

(** An entry is added. *)
Lemma prop_append l atom data type : type <> PROP_TYPE_FREE -> atom ∉ used_atoms l ->
  prop_map (l ++ [mk_prop type atom data]) = <[atom := (data, type)]> (prop_map l) /\
  used_atoms (l ++ [mk_prop type atom data]) ≡ₚ atom :: used_atoms l.
Proof.
  intros Ht Hn. assert (Hu' : used (mk_prop type atom data) = true) by (unfold used; cbn; by rewrite bool_decide_false). split.
  - rewrite prop_map_app, prop_map_cons, Hu'. cbn [p_atom p_data p_type]. rewrite <-insert_union_r by (by apply prop_map_None).
    change (prop_map []) with (∅ : gmap Z (Z * property_type)). by rewrite map_union_empty.
  - rewrite used_atoms_app, used_atoms_cons, Hu'. cbn [p_atom]. by rewrite Permutation_app_comm.
Qed.

(** An entry is freed. *)
Lemma prop_release l1 p l2 : used p = true -> props_ok (l1 ++ p :: l2) ->
  let l' := l1 ++ mk_prop PROP_TYPE_FREE (p_atom p) (p_data p) :: l2 in
  prop_map l' = delete (p_atom p) (prop_map (l1 ++ p :: l2)) /\ props_ok l'.
Proof.
  intros Hu Hok. cbv zeta. change (props_ok (l1 ++ p :: l2)) with (NoDup (used_atoms (l1 ++ p :: l2))) in Hok.
  rewrite used_atoms_app, used_atoms_cons, Hu, <-Permutation_middle in Hok. apply NoDup_cons in Hok as [Hn Hok]. rewrite elem_of_app in Hn. split.
  - rewrite !prop_map_app, !prop_map_cons, Hu. change (used (mk_prop PROP_TYPE_FREE (p_atom p) (p_data p))) with false. cbv iota.
    rewrite <-insert_union_r by (apply prop_map_None; tauto). rewrite delete_insert_id; [done|]. rewrite lookup_union_None. rewrite <-!prop_map_None. tauto.
  - change (NoDup (used_atoms (l1 ++ mk_prop PROP_TYPE_FREE (p_atom p) (p_data p) :: l2))). rewrite used_atoms_app, used_atoms_cons.
    change (used (mk_prop PROP_TYPE_FREE (p_atom p) (p_data p))) with false. done.
Qed.

(** ** The operations on the map *)

Lemma prop_map_at l1 p l2 : used p = true -> p_atom p ∉ used_atoms l1 -> prop_map (l1 ++ p :: l2) !! p_atom p = Some (p_data p, p_type p).
Proof.
  intros Hu Hn. rewrite prop_map_app, prop_map_cons, Hu. rewrite lookup_union_r by (by apply prop_map_None). apply lookup_insert_eq.
Qed.

Lemma get_property_map s atom : get_property s atom = if prop_map (props s) !! atom is Some (d, _) then d else 0.
Proof.
  unfold get_property. pose proof (prop_index_split (props s) 0 atom) as H. destruct (prop_index (props s) 0 atom) as [i|].
  - destruct H as (l1 & p & l2 & E & -> & Hu & <- & Hn). rewrite E, prop_map_at by done. unfold data_at. cbn. by rewrite lookup_app_r, Nat.sub_diag by lia.
  - by rewrite (proj1 (prop_map_None _ _) H).
Qed.

(** Is there no room for another property?  Then the array has to grow. *)
Definition props_full (s : prop_state) : bool := forallb used (props s) && (prop_alloc s <=? Z.of_nat (length (props s))).

(** What set_property makes of the map, the atoms and the environment: a new property has
    a reference on its atom, which is given back when the array cannot grow. *)
Definition property_set (ws : bool) (s : prop_state) (atom data : Z) (type : property_type) (e : senv) (s' : prop_state) (e' : senv) : Prop :=
  props_ok (props s') /\
  match prop_map (props s) !! atom with
  | Some _ => prop_map (props s') = <[atom := (data, type)]> (prop_map (props s)) /\ atoms s' = atoms s /\ e' = e
  | None =>
      let '((ok, slot), e1) := grab_global_atom ws (atoms s) atom e in
      if negb ok then props s' = props s /\ atoms s' = slot /\ e' = e1
      else
        let '(room, e2) := (if props_full s then malloc e1 else (true, e1)) in
        if room : bool then prop_map (props s') = <[atom := (data, type)]> (prop_map (props s)) /\ atoms s' = slot /\ e' = e2
        else props s' = props s /\ release_global_atom ws slot atom (mk_senv STATUS_NO_MEMORY (allocs e2)) = (atoms s', e')
  end.

Lemma set_property_spec ws s atom data type e :
  props_ok (props s) -> type <> PROP_TYPE_FREE ->
  let '(s', e') := set_property ws s atom data type e in property_set ws s atom data type e s' e'.
Proof.
  intros Hok Ht. unfold set_property, property_set. pose proof (find_prop_spec (props s) 0 atom None) as F. pose proof (prop_index_split (props s) 0 atom) as I.
  change (props_ok (props s)) with (NoDup (used_atoms (props s))) in Hok.
  destruct (find_prop (props s) 0 atom None) as [i|free].
  - rewrite F in I. destruct I as (l1 & p & l2 & E & -> & Hu & <- & Hn). cbn [fst snd ret]. cbn [Nat.add] in *.
    destruct (prop_overwrite l1 p l2 data type Hu Ht Hn) as [M U]. cbv zeta in M, U. rewrite E, prop_map_at by done. unfold ret. cbn [props atoms].
    rewrite alter_middle. rewrite E in Hok. split; [change (NoDup (used_atoms (l1 ++ mk_prop type (p_atom p) data :: l2))); by rewrite U|]. by rewrite M.
  - destruct F as [F1 F2]. rewrite F1 in I. rewrite (proj1 (prop_map_None _ _) I). unfold bind at 1. destruct (grab_global_atom ws (atoms s) atom e) as [[ok slot] e1].
    destruct ok; cbn [negb]; [|by unfold ret]. destruct F2 as [[-> Hf]|(l1 & p & l2 & E & -> & Hu)].
    + destruct (prop_append (props s) atom data type Ht I) as [M U].
      assert (NoDup (used_atoms (props s ++ [mk_prop type atom data]))) as N by (rewrite U; by apply NoDup_cons).
      unfold props_full. rewrite Hf. cbn [andb]. destruct (prop_alloc s <=? _); [|by unfold ret].
      unfold bind at 1, malloc. destruct (allocs e1) as [|[] al] eqn:Ea; unfold ret; cbn [props atoms]; [done|done|].
      unfold bind, set_error. cbn [allocs]. destruct (release_global_atom ws slot atom _) as [slot' e2]. done.
    + assert (props_full s = false) as ->.
      { unfold props_full. rewrite E, forallb_app. cbn [forallb]. by rewrite Hu, andb_false_r. }
      rewrite E in I, Hok. destruct (prop_fill l1 p l2 atom data type Hu Ht I) as [M U]. cbv zeta in M, U. unfold ret. cbn [props atoms Nat.add].
      rewrite E, insert_middle. split; [change (NoDup (used_atoms (l1 ++ mk_prop type atom data :: l2))); rewrite U; by apply NoDup_cons|].
      by rewrite M.
Qed.

Lemma remove_property_spec ws s atom e :
  props_ok (props s) ->
  match prop_map (props s) !! atom with
  | None => remove_property ws s atom e = ((0, s), e)
  | Some (d, _) =>
      let '(slot, e1) := release_global_atom ws (atoms s) atom e in
      exists s', remove_property ws s atom e = ((d, s'), e1) /\ props_ok (props s') /\ prop_map (props s') = delete atom (prop_map (props s)) /\ atoms s' = slot
  end.
Proof.
  intros Hok. unfold remove_property. pose proof (prop_index_split (props s) 0 atom) as I. destruct (prop_index (props s) 0 atom) as [i|].
  - destruct I as (l1 & p & l2 & E & -> & Hu & <- & Hn). cbn [Nat.add]. rewrite E, prop_map_at by done. unfold bind. destruct (release_global_atom ws (atoms s) (p_atom p) e) as [slot e1].
    rewrite E in Hok. destruct (prop_release l1 p l2 Hu Hok) as [M U]. cbv zeta in M, U. eexists. split.
    { unfold ret, data_at. rewrite lookup_app_r, Nat.sub_diag by lia. reflexivity. }
    cbn [props atoms]. rewrite alter_middle. by split.
  - by rewrite (proj1 (prop_map_None _ _) I).
Qed.

(** The list of all properties. *)
Lemma get_properties_spec s max e :
  props_ok (props s) -> allocs e = [] -> 0 <= max ->
  exists l, req_get_window_properties s max e = ((Z.of_nat (base.size (prop_map (props s))), take (Z.to_nat max) l), e) /\
    l ≡ₚ (fun '(atom, (d, t)) => (atom, bool_decide (t = PROP_TYPE_STRING), d)) <$> map_to_list (prop_map (props s)).
Proof.
  intros Hok He Hm. set (u := filter (fun p => used p = true) (props s)). set (f := fun p => (p_atom p, bool_decide (p_type p = PROP_TYPE_STRING), p_data p)).
  set (kv := (fun p => (p_atom p, (p_data p, p_type p))) <$> u).
  assert (NoDup kv.*1) as Nk by (unfold kv; rewrite <-list_fmap_compose; exact Hok).
  assert (map_to_list (prop_map (props s)) ≡ₚ kv) as Hp by (by apply map_to_list_to_map).
  assert (base.size (prop_map (props s)) = length u) as Hs by (rewrite <-length_map_to_list, Hp; unfold kv; by rewrite length_fmap).
  exists (f <$> u). split; [|rewrite Hp; unfold kv; by rewrite <-list_fmap_compose].
  unfold req_get_window_properties. fold u. fold f. rewrite Hs. destruct (Z.eqb_spec (Z.min (Z.of_nat (length u)) max) 0) as [H0|H0].
  - unfold ret. do 2 f_equal. destruct u as [|p u']; [by destruct (Z.to_nat max)|]. assert (max = 0) as -> by (cbn in H0; lia). done.
  - unfold bind. assert (mem_alloc e = (true, e)) as -> by (destruct e as [err al]; cbn in He; by subst). unfold ret. do 2 f_equal.
    rewrite fmap_take. destruct (decide (max <= Z.of_nat (length u))); [by rewrite Z.min_r by lia|]. rewrite !take_ge; [done|rewrite length_fmap; lia|rewrite length_fmap; lia].
Qed.

(** A property with atom 0 can be set, and then neither read nor removed. *)
Lemma atom_zero_spec casemap ws s data e :
  props_ok (props s) -> allocs e = [] -> prop_map (props s) !! 0 = None ->
  exists s', req_set_window_property casemap ws s [] 0 data e = (Some s', e) /\
    prop_map (props s') = <[0 := (data, PROP_TYPE_ATOM)]> (prop_map (props s)) /\
    req_get_window_property casemap ws s' [] 0 e = (0, e) /\ req_remove_window_property casemap ws s' [] 0 e = ((0, s'), e).
Proof.
  intros Hok He Hn. unfold req_set_window_property, bind. pose proof (set_property_spec ws s 0 data PROP_TYPE_ATOM e Hok ltac:(done)) as H.
  destruct (set_property ws s 0 data PROP_TYPE_ATOM e) as [s' e']. destruct H as [_ H]. rewrite Hn in H.
  change (grab_global_atom ws (atoms s) 0 e) with ((true, atoms s), e) in H. cbn [negb] in H.
  assert ((if props_full s then malloc e else (true, e)) = (true, e)) as X.
  { destruct (props_full s); [|done]. unfold malloc. by rewrite He. }
  rewrite X in H. destruct H as (M & _ & ->). exists s'. split; [done|]. split; [done|]. by split.
Qed.
