(* ===== verification/WindowClaims.v ===== *)
(** * Windows: the theorems

    What the tree of windows, visible and update regions, owners, properties and the
    requests on windows promise, with a sample of five windows that shows that the
    hypotheses hold. *)

From Stdlib Require Import ZArith Lia Sorted.
From stdpp Require Import base list numbers option gmap.
From S2P Require Import Prelude Region RegionSpans RegionBands RegionTheorems UserHandles Unicode Atoms Windows WindowQueries WindowPaint WindowRequests WindowTree WindowUpdate WindowRedraw WindowMoved WindowSteps WindowReplies WindowProps.

#[local] Open Scope Z_scope.

(** ** A sample *)

(** A root with a window that has two children in order and one that is not linked. *)
Definition sample_window (parent : option Z) (children unlinked : list Z) (handle : Z) (thread : option Z) (r : rectangle_t) (linked : bool) : window :=
  mk_window parent 0 children unlinked handle thread 9 (Some (mk_class 0 0)) handle r r r r None None
            (Z.lor WS_VISIBLE WS_CLIPSIBLINGS) 0 linked false false 0 96 0 0 (mk_data 0 0 1 0 [] 0 0 [] 0 [1; 2; 3; 4; 5; 6; 7; 8]) 8.

Definition sample_wins : gmap Z window :=
  list_to_map
    [(1, sample_window None [2] [] 0x10020 None (mk_rect 0 0 800 600) false);
     (2, sample_window (Some 1) [3; 4] [5] 0x10022 (Some 7) (mk_rect 100 100 400 400) true);
     (3, sample_window (Some 2) [] [] 0x10024 (Some 7) (mk_rect 10 10 60 60) true);
     (4, sample_window (Some 2) [] [] 0x10026 (Some 7) (mk_rect 40 40 90 90) true);
     (5, sample_window (Some 2) [] [] 0x10028 (Some 7) (mk_rect 0 0 20 20) false)].

Definition sample_handles : user_state :=
  mk_us [mk_uh (Object 1) USER_WINDOW 1; mk_uh (Object 2) USER_WINDOW 1; mk_uh (Object 3) USER_WINDOW 1; mk_uh (Object 4) USER_WINDOW 1;
         mk_uh (Object 5) USER_WINDOW 1] None 32.

Definition sample : wstate := mk_ws sample_wins sample_handles {[9 := mk_desktop (Some 1) None]} {[7 := mk_queue 0 0 0]} [].

(** Enough memory, no error. *)
Definition sample_env : senv := mk_senv 0 [].

(** What holds for the windows one by one holds for all. *)
Lemma all_windows s (P : Z -> window -> Prop) : Forall (fun '(a, w) => P a w) (map_to_list (wins s)) -> forall a w, wins s !! a = Some w -> P a w.
Proof. intros H a w Hw. rewrite Forall_forall in H. apply (H (a, w)). by apply elem_of_map_to_list. Qed.

(** Check the windows of a concrete state. *)
Ltac each_window_of s :=
  refine (all_windows s _ _); let l := eval vm_compute in (map_to_list (wins s)) in change (map_to_list (wins s)) with l;
  repeat (apply Forall_cons; split); [..|by apply Forall_nil]; cbn beta iota.

Ltac each_window := each_window_of sample.

Lemma sample_path a : is_Some (wins sample !! a) -> exists l, path sample a l.
Proof.
  assert (path sample 1 [1]) as P1 by (by econstructor). assert (path sample 2 [2; 1]) as P2 by (by econstructor).
  intros [w Hw]. revert a w Hw. each_window; [..]; eexists; solve [exact P1|exact P2|econstructor; [reflexivity|reflexivity|exact P2]|econstructor; [reflexivity|reflexivity|exact P1]].
Qed.

Lemma sample_tree : tree_ok sample.
Proof.
  split.
  - intros p pw linked c Hp. revert linked c; revert p pw Hp. each_window; intros [] c Hc; vm_compute in Hc;
      repeat (apply elem_of_cons in Hc as [->|Hc]; [split; [done|]; eexists; split; [reflexivity|by split]|]); by apply elem_of_nil in Hc.
  - intros a w p Hw. revert p; revert a w Hw. each_window; intros p [= <-]; eexists; (split; [reflexivity|]); intros _; cbn; set_solver.
  - intros p pw linked Hp. revert linked; revert p pw Hp. each_window; intros []; apply (bool_decide_unpack _); by vm_compute.
  - exact sample_path.
  - each_window; cbn; lia.
Qed.

Lemma sample_order : win_ok sample.
Proof.
  split; [exact sample_tree|]. unfold zorder_ok. each_window; cbn; repeat constructor; done.
Qed.

Lemma sample_paint : paint_ok 800 sample.
Proof.
  split.
  - exact sample_tree.
  - split; [done|]. split; [by vm_compute|]. each_window; split; try (unfold rect_within; cbn; lia); done.
  - split.
    + by vm_compute.
    + intros a w t Hw. revert t; revert a w Hw. each_window; intros t [= <-]; by eexists.
    + intros t q H. cbn [queues sample] in H. apply lookup_singleton_Some in H as [<- <-]. by vm_compute.
  - intros a w u Hw. revert u; revert a w Hw. each_window; intros u [=].
  - intros c cw p pw Hc. revert p pw; revert c cw Hc. each_window; intros p pw [= <-] Hp; injection Hp as <-; done.
Qed.

Lemma sample_owners : owners_ok sample.
Proof.
  split.
  - intros a [w Hw]. revert a w Hw. each_window; eexists; (eapply owner_end; [reflexivity|done]).
  - each_window; by vm_compute.
  - intros h a H. unfold user_window, get_user_object in H. destruct (handle_to_entry _ h) as [i|]; [|done]. cbn [users sample handles sample_handles] in H.
    do 5 (destruct i as [|i]; [cbn in H; injection H as <-; by eexists|]). done.
Qed.

(** The windows after a request. *)
Definition served (rq : window_request) (s : wstate) (e : senv) : wstate := if serve rq (s, e) is Some (_, (s', _)) then s' else s.

(** The addresses of the children, by address of the parent. *)
Definition children_of (s : wstate) (p : Z) : option (list Z) := w_children <$> wins s !! p.

(** ** The tree and its order *)

(** C31: whatever requests change parents, owners, positions, styles, regions or the
    Z-order, in whatever order and with or without memory, the windows stay a forest:
    lists of children and parents agree, every way up ends at a root, a parent has at
    least a reference for each of its children, and among the children of a window the topmost ones come first.
    The requests are as the handlers expect them ([expected]): a window that is named as
    the previous one, or raised, is in the Z-order, and one that gets a new parent has a
    thread. *)
Theorem window_order_invariant s s' : window_steps s s' -> win_ok s -> win_ok s'.
Proof. apply window_steps_ok. Qed.

Lemma window_order_invariant_witness :
  let s' := served (UpdateZorder 0x10026 (mk_rect 45 45 50 50)) sample sample_env in
  children_of s' 2 = Some [4; 3] /\ win_ok s'.
Proof.
  split; [by vm_compute|]. apply (window_order_invariant sample); [|exact sample_order].
  eapply (steps_step sample sample _ (UpdateZorder 0x10026 (mk_rect 45 45 50 50)) sample_env sample_env); [apply steps_refl| |vm_compute; reflexivity].
  intros a w Ha Hw. vm_compute in Ha. injection Ha as <-. vm_compute in Hw. by injection Hw as <-.
Defined.

(** C35: link_window puts the window among the linked children of its parent, at the
    place that the request names (in front of the windows that are not topmost, behind all,
    in front of all, or behind the given one) and leaves the order of the others alone;
    only the topmost style changes, and the answer says whether the place is new. *)
Theorem link_window_correct s a w p pw previous :
  win_ok s -> wins s !! a = Some w -> w_parent w = Some p -> wins s !! p = Some pw -> good_previous s a p previous ->
  exists l1 l2 ex changed, link_window s a previous = Some (linked_state s a p (l1 ++ a :: l2) ex, changed) /\
    linked_well s a p w pw previous l1 l2 ex changed.
Proof. intros [T _]. by apply link_window_spec. Qed.

Lemma link_window_correct_witness :
  exists l1 l2 ex changed, link_window sample 4 WINPTR_TOP = Some (linked_state sample 4 2 (l1 ++ 4 :: l2) ex, changed) /\
    linked_well sample 4 2 (sample_window (Some 2) [] [] 0x10026 (Some 7) (mk_rect 40 40 90 90) true)
      (sample_window (Some 1) [3; 4] [5] 0x10022 (Some 7) (mk_rect 100 100 400 400) true) WINPTR_TOP l1 l2 ex changed.
Proof. apply link_window_correct; [exact sample_order|done|done|done|]. intros b. discriminate. Defined.

(** C36: set_parent_window refuses, with STATUS_INVALID_PARAMETER and without effect, exactly
    the new parents that are the window itself or below it; otherwise the window moves to
    the children of the new parent, or to the windows that are not linked, no other parent
    and no other list of children changes, and the windows stay in order. *)
Theorem set_parent_window_correct s e a w p parent :
  win_ok s -> wins s !! a = Some w -> w_parent w = Some p -> is_Some (w_thread w) ->
  (forall q, parent = Some q -> is_Some (wins s !! q)) ->
  (exists q l, parent = Some q /\ path s q l /\ a ∈ l /\
     set_parent_window a parent (s, e) = Some (false, (s, mk_senv STATUS_INVALID_PARAMETER (allocs e)))) \/
  ((forall q l, parent = Some q -> path s q l -> a ∉ l) /\
   exists s', set_parent_window a parent (s, e) = Some (true, (s', e)) /\ win_ok s' /\
     (forall b, w_parent <$> wins s' !! b =
        if decide (b = a) then Some (match parent with Some q => Some q | None => Some p end) else w_parent <$> wins s !! b) /\
     (forall b, Some b <> parent -> children_of s' b = filter (fun x => x <> a) <$> children_of s b) /\
     (forall q, parent = Some q -> exists l1 l2, children_of s' q = Some (l1 ++ a :: l2) /\ filter (fun x => x <> a) <$> children_of s q = Some (l1 ++ l2))).
Proof.
  intros WO Hw Hp Ht Hq. unfold children_of.
  destruct (set_parent_window_spec s e a w p parent WO Hw Hp Ht Hq) as [H|(H & s' & E & W' & P & C1 & C2)]; [by left|right]. split; [done|].
  exists s'. split; [done|]. split; [done|]. split; [done|]. split.
  - intros b Hb. rewrite C1 by done. by destruct (wins s !! b).
  - intros q Hq'. destruct (C2 q Hq') as (l1 & l2 & H1 & H2). exists l1, l2. split; [done|]. rewrite <-H2. by destruct (wins s !! q).
Qed.

Lemma set_parent_window_correct_witness :
  (exists q l, Some 3 = Some q /\ path sample q l /\ 4 ∈ l /\
     set_parent_window 4 (Some 3) (sample, sample_env) = Some (false, (sample, mk_senv STATUS_INVALID_PARAMETER []))) \/
  ((forall q l, Some 3 = Some q -> path sample q l -> 4 ∉ l) /\
   exists s', set_parent_window 4 (Some 3) (sample, sample_env) = Some (true, (s', sample_env)) /\ win_ok s' /\
     (forall b, w_parent <$> wins s' !! b = if decide (b = 4) then Some (Some 3) else w_parent <$> wins sample !! b) /\
     (forall b, Some b <> Some 3 -> children_of s' b = filter (fun x => x <> 4) <$> children_of sample b) /\
     (forall q, Some 3 = Some q -> exists l1 l2, children_of s' q = Some (l1 ++ 4 :: l2) /\ filter (fun x => x <> 4) <$> children_of sample q = Some (l1 ++ l2))).
Proof.
  apply (set_parent_window_correct sample sample_env 4 (sample_window (Some 2) [] [] 0x10026 (Some 7) (mk_rect 40 40 90 90) true) 2 (Some 3));
    [exact sample_order|done|done|by eexists|]. intros q [= <-]. by eexists.
Defined.

(** ** Regions on the screen *)

(** C32: with memory get_visible_region always returns a well-formed region with exactly the
    visible pixels of the window: those of its visible rectangle and region, or of its
    client area, that are inside the client areas of all parents, and neither behind a
    window in front of it or of one of its parents, nor, if asked for, under a child.
    Only windows with WS_CLIPSIBLINGS are clipped against those in front of them, and
    top-level windows never are.  Coordinates are bounded so that none wraps. *)
Theorem visible_region_correct s e B a l flags :
  allocs e = [] -> windows_fit B s -> tree_ok s -> path s a l ->
  exists reg, get_visible_region a flags (s, e) = Some (Some reg, (s, e)) /\ region_wf reg /\ forall x y, pixel reg x y = visible_pixel s l flags x y.
Proof.
  intros He Hf T P. destruct (get_visible_region_run s e B He Hf T a l flags P) as (reg & E & D). exists reg. split; [done|].
  split; [by apply (draws_wf _ _ _ D)|]. intros x y. by apply (draws_pixel _ _ _ _ _ D).
Qed.

Lemma visible_region_correct_witness :
  exists reg, get_visible_region 4 DCX_WINDOW (sample, sample_env) = Some (Some reg, (sample, sample_env)) /\ region_wf reg /\
    forall x y, pixel reg x y = visible_pixel sample [4; 2; 1] DCX_WINDOW x y.
Proof.
  apply (visible_region_correct sample sample_env 800); [done|apply sample_paint|exact sample_tree|].
  econstructor; [reflexivity|reflexivity|]. econstructor; [reflexivity|reflexivity|]. by econstructor.
Defined.

(** C34: with memory, invalidating a region of a window below the root always completes:
    the update region grows by exactly the pixels of the region that lie inside the window
    and the client areas of its parents, nothing changes outside the windows below it, and
    every queue still counts one paint message for each window of its thread with an update
    region and one for each internal paint that is due. *)
Theorem redraw_window_correct s e B a l w reg frame flags f :
  allocs e = [] -> paint_ok B s -> path s a l -> wins s !! a = Some w -> w_parent w <> None -> region_draws f reg ->
  has_bits flags RDW_INVALIDATE = true ->
  exists s', redraw a reg frame flags (s, e) = Some (tt, (s', e)) /\
    (forall x y, upd_at s' a x y = upd_at s a x y || (frame_pixel s l frame x y && from_client w f x y)) /\
    same_scene s s' /\ (forall b, ~ below s a b -> wins s' !! b = wins s !! b) /\
    (forall t q, queues s' !! t = Some q -> paint_count q = paint_total t (wins s') /\ has_bits (wake_bits q) QS_PAINT = negb (paint_count q =? 0)).
Proof.
  intros He O P Hw Hp Hf Hi. unfold redraw. wstep ltac:(apply wrun_get).
  destruct (redraw_window_run e He B (tree_fuel s) s a l w reg frame flags f O P) as (s' & E & R & U); try done.
  - inversion P as [? w' H1 H2|? w' p l' H1 H2 P']; subst; [congruence|]. inversion P'; cbn; lia.
  - unfold tree_fuel. lia.
  - exists s'. split; [done|]. split; [done|]. split; [apply R|]. split; [apply R|]. apply (po_counts _ _ (rp_ok _ _ _ _ R)).
Qed.

Lemma redraw_window_correct_witness :
  exists s', redraw 3 None true RDW_INVALIDATE (sample, sample_env) = Some (tt, (s', sample_env)) /\
    (forall x y, upd_at s' 3 x y = upd_at sample 3 x y || (frame_pixel sample [3; 2; 1] true x y && true)) /\
    same_scene sample s' /\ (forall b, ~ below sample 3 b -> wins s' !! b = wins sample !! b) /\
    (forall t q, queues s' !! t = Some q -> paint_count q = paint_total t (wins s') /\ has_bits (wake_bits q) QS_PAINT = negb (paint_count q =? 0)).
Proof.
  apply (redraw_window_correct sample sample_env 800 3 [3; 2; 1] (sample_window (Some 2) [] [] 0x10024 (Some 7) (mk_rect 10 10 60 60) true) None true RDW_INVALIDATE (fun _ _ => true));
    [done|exact sample_paint| |done|done|done|done].
  econstructor; [reflexivity|reflexivity|]. econstructor; [reflexivity|reflexivity|]. by econstructor.
Defined.

(** C33: with memory, set_window_pos without SWP_NOREDRAW on a window below the root always
    completes and leaves nothing on the screen stale: every pixel of the window that is
    visible now and was not is in its update region, every pixel that it no longer covers
    is in the update region of its parent, unless that is the root; if its frame or its
    client area changes, so is everything outside the valid rectangle.  The update region
    stays inside the window, and nothing but painting happens outside it.  Coordinates
    are bounded so that none wraps.  Nothing is said of calls with SWP_NOREDRAW, nor of
    what a top-level window uncovers. *)
Theorem set_window_pos_exposes s e B a w p pw lp previous swp_flags r :
  allocs e = [] -> win_ok s -> paint_ok B s ->
  wins s !! a = Some w -> w_parent w = Some p -> wins s !! p = Some pw -> is_Some (w_class pw) -> path s p lp -> is_Some (desktops s !! w_desktop w) ->
  (has_bits swp_flags SWP_NOZORDER = false -> good_previous s a p previous) ->
  rect_within B (p_valid r) -> has_bits swp_flags SWP_NOREDRAW = false ->
  (forall zc s1 e1, set_window_info_pos a previous swp_flags r (s, e) = Some (zc, (s1, e1)) -> windows_fit B s1) ->
  exists s1 s2 zc e2, set_window_info_pos a previous swp_flags r (s, e) = Some (zc, (s1, e)) /\ win_ok s1 /\
    set_window_pos a previous swp_flags r (s, e) = Some (tt, (s2, e2)) /\ repainted B a p lp w pw swp_flags r s s1 s2.
Proof.
  intros He WO O Hw Hp Hpw Hc P Hd Hprev Rv Hnr Hfit.
  destruct (set_window_pos_run e He B s a w p pw lp previous swp_flags r WO O Hw Hp Hpw Hc P Hd Hprev Rv Hnr) as (s1 & zc & E1 & W1 & H).
  destruct (H (Hfit zc s1 e E1)) as (s2 & e2 & E2 & R). by exists s1, s2, zc, e2.
Qed.

Lemma set_window_pos_exposes_witness :
  let r := mk_pos (mk_rect 20 20 70 70) (mk_rect 20 20 70 70) (mk_rect 20 20 70 70) (mk_rect 20 20 70 70) (mk_rect 0 0 0 0) in
  exists s1 s2 zc e2, set_window_info_pos 3 WINPTR_BOTTOM SWP_FRAMECHANGED r (sample, sample_env) = Some (zc, (s1, sample_env)) /\ win_ok s1 /\
    set_window_pos 3 WINPTR_BOTTOM SWP_FRAMECHANGED r (sample, sample_env) = Some (tt, (s2, e2)) /\
    repainted 800 3 2 [2; 1] (sample_window (Some 2) [] [] 0x10024 (Some 7) (mk_rect 10 10 60 60) true)
      (sample_window (Some 1) [3; 4] [5] 0x10022 (Some 7) (mk_rect 100 100 400 400) true) SWP_FRAMECHANGED r sample s1 s2.
Proof.
  apply set_window_pos_exposes; [done|exact sample_order|exact sample_paint|done|done|done|by eexists| |by eexists|intros _ b; discriminate|unfold rect_within; cbn; lia|done|].
  - econstructor; [reflexivity|reflexivity|]. by econstructor.
  - intros zc s1 e1 H.
    set (x := set_window_info_pos _ _ _ _ _) in H. let y := eval vm_compute in x in
      match y with Some (_, (?s2, _)) => assert (s1 = s2) as -> by (assert (x = y) as Hx by (vm_compute; reflexivity); rewrite Hx in H; apply (inj Some) in H; congruence); clear H x;
      split; [done|]; split; [by vm_compute|]; each_window_of s2 end; split; try (unfold rect_within; cbn; lia); done.
Defined.

(** ** Owners *)

(** C37: with chains of owners that end, set_window_owner on a window below the root takes
    the owner away, refuses a handle that is not valid, refuses with
    STATUS_INVALID_PARAMETER and without effect exactly the owners whose chain of owners
    meets the window, and otherwise sets the owner and replies with the old and the new
    one; chains still end.  If the chain of the new owner ends with a handle that is not
    valid any more, the request reports that error although the owner has been set. *)
Theorem set_window_owner_correct s e handle owner a w :
  owners_ok s -> user_window s handle = Some a -> wins s !! a = Some w -> w_parent w <> None ->
  (owner = 0 /\ req_set_window_owner handle owner (s, e) = Some (Some (w_owner w, 0), (upd s a (fun w => set_owner w 0), e)) /\
     owners_ok (upd s a (fun w => set_owner w 0))) \/
  (owner <> 0 /\ user_window s owner = None /\
     req_set_window_owner handle owner (s, e) = Some (None, (s, mk_senv INVALID_WINDOW (allocs e)))) \/
  (exists o ow lo, owner <> 0 /\ user_window s owner = Some o /\ wins s !! o = Some ow /\ owner_path s o lo /\
     if bool_decide (a ∈ lo) then req_set_window_owner handle owner (s, e) = Some (None, (s, mk_senv STATUS_INVALID_PARAMETER (allocs e)))
     else let s' := upd s a (fun w => set_owner w (w_handle ow)) in
          req_set_window_owner handle owner (s, e) = Some (Some (w_owner w, w_handle ow), (s', after_chain s lo e)) /\ owners_ok s').
Proof. apply set_window_owner_run. Qed.

Lemma set_window_owner_correct_witness :
  exists s' e', req_set_window_owner 0x10024 0x10026 (sample, sample_env) = Some (Some (0, 0x10026), (s', e')) /\ owners_ok s'.
Proof.
  destruct (set_window_owner_correct sample sample_env 0x10024 0x10026 3 (sample_window (Some 2) [] [] 0x10024 (Some 7) (mk_rect 10 10 60 60) true)
    sample_owners eq_refl eq_refl ltac:(done)) as [[? _]|[(_ & H & _)|(o & ow & lo & _ & Ho & How & P & H)]]; [done|by vm_compute in H|].
  vm_compute in Ho. injection Ho as <-. inversion P as [? w' H1 H2|? w' b l' H1 H2 P']; subst.
  - rewrite bool_decide_false in H by set_solver. destruct H as [H O]. assert (ow = w') as -> by congruence. rewrite H. vm_compute in H1. injection H1 as <-. by eexists _, _.
  - vm_compute in H1. injection H1 as <-. by vm_compute in H2.
Defined.

(** ** Buffers of replies and extra bytes *)

(** C39: when memory is available, get_window_parents answers with the number of parents
    and as many of their handles, from the parent up to the root, as the reply has room
    for; it writes past the end of the reply exactly if the room is too small and not a
    multiple of the size of a handle.  set_window_info, on a window below the root,
    accepts exactly the requests for at most 8 extra bytes that lie inside of those of the
    window (extra_allowed: the offset -1 names none and cannot be written to); all others
    are refused with ERROR_INVALID_INDEX and change nothing.  The reply of an accepted
    request has the old bytes; with SET_WIN_EXTRA the new value can be read back and all
    other bytes and their number stay, and without it all bytes stay; no other window
    changes. *)
Theorem window_replies_bounded s e current handle a lp w max_size r :
  tree_ok s -> user_window s handle = Some a -> path s a (a :: lp) -> wins s !! a = Some w -> w_parent w <> None ->
  0 <= max_size < 2 ^ 32 -> Z.of_nat (length lp) * 4 < 2 ^ 32 ->
  0 <= i_extra_size r -> Z.of_nat (length (d_extra (w_data w))) < 2 ^ 31 ->
  (allocs e = [] ->
   req_get_window_parents handle max_size (s, e) =
     if decide (max_size < Z.of_nat (length lp) * 4 /\ max_size mod 4 <> 0) then None
     else Some ((Z.of_nat (length lp), take (Z.to_nat (max_size / 4)) (handles_on s lp)), (s, e))) /\
  let bytes := d_extra (w_data w) in
  if decide (extra_allowed r (Z.of_nat (length bytes))) then
    exists reply s' w', req_set_window_info current handle r (s, e) = Some (Some reply, (s', e)) /\
      wins s' !! a = Some w' /\ (forall b, b <> a -> wins s' !! b = wins s !! b) /\
      old_extra_value reply =
        (if i_extra_offset r =? -1 then 0 else le_value (take (Z.to_nat (i_extra_size r)) (drop (Z.to_nat (i_extra_offset r)) bytes))) /\
      let bytes' := d_extra (w_data w') in
      length bytes' = length bytes /\
      if has_bits (i_flags r) SET_WIN_EXTRA then
        le_value (take (Z.to_nat (i_extra_size r)) (drop (Z.to_nat (i_extra_offset r)) bytes')) = i_extra_value r mod 256 ^ i_extra_size r /\
        forall i, (i < Z.to_nat (i_extra_offset r) \/ Z.to_nat (i_extra_offset r) + Z.to_nat (i_extra_size r) <= i)%nat -> bytes' !! i = bytes !! i
      else bytes' = bytes
  else req_set_window_info current handle r (s, e) = Some (None, (s, mk_senv INVALID_INDEX (allocs e))).
Proof.
  intros T Ha P Hw Hp Hm Hl Hs Hx. split; [intros He; by apply (get_window_parents_run s e handle a)|].
  pose proof (set_info_run s e current handle a w r Ha Hw Hp Hs Hx) as H. cbv zeta. case_decide as Hc; [|exact H].
  destruct H as (reply & E & R). exists reply, (upd s a (info_window r)), (info_window r w).
  split; [done|]. split; [by apply lookup_upd_eq|]. split; [intros b Hb; by apply lookup_upd_ne|]. split; [done|]. by apply info_extra_written.
Qed.

(** Writing four extra bytes, within those of the window and past their end. *)
Definition extra_request (offset : Z) : info_req := mk_info_req SET_WIN_EXTRA 0 0 0 4 0 0 0x0a0b0c0d offset.

Lemma window_replies_bounded_witness :
  req_get_window_parents 0x10026 6 (sample, sample_env) = None /\
  (exists reply s' w', req_set_window_info 7 0x10026 (extra_request 2) (sample, sample_env) = Some (Some reply, (s', sample_env)) /\ wins s' !! 4 = Some w' /\
    le_value (take 4 (drop 2 (d_extra (w_data w')))) = 0x0a0b0c0d) /\
  req_set_window_info 7 0x10026 (extra_request 100) (sample, sample_env) = Some (None, (sample, mk_senv INVALID_INDEX [])).
Proof.
  assert (path sample 4 [4; 2; 1]) as P by (econstructor; [reflexivity|reflexivity|]; econstructor; [reflexivity|reflexivity|]; by econstructor).
  pose proof (fun off => window_replies_bounded sample sample_env 7 0x10026 4 [2; 1] (sample_window (Some 2) [] [] 0x10026 (Some 7) (mk_rect 40 40 90 90) true) 6
    (extra_request off) sample_tree eq_refl P eq_refl ltac:(done) ltac:(done) ltac:(done) ltac:(done) ltac:(done)) as H.
  split; [destruct (H 2) as [H1 _]; rewrite H1 by done; by rewrite decide_True|]. split.
  - destruct (H 2) as [_ H2]. cbv zeta in H2. rewrite decide_True in H2 by (by vm_compute).
    destruct H2 as (reply & s' & w' & H2 & H3 & _ & _ & _ & H4 & _). exists reply, s', w'. split; [exact H2|]. split; [exact H3|exact H4].
  - destruct (H 100) as [_ H2]. cbv zeta in H2. rewrite decide_False in H2 by (by vm_compute; intros (_ & _ & [] & _)). exact H2.
Defined.

(** ** Properties *)

(** C38: the array of properties refines a finite map from atoms to data, in which no atom
    is twice: set_property puts the data under the atom, with a new reference on it if it
    was not set yet (property_set, WindowProps.v).  Nothing changes if the atom does not
    exist; if all entries are in use, the array is full and realloc fails, the properties
    stay, STATUS_NO_MEMORY is the error and the new reference on the atom is released.
    get_property reads the map, 0 standing for what is not set; remove_property takes the
    entry out, answers with its data and drops the reference.  When memory is available,
    get_window_properties lists the map, as far as the reply has room, and its size. *)
Theorem window_properties_correct ws s atom data type max e :
  props_ok (props s) -> type <> PROP_TYPE_FREE -> 0 <= max ->
  (let '(s', e') := set_property ws s atom data type e in
   props_ok (props s') /\
   match prop_map (props s) !! atom with
   | Some _ => prop_map (props s') = <[atom := (data, type)]> (prop_map (props s)) /\ atoms s' = atoms s /\ e' = e
   | None =>
       let '((ok, slot), e1) := grab_global_atom ws (atoms s) atom e in
       if negb ok then props s' = props s /\ atoms s' = slot /\ e' = e1
       else
         let '(room, e2) := (if props_full s then malloc e1 else (true, e1)) in
         if room : bool then prop_map (props s') = <[atom := (data, type)]> (prop_map (props s)) /\ atoms s' = slot /\ e' = e2
         else props s' = props s /\ release_global_atom ws slot atom (mk_senv STATUS_NO_MEMORY (allocs e2)) = (atoms s', e')
   end) /\
  (get_property s atom = if prop_map (props s) !! atom is Some (d, _) then d else 0) /\
  match prop_map (props s) !! atom with
  | None => remove_property ws s atom e = ((0, s), e)
  | Some (d, _) =>
      let '(slot, e1) := release_global_atom ws (atoms s) atom e in
      exists s', remove_property ws s atom e = ((d, s'), e1) /\ props_ok (props s') /\ prop_map (props s') = delete atom (prop_map (props s)) /\ atoms s' = slot
  end /\
  (allocs e = [] ->
   exists l, req_get_window_properties s max e = ((Z.of_nat (base.size (prop_map (props s))), take (Z.to_nat max) l), e) /\
     l ≡ₚ (fun '(atom, (d, t)) => (atom, bool_decide (t = PROP_TYPE_STRING), d)) <$> map_to_list (prop_map (props s))).
Proof.
  intros Hok Ht Hm. split; [by apply set_property_spec|]. split; [apply get_property_map|].
  split; [by apply remove_property_spec|intros He; by apply get_properties_spec].
Qed.

(** A window with two properties that are numbers, and a free entry. *)
Definition sample_props : prop_state :=
  mk_ps [mk_prop PROP_TYPE_ATOM 5 50; mk_prop PROP_TYPE_FREE 6 60; mk_prop PROP_TYPE_ATOM 7 70] 16 None.

(** No free entry, and no memory for more. *)
Definition full_props : prop_state := mk_ps [mk_prop PROP_TYPE_ATOM 5 50] 1 None.

Definition no_memory : senv := mk_senv 0 [false].

Lemma window_properties_correct_witness :
  props_ok (props (fst (set_property true sample_props 8 80 PROP_TYPE_ATOM sample_env))) /\
  prop_map (props (fst (set_property true sample_props 8 80 PROP_TYPE_ATOM sample_env))) = <[8 := (80, PROP_TYPE_ATOM)]> (prop_map (props sample_props)) /\
  get_property sample_props 7 = 70 /\
  props (fst (set_property true full_props 8 80 PROP_TYPE_ATOM no_memory)) = props full_props.
Proof.
  destruct (window_properties_correct true sample_props 8 80 PROP_TYPE_ATOM 4 sample_env) as ([H1 H2] & _);
    [apply (bool_decide_unpack _); by vm_compute|done|done|].
  destruct (window_properties_correct true full_props 8 80 PROP_TYPE_ATOM 4 no_memory) as ([_ H3] & _);
    [apply (bool_decide_unpack _); by vm_compute|done|done|].
  split; [exact H1|]. split; [exact (proj1 H2)|]. split; [by vm_compute|exact (proj1 H3)].
Defined.

(** ** Requests that go wrong *)

(** What the tree of windows promises about a child on one of the lists of its parent. *)
Lemma listed_right s p pw linked c : win_ok s -> wins s !! p = Some pw -> c ∈ entries linked pw -> w_is_linked <$> wins s !! c = Some linked.
Proof. intros [T _] Hp Hc. destruct (tb_child _ _ T p pw linked c Hp Hc) as (_ & cw & -> & _ & <-). done. Qed.

(** Moving a window behind a sibling that is not linked. *)
Definition behind_unlinked : window_request :=
  SetPos 0x10024 (mk_pos_req SWP_NOREDRAW 0 0x10028 (mk_rect 10 10 60 60) (mk_rect 10 10 60 60) []).

(** Raising a window that is not linked. *)
Definition raise_unlinked : window_request := UpdateZorder 0x10028 (mk_rect 12 12 15 15).

(** The lists of a window and the mark of one of its children. *)
Definition on_list (s : wstate) (linked : bool) (p c : Z) : bool :=
  if wins s !! p is Some pw then bool_decide (c ∈ entries linked pw) else false.

Definition marked (s : wstate) (c : Z) : option bool := w_is_linked <$> wins s !! c.

Lemma misplaced s linked p c : on_list s linked p c = true -> marked s c = Some (negb linked) -> ~ win_ok s.
Proof.
  unfold on_list. destruct (wins s !! p) as [pw|] eqn:E; [|done]. intros H%bool_decide_eq_true M WO.
  pose proof (listed_right _ _ _ _ _ WO E H) as X. unfold marked in M. rewrite X in M. by destruct linked.
Qed.

(** C40: requests that a client can send put windows on the wrong list: set_window_pos
    behind a sibling that is not in the Z-order marks the window (3) as linked but puts it on
    its parent's (2) list of those that are not, and update_window_zorder puts a visible
    window (5) that is not linked into the Z-order without marking it.  Both break the
    invariant of the tree of windows.  And set_window_property accepts the atom 0, under
    which the data can neither be read nor removed. *)
Theorem window_requests_wrong :
  win_ok sample /\
  (on_list sample true 2 3 = true /\ on_list sample false 2 5 = true /\ marked sample 3 = Some true /\ marked sample 5 = Some false) /\
  (let s := served behind_unlinked sample sample_env in
   on_list s false 2 3 = true /\ on_list s true 2 3 = false /\ marked s 3 = Some true /\ ~ win_ok s) /\
  (let s := served raise_unlinked sample sample_env in
   on_list s true 2 5 = true /\ on_list s false 2 5 = false /\ marked s 5 = Some false /\ ~ win_ok s) /\
  forall casemap ws, exists s', req_set_window_property casemap ws (mk_ps [] 0 None) [] 0 33 sample_env = (Some s', sample_env) /\
    prop_map (props s') = {[0 := (33, PROP_TYPE_ATOM)]} /\
    req_get_window_property casemap ws s' [] 0 sample_env = (0, sample_env) /\
    req_remove_window_property casemap ws s' [] 0 sample_env = ((0, s'), sample_env).
Proof.
  split; [exact sample_order|]. split; [by vm_compute|]. cbv zeta. split; [|split].
  - do 3 (split; [by vm_compute|]). apply (misplaced _ false 2 3); by vm_compute.
  - do 3 (split; [by vm_compute|]). apply (misplaced _ true 2 5); by vm_compute.
  - intros casemap ws. apply atom_zero_spec; [apply NoDup_nil_2|done|done].
Qed.
